(* ===== verification/_CoqProject ===== *)
-Q . S2P
Prelude.v
Monad.v
Ids.v
Params.v
Membership.v
ContactTools.v
LoginParam.v
Autoconfig.v
Headers.v
Db.v
Contacts.v
Recipients.v
MemberList.v
GroupChanges.v
GroupExchange.v
Simplify.v
FormatFlowed.v
MsgTable.v
Config.v
Transport.v
Configure.v
Sync.v
ChatDb.v
Verification.v
SecureJoin.v
JoinTrust.v
Ephemeral.v
MsgState.v
Reaction.v
ImapUids.v
Imap.v
ImapFetch.v
ImapMove.v
Smtp.v
SmtpQueue.v
Calls.v
CallStates.v
ChatAssign.v
Reception.v
ChatKinds.v
ReceptionSafety.v
ReceptionEffects.v
Proxy.v
QrCode.v
Invitations.v
Location.v
LocationStream.v
LocationSamples.v
Webxdc.v
WebxdcUpdates.v
WebxdcSamples.v
ChatActions.v
ChatSync.v
ChatReplicas.v
Mime.v
MimeParser.v
MimeTrust.v
MimeParts.v
MimeSamples.v
MimeReception.v
MimeFactory.v
MimePrivacy.v
MimeReaders.v
MimePayload.v
MimeSentSamples.v
