(* ===== verification/Prelude.v ===== *)
(** * A verification library for the Delta Chat core

    The program (src/) is the core library of a messenger that runs over e-mail.  Each device
    keeps its account in an SQLite database; messages arrive as mails over IMAP
    (src/src/imap.rs), are parsed (src/src/mimeparser.rs), change the tables
    (src/src/receive_imf.rs) and are shown by a user interface; messages the user writes are
    rendered to mails (src/src/mimefactory.rs) and sent.  There is no server that orders
    anything: the devices of a group agree on members, name and description only because the
    code that merges received changes does not depend on the order, and a contact is trusted
    only because of a handshake over mails that anybody can send.  This library models the parts
    that carry that logic, as executable definitions that follow the source function by
    function, and proves what makes them correct.

    ** The files

    Foundations:
    - [Prelude] (this file): text as lists of code points with the functions of Rust's [str],
      integers at their width with saturation, printing and parsing of integers, [result],
      the interface of replicated state ([CommutingSteps]) and of total orders
      ([StrictTotal]), automation.
    - [Monad]: the state and error monad the database code is written in, and [preserves], the
      invariants of an operation on success and on failure.
    - [Ids]: identifiers, constants and small enumerations (constants.rs, contact.rs, chat.rs).
    - [Params]: the key/value texts stored with chats and messages (param.rs) and the guarded
      timestamps in them (update_helper.rs).
    - [ContactTools]: names and addresses (deltachat-contact-tools/src/lib.rs).
    - [Headers]: header names (headerdef.rs), the fields of a parsed message the models read.

    Groups:
    - [Membership]: the table chats_contacts with its two timestamps per member, all operations
      on it (chat.rs, receive_imf.rs), and its abstraction to a last-writer-wins register.
    - [Db]: the account (tables, configured addresses, events), its small queries (chat.rs,
      config.rs, receive_imf.rs).
    - [Contacts]: the contact table: [add_or_lookup_ex], renaming, origins (contact.rs).
    - [Recipients]: fingerprints (key.rs), mapping of the recipients and past members a message
      lists to contacts (receive_imf.rs, mimeparser.rs).
    - [MemberList]: the recipients and the member headers of a sent message (mimefactory.rs,
      pgp.rs), and how the receiver matches them to contacts.
    - [GroupChanges]: what a received message does to a group or channel: explicit member
      changes, the member list on its three paths, name, description and avatar
      (receive_imf.rs, apply_group_changes and its callees); [GroupExchange]: what one member learns
      from another one's message.

    Text:
    - [Simplify]: taking the text of a received mail apart (simplify.rs) and composing the text
      of a sent one (mimefactory.rs).
    - [FormatFlowed]: wrapping and unwrapping of lines (format-flowed/src/lib.rs).

    Account setup and several devices:
    - [LoginParam]: server parameters, their expansion to candidates, provider entries
      (login_param.rs, provider.rs, configure/server_params.rs, transport.rs).
    - [Autoconfig]: the two XML formats of published settings (configure/auto_mozilla.rs,
      configure/auto_outlook.rs) and the order in which they are asked for (configure.rs).
    - [Config]: settings, their table and its cache, the queue of items for the other devices
      (config.rs, sql.rs, sync.rs).
    - [Transport]: the relays of an account: adding, removing, publishing, exchanging them
      between devices (transport.rs, configure.rs, config.rs, login_param.rs).
    - [Configure]: configuring a relay (configure.rs).
    - [Sync]: invitation tokens (token.rs), building and executing sync messages (sync.rs).

    Trust:
    - [ChatDb]: contacts, chats and sending as the join protocol uses them (chat.rs, contact.rs,
      message.rs).
    - [Verification]: marking contacts as verified (contact.rs, receive_imf.rs), chains of
      introductions (stats.rs).
    - [SecureJoin]: both sides of the handshake (securejoin.rs, securejoin/bob.rs,
      securejoin/qrinvite.rs); [JoinTrust]: its theorems.

    Messages:
    - [MsgTable]: message states, rows and tombstones (message.rs, download.rs).
    - [Ephemeral]: disappearing messages: timers, deletion on the device and the server, the
      loop that waits for the next deletion (ephemeral.rs).
    - [MsgState]: delivery, failure, read receipts, noticing, seeing, sending again (message.rs,
      mimeparser.rs, chat.rs, contact.rs, receive_imf.rs).
    - [Reaction]: emoji reactions (reaction.rs).

    IMAP:
    - [ImapUids]: sets of message numbers (imap.rs), with what they denote in RFC 3501.
    - [Imap]: selecting folders, fetching new messages, postponed downloads, planned moves and
      deletions, flags (imap.rs, imap/select_folder.rs, imap/session.rs, download.rs);
      [ImapFetch] and [ImapMove]: its theorems.

    Mails:
    - [Mime]: the tree of a parsed mail, its encrypted payload, decryption with own keys and with the
      secrets of invitations and channels, signatures, Autocrypt headers (decrypt.rs, aheader.rs,
      pgp.rs, contact.rs).
    - [MimeParser]: from a mail to a parsed message: outer and protected headers, the sender, the tree
      of parts, texts, attachments, reports, what the headers make of them (mimeparser.rs, tools.rs);
      [MimeTrust]: which headers and senders can be trusted, [MimeParts]: the parts,
      [MimeSamples]: concrete mails, [MimeReception]: from the bytes of a mail to its chat.
    - [MimeFactory]: from a message or a receipt to the mail that is sent: recipients, headers, which of
      them are seen outside, parts, gossip of keys, encryption (mimefactory.rs, e2ee.rs, chat.rs);
      [MimePrivacy]: what a mail shows, [MimeReaders]: who can read it, [MimePayload]: the headers of
      the encrypted part, [MimeSentSamples]: a concrete mail.

    Reception:
    - [ChatAssign]: from a parsed message to its chat: sender, parent message, recipients, the
      decision between group, mailing list, existing chat and 1:1 chat, creating chats
      (receive_imf.rs, mimeparser.rs, message.rs); [Reception]: storing the message, with edits,
      deletions, late attachments and the timer (receive_imf.rs); [ChatKinds], [ReceptionSafety]
      and [ReceptionEffects]: their theorems.

    Actions on chats:
    - [ChatActions]: what the user does with chats: creating, renaming, describing, muting,
      archiving, pinning, accepting, blocking, deleting them, removing members, and the execution
      of these actions on the other devices (chat.rs, contact.rs, ephemeral.rs); [ChatSync]: an
      abstract account of the actions and that each operation implements it; [ChatReplicas]:
      theorems on devices that act in turns.

    Calls, codes and proxies:
    - [Calls]: call messages and the states of calls (calls.rs); [CallStates]: its theorems.
    - [Proxy]: the proxies of an account (net/proxy.rs).
    - [QrCode]: scanned codes and links of every kind, and what accepting one does (qr.rs,
      qr/dclogin_scheme.rs, securejoin/qrinvite.rs); [Invitations]: theorems on them.

    Locations and mini apps:
    - [Location]: streaming positions to chats: granting it, recording positions, the KML of a mail
      and its parser, saving what is received, the loop that sends (location.rs, mimefactory.rs,
      receive_imf.rs); [LocationStream]: its theorems, [LocationSamples]: a small XML reader and
      concrete runs.
    - [Webxdc]: status updates of mini apps: storing, queueing, sending, receiving, listing,
      resending them (webxdc.rs, chat.rs, sql.rs); [WebxdcUpdates]: its theorems, [WebxdcSamples]:
      concrete runs.

    SMTP:
    - [Smtp]: the connection, one attempt to send a mail, the queue of messages and the queue of
      read receipts (smtp.rs, smtp/send.rs); [SmtpQueue]: its theorems.

    [Membership], [Params] and [ContactTools] are independent; [Db] puts them into one account;
    [Contacts], [Recipients], [MemberList] and [GroupChanges] run on that account.  [Config] has
    the account of the settings, on which [Transport], [Configure] and [Sync] run; [ChatDb] joins
    both accounts for [Verification], [SecureJoin], [Mime], [MimeParser], [MimeFactory], [ChatAssign], [Reception],
    [ChatActions], [QrCode] and [Webxdc].  [MsgTable], [Ephemeral], [MsgState] and
    [Reaction] share the message database of [MsgTable], to which [Smtp] adds the queues.  [Imap] has the IMAP tables and an
    abstract rest of the account, [Calls] the call messages and the settings, [Location] the tables of
    positions and the settings.

    ** How the code is modelled

    A database table is a finite map from its primary key, or a list where the scan order
    matters; a statement is a function on it, with its WHERE clause as a boolean.  Fallible code
    returns [result] or [option], with the changes made before the failure kept unless a
    transaction rolls them back.  Code that reads the clock takes [now] as an argument.  Integers
    are [Z] with the width written out where it matters ([in_i64], [sat_add], [u32_add]);
    identifiers are [N].

    Parameters stand for what the sources only call, and for the parts of the program that are
    not modelled where a modelled part calls them.  They are type classes, with the laws the
    theorems use in classes of their own: [Platform] (Unicode case mappings and the like), [Json],
    [JsonOk] and [ItemsOk] (serde), [World] (connections and HTTP during configuration), [Outside] (texts,
    random identifiers, addresses in keys), [Sending] and [SendingOk] (rendering and queueing a
    message), [Rendering] (encrypted handshake messages), [ImapServer] and [ImapServerOk] (the
    server and the async-imap crate), [MailParse] (mailparse in the IMAP client), [Mailparse], [OpenPgp]
    and [Contents] (mails as trees, keys and signatures, and what texts, files and images contain), [MailBuilder]
    and [Materials] (building and encrypting mails, and the positions, apps and files that go into them),
    [Mailroom] and [MailroomOk]
    (receiving a message and other operations on the account), [SmtpServer] (the server, the clock
    and the rate limiter during sending), [Outbox] and [OutboxOk] (producers of queued mails), [Phone] and [PhoneOk] (messages and chats
    around calls), [IceWorld] (DNS and JSON for calls), [Intake] and [IntakeOk] (choices of the
    database on reception), [Neighbours], [NeighboursOk] and [NeighboursApart] (reactions, calls,
    locations and mini apps during reception), [Urls] and [CodingOk] (the crates url and
    percent-encoding), [Signup] (new accounts on a server), [Geo] and [GeoOk] (numbers,
    dates and XML of positions), [Surroundings] and [SurroundingsOk] (the clock and the sending of
    messages around positions), [WebxdcWorld] and [WebxdcOk] (JSON and digests of mini apps, muted
    chats, the app that is built in).  Every witness instantiates them.
    Two results are not determined by the statements and are modelled as any value the statement
    allows: the row [rfc724_mid_exists_ex] finds ([Reaction]) and the order of rows of the same
    time ([MemberList]).

    Fuel: [replace_fuel] has the length of the text, of which every round consumes a character;
    [print_digits] has the number of binary digits; [Params.from_lines] has the number of lines;
    the XML parsers of [Autoconfig] have the number of events; [uid_groups] and [take_batch] have
    the number of rows, of which every round takes one; [count_chain] has the 101 rounds of the
    limit in the source.  [parse_print_digits], [from_lines_fuel_enough], [moz_fuel_enough],
    [outlk_fuel_enough], [uid_groups_spec] and the round trips show that it is enough.
    [fetch_batches], [send_mdns] and [flush_status_updates] return [None] without fuel, and
    C28, [send_mdns_ends] and C24 bound the fuel
    they need.  All other recursion is structural.

    ** The theorems

    - Joining (C1, C2, C3, C27): a contact becomes verified, or a member, only if it proved to hold
      the key of the scanned code's reader together with a valid code; the code is only sent to the
      inviter, and its number in the first request; a proven joiner is verified.
    - Sent mails (C5, C6, C8): the headers outside of an encrypted
      message are the same for all messages, only members can read it and whoever it is delivered to can,
      and what it says of itself is complete in the encrypted part.
    - Received mails (C7, C10, C11, C9): the headers of a signed message are those the signer wrote,
      headers that need a signature are dropped without one, a shared secret is only accepted from its
      owner, and only signed and encrypted messages are shown as such.
    - Invitations (C18): a link is understood by whoever scans it.
    - Membership (C12, C13, C14): devices converge, the guarded statements refine a
      last-writer-wins register, a member's message gives the receiver the join of both
      tables.
    - Received group changes (C25, C26): only members change a group, names and descriptions
      converge.
    - Reception (C4, C22): mails without a valid signature stay out
      of encrypted chats, messages are only edited or deleted by their senders.
    - IMAP (C15, C28, C16, C37): no message is skipped when a download breaks
      off, fetching ends, only planned messages are moved or deleted, sets of numbers denote what
      they should.
    - SMTP (C23): no queued message is lost silently.
    - Actions on chats (C19): the devices of a user show the same chats, as an abstract
      account of the actions has them.
    - Calls (C17): the states a call goes through.
    - Locations (C20): positions are only sent while this was granted.
    - Mini apps (C21, C24): a status update waits until a message carries it, sending the
      queue ends and sends all.
    - Relays (C29, C38, C39): the tables stay consistent, servers found for an address are complete, the number of relays
      is bounded.
    - Settings (C30): the cache agrees with the table.
    - Message states (C31): the state machine all operations follow.
    - Disappearing messages (C32): what is deleted and when.
    - Contacts (C33): names given by the user are never sent.
    - Formats (C34, C40, C35, C36): parameter lists (also those of other
      versions), what a user writes arrives, wrapping is undone.

    Further theorems without a number: local changes of the member table, aligned member lists, who
    may change a channel or a timer, who may call, delivery with the last mail, read receipts counted
    once, the loops of disappearing messages and of positions, settings that arrive, the member list on each path, one contact per key, a value that is set is
    read, relays that are removed, scanned proxies, links that are withdrawn and revived, batches of numbers, sending read receipts ends,
    bidirectional characters, addresses, reactions, entered settings, sync messages, the queue is worked off in order, both sides of a call
    agree, a relay that is removed is removed on the other devices, additions gossip all keys, handshakes show
    nothing, chains of introductions end, no position is left out and what is sent is what the receiver stores, a batch of status updates
    is stored once.  Concrete
    examples show where the code departs from its documentation ([postponed_message_lost],
    [stale_number_flagged], [late_addition_undoes_removal], [account_with_slashes],
    [crossing_updates_are_lost] and others).

    ** What is not modelled

    Network, TLS, SMTP sessions and the connection to the IMAP server, the file system, parsing the
    bytes of mails into trees, building mails and all cryptography (crates and I/O); database migrations; translated
    texts (an info message is the constructor that names its text); the bindings (deltachat-ffi,
    deltachat-jsonrpc, deltachat-rpc-server, deltachat-repl).  Left out although they have logic of
    their own: what follows the insertion of a received message, drafts and forwarding (chat.rs),
    resynchronisation of folders (imap.rs), contact cards, the chat list, the account manager. *)
From stdpp Require Export base list gmap strings numbers.

#[global] Set Default Goal Selector "!".

(** * Text

    Rust's [char] is a Unicode scalar value and [str] a sequence of them stored as UTF-8.
    A character is its code point, a string the list of its characters; where the code
    measures bytes ([str::len]) the UTF-8 length is computed. *)

Abbreviation char := N (only parsing).
Abbreviation str := (list N).

(** ASCII string literals. *)
Definition lit (s : string) : str :=
  Ascii.N_of_ascii <$> String.list_ascii_of_string s.

Definition LF : char := 10%N.
Definition CR : char := 13%N.
Definition SP : char := 32%N.
Definition EQ : char := 61%N.
(** U+200B, ZERO WIDTH SPACE. *)
Definition ZWSP : char := 8203%N.

(** [char::is_whitespace]: the Unicode property White_Space. *)
Definition is_whitespace (c : char) : bool :=
  ((9 <=? c) && (c <=? 13) || (c =? 32) || (c =? 133) || (c =? 160) || (c =? 5760)
   || (8192 <=? c) && (c <=? 8202) || (c =? 8232) || (c =? 8233) || (c =? 8239)
   || (c =? 8287) || (c =? 12288))%N.

(** [char::len_utf8] and [str::len]. *)
Definition len_utf8 (c : char) : N :=
  if (c <? 128)%N then 1%N
  else if (c <? 2048)%N then 2%N
  else if (c <? 65536)%N then 3%N
  else 4%N.

Fixpoint byte_len (s : str) : N :=
  match s with
  | [] => 0%N
  | c :: s' => (len_utf8 c + byte_len s')%N
  end.

(** [str::split] on a character: the pieces between the separators, always at least one. *)
Fixpoint split_char (sep : char) (s : str) : list str :=
  match s with
  | [] => [[]]
  | c :: s' =>
      if (c =? sep)%N then [] :: split_char sep s'
      else match split_char sep s' with
           | [] => [[c]]
           | l :: ls => (c :: l) :: ls
           end
  end.

(** [slice::join]. *)
Fixpoint join (sep : str) (ls : list str) : str :=
  match ls with
  | [] => []
  | [l] => l
  | l :: ls' => l ++ sep ++ join sep ls'
  end.

(** [str::strip_prefix], [str::strip_suffix], [str::starts_with], [str::ends_with]. *)
Fixpoint strip_prefix (p s : str) : option str :=
  match p, s with
  | [], _ => Some s
  | a :: p', b :: s' => if (a =? b)%N then strip_prefix p' s' else None
  | _ :: _, [] => None
  end.

Definition strip_suffix (p s : str) : option str :=
  @rev N <$> strip_prefix (rev p) (rev s).

(** [str::lines]: lines end with a line feed or with a carriage return and a line feed; what follows
    the last line feed is a line as it is, unless it is empty. *)
Definition lines_of (text : str) : list str :=
  match reverse (split_char LF text) with
  | [] => []
  | last :: ended =>
      ((λ l, default l (strip_suffix [CR] l)) <$> reverse ended)
      ++ match last with [] => [] | _ => [last] end
  end.

Definition starts_with (p s : str) : bool :=
  match strip_prefix p s with Some _ => true | None => false end.

Definition ends_with (p s : str) : bool :=
  match strip_suffix p s with Some _ => true | None => false end.

(** [str::contains]. *)
Fixpoint contains (p s : str) : bool :=
  starts_with p s || match s with [] => false | _ :: s' => contains p s' end.

(** [str::trim_start_matches], [str::trim_end_matches] for a character predicate. *)
Fixpoint trim_start_by (f : char -> bool) (s : str) : str :=
  match s with
  | [] => []
  | c :: s' => if f c then trim_start_by f s' else s
  end.

Definition trim_end_by (f : char -> bool) (s : str) : str :=
  rev (trim_start_by f (rev s)).

Definition trim_start : str -> str := trim_start_by is_whitespace.
Definition trim_end : str -> str := trim_end_by is_whitespace.
Definition trim (s : str) : str := trim_end (trim_start s).

(** [str::replace]: left to right, without overlaps; the pattern is not empty.
    The fuel is the length of the text, one character at least is consumed per step. *)
Fixpoint replace_fuel (fuel : nat) (pat rep s : str) : str :=
  match fuel with
  | O => s
  | S fuel' =>
      match s with
      | [] => []
      | c :: s' =>
          match strip_prefix pat s with
          | Some rest => rep ++ replace_fuel fuel' pat rep rest
          | None => c :: replace_fuel fuel' pat rep s'
          end
      end
  end.

Definition replace (pat rep s : str) : str := replace_fuel (length s) pat rep s.

(** [Iterator::take_while] as a split: the longest prefix of characters satisfying [f]. *)
Fixpoint span (f : char -> bool) (s : str) : str * str :=
  match s with
  | [] => ([], [])
  | c :: s' =>
      if f c then let '(a, b) := span f s' in (c :: a, b) else ([], s)
  end.

(** The first byte of a character's UTF-8 encoding. *)
Definition utf8_first_byte (c : char) : N :=
  (if c <? 128 then c
   else if c <? 2048 then 192 + c / 64
   else if c <? 65536 then 224 + c / 4096
   else 240 + c / 262144)%N.

(** [Result]: the value or the error. *)
Inductive result (A E : Type) : Type :=
| Ok (a : A)
| Err (e : E).

Arguments Ok {A E} a.
Arguments Err {A E} e.

(** [Result::unwrap_or]. *)
Definition unwrap_or {A E : Type} (r : result A E) (d : A) : A :=
  match r with Ok a => a | Err _ => d end.

(** [str::split_once]. *)
Fixpoint split_once (sep : char) (s : str) : option (str * str) :=
  match s with
  | [] => None
  | c :: s' =>
      if (c =? sep)%N then Some ([], s')
      else match split_once sep s' with
           | Some (a, b) => Some (c :: a, b)
           | None => None
           end
  end.

(** The order of [String]: bytewise on UTF-8, which is the order of the code points. *)
Fixpoint str_cmp (a b : str) : comparison :=
  match a, b with
  | [], [] => Eq
  | [], _ :: _ => Lt
  | _ :: _, [] => Gt
  | x :: a', y :: b' =>
      match N.compare x y with Eq => str_cmp a' b' | c => c end
  end.

(** [str::eq_ignore_ascii_case], and the equality of a [COLLATE NOCASE] column: the 26 ASCII
    letters compare without case. *)
Definition nocase (c : char) : char := (if (65 <=? c) && (c <=? 90) then c + 32 else c)%N.

Definition eq_nocase (a b : str) : bool := bool_decide (nocase <$> a = nocase <$> b).

(** * Machine integers *)

Definition i64_min : Z := -9223372036854775808.
Definition i64_max : Z := 9223372036854775807.
Definition i32_min : Z := -2147483648.
Definition i32_max : Z := 2147483647.
Definition u32_max : Z := 4294967295.
Definition u16_max : Z := 65535.

Definition in_i64 (z : Z) : bool := ((i64_min <=? z) && (z <=? i64_max))%Z.
Definition in_i32 (z : Z) : bool := ((i32_min <=? z) && (z <=? i32_max))%Z.
Definition in_u32 (z : Z) : bool := ((0 <=? z) && (z <=? u32_max))%Z.

(** [i64::saturating_add], [i64::saturating_sub]. *)
Definition sat_i64 (z : Z) : Z := Z.max i64_min (Z.min i64_max z).
Definition sat_add (a b : Z) : Z := sat_i64 (a + b).
Definition sat_sub (a b : Z) : Z := sat_i64 (a - b).

(** Decimal digits, most significant first. *)
Definition is_digit (c : char) : bool := ((48 <=? c) && (c <=? 57))%N.

Fixpoint parse_digits (acc : N) (s : str) : option N :=
  match s with
  | [] => Some acc
  | c :: s' => if is_digit c then parse_digits (10 * acc + (c - 48))%N s' else None
  end.

Fixpoint print_digits (fuel : nat) (n : N) : str :=
  match fuel with
  | O => []
  | S fuel' =>
      if (n <? 10)%N then [(48 + n)%N]
      else print_digits fuel' (n / 10)%N ++ [(48 + n mod 10)%N]
  end.

(** [ToString] of an integer. [N.size_nat n] is the number of binary digits,
    never smaller than the number of decimal ones. *)
Definition print_N (n : N) : str := print_digits (S (N.size_nat n)) n.

Definition print_Z (z : Z) : str :=
  if (z <? 0)%Z then 45%N :: print_N (Z.to_N (- z)) else print_N (Z.to_N z).

Definition parse_digits1 (s : str) : option N :=
  match s with [] => None | _ => parse_digits 0 s end.

(** [str::parse] into a signed integer: an optional sign, at least one digit, and
    an error when the value is out of range. *)
Definition parse_signed (lo hi : Z) (s : str) : option Z :=
  z ← match s with
       | [] => None
       | c :: s' =>
           if (c =? 45)%N then n ← parse_digits1 s'; Some (- Z.of_N n)%Z
           else if (c =? 43)%N then Z.of_N <$> parse_digits1 s'
           else Z.of_N <$> parse_digits1 s
       end;
  if ((lo <=? z) && (z <=? hi))%Z then Some z else None.

(** Into an unsigned integer: a minus sign is an invalid digit. *)
Definition parse_unsigned (hi : Z) (s : str) : option Z :=
  z ← match s with
       | [] => None
       | c :: s' =>
           if (c =? 43)%N then Z.of_N <$> parse_digits1 s'
           else Z.of_N <$> parse_digits1 s
       end;
  if (z <=? hi)%Z then Some z else None.

Definition parse_i64 : str -> option Z := parse_signed i64_min i64_max.
Definition parse_i32 : str -> option Z := parse_signed i32_min i32_max.
Definition parse_u32 : str -> option Z := parse_unsigned u32_max.
Definition parse_u16 : str -> option Z := parse_unsigned u16_max.

(** * Automation *)

Create HintDb text.
Create HintDb ints.

(** Case split on the boolean tests of the goal or the hypotheses, with the tests of
    [N], [Z] and [nat] turned into (in)equalities for [lia]. *)
Ltac bool_tests :=
  repeat match goal with
    | H : (_ && _)%bool = true |- _ => apply andb_true_iff in H as [? ?]
    | H : (_ && _)%bool = false |- _ => apply andb_false_iff in H
    | H : (_ || _)%bool = true |- _ => apply orb_true_iff in H
    | H : (_ || _)%bool = false |- _ => apply orb_false_iff in H as [? ?]
    | H : negb _ = true |- _ => apply negb_true_iff in H
    | H : negb _ = false |- _ => apply negb_false_iff in H
    | H : (_ =? _)%N = true |- _ => apply N.eqb_eq in H
    | H : (_ =? _)%N = false |- _ => apply N.eqb_neq in H
    | H : (_ =? _)%Z = true |- _ => apply Z.eqb_eq in H
    | H : (_ =? _)%Z = false |- _ => apply Z.eqb_neq in H
    | H : (_ <=? _)%Z = true |- _ => apply Z.leb_le in H
    | H : (_ <=? _)%Z = false |- _ => apply Z.leb_gt in H
    | H : (_ <? _)%Z = true |- _ => apply Z.ltb_lt in H
    | H : (_ <? _)%Z = false |- _ => apply Z.ltb_ge in H
    | H : (_ <? _)%N = true |- _ => apply N.ltb_lt in H
    | H : (_ <? _)%N = false |- _ => apply N.ltb_ge in H
    | H : (_ <=? _)%N = true |- _ => apply N.leb_le in H
    | H : (_ <=? _)%N = false |- _ => apply N.leb_gt in H
    end.

(** Destruct the scrutinees of the [if]s and [match]es of the goal, keeping the equations. *)
Ltac case_ifs :=
  repeat match goal with
    | |- context [if ?b then _ else _] =>
        lazymatch type of b with bool => destruct b eqn:? end
    end; bool_tests.

(** Case split on the integer comparisons of the goal. *)
Ltac zcompare :=
  repeat match goal with
    | |- context [(?a <? ?b)%Z] => destruct (Z.ltb_spec a b); simpl
    | |- context [(?a <=? ?b)%Z] => destruct (Z.leb_spec a b); simpl
    end.

(** * Lemmas on text *)

Section SplitJoin.
Context (sep : char).

Definition no_sep (l : str) : Prop := sep ∉ l.

Lemma split_char_not_nil s : split_char sep s ≠ [].
Proof.
  induction s as [|c s IH]; simpl; [done|].
  destruct (c =? sep)%N; [done|]. by destruct (split_char sep s).
Qed.

Lemma split_char_no_sep s : Forall no_sep (split_char sep s).
Proof.
  induction s as [|c s IH]; simpl.
  - constructor; [apply not_elem_of_nil|done].
  - destruct (N.eqb_spec c sep) as [->|Hne].
    + constructor; [apply not_elem_of_nil|done].
    + destruct (split_char sep s) as [|l ls].
      * constructor; [|done]. unfold no_sep. by apply not_elem_of_cons; split; [congruence|apply not_elem_of_nil].
      * inversion IH as [|? ? Hl Hls]; subst. constructor; [|done].
        unfold no_sep in *. by apply not_elem_of_cons; split; [congruence|].
Qed.

Lemma split_char_single l : no_sep l → split_char sep l = [l].
Proof.
  unfold no_sep. induction l as [|c l IH]; simpl; [done|].
  intros Hn. apply not_elem_of_cons in Hn as [Hne Hn].
  destruct (N.eqb_spec c sep); [congruence|]. by rewrite IH.
Qed.

Lemma split_char_app l s :
  no_sep l → split_char sep (l ++ sep :: s) = l :: split_char sep s.
Proof.
  unfold no_sep. induction l as [|c l IH]; simpl; intros Hn.
  - by rewrite N.eqb_refl.
  - apply not_elem_of_cons in Hn as [Hne Hn].
    destruct (N.eqb_spec c sep); [congruence|]. by rewrite IH.
Qed.

(** Splitting a joined list gives the list back, when no piece has the separator. *)
Lemma split_join ls :
  ls ≠ [] → Forall no_sep ls → split_char sep (join [sep] ls) = ls.
Proof.
  intros Hne Hf. induction Hf as [|l ls Hl Hls IH]; [done|].
  destruct ls as [|l' ls]; simpl join.
  - by apply split_char_single.
  - change ([sep] ++ join [sep] (l' :: ls)) with (sep :: join [sep] (l' :: ls)).
    rewrite split_char_app by done. f_equal. by apply IH.
Qed.

Lemma join_cons_split c l ls :
  join [sep] ((c :: l) :: ls) = c :: join [sep] (l :: ls).
Proof. by destruct ls. Qed.

Lemma join_split s : join [sep] (split_char sep s) = s.
Proof.
  induction s as [|c s IH]; simpl; [done|].
  pose proof (split_char_not_nil s) as Hne.
  destruct (N.eqb_spec c sep) as [->|].
  - simpl. destruct (split_char sep s) eqn:E; [done|]. by rewrite <- IH.
  - destruct (split_char sep s) as [|l ls] eqn:E; [done|].
    by rewrite join_cons_split, IH.
Qed.
End SplitJoin.

Lemma join_cons sep l ls : ls ≠ [] → join sep (l :: ls) = l ++ sep ++ join sep ls.
Proof. by destruct ls. Qed.

Lemma join_app sep a b :
  a ≠ [] → b ≠ [] → join sep (a ++ b) = join sep a ++ sep ++ join sep b.
Proof.
  intros Ha Hb. induction a as [|l a IH]; [done|]. destruct a as [|l' a].
  - simpl app. by rewrite join_cons.
  - rewrite <- app_comm_cons, join_cons by (by destruct b).
    rewrite IH by done. rewrite (join_cons _ l (l' :: a)) by done. by rewrite <- !app_assoc.
Qed.

Lemma join_concat sep l ls : join sep (l :: ls) = l ++ concat (app sep <$> ls).
Proof.
  revert l. induction ls as [|l' ls IH]; intros l; [by rewrite app_nil_r|].
  rewrite join_cons by done. by rewrite IH, fmap_cons, concat_cons, <- app_assoc.
Qed.

(** Splitting a joined text splits its pieces. *)
Lemma split_char_cat sep a b : split_char sep (a ++ sep :: b) = split_char sep a ++ split_char sep b.
Proof.
  induction a as [|c a IH]; simpl; [by rewrite N.eqb_refl|]. rewrite IH.
  destruct (c =? sep)%N; [done|]. pose proof (split_char_not_nil sep a).
  by destruct (split_char sep a).
Qed.

Lemma split_join_concat sep ls :
  ls ≠ [] → split_char sep (join [sep] ls) = concat (split_char sep <$> ls).
Proof.
  intros Hne. induction ls as [|l ls IH]; [done|]. destruct ls as [|l' ls].
  - csimpl. by rewrite app_nil_r.
  - rewrite join_cons, fmap_cons, concat_cons, <-IH by done. apply split_char_cat.
Qed.

Lemma split_once_app c a b : c ∉ a → split_once c (a ++ c :: b) = Some (a, b).
Proof.
  induction a as [|d a IH]; intros Hk; csimpl; [by rewrite N.eqb_refl|].
  apply not_elem_of_cons in Hk as [Hne Hk].
  rewrite (proj2 (N.eqb_neq d c)), IH by (done || congruence). done.
Qed.

Lemma split_once_absent c s : c ∉ s → split_once c s = None.
Proof.
  induction s as [|d s IH]; intros Hk; csimpl; [done|].
  apply not_elem_of_cons in Hk as [Hne Hk].
  rewrite (proj2 (N.eqb_neq d c)), IH by (done || congruence). done.
Qed.

#[export] Hint Resolve split_char_not_nil split_char_no_sep : text.

(** The characters of a joined text are those of its pieces, and the separator. *)
Lemma join_char sep l ls c : l ∈ ls → c ∈ l → c ∈ join sep ls.
Proof.
  intros Hl Hc. induction ls as [|a ls IH]; [by apply not_elem_of_nil in Hl|].
  destruct ls as [|b ls].
  - by apply elem_of_cons in Hl as [<-|Hl%not_elem_of_nil].
  - rewrite join_cons, !elem_of_app by done. apply elem_of_cons in Hl as [<-|Hl]; auto.
Qed.

Lemma join_char_inv sep ls c : c ∈ join sep ls → c ∈ sep ∨ ∃ l, l ∈ ls ∧ c ∈ l.
Proof.
  induction ls as [|a ls IH]; [intros H; by apply not_elem_of_nil in H|].
  destruct ls as [|b ls].
  - intros H. right. exists a. split; [by left|done].
  - rewrite join_cons, !elem_of_app by done. intros [H|[H|H]]; [|by left|].
    + right. exists a. split; [by left|done].
    + destruct (IH H) as [?|(l & Hl & Hc)]; [by left|right]. exists l. split; [by right|done].
Qed.

(** Filtering keeps a projection without duplicates. *)
Lemma NoDup_fmap_filter {A B} (f : A -> B) (P : A -> Prop) `{∀ x, Decision (P x)} (l : list A) :
  NoDup (f <$> l) → NoDup (f <$> filter P l).
Proof.
  induction l as [|x l IH]; [done|]. rewrite filter_cons. simpl.
  intros [Hx Hd]%list.NoDup_cons. destruct (decide (P x)); simpl; [|by apply IH].
  apply list.NoDup_cons. split; [|by apply IH].
  intros (y & Hxy & Hy)%list_elem_of_fmap. apply list_elem_of_filter in Hy as [_ Hy].
  apply Hx, list_elem_of_fmap. by exists y.
Qed.

(** Filtering one character out. *)
Lemma filter_id (s : str) c : c ∉ s → filter (λ d, d ≠ c) s = s.
Proof.
  induction s as [|d s IH]; [done|]. intros H. apply not_elem_of_cons in H as [Hd H].
  by rewrite filter_cons, decide_True, IH by congruence.
Qed.

Lemma filter_app_chars (f : char -> Prop) `{∀ c, Decision (f c)} (a b : str) :
  filter f (a ++ b) = filter f a ++ filter f b.
Proof.
  induction a as [|c a IH]; [done|]. simpl. rewrite !filter_cons.
  destruct (decide _); [simpl; by rewrite IH|done].
Qed.

Lemma strip_prefix_app p s : strip_prefix p (p ++ s) = Some s.
Proof. induction p as [|c p IH]; simpl; [done|]. by rewrite N.eqb_refl. Qed.

Lemma strip_prefix_Some p s r : strip_prefix p s = Some r → s = p ++ r.
Proof.
  revert s. induction p as [|c p IH]; intros s; simpl; [congruence|].
  destruct s as [|d s]; [done|]. destruct (N.eqb_spec c d) as [->|]; [|done].
  intros H. by rewrite (IH _ H).
Qed.

Lemma strip_suffix_Some p s r : strip_suffix p s = Some r → s = r ++ p.
Proof.
  unfold strip_suffix. rewrite fmap_Some. intros (x & H & ->).
  apply strip_prefix_Some in H. apply (f_equal (@rev N)) in H.
  by rewrite rev_involutive, rev_app_distr, rev_involutive in H.
Qed.

Lemma strip_suffix_app p s : strip_suffix p (s ++ p) = Some s.
Proof.
  unfold strip_suffix. rewrite rev_app_distr, strip_prefix_app. simpl.
  by rewrite rev_involutive.
Qed.

Lemma byte_len_app a b : byte_len (a ++ b) = (byte_len a + byte_len b)%N.
Proof. induction a as [|c a IH]; simpl; [done|]. rewrite IH. lia. Qed.

Lemma trim_start_by_suffix f s : ∃ p, s = p ++ trim_start_by f s ∧ Forall (λ c, f c = true) p.
Proof.
  induction s as [|c s [p [Hp Hf]]]; simpl; [by exists []|].
  destruct (f c) eqn:E; [|by exists []].
  exists (c :: p). split; [by rewrite Hp at 1|by constructor].
Qed.

Lemma trim_start_by_nil f s : trim_start_by f s = [] ↔ forallb f s = true.
Proof. induction s as [|c s IH]; simpl; [done|]. by destruct (f c). Qed.

Lemma trim_start_by_head f s c s' : trim_start_by f s = c :: s' → f c = false.
Proof.
  induction s as [|d s IH]; simpl; [done|].
  destruct (f d) eqn:E; [done|]. by intros [= -> ->].
Qed.

(** [replace] of a pattern that does not occur leaves the text alone, and every
    replacement text free of the pattern's first character erases it. *)
Lemma replace_fuel_char_gone fuel c s :
  length s ≤ fuel → c ∉ replace_fuel fuel [c] [] s.
Proof.
  revert s. induction fuel as [|fuel IH]; intros [|d s] Hl; simpl in *;
    try (apply not_elem_of_nil); [lia|].
  destruct (N.eqb_spec c d) as [->|Hne]; simpl.
  - apply IH. lia.
  - apply not_elem_of_cons. split; [done|]. apply IH. lia.
Qed.

Lemma replace_fuel_filter fuel c s :
  length s ≤ fuel → replace_fuel fuel [c] [] s = filter (λ d, d ≠ c) s.
Proof.
  revert s. induction fuel as [|fuel IH]; intros [|d s] Hl; simpl in *; [done|lia|done|].
  rewrite filter_cons. destruct (N.eqb_spec c d) as [->|Hne].
  - rewrite decide_False by congruence. simpl. apply IH. lia.
  - rewrite decide_True by congruence. f_equal. apply IH. lia.
Qed.

(** Replacing one character by nothing filters it out. *)
Lemma replace_char_filter c s : replace [c] [] s = filter (λ d, d ≠ c) s.
Proof. by apply replace_fuel_filter. Qed.

(** * Merges that do not depend on the order

    What replicated state promises: applying two messages in either order gives the same
    state.  Whatever is proved from the interface holds for every such state. *)
Class CommutingSteps {S M : Type} (step : S -> M -> S) : Prop :=
  step_swap s a b : step (step s a) b = step (step s b) a.

Lemma foldl_permutation {S M} (step : S -> M -> S) `{!CommutingSteps step} s (l l' : list M) :
  l ≡ₚ l' → foldl step s l = foldl step s l'.
Proof.
  intros Hp. revert s. induction Hp as [|a l l' _ IH|a b l|l l' l'' _ IH1 _ IH2]; intros s; simpl.
  - done.
  - apply IH.
  - by rewrite step_swap.
  - by rewrite IH1.
Qed.

(** * Maximum by a strict total order

    Registers that keep the larger of two values: the order in which values are joined does
    not matter. *)
Section MaxBy.
Context {A : Type} (lt : A -> A -> bool).

Definition max_by (x y : A) : A := if lt x y then y else x.

Class StrictTotal : Prop := {
  lt_irrefl x : lt x x = false;
  lt_trans x y z : lt x y = true → lt y z = true → lt x z = true;
  lt_total x y : lt x y = false → lt y x = false → x = y
}.

Context {ST : StrictTotal}.

Lemma lt_asym x y : lt x y = true → lt y x = false.
Proof.
  intros H. destruct (lt y x) eqn:E; [|done].
  by rewrite <- (lt_irrefl x), (lt_trans x y x).
Qed.

#[export] Instance max_by_commutes : CommutingSteps max_by.
Proof.
  intros x y z. unfold max_by. destruct (lt x y) eqn:Hxy, (lt x z) eqn:Hxz; rewrite ?Hxy, ?Hxz; try done.
  - destruct (lt y z) eqn:Hyz, (lt z y) eqn:Hzy; try done.
    + by rewrite (lt_asym _ _ Hyz) in Hzy.
    + by apply lt_total.
  - destruct (lt y z) eqn:Hyz; [|done]. by rewrite (lt_trans x y z Hxy Hyz) in Hxz.
  - destruct (lt z y) eqn:Hzy; [|done]. by rewrite (lt_trans x z y Hxz Hzy) in Hxy.
Qed.

End MaxBy.

Lemma str_cmp_refl a : str_cmp a a = Eq.
Proof. induction a as [|x a IH]; simpl; [done|]. by rewrite N.compare_refl. Qed.

Lemma str_cmp_eq a b : str_cmp a b = Eq → a = b.
Proof.
  revert b. induction a as [|x a IH]; intros [|y b]; simpl; try done.
  destruct (N.compare_spec x y) as [->| |]; try done. intros H. by rewrite (IH _ H).
Qed.

Lemma str_cmp_antisym a b : str_cmp b a = CompOpp (str_cmp a b).
Proof.
  revert b. induction a as [|x a IH]; intros [|y b]; simpl; try done.
  rewrite (N.compare_antisym x y). by destruct (x ?= y)%N; simpl.
Qed.

Lemma str_cmp_trans a b c : str_cmp a b = Lt → str_cmp b c = Lt → str_cmp a c = Lt.
Proof.
  revert b c. induction a as [|x a IH]; intros [|y b] [|z c]; simpl; try done.
  destruct (N.compare_spec x y) as [->|Hxy|]; try done.
  - destruct (y ?= z)%N; try done. apply IH.
  - intros _. destruct (N.compare_spec y z) as [->|Hyz|]; try done; intros _.
    + by rewrite (proj2 (N.compare_lt_iff _ _) Hxy).
    + by rewrite (proj2 (N.compare_lt_iff x z)) by lia.
Qed.

Definition str_ltb (a b : str) : bool := match str_cmp a b with Lt => true | _ => false end.

#[export] Instance str_ltb_total : StrictTotal str_ltb.
Proof.
  unfold str_ltb. split.
  - intros x. by rewrite str_cmp_refl.
  - intros x y z. destruct (str_cmp x y) eqn:E1; try done.
    destruct (str_cmp y z) eqn:E2; try done. by rewrite (str_cmp_trans _ _ _ E1 E2).
  - intros x y. rewrite (str_cmp_antisym x y).
    destruct (str_cmp x y) eqn:E; try done. by intros _ _; apply str_cmp_eq.
Qed.

(** Lexicographic combination with an integer key, ascending. *)
Definition stamp_ltb {A} (lt : A -> A -> bool) (p q : Z * A) : bool :=
  (p.1 <? q.1)%Z || (p.1 =? q.1)%Z && lt p.2 q.2.

#[export] Instance stamp_ltb_total {A} (lt : A -> A -> bool) :
  StrictTotal lt → StrictTotal (stamp_ltb lt).
Proof.
  intros HS. unfold stamp_ltb. split.
  - intros [t x]. simpl. by rewrite Z.ltb_irrefl, Z.eqb_refl, lt_irrefl.
  - intros [t x] [u y] [v z]; simpl. rewrite !orb_true_iff, !andb_true_iff.
    rewrite !Z.ltb_lt, !Z.eqb_eq.
    intros [?|[-> ?]] [?|[-> ?]]; try (left; lia). right. split; [done|by eapply lt_trans].
  - intros [t x] [u y]; simpl. rewrite !orb_false_iff, !andb_false_iff, !Z.ltb_ge, !Z.eqb_neq.
    intros [? [?|?]] [? [?|?]]; try lia. assert (t = u) as -> by lia. f_equal. by apply (lt_total lt).
Qed.

Lemma flip_total {A} (lt : A -> A -> bool) :
  StrictTotal lt → StrictTotal (λ x y, lt y x).
Proof.
  intros HS. split.
  - intros x. apply (lt_irrefl lt x).
  - intros x y z Hyx Hzy. by apply (lt_trans lt z y x).
  - intros x y Hyx Hxy. by apply (lt_total lt).
Qed.

(** * Lemmas on integers *)

Lemma is_digit_of d : (d < 10)%N → is_digit (48 + d) = true.
Proof. intros H. unfold is_digit. apply andb_true_iff. rewrite !N.leb_le. lia. Qed.

Lemma parse_digits_app acc a b :
  parse_digits acc (a ++ b) = n ← parse_digits acc a; parse_digits n b.
Proof.
  revert acc. induction a as [|c a IH]; intros acc; simpl; [done|].
  by destruct (is_digit c).
Qed.

Lemma size_nat_div10 n : (10 <= n)%N → N.size_nat (n / 10) < N.size_nat n.
Proof.
  intros Hn.
  assert (H : ∀ m, N.of_nat (N.size_nat m) = N.size m) by (intros [|p]; simpl; [done|];
    induction p as [p IH|p IH|]; simpl in *; lia).
  enough (N.size (n / 10) < N.size n)%N by (rewrite <- !H in *; lia).
  assert (n / 10 <= n / 2)%N by (apply N.div_le_compat_l; lia).
  destruct (decide (n / 10 = 0)%N) as [->|Hz].
  { simpl. rewrite N.size_log2 by lia. lia. }
  rewrite !N.size_log2 by lia. apply -> N.succ_lt_mono.
  apply (proj1 (N.log2_lt_pow2 _ _ (proj1 (N.neq_0_lt_0 _) Hz))).
  pose proof (N.log2_spec n ltac:(lia)) as [_ Hs]. rewrite N.pow_succ_r' in Hs.
  apply N.le_lt_trans with (n / 2)%N; [lia|].
  apply N.Div0.div_lt_upper_bound. lia.
Qed.

Lemma parse_print_digits fuel n :
  N.size_nat n < fuel → parse_digits 0 (print_digits fuel n) = Some n.
Proof.
  revert n. induction fuel as [|fuel IH]; intros n Hf; [lia|]. simpl.
  destruct (N.ltb_spec n 10) as [Hlt|Hge].
  - simpl. rewrite is_digit_of by done. f_equal. lia.
  - rewrite parse_digits_app, IH.
    2:{ pose proof (size_nat_div10 n Hge). lia. }
    cbn [mbind option_bind parse_digits]. pose proof (N.mod_lt n 10 ltac:(lia)).
    rewrite is_digit_of by done. f_equal.
    rewrite (N.add_comm 48), N.add_sub. symmetry. apply N.div_mod. lia.
Qed.

Lemma print_digits_not_nil fuel n : print_digits (S fuel) n ≠ [].
Proof.
  simpl. destruct (n <? 10)%N; [done|]. intros H. by apply app_eq_nil in H as [_ H].
Qed.

Lemma print_digits_Forall fuel n : Forall (λ c, is_digit c = true) (print_digits fuel n).
Proof.
  revert n. induction fuel as [|fuel IH]; intros n; simpl; [done|].
  destruct (N.ltb_spec n 10); [constructor; [by apply is_digit_of|done]|].
  apply Forall_app. split; [done|]. constructor; [|done].
  apply is_digit_of, N.mod_lt. lia.
Qed.

(** The head of a printed number is a digit, so neither a sign nor a separator. *)
Lemma print_N_head n : ∃ c s, print_N n = c :: s ∧ is_digit c = true.
Proof.
  unfold print_N. pose proof (print_digits_not_nil (N.size_nat n) n) as Hne.
  pose proof (print_digits_Forall (S (N.size_nat n)) n) as Hf.
  destruct (print_digits _ n) as [|c s]; [done|]. inversion Hf; subst. eauto.
Qed.

Lemma parse_print_N n : parse_digits1 (print_N n) = Some n.
Proof.
  assert (H : parse_digits 0 (print_N n) = Some n) by (apply parse_print_digits; lia).
  destruct (print_N_head n) as (c & s & E & _). by rewrite E in *.
Qed.

(** Printing an integer and parsing it gives it back, if it is in range. *)
Lemma parse_print_signed lo hi z :
  (lo <= z <= hi)%Z → parse_signed lo hi (print_Z z) = Some z.
Proof.
  intros Hr. unfold parse_signed, print_Z.
  assert (Hin : ((lo <=? z) && (z <=? hi))%Z = true)
    by (apply andb_true_iff; rewrite !Z.leb_le; lia).
  destruct (Z.ltb_spec z 0).
  - simpl. rewrite parse_print_N. simpl.
    replace (- Z.of_N (Z.to_N (- z)))%Z with z by lia. by rewrite Hin.
  - destruct (print_N_head (Z.to_N z)) as (c & s & E & Hd). rewrite E.
    unfold is_digit in Hd. apply andb_true_iff in Hd as [Hd1 Hd2].
    rewrite N.leb_le in Hd1, Hd2.
    rewrite (proj2 (N.eqb_neq c 45)) by lia. rewrite (proj2 (N.eqb_neq c 43)) by lia.
    rewrite <- E, parse_print_N. simpl. rewrite Z2N.id by lia. by rewrite Hin.
Qed.

Lemma parse_signed_range lo hi s z : parse_signed lo hi s = Some z → (lo <= z <= hi)%Z.
Proof.
  unfold parse_signed. intros H. apply bind_Some in H as (y & _ & H).
  destruct (_ && _) eqn:E in H; [|done]. injection H as ->. bool_tests. lia.
Qed.

Lemma parse_print_i64 z : in_i64 z = true → parse_i64 (print_Z z) = Some z.
Proof. unfold in_i64. intros H. bool_tests. by apply parse_print_signed. Qed.

Lemma parse_print_i32 z : in_i32 z = true → parse_i32 (print_Z z) = Some z.
Proof. unfold in_i32. intros H. bool_tests. by apply parse_print_signed. Qed.

Lemma parse_print_unsigned hi z :
  (0 <= z <= hi)%Z → parse_unsigned hi (print_Z z) = Some z.
Proof.
  unfold parse_unsigned, print_Z. intros H.
  rewrite (proj2 (Z.ltb_ge z 0)) by lia.
  destruct (print_N_head (Z.to_N z)) as (c & s & E & Hd). rewrite E.
  unfold is_digit in Hd. bool_tests. rewrite (proj2 (N.eqb_neq c 43)) by lia.
  rewrite <- E, parse_print_N. simpl. rewrite Z2N.id by lia.
  by rewrite (proj2 (Z.leb_le _ _)) by lia.
Qed.

Lemma parse_print_u32 z : in_u32 z = true → parse_u32 (print_Z z) = Some z.
Proof. unfold in_u32. intros H. bool_tests. by apply parse_print_unsigned. Qed.

Lemma sat_i64_range z : in_i64 (sat_i64 z) = true.
Proof.
  unfold in_i64, sat_i64, i64_min, i64_max. apply andb_true_iff. rewrite !Z.leb_le. lia.
Qed.

#[export] Hint Resolve parse_print_i64 parse_print_i32 parse_print_u32 sat_i64_range : ints.
