(* ===== verification/Monad.v ===== *)
(** Monad: the state and error monad the database code is written in.  An operation may fail
    with the changes made before the failure kept: what was committed stays committed. *)
From S2P Require Import Prelude.

Definition SE (St Er A : Type) : Type := St -> result A Er * St.

Section Operations.
Context {St Er : Type}.
Implicit Types A B : Type.

Definition ret {A} (a : A) : SE St Er A := λ c, (Ok a, c).
Definition fail {A} (e : Er) : SE St Er A := λ c, (Err e, c).
Definition bind {A B} (x : SE St Er A) (f : A -> SE St Er B) : SE St Er B :=
  λ c, match x c with
       | (Ok a, c') => f a c'
       | (Err e, c') => (Err e, c')
       end.
Definition gets {A} (f : St -> A) : SE St Er A := λ c, (Ok (f c), c).
Definition modify (f : St -> St) : SE St Er unit := λ c, (Ok tt, f c).

(** [if b { x }]. *)
Definition when (b : bool) (x : SE St Er unit) : SE St Er unit := if b then x else ret tt.

(** [&&] of Rust evaluates the right operand, here a database operation, only when the left
    one holds. *)
Definition and_then (b : bool) (x : SE St Er bool) : SE St Er bool :=
  if b then x else ret false.

(** [Option::context] and [?]: the value, or this error. *)
Definition ok_or {A} (o : option A) (e : Er) : SE St Er A :=
  match o with Some a => ret a | None => fail e end.

(** [x.await.log_err(..).ok()]: a failure is logged and ignored. *)
Definition ignore_err {A} (x : SE St Er A) : SE St Er (option A) :=
  λ c, match x c with
       | (Ok a, c') => (Ok (Some a), c')
       | (Err _, c') => (Ok None, c')
       end.
End Operations.

Declare Scope m_scope.
Delimit Scope m_scope with M.
Notation "x <- a ;; b" := (bind a (λ x, b))
  (at level 100, a at next level, right associativity) : m_scope.
Notation "a ;;; b" := (bind a (λ _, b)) (at level 100, right associativity) : m_scope.
Open Scope m_scope.

(** [for x in l { f(x)?; }]. *)
Fixpoint for_each {St Er A} (l : list A) (f : A -> SE St Er unit) : SE St Er unit :=
  match l with
  | [] => ret tt
  | x :: l' => f x ;;; for_each l' f
  end.

(** ** Invariants

    An operation preserves a predicate on the state whether it succeeds or fails. *)
Definition preserves {St Er A} (P : St -> Prop) (x : SE St Er A) : Prop :=
  ∀ c, P c → P (x c).2.

Section Preserves.
Context {St Er : Type} (P : St -> Prop).

Lemma preserves_ret {A} (a : A) : preserves (Er := Er) P (ret a).
Proof. by intros c. Qed.

Lemma preserves_fail {A} (e : Er) : preserves (A := A) P (fail e).
Proof. by intros c. Qed.

Lemma preserves_gets {A} (f : St -> A) : preserves (Er := Er) P (gets f).
Proof. by intros c. Qed.

Lemma preserves_modify (f : St -> St) : (∀ c, P c → P (f c)) → preserves (Er := Er) P (modify f).
Proof. intros H c. apply H. Qed.

Lemma preserves_bind {A B} (x : SE St Er A) (f : A -> SE St Er B) :
  preserves P x → (∀ a, preserves P (f a)) → preserves P (bind x f).
Proof.
  intros Hx Hf c Hc. unfold bind. specialize (Hx c Hc).
  destruct (x c) as [[a|e] c']; simpl in *; [by apply Hf|done].
Qed.

Lemma preserves_when (b : bool) (x : SE St Er unit) :
  preserves P x → preserves P (when b x).
Proof. destruct b; [done|]. intros _. apply preserves_ret. Qed.

Lemma preserves_and_then (b : bool) (x : SE St Er bool) :
  preserves P x → preserves P (and_then b x).
Proof. destruct b; [done|]. intros _. apply preserves_ret. Qed.

Lemma preserves_ok_or {A} (o : option A) (e : Er) : preserves P (ok_or o e).
Proof. destruct o; [apply preserves_ret|apply preserves_fail]. Qed.

Lemma preserves_ignore_err {A} (x : SE St Er A) :
  preserves P x → preserves P (ignore_err x).
Proof.
  intros Hx c Hc. unfold ignore_err. specialize (Hx c Hc). by destruct (x c) as [[a|e] c'].
Qed.

Lemma preserves_for_each {A} (l : list A) (f : A -> SE St Er unit) :
  (∀ x, x ∈ l → preserves P (f x)) → preserves P (for_each l f).
Proof.
  induction l as [|x l IH]; intros H; simpl; [apply preserves_ret|].
  apply preserves_bind; [apply H; by left|]. intros _. apply IH. intros y Hy. apply H. by right.
Qed.
End Preserves.

Create HintDb preserves.
#[export] Hint Resolve preserves_ret preserves_fail preserves_gets preserves_when
  preserves_and_then preserves_ok_or preserves_ignore_err : preserves.

(** Walk through an operation that keeps a predicate: sequencing and branching are taken
    apart, the operations with a lemma in [preserves] are closed. *)
Ltac preserves_tac :=
  repeat match goal with
  | |- preserves _ (bind _ _) => apply preserves_bind; [|intros ?]
  | |- preserves _ (when _ _) => apply preserves_when
  | |- preserves _ (ignore_err _) => apply preserves_ignore_err
  | |- preserves _ (match ?x with _ => _ end) => destruct x
  | |- preserves _ (let '_ := ?x in _) => destruct x
  | |- preserves _ _ => solve [eauto with preserves]
  end.

(** A sequence that succeeded is two operations that did. *)
Lemma bind_ok {St Er A B} (x : SE St Er A) (g : A -> SE St Er B) s y s' :
  bind x g s = (Ok y, s') → ∃ v s1, x s = (Ok v, s1) ∧ g v s1 = (Ok y, s').
Proof. unfold bind. destruct (x s) as [[v|e] s1]; [|done]. intros H. by exists v, s1. Qed.

(** What an operation kept, after a run that is known. *)
Lemma preserves_run {St Er A} (P : St -> Prop) (x : SE St Er A) s r s' :
  preserves P x → x s = (r, s') → P s → P s'.
Proof. intros Hx E Hs. specialize (Hx s Hs). by rewrite E in Hx. Qed.

(** Run the operations of the goal one step: the monad's combinators are unfolded, the
    operations stay folded. *)
Ltac run_se :=
  unfold when, ok_or, bind, ret, fail, gets, modify; cbv beta iota zeta; cbn [andb orb negb].
