(* ===== verification/Ids.v ===== *)
(** Ids: identifiers and small enumerations shared by the components: contact and chat ids
    (src/src/contact.rs, src/src/chat.rs) and the constants of src/src/constants.rs. *)
From S2P Require Import Prelude.

(** [struct ContactId(u32)] and [struct ChatId(u32)], [struct MsgId(u32)]. *)
Abbreviation ContactId := N (only parsing).
Abbreviation ChatId := N (only parsing).
Abbreviation MsgId := N (only parsing).

Definition UNDEFINED : ContactId := 0%N.
Definition SELF : ContactId := 1%N.
Definition INFO : ContactId := 2%N.
Definition DEVICE : ContactId := 5%N.
Definition CONTACT_LAST_SPECIAL : ContactId := 9%N.

(** [ContactId::is_special]. *)
Definition contact_is_special (id : ContactId) : bool := (id <=? CONTACT_LAST_SPECIAL)%N.

Definition DC_CHAT_ID_TRASH : ChatId := 3%N.
Definition DC_CHAT_ID_ARCHIVED_LINK : ChatId := 6%N.
Definition DC_CHAT_ID_ALLDONE_HINT : ChatId := 7%N.
Definition DC_CHAT_ID_LAST_SPECIAL : ChatId := 9%N.

(** [ChatId::is_special]. *)
Definition chat_is_special (id : ChatId) : bool :=
  ((0 <=? id) && (id <=? DC_CHAT_ID_LAST_SPECIAL))%N.

(** Clock skew tolerated on received timestamps, in seconds. *)
Definition TIMESTAMP_SENT_TOLERANCE : Z := 60.

Module Blocked.
(** [enum Blocked]. *)
Inductive Blocked : Set := Not | Yes | Request.
End Blocked.

Module Chattype.
(** [enum Chattype]. *)
Inductive Chattype : Set := Single | Group | Mailinglist | OutBroadcast | InBroadcast.
End Chattype.

#[export] Instance Chattype_eq_dec : EqDecision Chattype.Chattype.
Proof. solve_decision. Defined.

#[export] Instance Blocked_eq_dec : EqDecision Blocked.Blocked.
Proof. solve_decision. Defined.

Module Origin.
(** [enum Origin]: where a contact is known from. *)
Inductive Origin : Set :=
| Unknown | MailinglistAddress | Hidden | IncomingUnknownFrom | IncomingUnknownCc
| IncomingUnknownTo | UnhandledQrScan | UnhandledSecurejoinQrScan | IncomingReplyTo | IncomingCc
| IncomingTo | CreateChat | OutgoingBcc | OutgoingCc | OutgoingTo | Internal | AddressBook
| SecurejoinInvited | SecurejoinJoined | ManuallyCreated.

(** The discriminants, which also order the variants. *)
Definition to_u32 (o : Origin) : N :=
  match o with
  | Unknown => 0
  | MailinglistAddress => 0x2
  | Hidden => 0x8
  | IncomingUnknownFrom => 0x10
  | IncomingUnknownCc => 0x20
  | IncomingUnknownTo => 0x40
  | UnhandledQrScan => 0x80
  | UnhandledSecurejoinQrScan => 0x81
  | IncomingReplyTo => 0x100
  | IncomingCc => 0x200
  | IncomingTo => 0x400
  | CreateChat => 0x800
  | OutgoingBcc => 0x1000
  | OutgoingCc => 0x2000
  | OutgoingTo => 0x4000
  | Internal => 0x40000
  | AddressBook => 0x80000
  | SecurejoinInvited => 0x1000000
  | SecurejoinJoined => 0x2000000
  | ManuallyCreated => 0x4000000
  end%N.

Definition leb (a b : Origin) : bool := (to_u32 a <=? to_u32 b)%N.
Definition ltb (a b : Origin) : bool := (to_u32 a <? to_u32 b)%N.

(** [Origin::is_known]. *)
Definition is_known (o : Origin) : bool := leb IncomingReplyTo o.
End Origin.

#[export] Instance Origin_eq_dec : EqDecision Origin.Origin.
Proof. solve_decision. Defined.
