(* ===== verification/Params.v ===== *)
(** Params: the key=value parameter lists attached to chats, contacts and messages
    (src/src/param.rs), the timestamp updates on them (src/src/update_helper.rs) and the
    system-message kinds stored in them (src/src/mimeparser.rs).

    A [BTreeMap<Param, String>] is a [gmap] together with [iter], which lists its entries
    in the order of the keys: the derived [Ord] of an enum with discriminants compares the
    discriminants. *)
From S2P Require Import Prelude.

(** ** Keys *)

Module Param.

(** [enum Param]: the constructors in the order of the source. *)
Inductive Param : Set :=
| File
| Filename
| OverrideSenderDisplayname
| Width
| Height
| Duration
| MimeType
| SendHtml
| GuaranteeE2ee
| ProtectQuote
| ErroneousE2ee
| ForcePlaintext
| DeprecatedSkipAutocrypt
| WantsMdn
| Reaction
| LastReactionTimestamp
| LastReactionMsgId
| LastReactionContactId
| Bot
| Forwarded
| Quote
| Summary1
| Cmd
| Arg
| Arg2
| Arg3
| Arg4
| AttachChatAvatarAndDescription
| WebrtcRoom
| WebrtcAccepted
| WebrtcHasVideoInitially
| PrepForwards
| SetLatitude
| SetLongitude
| Unpromoted
| ProfileImage
| Selftalk
| LastSubject
| Devicetalk
| ListPost
| ListId
| StatusTimestamp
| AvatarTimestamp
| EphemeralSettingsTimestamp
| SubjectTimestamp
| GroupNameTimestamp
| GroupDescriptionTimestamp
| MemberListTimestamp
| WebxdcDocument
| WebxdcDocumentTimestamp
| WebxdcSummary
| WebxdcSummaryTimestamp
| WebxdcIntegration
| WebxdcIntegrateFor
| DeleteRequestFor
| TextEditFor
| IsEdited
| ContactAddedRemoved
| PostMessageViewtype
| PostMessageFileBytes.

(** The discriminant of each key, [*key as u8]. *)
Definition to_u8 (k : Param) : N :=
  match k with
  | File => 102%N
  | Filename => 118%N
  | OverrideSenderDisplayname => 79%N
  | Width => 119%N
  | Height => 104%N
  | Duration => 100%N
  | MimeType => 109%N
  | SendHtml => 84%N
  | GuaranteeE2ee => 99%N
  | ProtectQuote => 48%N
  | ErroneousE2ee => 101%N
  | ForcePlaintext => 117%N
  | DeprecatedSkipAutocrypt => 111%N
  | WantsMdn => 114%N
  | Reaction => 120%N
  | LastReactionTimestamp => 121%N
  | LastReactionMsgId => 89%N
  | LastReactionContactId => 49%N
  | Bot => 98%N
  | Forwarded => 97%N
  | Quote => 113%N
  | Summary1 => 52%N
  | Cmd => 83%N
  | Arg => 69%N
  | Arg2 => 70%N
  | Arg3 => 71%N
  | Arg4 => 72%N
  | AttachChatAvatarAndDescription => 65%N
  | WebrtcRoom => 86%N
  | WebrtcAccepted => 55%N
  | WebrtcHasVideoInitially => 122%N
  | PrepForwards => 80%N
  | SetLatitude => 108%N
  | SetLongitude => 110%N
  | Unpromoted => 85%N
  | ProfileImage => 105%N
  | Selftalk => 75%N
  | LastSubject => 116%N
  | Devicetalk => 68%N
  | ListPost => 112%N
  | ListId => 115%N
  | StatusTimestamp => 106%N
  | AvatarTimestamp => 74%N
  | EphemeralSettingsTimestamp => 66%N
  | SubjectTimestamp => 67%N
  | GroupNameTimestamp => 103%N
  | GroupDescriptionTimestamp => 54%N
  | MemberListTimestamp => 107%N
  | WebxdcDocument => 82%N
  | WebxdcDocumentTimestamp => 87%N
  | WebxdcSummary => 78%N
  | WebxdcSummaryTimestamp => 81%N
  | WebxdcIntegration => 51%N
  | WebxdcIntegrateFor => 50%N
  | DeleteRequestFor => 77%N
  | TextEditFor => 73%N
  | IsEdited => 76%N
  | ContactAddedRemoved => 53%N
  | PostMessageViewtype => 56%N
  | PostMessageFileBytes => 57%N
  end.

(** Every key, in the order of the source. *)
Definition variants : list Param :=
  [File; Filename; OverrideSenderDisplayname; Width; Height;
   Duration; MimeType; SendHtml; GuaranteeE2ee; ProtectQuote;
   ErroneousE2ee; ForcePlaintext; DeprecatedSkipAutocrypt; WantsMdn; Reaction;
   LastReactionTimestamp; LastReactionMsgId; LastReactionContactId; Bot; Forwarded;
   Quote; Summary1; Cmd; Arg; Arg2;
   Arg3; Arg4; AttachChatAvatarAndDescription; WebrtcRoom; WebrtcAccepted;
   WebrtcHasVideoInitially; PrepForwards; SetLatitude; SetLongitude; Unpromoted;
   ProfileImage; Selftalk; LastSubject; Devicetalk; ListPost;
   ListId; StatusTimestamp; AvatarTimestamp; EphemeralSettingsTimestamp; SubjectTimestamp;
   GroupNameTimestamp; GroupDescriptionTimestamp; MemberListTimestamp; WebxdcDocument; WebxdcDocumentTimestamp;
   WebxdcSummary; WebxdcSummaryTimestamp; WebxdcIntegration; WebxdcIntegrateFor; DeleteRequestFor;
   TextEditFor; IsEdited; ContactAddedRemoved; PostMessageViewtype; PostMessageFileBytes].

(** [Param::from_u8], derived by [FromPrimitive]. *)
Definition from_u8 (b : N) : option Param :=
  head (filter (λ k, to_u8 k = b) variants).

End Param.

Abbreviation Param := Param.Param.

(** ** System messages *)

Module SystemMessage.

(** [enum SystemMessage] of mimeparser.rs. *)
Inductive SystemMessage : Set :=
| Unknown
| GroupNameChanged
| GroupImageChanged
| MemberAddedToGroup
| MemberRemovedFromGroup
| AutocryptSetupMessage
| SecurejoinMessage
| LocationStreamingEnabled
| LocationOnly
| EphemeralTimerChanged
| ChatProtectionEnabled
| ChatProtectionDisabled
| InvalidUnencryptedMail
| SecurejoinWait
| SecurejoinWaitTimeout
| MultiDeviceSync
| WebxdcStatusUpdate
| WebxdcInfoMessage
| IrohNodeAddr
| ChatE2ee
| CallAccepted
| CallEnded
| GroupDescriptionChanged.

Definition to_i32 (k : SystemMessage) : Z :=
  match k with
  | Unknown => 0%Z
  | GroupNameChanged => 2%Z
  | GroupImageChanged => 3%Z
  | MemberAddedToGroup => 4%Z
  | MemberRemovedFromGroup => 5%Z
  | AutocryptSetupMessage => 6%Z
  | SecurejoinMessage => 7%Z
  | LocationStreamingEnabled => 8%Z
  | LocationOnly => 9%Z
  | EphemeralTimerChanged => 10%Z
  | ChatProtectionEnabled => 11%Z
  | ChatProtectionDisabled => 12%Z
  | InvalidUnencryptedMail => 13%Z
  | SecurejoinWait => 14%Z
  | SecurejoinWaitTimeout => 15%Z
  | MultiDeviceSync => 20%Z
  | WebxdcStatusUpdate => 30%Z
  | WebxdcInfoMessage => 32%Z
  | IrohNodeAddr => 40%Z
  | ChatE2ee => 50%Z
  | CallAccepted => 66%Z
  | CallEnded => 67%Z
  | GroupDescriptionChanged => 70%Z
  end.

Definition variants : list SystemMessage :=
  [Unknown; GroupNameChanged; GroupImageChanged; MemberAddedToGroup;
   MemberRemovedFromGroup; AutocryptSetupMessage; SecurejoinMessage; LocationStreamingEnabled;
   LocationOnly; EphemeralTimerChanged; ChatProtectionEnabled; ChatProtectionDisabled;
   InvalidUnencryptedMail; SecurejoinWait; SecurejoinWaitTimeout; MultiDeviceSync;
   WebxdcStatusUpdate; WebxdcInfoMessage; IrohNodeAddr; ChatE2ee;
   CallAccepted; CallEnded; GroupDescriptionChanged].

(** [SystemMessage::from_i32]; [Unknown] is the default. *)
Definition from_i32 (z : Z) : option SystemMessage :=
  head (filter (λ k, to_i32 k = z) variants).

End SystemMessage.

#[export] Instance Param_eq_dec : EqDecision Param.
Proof. solve_decision. Defined.

#[export] Instance SystemMessage_eq_dec : EqDecision SystemMessage.SystemMessage.
Proof. solve_decision. Defined.

Lemma Param_from_to_u8 k : Param.from_u8 (Param.to_u8 k) = Some k.
Proof. by destruct k. Qed.

#[export] Instance Param_countable : Countable Param :=
  inj_countable Param.to_u8 Param.from_u8 Param_from_to_u8.

Lemma SystemMessage_from_to_i32 k :
  SystemMessage.from_i32 (SystemMessage.to_i32 k) = Some k.
Proof. by destruct k. Qed.

(** ** The map *)

(** [struct Params]. *)
Record Params := { inner : gmap Param str }.

(** The keys in ascending order of their discriminants. *)
Definition keys_ascending : list Param := omap Param.from_u8 (N.of_nat <$> seq 0 256).

(** [BTreeMap::iter]. *)
Definition iter (m : gmap Param str) : list (Param * str) :=
  omap (λ k, pair k <$> m !! k) keys_ascending.

(** [Params::new], [get], [exists], [set], [remove], [set_optional], [is_empty], [len].
    [set] has a [debug_assert] on the value of [File], which release builds drop. *)
Definition Params_new : Params := {| inner := ∅ |}.

Definition Params_get (p : Params) (key : Param) : option str := inner p !! key.

Definition Params_exists (p : Params) (key : Param) : bool :=
  match inner p !! key with Some _ => true | None => false end.

Definition Params_set (p : Params) (key : Param) (value : str) : Params :=
  {| inner := <[key := value]> (inner p) |}.

Definition Params_remove (p : Params) (key : Param) : Params :=
  {| inner := delete key (inner p) |}.

Definition Params_set_optional (p : Params) (key : Param) (value : option str) : Params :=
  match value with
  | Some v => Params_set p key v
  | None => Params_remove p key
  end.

Definition Params_is_empty (p : Params) : bool := bool_decide (inner p = ∅).

Definition Params_len (p : Params) : nat := size (inner p).

(** The typed accessors: [get_int], [get_i64], [get_bool], [set_int], [set_i64],
    [get_cmd], [set_cmd]. *)
Definition get_int (p : Params) (key : Param) : option Z := Params_get p key ≫= parse_i32.

Definition get_i64 (p : Params) (key : Param) : option Z := Params_get p key ≫= parse_i64.

Definition get_bool (p : Params) (key : Param) : option bool :=
  (λ v, negb (v =? 0)%Z) <$> get_int p key.

Definition set_int (p : Params) (key : Param) (value : Z) : Params :=
  Params_set p key (print_Z value).

Definition set_i64 (p : Params) (key : Param) (value : Z) : Params :=
  Params_set p key (print_Z value).

Definition get_cmd (p : Params) : SystemMessage.SystemMessage :=
  default SystemMessage.Unknown (get_int p Param.Cmd ≫= SystemMessage.from_i32).

Definition set_cmd (p : Params) (value : SystemMessage.SystemMessage) : Params :=
  set_int p Param.Cmd (SystemMessage.to_i32 value).

(** [steal]: moves the entry of [key] from [src] to [p]; both are returned. *)
Definition steal (p src : Params) (key : Param) : Params * Params :=
  let val := inner src !! key in
  let src' := {| inner := delete key (inner src) |} in
  match val with
  | Some v => ({| inner := <[key := v]> (inner p) |}, src')
  | None => (p, src')
  end.

(** [merge_in_params]: [BTreeMap::append] overwrites with the new values. *)
Definition merge_in_params (p new_params : Params) : Params :=
  {| inner := inner new_params ∪ inner p |}.

(** ** Printing and parsing *)

(** One entry of [Display]: the key, an equals sign, and the value with its line feeds doubled. *)
Definition fmt_entry (kv : Param * str) : str :=
  Param.to_u8 kv.1 :: EQ :: join [LF; LF] (split_char LF kv.2).

(** [impl Display for Params]: a line feed before every entry but the first. *)
Fixpoint fmt_entries (i : nat) (l : list (Param * str)) : str :=
  match l with
  | [] => []
  | kv :: l' =>
      (if (0 <? i)%nat then [LF] else []) ++ fmt_entry kv ++ fmt_entries (S i) l'
  end.

Definition to_string (p : Params) : str := fmt_entries 0 (iter (inner p)).

(** [bail!("Not a key-value pair: ...")]. *)
Inductive ParamsError := NotAKeyValuePair (line : str).

(** The inner loop of [from_str]: while the next line is empty, that line and the one
    after it (if any) continue the value. *)
Fixpoint value_lines (value : str) (lines : list str) : str * list str :=
  match lines with
  | [] :: rest =>
      match rest with
      | [] => (value ++ [LF], [])
      | l :: rest' => value_lines (value ++ LF :: l) rest'
      end
  | _ => (value, lines)
  end.

(** [key.as_bytes().first().and_then(Param::from_u8)]. *)
Definition parse_key (key : str) : option Param :=
  c ← head key; Param.from_u8 (utf8_first_byte c).

(** The outer loop. Every turn takes at least one line, so the number of lines is enough
    fuel ([from_lines_fuel_enough]). *)
Fixpoint from_lines (fuel : nat) (m : gmap Param str) (lines : list str)
  : result (gmap Param str) ParamsError :=
  match fuel, lines with
  | _, [] => Ok m
  | O, line :: _ => Err (NotAKeyValuePair line)
  | S fuel', line :: rest =>
      match split_once EQ line with
      | Some (key, value) =>
          let '(value, rest) := value_lines value rest in
          let m := match parse_key key with
                   | Some k => <[k := value]> m
                   | None => m
                   end in
          from_lines fuel' m rest
      | None => Err (NotAKeyValuePair line)
      end
  end.

(** [impl FromStr for Params]. *)
Definition from_str (s : str) : result Params ParamsError :=
  let lines := split_char LF s in
  match from_lines (length lines) ∅ lines with
  | Ok m => Ok {| inner := m |}
  | Err e => Err e
  end.

(** ** Timestamps (update_helper.rs) *)

(** [Params::update_timestamp]: whether the caller shall update, and the new parameters. *)
Definition update_timestamp (p : Params) (scope : Param) (new_timestamp : Z) : bool * Params :=
  let old_timestamp := default 0%Z (get_i64 p scope) in
  if (new_timestamp >=? old_timestamp)%Z then (true, set_i64 p scope new_timestamp)
  else (false, p).

(** What the SQL rows do: [param.parse().unwrap_or_default()]. *)
Definition load_params (column : str) : Params := unwrap_or (from_str column) Params_new.

(** [ChatId::update_timestamp] and [Context::update_contacts_timestamp]: the [param] column
    of the row (an error when there is no row), rewritten only when the update applies. *)
Definition update_timestamp_row (column : option str) (scope : Param) (new_timestamp : Z)
  : option (bool * str) :=
  col ← column;
  let '(update, param) := update_timestamp (load_params col) scope new_timestamp in
  Some (update, if update then to_string param else col).

(** ** Lemmas: iteration *)

Lemma keys_ascending_all k : k ∈ keys_ascending.
Proof. destruct k; apply (bool_decide_unpack _); by vm_compute. Qed.

Lemma keys_ascending_NoDup : NoDup keys_ascending.
Proof. apply (bool_decide_unpack _); by vm_compute. Qed.

Lemma elem_of_iter (m : gmap Param str) k v : (k, v) ∈ iter m ↔ m !! k = Some v.
Proof.
  unfold iter. rewrite list_elem_of_omap. split.
  - intros (k' & _ & H). apply fmap_Some in H as (v' & Hv & [= -> ->]). done.
  - intros H. exists k. split; [apply keys_ascending_all|]. by rewrite H.
Qed.

Lemma iter_keys_sublist (m : gmap Param str) ks :
  (omap (λ k, pair k <$> m !! k) ks).*1 `sublist_of` ks.
Proof.
  induction ks as [|k ks IH]; csimpl; [done|].
  destruct (m !! k); csimpl; by constructor.
Qed.

Lemma iter_NoDup_fst m : NoDup (iter m).*1.
Proof. eapply sublist_NoDup; [apply keys_ascending_NoDup|apply iter_keys_sublist]. Qed.

Lemma iter_nil m : iter m = [] ↔ m = ∅.
Proof.
  split; [|by intros ->].
  intros H. apply map_empty. intros k. destruct (m !! k) as [v|] eqn:E; [|done].
  apply elem_of_iter in E. rewrite H in E. by apply not_elem_of_nil in E.
Qed.

(** Inserting the entries one by one rebuilds the map. *)
Definition insert_all (m : gmap Param str) (l : list (Param * str)) : gmap Param str :=
  foldl (λ m kv, <[kv.1 := kv.2]> m) m l.

Lemma insert_all_notin m l k : k ∉ l.*1 → insert_all m l !! k = m !! k.
Proof.
  revert m. induction l as [|[k' v'] l IH]; intros m; csimpl; [done|].
  intros [Hne Hn]%not_elem_of_cons. rewrite IH by done. by rewrite lookup_insert_ne.
Qed.

Lemma insert_all_in m l k v : NoDup l.*1 → (k, v) ∈ l → insert_all m l !! k = Some v.
Proof.
  revert m. induction l as [|[k' v'] l IH]; intros m; csimpl.
  - intros _ H. by apply not_elem_of_nil in H.
  - intros [Hn Hd]%list.NoDup_cons [[= -> ->]|H]%elem_of_cons; [|by apply IH].
    unfold insert_all in *. rewrite insert_all_notin by done. apply lookup_insert_eq.
Qed.

Lemma insert_all_iter m : insert_all ∅ (iter m) = m.
Proof.
  apply map_eq. intros k. destruct (m !! k) as [v|] eqn:E.
  - apply insert_all_in; [apply iter_NoDup_fst|by apply elem_of_iter].
  - rewrite insert_all_notin; [done|]. rewrite list_elem_of_fmap.
    intros ([k' v] & -> & H). apply elem_of_iter in H. simpl in *. congruence.
Qed.

(** ** Lemmas: the lines of the printed form *)

Definition blank_before (l : str) : list str := [[]; l].

Definition entry_lines (kv : Param * str) : list str :=
  match split_char LF kv.2 with
  | [] => [[Param.to_u8 kv.1; EQ]]
  | l :: ls => (Param.to_u8 kv.1 :: EQ :: l) :: concat (blank_before <$> ls)
  end.

Lemma entry_lines_not_nil kv : entry_lines kv ≠ [].
Proof. unfold entry_lines. by destruct (split_char LF kv.2). Qed.

Lemma to_u8_not_sep k : Param.to_u8 k ≠ LF ∧ Param.to_u8 k ≠ EQ.
Proof. by destruct k. Qed.

Lemma entry_lines_no_LF kv : Forall (no_sep LF) (entry_lines kv).
Proof.
  unfold entry_lines. pose proof (split_char_no_sep LF kv.2) as Hf.
  destruct (to_u8_not_sep kv.1) as [Hk _].
  destruct (split_char LF kv.2) as [|l ls].
  - constructor; [|done]. unfold no_sep. rewrite !not_elem_of_cons. by split_and!; [|done|apply not_elem_of_nil].
  - apply list.Forall_cons in Hf as [Hl Hls]. constructor.
    + unfold no_sep in *. rewrite !not_elem_of_cons. done.
    + apply Forall_concat, Forall_fmap. eapply Forall_impl; [|exact Hls].
      intros x Hx. unfold blank_before; simpl. repeat constructor; [|done].
      apply not_elem_of_nil.
Qed.

Lemma join_blank l ls :
  join [LF] (l :: concat (blank_before <$> ls)) = join [LF; LF] (l :: ls).
Proof.
  rewrite !join_concat. f_equal. induction ls as [|l' ls IH]; [done|].
  rewrite !fmap_cons, !concat_cons, fmap_app, concat_app, IH. simpl. by rewrite app_nil_r.
Qed.

Lemma fmt_entry_lines kv : fmt_entry kv = join [LF] (entry_lines kv).
Proof.
  unfold fmt_entry, entry_lines. pose proof (split_char_not_nil LF kv.2).
  destruct (split_char LF kv.2) as [|l ls]; [done|].
  by rewrite <- join_blank, !join_cons_split.
Qed.

Lemma fmt_entries_lines i l :
  l ≠ [] →
  fmt_entries i l =
    (if (0 <? i)%nat then [LF] else []) ++ join [LF] (concat (entry_lines <$> l)).
Proof.
  revert i. induction l as [|kv l IH]; intros i Hne; [done|]. cbn [fmt_entries].
  f_equal. rewrite fmt_entry_lines, fmap_cons, concat_cons.
  destruct l as [|kv' l]; [by rewrite !app_nil_r|].
  rewrite IH by done. simpl (0 <? S i)%nat.
  rewrite join_app; [done|apply entry_lines_not_nil|].
  rewrite fmap_cons, concat_cons. intros H.
  apply app_eq_nil in H as [H _]. by apply entry_lines_not_nil in H.
Qed.

Lemma to_string_lines p :
  inner p ≠ ∅ → split_char LF (to_string p) = concat (entry_lines <$> iter (inner p)).
Proof.
  intros Hne. unfold to_string.
  assert (Hi : iter (inner p) ≠ []) by (by rewrite iter_nil).
  rewrite fmt_entries_lines by done. rewrite app_nil_l. apply split_join.
  - destruct (iter (inner p)) as [|kv l]; [done|]. rewrite fmap_cons, concat_cons.
    intros H. apply app_eq_nil in H as [H _]. by apply entry_lines_not_nil in H.
  - apply Forall_concat, Forall_fmap, Forall_true. intros kv. apply entry_lines_no_LF.
Qed.

(** ** Lemmas: parsing *)

Lemma value_lines_blank v ls rest :
  hd_error rest ≠ Some [] →
  value_lines v (concat (blank_before <$> ls) ++ rest)
  = (v ++ concat (app [LF] <$> ls), rest).
Proof.
  intros Hr. revert v. induction ls as [|l ls IH]; intros v.
  - simpl. rewrite app_nil_r. destruct rest as [|[|c r] rest]; done.
  - rewrite !fmap_cons, !concat_cons. simpl. rewrite IH. f_equal. by rewrite <- app_assoc.
Qed.

Lemma value_lines_shorter v ls : length (value_lines v ls).2 ≤ length ls.
Proof.
  cut (∀ n v ls, length ls ≤ n → length (value_lines v ls).2 ≤ length ls); [eauto|].
  clear. induction n as [|n IH]; intros v [|[|c l] ls] Hl; simpl in *; try lia.
  destruct ls as [|l' ls]; simpl in *; [lia|]. etrans; [apply IH; lia|lia].
Qed.

(** More fuel than lines changes nothing: the loop always has enough. *)
Lemma from_lines_fuel_enough fuel m ls :
  length ls ≤ fuel → from_lines fuel m ls = from_lines (length ls) m ls.
Proof.
  cut (∀ n fuel fuel' m ls, length ls ≤ n → length ls ≤ fuel → length ls ≤ fuel' →
        from_lines fuel m ls = from_lines fuel' m ls); [eauto|].
  clear. induction n as [|n IH]; intros fuel fuel' m [|l ls] Hn Hf Hf';
    simpl in *; try lia; try (by destruct fuel, fuel').
  destruct fuel as [|fuel], fuel' as [|fuel']; try lia. simpl.
  destruct (split_once EQ l) as [[k v]|]; [|done].
  pose proof (value_lines_shorter v ls). destruct (value_lines v ls) as [v' ls'].
  simpl in *. apply IH; lia.
Qed.

Lemma parse_key_to_u8 k : parse_key [Param.to_u8 k] = Some k.
Proof. by destruct k. Qed.

Lemma entry_lines_head kv rest : hd_error (entry_lines kv ++ rest) ≠ Some [].
Proof. unfold entry_lines. by destruct (split_char LF kv.2). Qed.

(** An entry with any key, known or not, and what reading it does. *)
Definition raw_lines (kv : str * str) : list str :=
  match split_char LF kv.2 with
  | [] => [kv.1 ++ [EQ]]
  | l :: ls => (kv.1 ++ EQ :: l) :: concat (blank_before <$> ls)
  end.

Definition read_entry (m : gmap Param str) (kv : str * str) : gmap Param str :=
  match parse_key kv.1 with Some k => <[k := kv.2]> m | None => m end.

Lemma from_lines_raw fuel m kv rest :
  EQ ∉ kv.1 → length (raw_lines kv ++ rest) ≤ fuel → hd_error rest ≠ Some [] →
  from_lines fuel m (raw_lines kv ++ rest) = from_lines (length rest) (read_entry m kv) rest.
Proof.
  intros Hk Hf Hr. rewrite from_lines_fuel_enough by done.
  pose proof (split_char_not_nil LF kv.2) as Hne. pose proof (join_split LF kv.2) as Hj.
  unfold raw_lines in *. destruct (split_char LF kv.2) as [|l ls]; [done|].
  cbn [app length from_lines]. rewrite split_once_app, value_lines_blank by done.
  cbv iota beta zeta. rewrite <- join_concat, Hj.
  apply from_lines_fuel_enough. rewrite length_app. lia.
Qed.

Lemma from_lines_entry fuel m kv rest :
  length (entry_lines kv ++ rest) ≤ fuel →
  hd_error rest ≠ Some [] →
  from_lines fuel m (entry_lines kv ++ rest)
  = from_lines (length rest) (<[kv.1 := kv.2]> m) rest.
Proof.
  change (entry_lines kv) with (raw_lines ([Param.to_u8 kv.1], kv.2)). intros Hf Hr.
  rewrite from_lines_raw; [|simpl; rewrite list_elem_of_singleton; intros E; by apply (proj2 (to_u8_not_sep kv.1))|done..].
  unfold read_entry. cbn [fst snd]. by rewrite parse_key_to_u8.
Qed.

Lemma from_lines_entries m l :
  from_lines (length (concat (entry_lines <$> l))) m (concat (entry_lines <$> l))
  = Ok (insert_all m l).
Proof.
  revert m. induction l as [|kv l IH]; intros m; [done|].
  rewrite fmap_cons, concat_cons, from_lines_entry; [apply IH|done|].
  destruct l as [|kv' l]; [done|]. rewrite fmap_cons, concat_cons. apply entry_lines_head.
Qed.

(** A non-empty parameter list is read back from its printed form. *)
Lemma from_str_to_string p : inner p ≠ ∅ → from_str (to_string p) = Ok p.
Proof.
  intros Hne. unfold from_str. rewrite to_string_lines by done.
  rewrite from_lines_entries, insert_all_iter. by destruct p.
Qed.

Lemma load_params_to_string p : load_params (to_string p) = p.
Proof.
  unfold load_params. destruct (decide (inner p = ∅)) as [E|Hne].
  - destruct p as [m]. simpl in E. subst m. reflexivity.
  - by rewrite from_str_to_string.
Qed.

Lemma Params_get_set p k k' v :
  Params_get (Params_set p k v) k' = if decide (k = k') then Some v else Params_get p k'.
Proof. apply lookup_insert. Qed.

Lemma get_i64_set_i64 p k z : in_i64 z = true → get_i64 (set_i64 p k z) k = Some z.
Proof.
  intros Hz. unfold get_i64, set_i64. rewrite Params_get_set, decide_True by done. simpl.
  auto with ints.
Qed.

Lemma get_int_set_int p k z : in_i32 z = true → get_int (set_int p k z) k = Some z.
Proof.
  intros Hz. unfold get_int, set_int. rewrite Params_get_set, decide_True by done. simpl.
  auto with ints.
Qed.

Lemma get_i64_set_other p k k' v : k ≠ k' → get_i64 (Params_set p k v) k' = get_i64 p k'.
Proof. intros Hne. unfold get_i64. by rewrite Params_get_set, decide_False. Qed.

#[export] Hint Resolve get_i64_set_i64 get_int_set_int : ints.

(** ** Properties *)

(** C34. Parameter lists survive the database: what [Display] prints, [FromStr] reads back,
    whatever the values contain (line feeds, equals signs, empty lines), and a row that is
    loaded with [parse().unwrap_or_default()] gives back the stored list, the empty one
    included. *)
Theorem params_roundtrip p :
  (inner p ≠ ∅ → from_str (to_string p) = Ok p) ∧ load_params (to_string p) = p.
Proof. split; [apply from_str_to_string|apply load_params_to_string]. Qed.

(** The number stored under [k], as the code reads it before comparing timestamps. *)
Definition stored_timestamp (p : Params) (k : Param) : Z := default 0%Z (get_i64 p k).

Lemma update_timestamp_stored p k ts :
  in_i64 ts = true →
  stored_timestamp (update_timestamp p k ts).2 k = Z.max ts (stored_timestamp p k).
Proof.
  intros Hts. unfold update_timestamp, stored_timestamp.
  destruct (Z.geb_spec ts (default 0%Z (get_i64 p k))); simpl; [|lia].
  rewrite get_i64_set_i64 by done. simpl. lia.
Qed.

Lemma update_timestamp_other p k k' ts :
  k ≠ k' → Params_get (update_timestamp p k ts).2 k' = Params_get p k'.
Proof.
  intros Hne. unfold update_timestamp. case_ifs; simpl; [|done].
  unfold set_i64. by rewrite Params_get_set, decide_False.
Qed.

Lemma update_timestamp_row_load col k ts :
  ∃ col', update_timestamp_row (Some col) k ts
            = Some ((update_timestamp (load_params col) k ts).1, col')
          ∧ load_params col' = (update_timestamp (load_params col) k ts).2.
Proof.
  unfold update_timestamp_row. simpl.
  assert (Hf : (update_timestamp (load_params col) k ts).1 = false →
               (update_timestamp (load_params col) k ts).2 = load_params col).
  { unfold update_timestamp. by case_ifs. }
  destruct (update_timestamp (load_params col) k ts) as [[] q]; simpl in *; eexists;
    (split; [done|]); [apply load_params_to_string|by rewrite Hf].
Qed.

Lemma update_timestamp_answer p k ts :
  (update_timestamp p k ts).1 = (stored_timestamp p k <=? ts)%Z.
Proof.
  unfold update_timestamp, stored_timestamp. rewrite Z.geb_leb. by case_ifs.
Qed.

(** The timestamp guard on disk. For a row holding the printed parameters [p],
    [ChatId::update_timestamp] answers true exactly when the new timestamp is not older than
    the stored one (0 when absent), leaves the maximum of the two in the row, and changes no
    other key; without a row it is an error. *)
Theorem update_timestamp_row_spec p k ts :
  in_i64 ts = true →
  ∃ upd col,
    update_timestamp_row (Some (to_string p)) k ts = Some (upd, col)
    ∧ (upd = true ↔ (stored_timestamp p k <= ts)%Z)
    ∧ stored_timestamp (load_params col) k = Z.max ts (stored_timestamp p k)
    ∧ (∀ k', k ≠ k' → Params_get (load_params col) k' = Params_get p k')
    ∧ update_timestamp_row None k ts = None.
Proof.
  intros Hts. destruct (update_timestamp_row_load (to_string p) k ts) as (col & Hrow & Hcol).
  rewrite load_params_to_string in *. rewrite Hrow, update_timestamp_answer.
  do 2 eexists. split; [done|]. rewrite Hcol, Z.leb_le, update_timestamp_stored by done.
  split_and!; try done. intros k'. apply update_timestamp_other.
Qed.

Lemma split_once_None c s : split_once c s = None → c ∉ s.
Proof.
  induction s as [|d s IH]; simpl; intros H; [apply not_elem_of_nil|].
  destruct (N.eqb_spec d c) as [|Hne]; [done|].
  destruct (split_once c s) as [[a b]|]; [done|].
  apply not_elem_of_cons. split; [congruence|by apply IH].
Qed.

Lemma value_lines_suffix v ls : (value_lines v ls).2 `suffix_of` ls.
Proof.
  cut (∀ n v ls, length ls ≤ n → (value_lines v ls).2 `suffix_of` ls); [eauto|].
  clear. induction n as [|n IH]; intros v [|[|c l] ls] Hl; simpl in *; try lia;
    try apply reflexivity.
  destruct ls as [|l' ls]; simpl in *; [by apply suffix_nil|].
  apply suffix_cons_r, suffix_cons_r, IH. lia.
Qed.

Lemma from_lines_error fuel m ls l :
  length ls ≤ fuel → from_lines fuel m ls = Err (NotAKeyValuePair l) → l ∈ ls ∧ EQ ∉ l.
Proof.
  revert m ls. induction fuel as [|fuel IH]; intros m [|line rest] Hl; simpl in *;
    try done; try lia.
  destruct (split_once EQ line) as [[k v]|] eqn:E.
  - pose proof (value_lines_shorter v rest) as Hs. pose proof (value_lines_suffix v rest) as Hx.
    destruct (value_lines v rest) as [v' rest']. simpl in *.
    intros H. apply IH in H as [Hin Hn]; [|lia]. split; [|done].
    apply elem_of_cons. right. destruct Hx as [x ->]. apply elem_of_app. by right.
  - intros [= <-]. split; [apply elem_of_cons; by left|by apply split_once_None].
Qed.

(** The text of a list of entries with arbitrary keys, as any version of the program writes it. *)
Definition raw_entry (kv : str * str) : str :=
  kv.1 ++ EQ :: join [LF; LF] (split_char LF kv.2).

Definition key_text (k : str) : Prop := (EQ ∉ k) ∧ (LF ∉ k).

Lemma raw_lines_no_LF kv : LF ∉ kv.1 → Forall (no_sep LF) (raw_lines kv).
Proof.
  intros Hk. unfold raw_lines. pose proof (split_char_no_sep LF kv.2) as Hf.
  pose proof (split_char_not_nil LF kv.2). destruct (split_char LF kv.2) as [|l ls]; [done|].
  apply list.Forall_cons in Hf as [Hl Hls]. constructor.
  - unfold no_sep in *. by rewrite not_elem_of_app, not_elem_of_cons.
  - apply Forall_concat, Forall_fmap. eapply Forall_impl; [|exact Hls].
    intros x Hx. repeat constructor; [apply not_elem_of_nil|done].
Qed.

Lemma raw_lines_not_nil kv : raw_lines kv ≠ [].
Proof. unfold raw_lines. by destruct (split_char LF kv.2). Qed.

Lemma raw_lines_head kv rest : hd_error (raw_lines kv ++ rest) ≠ Some [].
Proof. unfold raw_lines. by destruct (split_char LF kv.2), kv.1. Qed.

Lemma raw_entry_lines kv : raw_entry kv = join [LF] (raw_lines kv).
Proof.
  unfold raw_entry, raw_lines. pose proof (split_char_not_nil LF kv.2).
  destruct (split_char LF kv.2) as [|l ls]; [done|].
  rewrite <-join_blank, !join_concat, <-app_assoc. done.
Qed.

Lemma raw_entry_split kv : LF ∉ kv.1 → split_char LF (raw_entry kv) = raw_lines kv.
Proof.
  intros Hk. rewrite raw_entry_lines. apply split_join; [apply raw_lines_not_nil|].
  by apply raw_lines_no_LF.
Qed.

Lemma from_lines_raws fuel m l rest :
  Forall (λ kv, EQ ∉ kv.1) l → hd_error rest ≠ Some [] →
  length (concat (raw_lines <$> l) ++ rest) ≤ fuel →
  from_lines fuel m (concat (raw_lines <$> l) ++ rest)
  = from_lines (length rest) (foldl read_entry m l) rest.
Proof.
  intros Hk Hr. revert fuel m. induction Hk as [|kv l Hkv Hk IH]; intros fuel m; csimpl; intros Hf.
  - by apply from_lines_fuel_enough.
  - rewrite <-app_assoc in *. rewrite from_lines_raw; [by rewrite IH|done..|].
    destruct Hk; [done|]. rewrite fmap_cons, concat_cons, <-app_assoc. apply raw_lines_head.
Qed.

(** The discriminants are ASCII: a key is known iff its first character is one of them. *)
Lemma parse_key_known key k : parse_key key = Some k ↔ head key = Some (Param.to_u8 k).
Proof.
  unfold parse_key. destruct key as [|c key]; [done|]. simpl. split.
  - unfold Param.from_u8. intros H%head_Some_elem_of. apply list_elem_of_filter in H as [H _].
    assert (Param.to_u8 k < 128)%N as Hb by by destruct k.
    unfold utf8_first_byte in H. f_equal. repeat case_match; [done|exfalso; revert Hb; rewrite H; generalize (c / 64)%N (c / 4096)%N (c / 262144)%N; lia..].
  - intros [= ->]. replace (utf8_first_byte (Param.to_u8 k)) with (Param.to_u8 k) by by destruct k.
    apply Param_from_to_u8.
Qed.

Lemma read_entries_lookup l m k :
  foldl read_entry m l !! k
  = match list.last (base.filter (λ kv, head kv.1 = Some (Param.to_u8 k)) l) with
    | Some kv => Some kv.2
    | None => m !! k
    end.
Proof.
  revert m. induction l as [|kv l IH] using rev_ind; intros m; [done|].
  rewrite foldl_snoc, list.filter_app, filter_cons, filter_nil. unfold read_entry at 1.
  destruct (decide (head kv.1 = Some (Param.to_u8 k))) as [E|E].
  - rewrite last_snoc, (proj2 (parse_key_known _ _) E). apply lookup_insert_eq.
  - rewrite app_nil_r, <-IH. destruct (parse_key kv.1) as [k'|] eqn:Ek; [|done].
    apply lookup_insert_ne. intros ->. by apply parse_key_known in Ek.
Qed.

(** C40. A parameter list written by another version of the program is read as far as it is known:
    whatever keys its entries have (any text without an equals sign and a line feed) and whatever the
    values contain, reading the text succeeds, and each known parameter has the value of the last
    entry whose key starts with its letter, or is absent if there is none; the entries of unknown keys
    are skipped with all lines of their values, and those behind them are read.  The one thing that
    makes reading fail is a line without equals sign: if a non-empty one follows the entries,
    whatever comes behind it, it is reported, and whenever reading fails, a line of the text that has
    no equals sign is reported. *)
Theorem foreign_params_read l :
  Forall key_text l.*1 →
  (l ≠ [] → ∃ p, from_str (join [LF] (raw_entry <$> l)) = Ok p
     ∧ ∀ k, Params_get p k = snd <$> list.last (base.filter (λ kv, head kv.1 = Some (Param.to_u8 k)) l))
  ∧ (∀ bad more, bad ≠ [] → EQ ∉ bad → LF ∉ bad →
     from_str (join [LF] ((raw_entry <$> l) ++ bad :: more)) = Err (NotAKeyValuePair bad))
  ∧ (∀ s line, from_str s = Err (NotAKeyValuePair line) → line ∈ split_char LF s ∧ EQ ∉ line).
Proof.
  intros Hl. rewrite Forall_fmap in Hl.
  assert (Forall (λ kv : str * str, EQ ∉ kv.1) l) as Hk by (eapply list.Forall_impl; [exact Hl|by intros ? []]).
  assert (split_char LF <$> (raw_entry <$> l) = raw_lines <$> l) as Hs.
  { rewrite <-list_fmap_compose. apply list_fmap_ext. intros i kv Hi. apply raw_entry_split.
    by apply (Forall_lookup_1 _ _ _ _ Hl Hi). }
  unfold from_str. split_and!.
  - intros Hne. rewrite split_join_concat, Hs by (by destruct l).
    pose proof (from_lines_raws (length (concat (raw_lines <$> l))) ∅ l [] Hk) as H.
    rewrite app_nil_r in H. rewrite H by done. eexists. split; [done|]. intros k.
    unfold Params_get. cbn [inner]. rewrite read_entries_lookup. by destruct (list.last _).
  - intros bad more Hb Hb1 Hb2. rewrite split_join_concat by (by destruct (raw_entry <$> l)).
    rewrite fmap_app, fmap_cons, concat_app, concat_cons, Hs, (split_char_single LF bad) by done.
    rewrite from_lines_raws; [|done|by destruct bad|done]. cbn [app length from_lines].
    by rewrite (split_once_absent EQ bad).
  - intros s line. destruct (from_lines _ _ _) as [m|[l']] eqn:E; [done|].
    intros [= <-]. by eapply from_lines_error.
Qed.

(** The system-message kind set on a message is the one read after the parameters went
    through the database. *)
Theorem get_cmd_roundtrip p m : get_cmd (load_params (to_string (set_cmd p m))) = m.
Proof.
  rewrite load_params_to_string. unfold get_cmd, set_cmd.
  rewrite get_int_set_int by (by destruct m). simpl.
  by rewrite SystemMessage_from_to_i32.
Qed.

(** ** Witnesses *)

(** Values with line feeds, equals signs and empty lines, as in the source's round-trip test. *)
Definition sample_params : Params :=
  Params_set
    (Params_set Params_new Param.Height (lit "foo" ++ LF :: lit "bar=baz" ++ LF :: lit "quux"))
    Param.Width ([LF; LF; LF] ++ lit "a=" ++ LF :: lit "=").

Lemma sample_params_nonempty : inner sample_params ≠ ∅.
Proof. by apply insert_non_empty. Qed.

Lemma params_roundtrip_witness : from_str (to_string sample_params) = Ok sample_params.
Proof. apply (proj1 (params_roundtrip sample_params)), sample_params_nonempty. Defined.

Lemma update_timestamp_row_spec_witness :
  ∃ upd col,
    update_timestamp_row (Some (to_string sample_params)) Param.GroupNameTimestamp 17
      = Some (upd, col)
    ∧ (upd = true ↔ (stored_timestamp sample_params Param.GroupNameTimestamp <= 17)%Z)
    ∧ stored_timestamp (load_params col) Param.GroupNameTimestamp
      = Z.max 17 (stored_timestamp sample_params Param.GroupNameTimestamp)
    ∧ (∀ k', Param.GroupNameTimestamp ≠ k' →
        Params_get (load_params col) k' = Params_get sample_params k')
    ∧ update_timestamp_row None Param.GroupNameTimestamp 17 = None.
Proof. apply update_timestamp_row_spec. reflexivity. Defined.

(** A parameter of a later version with a value of two lines, then the width. *)
Definition foreign_entries : list (str * str) :=
  [(lit "~new", lit "one" ++ LF :: lit "two=2"); ([Param.to_u8 Param.Width], lit "12")].

Lemma foreign_params_read_witness :
  (∃ p, from_str (join [LF] (raw_entry <$> foreign_entries)) = Ok p
     ∧ Params_get p Param.Width = Some (lit "12"))
  ∧ from_str (join [LF] ((raw_entry <$> foreign_entries) ++ [lit "oops"]))
    = Err (NotAKeyValuePair (lit "oops")).
Proof.
  assert (Hk : Forall key_text foreign_entries.*1).
  { apply (bool_decide_unpack (Forall (λ k, (EQ ∉ k) ∧ (LF ∉ k)) _)). vm_compute. exact I. }
  destruct (foreign_params_read foreign_entries Hk) as (H1 & H2 & _). split.
  - destruct H1 as (p & Hp & Hk'); [discriminate|]. exists p. split; [exact Hp|].
    rewrite Hk'. vm_compute. reflexivity.
  - apply H2; [discriminate| |]; apply (bool_decide_unpack _); vm_compute; exact I.
Defined.
