(* ===== verification/Membership.v ===== *)
(** Membership: the [chats_contacts] table and the group-membership operations on it
    (src/src/chat.rs, src/src/receive_imf.rs).

    Every (chat, contact) row carries the time of the last addition and of the last removal;
    the contact is a member when it was not removed after it was added.  The timestamps of
    received messages are merged with guarded upserts; [lww_join] is the abstract
    last-writer-wins register these implement, and replicas that saw the same changes agree
    on the members whatever the order of arrival. *)
From S2P Require Import Prelude Ids.
From stdpp Require Import sorting.

(** ** The table *)

(** A row of [chats_contacts]; both columns are [NOT NULL DEFAULT 0]. *)
Record member_row := { add_timestamp : Z; remove_timestamp : Z }.

#[export] Instance member_row_eq_dec : EqDecision member_row.
Proof. solve_decision. Defined.

(** [UNIQUE(chat_id, contact_id)]. *)
Abbreviation chats_contacts := (gmap (N * N) member_row).

(** [add_timestamp >= remove_timestamp]. *)
Definition row_is_member (r : member_row) : bool :=
  (remove_timestamp r <=? add_timestamp r)%Z.

(** [INSERT ... ON CONFLICT (chat_id, contact_id) DO UPDATE SET ... WHERE ...]: the number of
    changed rows is positive when a row is inserted or the [WHERE] holds. *)
Definition upsert (key : N * N) (new : member_row) (upd : member_row -> option member_row)
  (t : chats_contacts) : bool * chats_contacts :=
  match t !! key with
  | None => (true, <[key := new]> t)
  | Some r =>
      match upd r with
      | Some r' => (true, <[key := r']> t)
      | None => (false, t)
      end
  end.

(** ** Queries *)

(** [is_contact_in_chat]. *)
Definition is_contact_in_chat (t : chats_contacts) (chat_id : ChatId) (contact_id : ContactId)
  : bool :=
  match t !! (chat_id, contact_id) with
  | Some r => row_is_member r
  | None => false
  end.

(** The row of [contacts] joined to a member: [last_seen], if there is such a contact. *)
Abbreviation last_seen_table := (gmap N Z).

(** SQLite's order on nullable columns: NULL is smaller than every value. *)
Definition sql_cmp (a b : option Z) : comparison :=
  match a, b with
  | None, None => Eq
  | None, Some _ => Lt
  | Some _, None => Gt
  | Some x, Some y => Z.compare x y
  end.

Definition then_cmp (c d : comparison) : comparison := match c with Eq => d | _ => c end.

(** [ORDER BY c.id=1, <key> DESC, c.id DESC] of the left join with [contacts]. *)
Definition contact_order (contacts : last_seen_table) (sort_key : N -> option Z)
  (a b : ContactId) : comparison :=
  let id_of (x : N) : option Z := match contacts !! x with Some _ => Some (Z.of_N x) | None => None end in
  let is_self (x : N) : option Z :=
    match contacts !! x with
    | Some _ => Some (if (x =? 1)%N then 1%Z else 0%Z)
    | None => None
    end in
  then_cmp (sql_cmp (is_self a) (is_self b))
    (then_cmp (sql_cmp (sort_key b) (sort_key a)) (sql_cmp (id_of b) (id_of a))).

Definition contact_le (contacts : last_seen_table) (sort_key : N -> option Z) (a b : N) : Prop :=
  contact_order contacts sort_key a b ≠ Gt.

#[export] Instance contact_le_dec contacts sort_key : RelDecision (contact_le contacts sort_key).
Proof. intros a b. unfold contact_le. apply _. Defined.

(** The contact ids of the rows of a chat that satisfy the [WHERE] clause. *)
Definition select_contacts (t : chats_contacts) (chat_id : ChatId)
  (where_ : member_row -> bool) : list ContactId :=
  omap (λ kr : N * N * member_row,
          if bool_decide (kr.1.1 = chat_id) && where_ kr.2 then Some kr.1.2 else None)
       (map_to_list t).

(** [get_chat_contacts]. *)
Definition get_chat_contacts (t : chats_contacts) (contacts : last_seen_table)
  (chat_id : ChatId) : list ContactId :=
  merge_sort (contact_le contacts (λ x, contacts !! x))
    (select_contacts t chat_id row_is_member).

(** [get_past_chat_contacts]: removed within the last 60 days, most recent first. *)
Definition get_past_chat_contacts (t : chats_contacts) (contacts : last_seen_table)
  (now : Z) (chat_id : ChatId) : list ContactId :=
  merge_sort
    (contact_le contacts (λ x, remove_timestamp <$> t !! (chat_id, x)))
    (select_contacts t chat_id
       (λ r, negb (row_is_member r) && (sat_sub now (60 * 24 * 3600) <? remove_timestamp r)%Z)).

(** ** Local changes (chat.rs) *)

(** [update_chat_contacts_table]: bump [remove_timestamp] of every row of the chat, then
    insert the given contacts or raise their [add_timestamp] to the bumped value. *)
Definition bump_removed (timestamp : Z) (r : member_row) : member_row :=
  {| add_timestamp := add_timestamp r;
     remove_timestamp := Z.max (add_timestamp r + 1) timestamp |}.

Definition re_add (r : member_row) : option member_row :=
  Some {| add_timestamp := remove_timestamp r; remove_timestamp := remove_timestamp r |}.

Definition update_chat_contacts_table (timestamp : Z) (id : ChatId) (contacts : gset N)
  (t : chats_contacts) : chats_contacts :=
  let t := map_imap (λ key r, Some (if bool_decide (key.1 = id) then bump_removed timestamp r
                                    else r)) t in
  foldl (λ t contact_id,
           (upsert (id, contact_id)
              {| add_timestamp := timestamp; remove_timestamp := 0 |} re_add t).2)
        t (elements contacts).

(** [add_to_chat_contacts_table]. *)
Definition add_to_chat_contacts_table (timestamp : Z) (chat_id : ChatId)
  (contact_ids : list N) (t : chats_contacts) : chats_contacts :=
  foldl (λ t contact_id,
           (upsert (chat_id, contact_id)
              {| add_timestamp := timestamp; remove_timestamp := 0 |}
              (λ r, Some {| add_timestamp := Z.max (remove_timestamp r) timestamp;
                            remove_timestamp := remove_timestamp r |}) t).2)
        t contact_ids.

(** [remove_from_chat_contacts_table]: whether there was a row, and the new table. *)
Definition remove_from_chat_contacts_table (now : Z) (chat_id : ChatId) (contact_id : ContactId)
  (t : chats_contacts) : bool * chats_contacts :=
  match t !! (chat_id, contact_id) with
  | Some r => (true, <[(chat_id, contact_id) := bump_removed now r]> t)
  | None => (false, t)
  end.

(** [remove_from_chat_contacts_table_without_trace]. *)
Definition remove_from_chat_contacts_table_without_trace (chat_id : ChatId)
  (contact_id : ContactId) (t : chats_contacts) : bool * chats_contacts :=
  match t !! (chat_id, contact_id) with
  | Some _ => (true, delete (chat_id, contact_id) t)
  | None => (false, t)
  end.

(** ** Received changes (receive_imf.rs) *)

(** The two prepared statements of [update_chats_contacts_timestamps]. *)
Definition add_statement (chat_id : ChatId) (contact_id : ContactId) (ts : Z)
  : chats_contacts -> bool * chats_contacts :=
  upsert (chat_id, contact_id) {| add_timestamp := ts; remove_timestamp := 0 |}
    (λ r, if ((add_timestamp r <? ts) && (remove_timestamp r <=? ts))%Z
          then Some {| add_timestamp := ts; remove_timestamp := remove_timestamp r |}
          else None).

Definition remove_statement (chat_id : ChatId) (contact_id : ContactId) (ts : Z)
  : chats_contacts -> bool * chats_contacts :=
  upsert (chat_id, contact_id) {| add_timestamp := 0; remove_timestamp := ts |}
    (λ r, if ((remove_timestamp r <? ts) && (add_timestamp r <? ts))%Z
          then Some {| add_timestamp := add_timestamp r; remove_timestamp := ts |}
          else None).

(** The loops, with the [modified] flag. *)
Fixpoint add_loop (chat_id : ChatId) (ignored_id : option N)
  (entries : list (option N * Z)) (st : bool * chats_contacts) : bool * chats_contacts :=
  match entries with
  | [] => st
  | (Some contact_id, ts) :: entries' =>
      let st' :=
        if bool_decide (Some contact_id ≠ ignored_id) then
          let '(changed, t) := add_statement chat_id contact_id ts st.2 in (st.1 || changed, t)
        else st in
      add_loop chat_id ignored_id entries' st'
  | (None, _) :: entries' => add_loop chat_id ignored_id entries' st
  end.

Fixpoint remove_loop (chat_id : ChatId)
  (entries : list (option N * Z)) (st : bool * chats_contacts) : bool * chats_contacts :=
  match entries with
  | [] => st
  | (Some contact_id, ts) :: entries' =>
      let '(changed, t) := remove_statement chat_id contact_id ts st.2 in
      remove_loop chat_id entries' (st.1 || changed, t)
  | (None, _) :: entries' => remove_loop chat_id entries' st
  end.

(** [update_chats_contacts_timestamps]: false and no change when the number of timestamps is
    not the number of current and past members. *)
Definition update_chats_contacts_timestamps (chat_id : ChatId) (ignored_id : option N)
  (to_ids past_ids : list (option N)) (chat_group_member_timestamps : list Z)
  (t : chats_contacts) : bool * chats_contacts :=
  let expected_timestamps_count := length to_ids + length past_ids in
  if negb (length chat_group_member_timestamps =? expected_timestamps_count)%nat then (false, t)
  else
    let st := add_loop chat_id ignored_id
                (zip to_ids (take (length to_ids) chat_group_member_timestamps)) (false, t) in
    remove_loop chat_id
      (zip past_ids (drop (length to_ids) chat_group_member_timestamps)) st.

(** ** The abstract register *)

(** A stamp is the time of the deciding change and whether it was an addition; at equal
    times the addition wins. *)
Abbreviation stamp := (Z * bool)%type.

Definition lww_join (x y : option stamp) : option stamp :=
  match x, y with
  | None, _ => y
  | _, None => x
  | Some (a, p), Some (b, q) =>
      if (a <? b)%Z then Some (b, q)
      else if (b <? a)%Z then Some (a, p)
      else Some (a, p || q)
  end.

Lemma lww_join_comm x y : lww_join x y = lww_join y x.
Proof.
  destruct x as [[a p]|], y as [[b q]|]; simpl; try done.
  destruct (Z.ltb_spec a b), (Z.ltb_spec b a); try lia; try done.
  assert (a = b) as -> by lia. by rewrite orb_comm.
Qed.

Lemma lww_join_assoc x y z : lww_join x (lww_join y z) = lww_join (lww_join x y) z.
Proof.
  destruct x as [[a p]|], y as [[b q]|], z as [[c r]|]; simpl; try done;
    [|by zcompare].
  destruct (Z.ltb_spec a b), (Z.ltb_spec b a), (Z.ltb_spec b c), (Z.ltb_spec c b);
    try lia; simpl; zcompare; try lia; try done;
    apply f_equal, f_equal2; (lia || apply orb_assoc || done).
Qed.

Lemma lww_join_idemp x : lww_join x x = x.
Proof. destruct x as [[a p]|]; simpl; [|done]. by rewrite Z.ltb_irrefl, orb_diag. Qed.

#[export] Instance lww_join_commutes : CommutingSteps lww_join.
Proof. intros x y z. by rewrite <- !lww_join_assoc, (lww_join_comm y z). Qed.

(** What a row tells: the later of its two times and the membership it gives. *)
Definition row_stamp (r : member_row) : stamp :=
  (Z.max (add_timestamp r) (remove_timestamp r), row_is_member r).

Definition table_stamp (t : chats_contacts) (key : N * N) : option stamp :=
  row_stamp <$> t !! key.

Definition stamp_member (s : option stamp) : bool :=
  match s with Some (_, b) => b | None => false end.

Lemma is_contact_in_chat_stamp t c x :
  is_contact_in_chat t c x = stamp_member (table_stamp t (c, x)).
Proof. unfold is_contact_in_chat, table_stamp. by destruct (t !! (c, x)). Qed.

(** Two tables are equivalent when every row tells the same. *)
Definition table_equiv (t u : chats_contacts) : Prop := ∀ key, table_stamp t key = table_stamp u key.

#[export] Instance table_equiv_equivalence : Equivalence table_equiv.
Proof.
  split.
  - by intros t key.
  - by intros t u H key.
  - intros t u v H1 H2 key. by rewrite H1.
Qed.

#[export] Instance is_contact_in_chat_proper :
  Proper (table_equiv ==> eq ==> eq ==> eq) is_contact_in_chat.
Proof. intros t u H c ? <- x ? <-. by rewrite !is_contact_in_chat_stamp, H. Qed.

(** One change of a received header: the contact, its stamp. *)
Record change := { ch_contact : N; ch_stamp : stamp }.

(** Timestamps for which a fresh row (whose other column is 0) tells what the change says:
    additions at or after the epoch, removals after it. *)
Definition valid_change (ch : change) : Prop :=
  let '(ts, added) := ch_stamp ch in if added then (0 <= ts)%Z else (0 < ts)%Z.

Definition apply_change (chat_id : ChatId) (t : chats_contacts) (ch : change) : chats_contacts :=
  let '(ts, added) := ch_stamp ch in
  (if added then add_statement chat_id (ch_contact ch) ts t
   else remove_statement chat_id (ch_contact ch) ts t).2.

Lemma upsert_lookup key new upd t key' :
  (upsert key new upd t).2 !! key' =
    if decide (key = key') then
      Some match t !! key with
           | None => new
           | Some r => default r (upd r)
           end
    else t !! key'.
Proof.
  unfold upsert. destruct (decide (key = key')) as [<-|Hne].
  - destruct (t !! key) as [r|] eqn:E; simpl; [|by rewrite lookup_insert_eq].
    destruct (upd r); simpl; [by rewrite lookup_insert_eq|done].
  - destruct (t !! key) as [r|]; simpl; [destruct (upd r); simpl; [|done]|];
      by rewrite lookup_insert_ne.
Qed.

Lemma merge_add_stamp (r : member_row) ts :
  Some (row_stamp (default r
    (if ((add_timestamp r <? ts) && (remove_timestamp r <=? ts))%Z
     then Some {| add_timestamp := ts; remove_timestamp := remove_timestamp r |} else None)))
  = lww_join (Some (row_stamp r)) (Some (ts, true)).
Proof.
  destruct r as [a b]. unfold row_stamp, row_is_member. simpl.
  zcompare; try lia; apply f_equal, f_equal2; (lia || done).
Qed.

Lemma merge_remove_stamp (r : member_row) ts :
  Some (row_stamp (default r
    (if ((remove_timestamp r <? ts) && (add_timestamp r <? ts))%Z
     then Some {| add_timestamp := add_timestamp r; remove_timestamp := ts |} else None)))
  = lww_join (Some (row_stamp r)) (Some (ts, false)).
Proof.
  destruct r as [a b]. unfold row_stamp, row_is_member. simpl.
  zcompare; try lia; apply f_equal, f_equal2; (lia || done).
Qed.

(** A merged change joins its stamp into the row of its contact and touches no other row. *)
Lemma apply_change_stamp c t ch key :
  valid_change ch →
  table_stamp (apply_change c t ch) key =
    if decide ((c, ch_contact ch) = key)
    then lww_join (table_stamp t key) (Some (ch_stamp ch))
    else table_stamp t key.
Proof.
  destruct ch as [x [ts []]]; unfold valid_change, apply_change, table_stamp; simpl; intros Hv;
    unfold add_statement, remove_statement; rewrite upsert_lookup; case_decide as Hk; try done;
    subst key; simpl; destruct (t !! (c, x)) as [r|]; simpl.
  - apply merge_add_stamp.
  - unfold row_stamp, row_is_member. simpl. zcompare; [|lia]. do 2 f_equal. lia.
  - apply merge_remove_stamp.
  - unfold row_stamp, row_is_member. simpl. zcompare; [lia|]. do 2 f_equal. lia.
Qed.

Lemma apply_changes_stamp c t chs key :
  Forall valid_change chs →
  table_stamp (foldl (apply_change c) t chs) key =
    foldl lww_join (table_stamp t key)
      (omap (λ ch, if decide ((c, ch_contact ch) = key) then Some (Some (ch_stamp ch)) else None)
         chs).
Proof.
  intros Hv. revert t. induction Hv as [|ch chs Hch _ IH]; intros t; csimpl; [done|].
  rewrite IH, apply_change_stamp by done. by case_decide.
Qed.

(** ** Headers as lists of changes *)

(** A received membership header: what [update_chats_contacts_timestamps] is called with. *)
Record member_header := {
  hd_ignored : option N;
  hd_to : list (option N);
  hd_past : list (option N);
  hd_timestamps : list Z
}.

Definition apply_header (chat_id : ChatId) (t : chats_contacts) (h : member_header)
  : chats_contacts :=
  (update_chats_contacts_timestamps chat_id (hd_ignored h) (hd_to h) (hd_past h)
     (hd_timestamps h) t).2.

Definition added_changes (ignored_id : option N) (entries : list (option N * Z)) : list change :=
  omap (λ e : option N * Z,
          x ← e.1; if bool_decide (Some x ≠ ignored_id)
                   then Some {| ch_contact := x; ch_stamp := (e.2, true) |} else None) entries.

Definition removed_changes (entries : list (option N * Z)) : list change :=
  omap (λ e : option N * Z, x ← e.1; Some {| ch_contact := x; ch_stamp := (e.2, false) |}) entries.

Definition header_changes (h : member_header) : list change :=
  if (length (hd_timestamps h) =? length (hd_to h) + length (hd_past h))%nat then
    added_changes (hd_ignored h)
      (zip (hd_to h) (take (length (hd_to h)) (hd_timestamps h)))
    ++ removed_changes (zip (hd_past h) (drop (length (hd_to h)) (hd_timestamps h)))
  else [].

Lemma add_loop_changes c ign es st :
  (add_loop c ign es st).2 = foldl (apply_change c) st.2 (added_changes ign es).
Proof.
  revert st. induction es as [|[[x|] ts] es IH]; intros st; csimpl; [done| |apply IH].
  rewrite IH. case_bool_decide; simpl; [|done]. f_equal. unfold apply_change. simpl.
  by destruct (add_statement c x ts st.2).
Qed.

Lemma remove_loop_changes c es st :
  (remove_loop c es st).2 = foldl (apply_change c) st.2 (removed_changes es).
Proof.
  revert st. induction es as [|[[x|] ts] es IH]; intros st; csimpl; [done| |apply IH].
  destruct (remove_statement c x ts st.2) as [b t] eqn:E. rewrite IH. f_equal.
  unfold apply_change. simpl. by rewrite E.
Qed.

Lemma apply_header_changes c t h : apply_header c t h = foldl (apply_change c) t (header_changes h).
Proof.
  unfold apply_header, update_chats_contacts_timestamps, header_changes.
  destruct (_ =? _)%nat; simpl; [|done].
  by rewrite remove_loop_changes, add_loop_changes, foldl_app.
Qed.

Lemma apply_headers_changes c t hs :
  foldl (apply_header c) t hs = foldl (apply_change c) t (concat (header_changes <$> hs)).
Proof.
  revert t. induction hs as [|h hs IH]; intros t; csimpl; [done|].
  by rewrite IH, apply_header_changes, foldl_app.
Qed.

Definition valid_header (h : member_header) : Prop := Forall valid_change (header_changes h).

(** ** Lemmas: the loops over contacts *)

Section UpsertLoop.
Context (id : ChatId) (new : member_row) (upd : member_row -> option member_row).

Let loop (t : chats_contacts) (l : list N) : chats_contacts :=
  foldl (λ t x, (upsert (id, x) new upd t).2) t l.

Definition upserted (o : option member_row) : member_row :=
  match o with None => new | Some r => default r (upd r) end.

Lemma upsert_loop_other t l key : (key.1 ≠ id ∨ key.2 ∉ l) → loop t l !! key = t !! key.
Proof.
  revert t. induction l as [|x l IH]; intros t Hk; simpl; [done|]. unfold loop in IH.
  rewrite IH by (destruct Hk as [?|[_ ?]%not_elem_of_cons]; auto).
  rewrite upsert_lookup, decide_False; [done|]. intros <-. simpl in Hk.
  destruct Hk as [?|Hk]; [done|]. by apply not_elem_of_cons in Hk as [? _].
Qed.

Lemma upsert_loop_in t l x :
  NoDup l → x ∈ l → loop t l !! (id, x) = Some (upserted (t !! (id, x))).
Proof.
  intros Hd. revert t. induction Hd as [|y l Hy Hd IH]; intros t.
  - intros H. by apply not_elem_of_nil in H.
  - intros [->|Hx]%elem_of_cons; simpl; unfold loop in *.
    + rewrite upsert_loop_other by (right; done). by rewrite upsert_lookup, decide_True.
    + rewrite IH by done. rewrite upsert_lookup, decide_False; [done|].
      intros [= ->]. done.
Qed.

(** A row predicate that every upsert establishes holds for all the contacts of the loop. *)
Lemma upsert_loop_establishes (P : member_row -> Prop) t l x :
  P new → (∀ r, P (default r (upd r))) → x ∈ l →
  ∃ r, loop t l !! (id, x) = Some r ∧ P r.
Proof.
  intros Hnew Hupd. revert t. induction l as [|y l IH]; intros t.
  - intros H. by apply not_elem_of_nil in H.
  - intros Hx. simpl. destruct (decide (x ∈ l)) as [Hl|Hl]; [by apply IH|].
    apply elem_of_cons in Hx as [->|]; [|done].
    unfold loop. rewrite upsert_loop_other by (right; done).
    rewrite upsert_lookup, decide_True by done. eexists. split; [done|].
    destruct (t !! (id, y)); auto.
Qed.
End UpsertLoop.

Lemma update_chat_contacts_table_lookup ts id cs t key :
  update_chat_contacts_table ts id cs t !! key =
    if decide (key.1 = id) then
      let old := bump_removed ts <$> t !! key in
      if decide (key.2 ∈ cs) then
        Some (upserted {| add_timestamp := ts; remove_timestamp := 0 |} re_add old)
      else old
    else t !! key.
Proof.
  unfold update_chat_contacts_table. destruct key as [c x]. cbn [fst snd].
  destruct (decide (c = id)) as [->|Hc].
  - destruct (decide (x ∈ cs)) as [Hx|Hx].
    + rewrite upsert_loop_in; [|apply NoDup_elements|by apply elem_of_elements].
      rewrite map_lookup_imap. f_equal. f_equal.
      destruct (t !! (id, x)); simpl; [by rewrite bool_decide_true|done].
    + rewrite upsert_loop_other by (right; simpl; by rewrite elem_of_elements).
      rewrite map_lookup_imap.
      destruct (t !! (id, x)); simpl; [by rewrite bool_decide_true|done].
  - rewrite upsert_loop_other by (left; done). rewrite map_lookup_imap.
    destruct (t !! (c, x)); simpl; [by rewrite bool_decide_false|done].
Qed.

Lemma elem_of_select_contacts t c w x :
  x ∈ select_contacts t c w ↔ ∃ r, t !! (c, x) = Some r ∧ w r = true.
Proof.
  unfold select_contacts. rewrite list_elem_of_omap. split.
  - intros ([[c' x'] r] & Hin & H). simpl in H.
    case_bool_decide as Hc; simpl in H; [|done]. destruct (w r) eqn:Hw; [|done].
    injection H as ->. subst c'. exists r. split; [|done]. by apply elem_of_map_to_list.
  - intros (r & Hr & Hw). exists (c, x, r). split; [by apply elem_of_map_to_list|].
    simpl. by rewrite bool_decide_true, Hw.
Qed.

Lemma select_contacts_NoDup t c w : NoDup (select_contacts t c w).
Proof.
  unfold select_contacts. pose proof (NoDup_fst_map_to_list t) as Hd.
  induction (map_to_list t) as [|[[c' x] r] l IH]; csimpl in *; [constructor|].
  apply list.NoDup_cons in Hd as [Hn Hd]. specialize (IH Hd).
  case_bool_decide as Hc; csimpl; [|done]. destruct (w r); [|done]. subst c'.
  apply list.NoDup_cons. split; [|done]. rewrite list_elem_of_omap.
  intros ([[c'' x'] r'] & Hin & H). simpl in H.
  case_bool_decide; simpl in H; [|done]. destruct (w r'); [|done].
  injection H as ->. subst c''. apply Hn, list_elem_of_fmap. by eexists (_, _).
Qed.

(** ** Lemmas: the order of the member list *)

Lemma sql_cmp_antisym a b : sql_cmp b a = CompOpp (sql_cmp a b).
Proof. destruct a, b; simpl; try done. apply Z.compare_antisym. Qed.

Lemma then_cmp_opp c d : CompOpp (then_cmp c d) = then_cmp (CompOpp c) (CompOpp d).
Proof. by destruct c. Qed.

#[export] Instance contact_le_total contacts k : Total (contact_le contacts k).
Proof.
  intros a b. unfold contact_le.
  assert (H : contact_order contacts k b a = CompOpp (contact_order contacts k a b)).
  { unfold contact_order. rewrite !then_cmp_opp.
    by rewrite <- !sql_cmp_antisym. }
  rewrite H. destruct (contact_order contacts k a b); simpl; [left|left|right]; done.
Qed.

Lemma contact_le_self contacts k b :
  is_Some (contacts !! SELF) → contact_le contacts k SELF b → b = SELF.
Proof.
  intros [ls Hls] Hle. unfold contact_le, contact_order in Hle. rewrite Hls in Hle.
  destruct (contacts !! b) as [lb|] eqn:Hb; [|done].
  destruct (N.eqb_spec b 1) as [->|Hne]; [done|]. simpl in Hle. done.
Qed.

(** In a list sorted by [contact_le] without duplicates, nothing comes after the owner. *)
Lemma sorted_self_last contacts k l :
  is_Some (contacts !! SELF) → Sorted (contact_le contacts k) l → NoDup l → SELF ∈ l →
  ∃ l', l = l' ++ [SELF].
Proof.
  intros Hs Hsort. induction Hsort as [|x l Hsort IH Hhd]; intros Hd Hin.
  - by apply not_elem_of_nil in Hin.
  - apply list.NoDup_cons in Hd as [Hx Hd].
    apply elem_of_cons in Hin as [<-|Hin].
    + destruct l as [|y l]; [by exists []|]. inversion Hhd as [|? ? Hle]; subst.
      apply contact_le_self in Hle as ->; [|done].
      exfalso. apply Hx. apply elem_of_cons. by left.
    + destruct (IH Hd Hin) as [l' ->]. by exists (x :: l').
Qed.

(** ** Properties *)

(** C13. The guarded upserts implement a last-writer-wins register per member: after a membership
    header was merged whose additions are stamped with the epoch or later and whose removals are
    stamped with a time after the epoch, what the table tells about a contact is the join of what it
    told before with the stamps the header carries for that contact.  (A removal stamped with the
    epoch or before would make an unknown contact a member, as the table has 0 for the missing
    addition.)  For any stamps, every row of another chat is unchanged, and a header whose number of
    timestamps does not match the number of its contacts is dropped as a whole. *)
Theorem update_chats_contacts_timestamps_refines c h t x :
  (valid_header h →
   table_stamp (apply_header c t h) (c, x)
   = foldl lww_join (table_stamp t (c, x))
       (omap (λ ch, if decide (ch_contact ch = x) then Some (Some (ch_stamp ch)) else None)
          (header_changes h)))
  ∧ (∀ c', c' ≠ c → apply_header c t h !! (c', x) = t !! (c', x))
  ∧ (length (hd_timestamps h) ≠ length (hd_to h) + length (hd_past h) → apply_header c t h = t).
Proof.
  rewrite apply_header_changes. split_and!.
  - intros Hv. rewrite apply_changes_stamp by done. f_equal.
    apply list_omap_ext, Forall_Forall2_diag, Forall_true. intros ch.
    destruct (decide (ch_contact ch = x)) as [->|Hne]; [by rewrite decide_True|].
    rewrite decide_False; [done|]. intros [=]. done.
  - intros c' Hc. generalize (header_changes h). intros chs. revert t.
    induction chs as [|[y [ts []]] chs IH]; intros t; csimpl; [done| |]; rewrite IH;
      unfold apply_change, add_statement, remove_statement; simpl;
      rewrite upsert_lookup, decide_False; (done || intros [=]; congruence).
  - intros Hl. unfold header_changes. by rewrite (proj2 (Nat.eqb_neq _ _) Hl).
Qed.

(** C12. Membership converges: two devices that merge the same membership headers in any two
    orders, starting from tables that tell the same, agree on who is in the chat, provided that the
    additions in the headers are stamped with the epoch or later and the removals with a time after
    the epoch, as by every device whose clock is not set to a time before 1970. *)
Theorem membership_convergence c t u hs hs' x :
  table_equiv t u → hs ≡ₚ hs' → Forall valid_header hs →
  is_contact_in_chat (foldl (apply_header c) t hs) c x
  = is_contact_in_chat (foldl (apply_header c) u hs') c x.
Proof.
  intros Heq Hp Hv. rewrite !is_contact_in_chat_stamp, !apply_headers_changes.
  assert (Hv' : Forall valid_header hs') by (by rewrite <- Hp).
  rewrite !apply_changes_stamp by (by apply Forall_concat, Forall_fmap).
  rewrite Heq. f_equal. apply (foldl_permutation lww_join). by rewrite Hp.
Qed.

(** A change is absorbed by a row when merging it again would not change the row. *)
Definition absorbed (t : chats_contacts) (c : ChatId) (ch : change) : Prop :=
  ∃ r, t !! (c, ch_contact ch) = Some r ∧
    let '(ts, added) := ch_stamp ch in
    if added then (ts <= add_timestamp r ∨ ts < remove_timestamp r)%Z
    else (ts <= remove_timestamp r ∨ ts <= add_timestamp r)%Z.

Lemma upsert_noop key new upd t r :
  t !! key = Some r → upd r = None → upsert key new upd t = (false, t).
Proof. intros Hr Hu. unfold upsert. by rewrite Hr, Hu. Qed.

Lemma absorbed_statement t c ch :
  absorbed t c ch →
  (if (ch_stamp ch).2 then add_statement c (ch_contact ch) (ch_stamp ch).1 t
   else remove_statement c (ch_contact ch) (ch_stamp ch).1 t) = (false, t).
Proof.
  destruct ch as [x [ts []]]; intros (r & Hr & Ha); simpl in *; eapply upsert_noop;
    try exact Hr; by zcompare; try lia.
Qed.

Lemma apply_change_absorbs t c ch : absorbed (apply_change c t ch) c ch.
Proof.
  destruct ch as [x [ts []]]; unfold absorbed, apply_change, add_statement, remove_statement;
    simpl; rewrite upsert_lookup, decide_True by done; eexists; (split; [done|]);
    destruct (t !! (c, x)) as [[a r]|]; simpl; zcompare; lia.
Qed.

Lemma apply_change_keeps_absorbed t c ch ch' :
  absorbed t c ch → absorbed (apply_change c t ch') c ch.
Proof.
  intros (r & Hr & Ha). destruct ch' as [y [ts' []]];
    unfold absorbed, apply_change, add_statement, remove_statement; simpl;
    rewrite upsert_lookup;
    (destruct (decide ((c, y) = (c, ch_contact ch))) as [[= ->]|Hne]; [|by exists r]);
    rewrite Hr; (eexists; split; [done|]); destruct r as [a b], ch as [x [ts []]];
    simpl in *; zcompare; lia.
Qed.

Lemma apply_changes_absorb t c chs : Forall (absorbed (foldl (apply_change c) t chs) c) chs.
Proof.
  cut (∀ done, Forall (absorbed t c) done →
        Forall (absorbed (foldl (apply_change c) t chs) c) (done ++ chs));
    [intros H; apply (H []); constructor|].
  revert t. induction chs as [|ch chs IH]; intros t dn Hd; simpl.
  - by rewrite app_nil_r.
  - rewrite cons_middle, app_assoc. apply IH. apply Forall_app. split.
    + eapply Forall_impl; [exact Hd|]. intros ch'. apply apply_change_keeps_absorbed.
    + constructor; [apply apply_change_absorbs|done].
Qed.

Lemma add_loop_absorbed c ign es b t :
  Forall (absorbed t c) (added_changes ign es) → add_loop c ign es (b, t) = (b, t).
Proof.
  induction es as [|[[x|] ts] es IH]; csimpl; [done| |done].
  case_bool_decide; csimpl; [|done]. intros [Ha Hes]%list.Forall_cons.
  apply absorbed_statement in Ha. simpl in Ha. rewrite Ha, orb_false_r. auto.
Qed.

Lemma remove_loop_absorbed c es b t :
  Forall (absorbed t c) (removed_changes es) → remove_loop c es (b, t) = (b, t).
Proof.
  induction es as [|[[x|] ts] es IH]; csimpl; [done| |done].
  intros [Ha Hes]%list.Forall_cons.
  apply absorbed_statement in Ha. simpl in Ha. rewrite Ha, orb_false_r. auto.
Qed.

Lemma absorbed_header c t h :
  Forall (absorbed t c) (header_changes h) →
  update_chats_contacts_timestamps c (hd_ignored h) (hd_to h) (hd_past h) (hd_timestamps h) t
  = (false, t).
Proof.
  unfold header_changes, update_chats_contacts_timestamps.
  destruct (_ =? _)%nat; simpl; [|done]. intros [Ha Hr]%Forall_app.
  by rewrite add_loop_absorbed, remove_loop_absorbed.
Qed.

(** Receiving a membership header again, also after other headers were merged in between,
    reports no modification and leaves the table as it is, whatever the timestamps. *)
Theorem membership_header_idempotent c t h hs :
  let t' := foldl (apply_header c) (apply_header c t h) hs in
  update_chats_contacts_timestamps c (hd_ignored h) (hd_to h) (hd_past h) (hd_timestamps h) t'
  = (false, t').
Proof.
  intros t'. apply absorbed_header. subst t'.
  rewrite apply_headers_changes, apply_header_changes, <- foldl_app.
  pose proof (apply_changes_absorb t c (header_changes h ++ concat (header_changes <$> hs))) as H.
  by apply Forall_app in H as [H _].
Qed.

Lemma older_stamps_lose m b (key : N * N) c ts chs :
  (ts <= m)%Z → Forall (λ ch, ((ch_stamp ch).1 < ts)%Z) chs →
  foldl lww_join (Some (m, b))
    (omap (λ ch, if decide ((c, ch_contact ch) = key) then Some (Some (ch_stamp ch)) else None)
       chs) = Some (m, b).
Proof.
  intros Hle Hold. induction Hold as [|ch chs Hch _ IH]; csimpl; [done|].
  case_decide; csimpl; [|exact IH]. destruct (ch_stamp ch) as [y q]. simpl in *.
  rewrite (proj2 (Z.ltb_ge m y)), (proj2 (Z.ltb_lt y m)) by lia. exact IH.
Qed.

Lemma update_chat_contacts_stamp ts id cs t x :
  (0 <= ts)%Z → x ∈ cs ∨ is_Some (t !! (id, x)) →
  ∃ m, table_stamp (update_chat_contacts_table ts id cs t) (id, x)
       = Some (m, bool_decide (x ∈ cs)) ∧ (ts <= m)%Z.
Proof.
  intros Hts Hx. unfold table_stamp. rewrite update_chat_contacts_table_lookup, decide_True
    by done. cbn [snd]. destruct (decide (x ∈ cs)) as [Hin|Hout].
  - rewrite bool_decide_true by done.
    destruct (t !! (id, x)) as [[a r]|]; simpl; eexists; unfold row_stamp, row_is_member; simpl;
      (split; [do 2 f_equal; zcompare; (done || lia)|lia]).
  - destruct Hx as [?|[[a r] Hr]]; [done|]. rewrite Hr, bool_decide_false by done. simpl.
    eexists. unfold row_stamp, row_is_member. simpl.
    split; [do 2 f_equal; zcompare; (done || lia)|lia].
Qed.

Lemma update_chat_contacts_membership ts id cs t x :
  (0 <= ts)%Z →
  is_contact_in_chat (update_chat_contacts_table ts id cs t) id x = bool_decide (x ∈ cs).
Proof.
  intros Hts. destruct (decide (x ∈ cs ∨ is_Some (t !! (id, x)))) as [Hx|Hx].
  - destruct (update_chat_contacts_stamp ts id cs t x Hts Hx) as (m & Hm & _).
    by rewrite is_contact_in_chat_stamp, Hm.
  - rewrite bool_decide_false by tauto. unfold is_contact_in_chat.
    rewrite update_chat_contacts_table_lookup, decide_True, decide_False by tauto. cbn.
    destruct (t !! (id, x)) eqn:E; [|done]. exfalso. apply Hx. eauto.
Qed.

(** Setting the member list makes the given contacts the members of the chat, exactly,
    and leaves the other chats alone; merging a header that is older than the change can
    not bring back a contact that had a row, nor drop one of the given contacts. *)
Theorem update_chat_contacts_table_spec ts id cs t :
  (0 <= ts)%Z →
  let t' := update_chat_contacts_table ts id cs t in
  (∀ x, is_contact_in_chat t' id x = bool_decide (x ∈ cs))
  ∧ (∀ c x, c ≠ id → t' !! (c, x) = t !! (c, x))
  ∧ (∀ h x, valid_header h → Forall (λ ch, ((ch_stamp ch).1 < ts)%Z) (header_changes h) →
        x ∈ cs ∨ is_Some (t !! (id, x)) →
        is_contact_in_chat (apply_header id t' h) id x = bool_decide (x ∈ cs)).
Proof.
  intros Hts t'. split_and!.
  - intros x. by apply update_chat_contacts_membership.
  - intros c x Hc. unfold t'. by rewrite update_chat_contacts_table_lookup, decide_False.
  - intros h x Hv Hold Hx.
    destruct (update_chat_contacts_stamp ts id cs t x Hts Hx) as (m & Hm & Hle).
    rewrite is_contact_in_chat_stamp, apply_header_changes, apply_changes_stamp by done.
    unfold t'. rewrite Hm. by rewrite (older_stamps_lose _ _ _ _ ts).
Qed.

Lemma is_contact_in_chat_row t c x r :
  t !! (c, x) = Some r → is_contact_in_chat t c x = row_is_member r.
Proof. unfold is_contact_in_chat. by intros ->. Qed.

(** Adding contacts makes all of them members; removing one with a trace makes it a past
    member whose row stays, removing it without a trace deletes the row; both removals report
    whether there was a row, and no removal touches another row. *)
Theorem local_membership_changes_spec t ts now c x xs :
  (0 <= ts)%Z →
  (∀ y, is_contact_in_chat (add_to_chat_contacts_table ts c xs t) c y
        = bool_decide (y ∈ xs) || is_contact_in_chat t c y)
  ∧ (let '(past, t') := remove_from_chat_contacts_table now c x t in
     is_contact_in_chat t' c x = false
     ∧ past = bool_decide (is_Some (t !! (c, x)))
     ∧ (past = true → is_Some (t' !! (c, x)))
     ∧ ∀ key, key ≠ (c, x) → t' !! key = t !! key)
  ∧ (let '(removed, t') := remove_from_chat_contacts_table_without_trace c x t in
     t' = delete (c, x) t ∧ removed = bool_decide (is_Some (t !! (c, x)))).
Proof.
  intros Hts. split_and!.
  - intros y. unfold add_to_chat_contacts_table. case_bool_decide as Hy.
    + edestruct (upsert_loop_establishes c {| add_timestamp := ts; remove_timestamp := 0 |}
        (λ r, Some {| add_timestamp := Z.max (remove_timestamp r) ts;
                      remove_timestamp := remove_timestamp r |})
        (λ r, row_is_member r = true) t xs y) as (r & Hr & Hm); try done.
      * by apply Z.leb_le.
      * intros r. unfold row_is_member. simpl. apply Z.leb_le. lia.
      * by erewrite is_contact_in_chat_row, Hm.
    + unfold is_contact_in_chat. rewrite upsert_loop_other by (right; done). done.
  - unfold remove_from_chat_contacts_table. destruct (t !! (c, x)) as [r|] eqn:E.
    + rewrite bool_decide_true by eauto. rewrite lookup_insert_eq.
      erewrite is_contact_in_chat_row by apply lookup_insert_eq.
      split_and!; eauto.
      * unfold row_is_member. simpl. apply Z.leb_gt. lia.
      * intros key Hk. by rewrite lookup_insert_ne.
    + rewrite bool_decide_false by (intros [? ?]; done). unfold is_contact_in_chat. by rewrite E.
  - unfold remove_from_chat_contacts_table_without_trace.
    destruct (t !! (c, x)) as [r|] eqn:E.
    + by rewrite bool_decide_true by eauto.
    + rewrite bool_decide_false by (intros [? ?]; done). by rewrite delete_id.
Qed.

(** The member list of a chat holds exactly the contacts [is_contact_in_chat] accepts,
    each once, in the order of the query, with the account owner at the end. *)
Theorem get_chat_contacts_spec t contacts c :
  let l := get_chat_contacts t contacts c in
  (∀ x, x ∈ l ↔ is_contact_in_chat t c x = true)
  ∧ NoDup l
  ∧ Sorted (contact_le contacts (λ x, contacts !! x)) l
  ∧ (is_Some (contacts !! SELF) → is_contact_in_chat t c SELF = true → ∃ l', l = l' ++ [SELF]).
Proof.
  intros l.
  assert (Hin : ∀ x, x ∈ l ↔ is_contact_in_chat t c x = true).
  { intros x. unfold l, get_chat_contacts. rewrite merge_sort_Permutation.
    rewrite elem_of_select_contacts. unfold is_contact_in_chat.
    destruct (t !! (c, x)) as [r|]; split; [intros (? & [= ->] & ?)|eauto|intros (? & ? & ?)|]; done. }
  assert (Hd : NoDup l).
  { unfold l, get_chat_contacts. rewrite merge_sort_Permutation. apply select_contacts_NoDup. }
  assert (Hs : Sorted (contact_le contacts (λ x, contacts !! x)) l) by apply Sorted_merge_sort, _.
  split_and!; try done. intros Hself Hm. by eapply sorted_self_last, Hin.
Qed.

(** Past members are listed apart: never a current member, only contacts whose removal
    is younger than 60 days. *)
Theorem get_past_chat_contacts_spec t contacts now c x :
  x ∈ get_past_chat_contacts t contacts now c ↔
  ∃ r, t !! (c, x) = Some r ∧ is_contact_in_chat t c x = false
       ∧ (sat_sub now (60 * 24 * 3600) < remove_timestamp r)%Z.
Proof.
  unfold get_past_chat_contacts. rewrite merge_sort_Permutation, elem_of_select_contacts.
  unfold is_contact_in_chat. split.
  - intros (r & Hr & Hw). bool_tests. rewrite Hr. eauto.
  - intros (r & Hr & Hm & Hts). rewrite Hr in Hm. exists r. split; [done|].
    by rewrite Hm, (proj2 (Z.ltb_lt _ _)).
Qed.

(** ** Witnesses *)

(** Alice (10) announces Bob (11) as added at 50 and Carol (12) as removed at 60; Bob later
    announces that Carol was added again at 70. *)
Definition sample_header_1 : member_header :=
  {| hd_ignored := Some 10%N; hd_to := [Some 10%N; Some 11%N]; hd_past := [Some 12%N; None];
     hd_timestamps := [40; 50; 60; 65]%Z |}.

Definition sample_header_2 : member_header :=
  {| hd_ignored := Some 11%N; hd_to := [Some 11%N; Some 12%N]; hd_past := [];
     hd_timestamps := [50; 70]%Z |}.

Lemma sample_headers_valid : Forall valid_header [sample_header_1; sample_header_2].
Proof. repeat (apply Forall_cons_2 || apply Forall_nil_2); vm_compute; done. Qed.

Lemma update_chats_contacts_timestamps_refines_witness :
  table_stamp (apply_header 20 ∅ sample_header_1) (20, 12)%N
    = foldl lww_join (table_stamp ∅ (20, 12)%N)
        (omap (λ ch, if decide (ch_contact ch = 12%N) then Some (Some (ch_stamp ch)) else None)
           (header_changes sample_header_1)).
Proof.
  apply (proj1 (update_chats_contacts_timestamps_refines 20 sample_header_1 ∅ 12)).
  apply (Forall_inv sample_headers_valid).
Defined.

Lemma membership_convergence_witness :
  is_contact_in_chat (foldl (apply_header 20) ∅ [sample_header_1; sample_header_2]) 20 12
  = is_contact_in_chat (foldl (apply_header 20) ∅ [sample_header_2; sample_header_1]) 20 12.
Proof.
  apply membership_convergence; [reflexivity|apply Permutation_swap|apply sample_headers_valid].
Defined.

Lemma update_chat_contacts_table_spec_witness :
  is_contact_in_chat
    (update_chat_contacts_table 100 20 {[1; 11]}%N (apply_header 20 ∅ sample_header_1)) 20 11
  = true.
Proof.
  rewrite (proj1 (update_chat_contacts_table_spec 100 20 {[1; 11]}%N
                    (apply_header 20 ∅ sample_header_1) ltac:(lia))).
  reflexivity.
Defined.

Lemma local_membership_changes_spec_witness :
  is_contact_in_chat (add_to_chat_contacts_table 100 20 [12]%N
    (apply_header 20 ∅ sample_header_1)) 20 12 = true.
Proof.
  rewrite (proj1 (local_membership_changes_spec (apply_header 20 ∅ sample_header_1)
                    100 0 20 12 [12]%N ltac:(lia))).
  reflexivity.
Defined.

Lemma get_chat_contacts_spec_witness :
  ∃ l', get_chat_contacts (update_chat_contacts_table 100 20 {[1; 11]}%N ∅)
          {[1%N := 0%Z; 11%N := 3%Z]} 20 = l' ++ [SELF].
Proof. apply get_chat_contacts_spec; [by eexists|reflexivity]. Defined.

(** The removal of an unknown contact with timestamp 0 inserts a row that tells membership:
    the validity condition of the convergence theorem can not be dropped. *)
Example removal_at_epoch_adds :
  is_contact_in_chat
    (update_chats_contacts_timestamps 20 None [] [Some 12%N] [0%Z] ∅).2 20 12 = true.
Proof. reflexivity. Qed.

(** Stamps from before the epoch are read from headers like any others; devices that get them in
    different orders disagree. *)
Example negative_stamps_diverge :
  let added := {| hd_ignored := None; hd_to := [Some 12%N]; hd_past := []; hd_timestamps := [-5]%Z |} in
  let removed := {| hd_ignored := None; hd_to := []; hd_past := [Some 12%N]; hd_timestamps := [-3]%Z |} in
  is_contact_in_chat (foldl (apply_header 20) ∅ [added; removed]) 20 12 = false
  ∧ is_contact_in_chat (foldl (apply_header 20) ∅ [removed; added]) 20 12 = true.
Proof. split; reflexivity. Qed.
