(* ===== verification/ContactTools.v ===== *)
(** ContactTools: names and addresses of contacts
    (src/deltachat-contact-tools/src/lib.rs): bidirectional-text sanitizing, name clean-up,
    address parsing and normalisation. *)
From S2P Require Import Prelude.

(** ** Bidirectional control characters *)

Definition RTLO_CHARACTERS : list char := [8234; 8235; 8236; 8237; 8238]%N.
Definition ISOLATE_CHARACTERS : list char := [8294; 8295; 8296]%N.
Definition POP_ISOLATE_CHARACTER : char := 8297%N.

Definition is_rtlo (c : char) : bool := bool_decide (c ∈ RTLO_CHARACTERS).
Definition is_isolate (c : char) : bool := bool_decide (c ∈ ISOLATE_CHARACTERS).

(** [str::replace] with a character predicate and the empty string. *)
Definition remove_chars (f : char -> bool) (s : str) : str := filter (λ c, f c = false) s.

(** The loop of [isolate_characters_are_valid]: the nesting stays between 0 and 125 after
    every character. *)
Fixpoint isolate_nesting_valid (nesting : Z) (s : str) : bool :=
  match s with
  | [] => (nesting =? 0)%Z
  | c :: s' =>
      let nesting := if is_isolate c then (nesting + 1)%Z
                     else if (c =? POP_ISOLATE_CHARACTER)%N then (nesting - 1)%Z
                     else nesting in
      if (nesting <? 0)%Z || (125 <? nesting)%Z then false
      else isolate_nesting_valid nesting s'
  end.

Definition isolate_characters_are_valid (s : str) : bool := isolate_nesting_valid 0 s.

(** [sanitize_bidi_characters]. *)
Definition sanitize_bidi_characters (input_str : str) : str :=
  let input_str := remove_chars is_rtlo input_str in
  if isolate_characters_are_valid input_str then input_str
  else remove_chars (λ c, is_isolate c || (c =? POP_ISOLATE_CHARACTER)%N) input_str.

(** ** Names *)

(** [sanitize_single_line]. *)
Definition sanitize_single_line (input : str) : str :=
  sanitize_bidi_characters
    (trim ((λ c, if (c =? LF)%N || (c =? CR)%N then SP else c) <$> input)).

(** Whether the text starts with [a], ends with [b] and has at least two characters, and
    what is between them. *)
Definition strip_enclosing (a b : char) (s : str) : option str :=
  match s with
  | [] => None
  | c :: s' => if (c =? a)%N then strip_suffix [b] s' else None
  end.

(** [sanitize_name]: quotes or angle brackets around the name are removed. *)
Definition sanitize_name (name : str) : str :=
  let name := sanitize_single_line name in
  match strip_enclosing 39 39 name, strip_enclosing 34 34 name, strip_enclosing 60 62 name with
  | Some s, _, _ | None, Some s, _ | None, None, Some s => trim s
  | None, None, None => name
  end.

(** The last occurrence of a character: what is before and after it ([rsplitn(2, c)]). *)
Definition rsplit_once (c : char) (s : str) : option (str * str) :=
  match split_once c (rev s) with
  | Some (a, b) => Some (rev b, rev a)
  | None => None
  end.

(** The regular expression of an address with a name, a group, [<], a group, [>], on one line
    (the dot excludes the line feed): both groups are greedy, so the line is cut at its last [>] and then at the last [<] before it. *)
Definition match_name_addr_line (line : str) : option (str * str) :=
  '(before, _) ← rsplit_once 62 line; rsplit_once 60 before.

(** The leftmost match is on the first line that has one. *)
Fixpoint match_name_addr (lines : list str) : option (str * str) :=
  match lines with
  | [] => None
  | l :: ls =>
      match match_name_addr_line l with
      | Some m => Some m
      | None => match_name_addr ls
      end
  end.

(** [sanitize_name_and_addr]. *)
Definition sanitize_name_and_addr (name addr : str) : str * str :=
  let '(name, addr) :=
    match match_name_addr (split_char LF addr) with
    | Some (g1, g2) => (if bool_decide (name = []) then g1 else name, g2)
    | None => (name, addr)
    end in
  let name := sanitize_name name in
  let name := if bool_decide (name = addr) then [] else name in
  (name, addr).

(** ** Addresses *)

(** [struct EmailAddress]. *)
Record EmailAddress := { local : str; domain : str }.

(** [Display]. *)
Definition EmailAddress_to_string (e : EmailAddress) : str := local e ++ 64%N :: domain e.

Inductive EmailError :=
| EmptyString | ForbiddenCharacter | EmptyLocalPart | MissingDomain | DomainEndsWithDot | NoAtSign.

(** [EmailAddress::new]. *)
Definition EmailAddress_new (input : str) : result EmailAddress EmailError :=
  if bool_decide (input = []) then Err EmptyString
  else if existsb (λ c, is_whitespace c || (c =? 60)%N || (c =? 62)%N) input
  then Err ForbiddenCharacter
  else
    match rsplit_once 64 input with
    | Some (local, domain) =>
        if bool_decide (local = []) then Err EmptyLocalPart
        else if bool_decide (domain = []) then Err MissingDomain
        else if ends_with [46]%N domain then Err DomainEndsWithDot
        else Ok {| local := local; domain := domain |}
    | None => Err NoAtSign
    end.

(** [may_be_valid_addr]. *)
Definition may_be_valid_addr (addr : str) : bool :=
  match EmailAddress_new addr with Ok _ => true | Err _ => false end.

Section Normalize.
(** [str::to_lowercase], the Unicode lower-case mapping. *)
Context (to_lowercase : str -> str).

(** [addr_normalize]. *)
Definition addr_normalize (addr : str) : str :=
  let norm := to_lowercase (trim addr) in
  match strip_prefix (lit "mailto:") norm with
  | Some rest => rest
  | None => norm
  end.

(** [addr_cmp]. *)
Definition addr_cmp (addr1 addr2 : str) : bool :=
  bool_decide (addr_normalize addr1 = addr_normalize addr2).

(** [ContactAddress::new]. *)
Definition ContactAddress_new (s : str) : option str :=
  let addr := addr_normalize s in
  if negb (may_be_valid_addr addr) then None else Some addr.

End Normalize.

(** ** Lemmas *)

Lemma remove_chars_idemp f s : remove_chars f (remove_chars f s) = remove_chars f s.
Proof. unfold remove_chars. rewrite list_filter_filter. apply list_filter_iff. tauto. Qed.

Lemma elem_of_remove_chars f s c : c ∈ remove_chars f s ↔ f c = false ∧ c ∈ s.
Proof. unfold remove_chars. by rewrite list_elem_of_filter. Qed.

Lemma remove_chars_id f s : (∀ c, c ∈ s → f c = false) → remove_chars f s = s.
Proof.
  induction s as [|c s IH]; intros H; [done|]. unfold remove_chars in *.
  rewrite filter_cons, decide_True by (apply H, elem_of_cons; by left).
  f_equal. apply IH. intros d Hd. apply H, elem_of_cons. by right.
Qed.

(** Text without isolate characters never nests. *)
Lemma isolate_nesting_none s :
  (∀ c, c ∈ s → is_isolate c = false ∧ c ≠ POP_ISOLATE_CHARACTER) →
  isolate_nesting_valid 0 s = true.
Proof.
  induction s as [|c s IH]; intros H; [done|]. cbn [isolate_nesting_valid].
  destruct (H c) as [H1 H2]; [apply elem_of_cons; by left|].
  rewrite H1, (proj2 (N.eqb_neq _ _) H2). cbn. apply IH.
  intros d Hd. apply H, elem_of_cons. by right.
Qed.

Lemma sanitize_bidi_valid s :
  isolate_characters_are_valid (sanitize_bidi_characters s) = true.
Proof.
  unfold sanitize_bidi_characters.
  destruct (isolate_characters_are_valid (remove_chars is_rtlo s)) eqn:E; [done|].
  apply isolate_nesting_none. intros c [Hc _]%elem_of_remove_chars.
  apply orb_false_iff in Hc as [? ?%N.eqb_neq]. done.
Qed.

Lemma sanitize_bidi_subset s c :
  c ∈ sanitize_bidi_characters s → c ∈ s ∧ is_rtlo c = false.
Proof.
  unfold sanitize_bidi_characters. case_ifs.
  - intros [? ?]%elem_of_remove_chars. done.
  - intros [_ [? ?]%elem_of_remove_chars]%elem_of_remove_chars. done.
Qed.

Lemma rsplit_once_Some c s a b : rsplit_once c s = Some (a, b) → s = a ++ c :: b ∧ c ∉ b.
Proof.
  unfold rsplit_once. destruct (split_once c (rev s)) as [[x y]|] eqn:E; [|done].
  intros [= <- <-].
  cut (rev s = x ++ c :: y ∧ c ∉ x).
  { intros [H Hn]. split.
    - rewrite <- (rev_involutive s), H, rev_app_distr. simpl. by rewrite <- app_assoc.
    - rewrite list_elem_of_In, <- in_rev, <- list_elem_of_In. done. }
  revert E. generalize (rev s). clear s. intros s. revert x y.
  induction s as [|d s IH]; intros x y; simpl; [done|].
  destruct (N.eqb_spec d c) as [->|Hne].
  - intros [= <- <-]. split; [done|apply not_elem_of_nil].
  - destruct (split_once c s) as [[u v]|]; [|done]. intros [= <- <-].
    destruct (IH u v eq_refl) as [-> Hn]. split; [done|].
    apply not_elem_of_cons. split; [congruence|done].
Qed.

Lemma rsplit_once_app c a b : c ∉ b → rsplit_once c (a ++ c :: b) = Some (a, b).
Proof.
  intros Hn. unfold rsplit_once. rewrite rev_app_distr. simpl. rewrite <- app_assoc. simpl.
  rewrite split_once_app by (by rewrite list_elem_of_In, <- in_rev, <- list_elem_of_In).
  by rewrite !rev_involutive.
Qed.

Lemma existsb_false_forall (f : char -> bool) s :
  existsb f s = false ↔ ∀ c, c ∈ s → f c = false.
Proof.
  rewrite <- not_true_iff_false, existsb_exists. split.
  - intros H c Hc. destruct (f c) eqn:E; [|done]. exfalso. apply H.
    exists c. by rewrite <- list_elem_of_In.
  - intros H (c & Hc & Hf). rewrite <- list_elem_of_In in Hc. rewrite H in Hf; done.
Qed.

Lemma trim_start_by_subset f s c : c ∈ trim_start_by f s → c ∈ s.
Proof.
  destruct (trim_start_by_suffix f s) as (p & Hp & _). intros Hc. rewrite Hp.
  apply elem_of_app. by right.
Qed.

Lemma elem_of_rev (s : str) c : c ∈ rev s ↔ c ∈ s.
Proof. by rewrite !list_elem_of_In, <- in_rev. Qed.

Lemma trim_subset s c : c ∈ trim s → c ∈ s.
Proof.
  unfold trim, trim_end, trim_end_by.
  rewrite elem_of_rev. intros H%trim_start_by_subset. rewrite elem_of_rev in H.
  exact (trim_start_by_subset _ _ _ H).
Qed.

(** ** Properties *)

(** Sanitized text can not influence the direction of the text around it: the override
    and embedding characters are gone, the isolate characters that are left are properly
    nested (never more than 125 deep), only characters of the input remain, and sanitizing
    twice changes nothing. *)
Theorem sanitize_bidi_safe s :
  (∀ c, c ∈ sanitize_bidi_characters s → c ∈ s ∧ is_rtlo c = false)
  ∧ isolate_characters_are_valid (sanitize_bidi_characters s) = true
  ∧ sanitize_bidi_characters (sanitize_bidi_characters s) = sanitize_bidi_characters s.
Proof.
  split_and!; [apply sanitize_bidi_subset|apply sanitize_bidi_valid|].
  unfold sanitize_bidi_characters at 1.
  rewrite (remove_chars_id is_rtlo) by
    (intros c Hc; apply (sanitize_bidi_subset _ _ Hc)).
  by rewrite sanitize_bidi_valid.
Qed.

(** A sanitized name is one line without direction overrides, and a contact whose name
    is its address is stored without a name. *)
Theorem sanitize_name_and_addr_safe name addr :
  let '(name', addr') := sanitize_name_and_addr name addr in
  (∀ c, c ∈ name' → c ≠ LF ∧ c ≠ CR ∧ is_rtlo c = false)
  ∧ (name' = addr' → name' = []).
Proof.
  assert (Hline : ∀ s c, c ∈ sanitize_single_line s → c ≠ LF ∧ c ≠ CR ∧ is_rtlo c = false).
  { intros s c [Hc Hr]%sanitize_bidi_subset.
    apply trim_subset, list_elem_of_fmap in Hc as (d & -> & _).
    destruct (N.eqb_spec d LF), (N.eqb_spec d CR); by split_and!. }
  assert (Hin : ∀ a b s t c, strip_enclosing a b s = Some t → c ∈ trim t → c ∈ s).
  { intros a b [|x s] t c; simpl; [done|]. destruct (x =? a)%N; [|done].
    intros ->%strip_suffix_Some Hc%trim_subset. apply elem_of_cons. right.
    apply elem_of_app. by left. }
  assert (Hname : ∀ s c, c ∈ sanitize_name s → c ≠ LF ∧ c ≠ CR ∧ is_rtlo c = false).
  { intros s c Hc. apply (Hline s). unfold sanitize_name in Hc. repeat case_match; eauto. }
  unfold sanitize_name_and_addr.
  destruct (match match_name_addr _ with Some _ => _ | None => _ end) as [n a].
  case_bool_decide as E; split; try done.
  - intros c Hc. by apply not_elem_of_nil in Hc.
  - apply Hname.
Qed.

(** Parsing an address and printing it are inverse: an accepted address prints as the
    input, and its local part and domain are not empty; conversely every address made of a
    local part and a domain that pass the checks is accepted and parsed into these parts. *)
Theorem email_roundtrip s e :
  EmailAddress_new s = Ok e ↔
  s = EmailAddress_to_string e ∧ (64%N ∉ domain e) ∧ local e ≠ [] ∧ domain e ≠ []
  ∧ ends_with [46]%N (domain e) = false
  ∧ (∀ c, c ∈ s → is_whitespace c = false ∧ c ≠ 60%N ∧ c ≠ 62%N).
Proof.
  unfold EmailAddress_new, EmailAddress_to_string. split.
  - case_bool_decide as Hs; [done|]. destruct (existsb _ s) eqn:Hf; [done|].
    destruct (rsplit_once 64 s) as [[l d]|] eqn:Hsp; [|done].
    apply rsplit_once_Some in Hsp as [Heq Hn].
    case_bool_decide; [done|]. case_bool_decide; [done|].
    destruct (ends_with [46]%N d) eqn:Hd; [done|]. intros [= <-]. simpl. split_and!; auto.
    intros c Hc. rewrite existsb_false_forall in Hf. specialize (Hf c Hc). by bool_tests.
  - intros (-> & Hn & Hl & Hd & Hdot & Hc).
    rewrite bool_decide_false by (by destruct (local e)).
    rewrite (proj2 (existsb_false_forall _ _)).
    2:{ intros c Hin. destruct (Hc c Hin) as (-> & H1 & H2).
        by rewrite (proj2 (N.eqb_neq _ _) H1), (proj2 (N.eqb_neq _ _) H2). }
    rewrite rsplit_once_app by done.
    rewrite !bool_decide_false, Hdot by done. by destruct e.
Qed.

(** The source's doc example. *)
Example email_example :
  EmailAddress_new (lit "someone@example.com")
  = Ok {| local := lit "someone"; domain := lit "example.com" |}.
Proof. reflexivity. Qed.

Example sanitize_example :
  sanitize_name_and_addr [] (lit "Alice <alice@example.org>")
  = (lit "Alice", lit "alice@example.org").
Proof. reflexivity. Qed.
