(* ===== verification/LoginParam.v ===== *)
(** LoginParam: what the user enters to log in (src/src/login_param.rs), the provider database's
    entries (src/src/provider.rs), the candidates of servers to try
    (src/src/configure/server_params.rs) and the configured parameters that are stored
    (src/src/transport.rs). *)
From S2P Require Import Prelude ContactTools.

(** ** Enumerations (provider.rs, login_param.rs, transport.rs) *)

Module Protocol.
(** [enum Protocol]. *)
Inductive Protocol : Set := Smtp | Imap.
End Protocol.
Abbreviation Protocol := Protocol.Protocol.

#[export] Instance Protocol_eq_dec : EqDecision Protocol.
Proof. solve_decision. Defined.

Module Socket.
(** [enum Socket]. *)
Inductive Socket : Set := Automatic | Ssl | Starttls | Plain.

Definition to_i32 (s : Socket) : Z :=
  match s with Automatic => 0 | Ssl => 1 | Starttls => 2 | Plain => 3 end%Z.

(** [FromPrimitive::from_i32]. *)
Definition from_i32 (z : Z) : option Socket :=
  if (z =? 0)%Z then Some Automatic
  else if (z =? 1)%Z then Some Ssl
  else if (z =? 2)%Z then Some Starttls
  else if (z =? 3)%Z then Some Plain
  else None.
End Socket.
Abbreviation Socket := Socket.Socket.

#[export] Instance Socket_eq_dec : EqDecision Socket.
Proof. solve_decision. Defined.

Module UsernamePattern.
(** [enum UsernamePattern]. *)
Inductive UsernamePattern : Set := Email | Emaillocalpart.
End UsernamePattern.

Module EnteredCertificateChecks.
(** [enum EnteredCertificateChecks]. *)
Inductive EnteredCertificateChecks : Set :=
| Automatic | Strict | AcceptInvalidCertificates | AcceptInvalidCertificates2.

Definition to_i32 (c : EnteredCertificateChecks) : Z :=
  match c with
  | Automatic => 0 | Strict => 1 | AcceptInvalidCertificates => 2
  | AcceptInvalidCertificates2 => 3
  end%Z.

Definition from_i32 (z : Z) : option EnteredCertificateChecks :=
  if (z =? 0)%Z then Some Automatic
  else if (z =? 1)%Z then Some Strict
  else if (z =? 2)%Z then Some AcceptInvalidCertificates
  else if (z =? 3)%Z then Some AcceptInvalidCertificates2
  else None.

(** [EnteredCertificateChecks::accept_invalid_certificates]. *)
Definition accept_invalid_certificates (c : EnteredCertificateChecks) : bool :=
  match c with AcceptInvalidCertificates | AcceptInvalidCertificates2 => true | _ => false end.
End EnteredCertificateChecks.
Abbreviation EnteredCertificateChecks := EnteredCertificateChecks.EnteredCertificateChecks.

#[export] Instance EnteredCertificateChecks_eq_dec : EqDecision EnteredCertificateChecks.
Proof. solve_decision. Defined.

Module ConnectionSecurity.
(** [enum ConnectionSecurity]. *)
Inductive ConnectionSecurity : Set := Tls | Starttls | Plain.

(** [TryFrom<Socket>]. *)
Definition try_from (s : Socket) : option ConnectionSecurity :=
  match s with
  | Socket.Automatic => None
  | Socket.Ssl => Some Tls
  | Socket.Starttls => Some Starttls
  | Socket.Plain => Some Plain
  end.
End ConnectionSecurity.
Abbreviation ConnectionSecurity := ConnectionSecurity.ConnectionSecurity.

#[export] Instance ConnectionSecurity_eq_dec : EqDecision ConnectionSecurity.
Proof. solve_decision. Defined.

Module ConfiguredCertificateChecks.
(** [enum ConfiguredCertificateChecks]. *)
Inductive ConfiguredCertificateChecks : Set :=
| OldAutomatic | Strict | AcceptInvalidCertificates | AcceptInvalidCertificates2 | Automatic.

Definition from_i32 (z : Z) : option ConfiguredCertificateChecks :=
  if (z =? 0)%Z then Some OldAutomatic
  else if (z =? 1)%Z then Some Strict
  else if (z =? 2)%Z then Some AcceptInvalidCertificates
  else if (z =? 3)%Z then Some AcceptInvalidCertificates2
  else if (z =? 4)%Z then Some Automatic
  else None.
End ConfiguredCertificateChecks.
Abbreviation ConfiguredCertificateChecks :=
  ConfiguredCertificateChecks.ConfiguredCertificateChecks.

#[export] Instance ConfiguredCertificateChecks_eq_dec : EqDecision ConfiguredCertificateChecks.
Proof. solve_decision. Defined.

(** ** Records *)

(** [struct EnteredImapLoginParam]. *)
Record EnteredImapLoginParam := {
  imap_server : str;
  imap_port : Z;
  imap_folder : str;
  imap_security : Socket;
  imap_user : str;
  imap_password : str
}.

(** [struct EnteredSmtpLoginParam]. *)
Record EnteredSmtpLoginParam := {
  smtp_server : str;
  smtp_port : Z;
  smtp_security : Socket;
  smtp_user : str;
  smtp_password : str
}.

(** [struct EnteredLoginParam]. *)
Record EnteredLoginParam := {
  e_addr : str;
  e_imap : EnteredImapLoginParam;
  e_smtp : EnteredSmtpLoginParam;
  e_certificate_checks : EnteredCertificateChecks;
  e_oauth2 : bool
}.

(** [struct Server] and the fields of [struct Provider] the code below reads. *)
Record Server := {
  srv_protocol : Protocol;
  srv_socket : Socket;
  srv_hostname : str;
  srv_port : Z;
  srv_username_pattern : UsernamePattern.UsernamePattern
}.

Record Provider := {
  p_id : str;
  p_server : list Server;
  p_strict_tls : bool
}.

(** [struct ServerParams]. *)
Record ServerParams := {
  protocol : Protocol;
  hostname : str;
  port : Z;
  socket : Socket;
  username : str
}.

(** [struct ConnectionCandidate] and [struct ConfiguredServerLoginParam]. *)
Record ConnectionCandidate := {
  cc_host : str;
  cc_port : Z;
  cc_security : ConnectionSecurity
}.

Record ConfiguredServerLoginParam := {
  connection : ConnectionCandidate;
  user : str
}.

(** [struct ConfiguredLoginParamJson], and [struct ConfiguredLoginParam], which has the
    provider instead of its identifier. *)
Record ConfiguredLoginParamOf (provider_type : Type) := {
  addr : str;
  imap : list ConfiguredServerLoginParam;
  imap_watched_folder : option str;
  configured_imap_user : str;
  configured_imap_password : str;
  smtp : list ConfiguredServerLoginParam;
  configured_smtp_user : str;
  configured_smtp_password : str;
  provider : option provider_type;
  certificate_checks : ConfiguredCertificateChecks;
  oauth2 : bool
}.
Arguments addr {_} _.
Arguments imap {_} _.
Arguments imap_watched_folder {_} _.
Arguments configured_imap_user {_} _.
Arguments configured_imap_password {_} _.
Arguments smtp {_} _.
Arguments configured_smtp_user {_} _.
Arguments configured_smtp_password {_} _.
Arguments provider {_} _.
Arguments certificate_checks {_} _.
Arguments oauth2 {_} _.

Definition ConfiguredLoginParam := ConfiguredLoginParamOf Provider.
Definition ConfiguredLoginParamJson := ConfiguredLoginParamOf str.

Definition map_provider {A B} (f : option A -> option B) (p : ConfiguredLoginParamOf A)
  : ConfiguredLoginParamOf B :=
  {| addr := addr p; imap := imap p; imap_watched_folder := imap_watched_folder p;
     configured_imap_user := configured_imap_user p;
     configured_imap_password := configured_imap_password p;
     smtp := smtp p; configured_smtp_user := configured_smtp_user p;
     configured_smtp_password := configured_smtp_password p; provider := f (provider p);
     certificate_checks := certificate_checks p; oauth2 := oauth2 p |}.

(** [From<ConfiguredLoginParam> for ConfiguredLoginParamJson]. *)
Definition into_param_json : ConfiguredLoginParam -> ConfiguredLoginParamJson :=
  map_provider (fmap p_id).

(** [ConfiguredLoginParam::strict_tls]. *)
Definition strict_tls (p : ConfiguredLoginParam) (connected_through_proxy : bool) : bool :=
  let provider_strict_tls := p_strict_tls <$> provider p in
  match certificate_checks p with
  | ConfiguredCertificateChecks.OldAutomatic => default connected_through_proxy provider_strict_tls
  | ConfiguredCertificateChecks.Automatic => default true provider_strict_tls
  | ConfiguredCertificateChecks.Strict => true
  | ConfiguredCertificateChecks.AcceptInvalidCertificates
  | ConfiguredCertificateChecks.AcceptInvalidCertificates2 => false
  end.

(** ** The provider database (provider.rs)

    The entries ([PROVIDER_DATA], [PROVIDER_IDS]) are generated data. *)
Section ProviderInfo.
Context (to_lowercase : str -> str).
Context (PROVIDER_DATA : list (str * Provider)).

(** [get_provider_info]. *)
Definition pattern_matches (pattern domain : str) : bool :=
  match strip_prefix (lit "*") pattern with
  | Some suffix => ends_with suffix domain
  | None => bool_decide (pattern = domain)
  end.

Fixpoint find_provider (data : list (str * Provider)) (domain : str) : option Provider :=
  match data with
  | [] => None
  | (pattern, p) :: data' =>
      if pattern_matches pattern domain then Some p else find_provider data' domain
  end.

Definition get_provider_info (domain : str) : option Provider :=
  find_provider PROVIDER_DATA (to_lowercase domain).
End ProviderInfo.

(** ** Candidates of servers (configure/server_params.rs) *)

Definition with_username (p : ServerParams) (u : str) : ServerParams :=
  {| protocol := protocol p; hostname := hostname p; port := port p; socket := socket p;
     username := u |}.
Definition with_hostname (p : ServerParams) (h : str) : ServerParams :=
  {| protocol := protocol p; hostname := h; port := port p; socket := socket p;
     username := username p |}.
Definition with_port (p : ServerParams) (n : Z) : ServerParams :=
  {| protocol := protocol p; hostname := hostname p; port := n; socket := socket p;
     username := username p |}.
Definition with_socket (p : ServerParams) (s : Socket) : ServerParams :=
  {| protocol := protocol p; hostname := hostname p; port := port p; socket := s;
     username := username p |}.

(** [ServerParams::expand_usernames]. *)
Definition expand_usernames (a : str) (p : ServerParams) : list ServerParams :=
  if bool_decide (username p = []) then [with_username p a] else [p].

(** [ServerParams::expand_hostnames]. *)
Definition expand_hostnames (param_domain : str) (p : ServerParams) : list ServerParams :=
  if bool_decide (hostname p = []) then
    [with_hostname p (match protocol p with
                      | Protocol.Imap => lit "imap." ++ param_domain
                      | Protocol.Smtp => lit "smtp." ++ param_domain
                      end);
     with_hostname p (lit "mail." ++ param_domain);
     with_hostname p param_domain]
  else [p].

Definition tls_port (p : Protocol) : Z :=
  match p with Protocol.Imap => 993 | Protocol.Smtp => 465 end.
Definition starttls_port (p : Protocol) : Z :=
  match p with Protocol.Imap => 143 | Protocol.Smtp => 587 end.

(** [ServerParams::expand_ports]. *)
Definition expand_ports (p : ServerParams) : list ServerParams :=
  let p :=
    if (port p =? 0)%Z then
      with_port p (match socket p with
                   | Socket.Ssl => tls_port (protocol p)
                   | Socket.Starttls | Socket.Plain => starttls_port (protocol p)
                   | Socket.Automatic => 0%Z
                   end)
    else p in
  if (port p =? 0)%Z then
    [with_port (with_socket p Socket.Ssl) (tls_port (protocol p));
     with_port (with_socket p Socket.Starttls) (starttls_port (protocol p))]
  else if bool_decide (socket p = Socket.Automatic) then
    [with_socket p Socket.Ssl; with_socket p Socket.Starttls]
  else [p].

(** [expand_param_vector]. *)
Definition expand_param_vector (v : list ServerParams) (a domain : str) : list ServerParams :=
  ((v ≫= expand_usernames a) ≫= expand_hostnames domain) ≫= expand_ports.

(** The candidates of one protocol, as [get_configured_param] and [load_legacy] store them. *)
Definition candidate (proto : Protocol) (p : ServerParams) : option ConfiguredServerLoginParam :=
  security ← ConnectionSecurity.try_from (socket p);
  if bool_decide (protocol p = proto) then
    Some {| connection := {| cc_host := hostname p; cc_port := port p; cc_security := security |};
            user := username p |}
  else None.

Definition candidates (proto : Protocol) (servers : list ServerParams)
  : list ConfiguredServerLoginParam :=
  omap (candidate proto) servers.

(** ** Lemmas on the expansion *)

(** What a caller relies on: every variant is complete. *)
Definition complete (p : ServerParams) : Prop :=
  hostname p ≠ [] ∧ (0 < port p <= u16_max)%Z ∧ socket p ≠ Socket.Automatic ∧ username p ≠ [].

(** [q] is [p] with its unknown fields filled in. *)
Definition fills (a domain : str) (p q : ServerParams) : Prop :=
  protocol q = protocol p
  ∧ username q = (if bool_decide (username p = []) then a else username p)
  ∧ (if bool_decide (hostname p = [])
     then ∃ prefix, prefix ∈ [lit "imap."; lit "smtp."; lit "mail."; []]
          ∧ hostname q = prefix ++ domain
     else hostname q = hostname p)
  ∧ (port p ≠ 0%Z → port q = port p)
  ∧ (if bool_decide (socket p = Socket.Automatic)
     then socket q ∈ [Socket.Ssl; Socket.Starttls]
     else socket q = socket p).

(** Split on the tests of the expansion and on the list a variant comes from. *)
Ltac in_variants :=
  repeat match goal with
  | H : _ ∈ _ :: _ |- _ => apply elem_of_cons in H as [->|H]
  | H : _ ∈ [] |- _ => by apply not_elem_of_nil in H
  | H : _ ∈ (if ?b then _ else _) |- _ => destruct b eqn:?
  | H : bool_decide _ = true |- _ => apply bool_decide_eq_true_1 in H
  | H : bool_decide _ = false |- _ => apply bool_decide_eq_false_1 in H
  end.

Lemma expand_usernames_spec a p q :
  q ∈ expand_usernames a p →
  q = with_username p (if bool_decide (username p = []) then a else username p).
Proof. unfold expand_usernames. intros H. destruct p; simpl in *. by in_variants. Qed.

Lemma expand_hostnames_spec domain p q :
  q ∈ expand_hostnames domain p →
  ∃ h, q = with_hostname p h
    ∧ if bool_decide (hostname p = [])
      then ∃ prefix, prefix ∈ [lit "imap."; lit "smtp."; lit "mail."; []] ∧ h = prefix ++ domain
      else h = hostname p.
Proof.
  unfold expand_hostnames. destruct (bool_decide _) eqn:E; intros H; in_variants.
  - eexists. split; [done|]. destruct (protocol p); eexists; split; [|done| |done]; set_solver.
  - eexists. split; [done|]. eexists. split; [|done]. set_solver.
  - eexists. split; [done|]. exists []. split; [set_solver|done].
  - exists (hostname p). split; [by destruct p|done].
Qed.

Lemma expand_ports_spec p q :
  q ∈ expand_ports p →
  ∃ n s, q = with_port (with_socket p s) n
    ∧ (if (port p =? 0)%Z then n ∈ [993; 465; 143; 587]%Z else n = port p)
    ∧ (if bool_decide (socket p = Socket.Automatic)
       then s ∈ [Socket.Ssl; Socket.Starttls] else s = socket p).
Proof.
  unfold expand_ports, tls_port, starttls_port. destruct p as [proto h n s u]; simpl.
  destruct (Z.eqb_spec n 0) as [->|Hn].
  - destruct s; simpl; destruct proto; simpl; intros H; in_variants;
      eexists _, _; (split; [unfold with_port, with_socket; simpl; reflexivity|]); split; set_solver.
  - simpl. rewrite (proj2 (Z.eqb_neq n 0)) by done.
    destruct (bool_decide (s = Socket.Automatic)) eqn:E; intros H; in_variants;
      eexists _, _; (split; [unfold with_port, with_socket; simpl; reflexivity|]); (split; [done|]); set_solver.
Qed.

(** A variant of the expansion, with the filled-in fields made explicit. *)
Lemma expand_inv a domain v q :
  q ∈ expand_param_vector v a domain →
  ∃ p h n s, p ∈ v
    ∧ q = with_port (with_socket (with_hostname (with_username p
            (if bool_decide (username p = []) then a else username p)) h) s) n
    ∧ (if bool_decide (hostname p = [])
       then ∃ prefix, prefix ∈ [lit "imap."; lit "smtp."; lit "mail."; []] ∧ h = prefix ++ domain
       else h = hostname p)
    ∧ (if (port p =? 0)%Z then n ∈ [993; 465; 143; 587]%Z else n = port p)
    ∧ (if bool_decide (socket p = Socket.Automatic)
       then s ∈ [Socket.Ssl; Socket.Starttls] else s = socket p).
Proof.
  unfold expand_param_vector. intros H.
  apply list_elem_of_bind in H as (p2 & Hq & H).
  apply list_elem_of_bind in H as (p1 & H2 & H).
  apply list_elem_of_bind in H as (p & H1 & Hp).
  apply expand_usernames_spec in H1 as ->.
  apply expand_hostnames_spec in H2 as (h & -> & Hh).
  apply expand_ports_spec in Hq as (n & s & -> & Hn & Hs).
  exists p, h, n, s. by destruct p.
Qed.

Lemma expand_fills a domain v q :
  q ∈ expand_param_vector v a domain → ∃ p, p ∈ v ∧ fills a domain p q.
Proof.
  intros (p & h & n & s & Hp & -> & Hh & Hn & Hs)%expand_inv. exists p. split; [done|].
  destruct p as [proto h0 n0 s0 u0]; simpl in *. unfold fills; simpl. repeat split; try done.
  intros H. by rewrite (proj2 (Z.eqb_neq n0 0)) in Hn.
Qed.

Lemma expand_complete a domain v q :
  q ∈ expand_param_vector v a domain → a ≠ [] → domain ≠ [] →
  Forall (λ p, (0 <= port p <= u16_max)%Z) v → complete q.
Proof.
  intros (p & h & n & s & Hp & -> & Hh & Hn & Hs)%expand_inv Ha Hd Hv.
  rewrite list.Forall_forall in Hv. specialize (Hv _ Hp).
  destruct p as [proto h0 n0 s0 u0]; simpl in *. unfold complete; simpl.
  split; [|split; [|split]].
  - destruct (bool_decide_reflect (h0 = [])); [|by subst]. destruct Hh as (prefix & _ & ->).
    intros [_ ?]%app_eq_nil. done.
  - destruct (Z.eqb_spec n0 0); [set_unfold; unfold u16_max; lia|lia].
  - destruct (bool_decide_reflect (s0 = Socket.Automatic)); [set_solver|by subst].
  - by destruct (bool_decide_reflect (u0 = [])).
Qed.

(** Every entry has a variant. *)
Lemma expand_ports_not_nil p : ∃ q, q ∈ expand_ports p.
Proof.
  unfold expand_ports.
  repeat match goal with |- context [if ?b then _ else _] => destruct b end;
    eexists; by apply elem_of_cons; left.
Qed.

Lemma expand_nonempty a domain v p :
  p ∈ v → ∃ q, q ∈ expand_param_vector v a domain ∧ protocol q = protocol p.
Proof.
  intros Hp.
  assert (∃ p1, p1 ∈ expand_usernames a p ∧ protocol p1 = protocol p) as (p1 & H1 & E1).
  { unfold expand_usernames. case_bool_decide; eexists; (split; [by apply elem_of_cons; left|]);
      by destruct p. }
  assert (∃ p2, p2 ∈ expand_hostnames domain p1 ∧ protocol p2 = protocol p1) as (p2 & H2 & E2).
  { unfold expand_hostnames. case_bool_decide; eexists; (split; [by apply elem_of_cons; left|]);
      by destruct p1. }
  destruct (expand_ports_not_nil p2) as [q Hq].
  exists q. split.
  - unfold expand_param_vector. apply list_elem_of_bind. exists p2. split; [done|].
    apply list_elem_of_bind. exists p1. split; [done|]. apply list_elem_of_bind. by exists p.
  - apply expand_ports_spec in Hq as (n & s & -> & _). by rewrite <- E1, <- E2; destruct p2.
Qed.
