(* ===== verification/Autoconfig.v ===== *)
(** Autoconfig: server settings published by a mail provider: Thunderbird's autoconfiguration
    (src/src/configure/auto_mozilla.rs), Outlook's autodiscover
    (src/src/configure/auto_outlook.rs) and the order in which they are asked
    (src/src/configure.rs, get_autoconfig).  The XML reader of quick_xml is its stream of
    events; what a server answers is a parameter. *)
From S2P Require Import Prelude ContactTools LoginParam.

(** ** XML events

    An attribute is [None] if it is malformed; its value is [None] if it cannot be decoded.  The
    content of a text is [None] if it cannot be decoded. *)
Inductive Event :=
| Start (name : str) (attributes : list (option (str * option str)))
| End_ (name : str)
| Text (content : option str)
| Other.

(** The reader: [None] is an error of [read_event_into], the end of the list [Event::Eof]. *)
Abbreviation reader := (list (option Event)).

Inductive Error :=
| InvalidEmailAddress
| InvalidXml
| ReadUrl
| Redirection.

Module Moz.
(** [enum MozConfigTag]. *)
Inductive MozConfigTag : Set := Undefined | Hostname | Port | Sockettype | Username.

(** [struct Server]. *)
Record Server := {
  typ : str;
  hostname : str;
  port : Z;
  sockettype : Socket;
  username : str
}.
End Moz.

Section Xml.
Context (to_lowercase : str -> str).

Definition tag_name (name : str) : str := to_lowercase (trim name).

(** [MozConfigTag::from_str] with [unwrap_or_default]. *)
Definition moz_config_tag (s : str) : Moz.MozConfigTag :=
  let t := tag_name s in
  if bool_decide (t = lit "hostname") then Moz.Hostname
  else if bool_decide (t = lit "port") then Moz.Port
  else if bool_decide (t = lit "sockettype") then Moz.Sockettype
  else if bool_decide (t = lit "username") then Moz.Username
  else Moz.Undefined.

(** The attribute [type] of a server: the first one of that name. *)
Fixpoint find_type (attributes : list (option (str * option str))) : option (option str) :=
  match attributes with
  | [] => None
  | Some (key, value) :: attributes' =>
      if eq_nocase (trim key) (lit "type") then Some value else find_type attributes'
  | None :: attributes' => find_type attributes'
  end.

Definition server_type (attributes : list (option (str * option str))) : str :=
  match find_type attributes with
  | Some value => to_lowercase (default [] value)
  | None => []
  end.

Definition socket_of (val : str) : Socket :=
  let v := to_lowercase val in
  if bool_decide (v = lit "ssl") then Socket.Ssl
  else if bool_decide (v = lit "starttls") then Socket.Starttls
  else if bool_decide (v = lit "plain") then Socket.Plain
  else Socket.Automatic.

(** The variables of the loop of [parse_server]. *)
Record server_vars := {
  v_hostname : option str;
  v_port : option Z;
  v_sockettype : Socket;
  v_username : option str;
  v_tag : Moz.MozConfigTag
}.

Definition server_text (v : server_vars) (val : str) : server_vars :=
  match v_tag v with
  | Moz.Hostname =>
      {| v_hostname := Some val; v_port := v_port v; v_sockettype := v_sockettype v;
         v_username := v_username v; v_tag := v_tag v |}
  | Moz.Port =>
      {| v_hostname := v_hostname v; v_port := Some (default 0%Z (parse_u16 val));
         v_sockettype := v_sockettype v; v_username := v_username v; v_tag := v_tag v |}
  | Moz.Username =>
      {| v_hostname := v_hostname v; v_port := v_port v; v_sockettype := v_sockettype v;
         v_username := Some val; v_tag := v_tag v |}
  | Moz.Sockettype =>
      {| v_hostname := v_hostname v; v_port := v_port v; v_sockettype := socket_of val;
         v_username := v_username v; v_tag := v_tag v |}
  | Moz.Undefined => v
  end.

Definition server_tag (v : server_vars) (t : Moz.MozConfigTag) : server_vars :=
  {| v_hostname := v_hostname v; v_port := v_port v; v_sockettype := v_sockettype v;
     v_username := v_username v; v_tag := t |}.

Definition finish_server (ty : str) (v : server_vars) : option Moz.Server :=
  match v_hostname v, v_port v, v_username v with
  | Some h, Some p, Some u =>
      Some {| Moz.typ := ty; Moz.hostname := h; Moz.port := p; Moz.sockettype := v_sockettype v;
              Moz.username := u |}
  | _, _, _ => None
  end.

(** [parse_server]: the section of one server, and the events after it; [None] is an error of
    the reader. *)
Fixpoint parse_server (end_tag ty : str) (v : server_vars) (evs : reader)
  : option (option Moz.Server * reader) :=
  match evs with
  | [] => Some (finish_server ty v, [])
  | None :: _ => None
  | Some (Start name _) :: evs' => parse_server end_tag ty (server_tag v (moz_config_tag name)) evs'
  | Some (End_ name) :: evs' =>
      if bool_decide (tag_name name = end_tag) then Some (finish_server ty v, evs')
      else parse_server end_tag ty v evs'
  | Some (Text content) :: evs' =>
      parse_server end_tag ty (server_text v (trim (default [] content))) evs'
  | Some Other :: evs' => parse_server end_tag ty v evs'
  end.

Definition no_vars : server_vars :=
  {| v_hostname := None; v_port := None; v_sockettype := Socket.Automatic; v_username := None;
     v_tag := Moz.Undefined |}.

(** [struct MozAutoconfigure]. *)
Record MozAutoconfigure := {
  incoming_servers : list Moz.Server;
  outgoing_servers : list Moz.Server
}.

Definition add_incoming (s : option Moz.Server) (m : MozAutoconfigure) : MozAutoconfigure :=
  {| incoming_servers := incoming_servers m ++ option_list s;
     outgoing_servers := outgoing_servers m |}.
Definition add_outgoing (s : option Moz.Server) (m : MozAutoconfigure) : MozAutoconfigure :=
  {| incoming_servers := incoming_servers m;
     outgoing_servers := outgoing_servers m ++ option_list s |}.

(** [parse_xml_reader]: out of fuel is [None], an error of the reader [Some None]. *)
Fixpoint moz_parse_xml_reader (fuel : nat) (m : MozAutoconfigure) (evs : reader)
  : option (option MozAutoconfigure) :=
  match fuel with
  | O => None
  | S fuel' =>
      match evs with
      | [] => Some (Some m)
      | None :: _ => Some None
      | Some (Start name attributes) :: evs' =>
          let tag := tag_name name in
          if bool_decide (tag = lit "incomingserver") then
            match parse_server tag (server_type attributes) no_vars evs' with
            | None => Some None
            | Some (s, rest) => moz_parse_xml_reader fuel' (add_incoming s m) rest
            end
          else if bool_decide (tag = lit "outgoingserver") then
            match parse_server tag (server_type attributes) no_vars evs' with
            | None => Some None
            | Some (s, rest) => moz_parse_xml_reader fuel' (add_outgoing s m) rest
            end
          else moz_parse_xml_reader fuel' m evs'
      | Some _ :: evs' => moz_parse_xml_reader fuel' m evs'
      end
  end.

(** The reader of a text: quick_xml. *)
Context (xml_events : str -> reader).

Definition moz_parse (xml_raw : str) : result MozAutoconfigure Error :=
  let evs := xml_events xml_raw in
  match moz_parse_xml_reader (S (length evs))
          {| incoming_servers := []; outgoing_servers := [] |} evs with
  | Some (Some m) => Ok m
  | _ => Err InvalidXml
  end.

Definition fill_placeholders (addr local domain val : str) : str :=
  replace (lit "%EMAILDOMAIN%") domain
    (replace (lit "%EMAILLOCALPART%") local (replace (lit "%EMAILADDRESS%") addr val)).

Definition fill_server_placeholders (addr local domain : str) (s : Moz.Server) : Moz.Server :=
  {| Moz.typ := Moz.typ s;
     Moz.hostname := fill_placeholders addr local domain (Moz.hostname s);
     Moz.port := Moz.port s; Moz.sockettype := Moz.sockettype s;
     Moz.username := fill_placeholders addr local domain (Moz.username s) |}.

(** [parse_xml_with_address]. *)
Definition parse_xml_with_address (in_emailaddr xml_raw : str) : result MozAutoconfigure Error :=
  match rsplit_once 64 in_emailaddr with
  | None => Err InvalidEmailAddress
  | Some (local, domain) =>
      match moz_parse xml_raw with
      | Err e => Err e
      | Ok m =>
          let fill := fill_server_placeholders in_emailaddr local domain in
          Ok {| incoming_servers := fill <$> incoming_servers m;
                outgoing_servers := fill <$> outgoing_servers m |}
      end
  end.

Definition moz_serverparams (s : Moz.Server) : option ServerParams :=
  proto ← (if bool_decide (Moz.typ s = lit "imap") then Some Protocol.Imap
           else if bool_decide (Moz.typ s = lit "smtp") then Some Protocol.Smtp
           else None);
  Some {| protocol := proto; hostname := Moz.hostname s; port := Moz.port s;
          socket := Moz.sockettype s; username := Moz.username s |}.

(** [parse_serverparams]. *)
Definition parse_serverparams (in_emailaddr xml_raw : str) : result (list ServerParams) Error :=
  match parse_xml_with_address in_emailaddr xml_raw with
  | Ok m => Ok (omap moz_serverparams (incoming_servers m ++ outgoing_servers m))
  | Err e => Err e
  end.

(** ** Outlook (auto_outlook.rs) *)

(** [struct ProtocolTag]. *)
Record ProtocolTag := {
  pt_typ : str;
  pt_server : str;
  pt_port : Z;
  pt_ssl : bool
}.

(** [enum ParsingResult]. *)
Inductive ParsingResult :=
| Protocols (l : list ProtocolTag)
| RedirectUrl (url : str).

(** The variables of the loop of [parse_protocol]. *)
Record protocol_vars := {
  w_type : option str;
  w_server : option str;
  w_port : option Z;
  w_ssl : bool;
  w_tag : option str
}.

Definition protocol_text (v : protocol_vars) (val : str) : protocol_vars :=
  match w_tag v with
  | None => v
  | Some tag =>
      if bool_decide (tag = lit "type") then
        {| w_type := Some (trim val); w_server := w_server v; w_port := w_port v;
           w_ssl := w_ssl v; w_tag := w_tag v |}
      else if bool_decide (tag = lit "server") then
        {| w_type := w_type v; w_server := Some (trim val); w_port := w_port v;
           w_ssl := w_ssl v; w_tag := w_tag v |}
      else if bool_decide (tag = lit "port") then
        {| w_type := w_type v; w_server := w_server v;
           w_port := Some (default 0%Z (parse_u16 (trim val))); w_ssl := w_ssl v;
           w_tag := w_tag v |}
      else if bool_decide (tag = lit "ssl") then
        {| w_type := w_type v; w_server := w_server v; w_port := w_port v;
           w_ssl := negb (bool_decide (trim val = lit "off")); w_tag := w_tag v |}
      else v
  end.

Definition protocol_tag (v : protocol_vars) (t : option str) : protocol_vars :=
  {| w_type := w_type v; w_server := w_server v; w_port := w_port v; w_ssl := w_ssl v;
     w_tag := t |}.

Definition finish_protocol (v : protocol_vars) : option ProtocolTag :=
  match w_type v, w_server v, w_port v with
  | Some t, Some s, Some p =>
      Some {| pt_typ := t; pt_server := s; pt_port := p; pt_ssl := w_ssl v |}
  | _, _, _ => None
  end.

(** [parse_protocol]. *)
Fixpoint parse_protocol (v : protocol_vars) (evs : reader) : option (option ProtocolTag * reader) :=
  match evs with
  | [] => Some (finish_protocol v, [])
  | None :: _ => None
  | Some (Start name _) :: evs' => parse_protocol (protocol_tag v (Some (tag_name name))) evs'
  | Some (End_ name) :: evs' =>
      let tag := tag_name name in
      if bool_decide (tag = lit "protocol") then Some (finish_protocol v, evs')
      else parse_protocol (if bool_decide (Some tag = w_tag v) then protocol_tag v None else v) evs'
  | Some (Text content) :: evs' => parse_protocol (protocol_text v (default [] content)) evs'
  | Some Other :: evs' => parse_protocol v evs'
  end.

Definition no_protocol_vars : protocol_vars :=
  {| w_type := None; w_server := None; w_port := None; w_ssl := true; w_tag := None |}.

(** [parse_redirecturl]. *)
Definition parse_redirecturl (evs : reader) : option str :=
  match evs with
  | None :: _ => None
  | Some (Text content) :: _ => Some (trim (default [] content))
  | _ => Some []
  end.

(** [parse_xml_reader]. *)
Fixpoint outlk_parse_xml_reader (fuel : nat) (acc : list ProtocolTag) (evs : reader)
  : option (option ParsingResult) :=
  match fuel with
  | O => None
  | S fuel' =>
      match evs with
      | [] => Some (Some (Protocols acc))
      | None :: _ => Some None
      | Some (Start name _) :: evs' =>
          let tag := tag_name name in
          if bool_decide (tag = lit "protocol") then
            match parse_protocol no_protocol_vars evs' with
            | None => Some None
            | Some (p, rest) => outlk_parse_xml_reader fuel' (acc ++ option_list p) rest
            end
          else if bool_decide (tag = lit "redirecturl") then
            Some (RedirectUrl <$> parse_redirecturl evs')
          else outlk_parse_xml_reader fuel' acc evs'
      | Some _ :: evs' => outlk_parse_xml_reader fuel' acc evs'
      end
  end.

(** [parse_xml]. *)
Definition outlk_parse_xml (xml_raw : str) : result ParsingResult Error :=
  let evs := xml_events xml_raw in
  match outlk_parse_xml_reader (S (length evs)) [] evs with
  | Some (Some r) => Ok r
  | _ => Err InvalidXml
  end.

Definition outlk_serverparams (p : ProtocolTag) : option ServerParams :=
  let t := to_lowercase (pt_typ p) in
  proto ← (if bool_decide (t = lit "imap") then Some Protocol.Imap
           else if bool_decide (t = lit "smtp") then Some Protocol.Smtp
           else None);
  Some {| protocol := proto; hostname := pt_server p; port := pt_port p;
          socket := if pt_ssl p then Socket.Automatic else Socket.Plain; username := [] |}.

(** [protocols_to_serverparams]. *)
Definition protocols_to_serverparams (l : list ProtocolTag) : list ServerParams :=
  omap outlk_serverparams l.

(** ** Asking the servers (configure.rs)

    What a server answers to a request, with strict TLS or not. *)
Context (read_url_with_tls : str -> bool -> option str).

(** [moz_autoconfigure]. *)
Definition moz_autoconfigure (url addr : str) (accept_invalid : bool)
  : result (list ServerParams) Error :=
  match read_url_with_tls url (negb accept_invalid) with
  | None => Err ReadUrl
  | Some xml_raw => parse_serverparams addr xml_raw
  end.

(** [outlk_autodiscover]: [n] more requests may be made. *)
Fixpoint follow_redirects (n : nat) (url : str) (accept_invalid : bool)
  : result (list ServerParams) Error :=
  match n with
  | O => Err Redirection
  | S n' =>
      match read_url_with_tls url (negb accept_invalid) with
      | None => Err ReadUrl
      | Some xml_raw =>
          match outlk_parse_xml xml_raw with
          | Err e => Err e
          | Ok (RedirectUrl redirect_url) => follow_redirects n' redirect_url accept_invalid
          | Ok (Protocols l) => Ok (protocols_to_serverparams l)
          end
      end
  end.

Definition outlk_autodiscover := follow_redirects 10.

(** [utf8_percent_encode] with [NON_ALPHANUMERIC_WITHOUT_DOT]. *)
Context (percent_encode : str -> str).

Definition ok_or_else {A E} (r : result A E) (next : option A) : option A :=
  match r with Ok a => Some a | Err _ => next end.

(** [get_autoconfig]. *)
Definition get_autoconfig (param : EnteredLoginParam) (param_domain : str)
  : option (list ServerParams) :=
  let accept := EnteredCertificateChecks.accept_invalid_certificates (e_certificate_checks param) in
  let moz url := moz_autoconfigure url (e_addr param) accept in
  let outlk url := outlk_autodiscover url accept in
  ok_or_else (moz (lit "https://autoconfig." ++ param_domain
                   ++ lit "/mail/config-v1.1.xml?emailaddress=" ++ percent_encode (e_addr param)))
  (ok_or_else (moz (lit "https://" ++ param_domain
                    ++ lit "/.well-known/autoconfig/mail/config-v1.1.xml"))
  (ok_or_else (outlk (lit "https://" ++ param_domain ++ lit "/autodiscover/autodiscover.xml"))
  (ok_or_else (outlk (lit "https://autodiscover." ++ param_domain
                      ++ lit "/autodiscover/autodiscover.xml"))
  (ok_or_else (moz (lit "https://autoconfig.thunderbird.net/v1.1/" ++ param_domain)) None)))).
End Xml.

(** ** The parsers terminate: the fuel is one more than the number of events *)

Section Termination.
Context (to_lowercase : str -> str).

Lemma parse_server_shorter end_tag ty v evs s rest :
  parse_server to_lowercase end_tag ty v evs = Some (s, rest) → length rest ≤ length evs.
Proof.
  revert v. induction evs as [|[[name atts|name|content|]|] evs IH]; intros v; simpl.
  - by intros [= _ <-].
  - intros Hr%IH. lia.
  - case_bool_decide; [intros [= _ <-]; lia|]. intros Hr%IH. lia.
  - intros Hr%IH. lia.
  - intros Hr%IH. lia.
  - done.
Qed.

Lemma parse_protocol_shorter v evs p rest :
  parse_protocol to_lowercase v evs = Some (p, rest) → length rest ≤ length evs.
Proof.
  revert v. induction evs as [|[[name atts|name|content|]|] evs IH]; intros v; simpl.
  - by intros [= _ <-].
  - intros Hr%IH. lia.
  - case_bool_decide; [intros [= _ <-]; lia|]. intros Hr%IH. lia.
  - intros Hr%IH. lia.
  - intros Hr%IH. lia.
  - done.
Qed.

Lemma moz_fuel_enough fuel m evs :
  length evs < fuel → is_Some (moz_parse_xml_reader to_lowercase fuel m evs).
Proof.
  revert m evs. induction fuel as [|fuel IH]; intros m evs Hl; [lia|].
  destruct evs as [|[[name atts|name|content|]|] evs]; simpl in *; try (by eexists);
    try (apply IH; lia).
  destruct (bool_decide (_ = lit "incomingserver")).
  - destruct (parse_server _ _ _ _ evs) as [[s rest]|] eqn:E; [|by eexists].
    apply parse_server_shorter in E. apply IH. lia.
  - destruct (bool_decide (_ = lit "outgoingserver")); [|apply IH; lia].
    destruct (parse_server _ _ _ _ evs) as [[s rest]|] eqn:E; [|by eexists].
    apply parse_server_shorter in E. apply IH. lia.
Qed.

Lemma outlk_fuel_enough fuel acc evs :
  length evs < fuel → is_Some (outlk_parse_xml_reader to_lowercase fuel acc evs).
Proof.
  revert acc evs. induction fuel as [|fuel IH]; intros acc evs Hl; [lia|].
  destruct evs as [|[[name atts|name|content|]|] evs]; simpl in *; try (by eexists);
    try (apply IH; lia).
  destruct (bool_decide (_ = lit "protocol")).
  - destruct (parse_protocol _ _ evs) as [[p rest]|] eqn:E; [|by eexists].
    apply parse_protocol_shorter in E. apply IH. lia.
  - destruct (bool_decide (_ = lit "redirecturl")); [by eexists|apply IH; lia].
Qed.
End Termination.

(** ** What the parsers return *)

Section Ports.
Context (to_lowercase : str -> str).

Definition u16 (z : Z) : Prop := (0 <= z <= u16_max)%Z.

Lemma parse_unsigned_range hi s z : parse_unsigned hi s = Some z → (0 <= z <= hi)%Z.
Proof.
  unfold parse_unsigned. intros (y & Hy & H)%bind_Some.
  destruct (Z.leb_spec y hi); [|done]. injection H as <-.
  enough (0 <= y)%Z by lia. destruct s as [|c s]; [done|].
  destruct (c =? 43)%N; apply fmap_Some in Hy as (n & _ & ->); lia.
Qed.

Lemma parsed_port_u16 s : u16 (default 0%Z (parse_u16 s)).
Proof.
  unfold u16, parse_u16. destruct (parse_unsigned u16_max s) eqn:E; simpl.
  - by apply parse_unsigned_range in E.
  - unfold u16_max. lia.
Qed.

Definition vars_u16 (v : server_vars) : Prop := ∀ p, v_port v = Some p → u16 p.

Lemma server_text_u16 v val : vars_u16 v → vars_u16 (server_text to_lowercase v val).
Proof.
  unfold vars_u16, server_text. intros H. destruct (v_tag v); simpl; try done.
  intros p [= <-]. apply parsed_port_u16.
Qed.

Lemma parse_server_u16 end_tag ty v evs s rest :
  vars_u16 v → parse_server to_lowercase end_tag ty v evs = Some (Some s, rest) →
  u16 (Moz.port s).
Proof.
  assert (Hfin : ∀ v s, vars_u16 v → finish_server ty v = Some s → u16 (Moz.port s)).
  { unfold vars_u16, finish_server. intros w s' H.
    destruct (v_hostname w), (v_port w), (v_username w); try done. intros [= <-]. by apply H. }
  revert v. induction evs as [|[[name atts|name|content|]|] evs IH]; intros v Hv; simpl.
  - intros [= Hs _]. by eapply Hfin.
  - by apply IH.
  - case_bool_decide; [|by apply IH]. intros [= Hs _]. by eapply Hfin.
  - apply IH. by apply server_text_u16.
  - by apply IH.
  - done.
Qed.

Definition servers_u16 (m : MozAutoconfigure) : Prop :=
  Forall (λ s, u16 (Moz.port s)) (incoming_servers m ++ outgoing_servers m).

Lemma add_server_u16 m (s : option Moz.Server) :
  servers_u16 m → (∀ x, s = Some x → u16 (Moz.port x)) →
  servers_u16 (add_incoming s m) ∧ servers_u16 (add_outgoing s m).
Proof.
  unfold servers_u16. intros [Hi Ho]%Forall_app Hs. simpl.
  assert (Forall (λ x, u16 (Moz.port x)) (option_list s)).
  { destruct s; simpl; [|done]. constructor; [by apply Hs|done]. }
  by rewrite !Forall_app.
Qed.

Lemma moz_reader_u16 fuel m evs m' :
  servers_u16 m → moz_parse_xml_reader to_lowercase fuel m evs = Some (Some m') → servers_u16 m'.
Proof.
  revert m evs. induction fuel as [|fuel IH]; intros m evs Hm; simpl; [done|].
  assert (Hs : ∀ tag ty evs s rest, parse_server to_lowercase tag ty no_vars evs = Some (s, rest) →
    ∀ x, s = Some x → u16 (Moz.port x)).
  { intros tag ty evs' s rest H x ->. eapply parse_server_u16; [|exact H]. done. }
  destruct evs as [|[[name atts|name|content|]|] evs]; try (by apply IH); [by intros [= <-]| |done].
  destruct (bool_decide _).
  - destruct (parse_server _ _ _ _ evs) as [[s rest]|] eqn:E; [|done]. apply IH.
    by apply add_server_u16; [|eapply Hs].
  - destruct (bool_decide _); [|by apply IH].
    destruct (parse_server _ _ _ _ evs) as [[s rest]|] eqn:E; [|done]. apply IH.
    by apply add_server_u16; [|eapply Hs].
Qed.

Context (xml_events : str -> reader).

Lemma parse_serverparams_u16 a xml l :
  parse_serverparams to_lowercase xml_events a xml = Ok l → Forall (λ p, u16 (port p)) l.
Proof.
  unfold parse_serverparams, parse_xml_with_address, moz_parse.
  destruct (rsplit_once 64 a) as [[local domain]|]; [|done].
  destruct (moz_parse_xml_reader _ _ _ _) as [[m|]|] eqn:E; try done. intros [= <-].
  apply moz_reader_u16 in E; [|by constructor]. unfold servers_u16 in E.
  simpl. rewrite <- fmap_app. apply list.Forall_forall. intros p Hp.
  apply list_elem_of_omap in Hp as (s & Hs & Hp).
  apply list_elem_of_fmap in Hs as (s' & -> & Hs').
  rewrite list.Forall_forall in E. specialize (E _ Hs').
  unfold moz_serverparams in Hp. apply bind_Some in Hp as (proto & _ & [= <-]). done.
Qed.

Lemma parse_protocol_u16 v evs p rest :
  (∀ n, w_port v = Some n → u16 n) →
  parse_protocol to_lowercase v evs = Some (Some p, rest) → u16 (pt_port p).
Proof.
  assert (Hfin : ∀ v p, (∀ n, w_port v = Some n → u16 n) → finish_protocol v = Some p →
    u16 (pt_port p)).
  { unfold finish_protocol. intros w s' H.
    destruct (w_type w), (w_server w), (w_port w); try done. intros [= <-]. by apply H. }
  revert v. induction evs as [|[[name atts|name|content|]|] evs IH]; intros v Hv; simpl.
  - intros [= Hs _]. by eapply Hfin.
  - by apply IH.
  - case_bool_decide; [intros [= Hs _]; by eapply Hfin|]. apply IH. by case_bool_decide.
  - apply IH. unfold protocol_text. destruct (w_tag v); [|done].
    repeat case_bool_decide; simpl; try done. intros n [= <-]. apply parsed_port_u16.
  - by apply IH.
  - done.
Qed.

Lemma outlk_reader_u16 fuel acc evs l :
  Forall (λ p, u16 (pt_port p)) acc →
  outlk_parse_xml_reader to_lowercase fuel acc evs = Some (Some (Protocols l)) →
  Forall (λ p, u16 (pt_port p)) l.
Proof.
  revert acc evs. induction fuel as [|fuel IH]; intros acc evs Hm; simpl; [done|].
  destruct evs as [|[[name atts|name|content|]|] evs]; try (by apply IH); [by intros [= <-]| |done].
  destruct (bool_decide _).
  - destruct (parse_protocol _ _ evs) as [[p rest]|] eqn:E; [|done]. apply IH.
    apply Forall_app. split; [done|]. destruct p; simpl; [|done]. constructor; [|done].
    by eapply parse_protocol_u16; [|exact E].
  - destruct (bool_decide _); [|by apply IH]. by destruct (parse_redirecturl evs).
Qed.

Context (read_url_with_tls : str -> bool -> option str).

Lemma follow_redirects_u16 n url acc l :
  follow_redirects to_lowercase xml_events read_url_with_tls n url acc = Ok l →
  Forall (λ p, u16 (port p)) l.
Proof.
  revert url. induction n as [|n IH]; intros url; simpl; [done|].
  destruct (read_url_with_tls _ _) as [xml|]; [|done]. unfold outlk_parse_xml.
  destruct (outlk_parse_xml_reader _ _ _ _) as [[[ps|r]|]|] eqn:E; try done; [|apply IH].
  intros [= <-]. apply outlk_reader_u16 in E; [|done]. apply list.Forall_forall. intros p Hp.
  unfold protocols_to_serverparams in Hp. apply list_elem_of_omap in Hp as (t & Ht & Hp).
  rewrite list.Forall_forall in E. specialize (E _ Ht). unfold outlk_serverparams in Hp.
  apply bind_Some in Hp as (proto & _ & [= <-]). done.
Qed.

Context (percent_encode : str -> str).

Lemma get_autoconfig_u16 param domain l :
  get_autoconfig to_lowercase xml_events read_url_with_tls percent_encode param domain = Some l →
  Forall (λ p, u16 (port p)) l.
Proof.
  unfold get_autoconfig, ok_or_else, moz_autoconfigure, outlk_autodiscover.
  repeat match goal with
  | |- context [match ?r with Ok _ => _ | Err _ => _ end] =>
      let E := fresh "E" in destruct r as [?l|] eqn:E; [intros [= <-]|clear E]
  end; [| | | | |done].
  1,2,5: destruct (read_url_with_tls _ _); [|done]; by eapply parse_serverparams_u16.
  all: by eapply follow_redirects_u16.
Qed.
End Ports.
