(* ===== verification/Headers.v ===== *)
(** Headers: the header names of src/src/headerdef.rs and the view of a parsed message
    (src/src/mimeparser.rs) the group code reads. *)
From S2P Require Import Prelude.

Module HeaderDef.

(** [enum HeaderDef]. *)
Inductive HeaderDef : Set :=
| MessageId
| Subject
| Date
| From_
| To
| AutoSubmitted
| Cc
| Disposition
| OriginalMessageId
| AdditionalMessageIds
| XMicrosoftOriginalMessageId
| XMozillaDraftInfo
| ListId
| ListPost
| ChatListId
| ListHelp
| References
| InReplyTo
| Precedence
| ContentType
| ContentId
| ChatVersion
| ChatGroupId
| ChatGroupName
| ChatGroupNameChanged
| ChatGroupNameTimestamp
| ChatGroupDescription
| ChatGroupDescriptionChanged
| ChatGroupDescriptionTimestamp
| ChatVerified
| ChatGroupAvatar
| ChatUserAvatar
| ChatVoiceMessage
| ChatGroupMemberRemoved
| ChatGroupMemberRemovedFpr
| ChatGroupMemberAdded
| ChatGroupMemberAddedFpr
| ChatContent
| ChatGroupPastMembers
| ChatGroupMemberTimestamps
| ChatGroupMemberFpr
| ChatDuration
| ChatDispositionNotificationTo
| ChatWebrtcRoom
| ChatWebrtcAccepted
| ChatWebrtcHasVideoInitially
| ChatDelete
| ChatEdit
| ChatBroadcastSecret
| ChatPostMessageId
| ChatPostMessageMetadata
| ChatIsPostMessage
| Autocrypt
| AutocryptGossip
| SecureJoin
| SecureJoinGroup
| SecureJoinFingerprint
| SecureJoinInvitenumber
| SecureJoinAuth
| Sender
| EphemeralTimer
| Received
| AuthenticationResults
| IrohNodeAddr
| IrohGossipTopic
| HpOuter.

(** [get_headername]: the variant in lower kebab case. *)
Definition get_headername (h : HeaderDef) : string :=
  match h with
  | MessageId => "message-id"
  | Subject => "subject"
  | Date => "date"
  | From_ => "from"
  | To => "to"
  | AutoSubmitted => "auto-submitted"
  | Cc => "cc"
  | Disposition => "disposition"
  | OriginalMessageId => "original-message-id"
  | AdditionalMessageIds => "additional-message-ids"
  | XMicrosoftOriginalMessageId => "x-microsoft-original-message-id"
  | XMozillaDraftInfo => "x-mozilla-draft-info"
  | ListId => "list-id"
  | ListPost => "list-post"
  | ChatListId => "chat-list-id"
  | ListHelp => "list-help"
  | References => "references"
  | InReplyTo => "in-reply-to"
  | Precedence => "precedence"
  | ContentType => "content-type"
  | ContentId => "content-id"
  | ChatVersion => "chat-version"
  | ChatGroupId => "chat-group-id"
  | ChatGroupName => "chat-group-name"
  | ChatGroupNameChanged => "chat-group-name-changed"
  | ChatGroupNameTimestamp => "chat-group-name-timestamp"
  | ChatGroupDescription => "chat-group-description"
  | ChatGroupDescriptionChanged => "chat-group-description-changed"
  | ChatGroupDescriptionTimestamp => "chat-group-description-timestamp"
  | ChatVerified => "chat-verified"
  | ChatGroupAvatar => "chat-group-avatar"
  | ChatUserAvatar => "chat-user-avatar"
  | ChatVoiceMessage => "chat-voice-message"
  | ChatGroupMemberRemoved => "chat-group-member-removed"
  | ChatGroupMemberRemovedFpr => "chat-group-member-removed-fpr"
  | ChatGroupMemberAdded => "chat-group-member-added"
  | ChatGroupMemberAddedFpr => "chat-group-member-added-fpr"
  | ChatContent => "chat-content"
  | ChatGroupPastMembers => "chat-group-past-members"
  | ChatGroupMemberTimestamps => "chat-group-member-timestamps"
  | ChatGroupMemberFpr => "chat-group-member-fpr"
  | ChatDuration => "chat-duration"
  | ChatDispositionNotificationTo => "chat-disposition-notification-to"
  | ChatWebrtcRoom => "chat-webrtc-room"
  | ChatWebrtcAccepted => "chat-webrtc-accepted"
  | ChatWebrtcHasVideoInitially => "chat-webrtc-has-video-initially"
  | ChatDelete => "chat-delete"
  | ChatEdit => "chat-edit"
  | ChatBroadcastSecret => "chat-broadcast-secret"
  | ChatPostMessageId => "chat-post-message-id"
  | ChatPostMessageMetadata => "chat-post-message-metadata"
  | ChatIsPostMessage => "chat-is-post-message"
  | Autocrypt => "autocrypt"
  | AutocryptGossip => "autocrypt-gossip"
  | SecureJoin => "secure-join"
  | SecureJoinGroup => "secure-join-group"
  | SecureJoinFingerprint => "secure-join-fingerprint"
  | SecureJoinInvitenumber => "secure-join-invitenumber"
  | SecureJoinAuth => "secure-join-auth"
  | Sender => "sender"
  | EphemeralTimer => "ephemeral-timer"
  | Received => "received"
  | AuthenticationResults => "authentication-results"
  | IrohNodeAddr => "iroh-node-addr"
  | IrohGossipTopic => "iroh-gossip-topic"
  | HpOuter => "hp-outer"
  end.

Definition variants : list HeaderDef :=
  [MessageId; Subject; Date; From_;
   To; AutoSubmitted; Cc; Disposition;
   OriginalMessageId; AdditionalMessageIds; XMicrosoftOriginalMessageId; XMozillaDraftInfo;
   ListId; ListPost; ChatListId; ListHelp;
   References; InReplyTo; Precedence; ContentType;
   ContentId; ChatVersion; ChatGroupId; ChatGroupName;
   ChatGroupNameChanged; ChatGroupNameTimestamp; ChatGroupDescription; ChatGroupDescriptionChanged;
   ChatGroupDescriptionTimestamp; ChatVerified; ChatGroupAvatar; ChatUserAvatar;
   ChatVoiceMessage; ChatGroupMemberRemoved; ChatGroupMemberRemovedFpr; ChatGroupMemberAdded;
   ChatGroupMemberAddedFpr; ChatContent; ChatGroupPastMembers; ChatGroupMemberTimestamps;
   ChatGroupMemberFpr; ChatDuration; ChatDispositionNotificationTo; ChatWebrtcRoom;
   ChatWebrtcAccepted; ChatWebrtcHasVideoInitially; ChatDelete; ChatEdit;
   ChatBroadcastSecret; ChatPostMessageId; ChatPostMessageMetadata; ChatIsPostMessage;
   Autocrypt; AutocryptGossip; SecureJoin; SecureJoinGroup;
   SecureJoinFingerprint; SecureJoinInvitenumber; SecureJoinAuth; Sender;
   EphemeralTimer; Received; AuthenticationResults; IrohNodeAddr;
   IrohGossipTopic; HpOuter].

End HeaderDef.

Abbreviation HeaderDef := HeaderDef.HeaderDef.

Lemma variants_complete h : h ∈ HeaderDef.variants.
Proof. destruct h; repeat (apply elem_of_cons; first [by left|right]). Qed.

Lemma headernames_NoDup : NoDup (HeaderDef.get_headername <$> HeaderDef.variants).
Proof. apply (bool_decide_unpack _). by vm_compute. Qed.

(** Two headers never share a name, so the header map keyed by names keeps them apart. *)
Lemma get_headername_inj h h' :
  HeaderDef.get_headername h = HeaderDef.get_headername h' → h = h'.
Proof.
  intros Heq. pose proof headernames_NoDup as Hd.
  destruct (proj1 (list_elem_of_lookup _ _) (variants_complete h)) as [i Hi].
  destruct (proj1 (list_elem_of_lookup _ _) (variants_complete h')) as [j Hj].
  assert (i = j) as ->; [|congruence].
  eapply NoDup_lookup; [exact Hd| |].
  - rewrite list_lookup_fmap, Hi. done.
  - rewrite list_lookup_fmap, Hj. simpl. by rewrite Heq.
Qed.

(** [enum AvatarAction]. *)
Inductive AvatarAction := AvatarDelete | AvatarChange (profile_image : str).

(** The fields of [struct MimeMessage] the group code reads.  [gossiped_keys] maps an address
    to the fingerprint of the gossiped key; [first_part_error] is the error of the first
    part. *)
Record MimeMessage := {
  headers : gmap string str;
  timestamp_sent : Z;
  gossiped_keys : gmap str str;
  group_avatar : option AvatarAction;
  signature : option str;
  first_part_error : option str
}.

(** [MimeMessage::get_header]. *)
Definition get_header (m : MimeMessage) (h : HeaderDef) : option str :=
  headers m !! HeaderDef.get_headername h.

(** [MimeMessage::was_encrypted]. *)
Definition was_encrypted (m : MimeMessage) : bool :=
  match signature m with Some _ => true | None => false end.

(** [str::split_ascii_whitespace]: the maximal runs of other characters. *)
Definition is_ascii_whitespace (c : char) : bool :=
  ((c =? 32) || (c =? 9) || (c =? 10) || (c =? 12) || (c =? 13))%N.

Fixpoint ascii_words (word : str) (s : str) : list str :=
  match s with
  | [] => if bool_decide (word = []) then [] else [word]
  | c :: s' =>
      if is_ascii_whitespace c then
        (if bool_decide (word = []) then [] else [word]) ++ ascii_words [] s'
      else ascii_words (word ++ [c]) s'
  end.

Definition split_ascii_whitespace (s : str) : list str := ascii_words [] s.

(** [MimeMessage::chat_group_member_timestamps]: the numbers of the header, capped at the
    tolerated clock skew. *)
Definition chat_group_member_timestamps (now : Z) (tolerance : Z) (m : MimeMessage)
  : option (list Z) :=
  let now := (now + tolerance)%Z in
  (λ h, Z.min now <$> omap parse_i64 (split_ascii_whitespace h))
    <$> get_header m HeaderDef.ChatGroupMemberTimestamps.

(** ** Lemmas: words *)

Definition word_char (c : char) : Prop := is_ascii_whitespace c = false.

Lemma ascii_words_single w s : Forall word_char s → w ++ s ≠ [] → ascii_words w s = [w ++ s].
Proof.
  intros H. revert w. induction H as [|c s Hc _ IH]; intros w Hne; simpl.
  - rewrite app_nil_r in *. by rewrite bool_decide_eq_false_2.
  - rewrite Hc, IH; rewrite <-app_assoc; done.
Qed.

Lemma ascii_words_chars w s x :
  Forall word_char w → x ∈ ascii_words w s → x ≠ [] ∧ Forall word_char x.
Proof.
  revert w. induction s as [|c s IH]; intros w Hw; simpl.
  - case_bool_decide; [by intros ?%not_elem_of_nil|]. by intros ->%list_elem_of_singleton.
  - destruct (is_ascii_whitespace c) eqn:E.
    + intros [H|H]%elem_of_app; [|by apply (IH [])].
      case_bool_decide; [by apply not_elem_of_nil in H|]. by apply list_elem_of_singleton in H as ->.
    + apply IH. apply Forall_app. split; [done|]. by repeat constructor.
Qed.

(** Words joined by spaces are split again. *)
Lemma ascii_words_space w s r :
  Forall word_char s → w ++ s ≠ [] → ascii_words w (s ++ SP :: r) = (w ++ s) :: ascii_words [] r.
Proof.
  intros H. revert w. induction H as [|c s Hc _ IH]; intros w Hne; simpl.
  - rewrite app_nil_r in *. by rewrite bool_decide_eq_false_2.
  - rewrite Hc, IH; rewrite <-app_assoc; done.
Qed.

Lemma split_join_words ws :
  Forall (λ w, w ≠ [] ∧ Forall word_char w) ws → split_ascii_whitespace (join [SP] ws) = ws.
Proof.
  unfold split_ascii_whitespace. induction 1 as [|w ws [Hne Hw] Hws IH]; [done|].
  destruct ws as [|w' ws'].
  - simpl. by rewrite ascii_words_single.
  - rewrite join_cons by done. cbn [app]. rewrite ascii_words_space by done. by rewrite IH.
Qed.
