(* ===== verification/Db.v ===== *)
(** Db: the account database as the chat code sees it, the error/state monad the components
    are written in, and the small queries they share (src/src/chat.rs, src/src/config.rs,
    src/src/receive_imf.rs, src/src/update_helper.rs). *)
From S2P Require Import Prelude Monad Ids Params ContactTools Membership.

(** ** State *)

(** A row of [contacts]: the columns the modelled code reads ([name_normalized] only serves
    the search). *)
Record contact_row := {
  c_id : ContactId;
  c_name : str;
  c_addr : str;
  c_fingerprint : str;
  c_origin : Origin.Origin;
  c_authname : str;
  c_last_seen : Z
}.

(** A row of [chats]. *)
Record chat_row := {
  ch_type : Chattype.Chattype;
  ch_name : str;
  ch_grpid : str;
  ch_param : str;
  ch_created_timestamp : Z
}.

(** Events of the event channel ([EventType]) the modelled code emits; [ChatlistItemsChanged]
    is [ChatlistItemChanged] without a chat and [AllContactsChanged] is [ContactsChanged] without
    a contact: everything is to be reloaded. *)
Inductive EventType :=
| ChatModified (chat_id : ChatId)
| ChatlistChanged
| ChatlistItemChanged (chat_id : ChatId)
| ChatlistItemsChanged
| ChatDeleted (chat_id : ChatId)
| ContactsChanged (contact_id : ContactId)
| AllContactsChanged
| MsgsChanged (chat_id : ChatId) (msg_id : MsgId)
| MsgDeleted (chat_id : ChatId) (msg_id : MsgId)
| MsgDelivered (chat_id : ChatId) (msg_id : MsgId)
| IncomingMsg (chat_id : ChatId) (msg_id : MsgId)
| WebxdcInstanceDeleted (msg_id : MsgId)
| ChatEphemeralTimerModified (chat_id : ChatId) (timer : Z)
| ErrorSelfNotInGroup
| SecurejoinInviterProgress (contact_id : ContactId) (chat_id : ChatId)
    (chat_type : Chattype.Chattype) (progress : N)
| SecurejoinJoinerProgress (contact_id : ContactId) (progress : N).

(** The account: the tables (the [contacts] rows in the order SQLite scans them, and the last
    identifier [AUTOINCREMENT] gave to a contact), the configured addresses, the fingerprint of
    the own key, and the events emitted so far. *)
Record Context := {
  members : chats_contacts;
  contacts : list contact_row;
  contact_seq : N;
  chats : gmap N chat_row;
  chats_descriptions : gmap N str;
  broadcast_secrets : gmap N str;
  configured_addr : option str;
  transport_addrs : list str;
  self_fingerprint_opt : option str;
  events : list EventType
}.

Definition set_members (f : chats_contacts -> chats_contacts) (c : Context) : Context :=
  {| members := f (members c); contacts := contacts c; contact_seq := contact_seq c; chats := chats c;
     chats_descriptions := chats_descriptions c; broadcast_secrets := broadcast_secrets c;
     configured_addr := configured_addr c; transport_addrs := transport_addrs c;
     self_fingerprint_opt := self_fingerprint_opt c; events := events c |}.

Definition set_chats (f : gmap N chat_row -> gmap N chat_row) (c : Context) : Context :=
  {| members := members c; contacts := contacts c; contact_seq := contact_seq c; chats := f (chats c);
     chats_descriptions := chats_descriptions c; broadcast_secrets := broadcast_secrets c;
     configured_addr := configured_addr c; transport_addrs := transport_addrs c;
     self_fingerprint_opt := self_fingerprint_opt c; events := events c |}.

Definition set_descriptions (f : gmap N str -> gmap N str) (c : Context) : Context :=
  {| members := members c; contacts := contacts c; contact_seq := contact_seq c; chats := chats c;
     chats_descriptions := f (chats_descriptions c); broadcast_secrets := broadcast_secrets c;
     configured_addr := configured_addr c; transport_addrs := transport_addrs c;
     self_fingerprint_opt := self_fingerprint_opt c; events := events c |}.

Definition set_secrets (f : gmap N str -> gmap N str) (c : Context) : Context :=
  {| members := members c; contacts := contacts c; contact_seq := contact_seq c; chats := chats c;
     chats_descriptions := chats_descriptions c; broadcast_secrets := f (broadcast_secrets c);
     configured_addr := configured_addr c; transport_addrs := transport_addrs c;
     self_fingerprint_opt := self_fingerprint_opt c; events := events c |}.

Definition add_event (e : EventType) (c : Context) : Context :=
  {| members := members c; contacts := contacts c; contact_seq := contact_seq c; chats := chats c;
     chats_descriptions := chats_descriptions c; broadcast_secrets := broadcast_secrets c;
     configured_addr := configured_addr c; transport_addrs := transport_addrs c;
     self_fingerprint_opt := self_fingerprint_opt c; events := events c ++ [e] |}.

Definition set_contacts (f : list contact_row -> list contact_row) (c : Context) : Context :=
  {| members := members c; contacts := f (contacts c); contact_seq := contact_seq c; chats := chats c;
     chats_descriptions := chats_descriptions c; broadcast_secrets := broadcast_secrets c;
     configured_addr := configured_addr c; transport_addrs := transport_addrs c;
     self_fingerprint_opt := self_fingerprint_opt c; events := events c |}.

Definition set_contact_seq (n : N) (c : Context) : Context :=
  {| members := members c; contacts := contacts c; contact_seq := n; chats := chats c;
     chats_descriptions := chats_descriptions c; broadcast_secrets := broadcast_secrets c;
     configured_addr := configured_addr c; transport_addrs := transport_addrs c;
     self_fingerprint_opt := self_fingerprint_opt c; events := events c |}.

Definition set_self_fingerprint (fp : str) (c : Context) : Context :=
  {| members := members c; contacts := contacts c; contact_seq := contact_seq c; chats := chats c;
     chats_descriptions := chats_descriptions c; broadcast_secrets := broadcast_secrets c;
     configured_addr := configured_addr c; transport_addrs := transport_addrs c;
     self_fingerprint_opt := Some fp; events := events c |}.

Definition set_events (l : list EventType) (c : Context) : Context :=
  {| members := members c; contacts := contacts c; contact_seq := contact_seq c; chats := chats c;
     chats_descriptions := chats_descriptions c; broadcast_secrets := broadcast_secrets c;
     configured_addr := configured_addr c; transport_addrs := transport_addrs c;
     self_fingerprint_opt := self_fingerprint_opt c; events := l |}.

(** ** The operations of the account *)

Inductive error :=
| EnsureFailed
| ContactNotFound (id : ContactId)
| RowNotFound
| NotConfigured
| IdOutOfRange.

Definition M (A : Type) : Type := SE Context error A.

Definition emit_event (e : EventType) : M unit := modify (add_event e).

(** [ensure!]. *)
Definition ensure (b : bool) : M unit := if b then ret tt else fail EnsureFailed.

(** [Sql::transaction]: an error rolls the tables back; events were emitted already. *)
Definition transaction {A} (x : M A) : M A :=
  λ c, match x c with
       | (Ok a, c') => (Ok a, c')
       | (Err e, c') => (Err e, set_events (events c') c)
       end.

(** Run the operations of the goal one step: the monad's combinators are unfolded, the
    operations stay folded. *)
Ltac run_m :=
  unfold ensure, when, emit_event, bind, ret, fail, gets, modify;
  cbv beta iota zeta; cbn [andb orb negb].

(** ** Queries *)

Definition last_seen_of (c : Context) : gmap N Z :=
  list_to_map ((λ r, (c_id r, c_last_seen r)) <$> contacts c).

(** [chat::get_chat_contacts] and [is_contact_in_chat] on the account. *)
Definition chat_contacts (chat_id : ChatId) : M (list N) :=
  gets (λ c, get_chat_contacts (members c) (last_seen_of c) chat_id).

Definition contact_in_chat (chat_id : ChatId) (contact_id : ContactId) : M bool :=
  gets (λ c, is_contact_in_chat (members c) chat_id contact_id).

Definition find_contact (f : contact_row -> bool) (c : Context) : option contact_row :=
  head (filter (λ r, f r = true) (contacts c)).

(** [Contact::get_by_id(..)?.is_key_contact()]: the fingerprint is set or this is [SELF]. *)
Definition is_key_contact (contact_id : ContactId) : M bool :=
  λ c, match find_contact (λ r, (c_id r =? contact_id)%N) c with
       | Some r => (Ok (negb (bool_decide (c_fingerprint r = [])) || (contact_id =? SELF)%N), c)
       | None => (Err (ContactNotFound contact_id), c)
       end.

(** [lookup_key_contact_by_fingerprint]. *)
Definition lookup_key_contact_by_fingerprint (fingerprint : str) : M (option N) :=
  gets (λ c,
    if bool_decide (fingerprint = []) then None
    else match find_contact (λ r, bool_decide (c_fingerprint r = fingerprint)
                                  && negb (bool_decide (c_fingerprint r = []))) c with
         | Some r => Some (c_id r)
         | None =>
             match self_fingerprint_opt c with
             | Some self_fp => if bool_decide (self_fp = fingerprint) then Some SELF else None
             | None => None
             end
         end).

(** [ChatId::update_timestamp]: the [param] column on disk. *)
Definition chat_update_timestamp (chat_id : ChatId) (scope : Param) (new_timestamp : Z) : M bool :=
  λ c, match chats c !! chat_id with
       | None => (Err RowNotFound, c)
       | Some row =>
           match update_timestamp_row (Some (ch_param row)) scope new_timestamp with
           | Some (upd, col) =>
               (Ok upd,
                set_chats (<[chat_id :=
                  {| ch_type := ch_type row; ch_name := ch_name row; ch_grpid := ch_grpid row;
                     ch_param := col; ch_created_timestamp := ch_created_timestamp row |}]>) c)
           | None => (Err RowNotFound, c)
           end
       end.

(** [UPDATE chats SET param=? WHERE id=?] and [UPDATE chats SET name=?, .. WHERE id=?]:
    nothing happens when there is no such row. *)
Definition set_param_column (chat_id : ChatId) (col : str) : M unit :=
  modify (set_chats (alter (λ row,
    {| ch_type := ch_type row; ch_name := ch_name row; ch_grpid := ch_grpid row;
       ch_param := col; ch_created_timestamp := ch_created_timestamp row |}) chat_id)).

Definition set_name_column (chat_id : ChatId) (name : str) : M unit :=
  modify (set_chats (alter (λ row,
    {| ch_type := ch_type row; ch_name := name; ch_grpid := ch_grpid row;
       ch_param := ch_param row; ch_created_timestamp := ch_created_timestamp row |}) chat_id)).

(** [get_chat_description]. *)
Definition get_chat_description (chat_id : ChatId) : M str :=
  gets (λ c, default [] (chats_descriptions c !! chat_id)).

(** The chat in memory, [struct Chat]: the fields the group code uses.  It is loaded once and
    not updated when the database changes. *)
Record Chat := {
  chat_id : ChatId;
  chat_typ : Chattype.Chattype;
  chat_name : str;
  chat_grpid : str;
  chat_param : Params
}.

Definition with_param (chat : Chat) (p : Params) : Chat :=
  {| chat_id := chat_id chat; chat_typ := chat_typ chat; chat_name := chat_name chat;
     chat_grpid := chat_grpid chat; chat_param := p |}.

(** [Chat::load_from_db], for the chats with a name of their own (groups, channels). *)
Definition load_from_db (id : ChatId) : M Chat :=
  λ c, match chats c !! id with
       | None => (Err RowNotFound, c)
       | Some row =>
           (Ok {| chat_id := id; chat_typ := ch_type row; chat_name := ch_name row;
                  chat_grpid := ch_grpid row; chat_param := load_params (ch_param row) |}, c)
       end.

(** [Chat::update_param]. *)
Definition update_param (chat : Chat) : M unit :=
  set_param_column (chat_id chat) (to_string (chat_param chat)).

(** [Chat::is_self_in_chat]. *)
Definition is_self_in_chat (chat : Chat) : M bool :=
  match chat_typ chat with
  | Chattype.Single | Chattype.OutBroadcast | Chattype.Mailinglist => ret true
  | Chattype.Group | Chattype.InBroadcast => contact_in_chat (chat_id chat) SELF
  end.

(** [Chat::member_list_timestamp] and [Chat::member_list_is_stale]. *)
Definition member_list_timestamp (chat : Chat) : M Z :=
  match get_i64 (chat_param chat) Param.MemberListTimestamp with
  | Some ts => ret ts
  | None =>
      gets (λ c, match chats c !! chat_id chat with
                 | Some row => ch_created_timestamp row
                 | None => 0%Z
                 end)
  end.

Definition member_list_is_stale (now : Z) (chat : Chat) : M bool :=
  member_list_ts <- member_list_timestamp chat ;;
  ret (sat_add member_list_ts (60 * 24 * 3600) <=? sat_add now TIMESTAMP_SENT_TOLERANCE)%Z.

Section Addresses.
Context (to_lowercase : str -> str).

(** [Context::is_self_addr]. *)
Definition is_self_addr (addr : str) : M bool :=
  gets (λ c,
    (negb (bool_decide (addr = []))
     && addr_cmp to_lowercase addr (default [] (configured_addr c)))
    || existsb (addr_cmp to_lowercase addr) (transport_addrs c)).

(** [Context::get_primary_self_addr]. *)
Definition get_primary_self_addr : M str :=
  λ c, match configured_addr c with
       | Some a => (Ok a, c)
       | None => (Err NotConfigured, c)
       end.

(** [lookup_key_contact_by_address] with a chat: the lookup is restricted to the chat. *)
Definition lookup_key_contact_by_address (addr : str) (in_chat : ChatId) : M (option N) :=
  is_self <- is_self_addr addr ;;
  self_row <- gets (λ c, bool_decide (is_Some (members c !! (in_chat, SELF)))) ;;
  if is_self && self_row then ret (Some SELF)
  else
    gets (λ c, c_id <$> find_contact
      (λ r, eq_nocase (c_addr r) addr
            && bool_decide (is_Some (members c !! (in_chat, c_id r)))
            && negb (bool_decide (c_fingerprint r = []))) c).
End Addresses.
