(* ===== verification/Contacts.v ===== *)
(** Contacts: the contact table: adding, looking up, renaming contacts and raising their
    origin (src/src/contact.rs). *)
From S2P Require Import Prelude Monad Ids Params ContactTools Membership Headers Db.
From stdpp Require Import sorting.

(** [enum Modifier]. *)
Inductive Modifier := Unmodified | Modified | Created.

(** ** The table *)

(** [UPDATE contacts SET .. WHERE id=?]. *)
Definition update_contact (id : ContactId) (f : contact_row -> contact_row) : M unit :=
  modify (set_contacts (fmap (λ r, if (c_id r =? id)%N then f r else r))).

(** The identifier [AUTOINCREMENT] gives to the next row. *)
Definition next_contact_id (c : Context) : N :=
  (1 + foldr N.max (contact_seq c) (c_id <$> contacts c))%N.

(** [INSERT INTO contacts ..], with the conversion of the row identifier to [u32]. *)
Definition insert_contact (name addr fingerprint : str) (origin : Origin.Origin) (authname : str)
  : M N :=
  id <- gets next_contact_id ;;
  modify (λ c, set_contact_seq id (set_contacts (λ l, l ++
    [{| c_id := id; c_name := name; c_addr := addr; c_fingerprint := fingerprint;
        c_origin := origin; c_authname := authname; c_last_seen := 0 |}]) c)) ;;;
  if (id <=? 4294967295)%N then ret id else fail IdOutOfRange.

(** [ContactId::scaleup_origin]. *)
Definition scaleup_origin (ids : list N) (origin : Origin.Origin) : M unit :=
  modify (set_contacts (fmap (λ r,
    if bool_decide (c_id r ∈ ids) && Origin.ltb (c_origin r) origin
    then {| c_id := c_id r; c_name := c_name r; c_addr := c_addr r;
            c_fingerprint := c_fingerprint r; c_origin := origin; c_authname := c_authname r;
            c_last_seen := c_last_seen r |}
    else r))).

(** The first 1:1 chat with a contact. *)
Definition single_chat_with (contact_id : ContactId) (c : Context) : option N :=
  head (base.filter (λ id,
          bool_decide (ch_type <$> chats c !! id = Some Chattype.Single)
          && bool_decide (is_Some (members c !! (id, contact_id))) = true)
        (merge_sort N.le (elements (dom (chats c))))).

Definition shown_name (r : contact_row) : str :=
  if negb (bool_decide (c_name r = [])) then c_name r
  else if negb (bool_decide (c_authname r = [])) then c_authname r
  else c_addr r.

(** [update_chat_names]: the 1:1 chat is called as its contact. *)
Definition update_chat_names (contact_id : ContactId) : M unit :=
  chat_id <- gets (single_chat_with contact_id) ;;
  match chat_id with
  | None => ret tt
  | Some chat_id =>
      row <- gets (find_contact (λ r, (c_id r =? contact_id)%N)) ;;
      match row with
      | None => fail RowNotFound
      | Some row =>
          name <- gets (λ c, ch_name <$> chats c !! chat_id) ;;
          when (negb (bool_decide (name = Some (shown_name row))))
            (set_name_column chat_id (shown_name row) ;;;
             emit_event (ChatModified chat_id) ;;;
             emit_event ChatlistItemsChanged)
      end
  end.

Definition with_contact_name (name : str) (r : contact_row) : contact_row :=
  {| c_id := c_id r; c_name := name; c_addr := c_addr r; c_fingerprint := c_fingerprint r;
     c_origin := c_origin r; c_authname := c_authname r; c_last_seen := c_last_seen r |}.

(** [ContactId::set_name_ex]: true when the name was changed and the change is to be sent to
    the other devices. *)
Definition set_name_ex (id : ContactId) (name : str) : M bool :=
  is_changed <- transaction (
    row <- gets (find_contact (λ r, (c_id r =? id)%N)) ;;
    match row with
    | None => if bool_decide (name = []) then fail RowNotFound else ret false
    | Some row =>
        if bool_decide (c_name row = name) then ret false
        else
          update_contact id (with_contact_name name) ;;;
          update_chat_names id ;;;
          ret true
    end) ;;
  when is_changed (emit_event (ContactsChanged id)) ;;;
  ret is_changed.

(** ** Adding or looking up a contact *)

(** The addresses whose contacts are hidden. *)
Definition is_noreply (addr : str) : bool :=
  contains (lit "noreply") addr || contains (lit "no-reply") addr
  || starts_with (lit "notifications@") addr
  || ((50 <? byte_len addr)%N && contains (lit "+") addr).

(** The name and the origin a contact is stored with. *)
Definition effective_name_origin (name addr : str) (origin : Origin.Origin)
  : str * Origin.Origin :=
  if Origin.leb origin Origin.OutgoingTo && is_noreply addr then ([], Origin.Hidden)
  else (sanitize_name name, origin).

(** The origins for which the name is the user's, and not the contact's own. *)
Definition manual (o : Origin.Origin) : bool :=
  bool_decide (o ∈ [Origin.ManuallyCreated; Origin.AddressBook; Origin.UnhandledQrScan]).

(** The three columns of a known contact [add_or_lookup_ex] may update. *)
Definition updates_name (name : str) (origin : Origin.Origin) (row : contact_row) : bool :=
  manual origin && negb (bool_decide (name = c_name row)).

Definition updates_authname (name : str) (origin : Origin.Origin) (row : contact_row) : bool :=
  negb (manual origin) && negb (bool_decide (name = c_authname row))
  && negb (bool_decide (name = []))
  && (Origin.leb (c_origin row) origin
      || bool_decide (origin = Origin.IncomingUnknownFrom)
      || bool_decide (c_authname row = [])).

Definition updates_addr (addr : str) (origin : Origin.Origin) (row : contact_row) : bool :=
  Origin.leb (c_origin row) origin && negb (bool_decide (addr = c_addr row)).

Definition merged_row (name addr : str) (origin : Origin.Origin) (row r : contact_row)
  : contact_row :=
  {| c_id := c_id r;
     c_name := if updates_name name origin row then name else c_name row;
     c_addr := if updates_addr addr origin row then addr else c_addr row;
     c_fingerprint := c_fingerprint r;
     c_origin := if Origin.ltb (c_origin row) origin then origin else c_origin row;
     c_authname := if updates_authname name origin row then name else c_authname row;
     c_last_seen := c_last_seen r |}.

Definition matches (fingerprint addr : str) (r : contact_row) : bool :=
  bool_decide (c_fingerprint r = fingerprint)
  && (negb (bool_decide (fingerprint = [])) || eq_nocase (c_addr r) addr).

(** The transaction of [add_or_lookup_ex]. *)
Definition lookup_or_insert (name addr fingerprint : str) (origin : Origin.Origin)
  : M (N * Modifier) :=
  transaction (
    row <- gets (find_contact (matches fingerprint addr)) ;;
    match row with
    | Some row =>
        let update_name := updates_name name origin row in
        let update_authname := updates_authname name origin row in
        let update_addr := updates_addr addr origin row in
        if update_name || update_authname || update_addr || Origin.ltb (c_origin row) origin then
          update_contact (c_id row) (merged_row name addr origin row) ;;;
          when (update_name || update_authname) (update_chat_names (c_id row)) ;;;
          ret (c_id row, Modified)
        else ret (c_id row, Unmodified)
    | None =>
        id <- insert_contact (if manual origin then name else []) addr fingerprint origin
                (if manual origin then [] else name) ;;
        ret (id, Created)
    end).

(** [Context::is_configured]. *)
Definition is_configured : M bool := gets (λ c, negb (bool_decide (transport_addrs c = []))).

Section Lookup.
(** [str::to_lowercase], and the fingerprint of the key generated on first use. *)
Context (to_lowercase : str -> str) (generated_fingerprint : str).

(** [self_fingerprint]. *)
Definition self_fingerprint : M str :=
  λ c, match self_fingerprint_opt c with
       | Some fp => (Ok fp, c)
       | None => (Ok generated_fingerprint, set_self_fingerprint generated_fingerprint c)
       end.

(** [Contact::add_or_lookup_ex]. *)
Definition add_or_lookup_ex (name addr fingerprint : str) (origin : Origin.Origin)
  : M (N * Modifier) :=
  ensure (negb (bool_decide (addr = [])) || negb (bool_decide (fingerprint = []))) ;;;
  ensure (negb (bool_decide (origin = Origin.Unknown))) ;;;
  configured <- is_configured ;;
  self_addr <- and_then configured (is_self_addr to_lowercase addr) ;;
  if self_addr then ret (SELF, Unmodified)
  else
    self_key <- and_then (negb (bool_decide (fingerprint = [])) && configured)
                  (fp <- self_fingerprint ;; ret (bool_decide (fingerprint = fp))) ;;
    if self_key then ret (SELF, Unmodified)
    else
      let '(name, origin) := effective_name_origin name addr origin in
      lookup_or_insert name addr fingerprint origin.

(** [Contact::add_or_lookup]. *)
Definition add_or_lookup (name addr : str) (origin : Origin.Origin) : M (N * Modifier) :=
  add_or_lookup_ex name addr [] origin.

(** How [Contact::create_ex] and [Qr::from_address] add a contact. *)
Definition create_named (name addr : str) : M (N * Modifier) :=
  let '(name, addr) := sanitize_name_and_addr name addr in
  match ContactAddress_new to_lowercase addr with
  | Some addr => add_or_lookup name addr Origin.ManuallyCreated
  | None => fail EnsureFailed
  end.

Definition scan_named (name addr : str) : M (N * Modifier) :=
  match ContactAddress_new to_lowercase addr with
  | Some addr => add_or_lookup name addr Origin.UnhandledQrScan
  | None => fail EnsureFailed
  end.

(** [split_address_book]: a line with the name, a line with the address, and so on. *)
Fixpoint pair_lines (lines : list str) : list (str * str) :=
  match lines with
  | name :: addr :: rest => (name, addr) :: pair_lines rest
  | _ => []
  end.

Definition split_address_book (book : str) : list (str * str) := pair_lines (lines_of book).

(** [Contact::add_address_book]: entries that cannot be added are skipped. *)
Definition add_book_entry (modify_cnt : N) (entry : str * str) : M N :=
  let '(name, addr) := sanitize_name_and_addr entry.1 entry.2 in
  match ContactAddress_new to_lowercase addr with
  | None => ret modify_cnt
  | Some addr =>
      added <- ignore_err (add_or_lookup name addr Origin.AddressBook) ;;
      ret (match added with
           | None | Some (_, Unmodified) => modify_cnt
           | Some _ => (modify_cnt + 1)%N
           end)
  end.

Fixpoint add_book_entries (modify_cnt : N) (entries : list (str * str)) : M N :=
  match entries with
  | [] => ret modify_cnt
  | entry :: entries =>
      modify_cnt <- add_book_entry modify_cnt entry ;;
      add_book_entries modify_cnt entries
  end.

Definition add_address_book (addr_book : str) : M N :=
  modify_cnt <- add_book_entries 0 (split_address_book addr_book) ;;
  when (0 <? modify_cnt)%N (emit_event AllContactsChanged) ;;;
  ret modify_cnt.

End Lookup.

(** ** Lemmas: the table *)

#[export] Instance contact_row_eq_dec : EqDecision contact_row.
Proof. solve_decision. Defined.

(** Identifiers are unique and were all given out, and no two contacts have the same key. *)
Record contacts_wf (c : Context) : Prop := {
  wf_ids : NoDup (c_id <$> contacts c);
  wf_seq : Forall (λ r, (c_id r <= contact_seq c)%N) (contacts c);
  wf_keys : ∀ r r', r ∈ contacts c → r' ∈ contacts c →
    c_fingerprint r = c_fingerprint r' → c_fingerprint r ≠ [] → r = r'
}.

Lemma find_contact_Some P c r : find_contact P c = Some r → r ∈ contacts c ∧ P r = true.
Proof.
  unfold find_contact. intros H%head_Some_elem_of. apply list_elem_of_filter in H. tauto.
Qed.

Lemma find_contact_None P c r : find_contact P c = None → r ∈ contacts c → P r = false.
Proof.
  unfold find_contact. intros H%head_None Hr. destruct (P r) eqn:E; [|done]. exfalso.
  apply (not_elem_of_nil r). rewrite <-H. by apply list_elem_of_filter.
Qed.

(** Rewriting rows without changing whether they match does not change which row is found. *)
Lemma head_filter_fmap (P : contact_row -> bool) (h : contact_row -> contact_row) l :
  (∀ r, r ∈ l → P (h r) = P r) →
  head (base.filter (λ r, P r = true) (h <$> l)) = h <$> head (base.filter (λ r, P r = true) l).
Proof.
  induction l as [|r l IH]; intros H; [done|]. rewrite fmap_cons, !filter_cons.
  rewrite (H r) by (by left). destruct (decide (P r = true)); [done|].
  apply IH. intros r' Hr. apply H. by right.
Qed.

Lemma wf_id_inj c r r' :
  contacts_wf c → r ∈ contacts c → r' ∈ contacts c → c_id r = c_id r' → r = r'.
Proof.
  intros Hwf (i & Hi)%list_elem_of_lookup (j & Hj)%list_elem_of_lookup Heq.
  assert (i = j) as ->; [|congruence].
  apply (NoDup_lookup _ _ _ (c_id r) (wf_ids c Hwf)); rewrite list_lookup_fmap.
  - by rewrite Hi.
  - by rewrite Hj, Heq.
Qed.

Lemma find_contact_id c r :
  contacts_wf c → r ∈ contacts c → find_contact (λ x, (c_id x =? c_id r)%N) c = Some r.
Proof.
  intros Hwf Hr. destruct (find_contact _ c) as [r'|] eqn:E.
  - apply find_contact_Some in E as [Hr' Hid%N.eqb_eq]. f_equal. by eapply wf_id_inj.
  - apply (find_contact_None _ _ _ E) in Hr. by rewrite N.eqb_refl in Hr.
Qed.

(** What the name of a 1:1 chat depends on, and the account settings, stay. *)
Definition same_contacts (c c' : Context) : Prop :=
  contacts c' = contacts c ∧ contact_seq c' = contact_seq c ∧ members c' = members c
  ∧ configured_addr c' = configured_addr c ∧ transport_addrs c' = transport_addrs c
  ∧ self_fingerprint_opt c' = self_fingerprint_opt c.

Lemma same_contacts_refl c : same_contacts c c.
Proof. by repeat split. Qed.

Create HintDb contacts.
#[export] Hint Resolve same_contacts_refl : contacts.

Lemma same_contacts_wf c c' : same_contacts c c' → contacts_wf c → contacts_wf c'.
Proof. intros (H1 & H2 & _) [? ? ?]. constructor; rewrite ?H1, ?H2; done. Qed.

Lemma find_contact_same P c c' : contacts c' = contacts c → find_contact P c' = find_contact P c.
Proof. unfold find_contact. by intros ->. Qed.

Lemma update_chat_names_ok id c r :
  find_contact (λ x, (c_id x =? id)%N) c = Some r →
  ∃ c', update_chat_names id c = (Ok tt, c') ∧ same_contacts c c'.
Proof.
  intros Hf. unfold update_chat_names. run_m.
  destruct (single_chat_with id c) as [chat|]; [|eauto with contacts].
  rewrite Hf. cbv beta iota zeta.
  destruct (negb _); cbv beta iota zeta; eexists; (split; [reflexivity|by repeat split]).
Qed.

Lemma foldr_max_ge l n m : (m ∈ n :: l → m <= foldr N.max n l)%N.
Proof.
  induction l as [|x l IH]; simpl.
  - intros ->%list_elem_of_singleton. lia.
  - rewrite !elem_of_cons. intros [->|[->|Hm]]; [|lia|].
    + assert (n <= foldr N.max n l)%N by (apply IH; by left). lia.
    + assert (m <= foldr N.max n l)%N by (apply IH; by right). lia.
Qed.

Lemma next_contact_id_fresh c r : r ∈ contacts c → (c_id r < next_contact_id c)%N.
Proof.
  intros Hr. unfold next_contact_id.
  assert (c_id r <= foldr N.max (contact_seq c) (c_id <$> contacts c))%N; [|lia].
  apply foldr_max_ge. right. apply list_elem_of_fmap. eauto.
Qed.

(** ** Lemmas: adding or looking up *)

(** A call with this name, address and origin would leave the row as it is. *)
Definition settled (name addr : str) (origin : Origin.Origin) (row : contact_row) : Prop :=
  updates_name name origin row || updates_authname name origin row
  || updates_addr addr origin row || Origin.ltb (c_origin row) origin = false.

(** How a call may change a contact: never its identity, its origin only upwards, and only one
    of its two names. *)
Definition evolves (origin : Origin.Origin) (r r' : contact_row) : Prop :=
  c_id r' = c_id r ∧ c_fingerprint r' = c_fingerprint r ∧ c_last_seen r' = c_last_seen r
  ∧ Origin.leb (c_origin r) (c_origin r') = true
  ∧ (if manual origin then c_authname r' = c_authname r else c_name r' = c_name r).

Lemma leb_refl o : Origin.leb o o = true.
Proof. apply N.leb_refl. Qed.

Lemma evolves_refl origin r : evolves origin r r.
Proof. unfold evolves. rewrite leb_refl. by destruct (manual origin). Qed.

#[export] Hint Resolve leb_refl evolves_refl : contacts.

Lemma merged_evolves name addr origin r : evolves origin r (merged_row name addr origin r r).
Proof.
  unfold evolves, merged_row, updates_name, updates_authname. simpl. split_and!; try done.
  - destruct (Origin.ltb _ _) eqn:E; [|apply leb_refl].
    unfold Origin.ltb, Origin.leb in *. apply N.leb_le. apply N.ltb_lt in E. lia.
  - by destruct (manual origin).
Qed.

Lemma merged_settled name addr origin r : settled name addr origin (merged_row name addr origin r r).
Proof.
  unfold settled. assert (Origin.ltb (c_origin (merged_row name addr origin r r)) origin = false) as ->.
  { simpl. destruct (Origin.ltb (c_origin r) origin) eqn:E; [|done]. apply N.ltb_irrefl. }
  rewrite orb_false_r. apply orb_false_iff. split; [apply orb_false_iff; split|].
  - unfold updates_name at 1. simpl. destruct (updates_name name origin r) eqn:E.
    + by rewrite bool_decide_eq_true_2, andb_false_r.
    + exact E.
  - unfold updates_authname at 1. simpl. destruct (updates_authname name origin r) eqn:E.
    { rewrite bool_decide_eq_true_2 by done. by rewrite andb_false_r. }
    revert E. unfold updates_authname. destruct (manual origin); [done|]. simpl.
    destruct (Origin.ltb (c_origin r) origin) eqn:El; [|done].
    assert (Origin.leb (c_origin r) origin = true) as ->.
    { unfold Origin.ltb, Origin.leb in *. apply N.leb_le. apply N.ltb_lt in El. lia. }
    by rewrite leb_refl.
  - unfold updates_addr. simpl. unfold updates_addr.
    destruct (Origin.leb (c_origin r) origin) eqn:E; simpl.
    + destruct (bool_decide (addr = c_addr r)) eqn:Ea; simpl; [by rewrite Ea, andb_false_r|].
      by rewrite bool_decide_eq_true_2, andb_false_r.
    + assert (Origin.ltb (c_origin r) origin = false) as ->; [|by rewrite E].
      unfold Origin.ltb, Origin.leb in *. apply N.ltb_ge. apply N.leb_gt in E. lia.
Qed.

Lemma eq_nocase_refl s : eq_nocase s s = true.
Proof. by apply bool_decide_eq_true_2. Qed.

Lemma merged_matches name addr fp origin r :
  matches fp addr r = true → matches fp addr (merged_row name addr origin r r) = true.
Proof.
  unfold matches. simpl. intros [H1 H2]%andb_true_iff. rewrite H1. simpl.
  destruct (updates_addr addr origin r); [by rewrite eq_nocase_refl, orb_true_r|done].
Qed.

(** The row function of the update. *)
Definition at_id (row : contact_row) (g : contact_row -> contact_row) (r : contact_row)
  : contact_row := if (c_id r =? c_id row)%N then g r else r.

Lemma at_id_row c row g r :
  contacts_wf c → row ∈ contacts c → r ∈ contacts c →
  at_id row g r = if decide (r = row) then g row else r.
Proof.
  intros Hwf Hrow Hr. unfold at_id. destruct (N.eqb_spec (c_id r) (c_id row)) as [He|Hne].
  - rewrite (wf_id_inj c r row Hwf Hr Hrow He). by rewrite decide_True.
  - rewrite decide_False; [done|]. by intros ->.
Qed.

Lemma update_wf c row g :
  contacts_wf c → (∀ r, c_id (g r) = c_id r ∧ c_fingerprint (g r) = c_fingerprint r) →
  contacts_wf (set_contacts (fmap (at_id row g)) c).
Proof.
  intros [Hids Hseq Hkeys] Hg.
  assert (∀ r, c_id (at_id row g r) = c_id r ∧ c_fingerprint (at_id row g r) = c_fingerprint r) as Hh.
  { intros r. unfold at_id. destruct (_ =? _)%N; [apply Hg|done]. }
  constructor; simpl.
  - rewrite <-list_fmap_compose. rewrite (list_fmap_ext _ c_id); [done|]. intros i r _. apply Hh.
  - apply Forall_fmap. eapply Forall_impl; [exact Hseq|]. intros r H. simpl. by rewrite (proj1 (Hh r)).
  - intros r r' (x & -> & Hx)%list_elem_of_fmap (x' & -> & Hx')%list_elem_of_fmap.
    rewrite (proj2 (Hh x)), (proj2 (Hh x')). intros. f_equal. by apply Hkeys.
Qed.

Lemma find_contact_updated c row g P :
  contacts_wf c → find_contact P c = Some row → P (g row) = true →
  find_contact P (set_contacts (fmap (at_id row g)) c) = Some (g row).
Proof.
  intros Hwf Hf Hg. destruct (find_contact_Some _ _ _ Hf) as [Hrow HP].
  unfold find_contact in *. simpl. rewrite head_filter_fmap, Hf; simpl.
  - unfold at_id. by rewrite N.eqb_refl.
  - intros r Hr. rewrite (at_id_row c) by done. case_decide as Heq; [|done]. subst. congruence.
Qed.

(** The name of a contact that is used in messages. *)
Definition wire_name (id : ContactId) (c : Context) : str :=
  from_option c_authname [] (find_contact (λ r, (c_id r =? id)%N) c).

Lemma wire_name_updated c row g id :
  contacts_wf c → row ∈ contacts c → (∀ r, c_id (g r) = c_id r) →
  c_authname (g row) = c_authname row →
  wire_name id (set_contacts (fmap (at_id row g)) c) = wire_name id c.
Proof.
  intros Hwf Hrow Hg Hname. unfold wire_name, find_contact. simpl.
  rewrite head_filter_fmap.
  - destruct (head _) as [r|] eqn:E; [|done]. simpl.
    apply head_Some_elem_of, list_elem_of_filter in E as [_ Hr].
    rewrite (at_id_row c) by done. case_decide; by subst.
  - intros r _. unfold at_id. destruct (c_id r =? c_id row)%N; by rewrite ?Hg.
Qed.

Lemma wire_name_inserted c new id :
  c_authname new = [] →
  wire_name id (set_contact_seq (c_id new) (set_contacts (λ l, l ++ [new]) c)) = wire_name id c.
Proof.
  intros Hn. unfold wire_name, find_contact. simpl. rewrite filter_app.
  destruct (base.filter _ (contacts c)) as [|r l]; [|done]. simpl. rewrite filter_cons.
  case_decide; simpl; [done|done].
Qed.

(** What a call leaves as it was. *)
Definition same_settings (c c' : Context) : Prop :=
  members c' = members c ∧ configured_addr c' = configured_addr c
  ∧ transport_addrs c' = transport_addrs c ∧ self_fingerprint_opt c' = self_fingerprint_opt c.

(** The outcome of the transaction: the contact found or created is in the table, and the same
    call again would change nothing. *)
Definition stored (name addr fp : str) (origin : Origin.Origin) (c c' : Context)
  (row : contact_row) : Prop :=
  contacts_wf c' ∧ find_contact (matches fp addr) c' = Some row
  ∧ settled name addr origin row
  ∧ (∀ r, r ∈ contacts c → ∃ r', r' ∈ contacts c' ∧ evolves origin r r')
  ∧ (manual origin = true ∨ name = [] → ∀ id, wire_name id c' = wire_name id c)
  ∧ same_settings c c'.

Lemma stored_update name addr fp origin c row c' :
  contacts_wf c → find_contact (matches fp addr) c = Some row →
  let g := merged_row name addr origin row in
  same_contacts (set_contacts (fmap (at_id row g)) c) c' →
  stored name addr fp origin c c' (g row).
Proof.
  intros Hwf Hf g Hsame. destruct (find_contact_Some _ _ _ Hf) as [Hrow HP].
  assert (contacts_wf c') as Hwf'.
  { eapply same_contacts_wf; [exact Hsame|]. by apply update_wf. }
  destruct Hsame as (Hc & _ & Hm & Ha & Ht & Hs). unfold stored. split_and!; try done.
  - rewrite (find_contact_same _ _ c' Hc). apply find_contact_updated; [done..|].
    by apply merged_matches.
  - apply merged_settled.
  - intros r Hr. rewrite Hc. exists (at_id row g r). split; [apply list_elem_of_fmap; eauto|].
    rewrite (at_id_row c) by done. case_decide; subst; [apply merged_evolves|apply evolves_refl].
  - intros Hn id. unfold wire_name at 1. rewrite (find_contact_same _ _ c' Hc).
    apply wire_name_updated; [done..|]. unfold g. simpl. unfold updates_authname.
    destruct Hn as [-> | ->]; simpl; [done|]. by rewrite !andb_false_r.
Qed.

Lemma stored_insert name addr fp origin c seq :
  contacts_wf c → find_contact (matches fp addr) c = None → seq = next_contact_id c →
  let new := {| c_id := seq; c_name := if manual origin then name else []; c_addr := addr;
                c_fingerprint := fp; c_origin := origin;
                c_authname := if manual origin then [] else name; c_last_seen := 0 |} in
  stored name addr fp origin c (set_contact_seq seq (set_contacts (λ l, l ++ [new]) c)) new.
Proof.
  intros [Hids Hseq Hkeys] Hf -> new. unfold stored. split_and!; try done.
  - constructor; simpl.
    + rewrite fmap_app. apply NoDup_app. split_and!; [done| |by apply NoDup_singleton].
      intros i (r & -> & Hr)%list_elem_of_fmap Hi%list_elem_of_singleton.
      apply next_contact_id_fresh in Hr. simpl in Hi. lia.
    + apply Forall_app. split; [|by constructor].
      apply Forall_forall. intros r Hr%next_contact_id_fresh. lia.
    + assert (∀ r, r ∈ contacts c → c_fingerprint r = fp → fp = []) as Hno.
      { intros x Hx Hfp. apply (find_contact_None _ _ _ Hf) in Hx. unfold matches in Hx.
        rewrite (bool_decide_eq_true_2 _ Hfp) in Hx. simpl in Hx.
        destruct (decide (fp = [])); [done|]. by rewrite bool_decide_eq_false_2 in Hx. }
      intros r r'. rewrite !elem_of_app, !list_elem_of_singleton.
      intros [Hr|Hr] [Hr'|Hr'] Heq Hne; subst; [by apply Hkeys| | |done]; exfalso; apply Hne.
      * change (c_fingerprint new) with fp in Heq. rewrite Heq. by eapply Hno.
      * change (c_fingerprint new) with fp in Heq |- *. by eapply Hno.
  - unfold find_contact in *. simpl. rewrite filter_app. apply head_None in Hf.
    rewrite Hf, filter_cons, decide_True; [done|]. unfold matches, new. simpl.
    by rewrite bool_decide_eq_true_2, eq_nocase_refl, orb_true_r.
  - unfold settled, updates_name, updates_authname, updates_addr, new, Origin.ltb. simpl.
    rewrite N.ltb_irrefl, (bool_decide_eq_true_2 (addr = addr)) by done.
    destruct (manual origin); simpl; rewrite (bool_decide_eq_true_2 (name = name)) by done;
      by rewrite ?andb_false_r.
  - intros r Hr. exists r. simpl. rewrite elem_of_app. auto with contacts.
  - intros Hn id. apply wire_name_inserted. simpl. by destruct Hn as [-> | ->]; [|destruct (manual origin)].
Qed.

Lemma lookup_or_insert_ok name addr fp origin c :
  contacts_wf c →
  (find_contact (matches fp addr) c = None → (next_contact_id c <= 4294967295)%N) →
  ∃ m c' row, lookup_or_insert name addr fp origin c = (Ok (c_id row, m), c')
    ∧ stored name addr fp origin c c' row.
Proof.
  intros Hwf Hnext. unfold lookup_or_insert, transaction. run_m.
  destruct (find_contact (matches fp addr) c) as [row|] eqn:Hf.
  - destruct (_ || _) eqn:Hupd.
    + unfold update_contact. run_m. set (g := merged_row name addr origin row).
      set (c1 := set_contacts _ c). change (c_id row) with (c_id (g row)).
      destruct (updates_name name origin row || _).
      * destruct (update_chat_names_ok (c_id (g row)) c1 (g row)) as (c' & -> & Hsame).
        { apply find_contact_id; [by apply update_wf|]. destruct (find_contact_Some _ _ _ Hf).
          change (contacts c1) with (at_id row g <$> contacts c). apply list_elem_of_fmap.
          exists row. unfold at_id. by rewrite N.eqb_refl. }
        exists Modified, c', (g row). split; [done|]. by apply stored_update.
      * exists Modified, c1, (g row). split; [done|]. apply stored_update; auto with contacts.
    + exists Unmodified, c, row. split; [done|]. unfold stored. split_and!; try done.
      intros r Hr. exists r. auto with contacts.
  - unfold insert_contact. run_m. rewrite (proj2 (N.leb_le _ _) (Hnext eq_refl)).
    exists Created. do 2 eexists. split; [|by apply stored_insert]. done.
Qed.

Lemma lookup_settled name addr fp origin c row :
  find_contact (matches fp addr) c = Some row → settled name addr origin row →
  lookup_or_insert name addr fp origin c = (Ok (c_id row, Unmodified), c).
Proof.
  intros Hf Hs. unfold lookup_or_insert, transaction. run_m. rewrite Hf.
  unfold settled in Hs. by rewrite Hs.
Qed.

(** ** Properties: one contact per key and address *)

(** Address and key that are the account's own. *)
Definition own (lower : str -> str) (addr fp : str) (c : Context) : bool :=
  negb (bool_decide (transport_addrs c = []))
  && (unwrap_or (is_self_addr lower addr c).1 false
      || (negb (bool_decide (fp = [])) && bool_decide (self_fingerprint_opt c = Some fp))).

Lemma is_self_addr_run lower addr c :
  is_self_addr lower addr c = (Ok (unwrap_or (is_self_addr lower addr c).1 false), c).
Proof. done. Qed.

Lemma is_self_addr_same lower addr c c' :
  configured_addr c' = configured_addr c → transport_addrs c' = transport_addrs c →
  (is_self_addr lower addr c').1 = (is_self_addr lower addr c).1.
Proof. unfold is_self_addr, gets. simpl. by intros -> ->. Qed.

(** The call on an account that has a key: either the account itself is meant or the
    transaction runs. *)
Lemma add_or_lookup_run lower gen name addr fp origin c self :
  (addr ≠ [] ∨ fp ≠ []) → origin ≠ Origin.Unknown → self_fingerprint_opt c = Some self →
  add_or_lookup_ex lower gen name addr fp origin c
  = if own lower addr fp c then (Ok (SELF, Unmodified), c)
    else let '(name, origin) := effective_name_origin name addr origin in
         lookup_or_insert name addr fp origin c.
Proof.
  intros Hne Hor Hkey. unfold add_or_lookup_ex, ensure.
  assert (negb (bool_decide (addr = [])) || negb (bool_decide (fp = [])) = true) as ->.
  { destruct Hne as [H|H]; rewrite (bool_decide_eq_false_2 _ H); [done|by rewrite orb_true_r]. }
  rewrite (bool_decide_eq_false_2 _ Hor). unfold is_configured, and_then, own. run_m.
  destruct (effective_name_origin name addr origin) as [name' origin'].
  destruct (bool_decide (transport_addrs c = [])); cbn [negb andb].
  { rewrite andb_false_r. done. }
  rewrite is_self_addr_run, andb_true_r. destruct (unwrap_or _ false); [done|]. simpl.
  unfold self_fingerprint. destruct (bool_decide (fp = [])); [done|]. simpl. rewrite Hkey.
  destruct (decide (fp = self)) as [->|Hfp]; [by rewrite !bool_decide_eq_true_2|].
  by rewrite !bool_decide_eq_false_2 by congruence.
Qed.

(** One contact per key, and one keyless contact per address: looking up or adding a
    contact succeeds, returns the contact with the given key (the one with the given address,
    up to the case of ASCII letters, when no key is given; the account itself for its own
    address or key), keeps identifiers and keys unique, never changes the identifier or the
    key of a contact and never lowers its origin; the same call again finds the same contact
    and changes nothing. *)
Theorem add_or_lookup_spec lower gen name addr fp origin c self :
  contacts_wf c → (addr ≠ [] ∨ fp ≠ []) → origin ≠ Origin.Unknown →
  self_fingerprint_opt c = Some self → (next_contact_id c <= 4294967295)%N →
  ∃ id m c', add_or_lookup_ex lower gen name addr fp origin c = (Ok (id, m), c')
    ∧ contacts_wf c'
    ∧ (if own lower addr fp c then id = SELF ∧ c' = c
       else ∃ row, row ∈ contacts c' ∧ c_id row = id ∧ c_fingerprint row = fp
              ∧ (fp = [] → eq_nocase (c_addr row) addr = true))
    ∧ (∀ r, r ∈ contacts c → ∃ r', r' ∈ contacts c' ∧ c_id r' = c_id r
         ∧ c_fingerprint r' = c_fingerprint r ∧ Origin.leb (c_origin r) (c_origin r') = true)
    ∧ add_or_lookup_ex lower gen name addr fp origin c' = (Ok (id, Unmodified), c').
Proof.
  intros Hwf Hne Hor Hkey Hnext.
  rewrite (add_or_lookup_run _ _ _ _ _ _ c self) by done.
  destruct (own lower addr fp c) eqn:Hown.
  { exists SELF, Unmodified, c. split_and!; eauto 10 with contacts.
    by rewrite (add_or_lookup_run _ _ _ _ _ _ c self), Hown. }
  destruct (effective_name_origin name addr origin) as [name' origin'] eqn:Heff.
  destruct (lookup_or_insert_ok name' addr fp origin' c Hwf (λ _, Hnext))
    as (m & c' & row & -> & Hwf' & Hf & Hset & Hev & _ & Hsame).
  destruct (find_contact_Some _ _ _ Hf) as [Hrow Hm]. unfold matches in Hm.
  apply andb_true_iff in Hm as [Hfp%bool_decide_eq_true Haddr].
  exists (c_id row), m, c'. split_and!; try done.
  - exists row. split_and!; try done. intros ->. exact Haddr.
  - intros r Hr. destruct (Hev r Hr) as (r' & ? & ? & ? & _ & ? & _). eauto 10.
  - destruct Hsame as (_ & Ha & Ht & Hs).
    rewrite (add_or_lookup_run _ _ _ _ _ _ c' self) by congruence.
    assert (own lower addr fp c' = false) as ->.
    { unfold own in *. by rewrite Ht, Hs, (is_self_addr_same _ _ c c') by done. }
    rewrite Heff. by apply lookup_settled.
Qed.

(** ** Properties: names given by the user *)

(** The operations by which the user names contacts: adding one by hand ([Contact::create]),
    importing the address book of the phone, scanning a code with an address, and renaming. *)
Inductive naming :=
| CreateContact (name addr : str)
| ImportBook (addr_book : str)
| ScanAddress (name addr : str)
| SetName (id : ContactId) (name : str).

Definition run_naming (lower : str -> str) (gen : str) (c : Context) (n : naming) : Context :=
  match n with
  | CreateContact name addr => (create_named lower gen name addr c).2
  | ImportBook addr_book => (add_address_book lower gen addr_book c).2
  | ScanAddress name addr => (scan_named lower gen name addr c).2
  | SetName id name => (set_name_ex id name c).2
  end.

(** Neither the table's invariant nor a name used in messages is touched. *)
Definition keeps_wire (c c' : Context) : Prop :=
  contacts_wf c → contacts_wf c' ∧ ∀ id, wire_name id c' = wire_name id c.

Lemma keeps_wire_same c c' :
  contacts c' = contacts c → contact_seq c' = contact_seq c → keeps_wire c c'.
Proof.
  intros Hc Hs Hwf. split.
  - destruct Hwf as [? ? ?]. constructor; rewrite ?Hc, ?Hs; done.
  - intros id. unfold wire_name. by rewrite (find_contact_same _ _ _ Hc).
Qed.

Lemma keeps_wire_trans c c' c'' : keeps_wire c c' → keeps_wire c' c'' → keeps_wire c c''.
Proof.
  intros H1 H2 Hwf. destruct (H1 Hwf) as [Hwf1 Hn1]. destruct (H2 Hwf1) as [Hwf2 Hn2].
  split; [done|]. intros id. by rewrite Hn2.
Qed.

Lemma lookup_or_insert_wire name addr fp origin c :
  manual origin = true ∨ name = [] → keeps_wire c (lookup_or_insert name addr fp origin c).2.
Proof.
  intros Hn Hwf. destruct (decide (next_contact_id c <= 4294967295)%N) as [Hnext|Hnext].
  - destruct (lookup_or_insert_ok name addr fp origin c Hwf (λ _, Hnext))
      as (m & c' & row & -> & ? & _ & _ & _ & Hw & _). auto.
  - destruct (find_contact (matches fp addr) c) as [row|] eqn:Hf.
    + destruct (lookup_or_insert_ok name addr fp origin c Hwf)
        as (m & c' & row' & -> & ? & _ & _ & _ & Hw & _); [congruence|auto].
    + unfold lookup_or_insert, transaction, insert_contact. run_m. rewrite Hf.
      rewrite (proj2 (N.leb_gt _ _)) by lia. by apply keeps_wire_same.
Qed.

Lemma manual_effective name addr origin name' origin' :
  manual origin = true → effective_name_origin name addr origin = (name', origin') →
  manual origin' = true ∨ name' = [].
Proof. intros Hm. unfold effective_name_origin. destruct (_ && _); intros [= <- <-]; auto. Qed.

Lemma add_or_lookup_wire lower gen name addr fp origin c :
  manual origin = true → keeps_wire c (add_or_lookup_ex lower gen name addr fp origin c).2.
Proof.
  intros Hm. unfold add_or_lookup_ex, is_configured, and_then. run_m.
  destruct (effective_name_origin name addr origin) as [name' origin'] eqn:E.
  pose proof (manual_effective _ _ _ _ _ Hm E) as Hm'.
  assert (∀ c, keeps_wire c (lookup_or_insert name' addr fp origin' c).2) as Hl
    by (intros; by apply lookup_or_insert_wire).
  destruct (_ || _); [|by apply keeps_wire_same].
  destruct (negb (bool_decide (origin = _))); [|by apply keeps_wire_same].
  cbv beta iota zeta. destruct (negb (bool_decide (transport_addrs c = []))).
  - rewrite is_self_addr_run. destruct (unwrap_or _ false); [by apply keeps_wire_same|].
    destruct (bool_decide (fp = [])); [apply Hl|]. cbn [negb andb]. unfold self_fingerprint.
    destruct (self_fingerprint_opt c); destruct (bool_decide _); try apply Hl;
      try (by apply keeps_wire_same).
    eapply keeps_wire_trans; [|apply Hl]. by apply keeps_wire_same.
  - rewrite andb_false_r. apply Hl.
Qed.

Lemma set_name_wire id name c : keeps_wire c (set_name_ex id name c).2.
Proof.
  intros Hwf. unfold set_name_ex, transaction. run_m.
  destruct (find_contact _ c) as [row|] eqn:Hf.
  2: { destruct (bool_decide (name = [])); by apply keeps_wire_same. }
  destruct (bool_decide (c_name row = name)); [by apply keeps_wire_same|].
  destruct (find_contact_Some _ _ _ Hf) as [Hrow Hid%N.eqb_eq]. subst id.
  unfold update_contact. run_m. set (g := with_contact_name name).
  set (c1 := set_contacts _ c). change c1 with (set_contacts (fmap (at_id row g)) c).
  assert (contacts_wf (set_contacts (fmap (at_id row g)) c)) as Hwf1 by (by apply update_wf).
  destruct (update_chat_names_ok (c_id row) (set_contacts (fmap (at_id row g)) c) (g row))
    as (c' & -> & Hsame).
  { change (c_id row) with (c_id (g row)). apply find_contact_id; [done|].
    simpl. apply list_elem_of_fmap. exists row. unfold at_id. by rewrite N.eqb_refl. }
  destruct Hsame as (Hc & Hs & _). simpl. apply (keeps_wire_trans _ (set_contacts (fmap (at_id row g)) c)).
  - intros _. split; [done|]. intros id. by apply wire_name_updated.
  - by apply keeps_wire_same.
  - done.
Qed.

Lemma add_or_lookup_user lower gen name addr origin c :
  origin ∈ [Origin.ManuallyCreated; Origin.AddressBook; Origin.UnhandledQrScan] →
  keeps_wire c (add_or_lookup lower gen name addr origin c).2.
Proof. intros Ho. apply add_or_lookup_wire. by apply bool_decide_eq_true_2. Qed.

Lemma add_entry_wire lower gen cnt entry c : keeps_wire c (add_book_entry lower gen cnt entry c).2.
Proof.
  unfold add_book_entry. destruct (sanitize_name_and_addr entry.1 entry.2) as [name addr].
  destruct (ContactAddress_new lower addr) as [addr'|]; [|by apply keeps_wire_same].
  pose proof (add_or_lookup_user lower gen name addr' Origin.AddressBook c ltac:(set_solver)) as H.
  unfold bind, ignore_err. by destruct (add_or_lookup _ _ _ _ _ c) as [[[x m]|e] c'].
Qed.

Lemma add_book_entries_wire lower gen entries cnt c :
  keeps_wire c (add_book_entries lower gen cnt entries c).2.
Proof.
  revert cnt c. induction entries as [|entry entries IH]; intros cnt c; simpl; [by apply keeps_wire_same|].
  pose proof (add_entry_wire lower gen cnt entry c) as H. unfold bind.
  destruct (add_book_entry _ _ cnt entry c) as [[cnt'|e] c']; [|done].
  eapply keeps_wire_trans; [exact H|apply IH].
Qed.

Lemma add_address_book_wire lower gen book c : keeps_wire c (add_address_book lower gen book c).2.
Proof.
  unfold add_address_book, bind.
  pose proof (add_book_entries_wire lower gen (split_address_book book) 0 c) as H.
  destruct (add_book_entries _ _ _ _ c) as [[cnt|e] c']; [|done]. unfold when, emit_event, modify, ret.
  destruct (0 <? cnt)%N; [|done]. eapply keeps_wire_trans; [exact H|by apply keeps_wire_same].
Qed.

(** C33. Names given by the user stay private: whatever contacts the user creates, imports from the
    address book of the phone, scans from codes with an address, or renames, in any order and also
    when operations fail, the name that a contact is called by in messages ([authname]) is the one it
    had before, and empty for a contact that is new.  The contacts table at the start is any one
    with unique identifiers, at most as large as the last one given, and unique keys. *)
Theorem user_names_never_sent lower gen ops c :
  contacts_wf c →
  ∀ id, wire_name id (foldl (run_naming lower gen) c ops) = wire_name id c.
Proof.
  intros Hwf. assert (keeps_wire c (foldl (run_naming lower gen) c ops)) as H; [|by apply H].
  clear Hwf. revert c. induction ops as [|op ops IH]; intros c; simpl.
  - by apply keeps_wire_same.
  - eapply keeps_wire_trans; [|apply IH]. destruct op as [name addr|book|name addr|id name]; simpl.
    + unfold create_named. destruct (sanitize_name_and_addr name addr) as [name' addr'].
      destruct (ContactAddress_new lower addr'); [|by apply keeps_wire_same].
      apply add_or_lookup_user. set_solver.
    + apply add_address_book_wire.
    + unfold scan_named. destruct (ContactAddress_new lower addr); [|by apply keeps_wire_same].
      apply add_or_lookup_user. set_solver.
    + apply set_name_wire.
Qed.

(** ** Concrete runs *)

Definition sample_contact (id : N) (addr fp : string) : contact_row :=
  {| c_id := id; c_name := []; c_addr := lit addr; c_fingerprint := lit fp;
     c_origin := Origin.Internal; c_authname := lit "Wire"; c_last_seen := 0 |}.

Definition sample_account : Context :=
  {| members := {[ (30%N, 11%N) := {| add_timestamp := 0; remove_timestamp := 0 |} ]};
     contacts := [sample_contact 1 "" ""; sample_contact 10 "alice@example.org" "AAAA";
                  sample_contact 11 "bob@example.org" ""];
     contact_seq := 11;
     chats := {[ 30%N := {| ch_type := Chattype.Single; ch_name := lit "Wire"; ch_grpid := [];
                            ch_param := []; ch_created_timestamp := 1 |} ]};
     chats_descriptions := ∅; broadcast_secrets := ∅;
     configured_addr := Some (lit "me@example.org");
     transport_addrs := [lit "me@example.org"];
     self_fingerprint_opt := Some (lit "FFFF"); events := [] |}.

Lemma sample_account_wf : contacts_wf sample_account.
Proof.
  constructor.
  - by apply (bool_decide_unpack _).
  - repeat constructor; by apply (bool_decide_unpack _).
  - simpl. intros r r' Hr Hr'. rewrite !elem_of_cons, elem_of_nil in Hr, Hr'.
    destruct_or?; subst; simpl; intros; done.
Defined.

Lemma add_or_lookup_spec_witness :
  ∃ x m c', add_or_lookup_ex id [] (lit "Bob") (lit "BOB@example.org") [] Origin.IncomingTo
              sample_account = (Ok (x, m), c')
    ∧ (∃ row, row ∈ contacts c' ∧ c_id row = x
         ∧ eq_nocase (c_addr row) (lit "BOB@example.org") = true).
Proof.
  destruct (add_or_lookup_spec id [] (lit "Bob") (lit "BOB@example.org") [] Origin.IncomingTo
              sample_account (lit "FFFF")) as (x & m & c' & H1 & _ & H2 & _);
    [exact sample_account_wf|by left|done|done|done|].
  exists x, m, c'. split; [exact H1|]. destruct H2 as (row & ? & ? & _ & H3).
  exists row. split_and!; [done..|by apply H3].
Defined.

Lemma user_names_never_sent_witness :
  wire_name 11 (foldl (run_naming id [])
    sample_account [CreateContact (lit "Daddy") (lit "bob@example.org");
                    ImportBook (lit "Grandma" ++ LF :: lit "bob@example.org");
                    SetName 11 (lit "Mama"); SetName 99 []]) = lit "Wire".
Proof. rewrite (user_names_never_sent id [] _ sample_account sample_account_wf). done. Defined.

(** The chat with a contact is renamed with the contact. *)
Example rename_renames_chat :
  let c := (set_name_ex 11 (lit "Bobby") sample_account).2 in
  (ch_name <$> chats c !! 30%N, events c)
  = (Some (lit "Bobby"), [ChatModified 30; ChatlistItemsChanged; ContactsChanged 11]).
Proof. reflexivity. Qed.
