(* ===== verification/Recipients.v ===== *)
(** Recipients: fingerprints (src/src/key.rs) and the mapping of the recipients and past
    members a message lists to contacts (src/src/receive_imf.rs, src/src/mimeparser.rs). *)
From S2P Require Import Prelude Monad Ids Params ContactTools Membership Headers Db Contacts.
From stdpp Require Import list.

(** ** Fingerprints *)

(** [struct Fingerprint(Vec<u8>)]: its bytes. *)
Abbreviation Fingerprint := (list N) (only parsing).

(** [hex::encode_upper]. *)
Definition hex_digit (n : N) : char := (if n <? 10 then 48 + n else 55 + n)%N.

(** [Fingerprint::hex]. *)
Definition hex (fp : Fingerprint) : str :=
  concat ((λ b, [hex_digit (b / 16); hex_digit (b mod 16)]) <$> fp).

(** [Fingerprint::human_readable]: groups of four digits, five groups on a line. *)
Fixpoint human_loop (i : nat) (s : str) : str :=
  match s with
  | [] => []
  | c :: s' =>
      (if (0 <? i)%nat && (i mod 20 =? 0)%nat then [LF]
       else if (0 <? i)%nat && (i mod 4 =? 0)%nat then [SP]
       else []) ++ c :: human_loop (S i) s'
  end.

Definition human_readable (fp : Fingerprint) : str := human_loop 0 (hex fp).

(** [char::is_ascii_hexdigit] and the value of a digit. *)
Definition hex_value (c : char) : option N :=
  if is_digit c then Some (c - 48)%N
  else if ((65 <=? c) && (c <=? 70))%N then Some (c - 55)%N
  else if ((97 <=? c) && (c <=? 102))%N then Some (c - 87)%N
  else None.

Definition is_ascii_hexdigit (c : char) : bool := bool_decide (is_Some (hex_value c)).

(** [hex::decode]: fails on an odd number of digits. *)
Fixpoint hex_decode (s : str) : option (list N) :=
  match s with
  | [] => Some []
  | [_] => None
  | a :: b :: s' =>
      x ← hex_value a; y ← hex_value b; rest ← hex_decode s'; Some ((16 * x + y)%N :: rest)
  end.

Section Fingerprints.
(** [str::to_uppercase], the Unicode upper-case mapping. *)
Context (to_uppercase : str -> str).

(** [Fingerprint::from_str]. *)
Definition Fingerprint_from_str (input : str) : option Fingerprint :=
  let hex_repr := filter (λ c, is_ascii_hexdigit c = true) (to_uppercase input) in
  v ← hex_decode hex_repr;
  if ((length v =? 20) || (length v =? 32))%nat then Some v else None.

(** [MimeMessage::chat_group_member_fingerprints]. *)
Definition chat_group_member_fingerprints (m : MimeMessage) : list Fingerprint :=
  match get_header m HeaderDef.ChatGroupMemberFpr with
  | Some header => omap Fingerprint_from_str (split_ascii_whitespace header)
  | None => []
  end.

End Fingerprints.

(** ** Contacts for a list of addresses *)

(** [mailparse::SingleInfo]. *)
Record SingleInfo := { display_name : option str; info_addr : str }.

Section Lookup.
Context (to_lowercase to_uppercase : str -> str) (generated_fingerprint : str).

Local Abbreviation add_or_lookup := (add_or_lookup_ex to_lowercase generated_fingerprint).

(** Adding or looking up the contact with a key, at the address of the header. *)
Definition key_contact (info : SingleInfo) (fingerprint : str) (origin : Origin.Origin)
  : M (option N) :=
  match ContactAddress_new to_lowercase (info_addr info) with
  | Some addr =>
      r <- add_or_lookup (default [] (display_name info)) addr fingerprint origin ;;
      ret (Some r.1)
  | None => ret None
  end.

(** One round of [add_or_lookup_key_contacts]. *)
Definition one_key_contact (gossiped_keys : gmap str str) (origin : Origin.Origin)
  (info : SingleInfo) (fp : option Fingerprint) : M (option N) :=
  if negb (may_be_valid_addr (info_addr info)) then ret None
  else
    match fp with
    | Some fp => key_contact info (hex fp) origin
    | None =>
        match gossiped_keys !! info_addr info with
        | Some fingerprint => key_contact info fingerprint origin
        | None =>
            is_self <- is_self_addr to_lowercase (info_addr info) ;;
            ret (if (is_self : bool) then Some SELF else None)
        end
    end.

(** [add_or_lookup_key_contacts]. *)
Fixpoint add_or_lookup_key_contacts (address_list : list SingleInfo)
  (gossiped_keys : gmap str str) (fingerprints : list Fingerprint) (origin : Origin.Origin)
  : M (list (option N)) :=
  match address_list with
  | [] => ret []
  | info :: rest =>
      id <- one_key_contact gossiped_keys origin info (head fingerprints) ;;
      ids <- add_or_lookup_key_contacts rest gossiped_keys (tail fingerprints) origin ;;
      ret (id :: ids)
  end.

(** One round of [lookup_key_contacts_fallback_to_chat]. *)
Definition one_fallback_contact (chat_id : ChatId) (info : SingleInfo)
  (fp : option Fingerprint) : M (option N) :=
  if negb (may_be_valid_addr (info_addr info)) then ret None
  else
    match fp with
    | Some fp => key_contact info (hex fp) Origin.Hidden
    | None => lookup_key_contact_by_address to_lowercase (info_addr info) chat_id
    end.

(** [lookup_key_contacts_fallback_to_chat], for a chat. *)
Fixpoint lookup_key_contacts_fallback_to_chat (address_list : list SingleInfo)
  (fingerprints : list Fingerprint) (chat_id : ChatId) : M (list (option N)) :=
  match address_list with
  | [] => ret []
  | info :: rest =>
      id <- one_fallback_contact chat_id info (head fingerprints) ;;
      ids <- lookup_key_contacts_fallback_to_chat rest (tail fingerprints) chat_id ;;
      ret (id :: ids)
  end.

(** The fingerprints of the recipients and those of the past members. *)
Definition split_fingerprints (member_fingerprints : list Fingerprint) (recipients : nat)
  : list Fingerprint * list Fingerprint :=
  if bool_decide (member_fingerprints = []) then ([], [])
  else if (recipients <=? length member_fingerprints)%nat
  then (take recipients member_fingerprints, drop recipients member_fingerprints)
  else ([], []).

(** [get_to_and_past_contact_ids] for [ChatAssignment::GroupChat], the chat being the one with
    the group's identifier, if there is one. *)
Definition get_to_and_past_contact_ids (mime : MimeMessage)
  (recipients past_members : list SingleInfo) (chat_id : option ChatId)
  : M (list (option N) * list (option N)) :=
  let '(to_fps, past_fps) :=
    split_fingerprints (chat_group_member_fingerprints to_uppercase mime) (length recipients) in
  to_ids <- add_or_lookup_key_contacts recipients (gossiped_keys mime) to_fps Origin.Hidden ;;
  past_ids <-
    match chat_id with
    | Some chat_id => lookup_key_contacts_fallback_to_chat past_members past_fps chat_id
    | None => add_or_lookup_key_contacts past_members (gossiped_keys mime) past_fps Origin.Hidden
    end ;;
  ret (to_ids, past_ids).

End Lookup.

(** ** Lemmas: fingerprints *)

Definition is_byte (b : N) : Prop := (b < 256)%N.

(** The fingerprints of OpenPGP keys. *)
Definition valid_fingerprint (fp : Fingerprint) : Prop :=
  Forall is_byte fp ∧ (length fp = 20 ∨ length fp = 32).

Lemma hex_value_digit n : (n < 16)%N → hex_value (hex_digit n) = Some n.
Proof.
  intros H. unfold hex_value, hex_digit, is_digit. destruct (N.ltb_spec n 10).
  - rewrite (proj2 (N.leb_le _ _)), (proj2 (N.leb_le (48 + n) 57)) by lia. simpl. f_equal. lia.
  - rewrite (proj2 (N.leb_gt (55 + n) 57)), andb_false_r by lia.
    rewrite (proj2 (N.leb_le 65 _)), (proj2 (N.leb_le (55 + n) 70)) by lia. simpl. f_equal. lia.
Qed.

Definition upper_hexdigit (c : char) : Prop :=
  is_ascii_hexdigit c = true ∧ ((48 <= c <= 57) ∨ (65 <= c <= 70))%N.

Lemma hex_digit_upper n : (n < 16)%N → upper_hexdigit (hex_digit n).
Proof.
  intros H. split.
  - unfold is_ascii_hexdigit. by rewrite hex_value_digit.
  - unfold hex_digit. destruct (N.ltb_spec n 10); lia.
Qed.

Lemma hex_upper fp : Forall is_byte fp → Forall upper_hexdigit (hex fp).
Proof.
  intros H. unfold hex. apply Forall_concat, Forall_fmap. eapply Forall_impl; [exact H|].
  intros b Hb. unfold is_byte in Hb. simpl.
  constructor; [|constructor; [|constructor]]; apply hex_digit_upper;
    [apply N.Div0.div_lt_upper_bound|apply N.mod_lt]; lia.
Qed.

Lemma hex_decode_hex fp : Forall is_byte fp → hex_decode (hex fp) = Some fp.
Proof.
  induction 1 as [|b fp Hb _ IH]; [done|]. unfold is_byte in Hb. unfold hex in *. csimpl.
  rewrite !hex_value_digit by (apply N.Div0.div_lt_upper_bound || apply N.mod_lt; lia). csimpl.
  rewrite IH. simpl. f_equal. f_equal. symmetry. apply N.div_mod. lia.
Qed.

Lemma hex_inj fp fp' : Forall is_byte fp → Forall is_byte fp' → hex fp = hex fp' → fp = fp'.
Proof.
  intros H H' E. pose proof (hex_decode_hex fp H) as D.
  rewrite E, hex_decode_hex in D by done. congruence.
Qed.

Lemma hex_not_nil fp : valid_fingerprint fp → hex fp ≠ [].
Proof. intros [_ Hl]. destruct fp; [simpl in Hl; lia|done]. Qed.

Lemma human_loop_filter i s :
  Forall upper_hexdigit s → filter (λ c, is_ascii_hexdigit c = true) (human_loop i s) = s.
Proof.
  intros H. revert i. induction H as [|c s [Hc _] _ IH]; intros i; [done|]. cbn [human_loop].
  rewrite filter_app, (filter_cons _ c), decide_True, IH by done.
  destruct (_ && _); [done|]. by destruct (_ && _).
Qed.

Section UpperCase.
Context (to_uppercase : str -> str).

(** [str::to_uppercase] leaves ASCII text without small letters as it is. *)
Definition upper_fixes_capitals : Prop :=
  ∀ s, Forall (λ c, (c < 128)%N ∧ ¬ (97 <= c <= 122)%N) s → to_uppercase s = s.

Hypothesis Hupper : upper_fixes_capitals.

Lemma from_str_digits input fp :
  Forall (λ c, (c < 128)%N ∧ ¬ (97 <= c <= 122)%N) input →
  filter (λ c, is_ascii_hexdigit c = true) input = hex fp → valid_fingerprint fp →
  Fingerprint_from_str to_uppercase input = Some fp.
Proof.
  intros Hin Hf [Hb Hl]. unfold Fingerprint_from_str. rewrite Hupper, Hf by done.
  rewrite hex_decode_hex by done. simpl. destruct Hl as [-> | ->]; done.
Qed.

Lemma filter_hex fp :
  Forall is_byte fp → filter (λ c, is_ascii_hexdigit c = true) (hex fp) = hex fp.
Proof.
  intros H%hex_upper. induction H as [|c s [Hc _] _ IH]; [done|].
  by rewrite filter_cons, decide_True, IH.
Qed.

Lemma upper_ascii c : upper_hexdigit c → (c < 128)%N ∧ ¬ (97 <= c <= 122)%N.
Proof. intros [_ H]. lia. Qed.

Lemma from_str_hex fp : valid_fingerprint fp → Fingerprint_from_str to_uppercase (hex fp) = Some fp.
Proof.
  intros Hv. apply from_str_digits; [|by apply filter_hex; destruct Hv|done].
  eapply Forall_impl; [apply hex_upper; by destruct Hv|]. apply upper_ascii.
Qed.

Lemma from_str_human fp :
  valid_fingerprint fp → Fingerprint_from_str to_uppercase (human_readable fp) = Some fp.
Proof.
  intros Hv. pose proof (hex_upper fp (proj1 Hv)) as Hu. apply from_str_digits; [| |done].
  - unfold human_readable. generalize 0. induction Hu as [|c s Hc _ IH]; intros i; [constructor|].
    cbn [human_loop]. apply Forall_app. split.
    + destruct (_ && _); [repeat constructor; unfold LF; lia|].
      destruct (_ && _); repeat constructor; unfold SP; lia.
    + constructor; [by apply upper_ascii|apply IH].
  - by apply human_loop_filter.
Qed.

(** The fingerprints of a header are read as they were written. *)
Lemma fingerprints_roundtrip fps m :
  Forall valid_fingerprint fps →
  get_header m HeaderDef.ChatGroupMemberFpr = Some (Prelude.join [SP] (hex <$> fps)) →
  chat_group_member_fingerprints to_uppercase m = fps.
Proof.
  intros Hv Hh. unfold chat_group_member_fingerprints. rewrite Hh, split_join_words.
  - clear Hh. induction Hv as [|fp fps Hfp _ IH]; [done|]. csimpl. by rewrite from_str_hex, IH.
  - apply Forall_fmap. eapply Forall_impl; [exact Hv|]. intros fp Hfp. split.
    + by apply hex_not_nil.
    + eapply Forall_impl; [apply hex_upper; by destruct Hfp|]. intros c [_ Hc].
      unfold word_char, is_ascii_whitespace. rewrite !(proj2 (N.eqb_neq _ _)) by lia. done.
Qed.

End UpperCase.

(** ** Lemmas: recipients whose keys are known *)

Section Known.
Context (to_lowercase to_uppercase : str -> str) (generated_fingerprint : str).

(** Which contact an address and a key stand for. *)
Definition resolves (c : Context) (info : SingleInfo) (fp : Fingerprint) (id : N) : Prop :=
  valid_fingerprint fp ∧ may_be_valid_addr (info_addr info) = true
  ∧ ∃ addr, ContactAddress_new to_lowercase (info_addr info) = Some addr
     ∧ if own to_lowercase addr (hex fp) c then id = SELF
       else ∃ r, r ∈ contacts c ∧ c_fingerprint r = hex fp ∧ c_id r = id.

(** Contacts may be updated, but none is lost. *)
Definition knows (c c' : Context) : Prop :=
  contacts_wf c' ∧ same_settings c c'
  ∧ ∀ r, r ∈ contacts c →
      ∃ r', r' ∈ contacts c' ∧ c_id r' = c_id r ∧ c_fingerprint r' = c_fingerprint r.

Lemma knows_refl c : contacts_wf c → knows c c.
Proof. intros Hwf. split_and!; [done..|]. eauto. Qed.

Lemma knows_trans c c' c'' : knows c c' → knows c' c'' → knows c c''.
Proof.
  intros (_ & (? & ? & ? & ?) & Hk) (Hwf & (? & ? & ? & ?) & Hk').
  split; [done|]. split; [unfold same_settings; split_and!; congruence|].
  intros r Hr. destruct (Hk r Hr) as (r' & Hr' & ? & ?). destruct (Hk' r' Hr') as (r'' & ? & ? & ?).
  exists r''. split_and!; congruence.
Qed.

Lemma resolves_mono c c' info fp id : knows c c' → resolves c info fp id → resolves c' info fp id.
Proof.
  intros (_ & (_ & Ha & Ht & Hs) & Hk) (Hv & Hm & addr & Hc & Hr). split_and!; [done..|].
  exists addr. split; [done|].
  assert (own to_lowercase addr (hex fp) c' = own to_lowercase addr (hex fp) c) as ->.
  { unfold own. by rewrite Ht, Hs, (is_self_addr_same _ _ c c') by done. }
  destruct (own _ _ _ c); [done|]. destruct Hr as (r & Hr & <- & <-).
  destruct (Hk r Hr) as (r' & ? & ? & ?). eauto.
Qed.

Lemma key_contact_known info fp id origin c self :
  contacts_wf c → self_fingerprint_opt c = Some self → origin ≠ Origin.Unknown →
  resolves c info fp id →
  ∃ c', key_contact to_lowercase generated_fingerprint info (hex fp) origin c = (Ok (Some id), c')
    ∧ knows c c'.
Proof.
  intros Hwf Hself Hor (Hv & _ & addr & Haddr & Hr). unfold key_contact. rewrite Haddr. run_m.
  pose proof (hex_not_nil fp Hv) as Hne.
  rewrite (add_or_lookup_run _ _ _ _ _ _ c self) by auto.
  destruct (own to_lowercase addr (hex fp) c); [subst; eauto using knows_refl|].
  destruct Hr as (r & Hr & Hfp & <-).
  destruct (effective_name_origin _ addr origin) as [name' origin'].
  destruct (lookup_or_insert_ok name' addr (hex fp) origin' c Hwf)
    as (m & c' & row & -> & Hwf' & Hf & _ & Hev & _ & Hsame).
  { intros Hf. apply (find_contact_None _ _ _ Hf) in Hr. unfold matches in Hr.
    by rewrite bool_decide_eq_true_2, bool_decide_eq_false_2 in Hr. }
  destruct (find_contact_Some _ _ _ Hf) as [Hrow Hm]. unfold matches in Hm.
  apply andb_true_iff in Hm as [Hrfp%bool_decide_eq_true _].
  destruct (Hev r Hr) as (r' & Hr' & Hid & Hfp' & _).
  assert (r' = row) as -> by (apply (wf_keys c' Hwf'); congruence).
  exists c'. split; [by rewrite Hid|]. split_and!; [done..|].
  intros x Hx. destruct (Hev x Hx) as (x' & ? & ? & ? & _). eauto.
Qed.

(** The two loops keep the contacts at the positions of the addresses. *)
Lemma key_contacts_known infos fps ids gossiped origin c self :
  contacts_wf c → self_fingerprint_opt c = Some self → origin ≠ Origin.Unknown →
  Forall3 (resolves c) infos fps ids →
  ∃ c', add_or_lookup_key_contacts to_lowercase generated_fingerprint infos gossiped fps origin c
        = (Ok (Some <$> ids), c') ∧ knows c c'.
Proof.
  intros Hwf Hself Hor H. revert c Hwf Hself H. revert fps ids.
  induction infos as [|info infos IH]; intros fps ids c Hwf Hself H;
    inversion H as [|? fp id ? fps' ids' Hr Hrest]; subst.
  { exists c. split; [done|by apply knows_refl]. }
  destruct (key_contact_known info fp id origin c self) as (c1 & Hrun & Hk); try done.
  cbn [add_or_lookup_key_contacts head tail]. unfold one_key_contact. run_m.
  rewrite (proj1 (proj2 Hr)). cbn [negb]. rewrite Hrun.
  destruct (IH fps' ids' c1) as (c2 & Hrun2 & Hk2).
  - apply Hk.
  - destruct Hk as (_ & (_ & _ & _ & ->) & _). done.
  - eapply Forall3_impl; [exact Hrest|]. intros. by eapply resolves_mono.
  - rewrite Hrun2. exists c2. split; [done|by eapply knows_trans].
Qed.

Lemma fallback_contacts_known infos fps ids chat c self :
  contacts_wf c → self_fingerprint_opt c = Some self → Forall3 (resolves c) infos fps ids →
  ∃ c', lookup_key_contacts_fallback_to_chat to_lowercase generated_fingerprint infos fps chat c
        = (Ok (Some <$> ids), c') ∧ knows c c'.
Proof.
  intros Hwf Hself H. revert c Hwf Hself H. revert fps ids.
  induction infos as [|info infos IH]; intros fps ids c Hwf Hself H;
    inversion H as [|? fp id ? fps' ids' Hr Hrest]; subst.
  { exists c. split; [done|by apply knows_refl]. }
  destruct (key_contact_known info fp id Origin.Hidden c self) as (c1 & Hrun & Hk); try done.
  cbn [lookup_key_contacts_fallback_to_chat head tail]. unfold one_fallback_contact. run_m.
  rewrite (proj1 (proj2 Hr)). cbn [negb]. rewrite Hrun.
  destruct (IH fps' ids' c1) as (c2 & Hrun2 & Hk2).
  - apply Hk.
  - destruct Hk as (_ & (_ & _ & _ & ->) & _). done.
  - eapply Forall3_impl; [exact Hrest|]. intros. by eapply resolves_mono.
  - rewrite Hrun2. exists c2. split; [done|by eapply knows_trans].
Qed.

Lemma to_and_past_ids_known mime tos to_fps to_ids pasts past_fps past_ids chat c self :
  contacts_wf c → self_fingerprint_opt c = Some self →
  chat_group_member_fingerprints to_uppercase mime = to_fps ++ past_fps →
  Forall3 (resolves c) tos to_fps to_ids → Forall3 (resolves c) pasts past_fps past_ids →
  ∃ c', get_to_and_past_contact_ids to_lowercase to_uppercase generated_fingerprint mime tos pasts
          (Some chat) c = (Ok (Some <$> to_ids, Some <$> past_ids), c') ∧ knows c c'.
Proof.
  intros Hwf Hself Hfps Hto Hpast. unfold get_to_and_past_contact_ids. rewrite Hfps.
  assert (length to_fps = length tos) as Hl by (symmetry; apply (Forall3_length_lm _ _ _ _ Hto)).
  assert (split_fingerprints (to_fps ++ past_fps) (length tos) = (to_fps, past_fps)) as ->.
  { unfold split_fingerprints. rewrite <-Hl. case_bool_decide as E.
    - by apply app_eq_nil in E as [-> ->].
    - rewrite length_app, (proj2 (Nat.leb_le _ _)) by lia.
      by rewrite take_app_length, drop_app_length. }
  run_m. destruct (key_contacts_known tos to_fps to_ids (gossiped_keys mime) Origin.Hidden c self)
    as (c1 & -> & Hk); try done.
  destruct (fallback_contacts_known pasts past_fps past_ids chat c1 self) as (c2 & -> & Hk2).
  - apply Hk.
  - destruct Hk as (_ & (_ & _ & _ & ->) & _). done.
  - eapply Forall3_impl; [exact Hpast|]. intros. by eapply resolves_mono.
  - exists c2. split; [done|by eapply knows_trans].
Qed.

End Known.
