(* ===== verification/MemberList.v ===== *)
(** MemberList: the recipients and member headers of an outgoing message
    (src/src/mimefactory.rs, src/src/pgp.rs), and what a receiving device makes of them. *)
From S2P Require Import Prelude Monad Ids Params ContactTools Membership Headers Db Contacts Recipients.
From stdpp Require Import list sorting.

(** ** Keys *)

Section Keys.
(** OpenPGP keys of the pgp crate, as far as the code looks into them: reading a certificate,
    its direct-key signatures, their verification and notations. *)
Context {Key Sig : Type} (from_slice : list N -> option Key)
  (direct_signatures : Key -> list Sig) (signature_is_valid : Key -> Sig -> bool)
  (notations : Sig -> list (str * list N)) (from_utf8 : list N -> option str)
  (to_lowercase : str -> str).

Definition RELAYS_NOTATION : str := lit "relays@chatmail.at".

(** The first notation of a signature that lists relays, as a readable text. *)
Definition relay_notation (sig : Sig) : option str :=
  head (omap (λ n : str * list N,
    if bool_decide (n.1 = RELAYS_NOTATION) then from_utf8 n.2 else None) (notations sig)).

(** [addresses_from_public_key]. *)
Definition addresses_from_public_key (key : Key) : option (list str) :=
  (λ value, take 3 (base.filter (λ s, may_be_valid_addr s = true) (split_char 44 value)))
    <$> head (omap (λ sig, if signature_is_valid key sig then relay_notation sig else None)
                (direct_signatures key)).

(** ** The loop over the member rows *)

(** A row of the query: the contact's columns, the two timestamps and the stored key. *)
Record recipient_row := {
  rr_authname : str;
  rr_addr : str;
  rr_fingerprint : str;
  rr_id : ContactId;
  rr_add : Z;
  rr_remove : Z;
  rr_key : option (list N)
}.

(** What the loop reads: whether names are attached, whether the message is encrypted, whether
    the recipients are hidden (and the message encrypted symmetrically), the address of the
    member a "member removed" message is about, the own address and key, and the time. *)
Record RenderEnv := {
  attach_profile_data : bool;
  is_encrypted : bool;
  hide_recipients : bool;
  email_to_remove : option str;
  from_addr : str;
  own_fingerprint : str;
  render_time : Z
}.

(** What the loop collects. *)
Record Recipients := {
  recipients : list str;
  to : list (str * str);
  past_members : list (str * str);
  member_fingerprints : list str;
  member_timestamps : list Z;
  past_member_timestamps : list Z;
  past_member_fingerprints : list str;
  keys : list (str * Key);
  missing_key_addresses : gset str;
  recipient_ids : gset N
}.

Definition Recipients_new : Recipients :=
  {| recipients := []; to := []; past_members := []; member_fingerprints := [];
     member_timestamps := []; past_member_timestamps := []; past_member_fingerprints := [];
     keys := []; missing_key_addresses := ∅; recipient_ids := ∅ |}.

Inductive RenderError :=
| BadKey
| MixedMembers
| MissingTimestamps
| MissingFingerprints
| IndexOutOfRange
| NoRecipientKeys.

(** [recipients_contain_addr]. *)
Definition recipients_contain_addr (l : list (str * str)) (addr : str) : bool :=
  existsb (λ cur : str * str, bool_decide (to_lowercase cur.2 = to_lowercase addr)) l.

Definition add_key (addr : str) (key : Key) (st : Recipients) : Recipients :=
  {| recipients := recipients st; to := to st; past_members := past_members st;
     member_fingerprints := member_fingerprints st; member_timestamps := member_timestamps st;
     past_member_timestamps := past_member_timestamps st;
     past_member_fingerprints := past_member_fingerprints st; keys := keys st ++ [(addr, key)];
     missing_key_addresses := missing_key_addresses st; recipient_ids := recipient_ids st |}.

Definition add_missing (addr : str) (st : Recipients) : Recipients :=
  {| recipients := recipients st; to := to st; past_members := past_members st;
     member_fingerprints := member_fingerprints st; member_timestamps := member_timestamps st;
     past_member_timestamps := past_member_timestamps st;
     past_member_fingerprints := past_member_fingerprints st; keys := keys st;
     missing_key_addresses := {[addr]} ∪ missing_key_addresses st;
     recipient_ids := recipient_ids st |}.

Definition add_recipients (l : list str) (st : Recipients) : Recipients :=
  {| recipients := recipients st ++ l; to := to st; past_members := past_members st;
     member_fingerprints := member_fingerprints st; member_timestamps := member_timestamps st;
     past_member_timestamps := past_member_timestamps st;
     past_member_fingerprints := past_member_fingerprints st; keys := keys st;
     missing_key_addresses := missing_key_addresses st; recipient_ids := recipient_ids st |}.

Definition add_recipient_id (id : N) (st : Recipients) : Recipients :=
  {| recipients := recipients st; to := to st; past_members := past_members st;
     member_fingerprints := member_fingerprints st; member_timestamps := member_timestamps st;
     past_member_timestamps := past_member_timestamps st;
     past_member_fingerprints := past_member_fingerprints st; keys := keys st;
     missing_key_addresses := missing_key_addresses st;
     recipient_ids := {[id]} ∪ recipient_ids st |}.

Definition push_member (entry : str * str) (fps : list str) (ts : Z) (st : Recipients)
  : Recipients :=
  {| recipients := recipients st; to := to st ++ [entry]; past_members := past_members st;
     member_fingerprints := member_fingerprints st ++ fps;
     member_timestamps := member_timestamps st ++ [ts];
     past_member_timestamps := past_member_timestamps st;
     past_member_fingerprints := past_member_fingerprints st; keys := keys st;
     missing_key_addresses := missing_key_addresses st; recipient_ids := recipient_ids st |}.

Definition push_past_member (entry : str * str) (fps : list str) (ts : Z) (st : Recipients)
  : Recipients :=
  {| recipients := recipients st; to := to st; past_members := past_members st ++ [entry];
     member_fingerprints := member_fingerprints st; member_timestamps := member_timestamps st;
     past_member_timestamps := past_member_timestamps st ++ [ts];
     past_member_fingerprints := past_member_fingerprints st ++ fps; keys := keys st;
     missing_key_addresses := missing_key_addresses st; recipient_ids := recipient_ids st |}.

(** The addresses to deliver to: the relays of the key, else the address itself; the key is
    remembered, or that there is none. *)
Definition relays_of (env : RenderEnv) (id : ContactId) (addr : str) (key : option Key)
  (st : Recipients) : list str * Recipients :=
  match key with
  | Some key => (default [addr] (addresses_from_public_key key), add_key addr key st)
  | None =>
      ([addr], if negb (id =? SELF)%N && negb (hide_recipients env) then add_missing addr st else st)
  end.

(** The fingerprint listed for a row; [None] is the error for a member without a key among
    members with keys. *)
Definition listed_fingerprint (env : RenderEnv) (row : recipient_row) (listed : list str)
  : option (list str) :=
  if is_encrypted env then
    if negb (bool_decide (rr_fingerprint row = [])) then Some [rr_fingerprint row]
    else if (rr_id row =? SELF)%N then Some [own_fingerprint env]
    else if bool_decide (listed = []) then Some [] else None
  else Some [].

(** One round of the loop. *)
Definition recipient_step (env : RenderEnv) (st : Recipients) (row : recipient_row)
  : result Recipients RenderError :=
  match (match rr_key row with None => Some None | Some b => Some <$> from_slice b end) with
  | None => Err BadKey
  | Some key =>
      let id := rr_id row in
      let addr := if (id =? SELF)%N then from_addr env else rr_addr row in
      let name := if attach_profile_data env then rr_authname row else [] in
      if (rr_remove row <=? rr_add row)%Z then
        let '(relays, st) := relays_of env id addr key st in
        if recipients_contain_addr (to st) addr then Ok (add_recipient_id id st)
        else
          let st := if (id =? SELF)%N then st else add_recipients relays st in
          if hide_recipients env then Ok (add_recipient_id id st)
          else
            match listed_fingerprint env row (member_fingerprints st) with
            | None => Err MixedMembers
            | Some fps => Ok (add_recipient_id id (push_member (name, addr) fps (rr_add row) st))
            end
      else if (render_time env <? sat_add (rr_remove row) (60 * 24 * 3600))%Z then
        if recipients_contain_addr (past_members st) addr then Ok st
        else
          let st :=
            if bool_decide (email_to_remove env = Some addr) then
              let '(relays, st) := relays_of env id addr key st in
              if (id =? SELF)%N then st else add_recipients relays st
            else st in
          if hide_recipients env then Ok st
          else
            match listed_fingerprint env row (past_member_fingerprints st) with
            | None => Err MixedMembers
            | Some fps => Ok (push_past_member (name, addr) fps (rr_remove row) st)
            end
      else Ok st
  end.

Fixpoint recipient_loop (env : RenderEnv) (st : Recipients) (rows : list recipient_row)
  : result Recipients RenderError :=
  match rows with
  | [] => Ok st
  | row :: rows' =>
      match recipient_step env st row with
      | Ok st' => recipient_loop env st' rows'
      | Err e => Err e
      end
  end.

(** [Iterator::position] and [Vec::remove]; removing at an index out of range panics. *)
Fixpoint position (f : str * str -> bool) (l : list (str * str)) : option nat :=
  match l with
  | [] => None
  | x :: l' => if f x then Some 0 else S <$> position f l'
  end.

Definition vec_remove {A} (i : nat) (l : list A) : option (list A) :=
  if (i <? length l)%nat then Some (take i l ++ drop (S i) l) else None.

(** What is left of the lists when the own address is taken out of the recipients, and the past
    members are appended. *)
Record MemberLists := {
  ml_to : list (str * str);
  ml_past : list (str * str);
  ml_timestamps : list Z;
  ml_fingerprints : list str
}.

Definition finish_lists (env : RenderEnv) (st : Recipients) : result MemberLists RenderError :=
  if (length (member_timestamps st) <? length (to st))%nat then Err MissingTimestamps
  else if negb (bool_decide (member_fingerprints st = []))
          && (length (member_fingerprints st) <? length (to st))%nat
  then Err MissingFingerprints
  else
    let done to timestamps fingerprints :=
      Ok {| ml_to := to; ml_past := past_members st;
            ml_timestamps := timestamps ++ past_member_timestamps st;
            ml_fingerprints := if is_encrypted env
                               then fingerprints ++ past_member_fingerprints st
                               else fingerprints |} in
    match (if (1 <? length (to st))%nat
           then position (λ x : str * str, bool_decide (x.2 = from_addr env)) (to st)
           else None) with
    | None => done (to st) (member_timestamps st) (member_fingerprints st)
    | Some i =>
        match vec_remove i (to st), vec_remove i (member_timestamps st),
              (if is_encrypted env then vec_remove i (member_fingerprints st)
               else Some (member_fingerprints st)) with
        | Some to, Some timestamps, Some fingerprints => done to timestamps fingerprints
        | _, _, _ => Err IndexOutOfRange
        end
    end.

(** The envelope: the addresses without a key are dropped from an encrypted message, which
    needs a key at least. *)
Definition encryption_pubkeys (env : RenderEnv) (st : Recipients)
  : result (list str * option (list (str * Key))) RenderError :=
  if negb (is_encrypted env) then Ok (recipients st, None)
  else if hide_recipients env then Ok (recipients st, Some [])
  else if bool_decide (length (keys st) = 0) && negb (bool_decide (recipients st = []))
  then Err NoRecipientKeys
  else Ok (base.filter (λ addr, addr ∉ missing_key_addresses st) (recipients st), Some (keys st)).

(** The branch of [MimeFactory::from_msg] for chats with members, from the rows of the query. *)
Definition render_recipients (env : RenderEnv) (rows : list recipient_row)
  : result (MemberLists * list str * option (list (str * Key)) * gset N) RenderError :=
  match recipient_loop env Recipients_new rows with
  | Err e => Err e
  | Ok st =>
      match finish_lists env st, encryption_pubkeys env st with
      | Ok lists, Ok (rcpts, ks) => Ok (lists, rcpts, ks, recipient_ids st ∖ {[SELF]})
      | Err e, _ => Err e
      | _, Err e => Err e
      end
  end.

End Keys.

(** The origins of the recipients are raised, except by messages that do not address the members
    as such. *)
Definition scale_up_recipients (cmd : SystemMessage.SystemMessage) (typ : Chattype.Chattype)
  (ids : gset N) : M unit :=
  when (negb (bool_decide (cmd ∈ [SystemMessage.MemberRemovedFromGroup;
                                  SystemMessage.SecurejoinMessage]))
        && negb (bool_decide (typ ∈ [Chattype.OutBroadcast; Chattype.InBroadcast])))
    (scaleup_origin (elements ids)
       (if bool_decide (size ids = 1) then Origin.OutgoingTo else Origin.IncomingTo)).

(** The query of [from_msg]: the rows of the chat, newest additions first; an error when a
    member's contact does not exist. *)
Definition later_added (a b : N * member_row) : Prop := (add_timestamp b.2 <= add_timestamp a.2)%Z.

#[export] Instance later_added_dec : RelDecision later_added.
Proof. intros a b. unfold later_added. apply _. Defined.

Definition member_rows (chat_id : ChatId) (typ : Chattype.Chattype) (public_keys : gmap str (list N))
  (c : Context) : option (list recipient_row) :=
  mapM (λ cm : N * member_row,
    r ← find_contact (λ r, (c_id r =? cm.1)%N) c;
    Some {| rr_authname := c_authname r; rr_addr := c_addr r; rr_fingerprint := c_fingerprint r;
            rr_id := c_id r; rr_add := add_timestamp cm.2; rr_remove := remove_timestamp cm.2;
            rr_key := public_keys !! c_fingerprint r |})
    (merge_sort later_added
       (omap (λ km : N * N * member_row,
          if (km.1.1 =? chat_id)%N
             && ((9 <? km.1.2)%N || ((km.1.2 =? SELF)%N && bool_decide (typ = Chattype.Group)))
          then Some (km.1.2, km.2) else None) (map_to_list (members c)))).

(** The member headers [MimeFactory::render] adds to a message of a group. *)
Definition member_headers (now : Z) (chat : Chat) (lists : MemberLists)
  : M (list (HeaderDef.HeaderDef * str)) :=
  if negb (bool_decide (chat_typ chat = Chattype.Group)) then ret []
  else
    stale <- (if bool_decide (ml_timestamps lists = []) then ret true
              else member_list_is_stale now chat) ;;
    ret ((if (stale : bool) then []
          else [(HeaderDef.ChatGroupMemberTimestamps,
                 Prelude.join [SP] (print_Z <$> ml_timestamps lists))])
         ++ (if bool_decide (ml_fingerprints lists = []) then []
             else [(HeaderDef.ChatGroupMemberFpr, Prelude.join [SP] (ml_fingerprints lists))])).

(** ** Lemmas: the loop *)

Section Loop.
Context {Key Sig : Type} (from_slice : list N -> option Key)
  (direct_signatures : Key -> list Sig) (signature_is_valid : Key -> Sig -> bool)
  (notations : Sig -> list (str * list N)) (from_utf8 : list N -> option str)
  (to_lowercase : str -> str) (env : RenderEnv).

Local Abbreviation loop := (recipient_loop from_slice direct_signatures signature_is_valid
  notations from_utf8 to_lowercase env).
Local Abbreviation step := (recipient_step from_slice direct_signatures signature_is_valid
  notations from_utf8 to_lowercase env).

(** The address, the fingerprint and the address-list entry of a row. *)
Definition addr_of (r : recipient_row) : str :=
  if (rr_id r =? SELF)%N then from_addr env else rr_addr r.
Definition fp_of (r : recipient_row) : str :=
  if bool_decide (rr_fingerprint r = []) then own_fingerprint env else rr_fingerprint r.
Definition entry_of (r : recipient_row) : str * str :=
  (if attach_profile_data env then rr_authname r else [], addr_of r).

Definition is_member (r : recipient_row) : bool := (rr_remove r <=? rr_add r)%Z.
Definition is_recent (r : recipient_row) : bool :=
  negb (is_member r) && (render_time env <? sat_add (rr_remove r) (60 * 24 * 3600))%Z.

Definition members_of (rows : list recipient_row) : list recipient_row :=
  base.filter (λ r, is_member r = true) rows.
Definition recent_of (rows : list recipient_row) : list recipient_row :=
  base.filter (λ r, is_recent r = true) rows.

(** The rows of a group of contacts with keys: readable keys, a fingerprint for everyone but the
    account itself, and no two members (or past members) with the same address. *)
Record proper_rows (rows : list recipient_row) : Prop := {
  pr_keys : Forall (λ r, match rr_key r with Some b => is_Some (from_slice b) | None => True end) rows;
  pr_fingerprints : Forall (λ r, rr_fingerprint r ≠ [] ∨ rr_id r = SELF) rows;
  pr_members : NoDup ((to_lowercase ∘ addr_of) <$> members_of rows);
  pr_recent : NoDup ((to_lowercase ∘ addr_of) <$> recent_of rows)
}.

Lemma contains_addr_spec l addr :
  recipients_contain_addr to_lowercase l addr = bool_decide (to_lowercase addr ∈ (to_lowercase ∘ snd) <$> l).
Proof.
  induction l as [|x l IH]; simpl; [done|]. rewrite IH.
  unfold compose at 2. simpl.
  destruct (decide (to_lowercase x.2 = to_lowercase addr)) as [E|E].
  - rewrite (bool_decide_eq_true_2 _ E). simpl. symmetry. apply bool_decide_eq_true_2.
    rewrite <-E. by left.
  - rewrite (bool_decide_eq_false_2 _ E). simpl. apply bool_decide_ext.
    rewrite elem_of_cons. split; [by right|intros [?|?]; [congruence|done]].
Qed.

(** Where the message of a row is delivered to: members, and the member a "member removed"
    message is about. *)
Definition key_of (r : recipient_row) : option Key := b ← rr_key r; from_slice b.
Definition relays (r : recipient_row) : list str :=
  match key_of r with
  | Some key => default [addr_of r] (addresses_from_public_key direct_signatures
                                       signature_is_valid notations from_utf8 key)
  | None => [addr_of r]
  end.
Definition delivered (r : recipient_row) : list str :=
  if negb (rr_id r =? SELF)%N
     && (is_member r || (is_recent r && bool_decide (email_to_remove env = Some (addr_of r))))
  then relays r else [].

(** What rows add to the lists, under the assumptions on the rows. *)
Definition lists_after (st st' : @Recipients Key) (rows : list recipient_row) : Prop :=
  let ms := members_of rows in
  let ps := recent_of rows in
  to st' = to st ++ (entry_of <$> ms)
  ∧ member_fingerprints st' = member_fingerprints st ++ (fp_of <$> ms)
  ∧ member_timestamps st' = member_timestamps st ++ (rr_add <$> ms)
  ∧ past_members st' = past_members st ++ (entry_of <$> ps)
  ∧ past_member_fingerprints st' = past_member_fingerprints st ++ (fp_of <$> ps)
  ∧ past_member_timestamps st' = past_member_timestamps st ++ (rr_remove <$> ps)
  ∧ recipients st' = recipients st ++ concat (delivered <$> rows).

Hypothesis Henc : is_encrypted env = true.
Hypothesis Hshow : hide_recipients env = false.

Lemma listed_fingerprint_some r listed :
  rr_fingerprint r ≠ [] ∨ rr_id r = SELF → listed_fingerprint env r listed = Some [fp_of r].
Proof.
  intros H. unfold listed_fingerprint, fp_of. rewrite Henc.
  destruct (bool_decide (rr_fingerprint r = [])) eqn:E; [|done].
  apply bool_decide_eq_true in E. destruct H as [H|H]; [done|]. simpl. by rewrite H.
Qed.

Lemma relays_of_lists r (st : @Recipients Key) :
  ∃ st', relays_of direct_signatures signature_is_valid notations from_utf8 env (rr_id r)
           (addr_of r) (key_of r) st = (relays r, st')
    ∧ to st' = to st ∧ member_fingerprints st' = member_fingerprints st
    ∧ member_timestamps st' = member_timestamps st ∧ past_members st' = past_members st
    ∧ past_member_fingerprints st' = past_member_fingerprints st
    ∧ past_member_timestamps st' = past_member_timestamps st
    ∧ recipients st' = recipients st.
Proof.
  unfold relays_of, relays. destruct (key_of r); [|destruct (_ && _)];
    eexists; (split; [reflexivity|]); done.
Qed.

Lemma recipient_step_lists st r :
  match rr_key r with Some b => is_Some (from_slice b) | None => True end →
  rr_fingerprint r ≠ [] ∨ rr_id r = SELF →
  (is_member r = true → to_lowercase (addr_of r) ∉ (to_lowercase ∘ snd) <$> to st) →
  (is_recent r = true → to_lowercase (addr_of r) ∉ (to_lowercase ∘ snd) <$> past_members st) →
  ∃ st', step st r = Ok st' ∧ lists_after st st' [r].
Proof.
  intros Hk Hf Hm Hp. unfold recipient_step.
  assert (match rr_key r with None => Some None | Some b => Some <$> from_slice b end = Some (key_of r))
    as ->.
  { unfold key_of. destruct (rr_key r) as [b|]; [|done]. simpl. by destruct Hk as [k ->]. }
  unfold lists_after, members_of, recent_of. rewrite !filter_cons.
  cbn [fmap list_fmap concat]. unfold delivered.
  cbv beta iota zeta. fold (addr_of r). fold (is_member r).
  destruct (relays_of_lists r st) as (st1 & -> & Hto & Hfp & Hts & Hpa & Hpf & Hpt & Hrc).
  unfold is_recent in *. destruct (is_member r); cbn [negb andb orb] in *.
  - rewrite Hto, contains_addr_spec, bool_decide_eq_false_2 by auto. rewrite Hshow.
    rewrite listed_fingerprint_some by done. eexists. split; [reflexivity|].
    destruct (rr_id r =? SELF)%N; unfold entry_of; simpl;
      rewrite ?app_nil_r, ?Hto, ?Hfp, ?Hts, ?Hpa, ?Hpf, ?Hpt, ?Hrc; done.
  - destruct (render_time env <? _)%Z; cbn [negb andb] in *.
    + rewrite contains_addr_spec, bool_decide_eq_false_2 by auto. rewrite Hshow.
      rewrite listed_fingerprint_some by done. eexists. split; [reflexivity|].
      destruct (bool_decide (email_to_remove env = _)); destruct (rr_id r =? SELF)%N;
        unfold entry_of; simpl;
        rewrite ?app_nil_r, ?Hto, ?Hfp, ?Hts, ?Hpa, ?Hpf, ?Hpt, ?Hrc; done.
    + eexists. split; [reflexivity|]. rewrite andb_false_r. simpl. by rewrite !app_nil_r.
Qed.

Lemma recipient_loop_lists rows st :
  Forall (λ r, match rr_key r with Some b => is_Some (from_slice b) | None => True end) rows →
  Forall (λ r, rr_fingerprint r ≠ [] ∨ rr_id r = SELF) rows →
  NoDup (((to_lowercase ∘ snd) <$> to st) ++ ((to_lowercase ∘ addr_of) <$> members_of rows)) →
  NoDup (((to_lowercase ∘ snd) <$> past_members st) ++ ((to_lowercase ∘ addr_of) <$> recent_of rows)) →
  ∃ st', loop st rows = Ok st' ∧ lists_after st st' rows.
Proof.
  intros Hk. revert st. induction Hk as [|r rows Hk _ IH]; intros st Hf Hm Hp.
  { exists st. split; [done|]. unfold lists_after. simpl. by rewrite !app_nil_r. }
  apply Forall_cons in Hf as [Hf Hfs]. unfold members_of, recent_of in Hm, Hp.
  rewrite !filter_cons in Hm, Hp.
  destruct (recipient_step_lists st r Hk Hf) as (st1 & Hs & H1 & H2 & H3 & H4 & H5 & H6 & H7).
  { intros E. rewrite decide_True in Hm by done. rewrite fmap_cons in Hm.
    apply NoDup_app in Hm as (_ & Hd & _). intros Hin. apply (Hd _ Hin). by left. }
  { intros E. rewrite decide_True in Hp by done. rewrite fmap_cons in Hp.
    apply NoDup_app in Hp as (_ & Hd & _). intros Hin. apply (Hd _ Hin). by left. }
  cbn [recipient_loop]. rewrite Hs.
  unfold members_of, recent_of in H1, H2, H3, H4, H5, H6. rewrite !filter_cons in H1, H2, H3, H4, H5, H6.
  destruct (IH st1 Hfs) as (st' & Hl & G1 & G2 & G3 & G4 & G5 & G6 & G7).
  - rewrite H1, fmap_app, <-app_assoc. by destruct (is_member r).
  - rewrite H4, fmap_app, <-app_assoc. by destruct (is_recent r).
  - exists st'. split; [done|]. unfold lists_after.
    rewrite G1, G2, G3, G4, G5, G6, G7, H1, H2, H3, H4, H5, H6, H7.
    unfold members_of, recent_of. rewrite !filter_cons. cbn [fmap list_fmap concat].
    rewrite app_nil_r, <-!app_assoc.
    destruct (is_member r), (is_recent r); done.
Qed.

(** Taking out the own address takes its entry out of every list. *)
Definition others (ms : list recipient_row) : list recipient_row :=
  base.filter (λ r, addr_of r ≠ from_addr env) ms.

Lemma others_id ms : from_addr env ∉ addr_of <$> ms → others ms = ms.
Proof.
  intros H. unfold others. induction ms as [|r ms IH]; [done|].
  rewrite fmap_cons, not_elem_of_cons in H. rewrite filter_cons, decide_True by (apply not_eq_sym, H).
  by rewrite IH by apply H.
Qed.

Lemma vec_remove_S {A} i (x : A) l : vec_remove (S i) (x :: l) = cons x <$> vec_remove i l.
Proof. unfold vec_remove. simpl. change (S i <? S (length l))%nat with (i <? length l)%nat. by destruct (_ <? _)%nat. Qed.

Lemma own_position (ms : list recipient_row) :
  NoDup (addr_of <$> ms) →
  match position (λ x, bool_decide (x.2 = from_addr env)) (entry_of <$> ms) with
  | Some i => ∀ B (f : recipient_row -> B), vec_remove i (f <$> ms) = Some (f <$> others ms)
  | None => others ms = ms
  end.
Proof.
  induction ms as [|r ms IH]; intros Hnd; [done|]. rewrite fmap_cons in Hnd.
  apply list.NoDup_cons in Hnd as [Hr Hnd]. cbn [position fmap list_fmap]. simpl.
  destruct (decide (addr_of r = from_addr env)) as [E|E].
  - rewrite bool_decide_eq_true_2 by done. intros B f. unfold vec_remove. simpl.
    unfold others. rewrite filter_cons, decide_False by (by intros []).
    fold (others ms). by rewrite others_id, ?drop_0 by congruence.
  - rewrite bool_decide_eq_false_2 by done. unfold others in *. rewrite filter_cons, decide_True by done.
    specialize (IH Hnd). destruct (position _ _); simpl.
    + intros B f. by rewrite vec_remove_S, IH.
    + by rewrite IH.
Qed.

(** The members listed as recipients. *)
Definition listed_of (rows : list recipient_row) : list recipient_row :=
  if (1 <? length (members_of rows))%nat then others (members_of rows) else members_of rows.

Lemma finish_lists_spec rows (st : @Recipients Key) :
  NoDup (addr_of <$> members_of rows) →
  lists_after Recipients_new st rows →
  finish_lists env st
  = Ok {| ml_to := entry_of <$> listed_of rows; ml_past := entry_of <$> recent_of rows;
          ml_timestamps := (rr_add <$> listed_of rows) ++ (rr_remove <$> recent_of rows);
          ml_fingerprints := fp_of <$> listed_of rows ++ recent_of rows |}.
Proof.
  intros Hnd (H1 & H2 & H3 & H4 & H5 & H6 & _). simpl in *. unfold finish_lists.
  rewrite H1, H2, H3, H4, H5, H6, Henc, !length_fmap, fmap_app, Nat.ltb_irrefl, andb_false_r.
  unfold listed_of. destruct (1 <? length (members_of rows))%nat; [|done].
  pose proof (own_position (members_of rows) Hnd) as Hp.
  destruct (position _ _); [by rewrite !Hp|by rewrite Hp].
Qed.

End Loop.

(** ** Lemmas: the header of timestamps *)

Lemma print_Z_word z : (0 <= z)%Z → print_Z z ≠ [] ∧ Forall word_char (print_Z z).
Proof.
  intros Hz. unfold print_Z. rewrite (proj2 (Z.ltb_ge _ _)) by lia. split.
  - destruct (print_N_head (Z.to_N z)) as (c & s & -> & _). done.
  - unfold print_N. eapply Forall_impl; [apply print_digits_Forall|]. intros c Hc.
    unfold is_digit in Hc. apply andb_true_iff in Hc as [H1%N.leb_le H2%N.leb_le].
    unfold word_char, is_ascii_whitespace. rewrite !(proj2 (N.eqb_neq _ _)) by lia. done.
Qed.

Lemma timestamps_roundtrip now tolerance tss m :
  Forall (λ z, 0 <= z <= now + tolerance)%Z tss → (now + tolerance <= i64_max)%Z →
  get_header m HeaderDef.ChatGroupMemberTimestamps = Some (Prelude.join [SP] (print_Z <$> tss)) →
  chat_group_member_timestamps now tolerance m = Some tss.
Proof.
  intros Ht Hn Hh. unfold chat_group_member_timestamps. rewrite Hh. cbn [fmap option_fmap option_map].
  f_equal. rewrite split_join_words.
  - clear Hh. induction Ht as [|z tss Hz _ IH]; [done|]. csimpl.
    rewrite parse_print_i64.
    + csimpl. rewrite IH, Z.min_r by lia. done.
    + unfold in_i64, i64_min, i64_max in *. zcompare; lia.
  - apply Forall_fmap. eapply Forall_impl; [exact Ht|]. intros z [Hz _]. by apply print_Z_word.
Qed.

(** ** Lemmas: merging a list with one entry per contact *)

Section Merge.
Context {A : Type} (rid : A -> N) (ch : A -> option change).
Hypothesis Hch : ∀ a x, ch a = Some x → ch_contact x = rid a.

Local Abbreviation at_contact y := (omap (λ x, if decide (ch_contact x = y)
  then Some (Some (ch_stamp x)) else None)).

Lemma merge_absent y l : y ∉ rid <$> l → at_contact y (omap ch l) = [].
Proof.
  induction l as [|a l IH]; intros H; [done|]. rewrite fmap_cons, not_elem_of_cons in H.
  destruct H as [Hne H]. csimpl. destruct (ch a) as [x|] eqn:E; csimpl; [|by apply IH].
  rewrite decide_False by (rewrite (Hch _ _ E); congruence). by apply IH.
Qed.

Lemma merge_present a x l :
  NoDup (rid <$> l) → a ∈ l → ch a = Some x →
  at_contact (rid a) (omap ch l) = [Some (ch_stamp x)].
Proof.
  intros Hnd Ha Hx. induction l as [|b l IH]; [by apply not_elem_of_nil in Ha|].
  rewrite fmap_cons in Hnd. apply list.NoDup_cons in Hnd as [Hb Hnd]. csimpl.
  apply elem_of_cons in Ha as [->|Ha].
  - rewrite Hx. csimpl. rewrite decide_True by (by apply Hch). by rewrite merge_absent.
  - assert (rid b ≠ rid a) as Hne.
    { intros E. apply Hb. rewrite E. apply list_elem_of_fmap. eauto. }
    destruct (ch b) as [y|] eqn:E; csimpl; [|by apply IH].
    rewrite decide_False by (by rewrite (Hch _ _ E)). by apply IH.
Qed.

End Merge.

Lemma zip_fmap {A B C} (f : A -> B) (g : A -> C) l : zip (f <$> l) (g <$> l) = (λ x, (f x, g x)) <$> l.
Proof. induction l; csimpl; congruence. Qed.

Lemma omap_fmap_list {A B C} (f : B -> option C) (g : A -> B) (l : list A) :
  omap f (g <$> l) = omap (λ x, f (g x)) l.
Proof. induction l as [|a l IH]; [done|]. csimpl. destruct (f (g a)); by rewrite IH. Qed.

Lemma elem_of_concat_fmap {A B} (f : A -> list B) l b :
  b ∈ concat (f <$> l) ↔ ∃ a, a ∈ l ∧ b ∈ f a.
Proof.
  induction l as [|a l IH]; csimpl.
  - split; [by intros ?%not_elem_of_nil|by intros (a & ?%not_elem_of_nil & _)].
  - rewrite elem_of_app, IH. split.
    + intros [H|(x & ? & ?)]; [exists a|exists x]; rewrite elem_of_cons; auto.
    + intros (x & [-> |Hx]%elem_of_cons & Hb); eauto.
Qed.

(** ** Properties *)

Section Exchange.
Context {Key Sig : Type} (from_slice : list N -> option Key)
  (direct_signatures : Key -> list Sig) (signature_is_valid : Key -> Sig -> bool)
  (notations : Sig -> list (str * list N)) (from_utf8 : list N -> option str)
  (to_lowercase : str -> str) (env : RenderEnv).

Local Abbreviation loop := (recipient_loop from_slice direct_signatures signature_is_valid
  notations from_utf8 to_lowercase env).

Lemma proper_addresses rows :
  proper_rows from_slice to_lowercase env rows → NoDup (addr_of env <$> members_of rows).
Proof.
  intros H. pose proof (pr_members _ _ _ _ H) as Hm. rewrite list_fmap_compose in Hm.
  by eapply NoDup_fmap_1.
Qed.

Lemma member_lists_run rows :
  is_encrypted env = true → hide_recipients env = false →
  proper_rows from_slice to_lowercase env rows →
  ∃ st, loop Recipients_new rows = Ok st
    ∧ finish_lists env st
      = Ok {| ml_to := entry_of env <$> listed_of env rows;
              ml_past := entry_of env <$> recent_of env rows;
              ml_timestamps := (rr_add <$> listed_of env rows) ++ (rr_remove <$> recent_of env rows);
              ml_fingerprints := fp_of env <$> listed_of env rows ++ recent_of env rows |}
    ∧ recipients st = concat (delivered from_slice direct_signatures signature_is_valid notations
                                from_utf8 env <$> rows).
Proof.
  intros He Hs Hp. destruct (recipient_loop_lists from_slice direct_signatures signature_is_valid
    notations from_utf8 to_lowercase env He Hs rows Recipients_new) as (st & Hrun & Hl).
  - apply Hp.
  - apply Hp.
  - apply Hp.
  - apply Hp.
  - exists st. split; [done|]. split; [|by apply Hl].
    eapply finish_lists_spec; [done|by apply proper_addresses|exact Hl].
Qed.

(** The member lists of an encrypted message are aligned: the recipients are the members,
    without the own address unless it is the only one, and the past members those removed in
    the last 60 days; the lists of timestamps and fingerprints hold the entry of each of them at
    its position, recipients first. The message is delivered to every other member, at the
    relays of its key if it names some, and to the member it removes. *)
Theorem member_lists_aligned rows :
  is_encrypted env = true → hide_recipients env = false →
  proper_rows from_slice to_lowercase env rows →
  ∃ st, loop Recipients_new rows = Ok st
    ∧ finish_lists env st
      = Ok {| ml_to := entry_of env <$> listed_of env rows;
              ml_past := entry_of env <$> recent_of env rows;
              ml_timestamps := (rr_add <$> listed_of env rows) ++ (rr_remove <$> recent_of env rows);
              ml_fingerprints := fp_of env <$> listed_of env rows ++ recent_of env rows |}
    ∧ (∀ a, a ∈ recipients st ↔
         ∃ r, r ∈ rows ∧ rr_id r ≠ SELF
           ∧ (is_member r = true
              ∨ is_recent env r = true ∧ email_to_remove env = Some (addr_of env r))
           ∧ a ∈ relays from_slice direct_signatures signature_is_valid notations from_utf8 env r).
Proof.
  intros He Hs Hp. destruct (member_lists_run rows He Hs Hp) as (st & H1 & H2 & H3).
  exists st. split_and!; [done..|]. intros a. rewrite H3, elem_of_concat_fmap.
  unfold delivered. split.
  - intros (r & Hr & Ha). destruct (N.eqb_spec (rr_id r) SELF); [by apply not_elem_of_nil in Ha|].
    exists r. destruct (is_member r); simpl in Ha; [by auto|]. destruct (is_recent env r); simpl in Ha.
    + case_bool_decide; [by split_and!; auto|by apply not_elem_of_nil in Ha].
    + by apply not_elem_of_nil in Ha.
  - intros (r & Hr & Hid & Hm & Ha). exists r. split; [done|].
    rewrite (proj2 (N.eqb_neq _ _) Hid). simpl.
    destruct Hm as [-> |[-> ->]]; [done|]. by rewrite bool_decide_eq_true_2, orb_true_r.
Qed.

(** ** The receiving side *)

(** What a row tells about its contact. *)
Definition told (r : recipient_row) : stamp :=
  row_stamp {| add_timestamp := rr_add r; remove_timestamp := rr_remove r |}.

Definition told_rows (rows : list recipient_row) : list recipient_row :=
  listed_of env rows ++ recent_of env rows.

Lemma listed_members r rows : r ∈ listed_of env rows → is_member r = true.
Proof.
  unfold listed_of, others, members_of. destruct (1 <? _)%nat; rewrite !list_elem_of_filter; tauto.
Qed.

Lemma recent_not_members r rows : r ∈ recent_of env rows → is_member r = false.
Proof.
  unfold recent_of, is_recent. rewrite list_elem_of_filter. intros [H _].
  by destruct (is_member r).
Qed.

Lemma told_rows_rows r rows : r ∈ told_rows rows → r ∈ rows.
Proof.
  unfold told_rows, listed_of, others, members_of, recent_of.
  rewrite elem_of_app. destruct (1 <? _)%nat; rewrite !list_elem_of_filter; tauto.
Qed.

Lemma listed_not_nil rows :
  NoDup (addr_of env <$> members_of rows) → members_of rows ≠ [] → listed_of env rows ≠ [].
Proof.
  intros Hnd Hne. unfold listed_of. destruct (1 <? _)%nat eqn:E; [|done].
  destruct (members_of rows) as [|a [|b l]]; [done..|]. rewrite !fmap_cons in Hnd.
  apply list.NoDup_cons in Hnd as [Ha _]. apply not_elem_of_cons in Ha as [Hab _].
  unfold others. rewrite !filter_cons. destruct (decide (addr_of env a ≠ from_addr env)) as [|Ea]; [done|].
  rewrite decide_True; [done|]. apply dec_stable in Ea. congruence.
Qed.

(** The change a row causes on the receiving device. *)
Definition change_of (rid : recipient_row -> N) (from : ContactId) (r : recipient_row)
  : option change :=
  if is_member r && bool_decide (rid r = from) then None
  else Some {| ch_contact := rid r; ch_stamp := told r |}.

Definition received_header (rid : recipient_row -> N) (from : ContactId)
  (rows : list recipient_row) : member_header :=
  {| hd_ignored := Some from; hd_to := Some <$> (rid <$> listed_of env rows);
     hd_past := Some <$> (rid <$> recent_of env rows);
     hd_timestamps := (rr_add <$> listed_of env rows) ++ (rr_remove <$> recent_of env rows) |}.

Lemma told_member r : is_member r = true → told r = (rr_add r, true).
Proof.
  unfold is_member, told, row_stamp, row_is_member. simpl. intros H. rewrite H.
  apply Z.leb_le in H. by rewrite Z.max_l.
Qed.

Lemma told_past r : is_member r = false → told r = (rr_remove r, false).
Proof.
  unfold is_member, told, row_stamp, row_is_member. simpl. intros H. rewrite H.
  apply Z.leb_gt in H. rewrite Z.max_r by lia. done.
Qed.

Lemma received_changes rid from rows :
  header_changes (received_header rid from rows) = omap (change_of rid from) (told_rows rows).
Proof.
  unfold header_changes. simpl. rewrite !length_app, !length_fmap, Nat.eqb_refl.
  rewrite take_app_length' by (by rewrite length_fmap).
  rewrite drop_app_length' by (by rewrite length_fmap).
  rewrite <-!list_fmap_compose, !zip_fmap. unfold told_rows. rewrite omap_app. f_equal.
  - unfold added_changes. rewrite omap_fmap_list. apply list_omap_ext, Forall_Forall2_diag.
    apply Forall_forall. intros r Hr%listed_members. unfold change_of. rewrite Hr, told_member by done.
    simpl. destruct (decide (rid r = from)) as [E|E].
    + rewrite (bool_decide_eq_true_2 _ E), bool_decide_eq_false_2; [done|]. intros []. congruence.
    + rewrite (bool_decide_eq_false_2 _ E), bool_decide_eq_true_2 by congruence. done.
  - unfold removed_changes. rewrite omap_fmap_list. apply list_omap_ext, Forall_Forall2_diag.
    apply Forall_forall. intros r Hr%recent_not_members. unfold change_of. by rewrite Hr, told_past.
Qed.

Lemma received_valid rid from rows :
  Forall (λ r, 0 <= rr_add r ∧ 0 <= rr_remove r)%Z rows →
  valid_header (received_header rid from rows).
Proof.
  intros Hts. unfold valid_header. rewrite received_changes. apply Forall_forall.
  intros x (r & Hr & Hx)%list_elem_of_omap. unfold change_of in Hx.
  destruct (_ && _); [done|]. injection Hx as <-. unfold valid_change. cbn [ch_stamp].
  rewrite Forall_forall in Hts. destruct (Hts r) as [Ha Hb]; [by apply told_rows_rows|].
  destruct (is_member r) eqn:E.
  - by rewrite told_member.
  - rewrite told_past by done. unfold is_member in E. apply Z.leb_gt in E. lia.
Qed.

Lemma received_stamps rid from rows chat t y :
  Forall (λ r, 0 <= rr_add r ∧ 0 <= rr_remove r)%Z rows →
  table_stamp (apply_header chat t (received_header rid from rows)) (chat, y)
  = foldl lww_join (table_stamp t (chat, y))
      (omap (λ x, if decide (ch_contact x = y) then Some (Some (ch_stamp x)) else None)
         (omap (change_of rid from) (told_rows rows))).
Proof.
  intros Hts. rewrite apply_header_changes, apply_changes_stamp by (by apply received_valid).
  rewrite received_changes. f_equal. apply list_omap_ext, Forall_Forall2_diag, Forall_true.
  intros x. destruct (decide (ch_contact x = y)) as [->|Hne]; [by rewrite decide_True|].
  rewrite decide_False; [done|]. intros [=]. done.
Qed.

(** Every listed contact but the sender gets the sender's stamp joined in, the others stay. *)
Lemma received_told rid from rows chat t :
  Forall (λ r, 0 <= rr_add r ∧ 0 <= rr_remove r)%Z rows → NoDup (rid <$> told_rows rows) →
  let t' := apply_header chat t (received_header rid from rows) in
  (∀ r, r ∈ told_rows rows → rid r ≠ from →
     table_stamp t' (chat, rid r) = lww_join (table_stamp t (chat, rid r)) (Some (told r)))
  ∧ (∀ y, y ∉ rid <$> told_rows rows → table_stamp t' (chat, y) = table_stamp t (chat, y)).
Proof.
  intros Hts Hnd t'.
  assert (∀ r x, change_of rid from r = Some x → ch_contact x = rid r) as Hch.
  { intros r x. unfold change_of. destruct (_ && _); [done|]. by intros [= <-]. }
  split.
  - intros r Hr Hne. unfold t'. rewrite received_stamps by done.
    rewrite (merge_present rid _ Hch r {| ch_contact := rid r; ch_stamp := told r |}); [done..|].
    unfold change_of. by rewrite (bool_decide_eq_false_2 _ Hne), andb_false_r.
  - intros y Hy. unfold t'. rewrite received_stamps by done. by rewrite (merge_absent rid _ Hch).
Qed.

(** The rows of the query tell what the table tells. *)
Lemma member_rows_told chat typ public_keys cs rs r :
  member_rows chat typ public_keys cs = Some rs → r ∈ rs →
  table_stamp (members cs) (chat, rr_id r) = Some (told r).
Proof.
  unfold member_rows. intros H%mapM_Some Hr.
  apply list_elem_of_lookup in Hr as [i Hi].
  destruct (Forall2_lookup_r _ _ _ _ _ H Hi) as ([x m] & Hx & Hf). simpl in Hf.
  destruct (find_contact _ cs) as [ct|] eqn:Hc; [|done]. injection Hf as <-.
  apply find_contact_Some in Hc as [_ Hid%N.eqb_eq]. simpl in *. subst x.
  apply list_elem_of_lookup_2 in Hx. rewrite merge_sort_Permutation in Hx.
  apply list_elem_of_omap in Hx as ([[c y] m'] & Hin%elem_of_map_to_list & Hx). simpl in Hx.
  destruct (N.eqb_spec c chat) as [->|]; [|done]. destruct (_ && _); [|done].
  injection Hx as -> ->. unfold table_stamp. rewrite Hin. simpl. by destruct m.
Qed.

(** A member list as it leaves the sending device: the rows of the query, in any order SQLite
    may give to rows of the same time, none of the times in the future of the receiving device,
    and the headers made of them. *)
Record sent (now_s now : Z) (chat_s : Chat) (cs : Context) (public_keys : gmap str (list N))
  (rows : list recipient_row) (mime : MimeMessage) : Prop := {
  sent_rows : ∃ rs, member_rows (chat_id chat_s) (chat_typ chat_s) public_keys cs = Some rs
                    ∧ rows ≡ₚ rs;
  sent_encrypted : is_encrypted env = true;
  sent_shown : hide_recipients env = false;
  sent_proper : proper_rows from_slice to_lowercase env rows;
  sent_members : members_of rows ≠ [];
  sent_times : Forall (λ r, 0 <= rr_add r <= now + TIMESTAMP_SENT_TOLERANCE
                           ∧ 0 <= rr_remove r <= now + TIMESTAMP_SENT_TOLERANCE)%Z rows;
  sent_now : (now + TIMESTAMP_SENT_TOLERANCE <= i64_max)%Z;
  sent_group : chat_typ chat_s = Chattype.Group;
  sent_fresh : (member_list_is_stale now_s chat_s cs).1 = Ok false;
  sent_headers : ∃ st lists hs, loop Recipients_new rows = Ok st ∧ finish_lists env st = Ok lists
    ∧ (member_headers now_s chat_s lists cs).1 = Ok hs
    ∧ ∀ h v, (h, v) ∈ hs → get_header mime h = Some v
}.

(** The two address lists arrive in order, and the receiving device knows a contact for each
    of the keys. *)
Record known (c : Context) (rows : list recipient_row) (kf : recipient_row -> Fingerprint)
  (rid : recipient_row -> N) (tos pasts : list SingleInfo) : Prop := {
  known_wf : contacts_wf c;
  known_self : is_Some (self_fingerprint_opt c);
  known_keys : Forall (λ r, fp_of env r = hex (kf r)) (told_rows rows);
  known_to : Forall2 (λ r info, resolves to_lowercase c info (kf r) (rid r))
               (listed_of env rows) tos;
  known_past : Forall2 (λ r info, resolves to_lowercase c info (kf r) (rid r))
                 (recent_of env rows) pasts;
  known_distinct : NoDup (rid <$> told_rows rows)
}.

(** The two headers as the receiving device reads them. *)
Lemma sent_header_values now_s now chat_s cs public_keys rows mime :
  sent now_s now chat_s cs public_keys rows mime →
  get_header mime HeaderDef.ChatGroupMemberTimestamps
    = Some (Prelude.join [SP] (print_Z <$>
        (rr_add <$> listed_of env rows) ++ (rr_remove <$> recent_of env rows)))
  ∧ get_header mime HeaderDef.ChatGroupMemberFpr
    = Some (Prelude.join [SP] (fp_of env <$> told_rows rows)).
Proof.
  intros [_ He Hs Hp Hm _ _ Hg Hf (st & lists & hs & Hl & Hfin & Hhs & Hget)].
  destruct (member_lists_run rows He Hs Hp) as (st' & Hl' & Hfin' & _).
  rewrite Hl in Hl'. injection Hl' as <-. rewrite Hfin in Hfin'. injection Hfin' as ->.
  pose proof (listed_not_nil rows (proper_addresses rows Hp) Hm) as Hne.
  unfold member_headers in Hhs. rewrite Hg, (bool_decide_eq_true_2 (Chattype.Group = _)) in Hhs by done.
  revert Hhs. cbn [negb ml_timestamps ml_fingerprints]. unfold bind at 1, ret.
  rewrite bool_decide_eq_false_2; [|by destruct (listed_of env rows)].
  destruct (member_list_is_stale now_s chat_s cs) as [b cs']. simpl in Hf. subst b. cbn [fst].
  rewrite bool_decide_eq_false_2; [|by destruct (listed_of env rows)].
  intros [= <-]. split; apply Hget; rewrite !elem_of_cons; auto.
Qed.

Lemma resolved_ids c (kf : recipient_row -> Fingerprint) (rid : recipient_row -> N) l infos :
  Forall2 (λ r info, resolves to_lowercase c info (kf r) (rid r)) l infos →
  Forall3 (resolves to_lowercase c) infos (kf <$> l) (rid <$> l).
Proof. induction 1; csimpl; by constructor. Qed.

Lemma resolved_valid c (kf : recipient_row -> Fingerprint) (rid : recipient_row -> N) l infos :
  Forall2 (λ r info, resolves to_lowercase c info (kf r) (rid r)) l infos →
  Forall (λ r, valid_fingerprint (kf r)) l.
Proof. induction 1 as [|r info l infos [Hv _] _ IH]; by constructor. Qed.

Lemma known_fingerprints c rows kf rid tos pasts :
  known c rows kf rid tos pasts → Forall valid_fingerprint (kf <$> told_rows rows).
Proof.
  intros H. apply Forall_fmap, Forall_app. split; eapply resolved_valid; apply H.
Qed.

(** What a received member list is matched to: the receiving device looks up the right contact for
    every listed member and past member, and reads the times the sender wrote; merging them joins
    in what the sender knows. *)
Lemma member_headers_matched to_uppercase gen now_s now chat_s cs public_keys rows mime c kf rid
  tos pasts chat from :
  upper_fixes_capitals to_uppercase →
  sent now_s now chat_s cs public_keys rows mime → known c rows kf rid tos pasts →
  ∃ c', get_to_and_past_contact_ids to_lowercase to_uppercase gen mime tos pasts (Some chat) c
        = (Ok (Some <$> (rid <$> listed_of env rows), Some <$> (rid <$> recent_of env rows)), c')
    ∧ knows c c'
    ∧ chat_group_member_timestamps now TIMESTAMP_SENT_TOLERANCE mime
      = Some ((rr_add <$> listed_of env rows) ++ (rr_remove <$> recent_of env rows))
    ∧ let t' := apply_header chat (members c) (received_header rid from rows) in
      (∀ r, r ∈ told_rows rows → rid r ≠ from →
         table_stamp t' (chat, rid r)
         = lww_join (table_stamp (members c) (chat, rid r))
             (table_stamp (members cs) (chat_id chat_s, rr_id r)))
      ∧ (∀ y, y ∉ rid <$> told_rows rows →
           table_stamp t' (chat, y) = table_stamp (members c) (chat, y)).
Proof.
  intros Hup Hsent Hk. destruct (sent_header_values _ _ _ _ _ _ _ Hsent) as [Hh1 Hh2].
  destruct (known_self _ _ _ _ _ _ Hk) as [self Hself].
  destruct (to_and_past_ids_known to_lowercase to_uppercase gen mime tos (kf <$> listed_of env rows)
    (rid <$> listed_of env rows) pasts (kf <$> recent_of env rows) (rid <$> recent_of env rows)
    chat c self) as (c' & Hrun & Hkn).
  { apply Hk. }
  { done. }
  { rewrite <-fmap_app. apply (fingerprints_roundtrip _ Hup); [by eapply known_fingerprints|].
    rewrite Hh2. do 2 f_equal. rewrite <-list_fmap_compose. apply list_fmap_ext. intros i r Hr.
    pose proof (known_keys _ _ _ _ _ _ Hk) as Hkeys. rewrite Forall_forall in Hkeys.
    apply Hkeys. by eapply list_elem_of_lookup_2. }
  { by apply resolved_ids, Hk. }
  { by apply resolved_ids, Hk. }
  exists c'. pose proof (sent_times _ _ _ _ _ _ _ Hsent) as Hts. rewrite Forall_forall in Hts.
  split; [done|]. split; [done|]. split.
  { apply timestamps_roundtrip; [|by apply Hsent|done]. apply Forall_app. split;
      apply Forall_fmap, Forall_forall; intros r Hr; apply Hts, told_rows_rows, elem_of_app; auto. }
  destruct (received_told rid from rows chat (members c)) as [Ht1 Ht2]; [|by apply Hk|].
  { apply Forall_forall. intros r Hr. destruct (Hts r Hr). lia. }
  split; [|done]. intros r Hr Hne. rewrite Ht1 by done. f_equal.
  destruct (sent_rows _ _ _ _ _ _ _ Hsent) as (rs & Hrs & Hperm). symmetry.
  eapply member_rows_told; [exact Hrs|]. rewrite <-Hperm. by apply told_rows_rows.
Qed.

End Exchange.

(** ** Concrete runs *)

Definition sample_key (b : N) : Fingerprint := replicate 20 b.

Definition sample_env : RenderEnv :=
  {| attach_profile_data := true; is_encrypted := true; hide_recipients := false;
     email_to_remove := None; from_addr := lit "me@example.org";
     own_fingerprint := hex (sample_key 17); render_time := 1000 |}.

Definition sample_row (id : N) (addr : string) (fp : str) (added removed : Z) : recipient_row :=
  {| rr_authname := []; rr_addr := lit addr; rr_fingerprint := fp; rr_id := id; rr_add := added;
     rr_remove := removed; rr_key := None |}.

Definition sample_rows : list recipient_row :=
  [sample_row 10 "alice@example.org" (hex (sample_key 170)) 200 0; sample_row 1 "" [] 100 0;
   sample_row 12 "carol@example.org" (hex (sample_key 204)) 50 300].

Lemma sample_rows_proper : proper_rows (λ _, None : option unit) id sample_env sample_rows.
Proof.
  constructor.
  - by repeat constructor.
  - constructor; [by left|]. constructor; [by right|]. constructor; [by left|constructor].
  - by apply (bool_decide_unpack _).
  - by apply (bool_decide_unpack _).
Defined.

Lemma member_lists_aligned_witness :
  ∃ st, recipient_loop (λ _, None) (λ _ : unit, [] : list unit) (λ _ _, false) (λ _, [])
          (λ _, None) id sample_env Recipients_new sample_rows = Ok st
    ∧ ml_timestamps <$> match finish_lists sample_env st with Ok l => Some l | Err _ => None end
      = Some [200; 300]%Z.
Proof.
  destruct (member_lists_aligned (λ _, None) (λ _ : unit, [] : list unit) (λ _ _, false) (λ _, [])
    (λ _, None) id sample_env sample_rows eq_refl eq_refl sample_rows_proper) as (st & H1 & H2 & _).
  exists st. split; [exact H1|]. rewrite H2. reflexivity.
Defined.

(** The sending device, and Alice's, which receives the message. *)
Definition sample_keyed (id : N) (addr : string) (fp : str) : contact_row :=
  {| c_id := id; c_name := []; c_addr := lit addr; c_fingerprint := fp;
     c_origin := Origin.Internal; c_authname := []; c_last_seen := 0 |}.

Definition sample_sender : Context :=
  {| members := {[ (20%N, 1%N) := {| add_timestamp := 100; remove_timestamp := 0 |};
                   (20%N, 10%N) := {| add_timestamp := 200; remove_timestamp := 0 |};
                   (20%N, 12%N) := {| add_timestamp := 50; remove_timestamp := 300 |} ]};
     contacts := [sample_keyed 1 "" []; sample_keyed 10 "alice@example.org" (hex (sample_key 170));
                  sample_keyed 12 "carol@example.org" (hex (sample_key 204))];
     contact_seq := 12; chats := ∅; chats_descriptions := ∅; broadcast_secrets := ∅;
     configured_addr := Some (lit "me@example.org"); transport_addrs := [lit "me@example.org"];
     self_fingerprint_opt := Some (hex (sample_key 17)); events := [] |}.

Definition sample_group_row : chat_row :=
  {| ch_type := Chattype.Group; ch_name := []; ch_grpid := lit "grp";
     ch_param := to_string (set_i64 Params_new Param.MemberListTimestamp 900);
     ch_created_timestamp := 800 |}.

Definition sample_receiver : Context :=
  {| members := {[ (20%N, 1%N) := {| add_timestamp := 100; remove_timestamp := 0 |};
                   (20%N, 14%N) := {| add_timestamp := 100; remove_timestamp := 0 |};
                   (20%N, 15%N) := {| add_timestamp := 50; remove_timestamp := 0 |} ]};
     contacts := [sample_keyed 1 "" []; sample_keyed 14 "me@example.org" (hex (sample_key 17));
                  sample_keyed 15 "carol@example.org" (hex (sample_key 204))];
     contact_seq := 15;
     chats := {[ 20%N := sample_group_row ]}; chats_descriptions := ∅; broadcast_secrets := ∅;
     configured_addr := Some (lit "alice@example.org");
     transport_addrs := [lit "alice@example.org"];
     self_fingerprint_opt := Some (hex (sample_key 170)); events := [] |}.

Definition sample_kf (r : recipient_row) : Fingerprint :=
  if (rr_id r =? 10)%N then sample_key 170
  else if (rr_id r =? 12)%N then sample_key 204 else sample_key 17.
Definition sample_rid (r : recipient_row) : N :=
  if (rr_id r =? 10)%N then 1%N else if (rr_id r =? 12)%N then 15%N else 14%N.
Definition sample_info (addr : string) : SingleInfo :=
  {| display_name := None; info_addr := lit addr |}.

Definition sample_sent_chat : Chat :=
  {| chat_id := 20; chat_typ := Chattype.Group; chat_name := []; chat_grpid := lit "grp";
     chat_param := set_i64 Params_new Param.MemberListTimestamp 900 |}.

Definition sample_message : MimeMessage :=
  {| headers := {[ HeaderDef.get_headername HeaderDef.ChatGroupMemberTimestamps := lit "200 300";
                   HeaderDef.get_headername HeaderDef.ChatGroupMemberFpr :=
                     hex (sample_key 170) ++ SP :: hex (sample_key 204) ]};
     timestamp_sent := 1000; gossiped_keys := ∅; group_avatar := None; signature := Some [];
     first_part_error := None |}.

Definition ascii_upper (s : str) : str :=
  (λ c, if (97 <=? c)%N && (c <=? 122)%N then (c - 32)%N else c) <$> s.

Lemma ascii_upper_fixes : upper_fixes_capitals ascii_upper.
Proof.
  intros s Hs. induction Hs as [|c s [_ Hc] _ IH]; [done|]. unfold ascii_upper in *. csimpl.
  rewrite IH. f_equal. destruct (N.leb_spec 97 c), (N.leb_spec c 122); simpl; try done. lia.
Qed.

Lemma sample_sent :
  sent (λ _, None) (λ _ : unit, [] : list unit) (λ _ _, false) (λ _, []) (λ _, None) id sample_env
    1000 1000 sample_sent_chat sample_sender ∅ sample_rows sample_message.
Proof.
  constructor; try done.
  - eexists. split; [vm_compute; reflexivity|]. done.
  - exact sample_rows_proper.
  - apply Forall_forall. intros r Hr. apply list_elem_of_In in Hr. simpl in Hr.
    destruct Hr as [<-|[<-|[<-|[]]]]; unfold TIMESTAMP_SENT_TOLERANCE; simpl; lia.
  - destruct (member_lists_run (λ _, None) (λ _ : unit, [] : list unit) (λ _ _, false) (λ _, [])
      (λ _, None) id sample_env sample_rows eq_refl eq_refl sample_rows_proper)
      as (st & H1 & H2 & _).
    exists st. eexists. eexists. split; [exact H1|]. split; [exact H2|].
    split; [vm_compute; reflexivity|]. intros h v Hin. apply list_elem_of_In in Hin.
    destruct Hin as [[= <- <-]|[[= <- <-]|[]]]; vm_compute; reflexivity.
Qed.

Lemma sample_key_valid b : (b < 256)%N → valid_fingerprint (sample_key b).
Proof. intros H. split; [|by left]. apply Forall_replicate. exact H. Qed.

Lemma sample_known :
  known id sample_env sample_receiver sample_rows sample_kf sample_rid
    [sample_info "alice@example.org"] [sample_info "carol@example.org"].
Proof.
  constructor.
  - constructor.
    + by apply (bool_decide_unpack _).
    + repeat constructor; by apply (bool_decide_unpack _).
    + intros r r' Hr Hr'. apply list_elem_of_In in Hr, Hr'. simpl in Hr, Hr'.
      destruct_or?; subst; simpl; intros; done.
  - by eexists.
  - apply Forall_forall. intros r Hr. apply list_elem_of_In in Hr. simpl in Hr.
    destruct Hr as [<-|[<-|[]]]; reflexivity.
  - change (listed_of sample_env sample_rows) with (take 1 sample_rows). constructor; [|constructor].
    split_and!; [by apply sample_key_valid|done|]. eexists. by split.
  - change (recent_of sample_env sample_rows) with (drop 2 sample_rows). constructor; [|constructor].
    split_and!; [by apply sample_key_valid|done|]. eexists. split; [done|].
    exists (sample_keyed 15 "carol@example.org" (hex (sample_key 204))).
    split; [|done]. apply list_elem_of_In. simpl. auto.
  - by apply (bool_decide_unpack _).
Defined.
