(* ===== verification/GroupChanges.v ===== *)
(** GroupChanges: what a received message does to a group or broadcast channel
    (src/src/receive_imf.rs): member list, name, description and avatar. *)
From S2P Require Import Prelude Monad Ids Params ContactTools Membership Headers Db.
From stdpp Require Import sorting.

(** The info messages shown in the chat: the call of src/src/stock_str.rs that renders each.
    The empty text means that the message is trashed. *)
Inductive info_text :=
| EmptyText
| MsgGroupLeft (by_contact : ContactId)
| MsgDelMember (contact by_contact : ContactId)
| MsgAddMember (contact by_contact : ContactId)
| MsgGrpName (old_name new_name : str) (by_contact : ContactId)
| MsgBroadcastNameChanged (old_name new_name : str)
| MsgChatDescriptionChanged (by_contact : ContactId)
| MsgBroadcastImgChanged
| MsgGrpImgDeleted (by_contact : ContactId)
| MsgGrpImgChanged (by_contact : ContactId)
| MsgYouJoinedBroadcast
| MsgYouLeftBroadcast.

(** [struct GroupChangesInfo]. *)
Record GroupChangesInfo := {
  better_msg : option info_text;
  added_removed_id : option N;
  silent : bool;
  extra_msgs : list (info_text * SystemMessage.SystemMessage * option N)
}.

Definition GroupChangesInfo_default : GroupChangesInfo :=
  {| better_msg := None; added_removed_id := None; silent := false; extra_msgs := [] |}.

(** [Option::get_or_insert]. *)
Definition get_or_insert {A} (o : option A) (a : A) : option A :=
  match o with Some _ => o | None => Some a end.

(** [(t1, s1) < (t2, s2)]. *)
Definition stamped_lt (t1 : Z) (s1 : str) (t2 : Z) (s2 : str) : bool :=
  stamp_ltb str_ltb (t1, s1) (t2, s2).

(** The elements of a [BTreeSet] in its iteration order. *)
Definition ascending (s : gset N) : list N := merge_sort N.le (elements s).

(** ** Name, description and avatar *)

(** The state [apply_chat_name_avatar_and_description_changes] shares with its caller: the
    chat, [send_event_chat_modified] and [better_msg]. *)
Abbreviation change_state := (Chat * bool * option info_text)%type.

(** First block, the condition: the old name and the new one, when the message announces a
    name (by [Chat-Group-Name-Changed] or a non-zero timestamp) shorter than 200 bytes. *)
Definition group_name_timestamp (mime : MimeMessage) : option Z :=
  get_header mime HeaderDef.ChatGroupNameTimestamp ≫= parse_i64.

Definition proposed_name (mime : MimeMessage) (current_name : str) : option (str * str) :=
  old_name ←
    match trim <$> get_header mime HeaderDef.ChatGroupNameChanged with
    | Some n => Some n
    | None => match group_name_timestamp mime with
              | Some ts => if (ts =? 0)%Z then None else Some current_name
              | None => None
              end
    end;
  grpname ← trim <$> get_header mime HeaderDef.ChatGroupName;
  if (byte_len grpname <? 200)%N then Some (old_name, grpname) else None.

(** First block: the name. *)
Definition apply_name_change (mime : MimeMessage) (from_id : ContactId) (is_from_in_chat : bool)
  (st : change_state) : M change_state :=
  let '(chat, send_event, better) := st in
  match proposed_name mime (chat_name chat) with
  | Some (old_name, grpname) =>
      let grpname := sanitize_single_line grpname in
      let chat_group_name_timestamp :=
        default 0%Z (get_i64 (chat_param chat) Param.GroupNameTimestamp) in
      let group_name_timestamp := default (timestamp_sent mime) (group_name_timestamp mime) in
      updated <- and_then
        (is_from_in_chat
         && stamped_lt chat_group_name_timestamp grpname group_name_timestamp (chat_name chat))
        (chat_update_timestamp (chat_id chat) Param.GroupNameTimestamp group_name_timestamp) ;;
      let rename := updated && negb (bool_decide (grpname = chat_name chat)) in
      when rename (set_name_column (chat_id chat) grpname) ;;;
      let send_event := send_event || rename in
      let better :=
        match get_header mime HeaderDef.ChatGroupNameChanged with
        | None => better
        | Some _ =>
            if is_from_in_chat then
              let old_name := sanitize_single_line old_name in
              get_or_insert better
                (match chat_typ chat with
                 | Chattype.InBroadcast | Chattype.OutBroadcast =>
                     MsgBroadcastNameChanged old_name grpname
                 | _ => MsgGrpName old_name grpname from_id
                 end)
            else Some EmptyText
        end in
      ret (chat, send_event, better)
  | None => ret st
  end.

(** Second block: the description. *)
Definition apply_description_change (mime : MimeMessage) (from_id : ContactId)
  (is_from_in_chat : bool) (st : change_state) : M change_state :=
  let '(chat, send_event, better) := st in
  match trim <$> get_header mime HeaderDef.ChatGroupDescription with
  | None => ret st
  | Some new_description =>
      let new_description := sanitize_bidi_characters (trim new_description) in
      old_description <- get_chat_description (chat_id chat) ;;
      let old_timestamp :=
        default 0%Z (get_i64 (chat_param chat) Param.GroupDescriptionTimestamp) in
      let timestamp_in_header :=
        get_header mime HeaderDef.ChatGroupDescriptionTimestamp ≫= parse_i64 in
      let new_timestamp := default (timestamp_sent mime) timestamp_in_header in
      updated <- and_then
        (is_from_in_chat && stamped_lt old_timestamp old_description new_timestamp new_description)
        (chat_update_timestamp (chat_id chat) Param.GroupDescriptionTimestamp new_timestamp) ;;
      let change := updated && negb (bool_decide (new_description = old_description)) in
      when change
        (modify (set_descriptions (<[chat_id chat := new_description]>))) ;;;
      let better :=
        match get_header mime HeaderDef.ChatGroupDescriptionChanged with
        | None => better
        | Some _ =>
            if is_from_in_chat then get_or_insert better (MsgChatDescriptionChanged from_id)
            else Some EmptyText
        end in
      ret (chat, send_event || change, better)
  end.

(** Third block: the info message about the avatar. *)
Definition avatar_info (mime : MimeMessage) (from_id : ContactId) (is_from_in_chat : bool)
  (chat : Chat) (better : option info_text) : option info_text :=
  match get_header mime HeaderDef.ChatContent, better, group_avatar mime with
  | Some value, None, Some avatar_action =>
      if bool_decide (value = lit "group-avatar-changed") then
        if is_from_in_chat then
          get_or_insert better
            (match chat_typ chat with
             | Chattype.InBroadcast | Chattype.OutBroadcast => MsgBroadcastImgChanged
             | _ => match avatar_action with
                    | AvatarDelete => MsgGrpImgDeleted from_id
                    | AvatarChange _ => MsgGrpImgChanged from_id
                    end
             end)
        else Some EmptyText
      else better
  | _, _, _ => better
  end.

(** Fourth block: the avatar itself; the parameters of the chat in memory are written back. *)
Definition apply_avatar_change (mime : MimeMessage) (is_from_in_chat : bool)
  (st : change_state) : M change_state :=
  let '(chat, send_event, better) := st in
  match group_avatar mime with
  | Some avatar_action =>
      if is_from_in_chat then
        let '(updated, p) :=
          update_timestamp (chat_param chat) Param.AvatarTimestamp (timestamp_sent mime) in
        if updated then
          let p := match avatar_action with
                   | AvatarChange profile_image => Params_set p Param.ProfileImage profile_image
                   | AvatarDelete => Params_remove p Param.ProfileImage
                   end in
          let chat := with_param chat p in
          update_param chat ;;;
          ret (chat, true, better)
        else ret (with_param chat p, send_event, better)
      else ret st
  | None => ret st
  end.

(** [apply_chat_name_avatar_and_description_changes]. *)
Definition apply_chat_name_avatar_and_description_changes (mime : MimeMessage)
  (from_id : ContactId) (is_from_in_chat : bool) (st : change_state) : M change_state :=
  st <- apply_name_change mime from_id is_from_in_chat st ;;
  st <- apply_description_change mime from_id is_from_in_chat st ;;
  let '(chat, send_event, better) := st in
  let better := avatar_info mime from_id is_from_in_chat chat better in
  apply_avatar_change mime is_from_in_chat (chat, send_event, better).

(** ** Members *)

(** [group_changes_msgs]. *)
Definition group_changes_msgs (added_ids removed_ids : gset N)
  : list (info_text * SystemMessage.SystemMessage * option N) :=
  ((λ x, (MsgAddMember x UNDEFINED, SystemMessage.MemberAddedToGroup, Some x))
     <$> ascending added_ids)
  ++ ((λ x, (MsgDelMember x UNDEFINED, SystemMessage.MemberRemovedFromGroup, Some x))
     <$> ascending removed_ids).

(** The rewrite of a stale member list: all rows of the chat are deleted and the new members
    are inserted with both timestamps 0. *)
Definition replace_members (id : ChatId) (new_members : gset N) (t : chats_contacts)
  : chats_contacts :=
  let t := filter (λ kr, kr.1.1 ≠ id) t in
  foldl (λ t x, <[(id, x) := {| add_timestamp := 0; remove_timestamp := 0 |}]> t)
        t (elements new_members).

Section ApplyGroupChanges.
Context (to_lowercase : str -> str) (now : Z).

(** The explicit removal or addition a message announces: the contact, the better message
    and whether it is silent. *)
Record explicit_change := {
  ex_removed : option N;
  ex_added : option N;
  ex_better : option info_text;
  ex_silent : bool
}.

Definition explicit_changes (mime : MimeMessage) (chat : Chat) (from_id : ContactId)
  (chat_contacts : gset N) (is_from_in_chat : bool) : M explicit_change :=
  match get_header mime HeaderDef.ChatGroupMemberRemoved with
  | Some removed_addr =>
      r <- (if negb is_from_in_chat then ret (None, Some EmptyText)
            else match get_header mime HeaderDef.ChatGroupMemberRemovedFpr with
                 | Some removed_fpr =>
                     id <- lookup_key_contact_by_fingerprint removed_fpr ;; ret (id, None)
                 | None =>
                     id <- lookup_key_contact_by_address to_lowercase removed_addr (chat_id chat) ;;
                     ret (id, None)
                 end) ;;
      let '(removed_id, better) := r in
      match removed_id with
      | Some id =>
          if (id =? from_id)%N then
            ret {| ex_removed := Some id; ex_added := None;
                    ex_better := Some (MsgGroupLeft from_id); ex_silent := true |}
          else
            ret {| ex_removed := Some id; ex_added := None;
                    ex_better := Some (MsgDelMember id from_id); ex_silent := false |}
      | None =>
          ret {| ex_removed := None; ex_added := None; ex_better := better; ex_silent := false |}
      end
  | None =>
      let nothing b :=
        {| ex_removed := None; ex_added := None; ex_better := b; ex_silent := false |} in
      match get_header mime HeaderDef.ChatGroupMemberAdded with
      | Some added_addr =>
          if negb is_from_in_chat then ret (nothing (Some EmptyText))
          else
            match gossiped_keys mime !! added_addr with
            | Some fingerprint =>
                when (negb (bool_decide (from_id ∈ chat_contacts)))
                  (modify (set_members
                     (add_to_chat_contacts_table (timestamp_sent mime) (chat_id chat) [from_id]))) ;;;
                id <- lookup_key_contact_by_fingerprint fingerprint ;;
                match id with
                | Some contact_id =>
                    ret {| ex_removed := None; ex_added := Some contact_id;
                            ex_better := Some (MsgAddMember contact_id from_id);
                            ex_silent := false |}
                | None => ret (nothing None)
                end
            | None => ret (nothing None)
            end
      | None => ret (nothing None)
      end
  end.

(** [to_ids.iter().filter_map(|x| x)]. *)
Definition flatten (ids : list (option N)) : list N := omap id ids.

(** The members a stale list is replaced with. *)
Definition stale_members (mime : MimeMessage) (chat : Chat) (from_id : ContactId)
  (to_ids_flat : list N) : gset N :=
  let new_members : gset N := {[SELF]} ∪ list_to_set to_ids_flat in
  let new_members := if contact_is_special from_id then new_members
                     else {[from_id]} ∪ new_members in
  if was_encrypted mime && bool_decide (chat_grpid chat = [])
  then new_members ∖ {[SELF]} else new_members.

(** The members a message without timestamps leads to. *)
Definition legacy_members (mime : MimeMessage) (chat : Chat) (from_id : ContactId)
  (from_is_key_contact self_added : bool) (to_ids_flat : list N) (chat_contacts : gset N)
  (added_id removed_id : option N) : gset N :=
  let new_members : gset N :=
    if self_added then
      let ms : gset N := {[SELF]} ∪ list_to_set to_ids_flat in
      if negb (contact_is_special from_id)
         && negb (Bool.eqb from_is_key_contact (bool_decide (chat_grpid chat = [])))
      then {[from_id]} ∪ ms else ms
    else chat_contacts in
  let new_members :=
    match get_header mime HeaderDef.ChatVersion with
    | None => list_to_set to_ids_flat ∪ new_members
    | Some _ => new_members
    end in
  let new_members :=
    match added_id with Some x => {[x]} ∪ new_members | None => new_members end in
  let new_members :=
    match removed_id with Some x => new_members ∖ {[x]} | None => new_members end in
  if was_encrypted mime && bool_decide (chat_grpid chat = [])
  then new_members ∖ {[SELF]} else new_members.

(** [self_added]: the primary address was explicitly added, and was not in the group. *)
Definition is_self_added (mime : MimeMessage) (chat_contacts : gset N) : M bool :=
  match get_header mime HeaderDef.ChatGroupMemberAdded with
  | Some added_addr =>
      primary <- get_primary_self_addr ;;
      ret (addr_cmp to_lowercase primary added_addr && negb (bool_decide (SELF ∈ chat_contacts)))
  | None => ret false
  end.

(** The member-list part of [apply_group_changes], under [if is_from_in_chat]: the new value
    of [send_event_chat_modified]. *)
Definition apply_member_list (mime : MimeMessage) (chat : Chat) (from_id : ContactId)
  (from_is_key_contact : bool) (to_ids past_ids : list (option N)) (chat_contacts : gset N)
  (ex : explicit_change) (send_event : bool) : M bool :=
  stale <- and_then (negb (Bool.eqb from_is_key_contact (bool_decide (chat_grpid chat = []))))
             (member_list_is_stale now chat) ;;
  send_event <-
    (if stale then
       modify (set_members (replace_members (chat_id chat)
         (stale_members mime chat from_id (flatten to_ids)))) ;;;
       ret true
     else
       match chat_group_member_timestamps now TIMESTAMP_SENT_TOLERANCE mime with
       | Some timestamps =>
           λ c, let '(modified, t) := update_chats_contacts_timestamps (chat_id chat)
                                        (Some from_id) to_ids past_ids timestamps (members c) in
                (Ok (send_event || modified), set_members (λ _, t) c)
       | None =>
           self_added <- is_self_added mime chat_contacts ;;
           let new_members :=
             legacy_members mime chat from_id from_is_key_contact self_added
               (flatten to_ids) chat_contacts (ex_added ex) (ex_removed ex) in
           if negb (bool_decide (new_members = chat_contacts)) then
             modify (set_members (update_chat_contacts_table (timestamp_sent mime)
                                    (chat_id chat) new_members)) ;;;
             ret true
           else ret send_event
       end) ;;
  chat_update_timestamp (chat_id chat) Param.MemberListTimestamp (timestamp_sent mime) ;;;
  ret send_event.

(** [apply_group_changes]. *)
Definition apply_group_changes (mime : MimeMessage) (chat : Chat) (from_id : ContactId)
  (to_ids past_ids : list (option N)) (is_chat_created : bool) : M GroupChangesInfo :=
  from_is_key_contact <- is_key_contact from_id ;;
  ensure (from_is_key_contact || bool_decide (chat_grpid chat = [])) ;;;
  ensure (bool_decide (chat_typ chat = Chattype.Group)) ;;;
  ensure (negb (chat_is_special (chat_id chat))) ;;;
  l <- chat_contacts (chat_id chat) ;;
  let chat_contacts : gset N := list_to_set l in
  let is_from_in_chat :=
    negb (bool_decide (SELF ∈ chat_contacts)) || bool_decide (from_id ∈ chat_contacts) in
  ex <- explicit_changes mime chat from_id chat_contacts is_from_in_chat ;;
  st <- apply_chat_name_avatar_and_description_changes mime from_id is_from_in_chat
          (chat, false, ex_better ex) ;;
  let '(chat, send_event, better) := st in
  send_event <-
    (if is_from_in_chat then
       apply_member_list mime chat from_id from_is_key_contact to_ids past_ids chat_contacts ex
         send_event
     else ret send_event) ;;
  l' <- Db.chat_contacts (chat_id chat) ;;
  let new_chat_contacts : gset N := list_to_set l' in
  let added_ids := new_chat_contacts ∖ chat_contacts in
  let removed_ids := chat_contacts ∖ new_chat_contacts in
  let id_was_already_added :=
    match ex_added ex with Some x => negb (bool_decide (x ∈ added_ids)) | None => false end in
  let added_ids :=
    match ex_added ex with Some x => added_ids ∖ {[x]} | None => added_ids end in
  let removed_ids :=
    match ex_removed ex with Some x => removed_ids ∖ {[x]} | None => removed_ids end in
  let msgs :=
    if negb (bool_decide (SELF ∈ chat_contacts)) && bool_decide (SELF ∈ new_chat_contacts)
    then [] else group_changes_msgs added_ids removed_ids in
  let better :=
    if id_was_already_added && bool_decide (length msgs = 0) && negb is_chat_created
    then Some EmptyText else better in
  when send_event
    (emit_event (ChatModified (chat_id chat)) ;;; emit_event (ChatlistItemChanged (chat_id chat))) ;;;
  ret {| better_msg := better;
          added_removed_id :=
            match ex_added ex with Some x => Some x | None => ex_removed ex end;
          silent := ex_silent ex;
          extra_msgs := msgs |}.

(** ** Broadcast channels *)

(** [apply_out_broadcast_changes]. *)
Definition apply_out_broadcast_changes (mime : MimeMessage) (chat : Chat) (from_id : ContactId)
  : M GroupChangesInfo :=
  ensure (bool_decide (chat_typ chat = Chattype.OutBroadcast)) ;;;
  st <- (if (from_id =? SELF)%N
         then apply_chat_name_avatar_and_description_changes mime from_id true (chat, false, None)
         else ret (chat, false, None)) ;;
  let '(chat, send_event, better) := st in
  r <- (match get_header mime HeaderDef.ChatGroupMemberAddedFpr with
        | Some added_fpr =>
            if (from_id =? SELF)%N then
              added_id <- lookup_key_contact_by_fingerprint added_fpr ;;
              match added_id with
              | Some added_id =>
                  present <- contact_in_chat (chat_id chat) added_id ;;
                  if present then ret (send_event, get_or_insert better EmptyText, None)
                  else
                    modify (set_members (add_to_chat_contacts_table (timestamp_sent mime)
                                           (chat_id chat) [added_id])) ;;;
                    ret (true, get_or_insert better (MsgAddMember added_id UNDEFINED),
                         Some added_id)
              | None => ret (send_event, better, None)
              end
            else ret (send_event, better, None)
        | None =>
            match get_header mime HeaderDef.ChatGroupMemberRemovedFpr with
            | Some removed_fpr =>
                removed_id <- lookup_key_contact_by_fingerprint removed_fpr ;;
                if bool_decide (removed_id = Some from_id) then
                  modify (set_members (λ t,
                    (remove_from_chat_contacts_table_without_trace (chat_id chat) from_id t).2)) ;;;
                  ret (true, Some EmptyText, None)
                else
                  match removed_id with
                  | Some removed_id =>
                      if (from_id =? SELF)%N then
                        removed <- (λ c,
                          let '(b, t) := remove_from_chat_contacts_table_without_trace
                                           (chat_id chat) removed_id (members c) in
                          (Ok b, set_members (λ _, t) c)) ;;
                        if (removed : bool)
                        then ret (true, get_or_insert better (MsgDelMember removed_id SELF),
                                  Some removed_id)
                        else ret (true, Some EmptyText, None)
                      else ret (true, better, None)
                  | None => ret (true, better, None)
                  end
            | None => ret (send_event, better, None)
            end
        end) ;;
  let '(send_event, better, added_removed_id) := r in
  when send_event
    (emit_event (ChatModified (chat_id chat)) ;;; emit_event (ChatlistItemChanged (chat_id chat))) ;;;
  ret {| better_msg := better; added_removed_id := added_removed_id; silent := false;
         extra_msgs := [] |}.

(** [validate_broadcast_secret] of tools.rs: the URL-safe base64 alphabet, 43 to 100 bytes. *)
Definition is_base64url (c : char) : bool :=
  ((65 <=? c) && (c <=? 90) || (97 <=? c) && (c <=? 122) || (48 <=? c) && (c <=? 57)
   || (c =? 45) || (c =? 95))%N.

Definition validate_broadcast_secret (s : str) : bool :=
  forallb is_base64url s && (43 <=? byte_len s)%N && (byte_len s <=? 100)%N.

(** The end of [apply_in_broadcast_changes]: the secret, the events, the result. *)
Definition in_broadcast_finish (mime : MimeMessage) (chat : Chat) (send_event : bool)
  (better : option info_text) : M GroupChangesInfo :=
  (match get_header mime HeaderDef.ChatBroadcastSecret with
   | Some secret =>
       when (validate_broadcast_secret secret)
         (modify (set_secrets (<[chat_id chat := secret]>)))
   | None => ret tt
   end) ;;;
  when send_event
    (emit_event (ChatModified (chat_id chat)) ;;; emit_event (ChatlistItemChanged (chat_id chat))) ;;;
  ret {| better_msg := better; added_removed_id := None; silent := false; extra_msgs := [] |}.

(** The middle of [apply_in_broadcast_changes], from the test for [Chat-Group-Member-Added] on:
    the own membership.  [self_fp] is the fingerprint of the own key. *)
Definition in_broadcast_self (self_fp : str) (mime : MimeMessage) (from_id : ContactId)
  (st : change_state) : M GroupChangesInfo :=
  let '(chat, send_event, better) := st in
  r <- (match get_header mime HeaderDef.ChatGroupMemberAdded with
        | Some added_addr =>
            is_self <- is_self_addr to_lowercase added_addr ;;
            if (is_self : bool) then
              self_in <- is_self_in_chat chat ;;
              ret (true, get_or_insert better
                           (if (self_in : bool) then EmptyText else MsgYouJoinedBroadcast))
            else ret (send_event, better)
        | None => ret (send_event, better)
        end) ;;
  let '(send_event, better) := r in
  match get_header mime HeaderDef.ChatGroupMemberRemovedFpr with
  | Some removed_fpr =>
      if negb (bool_decide (removed_fpr = self_fp)) then ret GroupChangesInfo_default
      else
        modify (set_secrets (delete (chat_id chat))) ;;;
        removed <- (λ c,
          let '(b, t) := remove_from_chat_contacts_table_without_trace
                           (chat_id chat) SELF (members c) in
          (Ok b, set_members (λ _, t) c)) ;;
        let better :=
          if negb removed then Some EmptyText
          else if (from_id =? SELF)%N then get_or_insert better MsgYouLeftBroadcast
          else get_or_insert better (MsgDelMember SELF from_id) in
        in_broadcast_finish mime chat (send_event || removed) better
  | None =>
      self_in <- is_self_in_chat chat ;;
      if negb self_in then
        modify (set_members (add_to_chat_contacts_table (timestamp_sent mime)
                               (chat_id chat) [SELF])) ;;;
        in_broadcast_finish mime chat true better
      else in_broadcast_finish mime chat send_event better
  end.

(** [apply_in_broadcast_changes]. *)
Definition apply_in_broadcast_changes (self_fp : str) (mime : MimeMessage) (chat : Chat)
  (from_id : ContactId) : M GroupChangesInfo :=
  ensure (bool_decide (chat_typ chat = Chattype.InBroadcast)) ;;;
  match first_part_error mime with
  | Some _ => ret GroupChangesInfo_default
  | None =>
      is_from_in_chat <- contact_in_chat (chat_id chat) from_id ;;
      st <- apply_chat_name_avatar_and_description_changes mime from_id is_from_in_chat
              (chat, false, None) ;;
      in_broadcast_self self_fp mime from_id st
  end.

(** The dispatch of [add_parts] on the type of the chat. *)
Definition dispatch_group_changes (self_fp : str) (mime : MimeMessage) (chat : Chat)
  (from_id : ContactId) (to_ids past_ids : list (option N)) (is_chat_created : bool)
  : M GroupChangesInfo :=
  if chat_is_special (chat_id chat) then ret GroupChangesInfo_default
  else match chat_typ chat with
       | Chattype.Single | Chattype.Mailinglist => ret GroupChangesInfo_default
       | Chattype.OutBroadcast => apply_out_broadcast_changes mime chat from_id
       | Chattype.Group =>
           apply_group_changes mime chat from_id to_ids past_ids is_chat_created
       | Chattype.InBroadcast => apply_in_broadcast_changes self_fp mime chat from_id
       end.

End ApplyGroupChanges.

(** ** Lemmas: messages of senders that are not in the chat *)

Lemma apply_name_change_foreign mime from chat se b c :
  ∃ b', apply_name_change mime from false (chat, se, b) c = (Ok (chat, se, b'), c).
Proof.
  unfold apply_name_change, and_then. cbn [andb].
  repeat case_match; run_m; rewrite ?orb_false_r; eauto.
Qed.

Lemma apply_description_change_foreign mime from chat se b c :
  ∃ b', apply_description_change mime from false (chat, se, b) c = (Ok (chat, se, b'), c).
Proof.
  unfold apply_description_change, and_then, get_chat_description. cbn [andb].
  repeat case_match; run_m; rewrite ?orb_false_r; eauto.
Qed.

Lemma apply_avatar_change_foreign mime chat se b c :
  apply_avatar_change mime false (chat, se, b) c = (Ok (chat, se, b), c).
Proof. unfold apply_avatar_change. by case_match. Qed.

Lemma apply_chat_changes_foreign mime from chat se b c :
  ∃ b', apply_chat_name_avatar_and_description_changes mime from false (chat, se, b) c
        = (Ok (chat, se, b'), c).
Proof.
  unfold apply_chat_name_avatar_and_description_changes, bind.
  destruct (apply_name_change_foreign mime from chat se b c) as [b1 ->].
  destruct (apply_description_change_foreign mime from chat se b1 c) as [b2 ->].
  rewrite apply_avatar_change_foreign. eauto.
Qed.

Lemma explicit_changes_foreign lower mime chat from cc c :
  ∃ r, explicit_changes lower mime chat from cc false c = (r, c).
Proof.
  unfold explicit_changes, bind, ret. simpl. repeat case_match; simplify_eq; eauto.
Qed.

Lemma elem_of_chat_contacts c id x :
  x ∈ (list_to_set (get_chat_contacts (members c) (last_seen_of c) id) : gset N)
  ↔ is_contact_in_chat (members c) id x = true.
Proof.
  rewrite elem_of_list_to_set. unfold get_chat_contacts.
  rewrite merge_sort_Permutation, elem_of_select_contacts. unfold is_contact_in_chat.
  destruct (members c !! (id, x)) as [r|].
  - split; [by intros (? & [= ->] & ?)|eauto].
  - split; [by intros (? & ? & ?)|done].
Qed.

(** C25. Only members change a group: while the account is in the group, a message whose
    sender is not in it leaves every table and the event queue exactly as they were, whatever
    its headers announce (member changes, member timestamps, name, description, avatar). *)
Theorem foreign_sender_changes_nothing lower now mime chat from to_ids past_ids created c :
  is_contact_in_chat (members c) (chat_id chat) SELF = true →
  is_contact_in_chat (members c) (chat_id chat) from = false →
  (apply_group_changes lower now mime chat from to_ids past_ids created c).2 = c.
Proof.
  intros Hself Hfrom. unfold apply_group_changes, is_key_contact, chat_contacts. run_m.
  destruct (find_contact _ c); [|done].
  destruct (_ || bool_decide (chat_grpid chat = [])); [|done].
  destruct (bool_decide (chat_typ chat = Chattype.Group)); [|done].
  destruct (chat_is_special (chat_id chat)); [done|].
  cbv beta iota zeta; cbn [negb orb]; cbv beta iota zeta.
  rewrite (bool_decide_true (SELF ∈ _)) by (by apply elem_of_chat_contacts).
  rewrite (bool_decide_false (from ∈ _)) by (rewrite elem_of_chat_contacts; congruence).
  cbn [negb orb].
  edestruct explicit_changes_foreign as [r ->]. destruct r as [ex|]; [|done].
  edestruct apply_chat_changes_foreign as [b' ->]. done.
Qed.

(** ** Lemmas: name and description as registers *)

(** The timestamp a chat's row stores under a key. *)
Definition row_timestamp (row : chat_row) (k : Param) : Z :=
  stored_timestamp (load_params (ch_param row)) k.

(** The name register of a chat: when the name was set, and the name. *)
Definition name_register (c : Context) (id : ChatId) : option (Z * str) :=
  (λ row, (row_timestamp row Param.GroupNameTimestamp, ch_name row)) <$> chats c !! id.

Definition description_register (c : Context) (id : ChatId) : option (Z * str) :=
  (λ row, (row_timestamp row Param.GroupDescriptionTimestamp,
           default [] (chats_descriptions c !! id))) <$> chats c !! id.

(** At equal times the smaller name and the larger description win. *)
Definition name_join : Z * str -> Z * str -> Z * str :=
  max_by (stamp_ltb (λ x y, str_ltb y x)).

Definition name_order_total : StrictTotal (stamp_ltb (λ x y, str_ltb y x)) :=
  stamp_ltb_total _ (flip_total _ str_ltb_total).

Definition description_order_total : StrictTotal (stamp_ltb str_ltb) :=
  stamp_ltb_total _ str_ltb_total.

Definition description_join : Z * str -> Z * str -> Z * str := max_by (stamp_ltb str_ltb).

(** What a message offers for the two registers. *)
Definition name_offer (mime : MimeMessage) : option (Z * str) :=
  p ← proposed_name mime [];
  Some (default (timestamp_sent mime) (group_name_timestamp mime), sanitize_single_line p.2).

Definition description_offer (mime : MimeMessage) : option (Z * str) :=
  d ← trim <$> get_header mime HeaderDef.ChatGroupDescription;
  Some (default (timestamp_sent mime)
          (get_header mime HeaderDef.ChatGroupDescriptionTimestamp ≫= parse_i64),
        sanitize_bidi_characters (trim d)).

Definition loaded_chat (id : ChatId) (row : chat_row) : Chat :=
  {| chat_id := id; chat_typ := ch_type row; chat_name := ch_name row;
     chat_grpid := ch_grpid row; chat_param := load_params (ch_param row) |}.

Definition with_column (row : chat_row) (col : str) : chat_row :=
  {| ch_type := ch_type row; ch_name := ch_name row; ch_grpid := ch_grpid row;
     ch_param := col; ch_created_timestamp := ch_created_timestamp row |}.

Definition with_name (row : chat_row) (name : str) : chat_row :=
  {| ch_type := ch_type row; ch_name := name; ch_grpid := ch_grpid row;
     ch_param := ch_param row; ch_created_timestamp := ch_created_timestamp row |}.

Lemma chat_update_timestamp_run c id row k ts :
  chats c !! id = Some row →
  ∃ col, load_params col = (update_timestamp (load_params (ch_param row)) k ts).2 ∧
    chat_update_timestamp id k ts c
    = (Ok (row_timestamp row k <=? ts)%Z, set_chats (<[id := with_column row col]>) c).
Proof.
  intros Hrow. unfold chat_update_timestamp. rewrite Hrow.
  destruct (update_timestamp_row_load (ch_param row) k ts) as (col & -> & Hcol).
  exists col. split; [done|]. by rewrite update_timestamp_answer.
Qed.

(** The rows before and after a change to the register kept under [k]: the type, the group id
    and every other parameter are the same. *)
Definition same_but (k : Param) (row row' : chat_row) : Prop :=
  ch_type row' = ch_type row ∧ ch_grpid row' = ch_grpid row ∧
  ∀ k', k ≠ k' → Params_get (load_params (ch_param row')) k'
                 = Params_get (load_params (ch_param row)) k'.

Lemma same_but_refl k row : same_but k row row.
Proof. by split_and!. Qed.

Lemma same_but_column k row ts col :
  load_params col = (update_timestamp (load_params (ch_param row)) k ts).2 →
  same_but k row (with_column row col).
Proof.
  intros Hcol. split_and!; try done. intros k' Hk. simpl. rewrite Hcol.
  by apply update_timestamp_other.
Qed.

Lemma row_timestamp_column k row ts col :
  in_i64 ts = true → (row_timestamp row k <= ts)%Z →
  load_params col = (update_timestamp (load_params (ch_param row)) k ts).2 →
  row_timestamp (with_column row col) k = ts.
Proof.
  intros Hts Hle Hcol. unfold row_timestamp in *. simpl. rewrite Hcol.
  rewrite update_timestamp_stored by done. lia.
Qed.

Lemma same_but_timestamp k k' row row' :
  same_but k row row' → k ≠ k' → row_timestamp row' k' = row_timestamp row k'.
Proof.
  intros (_ & _ & H) Hk. unfold row_timestamp, stored_timestamp, get_i64. by rewrite H.
Qed.

Lemma offered_timestamp_in_i64 mime h :
  in_i64 (timestamp_sent mime) = true →
  in_i64 (default (timestamp_sent mime) (get_header mime h ≫= parse_i64)) = true.
Proof.
  intros Hts. destruct (get_header mime h ≫= parse_i64) as [z|] eqn:E; [|done]. simpl.
  apply bind_Some in E as (s & _ & E). apply parse_signed_range in E.
  unfold in_i64. by rewrite !(proj2 (Z.leb_le _ _)) by lia.
Qed.

Lemma proposed_name_offer mime name :
  (∃ old new, proposed_name mime name = Some (old, new)
     ∧ name_offer mime = Some (default (timestamp_sent mime) (group_name_timestamp mime),
                               sanitize_single_line new))
  ∨ (proposed_name mime name = None ∧ name_offer mime = None).
Proof.
  unfold name_offer, proposed_name.
  destruct (trim <$> get_header mime HeaderDef.ChatGroupName) as [n|]; simpl.
  - destruct (trim <$> get_header mime HeaderDef.ChatGroupNameChanged) as [o|]; simpl;
      [destruct (byte_len n <? 200)%N; simpl; eauto 6|].
    destruct (group_name_timestamp mime) as [ts|]; simpl; [|eauto 6].
    destruct (ts =? 0)%Z; simpl; [eauto 6|]. destruct (byte_len n <? 200)%N; simpl; eauto 6.
  - right. by repeat case_match.
Qed.

(** What an operation on one register leaves behind: the row is still there, with the new
    value of the register and everything else as before. *)
Record register_step (k : Param) (id : ChatId) (c : Context) (row : chat_row)
  (c' : Context) (row' : chat_row) : Prop := {
  rs_row : chats c' !! id = Some row';
  rs_same : same_but k row row';
  rs_members : members c' = members c
}.

(** One step on the name register. *)
Lemma apply_name_change_register mime from c id row se b :
  chats c !! id = Some row → in_i64 (timestamp_sent mime) = true →
  ∃ se' b' c' row',
    apply_name_change mime from true (loaded_chat id row, se, b) c
      = (Ok (loaded_chat id row, se', b'), c')
    ∧ register_step Param.GroupNameTimestamp id c row c' row'
    ∧ chats_descriptions c' = chats_descriptions c
    ∧ (row_timestamp row' Param.GroupNameTimestamp, ch_name row')
      = from_option (name_join (row_timestamp row Param.GroupNameTimestamp, ch_name row))
          (row_timestamp row Param.GroupNameTimestamp, ch_name row) (name_offer mime).
Proof.
  intros Hrow Hsent.
  pose proof (offered_timestamp_in_i64 mime HeaderDef.ChatGroupNameTimestamp Hsent) as Hts.
  fold (group_name_timestamp mime) in Hts. unfold apply_name_change. cbn [loaded_chat chat_name].
  destruct (proposed_name_offer mime (ch_name row)) as [(old & new & -> & ->)|[-> ->]].
  2:{ run_m. do 4 eexists. split; [done|]. split_and!; [split|..]; eauto using same_but_refl. }
  simpl from_option. unfold name_join, max_by, and_then, stamped_lt. cbn [andb].
  cbn [loaded_chat chat_param chat_id chat_name].
  change (default 0%Z (get_i64 (load_params (ch_param row)) Param.GroupNameTimestamp))
    with (row_timestamp row Param.GroupNameTimestamp).
  set (n := sanitize_single_line new). set (ts := default _ (group_name_timestamp mime)) in *.
  change (stamp_ltb (λ x y, str_ltb y x) (row_timestamp row Param.GroupNameTimestamp, ch_name row)
            (ts, n)) with (stamp_ltb str_ltb (row_timestamp row Param.GroupNameTimestamp, n)
                             (ts, ch_name row)).
  destruct (stamp_ltb str_ltb _ _) eqn:Hlt.
  2:{ run_m. do 4 eexists. split; [done|]. split_and!; [split|..]; eauto using same_but_refl. }
  assert (Hle : (row_timestamp row Param.GroupNameTimestamp <= ts)%Z).
  { unfold stamp_ltb in Hlt. simpl in Hlt. bool_tests. destruct Hlt; bool_tests; lia. }
  destruct (chat_update_timestamp_run c id row Param.GroupNameTimestamp ts Hrow)
    as (col & Hcol & Hrun).
  unfold bind at 1. rewrite Hrun, (proj2 (Z.leb_le _ _) Hle). cbn [andb].
  case_bool_decide as Hn; run_m.
  - do 3 eexists. exists (with_column row col). split; [done|]. split_and!; [split|..]; try done.
    + simpl. by rewrite lookup_insert_eq.
    + by eapply same_but_column.
    + erewrite row_timestamp_column by done. simpl. by rewrite Hn.
  - do 3 eexists. exists (with_name (with_column row col) n).
    split; [done|]. split_and!; [split|..]; try done.
    + simpl. by rewrite lookup_alter_eq, lookup_insert_eq.
    + apply (same_but_column _ row ts col Hcol).
    + f_equal. by apply (row_timestamp_column _ row ts col).
Qed.

(** One step on the description register; the chat in memory was loaded before the name
    changed, from a row with the same description timestamp. *)
Lemma apply_description_change_register mime from c id row0 row se b :
  chats c !! id = Some row → in_i64 (timestamp_sent mime) = true →
  same_but Param.GroupNameTimestamp row0 row →
  ∃ se' b' c' row',
    apply_description_change mime from true (loaded_chat id row0, se, b) c
      = (Ok (loaded_chat id row0, se', b'), c')
    ∧ register_step Param.GroupDescriptionTimestamp id c row c' row'
    ∧ ch_name row' = ch_name row
    ∧ (row_timestamp row' Param.GroupDescriptionTimestamp,
       default [] (chats_descriptions c' !! id))
      = from_option
          (description_join (row_timestamp row Param.GroupDescriptionTimestamp,
                             default [] (chats_descriptions c !! id)))
          (row_timestamp row Param.GroupDescriptionTimestamp,
           default [] (chats_descriptions c !! id)) (description_offer mime).
Proof.
  intros Hrow Hsent Hsame.
  pose proof (offered_timestamp_in_i64 mime HeaderDef.ChatGroupDescriptionTimestamp Hsent) as Hts.
  assert (Hmem : row_timestamp row0 Param.GroupDescriptionTimestamp
                 = row_timestamp row Param.GroupDescriptionTimestamp)
    by (symmetry; by eapply same_but_timestamp).
  unfold apply_description_change, description_offer, get_chat_description.
  destruct (trim <$> get_header mime HeaderDef.ChatGroupDescription) as [d0|]; simpl mbind.
  2:{ run_m. do 4 eexists. split; [done|]. split_and!; [split|..]; eauto using same_but_refl. }
  cbn [option_bind from_option loaded_chat chat_param chat_id].
  unfold description_join, max_by, and_then, stamped_lt. unfold bind at 1, gets. cbn [andb].
  change (default 0%Z (get_i64 (load_params (ch_param row0)) Param.GroupDescriptionTimestamp))
    with (row_timestamp row0 Param.GroupDescriptionTimestamp). rewrite Hmem.
  set (d := sanitize_bidi_characters (trim d0)). set (ts := default _ _) in *.
  set (old := default [] (chats_descriptions c !! id)).
  destruct (stamp_ltb str_ltb _ (ts, d)) eqn:Hlt.
  2:{ run_m. do 4 eexists. split; [done|]. split_and!; [split|..]; eauto using same_but_refl. }
  assert (Hle : (row_timestamp row Param.GroupDescriptionTimestamp <= ts)%Z).
  { unfold stamp_ltb in Hlt. simpl in Hlt. bool_tests. destruct Hlt; bool_tests; lia. }
  destruct (chat_update_timestamp_run c id row Param.GroupDescriptionTimestamp ts Hrow)
    as (col & Hcol & Hrun).
  unfold bind at 1. rewrite Hrun, (proj2 (Z.leb_le _ _) Hle). cbn [andb].
  case_bool_decide as Hn; run_m; do 3 eexists; exists (with_column row col);
    (split; [done|]); split_and!; [split| | |split| |]; try done.
  - simpl. by rewrite lookup_insert_eq.
  - by eapply same_but_column.
  - erewrite row_timestamp_column by done. simpl. by rewrite Hn.
  - simpl. by rewrite lookup_insert_eq.
  - by eapply same_but_column.
  - erewrite row_timestamp_column by done. simpl. by rewrite lookup_insert_eq.
Qed.

(** A message from a member: the chat is loaded, then the changes are applied. *)
Definition receive_chat_changes (id : ChatId) (c : Context) (m : ContactId * MimeMessage)
  : Context :=
  match load_from_db id c with
  | (Ok chat, c) =>
      (apply_chat_name_avatar_and_description_changes m.2 m.1 true (chat, false, None) c).2
  | (Err _, c) => c
  end.

Definition join_offer (join : Z * str -> Z * str -> Z * str) (r : Z * str)
  (offer : option (Z * str)) : Z * str := from_option (join r) r offer.

Lemma receive_chat_changes_registers id c m n d :
  group_avatar m.2 = None → in_i64 (timestamp_sent m.2) = true →
  name_register c id = Some n → description_register c id = Some d →
  name_register (receive_chat_changes id c m) id = Some (join_offer name_join n (name_offer m.2))
  ∧ description_register (receive_chat_changes id c m) id
    = Some (join_offer description_join d (description_offer m.2)).
Proof.
  intros Hav Hsent Hn Hd. destruct m as [from mime]. simpl in *.
  unfold name_register in Hn. apply fmap_Some in Hn as (row & Hrow & ->).
  unfold description_register in Hd. rewrite Hrow in Hd. simpl in Hd. injection Hd as <-.
  unfold receive_chat_changes, load_from_db. rewrite Hrow. cbn [fst snd].
  unfold apply_chat_name_avatar_and_description_changes, bind.
  fold (loaded_chat id row).
  edestruct apply_name_change_register
    as (se1 & b1 & c1 & row1 & -> & [Hr1 Hs1 _] & Hdesc1 & Hreg1); [done|done|].
  edestruct (apply_description_change_register mime from c1 id row row1)
    as (se2 & b2 & c2 & row2 & -> & [Hr2 Hs2 _] & Hname2 & Hreg2); [done|done|done|].
  unfold apply_avatar_change. rewrite Hav. cbn [ret snd].
  unfold name_register, description_register. rewrite Hr2. simpl. split; f_equal.
  - rewrite Hname2, (same_but_timestamp _ Param.GroupNameTimestamp _ _ Hs2) by done. exact Hreg1.
  - rewrite Hreg2, Hdesc1,
      (same_but_timestamp _ Param.GroupDescriptionTimestamp _ _ Hs1) by done.
    done.
Qed.

Lemma receive_all_registers id ms c n d :
  Forall (λ m, group_avatar m.2 = None ∧ in_i64 (timestamp_sent m.2) = true) ms →
  name_register c id = Some n → description_register c id = Some d →
  name_register (foldl (receive_chat_changes id) c ms) id
    = Some (foldl name_join n (omap (λ m, name_offer m.2) ms))
  ∧ description_register (foldl (receive_chat_changes id) c ms) id
    = Some (foldl description_join d (omap (λ m, description_offer m.2) ms)).
Proof.
  intros Hms. revert c n d.
  induction Hms as [|m ms [Hav Hts] _ IH]; intros c n d Hn Hd; [done|].
  destruct (receive_chat_changes_registers id c m n d) as [Hn' Hd']; [done..|].
  destruct (IH _ _ _ Hn' Hd') as [E1 E2]. cbn [foldl omap list_omap]. rewrite E1, E2.
  unfold join_offer. by destruct (name_offer m.2), (description_offer m.2).
Qed.

(** C26. Name and description converge: members that receive the same rename and description
    messages (without avatar) in any two orders end with the same name and description, and
    with the same times for them. *)
Theorem name_and_description_converge id c ms ms' :
  is_Some (chats c !! id) → ms ≡ₚ ms' →
  Forall (λ m : ContactId * MimeMessage,
            group_avatar m.2 = None ∧ in_i64 (timestamp_sent m.2) = true) ms →
  name_register (foldl (receive_chat_changes id) c ms) id
    = name_register (foldl (receive_chat_changes id) c ms') id
  ∧ description_register (foldl (receive_chat_changes id) c ms) id
    = description_register (foldl (receive_chat_changes id) c ms') id.
Proof.
  intros [row Hrow] Hp Hms.
  assert (Hms' : Forall (λ m, group_avatar m.2 = None ∧ in_i64 (timestamp_sent m.2) = true) ms')
    by (by rewrite <- Hp).
  assert (Hn : is_Some (name_register c id)) by (unfold name_register; by rewrite Hrow).
  assert (Hd : is_Some (description_register c id))
    by (unfold description_register; by rewrite Hrow).
  destruct Hn as [n Hn], Hd as [d Hd].
  destruct (receive_all_registers id ms c n d) as [-> ->]; [done..|].
  destruct (receive_all_registers id ms' c n d) as [-> ->]; [done..|].
  split; f_equal.
  - apply (foldl_permutation _ (CommutingSteps0 := @max_by_commutes _ _ name_order_total)).
    by apply omap_Permutation.
  - apply (foldl_permutation _ (CommutingSteps0 := @max_by_commutes _ _ description_order_total)).
    by apply omap_Permutation.
Qed.

(** A message that also carries an accepted avatar applies its name but not the time of
    the name: the avatar branch writes back the parameters that were loaded before, so the
    row keeps the old name timestamp whatever the message offered. *)
Theorem avatar_write_back_drops_name_timestamp id c from mime row action :
  chats c !! id = Some row → in_i64 (timestamp_sent mime) = true →
  group_avatar mime = Some action →
  (row_timestamp row Param.AvatarTimestamp <= timestamp_sent mime)%Z →
  name_register (receive_chat_changes id c (from, mime)) id
  = Some (row_timestamp row Param.GroupNameTimestamp,
          (join_offer name_join (row_timestamp row Param.GroupNameTimestamp, ch_name row)
             (name_offer mime)).2).
Proof.
  intros Hrow Hsent Hav Hle. unfold receive_chat_changes, load_from_db. rewrite Hrow.
  cbn [fst snd]. unfold apply_chat_name_avatar_and_description_changes, bind at 1.
  fold (loaded_chat id row).
  edestruct apply_name_change_register
    as (se1 & b1 & c1 & row1 & -> & [Hr1 Hs1 _] & _ & Hreg1); [done|done|].
  unfold bind at 1.
  edestruct (apply_description_change_register mime from c1 id row row1)
    as (se2 & b2 & c2 & row2 & -> & [Hr2 Hs2 _] & Hname2 & _); [done|done|done|].
  unfold apply_avatar_change. rewrite Hav. cbn [loaded_chat chat_param].
  pose proof (update_timestamp_answer (load_params (ch_param row)) Param.AvatarTimestamp
                (timestamp_sent mime)) as Ha.
  pose proof (update_timestamp_other (load_params (ch_param row)) Param.AvatarTimestamp
                Param.GroupNameTimestamp (timestamp_sent mime) ltac:(done)) as Ho.
  destruct (update_timestamp _ _ _) as [upd p]. cbn [fst snd] in Ha, Ho.
  fold (row_timestamp row Param.AvatarTimestamp) in Ha.
  rewrite Ha, (proj2 (Z.leb_le _ _) Hle). unfold update_param, set_param_column. run_m.
  unfold name_register. cbn [snd]. simpl. rewrite lookup_alter_eq, Hr2. simpl.
  unfold join_offer. rewrite <- Hreg1. simpl. rewrite <- Hname2. do 2 f_equal.
  unfold row_timestamp. simpl. rewrite load_params_to_string. unfold stored_timestamp, get_i64.
  rewrite <- Ho. by destruct action; unfold Params_get; simpl;
    rewrite ?lookup_insert_ne, ?lookup_delete_ne by done.
Qed.

(** The consequence: a rename with avatar at time 200, followed by a delayed rename of time
    100, leaves the older name; in the other order the newer one stays. *)
Definition sample_group (name : str) (ts : Z) : Context :=
  {| members := {[ (20%N, 1%N) := {| add_timestamp := 1; remove_timestamp := 0 |};
                   (20%N, 10%N) := {| add_timestamp := 1; remove_timestamp := 0 |} ]};
     contacts := [ {| c_id := 1; c_name := []; c_addr := lit "me@example.org";
                      c_fingerprint := []; c_origin := Origin.Internal;
                      c_authname := []; c_last_seen := 0 |};
                   {| c_id := 10; c_name := []; c_addr := lit "alice@example.org";
                      c_fingerprint := lit "AAAA"; c_origin := Origin.Internal;
                      c_authname := []; c_last_seen := 5 |};
                   {| c_id := 11; c_name := []; c_addr := lit "bob@example.org";
                      c_fingerprint := lit "BBBB"; c_origin := Origin.Internal;
                      c_authname := []; c_last_seen := 6 |} ];
     contact_seq := 11;
     chats := {[ 20%N := {| ch_type := Chattype.Group; ch_name := name; ch_grpid := lit "grp";
                            ch_param := to_string
                              (set_i64 (set_i64 Params_new Param.GroupNameTimestamp ts)
                                 Param.MemberListTimestamp 10000000);
                            ch_created_timestamp := 1 |} ]};
     chats_descriptions := ∅; broadcast_secrets := ∅;
     configured_addr := Some (lit "me@example.org"); transport_addrs := [lit "me@example.org"];
     self_fingerprint_opt := Some (lit "SELF"); events := [] |}.

Definition sample_rename (name : str) (ts : Z) (avatar : option AvatarAction) : MimeMessage :=
  {| headers := {[ HeaderDef.get_headername HeaderDef.ChatGroupName := name;
                   HeaderDef.get_headername HeaderDef.ChatGroupNameTimestamp := print_Z ts;
                   HeaderDef.get_headername HeaderDef.ChatVersion := lit "1.0" ]};
     timestamp_sent := ts; gossiped_keys := ∅; group_avatar := avatar; signature := Some [];
     first_part_error := None |}.

Example older_name_wins_after_avatar :
  let newer := (10%N, sample_rename (lit "B") 200 (Some AvatarDelete)) in
  let older := (10%N, sample_rename (lit "C") 100 None) in
  name_register (foldl (receive_chat_changes 20) (sample_group (lit "A") 50) [newer; older]) 20
    = Some (100%Z, lit "C")
  ∧ snd <$> name_register
      (foldl (receive_chat_changes 20) (sample_group (lit "A") 50) [older; newer]) 20
    = Some (lit "B").
Proof. split; reflexivity. Qed.

(** ** Lemmas: the member list *)

Lemma replace_members_lookup id cs t c x :
  replace_members id cs t !! (c, x) =
    if decide (c = id) then
      (if decide (x ∈ cs) then Some {| add_timestamp := 0; remove_timestamp := 0 |} else None)
    else t !! (c, x).
Proof.
  unfold replace_members.
  assert (H : ∀ l (u : chats_contacts),
    foldl (λ t x, <[(id, x) := {| add_timestamp := 0; remove_timestamp := 0 |}]> t) u l !! (c, x)
    = if decide (c = id ∧ x ∈ l) then Some {| add_timestamp := 0; remove_timestamp := 0 |}
      else u !! (c, x)).
  { induction l as [|y l IH]; intros u; simpl.
    - rewrite decide_False; [done|]. by intros [_ ?%not_elem_of_nil].
    - rewrite IH. destruct (decide (c = id ∧ x ∈ l)) as [[-> Hl]|Hn].
      + rewrite decide_True; [done|]. split; [done|]. apply elem_of_cons. by right.
      + destruct (decide ((id, y) = (c, x))) as [[= -> ->]|Hne].
        * rewrite lookup_insert_eq, decide_True; [done|]. split; [done|].
          apply elem_of_cons. by left.
        * rewrite lookup_insert_ne, decide_False; [done| |done].
          intros [-> [->|?]%elem_of_cons]; [done|]. by apply Hn. }
  rewrite H.
  destruct (decide (c = id)) as [->|Hc].
  - destruct (decide (x ∈ elements cs)) as [Hx|Hx].
    + by rewrite !decide_True by (done || by apply elem_of_elements).
    + rewrite decide_False by tauto. rewrite decide_False by (by rewrite <- elem_of_elements).
      apply map_lookup_filter_None. right. intros r _ Hne. by simpl in Hne.
  - rewrite decide_False by tauto.
    destruct (t !! (c, x)) as [r|] eqn:E.
    + by apply map_lookup_filter_Some.
    + apply map_lookup_filter_None. by left.
Qed.

(** The guard of the stale branch, on the chat in memory and the account. *)
Definition takes_stale_branch (now : Z) (chat : Chat) (from_is_key_contact : bool) (c : Context)
  : bool :=
  negb (Bool.eqb from_is_key_contact (bool_decide (chat_grpid chat = [])))
  && match (member_list_is_stale now chat c).1 with Ok b => b | Err _ => false end.

Lemma stale_guard now chat k c :
  and_then (negb (Bool.eqb k (bool_decide (chat_grpid chat = [])))) (member_list_is_stale now chat) c
  = (Ok (takes_stale_branch now chat k c), c).
Proof.
  unfold takes_stale_branch, and_then, member_list_is_stale, member_list_timestamp.
  destruct (negb _); [|done]. by destruct (get_i64 _ _).
Qed.

Lemma members_after_timestamp c id row k ts :
  chats c !! id = Some row →
  ∃ b c', chat_update_timestamp id k ts c = (Ok b, c') ∧ members c' = members c.
Proof.
  intros Hrow. destruct (chat_update_timestamp_run c id row k ts Hrow) as (col & _ & ->).
  by do 2 eexists.
Qed.

Definition self_added_value (lower : str -> str) (self : str) (mime : MimeMessage)
  (cc : gset N) : bool :=
  match get_header mime HeaderDef.ChatGroupMemberAdded with
  | Some added_addr => addr_cmp lower self added_addr && negb (bool_decide (SELF ∈ cc))
  | None => false
  end.

Lemma is_self_added_run lower self mime cc c :
  configured_addr c = Some self →
  is_self_added lower mime cc c = (Ok (self_added_value lower self mime cc), c).
Proof.
  intros Hself. unfold is_self_added, self_added_value, get_primary_self_addr.
  destruct (get_header _ _); run_m; by rewrite ?Hself.
Qed.

(** The member list after a message from a member, on each of the three paths: a stale
    list is replaced by the recipients, the sender and the owner; a message with timestamps is
    merged; a message without them applies its explicit addition and removal (and, from
    other mail programs, adds the recipients) to the current members. *)
Theorem apply_member_list_members lower now mime chat from k to_ids past_ids cc ex se c row self :
  chats c !! chat_id chat = Some row → configured_addr c = Some self →
  (0 <= timestamp_sent mime)%Z →
  cc = list_to_set (get_chat_contacts (members c) (last_seen_of c) (chat_id chat)) →
  ∃ se' c',
    apply_member_list lower now mime chat from k to_ids past_ids cc ex se c = (Ok se', c')
    ∧ (if takes_stale_branch now chat k c then
         ∀ x, is_contact_in_chat (members c') (chat_id chat) x
              = bool_decide (x ∈ stale_members mime chat from (flatten to_ids))
       else match chat_group_member_timestamps now TIMESTAMP_SENT_TOLERANCE mime with
            | Some timestamps =>
                members c' = apply_header (chat_id chat) (members c)
                  {| hd_ignored := Some from; hd_to := to_ids; hd_past := past_ids;
                     hd_timestamps := timestamps |}
            | None =>
                ∀ x, is_contact_in_chat (members c') (chat_id chat) x
                  = bool_decide (x ∈ legacy_members mime chat from k
                                       (self_added_value lower self mime cc) (flatten to_ids)
                                       cc (ex_added ex) (ex_removed ex))
            end).
Proof.
  intros Hrow Hself Hts Hcc. unfold apply_member_list, bind at 1. rewrite stale_guard.
  destruct (takes_stale_branch now chat k c) eqn:Hstale.
  - run_m. edestruct members_after_timestamp as (b & c' & -> & Hm); [exact Hrow|].
    do 2 eexists. split; [done|]. intros x. rewrite Hm. unfold is_contact_in_chat. simpl.
    rewrite replace_members_lookup, decide_True by done.
    case_decide; [by rewrite bool_decide_true|by rewrite bool_decide_false].
  - destruct (chat_group_member_timestamps _ _ mime) as [tss|]; unfold bind at 1.
    + destruct (update_chats_contacts_timestamps _ _ _ _ _ _) as [m t] eqn:E.
      unfold bind. edestruct members_after_timestamp as (b & c' & -> & Hm); [exact Hrow|].
      run_m. do 2 eexists. split; [done|]. rewrite Hm. unfold apply_header. simpl. by rewrite E.
    + unfold bind at 1. rewrite (is_self_added_run _ _ _ _ _ Hself).
      set (new := legacy_members _ _ _ _ _ _ _ _ _). case_bool_decide as Hnew; run_m;
        (edestruct members_after_timestamp as (b & c' & -> & Hm); [exact Hrow|]);
        (do 2 eexists; split; [done|]); intros x; rewrite Hm.
      * rewrite Hnew, Hcc. apply eq_true_iff_eq.
        by rewrite bool_decide_eq_true, elem_of_chat_contacts.
      * simpl. by apply update_chat_contacts_membership.
Qed.

(** ** Lemmas: what the name, description and avatar code does not touch *)

(** The tables of members and channel secrets are the same, and a result keeps the identity
    of the chat. *)
Definition frames (chat : Chat) (c : Context) (r : result change_state error * Context) : Prop :=
  members r.2 = members c ∧ broadcast_secrets r.2 = broadcast_secrets c
  ∧ match r.1 with
    | Ok (chat', _, _) => chat_id chat' = chat_id chat ∧ chat_typ chat' = chat_typ chat
    | Err _ => True
    end.

Lemma chat_update_timestamp_frame id k ts c :
  members (chat_update_timestamp id k ts c).2 = members c
  ∧ broadcast_secrets (chat_update_timestamp id k ts c).2 = broadcast_secrets c.
Proof. unfold chat_update_timestamp. by repeat case_match. Qed.

Lemma guarded_update_frame b id k ts c :
  members (and_then b (chat_update_timestamp id k ts) c).2 = members c
  ∧ broadcast_secrets (and_then b (chat_update_timestamp id k ts) c).2 = broadcast_secrets c.
Proof. destruct b; [apply chat_update_timestamp_frame|done]. Qed.

Lemma frames_trans {A} chat c (x : M A) (k : A -> M change_state) :
  (members (x c).2 = members c ∧ broadcast_secrets (x c).2 = broadcast_secrets c) →
  (∀ a c', x c = (Ok a, c') → frames chat c' (k a c')) →
  frames chat c (bind x k c).
Proof.
  intros [H1 H2] Hk. unfold bind. destruct (x c) as [[a|e] c'] eqn:E; simpl in *; [|done].
  specialize (Hk a c' eq_refl) as (H3 & H4 & H5). unfold frames. by rewrite H3, H4.
Qed.

Lemma apply_name_change_frame mime from f chat se b c :
  frames chat c (apply_name_change mime from f (chat, se, b) c).
Proof.
  unfold apply_name_change. destruct (proposed_name _ _) as [[old new]|]; [|done].
  apply frames_trans; [apply guarded_update_frame|]. intros upd c' _.
  apply frames_trans; [unfold when; by case_match|]. intros _ c'' _. done.
Qed.

Lemma apply_description_change_frame mime from f chat se b c :
  frames chat c (apply_description_change mime from f (chat, se, b) c).
Proof.
  unfold apply_description_change. destruct (trim <$> _); [|done].
  apply frames_trans; [done|]. intros old c' _.
  apply frames_trans; [apply guarded_update_frame|]. intros upd c'' _.
  apply frames_trans; [unfold when; by case_match|]. intros _ c3 _. done.
Qed.

Lemma apply_avatar_change_frame mime f chat se b c :
  frames chat c (apply_avatar_change mime f (chat, se, b) c).
Proof.
  unfold apply_avatar_change. destruct (group_avatar mime); [|done]. destruct f; [|done].
  destruct (update_timestamp _ _ _) as [[] p]; [|done].
  apply frames_trans; [done|]. intros _ c' _. done.
Qed.

Lemma frames_step chat c (r : result change_state error * Context) k :
  frames chat c r →
  (∀ chat' se b c', chat_id chat' = chat_id chat → chat_typ chat' = chat_typ chat →
     frames chat' c' (k (chat', se, b) c')) →
  frames chat c (bind (λ _, r) k c).
Proof.
  intros (H1 & H2 & H3) Hk. unfold bind. destruct r as [[[[chat' se] b]|e] c']; simpl in *;
    [|done]. destruct H3 as [Hid Htyp].
  destruct (Hk chat' se b c' Hid Htyp) as (H4 & H5 & H6). unfold frames.
  rewrite H4, H5, H1, H2. split_and!; try done.
  destruct (k _ c') as [[[[ch ?] ?]|] ?]; simpl in *; [|done]. by rewrite <- Hid, <- Htyp.
Qed.

Lemma apply_chat_changes_frame mime from f chat se b c :
  frames chat c (apply_chat_name_avatar_and_description_changes mime from f (chat, se, b) c).
Proof.
  unfold apply_chat_name_avatar_and_description_changes.
  apply (frames_step chat c (apply_name_change mime from f (chat, se, b) c));
    [apply apply_name_change_frame|]. intros chat1 se1 b1 c1 Hid1 Htyp1.
  apply (frames_step chat1 c1 (apply_description_change mime from f (chat1, se1, b1) c1));
    [apply apply_description_change_frame|]. intros chat2 se2 b2 c2 Hid2 Htyp2.
  apply apply_avatar_change_frame.
Qed.

(** A channel has one owner: a message to an outgoing channel that is not from the account
    itself changes neither name, description, avatar nor secret, adds nobody, and removes at
    most its own sender. *)
Theorem out_broadcast_foreign_sender mime chat from c :
  from ≠ SELF →
  let c' := (apply_out_broadcast_changes mime chat from c).2 in
  chats c' = chats c ∧ chats_descriptions c' = chats_descriptions c
  ∧ broadcast_secrets c' = broadcast_secrets c
  ∧ (members c' = members c ∨ members c' = delete (chat_id chat, from) (members c)).
Proof.
  intros Hne c'. subst c'. unfold apply_out_broadcast_changes, lookup_key_contact_by_fingerprint.
  rewrite (proj2 (N.eqb_neq _ _) Hne). run_m.
  destruct (bool_decide (chat_typ chat = Chattype.OutBroadcast)); [|simpl; auto].
  destruct (get_header mime HeaderDef.ChatGroupMemberAddedFpr); [simpl; auto|].
  destruct (get_header mime HeaderDef.ChatGroupMemberRemovedFpr) as [fpr|]; [|simpl; auto].
  set (removed := if bool_decide (fpr = []) then _ else _).
  case_bool_decide as Hr.
  - simpl. unfold remove_from_chat_contacts_table_without_trace.
    destruct (members c !! (chat_id chat, from)); simpl; auto.
  - destruct removed; simpl; auto.
Qed.

(** What the own-membership part of an incoming channel may change. *)
Definition self_step (id : ChatId) (c c' : Context) : Prop :=
  (∀ key, key ≠ (id, SELF) → members c' !! key = members c !! key)
  ∧ chats c' = chats c ∧ chats_descriptions c' = chats_descriptions c
  ∧ (∀ i s, broadcast_secrets c' !! i = Some s →
       broadcast_secrets c !! i = Some s ∨ validate_broadcast_secret s = true).

Lemma in_broadcast_finish_step mime chat se b c0 c :
  self_step (chat_id chat) c0 c → self_step (chat_id chat) c0 (in_broadcast_finish mime chat se b c).2.
Proof.
  intros (Hm & Hc & Hd & Hs). unfold in_broadcast_finish. run_m.
  destruct (get_header mime HeaderDef.ChatBroadcastSecret) as [s|]; [|by destruct se].
  destruct (validate_broadcast_secret s) eqn:Hv; [|by destruct se].
  destruct se; (split_and!; [done..|]); simpl; intros i s';
    (destruct (decide (i = chat_id chat)) as [->|Hne];
     [rewrite lookup_insert_eq; intros [= <-]; by right|rewrite lookup_insert_ne by done; apply Hs]).
Qed.

Lemma self_removed_step id c :
  self_step id c (set_members (λ _, (remove_from_chat_contacts_table_without_trace id SELF
    (members c)).2) (set_secrets (delete id) c)).
Proof.
  unfold remove_from_chat_contacts_table_without_trace. split_and!; try done; simpl.
  - intros key Hk. destruct (members c !! (id, SELF)); simpl; [by rewrite lookup_delete_ne|done].
  - intros i s [_ Hs]%lookup_delete_Some. by left.
Qed.

Lemma self_added_step id ts c :
  self_step id c (set_members (add_to_chat_contacts_table ts id [SELF]) c).
Proof.
  split_and!; try done; simpl; [|by left].
  intros key Hk. unfold add_to_chat_contacts_table. simpl.
  by rewrite upsert_lookup, decide_False.
Qed.

Lemma self_step_refl id c : self_step id c c.
Proof. split_and!; try done. by left. Qed.

Lemma in_broadcast_self_step lower self_fp mime from chat se b c :
  self_step (chat_id chat) c (in_broadcast_self lower self_fp mime from (chat, se, b) c).2.
Proof.
  unfold in_broadcast_self. unfold bind at 1.
  assert (Hr : ∃ se' b', match get_header mime HeaderDef.ChatGroupMemberAdded with
    | Some added_addr =>
        is_self <- is_self_addr lower added_addr ;;
        if (is_self : bool) then
          self_in <- is_self_in_chat chat ;;
          ret (true, get_or_insert b (if (self_in : bool) then EmptyText else MsgYouJoinedBroadcast))
        else ret (se, b)
    | None => ret (se, b) end c = (Ok (se', b'), c)).
  { unfold is_self_addr, is_self_in_chat, contact_in_chat. case_match; run_m; [|eauto].
    case_match; [|eauto]. destruct (chat_typ chat); eauto. }
  destruct Hr as (se' & b' & ->). cbv beta iota.
  destruct (get_header mime HeaderDef.ChatGroupMemberRemovedFpr) as [fpr|].
  - destruct (negb _); [apply self_step_refl|]. run_m.
    pose proof (self_removed_step (chat_id chat) c) as Hst. simpl members in *.
    destruct (remove_from_chat_contacts_table_without_trace _ _ _) as [rm t].
    apply in_broadcast_finish_step, Hst.
  - unfold bind at 1. unfold is_self_in_chat, contact_in_chat, gets, ret.
    destruct (chat_typ chat); cbn [negb]; try (apply in_broadcast_finish_step, self_step_refl);
      (destruct (negb _); run_m; apply in_broadcast_finish_step;
       [apply self_added_step|apply self_step_refl]).
Qed.

(** A message in an incoming channel touches no membership row but the owner's own; when
    its sender is not in the channel, name, description and parameters stay as they are; a
    secret is only ever replaced by a valid one. *)
Theorem in_broadcast_changes_frame lower self_fp mime chat from c :
  let c' := (apply_in_broadcast_changes lower self_fp mime chat from c).2 in
  (∀ key, key ≠ (chat_id chat, SELF) → members c' !! key = members c !! key)
  ∧ (is_contact_in_chat (members c) (chat_id chat) from = false →
       chats c' = chats c ∧ chats_descriptions c' = chats_descriptions c)
  ∧ (∀ id s, broadcast_secrets c' !! id = Some s →
       broadcast_secrets c !! id = Some s ∨ validate_broadcast_secret s = true).
Proof.
  intros c'. subst c'. unfold apply_in_broadcast_changes, contact_in_chat.
  unfold ensure, bind, gets, ret, fail.
  destruct (bool_decide (chat_typ chat = Chattype.InBroadcast)); [|by split_and!; try left].
  destruct (first_part_error mime); [by split_and!; try left|].
  pose proof (apply_chat_changes_frame mime from
    (is_contact_in_chat (members c) (chat_id chat) from) chat false None c) as (Hm & Hs & Hid).
  destruct (is_contact_in_chat (members c) (chat_id chat) from) eqn:Hin.
  - destruct (apply_chat_name_avatar_and_description_changes _ _ _ _ _)
      as [[[[chat1 se] b]|e] c1]; simpl in Hm, Hs, Hid.
    + destruct Hid as [Hid _].
      destruct (in_broadcast_self_step lower self_fp mime from chat1 se b c1) as (H1 & _ & _ & H2).
      rewrite Hid, Hm, Hs in *. by split_and!.
    + simpl. rewrite Hm, Hs. split_and!; try done. by left.
  - edestruct apply_chat_changes_foreign as [b' ->].
    destruct (in_broadcast_self_step lower self_fp mime from chat false b' c) as (H1 & H3 & H4 & H2).
    by split_and!.
Qed.

(** ** Witnesses *)

Definition sample_chat : Chat :=
  {| chat_id := 20; chat_typ := Chattype.Group; chat_name := lit "A"; chat_grpid := lit "grp";
     chat_param := set_i64 Params_new Param.MemberListTimestamp 10000000 |}.

(** Bob (11), who is not in the group, announces a rename and a new avatar. *)
Lemma foreign_sender_changes_nothing_witness :
  (apply_group_changes id 300 (sample_rename (lit "B") 200 (Some AvatarDelete)) sample_chat 11
     [Some 11%N] [] false (sample_group (lit "A") 50)).2 = sample_group (lit "A") 50.
Proof. apply foreign_sender_changes_nothing; reflexivity. Defined.

Lemma name_and_description_converge_witness :
  let m1 := (10%N, sample_rename (lit "B") 200 None) in
  let m2 := (10%N, sample_rename (lit "C") 100 None) in
  name_register (foldl (receive_chat_changes 20) (sample_group (lit "A") 50) [m1; m2]) 20
  = name_register (foldl (receive_chat_changes 20) (sample_group (lit "A") 50) [m2; m1]) 20.
Proof.
  intros m1 m2.
  refine (proj1 (name_and_description_converge 20 (sample_group (lit "A") 50)
                   [m1; m2] [m2; m1] _ _ _)).
  - by eexists.
  - apply Permutation_swap.
  - repeat (apply Forall_cons_2 || apply Forall_nil_2); by split.
Defined.

Lemma avatar_write_back_drops_name_timestamp_witness :
  ∃ row, chats (sample_group (lit "A") 50) !! 20%N = Some row ∧
  name_register (receive_chat_changes 20 (sample_group (lit "A") 50)
                   (10%N, sample_rename (lit "B") 200 (Some AvatarDelete))) 20
  = Some (row_timestamp row Param.GroupNameTimestamp,
          (join_offer name_join (row_timestamp row Param.GroupNameTimestamp, ch_name row)
             (name_offer (sample_rename (lit "B") 200 (Some AvatarDelete)))).2).
Proof.
  eexists. split; [reflexivity|].
  eapply avatar_write_back_drops_name_timestamp; [reflexivity|reflexivity|reflexivity|].
  by vm_compute.
Defined.

(** A message without timestamps from Alice that adds Bob. *)
Lemma apply_member_list_members_witness :
  ∃ se' c',
    apply_member_list id 300 (sample_rename (lit "A") 200 None) sample_chat 10 true
      [Some 11%N] []
      (list_to_set (get_chat_contacts (members (sample_group (lit "A") 50))
                      (last_seen_of (sample_group (lit "A") 50)) 20))
      {| ex_removed := None; ex_added := Some 11%N; ex_better := None; ex_silent := false |}
      false (sample_group (lit "A") 50) = (Ok se', c')
    ∧ is_contact_in_chat (members c') 20 11 = true.
Proof.
  destruct (apply_member_list_members id 300 (sample_rename (lit "A") 200 None) sample_chat 10
    true [Some 11%N] [] _
    {| ex_removed := None; ex_added := Some 11%N; ex_better := None; ex_silent := false |}
    false (sample_group (lit "A") 50) _ _ eq_refl eq_refl ltac:(simpl; lia) eq_refl)
    as (se' & c' & H1 & H2).
  exists se', c'. split; [exact H1|].
  assert (Hs : takes_stale_branch 300 sample_chat true (sample_group (lit "A") 50) = false)
    by reflexivity.
  assert (Ht : chat_group_member_timestamps 300 TIMESTAMP_SENT_TOLERANCE
                 (sample_rename (lit "A") 200 None) = None) by reflexivity.
  rewrite Hs, Ht in H2. refine (eq_trans (H2 11%N) _).
  apply bool_decide_eq_true_2. unfold legacy_members. simpl. set_solver.
Defined.

Lemma out_broadcast_foreign_sender_witness :
  chats (apply_out_broadcast_changes (sample_rename (lit "B") 200 None)
           {| chat_id := 20; chat_typ := Chattype.OutBroadcast; chat_name := lit "A";
              chat_grpid := lit "grp"; chat_param := Params_new |} 10
           (sample_group (lit "A") 50)).2
  = chats (sample_group (lit "A") 50).
Proof. apply out_broadcast_foreign_sender. done. Defined.
