(* ===== verification/GroupExchange.v ===== *)
(** GroupExchange: the member list on its way from one member to another: the headers the sender
    writes (mimefactory.rs) are matched to contacts and applied by the receiver (receive_imf.rs,
    apply_group_changes). *)
From S2P Require Import Prelude Monad Ids Params ContactTools Membership Headers Db.
From S2P Require Import Contacts Recipients MemberList GroupChanges.

(** ** The steps before the member list *)

Definition created_at (c : Context) (id : ChatId) : option Z :=
  ch_created_timestamp <$> chats c !! id.

(** A step of the name, description and avatar code succeeds and leaves alone what the member list
    depends on. *)
Definition list_untouched (chat : Chat) (c : Context) (r : result change_state error * Context)
  : Prop :=
  ∃ chat' se b c', r = (Ok (chat', se, b), c')
    ∧ members c' = members c ∧ chat_id chat' = chat_id chat
    ∧ get_i64 (chat_param chat') Param.MemberListTimestamp
      = get_i64 (chat_param chat) Param.MemberListTimestamp
    ∧ created_at c' (chat_id chat) = created_at c (chat_id chat).

Lemma chat_update_timestamp_untouched b id k ts c :
  is_Some (created_at c id) →
  ∃ u c', and_then b (chat_update_timestamp id k ts) c = (Ok u, c')
    ∧ members c' = members c ∧ created_at c' id = created_at c id.
Proof.
  intros [z Hz]. unfold created_at in *. destruct (chats c !! id) as [row|] eqn:E; [|done].
  destruct b; [|exists false, c; by rewrite E].
  destruct (chat_update_timestamp_run c id row k ts E) as (col & _ & Hrun). unfold and_then.
  rewrite Hrun. do 2 eexists. split; [done|]. split; [done|]. simpl. by rewrite lookup_insert_eq.
Qed.

Lemma set_name_untouched b id name c :
  members (when b (set_name_column id name) c).2 = members c
  ∧ created_at (when b (set_name_column id name) c).2 id = created_at c id
  ∧ (when b (set_name_column id name) c).1 = Ok tt.
Proof.
  unfold when, set_name_column, created_at. destruct b; [|done].
  unfold modify. simpl. rewrite lookup_alter_eq. by destruct (chats c !! id).
Qed.

Lemma name_untouched mime from f chat se b c :
  is_Some (created_at c (chat_id chat)) →
  list_untouched chat c (apply_name_change mime from f (chat, se, b) c).
Proof.
  intros Hc. unfold apply_name_change, list_untouched.
  destruct (proposed_name _ _) as [[old new]|]; [|by exists chat, se, b, c]. cbv zeta.
  unfold bind at 1. edestruct chat_update_timestamp_untouched as (u & c' & -> & Hm & Hc'); [done|].
  unfold bind at 1.
  match goal with |- context [when ?x ?y c'] =>
    pose proof (set_name_untouched x (chat_id chat) (sanitize_single_line new) c') as (H1 & H2 & H3);
    destruct (when x y c') as [r c''] end.
  simpl in *. subst r. do 4 eexists. split; [done|]. split_and!; [congruence|done..|congruence].
Qed.

Lemma description_untouched mime from f chat se b c :
  is_Some (created_at c (chat_id chat)) →
  list_untouched chat c (apply_description_change mime from f (chat, se, b) c).
Proof.
  intros Hc. unfold apply_description_change, list_untouched.
  destruct (trim <$> _); [|by exists chat, se, b, c]. cbv zeta.
  unfold bind at 1, get_chat_description, gets. unfold bind at 1.
  edestruct chat_update_timestamp_untouched as (u & c' & -> & Hm & Hc'); [done|].
  unfold when, bind, modify, ret. destruct (u && _); (do 4 eexists; split; [done|]);
    (split_and!; [exact Hm|done..|exact Hc']).
Qed.

Lemma avatar_untouched mime f chat se b c :
  is_Some (created_at c (chat_id chat)) →
  list_untouched chat c (apply_avatar_change mime f (chat, se, b) c).
Proof.
  intros Hc. unfold apply_avatar_change, list_untouched.
  destruct (group_avatar mime) as [action|]; [|by exists chat, se, b, c].
  destruct f; [|by exists chat, se, b, c].
  destruct (update_timestamp (chat_param chat) Param.AvatarTimestamp (timestamp_sent mime)) as [u p] eqn:E.
  assert (get_i64 p Param.MemberListTimestamp = get_i64 (chat_param chat) Param.MemberListTimestamp) as Hp.
  { unfold get_i64. pose proof (update_timestamp_other (chat_param chat) Param.AvatarTimestamp
      Param.MemberListTimestamp (timestamp_sent mime)) as H. rewrite E in H. cbn [snd] in H. by rewrite H. }
  destruct u; [|by do 4 eexists].
  unfold bind, update_param, set_param_column, modify, ret. do 4 eexists. split; [done|].
  split; [done|]. split; [done|]. split.
  - destruct action; simpl; unfold get_i64, Params_set, Params_remove, Params_get in *; simpl;
      first [by rewrite lookup_insert_ne|by rewrite lookup_delete_ne].
  - unfold created_at. simpl. rewrite lookup_alter_eq. by destruct (chats c !! chat_id chat).
Qed.

Lemma chat_changes_untouched mime from f chat se b c :
  is_Some (created_at c (chat_id chat)) →
  list_untouched chat c (apply_chat_name_avatar_and_description_changes mime from f (chat, se, b) c).
Proof.
  intros Hc. unfold apply_chat_name_avatar_and_description_changes, bind at 1.
  destruct (name_untouched mime from f chat se b c Hc) as (chat1 & se1 & b1 & c1 & -> & M1 & I1 & P1 & T1).
  unfold bind at 1.
  destruct (description_untouched mime from f chat1 se1 b1 c1)
    as (chat2 & se2 & b2 & c2 & -> & M2 & I2 & P2 & T2); [congruence|].
  destruct (avatar_untouched mime f chat2 se2 (avatar_info mime from f chat2 b2) c2)
    as (chat3 & se3 & b3 & c3 & -> & M3 & I3 & P3 & T3); [congruence|].
  do 4 eexists. split; [done|]. split_and!; congruence.
Qed.

(** A member's message about additions and removals: looking up the contact changes nothing. *)
Lemma explicit_changes_untouched lower mime chat from cc c :
  from ∈ cc → ∃ ex, explicit_changes lower mime chat from cc true c = (Ok ex, c).
Proof.
  intros Hin. unfold explicit_changes, lookup_key_contact_by_address, lookup_key_contact_by_fingerprint,
    is_self_addr. cbn [negb].
  destruct (get_header mime HeaderDef.ChatGroupMemberRemoved) as [removed|].
  - unfold bind, gets, ret. destruct (get_header mime HeaderDef.ChatGroupMemberRemovedFpr); cbv beta iota zeta;
      repeat case_match; simplify_eq; by eexists.
  - destruct (get_header mime HeaderDef.ChatGroupMemberAdded) as [added|]; [|by eexists].
    destruct (gossiped_keys mime !! added); [|by eexists].
    rewrite bool_decide_eq_true_2 by done. unfold when, bind, gets, ret. cbn [negb].
    cbv beta iota zeta. repeat case_match; simplify_eq; by eexists.
Qed.

(** The member list of a member's message with times, when the own list is not out of date. *)
Lemma member_list_merged lower now mime chat from k to_ids past_ids cc ex se c tss :
  is_Some (created_at c (chat_id chat)) → (member_list_is_stale now chat c).1 = Ok false →
  chat_group_member_timestamps now TIMESTAMP_SENT_TOLERANCE mime = Some tss →
  ∃ se' c', apply_member_list lower now mime chat from k to_ids past_ids cc ex se c = (Ok se', c')
    ∧ members c' = apply_header (chat_id chat) (members c)
        {| hd_ignored := Some from; hd_to := to_ids; hd_past := past_ids; hd_timestamps := tss |}.
Proof.
  intros Hc Hfresh Htss. unfold apply_member_list, bind at 1. rewrite stale_guard.
  assert (takes_stale_branch now chat k c = false) as ->.
  { unfold takes_stale_branch. rewrite Hfresh. apply andb_false_r. }
  rewrite Htss. unfold bind at 1.
  destruct (update_chats_contacts_timestamps _ _ _ _ _ _) as [m t] eqn:E. unfold bind.
  unfold created_at in Hc. destruct (chats c !! chat_id chat) as [row|] eqn:Hrow; [|by destruct Hc].
  edestruct (members_after_timestamp (set_members (λ _, t) c)) as (b & c' & -> & Hm); [exact Hrow|].
  do 2 eexists. split; [done|]. rewrite Hm. unfold apply_header. simpl. by rewrite E.
Qed.

(** A message of a member with times is merged by [apply_group_changes]. *)
Lemma group_changes_merged lower now mime chat from to_ids past_ids created c tss :
  is_key_contact from c = (Ok true, c) → chat_typ chat = Chattype.Group →
  chat_is_special (chat_id chat) = false → is_Some (created_at c (chat_id chat)) →
  is_contact_in_chat (members c) (chat_id chat) from = true →
  (member_list_is_stale now chat c).1 = Ok false →
  chat_group_member_timestamps now TIMESTAMP_SENT_TOLERANCE mime = Some tss →
  ∃ info c', apply_group_changes lower now mime chat from to_ids past_ids created c = (Ok info, c')
    ∧ members c' = apply_header (chat_id chat) (members c)
        {| hd_ignored := Some from; hd_to := to_ids; hd_past := past_ids; hd_timestamps := tss |}.
Proof.
  intros Hk Htyp Hsp Hc Hin Hfresh Htss. unfold apply_group_changes, bind at 1. rewrite Hk.
  unfold ensure, chat_contacts. rewrite Htyp, Hsp, (bool_decide_eq_true_2 (Chattype.Group = _)) by done.
  cbn [negb orb]. unfold bind at 1, ret at 1. unfold bind at 1, ret at 1. unfold bind at 1, ret at 1.
  unfold bind at 1, gets at 1. cbv zeta.
  assert (from ∈ (list_to_set (get_chat_contacts (members c) (last_seen_of c) (chat_id chat)) : gset N))
    as Hfrom by (by apply elem_of_chat_contacts).
  rewrite (bool_decide_eq_true_2 _ Hfrom), orb_true_r. unfold bind at 1.
  destruct (explicit_changes_untouched lower mime chat from _ c Hfrom) as [ex ->]. unfold bind at 1.
  destruct (chat_changes_untouched mime from true chat false (ex_better ex) c Hc)
    as (chat1 & se1 & b1 & c1 & -> & M1 & I1 & P1 & T1).
  assert ((member_list_is_stale now chat1 c1).1 = Ok false) as Hfresh1.
  { revert Hfresh. unfold member_list_is_stale, member_list_timestamp, bind, gets, ret, created_at in *.
    rewrite P1, I1.
    destruct (get_i64 (chat_param chat) Param.MemberListTimestamp); [done|]. simpl.
    destruct (chats c1 !! chat_id chat), (chats c !! chat_id chat); simpl in *; congruence. }
  unfold bind at 1.
  edestruct (member_list_merged lower now mime chat1 from true to_ids past_ids) as (se2 & c2 & -> & M2);
    [by rewrite I1, T1|done|done|].
  unfold bind at 1, gets at 1. unfold bind at 1, when, emit_event, modify, ret, bind.
  destruct se2; (do 2 eexists; split; [reflexivity|]); simpl; by rewrite M2, I1, M1.
Qed.

(** ** Members learn from each other *)

Section Exchange.
Context {Key Sig : Type} (from_slice : list N -> option Key)
  (direct_signatures : Key -> list Sig) (signature_is_valid : Key -> Sig -> bool)
  (notations : Sig -> list (str * list N)) (from_utf8 : list N -> option str)
  (to_lowercase : str -> str) (env : RenderEnv).

Local Abbreviation sent := (sent from_slice direct_signatures signature_is_valid notations from_utf8
  to_lowercase env).
Local Abbreviation known := (known to_lowercase env).

(** C14. Members learn from each other: a device that gets a message from a member of a group, whose
    list it does not hold for outdated, matches the member headers the sender wrote to the right
    contacts and applies them: for every other member and every recent past member that the sender
    lists, it then holds the join of what it knew with what the sender knows, and what it holds
    about anybody else is unchanged; whatever else the message says, on additions, removals, the
    name, the description or the avatar.  (The sender's list is not outdated either, has another
    member, and lists distinct addresses; the message is encrypted; no time in it is in the future or
    before the epoch; the receiver knows the sender's key and the keys of the listed contacts, which
    have distinct contacts; capital letters are their own upper case.) *)
Theorem members_learn to_uppercase gen now_s now chat_s cs public_keys rows mime c kf rid tos pasts
  id from row_from :
  upper_fixes_capitals to_uppercase →
  sent now_s now chat_s cs public_keys rows mime → known c rows kf rid tos pasts →
  row_from ∈ contacts c → c_id row_from = from → c_fingerprint row_from ≠ [] →
  is_contact_in_chat (members c) id from = true → chat_is_special id = false →
  ∃ to_ids past_ids c1,
    get_to_and_past_contact_ids to_lowercase to_uppercase gen mime tos pasts (Some id) c
      = (Ok (to_ids, past_ids), c1)
    ∧ ∀ chat created,
        load_from_db id c1 = (Ok chat, c1) → chat_typ chat = Chattype.Group →
        (member_list_is_stale now chat c1).1 = Ok false →
        ∃ info c2,
          apply_group_changes to_lowercase now mime chat from to_ids past_ids created c1 = (Ok info, c2)
          ∧ (∀ r, r ∈ told_rows env rows → rid r ≠ from →
               table_stamp (members c2) (id, rid r)
               = lww_join (table_stamp (members c) (id, rid r))
                   (table_stamp (members cs) (chat_id chat_s, rr_id r)))
          ∧ (∀ y, y ∉ rid <$> told_rows env rows →
               table_stamp (members c2) (id, y) = table_stamp (members c) (id, y)).
Proof.
  intros Hup Hsent Hk Hrow Hid Hfp Hin Hsp.
  destruct (member_headers_matched from_slice direct_signatures signature_is_valid notations from_utf8
    to_lowercase env to_uppercase gen now_s now chat_s cs public_keys rows mime c kf rid tos pasts id from
    Hup Hsent Hk) as (c1 & Hrun & (Hwf1 & (Hm1 & _) & Hkeep) & Htss & Ht1 & Ht2).
  do 3 eexists. split; [exact Hrun|]. intros chat created Hload Htyp Hfresh.
  assert (chat_id chat = id ∧ is_Some (created_at c1 id)) as [Hcid Hcr].
  { unfold load_from_db, created_at in *. destruct (chats c1 !! id); [|done].
    injection Hload as <-. split; [done|by eexists]. }
  assert (is_key_contact from c1 = (Ok true, c1)) as Hkc.
  { destruct (Hkeep _ Hrow) as (r' & Hr' & Hi' & Hf'). unfold is_key_contact.
    rewrite <-Hid, <-Hi', (find_contact_id c1 r') by done.
    rewrite bool_decide_eq_false_2 by congruence. done. }
  destruct (group_changes_merged to_lowercase now mime chat from
    (Some <$> (rid <$> listed_of env rows)) (Some <$> (rid <$> recent_of env rows)) created c1
    ((rr_add <$> listed_of env rows) ++ (rr_remove <$> recent_of env rows)) Hkc Htyp)
    as (info & c2 & Hrun2 & Hm2); [by rewrite Hcid|by rewrite Hcid|by rewrite Hcid, Hm1|done|exact Htss|].
  exists info, c2. split; [done|]. rewrite Hm2, Hcid, Hm1. done.
Qed.
End Exchange.

(** ** Concrete runs *)

Lemma members_learn_witness :
  ∃ to_ids past_ids c1 chat info c2,
    get_to_and_past_contact_ids id ascii_upper [] sample_message
      [sample_info "alice@example.org"] [sample_info "carol@example.org"] (Some 20%N) sample_receiver
      = (Ok (to_ids, past_ids), c1)
    ∧ apply_group_changes id 1000 sample_message chat 14 to_ids past_ids false c1 = (Ok info, c2)
    ∧ is_contact_in_chat (members sample_receiver) 20 15 = true
    ∧ is_contact_in_chat (members c2) 20 15 = false.
Proof.
  destruct (members_learn (λ _, None) (λ _ : unit, [] : list unit) (λ _ _, false) (λ _, [])
    (λ _, None) id sample_env ascii_upper [] 1000 1000 sample_sent_chat sample_sender ∅ sample_rows
    sample_message sample_receiver sample_kf sample_rid [sample_info "alice@example.org"]
    [sample_info "carol@example.org"] 20 14 (sample_keyed 14 "me@example.org" (hex (sample_key 17)))
    ascii_upper_fixes sample_sent sample_known)
    as (to_ids & past_ids & c1 & H1 & H2); [|done..|].
  { apply list_elem_of_In. simpl. auto. }
  assert (E1 : c1 = sample_receiver).
  { vm_compute in H1. injection H1 as _ _ <-. vm_compute. reflexivity. }
  subst c1.
  destruct (H2 (loaded_chat 20 sample_group_row) false) as (info & c2 & H3 & H4 & _);
    [reflexivity|reflexivity|vm_compute; reflexivity|].
  do 6 eexists. split; [exact H1|]. split; [exact H3|]. split; [reflexivity|].
  specialize (H4 (sample_row 12 "carol@example.org" (hex (sample_key 204)) 50 300)).
  change (sample_rid _) with 15%N in H4.
  rewrite is_contact_in_chat_stamp, H4; [reflexivity| |done].
  apply list_elem_of_In. simpl. auto.
Defined.
