(* ===== verification/Simplify.v ===== *)
(** Simplify: how the text of a message is put together for sending
    (src/src/mimefactory.rs, the text part of [render_message]) and taken apart on receipt
    (src/src/simplify.rs): forward header, quote, footer, blank lines. *)
From S2P Require Import Prelude.

(** ** Lines *)

(** [split_lines]. *)
Definition split_lines (buf : str) : list str := split_char LF buf.

(** [is_empty_line], [is_quoted_headline], [is_plain_quote]. *)
Definition is_empty_line (buf : str) : bool := forallb is_whitespace buf.

Definition is_quoted_headline (buf : str) : bool :=
  (byte_len buf <=? 120)%N && ends_with [58]%N buf.

Definition is_plain_quote (buf : str) : bool := starts_with [62]%N buf.

(** [escape_message_footer_marks]: a zero width space protects lines that start with two
    dashes. *)
Definition escaped_dashes : str := [45; ZWSP; 45]%N.

Definition escape_message_footer_marks (text : str) : str :=
  match strip_prefix (lit "--") text with
  | Some text => escaped_dashes ++ replace (LF :: lit "--") (LF :: escaped_dashes) text
  | None => replace (LF :: lit "--") (LF :: escaped_dashes) text
  end.

(** ** Footers *)

(** [Option::is_none_or_empty] of tools.rs. *)
Definition is_none_or_empty (o : option str) : bool :=
  match o with None => true | Some s => bool_decide (s = []) end.

(** The loop of [remove_message_footer]: the index of the footer mark.  [lines] is the whole
    message, [rest] what is left from index [ix] on. *)
Fixpoint footer_scan (lines : list str) (ix : nat) (rest : list str)
  (nearly_standard_footer : option nat) : option nat :=
  match rest with
  | [] => nearly_standard_footer
  | line :: rest' =>
      if bool_decide (line = lit "-- ") || bool_decide (line = lit "--  ") then Some ix
      else if bool_decide (line = lit "--")
              && (bool_decide (ix = 0) || is_none_or_empty (lines !! (ix - 1)))
              && negb (is_none_or_empty (lines !! (ix + 1)))
      then footer_scan lines (S ix) rest' (Some ix)
      else footer_scan lines (S ix) rest' nearly_standard_footer
  end.

(** [remove_message_footer]. *)
Definition remove_message_footer (lines : list str) : list str * option (list str) :=
  match footer_scan lines 0 lines None with
  | Some ix => (take ix lines, Some (drop (ix + 1) lines))
  | None => (lines, None)
  end.

(** [remove_nonstandard_footer]. *)
Definition is_nonstandard_mark (line : str) : bool :=
  bool_decide (line = lit "--") || starts_with (lit "---") line
  || starts_with (lit "_____") line || starts_with (lit "=====") line
  || starts_with (lit "*****") line || starts_with (lit "~~~~~") line.

Fixpoint remove_nonstandard_footer (lines : list str) : list str * bool :=
  match lines with
  | [] => ([], false)
  | line :: rest =>
      if is_nonstandard_mark line then ([], true)
      else let '(kept, removed) := remove_nonstandard_footer rest in (line :: kept, removed)
  end.

(** [remove_footers]. *)
Definition remove_footers (msg : str) : str :=
  let lines := split_lines msg in
  let lines := (remove_message_footer lines).1 in
  let lines := (remove_nonstandard_footer lines).1 in
  join [LF] lines.

(** ** Quotes *)

(** One leading [>] and one space after it are removed from a quoted line. *)
Definition unquote (s : str) : str :=
  match strip_prefix [62]%N s with
  | None => s
  | Some u => default u (strip_prefix [SP] u)
  end.

(** The loop of [remove_top_quote]: first and last quoted line. *)
Fixpoint top_scan (is_chat_message : bool) (l : nat) (lines : list str)
  (first_quoted_line : nat) (last_quoted_line : option nat) (has_quoted_headline : bool)
  : nat * option nat :=
  match lines with
  | [] => (first_quoted_line, last_quoted_line)
  | line :: rest =>
      if is_plain_quote line then
        top_scan is_chat_message (S l) rest
          (match last_quoted_line with None => l | Some _ => first_quoted_line end)
          (Some l) has_quoted_headline
      else if negb is_chat_message && is_quoted_headline line && negb has_quoted_headline
              && bool_decide (last_quoted_line = None)
      then top_scan is_chat_message (S l) rest first_quoted_line last_quoted_line true
      else (first_quoted_line, last_quoted_line)
  end.

(** [remove_top_quote]. *)
Definition remove_top_quote (lines : list str) (is_chat_message : bool)
  : list str * option str :=
  match top_scan is_chat_message 0 lines 0 None false with
  | (first_quoted_line, Some last_quoted_line) =>
      (drop (last_quoted_line + 1) lines,
       Some (join [LF] (unquote <$> drop first_quoted_line (take (last_quoted_line + 1) lines))))
  | (_, None) => (lines, None)
  end.

(** The loop of [remove_bottom_quote], over the numbered lines from the last one on. *)
Fixpoint bottom_scan (lines : list (nat * str)) (first_quoted_line : nat)
  (last_quoted_line : option nat) : nat * option nat :=
  match lines with
  | [] => (first_quoted_line, last_quoted_line)
  | (l, line) :: rest =>
      if is_plain_quote line then
        bottom_scan rest
          (match last_quoted_line with None => l + 1 | Some _ => first_quoted_line end) (Some l)
      else if negb (is_empty_line line) then (first_quoted_line, last_quoted_line)
      else bottom_scan rest first_quoted_line last_quoted_line
  end.

(** The line before the quote is dropped with it if it satisfies [f], but never line 0. *)
Definition drop_line_before (f : str -> bool) (lines : list str) (l_last : nat) : nat :=
  if (1 <? l_last) && match lines !! (l_last - 1) with Some line => f line | None => false end
  then l_last - 1 else l_last.

(** [remove_bottom_quote]. *)
Definition remove_bottom_quote (lines : list str) : list str * option str :=
  match bottom_scan (rev (imap pair lines)) (length lines) None with
  | (first_quoted_line, Some l_last) =>
      let quoted_text :=
        join [LF] (unquote <$> drop l_last (take first_quoted_line lines)) in
      let l_last := drop_line_before is_empty_line lines l_last in
      let l_last := drop_line_before is_quoted_headline lines l_last in
      (take l_last lines, Some quoted_text)
  | (_, None) => (lines, None)
  end.

(** ** Rendering *)

(** The loop of [render_message]: blank lines are written only when a line follows, two line
    breaks at most. *)
Fixpoint render_loop (lines : list str) (ret : str) (pending_linebreaks : nat) : str :=
  match lines with
  | [] => ret
  | line :: rest =>
      if is_empty_line line then render_loop rest ret (S pending_linebreaks)
      else
        let breaks := match ret with
                      | [] => []
                      | _ => repeat LF (Nat.min 2 pending_linebreaks)
                      end in
        render_loop rest (ret ++ breaks ++ line) 1
  end.

(** [render_message]. *)
Definition render_message (lines : list str) (is_cut_at_end : bool) : str :=
  let ret := render_loop lines [] 0 in
  let ret := if is_cut_at_end && negb (bool_decide (ret = [])) then ret ++ lit " [...]" else ret in
  replace [ZWSP] [] ret.

(** ** Simplifying *)

(** [struct SimplifiedText]. *)
Record SimplifiedText := {
  text : str;
  is_forwarded : bool;
  is_cut : bool;
  top_quote : option str;
  footer : option str
}.

(** [simplify_quote]. *)
Definition simplify_quote (quote : str) : str * bool :=
  let '(quote_lines, quote_footer_lines) := remove_message_footer (split_lines quote) in
  (render_message quote_lines false, bool_decide (is_Some quote_footer_lines)).

Definition FORWARD_HEADER : str := lit "---------- Forwarded message ----------".

(** [skip_forward_header]. *)
Definition skip_forward_header (lines : list str) : list str * bool :=
  match lines with
  | header :: first_line :: empty :: rest =>
      if bool_decide (header = FORWARD_HEADER) && bool_decide (empty = [])
         && starts_with (lit "From: ") first_line
      then (rest, true) else (lines, false)
  | _ => (lines, false)
  end.

(** [simplify]. *)
Definition simplify (input : str) (is_chat_message : bool) : SimplifiedText :=
  let input := filter (λ c, c ≠ CR) input in
  let lines := split_lines input in
  let '(lines, is_forwarded) := skip_forward_header lines in
  let '(lines, top_quote) := remove_top_quote lines is_chat_message in
  let original_lines := lines in
  let '(lines, footer_lines) := remove_message_footer lines in
  let footer := (λ ls, render_message ls false) <$> footer_lines in
  if is_chat_message then
    {| text := render_message lines false; is_forwarded := is_forwarded; is_cut := false;
       top_quote := top_quote; footer := footer |}
  else
    let '(lines, has_nonstandard_footer) := remove_nonstandard_footer lines in
    let '(lines, bottom_quote) := remove_bottom_quote lines in
    let '(top_quote, bottom_quote) :=
      match top_quote, bottom_quote with
      | None, Some _ => (bottom_quote, top_quote)
      | _, _ => (top_quote, bottom_quote)
      end in
    let cut := has_nonstandard_footer || bool_decide (is_Some bottom_quote) in
    let blank := forallb (λ it, bool_decide (trim it = [])) lines in
    let text := if blank then render_message original_lines false
                else render_message lines cut in
    let is_cut := if blank then false else cut in
    let simplified := simplify_quote <$> top_quote in
    {| text := text; is_forwarded := is_forwarded;
       is_cut := is_cut || match simplified with Some (_, quote_cut) => quote_cut | None => false end;
       top_quote := fst <$> simplified; footer := footer |}.

(** ** Composing the text of a message *)

Definition CRLF : str := [CR; LF].

(** The quoted text of [render_message] in mimefactory.rs. *)
Definition quoted_block (is_encrypted protect_quote : bool) (msg_quoted_text : option str)
  (final_text : str) : str :=
  let quoted_text :=
    (λ q, concat ((λ quoted_line, lit "> " ++ quoted_line ++ CRLF) <$> split_char LF q) ++ CRLF)
      <$> msg_quoted_text in
  let quoted_text :=
    if negb is_encrypted && protect_quote then Some (lit "> ..." ++ CRLF ++ CRLF)
    else quoted_text in
  let quoted_text :=
    if bool_decide (quoted_text = None) && starts_with [62]%N final_text then Some CRLF
    else quoted_text in
  default [] quoted_text.

(** [message_text] of [render_message] in mimefactory.rs. *)
Definition message_text (post_message afwd_email is_encrypted protect_quote is_reaction : bool)
  (msg_quoted_text : option str) (final_text selfstatus : str) : str :=
  let fwdhint :=
    if afwd_email then FORWARD_HEADER ++ CRLF ++ lit "From: Delta Chat" ++ CRLF ++ CRLF else [] in
  let quoted_text := quoted_block is_encrypted protect_quote msg_quoted_text final_text in
  let footer := if is_reaction then [] else selfstatus in
  let nonempty (s : str) := negb (bool_decide (s = [])) in
  if post_message then []
  else
    fwdhint ++ quoted_text ++ escape_message_footer_marks final_text
    ++ (if nonempty final_text && nonempty footer then CRLF ++ CRLF else [])
    ++ (if nonempty footer then lit "-- " ++ CRLF else [])
    ++ footer.

(** ** Lemmas *)

#[local] Arguments N.eqb : simpl never.
#[local] Arguments lit : simpl never.

Lemma lit_dashes : lit "--" = [45; 45]%N.
Proof. done. Qed.

Definition esc_line (l : str) : str :=
  match strip_prefix (lit "--") l with Some r => escaped_dashes ++ r | None => l end.

Definition no_cr (s : str) : str := filter (λ c, c ≠ CR) s.

(** Lines, each ended by a line feed. *)
Definition unlines (ls : list str) : str := concat ((λ l, l ++ [LF]) <$> ls).

(** The characters [render_message] keeps. *)
Definition no_zwsp (s : str) : str := filter (λ c, c ≠ ZWSP) s.

Lemma no_cr_id s : CR ∉ s → no_cr s = s.
Proof. apply filter_id. Qed.

Lemma no_cr_app a b : no_cr (a ++ b) = no_cr a ++ no_cr b.
Proof. apply filter_app_chars. Qed.

Lemma split_lines_unlines ls s :
  Forall (λ l, LF ∉ l) ls → split_lines (unlines ls ++ s) = ls ++ split_lines s.
Proof.
  unfold unlines, split_lines. induction 1 as [|l ls Hl Hls IH]; [done|].
  rewrite fmap_cons. cbn [concat]. rewrite <-!app_assoc.
  change ([LF] ++ ?x) with (LF :: x). rewrite split_char_app by done. by rewrite IH.
Qed.

Lemma split_lines_LF a b : split_lines (a ++ LF :: b) = split_lines a ++ split_lines b.
Proof.
  unfold split_lines. induction a as [|c a IH]; [done|]. simpl. rewrite IH.
  destruct (c =? LF)%N; [done|].
  by destruct (split_char LF a) eqn:E; [apply split_char_not_nil in E|].
Qed.

Lemma split_lines_no_LF s : Forall (λ l, LF ∉ l) (split_lines s).
Proof. apply split_char_no_sep. Qed.

Lemma split_lines_cons c s :
  split_lines (c :: s)
  = if (c =? LF)%N then [] :: split_lines s
    else match split_lines s with [] => [[c]] | l :: ls => (c :: l) :: ls end.
Proof. done. Qed.

(** A first line starts with two dashes iff the text does. *)
Lemma strip_dashes_first s l ls :
  split_lines s = l :: ls →
  match strip_prefix (lit "--") s with
  | Some r => ∃ l', l = lit "--" ++ l' ∧ split_lines r = l' :: ls
  | None => strip_prefix (lit "--") l = None
  end.
Proof.
  rewrite lit_dashes. intros H. destruct s as [|a [|b s]]; cbn [strip_prefix].
  - by injection H as <- <-.
  - rewrite split_lines_cons in H. simpl in H. destruct (45 =? a)%N eqn:Ea, (a =? LF)%N;
      injection H as <- <-; cbn [strip_prefix]; by rewrite ?Ea.
  - destruct (split_lines s) as [|l' ls'] eqn:E; [by apply split_char_not_nil in E|].
    rewrite !split_lines_cons, E in H.
    destruct (N.eqb_spec 45 a) as [<-|Ha].
    + simpl in H. destruct (N.eqb_spec 45 b) as [<-|Hb].
      * injection H as <- <-. by exists l'.
      * destruct (N.eqb_spec b LF); injection H as <- <-; cbn [strip_prefix]; [done|].
        by destruct (N.eqb_spec 45 b).
    + destruct (N.eqb_spec a LF); [by injection H as <- <-|].
      destruct (N.eqb_spec b LF); injection H as <- <-; cbn [strip_prefix];
        by destruct (N.eqb_spec 45 a).
Qed.

Lemma esc_line_dashes r : esc_line (lit "--" ++ r) = escaped_dashes ++ r.
Proof. unfold esc_line. by rewrite strip_prefix_app. Qed.

Lemma esc_line_other l : strip_prefix (lit "--") l = None → esc_line l = l.
Proof. unfold esc_line. by intros ->. Qed.

Lemma replace_dashes fuel s l ls :
  length s ≤ fuel → split_lines s = l :: ls →
  replace_fuel fuel (LF :: lit "--") (LF :: escaped_dashes) s = join [LF] (l :: (esc_line <$> ls)).
Proof.
  revert s l ls. induction fuel as [|fuel IH]; intros [|c s] l ls Hlen Hs; simpl in Hlen; try lia.
  1,2: by injection Hs as <- <-.
  rewrite split_lines_cons in Hs.
  destruct (split_lines s) as [|l' ls'] eqn:E; [by apply split_char_not_nil in E|].
  cbn [replace_fuel]. change (strip_prefix (LF :: lit "--") (c :: s)) with
    (if (LF =? c)%N then strip_prefix (lit "--") s else None).
  rewrite (N.eqb_sym LF c). destruct (c =? LF)%N eqn:Ec.
  - injection Hs as <- <-. apply N.eqb_eq in Ec as ->.
    pose proof (strip_dashes_first _ _ _ E) as Hd.
    destruct (strip_prefix (lit "--") s) as [r|] eqn:Er.
    + destruct Hd as (x & -> & Hr). apply strip_prefix_Some in Er. subst s.
      rewrite (IH r x ls') by (try done; rewrite length_app in Hlen; simpl in Hlen; lia).
      rewrite fmap_cons, esc_line_dashes, (join_cons [LF] [] (_ :: _)) by done.
      unfold escaped_dashes. cbn [app]. by rewrite !join_cons_split.
    + rewrite (IH s l' ls') by (try done; lia).
      by rewrite fmap_cons, (esc_line_other _ Hd), (join_cons [LF] [] (_ :: _)) by done.
  - injection Hs as <- <-. rewrite (IH s l' ls') by (try done; lia). by rewrite join_cons_split.
Qed.

Lemma escape_lines s : escape_message_footer_marks s = join [LF] (esc_line <$> split_lines s).
Proof.
  unfold escape_message_footer_marks.
  destruct (split_lines s) as [|l ls] eqn:E; [by apply split_char_not_nil in E|].
  pose proof (strip_dashes_first _ _ _ E) as Hd.
  destruct (strip_prefix (lit "--") s) as [r|] eqn:Er.
  - destruct Hd as (x & -> & Hr). unfold replace. rewrite (replace_dashes _ _ _ _ (le_n _) Hr).
    rewrite fmap_cons, esc_line_dashes. unfold escaped_dashes. cbn [app].
    by rewrite !join_cons_split.
  - unfold replace. by rewrite (replace_dashes _ _ _ _ (le_n _) E), fmap_cons,
      (esc_line_other _ Hd).
Qed.

Lemma esc_line_no_LF l : LF ∉ l → LF ∉ esc_line l.
Proof.
  unfold esc_line. intros H. destruct (strip_prefix (lit "--") l) as [r|] eqn:E; [|done].
  apply strip_prefix_Some in E as ->. apply not_elem_of_app in H as [_ H].
  apply not_elem_of_app. split; [|done].
  by apply (bool_decide_eq_false_1 (LF ∈ escaped_dashes)).
Qed.

Lemma split_escape s : split_lines (escape_message_footer_marks s) = esc_line <$> split_lines s.
Proof.
  rewrite escape_lines. apply split_join.
  - intros H. apply fmap_nil_inv in H. by apply split_char_not_nil in H.
  - apply Forall_fmap. eapply Forall_impl; [|apply split_lines_no_LF].
    intros l Hl. by apply esc_line_no_LF.
Qed.

(** A line that is not taken for a footer mark. *)
Definition undashed (l : str) : Prop := starts_with (lit "--") l = false.

Lemma undashed_esc l : undashed (esc_line l).
Proof.
  unfold undashed, starts_with. destruct (strip_prefix (lit "--") l) as [r|] eqn:E.
  - apply strip_prefix_Some in E as ->. by rewrite esc_line_dashes.
  - rewrite (esc_line_other _ E). by rewrite E.
Qed.

Lemma undashed_Forall s : Forall undashed (esc_line <$> split_lines s).
Proof. apply Forall_fmap, Forall_true. intros l. apply undashed_esc. Qed.

Lemma footer_scan_skip lines ix pre rest n :
  Forall undashed pre →
  footer_scan lines ix (pre ++ rest) n = footer_scan lines (ix + length pre) rest n.
Proof.
  intros H. revert ix. induction H as [|l pre Hl _ IH]; intros ix; simpl.
  - by rewrite Nat.add_0_r.
  - rewrite !bool_decide_eq_false_2 by (intros ->; done). simpl.
    rewrite IH. f_equal. lia.
Qed.

Lemma remove_message_footer_none lines :
  Forall undashed lines → remove_message_footer lines = (lines, None).
Proof.
  intros H. unfold remove_message_footer.
  rewrite <-(app_nil_r lines) at 2. by rewrite footer_scan_skip.
Qed.

Lemma remove_message_footer_mark pre post :
  Forall undashed pre →
  remove_message_footer (pre ++ lit "-- " :: post) = (pre, Some post).
Proof.
  intros H. unfold remove_message_footer. rewrite footer_scan_skip by done.
  cbn [footer_scan]. rewrite bool_decide_eq_true_2 by done. cbn [orb Nat.add].
  rewrite take_app_length, drop_app_ge by lia.
  by replace (length pre + 1 - length pre) with 1 by lia.
Qed.

Lemma top_scan_quotes l qs ls f last h :
  Forall (λ q, is_plain_quote q = true) qs →
  match ls with [] => True | x :: _ => is_plain_quote x = false end →
  top_scan true l (qs ++ ls) f last h
  = match qs with
    | [] => (f, last)
    | _ => (match last with None => l | Some _ => f end, Some (l + length qs - 1))
    end.
Proof.
  intros H Hls. revert l f last. induction H as [|q qs Hq Hqs IH]; intros l f last; cbn [app].
  - destruct ls as [|x ls]; [done|]. cbn [top_scan]. by rewrite Hls.
  - cbn [top_scan]. rewrite Hq, IH. destruct qs; [|by destruct last; simpl; do 2 f_equal; lia].
    simpl. do 2 f_equal. lia.
Qed.

Lemma remove_top_quote_quotes qs ls :
  Forall (λ q, is_plain_quote q = true) qs →
  match ls with [] => True | x :: _ => is_plain_quote x = false end →
  remove_top_quote (qs ++ ls) true
  = match qs with
    | [] => (ls, None)
    | _ => (ls, Some (join [LF] (unquote <$> qs)))
    end.
Proof.
  intros Hq Hls. unfold remove_top_quote. rewrite top_scan_quotes by done.
  destruct qs as [|q qs]; [done|].
  replace (0 + length (q :: qs) - 1 + 1) with (length (q :: qs)) by (simpl; lia).
  by rewrite drop_app_length, take_app_length.
Qed.

Lemma unquote_quoted l : unquote (lit "> " ++ l) = l.
Proof. done. Qed.

Lemma unquote_quoted_all (ls : list str) : unquote <$> (app (lit "> ") <$> ls) = ls.
Proof. induction ls as [|l ls IH]; [done|]. by rewrite !fmap_cons, unquote_quoted, IH. Qed.

(** ** Lemmas: rendering *)

Lemma render_message_plain ls : render_message ls false = no_zwsp (render_loop ls [] 0).
Proof. unfold render_message. simpl. by rewrite replace_char_filter. Qed.

Lemma no_zwsp_app a b : no_zwsp (a ++ b) = no_zwsp a ++ no_zwsp b.
Proof. apply filter_app_chars. Qed.

Lemma render_pending ls p q : render_loop ls [] p = render_loop ls [] q.
Proof.
  revert p q. induction ls as [|l ls IH]; intros p q; simpl; [done|].
  destruct (is_empty_line l); [apply IH|done].
Qed.

Lemma render_blank_start b ls : is_empty_line b = true →
  render_message (b :: ls) false = render_message ls false.
Proof. intros H. rewrite !render_message_plain. simpl. rewrite H. f_equal. apply render_pending. Qed.

Lemma render_blank_end ls b : is_empty_line b = true →
  render_message (ls ++ [b]) false = render_message ls false.
Proof.
  intros H. rewrite !render_message_plain. f_equal. generalize (@nil N) as r, 0 as p.
  induction ls as [|l ls IH]; intros r p; simpl; [by rewrite H|].
  destruct (is_empty_line l); apply IH.
Qed.

Lemma is_empty_line_esc l : is_empty_line (esc_line l) = is_empty_line l.
Proof.
  unfold esc_line. destruct (strip_prefix (lit "--") l) as [r|] eqn:E; [|done].
  by apply strip_prefix_Some in E as ->.
Qed.

Lemma no_zwsp_esc l : no_zwsp (esc_line l) = no_zwsp l.
Proof.
  unfold esc_line. destruct (strip_prefix (lit "--") l) as [r|] eqn:E; [|done].
  apply strip_prefix_Some in E as ->. by rewrite !no_zwsp_app.
Qed.

Lemma app_nil_iff_nonblank (r b l : str) : is_empty_line l = false → r ++ b ++ l ≠ [].
Proof. intros H E. apply app_eq_nil in E as [_ E]. by apply app_eq_nil in E as [_ ->]. Qed.

Lemma render_esc_loop ls r1 r2 p :
  no_zwsp r1 = no_zwsp r2 → (r1 = [] ↔ r2 = []) →
  no_zwsp (render_loop (esc_line <$> ls) r1 p) = no_zwsp (render_loop ls r2 p).
Proof.
  revert r1 r2 p. induction ls as [|l ls IH]; intros r1 r2 p Hr Hn; [done|].
  rewrite fmap_cons. cbn [render_loop]. rewrite is_empty_line_esc.
  destruct (is_empty_line l) eqn:El; [by apply IH|]. apply IH.
  - rewrite !no_zwsp_app, Hr, no_zwsp_esc. do 2 f_equal.
    destruct Hn as [Hn1 Hn2].
    destruct r1, r2; [done|by specialize (Hn1 eq_refl)|by specialize (Hn2 eq_refl)|done].
  - split; intros E; exfalso; eapply app_nil_iff_nonblank, E; by rewrite ?is_empty_line_esc.
Qed.

Lemma render_esc ls : render_message (esc_line <$> ls) false = render_message ls false.
Proof. rewrite !render_message_plain. by apply render_esc_loop. Qed.

(** Text with no superfluous blank lines: none at the start, at the end or after another one, and
    none of white space. *)
Fixpoint tidy_lines (ls : list str) : bool :=
  match ls with
  | [] => false
  | l :: rest =>
      negb (is_empty_line l)
      && match rest with
         | [] => true
         | [] :: rest' => tidy_lines rest'
         | _ => tidy_lines rest
         end
  end.

Definition tidy (s : str) : bool := tidy_lines (split_lines s).

Lemma render_tidy_loop ls r p :
  tidy_lines ls = true →
  render_loop ls r p
  = r ++ match r with [] => [] | _ => repeat LF (Nat.min 2 p) end ++ join [LF] ls.
Proof.
  remember (length ls) as n eqn:Hn. revert ls r p Hn.
  induction (lt_wf n) as [n _ IH]. intros ls r p -> Ht.
  destruct ls as [|l rest]; [done|]. cbn [tidy_lines] in Ht.
  apply andb_true_iff in Ht as [Hl Ht]. apply negb_true_iff in Hl.
  cbn [render_loop]. rewrite Hl. set (r' := r ++ _ ++ l).
  assert (r' ≠ []) as Hr' by (by apply app_nil_iff_nonblank).
  destruct rest as [|l2 rest]; [done|].
  assert (∀ k ls, match r' with [] => [] | _ => repeat LF (Nat.min 2 k) end ++ ls
           = repeat LF (Nat.min 2 k) ++ ls) as Hbr by (by destruct r').
  destruct l2 as [|c l2].
  - cbn [render_loop is_empty_line forallb].
    rewrite (IH (length rest)) by (try done; simpl; lia).
    rewrite Hbr. unfold r'. rewrite <-!app_assoc. do 2 f_equal.
    by destruct rest as [|l3 rest].
  - rewrite (IH (length ((c :: l2) :: rest))) by (try done; simpl; lia).
    rewrite Hbr. unfold r'. rewrite <-!app_assoc. do 2 f_equal.
Qed.

Lemma render_tidy s : ZWSP ∉ s → tidy s = true → render_message (split_lines s) false = s.
Proof.
  unfold tidy. intros Hz Ht.
  rewrite render_message_plain, (render_tidy_loop _ [] 0 Ht). cbn [app].
  unfold split_lines. rewrite join_split. by apply filter_id.
Qed.

(** ** Lemmas: the lines of a composed message *)

Definition fwd_lines (fwd : bool) : list str :=
  if fwd then [FORWARD_HEADER; lit "From: Delta Chat"; []] else [].

(** The quote that is sent: a protected one is not revealed. *)
Definition sent_quote (is_encrypted protect_quote : bool) (quote : option str) : option str :=
  if negb is_encrypted && protect_quote then Some (lit "...") else quote.

Definition quote_lines (quote : option str) : list str :=
  match quote with Some q => app (lit "> ") <$> split_lines q | None => [] end.

(** The empty line between the quote and the text. *)
Definition gap_lines (quote : option str) (txt : str) : list str :=
  match quote with
  | Some _ => [[]]
  | None => if starts_with [62]%N txt then [[]] else []
  end.

Definition body_lines (txt foot : str) : list str :=
  match foot, txt with
  | [], _ => esc_line <$> split_lines txt
  | _, [] => []
  | _, _ => (esc_line <$> split_lines txt) ++ [[]]
  end.

Definition footer_lines (foot : str) : list str :=
  match foot with [] => [] | _ => lit "-- " :: split_lines foot end.

Lemma no_cr_crlf s : no_cr (CRLF ++ s) = LF :: no_cr s.
Proof. done. Qed.

Lemma no_cr_quoted q :
  CR ∉ q →
  no_cr (concat ((λ l, lit "> " ++ l ++ CRLF) <$> split_char LF q)) = unlines (quote_lines (Some q)).
Proof.
  intros H. unfold quote_lines, unlines.
  assert (∀ l, l ∈ split_lines q → CR ∉ l) as Hq.
  { intros l Hl Hin. apply H. rewrite <-(join_split LF q). by eapply join_char. }
  fold (split_lines q). induction (split_lines q) as [|l ls IH]; [done|].
  rewrite !fmap_cons. cbn [concat]. rewrite <-!app_assoc, !no_cr_app, IH, (no_cr_id l); [done| |].
  - apply Hq. by left.
  - intros l' Hl'. apply Hq. by right.
Qed.

Lemma quoted_block_lines enc protect quote txt :
  CR ∉ default [] quote →
  no_cr (quoted_block enc protect quote txt)
  = unlines (quote_lines (sent_quote enc protect quote)
             ++ gap_lines (sent_quote enc protect quote) txt).
Proof.
  intros H. unfold quoted_block, sent_quote.
  destruct (negb enc && protect); [done|].
  destruct quote as [q|].
  - cbn [fmap option_fmap option_map]. rewrite bool_decide_eq_false_2 by done. cbn [andb from_option id].
    rewrite no_cr_app, no_cr_quoted by done. unfold unlines. by rewrite fmap_app, concat_app.
  - simpl. by destruct (starts_with [62]%N txt).
Qed.

Lemma gap_lines_no_LF quote txt : Forall (λ l, LF ∉ l) (gap_lines quote txt).
Proof.
  destruct quote; simpl; [|destruct (starts_with _ _)]; repeat constructor; apply not_elem_of_nil.
Qed.

Lemma quote_lines_no_LF quote : Forall (λ l, LF ∉ l) (quote_lines quote).
Proof.
  destruct quote as [q|]; [|constructor]. apply Forall_fmap.
  eapply Forall_impl; [|apply split_lines_no_LF]. intros l Hl.
  apply not_elem_of_app. split; [by apply (bool_decide_eq_false_1 (LF ∈ lit "> "))|done].
Qed.

Lemma fwd_lines_no_LF fwd : Forall (λ l, LF ∉ l) (fwd_lines fwd).
Proof.
  destruct fwd; [|constructor].
  by apply (bool_decide_eq_true_1 (Forall (λ l, LF ∉ l) (fwd_lines true))).
Qed.

Lemma no_cr_escape txt : CR ∉ txt → no_cr (escape_message_footer_marks txt) = escape_message_footer_marks txt.
Proof.
  intros H. apply no_cr_id. intros Hin. rewrite escape_lines in Hin. apply H.
  apply join_char_inv in Hin as [Hin|(l & Hl & Hin)];
    [by apply (bool_decide_eq_false_1 (CR ∈ [LF])) in Hin|].
  apply list_elem_of_fmap in Hl as (l' & -> & Hl').
  rewrite <-(join_split LF txt). apply (join_char _ l'); [done|].
  unfold esc_line in Hin. destruct (strip_prefix (lit "--") l') as [r|] eqn:E; [|done].
  apply strip_prefix_Some in E as ->. apply elem_of_app in Hin as [Hin|Hin].
  - by apply (bool_decide_eq_false_1 (CR ∈ escaped_dashes)) in Hin.
  - by apply elem_of_app; right.
Qed.

Lemma unlines_app a b : unlines (a ++ b) = unlines a ++ unlines b.
Proof. unfold unlines. by rewrite fmap_app, concat_app. Qed.

Lemma text_part_lines txt foot :
  split_lines (escape_message_footer_marks txt
    ++ (if negb (bool_decide (txt = [])) && negb (bool_decide (foot = [])) then [LF; LF] else [])
    ++ (if negb (bool_decide (foot = [])) then lit "-- " ++ [LF] else []) ++ foot)
  = body_lines txt foot ++ footer_lines foot.
Proof.
  destruct foot as [|f foot].
  - rewrite andb_false_r. cbn [negb bool_decide]. rewrite bool_decide_eq_true_2 by done.
    cbn [negb app footer_lines body_lines]. by rewrite !app_nil_r, split_escape.
  - rewrite (bool_decide_eq_false_2 (f :: foot = [])) by done. rewrite andb_true_r. cbn [negb].
    rewrite <-app_assoc. change (lit "-- " ++ [LF] ++ ?x) with (unlines [lit "-- "] ++ x).
    assert (∀ t, split_lines (unlines [lit "-- "] ++ t) = lit "-- " :: split_lines t) as Hf.
    { intros t. rewrite split_lines_unlines; [done|].
      by apply (bool_decide_eq_true_1 (Forall (λ l, LF ∉ l) [lit "-- "])). }
    destruct txt as [|c txt].
    + rewrite bool_decide_eq_true_2 by done. cbn [negb app]. apply Hf.
    + rewrite bool_decide_eq_false_2 by done. cbn [negb app].
      rewrite split_lines_LF, split_escape, (split_lines_cons LF), N.eqb_refl, Hf.
      cbn [body_lines footer_lines]. by rewrite <-app_assoc.
Qed.

Lemma message_lines fwd enc protect (reaction : bool) quote txt status :
  CR ∉ txt → CR ∉ default [] quote → CR ∉ status →
  let foot := if reaction then [] else status in
  let q := sent_quote enc protect quote in
  split_lines (no_cr (message_text false fwd enc protect reaction quote txt status))
  = fwd_lines fwd ++ quote_lines q ++ gap_lines q txt ++ body_lines txt foot ++ footer_lines foot.
Proof.
  intros Ht Hq Hs foot q. unfold message_text. fold foot.
  assert (CR ∉ foot) as Hf by (unfold foot; destruct reaction; [apply not_elem_of_nil|done]).
  rewrite !no_cr_app, quoted_block_lines, no_cr_escape, (no_cr_id foot) by done. fold q.
  assert (no_cr (if fwd then FORWARD_HEADER ++ CRLF ++ lit "From: Delta Chat" ++ CRLF ++ CRLF
                 else []) = unlines (fwd_lines fwd)) as -> by (by destruct fwd).
  assert (∀ b : bool, no_cr (if b then CRLF ++ CRLF else []) = if b then [LF; LF] else [])
    as -> by (by intros []).
  assert (∀ b : bool, no_cr (if b then lit "-- " ++ CRLF else [])
                      = if b then lit "-- " ++ [LF] else []) as -> by (by intros []).
  rewrite split_lines_unlines by apply fwd_lines_no_LF. f_equal.
  rewrite split_lines_unlines by
    (apply Forall_app; split; [apply quote_lines_no_LF|apply gap_lines_no_LF]).
  by rewrite text_part_lines, <-app_assoc.
Qed.

(** What a line of a message starts with decides how it is taken. *)
Lemma first_body_line_unquoted txt foot l ls :
  starts_with [62]%N txt = false →
  body_lines txt foot ++ footer_lines foot = l :: ls → is_plain_quote l = false.
Proof.
  intros Ht H.
  assert (∀ x r, esc_line <$> split_lines txt = x :: r → is_plain_quote x = false) as Hx.
  { intros x r Hr. destruct txt as [|c txt]; [by injection Hr as <- <-|].
    rewrite split_lines_cons in Hr. unfold starts_with in Ht. cbn [strip_prefix] in Ht.
    destruct (c =? LF)%N; [by injection Hr as <- <-|].
    destruct (split_lines txt) as [|y ys]; rewrite fmap_cons in Hr; injection Hr as <- <-;
      unfold esc_line; (destruct (strip_prefix _ _); [done|]);
      unfold is_plain_quote, starts_with; cbn [strip_prefix]; by destruct (62 =? c)%N. }
  unfold body_lines, footer_lines in H. destruct foot as [|f foot].
  - rewrite app_nil_r in H. by eapply Hx.
  - destruct txt as [|c txt]; [by injection H as <- <-|].
    destruct (esc_line <$> split_lines (c :: txt)) as [|x r] eqn:E.
    + by injection H as <- <-.
    + injection H as <- <-. by eapply Hx.
Qed.

Lemma gap_then_body_unquoted q txt foot :
  match gap_lines q txt ++ body_lines txt foot ++ footer_lines foot with
  | [] => True
  | x :: _ => is_plain_quote x = false
  end.
Proof.
  destruct q as [q|]; simpl; [done|]. destruct (starts_with [62]%N txt) eqn:E; [done|].
  cbn [app]. destruct (body_lines txt foot ++ footer_lines foot) as [|l ls] eqn:H; [done|].
  by eapply first_body_line_unquoted.
Qed.

Lemma body_lines_undashed txt foot : Forall undashed (body_lines txt foot).
Proof.
  destruct foot; [|destruct txt; [constructor|apply Forall_app; split; [|by repeat constructor]]];
    apply undashed_Forall.
Qed.

Lemma gap_lines_undashed q txt : Forall undashed (gap_lines q txt).
Proof. destruct q; simpl; [|destruct (starts_with _ _)]; by repeat constructor. Qed.

(** A composed message is taken for a forwarded one only if it has the header. *)
Lemma skip_forward_composed fwd q txt foot :
  let rest := quote_lines q ++ gap_lines q txt ++ body_lines txt foot ++ footer_lines foot in
  skip_forward_header (fwd_lines fwd ++ rest) = (rest, fwd).
Proof.
  intros rest. destruct fwd; [done|]. cbn [fwd_lines app].
  destruct rest as [|h [|l1 [|l2 ls]]] eqn:E; try done. cbn [skip_forward_header].
  assert (h ≠ FORWARD_HEADER) as Hh; [|by rewrite bool_decide_eq_false_2].
  intros ->. unfold rest in E. destruct q as [q|].
  - simpl in E. destruct (split_lines q) as [|a r] eqn:Eq; [by apply split_char_not_nil in Eq|].
    by rewrite fmap_cons in E.
  - cbn [quote_lines app] in E. destruct (gap_lines None txt) as [|g gs] eqn:Eg.
    + pose proof (body_lines_undashed txt foot) as Hb.
      destruct (body_lines txt foot) as [|b bs].
      * unfold footer_lines in E. by destruct foot.
      * injection E as -> E. by inversion Hb.
    + pose proof (gap_lines_undashed None txt) as Hg. rewrite Eg in Hg.
      injection E as -> E. by inversion Hg.
Qed.

Lemma render_body q txt foot :
  render_message (gap_lines q txt ++ body_lines txt foot) false
  = render_message (split_lines txt) false.
Proof.
  assert (render_message (body_lines txt foot) false = render_message (split_lines txt) false)
    as Hb.
  { unfold body_lines. destruct foot as [|f foot]; [apply render_esc|].
    destruct txt as [|c txt]; [done|]. rewrite render_blank_end by done. apply render_esc. }
  destruct q as [q|]; cbn [gap_lines app]; [by rewrite render_blank_start|].
  destruct (starts_with _ _); cbn [app]; [by rewrite render_blank_start|done].
Qed.

Lemma quote_lines_quoted q : Forall (λ l, is_plain_quote l = true) (quote_lines q).
Proof. destruct q; [|constructor]. apply Forall_fmap, Forall_true. done. Qed.

Lemma top_quote_composed q ls :
  match ls with [] => True | x :: _ => is_plain_quote x = false end →
  remove_top_quote (quote_lines q ++ ls) true = (ls, q).
Proof.
  intros H. rewrite remove_top_quote_quotes by (done || apply quote_lines_quoted).
  destruct q as [q|]; [|done]. unfold quote_lines. rewrite unquote_quoted_all.
  unfold split_lines. rewrite join_split.
  by destruct (split_char LF q) eqn:E; [apply split_char_not_nil in E|].
Qed.

(** C35. What a user writes arrives: if neither the text nor the quote nor the status contains a
    carriage return, the receiver takes the message apart exactly as the sender put it together.  It
    is marked as forwarded iff it was forwarded, the quote is the quote that was sent, the footer is
    the sender's status, and the text is the text as [render_message] shows it, with superfluous blank
    lines and zero width spaces removed: lines that look like footer marks, quotes or a forward header
    are not mistaken for those.  A text with no zero width space and no superfluous blank lines (at
    the start, at the end, after another one, or of white space) arrives unchanged. *)
Theorem chat_text_roundtrip fwd enc protect (reaction : bool) quote txt status :
  CR ∉ txt → CR ∉ default [] quote → CR ∉ status →
  let foot := if reaction then [] else status in
  simplify (message_text false fwd enc protect reaction quote txt status) true
  = {| text := render_message (split_lines txt) false;
       is_forwarded := fwd;
       is_cut := false;
       top_quote := sent_quote enc protect quote;
       footer := if bool_decide (foot = []) then None
                 else Some (render_message (split_lines foot) false) |}
  ∧ (ZWSP ∉ txt → tidy txt = true → render_message (split_lines txt) false = txt).
Proof.
  intros Ht Hq Hs foot. split; [|apply render_tidy].
  unfold simplify. fold (no_cr (message_text false fwd enc protect reaction quote txt status)).
  rewrite message_lines by done. fold foot. rewrite skip_forward_composed.
  rewrite top_quote_composed by apply gap_then_body_unquoted.
  rewrite app_assoc. destruct foot as [|f ft] eqn:Ef; cbn [footer_lines].
  - rewrite app_nil_r, remove_message_footer_none by
      (apply Forall_app; split; [apply gap_lines_undashed|apply body_lines_undashed]).
    by rewrite render_body.
  - rewrite remove_message_footer_mark by
      (apply Forall_app; split; [apply gap_lines_undashed|apply body_lines_undashed]).
    by rewrite render_body.
Qed.

(** ** Lemmas: mails of other programs *)

Lemma trim_nil s : bool_decide (trim s = []) = is_empty_line s.
Proof.
  unfold is_empty_line.
  destruct (forallb is_whitespace s) eqn:E.
  - apply bool_decide_eq_true_2. apply trim_start_by_nil in E. unfold trim, trim_start. by rewrite E.
  - apply bool_decide_eq_false_2. unfold trim, trim_end, trim_end_by, trim_start. intros H.
    destruct (trim_start_by is_whitespace s) as [|c r] eqn:Ec.
    + apply trim_start_by_nil in Ec. congruence.
    + apply trim_start_by_head in Ec as Hc.
      apply (f_equal (@rev N)) in H. rewrite rev_involutive in H. simpl in H.
      apply trim_start_by_nil in H. rewrite forallb_app in H. simpl in H.
      by rewrite Hc, andb_false_r in H.
Qed.

Lemma render_loop_nil ls r p :
  render_loop ls r p = [] ↔ r = [] ∧ forallb is_empty_line ls = true.
Proof.
  revert r p. induction ls as [|l ls IH]; intros r p; simpl.
  - split; [done|by intros [H _]].
  - destruct (is_empty_line l) eqn:E; rewrite IH; [done|].
    split; [|by intros [_ H]]. intros [H _]. by apply app_nil_iff_nonblank in H.
Qed.

Lemma render_loop_chars c ls r p :
  c ∈ render_loop ls r p → c ∈ r ∨ c = LF ∨ ∃ l, l ∈ ls ∧ c ∈ l.
Proof.
  revert r p. induction ls as [|l ls IH]; intros r p; simpl; [by left|].
  destruct (is_empty_line l); intros H; apply IH in H as [H|[H|(l' & Hl & Hc)]]; auto.
  - right; right. exists l'. split; [by right|done].
  - apply elem_of_app in H as [H|H]; [by left|]. apply elem_of_app in H as [H|H].
    + right; left. destruct r as [|a r]; [by apply not_elem_of_nil in H|].
      destruct p as [|[|p]]; simpl in H; repeat (apply elem_of_cons in H as [H|H]; [done|]);
        by apply not_elem_of_nil in H.
    + right; right. exists l. split; [by left|done].
  - right; right. exists l'. split; [by right|done].
Qed.

Lemma render_message_nil ls cut :
  (∀ l, l ∈ ls → ZWSP ∉ l) →
  render_message ls cut = [] ↔ forallb is_empty_line ls = true.
Proof.
  intros H. unfold render_message. rewrite replace_char_filter.
  assert (ZWSP ∉ render_loop ls [] 0) as Hz.
  { intros [Hz|[Hz|(l & Hl & Hz)]]%render_loop_chars; [by apply not_elem_of_nil in Hz|done|].
    by eapply H. }
  destruct (render_loop_nil ls [] 0) as [Hn1 Hn2].
  rewrite filter_id.
  - case_bool_decide as E; rewrite ?andb_false_r; simpl.
    + split; [intros _; by apply Hn1|intros ?; by apply Hn2].
    + split; [|intros Hb; by destruct E; apply Hn2]. intros Hn. destruct E.
      destruct cut; [by apply app_eq_nil in Hn as [? _]|done].
  - destruct (cut && _); [|done]. apply not_elem_of_app. split; [done|].
    by apply (bool_decide_eq_false_1 (ZWSP ∈ lit " [...]")).
Qed.

Lemma take_elem {A} (x : A) n l : x ∈ take n l → x ∈ l.
Proof. intros H. rewrite <-(take_drop n l). apply elem_of_app. by left. Qed.

Lemma footer_removed_sub l lines : l ∈ (remove_message_footer lines).1 → l ∈ lines.
Proof. unfold remove_message_footer. destruct (footer_scan _ _ _ _); [apply take_elem|done]. Qed.

Lemma nonstandard_removed_sub l lines : l ∈ (remove_nonstandard_footer lines).1 → l ∈ lines.
Proof.
  induction lines as [|a lines IH]; simpl; [done|].
  destruct (is_nonstandard_mark a); [by intros ?%not_elem_of_nil|].
  destruct (remove_nonstandard_footer lines) as [kept removed]. simpl in *.
  intros [<-|H]%elem_of_cons; [by left|right; by apply IH].
Qed.

Lemma bottom_quote_removed_sub l lines : l ∈ (remove_bottom_quote lines).1 → l ∈ lines.
Proof.
  unfold remove_bottom_quote. destruct (bottom_scan _ _ _) as [? [?|]]; [apply take_elem|done].
Qed.

(** The body of a mail: what follows the forward header and the top quote. *)
Definition mail_body (input : str) : list str :=
  (remove_top_quote (skip_forward_header (split_lines (no_cr input))).1 false).1.

Lemma mail_body_sub l input : l ∈ mail_body input → l ∈ split_lines (no_cr input).
Proof.
  unfold mail_body, remove_top_quote. destruct (top_scan _ _ _ _ _ _) as [? [k|]]; simpl.
  - intros H. assert (l ∈ (skip_forward_header (split_lines (no_cr input))).1) as Hl.
    { rewrite <-(take_drop (k + 1)). apply elem_of_app. by right. }
    revert Hl. unfold skip_forward_header. destruct (split_lines _) as [|? [|? [|? ?]]]; try done.
    case_match; [|done]. simpl. intros Hl. by do 3 right.
  - unfold skip_forward_header. destruct (split_lines _) as [|? [|? [|? ?]]]; try done.
    case_match; [|done]. simpl. intros Hl. by do 3 right.
Qed.

Lemma blank_lines lines :
  forallb (λ it, bool_decide (trim it = [])) lines = forallb is_empty_line lines.
Proof. induction lines as [|l lines IH]; simpl; [done|]. by rewrite trim_nil, IH. Qed.

(** Simplifying a mail of another program never loses its text: the text shown is empty
    exactly if the mail has nothing but blank lines after its forward header and its top
    quote.  (When cutting footers and quotes would leave nothing, they are kept.) *)
Theorem mail_text_not_lost input :
  ZWSP ∉ input →
  text (simplify input false) = [] ↔ forallb is_empty_line (mail_body input) = true.
Proof.
  intros Hz.
  assert (∀ l, l ∈ mail_body input → ZWSP ∉ l) as Hb.
  { intros l Hl Hc. apply mail_body_sub in Hl. apply Hz.
    assert (ZWSP ∈ no_cr input) as Hin by
      (rewrite <-(join_split LF (no_cr input)); by eapply join_char).
    by apply list_elem_of_filter in Hin as [_ ?]. }
  unfold simplify. fold (no_cr input). unfold mail_body in *.
  destruct (skip_forward_header _) as [l1 fwd]. cbn [fst] in *.
  destruct (remove_top_quote l1 false) as [body tq]. cbn [fst] in *.
  pose proof (λ l, footer_removed_sub l body) as S1.
  destruct (remove_message_footer body) as [l2 foot]. cbn [fst] in *.
  pose proof (λ l, nonstandard_removed_sub l l2) as S2.
  destruct (remove_nonstandard_footer l2) as [l3 nsf]. cbn [fst] in *.
  pose proof (λ l, bottom_quote_removed_sub l l3) as S3.
  destruct (remove_bottom_quote l3) as [l4 bq]. cbn [fst] in *.
  assert (∀ l, l ∈ l4 → l ∈ body) as S4 by auto. clear S1 S2 S3.
  destruct (match tq with Some _ => (tq, bq) | None => _ end) as [tq' bq'].
  cbn [text]. rewrite blank_lines.
  destruct (forallb is_empty_line l4) eqn:E; [by apply render_message_nil|].
  assert (forallb is_empty_line body = false) as ->.
  { apply not_true_is_false. intros Hall. rewrite forallb_forall in Hall.
    apply not_true_iff_false in E. apply E, forallb_forall. intros l Hl.
    apply Hall. rewrite <-list_elem_of_In in *. auto. }
  split; [|done]. intros H. apply render_message_nil in H; [congruence|]. intros l Hl. auto.
Qed.

(** ** Concrete runs *)

Lemma chat_text_roundtrip_witness :
  simplify (message_text false true true false false (Some (lit "How are you?"))
              (lit "-- " ++ [LF] ++ lit "> fine" ++ [LF; LF] ++ lit "-- bye") (lit "my status")) true
  = {| text := lit "-- " ++ [LF] ++ lit "> fine" ++ [LF; LF] ++ lit "-- bye";
       is_forwarded := true; is_cut := false; top_quote := Some (lit "How are you?");
       footer := Some (lit "my status") |}.
Proof.
  edestruct (chat_text_roundtrip true true false false (Some (lit "How are you?"))
    (lit "-- " ++ [LF] ++ lit "> fine" ++ [LF; LF] ++ lit "-- bye") (lit "my status")) as [H H'].
  1-3: by apply (bool_decide_eq_false_1 (CR ∈ _)).
  rewrite H, H'; [reflexivity|by apply (bool_decide_eq_false_1 (ZWSP ∈ _))|reflexivity].
Defined.

(** Without the condition on carriage returns the text is not kept: the footer mark behind one is
    not escaped, but found by the receiver, who drops the carriage returns first. *)
Example carriage_return_cuts_text :
  let txt := lit "a" ++ [LF; CR] ++ lit "-- " ++ [LF] ++ lit "b" in
  let s := simplify (message_text false false true false false None txt []) true in
  (text s, footer s) = (lit "a", Some (lit "b")).
Proof. reflexivity. Qed.

(** The zero width spaces a user typed are lost, like those that escape footer marks. *)
Example zero_width_spaces_lost :
  text (simplify (message_text false false true false false None (lit "a" ++ [ZWSP] ++ lit "b") []) true)
  = lit "ab".
Proof. reflexivity. Qed.

Lemma mail_text_not_lost_witness :
  text (simplify (lit "On Monday, Bob wrote:" ++ [LF] ++ lit "> hi" ++ [CR; LF] ++ lit "--" ++ [LF]
                  ++ lit "only a footer") false) ≠ [].
Proof.
  intros H. apply mail_text_not_lost in H; [discriminate H|].
  by apply (bool_decide_eq_false_1 (ZWSP ∈ _)).
Defined.

(** A message that looks forwarded but was typed is not taken for a forwarded one. *)
Example typed_forward_header :
  is_forwarded (simplify (message_text false false true false false None
    (FORWARD_HEADER ++ [LF] ++ lit "From: x" ++ [LF; LF] ++ lit "y") []) true) = false.
Proof. reflexivity. Qed.

(** The footer mark of another mail program, and the cut text. *)
Example cut_mail :
  let s := simplify (lit "Hello" ++ [LF] ++ lit "_____" ++ [LF] ++ lit "ad") false in
  (text s, is_cut s) = (lit "Hello [...]", true).
Proof. reflexivity. Qed.
