(* ===== verification/FormatFlowed.v ===== *)
(** FormatFlowed: the format=flowed line wrapping of RFC 3676
    (src/format-flowed/src/lib.rs). *)
From S2P Require Import Prelude.

Definition GT : char := 62%N.

(** ** Formatting *)

(** Space stuffing: a line that would start with a space or a quote mark gets a space. *)
Definition stuff (buffer : str) : str := match buffer with [] => [SP] | _ => buffer end.

(** The loop of [format_line_flowed]. *)
Fixpoint flow_loop (prefix result buffer : str) (after_space : bool) (line : str) : str :=
  match line with
  | [] => result ++ buffer
  | c :: line =>
      if (c =? SP)%N then flow_loop prefix result (stuff buffer ++ [c]) true line
      else if (c =? GT)%N then flow_loop prefix result (stuff buffer ++ [c]) false line
      else if after_space && (72 <=? byte_len buffer)%N && negb (is_whitespace c)
      then flow_loop prefix (result ++ buffer ++ [CR; LF]) (prefix ++ [c]) false line
      else flow_loop prefix result (buffer ++ [c]) false line
  end.

(** [format_line_flowed]. *)
Definition format_line_flowed (line prefix : str) : str :=
  flow_loop prefix [] prefix (ends_with [SP] prefix) line.

(** One round of the loop of [format_flowed]: the quote marks and one space after them are
    the prefix. *)
Definition flow_line (line : str) : str :=
  let line := trim_end line in
  let '(prefix, line) := span (λ c, c =? GT)%N line in
  match prefix, strip_prefix [SP] line with
  | _ :: _, Some s => format_line_flowed s (prefix ++ [SP])
  | _, _ => format_line_flowed line prefix
  end.

(** [format_flowed]. *)
Definition format_flowed (text : str) : str :=
  foldl (λ result line, (match result with [] => [] | _ => result ++ [CR; LF] end)
                        ++ flow_line line)
        [] (split_char LF text).

(** [format_flowed_quote]. *)
Definition format_flowed_quote (text : str) : str :=
  format_flowed
    (foldl (λ result line, (match result with [] => [] | _ => result ++ [LF] end)
                           ++ lit "> " ++ line)
           [] (split_char LF text)).

(** ** Joining the lines of a received text *)

(** The text of one line: the quote marks of a continuation line and the stuffed space go. *)
Definition unstuff (result : str) (skip_newline : bool) (line : str) : str :=
  let line :=
    if negb (bool_decide (result = [])) && skip_newline
    then trim_start_by (λ c, c =? GT)%N line else line in
  default line (strip_prefix [SP] line).

(** The loop of [unformat_flowed]. *)
Fixpoint unformat_loop (delsp : bool) (lines : list str) (result : str) (skip_newline : bool)
  : str :=
  match lines with
  | [] => result
  | line :: lines =>
      let line := unstuff result skip_newline line in
      let result := if skip_newline then result else result ++ [LF] in
      match strip_suffix [SP] line with
      | Some line =>
          unformat_loop delsp lines (result ++ line ++ if delsp then [] else [SP]) true
      | None => unformat_loop delsp lines (result ++ line) false
      end
  end.

(** [unformat_flowed]. *)
Definition unformat_flowed (text : str) (delsp : bool) : str :=
  unformat_loop delsp (split_char LF text) [] true.

(** ** Lemmas *)

#[local] Arguments N.eqb : simpl never.

(** The physical lines of a formatted line. *)
Fixpoint flow_segs (prefix buffer : str) (after_space : bool) (line : str) : list str :=
  match line with
  | [] => [buffer]
  | c :: line =>
      if (c =? SP)%N then flow_segs prefix (stuff buffer ++ [c]) true line
      else if (c =? GT)%N then flow_segs prefix (stuff buffer ++ [c]) false line
      else if after_space && (72 <=? byte_len buffer)%N && negb (is_whitespace c)
      then buffer :: flow_segs prefix (prefix ++ [c]) false line
      else flow_segs prefix (buffer ++ [c]) false line
  end.

Lemma flow_segs_not_nil prefix b a line : flow_segs prefix b a line ≠ [].
Proof.
  revert b a. induction line as [|c line IH]; intros b a; simpl; [done|].
  destruct (c =? SP)%N; [apply IH|]. destruct (c =? GT)%N; [apply IH|].
  destruct (_ && _); [done|apply IH].
Qed.

Lemma flow_loop_segs prefix result b a line :
  flow_loop prefix result b a line = result ++ join [CR; LF] (flow_segs prefix b a line).
Proof.
  revert result b a. induction line as [|c line IH]; intros result b a; simpl; [done|].
  destruct (c =? SP)%N; [apply IH|]. destruct (c =? GT)%N; [apply IH|].
  destruct (_ && _); [|apply IH].
  rewrite IH, join_cons by apply flow_segs_not_nil. by rewrite <-!app_assoc.
Qed.

Lemma stuff_chars b x : x ∈ stuff b → x = SP ∨ x ∈ b.
Proof. destruct b; [|auto]. intros H. left. by apply list_elem_of_singleton in H. Qed.

Lemma flow_segs_chars prefix b a line s x :
  s ∈ flow_segs prefix b a line → x ∈ s → x = SP ∨ x ∈ prefix ∨ x ∈ b ∨ x ∈ line.
Proof.
  revert b a. induction line as [|c line IH]; intros b a; simpl.
  - intros ->%list_elem_of_singleton. auto.
  - assert (∀ b', (∀ x, x ∈ b' → x = SP ∨ x ∈ b ∨ x = c) → ∀ a',
              s ∈ flow_segs prefix b' a' line → x ∈ s →
              x = SP ∨ x ∈ prefix ∨ x ∈ b ∨ x ∈ c :: line) as Hstep.
    { intros b' Hb' a' Hs Hx. rewrite elem_of_cons.
      destruct (IH _ _ Hs Hx) as [?|[?|[H|?]]]; auto. destruct (Hb' _ H) as [?|[?|?]]; auto. }
    destruct (c =? SP)%N; [|destruct (c =? GT)%N; [|destruct (_ && _)]].
    1,2: apply Hstep; intros y [[H|H]%stuff_chars|H%list_elem_of_singleton]%elem_of_app; auto.
    + intros [->|Hs]%elem_of_cons Hx; [auto|]. rewrite elem_of_cons.
      destruct (IH _ _ Hs Hx) as [?|[?|[H|?]]]; auto.
      apply elem_of_app in H as [?|H%list_elem_of_singleton]; auto.
    + apply Hstep. intros y [H|H%list_elem_of_singleton]%elem_of_app; auto.
Qed.

(** What [unformat_loop] makes of a buffer does not depend on what follows in the line. *)
Definition settled (R : str) (skip : bool) (b : str) : Prop :=
  b ≠ [] ∧ ∀ x, unstuff R skip (b ++ x) = unstuff R skip b ++ x.

Definition ends_sp (s : str) : Prop := ∃ y, s = y ++ [SP].

Definition quote_prefix (prefix : str) : Prop :=
  ∃ n sp, prefix = repeat GT n ++ sp ∧ (sp = [] ∨ sp = [SP] ∧ n ≠ 0).

Lemma settled_app R skip b x : settled R skip b → settled R skip (b ++ x).
Proof.
  intros [Hb H]. split; [by intros [? _]%app_eq_nil|]. intros y.
  by rewrite <-app_assoc, !H, app_assoc.
Qed.

Lemma strip_suffix_no_sp s : ¬ ends_sp s → strip_suffix [SP] s = None.
Proof.
  intros H. destruct (strip_suffix [SP] s) as [y|] eqn:E; [|done].
  destruct H. exists y. by apply strip_suffix_Some.
Qed.

Lemma unstuff_continuation R prefix c x :
  R ≠ [] → quote_prefix prefix → c ≠ GT → c ≠ SP →
  unstuff R true ((prefix ++ [c]) ++ x) = c :: x.
Proof.
  intros HR (n & sp & -> & Hsp) Hg Hs. unfold unstuff.
  rewrite bool_decide_eq_false_2 by done. cbn [negb andb].
  assert (∀ t, trim_start_by (λ d, d =? GT)%N (repeat GT n ++ t)
               = trim_start_by (λ d, d =? GT)%N t) as Hn by (clear; intros; by induction n).
  rewrite <-!app_assoc, Hn. destruct Hsp as [-> | [-> _]]; simpl.
  - rewrite (proj2 (N.eqb_neq c GT)) by done. simpl.
    by rewrite (proj2 (N.eqb_neq SP c)) by done.
  - done.
Qed.

(** The physical lines of a formatted line are joined to the line again. *)
Lemma unformat_segs prefix rest line R skip b a :
  quote_prefix prefix → settled R skip b →
  (a = true → ends_sp (unstuff R skip b)) →
  ¬ ends_sp (unstuff R skip b ++ line) →
  unformat_loop false (flow_segs prefix b a line ++ rest) R skip
  = unformat_loop false rest
      ((if skip then R else R ++ [LF]) ++ unstuff R skip b ++ line) false.
Proof.
  intros Hp. revert R skip b a. induction line as [|c line IH]; intros R skip b a Hb Ha Hend.
  - simpl. rewrite app_nil_r in *. by rewrite (strip_suffix_no_sp _ Hend).
  - assert (∀ a', (a' = true → c = SP) →
       unformat_loop false (flow_segs prefix (b ++ [c]) a' line ++ rest) R skip
       = unformat_loop false rest
           ((if skip then R else R ++ [LF]) ++ unstuff R skip b ++ c :: line) false) as Hpush.
    { destruct Hb as [Hb0 Hb]. intros a' Ha'. rewrite IH.
      - by rewrite Hb, <-(app_assoc _ [c]).
      - by apply settled_app.
      - intros ->%Ha'. rewrite Hb. by eexists.
      - by rewrite Hb, <-app_assoc. }
    cbn [flow_segs]. assert (stuff b = b) as Hstuff by (destruct Hb; by destruct b).
    destruct (N.eqb_spec c SP) as [Hsp|Hsp]; [rewrite Hstuff; by apply Hpush|].
    destruct (N.eqb_spec c GT) as [Hgt|Hgt]; [rewrite Hstuff; by apply Hpush|].
    destruct (a && _ && _) eqn:Hflush; [|by apply Hpush].
    do 2 apply andb_true_iff in Hflush as [Hflush _].
    destruct (Ha Hflush) as [y Hy]. cbn [app unformat_loop]. rewrite Hy, strip_suffix_app.
    set (R' := _ ++ y ++ [SP]).
    assert (R' ≠ []) as HR' by (unfold R'; intros [_ [_ ?]%app_eq_nil]%app_eq_nil; done).
    assert (∀ x, unstuff R' true ((prefix ++ [c]) ++ x) = c :: x) as Hc
      by (intros; by apply unstuff_continuation).
    pose proof (Hc []) as Hc0. rewrite app_nil_r in Hc0.
    rewrite IH, Hc0.
    + f_equal. unfold R'. by rewrite <-!app_assoc.
    + split; [by intros [_ ?]%app_eq_nil|]. intros x. by rewrite Hc, Hc0.
    + done.
    + rewrite Hc0. intros [z Hz]. apply Hend. exists (unstuff R skip b ++ z).
      change (c :: line) with ([c] ++ line). rewrite Hz. by rewrite app_assoc.
Qed.

(** The prefix and the rest of a line. *)
Definition line_parts (line : str) : str * str :=
  let '(prefix, line) := span (λ c, c =? GT)%N line in
  match prefix, strip_prefix [SP] line with
  | _ :: _, Some s => (prefix ++ [SP], s)
  | _, _ => (prefix, line)
  end.

Definition line_segs (line : str) : list str :=
  let '(prefix, l) := line_parts line in flow_segs prefix prefix (ends_with [SP] prefix) l.

Lemma flow_line_segs line : flow_line line = join [CR; LF] (line_segs (trim_end line)).
Proof.
  unfold flow_line, line_segs, line_parts, format_line_flowed.
  destruct (span _ _) as [[|g p] l]; [by rewrite flow_loop_segs|].
  destruct (strip_prefix [SP] l); by rewrite flow_loop_segs.
Qed.

Lemma span_spec f s : let '(a, b) := span f s in
  s = a ++ b ∧ forallb f a = true ∧ match b with [] => True | c :: _ => f c = false end.
Proof.
  induction s as [|c s IH]; simpl; [done|]. destruct (f c) eqn:E; [|by rewrite E || done].
  destruct (span f s) as [a b]. destruct IH as (-> & Ha & Hb). simpl. by rewrite E, Ha.
Qed.

Lemma line_parts_spec line :
  let '(prefix, l) := line_parts line in
  line = prefix ++ l ∧ quote_prefix prefix
  ∧ (prefix = [] → ∀ c l', l = c :: l' → c ≠ GT)
  ∧ (ends_sp prefix ∨ ¬ ends_sp prefix ∧ ends_with [SP] prefix = false).
Proof.
  unfold line_parts. pose proof (span_spec (λ c, c =? GT)%N line) as Hs.
  destruct (span _ line) as [a b]. destruct Hs as (-> & Ha & Hb).
  assert (a = repeat GT (length a)) as Hrep.
  { clear Hb. induction a as [|c a IH]; [done|]. simpl in *.
    apply andb_true_iff in Ha as [->%N.eqb_eq Ha]. f_equal. by apply IH. }
  assert (¬ ends_sp a) as Hsp.
  { intros [y ->]. rewrite forallb_app in Ha. by apply andb_true_iff in Ha as [_ ?]. }
  assert (ends_with [SP] a = false) as Hew
    by (unfold ends_with; by rewrite strip_suffix_no_sp).
  destruct a as [|g a].
  - split_and!; [done|by exists 0, []; auto| |by right].
    intros _ c l' ->. by apply N.eqb_neq in Hb.
  - destruct (strip_prefix [SP] b) as [s|] eqn:E.
    + apply strip_prefix_Some in E as ->. split_and!; [by rewrite <-app_assoc| |done|].
      * exists (length (g :: a)), [SP]. rewrite Hrep at 1. auto.
      * left. by eexists.
    + split_and!; [done| |done|by right].
      exists (length (g :: a)), []. rewrite app_nil_r. auto.
Qed.

(** One formatted line, at the start of the text or after a fixed line. *)
Lemma unformat_line line rest R skip :
  R = [] ∨ skip = false → ¬ ends_sp line →
  unformat_loop false (line_segs line ++ rest) R skip
  = unformat_loop false rest ((if skip then R else R ++ [LF]) ++ line) false.
Proof.
  intros Hmode Hend. unfold line_segs. pose proof (line_parts_spec line) as Hp.
  destruct (line_parts line) as [prefix l]. destruct Hp as (-> & Hpre & Hempty & Hsp).
  assert (∀ s, unstuff R skip s = default s (strip_prefix [SP] s)) as Hu.
  { intros s. unfold unstuff. destruct Hmode as [-> | ->]; [done|].
    by rewrite andb_false_r. }
  assert (∀ b, b ≠ [] → settled R skip b) as Hset.
  { intros [|c b] Hb; [done|]. split; [done|]. intros x. rewrite !Hu. simpl.
    by destruct (SP =? c)%N. }
  destruct prefix as [|g p].
  - destruct l as [|c l]; [simpl; rewrite Hu; simpl; by rewrite !app_nil_r|].
    simpl app in *. cbn [flow_segs stuff].
    assert (∀ a b, unstuff R skip b = [c] → b ≠ [] → (a = true → c = SP) →
      unformat_loop false (flow_segs [] b a l ++ rest) R skip
      = unformat_loop false rest ((if skip then R else R ++ [LF]) ++ c :: l) false) as Hgo.
    { intros a b Hb Hn Ha. rewrite unformat_segs; [by rewrite Hb|done|by apply Hset| |by rewrite Hb].
      intros ->%Ha. rewrite Hb. by exists []. }
    destruct (N.eqb_spec c SP) as [->|Hs]; [by apply Hgo; rewrite ?Hu|].
    destruct (N.eqb_spec c GT) as [->|Hg]; [by apply Hgo; rewrite ?Hu|].
    cbn [ends_with andb]. simpl. apply Hgo; [|done|done].
    rewrite Hu. simpl. by destruct (N.eqb_spec SP c).
  - assert (unstuff R skip (g :: p) = g :: p) as Hup.
    { rewrite Hu. destruct Hpre as ([|n] & sp & Heq & Hsp'); simpl in Heq.
      - by destruct Hsp' as [-> | [_ ?]].
      - by injection Heq as -> ->. }
    rewrite unformat_segs; [by rewrite Hup|done|by apply Hset| |by rewrite Hup].
    rewrite Hup. destruct Hsp as [?|[_ ->]]; done.
Qed.

Lemma trim_end_not_sp l : ¬ ends_sp (trim_end l).
Proof.
  intros [y H]. unfold trim_end, trim_end_by in H. apply (f_equal (@rev N)) in H.
  rewrite rev_involutive, rev_app_distr in H. by apply trim_start_by_head in H.
Qed.

Lemma unformat_lines ls R :
  Forall (λ l, ¬ ends_sp l) ls →
  unformat_loop false (concat (line_segs <$> ls)) R false = R ++ concat (app [LF] <$> ls).
Proof.
  intros H. revert R. induction H as [|l ls Hl _ IH]; intros R; [by rewrite app_nil_r|].
  rewrite fmap_cons. cbn [concat]. rewrite unformat_line, IH by auto.
  rewrite fmap_cons. cbn [concat]. by rewrite <-!app_assoc.
Qed.

Lemma line_segs_not_nil l : line_segs l ≠ [].
Proof. unfold line_segs. destruct (line_parts l). apply flow_segs_not_nil. Qed.

(** Only an empty line is formatted as nothing. *)
Lemma flow_line_nil l : flow_line l = [] ↔ trim_end l = [].
Proof.
  rewrite flow_line_segs. split; [|by intros ->]. intros H.
  destruct (line_segs (trim_end l)) as [|s [|s' ss]] eqn:E.
  - by apply line_segs_not_nil in E.
  - simpl in H. subst s. pose proof (unformat_line (trim_end l) [] [] true) as Hu.
    rewrite E in Hu.
    exact (eq_sym (Hu (or_introl eq_refl) (trim_end_not_sp l))).
  - rewrite join_cons in H by done. by apply app_eq_nil in H as [_ ?].
Qed.

Fixpoint drop_leading_empty (ls : list str) : list str :=
  match ls with
  | [] :: ls => drop_leading_empty ls
  | _ => ls
  end.

Lemma format_foldl ls R :
  R ≠ [] →
  foldl (λ result line, (match result with [] => [] | _ => result ++ [CR; LF] end)
                        ++ flow_line line) R ls
  = R ++ concat (app [CR; LF] <$> (flow_line <$> ls)).
Proof.
  revert R. induction ls as [|l ls IH]; intros R HR; [by rewrite app_nil_r|].
  cbn [foldl]. destruct R as [|r R]; [done|]. rewrite IH by done.
  rewrite !fmap_cons. cbn [concat]. by rewrite <-!app_assoc.
Qed.

Lemma flow_lines_join l ls :
  join [CR; LF] (concat (line_segs <$> (trim_end <$> (l :: ls))))
  = flow_line l ++ concat (app [CR; LF] <$> (flow_line <$> ls)).
Proof.
  revert l. induction ls as [|l' ls IH]; intros l; rewrite !fmap_cons; cbn [concat].
  - by rewrite app_nil_r, app_nil_r, flow_line_segs.
  - rewrite join_app.
    + rewrite <-flow_line_segs. specialize (IH l'). rewrite !fmap_cons in IH. cbn [concat] in IH.
      by rewrite IH, <-app_assoc.
    + apply line_segs_not_nil.
    + intros [H _]%app_eq_nil. by apply line_segs_not_nil in H.
Qed.

Lemma format_flowed_segs text :
  format_flowed text
  = join [CR; LF] (concat (line_segs <$> drop_leading_empty (trim_end <$> split_char LF text))).
Proof.
  unfold format_flowed. induction (split_char LF text) as [|l ls IH]; [done|].
  rewrite fmap_cons. cbn [foldl app]. destruct (trim_end l) as [|c t] eqn:E.
  - rewrite (proj2 (flow_line_nil l) E). apply IH.
  - rewrite format_foldl by (intros H%flow_line_nil; congruence).
    cbn [drop_leading_empty]. rewrite <-E, <-fmap_cons. by rewrite flow_lines_join.
Qed.

Lemma trim_end_chars c l : c ∈ trim_end l → c ∈ l.
Proof.
  unfold trim_end, trim_end_by. intros H. apply list_elem_of_In, in_rev, list_elem_of_In in H.
  destruct (trim_start_by_suffix is_whitespace (rev l)) as (p & Hp & _).
  apply list_elem_of_In, in_rev, list_elem_of_In. rewrite Hp. apply elem_of_app. by right.
Qed.

Lemma line_segs_chars l s c : s ∈ line_segs l → c ∈ s → c = SP ∨ c ∈ l.
Proof.
  unfold line_segs. pose proof (line_parts_spec l) as Hp. destruct (line_parts l) as [p l'].
  destruct Hp as (-> & _). intros Hs Hc. rewrite elem_of_app.
  destruct (flow_segs_chars _ _ _ _ _ _ Hs Hc) as [?|[?|[?|?]]]; auto.
Qed.

Lemma drop_leading_sub l ls : l ∈ drop_leading_empty ls → l ∈ ls.
Proof.
  induction ls as [|[|c a] ls IH]; simpl; [done|intros H; right; by apply IH|done].
Qed.

Lemma join_crlf S :
  Forall (λ s, CR ∉ s) S → filter (λ c, c ≠ CR) (join [CR; LF] S) = join [LF] S.
Proof.
  induction 1 as [|s S Hs HS IH]; [done|]. destruct S as [|s' S]; [by apply filter_id|].
  rewrite !(join_cons _ s) by done. rewrite !filter_app_chars, IH, filter_id by done. done.
Qed.

Lemma flowed_roundtrip_segs ls :
  Forall (λ l, (CR ∉ l) ∧ (LF ∉ l) ∧ ¬ ends_sp l) ls →
  unformat_flowed (filter (λ c, c ≠ CR) (join [CR; LF] (concat (line_segs <$> ls)))) false
  = join [LF] ls.
Proof.
  intros H. unfold unformat_flowed.
  assert (∀ s, s ∈ concat (line_segs <$> ls) → (CR ∉ s) ∧ (LF ∉ s)) as Hchars.
  { intros s Hs. induction H as [|l ls (Hcr & Hlf & _) _ IH]; [by apply not_elem_of_nil in Hs|].
    rewrite fmap_cons in Hs. cbn [concat] in Hs. apply elem_of_app in Hs as [Hs|Hs]; [|auto].
    split; intros Hc; by destruct (line_segs_chars _ _ _ Hs Hc). }
  rewrite join_crlf by (apply Forall_forall; intros s Hs; by apply Hchars, list_elem_of_In).
  destruct H as [|l ls (Hcr & Hlf & Hsp) Hls]; [done|].
  rewrite split_join.
  - rewrite fmap_cons. cbn [concat]. rewrite unformat_line by auto.
    rewrite unformat_lines by (eapply Forall_impl; [|exact Hls]; by intros ? (_ & _ & ?)).
    by rewrite join_concat.
  - rewrite fmap_cons. cbn [concat]. intros [E _]%app_eq_nil. by apply line_segs_not_nil in E.
  - apply Forall_forall. intros s Hs. by apply Hchars, list_elem_of_In.
Qed.

Lemma trimmed_lines_ok text :
  CR ∉ text →
  Forall (λ l, (CR ∉ l) ∧ (LF ∉ l) ∧ ¬ ends_sp l)
    (drop_leading_empty (trim_end <$> split_char LF text)).
Proof.
  intros H. apply Forall_forall. intros l Hl.
  apply list_elem_of_In, drop_leading_sub, list_elem_of_fmap in Hl as (l' & -> & Hl').
  split_and!; [| |apply trim_end_not_sp]; intros Hc%trim_end_chars.
  - apply H. rewrite <-(join_split LF text). by eapply join_char.
  - pose proof (split_char_no_sep LF text) as Hn. rewrite Forall_forall in Hn.
    by apply (Hn l'); [apply list_elem_of_In|].
Qed.

(** The quoted text of [format_flowed_quote] before wrapping. *)
Lemma quote_lines_foldl ls R :
  R ≠ [] →
  foldl (λ result line, (match result with [] => [] | _ => result ++ [LF] end)
                        ++ lit "> " ++ line) R ls
  = R ++ concat (app [LF] <$> (app (lit "> ") <$> ls)).
Proof.
  revert R. induction ls as [|l ls IH]; intros R HR; [by rewrite app_nil_r|].
  cbn [foldl]. destruct R as [|r R]; [done|]. rewrite IH by done.
  rewrite !fmap_cons. cbn [concat]. by rewrite <-!app_assoc.
Qed.

(** C36. Wrapping is undone by unwrapping: a text that was formatted as format=flowed and
    received (its line ends made LF) unwraps to the original text, up to white space at the
    ends of lines and empty lines at the start.  This holds for every text without carriage
    returns: quoted lines of any depth, lines that start with spaces, long words. *)
Theorem flowed_roundtrip text :
  CR ∉ text →
  unformat_flowed (filter (λ c, c ≠ CR) (format_flowed text)) false
    = join [LF] (drop_leading_empty (trim_end <$> split_char LF text))
  ∧ unformat_flowed (filter (λ c, c ≠ CR) (format_flowed_quote text)) false
    = join [LF] ((λ l, trim_end (lit "> " ++ l)) <$> split_char LF text).
Proof.
  intros H. split.
  - rewrite format_flowed_segs. apply flowed_roundtrip_segs. by apply trimmed_lines_ok.
  - unfold format_flowed_quote. destruct (split_char LF text) as [|l ls] eqn:E;
      [by apply split_char_not_nil in E|].
    cbn [foldl app]. rewrite quote_lines_foldl, <-join_concat, <-fmap_cons, <-E by done.
    set (q := join [LF] _).
    assert (split_char LF q = app (lit "> ") <$> split_char LF text) as Hq.
    { apply split_join; [by rewrite E|]. apply Forall_fmap.
      eapply Forall_impl; [|apply split_char_no_sep]. intros a Ha.
      apply not_elem_of_app. split; [by apply (bool_decide_eq_false_1 (LF ∈ lit "> "))|done]. }
    assert (CR ∉ q) as Hcr.
    { intros [Hc|(a & Ha & Hc)]%join_char_inv;
        [by apply (bool_decide_eq_false_1 (CR ∈ [LF])) in Hc|].
      apply list_elem_of_fmap in Ha as (b & -> & Hb). apply elem_of_app in Hc as [Hc|Hc];
        [by apply (bool_decide_eq_false_1 (CR ∈ lit "> ")) in Hc|].
      apply H. rewrite <-(join_split LF text). by eapply join_char. }
    rewrite format_flowed_segs, flowed_roundtrip_segs by (by apply trimmed_lines_ok).
    rewrite Hq, <-list_fmap_compose, E, fmap_cons. cbn [compose drop_leading_empty].
    destruct (trim_end (lit "> " ++ l)) as [|c t] eqn:Et;
      [|by rewrite fmap_cons, Et].
    unfold trim_end, trim_end_by in Et. apply (f_equal (@rev N)) in Et.
    rewrite rev_involutive in Et. apply trim_start_by_nil in Et.
    simpl in Et. by rewrite !forallb_app, andb_false_r in Et.
Qed.

(** ** Concrete runs *)

Lemma flowed_roundtrip_witness :
  unformat_flowed (filter (λ c, c ≠ CR)
    (format_flowed (lit "> one" ++ [LF] ++ lit "  two" ++ [LF] ++ lit ">three  "))) false
  = lit "> one" ++ [LF] ++ lit "  two" ++ [LF] ++ lit ">three".
Proof.
  edestruct (flowed_roundtrip (lit "> one" ++ [LF] ++ lit "  two" ++ [LF] ++ lit ">three  "))
    as [H _]; [by apply (bool_decide_eq_false_1 (CR ∈ _))|].
  rewrite H. reflexivity.
Defined.

(** The test case of format-flowed: a quote longer than 72 characters is wrapped. *)
Example wrap_quote :
  format_flowed_quote (lit "this is a very long quote that should be wrapped using format=flowed and unwrapped on the receiver")
  = lit "> this is a very long quote that should be wrapped using format=flowed and "
    ++ [CR; LF] ++ lit "> unwrapped on the receiver".
Proof. vm_compute. reflexivity. Qed.
