(* ===== verification/MsgTable.v ===== *)
(** MsgTable: the messages of an account, as the database stores them: message types, states
    and download states (src/src/message.rs, src/src/download.rs), the rows of [msgs] and of
    the tables that refer to them, and the rows left behind by deletion. *)
From S2P Require Import Prelude Ids Params.

(** ** Enumerations, with the numbers stored in the database *)

Module MessageState.
(** [enum MessageState], in the order of the discriminants. *)
Inductive MessageState : Set :=
| Undefined | InFresh | InNoticed | InSeen | OutDraft | OutPending | OutFailed | OutDelivered
| OutMdnRcvd.

Definition to_u32 (s : MessageState) : Z :=
  match s with
  | Undefined => 0 | InFresh => 10 | InNoticed => 13 | InSeen => 16 | OutDraft => 19
  | OutPending => 20 | OutFailed => 24 | OutDelivered => 26 | OutMdnRcvd => 28
  end%Z.

(** [MessageState::can_fail]. *)
Definition can_fail (s : MessageState) : bool :=
  match s with OutPending | OutDelivered | OutMdnRcvd => true | _ => false end.

(** [MessageState::is_outgoing]. *)
Definition is_outgoing (s : MessageState) : bool :=
  match s with
  | OutDraft | OutPending | OutFailed | OutDelivered | OutMdnRcvd => true
  | _ => false
  end.

(** [MessageState::with_mdns]. *)
Definition with_mdns (s : MessageState) (has_mdns : bool) : MessageState :=
  match s with
  | OutDelivered => if has_mdns then OutMdnRcvd else s
  | _ => s
  end.
End MessageState.

Abbreviation MessageState := MessageState.MessageState.

#[export] Instance MessageState_eq_dec : EqDecision MessageState.
Proof. solve_decision. Defined.

(** SQL's [max] of two states. *)
Definition max_state (a b : MessageState) : MessageState :=
  if (MessageState.to_u32 a <? MessageState.to_u32 b)%Z then b else a.

Module DownloadState.
(** [enum DownloadState]. *)
Inductive DownloadState : Set := Done | Available | Failure | Undecipherable | InProgress.
End DownloadState.

Abbreviation DownloadState := DownloadState.DownloadState.

#[export] Instance DownloadState_eq_dec : EqDecision DownloadState.
Proof. solve_decision. Defined.

Module Viewtype.
(** [enum Viewtype]. *)
Inductive Viewtype : Set :=
| Unknown | Text | Image | Gif | Sticker | Audio | Voice | Video | File | Call | Webxdc | Vcard.
End Viewtype.

Abbreviation Viewtype := Viewtype.Viewtype.

#[export] Instance Viewtype_eq_dec : EqDecision Viewtype.
Proof. solve_decision. Defined.

Module ChatVisibility.
(** [enum ChatVisibility]. *)
Inductive ChatVisibility : Set := Normal | Archived | Pinned.
End ChatVisibility.

Abbreviation ChatVisibility := ChatVisibility.ChatVisibility.

#[export] Instance ChatVisibility_eq_dec : EqDecision ChatVisibility.
Proof. solve_decision. Defined.

(** ** Rows *)

(** A row of [msgs]: the columns the code below reads or writes. *)
Record msg_row := {
  m_rfc724_mid : str;
  m_pre_rfc724_mid : str;
  m_chat_id : ChatId;
  m_from_id : ContactId;
  m_timestamp : Z;
  m_timestamp_rcvd : Z;
  m_type : Viewtype;
  m_state : MessageState;
  m_hidden : bool;
  m_param : str;
  m_location_id : N;
  m_error : str;
  m_ephemeral_timer : Z;
  m_ephemeral_timestamp : Z;
  m_download_state : DownloadState;
  m_deleted : bool
}.

(** A row inserted with only identifiers and time: every other column has its default. *)
Definition trashed_row (r : msg_row) (deleted : bool) : msg_row :=
  {| m_rfc724_mid := m_rfc724_mid r;
     m_pre_rfc724_mid := m_pre_rfc724_mid r;
     m_chat_id := DC_CHAT_ID_TRASH;
     m_from_id := UNDEFINED;
     m_timestamp := m_timestamp r;
     m_timestamp_rcvd := 0;
     m_type := Viewtype.Unknown;
     m_state := MessageState.Undefined;
     m_hidden := false;
     m_param := [];
     m_location_id := 0;
     m_error := [];
     m_ephemeral_timer := 0;
     m_ephemeral_timestamp := 0;
     m_download_state := DownloadState.Done;
     m_deleted := deleted |}.

Definition with_state (r : msg_row) (s : MessageState) : msg_row :=
  {| m_rfc724_mid := m_rfc724_mid r; m_pre_rfc724_mid := m_pre_rfc724_mid r;
     m_chat_id := m_chat_id r; m_from_id := m_from_id r; m_timestamp := m_timestamp r;
     m_timestamp_rcvd := m_timestamp_rcvd r; m_type := m_type r; m_state := s;
     m_hidden := m_hidden r; m_param := m_param r; m_location_id := m_location_id r;
     m_error := m_error r; m_ephemeral_timer := m_ephemeral_timer r;
     m_ephemeral_timestamp := m_ephemeral_timestamp r;
     m_download_state := m_download_state r; m_deleted := m_deleted r |}.

Definition with_error (r : msg_row) (e : str) : msg_row :=
  {| m_rfc724_mid := m_rfc724_mid r; m_pre_rfc724_mid := m_pre_rfc724_mid r;
     m_chat_id := m_chat_id r; m_from_id := m_from_id r; m_timestamp := m_timestamp r;
     m_timestamp_rcvd := m_timestamp_rcvd r; m_type := m_type r; m_state := m_state r;
     m_hidden := m_hidden r; m_param := m_param r; m_location_id := m_location_id r;
     m_error := e; m_ephemeral_timer := m_ephemeral_timer r;
     m_ephemeral_timestamp := m_ephemeral_timestamp r;
     m_download_state := m_download_state r; m_deleted := m_deleted r |}.

Definition with_msg_param (r : msg_row) (p : str) : msg_row :=
  {| m_rfc724_mid := m_rfc724_mid r; m_pre_rfc724_mid := m_pre_rfc724_mid r;
     m_chat_id := m_chat_id r; m_from_id := m_from_id r; m_timestamp := m_timestamp r;
     m_timestamp_rcvd := m_timestamp_rcvd r; m_type := m_type r; m_state := m_state r;
     m_hidden := m_hidden r; m_param := p; m_location_id := m_location_id r;
     m_error := m_error r; m_ephemeral_timer := m_ephemeral_timer r;
     m_ephemeral_timestamp := m_ephemeral_timestamp r;
     m_download_state := m_download_state r; m_deleted := m_deleted r |}.

Definition with_ephemeral_timestamp (r : msg_row) (ts : Z) : msg_row :=
  {| m_rfc724_mid := m_rfc724_mid r; m_pre_rfc724_mid := m_pre_rfc724_mid r;
     m_chat_id := m_chat_id r; m_from_id := m_from_id r; m_timestamp := m_timestamp r;
     m_timestamp_rcvd := m_timestamp_rcvd r; m_type := m_type r; m_state := m_state r;
     m_hidden := m_hidden r; m_param := m_param r; m_location_id := m_location_id r;
     m_error := m_error r; m_ephemeral_timer := m_ephemeral_timer r;
     m_ephemeral_timestamp := ts;
     m_download_state := m_download_state r; m_deleted := m_deleted r |}.

Abbreviation msg_table := (gmap N msg_row).

(** A row of [imap]: where a message is on a server; an empty target asks for deletion. *)
Record imap_row := {
  i_transport_id : N;
  i_rfc724_mid : str;
  i_target : str
}.

(** ** Updates of a table *)

(** [UPDATE msgs SET ... WHERE ...]: the rows where [f] gives a new value; the second
    component tells whether there were any. *)
Definition update_where {A} (f : N -> A -> option A) (t : gmap N A) : gmap N A :=
  map_imap (λ id r, Some (default r (f id r))) t.

Definition any_row {A} (p : N -> A -> bool) (t : gmap N A) : bool :=
  existsb (λ kr, p kr.1 kr.2) (map_to_list t).

Lemma update_where_lookup {A} (f : N -> A -> option A) t id :
  update_where f t !! id = (λ r, default r (f id r)) <$> t !! id.
Proof.
  unfold update_where. rewrite map_lookup_imap. by destruct (t !! id).
Qed.

Lemma any_row_false {A} (p : N -> A -> bool) t :
  any_row p t = false ↔ ∀ id r, t !! id = Some r → p id r = false.
Proof.
  unfold any_row. split.
  - intros H id r Hr. apply not_true_is_false. intros Hp.
    apply not_true_iff_false in H. apply H, existsb_exists.
    exists (id, r). split; [|done]. by apply list_elem_of_In, elem_of_map_to_list.
  - intros H. apply not_true_is_false. intros ([id r] & Hin & Hp)%existsb_exists.
    apply list_elem_of_In, elem_of_map_to_list in Hin. simpl in Hp. by rewrite (H _ _ Hin) in Hp.
Qed.

(** ** Deletion *)

(** The [INSERT OR REPLACE] of [MsgId::trash], [ChatId::delete_ex] and
    [delete_expired_messages]. *)
Definition replace_by_tombstone (deleted : bool) (id : MsgId) (t : msg_table) : msg_table :=
  match t !! id with
  | Some r => <[id := trashed_row r deleted]> t
  | None => t
  end.

(** [MsgId::trash]. *)
Definition trash (id : MsgId) (on_server : bool) (t : msg_table) : msg_table :=
  replace_by_tombstone on_server id t.

Lemma replace_by_tombstone_lookup deleted id t k :
  replace_by_tombstone deleted id t !! k
  = if decide (k = id) then (λ r, trashed_row r deleted) <$> t !! k else t !! k.
Proof.
  unfold replace_by_tombstone. destruct (decide (k = id)) as [->|Hk].
  - destruct (t !! id) eqn:E; [by rewrite lookup_insert_eq|by rewrite E].
  - destruct (t !! id); [by rewrite lookup_insert_ne|done].
Qed.

(** ** The database of messages *)

(** The columns of [chats] that matter for messages. *)
Record chat_state := {
  cs_type : Chattype.Chattype;
  cs_visibility : ChatVisibility;
  cs_blocked : option Blocked.Blocked;
  cs_ephemeral_timer : option Z;
  cs_param : str
}.

(** The events about messages. *)
Inductive MsgEvent :=
| MsgDeleted (chat_id : ChatId) (msg_id : MsgId)
| MsgsChanged (chat_id : ChatId)
| WebxdcInstanceDeleted (msg_id : MsgId)
| MsgsNoticed (chat_id : ChatId)
| MsgDelivered (chat_id : ChatId) (msg_id : MsgId)
| MsgFailed (chat_id : ChatId) (msg_id : MsgId)
| MsgRead (chat_id : ChatId) (msg_id : MsgId)
| MsgReadCountChanged (chat_id : ChatId) (msg_id : MsgId)
| ChatEphemeralTimerModified (chat_id : ChatId) (timer : Z)
| ChatlistItemChanged (chat_id : ChatId).

Record MsgDb := {
  msgs : msg_table;
  msgs_mdns : list (N * N * Z);
  smtp_mdns : list (N * N * str);
  imap_table : gmap N imap_row;
  imap_markseen : list N;
  locations : gmap N bool;
  chats : gmap N chat_state;
  last_msg_id : N;
  bcc_self : bool;
  mdns_enabled : bool;
  delete_device_after : Z;
  self_chat : option N;
  device_chat : option N;
  events : list MsgEvent
}.

Definition set_msgs (f : msg_table -> msg_table) (d : MsgDb) : MsgDb :=
  {| msgs := f (msgs d); msgs_mdns := msgs_mdns d; smtp_mdns := smtp_mdns d; imap_table := imap_table d;
     imap_markseen := imap_markseen d; locations := locations d; chats := chats d;
     last_msg_id := last_msg_id d; bcc_self := bcc_self d; mdns_enabled := mdns_enabled d;
     delete_device_after := delete_device_after d; self_chat := self_chat d;
     device_chat := device_chat d; events := events d |}.

Definition set_mdns (f : list (N * N * Z) -> list (N * N * Z)) (d : MsgDb) : MsgDb :=
  {| msgs := msgs d; msgs_mdns := f (msgs_mdns d); smtp_mdns := smtp_mdns d; imap_table := imap_table d;
     imap_markseen := imap_markseen d; locations := locations d; chats := chats d;
     last_msg_id := last_msg_id d; bcc_self := bcc_self d; mdns_enabled := mdns_enabled d;
     delete_device_after := delete_device_after d; self_chat := self_chat d;
     device_chat := device_chat d; events := events d |}.

Definition set_smtp_mdns (f : list (N * N * str) -> list (N * N * str)) (d : MsgDb) : MsgDb :=
  {| msgs := msgs d; msgs_mdns := msgs_mdns d; smtp_mdns := f (smtp_mdns d); imap_table := imap_table d;
     imap_markseen := imap_markseen d; locations := locations d; chats := chats d;
     last_msg_id := last_msg_id d; bcc_self := bcc_self d; mdns_enabled := mdns_enabled d;
     delete_device_after := delete_device_after d; self_chat := self_chat d;
     device_chat := device_chat d; events := events d |}.

Definition set_imap (f : gmap N imap_row -> gmap N imap_row) (d : MsgDb) : MsgDb :=
  {| msgs := msgs d; msgs_mdns := msgs_mdns d; smtp_mdns := smtp_mdns d; imap_table := f (imap_table d);
     imap_markseen := imap_markseen d; locations := locations d; chats := chats d;
     last_msg_id := last_msg_id d; bcc_self := bcc_self d; mdns_enabled := mdns_enabled d;
     delete_device_after := delete_device_after d; self_chat := self_chat d;
     device_chat := device_chat d; events := events d |}.

Definition set_markseen (f : list N -> list N) (d : MsgDb) : MsgDb :=
  {| msgs := msgs d; msgs_mdns := msgs_mdns d; smtp_mdns := smtp_mdns d; imap_table := imap_table d;
     imap_markseen := f (imap_markseen d); locations := locations d; chats := chats d;
     last_msg_id := last_msg_id d; bcc_self := bcc_self d; mdns_enabled := mdns_enabled d;
     delete_device_after := delete_device_after d; self_chat := self_chat d;
     device_chat := device_chat d; events := events d |}.

Definition set_locations (f : gmap N bool -> gmap N bool) (d : MsgDb) : MsgDb :=
  {| msgs := msgs d; msgs_mdns := msgs_mdns d; smtp_mdns := smtp_mdns d; imap_table := imap_table d;
     imap_markseen := imap_markseen d; locations := f (locations d); chats := chats d;
     last_msg_id := last_msg_id d; bcc_self := bcc_self d; mdns_enabled := mdns_enabled d;
     delete_device_after := delete_device_after d; self_chat := self_chat d;
     device_chat := device_chat d; events := events d |}.

Definition set_chat_rows (f : gmap N chat_state -> gmap N chat_state) (d : MsgDb) : MsgDb :=
  {| msgs := msgs d; msgs_mdns := msgs_mdns d; smtp_mdns := smtp_mdns d; imap_table := imap_table d;
     imap_markseen := imap_markseen d; locations := locations d; chats := f (chats d);
     last_msg_id := last_msg_id d; bcc_self := bcc_self d; mdns_enabled := mdns_enabled d;
     delete_device_after := delete_device_after d; self_chat := self_chat d;
     device_chat := device_chat d; events := events d |}.

Definition set_last_msg_id (n : N) (d : MsgDb) : MsgDb :=
  {| msgs := msgs d; msgs_mdns := msgs_mdns d; smtp_mdns := smtp_mdns d; imap_table := imap_table d;
     imap_markseen := imap_markseen d; locations := locations d; chats := chats d;
     last_msg_id := n; bcc_self := bcc_self d; mdns_enabled := mdns_enabled d;
     delete_device_after := delete_device_after d; self_chat := self_chat d;
     device_chat := device_chat d; events := events d |}.

Definition emit (es : list MsgEvent) (d : MsgDb) : MsgDb :=
  {| msgs := msgs d; msgs_mdns := msgs_mdns d; smtp_mdns := smtp_mdns d; imap_table := imap_table d;
     imap_markseen := imap_markseen d; locations := locations d; chats := chats d;
     last_msg_id := last_msg_id d; bcc_self := bcc_self d; mdns_enabled := mdns_enabled d;
     delete_device_after := delete_device_after d; self_chat := self_chat d;
     device_chat := device_chat d; events := events d ++ es |}.
