(* ===== verification/Config.v ===== *)
(** Config: the key-value settings of an account (src/src/config.rs) with the cache of the
    database layer (src/src/sql.rs), and the queue of items for the other devices
    (src/src/sync.rs). *)
From S2P Require Import Prelude Monad ContactTools MsgTable LoginParam.

Module Config.
(** [enum Config]. *)
Inductive Config : Set :=
| Addr | MailServer | MailUser | MailPw | MailPort | MailSecurity | ImapCertificateChecks
| SendServer | SendUser | SendPw | SendPort | SendSecurity | ServerFlags | ProxyEnabled
| ProxyUrl | Socks5Enabled | Socks5Host | Socks5Port | Socks5User | Socks5Password
| Displayname | Selfstatus | Selfavatar | BccSelf | MdnsEnabled | MediaQuality
| DeleteDeviceAfter | ConfiguredAddr | ConfiguredImapServers | ConfiguredMailServer
| ConfiguredMailPort | ConfiguredMailSecurity | ConfiguredMailUser | ConfiguredMailPw
| ConfiguredImapCertificateChecks | ConfiguredSmtpServers | ConfiguredSendServer
| ConfiguredSendPort | ConfiguredSendSecurity | ConfiguredSendUser | ConfiguredSendPw
| ConfiguredServerFlags | ConfiguredInboxFolder | ConfiguredTimestamp | ConfiguredProvider
| Configured | IsChatmail | FixIsChatmail | IsMuted | PrivateTag | SysVersion
| SysMsgsizeMaxRecommended | SysConfigKeys | Bot | SkipStartMessages | NotifyAboutWrongPw
| LastHousekeeping | LastCantDecryptOutgoingMsgs | DisableIdle | DonationRequestNextCheck
| DownloadLimit | SyncMsgs | DebugLogging | LastMsgId | GossipPeriod | KeyId | StatsSending
| StatsLastSent | StatsLastUpdate | StatsId | StatsLastOldContactId | WebxdcIntegration
| WebxdcRealtimeEnabled | DeviceToken | EncryptedDeviceToken | SimulateReceiveImfError
| WhoCanCallMe | TeamProfile | ForceEncryption.

(** [AsRefStr]: the variant in snake case, or the name it is given. *)
Definition as_ref (key : Config) : string :=
  match key with
  | Addr => "addr"
  | MailServer => "mail_server"
  | MailUser => "mail_user"
  | MailPw => "mail_pw"
  | MailPort => "mail_port"
  | MailSecurity => "mail_security"
  | ImapCertificateChecks => "imap_certificate_checks"
  | SendServer => "send_server"
  | SendUser => "send_user"
  | SendPw => "send_pw"
  | SendPort => "send_port"
  | SendSecurity => "send_security"
  | ServerFlags => "server_flags"
  | ProxyEnabled => "proxy_enabled"
  | ProxyUrl => "proxy_url"
  | Socks5Enabled => "socks5_enabled"
  | Socks5Host => "socks5_host"
  | Socks5Port => "socks5_port"
  | Socks5User => "socks5_user"
  | Socks5Password => "socks5_password"
  | Displayname => "displayname"
  | Selfstatus => "selfstatus"
  | Selfavatar => "selfavatar"
  | BccSelf => "bcc_self"
  | MdnsEnabled => "mdns_enabled"
  | MediaQuality => "media_quality"
  | DeleteDeviceAfter => "delete_device_after"
  | ConfiguredAddr => "configured_addr"
  | ConfiguredImapServers => "configured_imap_servers"
  | ConfiguredMailServer => "configured_mail_server"
  | ConfiguredMailPort => "configured_mail_port"
  | ConfiguredMailSecurity => "configured_mail_security"
  | ConfiguredMailUser => "configured_mail_user"
  | ConfiguredMailPw => "configured_mail_pw"
  | ConfiguredImapCertificateChecks => "configured_imap_certificate_checks"
  | ConfiguredSmtpServers => "configured_smtp_servers"
  | ConfiguredSendServer => "configured_send_server"
  | ConfiguredSendPort => "configured_send_port"
  | ConfiguredSendSecurity => "configured_send_security"
  | ConfiguredSendUser => "configured_send_user"
  | ConfiguredSendPw => "configured_send_pw"
  | ConfiguredServerFlags => "configured_server_flags"
  | ConfiguredInboxFolder => "configured_inbox_folder"
  | ConfiguredTimestamp => "configured_timestamp"
  | ConfiguredProvider => "configured_provider"
  | Configured => "configured"
  | IsChatmail => "is_chatmail"
  | FixIsChatmail => "fix_is_chatmail"
  | IsMuted => "is_muted"
  | PrivateTag => "private_tag"
  | SysVersion => "sys.version"
  | SysMsgsizeMaxRecommended => "sys.msgsize_max_recommended"
  | SysConfigKeys => "sys.config_keys"
  | Bot => "bot"
  | SkipStartMessages => "skip_start_messages"
  | NotifyAboutWrongPw => "notify_about_wrong_pw"
  | LastHousekeeping => "last_housekeeping"
  | LastCantDecryptOutgoingMsgs => "last_cant_decrypt_outgoing_msgs"
  | DisableIdle => "disable_idle"
  | DonationRequestNextCheck => "donation_request_next_check"
  | DownloadLimit => "download_limit"
  | SyncMsgs => "sync_msgs"
  | DebugLogging => "debug_logging"
  | LastMsgId => "last_msg_id"
  | GossipPeriod => "gossip_period"
  | KeyId => "key_id"
  | StatsSending => "stats_sending"
  | StatsLastSent => "stats_last_sent"
  | StatsLastUpdate => "stats_last_update"
  | StatsId => "stats_id"
  | StatsLastOldContactId => "stats_last_old_contact_id"
  | WebxdcIntegration => "webxdc_integration"
  | WebxdcRealtimeEnabled => "webxdc_realtime_enabled"
  | DeviceToken => "device_token"
  | EncryptedDeviceToken => "encrypted_device_token"
  | SimulateReceiveImfError => "simulate_receive_imf_error"
  | WhoCanCallMe => "who_can_call_me"
  | TeamProfile => "team_profile"
  | ForceEncryption => "force_encryption"
  end.

(** The property [default]. *)
Definition default_value (key : Config) : option string :=
  match key with
    | BccSelf | MediaQuality | DeleteDeviceAfter | SkipStartMessages | NotifyAboutWrongPw |
    DisableIdle | DownloadLimit | DebugLogging => Some "0"
  | MdnsEnabled | SyncMsgs | WebxdcRealtimeEnabled | WhoCanCallMe | ForceEncryption => Some "1"
  | GossipPeriod => Some "172800"
  | _ => None
  end.

(** [EnumIter]. *)
Definition all : list Config :=
    [Addr; MailServer; MailUser; MailPw; MailPort; MailSecurity; ImapCertificateChecks;
   SendServer; SendUser; SendPw; SendPort; SendSecurity; ServerFlags; ProxyEnabled; ProxyUrl;
   Socks5Enabled; Socks5Host; Socks5Port; Socks5User; Socks5Password; Displayname; Selfstatus;
   Selfavatar; BccSelf; MdnsEnabled; MediaQuality; DeleteDeviceAfter; ConfiguredAddr;
   ConfiguredImapServers; ConfiguredMailServer; ConfiguredMailPort; ConfiguredMailSecurity;
   ConfiguredMailUser; ConfiguredMailPw; ConfiguredImapCertificateChecks; ConfiguredSmtpServers;
   ConfiguredSendServer; ConfiguredSendPort; ConfiguredSendSecurity; ConfiguredSendUser;
   ConfiguredSendPw; ConfiguredServerFlags; ConfiguredInboxFolder; ConfiguredTimestamp;
   ConfiguredProvider; Configured; IsChatmail; FixIsChatmail; IsMuted; PrivateTag; SysVersion;
   SysMsgsizeMaxRecommended; SysConfigKeys; Bot; SkipStartMessages; NotifyAboutWrongPw;
   LastHousekeeping; LastCantDecryptOutgoingMsgs; DisableIdle; DonationRequestNextCheck;
   DownloadLimit; SyncMsgs; DebugLogging; LastMsgId; GossipPeriod; KeyId; StatsSending;
   StatsLastSent; StatsLastUpdate; StatsId; StatsLastOldContactId; WebxdcIntegration;
   WebxdcRealtimeEnabled; DeviceToken; EncryptedDeviceToken; SimulateReceiveImfError;
   WhoCanCallMe; TeamProfile; ForceEncryption].
End Config.
Abbreviation Config := Config.Config.

#[export] Instance Config_eq_dec : EqDecision Config.
Proof. solve_decision. Defined.

Definition key_name (key : Config) : str := lit (Config.as_ref key).

(** [Config::is_synced]. *)
Definition is_synced (key : Config) : bool :=
  match key with
  | Config.Displayname | Config.MdnsEnabled | Config.Selfavatar | Config.Selfstatus
  | Config.ForceEncryption => true
  | _ => false
  end.

(** ** State *)

(** A row of [transports]: the parameters are stored as JSON texts. *)
Record transport_row := {
  t_id : N;
  t_addr : str;
  t_entered_param : str;
  t_configured_param : str;
  t_add_timestamp : Z;
  t_is_published : bool
}.

Module Namespace.
(** [enum Namespace] of token.rs. *)
Inductive Namespace : Set := Unknown | Auth | InviteNumber.
End Namespace.
Abbreviation Namespace := Namespace.Namespace.

#[export] Instance Namespace_eq_dec : EqDecision Namespace.
Proof. solve_decision. Defined.

(** A row of [tokens]; the rows are in the order of their identifiers. *)
Record token_row := {
  tk_namespc : Namespace;
  tk_foreign_key : str;
  tk_token : str;
  tk_timestamp : Z
}.

Inductive AccountEvent :=
| SelfavatarChanged
| AccountsItemChanged
| ConfigSynced (key : Config)
| TransportsModified.

(** The tables of the account that the configuration reads and writes, and the cache of
    [config] in memory: a key is absent if it was not asked for, and mapped to [None] if it is
    known to have no value.  The rows of the two queues are their identifiers. *)
Record Account := {
  config : gmap str str;
  config_cache : gmap str (option str);
  transports : list transport_row;
  transport_seq : N;
  removed_transports : list (str * Z);
  multi_device_sync : list (N * str);
  sync_seq : N;
  tokens : list token_row;
  smtp_queue : list N;
  imap_send : list N;
  selfavatar_sent : gmap N Z;
  account_events : list AccountEvent
}.

Definition upd_config (f : gmap str str -> gmap str str) (a : Account) : Account :=
  {| config := f (config a); config_cache := config_cache a; transports := transports a;
     transport_seq := transport_seq a; removed_transports := removed_transports a;
     multi_device_sync := multi_device_sync a; sync_seq := sync_seq a; tokens := tokens a;
     smtp_queue := smtp_queue a; imap_send := imap_send a; selfavatar_sent := selfavatar_sent a;
     account_events := account_events a |}.

Definition upd_config_cache (f : gmap str (option str) -> gmap str (option str)) (a : Account) : Account :=
  {| config := config a; config_cache := f (config_cache a); transports := transports a;
     transport_seq := transport_seq a; removed_transports := removed_transports a;
     multi_device_sync := multi_device_sync a; sync_seq := sync_seq a; tokens := tokens a;
     smtp_queue := smtp_queue a; imap_send := imap_send a; selfavatar_sent := selfavatar_sent a;
     account_events := account_events a |}.

Definition upd_transports (f : list transport_row -> list transport_row) (a : Account) : Account :=
  {| config := config a; config_cache := config_cache a; transports := f (transports a);
     transport_seq := transport_seq a; removed_transports := removed_transports a;
     multi_device_sync := multi_device_sync a; sync_seq := sync_seq a; tokens := tokens a;
     smtp_queue := smtp_queue a; imap_send := imap_send a; selfavatar_sent := selfavatar_sent a;
     account_events := account_events a |}.

Definition upd_transport_seq (f : N -> N) (a : Account) : Account :=
  {| config := config a; config_cache := config_cache a; transports := transports a;
     transport_seq := f (transport_seq a); removed_transports := removed_transports a;
     multi_device_sync := multi_device_sync a; sync_seq := sync_seq a; tokens := tokens a;
     smtp_queue := smtp_queue a; imap_send := imap_send a; selfavatar_sent := selfavatar_sent a;
     account_events := account_events a |}.

Definition upd_removed_transports (f : list (str * Z) -> list (str * Z)) (a : Account) : Account :=
  {| config := config a; config_cache := config_cache a; transports := transports a;
     transport_seq := transport_seq a; removed_transports := f (removed_transports a);
     multi_device_sync := multi_device_sync a; sync_seq := sync_seq a; tokens := tokens a;
     smtp_queue := smtp_queue a; imap_send := imap_send a; selfavatar_sent := selfavatar_sent a;
     account_events := account_events a |}.

Definition upd_multi_device_sync (f : list (N * str) -> list (N * str)) (a : Account) : Account :=
  {| config := config a; config_cache := config_cache a; transports := transports a;
     transport_seq := transport_seq a; removed_transports := removed_transports a;
     multi_device_sync := f (multi_device_sync a); sync_seq := sync_seq a; tokens := tokens a;
     smtp_queue := smtp_queue a; imap_send := imap_send a; selfavatar_sent := selfavatar_sent a;
     account_events := account_events a |}.

Definition upd_sync_seq (f : N -> N) (a : Account) : Account :=
  {| config := config a; config_cache := config_cache a; transports := transports a;
     transport_seq := transport_seq a; removed_transports := removed_transports a;
     multi_device_sync := multi_device_sync a; sync_seq := f (sync_seq a); tokens := tokens a;
     smtp_queue := smtp_queue a; imap_send := imap_send a; selfavatar_sent := selfavatar_sent a;
     account_events := account_events a |}.

Definition upd_tokens (f : list token_row -> list token_row) (a : Account) : Account :=
  {| config := config a; config_cache := config_cache a; transports := transports a;
     transport_seq := transport_seq a; removed_transports := removed_transports a;
     multi_device_sync := multi_device_sync a; sync_seq := sync_seq a; tokens := f (tokens a);
     smtp_queue := smtp_queue a; imap_send := imap_send a; selfavatar_sent := selfavatar_sent a;
     account_events := account_events a |}.

Definition upd_smtp_queue (f : list N -> list N) (a : Account) : Account :=
  {| config := config a; config_cache := config_cache a; transports := transports a;
     transport_seq := transport_seq a; removed_transports := removed_transports a;
     multi_device_sync := multi_device_sync a; sync_seq := sync_seq a; tokens := tokens a;
     smtp_queue := f (smtp_queue a); imap_send := imap_send a; selfavatar_sent := selfavatar_sent
     a; account_events := account_events a |}.

Definition upd_imap_send (f : list N -> list N) (a : Account) : Account :=
  {| config := config a; config_cache := config_cache a; transports := transports a;
     transport_seq := transport_seq a; removed_transports := removed_transports a;
     multi_device_sync := multi_device_sync a; sync_seq := sync_seq a; tokens := tokens a;
     smtp_queue := smtp_queue a; imap_send := f (imap_send a); selfavatar_sent := selfavatar_sent
     a; account_events := account_events a |}.

Definition upd_selfavatar_sent (f : gmap N Z -> gmap N Z) (a : Account) : Account :=
  {| config := config a; config_cache := config_cache a; transports := transports a;
     transport_seq := transport_seq a; removed_transports := removed_transports a;
     multi_device_sync := multi_device_sync a; sync_seq := sync_seq a; tokens := tokens a;
     smtp_queue := smtp_queue a; imap_send := imap_send a; selfavatar_sent := f (selfavatar_sent
     a); account_events := account_events a |}.

Definition upd_account_events (f : list AccountEvent -> list AccountEvent) (a : Account) : Account :=
  {| config := config a; config_cache := config_cache a; transports := transports a;
     transport_seq := transport_seq a; removed_transports := removed_transports a;
     multi_device_sync := multi_device_sync a; sync_seq := sync_seq a; tokens := tokens a;
     smtp_queue := smtp_queue a; imap_send := imap_send a; selfavatar_sent := selfavatar_sent a;
     account_events := f (account_events a) |}.

(** ** Operations *)

Inductive AccountError :=
| BooleanExpected
| CannotUnset
| NotATransport
| NoSuchRow
| UniqueViolated
| InvalidJson
| AvatarFailed
| PrefixMissing
| InvalidValue.

Abbreviation A := (SE Account AccountError).

Definition emit (e : AccountEvent) : A unit := modify (upd_account_events (λ l, l ++ [e])).

(** [Sql::transaction]: an error rolls the tables back.  No transaction below touches the cache
    or emits an event. *)
Definition in_transaction {X} (x : A X) : A X :=
  λ a, match x a with
       | (Ok v, a') => (Ok v, a')
       | (Err e, _) => (Err e, a)
       end.

(** What the platform provides: the environment, the Unicode case mappings, the version of the
    package, the directory of the blobs, and the files of avatars: the name of the stored and
    recoded picture, the base64 text of a stored picture, and the name of a stored picture given
    as base64 ([Some None] if the text is not base64). *)
Class Platform := {
  env_var : str -> option str;
  str_to_lowercase : str -> str;
  str_to_uppercase : str -> str;
  DC_VERSION_STR : str;
  blobdir : str;
  store_avatar : str -> option str;
  avatar_base64 : str -> option str;
  store_from_base64 : str -> option (option str)
}.

(** [serde_json::to_string] and [serde_json::from_str] for a type, and their round trip. *)
Class Json (T : Type) := {
  to_json : T -> str;
  of_json : str -> option T
}.

Class JsonOk (T : Type) `{Json T} : Prop := of_to_json (t : T) : of_json (to_json t) = Some t.

(** *** The table [config] and its cache (sql.rs) *)

(** [Sql::set_raw_config]. *)
Definition set_raw_config (key : str) (value : option str) : A unit :=
  modify (λ a, upd_config_cache (<[key := value]>)
                 (upd_config (partial_alter (λ _, value) key) a)).

(** [Sql::get_raw_config]. *)
Definition get_raw_config (key : str) : A (option str) :=
  λ a, match config_cache a !! key with
       | Some c => (Ok c, a)
       | None => let value := config a !! key in
                 (Ok value, upd_config_cache (<[key := value]>) a)
       end.

(** [Sql::uncache_raw_config]. *)
Definition uncache_raw_config (key : str) : A unit := modify (upd_config_cache (delete key)).

(** [Sql::get_raw_config_int], [Sql::get_raw_config_bool], [Sql::set_raw_config_int],
    [Sql::set_raw_config_bool]. *)
Definition get_raw_config_int (key : str) : A (option Z) :=
  s <- get_raw_config key ;; ret (s ≫= parse_i32).

Definition get_raw_config_bool (key : str) : A bool :=
  res <- get_raw_config_int key ;; ret (0 <? default 0%Z res)%Z.

Definition set_raw_config_int (key : str) (value : Z) : A unit :=
  set_raw_config key (Some (print_Z value)).

Definition set_raw_config_bool (key : str) (value : bool) : A unit :=
  set_raw_config key (if value then Some (lit "1") else None).

Section ConfigOps.
Context `{!Platform}.

(** *** Reading settings (config.rs) *)

(** [Context::config_exists]. *)
Definition config_exists (key : Config) : A bool :=
  v <- get_raw_config (key_name key) ;; ret (bool_decide (is_Some v)).

(** [tools::get_abs_path]: the directory of the blobs in place of its placeholder. *)
Definition get_abs_path (path : str) : str :=
  match strip_prefix (lit "$BLOBDIR") path with
  | Some [] => blobdir ++ lit "/"
  | Some (47%N :: p) => blobdir ++ lit "/" ++ trim_start_by (N.eqb 47) p
  | _ => path
  end.

Definition RECOMMENDED_FILE_SIZE : N := (24 * 1024 * 1024 / 4 * 3)%N.

(** [get_config_keys_string]. *)
Definition get_config_keys_string : str :=
  lit " " ++ concat ((λ k, key_name k ++ lit " ") <$> Config.all) ++ lit " ".

(** [Context::get_config_opt]. *)
Definition get_config_opt (key : Config) : A (option str) :=
  match env_var (lit "DELTACHAT_" ++ str_to_uppercase (key_name key)) with
  | Some value => ret (Some value)
  | None =>
      match key with
      | Config.Selfavatar =>
          rel_path <- get_raw_config (key_name key) ;; ret (get_abs_path <$> rel_path)
      | Config.SysVersion => ret (Some DC_VERSION_STR)
      | Config.SysMsgsizeMaxRecommended => ret (Some (print_N RECOMMENDED_FILE_SIZE))
      | Config.SysConfigKeys => ret (Some get_config_keys_string)
      | _ => get_raw_config (key_name key)
      end
  end.

(** [Context::get_config]. *)
Definition get_config (key : Config) : A (option str) :=
  value <- get_config_opt key ;;
  match value with
  | Some v => ret (Some v)
  | None =>
      match key with
      | Config.ConfiguredInboxFolder => ret (Some (lit "INBOX"))
      | Config.Addr => get_config_opt Config.ConfiguredAddr
      | _ => ret (lit <$> Config.default_value key)
      end
  end.

(** [Context::get_config_parsed] and [get_config_opt_parsed]. *)
Definition get_config_parsed {X} (parse : str -> option X) (key : Config) : A (option X) :=
  s <- get_config key ;; ret (s ≫= parse).

Definition get_config_opt_parsed {X} (parse : str -> option X) (key : Config) : A (option X) :=
  s <- get_config_opt key ;; ret (s ≫= parse).

(** [Context::get_config_int], [get_config_bool_opt], [get_config_bool]. *)
Definition get_config_int (key : Config) : A Z :=
  v <- get_config_parsed parse_i32 key ;; ret (default 0%Z v).

Definition get_config_bool_opt (key : Config) : A (option bool) :=
  v <- get_config_opt_parsed parse_i32 key ;; ret ((λ x, negb (x =? 0)%Z) <$> v).

Definition get_config_bool (key : Config) : A bool :=
  s <- get_config key ;;
  ret (match s ≫= parse_i32 with Some x => negb (x =? 0)%Z | None => false end).

(** [Context::should_send_sync_msgs]. *)
Definition should_send_sync_msgs : A bool :=
  sync_msgs <- get_config_bool Config.SyncMsgs ;;
  bcc_self <- and_then sync_msgs (get_config_bool Config.BccSelf) ;;
  and_then bcc_self (bot <- get_config_bool Config.Bot ;; ret (negb bot)).

(** [Context::should_request_mdns] and [should_send_mdns]. *)
Definition should_request_mdns : A bool :=
  v <- get_config_bool_opt Config.MdnsEnabled ;;
  match v with
  | Some val => ret val
  | None => bot <- get_config_bool Config.Bot ;; ret (negb bot)
  end.

Definition should_send_mdns : A bool := get_config_bool Config.MdnsEnabled.

(** [Context::get_config_delete_device_after]. *)
Definition get_config_delete_device_after : A (option Z) :=
  x <- get_config_int Config.DeleteDeviceAfter ;; ret (if (x =? 0)%Z then None else Some x).

(** [Context::is_configured]. *)
Definition is_configured : A bool := gets (λ a, bool_decide (transports a ≠ [])).

(** [Context::set_ui_config] and [get_ui_config]. *)
Definition set_ui_config (key : str) (value : option str) : A unit :=
  if starts_with (lit "ui.") key then set_raw_config key value else fail PrefixMissing.

Definition get_ui_config (key : str) : A (option str) :=
  if starts_with (lit "ui.") key then get_raw_config key else fail PrefixMissing.
End ConfigOps.

(** ** Items for the other devices (sync.rs, chat.rs) *)

(** [enum MuteDuration]; the time in seconds. *)
Inductive MuteDuration := NotMuted | Forever | Until (t : Z).

(** [enum SyncId] and [enum SyncAction]. *)
Inductive SyncId :=
| ContactAddr (a : str)
| ContactFingerprint (fp : str)
| Grpid (grpid : str)
| Msgids (l : list str)
| Device.

Inductive SyncAction :=
| Block
| Unblock
| Accept
| SetVisibility (v : ChatVisibility)
| SetMuted (d : MuteDuration)
| CreateOutBroadcast (chat_name secret : str)
| CreateGroupEncrypted (name : str)
| Rename (name : str)
| SetContacts (addrs : list str)
| SetPgpContacts (fingerprint_addrs : list (str * str))
| SetDescription (d : str)
| Delete.

(** [struct QrTokenData], [struct TransportData], [struct RemovedTransportData]. *)
Record QrTokenData := {
  qt_invitenumber : str;
  qt_auth : str;
  qt_grpid : option str
}.

Record TransportData := {
  td_configured : ConfiguredLoginParamJson;
  td_entered : EnteredLoginParam;
  td_timestamp : Z;
  td_is_published : bool
}.

Record RemovedTransportData := {
  rt_addr : str;
  rt_timestamp : Z
}.

(** [enum SyncData]. *)
Inductive SyncData :=
| AddQrToken (token : QrTokenData)
| DeleteQrToken (token : QrTokenData)
| AlterChat (id : SyncId) (action : SyncAction)
| SyncConfig (key : Config) (val : str)
| SaveMessage (src dest : str)
| DeleteMessages (msgs : list str)
| Transports (ts : list TransportData) (removed : list RemovedTransportData).

(** [enum SyncDataOrUnknown] and [struct SyncItem]: the unknown item is the text of its JSON
    value. *)
Inductive SyncDataOrUnknown := Known (data : SyncData) | Unknown (value : str).

Record SyncItem := {
  si_timestamp : Z;
  si_data : SyncDataOrUnknown
}.

Section SyncQueue.
Context `{!Platform, !Json SyncItem}.

(** [INSERT INTO multi_device_sync]: the next identifier of [AUTOINCREMENT]. *)
Definition insert_sync_item (item : str) : A unit :=
  modify (λ a,
    let id := (1 + foldr N.max (sync_seq a) (fst <$> multi_device_sync a))%N in
    upd_sync_seq (λ _, id) (upd_multi_device_sync (λ l, l ++ [(id, item)]) a)).

(** [Context::add_sync_item] and [add_sync_item_with_timestamp]. *)
Definition add_sync_item (now : Z) (data : SyncData) : A unit :=
  send <- should_send_sync_msgs ;;
  when send (insert_sync_item (to_json {| si_timestamp := now; si_data := Known data |})).
End SyncQueue.

(** ** Writing settings (config.rs) *)

(** [struct EnteredLoginParam], [Default]. *)
Definition default_entered_param (a : str) : EnteredLoginParam :=
  {| e_addr := a;
     e_imap := {| imap_server := []; imap_port := 0; imap_folder := [];
                  imap_security := Socket.Automatic; imap_user := []; imap_password := [] |};
     e_smtp := {| smtp_server := []; smtp_port := 0; smtp_security := Socket.Automatic;
                  smtp_user := []; smtp_password := [] |};
     e_certificate_checks := EnteredCertificateChecks.Automatic;
     e_oauth2 := false |}.

Definition next_transport_id (a : Account) : N :=
  (1 + foldr N.max (transport_seq a) (t_id <$> transports a))%N.

(** [INSERT INTO transports]: the address is unique. *)
Definition insert_transport (ad entered configured : str) (add_timestamp : Z) (published : bool)
  : A unit :=
  λ a, if bool_decide (ad ∈ t_addr <$> transports a) then (Err UniqueViolated, a)
       else
         let id := next_transport_id a in
         (Ok tt, upd_transport_seq (λ _, id) (upd_transports (λ l, l ++
           [{| t_id := id; t_addr := ad; t_entered_param := entered;
               t_configured_param := configured; t_add_timestamp := add_timestamp;
               t_is_published := published |}]) a)).

(** [UPDATE transports SET .. WHERE addr=? AND ..]. *)
Definition update_transport (ad : str) (f : transport_row -> transport_row) : A unit :=
  modify (upd_transports (fmap (λ r, if bool_decide (t_addr r = ad) then f r else r))).

Section SetConfig.
Context `{!Platform, !Json SyncItem, !Json EnteredLoginParam, !Json ConfiguredLoginParamJson}.


Definition quoted (s : str) : str := 34%N :: s ++ [34%N].

(** [transport::add_pseudo_transport]; the other columns have their defaults. *)
Definition add_pseudo_transport (ad : str) : A unit :=
  let field (k : string) (v : str) := quoted (lit k) ++ lit ":" ++ v in
  insert_transport ad (to_json (default_entered_param ad))
    (lit "{" ++ join (lit ",")
       [field "addr" (quoted ad); field "imap" (lit "[]"); field "imap_user" (quoted []);
        field "imap_password" (quoted []); field "smtp" (lit "[]"); field "smtp_user" (quoted []);
        field "smtp_password" (quoted []); field "certificate_checks" (quoted (lit "Automatic"));
        field "oauth2" (lit "false")] ++ lit "}")
    0 true.

(** A transport as it is sent to the other devices. *)
Definition transport_data (r : transport_row) : option TransportData :=
  entered ← of_json (t_entered_param r);
  configured ← of_json (t_configured_param r);
  Some {| td_configured := configured; td_entered := entered; td_timestamp := t_add_timestamp r;
          td_is_published := t_is_published r |}.

(** [transport::send_sync_transports]: the first transport is never sent. *)
Definition send_sync_transports (now : Z) : A unit :=
  ts <- (λ a, match mapM transport_data (filter (λ r, (1 < t_id r)%N) (transports a)) with
              | Some ts => (Ok ts, a)
              | None => (Err InvalidJson, a)
              end) ;;
  removed <- gets (λ a, (λ '(ad, t), {| rt_addr := ad; rt_timestamp := t |})
                          <$> removed_transports a) ;;
  add_sync_item now (Transports ts removed).

(** [Context::check_config]. *)
Definition check_config (key : Config) (value : option str) : A unit :=
  match key with
  | Config.Socks5Enabled | Config.ProxyEnabled | Config.BccSelf | Config.MdnsEnabled
  | Config.Configured | Config.Bot | Config.NotifyAboutWrongPw | Config.SyncMsgs
  | Config.DisableIdle =>
      if bool_decide (value = None) || bool_decide (value = Some (lit "0"))
         || bool_decide (value = Some (lit "1"))
      then ret tt else fail BooleanExpected
  | _ => ret tt
  end.

(** The branch of [set_config_ex] for a configured account that changes its primary address. *)
Definition change_primary (now : Z) (ad : str) : A unit :=
  in_transaction (
    known <- gets (λ a, bool_decide (ad ∈ t_addr <$> transports a)) ;;
    if negb known then fail NotATransport
    else
      modify (upd_config (λ c, if bool_decide (is_Some (c !! key_name Config.ConfiguredAddr))
                               then <[key_name Config.ConfiguredAddr := ad]> c else c)) ;;;
      update_transport ad (λ r,
        {| t_id := t_id r; t_addr := t_addr r; t_entered_param := t_entered_param r;
           t_configured_param := t_configured_param r; t_add_timestamp := now;
           t_is_published := true |}) ;;;
      modify (upd_smtp_queue (λ _, [])) ;;;
      modify (upd_imap_send (λ _, []))) ;;;
  send_sync_transports now ;;;
  uncache_raw_config (key_name Config.ConfiguredAddr).

(** The write of [set_config_ex], and the value to be sent to the other devices. *)
Definition write_config (now : Z) (sync : bool) (key : Config) (value : option str)
  : A (option str) :=
  match key with
  | Config.Selfavatar =>
      modify (upd_selfavatar_sent (fmap (λ _, 0%Z))) ;;;
      value' <- match value with
                | Some path =>
                    name <- ok_or (store_avatar (get_abs_path path)) AvatarFailed ;;
                    set_raw_config (key_name key) (Some name) ;;;
                    (if sync then b64 <- ok_or (avatar_base64 name) AvatarFailed ;; ret (Some b64)
                     else ret value)
                | None =>
                    set_raw_config (key_name key) None ;;;
                    ret (if sync then Some [] else None)
                end ;;
      emit SelfavatarChanged ;;;
      ret value'
  | Config.Displayname =>
      let value' := sanitize_single_line <$> value in
      set_raw_config (key_name key) value' ;;; ret value'
  | Config.Addr =>
      set_raw_config (key_name key) (str_to_lowercase <$> value) ;;; ret value
  | Config.ConfiguredAddr =>
      match value with
      | None => fail CannotUnset
      | Some ad =>
          configured <- is_configured ;;
          (if negb configured then
             add_pseudo_transport ad ;;;
             set_raw_config (key_name Config.ConfiguredAddr) (Some ad)
           else change_primary now ad) ;;;
          ret value
      end
  | _ => set_raw_config (key_name key) value ;;; ret value
  end.

(** [Context::set_config_ex]. *)
Definition set_config_ex (now : Z) (sync : bool) (key : Config) (value : option str) : A unit :=
  check_config key value ;;;
  sync <- and_then (sync && is_synced key) is_configured ;;
  value <- write_config now sync key value ;;
  when (bool_decide (key ∈ [Config.Displayname; Config.Selfavatar; Config.PrivateTag]))
       (emit AccountsItemChanged) ;;;
  when (is_synced key) (emit (ConfigSynced key)) ;;;
  if negb sync then ret tt
  else match value with
       | None => ret tt
       | Some val => _ <- ignore_err (add_sync_item now (SyncConfig key val)) ;; ret tt
       end.

(** [Context::set_config_internal]. *)
Definition set_config_internal (now : Z) (key : Config) (value : option str) : A unit :=
  set_config_ex now true key value.

(** [bool_from_config] and [from_bool]. *)
Definition bool_from_config (v : option str) : bool :=
  match v with Some v => negb (default 0%Z (parse_i32 v) =? 0)%Z | None => false end.

Definition from_bool (b : bool) : option str := Some (if b then lit "1" else lit "0").

(** The statistics (stats.rs) are told about a change of their setting before and after. *)
Context (pre_sending_config_change : bool -> bool -> A unit) (maybe_send_stats : A unit).

(** [Context::set_config]. *)
Definition set_config (now : Z) (key : Config) (value : option str) : A unit :=
  check_config key value ;;;
  when (bool_decide (key = Config.StatsSending))
    (old_value <- get_config key ;;
     pre_sending_config_change (bool_from_config old_value) (bool_from_config value)) ;;;
  set_config_internal now key value ;;;
  when (bool_decide (key = Config.StatsSending)) maybe_send_stats.

(** [Context::set_config_bool] and [set_config_u32]. *)
Definition set_config_bool (now : Z) (key : Config) (value : bool) : A unit :=
  set_config now key (from_bool value).

Definition set_config_u32 (now : Z) (key : Config) (value : Z) : A unit :=
  set_config now key (Some (print_Z value)).

(** [Context::sync_config]: a setting sent by another device. *)
Definition sync_config (now : Z) (key : Config) (value : str) : A unit :=
  value <- match key with
           | Config.Selfavatar =>
               if bool_decide (value = []) then ret None
               else ok_or (store_from_base64 value) AvatarFailed
           | _ => ret (Some value)
           end ;;
  if is_synced key then set_config_ex now false key value else ret tt.
End SetConfig.

(** ** The cache

    Whatever is cached is what the table says, except possibly for the key [but]. *)
Definition coherent_but (but : option str) (a : Account) : Prop :=
  ∀ k v, but ≠ Some k → config_cache a !! k = Some v → v = config a !! k.

Definition coherent : Account -> Prop := coherent_but None.

Section Coherent.
Context (but : option str).

Lemma set_raw_config_coherent k v : preserves (coherent_but but) (set_raw_config k v).
Proof.
  apply preserves_modify. intros a Ha k' v' Hb. simpl. destruct (decide (k = k')) as [->|Hk].
  - rewrite lookup_insert_eq, lookup_partial_alter_eq. by intros [= ->].
  - rewrite lookup_insert_ne, lookup_partial_alter_ne by done. by apply Ha.
Qed.

Lemma get_raw_config_coherent k : preserves (coherent_but but) (get_raw_config k).
Proof.
  intros a Ha. unfold get_raw_config. destruct (config_cache a !! k) eqn:E; [done|].
  intros k' v' Hb. simpl. destruct (decide (k = k')) as [->|Hk].
  - rewrite lookup_insert_eq. by intros [= ->].
  - rewrite lookup_insert_ne by done. by apply Ha.
Qed.

Lemma upd_coherent (f : Account -> Account) :
  (∀ a, config (f a) = config a ∧ config_cache (f a) = config_cache a) →
  preserves (coherent_but but) (modify f : A unit).
Proof.
  intros Hf. apply preserves_modify. intros a Ha k v. destruct (Hf a) as [-> ->]. apply Ha.
Qed.

Lemma in_transaction_coherent {X} (x : A X) :
  preserves (coherent_but but) x → preserves (coherent_but but) (in_transaction x).
Proof.
  intros Hx a Ha. unfold in_transaction. specialize (Hx a Ha). by destruct (x a) as [[]].
Qed.
End Coherent.

Lemma uncache_coherent k a : coherent_but (Some k) a → coherent (uncache_raw_config k a).2.
Proof.
  intros Ha k' v _. simpl. destruct (decide (k = k')) as [->|Hk].
  - by rewrite lookup_delete_eq.
  - rewrite lookup_delete_ne by done. apply Ha. congruence.
Qed.

#[export] Hint Resolve set_raw_config_coherent get_raw_config_coherent upd_coherent
  in_transaction_coherent : preserves.

(** Operations that do not change the settings keep the cache as good as it is. *)
Ltac same_settings := solve [apply upd_coherent; by intros []].
#[export] Hint Extern 1 (preserves (coherent_but _) (modify _)) => same_settings : preserves.

Lemma emit_coherent but e : preserves (coherent_but but) (emit e).
Proof. apply upd_coherent. by intros []. Qed.

Lemma is_configured_coherent but : preserves (coherent_but but) is_configured.
Proof. apply preserves_gets. Qed.

#[export] Hint Resolve emit_coherent is_configured_coherent : preserves.

Section CacheInvariant.
Context `{!Platform, !Json SyncItem, !Json EnteredLoginParam, !Json ConfiguredLoginParamJson}.

Lemma get_config_opt_coherent but key : preserves (coherent_but but) (get_config_opt key).
Proof. unfold get_config_opt. preserves_tac. Qed.
#[local] Hint Resolve get_config_opt_coherent : preserves.

Lemma get_config_coherent but key : preserves (coherent_but but) (get_config key).
Proof. unfold get_config. preserves_tac. Qed.
#[local] Hint Resolve get_config_coherent : preserves.

Lemma get_config_bool_coherent but key : preserves (coherent_but but) (get_config_bool key).
Proof. unfold get_config_bool. preserves_tac. Qed.
#[local] Hint Resolve get_config_bool_coherent : preserves.

Lemma should_send_coherent but : preserves (coherent_but but) should_send_sync_msgs.
Proof.
  unfold should_send_sync_msgs. preserves_tac; apply preserves_and_then; preserves_tac.
Qed.
#[local] Hint Resolve should_send_coherent : preserves.

Lemma add_sync_item_coherent but now d : preserves (coherent_but but) (add_sync_item now d).
Proof. unfold add_sync_item, insert_sync_item. preserves_tac. Qed.
#[local] Hint Resolve add_sync_item_coherent : preserves.

Lemma send_sync_transports_coherent but now :
  preserves (coherent_but but) (send_sync_transports now).
Proof.
  unfold send_sync_transports. preserves_tac.
  intros a Ha. simpl. by destruct (mapM _ _).
Qed.

Lemma check_config_coherent but key v : preserves (coherent_but but) (check_config key v).
Proof. unfold check_config. preserves_tac. Qed.
#[local] Hint Resolve check_config_coherent : preserves.

Lemma insert_transport_coherent but ad e c t p :
  preserves (coherent_but but) (insert_transport ad e c t p).
Proof. intros a Ha. unfold insert_transport. by case_bool_decide. Qed.
#[local] Hint Resolve insert_transport_coherent : preserves.

Lemma change_primary_coherent now ad a r a' :
  coherent a → change_primary now ad a = (Ok r, a') → coherent a'.
Proof.
  intros Ha. unfold change_primary, bind at 1.
  destruct (in_transaction _ a) as [[[]|] a1] eqn:E; [|done].
  assert (H1 : coherent_but (Some (key_name Config.ConfiguredAddr)) a1).
  { revert E. unfold in_transaction, update_transport. run_se.
    destruct (bool_decide _); simpl; [|done]. intros [= <-] k v Hk. simpl.
    case_bool_decide; [rewrite lookup_insert_ne by congruence|]; by apply Ha. }
  unfold bind. pose proof (send_sync_transports_coherent _ now a1 H1) as H2.
  destruct (send_sync_transports now a1) as [[[]|] a2]; [|done]. simpl in H2.
  intros Hu. apply uncache_coherent in H2. by rewrite Hu in H2.
Qed.

Lemma write_config_coherent now sync key v :
  key ≠ Config.ConfiguredAddr → preserves coherent (write_config now sync key v).
Proof.
  intros Hk. unfold write_config. destruct key; try done; preserves_tac.
Qed.
#[local] Hint Resolve write_config_coherent : preserves.

Lemma set_config_ex_coherent now sync key v :
  key ≠ Config.ConfiguredAddr → preserves coherent (set_config_ex now sync key v).
Proof. intros Hk. unfold set_config_ex. preserves_tac; apply preserves_and_then; preserves_tac. Qed.

Lemma set_primary_coherent now sync v a r a' :
  coherent a → set_config_ex now sync Config.ConfiguredAddr v a = (Ok r, a') → coherent a'.
Proof.
  intros Ha. unfold set_config_ex. simpl is_synced. rewrite andb_false_r.
  change (bool_decide (Config.ConfiguredAddr ∈ [Config.Displayname; Config.Selfavatar; Config.PrivateTag]))
    with false. unfold check_config, and_then, write_config. destruct v as [ad|]; [|done].
  run_se. destruct (is_configured a) as [[c|] a0] eqn:Ec; [|done].
  assert (a0 = a) as -> by (unfold is_configured, gets in Ec; by injection Ec).
  destruct (negb c).
  - assert (Hp : preserves coherent (add_pseudo_transport ad ;;;
                 set_raw_config (key_name Config.ConfiguredAddr) (Some ad))).
    { unfold add_pseudo_transport. preserves_tac. }
    specialize (Hp a Ha). unfold bind in Hp. destruct (add_pseudo_transport ad a) as [[[]|] a1]; [|done].
    destruct (set_raw_config _ _ a1) as [[[]|] a2]; [|done]. simpl in Hp. by intros [= _ <-].
  - destruct (change_primary now ad a) as [[[]|] a1] eqn:E; [|done].
    intros [= _ <-]. by eapply change_primary_coherent.
Qed.
End CacheInvariant.

(** ** What the settings are *)

(** Reading settings and queueing items for the other devices only touches the cache, the events
    and the queue: predicates that do not look at them survive. *)
Class FrameInvariant (P : Account -> Prop) : Prop := {
  frame_cache f a : P a → P (upd_config_cache f a);
  frame_events f a : P a → P (upd_account_events f a);
  frame_queue f a : P a → P (upd_multi_device_sync f a);
  frame_seq f a : P a → P (upd_sync_seq f a)
}.

Section Frame.
Context `{!Platform, !Json SyncItem, !Json EnteredLoginParam, !Json ConfiguredLoginParamJson}.
Context (P : Account -> Prop) `{!FrameInvariant P}.

Lemma get_raw_config_frame k : preserves P (get_raw_config k).
Proof.
  intros a Ha. unfold get_raw_config. destruct (config_cache a !! k); [done|]. by apply frame_cache.
Qed.
#[local] Hint Resolve get_raw_config_frame : preserves.

Lemma emit_frame e : preserves P (emit e).
Proof. apply preserves_modify. intros a. apply frame_events. Qed.

Lemma get_config_opt_frame key : preserves P (get_config_opt key).
Proof. unfold get_config_opt. preserves_tac. Qed.
#[local] Hint Resolve get_config_opt_frame emit_frame : preserves.

Lemma get_config_frame key : preserves P (get_config key).
Proof. unfold get_config. preserves_tac. Qed.
#[local] Hint Resolve get_config_frame : preserves.

Lemma should_send_frame : preserves P should_send_sync_msgs.
Proof.
  unfold should_send_sync_msgs, get_config_bool.
  preserves_tac; apply preserves_and_then; preserves_tac.
Qed.
#[local] Hint Resolve should_send_frame : preserves.

Lemma add_sync_item_frame now d : preserves P (add_sync_item now d).
Proof.
  unfold add_sync_item, insert_sync_item. preserves_tac. apply preserves_modify.
  intros c Hc. by apply frame_seq, frame_queue.
Qed.
#[local] Hint Resolve add_sync_item_frame : preserves.

Lemma send_sync_transports_frame now : preserves P (send_sync_transports now).
Proof.
  unfold send_sync_transports. preserves_tac. intros a Ha. simpl. by destruct (mapM _ _).
Qed.
End Frame.

(** A predicate that does not look at them is one by computation. *)
#[export] Hint Extern 1 (FrameInvariant _) => (split; intros ? ? H; exact H) : typeclass_instances.

Section ReadBack.
Context `{PF : !Platform, JS : !Json SyncItem, JE : !Json EnteredLoginParam,
          JC : !Json ConfiguredLoginParamJson}.

(** What [get_config_opt] makes of the stored text. *)
Definition shown_value (key : Config) (stored : option str) : option str :=
  match env_var (lit "DELTACHAT_" ++ str_to_uppercase (key_name key)) with
  | Some value => Some value
  | None =>
      match key with
      | Config.Selfavatar => get_abs_path <$> stored
      | Config.SysVersion => Some DC_VERSION_STR
      | Config.SysMsgsizeMaxRecommended => Some (print_N RECOMMENDED_FILE_SIZE)
      | Config.SysConfigKeys => Some get_config_keys_string
      | _ => stored
      end
  end.

(** What a setting is stored as. *)
Definition stored_value (key : Config) (value : option str) : option str :=
  match key with
  | Config.Displayname => sanitize_single_line <$> value
  | Config.Addr => str_to_lowercase <$> value
  | _ => value
  end.

Lemma get_raw_config_value k a : coherent a → (get_raw_config k a).1 = Ok (config a !! k).
Proof.
  intros Ha. unfold get_raw_config. destruct (config_cache a !! k) eqn:E; [|done].
  simpl. f_equal. by apply Ha.
Qed.

Lemma get_config_opt_value key a :
  coherent a → (get_config_opt key a).1 = Ok (shown_value key (config a !! key_name key)).
Proof.
  intros Ha. unfold get_config_opt, shown_value. destruct (env_var _); [done|].
  pose proof (get_raw_config_value (key_name key) a Ha) as Hr.
  destruct key; try done; unfold bind; by destruct (get_raw_config _ a) as [[] ?]; simplify_eq/=.
Qed.

(** A configured account knows which of its transports is the primary one. *)
Definition primary_set (a : Account) : Prop :=
  transports a ≠ [] → is_Some (config a !! key_name Config.ConfiguredAddr).

Lemma change_primary_table now ad a u a' :
  is_Some (config a !! key_name Config.ConfiguredAddr) →
  change_primary now ad a = (Ok u, a') →
  config a' = <[key_name Config.ConfiguredAddr := ad]> (config a).
Proof.
  intros Hs. unfold change_primary, bind at 1.
  destruct (in_transaction _ a) as [[[]|] a1] eqn:E; [|done].
  assert (H1 : config a1 = <[key_name Config.ConfiguredAddr := ad]> (config a)).
  { revert E. unfold in_transaction, update_transport. run_se.
    destruct (bool_decide _); simpl; [|done]. intros [= <-]. simpl. by rewrite bool_decide_eq_true_2. }
  unfold bind.
  pose proof (send_sync_transports_frame (λ b, config b = config a1) now a1 eq_refl) as H2.
  destruct (send_sync_transports now a1) as [[[]|] a2]; [|done]. simpl in H2.
  intros [= _ <-]. rewrite <- H1, <- H2. by destruct a2.
Qed.

Lemma write_config_table now sync key v a w a' :
  key ≠ Config.Selfavatar → (key = Config.ConfiguredAddr → primary_set a) →
  write_config now sync key v a = (Ok w, a') →
  config a' = partial_alter (λ _, stored_value key v) (key_name key) (config a).
Proof.
  intros Hk Hp. unfold write_config. destruct key; try done;
    try (unfold bind, set_raw_config, modify, ret; by intros [= _ <-]).
  destruct v as [ad|]; [|done]. run_se. unfold is_configured, gets. simpl.
  destruct (bool_decide_reflect (transports a ≠ [])) as [Ht|Ht]; simpl.
  - destruct (change_primary now ad a) as [[u|] a1] eqn:E; [|done]. intros [= _ <-].
    rewrite (change_primary_table now ad a u a1); [done|by apply Hp|done].
  - unfold add_pseudo_transport, insert_transport. case_bool_decide; [done|]. by intros [= _ <-].
Qed.

Lemma set_config_ex_table now sync key v a a' :
  key ≠ Config.Selfavatar → (key = Config.ConfiguredAddr → primary_set a) →
  set_config_ex now sync key v a = (Ok tt, a') →
  config a' = partial_alter (λ _, stored_value key v) (key_name key) (config a).
Proof.
  intros Hk Hp. unfold set_config_ex, bind at 1.
  assert (Hc : (check_config key v a).2 = a) by (unfold check_config; destruct key; by repeat case_match).
  destruct (check_config key v a) as [[[]|] a0]; [|done]. simpl in Hc. subst a0.
  unfold bind at 1.
  assert (Hc : (and_then (sync && is_synced key) is_configured a).2 = a)
    by (unfold and_then; by case_match).
  destruct (and_then _ is_configured a) as [[s|] a0]; [|done]. simpl in Hc. subst a0.
  unfold bind at 1. destruct (write_config now s key v a) as [[w|] a1] eqn:E; [|done].
  apply write_config_table in E; [|done|done]. rewrite <- E.
  match goal with |- ?m a1 = _ → _ => assert (Hr : preserves (λ b, config b = config a1) m) end.
  { preserves_tac; first [apply emit_frame|apply add_sync_item_frame]; apply _. }
  intros Heq. specialize (Hr a1 eq_refl). by rewrite Heq in Hr.
Qed.

(** The settings as a function of the table. *)
Definition default_setting (key : Config) (c : gmap str str) : option str :=
  match key with
  | Config.ConfiguredInboxFolder => Some (lit "INBOX")
  | Config.Addr => shown_value Config.ConfiguredAddr (c !! key_name Config.ConfiguredAddr)
  | _ => lit <$> Config.default_value key
  end.

Definition setting (key : Config) (c : gmap str str) : option str :=
  match shown_value key (c !! key_name key) with
  | Some v => Some v
  | None => default_setting key c
  end.

Definition flag (key : Config) (c : gmap str str) : bool :=
  match setting key c ≫= parse_i32 with Some x => negb (x =? 0)%Z | None => false end.

Definition sends_sync_msgs (c : gmap str str) : bool :=
  flag Config.SyncMsgs c && flag Config.BccSelf c && negb (flag Config.Bot c).

(** An operation that only reads: its value is a function of the table, which stays. *)
Definition reads {X} (x : A X) (f : gmap str str -> X) : Prop :=
  ∀ a, coherent a → (x a).1 = Ok (f (config a)) ∧ coherent (x a).2 ∧ config (x a).2 = config a
                    ∧ transports (x a).2 = transports a
                    ∧ multi_device_sync (x a).2 = multi_device_sync a.

Lemma reads_ret {X} (v : X) : reads (ret v) (λ _, v).
Proof. by intros a Ha. Qed.

Lemma reads_bind {X Y} (x : A X) f (y : X -> A Y) g :
  reads x f → (∀ v, reads (y v) (g v)) → reads (bind x y) (λ c, g (f c) c).
Proof.
  intros Hx Hy a Ha. unfold bind. destruct (Hx a Ha) as (H1 & H2 & H3 & H4 & H5).
  destruct (x a) as [[v|] a1]; [|done]. simpl in *. injection H1 as ->.
  destruct (Hy (f (config a)) a1 H2) as (K1 & K2 & K3 & K4 & K5).
  rewrite K1, K3, K4, K5, H3, H4, H5. done.
Qed.

Lemma reads_ext {X} (x : A X) f g : (∀ c, f c = g c) → reads x f → reads x g.
Proof. intros E Hx a Ha. rewrite <- E. by apply Hx. Qed.

Lemma get_raw_config_reads k : reads (get_raw_config k) (λ c, c !! k).
Proof.
  intros a Ha. rewrite get_raw_config_value by done.
  split; [done|]. split; [by apply get_raw_config_coherent|].
  unfold get_raw_config. by destruct (config_cache a !! k).
Qed.

Lemma get_config_opt_reads key : reads (get_config_opt key) (λ c, shown_value key (c !! key_name key)).
Proof.
  intros a Ha. rewrite get_config_opt_value by done.
  split; [done|]. split; [by apply get_config_opt_coherent|].
  pose proof (get_raw_config_reads (key_name key) a Ha) as (E & _ & H1 & H2 & H3).
  unfold get_config_opt. destruct (env_var _); [done|].
  destruct key; try done. unfold bind.
  destruct (get_raw_config _ a) as [[v|] a1]; [|done]. by split_and!.
Qed.

Lemma get_config_reads key : reads (get_config key) (setting key).
Proof.
  apply (reads_bind _ _ _ (λ v c, match v with Some v => Some v | None => default_setting key c end)
           (get_config_opt_reads key)).
  intros [v|]; [apply reads_ret|].
  destruct key; try apply reads_ret; apply (get_config_opt_reads Config.ConfiguredAddr).
Qed.

Lemma get_config_bool_reads key : reads (get_config_bool key) (flag key).
Proof.
  apply (reads_bind _ _ _ (λ s _, match s ≫= parse_i32 with Some x => negb (x =? 0)%Z
                                  | None => false end) (get_config_reads key)).
  intros s. apply reads_ret.
Qed.

Lemma and_then_reads (b : bool) x f : reads x f → reads (and_then b x) (λ c, b && f c).
Proof. destruct b; [done|]. intros _. apply (reads_ret false). Qed.

Lemma should_send_reads : reads should_send_sync_msgs sends_sync_msgs.
Proof.
  eapply reads_ext; [|apply (reads_bind _ (flag Config.SyncMsgs) _
    (λ v c, (v && flag Config.BccSelf c) && negb (flag Config.Bot c)))].
  - done.
  - apply get_config_bool_reads.
  - intros v. apply (reads_bind _ (λ c, v && flag Config.BccSelf c) _
      (λ w c, w && negb (flag Config.Bot c))).
    + apply and_then_reads, get_config_bool_reads.
    + intros w. apply and_then_reads.
      apply (reads_bind _ _ _ (λ x _, negb x) (get_config_bool_reads Config.Bot)).
      intros x. apply reads_ret.
Qed.

Lemma add_sync_item_spec now d a :
  coherent a → sends_sync_msgs (config a) = true →
  ∃ id a', add_sync_item now d a = (Ok tt, a') ∧ coherent a' ∧ config a' = config a
    ∧ transports a' = transports a
    ∧ multi_device_sync a' = multi_device_sync a
        ++ [(id, to_json {| si_timestamp := now; si_data := Known d |})].
Proof.
  intros Ha Hs. unfold add_sync_item, bind.
  destruct (should_send_reads a Ha) as (E & Hc & H1 & H2 & H3).
  destruct (should_send_sync_msgs a) as [[b|] a1]; [|done]. simpl in *. injection E as ->.
  rewrite Hs. eexists _, _. split; [reflexivity|]. simpl. rewrite H3. by split_and!.
Qed.

(** Names of keys are distinct. *)
Lemma key_name_inj key1 key2 : key_name key1 = key_name key2 → key1 = key2.
Proof.
  assert (Hd : NoDup (key_name <$> Config.all)) by (apply (bool_decide_unpack _); by vm_compute).
  assert (Hin : ∀ key, key ∈ Config.all) by (intros key; apply (bool_decide_unpack _); by destruct key; vm_compute).
  destruct (list_elem_of_lookup_1 _ _ (Hin key1)) as [i Hi].
  destruct (list_elem_of_lookup_1 _ _ (Hin key2)) as [j Hj]. intros E.
  assert (i = j) as <-; [|congruence].
  eapply NoDup_lookup; [exact Hd| |]; rewrite list_lookup_fmap; [by rewrite Hi|].
  rewrite Hj. simpl. by rewrite E.
Qed.

(** Writing a setting that is a plain text, without and with an item for the other devices. *)
Lemma write_text now sync key v a :
  is_synced key = true → key ≠ Config.Selfavatar →
  write_config now sync key (Some v) a =
    (Ok (stored_value key (Some v)), (set_raw_config (key_name key) (stored_value key (Some v)) a).2).
Proof. destruct key; try done. Qed.

Lemma set_synced_spec now (sync : bool) key v a :
  coherent a → is_synced key = true → key ≠ Config.Selfavatar →
  (check_config key (Some v) a).1 = Ok tt →
  (sync = true → transports a ≠ [] ∧ sends_sync_msgs (config a) = true) →
  ∃ a', set_config_ex now sync key (Some v) a = (Ok tt, a')
    ∧ coherent a' ∧ config a' !! key_name key = stored_value key (Some v)
    ∧ if sync then ∃ id val, stored_value key (Some v) = Some val
        ∧ multi_device_sync a' = multi_device_sync a
            ++ [(id, to_json {| si_timestamp := now; si_data := Known (SyncConfig key val) |})]
      else multi_device_sync a' = multi_device_sync a.
Proof.
  intros Ha Hs Hk Hc Hsend. unfold set_config_ex, bind at 1.
  assert (Hc2 : (check_config key (Some v) a).2 = a)
    by (unfold check_config; destruct key; by repeat case_match).
  destruct (check_config key (Some v) a) as [r a0]. simpl in *. subst r a0.
  unfold bind at 1. rewrite Hs, andb_true_r.
  assert (Hand : and_then sync is_configured a = (Ok sync, a)).
  { destruct sync; [|done]. unfold and_then, is_configured, gets. rewrite bool_decide_eq_true_2; [done|].
    by apply Hsend. }
  rewrite Hand. unfold bind at 1. rewrite write_text by done.
  assert (Hsv : ∃ val, stored_value key (Some v) = Some val) by (destruct key; simpl; eauto).
  destruct Hsv as [val Hval]. rewrite Hval.
  set (a1 := (set_raw_config (key_name key) (Some val) a).2).
  assert (Ha1 : coherent a1) by (by apply set_raw_config_coherent).
  assert (Hsend1 : sends_sync_msgs (config a1) = sends_sync_msgs (config a)).
  { unfold sends_sync_msgs, flag, setting, a1. simpl.
    rewrite !lookup_partial_alter_ne; [done|..]; intros E%key_name_inj; by subst. }
  assert (Hstore : config a1 !! key_name key = Some val) by apply lookup_partial_alter_eq.
  unfold bind, when. cbn [negb].
  set (ev := λ e a, upd_account_events (λ l, l ++ [e]) a).
  assert (Hev : ∀ (b : bool) e c, (if b then emit e else ret tt) c = (Ok tt, if b then ev e c else c))
    by (by intros []).
  rewrite Hev. generalize (bool_decide (key ∈ [Config.Displayname; Config.Selfavatar; Config.PrivateTag])).
  intros b. set (a2 := ev (ConfigSynced key) (if b then ev AccountsItemChanged a1 else a1)).
  change (emit (ConfigSynced key) (if b then ev AccountsItemChanged a1 else a1))
    with (Ok tt : result unit AccountError, a2).
  assert (H2 : config a2 = config a1 ∧ config_cache a2 = config_cache a1
               ∧ multi_device_sync a2 = multi_device_sync a) by (unfold a2; by destruct b).
  clearbody a2. destruct H2 as (E1 & E2 & E3).
  assert (Ha2 : coherent a2) by (intros k w; rewrite E1, E2; apply Ha1).
  destruct sync; simpl.
  - destruct (add_sync_item_spec now (SyncConfig key val) a2) as (id & a3 & E & Hc3 & H4 & _ & H5);
      [done|rewrite E1, Hsend1; by apply Hsend|].
    unfold ignore_err. rewrite E. exists a3. split; [done|]. split; [done|].
    rewrite H4, E1, H5, E3. split; [done|]. by exists id, val.
  - exists a2. by rewrite E1.
Qed.
End ReadBack.

(** ** Theorems *)

Section Theorems.
Context `{PF : !Platform, JS : !Json SyncItem, JE : !Json EnteredLoginParam,
          JC : !Json ConfiguredLoginParamJson}.

(** C30. The cache never contradicts the table: reading a setting, writing one, and writing one a
    device sent keep everything that is cached equal to what is stored, whether they succeed or
    fail; only the change of the primary address is required to succeed. *)
Theorem settings_cache_coherent now a :
  coherent a →
  (∀ key, coherent (get_config key a).2)
  ∧ (∀ key v, coherent (sync_config now key v a).2)
  ∧ ∀ sync key v r a', set_config_ex now sync key v a = (r, a') →
      (key = Config.ConfiguredAddr → r = Ok tt) → coherent a'.
Proof.
  intros Ha. split_and!.
  - intros key. by apply get_config_coherent.
  - intros key v. unfold sync_config.
    apply preserves_bind with (P := coherent); [|intros w|done].
    + destruct key; try apply preserves_ret. case_bool_decide; [apply preserves_ret|apply preserves_ok_or].
    + destruct key; simpl; try apply preserves_ret; by apply set_config_ex_coherent.
  - intros sync key v r a' E Hr. destruct (decide (key = Config.ConfiguredAddr)) as [->|Hk].
    + rewrite (Hr eq_refl) in E. by eapply set_primary_coherent.
    + pose proof (set_config_ex_coherent now sync key v Hk a Ha) as Hc. by rewrite E in Hc.
Qed.

(** A setting that was written is read back, sanitized or in lower case where the code says
    so, and every other setting is what it was. *)
Theorem set_then_get now sync key v a a' :
  coherent a → key ≠ Config.Selfavatar → (key = Config.ConfiguredAddr → primary_set a) →
  set_config_ex now sync key v a = (Ok tt, a') →
  (get_config_opt key a').1 = Ok (shown_value key (stored_value key v))
  ∧ ∀ key', key' ≠ key → (get_config_opt key' a').1 = (get_config_opt key' a).1.
Proof.
  intros Ha Hk Hp E.
  assert (Ha' : coherent a').
  { destruct (decide (key = Config.ConfiguredAddr)) as [->|Hk'].
    - by eapply set_primary_coherent.
    - pose proof (set_config_ex_coherent now sync key v Hk' a Ha) as Hc. by rewrite E in Hc. }
  apply set_config_ex_table in E; [|done|done].
  rewrite get_config_opt_value, E, lookup_partial_alter_eq by done. split; [done|].
  intros key' Hne. rewrite !get_config_opt_value, E by done.
  by rewrite lookup_partial_alter_ne by (intros ?%key_name_inj; congruence).
Qed.

(** A synchronised setting arrives: the device where it is set queues exactly one item, a
    device that executes the item shows the same value, and queues nothing, so devices do not
    answer each other for ever. *)
Theorem synced_setting_arrives now now' key v val a b :
  coherent a → coherent b → is_synced key = true → key ≠ Config.Selfavatar →
  transports a ≠ [] → sends_sync_msgs (config a) = true →
  (check_config key (Some v) a).1 = Ok tt →
  stored_value key (Some v) = Some val → stored_value key (Some val) = Some val →
  ∃ id a' b', set_config_ex now true key (Some v) a = (Ok tt, a')
    ∧ multi_device_sync a' = multi_device_sync a
        ++ [(id, to_json {| si_timestamp := now; si_data := Known (SyncConfig key val) |})]
    ∧ sync_config now' key val b = (Ok tt, b')
    ∧ (get_config_opt key b').1 = (get_config_opt key a').1
    ∧ multi_device_sync b' = multi_device_sync b.
Proof.
  intros Ha Hb Hs Hk Hta Hsa Hc Hv Hval.
  destruct (set_synced_spec now true key v a) as (a' & Ea & Hca & Hga & id & val' & Hv' & Hq);
    try done.
  assert (val' = val) as -> by congruence.
  assert (Hcb : (check_config key (Some val) b).1 = Ok tt).
  { revert Hc. unfold check_config. destruct key; try done. simpl in Hv. injection Hv as ->.
    by case_match. }
  destruct (set_synced_spec now' false key val b) as (b' & Eb & Hcb' & Hgb & Hqb); try done.
  exists id, a', b'. split_and!; try done.
  - unfold sync_config, bind. destruct key; try done.
  - rewrite !get_config_opt_value by done. by rewrite Hgb, Hga, Hv, Hval.
Qed.

(** A display name that begins with a control character and a space is trimmed once more on
    every device that receives it: the devices of one user show different names. *)
Theorem displayname_not_stable :
  let v := 8238%N :: lit " Bob" in
  stored_value Config.Displayname (Some v) = Some (lit " Bob")
  ∧ stored_value Config.Displayname (Some (lit " Bob")) = Some (lit "Bob").
Proof. split; by vm_compute. Qed.
End Theorems.

(** ** Sample accounts *)

Definition sample_platform : Platform :=
  {| env_var := λ _, None; str_to_lowercase := fmap nocase; str_to_uppercase := λ s, s;
     DC_VERSION_STR := lit "2.0.0"; blobdir := lit "/blobs"; store_avatar := λ _, None;
     avatar_base64 := λ _, None; store_from_base64 := λ _, Some None |}.

(** A serializer that no text parses back from. *)
Definition opaque_json (T : Type) : Json T := {| to_json := λ _, []; of_json := λ _, None |}.

Definition empty_account : Account :=
  {| config := ∅; config_cache := ∅; transports := []; transport_seq := 0;
     removed_transports := []; multi_device_sync := []; sync_seq := 0; tokens := [];
     smtp_queue := []; imap_send := []; selfavatar_sent := ∅; account_events := [] |}.

Lemma empty_coherent : coherent empty_account.
Proof. done. Qed.

Definition sample_row (id : N) (ad : str) (t : Z) : transport_row :=
  {| t_id := id; t_addr := ad; t_entered_param := []; t_configured_param := [];
     t_add_timestamp := t; t_is_published := true |}.

(** Two relays, of which the first is the primary one; items are sent to the other devices. *)
Definition two_relays : Account :=
  upd_config (λ _, <[key_name Config.ConfiguredAddr := lit "a@x.org"]>
                   {[key_name Config.BccSelf := lit "1"]})
    (upd_config_cache (λ _, {[key_name Config.ConfiguredAddr := Some (lit "a@x.org")]})
      (upd_transports (λ _, [sample_row 1 (lit "a@x.org") 5; sample_row 2 (lit "b@x.org") 6])
        empty_account)).

Lemma two_relays_coherent : coherent two_relays.
Proof.
  intros k v _. unfold two_relays. simpl. intros [<- <-]%lookup_singleton_Some.
  by rewrite lookup_insert_eq.
Qed.

Section Witnesses.
#[local] Instance PF : Platform := sample_platform.
#[local] Instance JS : Json SyncItem := opaque_json _.
#[local] Instance JE : Json EnteredLoginParam := opaque_json _.
#[local] Instance JC : Json ConfiguredLoginParamJson := opaque_json _.

Lemma settings_cache_coherent_witness :
  coherent two_relays ∧ coherent (get_config Config.Displayname two_relays).2
  ∧ coherent (sync_config 7 Config.Displayname (lit "Bob") two_relays).2.
Proof.
  split; [apply two_relays_coherent|]. split.
  - apply (proj1 (settings_cache_coherent 7 two_relays two_relays_coherent)).
  - apply (proj1 (proj2 (settings_cache_coherent 7 two_relays two_relays_coherent))).
Defined.

Lemma set_then_get_witness :
  let a' := (set_config_ex 7 true Config.Displayname (Some (lit " Bob ")) two_relays).2 in
  set_config_ex 7 true Config.Displayname (Some (lit " Bob ")) two_relays = (Ok tt, a')
  ∧ (get_config_opt Config.Displayname a').1 = Ok (Some (lit "Bob")).
Proof.
  assert (E : set_config_ex 7 true Config.Displayname (Some (lit " Bob ")) two_relays
    = (Ok tt, (set_config_ex 7 true Config.Displayname (Some (lit " Bob ")) two_relays).2))
    by (vm_compute; reflexivity).
  split; [exact E|].
  rewrite (proj1 (set_then_get 7 true Config.Displayname (Some (lit " Bob ")) two_relays _
    two_relays_coherent ltac:(discriminate) ltac:(discriminate) E)).
  vm_compute. reflexivity.
Defined.

Lemma synced_setting_arrives_witness :
  ∃ id a' b', set_config_ex 7 true Config.Displayname (Some (lit "Bob")) two_relays = (Ok tt, a')
    ∧ multi_device_sync a' = multi_device_sync two_relays
        ++ [(id, to_json {| si_timestamp := 7;
                            si_data := Known (SyncConfig Config.Displayname (lit "Bob")) |})]
    ∧ sync_config 9 Config.Displayname (lit "Bob") empty_account = (Ok tt, b')
    ∧ (get_config_opt Config.Displayname b').1 = (get_config_opt Config.Displayname a').1
    ∧ multi_device_sync b' = multi_device_sync empty_account.
Proof.
  apply (synced_setting_arrives 7 9 Config.Displayname (lit "Bob") (lit "Bob") two_relays
           empty_account two_relays_coherent empty_coherent).
  all: try (vm_compute; reflexivity). all: vm_compute; discriminate.
Defined.

(** When the change of the primary address is committed but the list of transports cannot be
    read for the other devices, the cache keeps the old address: the table and the program
    disagree about the address messages are sent from. *)
Theorem failed_change_leaves_stale_address :
  let '(r, a') := set_config_ex 7 true Config.ConfiguredAddr (Some (lit "b@x.org")) two_relays in
  r = Err InvalidJson
  ∧ config a' !! key_name Config.ConfiguredAddr = Some (lit "b@x.org")
  ∧ (get_config Config.ConfiguredAddr a').1 = Ok (Some (lit "a@x.org")).
Proof. vm_compute. done. Qed.
End Witnesses.
