(* ===== verification/Transport.v ===== *)
(** Transport: the relays of an account (src/src/transport.rs, src/src/configure.rs): saving,
    removing and publishing them, synchronising them between devices, the list of own
    addresses (src/src/config.rs), and the settings entered by the user
    (src/src/login_param.rs). *)
From S2P Require Import Prelude Monad ContactTools LoginParam Config.
From stdpp Require Import sorting.

(** [UNIQUE(addr)]: the row of an address. *)
Definition find_transport (ad : str) (l : list transport_row) : option transport_row :=
  head (base.filter (λ r, t_addr r = ad) l).

Section TransportOps.
Context `{!Platform, !Json SyncItem, !Json EnteredLoginParam, !Json ConfiguredLoginParamJson}.

(** The [WHERE] clause of the upsert: whether the new values differ or are newer. *)
Definition row_outdated (r : transport_row) (entered configured : str) (add_timestamp : Z)
    (published : bool) : bool :=
  negb (bool_decide (t_entered_param r = entered))
  || negb (bool_decide (t_configured_param r = configured))
  || (t_add_timestamp r <? add_timestamp)%Z
  || negb (Bool.eqb (t_is_published r) published).

(** [INSERT INTO transports .. ON CONFLICT (addr) DO UPDATE ..]: whether a row was changed. *)
Definition upsert_transport (ad entered configured : str) (add_timestamp : Z) (published : bool)
  : A bool :=
  row <- gets (λ a, find_transport ad (transports a)) ;;
  match row with
  | None => insert_transport ad entered configured add_timestamp published ;;; ret true
  | Some r =>
      if row_outdated r entered configured add_timestamp published then
        update_transport ad (λ r,
          {| t_id := t_id r; t_addr := t_addr r; t_entered_param := entered;
             t_configured_param := configured; t_add_timestamp := add_timestamp;
             t_is_published := published |}) ;;; ret true
      else ret false
  end.

Definition folder_ok (configured : ConfiguredLoginParamJson) : bool :=
  negb (bool_decide (imap_watched_folder configured = Some [])).

(** [save_transport]. *)
Definition save_transport (entered_param : EnteredLoginParam)
    (configured : ConfiguredLoginParamJson) (add_timestamp : Z) (published : bool) : A bool :=
  (if folder_ok configured then ret tt else fail InvalidValue) ;;;
  let ad := addr_normalize str_to_lowercase (addr configured) in
  configured_addr <- get_config Config.ConfiguredAddr ;;
  modified <- upsert_transport ad (to_json entered_param) (to_json configured) add_timestamp
                published ;;
  match configured_addr with
  | None => set_raw_config (key_name Config.ConfiguredAddr) (Some ad) ;;; ret true
  | Some _ => ret modified
  end.

(** [ConfiguredLoginParam::save_to_transports_table]. *)
Definition save_to_transports_table (p : ConfiguredLoginParam) (entered_param : EnteredLoginParam)
    (timestamp : Z) : A unit :=
  _ <- save_transport entered_param (into_param_json p) timestamp true ;; ret tt.

Fixpoint save_transports (ts : list TransportData) : A bool :=
  match ts with
  | [] => ret false
  | t :: ts' =>
      m <- save_transport (td_entered t) (td_configured t) (td_timestamp t) (td_is_published t) ;;
      m' <- save_transports ts' ;;
      ret (m || m')
  end.

(** [SELECT value FROM config WHERE keyname='configured_addr'], bypassing the cache. *)
Definition primary_addr : A str :=
  λ a, match config a !! key_name Config.ConfiguredAddr with
       | Some ad => (Ok ad, a)
       | None => (Err NoSuchRow, a)
       end.

(** [INSERT INTO removed_transports .. ON CONFLICT (addr) DO UPDATE ..], where [newer] tells
    from the old and the new time whether to update. *)
Fixpoint upsert_removed (newer : Z -> Z -> bool) (ad : str) (t : Z) (l : list (str * Z))
  : list (str * Z) :=
  match l with
  | [] => [(ad, t)]
  | (ad', t') :: l' =>
      if bool_decide (ad' = ad) then (ad', if newer t' t then t else t') :: l'
      else (ad', t') :: upsert_removed newer ad t l'
  end.

Definition is_removed (ad : str) (t : Z) (r : transport_row) : bool :=
  bool_decide (t_addr r = ad) && (t_add_timestamp r <=? t)%Z.

(** One removed transport of [sync_transports]; whether a row was deleted. *)
Definition remove_one (configured_addr : str) (r : RemovedTransportData) : A bool :=
  if bool_decide (rt_addr r = configured_addr) then ret false
  else
    hit <- gets (λ a, existsb (is_removed (rt_addr r) (rt_timestamp r)) (transports a)) ;;
    modify (upd_transports (base.filter (λ x, is_removed (rt_addr r) (rt_timestamp r) x = false))) ;;;
    modify (upd_removed_transports
      (upsert_removed (λ old new, old <? new)%Z (rt_addr r) (rt_timestamp r))) ;;;
    ret hit.

Fixpoint remove_all (configured_addr : str) (l : list RemovedTransportData) : A bool :=
  match l with
  | [] => ret false
  | r :: l' =>
      m <- remove_one configured_addr r ;; m' <- remove_all configured_addr l' ;; ret (m || m')
  end.

(** [sync_transports]. *)
Definition sync_transports (ts : list TransportData) (removed : list RemovedTransportData)
  : A unit :=
  modified <- save_transports ts ;;
  modified' <- in_transaction (configured_addr <- primary_addr ;; remove_all configured_addr removed) ;;
  when (modified || modified') (emit TransportsModified).

(** [Context::delete_transport]. *)
Definition delete_transport (now : Z) (ad : str) : A unit :=
  in_transaction (
    primary <- primary_addr ;;
    if bool_decide (primary = ad) then fail NotATransport
    else
      row <- gets (λ a, find_transport ad (transports a)) ;;
      row <- ok_or row NoSuchRow ;;
      modify (upd_transports (base.filter (λ r, t_addr r ≠ ad))) ;;;
      let remove_timestamp := Z.max now (t_add_timestamp row) in
      modify (upd_removed_transports (upsert_removed (λ _ _, true) ad remove_timestamp))) ;;;
  send_sync_transports now.

(** [Context::set_transport_unpublished]. *)
Definition set_transport_unpublished (now : Z) (ad : str) (unpublished : bool) : A unit :=
  in_transaction (
    primary <- primary_addr ;;
    if bool_decide (primary = ad) && unpublished then fail NotATransport
    else
      update_transport ad (λ r,
        if Bool.eqb (t_is_published r) (negb unpublished) then r
        else {| t_id := t_id r; t_addr := t_addr r; t_entered_param := t_entered_param r;
                t_configured_param := t_configured_param r; t_add_timestamp := now;
                t_is_published := negb unpublished |})) ;;;
  send_sync_transports now.

(** [ORDER BY add_timestamp DESC, id DESC]. *)
Definition newer_row (r1 r2 : transport_row) : Prop :=
  (t_add_timestamp r2 < t_add_timestamp r1)%Z
  ∨ (t_add_timestamp r1 = t_add_timestamp r2 ∧ (t_id r2 <= t_id r1)%N).

#[export] Instance newer_row_dec r1 r2 : Decision (newer_row r1 r2).
Proof. unfold newer_row. apply _. Defined.

(** [Context::get_all_self_addrs], [get_published_self_addrs],
    [get_published_secondary_self_addrs]. *)
Definition get_all_self_addrs : A (list str) :=
  gets (λ a, t_addr <$> merge_sort newer_row (transports a)).

Definition get_published_self_addrs : A (list str) :=
  gets (λ a, t_addr <$> merge_sort newer_row (base.filter (λ r, t_is_published r = true) (transports a))).

Definition get_published_secondary_self_addrs : A (list str) :=
  gets (λ a, t_addr <$> merge_sort newer_row
    (base.filter (λ r, t_is_published r = true
                       ∧ config a !! key_name Config.ConfiguredAddr ≠ Some (t_addr r))
       (transports a))).

(** [Context::list_transports] and [count_transports]. *)
Definition list_transports : A (list (EnteredLoginParam * bool)) :=
  λ a, match mapM (λ r, p ← of_json (t_entered_param r); Some (p, negb (t_is_published r)))
               (transports a) with
       | Some l => (Ok l, a)
       | None => (Err InvalidJson, a)
       end.

Definition count_transports : A nat := gets (λ a, length (transports a)).

(** [get_provider_by_id]: the provider database is data. *)
Context (get_provider_by_id : str -> option Provider).

(** [ConfiguredLoginParam::from_json]. *)
Definition from_json (json : str) : option ConfiguredLoginParam :=
  p ← of_json json;
  if folder_ok p then Some (map_provider (λ id, id ≫= get_provider_by_id) p) else None.

(** [ConfiguredLoginParam::into_json]. *)
Definition into_json (p : ConfiguredLoginParam) : str := to_json (into_param_json p).

(** [ConfiguredLoginParam::load] and [load_all]. *)
Definition load : A (option (N * ConfiguredLoginParam)) :=
  self_addr <- get_config Config.ConfiguredAddr ;;
  match self_addr with
  | None => ret None
  | Some ad =>
      row <- gets (λ a, find_transport ad (transports a)) ;;
      row <- ok_or row NotATransport ;;
      p <- ok_or (from_json (t_configured_param row)) InvalidJson ;;
      ret (Some (t_id row, p))
  end.

Definition load_all : A (list (N * ConfiguredLoginParam)) :=
  λ a, match mapM (λ r, p ← from_json (t_configured_param r); Some (t_id r, p)) (transports a) with
       | Some l => (Ok l, a)
       | None => (Err InvalidJson, a)
       end.
End TransportOps.

(** ** Which server to try first *)

Section Prioritize.
Context {X : Type} (timestamp : X -> option Z).

(** [Reverse(Option<i64>)]: the latest success first, servers that never worked last. *)
Definition ts_le (a b : option Z) : bool :=
  match a, b with
  | None, _ => true
  | Some _, None => false
  | Some x, Some y => (x <=? y)%Z
  end.

(** [slice::sort_by_key] is stable: an element goes before those of the same key that follow it. *)
Fixpoint insert_desc (x : X) (l : list X) : list X :=
  match l with
  | [] => [x]
  | y :: l' => if ts_le (timestamp y) (timestamp x) then x :: y :: l' else y :: insert_desc x l'
  end.

Definition sort_by_reverse_key (l : list X) : list X := foldr insert_desc [] l.
End Prioritize.

(** [prioritize_server_login_params]: [load_connection_timestamp] is the time of the last
    connection to a host and port. *)
Definition prioritize_server_login_params (load_connection_timestamp : str -> Z -> option Z)
    (params : list ConfiguredServerLoginParam) : list ConfiguredServerLoginParam :=
  snd <$> sort_by_reverse_key fst
    ((λ p, (load_connection_timestamp (cc_host (connection p)) (cc_port (connection p)), p))
       <$> params).

(** ** The settings entered by the user, as single settings (login_param.rs) *)

(** [ToOption]. *)
Definition text_to_option (s : str) : option str := if bool_decide (s = []) then None else Some s.
Definition int_to_option (n : Z) : option str := if (n =? 0)%Z then None else Some (print_Z n).

Definition DC_LP_AUTH_OAUTH2 : Z := 2.
Definition DC_LP_AUTH_NORMAL : Z := 4.
Definition DC_LP_AUTH_FLAGS : Z := Z.lor DC_LP_AUTH_OAUTH2 DC_LP_AUTH_NORMAL.

Section Legacy.
Context `{!Platform, !Json SyncItem, !Json EnteredLoginParam, !Json ConfiguredLoginParamJson}.
Context (pre_sending_config_change : bool -> bool -> A unit) (maybe_send_stats : A unit).

Definition legacy_settings (p : EnteredLoginParam) : list (Config * option str) :=
  [(Config.Addr, Some (e_addr p));
   (Config.MailServer, text_to_option (imap_server (e_imap p)));
   (Config.MailPort, int_to_option (imap_port (e_imap p)));
   (Config.MailSecurity, int_to_option (Socket.to_i32 (imap_security (e_imap p))));
   (Config.MailUser, text_to_option (imap_user (e_imap p)));
   (Config.MailPw, text_to_option (imap_password (e_imap p)));
   (Config.SendServer, text_to_option (smtp_server (e_smtp p)));
   (Config.SendPort, int_to_option (smtp_port (e_smtp p)));
   (Config.SendSecurity, int_to_option (Socket.to_i32 (smtp_security (e_smtp p))));
   (Config.SendUser, text_to_option (smtp_user (e_smtp p)));
   (Config.SendPw, text_to_option (smtp_password (e_smtp p)));
   (Config.ImapCertificateChecks,
    int_to_option (EnteredCertificateChecks.to_i32 (e_certificate_checks p)));
   (Config.ServerFlags, if e_oauth2 p then Some (print_Z DC_LP_AUTH_OAUTH2) else None)].

(** [EnteredLoginParam::save_legacy]. *)
Definition save_legacy (now : Z) (p : EnteredLoginParam) : A unit :=
  for_each (legacy_settings p)
    (λ '(key, v), set_config pre_sending_config_change maybe_send_stats now key v).

Definition get_text (key : Config) : A str := v <- get_config key ;; ret (default [] v).

Definition get_port (key : Config) : A Z :=
  v <- get_config_parsed parse_u16 key ;; ret (default 0%Z v).

Definition get_socket (key : Config) : A Socket :=
  v <- get_config_parsed parse_i32 key ;;
  ret (default Socket.Automatic (v ≫= Socket.from_i32)).

Definition is_oauth2 (server_flags : Z) : bool :=
  (Z.land server_flags DC_LP_AUTH_FLAGS =? DC_LP_AUTH_OAUTH2)%Z.

(** [EnteredLoginParam::load_legacy]. *)
Definition load_legacy : A EnteredLoginParam :=
  ad <- get_text Config.Addr ;;
  mail_server <- get_text Config.MailServer ;;
  mail_port <- get_port Config.MailPort ;;
  mail_security <- get_socket Config.MailSecurity ;;
  mail_user <- get_text Config.MailUser ;;
  mail_pw <- get_text Config.MailPw ;;
  checks <- get_config_parsed parse_i32 Config.ImapCertificateChecks ;;
  checks <- match checks with
            | Some z => ok_or (EnteredCertificateChecks.from_i32 z) InvalidValue
            | None => ret EnteredCertificateChecks.Automatic
            end ;;
  send_server <- get_text Config.SendServer ;;
  send_port <- get_port Config.SendPort ;;
  send_security <- get_socket Config.SendSecurity ;;
  send_user <- get_text Config.SendUser ;;
  send_pw <- get_text Config.SendPw ;;
  server_flags <- get_config_parsed parse_i32 Config.ServerFlags ;;
  ret {| e_addr := trim ad;
         e_imap := {| imap_server := mail_server; imap_port := mail_port; imap_folder := [];
                      imap_security := mail_security; imap_user := mail_user;
                      imap_password := mail_pw |};
         e_smtp := {| smtp_server := send_server; smtp_port := send_port;
                      smtp_security := send_security; smtp_user := send_user;
                      smtp_password := send_pw |};
         e_certificate_checks := checks;
         e_oauth2 := is_oauth2 (default 0%Z server_flags) |}.
End Legacy.

(** ** The entered settings come back *)

Section LegacyRoundTrip.
Context `{PF : !Platform, JS : !Json SyncItem, JE : !Json EnteredLoginParam,
          JC : !Json ConfiguredLoginParamJson}.
Context (pre : bool -> bool -> A unit) (post : A unit).

Lemma set_legacy_setting now p key v a :
  (key, v) ∈ legacy_settings p →
  set_config pre post now key v a
  = (Ok tt, (set_raw_config (key_name key) (stored_value key v) a).2).
Proof.
  unfold legacy_settings. intros H.
  repeat (apply elem_of_cons in H as [[= -> ->]|H]; [reflexivity|]).
  by apply not_elem_of_nil in H.
Qed.

Lemma save_settings now p l a :
  (∀ x, x ∈ l → x ∈ legacy_settings p) → NoDup (fst <$> l) → coherent a →
  ∃ a', for_each l (λ '(key, v), set_config pre post now key v) a = (Ok tt, a')
    ∧ coherent a'
    ∧ (∀ key v, (key, v) ∈ l → config a' !! key_name key = stored_value key v)
    ∧ (∀ key, key ∉ fst <$> l → config a' !! key_name key = config a !! key_name key).
Proof.
  revert a. induction l as [|[key v] l IH]; intros a Hl Hd Ha; simpl.
  { exists a. split_and!; try done. intros key v H. by apply not_elem_of_nil in H. }
  unfold bind. rewrite (set_legacy_setting now p) by (apply Hl; by left).
  apply list.NoDup_cons in Hd as [Hk Hd].
  destruct (IH (set_raw_config (key_name key) (stored_value key v) a).2) as (a' & E & Hc & Hin & Hout).
  { intros x Hx. apply Hl. by right. }
  { done. }
  { by apply set_raw_config_coherent. }
  exists a'. split_and!; [done|done| |].
  - intros key' v' [[= -> ->]|H]%elem_of_cons; [|by apply Hin].
    rewrite Hout by done. apply lookup_partial_alter_eq.
  - intros key' [Hne Hnot]%not_elem_of_cons. rewrite Hout by done. simpl.
    apply lookup_partial_alter_ne. intros E'. apply key_name_inj in E'. congruence.
Qed.

Lemma reads_step {X Y} (x : A X) f (k : X -> A Y) c (Q : result Y AccountError -> Prop) :
  reads x f →
  (∀ a, coherent a → config a = c → Q (k (f c) a).1) →
  ∀ a, coherent a → config a = c → Q (bind x k a).1.
Proof.
  intros Hx Hk a Ha <-. unfold bind. destruct (Hx a Ha) as (E & Hc & H1 & _).
  destruct (x a) as [[v|] a1]; [|done]. simpl in *. injection E as ->. by apply Hk.
Qed.

(** The environment sets no setting. *)
Definition no_override : Prop :=
  ∀ key, env_var (lit "DELTACHAT_" ++ str_to_uppercase (key_name key)) = None.

Lemma get_text_reads key : reads (get_text key) (λ c, default [] (setting key c)).
Proof. apply (reads_bind _ _ _ (λ v _, default [] v) (get_config_reads key)). intros v. apply reads_ret. Qed.

Lemma get_parsed_reads {X} (parse : str -> option X) key :
  reads (get_config_parsed parse key) (λ c, setting key c ≫= parse).
Proof. apply (reads_bind _ _ _ (λ v _, v ≫= parse) (get_config_reads key)). intros v. apply reads_ret. Qed.

Lemma get_port_reads key : reads (get_port key) (λ c, default 0%Z (setting key c ≫= parse_u16)).
Proof. apply (reads_bind _ _ _ (λ v _, default 0%Z v) (get_parsed_reads parse_u16 key)). intros v. apply reads_ret. Qed.

Lemma get_socket_reads key :
  reads (get_socket key) (λ c, default Socket.Automatic ((setting key c ≫= parse_i32) ≫= Socket.from_i32)).
Proof.
  apply (reads_bind _ _ _ (λ v _, default Socket.Automatic (v ≫= Socket.from_i32))
           (get_parsed_reads parse_i32 key)). intros v. apply reads_ret.
Qed.

Lemma text_back s : default [] (text_to_option s) = s.
Proof. unfold text_to_option. by case_bool_decide. Qed.

Lemma port_back n :
  (0 <= n <= u16_max)%Z → default 0%Z (int_to_option n ≫= parse_u16) = n.
Proof.
  intros H. unfold int_to_option. destruct (Z.eqb_spec n 0) as [->|]; [done|].
  cbn [mbind option_bind]. unfold parse_u16. by rewrite parse_print_unsigned.
Qed.

Lemma socket_back s :
  default Socket.Automatic ((int_to_option (Socket.to_i32 s) ≫= parse_i32) ≫= Socket.from_i32) = s.
Proof. by destruct s. Qed.

Lemma checks_back c :
  match int_to_option (EnteredCertificateChecks.to_i32 c) ≫= parse_i32 with
  | Some z => ok_or (EnteredCertificateChecks.from_i32 z) InvalidValue
  | None => ret EnteredCertificateChecks.Automatic
  end = (ret c : A EnteredCertificateChecks).
Proof. by destruct c. Qed.

Lemma flags_back (b : bool) :
  is_oauth2 (default 0%Z ((if b then Some (print_Z DC_LP_AUTH_OAUTH2) else None) ≫= parse_i32)) = b.
Proof. by destruct b. Qed.

(** Step over the settings that are only read. *)
Ltac read_settings :=
  repeat match goal with
  | |- ∀ b, _ → _ → (bind (get_text _) _ b).1 = _ =>
      apply (reads_step _ _ _ _ (λ r, r = _) (get_text_reads _))
  | |- ∀ b, _ → _ → (bind (get_port _) _ b).1 = _ =>
      apply (reads_step _ _ _ _ (λ r, r = _) (get_port_reads _))
  | |- ∀ b, _ → _ → (bind (get_socket _) _ b).1 = _ =>
      apply (reads_step _ _ _ _ (λ r, r = _) (get_socket_reads _))
  | |- ∀ b, _ → _ → (bind (get_config_parsed _ _) _ b).1 = _ =>
      apply (reads_step _ _ _ _ (λ r, r = _) (get_parsed_reads _ _))
  end.

(** The entered parameters without the folder, which has no setting of its own. *)
Definition without_folder (p : EnteredLoginParam) : EnteredLoginParam :=
  {| e_addr := e_addr p;
     e_imap := {| imap_server := imap_server (e_imap p); imap_port := imap_port (e_imap p);
                  imap_folder := []; imap_security := imap_security (e_imap p);
                  imap_user := imap_user (e_imap p); imap_password := imap_password (e_imap p) |};
     e_smtp := e_smtp p; e_certificate_checks := e_certificate_checks p; e_oauth2 := e_oauth2 p |}.

(** The parameters a user entered, saved as single settings, are loaded back unchanged but
    for the folder, and saving cannot fail. *)
Theorem entered_param_round_trip now p a :
  coherent a → no_override →
  trim (str_to_lowercase (e_addr p)) = e_addr p →
  (0 <= imap_port (e_imap p) <= u16_max)%Z → (0 <= smtp_port (e_smtp p) <= u16_max)%Z →
  ∃ a', save_legacy pre post now p a = (Ok tt, a')
    ∧ (load_legacy a').1 = Ok (without_folder p).
Proof.
  intros Ha Henv Haddr Hip Hsp.
  destruct (save_settings now p (legacy_settings p) a) as (a' & E & Hc & Hin & _);
    [done|apply (bool_decide_unpack _); by vm_compute|done|].
  exists a'. split; [exact E|].
  assert (Hset : Forall (λ kv, kv.1 ≠ Config.Addr → setting kv.1 (config a') = kv.2) (legacy_settings p)).
  { apply list.Forall_forall. intros [key v] Hk Hne. specialize (Hin _ _ Hk). simpl in *.
    unfold setting, shown_value. rewrite Henv, Hin. unfold legacy_settings in Hk.
    repeat (apply elem_of_cons in Hk as [[= -> ->]|Hk];
            [by match goal with |- context [stored_value _ ?v] => destruct v end|]).
    by apply not_elem_of_nil in Hk. }
  assert (Hadr : setting Config.Addr (config a') = Some (str_to_lowercase (e_addr p))).
  { unfold setting, shown_value. by rewrite Henv, (Hin Config.Addr (Some (e_addr p))) by (by left). }
  unfold legacy_settings in Hset. apply list.Forall_cons in Hset as [_ Hset].
  enough (H : ∀ b, coherent b → config b = config a' → (load_legacy b).1 = Ok (without_folder p))
    by (by apply H).
  repeat (let Hk := fresh "Hk" in apply list.Forall_cons in Hset as [Hk Hset]; simpl in Hk;
          specialize (Hk ltac:(discriminate))).
  unfold load_legacy. read_settings. cbn beta. rewrite Hk9, checks_back.
  match goal with |- ∀ b, _ → _ → (bind (ret ?x) ?k b).1 = ?r =>
    change (∀ b, coherent b → config b = config a' → (k x b).1 = r) end.
  cbn beta. read_settings. intros b _ _. cbn [fst ret]. unfold without_folder. simpl fst.
  rewrite Hadr, ?Hk, ?Hk0, ?Hk1, ?Hk2, ?Hk3, ?Hk4, ?Hk5, ?Hk6, ?Hk7, ?Hk8, ?Hk10.
  cbn [default from_option id].
  rewrite !text_back, !port_back, !socket_back, flags_back, Haddr by done. by destruct p as [? ? []].
Qed.
End LegacyRoundTrip.

(** ** Trying the server that worked last first *)

Section PrioritizeSpec.
Context {X : Type} (timestamp : X -> option Z).
Implicit Types l : list X.

Lemma insert_desc_perm x l : insert_desc timestamp x l ≡ₚ x :: l.
Proof.
  induction l as [|y l IH]; simpl; [done|]. destruct (ts_le _ _); [done|].
  by rewrite IH, Permutation_swap.
Qed.

Lemma sort_by_reverse_key_perm l : sort_by_reverse_key timestamp l ≡ₚ l.
Proof. induction l as [|x l IH]; simpl; [done|]. by rewrite insert_desc_perm, IH. Qed.

Definition tried_before (x y : X) : Prop := ts_le (timestamp y) (timestamp x) = true.

Lemma ts_le_total a b : ts_le a b = false → ts_le b a = true.
Proof. destruct a, b; simpl; try done. intros H. bool_tests. by apply Z.leb_le; lia. Qed.

Lemma ts_le_trans a b c : ts_le a b = true → ts_le b c = true → ts_le a c = true.
Proof. destruct a, b, c; simpl; try done. intros. bool_tests. apply Z.leb_le. lia. Qed.

Lemma insert_desc_sorted x l :
  StronglySorted tried_before l → StronglySorted tried_before (insert_desc timestamp x l).
Proof.
  induction 1 as [|y l Hs IH Hy]; simpl; [by repeat constructor|].
  destruct (ts_le (timestamp y) (timestamp x)) eqn:E.
  - constructor; [by constructor|]. constructor; [done|].
    eapply Forall_impl; [exact Hy|]. intros z Hz. by eapply ts_le_trans.
  - constructor; [done|]. rewrite insert_desc_perm. constructor; [|done]. by apply ts_le_total.
Qed.

Lemma sort_by_reverse_key_sorted l : StronglySorted tried_before (sort_by_reverse_key timestamp l).
Proof. induction l as [|x l IH]; simpl; [constructor|]. by apply insert_desc_sorted. Qed.

Lemma insert_desc_stable x l t :
  base.filter (λ y, timestamp y = t) (insert_desc timestamp x l)
  = base.filter (λ y, timestamp y = t) (x :: l).
Proof.
  induction l as [|y l IH]; simpl; [done|]. destruct (ts_le _ _) eqn:E; [done|].
  rewrite filter_cons, IH. rewrite !filter_cons.
  destruct (decide (timestamp y = t)) as [Hy|], (decide (timestamp x = t)) as [Hx|]; try done.
  rewrite Hx, Hy in E. destruct t; simpl in E; [|done]. by rewrite Z.leb_refl in E.
Qed.

Lemma sort_by_reverse_key_stable l t :
  base.filter (λ y, timestamp y = t) (sort_by_reverse_key timestamp l)
  = base.filter (λ y, timestamp y = t) l.
Proof.
  induction l as [|x l IH]; simpl; [done|]. rewrite insert_desc_stable, !filter_cons, IH. done.
Qed.

(** Sorting pairs by their first component is sorting by what it was computed from. *)
Lemma sort_decorated l :
  sort_by_reverse_key fst ((λ x, (timestamp x, x)) <$> l)
  = (λ x, (timestamp x, x)) <$> sort_by_reverse_key timestamp l.
Proof.
  induction l as [|x l IH]; [done|].
  change (insert_desc fst (timestamp x, x) (sort_by_reverse_key fst ((λ x, (timestamp x, x)) <$> l))
    = (λ x, (timestamp x, x)) <$> insert_desc timestamp x (sort_by_reverse_key timestamp l)).
  rewrite IH. generalize (sort_by_reverse_key timestamp l). intros k.
  induction k as [|y k IHk]; [done|]. simpl. destruct (ts_le _ _); [done|]. exact (f_equal (cons _) IHk).
Qed.
End PrioritizeSpec.

(** ** The relays of an account stay consistent *)

Definition addrs (a : Account) : list str := t_addr <$> transports a.

Definition primary (a : Account) : option str := config a !! key_name Config.ConfiguredAddr.

(** Addresses are unique, the primary address is one of them, and there is one if there is any. *)
Definition relays_ok (a : Account) : Prop :=
  NoDup (addrs a) ∧ (∀ ad, primary a = Some ad → ad ∈ addrs a)
  ∧ (addrs a ≠ [] → is_Some (primary a)).

Lemma same_relays a a' :
  addrs a' = addrs a → primary a' = primary a → relays_ok a → relays_ok a'.
Proof. unfold relays_ok. by intros -> ->. Qed.

Lemma find_transport_spec ad l :
  match find_transport ad l with
  | Some r => r ∈ l ∧ t_addr r = ad
  | None => ad ∉ t_addr <$> l
  end.
Proof.
  unfold find_transport. destruct (base.filter _ l) as [|r l'] eqn:E; simpl.
  - intros (r & -> & Hr)%list_elem_of_fmap.
    assert (r ∈ base.filter (λ r0, t_addr r0 = t_addr r) l) as H by (by apply list_elem_of_filter).
    rewrite E in H. by apply not_elem_of_nil in H.
  - assert (r ∈ base.filter (λ r0, t_addr r0 = ad) l) as H by (rewrite E; by left).
    by apply list_elem_of_filter in H as [? ?].
Qed.

Lemma update_addrs ad f (l : list transport_row) :
  (∀ r, t_addr (f r) = t_addr r) →
  t_addr <$> ((λ r, if bool_decide (t_addr r = ad) then f r else r) <$> l) = t_addr <$> l.
Proof.
  intros Hf. rewrite <- list_fmap_compose. apply list_fmap_ext. intros i r _. simpl.
  case_bool_decide; [apply Hf|done].
Qed.

Section RelayInvariant.
Context `{PF : !Platform, JS : !Json SyncItem, JE : !Json EnteredLoginParam,
          JC : !Json ConfiguredLoginParamJson}.

(** The environment does not set this setting. *)
Definition not_overridden (key : Config) : Prop :=
  env_var (lit "DELTACHAT_" ++ str_to_uppercase (key_name key)) = None.

Lemma upsert_spec ad e c t pub a :
  ∃ b a', upsert_transport ad e c t pub a = (Ok b, a')
    ∧ config a' = config a ∧ config_cache a' = config_cache a
    ∧ addrs a' = if bool_decide (ad ∈ addrs a) then addrs a else addrs a ++ [ad].
Proof.
  unfold upsert_transport, bind, gets. pose proof (find_transport_spec ad (transports a)) as H.
  destruct (find_transport ad (transports a)) as [r|].
  - destruct H as [Hr Hra]. rewrite bool_decide_eq_true_2 by (apply list_elem_of_fmap; by exists r).
    destruct (row_outdated _ _ _ _ _); [|by exists false, a].
    eexists true, _. split; [reflexivity|]. split_and!; try done. by apply update_addrs.
  - rewrite bool_decide_eq_false_2 by done. unfold insert_transport.
    rewrite bool_decide_eq_false_2 by done. eexists true, _. split; [reflexivity|].
    split_and!; try done. unfold addrs. simpl. by rewrite fmap_app.
Qed.

Context (no_override_addr : not_overridden Config.ConfiguredAddr).

Definition account_ok (a : Account) : Prop := coherent a ∧ relays_ok a.

Lemma get_primary a :
  coherent a →
  ∃ a', get_config Config.ConfiguredAddr a = (Ok (primary a), a')
    ∧ coherent a' ∧ config a' = config a ∧ transports a' = transports a.
Proof.
  intros Ha. destruct (get_config_reads Config.ConfiguredAddr a Ha) as (E & Hc & H1 & H2 & _).
  destruct (get_config _ a) as [r a']. cbn [fst snd] in *. subst r. exists a'. split_and!; try done.
  f_equal. f_equal. unfold setting, shown_value, primary. unfold not_overridden in no_override_addr.
  rewrite no_override_addr. by destruct (config a !! key_name Config.ConfiguredAddr).
Qed.

Lemma save_transport_ok e c t pub : preserves account_ok (save_transport e c t pub).
Proof.
  intros a [Ha Hr]. unfold save_transport, bind. destruct (folder_ok c); [|done]. simpl.
  destruct (get_primary a Ha) as (a1 & -> & Hc1 & E1 & T1).
  set (ad := addr_normalize str_to_lowercase (addr c)).
  destruct (upsert_spec ad (to_json e) (to_json c) t pub a1) as (b & a2 & -> & C2 & CC2 & A2).
  assert (Ha1 : addrs a1 = addrs a) by (unfold addrs; by rewrite T1).
  assert (Hc2 : coherent a2) by (intros k v; rewrite C2, CC2; apply Hc1).
  assert (Hp2 : primary a2 = primary a) by (unfold primary; by rewrite C2, E1).
  rewrite Ha1 in A2. destruct Hr as (Hd & Hin & Hsome).
  assert (Hd2 : NoDup (addrs a2)).
  { rewrite A2. case_bool_decide; [done|]. apply NoDup_app. split_and!; [done| |apply NoDup_singleton].
    intros x Hx ->%list_elem_of_singleton. done. }
  assert (Hsub : ∀ x, x ∈ addrs a → x ∈ addrs a2).
  { intros x Hx. rewrite A2. case_bool_decide; [done|]. apply elem_of_app. by left. }
  destruct (primary a) as [p|] eqn:Ep; simpl.
  - split; [done|]. rewrite <- Hp2 in Hin. split_and!; [done| |by rewrite Hp2; eauto].
    intros x Hx. by apply Hsub, Hin.
  - split; [by apply set_raw_config_coherent|]. unfold relays_ok, primary. simpl.
    rewrite lookup_partial_alter_eq. split_and!; [done| |by eauto].
    intros x [= <-]. change (ad ∈ addrs a2). rewrite A2. case_bool_decide; [done|].
    apply elem_of_app. right. by left.
Qed.

Lemma send_sync_transports_ok now : preserves account_ok (send_sync_transports now).
Proof.
  intros a [Ha Hr]. split; [by apply send_sync_transports_coherent|].
  by apply (send_sync_transports_frame relays_ok).
Qed.

Lemma in_transaction_ok {X} (x : A X) : preserves account_ok x → preserves account_ok (in_transaction x).
Proof. intros Hx a Ha. unfold in_transaction. specialize (Hx a Ha). by destruct (x a) as [[]]. Qed.

(** Dropping rows other than those of the primary address. *)
Lemma drop_rows_ok (keep : transport_row -> Prop) `{∀ r, Decision (keep r)} f a cfg :
  account_ok a → primary a = Some cfg → (∀ r, t_addr r = cfg → keep r) →
  account_ok (upd_removed_transports f (upd_transports (base.filter keep) a)).
Proof.
  intros [Ha (Hd & Hin & Hsome)] Hp Hkeep. split; [exact Ha|].
  unfold relays_ok, addrs. change (primary (upd_removed_transports _ _)) with (primary a). simpl.
  split_and!.
  - by apply NoDup_fmap_filter.
  - intros ad Had. assert (ad = cfg) as -> by congruence.
    apply Hin in Hp. apply list_elem_of_fmap in Hp as (r & -> & Hr).
    apply list_elem_of_fmap. exists r. split; [done|]. apply list_elem_of_filter.
    split; [by apply Hkeep|done].
  - intros _. by rewrite Hp.
Qed.

Definition ok_with (cfg : str) (a : Account) : Prop := account_ok a ∧ primary a = Some cfg.

Lemma remove_one_ok cfg r : preserves (ok_with cfg) (remove_one cfg r).
Proof.
  unfold remove_one. case_bool_decide as Hc; [apply preserves_ret|].
  intros a [Ha Hp]. split; [|exact Hp]. simpl. apply (drop_rows_ok _ _ a cfg); [done|done|].
  intros x Hx. unfold is_removed. rewrite bool_decide_eq_false_2; [done|]. congruence.
Qed.

Lemma remove_all_ok cfg l : preserves (ok_with cfg) (remove_all cfg l).
Proof.
  induction l as [|r l IH]; simpl; [apply preserves_ret|].
  apply preserves_bind; [apply remove_one_ok|]. intros m. apply preserves_bind; [done|].
  intros m'. apply preserves_ret.
Qed.

Lemma save_transports_ok ts : preserves account_ok (save_transports ts).
Proof.
  induction ts as [|t ts IH]; simpl; [apply preserves_ret|].
  apply preserves_bind; [apply save_transport_ok|]. intros m. apply preserves_bind; [done|].
  intros m'. apply preserves_ret.
Qed.

Lemma sync_transports_ok ts removed : preserves account_ok (sync_transports ts removed).
Proof.
  unfold sync_transports. apply preserves_bind; [apply save_transports_ok|]. intros m.
  apply preserves_bind.
  - apply in_transaction_ok. intros a Ha. unfold primary_addr, bind.
    destruct (config a !! key_name Config.ConfiguredAddr) as [cfg|] eqn:E; [|done].
    by apply (remove_all_ok cfg removed a).
  - intros m'. apply preserves_when, preserves_modify. by intros a.
Qed.

Lemma delete_transport_ok now ad : preserves account_ok (delete_transport now ad).
Proof.
  unfold delete_transport. apply preserves_bind; [|intros _; apply send_sync_transports_ok].
  apply in_transaction_ok. intros a Ha. unfold primary_addr, bind.
  destruct (config a !! key_name Config.ConfiguredAddr) as [cfg|] eqn:E; [|done].
  case_bool_decide as Hc; [done|]. unfold gets.
  destruct (find_transport ad (transports a)) as [r|]; [|done]. simpl.
  apply (drop_rows_ok _ _ a cfg); [done|done|]. intros x Hx. congruence.
Qed.

Lemma update_transport_ok ad f :
  (∀ r, t_addr (f r) = t_addr r) → preserves account_ok (update_transport ad f).
Proof.
  intros Hf a [Ha Hr]. split; [exact Ha|]. apply (same_relays a); [|done|done]. by apply update_addrs.
Qed.

Lemma set_transport_unpublished_ok now ad u : preserves account_ok (set_transport_unpublished now ad u).
Proof.
  unfold set_transport_unpublished. apply preserves_bind; [|intros _; apply send_sync_transports_ok].
  apply in_transaction_ok. apply preserves_bind.
  - intros a Ha. unfold primary_addr. by destruct (config a !! _).
  - intros p. destruct (_ && u); [apply preserves_fail|]. apply update_transport_ok.
    intros r. by destruct (Bool.eqb _ _).
Qed.

Lemma change_primary_relays now ad a r a' :
  account_ok a → change_primary now ad a = (r, a') → relays_ok a'.
Proof.
  intros [Ha Hr]. unfold change_primary, bind at 1.
  destruct (in_transaction _ a) as [s a1] eqn:E.
  assert (H1 : relays_ok a1).
  { revert E. unfold in_transaction, update_transport. run_se.
    destruct (bool_decide_reflect (ad ∈ t_addr <$> transports a)) as [Hin|]; simpl; intros [= <- <-]; [|done].
    destruct Hr as (Hd & Hi & Hs). set (b := upd_imap_send _ _).
    assert (Hb : addrs b = addrs a) by (by apply update_addrs).
    unfold relays_ok. rewrite Hb. split_and!; [done| |].
    - intros x. unfold primary, b. simpl.
      case_bool_decide; [rewrite lookup_insert_eq; by intros [= <-]|apply Hi].
    - intros Hne. unfold primary, b. simpl. specialize (Hs Hne). unfold primary in Hs.
      rewrite bool_decide_eq_true_2 by done. rewrite lookup_insert_eq. eauto. }
  destruct s as [[]|]; [|intros [= _ <-]; done]. unfold bind.
  pose proof (send_sync_transports_frame relays_ok now a1 H1) as H2.
  destruct (send_sync_transports now a1) as [[[]|] a2]; intros [= _ <-]; [|done].
  by apply (same_relays a2).
Qed.

Lemma set_primary_relays now sync v a :
  account_ok a → relays_ok (set_config_ex now sync Config.ConfiguredAddr v a).2.
Proof.
  intros Ha. unfold set_config_ex. simpl is_synced. rewrite andb_false_r.
  change (bool_decide (Config.ConfiguredAddr ∈ [Config.Displayname; Config.Selfavatar; Config.PrivateTag]))
    with false. unfold check_config, and_then, write_config. destruct v as [ad|]; [|by destruct Ha].
  run_se. unfold is_configured, gets. cbn iota.
  destruct (bool_decide_reflect (transports a ≠ [])) as [Ht|Ht]; cbn [negb].
  - destruct (change_primary now ad a) as [[u|] a1] eqn:E; by apply change_primary_relays in E.
  - unfold add_pseudo_transport, insert_transport. case_bool_decide as Hin; [by destruct Ha|].
    destruct (transports a) as [|r l] eqn:El; [|by contradict Ht].
    unfold relays_ok, addrs, primary. simpl. rewrite El, lookup_partial_alter_eq. simpl.
    split_and!; [apply NoDup_singleton| |by eauto]. intros x [= <-]. by left.
Qed.
End RelayInvariant.

(** ** Which relays survive a message from another device *)

(** A row survives if it is the primary one, or was added after every removal of its address. *)
Definition survives (cfg : str) (removed : list RemovedTransportData) (r : transport_row) : Prop :=
  t_addr r = cfg
  ∨ Forall (λ rt, rt_addr rt = t_addr r → (rt_timestamp rt < t_add_timestamp r)%Z) removed.

Lemma is_removed_false ad t r :
  is_removed ad t r = false ↔ (ad = t_addr r → (t < t_add_timestamp r)%Z).
Proof.
  unfold is_removed. destruct (bool_decide_reflect (t_addr r = ad)) as [<-|Hne]; simpl.
  - rewrite Z.leb_gt. split; [done|]. intros H. by apply H.
  - split; [congruence|done].
Qed.

Lemma survives_cons cfg rt l x :
  survives cfg (rt :: l) x
  ↔ (rt_addr rt = cfg ∨ is_removed (rt_addr rt) (rt_timestamp rt) x = false) ∧ survives cfg l x.
Proof.
  unfold survives. rewrite list.Forall_cons, is_removed_false.
  destruct (decide (t_addr x = cfg)) as [<-|Hne].
  - split; [intros _|by left]. split; [|by left].
    destruct (decide (rt_addr rt = t_addr x)); [by left|by right].
  - split.
    + intros [?|[H1 H2]]; [done|]. split; [by right|by right].
    + intros [[H1|H1] [?|H2]]; try done; right; (split; [|done]); [congruence|done].
Qed.

Section Survivors.
Context `{PF : !Platform, JS : !Json SyncItem, JE : !Json EnteredLoginParam,
          JC : !Json ConfiguredLoginParamJson}.

Lemma remove_all_spec cfg l a :
  ∃ m a', remove_all cfg l a = (Ok m, a') ∧ config a' = config a
    ∧ ∀ x, x ∈ transports a' ↔ x ∈ transports a ∧ survives cfg l x.
Proof.
  revert a. induction l as [|rt l IH]; intros a; simpl.
  { exists false, a. split_and!; [done|done|]. intros x. unfold survives.
    split; [|by intros []]. intros H. split; [done|by right]. }
  unfold bind, remove_one. case_bool_decide as Hc; simpl.
  - destruct (IH a) as (m & a' & -> & E & Hx). eexists _, a'. split_and!; [done|done|].
    intros x. rewrite Hx, survives_cons. tauto.
  - unfold gets, modify, ret. set (a1 := upd_removed_transports _ _).
    destruct (IH a1) as (m & a' & -> & E & Hx). eexists _, a'. split_and!; [done|exact E|].
    intros x. rewrite Hx, survives_cons. unfold a1. simpl. rewrite list_elem_of_filter. tauto.
Qed.

(** What [sync_transports] does after it has saved the transports of the message. *)
Lemma sync_transports_spec ts removed a a' :
  sync_transports ts removed a = (Ok tt, a') →
  ∃ m a1 cfg, save_transports ts a = (Ok m, a1) ∧ primary a1 = Some cfg ∧ primary a' = Some cfg
    ∧ ∀ x, x ∈ transports a' ↔ x ∈ transports a1 ∧ survives cfg removed x.
Proof.
  unfold sync_transports, bind. destruct (save_transports ts a) as [[m|] a1]; [|done].
  unfold in_transaction, primary_addr.
  destruct (config a1 !! key_name Config.ConfiguredAddr) as [cfg|] eqn:Ec; [|done].
  destruct (remove_all_spec cfg removed a1) as (m' & a2 & -> & E & Hx).
  intros H. exists m, a1, cfg.
  assert (config a' = config a2 ∧ transports a' = transports a2) as [E1 E2].
  { revert H. unfold when. destruct (m || m'); simpl; by intros [= <-]. }
  split_and!; [done|done|unfold primary; congruence|]. by rewrite E2.
Qed.

Lemma upsert_removed_in t ad l : (ad, t) ∈ upsert_removed (λ _ _, true) ad t l.
Proof.
  induction l as [|[ad' t'] l IH]; simpl; [by left|]. case_bool_decide as H; subst; [by left|by right].
Qed.

(** A message about relays from another device: afterwards no relay is left whose address the
    message removes at or after the time the relay was added, except the primary one, which is
    never removed; and every relay that is not removed that way and not mentioned stays. *)
Theorem removed_relays_are_gone ts removed a a' :
  sync_transports ts removed a = (Ok tt, a') →
  (∀ x rt, x ∈ transports a' → rt ∈ removed → rt_addr rt = t_addr x →
     primary a' = Some (t_addr x) ∨ (rt_timestamp rt < t_add_timestamp x)%Z)
  ∧ (∀ m a1 x, save_transports ts a = (Ok m, a1) → x ∈ transports a1 →
       (∀ rt, rt ∈ removed → rt_addr rt = t_addr x → (rt_timestamp rt < t_add_timestamp x)%Z) →
       x ∈ transports a')
  ∧ ∀ m a1 x, save_transports ts a = (Ok m, a1) → x ∈ transports a1 →
       primary a' = Some (t_addr x) → x ∈ transports a'.
Proof.
  intros H. apply sync_transports_spec in H as (m & a1 & cfg & E & Hp1 & Hp & Hx).
  rewrite Hp. split_and!.
  - intros x rt [_ Hs]%Hx Hrt Ha. destruct Hs as [->|Hs]; [by left|right].
    rewrite list.Forall_forall in Hs. by apply Hs.
  - intros m' a1' x E' Hin Hall. rewrite E in E'. injection E' as <- <-. apply Hx. split; [done|].
    right. apply list.Forall_forall. intros rt Hrt. by apply Hall.
  - intros m' a1' x E' Hin Hpx. rewrite E in E'. injection E' as <- <-. apply Hx. split; [done|].
    left. congruence.
Qed.

Lemma delete_queues now ad a a' :
  coherent a → sends_sync_msgs (config a) = true → delete_transport now ad a = (Ok tt, a') →
  ∃ row id ts removed, find_transport ad (transports a) = Some row
    ∧ multi_device_sync a' = multi_device_sync a
        ++ [(id, to_json {| si_timestamp := now; si_data := Known (Transports ts removed) |})]
    ∧ {| rt_addr := ad; rt_timestamp := Z.max now (t_add_timestamp row) |} ∈ removed.
Proof.
  intros Ha Hs. unfold delete_transport, bind at 1.
  destruct (in_transaction _ a) as [[[]|] a1] eqn:E; [|done].
  revert E. unfold in_transaction, bind, primary_addr.
  destruct (config a !! key_name Config.ConfiguredAddr) as [cfg|]; [|done].
  case_bool_decide; [done|]. unfold gets.
  destruct (find_transport ad (transports a)) as [row|]; [|done]. simpl. intros [= <-].
  unfold send_sync_transports, bind. destruct (mapM _ _) as [ts|]; [|done]. unfold gets.
  set (a1 := upd_removed_transports _ _).
  set (removed := _ <$> removed_transports a1).
  destruct (add_sync_item_spec now (Transports ts removed) a1) as (id & a2 & -> & _ & _ & _ & Hq);
    [exact Ha|exact Hs|].
  intros [= <-]. exists row, id, ts, removed. split; [done|]. split; [exact Hq|].
  apply list_elem_of_fmap. exists (ad, Z.max now (t_add_timestamp row)). split; [done|].
  apply upsert_removed_in.
Qed.

(** Deleting a relay on one device deletes it on the others: the device queues an item with
    the removal, and a device that executes it keeps a relay of that address only as its primary
    one, or if it was added again after both the deletion and the addition that was deleted. *)
Theorem deleted_relay_is_deleted_everywhere now ad a a' :
  coherent a → sends_sync_msgs (config a) = true → delete_transport now ad a = (Ok tt, a') →
  ∃ row id ts removed, find_transport ad (transports a) = Some row
    ∧ multi_device_sync a' = multi_device_sync a
        ++ [(id, to_json {| si_timestamp := now; si_data := Known (Transports ts removed) |})]
    ∧ ∀ b b' x, sync_transports ts removed b = (Ok tt, b') → x ∈ transports b' → t_addr x = ad →
        primary b' = Some ad
        ∨ (now < t_add_timestamp x ∧ t_add_timestamp row < t_add_timestamp x)%Z.
Proof.
  intros Ha Hs H. destruct (delete_queues now ad a a' Ha Hs H) as (row & id & ts & removed & Hf & Hq & Hin).
  exists row, id, ts, removed. split_and!; [done|done|]. intros b b' x Hb Hx Had.
  apply sync_transports_spec in Hb as (m & b1 & cfg & _ & _ & Hp & Hsv).
  apply Hsv in Hx as [_ [Hcfg|Hall]]; [left; congruence|right].
  rewrite list.Forall_forall in Hall. specialize (Hall _ Hin). simpl in Hall.
  specialize (Hall (eq_sym Had)). lia.
Qed.
End Survivors.

(** ** Theorems *)

Section Theorems.
Context `{PF : !Platform, JS : !Json SyncItem, JE : !Json EnteredLoginParam,
          JC : !Json ConfiguredLoginParamJson}.

(** C29. Saving, deleting, publishing and synchronising relays keep the account consistent even
    when they fail: addresses are unique, the primary address is one of the relays, and there is
    a primary one as long as there is any relay; so does a change of the primary address. *)
Theorem relays_stay_consistent now :
  not_overridden Config.ConfiguredAddr →
  (∀ e c t pub, preserves account_ok (save_transport e c t pub))
  ∧ (∀ ts removed, preserves account_ok (sync_transports ts removed))
  ∧ (∀ ad, preserves account_ok (delete_transport now ad))
  ∧ (∀ ad u, preserves account_ok (set_transport_unpublished now ad u))
  ∧ (∀ sync v a, account_ok a → relays_ok (set_config_ex now sync Config.ConfiguredAddr v a).2).
Proof.
  intros Henv. split_and!.
  - intros. by apply save_transport_ok.
  - intros. by apply sync_transports_ok.
  - intros. by apply delete_transport_ok.
  - intros. by apply set_transport_unpublished_ok.
  - intros sync v a Ha. apply set_primary_relays; done.
Qed.

(** The servers of a relay are tried in the order of their last successful connection, those
    that never worked last; the order of the configuration decides between equals, and none is
    lost or tried twice. *)
Theorem servers_by_last_success (last : str -> Z -> option Z) l :
  let ts p := last (cc_host (connection p)) (cc_port (connection p)) in
  let l' := prioritize_server_login_params last l in
  l' ≡ₚ l ∧ StronglySorted (λ p q, ts_le (ts q) (ts p) = true) l'
  ∧ ∀ t, base.filter (λ p, ts p = t) l' = base.filter (λ p, ts p = t) l.
Proof.
  intros ts l'.
  assert (l' = sort_by_reverse_key ts l) as ->.
  { change l' with (snd <$> sort_by_reverse_key fst ((λ p, (ts p, p)) <$> l)).
    rewrite (sort_decorated ts l), <- list_fmap_compose. apply list_fmap_id. }
  split_and!.
  - apply sort_by_reverse_key_perm.
  - apply sort_by_reverse_key_sorted.
  - intros t. apply sort_by_reverse_key_stable.
Qed.
End Theorems.

(** ** Samples *)

Definition one_value_json {T} (t : T) : Json T := {| to_json := λ _, []; of_json := λ _, Some t |}.

Definition sample_configured (ad : str) : ConfiguredLoginParamJson :=
  {| addr := ad; LoginParam.imap := []; imap_watched_folder := None; configured_imap_user := [];
     configured_imap_password := []; smtp := []; configured_smtp_user := [];
     configured_smtp_password := []; provider := None;
     certificate_checks := ConfiguredCertificateChecks.Automatic; oauth2 := false |}.

Definition sample_data (ad : str) (t : Z) : TransportData :=
  {| td_configured := sample_configured ad; td_entered := default_entered_param ad;
     td_timestamp := t; td_is_published := true |}.

Lemma two_relays_ok : account_ok two_relays.
Proof.
  split; [apply two_relays_coherent|]. unfold relays_ok. split_and!.
  - apply (bool_decide_unpack _). vm_compute. exact I.
  - intros ad H. assert (ad = lit "a@x.org") as -> by (vm_compute in H; vm_compute; congruence).
    apply (bool_decide_unpack _). vm_compute. exact I.
  - intros _. vm_compute. eauto.
Qed.

Section Witnesses.
#[local] Instance PF : Platform := sample_platform.
#[local] Instance JS : Json SyncItem := opaque_json _.
#[local] Instance JE : Json EnteredLoginParam := one_value_json (default_entered_param []).
#[local] Instance JC : Json ConfiguredLoginParamJson := one_value_json (sample_configured []).

Lemma relays_stay_consistent_witness :
  account_ok (delete_transport 7 (lit "b@x.org") two_relays).2.
Proof.
  apply (proj1 (proj2 (proj2 (relays_stay_consistent (PF := PF) 7 (eq_refl None))))). apply two_relays_ok.
Defined.

Lemma entered_param_round_trip_witness :
  ∃ a', save_legacy (λ _ _, ret tt) (ret tt) 7 (default_entered_param (lit "a@x.org")) two_relays
        = (Ok tt, a')
    ∧ (load_legacy a').1 = Ok (without_folder (default_entered_param (lit "a@x.org"))).
Proof.
  apply (entered_param_round_trip (PF := PF) (λ _ _, ret tt) (ret tt) 7 (default_entered_param (lit "a@x.org"))
           two_relays two_relays_coherent (λ _, eq_refl None)).
  - vm_compute. reflexivity.
  - vm_compute. split; discriminate.
  - vm_compute. split; discriminate.
Defined.

Definition relays_message : A unit :=
  sync_transports [sample_data (lit "c@x.org") 9]
    [{| rt_addr := lit "b@x.org"; rt_timestamp := 6 |};
     {| rt_addr := lit "a@x.org"; rt_timestamp := 8 |}].

Lemma removed_relays_are_gone_witness :
  let a' := (relays_message two_relays).2 in
  relays_message two_relays = (Ok tt, a')
  ∧ addrs a' = [lit "a@x.org"; lit "c@x.org"]
  ∧ (∀ x rt, x ∈ transports a' → rt ∈ [{| rt_addr := lit "b@x.org"; rt_timestamp := 6 |};
                                        {| rt_addr := lit "a@x.org"; rt_timestamp := 8 |}] →
       rt_addr rt = t_addr x →
       primary a' = Some (t_addr x) ∨ (rt_timestamp rt < t_add_timestamp x)%Z).
Proof.
  assert (E : relays_message two_relays = (Ok tt, (relays_message two_relays).2))
    by (vm_compute; reflexivity).
  split; [exact E|]. split; [vm_compute; reflexivity|].
  exact (proj1 (removed_relays_are_gone _ _ _ _ E)).
Defined.

Lemma deleted_relay_is_deleted_everywhere_witness :
  ∃ row id ts removed, find_transport (lit "b@x.org") (transports two_relays) = Some row
    ∧ multi_device_sync (delete_transport 7 (lit "b@x.org") two_relays).2
      = [(id, to_json {| si_timestamp := 7; si_data := Known (Transports ts removed) |})]
    ∧ ∀ b b' x, sync_transports ts removed b = (Ok tt, b') → x ∈ transports b' →
        t_addr x = lit "b@x.org" →
        primary b' = Some (lit "b@x.org")
        ∨ (7 < t_add_timestamp x ∧ t_add_timestamp row < t_add_timestamp x)%Z.
Proof.
  apply (deleted_relay_is_deleted_everywhere 7 (lit "b@x.org") two_relays _ two_relays_coherent).
  - vm_compute. reflexivity.
  - vm_compute. reflexivity.
Defined.

(** A message that lists a relay and is processed after the one that removes it brings the relay
    back, although the removal is not older than the addition: removals that were received are
    recorded but not consulted. *)
Theorem late_addition_undoes_removal :
  let a1 := (sync_transports [] [{| rt_addr := lit "b@x.org"; rt_timestamp := 6 |}] two_relays).2 in
  let a2 := (sync_transports [sample_data (lit "b@x.org") 6] [] a1).2 in
  addrs a1 = [lit "a@x.org"] ∧ removed_transports a1 = [(lit "b@x.org", 6%Z)]
  ∧ addrs a2 = [lit "a@x.org"; lit "b@x.org"].
Proof. vm_compute. done. Qed.
End Witnesses.
