(* ===== verification/Configure.v ===== *)
(** Configure: adding a relay (src/src/configure.rs): the parameters entered by the user are
    completed from the provider database or the provider's published settings
    (get_configured_param), the servers are tried, and the relay is saved. *)
From S2P Require Import Prelude Monad ContactTools LoginParam Autoconfig Config Transport.

Definition MAX_TRANSPORT_RELAYS : nat := 5.

(** ** Completing the parameters (get_configured_param) *)

(** Nothing but the address and the password was entered. *)
Definition no_advanced_parameters (param : EnteredLoginParam) : bool :=
  let i := e_imap param in
  let s := e_smtp param in
  bool_decide (imap_server i = []) && (imap_port i =? 0)%Z
  && bool_decide (imap_security i = Socket.Automatic) && bool_decide (imap_user i = [])
  && bool_decide (smtp_server s = []) && (smtp_port s =? 0)%Z
  && bool_decide (smtp_security s = Socket.Automatic) && bool_decide (smtp_user s = []).

(** The servers of the provider database. *)
Definition provider_servers (ad : str) (p : Provider) : list ServerParams :=
  (λ s, {| protocol := srv_protocol s; socket := srv_socket s; hostname := srv_hostname s;
           port := srv_port s;
           username := match srv_username_pattern s with
                       | UsernamePattern.Email => ad
                       | UsernamePattern.Emaillocalpart =>
                           match split_once 64 ad with Some (l, _) => l | None => ad end
                       end |}) <$> p_server p.

Definition entered_imap (param : EnteredLoginParam) : ServerParams :=
  {| protocol := Protocol.Imap; hostname := imap_server (e_imap param);
     port := imap_port (e_imap param); socket := imap_security (e_imap param);
     username := imap_user (e_imap param) |}.

Definition entered_smtp (param : EnteredLoginParam) : ServerParams :=
  {| protocol := Protocol.Smtp; hostname := smtp_server (e_smtp param);
     port := smtp_port (e_smtp param); socket := smtp_security (e_smtp param);
     username := smtp_user (e_smtp param) |}.

Definition has_protocol (proto : Protocol) (l : list ServerParams) : bool :=
  existsb (λ s, bool_decide (protocol s = proto)) l.

(** The servers to expand: the automatic ones, and the entered ones of a protocol that has none. *)
Definition all_servers (param : EnteredLoginParam) (autoconfig : option (list ServerParams))
  : list ServerParams :=
  let servers := default [] autoconfig in
  let servers := if has_protocol Protocol.Imap servers then servers
                 else servers ++ [entered_imap param] in
  if has_protocol Protocol.Smtp servers then servers else servers ++ [entered_smtp param].

Definition configured_checks (c : EnteredCertificateChecks) : ConfiguredCertificateChecks :=
  match c with
  | EnteredCertificateChecks.Automatic => ConfiguredCertificateChecks.Automatic
  | EnteredCertificateChecks.Strict => ConfiguredCertificateChecks.Strict
  | EnteredCertificateChecks.AcceptInvalidCertificates
  | EnteredCertificateChecks.AcceptInvalidCertificates2 =>
      ConfiguredCertificateChecks.AcceptInvalidCertificates
  end.

(** The world outside: the provider database, the address of an OAuth2 login ([None] on failure,
    [Some None] if the provider does not tell it), what a web server answers, the XML reader and
    the percent encoding of the libraries, and a connection to the IMAP and SMTP servers
    ([None] if it fails, otherwise whether the IMAP server is a chatmail server). *)
Class World := {
  w_provider_data : list (str * Provider);
  w_oauth2_addr : str -> str -> option (option str);
  w_read_url : str -> bool -> option str;
  w_xml_events : str -> list (option Event);
  w_percent_encode : str -> str;
  w_connect : ConfiguredLoginParam -> option bool
}.

Section Configure.
Context `{!Platform, !World, !Json SyncItem, !Json EnteredLoginParam,
          !Json ConfiguredLoginParamJson}.

(** The provider and the automatic settings. *)
Definition lookup_servers (param : EnteredLoginParam) (param_domain : str)
  : option Provider * option (list ServerParams) :=
  if no_advanced_parameters param then
    match get_provider_info str_to_lowercase w_provider_data param_domain with
    | Some p =>
        (Some p, if bool_decide (p_server p = []) then None
                 else Some (provider_servers (e_addr param) p))
    | None => (None, get_autoconfig str_to_lowercase w_xml_events w_read_url w_percent_encode
                       param param_domain)
    end
  else (None, None).

(** The address to log in with: the one of the OAuth2 login may differ. *)
Definition login_addr (param : EnteredLoginParam) : A str :=
  if e_oauth2 param then
    match w_oauth2_addr (e_addr param) (imap_password (e_imap param)) with
    | None => fail InvalidValue
    | Some None => ret (e_addr param)
    | Some (Some oauth2_addr) =>
        set_raw_config (lit "addr") (Some (e_addr param)) ;;; ret oauth2_addr
    end
  else ret (e_addr param).

(** [get_configured_param]. *)
Definition get_configured_param (param : EnteredLoginParam) : A ConfiguredLoginParam :=
  if bool_decide (e_addr param = []) then fail InvalidValue
  else if bool_decide (imap_password (e_imap param) = []) then fail InvalidValue
  else
    ad <- login_addr param ;;
    match EmailAddress_new (e_addr param) with
    | Err _ => fail InvalidValue
    | Ok parsed =>
        let '(prov, autoconfig) := lookup_servers param (domain parsed) in
        let servers := expand_param_vector (all_servers param autoconfig) (e_addr param)
                         (domain parsed) in
        ret {| addr := ad;
               imap := candidates Protocol.Imap servers;
               configured_imap_user := imap_user (e_imap param);
               configured_imap_password := imap_password (e_imap param);
               imap_watched_folder := text_to_option (imap_folder (e_imap param));
               smtp := candidates Protocol.Smtp servers;
               configured_smtp_user := smtp_user (e_smtp param);
               configured_smtp_password :=
                 if bool_decide (smtp_password (e_smtp param) = [])
                 then imap_password (e_imap param) else smtp_password (e_smtp param);
               provider := prov;
               certificate_checks := configured_checks (e_certificate_checks param);
               oauth2 := e_oauth2 param |}
    end.

(** ** Trying and saving *)

(** [configure]; the device chats are not modelled. *)
Definition configure (now : Z) (param : EnteredLoginParam) : A (option Provider) :=
  configured_param <- get_configured_param param ;;
  is_chatmail <- ok_or (w_connect configured_param) InvalidValue ;;
  configured <- is_configured ;;
  fixed <- get_config_bool Config.FixIsChatmail ;;
  when (negb fixed)
    (if is_chatmail then set_raw_config (lit "is_chatmail") (Some (lit "1"))
     else when (negb configured) (set_raw_config (lit "is_chatmail") (Some (lit "0")))) ;;;
  save_to_transports_table configured_param param now ;;;
  send_sync_transports now ;;;
  set_config_internal now Config.ConfiguredTimestamp (Some (print_Z now)) ;;;
  set_raw_config_bool (lit "configured") true ;;;
  emit AccountsItemChanged ;;;
  ret (provider configured_param).

(** The settings a provider recommends ([config_defaults]). *)
Context (config_defaults : Provider -> list (Config * str)).

(** [on_configure_completed], without the hint in the device chat. *)
Definition on_configure_completed (now : Z) (prov : option Provider) : A unit :=
  match prov with
  | None => ret tt
  | Some p =>
      for_each (config_defaults p) (λ '(key, value),
        exists_ <- config_exists key ;;
        when (negb exists_) (set_config_ex now false key (Some value)))
  end.

(** When [configure] fails, the completed parameters are determined once more for the log. *)
Definition log_failed_configure {X} (param : EnteredLoginParam) (x : A X) : A X :=
  λ a, match x a with
       | (Ok v, a1) => (Ok v, a1)
       | (Err e, a1) => (Err e, (get_configured_param param a1).2)
       end.

(** [Context::inner_configure]. *)
Definition inner_configure (now : Z) (param : EnteredLoginParam) : A unit :=
  old_addr <- get_config Config.ConfiguredAddr ;;
  too_many <- gets (λ a,
    bool_decide (is_Some old_addr)
    && negb (bool_decide (e_addr param ∈ t_addr <$> transports a))
    && bool_decide (MAX_TRANSPORT_RELAYS ≤ length (transports a))) ;;
  if too_many then fail InvalidValue
  else
    prov <- log_failed_configure param (configure now param) ;;
    set_config_internal now Config.NotifyAboutWrongPw (Some (lit "1")) ;;;
    on_configure_completed now prov.

Context (pre_sending_config_change : bool -> bool -> A unit) (maybe_send_stats : A unit).

(** [Context::add_transport_inner]: the scheduler is stopped and the database open. *)
Definition add_transport_inner (now : Z) (param : EnteredLoginParam) : A unit :=
  let param := {| e_addr := addr_normalize str_to_lowercase (e_addr param);
                  e_imap := e_imap param; e_smtp := e_smtp param;
                  e_certificate_checks := e_certificate_checks param;
                  e_oauth2 := e_oauth2 param |} in
  inner_configure now param ;;;
  save_legacy pre_sending_config_change maybe_send_stats now param.
End Configure.

(** ** Every candidate is complete *)

Section Candidates.

Lemma elem_of_candidates proto servers c :
  c ∈ candidates proto servers ↔
  ∃ p security, p ∈ servers ∧ protocol p = proto
    ∧ ConnectionSecurity.try_from (socket p) = Some security
    ∧ c = {| connection := {| cc_host := hostname p; cc_port := port p; cc_security := security |};
             user := username p |}.
Proof.
  unfold candidates. rewrite list_elem_of_omap. unfold candidate. split.
  - intros (p & Hp & H). apply bind_Some in H as (sec & Hs & H).
    case_bool_decide; [|done]. injection H as <-. by exists p, sec.
  - intros (p & sec & Hp & Hproto & Hs & ->). exists p. split; [done|].
    rewrite Hs. cbn [mbind option_bind]. by rewrite bool_decide_eq_true_2.
Qed.

(** A candidate the client can connect to. *)
Definition usable (c : ConfiguredServerLoginParam) : Prop :=
  cc_host (connection c) ≠ [] ∧ (0 < cc_port (connection c) <= u16_max)%Z ∧ user c ≠ [].

Lemma candidates_usable proto v a domain c :
  a ≠ [] → domain ≠ [] → Forall (λ p, u16 (port p)) v →
  c ∈ candidates proto (expand_param_vector v a domain) → usable c.
Proof.
  intros Ha Hd Hv (p & sec & Hp & _ & _ & ->)%elem_of_candidates.
  destruct (expand_complete a domain v p Hp Ha Hd Hv) as (H1 & H2 & _ & H4).
  exact (conj H1 (conj H2 H4)).
Qed.

Lemma candidates_nonempty proto v a domain p :
  a ≠ [] → domain ≠ [] → Forall (λ p, u16 (port p)) v → p ∈ v → protocol p = proto →
  candidates proto (expand_param_vector v a domain) ≠ [].
Proof.
  intros Ha Hd Hv Hp Hproto.
  destruct (expand_nonempty a domain v p Hp) as (q & Hq & Eq).
  destruct (expand_complete a domain v q Hq Ha Hd Hv) as (_ & _ & Hs & _).
  assert (∃ sec, ConnectionSecurity.try_from (socket q) = Some sec) as [sec Hsec]
    by (destruct (socket q); simpl; eauto; done).
  intros Hnil. eapply not_elem_of_nil. rewrite <- Hnil. apply elem_of_candidates.
  exists q, sec. split_and!; [done|congruence|done|done].
Qed.

(** A server that is tried in plain text stands for an entry that says so. *)
Definition plain_entry (proto : Protocol) (s : ServerParams) (c : ConfiguredServerLoginParam) : Prop :=
  protocol s = proto ∧ socket s = Socket.Plain
  ∧ (hostname s ≠ [] → cc_host (connection c) = hostname s)
  ∧ (port s ≠ 0%Z → cc_port (connection c) = port s).

Lemma candidates_plain proto v a domain c :
  c ∈ candidates proto (expand_param_vector v a domain) →
  cc_security (connection c) = ConnectionSecurity.Plain →
  ∃ s, s ∈ v ∧ plain_entry proto s c.
Proof.
  intros (q & sec & Hq & Hproto & Hsec & ->)%elem_of_candidates. simpl. intros ->.
  apply expand_fills in Hq as (p & Hp & Hf). exists p. split; [done|].
  destruct Hf as (H1 & _ & H3 & H4 & Hs). unfold plain_entry. simpl. split_and!; [congruence| |intros Hh|done].
  - destruct (bool_decide_reflect (socket p = Socket.Automatic)).
    + apply elem_of_cons in Hs as [E|E%list_elem_of_singleton]; by rewrite E in Hsec.
    + rewrite <- Hs. by destruct (socket q).
  - by rewrite bool_decide_eq_false_2 in H3.
Qed.

Lemma has_protocol_elem proto l :
  has_protocol proto l = true ↔ ∃ p, p ∈ l ∧ protocol p = proto.
Proof.
  unfold has_protocol. rewrite existsb_exists. split.
  - intros (p & Hp & H%bool_decide_eq_true_1). exists p. by rewrite list_elem_of_In.
  - intros (p & Hp & H). exists p. rewrite <- list_elem_of_In. by rewrite bool_decide_eq_true_2.
Qed.

Lemma all_servers_both param auto :
  (∃ p, p ∈ all_servers param auto ∧ protocol p = Protocol.Imap)
  ∧ ∃ p, p ∈ all_servers param auto ∧ protocol p = Protocol.Smtp.
Proof.
  unfold all_servers. set (l := default [] auto).
  set (l1 := if has_protocol Protocol.Imap l then l else l ++ [entered_imap param]).
  assert (H1 : ∃ p, p ∈ l1 ∧ protocol p = Protocol.Imap).
  { unfold l1. destruct (has_protocol Protocol.Imap l) eqn:E; [by apply has_protocol_elem|].
    exists (entered_imap param). split; [|done]. apply elem_of_app. right. by left. }
  destruct (has_protocol Protocol.Smtp l1) eqn:E; [split; [done|by apply has_protocol_elem]|].
  split.
  - destruct H1 as (p & Hp & E1). exists p. split; [|done]. apply elem_of_app. by left.
  - exists (entered_smtp param). split; [|done]. apply elem_of_app. right. by left.
Qed.

Lemma all_servers_elem param auto p :
  p ∈ all_servers param auto →
  p ∈ default [] auto ∨ p = entered_imap param ∨ p = entered_smtp param.
Proof.
  unfold all_servers. repeat match goal with |- context [if ?b then _ else _] => destruct b end;
    rewrite ?elem_of_app, ?list_elem_of_singleton; tauto.
Qed.
End Candidates.

Section ConfigureTheorems.
Context `{PF : !Platform, W : !World, JS : !Json SyncItem, JE : !Json EnteredLoginParam,
          JC : !Json ConfiguredLoginParamJson}.

(** The ports of the provider database are ports. *)
Definition provider_ports_ok : Prop :=
  Forall (λ '(_, p), Forall (λ s, u16 (srv_port s)) (p_server p)) w_provider_data.

Lemma find_provider_elem data d p :
  find_provider data d = Some p → ∃ pattern, (pattern, p) ∈ data.
Proof.
  induction data as [|[pattern q] data IH]; simpl; [done|].
  destruct (pattern_matches pattern d).
  - intros [= ->]. exists pattern. by left.
  - intros H. destruct (IH H) as [pt Hp]. exists pt. by right.
Qed.

Lemma lookup_servers_u16 param d :
  provider_ports_ok → Forall (λ p, u16 (port p)) (default [] (lookup_servers param d).2).
Proof.
  intros Hdb. unfold lookup_servers. destruct (no_advanced_parameters param); [|by constructor].
  destruct (get_provider_info _ _ d) as [p|] eqn:E; simpl.
  - case_bool_decide; simpl; [by constructor|]. unfold get_provider_info in E.
    apply find_provider_elem in E as [pattern Hp].
    unfold provider_ports_ok in Hdb. rewrite list.Forall_forall in Hdb. specialize (Hdb _ Hp).
    simpl in Hdb. unfold provider_servers. by apply Forall_fmap.
  - destruct (get_autoconfig _ _ _ _ _ _) as [l|] eqn:El; simpl; [|by constructor].
    by apply get_autoconfig_u16 in El.
Qed.

(** C38. Configuration data is complete: whenever the parameters a user entered are accepted, there
    is at least one IMAP and one SMTP server to try, each with a host name, a port between 1 and
    65535 and a user name (the ports entered and those of the provider database being 16-bit
    numbers).  An unencrypted connection is only tried with an IMAP server if the user chose none
    for IMAP, or if the provider database or the published settings for the domain of the entered
    address have an entry for IMAP that asks for it, and then with the host and the port of this
    entry as far as it has them; and the same for SMTP. *)
Theorem configured_servers_complete param a p a' :
  provider_ports_ok → u16 (imap_port (e_imap param)) → u16 (smtp_port (e_smtp param)) →
  get_configured_param param a = (Ok p, a') →
  (imap p ≠ [] ∧ Forall usable (imap p)) ∧ (smtp p ≠ [] ∧ Forall usable (smtp p))
  ∧ ∃ parsed, EmailAddress_new (e_addr param) = Ok parsed
    ∧ let published := default [] (lookup_servers param (domain parsed)).2 in
      (∀ c, c ∈ imap p → cc_security (connection c) = ConnectionSecurity.Plain →
         imap_security (e_imap param) = Socket.Plain
         ∨ ∃ s, s ∈ published ∧ plain_entry Protocol.Imap s c)
      ∧ (∀ c, c ∈ smtp p → cc_security (connection c) = ConnectionSecurity.Plain →
           smtp_security (e_smtp param) = Socket.Plain
           ∨ ∃ s, s ∈ published ∧ plain_entry Protocol.Smtp s c).
Proof.
  intros Hdb Hi Hs. unfold get_configured_param.
  case_bool_decide as Ha; [done|]. case_bool_decide; [done|].
  unfold bind. destruct (login_addr param a) as [[ad|] a1]; [|done].
  destruct (EmailAddress_new (e_addr param)) as [parsed|] eqn:Eaddr; [|done].
  destruct (lookup_servers param (domain parsed)) as [prov auto] eqn:El. intros [= <- <-]. simpl.
  assert (Hd : domain parsed ≠ []).
  { revert Eaddr. unfold EmailAddress_new. repeat case_match; try done. intros [= <-]. simpl.
    by eapply bool_decide_eq_false_1. }
  assert (Hauto : Forall (λ p, u16 (port p)) (default [] auto)).
  { pose proof (lookup_servers_u16 param (domain parsed) Hdb) as H1. by rewrite El in H1. }
  assert (Hall : Forall (λ p, u16 (port p)) (all_servers param auto)).
  { apply list.Forall_forall. intros q [Hq|[->| ->]]%all_servers_elem; [|done|done].
    by eapply list.Forall_forall in Hauto. }
  destruct (all_servers_both param auto) as [(p1 & Hp1 & E1) (p2 & Hp2 & E2)].
  split_and!.
  - by apply (candidates_nonempty _ _ _ _ p1).
  - apply list.Forall_forall. intros c Hc. eapply candidates_usable; [exact Ha|exact Hd|exact Hall|exact Hc].
  - by apply (candidates_nonempty _ _ _ _ p2).
  - apply list.Forall_forall. intros c Hc. eapply candidates_usable; [exact Ha|exact Hd|exact Hall|exact Hc].
  - exists parsed. split; [done|]. rewrite El. cbn [snd]. split; intros c Hc Hplain;
      apply candidates_plain in Hc as (q & Hq & Hpe); try done;
      apply all_servers_elem in Hq as [Hq|[->| ->]];
      [right; by exists q|by left; apply Hpe|by destruct Hpe|right; by exists q|by destruct Hpe|by left; apply Hpe].
Qed.

(** *** The number of relays *)

Definition transports_are (Q : list transport_row -> Prop) (a : Account) : Prop := Q (transports a).

Section Frames.
Context (Q : list transport_row -> Prop).

Lemma set_raw_config_same k v : preserves (transports_are Q) (set_raw_config k v).
Proof. by intros a Ha. Qed.
#[local] Hint Resolve set_raw_config_same : preserves.

Lemma get_config_same key : preserves (transports_are Q) (get_config key).
Proof. by apply get_config_frame. Qed.

Lemma emit_same e : preserves (transports_are Q) (emit e).
Proof. by apply emit_frame. Qed.

Lemma add_sync_item_same now d : preserves (transports_are Q) (add_sync_item now d).
Proof. by apply add_sync_item_frame. Qed.

Lemma send_sync_transports_same now : preserves (transports_are Q) (send_sync_transports now).
Proof. by apply send_sync_transports_frame. Qed.
#[local] Hint Resolve get_config_same emit_same add_sync_item_same send_sync_transports_same
  : preserves.

Lemma set_config_ex_same now sync key v :
  key ≠ Config.ConfiguredAddr → preserves (transports_are Q) (set_config_ex now sync key v).
Proof.
  intros Hk. unfold set_config_ex. preserves_tac.
  - unfold check_config. preserves_tac.
  - unfold write_config. destruct key; try done; preserves_tac; by intros c Hc.
Qed.
#[local] Hint Resolve set_config_ex_same : preserves.

Lemma get_configured_param_same param : preserves (transports_are Q) (get_configured_param param).
Proof. unfold get_configured_param, login_addr. preserves_tac. Qed.

(** The steps of [configure] after the relay is saved. *)
Lemma after_save_same now (x : ConfiguredLoginParam) :
  preserves (transports_are Q)
    (send_sync_transports now ;;;
     set_config_internal now Config.ConfiguredTimestamp (Some (print_Z now)) ;;;
     set_raw_config_bool (lit "configured") true ;;;
     emit AccountsItemChanged ;;;
     ret (provider x)).
Proof.
  unfold set_config_internal, set_raw_config_bool. preserves_tac.
Qed.

Context (config_defaults : Provider -> list (Config * str)).
Context (defaults_ok : ∀ p key v, (key, v) ∈ config_defaults p → key ≠ Config.ConfiguredAddr).

Lemma completed_same now prov :
  preserves (transports_are Q) (on_configure_completed config_defaults now prov).
Proof.
  unfold on_configure_completed. destruct prov as [p|]; [|apply preserves_ret].
  apply preserves_for_each. intros [key v] Hk.
  assert (key ≠ Config.ConfiguredAddr) by (by eapply defaults_ok).
  preserves_tac. unfold config_exists. preserves_tac. by apply get_raw_config_frame.
Qed.
End Frames.

Lemma save_grows_by_one p e t a :
  let ad := addr_normalize str_to_lowercase (addr p) in
  length (transports (save_to_transports_table p e t a).2)
  ≤ length (transports a) + (if bool_decide (ad ∈ addrs a) then 0 else 1).
Proof.
  intros ad. unfold save_to_transports_table, save_transport, bind.
  destruct (folder_ok _); [|simpl; lia]. simpl.
  pose proof (get_config_same (eq (transports a)) Config.ConfiguredAddr a eq_refl) as Hg.
  destruct (get_config Config.ConfiguredAddr a) as [[v|] a1]; cbn [snd] in Hg; unfold transports_are in Hg;
    [|simpl; rewrite <- Hg; lia].
  fold ad.
  destruct (upsert_spec ad (to_json e) (to_json (into_param_json p)) t true a1)
    as (b & a2 & -> & _ & _ & Ha).
  assert (Hl : length (transports a2) = length (addrs a2)) by (symmetry; apply length_fmap).
  assert (Hl1 : length (addrs a1) = length (transports a)) by (rewrite Hg; apply length_fmap).
  assert (Hsame : addrs a1 = addrs a) by (unfold addrs; by rewrite Hg).
  rewrite Hsame in Ha, Hl1.
  assert (E : length (addrs a2) = length (transports a) + (if bool_decide (ad ∈ addrs a) then 0 else 1)).
  { rewrite Ha. case_bool_decide; rewrite ?length_app; simpl; lia. }
  destruct v; simpl; lia.
Qed.

(** The OAuth2 login answers with another address than the one that was entered. *)
Definition other_login_addr (param : EnteredLoginParam) : bool :=
  e_oauth2 param
  && match w_oauth2_addr (e_addr param) (imap_password (e_imap param)) with
     | Some (Some oauth2_addr) =>
         negb (bool_decide (addr_normalize str_to_lowercase oauth2_addr = e_addr param))
     | _ => false
     end.

Lemma configured_addr_of param a p a' :
  addr_normalize str_to_lowercase (e_addr param) = e_addr param →
  other_login_addr param = false → get_configured_param param a = (Ok p, a') →
  addr_normalize str_to_lowercase (addr p) = e_addr param.
Proof.
  intros Hn Ho. unfold get_configured_param.
  case_bool_decide; [done|]. case_bool_decide; [done|]. unfold bind at 1.
  destruct (login_addr param a) as [[ad|] a1] eqn:El; [|done].
  assert (addr_normalize str_to_lowercase ad = e_addr param) as Had.
  { revert El. unfold login_addr, other_login_addr, set_raw_config, bind, ret, fail, modify in *. destruct (e_oauth2 param); [|by intros [= <- <-]].
    destruct (w_oauth2_addr _ _) as [[b|]|]; [|by intros [= <- <-]|done].
    apply negb_false_iff, bool_decide_eq_true in Ho. by intros [= <- <-]. }
  destruct (EmailAddress_new _) as [parsed|]; [|done].
  destruct (lookup_servers _ _). by intros [= <- <-].
Qed.

Lemma configure_grows_by_one now param a :
  addr_normalize str_to_lowercase (e_addr param) = e_addr param →
  length (transports (configure now param a).2)
  ≤ length (transports a)
    + (if bool_decide (e_addr param ∈ addrs a) && negb (other_login_addr param) then 0 else 1).
Proof.
  intros Hn. set (n := length (transports a) + _). unfold configure, bind at 1.
  pose proof (get_configured_param_same (eq (transports a)) param a eq_refl) as Hg.
  destruct (get_configured_param param a) as [[p|] a1] eqn:E; cbn [snd] in Hg; unfold transports_are in Hg;
    [|simpl; rewrite <- Hg; unfold n; lia].
  assert (length (transports a)
          + (if bool_decide (addr_normalize str_to_lowercase (addr p) ∈ addrs a) then 0 else 1) ≤ n) as Had.
  { unfold n. destruct (other_login_addr param) eqn:Eo.
    - rewrite andb_false_r. case_bool_decide; lia.
    - rewrite (configured_addr_of _ _ _ _ Hn Eo E), andb_true_r. done. }
  unfold bind at 1. unfold ok_or. destruct (w_connect p) as [chatmail|]; [|simpl; rewrite <- Hg; unfold n; lia].
  set (rest := save_to_transports_table p param now ;;; _).
  assert (Hrest : ∀ b, transports b = transports a → length (transports (rest b).2) ≤ n).
  { intros b Hb. unfold rest, bind at 1.
    pose proof (save_grows_by_one p param now b) as Hs. cbn zeta in Hs.
    unfold addrs in Hs. rewrite Hb in Hs. fold (addrs a) in Hs.
    pose proof (Nat.le_trans _ _ _ Hs Had) as Hle.
    destruct (save_to_transports_table p param now b) as [[[]|] b2]; [|exact Hle].
    exact (after_save_same (λ l, length l ≤ n) now p b2 Hle). }
  clearbody rest. simpl. unfold bind at 1. unfold is_configured, gets. unfold bind at 1.
  pose proof (get_config_same (eq (transports a)) Config.FixIsChatmail a1 Hg) as Hf.
  unfold get_config_bool, bind at 1.
  destruct (get_config Config.FixIsChatmail a1) as [[v|] a2]; cbn [snd] in Hf; unfold transports_are in Hf;
    [|simpl; rewrite <- Hf; unfold n; lia].
  clearbody n. unfold ret. unfold bind at 1.
  match goal with |- context [when ?b ?x a2] =>
    assert (Hw : ∃ a3, when b x a2 = (Ok tt, a3) ∧ transports a3 = transports a)
  end.
  { unfold when. destruct (negb _); [|by exists a2]. destruct chatmail; [by eexists|].
    destruct (negb _); [by eexists|by exists a2]. }
  destruct Hw as (a3 & -> & H3). by apply Hrest.
Qed.

(** C39. An account has at most five relays: configuring a relay with a normalised address does not
    take it above the limit, and an account that already has more does not get another one, whether
    configuring succeeds or fails.  The one exception is an OAuth2 login that answers with another
    address than the one that was entered: the limit was checked for the entered one, so that there
    may be one relay more.  (The settings a provider recommends do not set the primary address, the
    primary address is not overridden by the environment, and before there is a primary relay
    whenever there is any.) *)
Theorem relays_bounded (config_defaults : Provider -> list (Config * str)) now param a :
  (∀ p key v, (key, v) ∈ config_defaults p → key ≠ Config.ConfiguredAddr) →
  not_overridden Config.ConfiguredAddr → account_ok a →
  addr_normalize str_to_lowercase (e_addr param) = e_addr param →
  length (transports (inner_configure config_defaults now param a).2)
  ≤ Nat.max MAX_TRANSPORT_RELAYS (length (transports a))
    + (if other_login_addr param then 1 else 0).
Proof.
  intros Hdef Henv [Ha Hr] Hn. unfold inner_configure, bind at 1.
  destruct (get_primary Henv a Ha) as (a1 & -> & Hc1 & Ec & Et). unfold bind at 1, gets.
  destruct (_ && _ && _) eqn:Etoo; [simpl; rewrite Et; lia|].
  unfold bind at 1.
  pose proof (configure_grows_by_one now param a1 Hn) as Hgrow.
  unfold addrs in Hgrow. rewrite Et in Hgrow. fold (addrs a) in Hgrow. set (n := _ + _).
  assert (Hlen : length (transports (configure now param a1).2) ≤ n).
  { etrans; [exact Hgrow|]. unfold n. case_bool_decide as Hin; [destruct (other_login_addr param); simpl; lia|].
    cbn [andb]. rewrite Et in Etoo. fold (addrs a) in Etoo.
    rewrite (bool_decide_eq_false_2 _ Hin) in Etoo. simpl in Etoo. rewrite andb_true_r in Etoo.
    destruct Hr as (_ & _ & Hs).
    destruct (transports a) as [|r l] eqn:El; [simpl; unfold MAX_TRANSPORT_RELAYS; lia|].
    rewrite bool_decide_eq_true_2 in Etoo by (apply Hs; unfold addrs; by rewrite El).
    cbn [andb] in Etoo. apply bool_decide_eq_false_1 in Etoo. lia. }
  clearbody n. unfold log_failed_configure.
  destruct (configure now param a1) as [[prov|e] a2].
  - apply (preserves_bind (transports_are (λ l, length l ≤ n))).
    + by apply set_config_ex_same.
    + intros _. by apply completed_same.
    + exact Hlen.
  - exact (get_configured_param_same (λ l, length l ≤ n) param a2 Hlen).
Qed.
End ConfigureTheorems.

(** ** Samples *)

Section Witnesses.
#[local] Instance PF : Platform := sample_platform.
#[local] Instance W : World :=
  {| w_provider_data := []; w_oauth2_addr := λ _ _, None; w_read_url := λ _ _, None;
     w_xml_events := λ _, []; w_percent_encode := λ s, s; w_connect := λ _, Some true |}.
#[local] Instance JS : Json SyncItem := opaque_json _.
#[local] Instance JE : Json EnteredLoginParam := one_value_json (default_entered_param []).
#[local] Instance JC : Json ConfiguredLoginParamJson := one_value_json (sample_configured []).

Definition sample_entered : EnteredLoginParam :=
  {| e_addr := lit "c@x.org";
     e_imap := {| imap_server := []; imap_port := 0; imap_folder := [];
                  imap_security := Socket.Automatic; imap_user := []; imap_password := lit "pw" |};
     e_smtp := {| smtp_server := []; smtp_port := 0; smtp_security := Socket.Automatic;
                  smtp_user := []; smtp_password := [] |};
     e_certificate_checks := EnteredCertificateChecks.Automatic; e_oauth2 := false |}.

Lemma configured_servers_complete_witness :
  ∃ p, get_configured_param sample_entered two_relays = (Ok p, two_relays)
    ∧ length (imap p) = 6 ∧ imap p ≠ [] ∧ Forall usable (imap p).
Proof.
  destruct (get_configured_param sample_entered two_relays) as [[p|] a'] eqn:E;
    [|vm_compute in E; discriminate].
  assert (a' = two_relays /\ length (imap p) = 6) as [-> Hl]
    by (vm_compute in E; injection E as <- <-; vm_compute; split; reflexivity).
  exists p. split; [reflexivity|]. split; [exact Hl|].
  assert (Hports : provider_ports_ok) by (unfold provider_ports_ok; constructor).
  assert (Hport : u16 0) by (split; [apply Z.le_refl|vm_compute; discriminate]).
  destruct (configured_servers_complete sample_entered two_relays p two_relays Hports Hport Hport E)
    as [H _].
  exact H.
Defined.

Lemma relays_bounded_witness :
  length (transports (inner_configure (λ _, []) 7 sample_entered two_relays).2) = 3
  ∧ length (transports (inner_configure (λ _, []) 7 sample_entered two_relays).2) ≤ 5 + 0.
Proof.
  split; [vm_compute; reflexivity|].
  apply (relays_bounded (λ _, []) 7 sample_entered two_relays).
  - intros p key v H. by apply not_elem_of_nil in H.
  - reflexivity.
  - apply two_relays_ok.
  - vm_compute. reflexivity.
Defined.

(** Five relays, and the first one is configured again with an OAuth2 login that answers with an
    address that is not among them: a sixth relay is added. *)
Definition oauth2_world : World :=
  {| w_provider_data := []; w_oauth2_addr := λ _ _, Some (Some (lit "new@x.org"));
     w_read_url := λ _ _, None; w_xml_events := λ _, []; w_percent_encode := λ s, s;
     w_connect := λ _, Some true |}.

Definition five_relays : Account :=
  upd_transports (λ l, l ++ [sample_row 3 (lit "c@x.org") 7; sample_row 4 (lit "d@x.org") 7;
                             sample_row 5 (lit "e@x.org") 7]) two_relays.

Definition oauth2_entered : EnteredLoginParam :=
  {| e_addr := lit "a@x.org"; e_imap := e_imap sample_entered; e_smtp := e_smtp sample_entered;
     e_certificate_checks := EnteredCertificateChecks.Automatic; e_oauth2 := true |}.

Example oauth2_adds_sixth_relay :
  length (transports (inner_configure (H0 := oauth2_world) (λ _, []) 7 oauth2_entered five_relays).2) = 6.
Proof. vm_compute. reflexivity. Qed.
End Witnesses.
