(* ===== verification/Sync.v ===== *)
(** Sync: tokens of invitations (src/src/token.rs) and the items devices of one user send each
    other (src/src/sync.rs): collecting them into a message, and executing a received one. *)
From S2P Require Import Prelude Monad ContactTools LoginParam Config Transport.

(** ** Tokens (token.rs) *)

(** [token::save]: a token exists at most once. *)
Definition save_token (ns : Namespace) (foreign_key : option str) (token : str) (timestamp : Z)
  : A unit :=
  if bool_decide (token = []) then ret tt
  else modify (upd_tokens (λ l,
    if bool_decide (token ∈ tk_token <$> l) then l
    else l ++ [{| tk_namespc := ns; tk_foreign_key := default [] foreign_key;
                  tk_token := token; tk_timestamp := timestamp |}])).

(** [token::lookup]: the most recently created one. *)
Definition lookup_token (ns : Namespace) (foreign_key : option str) : A (option str) :=
  gets (λ a, tk_token <$> head (reverse (filter (λ r,
    tk_namespc r = ns ∧ tk_foreign_key r = default [] foreign_key) (tokens a)))).

(** [token::lookup_or_new]; [new_id] is what [create_id] returns. *)
Definition lookup_or_new (now : Z) (new_id : str) (ns : Namespace) (foreign_key : option str)
  : A str :=
  t <- lookup_token ns foreign_key ;;
  match t with
  | Some t => ret t
  | None => save_token ns foreign_key new_id now ;;; ret new_id
  end.

(** [token::exists]. *)
Definition token_exists (ns : Namespace) (token : str) : A bool :=
  gets (λ a, existsb (λ r, bool_decide (tk_namespc r = ns) && bool_decide (tk_token r = token))
               (tokens a)).

(** [token::delete]. *)
Definition delete_tokens (foreign_key : str) : A unit :=
  modify (upd_tokens (filter (λ r, tk_foreign_key r ≠ foreign_key))).

Section SyncOps.
Context `{!Platform, !Json SyncItem, !Json EnteredLoginParam, !Json ConfiguredLoginParamJson}.

(** [Context::sync_qr_code_tokens]. *)
Definition sync_qr_code_tokens (now : Z) (grpid : option str) : A unit :=
  send <- should_send_sync_msgs ;;
  if negb send then ret tt
  else
    invitenumber <- lookup_token Namespace.InviteNumber grpid ;;
    auth <- lookup_token Namespace.Auth grpid ;;
    match invitenumber, auth with
    | Some i, Some t =>
        add_sync_item now (AddQrToken {| qt_invitenumber := i; qt_auth := t; qt_grpid := grpid |})
    | _, _ => ret tt
    end.

(** [Context::sync_qr_code_token_deletion]. *)
Definition sync_qr_code_token_deletion (now : Z) (invitenumber auth : str) : A unit :=
  add_sync_item now
    (DeleteQrToken {| qt_invitenumber := invitenumber; qt_auth := auth; qt_grpid := None |}).

(** ** Sending (sync.rs) *)

(** The loop of [build_sync_json]. *)
Fixpoint serialize_items (acc : str) (items : list str) : str :=
  match items with
  | [] => acc
  | item :: items' =>
      serialize_items ((if bool_decide (acc = []) then [] else acc ++ lit "," ++ [LF]) ++ item)
        items'
  end.

(** [Context::build_sync_json]: the text to send, and the identifiers of the items in it. *)
Definition build_sync_json : A (option (str * str)) :=
  gets (λ a,
    let rows := multi_device_sync a in
    if bool_decide (rows = []) then None
    else Some (lit "{" ++ quoted (lit "items") ++ lit ":[" ++ [LF]
                 ++ serialize_items [] (snd <$> rows) ++ [LF] ++ lit "]}",
               join (lit ",") (print_N ∘ fst <$> rows))).

(** ** Executing (sync.rs) *)

(** [Context::add_qr_token]. *)
Definition add_qr_token (token : QrTokenData) (timestamp : Z) : A unit :=
  save_token Namespace.InviteNumber (qt_grpid token) (qt_invitenumber token) timestamp ;;;
  save_token Namespace.Auth (qt_grpid token) (qt_auth token) timestamp.

(** The rows the subquery of [delete_qr_token] selects: AND binds stronger than OR. *)
Definition names_token (token : QrTokenData) (timestamp : Z) (r : token_row) : bool :=
  bool_decide (tk_token r = qt_invitenumber token)
  || (bool_decide (tk_token r = qt_auth token) && (tk_timestamp r <=? timestamp)%Z).

(** [Context::delete_qr_token]. *)
Definition delete_qr_token (token : QrTokenData) (timestamp : Z) : A unit :=
  modify (upd_tokens (λ l,
    let keys := tk_foreign_key <$> filter (λ r, names_token token timestamp r = true) l in
    filter (λ r, tk_foreign_key r ∉ keys) l)).

(** The items about chats and messages, executed by chat.rs and message.rs. *)
Context (sync_alter_chat : SyncId -> SyncAction -> A unit).
Context (save_message : str -> str -> A unit) (sync_message_deletion : list str -> A unit).

(** One item of [execute_sync_items]. *)
Definition execute_item (now timestamp : Z) (d : SyncDataOrUnknown) : A unit :=
  match d with
  | Known (AddQrToken token) => add_qr_token token timestamp
  | Known (DeleteQrToken token) => delete_qr_token token timestamp
  | Known (AlterChat id action) => sync_alter_chat id action
  | Known (SyncConfig key val) => sync_config now key val
  | Known (SaveMessage src dest) => save_message src dest
  | Known (DeleteMessages msgs) => sync_message_deletion msgs
  | Known (Transports ts removed) => sync_transports ts removed
  | Unknown _ => ret tt
  end.

(** [Context::execute_sync_items]: an item that fails does not stop the others. *)
Definition execute_sync_items (now : Z) (items : list SyncItem) (timestamp_sent : Z) : A unit :=
  for_each items (λ item,
    _ <- ignore_err (execute_item now (Z.min (si_timestamp item) timestamp_sent) (si_data item)) ;;
    ret tt) ;;;
  if bool_decide (items = []) then ret tt
  else
    bcc <- ignore_err (get_config_bool Config.BccSelf) ;;
    when (negb (default true bcc))
      (_ <- ignore_err (set_config_ex now false Config.BccSelf (Some (lit "1"))) ;; ret tt).
End SyncOps.

(** ** Tokens behave as a set *)

Section TokenLemmas.

(** A token is stored once. *)
Definition tokens_unique (a : Account) : Prop := NoDup (tk_token <$> tokens a).

Lemma save_token_unique ns fk t ts : preserves tokens_unique (save_token ns fk t ts).
Proof.
  unfold save_token. case_bool_decide; [apply preserves_ret|]. apply preserves_modify.
  intros a Ha. unfold tokens_unique. simpl. case_bool_decide as Hin; [done|].
  rewrite fmap_app. apply list.NoDup_app. split_and!; [done| |apply NoDup_singleton].
  intros x Hx ->%list_elem_of_singleton. done.
Qed.

Lemma delete_tokens_unique fk : preserves tokens_unique (delete_tokens fk).
Proof. apply preserves_modify. intros a. apply NoDup_fmap_filter. Qed.

Lemma delete_qr_token_unique t ts : preserves tokens_unique (delete_qr_token t ts).
Proof. apply preserves_modify. intros a. apply NoDup_fmap_filter. Qed.

Lemma token_exists_spec ns t a :
  (token_exists ns t a).1 = Ok true ↔ ∃ r, r ∈ tokens a ∧ tk_namespc r = ns ∧ tk_token r = t.
Proof.
  unfold token_exists, gets. simpl. split.
  - intros [= H]. apply existsb_exists in H as (r & Hr & H).
    apply andb_true_iff in H as [?%bool_decide_eq_true_1 ?%bool_decide_eq_true_1].
    exists r. by rewrite list_elem_of_In.
  - intros (r & Hr & <- & <-). f_equal. apply existsb_exists. exists r.
    rewrite <- list_elem_of_In. by rewrite !bool_decide_eq_true_2.
Qed.

(** The tokens of a withdrawn invitation are gone, with everything that has their key; the others
    stay. *)
Lemma delete_qr_token_spec token ts a r :
  r ∈ tokens (delete_qr_token token ts a).2
  ↔ r ∈ tokens a ∧ ∀ s, s ∈ tokens a → names_token token ts s = true →
                        tk_foreign_key s ≠ tk_foreign_key r.
Proof.
  unfold delete_qr_token, modify. simpl. rewrite list_elem_of_filter. split.
  - intros [Hk Hr]. split; [done|]. intros s Hs Hn E. apply Hk, list_elem_of_fmap.
    exists s. rewrite list_elem_of_filter. done.
  - intros [Hr Hall]. split; [|done]. intros (s & E & Hs)%list_elem_of_fmap.
    apply list_elem_of_filter in Hs as [Hn Hs]. by apply (Hall s).
Qed.
End TokenLemmas.

(** ** Received items are not answered *)

Section NoAnswer.
Context `{PF : !Platform, JS : !Json SyncItem, JE : !Json EnteredLoginParam,
          JC : !Json ConfiguredLoginParamJson}.

Definition queue_is (q : list (N * str)) (a : Account) : Prop := multi_device_sync a = q.

Context (q : list (N * str)).

Lemma get_raw_config_queue k : preserves (queue_is q) (get_raw_config k).
Proof. intros a Ha. unfold get_raw_config. by destruct (config_cache a !! k). Qed.

Lemma upd_queue (f : Account -> Account) :
  (∀ a, multi_device_sync (f a) = multi_device_sync a) → preserves (queue_is q) (modify f : A unit).
Proof. intros Hf a Ha. unfold queue_is. simpl. by rewrite Hf. Qed.
#[local] Hint Resolve get_raw_config_queue : preserves.
#[local] Hint Extern 1 (preserves (queue_is _) (modify _)) =>
  (apply upd_queue; by intros []) : preserves.

Lemma set_raw_config_queue k v : preserves (queue_is q) (set_raw_config k v).
Proof. unfold set_raw_config. preserves_tac. Qed.

Lemma emit_queue e : preserves (queue_is q) (emit e).
Proof. unfold emit. preserves_tac. Qed.
#[local] Hint Resolve set_raw_config_queue emit_queue : preserves.

Lemma get_config_opt_queue key : preserves (queue_is q) (get_config_opt key).
Proof. unfold get_config_opt. preserves_tac. Qed.
#[local] Hint Resolve get_config_opt_queue : preserves.

Lemma get_config_queue key : preserves (queue_is q) (get_config key).
Proof. unfold get_config. preserves_tac. Qed.
#[local] Hint Resolve get_config_queue : preserves.

Lemma check_config_queue key v : preserves (queue_is q) (check_config key v).
Proof. unfold check_config. preserves_tac. Qed.
#[local] Hint Resolve check_config_queue : preserves.

(** Without synchronisation, nothing is sent. *)
Lemma set_config_nosync now key v a :
  set_config_ex now false key v a =
  (check_config key v ;;;
   _ <- write_config now false key v ;;
   when (bool_decide (key ∈ [Config.Displayname; Config.Selfavatar; Config.PrivateTag]))
        (emit AccountsItemChanged) ;;;
   when (is_synced key) (emit (ConfigSynced key))) a.
Proof.
  unfold set_config_ex, bind, and_then, ret. cbn [andb negb].
  destruct (check_config key v a) as [[[]|] a1]; [|done].
  destruct (write_config now false key v a1) as [[w|] a2]; [|done].
  destruct (when _ _ a2) as [[[]|] a3]; [|done].
  by destruct (when _ _ a3) as [[[]|] a4].
Qed.

Lemma set_config_ex_queue now key v :
  key ≠ Config.ConfiguredAddr → preserves (queue_is q) (set_config_ex now false key v).
Proof.
  intros Hk a Ha. rewrite set_config_nosync. revert a Ha.
  match goal with |- ∀ a, _ → queue_is q (?m a).2 => change (preserves (queue_is q) m) end.
  preserves_tac. unfold write_config. destruct key; try done; preserves_tac.
Qed.
#[local] Hint Resolve set_config_ex_queue : preserves.

Lemma sync_config_queue now key v : preserves (queue_is q) (sync_config now key v).
Proof.
  unfold sync_config. apply preserves_bind; [|intros w].
  - preserves_tac.
  - destruct key; simpl; try apply preserves_ret; by apply set_config_ex_queue.
Qed.

Lemma insert_transport_queue ad e c t p : preserves (queue_is q) (insert_transport ad e c t p).
Proof. intros a Ha. unfold insert_transport. by case_bool_decide. Qed.
#[local] Hint Resolve insert_transport_queue : preserves.

Lemma save_transport_queue e c t p : preserves (queue_is q) (save_transport e c t p).
Proof. unfold save_transport, upsert_transport, update_transport. preserves_tac. Qed.
#[local] Hint Resolve save_transport_queue : preserves.

Lemma save_transports_queue ts : preserves (queue_is q) (save_transports ts).
Proof. induction ts as [|t ts IH]; simpl; preserves_tac. Qed.
#[local] Hint Resolve save_transports_queue : preserves.

Lemma remove_all_queue cfg l : preserves (queue_is q) (remove_all cfg l).
Proof. induction l as [|r l IH]; simpl; [preserves_tac|]. unfold remove_one. preserves_tac. Qed.

Lemma sync_transports_queue ts removed : preserves (queue_is q) (sync_transports ts removed).
Proof.
  unfold sync_transports. preserves_tac.
  intros c Hc. unfold in_transaction, bind, primary_addr.
  destruct (config c !! _) as [cfg|]; [|done].
  pose proof (remove_all_queue cfg removed c Hc) as Hr. by destruct (remove_all cfg removed c) as [[]].
Qed.

Lemma save_token_queue ns fk t ts : preserves (queue_is q) (save_token ns fk t ts).
Proof. unfold save_token. preserves_tac. Qed.
#[local] Hint Resolve sync_config_queue sync_transports_queue save_token_queue : preserves.

(** Items that are executed by the account itself. *)
Definition account_item (item : SyncItem) : bool :=
  match si_data item with
  | Known (AlterChat _ _ | SaveMessage _ _ | DeleteMessages _) => false
  | _ => true
  end.

Context (alter : SyncId -> SyncAction -> A unit) (save : str -> str -> A unit)
        (deletion : list str -> A unit).

Lemma execute_item_queue now ts item :
  account_item item = true →
  preserves (queue_is q) (execute_item alter save deletion now ts (si_data item)).
Proof.
  unfold account_item, execute_item, add_qr_token, delete_qr_token.
  destruct (si_data item) as [[]|]; intros H; try done; preserves_tac.
Qed.

Lemma execute_items_queue now items sent :
  forallb account_item items = true →
  preserves (queue_is q) (execute_sync_items alter save deletion now items sent).
Proof.
  intros Hall. unfold execute_sync_items. apply preserves_bind; [|intros _].
  - apply preserves_for_each. intros item Hi.
    apply preserves_bind; [|intros ?; apply preserves_ret]. apply preserves_ignore_err.
    apply execute_item_queue. rewrite forallb_forall in Hall. apply Hall. by apply list_elem_of_In.
  - unfold get_config_bool. preserves_tac.
Qed.
End NoAnswer.

(** ** The text that is sent *)

Lemma serialize_items_join acc items :
  acc ≠ [] → serialize_items acc items = join (lit "," ++ [LF]) (acc :: items).
Proof.
  revert acc. induction items as [|item items IH]; intros acc Ha; simpl; [done|].
  rewrite bool_decide_eq_false_2 by done. rewrite IH.
  2:{ intros [? _]%app_eq_nil. by apply app_eq_nil in H as []. }
  destruct items; simpl; by rewrite <- !app_assoc.
Qed.

Section Theorems.
Context `{PF : !Platform, JS : !Json SyncItem, JE : !Json EnteredLoginParam,
          JC : !Json ConfiguredLoginParamJson}.
(** [serde_json::from_str] for the items of a message: an array of JSON values, separated by
    commas and white space, is parsed element by element. *)
Context (parse_sync_items : str -> option (list SyncItem)).
Context (parse_array : ∀ l, l ≠ [] →
  parse_sync_items (lit "{" ++ quoted (lit "items") ++ lit ":[" ++ [LF]
                      ++ join (lit "," ++ [LF]) (to_json <$> l) ++ [LF] ++ lit "]}") = Some l).
(** A JSON value is not the empty text. *)
Context (json_not_empty : ∀ item : SyncItem, to_json item ≠ []).

(** The items queued for the other devices are received complete and in the order in which
    they were queued. *)
Theorem sync_items_round_trip items a :
  snd <$> multi_device_sync a = to_json <$> items → items ≠ [] →
  ∃ text ids, (build_sync_json a).1 = Ok (Some (text, ids)) ∧ parse_sync_items text = Some items.
Proof.
  intros Hq Hne. unfold build_sync_json, gets. simpl.
  rewrite bool_decide_eq_false_2.
  2:{ intros E. rewrite E in Hq. by destruct items. }
  eexists _, _. split; [reflexivity|]. rewrite Hq, <- (parse_array items Hne). do 6 f_equal.
  destruct items as [|i items]; [done|]. simpl. by rewrite serialize_items_join.
Qed.

Context (alter : SyncId -> SyncAction -> A unit) (save : str -> str -> A unit)
        (deletion : list str -> A unit).

(** Executing items cannot fail: failures of items are logged. *)
Lemma ignored_ok {X} (x : A X) c : ((_ <- ignore_err x ;; ret tt) c).1 = Ok tt.
Proof. unfold bind, ignore_err. by destruct (x c) as [[]]. Qed.

Lemma execute_items_ok now items sent a :
  (execute_sync_items alter save deletion now items sent a).1 = Ok tt.
Proof.
  unfold execute_sync_items, bind at 1.
  assert (Hf : ∀ l c, (for_each l (λ item, _ <- ignore_err (execute_item alter save deletion now
      (Z.min (si_timestamp item) sent) (si_data item)) ;; ret tt) c).1 = Ok tt).
  { induction l as [|i l IH]; intros c; simpl; [done|]. unfold bind at 1 2, ignore_err.
    destruct (execute_item _ _ _ _ _ _ c) as [[]]; apply IH. }
  specialize (Hf items a). destruct (for_each _ _ a) as [[[]|] a1]; [|done].
  case_bool_decide; [done|]. unfold bind at 1.
  assert (Hg : ∃ o a2, ignore_err (get_config_bool Config.BccSelf) a1 = (Ok o, a2))
    by (unfold ignore_err; destruct (get_config_bool _ a1) as [[] ?]; eauto).
  destruct Hg as (o & a2 & ->). unfold when. destruct (negb _); [apply ignored_ok|done].
Qed.

(** Executing the items of a message from another device never fails and never queues an item,
    so that devices do not send messages back and forth; for the items the account itself
    executes, whatever the handlers of the others do. *)
Theorem received_items_not_answered now items sent a :
  forallb account_item items = true →
  (execute_sync_items alter save deletion now items sent a).1 = Ok tt
  ∧ multi_device_sync (execute_sync_items alter save deletion now items sent a).2
    = multi_device_sync a.
Proof. intros Hall. split; [apply execute_items_ok|by apply execute_items_queue]. Qed.
End Theorems.

(** ** Samples *)

Section Witnesses.
#[local] Instance PF : Platform := sample_platform.
#[local] Instance JE : Json EnteredLoginParam := one_value_json (default_entered_param []).
#[local] Instance JC : Json ConfiguredLoginParamJson := one_value_json (sample_configured []).

(** A serializer for unknown items, by their text. *)
#[local] Instance JS : Json SyncItem :=
  {| to_json := λ i, match si_data i with Unknown v => v | Known _ => lit "1" end;
     of_json := λ _, None |}.

Definition sample_items : list SyncItem :=
  [{| si_timestamp := 5; si_data := Known (SyncConfig Config.Displayname (lit "Bob")) |};
   {| si_timestamp := 6; si_data := Known (Transports [sample_data (lit "c@x.org") 6] []) |};
   {| si_timestamp := 7; si_data := Unknown (lit "2") |}].

Lemma received_items_not_answered_witness :
  (execute_sync_items (λ _ _, ret tt) (λ _ _, ret tt) (λ _, ret tt) 8 sample_items 6 two_relays).1
  = Ok tt
  ∧ multi_device_sync (execute_sync_items (λ _ _, ret tt) (λ _ _, ret tt) (λ _, ret tt) 8
                         sample_items 6 two_relays).2 = [].
Proof. apply (received_items_not_answered _ _ _ 8 sample_items 6 two_relays). reflexivity. Defined.

(** A withdrawn invitation deletes newer tokens of the same key as well: the time of the withdrawal
    is only compared for the authentication code, since AND binds stronger than OR. *)
Theorem withdrawal_deletes_newer_tokens :
  let a := upd_tokens (λ _,
    [{| tk_namespc := Namespace.InviteNumber; tk_foreign_key := []; tk_token := lit "inv";
        tk_timestamp := 9 |};
     {| tk_namespc := Namespace.Auth; tk_foreign_key := []; tk_token := lit "auth";
        tk_timestamp := 9 |}]) empty_account in
  tokens (delete_qr_token {| qt_invitenumber := lit "inv"; qt_auth := lit "auth";
                             qt_grpid := None |} 5 a).2 = []
  ∧ tokens (delete_qr_token {| qt_invitenumber := lit "other"; qt_auth := lit "auth";
                               qt_grpid := None |} 5 a).2 = tokens a.
Proof. vm_compute. done. Qed.
End Witnesses.
