(* ===== verification/ChatDb.v ===== *)
(** ChatDb: the account with its chats and messages: 1:1 chats and groups and how they are
    created, unblocked and shown, info messages, handing a message over to be sent, adding a
    member (src/src/chat.rs), and the contact behind a chat (src/src/contact.rs). *)
From stdpp Require Import sorting.
From S2P Require Import Prelude Monad Ids Params Membership ContactTools Headers MsgTable.
From S2P Require Import Db Contacts Recipients LoginParam Config Sync.

(** ** State *)

(** [struct Message], for messages that are to be sent: the fields set by the code below. *)
Record Message := {
  msg_viewtype : Viewtype;
  msg_text : str;
  msg_hidden : bool;
  msg_param : Params
}.

Module MessengerMessage.
(** [enum MessengerMessage]: whether a message is of a messenger, or a reply to one. *)
Inductive MessengerMessage : Set := No | Yes | Reply.
End MessengerMessage.

Abbreviation MessengerMessage := MessengerMessage.MessengerMessage.

#[export] Instance MessengerMessage_eq_dec : EqDecision MessengerMessage.
Proof. solve_decision. Defined.

(** A row of [smtp]; the recipients are separated by spaces. *)
Record smtp_row := {
  sm_rfc724_mid : str;
  sm_recipients : str;
  sm_mime : str;
  sm_msg_id : N
}.

(** The account: the tables of [Db] and [Config], and beside them the columns and tables only
    the code below uses.  A column kept as a map has its default (0, or [Blocked::Not]) where
    the map has no entry; the [*_seq] are the last identifiers [AUTOINCREMENT] gave.  [sent] is
    the trace of the messages handed to [prepare_send_msg], oldest first; [tape] is how many
    random identifiers were drawn; [contact_param] and [msgrmsg] are columns of the contacts and of
    the messages. *)
Record Core := {
  db : Context;
  account : Account;
  contact_blocked : gset N;
  verifier : gmap N N;
  chat_blocked : gmap N Blocked.Blocked;
  chat_seq : N;
  gossiped_timestamp : gmap N Z;
  gossip_timestamp : gmap (N * str) Z;
  ephemeral_timer : gmap N Z;
  public_keys : gmap str (list N);
  msgs : msg_table;
  msg_seq : N;
  msg_txt : gmap N str;
  smtp_rows : gmap N smtp_row;
  smtp_seq : N;
  bobstate : list (N * str);
  bobstate_seq : N;
  sent : list (N * Message);
  tape : nat;
  contact_param : gmap N str;
  msgrmsg : gmap N MessengerMessage.MessengerMessage
}.

Definition upd_db (f : Context -> Context) (s : Core) : Core :=
  {| db := f (db s); account := account s; contact_blocked := contact_blocked s; verifier :=
     verifier s; chat_blocked := chat_blocked s; chat_seq := chat_seq s; gossiped_timestamp :=
     gossiped_timestamp s; gossip_timestamp := gossip_timestamp s; ephemeral_timer :=
     ephemeral_timer s; public_keys := public_keys s; msgs := msgs s; msg_seq := msg_seq s;
     msg_txt := msg_txt s; smtp_rows := smtp_rows s; smtp_seq := smtp_seq s; bobstate := bobstate
     s; bobstate_seq := bobstate_seq s; sent := sent s; tape := tape s;
     contact_param := contact_param s; msgrmsg := msgrmsg s |}.

Definition upd_account (f : Account -> Account) (s : Core) : Core :=
  {| db := db s; account := f (account s); contact_blocked := contact_blocked s; verifier :=
     verifier s; chat_blocked := chat_blocked s; chat_seq := chat_seq s; gossiped_timestamp :=
     gossiped_timestamp s; gossip_timestamp := gossip_timestamp s; ephemeral_timer :=
     ephemeral_timer s; public_keys := public_keys s; msgs := msgs s; msg_seq := msg_seq s;
     msg_txt := msg_txt s; smtp_rows := smtp_rows s; smtp_seq := smtp_seq s; bobstate := bobstate
     s; bobstate_seq := bobstate_seq s; sent := sent s; tape := tape s;
     contact_param := contact_param s; msgrmsg := msgrmsg s |}.

Definition upd_contact_blocked (f : gset N -> gset N) (s : Core) : Core :=
  {| db := db s; account := account s; contact_blocked := f (contact_blocked s); verifier :=
     verifier s; chat_blocked := chat_blocked s; chat_seq := chat_seq s; gossiped_timestamp :=
     gossiped_timestamp s; gossip_timestamp := gossip_timestamp s; ephemeral_timer :=
     ephemeral_timer s; public_keys := public_keys s; msgs := msgs s; msg_seq := msg_seq s;
     msg_txt := msg_txt s; smtp_rows := smtp_rows s; smtp_seq := smtp_seq s; bobstate := bobstate
     s; bobstate_seq := bobstate_seq s; sent := sent s; tape := tape s;
     contact_param := contact_param s; msgrmsg := msgrmsg s |}.

Definition upd_verifier (f : gmap N N -> gmap N N) (s : Core) : Core :=
  {| db := db s; account := account s; contact_blocked := contact_blocked s; verifier := f
     (verifier s); chat_blocked := chat_blocked s; chat_seq := chat_seq s; gossiped_timestamp :=
     gossiped_timestamp s; gossip_timestamp := gossip_timestamp s; ephemeral_timer :=
     ephemeral_timer s; public_keys := public_keys s; msgs := msgs s; msg_seq := msg_seq s;
     msg_txt := msg_txt s; smtp_rows := smtp_rows s; smtp_seq := smtp_seq s; bobstate := bobstate
     s; bobstate_seq := bobstate_seq s; sent := sent s; tape := tape s;
     contact_param := contact_param s; msgrmsg := msgrmsg s |}.

Definition upd_chat_blocked (f : gmap N Blocked.Blocked -> gmap N Blocked.Blocked) (s : Core) : Core :=
  {| db := db s; account := account s; contact_blocked := contact_blocked s; verifier := verifier
     s; chat_blocked := f (chat_blocked s); chat_seq := chat_seq s; gossiped_timestamp :=
     gossiped_timestamp s; gossip_timestamp := gossip_timestamp s; ephemeral_timer :=
     ephemeral_timer s; public_keys := public_keys s; msgs := msgs s; msg_seq := msg_seq s;
     msg_txt := msg_txt s; smtp_rows := smtp_rows s; smtp_seq := smtp_seq s; bobstate := bobstate
     s; bobstate_seq := bobstate_seq s; sent := sent s; tape := tape s;
     contact_param := contact_param s; msgrmsg := msgrmsg s |}.

Definition upd_chat_seq (f : N -> N) (s : Core) : Core :=
  {| db := db s; account := account s; contact_blocked := contact_blocked s; verifier := verifier
     s; chat_blocked := chat_blocked s; chat_seq := f (chat_seq s); gossiped_timestamp :=
     gossiped_timestamp s; gossip_timestamp := gossip_timestamp s; ephemeral_timer :=
     ephemeral_timer s; public_keys := public_keys s; msgs := msgs s; msg_seq := msg_seq s;
     msg_txt := msg_txt s; smtp_rows := smtp_rows s; smtp_seq := smtp_seq s; bobstate := bobstate
     s; bobstate_seq := bobstate_seq s; sent := sent s; tape := tape s;
     contact_param := contact_param s; msgrmsg := msgrmsg s |}.

Definition upd_gossiped_timestamp (f : gmap N Z -> gmap N Z) (s : Core) : Core :=
  {| db := db s; account := account s; contact_blocked := contact_blocked s; verifier := verifier
     s; chat_blocked := chat_blocked s; chat_seq := chat_seq s; gossiped_timestamp := f
     (gossiped_timestamp s); gossip_timestamp := gossip_timestamp s; ephemeral_timer :=
     ephemeral_timer s; public_keys := public_keys s; msgs := msgs s; msg_seq := msg_seq s;
     msg_txt := msg_txt s; smtp_rows := smtp_rows s; smtp_seq := smtp_seq s; bobstate := bobstate
     s; bobstate_seq := bobstate_seq s; sent := sent s; tape := tape s;
     contact_param := contact_param s; msgrmsg := msgrmsg s |}.

Definition upd_gossip_timestamp (f : gmap (N * str) Z -> gmap (N * str) Z) (s : Core) : Core :=
  {| db := db s; account := account s; contact_blocked := contact_blocked s; verifier := verifier
     s; chat_blocked := chat_blocked s; chat_seq := chat_seq s; gossiped_timestamp :=
     gossiped_timestamp s; gossip_timestamp := f (gossip_timestamp s); ephemeral_timer :=
     ephemeral_timer s; public_keys := public_keys s; msgs := msgs s; msg_seq := msg_seq s;
     msg_txt := msg_txt s; smtp_rows := smtp_rows s; smtp_seq := smtp_seq s; bobstate := bobstate
     s; bobstate_seq := bobstate_seq s; sent := sent s; tape := tape s;
     contact_param := contact_param s; msgrmsg := msgrmsg s |}.

Definition upd_ephemeral_timer (f : gmap N Z -> gmap N Z) (s : Core) : Core :=
  {| db := db s; account := account s; contact_blocked := contact_blocked s; verifier := verifier
     s; chat_blocked := chat_blocked s; chat_seq := chat_seq s; gossiped_timestamp :=
     gossiped_timestamp s; gossip_timestamp := gossip_timestamp s; ephemeral_timer := f
     (ephemeral_timer s); public_keys := public_keys s; msgs := msgs s; msg_seq := msg_seq s;
     msg_txt := msg_txt s; smtp_rows := smtp_rows s; smtp_seq := smtp_seq s; bobstate := bobstate
     s; bobstate_seq := bobstate_seq s; sent := sent s; tape := tape s;
     contact_param := contact_param s; msgrmsg := msgrmsg s |}.

Definition upd_public_keys (f : gmap str (list N) -> gmap str (list N)) (s : Core) : Core :=
  {| db := db s; account := account s; contact_blocked := contact_blocked s; verifier := verifier
     s; chat_blocked := chat_blocked s; chat_seq := chat_seq s; gossiped_timestamp :=
     gossiped_timestamp s; gossip_timestamp := gossip_timestamp s; ephemeral_timer :=
     ephemeral_timer s; public_keys := f (public_keys s); msgs := msgs s; msg_seq := msg_seq s;
     msg_txt := msg_txt s; smtp_rows := smtp_rows s; smtp_seq := smtp_seq s; bobstate := bobstate
     s; bobstate_seq := bobstate_seq s; sent := sent s; tape := tape s;
     contact_param := contact_param s; msgrmsg := msgrmsg s |}.

Definition upd_msgs (f : msg_table -> msg_table) (s : Core) : Core :=
  {| db := db s; account := account s; contact_blocked := contact_blocked s; verifier := verifier
     s; chat_blocked := chat_blocked s; chat_seq := chat_seq s; gossiped_timestamp :=
     gossiped_timestamp s; gossip_timestamp := gossip_timestamp s; ephemeral_timer :=
     ephemeral_timer s; public_keys := public_keys s; msgs := f (msgs s); msg_seq := msg_seq s;
     msg_txt := msg_txt s; smtp_rows := smtp_rows s; smtp_seq := smtp_seq s; bobstate := bobstate
     s; bobstate_seq := bobstate_seq s; sent := sent s; tape := tape s;
     contact_param := contact_param s; msgrmsg := msgrmsg s |}.

Definition upd_msg_seq (f : N -> N) (s : Core) : Core :=
  {| db := db s; account := account s; contact_blocked := contact_blocked s; verifier := verifier
     s; chat_blocked := chat_blocked s; chat_seq := chat_seq s; gossiped_timestamp :=
     gossiped_timestamp s; gossip_timestamp := gossip_timestamp s; ephemeral_timer :=
     ephemeral_timer s; public_keys := public_keys s; msgs := msgs s; msg_seq := f (msg_seq s);
     msg_txt := msg_txt s; smtp_rows := smtp_rows s; smtp_seq := smtp_seq s; bobstate := bobstate
     s; bobstate_seq := bobstate_seq s; sent := sent s; tape := tape s;
     contact_param := contact_param s; msgrmsg := msgrmsg s |}.

Definition upd_msg_txt (f : gmap N str -> gmap N str) (s : Core) : Core :=
  {| db := db s; account := account s; contact_blocked := contact_blocked s; verifier := verifier
     s; chat_blocked := chat_blocked s; chat_seq := chat_seq s; gossiped_timestamp :=
     gossiped_timestamp s; gossip_timestamp := gossip_timestamp s; ephemeral_timer :=
     ephemeral_timer s; public_keys := public_keys s; msgs := msgs s; msg_seq := msg_seq s;
     msg_txt := f (msg_txt s); smtp_rows := smtp_rows s; smtp_seq := smtp_seq s; bobstate :=
     bobstate s; bobstate_seq := bobstate_seq s; sent := sent s; tape := tape s;
     contact_param := contact_param s; msgrmsg := msgrmsg s |}.

Definition upd_smtp_rows (f : gmap N smtp_row -> gmap N smtp_row) (s : Core) : Core :=
  {| db := db s; account := account s; contact_blocked := contact_blocked s; verifier := verifier
     s; chat_blocked := chat_blocked s; chat_seq := chat_seq s; gossiped_timestamp :=
     gossiped_timestamp s; gossip_timestamp := gossip_timestamp s; ephemeral_timer :=
     ephemeral_timer s; public_keys := public_keys s; msgs := msgs s; msg_seq := msg_seq s;
     msg_txt := msg_txt s; smtp_rows := f (smtp_rows s); smtp_seq := smtp_seq s; bobstate :=
     bobstate s; bobstate_seq := bobstate_seq s; sent := sent s; tape := tape s;
     contact_param := contact_param s; msgrmsg := msgrmsg s |}.

Definition upd_smtp_seq (f : N -> N) (s : Core) : Core :=
  {| db := db s; account := account s; contact_blocked := contact_blocked s; verifier := verifier
     s; chat_blocked := chat_blocked s; chat_seq := chat_seq s; gossiped_timestamp :=
     gossiped_timestamp s; gossip_timestamp := gossip_timestamp s; ephemeral_timer :=
     ephemeral_timer s; public_keys := public_keys s; msgs := msgs s; msg_seq := msg_seq s;
     msg_txt := msg_txt s; smtp_rows := smtp_rows s; smtp_seq := f (smtp_seq s); bobstate :=
     bobstate s; bobstate_seq := bobstate_seq s; sent := sent s; tape := tape s;
     contact_param := contact_param s; msgrmsg := msgrmsg s |}.

Definition upd_bobstate (f : list (N * str) -> list (N * str)) (s : Core) : Core :=
  {| db := db s; account := account s; contact_blocked := contact_blocked s; verifier := verifier
     s; chat_blocked := chat_blocked s; chat_seq := chat_seq s; gossiped_timestamp :=
     gossiped_timestamp s; gossip_timestamp := gossip_timestamp s; ephemeral_timer :=
     ephemeral_timer s; public_keys := public_keys s; msgs := msgs s; msg_seq := msg_seq s;
     msg_txt := msg_txt s; smtp_rows := smtp_rows s; smtp_seq := smtp_seq s; bobstate := f
     (bobstate s); bobstate_seq := bobstate_seq s; sent := sent s; tape := tape s;
     contact_param := contact_param s; msgrmsg := msgrmsg s |}.

Definition upd_bobstate_seq (f : N -> N) (s : Core) : Core :=
  {| db := db s; account := account s; contact_blocked := contact_blocked s; verifier := verifier
     s; chat_blocked := chat_blocked s; chat_seq := chat_seq s; gossiped_timestamp :=
     gossiped_timestamp s; gossip_timestamp := gossip_timestamp s; ephemeral_timer :=
     ephemeral_timer s; public_keys := public_keys s; msgs := msgs s; msg_seq := msg_seq s;
     msg_txt := msg_txt s; smtp_rows := smtp_rows s; smtp_seq := smtp_seq s; bobstate := bobstate
     s; bobstate_seq := f (bobstate_seq s); sent := sent s; tape := tape s;
     contact_param := contact_param s; msgrmsg := msgrmsg s |}.

Definition upd_sent (f : list (N * Message) -> list (N * Message)) (s : Core) : Core :=
  {| db := db s; account := account s; contact_blocked := contact_blocked s; verifier := verifier
     s; chat_blocked := chat_blocked s; chat_seq := chat_seq s; gossiped_timestamp :=
     gossiped_timestamp s; gossip_timestamp := gossip_timestamp s; ephemeral_timer :=
     ephemeral_timer s; public_keys := public_keys s; msgs := msgs s; msg_seq := msg_seq s;
     msg_txt := msg_txt s; smtp_rows := smtp_rows s; smtp_seq := smtp_seq s; bobstate := bobstate
     s; bobstate_seq := bobstate_seq s; sent := f (sent s); tape := tape s;
     contact_param := contact_param s; msgrmsg := msgrmsg s |}.

Definition upd_tape (f : nat -> nat) (s : Core) : Core :=
  {| db := db s; account := account s; contact_blocked := contact_blocked s; verifier := verifier
     s; chat_blocked := chat_blocked s; chat_seq := chat_seq s; gossiped_timestamp :=
     gossiped_timestamp s; gossip_timestamp := gossip_timestamp s; ephemeral_timer :=
     ephemeral_timer s; public_keys := public_keys s; msgs := msgs s; msg_seq := msg_seq s;
     msg_txt := msg_txt s; smtp_rows := smtp_rows s; smtp_seq := smtp_seq s; bobstate := bobstate
     s; bobstate_seq := bobstate_seq s; sent := sent s; tape := f (tape s);
     contact_param := contact_param s; msgrmsg := msgrmsg s |}.

Definition upd_contact_param (f : gmap N str -> gmap N str) (s : Core) : Core :=
  {| db := db s; account := account s; contact_blocked := contact_blocked s; verifier := verifier
     s; chat_blocked := chat_blocked s; chat_seq := chat_seq s; gossiped_timestamp :=
     gossiped_timestamp s; gossip_timestamp := gossip_timestamp s; ephemeral_timer :=
     ephemeral_timer s; public_keys := public_keys s; msgs := msgs s; msg_seq := msg_seq s;
     msg_txt := msg_txt s; smtp_rows := smtp_rows s; smtp_seq := smtp_seq s; bobstate := bobstate
     s; bobstate_seq := bobstate_seq s; sent := sent s; tape := tape s;
     contact_param := f (contact_param s); msgrmsg := msgrmsg s |}.

Definition upd_msgrmsg (f : gmap N MessengerMessage.MessengerMessage -> gmap N MessengerMessage.MessengerMessage) (s : Core) : Core :=
  {| db := db s; account := account s; contact_blocked := contact_blocked s; verifier := verifier
     s; chat_blocked := chat_blocked s; chat_seq := chat_seq s; gossiped_timestamp :=
     gossiped_timestamp s; gossip_timestamp := gossip_timestamp s; ephemeral_timer :=
     ephemeral_timer s; public_keys := public_keys s; msgs := msgs s; msg_seq := msg_seq s;
     msg_txt := msg_txt s; smtp_rows := smtp_rows s; smtp_seq := smtp_seq s; bobstate := bobstate
     s; bobstate_seq := bobstate_seq s; sent := sent s; tape := tape s;
     contact_param := contact_param s; msgrmsg := f (msgrmsg s) |}.

(** ** Operations *)

Inductive core_error :=
| DbError (e : Db.error)
| ConfigError (e : AccountError)
| InvalidContactId
| NoSuchContact (id : ContactId)
| NoSuchChat (id : ChatId)
| SpecialChat (id : ChatId)
| RowIdOutOfRange
| CannotSend
| NotAGroup
| WrongContactKind
| InvalidJsonColumn
| EmptyAddress
| MissingSecret
| InvalidAddress
| CannotBeVerified
| CannotParse
| SpecialMessage (id : MsgId)
| NoAddressContact
| EncryptedWithGroupId
| InvalidChannelName
| GrpidTaken
| NoMessageId
| SimulatedError
| BadQrCode
| UnsupportedQrCode
| SignupFailed
| CannotBlock
| SelfNotInGroup
| EmptyName
| CannotRename
| CannotDescribe
| CannotMute
| NotEncrypted
| IsEncrypted
| NotAChannel
| BadRequest
| NoSuchGroup
| SpecialContact (id : ContactId)
| NoLabelNorMessage
| EmptyLabel
| BadImage
| BrokenKey
| BrokenMail
| NoFrom
| ForgedFrom
| Unsigned
| TooManySignatures
| WrongSigner
| NoSecret
| UnsupportedStringToKey
| NotABroadcast
| CannotDecrypt
| NoFilename
| NoReport
| CannotRender
| NoListPost
| MissingMember
| NoKeyOfMember
| NoFile
| NoMetadata
| BadDate
| CannotEncrypt.

Abbreviation C := (SE Core core_error).

(** The operations on the contact and chat tables, and those on the settings, on the account. *)
Definition in_db {X} (x : M X) : C X :=
  λ s, match x (db s) with
       | (Ok v, d) => (Ok v, upd_db (λ _, d) s)
       | (Err e, d) => (Err (DbError e), upd_db (λ _, d) s)
       end.

Definition in_account {X} (x : A X) : C X :=
  λ s, match x (account s) with
       | (Ok v, a) => (Ok v, upd_account (λ _, a) s)
       | (Err e, a) => (Err (ConfigError e), upd_account (λ _, a) s)
       end.

Definition emit_core (e : EventType) : C unit := modify (upd_db (add_event e)).

(** [ensure!]. *)
Definition ensure_or (b : bool) (e : core_error) : C unit := if b then ret tt else fail e.

(** [Sql::transaction]: an error rolls the tables back. *)
Definition rollback {X} (x : C X) : C X :=
  λ s, match x s with
       | (Ok v, s') => (Ok v, s')
       | (Err e, _) => (Err e, s)
       end.

(** The conversion of a row identifier to [u32]. *)
Definition to_u32 (id : N) : C N := if (id <=? 4294967295)%N then ret id else fail RowIdOutOfRange.

(** The texts shown to the user ([stock_str.rs]), by the function that gives them. *)
Inductive stock :=
| self_msg
| device_messages
| device_messages_hint
| saved_messages
| archived_chats
| messages_e2ee_info_msg
| msg_add_member_local (contact_id by_contact : ContactId)
| secure_join_started (inviter : ContactId)
| secure_join_broadcast_started (inviter : ContactId)
| secure_join_replies (contact_id : ContactId)
| securejoin_wait
| BROADCAST_INCOMPATIBILITY_MSG
| self_deleted_msg_body
| new_group_send_first_message
| chat_unencrypted_explanation
| msg_grp_name (from_ to : str) (by_contact : ContactId)
| msg_broadcast_name_changed (from_ to : str)
| msg_chat_description_changed (by_contact : ContactId)
| msg_del_member_local (contact_id by_contact : ContactId)
| msg_group_left_local (by_contact : ContactId)
| msg_you_left_broadcast
| msg_broadcast_img_changed
| msg_grp_img_changed (by_contact : ContactId)
| msg_grp_img_deleted (by_contact : ContactId).

(** What the code takes from outside: the texts, the identifiers drawn at random, the addresses
    an OpenPGP key lists ([None] if the bytes are no key, [Some None] if the key lists none),
    and the fingerprint of the key generated on first use. *)
Class Outside := {
  stock_str : stock -> str;
  random_id : nat -> str;
  random_uuid : nat -> str;
  key_addresses : list N -> option (option (list str));
  generated_fingerprint : str
}.

Section ChatOps.
Context `{!Platform, !Outside, !Json SyncItem}.

(** [create_id]. *)
Definition create_id : C str :=
  id <- gets (λ s, random_id (tape s)) ;;
  modify (upd_tape S) ;;;
  ret id.

(** [create_outgoing_rfc724_mid]. *)
Definition create_outgoing_rfc724_mid : C str :=
  id <- gets (λ s, random_uuid (tape s)) ;;
  modify (upd_tape S) ;;;
  ret (id ++ lit "@localhost").

(** ** Contacts (contact.rs) *)

(** [struct Contact]. *)
Record Contact := {
  ct_id : ContactId;
  ct_name : str;
  ct_authname : str;
  ct_addr : str;
  ct_fingerprint : option str;
  ct_blocked : bool;
  ct_last_seen : Z;
  ct_origin : Origin.Origin
}.

Definition contact_of_row (s : Core) (r : contact_row) : Contact :=
  {| ct_id := c_id r; ct_name := c_name r; ct_authname := c_authname r; ct_addr := c_addr r;
     ct_fingerprint := if bool_decide (c_fingerprint r = []) then None else Some (c_fingerprint r);
     ct_blocked := bool_decide (c_id r ∈ contact_blocked s);
     ct_last_seen := c_last_seen r; ct_origin := c_origin r |}.

Definition row_of (id : ContactId) (s : Core) : option contact_row :=
  find_contact (λ r, (c_id r =? id)%N) (db s).

(** [Contact::get_by_id_optional]. *)
Definition get_by_id_optional (id : ContactId) : C (option Contact) :=
  row <- gets (λ s, contact_of_row s <$> row_of id s) ;;
  match row with
  | None => ret None
  | Some ct =>
      if (id =? SELF)%N then
        authname <- in_account (get_config Config.Displayname) ;;
        addr <- in_account (get_config Config.ConfiguredAddr) ;;
        self_fp <- gets (λ s, self_fingerprint_opt (db s)) ;;
        ret (Some {| ct_id := ct_id ct; ct_name := stock_str self_msg;
                     ct_authname := default [] authname; ct_addr := default [] addr;
                     ct_fingerprint := match self_fp with
                                       | Some fp => Some fp
                                       | None => ct_fingerprint ct
                                       end;
                     ct_blocked := ct_blocked ct; ct_last_seen := ct_last_seen ct;
                     ct_origin := ct_origin ct |})
      else if (id =? DEVICE)%N then
        ret (Some {| ct_id := ct_id ct; ct_name := stock_str device_messages;
                     ct_authname := ct_authname ct; ct_addr := lit "device@localhost";
                     ct_fingerprint := ct_fingerprint ct; ct_blocked := ct_blocked ct;
                     ct_last_seen := ct_last_seen ct; ct_origin := ct_origin ct |})
      else ret (Some ct)
  end.

(** [Contact::get_by_id]. *)
Definition get_by_id (id : ContactId) : C Contact :=
  ct <- get_by_id_optional id ;; ok_or ct (NoSuchContact id).

(** [Contact::get_display_name]. *)
Definition get_display_name (ct : Contact) : str :=
  if negb (bool_decide (ct_name ct = [])) then ct_name ct
  else if negb (bool_decide (ct_authname ct = [])) then ct_authname ct
  else ct_addr ct.

(** [Contact::is_key_contact]. *)
Definition contact_is_key (ct : Contact) : bool :=
  bool_decide (is_Some (ct_fingerprint ct)) || (ct_id ct =? SELF)%N.

(** [Contact::fingerprint]. *)
Definition contact_fingerprint (ct : Contact) : option Fingerprint :=
  ct_fingerprint ct ≫= Fingerprint_from_str str_to_uppercase.

(** [Contact::real_exists_by_id]. *)
Definition real_exists_by_id (id : ContactId) : C bool :=
  if contact_is_special id then ret false
  else gets (λ s, bool_decide (is_Some (row_of id s))).

(** [ContactId::regossip_keys]. *)
Definition regossip_keys (id : ContactId) : C unit :=
  modify (λ s, upd_gossiped_timestamp (λ g, map_imap (λ chat t,
    if Membership.is_contact_in_chat (members (db s)) chat id then None else Some t) g) s).

(** [Contact::lookup_id_by_addr_ex]: among the rows with the address, the one with most 1:1
    chats of that blocking state, then the one seen last, then the one with the greatest
    fingerprint. *)
Definition single_chats (blocked : Blocked.Blocked) (s : Core) (id : ContactId) : nat :=
  length (base.filter (λ chat,
    (DC_CHAT_ID_LAST_SPECIAL < chat)%N
    ∧ ch_type <$> chats (db s) !! chat = Some Chattype.Single
    ∧ default Blocked.Not (chat_blocked s !! chat) = blocked
    ∧ is_Some (members (db s) !! (chat, id))) (elements (dom (chats (db s))))).

Definition before (blocked : Blocked.Blocked) (s : Core) (r r' : contact_row) : bool :=
  let n := single_chats blocked s (c_id r) in
  let n' := single_chats blocked s (c_id r') in
  (n' <? n)%nat
  || ((n =? n')%nat
      && ((c_last_seen r' <? c_last_seen r)%Z
          || ((c_last_seen r =? c_last_seen r')%Z
              && str_ltb (c_fingerprint r') (c_fingerprint r)))).

Definition pick_first {X} (lt : X -> X -> bool) (l : list X) : option X :=
  foldl (λ best x, match best with
                   | None => Some x
                   | Some b => if lt x b then Some x else best
                   end) None l.

Definition has_blocked (b : Blocked.Blocked) (s : Core) (id : ContactId) : bool :=
  match b with
  | Blocked.Not => bool_decide (id ∉ contact_blocked s)
  | Blocked.Yes => bool_decide (id ∈ contact_blocked s)
  | Blocked.Request => false
  end.

Definition lookup_id_by_addr_ex (addr : str) (min_origin : Origin.Origin)
  (blocked : option Blocked.Blocked) : C (option N) :=
  if bool_decide (addr = []) then fail EmptyAddress
  else
    configured <- in_db Contacts.is_configured ;;
    self_addr <- and_then configured (in_db (is_self_addr str_to_lowercase addr)) ;;
    if self_addr then ret (Some SELF)
    else gets (λ s,
      c_id <$> pick_first (before (default Blocked.Not blocked) s)
        (base.filter (λ r,
           eq_nocase (c_addr r) (addr_normalize str_to_lowercase addr)
           && (CONTACT_LAST_SPECIAL <? c_id r)%N && Origin.leb min_origin (c_origin r)
           && match blocked with None => true | Some b => has_blocked b s (c_id r) end = true)
           (contacts (db s)))).

(** [load_self_public_key], as its fingerprint. *)
Definition load_self_public_key : C str := in_db (self_fingerprint generated_fingerprint).

(** [Contact::public_key]: whether there is one. *)
Definition has_public_key (ct : Contact) : C bool :=
  if (ct_id ct =? SELF)%N then load_self_public_key ;;; ret true
  else
    match ct_fingerprint ct with
    | None => ret false
    | Some fp =>
        key <- gets (λ s, public_keys s !! fp) ;;
        match key with
        | None => ret false
        | Some bytes => ensure_or (bool_decide (is_Some (key_addresses bytes))) CannotParse ;;; ret true
        end
    end.

(** ** Messages (chat.rs, message.rs) *)

(** The identifier [AUTOINCREMENT] gives to the next row of a table. *)
Definition next_row_id {X} (seq : N) (t : gmap N X) : N :=
  (1 + foldr N.max seq (elements (dom t)))%N.

Definition insert_msg (row : msg_row) (txt : str) : C N :=
  id <- gets (λ s, next_row_id (msg_seq s) (msgs s)) ;;
  modify (λ s, upd_msg_seq (λ _, id) (upd_msg_txt (<[id := txt]>) (upd_msgs (<[id := row]>) s))) ;;;
  to_u32 id.

(** [message::insert_tombstone]. *)
Definition insert_tombstone (rfc724_mid : str) : C N :=
  insert_msg
    {| m_rfc724_mid := rfc724_mid; m_pre_rfc724_mid := []; m_chat_id := DC_CHAT_ID_TRASH;
       m_from_id := UNDEFINED; m_timestamp := 0; m_timestamp_rcvd := 0;
       m_type := Viewtype.Unknown; m_state := MessageState.Undefined; m_hidden := false;
       m_param := []; m_location_id := 0; m_error := []; m_ephemeral_timer := 0;
       m_ephemeral_timestamp := 0; m_download_state := DownloadState.Done;
       m_deleted := false |} [].

(** [ChatId::get_ephemeral_timer]. *)
Definition get_ephemeral_timer (id : ChatId) : C Z :=
  exists_ <- gets (λ s, bool_decide (is_Some (chats (db s) !! id))) ;;
  if negb exists_ then fail (NoSuchChat id)
  else gets (λ s, default 0%Z (ephemeral_timer s !! id)).

(** [SELECT MAX(timestamp) FROM msgs WHERE ..]. *)
Definition max_timestamp (p : msg_row -> bool) (s : Core) : option Z :=
  foldr (λ r acc, if p r then Some (match acc with
                                    | None => m_timestamp r
                                    | Some t => Z.max t (m_timestamp r)
                                    end)
                  else acc) None ((map_to_list (msgs s)).*2).

(** [ChatId::join_timestamp]. *)
Definition join_timestamp (id : ChatId) : C (option Z) :=
  gets (λ s, add_timestamp <$> members (db s) !! (id, SELF)).

(** [ChatId::calc_sort_timestamp]. *)
Definition calc_sort_timestamp (now : Z) (id : ChatId) (message_timestamp : Z)
  (always_sort_to_bottom : bool) : C Z :=
  let sort_timestamp := Z.min message_timestamp now in
  last_msg_time <- gets (λ s,
    if always_sort_to_bottom
    then max_timestamp (λ r, bool_decide (m_chat_id r = id)
                             && bool_decide (m_state r ≠ MessageState.OutDraft)) s
    else None) ;;
  let sort_timestamp :=
    match last_msg_time with
    | Some t => if (sort_timestamp <? t)%Z then t else sort_timestamp
    | None => sort_timestamp
    end in
  joined <- join_timestamp id ;;
  match joined with
  | Some t => ret (Z.max sort_timestamp t)
  | None => ret sort_timestamp
  end.

(** [add_info_msg_with_cmd]; the message it refers to only sets a column not modelled. *)
Definition add_info_msg_with_cmd (now : Z) (id : ChatId) (text : str)
  (cmd : SystemMessage.SystemMessage) (timestamp_sort : option Z) (timestamp_sent_rcvd : Z)
  (from_id added_removed_id : option N) : C N :=
  rfc724_mid <- create_outgoing_rfc724_mid ;;
  timer <- get_ephemeral_timer id ;;
  let param := if bool_decide (cmd = SystemMessage.Unknown) then Params_new
               else set_cmd Params_new cmd in
  let param := match added_removed_id with
               | Some c => Params_set param Param.ContactAddedRemoved (print_N c)
               | None => param
               end in
  timestamp_sort <- match timestamp_sort with
                    | Some ts => ret ts
                    | None => calc_sort_timestamp now id now true
                    end ;;
  msg_id <- insert_msg
    {| m_rfc724_mid := rfc724_mid; m_pre_rfc724_mid := []; m_chat_id := id;
       m_from_id := default INFO from_id; m_timestamp := timestamp_sort;
       m_timestamp_rcvd := timestamp_sent_rcvd; m_type := Viewtype.Text;
       m_state := MessageState.InNoticed; m_hidden := false; m_param := to_string param;
       m_location_id := 0; m_error := []; m_ephemeral_timer := timer;
       m_ephemeral_timestamp := 0; m_download_state := DownloadState.Done;
       m_deleted := false |} text ;;
  emit_core (MsgsChanged id msg_id) ;;;
  ret msg_id.

(** [add_info_msg]. *)
Definition add_info_msg (now : Z) (id : ChatId) (text : str) : C N :=
  add_info_msg_with_cmd now id text SystemMessage.Unknown None now None None.

(** [ChatId::add_e2ee_notice]. *)
Definition add_e2ee_notice (now : Z) (id : ChatId) (timestamp : Z) : C unit :=
  add_info_msg_with_cmd now id (stock_str messages_e2ee_info_msg) SystemMessage.ChatE2ee
    (Some 0%Z) timestamp None None ;;;
  ret tt.

(** [insert_into_smtp]; the queue of the settings has the identifiers of the same rows. *)
Definition insert_into_smtp (rfc724_mid recipients rendered_message : str) (msg_id : N) : C unit :=
  id <- gets (λ s, next_row_id (smtp_seq s) (smtp_rows s)) ;;
  modify (λ s,
    upd_smtp_seq (λ _, id) (upd_account (upd_smtp_queue (λ q, q ++ [id]))
      (upd_smtp_rows (<[id := {| sm_rfc724_mid := rfc724_mid; sm_recipients := recipients;
                                 sm_mime := rendered_message; sm_msg_id := msg_id |}]>) s))).
End ChatOps.

(** ** Chats (chat.rs) *)

(** What sending a message needs beside the checks below: from the quote check of
    [prepare_send_msg] on, the message is stored, rendered and queued ([queue_msg]: the rows of
    the queue, and the identifier of the message); the last messages of a channel are sent to a
    new subscriber ([resend_last_msgs]); a message is found that identifies a group without
    identifier ([get_parent_mime_headers]: its Message-ID and the one it replies to). *)
Class Sending := {
  queue_msg : Z -> Chat -> Message -> C (list N * N);
  resend_last_msgs : Z -> ChatId -> Contact -> C unit;
  get_parent_mime_headers : ChatId -> Core -> option (str * str)
}.

Section Chats.
Context `{!Platform, !Outside, !Json SyncItem, !Sending}.

Definition blocked_of (id : ChatId) (s : Core) : Blocked.Blocked :=
  default Blocked.Not (chat_blocked s !! id).

Definition row_ids {X} (t : gmap N X) : list N := merge_sort N.le (elements (dom t)).

(** [ChatIdBlocked::lookup_by_contact]. *)
Definition lookup_by_contact (contact_id : ContactId) : C (option (N * Blocked.Blocked)) :=
  ensure_or (negb (contact_id =? UNDEFINED)%N) InvalidContactId ;;;
  gets (λ s,
    (λ id, (id, blocked_of id s)) <$> head (base.filter (λ id,
      ch_type <$> chats (db s) !! id = Some Chattype.Single
      ∧ (DC_CHAT_ID_LAST_SPECIAL < id)%N
      ∧ is_Some (members (db s) !! (id, contact_id))) (row_ids (chats (db s))))).

(** [get_chat_id_by_grpid]. *)
Definition get_chat_id_by_grpid (grpid : str) : C (option (N * Blocked.Blocked)) :=
  gets (λ s,
    (λ id, (id, blocked_of id s)) <$> head (base.filter (λ id,
      ch_grpid <$> chats (db s) !! id = Some grpid) (row_ids (chats (db s))))).

(** [INSERT INTO chats ..]. *)
Definition insert_chat (row : chat_row) (blocked : Blocked.Blocked) : C N :=
  id <- gets (λ s, next_row_id (chat_seq s) (chats (db s))) ;;
  modify (λ s, upd_chat_seq (λ _, id) (upd_chat_blocked (<[id := blocked]>)
    (upd_db (set_chats (<[id := row]>)) s))) ;;;
  to_u32 id.

(** The contacts with a row for the chat, past members included. *)
Definition chat_rows (id : ChatId) (s : Core) : list N :=
  merge_sort N.le (omap (λ k, if (k.1 =? id)%N then Some k.2 else None)
                     (elements (dom (members (db s))))).

(** [Chat::is_self_talk], [Chat::is_device_talk], [Chat::is_unpromoted], [Chat::is_promoted]. *)
Definition is_self_talk (chat : Chat) : bool := Params_exists (chat_param chat) Param.Selftalk.
Definition is_device_talk (chat : Chat) : bool := Params_exists (chat_param chat) Param.Devicetalk.
Definition is_unpromoted (chat : Chat) : bool :=
  default false (get_bool (chat_param chat) Param.Unpromoted).
Definition is_promoted (chat : Chat) : bool := negb (is_unpromoted chat).

(** [Chat::is_encrypted]; the column of a 1:1 chat whose contact is gone cannot be read. *)
Definition is_encrypted (chat : Chat) : C bool :=
  if is_self_talk chat then ret true
  else
    match chat_typ chat with
    | Chattype.Single =>
        row <- gets (λ s, (λ id, (id, row_of id s)) <$> head (chat_rows (chat_id chat) s)) ;;
        match row with
        | None => ret true
        | Some (id, Some r) =>
            ret (negb (bool_decide (c_fingerprint r = [])) || (id =? DEVICE)%N)
        | Some (id, None) => fail (NoSuchContact id)
        end
    | Chattype.Group => ret (negb (bool_decide (chat_grpid chat = [])))
    | Chattype.Mailinglist => ret false
    | Chattype.OutBroadcast | Chattype.InBroadcast => ret true
    end.

(** [ChatIdBlocked::get_for_contact]. *)
Definition get_for_contact (now : Z) (contact_id : ContactId) (create_blocked : Blocked.Blocked)
  : C (N * Blocked.Blocked) :=
  ensure_or (negb (contact_id =? UNDEFINED)%N) InvalidContactId ;;;
  res <- lookup_by_contact contact_id ;;
  match res with
  | Some res => ret res
  | None =>
      contact <- get_by_id contact_id ;;
      let params := if (contact_id =? SELF)%N then set_int Params_new Param.Selftalk 1
                    else if (contact_id =? DEVICE)%N then set_int Params_new Param.Devicetalk 1
                    else Params_new in
      let row := {| ch_type := Chattype.Single; ch_name := get_display_name contact;
                    ch_grpid := []; ch_param := to_string params; ch_created_timestamp := now |} in
      chat_id <- rollback (insert_chat row create_blocked) ;;
      modify (upd_db (set_members (<[(chat_id, contact_id) :=
        {| add_timestamp := 0; remove_timestamp := 0 |}]>))) ;;;
      chat <- in_db (load_from_db chat_id) ;;
      encrypted <- is_encrypted chat ;;
      when (encrypted && negb (is_device_talk chat) && negb (is_self_talk chat))
        (add_e2ee_notice now chat_id now) ;;;
      ret (chat_id, create_blocked)
  end.

(** [ChatId::set_blocked]. *)
Definition set_chat_blocked (id : ChatId) (new_blocked : Blocked.Blocked) : C bool :=
  if chat_is_special id then fail (SpecialChat id)
  else
    changed <- gets (λ s, bool_decide (is_Some (chats (db s) !! id))
                          && negb (bool_decide (blocked_of id s = new_blocked))) ;;
    when changed (modify (upd_chat_blocked (<[id := new_blocked]>))) ;;;
    ret changed.

(** The events of a chat that came into view. *)
Definition announce_chat (id : ChatId) : C N :=
  emit_core (MsgsChanged 0 0) ;;; emit_core ChatlistChanged ;;; emit_core (ChatlistItemChanged id) ;;;
  ret id.

(** [ChatId::create_for_contact_with_blocked] and [ChatId::create_for_contact]. *)
Definition create_for_contact_with_blocked (now : Z) (contact_id : ContactId)
  (create_blocked : Blocked.Blocked) : C N :=
  res <- lookup_by_contact contact_id ;;
  match res with
  | Some (id, blocked) =>
      if bool_decide (create_blocked ≠ Blocked.Not) || bool_decide (blocked = Blocked.Not)
      then ret id
      else set_chat_blocked id Blocked.Not ;;; announce_chat id
  | None =>
      real <- real_exists_by_id contact_id ;;
      if real || (contact_id =? SELF)%N then
        res <- get_for_contact now contact_id create_blocked ;;
        when (bool_decide (create_blocked ≠ Blocked.Yes))
          (in_db (scaleup_origin [contact_id] Origin.CreateChat)) ;;;
        announce_chat res.1
      else fail (NoSuchContact contact_id)
  end.

Definition create_for_contact (now : Z) (contact_id : ContactId) : C N :=
  create_for_contact_with_blocked now contact_id Blocked.Not.

(** [ChatId::create_multiuser_record]. *)
Definition create_multiuser_record (now : Z) (chattype : Chattype.Chattype) (grpid grpname : str)
  (create_blocked : Blocked.Blocked) (param : option str) (timestamp : Z) : C N :=
  let timestamp := Z.min timestamp now in
  chat_id <- insert_chat {| ch_type := chattype; ch_name := sanitize_single_line grpname;
                            ch_grpid := grpid; ch_param := default [] param;
                            ch_created_timestamp := timestamp |} create_blocked ;;
  chat <- in_db (load_from_db chat_id) ;;
  encrypted <- is_encrypted chat ;;
  when encrypted (add_e2ee_notice now chat_id timestamp) ;;;
  ret chat_id.

(** [Chat::get_sync_id]: the loop over the members of a 1:1 chat. *)
Fixpoint single_sync_id (chat : Chat) (r : option SyncId) (ids : list N) : C (option SyncId) :=
  match ids with
  | [] => ret r
  | id :: ids' =>
      if (id =? SELF)%N && negb (is_self_talk chat) then single_sync_id chat r ids'
      else
        match r with
        | Some _ => ret None
        | None =>
            contact <- get_by_id id ;;
            single_sync_id chat
              (Some (match contact_fingerprint contact with
                     | Some fp => ContactFingerprint (hex fp)
                     | None => ContactAddr (ct_addr contact)
                     end)) ids'
        end
  end.

Definition get_sync_id (chat : Chat) : C (option SyncId) :=
  match chat_typ chat with
  | Chattype.Single =>
      if is_device_talk chat then ret (Some Device)
      else
        ids <- in_db (chat_contacts (chat_id chat)) ;;
        single_sync_id chat None ids
  | _ =>
      if negb (bool_decide (chat_grpid chat = [])) then ret (Some (Grpid (chat_grpid chat)))
      else gets (λ s, (λ p, Msgids [p.2; p.1]) <$> get_parent_mime_headers (chat_id chat) s)
  end.

(** [Chat::sync]. *)
Definition sync_chat (now : Z) (chat : Chat) (action : SyncAction) : C unit :=
  id <- get_sync_id chat ;;
  match id with
  | Some id => in_account (add_sync_item now (AlterChat id action))
  | None => ret tt
  end.

(** [ChatId::unblock_ex]. *)
Definition unblock_ex (now : Z) (sync : bool) (id : ChatId) : C unit :=
  set_chat_blocked id Blocked.Not ;;;
  emit_core ChatlistChanged ;;;
  when sync (
    chat <- in_db (load_from_db id) ;;
    _ <- ignore_err (sync_chat now chat Unblock) ;;
    ret tt).

(** [Chat::sync_contacts]. *)
Definition sync_contacts (now : Z) (chat : Chat) : C unit :=
  encrypted <- is_encrypted chat ;;
  if encrypted then
    self_fp <- in_db (self_fingerprint generated_fingerprint) ;;
    fingerprint_addrs <- gets (λ s,
      (λ r, if (c_id r =? SELF)%N then (self_fp, []) else (c_fingerprint r, c_addr r))
        <$> base.filter (λ r, Membership.is_contact_in_chat (members (db s)) (chat_id chat) (c_id r)
                              = true) (contacts (db s))) ;;
    sync_chat now chat (SetPgpContacts fingerprint_addrs)
  else
    addrs <- gets (λ s,
      c_addr <$> base.filter (λ r, Membership.is_contact_in_chat (members (db s)) (chat_id chat)
                                     (c_id r) = true) (contacts (db s))) ;;
    sync_chat now chat (SetContacts addrs).

(** ** Sending (chat.rs) *)

Inductive CantSendReason :=
| SpecialChatReason | DeviceChat | ContactRequest | ReadOnlyMailingList | InBroadcastReason
| NotAMember | MissingKey.

(** The key of the contact of a 1:1 chat is missing. *)
Definition misses_key (chat : Chat) : C bool :=
  ids <- in_db (chat_contacts (chat_id chat)) ;;
  match ids with
  | [] => ret false
  | id :: _ =>
      contact <- get_by_id id ;;
      if contact_is_key contact then has <- has_public_key contact ;; ret (negb has)
      else ret false
  end.

(** [Chat::why_cant_send_ex]. *)
Definition why_cant_send_ex (chat : Chat) (skip_fn : CantSendReason -> bool)
  : C (option CantSendReason) :=
  request <- gets (λ s, bool_decide (blocked_of (chat_id chat) s = Blocked.Request)) ;;
  if chat_is_special (chat_id chat) && negb (skip_fn SpecialChatReason)
  then ret (Some SpecialChatReason)
  else if is_device_talk chat && negb (skip_fn DeviceChat) then ret (Some DeviceChat)
  else if request && negb (skip_fn ContactRequest) then ret (Some ContactRequest)
  else if bool_decide (chat_typ chat = Chattype.Mailinglist)
          && bool_decide (default [] (Params_get (chat_param chat) Param.ListPost) = [])
          && negb (skip_fn ReadOnlyMailingList) then ret (Some ReadOnlyMailingList)
  else if bool_decide (chat_typ chat = Chattype.InBroadcast) && negb (skip_fn InBroadcastReason)
  then ret (Some InBroadcastReason)
  else
    self_missing <- and_then (negb (skip_fn NotAMember))
                      (in_chat <- in_db (is_self_in_chat chat) ;; ret (negb in_chat)) ;;
    if self_missing then ret (Some NotAMember)
    else
      key_missing <- and_then (negb (skip_fn MissingKey)
                               && bool_decide (chat_typ chat = Chattype.Single))
                       (misses_key chat) ;;
      ret (if key_missing then Some MissingKey else None).

(** The reasons [prepare_send_msg] skips for a message. *)
Definition skip_reason (p : Params) (reason : CantSendReason) : bool :=
  match reason with
  | ContactRequest => bool_decide (get_cmd p = SystemMessage.SecurejoinMessage)
  | NotAMember => bool_decide (get_cmd p = SystemMessage.MemberRemovedFromGroup)
  | InBroadcastReason =>
      bool_decide (get_cmd p ∈ [SystemMessage.MemberRemovedFromGroup;
                                SystemMessage.SecurejoinMessage])
  | MissingKey => default false (get_bool p Param.ForcePlaintext)
  | _ => false
  end.

(** [prepare_send_msg]: the checks, then the message is queued. *)
Definition prepare_send_msg (now : Z) (id : ChatId) (msg : Message) : C (list N * N) :=
  modify (upd_sent (λ l, l ++ [(id, msg)])) ;;;
  chat <- in_db (load_from_db id) ;;
  reason <- why_cant_send_ex chat (skip_reason (msg_param msg)) ;;
  match reason with
  | Some _ => fail CannotSend
  | None => queue_msg now chat msg
  end.

(** [send_msg], for a new message without location. *)
Definition send_msg (now : Z) (id : ChatId) (msg : Message) : C N :=
  ensure_or (negb (chat_is_special id)) (SpecialChat id) ;;;
  let msg := if bool_decide (get_cmd (msg_param msg) = SystemMessage.Unknown) then msg
             else {| msg_viewtype := msg_viewtype msg;
                     msg_text := sanitize_bidi_characters (msg_text msg);
                     msg_hidden := msg_hidden msg; msg_param := msg_param msg |} in
  res <- prepare_send_msg now id msg ;;
  when (negb (bool_decide (res.1 = [])) && negb (msg_hidden msg))
    (emit_core (MsgsChanged id res.2)) ;;;
  ret res.2.

(** ** Adding a member (chat.rs) *)

(** [ChatId::reset_gossiped_timestamp]. *)
Definition reset_gossiped_timestamp (id : ChatId) : C unit :=
  modify (upd_gossip_timestamp (base.filter (λ kv, kv.1.1 ≠ id))).

Definition load_broadcast_secret (id : ChatId) : C (option str) :=
  gets (λ s, broadcast_secrets (db s) !! id).

(** [as i32] of a [u32]. *)
Definition u32_as_i32 (n : N) : Z :=
  if (n <? 2147483648)%N then Z.of_N n else (Z.of_N n - 4294967296)%Z.

(** The message about a new member. *)
Definition member_added_msg (contact : Contact) (chat : Chat) (from_handshake : bool)
  (secret : option str) : Message :=
  let added_by := if from_handshake && bool_decide (chat_typ chat = Chattype.OutBroadcast)
                  then UNDEFINED else SELF in
  let p := set_cmd Params_new SystemMessage.MemberAddedToGroup in
  let p := Params_set p Param.Arg (str_to_lowercase (ct_addr contact)) in
  let p := set_int p Param.Arg2 (if from_handshake then 1 else 0) in
  let p := Params_set_optional p Param.Arg4 (hex <$> contact_fingerprint contact) in
  let p := set_int p Param.ContactAddedRemoved (u32_as_i32 (ct_id contact)) in
  {| msg_viewtype := Viewtype.Text;
     msg_text := stock_str (msg_add_member_local (ct_id contact) added_by);
     msg_hidden := false;
     msg_param := match secret with
                  | Some secret => Params_set p Param.Arg3 secret
                  | None => p
                  end |}.

(** The first message or handshake promotes a group. *)
Definition promote (now : Z) (chat : Chat) : C Chat :=
  if bool_decide (get_int (chat_param chat) Param.Unpromoted = Some 1%Z) then
    let p := Params_remove (chat_param chat) Param.Unpromoted in
    let p := set_i64 p Param.GroupNameTimestamp now in
    let p := set_i64 p Param.GroupDescriptionTimestamp now in
    in_db (update_param (with_param chat p)) ;;;
    ret (with_param chat p)
  else ret chat.

(** [add_contact_to_chat_ex]. *)
Definition add_contact_to_chat_ex (now : Z) (sync : bool) (id : ChatId) (contact_id : ContactId)
  (from_handshake : bool) : C bool :=
  ensure_or (negb (chat_is_special id)) (SpecialChat id) ;;;
  contact <- get_by_id contact_id ;;
  reset_gossiped_timestamp id ;;;
  chat <- in_db (load_from_db id) ;;
  ensure_or (bool_decide (chat_typ chat = Chattype.Group)
             || (from_handshake && bool_decide (chat_typ chat = Chattype.OutBroadcast)))
    NotAGroup ;;;
  real <- real_exists_by_id contact_id ;;
  ensure_or (real || (contact_id =? SELF)%N) InvalidContactId ;;;
  ensure_or (negb (bool_decide (chat_typ chat = Chattype.OutBroadcast))
             || negb (contact_id =? SELF)%N) InvalidContactId ;;;
  encrypted <- is_encrypted chat ;;
  ensure_or (Bool.eqb encrypted (contact_is_key contact)) WrongContactKind ;;;
  self_in_chat <- in_db (is_self_in_chat chat) ;;
  if negb self_in_chat then emit_core ErrorSelfNotInGroup ;;; ret false
  else
    chat <- (if from_handshake then promote now chat else ret chat) ;;
    self_addr <- in_db (is_self_addr str_to_lowercase (ct_addr contact)) ;;
    if self_addr then ret false
    else
      in_chat <- in_db (contact_in_chat id contact_id) ;;
      if in_chat && negb from_handshake then ret true
      else
        when (negb in_chat)
          (modify (upd_db (set_members (add_to_chat_contacts_table now id [contact_id])))) ;;;
        (if is_promoted chat then
           secret <- (if bool_decide (chat_typ chat = Chattype.OutBroadcast) then
                        secret <- load_broadcast_secret id ;;
                        secret <- ok_or secret MissingSecret ;;
                        ret (Some secret)
                      else ret None) ;;
           send_msg now id (member_added_msg contact chat from_handshake secret) ;;;
           ret tt
         else ret tt) ;;;
        emit_core (ChatModified id) ;;;
        when (sync && negb (is_promoted chat))
          (_ <- ignore_err (sync_contacts now chat) ;; ret tt) ;;;
        when (bool_decide (chat_typ chat = Chattype.OutBroadcast))
          (_ <- ignore_err (resend_last_msgs now id contact) ;; ret tt) ;;;
        ret true.

(** [add_contact_to_chat]. *)
Definition add_contact_to_chat (now : Z) (id : ChatId) (contact_id : ContactId) : C unit :=
  add_contact_to_chat_ex now true id contact_id false ;;; ret tt.
End Chats.

(** An info message cannot be added to a chat that does not exist: its timer is asked for
    first. *)
Lemma info_msg_needs_chat `{!Outside} now id text cmd sort rcvd from added s :
  chats (db s) !! id = None →
  (add_info_msg_with_cmd now id text cmd sort rcvd from added s).1 = Err (NoSuchChat id).
Proof.
  intros Hid. unfold add_info_msg_with_cmd, create_outgoing_rfc724_mid, get_ephemeral_timer.
  run_se. simpl. by rewrite Hid.
Qed.

(** The identifier of a new row is not in use. *)
Lemma next_row_id_fresh {X} seq (t : gmap N X) : t !! next_row_id seq t = None.
Proof.
  apply not_elem_of_dom. intros Hin. apply elem_of_elements in Hin.
  assert (∀ x l, x ∈ l → (x <= foldr N.max seq l)%N) as Hle.
  { intros x l. induction l as [|y l IH]; intros Hx; [by apply not_elem_of_nil in Hx|]. simpl.
    apply elem_of_cons in Hx as [->|Hx]; [lia|]. specialize (IH Hx). lia. }
  apply Hle in Hin. unfold next_row_id in Hin. lia.
Qed.
