(* ===== verification/Verification.v ===== *)
(** Verification: which contacts are verified, and by whom (src/src/contact.rs,
    src/src/receive_imf.rs), and how long the chains of introductions are (src/src/stats.rs). *)
From stdpp Require Import sorting.
From S2P Require Import Prelude Monad Ids Params Membership ContactTools Headers Db Contacts.
From S2P Require Import Recipients MsgTable LoginParam Config Sync ChatDb.

(** The column [verifier]: 0 for a contact that is not verified, its own identifier for a
    contact verified by somebody unknown. *)
Definition verifier_of (s : Core) (id : ContactId) : N := default UNDEFINED (verifier s !! id).

(** The [UPDATE] of [mark_contact_id_as_verified]. *)
Definition update_verifier (contact_id verifier_id : N) (by_self : bool) (m : gmap N N)
  : gmap N N :=
  let old := default UNDEFINED (m !! contact_id) in
  if (old =? UNDEFINED)%N || (old =? contact_id)%N || by_self
  then <[contact_id := verifier_id]> m else m.

(** [mark_contact_id_as_verified]. *)
Definition mark_contact_id_as_verified (contact_id : ContactId) (verifier_id : option N)
  : C unit :=
  ensure_or (negb (contact_id =? SELF)%N) CannotBeVerified ;;;
  ensure_or (negb (bool_decide (Some contact_id = verifier_id))) CannotBeVerified ;;;
  let by_self := bool_decide (verifier_id = Some SELF) in
  let verifier_id := default contact_id verifier_id in
  contact <- gets (row_of contact_id) ;;
  contact <- ok_or contact (NoSuchContact contact_id) ;;
  ensure_or (negb (bool_decide (c_fingerprint contact = []))) CannotBeVerified ;;;
  verifier_id <- (if (verifier_id =? SELF)%N then ret verifier_id
                  else
                    row <- gets (row_of verifier_id) ;;
                    row <- ok_or row (NoSuchContact verifier_id) ;;
                    ensure_or (negb (bool_decide (c_fingerprint row = []))) CannotBeVerified ;;;
                    verifier_verifier <- gets (λ s, verifier_of s verifier_id) ;;
                    ensure_or ((verifier_id =? contact_id)%N
                               || negb (verifier_verifier =? UNDEFINED)%N) CannotBeVerified ;;;
                    ret (if (verifier_verifier =? verifier_id)%N then contact_id
                         else verifier_id)) ;;
  modify (upd_verifier (update_verifier contact_id verifier_id by_self)).

(** [Contact::get_verifier_id]: [None] if the contact is not verified, [Some None] if it is
    unclear by whom. *)
Definition get_verifier_id (id : ContactId) : C (option (option N)) :=
  row <- gets (row_of id) ;;
  ok_or row (NoSuchContact id) ;;;
  v <- gets (λ s, verifier_of s id) ;;
  ret (if (v =? UNDEFINED)%N then None else if (v =? id)%N then Some None else Some (Some v)).

(** [Contact::is_verified]. *)
Definition is_verified (id : ContactId) : C bool :=
  if (id =? SELF)%N then ret true
  else v <- get_verifier_id id ;; ret (bool_decide (is_Some v)).

(** ** Received messages (receive_imf.rs) *)

Section Received.
Context `{!Platform, !Outside}.

(** [enum VerifiedEncryption], without the reason, which is logged. *)
Inductive VerifiedEncryption := Verified | NotVerified.

(** [has_verified_encryption]. *)
Definition has_verified_encryption (mime : MimeMessage) (from_id : ContactId)
  : C VerifiedEncryption :=
  if negb (was_encrypted mime) then ret NotVerified
  else if (from_id =? SELF)%N then ret Verified
  else
    from_contact <- get_by_id from_id ;;
    match contact_fingerprint from_contact with
    | None => ret NotVerified
    | Some fingerprint =>
        v <- get_verifier_id from_id ;;
        match v with
        | None => ret NotVerified
        | Some _ =>
            ret (if bool_decide (signature mime = Some (hex fingerprint)) then Verified
                 else NotVerified)
        end
    end.

(** The values of a [BTreeMap], in the order of the keys. *)
Definition key_le (x y : str * str) : Prop := str_ltb y.1 x.1 = false.

#[export] Instance key_le_dec x y : Decision (key_le x y).
Proof. unfold key_le. apply _. Defined.

Definition btree_entries (m : gmap str str) : list (str * str) :=
  merge_sort key_le (map_to_list m).

(** [mark_recipients_as_verified]; [gossip_verified] are the addresses whose gossiped key has
    the attribute [_verified]. *)
Definition mark_recipients_as_verified (from_id : ContactId) (mime : MimeMessage)
  (gossip_verified : gset str) : C unit :=
  let verifier_id := if (from_id =? SELF)%N then None else Some from_id in
  let chat_verified := bool_decide (is_Some (get_header mime HeaderDef.ChatVerified)) in
  for_each (base.filter (λ kv, kv.1 ∈ gossip_verified ∨ chat_verified = true)
              (btree_entries (gossiped_keys mime)))
    (λ kv,
       to_id <- in_db (lookup_key_contact_by_fingerprint kv.2) ;;
       match to_id with
       | None => ret tt
       | Some to_id =>
           if (to_id =? SELF)%N || (to_id =? from_id)%N then ret tt
           else mark_contact_id_as_verified to_id verifier_id
       end).
End Received.

(** ** Chains of introductions (stats.rs) *)

(** The loop of [get_contact_stats] that counts the introductions between the user and a
    contact; [None] if the chain breaks off. *)
Fixpoint transitive_chain (verified_by : N -> option N) (fuel : nat) (chain current : N)
  : option N :=
  match fuel with
  | O => Some chain
  | S fuel =>
      if (current =? SELF)%N || negb (chain <? 100)%N then Some chain
      else
        match verified_by current with
        | None => None
        | Some id => transitive_chain verified_by fuel (chain + 1) id
        end
  end.

Definition count_chain (verified_by : N -> option N) (contact_id : N) : option N :=
  match transitive_chain verified_by 101 0 contact_id with
  | Some n => if (0 <? n)%N then Some n else None
  | None => None
  end.

(** ** Lemmas: chains end *)

(** Following the verifiers leads to the user, or to a contact verified by somebody unknown. *)
Inductive introduced (f : N -> N) : N -> Prop :=
| by_user a : f a = SELF → introduced f a
| by_unknown a : f a = a → introduced f a
| by_contact a : introduced f (f a) → introduced f a.

(** A contact who introduced another one was introduced by a known contact itself, and every
    chain ends. *)
Record chains_wf (f : N -> N) : Prop := {
  verifiers_known a : f a ≠ UNDEFINED → f a ≠ SELF → f a ≠ a →
    f (f a) ≠ UNDEFINED ∧ f (f a) ≠ f a;
  chains_end a : f a ≠ UNDEFINED → introduced f a
}.

Definition set_verifier (f : N -> N) (c v : N) : N -> N := λ a, if decide (a = c) then v else f a.

(** What [mark_contact_id_as_verified] may store. *)
Definition may_introduce (f : N -> N) (c v : N) : Prop :=
  v = SELF ∨ ((f c = UNDEFINED ∨ f c = c) ∧ (v = c ∨ (f v ≠ UNDEFINED ∧ f v ≠ v))).

Section Chains.
Context (f : N -> N) (c v : N).
Hypothesis Hwf : chains_wf f.
Hypothesis Hc : c ≠ SELF.
Hypothesis Hmay : may_introduce f c v.

Lemma set_verifier_eq : set_verifier f c v c = v.
Proof. unfold set_verifier. by destruct (decide (c = c)). Qed.

Lemma set_verifier_ne a : a ≠ c → set_verifier f c v a = f a.
Proof. unfold set_verifier. intros. by destruct (decide (a = c)). Qed.

(** Nobody was introduced by a contact whose verifier is missing or unknown. *)
Lemma introduces_nobody a :
  f c = UNDEFINED ∨ f c = c → f a ≠ UNDEFINED → f a = c → a = c.
Proof.
  intros Hc' Ha Hac. destruct (decide (a = c)) as [|Hne]; [done|].
  destruct (verifiers_known f Hwf a) as [H1 H2]; [done|congruence|congruence|].
  rewrite Hac in H1, H2. naive_solver.
Qed.

Lemma introduced_kept a :
  f a ≠ UNDEFINED → a ≠ c → introduced f a → introduced (set_verifier f c v) a.
Proof.
  intros Ha Hac H. induction H as [a H|a H|a H IH].
  - apply by_user. by rewrite set_verifier_ne.
  - apply by_unknown. by rewrite set_verifier_ne.
  - destruct (decide (f a = SELF)); [apply by_user; by rewrite set_verifier_ne|].
    destruct (decide (f a = a)); [apply by_unknown; by rewrite set_verifier_ne|].
    apply by_contact. rewrite set_verifier_ne by done.
    destruct (decide (f a = c)) as [E|].
    + destruct Hmay as [Hv|[Hc' _]]; [rewrite E; apply by_user; by rewrite set_verifier_eq|].
      by destruct Hac; apply introduces_nobody.
    + apply IH; [|done]. by apply (verifiers_known f Hwf).
Qed.

Lemma set_verifier_wf : chains_wf (set_verifier f c v).
Proof.
  split.
  - intros a. destruct (decide (a = c)) as [->|Hne].
    + rewrite set_verifier_eq. intros Hv0 Hv1 Hvc.
      destruct Hmay as [|[_ [|Hv]]]; [done..|]. by rewrite set_verifier_ne.
    + rewrite set_verifier_ne by done. intros H0 H1 Ha.
      destruct (decide (f a = c)) as [E|].
      * destruct Hmay as [Hv|[Hc' _]]; [|by destruct Hne; apply introduces_nobody].
        rewrite E, set_verifier_eq, Hv. split; [done|congruence].
      * rewrite set_verifier_ne by done. by apply (verifiers_known f Hwf).
  - intros a. destruct (decide (a = c)) as [->|Hne].
    + rewrite set_verifier_eq. intros Hv0.
      destruct Hmay as [Hv|[_ [Hv|[Hv1 Hv2]]]];
        [apply by_user; by rewrite set_verifier_eq|apply by_unknown; by rewrite set_verifier_eq|].
      destruct (decide (v = c)); [apply by_unknown; by rewrite set_verifier_eq|].
      apply by_contact. rewrite set_verifier_eq. apply introduced_kept; [done..|].
      by apply (chains_end f Hwf).
    + rewrite set_verifier_ne by done. intros Ha. apply introduced_kept; [done..|].
      by apply (chains_end f Hwf).
Qed.
End Chains.

(** A chain that ends has a last contact after finitely many steps. *)
Lemma introduced_steps f a :
  introduced f a → ∃ n, Nat.iter (S n) f a = SELF ∨ f (Nat.iter n f a) = Nat.iter n f a.
Proof.
  assert (Hit : ∀ n x, Nat.iter n f (f x) = f (Nat.iter n f x)).
  { intros n x. induction n; simpl; congruence. }
  induction 1 as [a H|a H|a _ [n IH]].
  - exists 0. by left.
  - exists 0. by right.
  - exists (S n). destruct IH as [IH|IH]; simpl in *; rewrite ?Hit in IH; [by left|by right].
Qed.

Lemma chains_wf_ext f g : (∀ a, f a = g a) → chains_wf f → chains_wf g.
Proof.
  intros Hfg [H1 H2]. split.
  - intros a. rewrite <-!Hfg. apply H1.
  - intros a. rewrite <-Hfg. intros Ha. specialize (H2 a Ha). clear Ha.
    induction H2 as [a H|a H|a H IH].
    + apply by_user. by rewrite <-Hfg.
    + apply by_unknown. by rewrite <-Hfg.
    + apply by_contact. by rewrite <-Hfg.
Qed.

(** ** Lemmas: marking contacts *)

Definition verification_wf (s : Core) : Prop := chains_wf (verifier_of s).

Lemma update_verifier_spec m c v by_self a :
  default UNDEFINED (update_verifier c v by_self m !! a) =
    (if decide (default UNDEFINED (m !! c) = UNDEFINED ∨ default UNDEFINED (m !! c) = c
                ∨ by_self = true)
     then set_verifier (λ a, default UNDEFINED (m !! a)) c v a
     else default UNDEFINED (m !! a)).
Proof.
  unfold update_verifier, set_verifier.
  destruct ((default UNDEFINED (m !! c) =? UNDEFINED)%N
            || (default UNDEFINED (m !! c) =? c)%N || by_self) eqn:E.
  - rewrite decide_True.
    + destruct (decide (a = c)) as [->|]; [by rewrite lookup_insert_eq|by rewrite lookup_insert_ne].
    + rewrite !orb_true_iff, !N.eqb_eq in E. tauto.
  - rewrite decide_False; [done|].
    rewrite !orb_false_iff, !N.eqb_neq in E. intros [|[|]]; try tauto. destruct E; congruence.
Qed.

Lemma preserves_mark_verified c v : preserves verification_wf (mark_contact_id_as_verified c v).
Proof.
  intros s Hs. unfold mark_contact_id_as_verified, ensure_or.
  destruct (c =? SELF)%N eqn:Hself; [done|]. apply N.eqb_neq in Hself.
  case_bool_decide as Hne; [done|]. run_se. cbn [negb].
  destruct (row_of c s) as [row|] eqn:Hrow; [|done].
  case_bool_decide as Hfp; [done|]. run_se.
  assert (Hgo : ∀ w b, w = SELF ∨ (b = false ∧ (w = c ∨ (verifier_of s w ≠ UNDEFINED ∧ verifier_of s w ≠ w))) →
     verification_wf (upd_verifier (update_verifier c w b) s)).
  { intros w b Hw. eapply chains_wf_ext; [intros a; symmetry; apply update_verifier_spec|].
    case_decide as Hd.
    - eapply chains_wf_ext; [|apply (set_verifier_wf (verifier_of s) c w Hs Hself)].
      + intros a. done.
      + unfold may_introduce, verifier_of. destruct Hw as [|[-> Hw]]; [by left|].
        right. split; [|done]. destruct Hd as [|[|]]; [by left|by right|done].
    - done. }
  destruct v as [v|]; simpl.
  - destruct (v =? SELF)%N eqn:Hv.
    + apply N.eqb_eq in Hv as ->. apply Hgo. by left.
    + destruct (row_of v s) as [vrow|]; [|done]. case_bool_decide; [done|]. run_se. cbn [negb].
      apply N.eqb_neq in Hv. assert (v ≠ c) by congruence.
      rewrite (proj2 (N.eqb_neq v c)) by done. cbn [orb].
      destruct (verifier_of s v =? UNDEFINED)%N eqn:E0; [done|]. cbn [negb].
      apply N.eqb_neq in E0. rewrite bool_decide_eq_false_2 by congruence. apply Hgo.
      destruct (verifier_of s v =? v)%N eqn:E1; [right; split; [done|by left]|].
      apply N.eqb_neq in E1. right. split; [done|]. by right.
  - rewrite (proj2 (N.eqb_neq c SELF)) by done. rewrite Hrow.
    rewrite bool_decide_eq_false_2 by done. run_se. cbn [negb]. rewrite N.eqb_refl. cbn [orb].
    apply Hgo. right. split; [done|]. left. by destruct (_ =? _)%N.
Qed.

(** A chain that leads to the user within a hundred steps is counted right. *)
Lemma transitive_chain_spec (f : N -> option N) ids fuel chain a :
  (∀ i x, (a :: ids) !! i = Some x → f x = (ids ++ [SELF]) !! i ∧ x ≠ SELF) →
  (length ids < fuel)%nat → (chain + N.of_nat (length ids) < 100)%N →
  transitive_chain f (S fuel) chain a = Some (chain + N.of_nat (length ids) + 1)%N.
Proof.
  revert fuel chain a. induction ids as [|b ids IH]; intros fuel chain a H Hf Hc.
  - destruct (H 0 a eq_refl) as [Hfa Ha]. cbn [length] in *.
    destruct fuel as [|fuel]; [lia|]. cbn [transitive_chain].
    rewrite (proj2 (N.eqb_neq a SELF) Ha), (proj2 (N.ltb_lt chain 100)) by lia. cbn [orb negb].
    rewrite Hfa. simpl. f_equal. lia.
  - destruct (H 0 a eq_refl) as [Hfa Ha]. cbn [length] in *. destruct fuel as [|fuel]; [lia|].
    cbn [transitive_chain].
    rewrite (proj2 (N.eqb_neq a SELF) Ha), (proj2 (N.ltb_lt chain 100)) by lia. cbn [orb negb].
    rewrite Hfa. simpl. change (transitive_chain f (S fuel) (chain + 1) b = Some (chain + N.of_nat (S (length ids)) + 1)%N).
    rewrite IH; [f_equal; lia| |lia|lia]. intros i x Hi. apply (H (S i) x Hi).
Qed.

(** A contact verified by somebody unknown is its own verifier: the loop does not see that the
    chain ends there and counts to its limit. *)
Example unknown_verifier_counts_to_limit :
  count_chain (λ id, if (id =? 10)%N then Some 10%N else None) 10 = Some 100%N.
Proof. reflexivity. Qed.
