(* ===== verification/SecureJoin.v ===== *)
(** SecureJoin: the protocol by which a scanned invitation makes two users verified contacts or
    adds one to a group or channel of the other (src/src/securejoin.rs,
    src/src/securejoin/bob.rs, src/src/securejoin/qrinvite.rs). *)
From stdpp Require Import sorting.
From S2P Require Import Prelude Monad Ids Params Membership ContactTools Headers MsgTable Db.
From S2P Require Import Contacts Recipients LoginParam Config Sync ChatDb Verification.

(** ** Invitations (qrinvite.rs) *)

(** The fields the three variants of [QrInvite] share. *)
Record inviter := {
  i_contact_id : ContactId;
  i_fingerprint : Fingerprint;
  i_addrs : list str;
  i_invitenumber : str;
  i_authcode : str;
  i_is_v3 : bool
}.

(** [enum QrInvite]. *)
Module QrInvite.
Inductive QrInvite :=
| Contact (i : inviter)
| Group (i : inviter) (name grpid : str)
| Broadcast (i : inviter) (name grpid : str).

Definition inviter_of (q : QrInvite) : inviter :=
  match q with Contact i => i | Group i _ _ => i | Broadcast i _ _ => i end.

(** [QrInvite::contact_id], [fingerprint], [invitenumber], [authcode], [is_v3], [addrs]. *)
Definition contact_id (q : QrInvite) : ContactId := i_contact_id (inviter_of q).
Definition fingerprint (q : QrInvite) : Fingerprint := i_fingerprint (inviter_of q).
Definition invitenumber (q : QrInvite) : str := i_invitenumber (inviter_of q).
Definition authcode (q : QrInvite) : str := i_authcode (inviter_of q).
Definition is_v3 (q : QrInvite) : bool := i_is_v3 (inviter_of q).
Definition addrs (q : QrInvite) : list str := i_addrs (inviter_of q).
End QrInvite.
Abbreviation QrInvite := QrInvite.QrInvite.

(** ** Messages (securejoin.rs) *)

(** The view of a received handshake message: the parsed message, the address of the sender, and
    the fingerprint of the key in its [Autocrypt] header. *)
Record Received := {
  mime : MimeMessage;
  from_addr : str;
  autocrypt_fingerprint : option str
}.

(** [enum SecureJoinStep]. *)
Inductive SecureJoinStep :=
| Request (invitenumber : str)
| AuthRequired
| RequestPubkey
| Pubkey
| RequestWithAuth
| ContactConfirm
| MemberAdded
| Deprecated
| UnknownStep (step : str).

#[export] Instance SecureJoinStep_eq_dec : EqDecision SecureJoinStep.
Proof. solve_decision. Defined.

Definition is_lit (s : str) (x : string) : bool := bool_decide (s = lit x).

(** [get_secure_join_step]. *)
Definition get_secure_join_step (m : MimeMessage) : option SecureJoinStep :=
  match get_header m HeaderDef.SecureJoinInvitenumber with
  | Some invitenumber => Some (Request invitenumber)
  | None =>
      match get_header m HeaderDef.SecureJoin with
      | None => None
      | Some step =>
          Some (if is_lit step "vc-request-pubkey" then RequestPubkey
                else if is_lit step "vc-pubkey" then Pubkey
                else if is_lit step "vg-auth-required" || is_lit step "vc-auth-required"
                then AuthRequired
                else if is_lit step "vg-request-with-auth" || is_lit step "vc-request-with-auth"
                then RequestWithAuth
                else if is_lit step "vc-contact-confirm" then ContactConfirm
                else if is_lit step "vg-member-added" then MemberAdded
                else if is_lit step "vg-member-added-received"
                        || is_lit step "vc-contact-confirm-received" then Deprecated
                else UnknownStep step)
      end
  end.

(** [enum HandshakeMessage]. *)
Inductive HandshakeMessage := Done | Ignore | Propagate.

#[export] Instance HandshakeMessage_eq_dec : EqDecision HandshakeMessage.
Proof. solve_decision. Defined.

(** [encrypted_and_signed]. *)
Definition encrypted_and_signed (m : MimeMessage) (expected : Fingerprint) : bool :=
  match signature m with
  | Some signature => bool_decide (signature = hex expected)
  | None => false
  end.

(** What the rendering of messages provides: a message encrypted symmetrically with a shared
    secret ([mimefactory::render_symm_encrypted_securejoin_message]), from its step, Message-ID,
    whether the own key is attached, the code of the invitation and the secret. *)
Class Rendering := {
  render_symm_encrypted : str -> str -> bool -> str -> str -> Core -> option str
}.

Definition VERIFICATION_TIMEOUT_SECONDS : Z := (7 * 24 * 3600)%Z.

(** [inviter_progress]. *)
Definition inviter_progress (contact_id : ContactId) (chat_id : ChatId)
  (chat_type : Chattype.Chattype) : C unit :=
  emit_core (SecurejoinInviterProgress contact_id chat_id chat_type 1000).

(** [JoinerProgress::into_u16]. *)
Definition RequestWithAuthSent : N := 400.
Definition Succeeded : N := 1000.

(** [shorten_name]. *)
Definition shorten_name (name : str) (length_ : nat) : str :=
  if (length_ <? length name)%nat then take (length_ - 1) name ++ lit "_" else name.

Section Protocol.
Context `{!Platform, !Outside, !Sending, !Rendering, !Json SyncItem, !Json QrInvite}.

(** [verify_sender_by_fingerprint]. *)
Definition verify_sender_by_fingerprint (fingerprint : Fingerprint) (contact_id : ContactId)
  : C bool :=
  contact <- get_by_id_optional contact_id ;;
  match contact with
  | None => ret false
  | Some contact =>
      let is_verified := bool_decide (contact_fingerprint contact = Some fingerprint) in
      when is_verified (mark_contact_id_as_verified contact_id (Some SELF)) ;;;
      ret is_verified
  end.

(** A handshake message, hidden from the user. *)
Definition handshake_msg (step : str) (p : Params) : Message :=
  {| msg_viewtype := Viewtype.Text; msg_text := lit "Secure-Join: " ++ step; msg_hidden := true;
     msg_param := p |}.

Definition handshake_param (step : str) : Params :=
  Params_set (set_cmd Params_new SystemMessage.SecurejoinMessage) Param.Arg step.

(** ** Bob, who joins (bob.rs) *)

(** [enum BobHandshakeMsg] and [BobHandshakeMsg::securejoin_header]. *)
Inductive BobHandshakeMsg := BobRequest | BobRequestWithAuth.

Definition securejoin_header (step : BobHandshakeMsg) (invite : QrInvite) : str :=
  match step, invite with
  | BobRequest, QrInvite.Contact _ => lit "vc-request"
  | BobRequest, _ => lit "vg-request"
  | BobRequestWithAuth, QrInvite.Contact _ => lit "vc-request-with-auth"
  | BobRequestWithAuth, _ => lit "vg-request-with-auth"
  end.

(** The parameters of the message [send_handshake_message] sends. *)
Definition request_param (invite : QrInvite) : Params :=
  set_int (Params_set (handshake_param (securejoin_header BobRequest invite)) Param.Arg2
             (QrInvite.invitenumber invite)) Param.ForcePlaintext 1.

Definition request_with_auth_param (invite : QrInvite) (bob_fp : str) : Params :=
  let p := handshake_param (securejoin_header BobRequestWithAuth invite) in
  let p := Params_set p Param.Arg2 (QrInvite.authcode invite) in
  let p := set_int p Param.GuaranteeE2ee 1 in
  let p := Params_set p Param.Arg3 bob_fp in
  match invite with
  | QrInvite.Group _ _ grpid => Params_set p Param.Arg4 grpid
  | _ => p
  end.

Definition securejoin_secret (fp auth : str) : str :=
  lit "securejoin/" ++ fp ++ lit "/" ++ auth.

(** [send_handshake_message]. *)
Definition send_handshake_message (now : Z) (invite : QrInvite) (id : ChatId)
  (step : BobHandshakeMsg) : C unit :=
  match QrInvite.is_v3 invite, step with
  | true, BobRequest =>
      rfc724_mid <- create_outgoing_rfc724_mid ;;
      let auth := QrInvite.authcode invite in
      rendered <- gets (render_symm_encrypted (lit "vc-request-pubkey") rfc724_mid false auth
                          (securejoin_secret (hex (QrInvite.fingerprint invite)) auth)) ;;
      rendered <- ok_or rendered CannotSend ;;
      msg_id <- insert_tombstone rfc724_mid ;;
      insert_into_smtp rfc724_mid (join [SP] (QrInvite.addrs invite)) rendered msg_id
  | _, BobRequest =>
      send_msg now id (handshake_msg (securejoin_header step invite) (request_param invite)) ;;;
      ret tt
  | _, BobRequestWithAuth =>
      bob_fp <- in_db (self_fingerprint generated_fingerprint) ;;
      send_msg now id (handshake_msg (securejoin_header step invite)
                         (request_with_auth_param invite bob_fp)) ;;;
      ret tt
  end.

(** [private_chat_id]. *)
Definition private_chat_id (now : Z) (invite : QrInvite) : C N :=
  create_for_contact_with_blocked now (QrInvite.contact_id invite)
    (match invite with QrInvite.Contact _ => Blocked.Not | _ => Blocked.Yes end).

(** [joining_chat_id]. *)
Definition joining_chat_id (now : Z) (invite : QrInvite) (alice_chat_id : ChatId) : C N :=
  let joined grpid name chattype :=
    (chat <- get_chat_id_by_grpid grpid ;;
     match chat with
     | Some (id, _) => unblock_ex now false id ;;; ret id
     | None => create_multiuser_record now chattype grpid name Blocked.Not None now
     end) in
  match invite with
  | QrInvite.Contact _ => ret alice_chat_id
  | QrInvite.Group _ name grpid => joined grpid name Chattype.Group
  | QrInvite.Broadcast _ name grpid => joined grpid name Chattype.InBroadcast
  end.

(** [insert_new_db_entry]. *)
Definition insert_new_db_entry (invite : QrInvite) : C N :=
  id <- gets (λ s, (1 + foldr N.max (bobstate_seq s) (fst <$> bobstate s))%N) ;;
  modify (λ s, upd_bobstate_seq (λ _, id) (upd_bobstate (λ l, l ++ [(id, to_json invite)]) s)) ;;;
  ret id.

(** The key of the inviter is known and lists all addresses of the invitation. *)
Definition key_contains_all_invite_addrs (invite : QrInvite) : C bool :=
  key <- gets (λ s, public_keys s !! hex (QrInvite.fingerprint invite)) ;;
  match key with
  | None => ret false
  | Some bytes =>
      addrs_in_key <- ok_or (key_addresses bytes) CannotParse ;;
      ret (match addrs_in_key with
           | Some l => forallb (λ a, bool_decide (a ∈ l)) (QrInvite.addrs invite)
           | None => false
           end)
  end.

(** The group or channel of the invitation, if the user is in it. *)
Definition already_joined (invite : QrInvite) : C (option N) :=
  match invite with
  | QrInvite.Contact _ => ret None
  | QrInvite.Group _ _ grpid | QrInvite.Broadcast _ _ grpid =>
      chat <- get_chat_id_by_grpid grpid ;;
      match chat with
      | None => ret None
      | Some (id, _) =>
          in_chat <- in_db (contact_in_chat id SELF) ;;
          ret (if in_chat then Some id else None)
      end
  end.

(** The last part of [start_protocol]: what the user sees. *)
Definition show_joining (now : Z) (invite : QrInvite) (private_id : ChatId) (key_known : bool)
  : C N :=
  let alice := QrInvite.contact_id invite in
  match invite with
  | QrInvite.Group _ _ _ =>
      id <- joining_chat_id now invite private_id ;;
      add_info_msg now id (stock_str (secure_join_started alice)) ;;;
      ret id
  | QrInvite.Broadcast _ _ _ =>
      id <- joining_chat_id now invite private_id ;;
      has_alice <- in_db (contact_in_chat id alice) ;;
      when (negb has_alice)
        (modify (upd_db (set_members (add_to_chat_contacts_table now id [alice])))) ;;;
      has_self <- in_db (contact_in_chat id SELF) ;;
      when (negb has_self)
        (add_info_msg now id (stock_str (secure_join_broadcast_started alice)) ;;; ret tt) ;;;
      ret id
  | QrInvite.Contact _ =>
      when (negb key_known)
        (add_info_msg_with_cmd now private_id (stock_str securejoin_wait)
           SystemMessage.SecurejoinWait None now None None ;;; ret tt) ;;;
      ret private_id
  end.

(** [start_protocol]. *)
Definition start_protocol (now : Z) (invite : QrInvite) : C N :=
  let alice := QrInvite.contact_id invite in
  private_id <- private_chat_id now invite ;;
  match invite with
  | QrInvite.Broadcast _ _ _ => ret tt
  | _ => in_db (scaleup_origin [alice] Origin.SecurejoinJoined) ;;;
         emit_core AllContactsChanged
  end ;;;
  key_known <- key_contains_all_invite_addrs invite ;;
  joined <- already_joined invite ;;
  match joined with
  | Some id => emit_core (SecurejoinJoinerProgress alice Succeeded) ;;; ret id
  | None =>
      shortcut <- and_then key_known
                    (verify_sender_by_fingerprint (QrInvite.fingerprint invite) alice) ;;
      (if shortcut then
         send_handshake_message now invite private_id BobRequestWithAuth ;;;
         emit_core (SecurejoinJoinerProgress alice RequestWithAuthSent)
       else
         send_handshake_message now invite private_id BobRequest ;;;
         insert_new_db_entry invite ;;; ret tt) ;;;
      show_joining now invite private_id key_known
  end.

(** The newest message shown in a chat. *)
Definition newest_msg (id : ChatId) (s : Core) : option (N * Params) :=
  let shown r := bool_decide (m_chat_id r = id) && negb (m_hidden r) in
  match max_timestamp shown s with
  | None => None
  | Some t =>
      head (omap (λ k, match msgs s !! k with
                       | Some r => if shown r && (m_timestamp r =? t)%Z
                                   then Some (k, load_params (m_param r)) else None
                       | None => None
                       end) (row_ids (msgs s)))
  end.

(** [delete_securejoin_wait_msg]. *)
Definition delete_securejoin_wait_msg (id : ChatId) : C unit :=
  newest <- gets (newest_msg id) ;;
  match newest with
  | Some (msg_id, param) =>
      if bool_decide (get_cmd param = SystemMessage.SecurejoinWait) then
        modify (upd_msgs (trash msg_id false)) ;;;
        emit_core (MsgDeleted id msg_id) ;;; emit_core (MsgsChanged id 0) ;;;
        emit_core (ChatlistItemChanged id) ;;; emit_core (MsgsChanged 0 0) ;;;
        emit_core ChatlistChanged
      else ret tt
  | None => ret tt
  end.

(** One round of the loop of [handle_auth_required_or_pubkey]: whether the code was sent. *)
Definition answer_bobstate (now : Z) (m : MimeMessage) (row_id : N) (invite : QrInvite) : C bool :=
  if negb (encrypted_and_signed m (QrInvite.fingerprint invite)) then ret false
  else
    verified <- verify_sender_by_fingerprint (QrInvite.fingerprint invite)
                  (QrInvite.contact_id invite) ;;
    if negb verified then ret false
    else
      chat_id <- private_chat_id now invite ;;
      _ <- ignore_err (delete_securejoin_wait_msg chat_id) ;;
      send_handshake_message now invite chat_id BobRequestWithAuth ;;;
      modify (upd_bobstate (base.filter (λ r, r.1 ≠ row_id))) ;;;
      match invite with
      | QrInvite.Contact _ | QrInvite.Broadcast _ _ _ => ret tt
      | QrInvite.Group _ _ _ =>
          chat_id <- joining_chat_id now invite chat_id ;;
          add_info_msg now chat_id (stock_str (secure_join_replies (QrInvite.contact_id invite))) ;;;
          ret tt
      end ;;;
      emit_core (SecurejoinJoinerProgress (QrInvite.contact_id invite) RequestWithAuthSent) ;;;
      ret true.

Fixpoint answer_bobstates (now : Z) (m : MimeMessage) (auth_sent : bool)
  (rows : list (N * QrInvite)) : C bool :=
  match rows with
  | [] => ret auth_sent
  | (row_id, invite) :: rows' =>
      sent_now <- answer_bobstate now m row_id invite ;;
      answer_bobstates now m (auth_sent || sent_now) rows'
  end.

(** [handle_auth_required_or_pubkey]. *)
Definition parse_bobstate (r : N * str) : option (N * QrInvite) :=
  (λ q, (r.1, q)) <$> of_json r.2.

Definition handle_auth_required_or_pubkey (now : Z) (m : MimeMessage) : C HandshakeMessage :=
  rows <- gets (λ s, mapM parse_bobstate (bobstate s)) ;;
  rows <- ok_or rows InvalidJsonColumn ;;
  auth_sent <- answer_bobstates now m false rows ;;
  ret (if auth_sent then Done else Ignore).

(** ** Alice, who invites (securejoin.rs) *)

(** [send_alice_handshake_msg]. *)
Definition send_alice_handshake_msg (now : Z) (contact_id : ContactId) (step : str) : C unit :=
  chat <- get_for_contact now contact_id Blocked.Yes ;;
  send_msg now chat.1
    (handshake_msg step (set_int (handshake_param step) Param.GuaranteeE2ee 1)) ;;;
  ret tt.

(** [info_chat_id]. *)
Definition info_chat_id (now : Z) (contact_id : ContactId) : C N :=
  chat <- get_for_contact now contact_id Blocked.Not ;; ret chat.1.

(** [str::get(..n)]: the first [n] bytes, if they are whole characters. *)
Fixpoint get_prefix (n : N) (s : str) : option str :=
  if (n =? 0)%N then Some []
  else
    match s with
    | [] => None
    | c :: s' => if (len_utf8 c <=? n)%N then cons c <$> get_prefix (n - len_utf8 c) s' else None
    end.

(** Step [Request]. *)
Definition handle_request (now : Z) (r : Received) (invitenumber : str) : C HandshakeMessage :=
  known <- in_account (token_exists Namespace.InviteNumber invitenumber) ;;
  if negb known then ret Ignore
  else
    addr <- ok_or (ContactAddress_new str_to_lowercase (from_addr r)) InvalidAddress ;;
    contact <- in_db (add_or_lookup_ex str_to_lowercase generated_fingerprint [] addr
                        (default [] (autocrypt_fingerprint r)) Origin.IncomingUnknownFrom) ;;
    let prefix := match get_header (mime r) HeaderDef.SecureJoin ≫= get_prefix 2 with
                  | Some p => p
                  | None => lit "vc"
                  end in
    send_alice_handshake_msg now contact.1 (prefix ++ lit "-auth-required") ;;;
    ret Done.

(** Step [RequestPubkey]. *)
Definition handle_request_pubkey (r : Received) : C HandshakeMessage :=
  match get_header (mime r) HeaderDef.SecureJoinAuth with
  | None => ret Ignore
  | Some auth =>
      known <- in_account (token_exists Namespace.Auth auth) ;;
      if negb known then ret Ignore
      else
        blocked <- lookup_id_by_addr_ex (from_addr r) Origin.Unknown (Some Blocked.Yes) ;;
        match blocked with
        | Some _ => ret Ignore
        | None =>
            rfc724_mid <- create_outgoing_rfc724_mid ;;
            addr <- ok_or (ContactAddress_new str_to_lowercase (from_addr r)) InvalidAddress ;;
            self_fp <- in_db (self_fingerprint generated_fingerprint) ;;
            rendered <- gets (render_symm_encrypted (lit "vc-pubkey") rfc724_mid true auth
                                (securejoin_secret self_fp auth)) ;;
            rendered <- ok_or rendered CannotSend ;;
            msg_id <- insert_tombstone rfc724_mid ;;
            insert_into_smtp rfc724_mid addr rendered msg_id ;;;
            ret Done
        end
  end.

(** The token of an authentication code. *)
Definition find_auth_token (auth : str) (s : Core) : option token_row :=
  head (base.filter (λ t, tk_namespc t = Namespace.Auth ∧ tk_token t = auth) (tokens (account s))).

(** The last part of step [RequestWithAuth], when the sender is known to be who scanned the
    code. *)
Definition admit_joiner (now : Z) (contact_id : ContactId) (joining : option ChatId)
  : C HandshakeMessage :=
  regossip_keys contact_id ;;;
  match joining with
  | Some id =>
      add_contact_to_chat_ex now false id contact_id true ;;;
      chat <- in_db (load_from_db id) ;;
      (if bool_decide (chat_typ chat = Chattype.OutBroadcast) then
         _ <- ignore_err (sync_contacts now chat) ;; ret tt
       else
         in_db (scaleup_origin [contact_id] Origin.SecurejoinInvited) ;;;
         emit_core (ContactsChanged contact_id)) ;;;
      inviter_progress contact_id id (chat_typ chat) ;;;
      ret Done
  | None =>
      create_for_contact now contact_id ;;;
      id <- info_chat_id now contact_id ;;
      send_alice_handshake_msg now contact_id (lit "vc-contact-confirm") ;;;
      inviter_progress contact_id id Chattype.Single ;;;
      ret Ignore
  end.

(** The chat a token admits to: [None] if it is unknown, [Some None] for no chat. *)
Definition joining_chat (grpid : str) : C (option (option ChatId)) :=
  if bool_decide (grpid = []) then ret (Some None)
  else
    chat <- get_chat_id_by_grpid grpid ;;
    ret (match chat with Some (id, _) => Some (Some id) | None => None end).

(** Step [RequestWithAuth]. *)
Definition handle_request_with_auth (now : Z) (r : Received) (contact_id : ContactId)
  : C HandshakeMessage :=
  match get_header (mime r) HeaderDef.SecureJoinFingerprint with
  | None => ret Ignore
  | Some fp =>
      fingerprint <- ok_or (Fingerprint_from_str str_to_uppercase fp) CannotParse ;;
      if negb (encrypted_and_signed (mime r) fingerprint) then ret Ignore
      else
        match get_header (mime r) HeaderDef.SecureJoinAuth with
        | None => ret Ignore
        | Some auth =>
            token <- gets (find_auth_token auth) ;;
            match token with
            | None => ret Ignore
            | Some token =>
                joining <- joining_chat (tk_foreign_key token) ;;
                match joining with
                | None => ret Ignore
                | Some joining =>
                    sender <- get_by_id contact_id ;;
                    if negb (bool_decide (contact_fingerprint sender = Some fingerprint))
                    then ret Ignore
                    else
                      when (now <? tk_timestamp token + VERIFICATION_TIMEOUT_SECONDS)%Z
                        (mark_contact_id_as_verified contact_id (Some SELF)) ;;;
                      if ct_blocked sender then ret Ignore
                      else admit_joiner now contact_id joining
                end
            end
        end
  end.

(** Step [MemberAdded]. *)
Definition handle_member_added (r : Received) (contact_id : ContactId) : C HandshakeMessage :=
  match get_header (mime r) HeaderDef.ChatGroupMemberAdded with
  | None => ret Propagate
  | Some member_added =>
      is_self <- in_db (is_self_addr str_to_lowercase member_added) ;;
      when is_self (emit_core (SecurejoinJoinerProgress contact_id Succeeded)) ;;;
      ret Propagate
  end.

(** The own key must be among the gossiped ones, except in the first messages. *)
Definition needs_own_gossip (step : SecureJoinStep) : bool :=
  match step with Request _ | RequestPubkey | Pubkey => false | _ => true end.

Definition gossips_self (m : MimeMessage) (self_fp : str) : bool :=
  existsb (λ kv, bool_decide (kv.2 = self_fp)) (map_to_list (gossiped_keys m)).

(** [handle_securejoin_handshake]. *)
Definition handle_step (now : Z) (r : Received) (contact_id : ContactId) (step : SecureJoinStep)
  : C HandshakeMessage :=
  match step with
  | Request invitenumber => handle_request now r invitenumber
  | AuthRequired | Pubkey => handle_auth_required_or_pubkey now (mime r)
  | RequestPubkey => handle_request_pubkey r
  | RequestWithAuth => handle_request_with_auth now r contact_id
  | ContactConfirm =>
      emit_core (SecurejoinJoinerProgress contact_id Succeeded) ;;; ret Ignore
  | MemberAdded => handle_member_added r contact_id
  | Deprecated => ret Done
  | UnknownStep _ => ret Ignore
  end.

Definition handle_securejoin_handshake (now : Z) (r : Received) (contact_id : ContactId)
  : C HandshakeMessage :=
  ensure_or (negb (contact_is_special contact_id)) InvalidContactId ;;;
  step <- ok_or (get_secure_join_step (mime r)) CannotParse ;;
  own <- (if needs_own_gossip step then
            self_fp <- load_self_public_key ;; ret (gossips_self (mime r) self_fp)
          else ret true) ;;
  if negb own then ret Ignore else handle_step now r contact_id step.

(** ** Another device of the user (securejoin.rs) *)

Definition observed (step : SecureJoinStep) : bool :=
  match step with RequestWithAuth | MemberAdded | ContactConfirm => true | _ => false end.

(** [observe_securejoin_on_other_device]. *)
Definition observe_securejoin_on_other_device (m : MimeMessage) (contact_id : ContactId)
  : C HandshakeMessage :=
  ensure_or (negb (contact_is_special contact_id)) InvalidContactId ;;;
  step <- ok_or (get_secure_join_step m) CannotParse ;;
  if negb (observed step) then ret Ignore
  else
    self_fp <- load_self_public_key ;;
    if negb (bool_decide (signature m = Some self_fp)) then ret Ignore
    else
      contact <- get_by_id contact_id ;;
      match gossiped_keys m !! str_to_lowercase (ct_addr contact) with
      | None => ret Ignore
      | Some key =>
          match contact_fingerprint contact with
          | None => ret Ignore
          | Some fp =>
              if negb (bool_decide (key = hex fp)) then ret Ignore
              else
                mark_contact_id_as_verified contact_id (Some SELF) ;;;
                if ct_blocked contact && negb (bool_decide (step = MemberAdded)) then ret Ignore
                else
                  when (bool_decide (step ∈ [MemberAdded; ContactConfirm]))
                    (inviter_progress contact_id 0
                       (match get_header m HeaderDef.ChatGroupMemberAdded,
                              get_header m HeaderDef.ListId with
                        | None, _ => Chattype.Single
                        | Some _, Some _ => Chattype.OutBroadcast
                        | Some _, None => Chattype.Group
                        end)) ;;;
                  ret (if bool_decide (step = MemberAdded) then Propagate else Ignore)
          end
      end.
End Protocol.

(** ** The invitation (securejoin.rs) *)

Section Invitation.
Context `{!Platform, !Outside, !Json SyncItem}.
(** [utf8_percent_encode] with everything but ASCII letters, digits, [.] and [_] encoded. *)
Context (percent_encode : str -> str).

Definition url_encode (s : str) : str := replace (lit "%20") (lit "+") (percent_encode s).

(** The chat an invitation is made for: the checks of [get_securejoin_qr]. *)
Definition load_inviting_chat (now : Z) (id : ChatId) : C Chat :=
  chat <- in_db (load_from_db id) ;;
  ensure_or (bool_decide (chat_typ chat = Chattype.Group)
             || bool_decide (chat_typ chat = Chattype.OutBroadcast)) NotAGroup ;;;
  if bool_decide (chat_grpid chat = []) then fail NotAGroup
  else
    secret <- load_broadcast_secret id ;;
    if bool_decide (chat_typ chat = Chattype.OutBroadcast) && bool_decide (secret = None) then
      add_info_msg now id (stock_str BROADCAST_INCOMPATIBILITY_MSG) ;;; fail MissingSecret
    else ret chat.

(** [get_securejoin_qr]. *)
Definition get_securejoin_qr (now : Z) (chat : option ChatId) : C str :=
  _ <- ignore_err load_self_public_key ;;
  chat <- match chat with
          | Some id => chat <- load_inviting_chat now id ;; ret (Some chat)
          | None => ret None
          end ;;
  let grpid := chat_grpid <$> chat in
  new_number <- create_id ;;
  invitenumber <- in_account (lookup_or_new now new_number Namespace.InviteNumber grpid) ;;
  auth <- create_id ;;
  in_account (save_token Namespace.Auth grpid auth now) ;;;
  fingerprint <- in_db (self_fingerprint generated_fingerprint) ;;
  self_addr <- in_db get_primary_self_addr ;;
  self_name <- in_account (get_config Config.Displayname) ;;
  let self_name := default [] self_name in
  let prefix := lit "https://i.delta.chat/#" ++ fingerprint ++ lit "&v=3" in
  let common number_key :=
    number_key ++ invitenumber ++ lit "&s=" ++ auth ++ lit "&a=" ++ percent_encode self_addr in
  match chat with
  | Some chat =>
      in_account (sync_qr_code_tokens now grpid) ;;;
      let chat_name := url_encode (shorten_name (chat_name chat) 25) in
      let self_name := url_encode (shorten_name self_name 16) in
      ret (if bool_decide (chat_typ chat = Chattype.OutBroadcast) then
             prefix ++ lit "&x=" ++ chat_grpid chat ++ common (lit "&j=") ++ lit "&n=" ++ self_name
               ++ lit "&b=" ++ chat_name
           else
             prefix ++ lit "&x=" ++ chat_grpid chat ++ common (lit "&i=") ++ lit "&n=" ++ self_name
               ++ lit "&g=" ++ chat_name)
  | None =>
      in_account (sync_qr_code_tokens now None) ;;;
      ret (prefix ++ common (lit "&i=") ++ lit "&n=" ++ url_encode (shorten_name self_name 25))
  end.
End Invitation.
