(* ===== verification/JoinTrust.v ===== *)
(** JoinTrust: what a handshake can bring about.  Whoever gets verified or enters a chat has
    proven to have scanned a valid invitation, and the code of a scanned invitation is only sent
    to its inviter. *)
From stdpp Require Import sorting.
From S2P Require Import Prelude Monad Ids Params Membership ContactTools Headers MsgTable Db.
From S2P Require Import Contacts Recipients LoginParam Config Transport Sync ChatDb Verification SecureJoin.

(** ** What matters for trust *)

(** The keys of the contacts. *)
Definition fps (c : Context) : list (N * str) := (λ r, (c_id r, c_fingerprint r)) <$> contacts c.

(** A message as [send_msg] hands it on. *)
Definition outgoing (msg : Message) : Message :=
  if bool_decide (get_cmd (msg_param msg) = SystemMessage.Unknown) then msg
  else {| msg_viewtype := msg_viewtype msg; msg_text := sanitize_bidi_characters (msg_text msg);
          msg_hidden := msg_hidden msg; msg_param := msg_param msg |}.

Definition is_handshake (msg : Message) : Prop :=
  get_cmd (msg_param msg) = SystemMessage.SecurejoinMessage.

(** The handshake messages of an inviter: they say which step they are, and nothing else. *)
Definition says_step_only (msg : Message) : Prop :=
  ∃ step, msg = outgoing (handshake_msg step (set_int (handshake_param step) Param.GuaranteeE2ee 1))
    ∧ (step = lit "vc-contact-confirm"
       ∨ ∃ p, (length p <= 2)%nat ∧ step = p ++ lit "-auth-required").

(** The message has no code of an invitation. *)
Definition codeless (msg : Message) : Prop := ¬ is_handshake msg ∨ says_step_only msg.

Definition in_chat (c : Context) (id contact_id : N) : bool :=
  is_contact_in_chat (members c) id contact_id.

(** The chat is a 1:1 chat with the contact. *)
Definition single_with (c : Context) (id contact_id : N) : Prop :=
  ch_type <$> chats c !! id = Some Chattype.Single ∧ is_Some (members c !! (id, contact_id)).

(** A snapshot of it. *)
Record frame := {
  f_verifier : gmap N N;
  f_fps : list (N * str);
  f_chats : gset N;
  f_members : N -> N -> bool;
  f_single : N -> N -> Prop;
  f_sent : list (N * Message)
}.

Definition frame_of (s : Core) : frame :=
  {| f_verifier := verifier s; f_fps := fps (db s); f_chats := dom (chats (db s));
     f_members := in_chat (db s); f_single := single_with (db s); f_sent := sent s |}.

(** Since the snapshot nobody was verified, no key changed, nobody entered one of its chats, no
    1:1 chat was lost, and no code of an invitation was sent. *)
Record db_keeps (f : frame) (c : Context) : Prop := {
  k_fps : f_fps f `prefix_of` fps c;
  k_chats : f_chats f ⊆ dom (chats c);
  k_members id contact_id : id ∈ f_chats f → in_chat c id contact_id = true →
    f_members f id contact_id = true;
  k_single id contact_id : f_single f id contact_id → single_with c id contact_id
}.

Record keeps (f : frame) (s : Core) : Prop := {
  k_verifier : verifier s = f_verifier f;
  k_sent e : e ∈ sent s → e ∈ f_sent f ∨ codeless e.2;
  k_db : db_keeps f (db s)
}.

Definition quiet {X} (x : C X) : Prop := ∀ f, preserves (keeps f) x.
Definition quiet_db {X} (x : M X) : Prop := ∀ f, preserves (db_keeps f) x.

(** Sending a message has no influence on trust: it does not verify anybody, adds nobody to a
    chat that exists, and sends no handshake message of its own. *)
Class SendingOk `{!Sending} : Prop := {
  queue_msg_quiet now chat msg : quiet (queue_msg now chat msg);
  resend_last_msgs_quiet now id contact : quiet (resend_last_msgs now id contact)
}.

Create HintDb quiet discriminated.
#[export] Hint Constants Opaque : quiet.

Lemma keeps_refl s : keeps (frame_of s) s.
Proof. split; [done|by left|]. split; simpl; done. Qed.

Lemma quiet_bind {X Y} (x : C X) (g : X -> C Y) : quiet x → (∀ v, quiet (g v)) → quiet (bind x g).
Proof. intros Hx Hg f. apply preserves_bind; [apply Hx|intros v; apply Hg]. Qed.

Lemma quiet_ret {X} (v : X) : quiet (ret v).
Proof. intros f. apply preserves_ret. Qed.

Lemma quiet_fail {X} (e : core_error) : quiet (fail (A := X) e).
Proof. intros f. apply preserves_fail. Qed.

Lemma quiet_gets {X} (g : Core -> X) : quiet (gets g).
Proof. intros f. apply preserves_gets. Qed.

Lemma quiet_when b (x : C unit) : quiet x → quiet (when b x).
Proof. intros Hx f. apply preserves_when, Hx. Qed.

Lemma quiet_and_then b (x : C bool) : quiet x → quiet (and_then b x).
Proof. intros Hx f. apply preserves_and_then, Hx. Qed.

Lemma quiet_ok_or {X} (o : option X) (e : core_error) : quiet (ok_or o e).
Proof. intros f. apply preserves_ok_or. Qed.

Lemma quiet_ignore_err {X} (x : C X) : quiet x → quiet (ignore_err x).
Proof. intros Hx f. apply preserves_ignore_err, Hx. Qed.

Lemma quiet_ensure b e : quiet (ensure_or b e).
Proof. destruct b; [apply quiet_ret|apply quiet_fail]. Qed.

Lemma quiet_rollback {X} (x : C X) : quiet x → quiet (rollback x).
Proof.
  intros Hx f s Hs. unfold rollback. specialize (Hx f s Hs). by destruct (x s) as [[v|e] s'].
Qed.

Lemma quiet_in_account {X} (x : A X) : quiet (in_account x).
Proof.
  intros f s [H1 H2 H3]. unfold in_account. by destruct (x (account s)) as [[v|e] a]; split.
Qed.

Lemma quiet_in_db {X} (x : M X) : quiet_db x → quiet (in_db x).
Proof.
  intros Hx f s [H1 H2 H3]. unfold in_db. specialize (Hx f (db s) H3).
  by destruct (x (db s)) as [[v|e] d]; split.
Qed.

(** An update that leaves the verifiers, the trace and the tables of [Db] alone. *)
Lemma quiet_modify (g : Core -> Core) :
  (∀ s, verifier (g s) = verifier s ∧ sent (g s) = sent s ∧ db (g s) = db s) → quiet (modify g).
Proof.
  intros Hg f s [H1 H2 H3]. destruct (Hg s) as (E1 & E2 & E3).
  split; simpl; [by rewrite E1|by rewrite E2|by rewrite E3].
Qed.

Lemma quiet_modify_db (g : Context -> Context) :
  (∀ f c, db_keeps f c → db_keeps f (g c)) → quiet (modify (upd_db g)).
Proof. intros Hg f s [H1 H2 H3]. split; [done..|]. by apply Hg. Qed.

#[export] Hint Resolve quiet_ret quiet_fail quiet_gets quiet_ok_or quiet_ensure
  quiet_in_account : quiet.

(** Walk through an operation that is quiet. *)
Ltac quiet_tac :=
  repeat match goal with
  | |- quiet (bind _ _) => apply quiet_bind; [|intros ?]
  | |- quiet (when _ _) => apply quiet_when
  | |- quiet (and_then _ _) => apply quiet_and_then
  | |- quiet (ignore_err _) => apply quiet_ignore_err
  | |- quiet (rollback _) => apply quiet_rollback
  | |- quiet (match ?x with _ => _ end) => destruct x
  | |- quiet _ => solve [eauto with quiet]
  | |- quiet (modify (upd_db _)) => fail 1
  | |- quiet (modify _) => apply quiet_modify; intros ?; done
  | |- quiet _ => progress cbn beta iota zeta
  end.

(** ** The operations on the tables *)

Lemma quiet_db_ro {X} (x : M X) : (∀ c, (x c).2 = c) → quiet_db x.
Proof. intros Hx f c Hc. by rewrite Hx. Qed.

Lemma db_keeps_same f c c' :
  contacts c' = contacts c → chats c' = chats c → members c' = members c →
  db_keeps f c → db_keeps f c'.
Proof.
  intros E1 E2 E3 [H1 H2 H3 H4]. split; unfold fps, in_chat, single_with in *;
    rewrite ?E1, ?E2, ?E3; done.
Qed.

Lemma emit_core_quiet e : quiet (emit_core e).
Proof. apply quiet_modify_db. intros f c. by apply db_keeps_same. Qed.

Lemma load_from_db_quiet id : quiet_db (load_from_db id).
Proof. apply quiet_db_ro. intros c. unfold load_from_db. by destruct (chats c !! id). Qed.

Lemma self_fingerprint_quiet gen : quiet_db (self_fingerprint gen).
Proof.
  intros f c Hc. unfold self_fingerprint. destruct (self_fingerprint_opt c); [done|].
  by apply (db_keeps_same f c).
Qed.

Lemma fps_update (g : contact_row -> contact_row) (l : list contact_row) :
  (∀ r, c_id (g r) = c_id r ∧ c_fingerprint (g r) = c_fingerprint r) →
  (λ r, (c_id r, c_fingerprint r)) <$> (g <$> l) = (λ r, (c_id r, c_fingerprint r)) <$> l.
Proof.
  intros Hg. rewrite <-list_fmap_compose. apply list_fmap_ext. intros i r _. simpl.
  by destruct (Hg r) as [-> ->].
Qed.

Lemma db_keeps_contacts f c (g : list contact_row -> list contact_row) :
  (∀ l, (λ r, (c_id r, c_fingerprint r)) <$> l `prefix_of`
        (λ r, (c_id r, c_fingerprint r)) <$> g l) →
  db_keeps f c → db_keeps f (set_contacts g c).
Proof.
  intros Hg [H1 H2 H3 H4]. split; [|done..]. unfold fps in *. simpl. by etrans.
Qed.

Lemma scaleup_origin_quiet ids origin : quiet_db (scaleup_origin ids origin).
Proof.
  intros f. apply preserves_modify. intros c. apply db_keeps_contacts. intros l.
  rewrite fps_update; [done|]. intros r. by destruct (_ && _).
Qed.

Lemma single_after_alter g c id id' contact_id :
  (∀ row, ch_type (g row) = ch_type row) →
  single_with c id' contact_id → single_with (set_chats (alter g id) c) id' contact_id.
Proof.
  intros Hg [H1 H2]. split; [|done]. simpl. destruct (decide (id' = id)) as [->|].
  - rewrite lookup_alter_eq. destruct (chats c !! id) as [row|]; simpl in *; [|done].
    by rewrite Hg.
  - by rewrite lookup_alter_ne.
Qed.

Lemma db_keeps_alter f c g id :
  (∀ row, ch_type (g row) = ch_type row) →
  db_keeps f c → db_keeps f (set_chats (alter g id) c).
Proof.
  intros Hg [H1 H2 H3 H4]. split; [done|simpl; by rewrite dom_alter_L|done|].
  intros id' contact_id H. by apply single_after_alter, H4.
Qed.

Lemma update_param_quiet chat : quiet_db (update_param chat).
Proof. intros f. apply preserves_modify. intros c. by apply db_keeps_alter. Qed.

#[export] Hint Resolve quiet_in_db emit_core_quiet load_from_db_quiet self_fingerprint_quiet
  scaleup_origin_quiet update_param_quiet : quiet.
#[export] Hint Extern 1 (quiet_db _) => (apply quiet_db_ro; intros ?; reflexivity) : quiet.

Lemma is_self_in_chat_quiet chat : quiet_db (is_self_in_chat chat).
Proof. apply quiet_db_ro. intros c. unfold is_self_in_chat. by destruct (chat_typ chat). Qed.

Lemma get_primary_self_addr_quiet : quiet_db get_primary_self_addr.
Proof. apply quiet_db_ro. intros c. unfold get_primary_self_addr. by destruct (configured_addr c). Qed.

(** [transaction] of a quiet operation. *)
Lemma transaction_quiet {X} (x : M X) : quiet_db x → quiet_db (transaction x).
Proof.
  intros Hx f c Hc. unfold transaction. specialize (Hx f c Hc). destruct (x c) as [[v|e] c']; [done|].
  by apply (db_keeps_same f c).
Qed.

Lemma update_chat_names_quiet id : quiet_db (update_chat_names id).
Proof.
  intros f. unfold update_chat_names.
  apply preserves_bind; [apply preserves_gets|intros [chat_id|]; [|apply preserves_ret]].
  apply preserves_bind; [apply preserves_gets|intros [row|]; [|apply preserves_fail]].
  apply preserves_bind; [apply preserves_gets|intros name]. apply preserves_when.
  apply preserves_bind; [apply preserves_modify; intros c; by apply db_keeps_alter|intros _].
  apply preserves_bind; [|intros _];
    apply preserves_modify; intros c; by apply db_keeps_same.
Qed.

Lemma lookup_or_insert_quiet name addr fp origin : quiet_db (lookup_or_insert name addr fp origin).
Proof.
  apply transaction_quiet. intros f.
  apply preserves_bind; [apply preserves_gets|intros [row|]].
  - cbv zeta. match goal with |- preserves _ (if ?b then _ else _) => destruct b end;
      [|apply preserves_ret].
    apply preserves_bind; [|intros _; apply preserves_bind].
    + apply preserves_modify. intros c. apply db_keeps_contacts. intros l. rewrite fps_update; [done|].
      intros r. by destruct (_ =? _)%N.
    + apply preserves_when, update_chat_names_quiet.
    + intros _. apply preserves_ret.
  - apply preserves_bind; [|intros id; apply preserves_ret]. unfold insert_contact.
    apply preserves_bind; [apply preserves_gets|intros id].
    apply preserves_bind; [|intros _; destruct (_ <=? _)%N; [apply preserves_ret|apply preserves_fail]].
    apply preserves_modify. intros c Hc.
    eapply db_keeps_same; [..|eapply (db_keeps_contacts f c (λ l, l ++ _)); [|exact Hc]];
      [done..|]. intros l. rewrite fmap_app. by apply prefix_app_r.
Qed.

Lemma add_or_lookup_ex_quiet lower gen name addr fp origin :
  quiet_db (add_or_lookup_ex lower gen name addr fp origin).
Proof.
  intros f. unfold add_or_lookup_ex, ensure.
  do 2 (apply preserves_bind;
    [match goal with |- preserves _ (if ?b then _ else _) => destruct b end;
     [apply preserves_ret|apply preserves_fail]|intros _]).
  apply preserves_bind; [apply preserves_gets|intros configured].
  apply preserves_bind; [apply preserves_and_then, preserves_gets|intros [|]; [apply preserves_ret|]].
  apply preserves_bind.
  { apply preserves_and_then, preserves_bind; [apply self_fingerprint_quiet|].
    intros ?. apply preserves_ret. }
  intros [|]; [apply preserves_ret|]. destruct (effective_name_origin _ _ _) as [n o].
  apply lookup_or_insert_quiet.
Qed.

#[export] Hint Resolve is_self_in_chat_quiet get_primary_self_addr_quiet add_or_lookup_ex_quiet
  : quiet.

(** ** The operations on chats *)

Section Quiet.
Context {PF : Platform} {OS : Outside} {SD : Sending} {RD : Rendering} {JS : Json SyncItem}
  {JQ : Json QrInvite} {SO : SendingOk}.

Lemma get_by_id_optional_quiet id : quiet (get_by_id_optional id).
Proof. unfold get_by_id_optional. quiet_tac. Qed.

Lemma get_by_id_quiet id : quiet (get_by_id id).
Proof. pose proof get_by_id_optional_quiet. unfold get_by_id. quiet_tac. Qed.

Lemma db_keeps_new_chat f c id row :
  chats c !! id = None → db_keeps f c → db_keeps f (set_chats (<[id := row]>) c).
Proof.
  intros Hid [H1 H2 H3 H4]. split; [done|simpl; set_solver|done|].
  intros id' contact_id H. destruct (H4 _ _ H) as [H5 H6]. split; [|done]. simpl.
  rewrite lookup_insert_ne; [done|]. intros <-. by rewrite Hid in H5.
Qed.

Lemma insert_chat_quiet row blocked : quiet (insert_chat row blocked).
Proof.
  intros f s Hs. unfold insert_chat, to_u32. run_se.
  assert (keeps f (upd_chat_seq (λ _, next_row_id (chat_seq s) (chats (db s)))
            (upd_chat_blocked (<[next_row_id (chat_seq s) (chats (db s)) := blocked]>)
               (upd_db (set_chats (<[next_row_id (chat_seq s) (chats (db s)) := row]>)) s)))) as Hk.
  { destruct Hs as [H1 H2 H3]. split; [done..|].
    apply db_keeps_new_chat; [apply next_row_id_fresh|done]. }
  by destruct (_ <=? _)%N.
Qed.

Lemma db_keeps_new_member f c id contact_id row :
  id ∉ f_chats f → db_keeps f c → db_keeps f (set_members (<[(id, contact_id) := row]>) c).
Proof.
  intros Hid [H1 H2 H3 H4]. split; [done..| |].
  - intros id' c' Hf. unfold in_chat, is_contact_in_chat. simpl.
    rewrite lookup_insert_ne by congruence. by apply H3.
  - intros id' c' H. destruct (H4 _ _ H) as [H5 H6]. split; [done|]. simpl.
    destruct (decide ((id', c') = (id, contact_id))) as [E|];
      [rewrite E, lookup_insert_eq; done|by rewrite lookup_insert_ne].
Qed.

(** A new 1:1 chat and its member. *)
Lemma insert_single_quiet {Y} row blocked contact_id r (g : N -> C Y) :
  (∀ id, quiet (g id)) →
  quiet (id <- rollback (insert_chat row blocked) ;;
         modify (upd_db (set_members (<[(id, contact_id) := r]>))) ;;; g id).
Proof.
  intros Hg f s Hs. pose proof (quiet_rollback _ (insert_chat_quiet row blocked) f s Hs) as Hi.
  assert (∀ id s', rollback (insert_chat row blocked) s = (Ok id, s') →
            id = next_row_id (chat_seq s) (chats (db s))) as Hid.
  { unfold rollback, insert_chat, to_u32. run_se. intros id s'. destruct (_ <=? _)%N; congruence. }
  unfold bind at 1. destruct (rollback (insert_chat row blocked) s) as [[id|e] s'] eqn:E; [|done].
  unfold bind, modify. apply Hg. destruct Hi as [H1 H2 H3]. split; [done..|].
  apply db_keeps_new_member; [|done]. rewrite (Hid _ _ eq_refl).
  intros Hin%(k_chats f (db s) (k_db f s Hs)). apply elem_of_dom in Hin as [? Hin].
  by rewrite next_row_id_fresh in Hin.
Qed.

Hint Resolve get_by_id_optional_quiet get_by_id_quiet insert_chat_quiet queue_msg_quiet
  resend_last_msgs_quiet : quiet.

Lemma insert_msg_quiet row txt : quiet (insert_msg row txt).
Proof. unfold insert_msg, to_u32. quiet_tac. Qed.
Hint Resolve insert_msg_quiet : quiet.

Lemma add_info_msg_with_cmd_quiet now id text cmd sort rcvd from added :
  quiet (add_info_msg_with_cmd now id text cmd sort rcvd from added).
Proof.
  unfold add_info_msg_with_cmd, create_outgoing_rfc724_mid, get_ephemeral_timer,
    calc_sort_timestamp, join_timestamp. quiet_tac.
Qed.
Hint Resolve add_info_msg_with_cmd_quiet : quiet.

Lemma add_info_msg_quiet now id text : quiet (add_info_msg now id text).
Proof. apply add_info_msg_with_cmd_quiet. Qed.
Hint Resolve add_info_msg_quiet : quiet.

Lemma lookup_by_contact_quiet id : quiet (lookup_by_contact id).
Proof. unfold lookup_by_contact. quiet_tac. Qed.
Hint Resolve lookup_by_contact_quiet : quiet.

Lemma get_chat_id_by_grpid_quiet grpid : quiet (get_chat_id_by_grpid grpid).
Proof. unfold get_chat_id_by_grpid. quiet_tac. Qed.

Lemma is_encrypted_quiet chat : quiet (is_encrypted chat).
Proof. unfold is_encrypted. quiet_tac. Qed.
Hint Resolve get_chat_id_by_grpid_quiet is_encrypted_quiet : quiet.

Lemma get_for_contact_quiet now id blocked : quiet (get_for_contact now id blocked).
Proof.
  unfold get_for_contact. apply quiet_bind; [quiet_tac|intros _].
  apply quiet_bind; [quiet_tac|intros [res|]; [quiet_tac|]].
  apply quiet_bind; [quiet_tac|intros contact]. cbv zeta. apply insert_single_quiet. intros chat_id.
  unfold add_e2ee_notice. quiet_tac.
Qed.

Lemma set_chat_blocked_quiet id b : quiet (set_chat_blocked id b).
Proof. unfold set_chat_blocked. quiet_tac. Qed.
Hint Resolve get_for_contact_quiet set_chat_blocked_quiet : quiet.

Lemma create_for_contact_quiet now id b : quiet (create_for_contact_with_blocked now id b).
Proof. unfold create_for_contact_with_blocked, real_exists_by_id, announce_chat. quiet_tac. Qed.

Lemma create_multiuser_record_quiet now typ grpid name b p ts :
  quiet (create_multiuser_record now typ grpid name b p ts).
Proof. unfold create_multiuser_record, add_e2ee_notice. quiet_tac. Qed.
Hint Resolve create_for_contact_quiet create_multiuser_record_quiet : quiet.

Lemma single_sync_id_quiet chat r ids : quiet (single_sync_id chat r ids).
Proof.
  revert r. induction ids as [|id ids IH]; intros r; simpl; [quiet_tac|].
  destruct (_ && _); [apply IH|]. destruct r; quiet_tac.
Qed.
Hint Resolve single_sync_id_quiet : quiet.

Lemma sync_chat_quiet now chat action : quiet (sync_chat now chat action).
Proof. unfold sync_chat, get_sync_id. quiet_tac. Qed.
Hint Resolve sync_chat_quiet : quiet.

Lemma unblock_ex_quiet now sync id : quiet (unblock_ex now sync id).
Proof. unfold unblock_ex. quiet_tac. Qed.

Lemma sync_contacts_quiet now chat : quiet (sync_contacts now chat).
Proof. unfold sync_contacts. quiet_tac. Qed.

Lemma load_self_public_key_quiet : quiet load_self_public_key.
Proof. unfold load_self_public_key. quiet_tac. Qed.
Hint Resolve unblock_ex_quiet sync_contacts_quiet load_self_public_key_quiet : quiet.

Lemma why_cant_send_ex_quiet chat skip : quiet (why_cant_send_ex chat skip).
Proof. unfold why_cant_send_ex, misses_key, has_public_key. quiet_tac. Qed.
Hint Resolve why_cant_send_ex_quiet : quiet.

Lemma send_msg_outgoing now id msg :
  send_msg now id msg
  = (ensure_or (negb (chat_is_special id)) (SpecialChat id) ;;;
     res <- prepare_send_msg now id (outgoing msg) ;;
     when (negb (bool_decide (res.1 = [])) && negb (msg_hidden (outgoing msg)))
       (emit_core (MsgsChanged id res.2)) ;;;
     ret res.2).
Proof. reflexivity. Qed.

Lemma send_msg_quiet now id msg : codeless (outgoing msg) → quiet (send_msg now id msg).
Proof.
  intros Hno. rewrite send_msg_outgoing. apply quiet_bind; [quiet_tac|intros _].
  apply quiet_bind; [|intros res; quiet_tac]. unfold prepare_send_msg.
  apply quiet_bind; [|intros _; quiet_tac].
  intros f s [H1 H2 H3]. split; [done| |done]. intros e. simpl.
  intros [He| ->%list_elem_of_singleton]%elem_of_app; [by apply H2|by right].
Qed.
End Quiet.

#[export] Hint Resolve get_by_id_optional_quiet get_by_id_quiet insert_chat_quiet queue_msg_quiet
  resend_last_msgs_quiet insert_msg_quiet add_info_msg_with_cmd_quiet add_info_msg_quiet
  lookup_by_contact_quiet get_chat_id_by_grpid_quiet is_encrypted_quiet get_for_contact_quiet
  set_chat_blocked_quiet create_for_contact_quiet create_multiuser_record_quiet sync_chat_quiet
  unblock_ex_quiet sync_contacts_quiet load_self_public_key_quiet why_cant_send_ex_quiet : quiet.

(** ** The 1:1 chat with a contact *)

Lemma quiet_single {X} (x : C X) s id c :
  quiet x → single_with (db s) id c → single_with (db (x s).2) id c.
Proof. intros Hx. apply (k_single _ _ (k_db _ _ (Hx _ s (keeps_refl s)))). Qed.

Section Single.
Context {PF : Platform} {OS : Outside} {JS : Json SyncItem}.

Lemma lookup_by_contact_single c s id b s' :
  lookup_by_contact c s = (Ok (Some (id, b)), s') → s' = s ∧ single_with (db s) id c.
Proof.
  unfold lookup_by_contact, ensure_or. destruct (negb _); [|done]. run_se.
  intros H. destruct (base.filter _ (row_ids (chats (db s)))) as [|x l] eqn:E; simplify_eq/=.
  split; [done|]. assert (id ∈ id :: l) as Hin by by left. rewrite <-E in Hin.
  apply list_elem_of_filter in Hin as [(H1 & _ & H3) _]. done.
Qed.

Lemma get_for_contact_single now c b s r s' :
  get_for_contact now c b s = (Ok r, s') → single_with (db s') r.1 c.
Proof.
  unfold get_for_contact. intros (? & s1 & _ & H)%bind_ok.
  apply bind_ok in H as (res & s2 & Hl & H). destruct res as [[id b']|].
  { apply lookup_by_contact_single in Hl as [-> Hl]. unfold ret in H. by simplify_eq. }
  apply bind_ok in H as (contact & s3 & _ & H). cbv zeta in H.
  apply bind_ok in H as (id & s4 & Hi & H). unfold rollback, insert_chat, to_u32 in Hi.
  unfold bind at 1, modify at 1 in H. revert Hi. run_se. intros Hi.
  destruct (_ <=? _)%N in Hi; [|done]. simplify_eq.
  match type of H with _ ?st = _ => remember st as s4 eqn:E4 end.
  assert (single_with (db s4) (next_row_id (chat_seq s3) (chats (db s3))) c) as Hs.
  { rewrite E4. split; simpl; [by rewrite lookup_insert_eq|]. by rewrite lookup_insert_eq. }
  clear E4.
  apply bind_ok in H as (chat & s5 & H5 & H). apply bind_ok in H as (enc & s6 & H6 & H).
  apply bind_ok in H as (? & s7 & H7 & H). unfold ret in H. simplify_eq/=.
  eapply quiet_single in Hs; [rewrite H5 in Hs; cbn [snd] in Hs|apply quiet_in_db, load_from_db_quiet].
  eapply quiet_single in Hs; [rewrite H6 in Hs; cbn [snd] in Hs|apply is_encrypted_quiet].
  eapply quiet_single in Hs; [rewrite H7 in Hs; exact Hs|].
  unfold add_e2ee_notice. apply quiet_when. apply quiet_bind; [|intros; apply quiet_ret].
  apply add_info_msg_with_cmd_quiet.
Qed.

Lemma create_for_contact_single now c b s id s' :
  create_for_contact_with_blocked now c b s = (Ok id, s') → single_with (db s') id c.
Proof.
  unfold create_for_contact_with_blocked. intros (res & s1 & Hl & H)%bind_ok.
  destruct res as [[id' b']|].
  - apply lookup_by_contact_single in Hl as [-> Hl].
    destruct (_ || _); [unfold ret in H; by simplify_eq|].
    apply bind_ok in H as (? & s2 & H2 & H). unfold announce_chat in H.
    eapply quiet_single in Hl; [rewrite H2 in Hl; cbn [snd] in Hl|apply set_chat_blocked_quiet].
    apply bind_ok in H as (? & s3 & H3 & H). apply bind_ok in H as (? & s4 & H4 & H).
    apply bind_ok in H as (? & s5 & H5 & H). unfold ret, emit_core, modify in *. by simplify_eq/=.
  - apply bind_ok in H as (real & s2 & _ & H). destruct (_ || _); [|done].
    apply bind_ok in H as (r & s3 & Hg & H). apply get_for_contact_single in Hg.
    apply bind_ok in H as (? & s4 & H4 & H).
    eapply quiet_single in Hg; [rewrite H4 in Hg; cbn [snd] in Hg|apply quiet_when; eauto with quiet].
    unfold announce_chat in H.
    apply bind_ok in H as (? & s5 & H5 & H). apply bind_ok in H as (? & s6 & H6 & H).
    apply bind_ok in H as (? & s7 & H7 & H). unfold ret, emit_core, modify in *. by simplify_eq/=.
Qed.
End Single.

(** ** What a handshake may change *)

(** The key of a contact. *)
Definition key_of `{!Platform} (c : Context) (id : ContactId) : option Fingerprint :=
  (snd <$> head (base.filter (λ r, r.1 = id) (fps c))) ≫= Fingerprint_from_str str_to_uppercase.

Section Admits.
Context {PF : Platform} {OS : Outside} {SD : Sending} {RD : Rendering} {JS : Json SyncItem}
  {JQ : Json QrInvite} {SO : SendingOk}.
(** Before the handshake, and what it allows: a key of a contact to be verified, a contact to
    enter a chat, the messages about an invitation to be sent: the request, and the one with the
    code. *)
Context (s0 : Core) (may_verify : N -> Fingerprint -> Prop) (may_enter : N -> N -> Prop)
  (may_ask may_send : QrInvite -> Message -> Prop).

Record admits (s : Core) : Prop := {
  a_fps : fps (db s0) `prefix_of` fps (db s);
  a_chats : dom (chats (db s0)) ⊆ dom (chats (db s));
  a_verifier id : verifier_of s id ≠ verifier_of s0 id →
    verifier_of s id = SELF ∧ ∃ k, key_of (db s) id = Some k ∧ may_verify id k;
  a_members id c : id ∈ dom (chats (db s0)) → in_chat (db s) id c = true →
    in_chat (db s0) id c = true ∨ may_enter id c;
  a_sent e : e ∈ sent s →
    e ∈ sent s0 ∨ codeless e.2
    ∨ ∃ invite, single_with (db s) e.1 (QrInvite.contact_id invite)
        ∧ (may_ask invite e.2
           ∨ may_send invite e.2
             ∧ key_of (db s) (QrInvite.contact_id invite) = Some (QrInvite.fingerprint invite))
}.

Lemma key_of_prefix c c' id k :
  fps c `prefix_of` fps c' → key_of c id = Some k → key_of c' id = Some k.
Proof.
  intros [l Hl]. unfold key_of. rewrite Hl, list.filter_app.
  by destruct (base.filter _ (fps c)).
Qed.

Lemma admits_refl : admits s0.
Proof. split; [done..|by left|by left]. Qed.

Lemma quiet_admits {X} (x : C X) : quiet x → preserves admits x.
Proof.
  intros Hx s [H1 H2 H3 H4 H5]. destruct (Hx (frame_of s) s (keeps_refl s)) as [K1 K2 [K3 K4 K5 K6]].
  simpl in *. set (s' := (x s).2) in *. split.
  - by etrans.
  - by etrans.
  - intros id. unfold verifier_of in *. rewrite K1. intros Hne.
    destruct (H3 id Hne) as (E & k & Hk & Hm). split; [done|]. exists k.
    split; [by eapply key_of_prefix|done].
  - intros id c Hid Hin. apply H4; [done|]. apply K5; [by apply H2|done].
  - intros e [He|He]%K2; [|by right; left]. destruct (H5 e He) as [|[|(invite & Hs & Hm)]]; [by left|by right; left|].
    right. right. exists invite. split; [by apply K6|].
    destruct Hm as [|[Hm Hk]]; [by left|right]. split; [done|by eapply key_of_prefix].
Qed.

(** The contact behind an identifier of a user. *)
Lemma row_of_key s id r :
  row_of id s = Some r → key_of (db s) id = Fingerprint_from_str str_to_uppercase (c_fingerprint r).
Proof.
  unfold row_of, find_contact, key_of, fps. intros Hr.
  induction (contacts (db s)) as [|x l IH]; [done|].
  rewrite filter_cons in Hr. rewrite fmap_cons, filter_cons. simpl.
  destruct (decide (c_id x = id)) as [E|E].
  - rewrite decide_True in Hr by (by apply N.eqb_eq). simpl in Hr. by simplify_eq.
  - rewrite decide_False in Hr; [by apply IH|]. by intros ?%N.eqb_eq.
Qed.

Lemma contact_key s id r k :
  row_of id s = Some r → contact_fingerprint (contact_of_row s r) = Some k →
  key_of (db s) id = Some k.
Proof.
  intros Hr. rewrite (row_of_key _ _ _ Hr). unfold contact_fingerprint. simpl.
  by case_bool_decide.
Qed.

Lemma mark_by_self s c :
  (mark_contact_id_as_verified c (Some SELF) s).1 ≠ Ok tt
    ∧ (mark_contact_id_as_verified c (Some SELF) s).2 = s
  ∨ (mark_contact_id_as_verified c (Some SELF) s).1 = Ok tt
    ∧ c ≠ SELF ∧ is_Some (row_of c s)
    ∧ (mark_contact_id_as_verified c (Some SELF) s).2 = upd_verifier (<[c := SELF]>) s.
Proof.
  unfold mark_contact_id_as_verified, ensure_or. destruct (c =? SELF)%N eqn:E; [by left|].
  apply N.eqb_neq in E. rewrite bool_decide_eq_false_2 by congruence. run_se. cbn [negb].
  destruct (row_of c s) as [r|] eqn:Hr; [|by left]. case_bool_decide; [by left|]. run_se. cbn [negb].
  right. split; [done|]. split; [done|]. split; [done|]. simpl.
  unfold upd_verifier, update_verifier. f_equal. by rewrite orb_true_r.
Qed.

Lemma admits_mark s c k :
  key_of (db s) c = Some k → may_verify c k → admits s →
  admits (mark_contact_id_as_verified c (Some SELF) s).2.
Proof.
  intros Hk Hm Hs. destruct (mark_by_self s c) as [[_ ->]|(_ & _ & _ & ->)]; [done|].
  destruct Hs as [H1 H2 H3 H4 H5]. split; [done..| |done|done].
  intros id. unfold verifier_of in *. simpl. destruct (decide (id = c)) as [->|].
  - rewrite lookup_insert_eq. intros _. split; [done|]. by exists k.
  - rewrite lookup_insert_ne by done. apply H3.
Qed.

(** What [get_by_id_optional] says about the key of a contact. *)
Lemma get_by_id_optional_key s id ct s' k :
  get_by_id_optional id s = (Ok (Some ct), s') → id ≠ SELF → contact_fingerprint ct = Some k →
  s' = s ∧ key_of (db s) id = Some k.
Proof.
  unfold get_by_id_optional. run_se. destruct (row_of id s) as [r|] eqn:Hr; simpl; [|done].
  intros H Hid. rewrite (proj2 (N.eqb_neq id SELF) Hid) in H.
  destruct (id =? DEVICE)%N; simplify_eq; intros Hk; (split; [done|]).
  - by eapply (contact_key _ id r k).
  - by eapply contact_key.
Qed.

(** The sender counts as verified only with the expected key. *)
Lemma verify_sender_key fp c s s' :
  verify_sender_by_fingerprint fp c s = (Ok true, s') → key_of (db s') c = Some fp.
Proof.
  unfold verify_sender_by_fingerprint. unfold bind at 1.
  destruct (get_by_id_optional c s) as [[[ct|]|e] s1] eqn:E; [|by intros; simplify_eq..].
  case_bool_decide as Hfp; [|by intros; simplify_eq/=]. unfold when, bind, ret.
  destruct (mark_by_self s1 c) as [[Hm _]|(_ & Hself & _ & Hm)];
    destruct (mark_contact_id_as_verified c (Some SELF) s1) as [[[]|e] s2]; simpl in *; try done.
  intros ?. simplify_eq. by destruct (get_by_id_optional_key _ _ _ _ _ E Hself Hfp) as [-> Hk].
Qed.

Lemma verify_sender_admits fp c :
  may_verify c fp → preserves admits (verify_sender_by_fingerprint fp c).
Proof.
  intros Hm s Hs. unfold verify_sender_by_fingerprint. unfold bind at 1.
  pose proof (quiet_admits _ (get_by_id_optional_quiet c) s Hs) as Hs'.
  destruct (get_by_id_optional c s) as [[[ct|]|e] s'] eqn:E; [|done..]. cbv zeta.
  case_bool_decide as Hfp; [|done]. unfold when, bind, ret.
  assert (admits (mark_contact_id_as_verified c (Some SELF) s').2) as Hmark.
  { destruct (decide (c = SELF)) as [->|Hself].
    - by destruct (mark_by_self s' SELF) as [[_ ->]|(_ & ? & _)].
    - destruct (get_by_id_optional_key _ _ _ _ _ E Hself Hfp) as [-> Hk].
      by eapply admits_mark. }
  by destruct (mark_contact_id_as_verified c (Some SELF) s') as [[v|e] s2].
Qed.

Lemma quiet_key {X} (x : C X) s id k :
  quiet x → key_of (db s) id = Some k → key_of (db (x s).2) id = Some k.
Proof. intros Hx. eapply key_of_prefix, (k_fps _ _ (k_db _ _ (Hx _ s (keeps_refl s)))). Qed.

Lemma admits_bind {X Y} (x : C X) (g : X -> C Y) s :
  admits (x s).2 → (∀ v, preserves admits (g v)) → admits (bind x g s).2.
Proof. intros Hx Hg. unfold bind. destruct (x s) as [[v|e] s1]; [by apply Hg|done]. Qed.

(** A message to the inviter of an invitation. *)
Lemma send_msg_admits now invite id msg s :
  (may_ask invite (outgoing msg)
   ∨ may_send invite (outgoing msg)
     ∧ key_of (db s) (QrInvite.contact_id invite) = Some (QrInvite.fingerprint invite)) →
  single_with (db s) id (QrInvite.contact_id invite) →
  admits s → admits (send_msg now id msg s).2.
Proof.
  intros Hm Hsw Hs. rewrite send_msg_outgoing. unfold ensure_or. destruct (negb _); [|done].
  unfold bind at 1, ret at 1. apply admits_bind; [|intros res; apply quiet_admits; quiet_tac].
  unfold prepare_send_msg. apply admits_bind.
  - destruct Hs as [H1 H2 H3 H4 H5]. split; [done..|]. intros e. simpl.
    intros [He| ->%list_elem_of_singleton]%elem_of_app; [by apply H5|]. right. right. by exists invite.
  - intros _. apply quiet_admits.
    quiet_tac.
Qed.

Lemma send_auth_admits now invite id s :
  (∀ bob_fp, may_send invite (outgoing (handshake_msg (securejoin_header BobRequestWithAuth invite)
                                          (request_with_auth_param invite bob_fp)))) →
  key_of (db s) (QrInvite.contact_id invite) = Some (QrInvite.fingerprint invite) →
  single_with (db s) id (QrInvite.contact_id invite) →
  admits s → admits (send_handshake_message now invite id BobRequestWithAuth s).2.
Proof.
  intros Hm Hk Hsw Hs. unfold send_handshake_message.
  assert (quiet (in_db (self_fingerprint generated_fingerprint))) as Hq by eauto with quiet.
  set (go := bind _ _). assert (admits (go s).2); [|by destruct (QrInvite.is_v3 invite)].
  unfold go, bind at 1. pose proof (quiet_admits _ Hq s Hs) as Hs'.
  eapply (quiet_key _ _ _ _ Hq) in Hk. eapply (quiet_single _ _ _ _ Hq) in Hsw.
  destruct (in_db _ s) as [[bob_fp|e] s1]; [|done]. simpl in *.
  apply admits_bind; [|intros ?; apply preserves_ret].
  apply (send_msg_admits now invite); [|done..]. right. split; [apply Hm|done].
Qed.

(** One invitation the user scanned is answered. *)
Lemma answer_bobstate_admits now m row_id invite :
  (encrypted_and_signed m (QrInvite.fingerprint invite) = true →
   may_verify (QrInvite.contact_id invite) (QrInvite.fingerprint invite)
   ∧ ∀ bob_fp, may_send invite (outgoing (handshake_msg (securejoin_header BobRequestWithAuth invite)
                                            (request_with_auth_param invite bob_fp)))) →
  preserves admits (answer_bobstate now m row_id invite).
Proof.
  intros H s Hs. unfold answer_bobstate.
  destruct (encrypted_and_signed m _) eqn:E; [|done]. destruct (H eq_refl) as [Hv Hm]. cbn [negb].
  pose proof (verify_sender_admits _ _ Hv s Hs) as Hs1. unfold bind at 1.
  destruct (verify_sender_by_fingerprint _ _ s) as [[[|]|e] s1] eqn:E1; [|done..].
  apply verify_sender_key in E1. cbn [negb snd] in *.
  assert (quiet (private_chat_id now invite)) as Hq.
  { unfold private_chat_id. apply create_for_contact_quiet. }
  pose proof (quiet_admits _ Hq s1 Hs1) as Hs2. eapply (quiet_key _ _ _ _ Hq) in E1.
  unfold bind at 1. destruct (private_chat_id now invite s1) as [[id|e] s2] eqn:E2; [|done].
  apply create_for_contact_single in E2. cbn [snd] in *.
  assert (quiet (ignore_err (delete_securejoin_wait_msg id))) as Hd.
  { unfold delete_securejoin_wait_msg. quiet_tac. }
  pose proof (quiet_admits _ Hd s2 Hs2) as Hs3. eapply (quiet_key _ _ _ _ Hd) in E1.
  eapply (quiet_single _ _ _ _ Hd) in E2. unfold bind at 1.
  destruct (ignore_err _ s2) as [[?|e] s3]; [|done]. cbn [snd] in *.
  apply admits_bind; [by apply send_auth_admits|]. intros _. apply quiet_admits.
 unfold joining_chat_id.
 quiet_tac.
Qed.

Lemma enter_admits now id c :
  may_enter id c → 
  preserves (Er := core_error) admits
    (modify (upd_db (set_members (add_to_chat_contacts_table now id [c])))).
Proof.
  intros Hm. apply preserves_modify. intros s [H1 H2 H3 H4 H5].
  assert (Hne : ∀ id' c', (id', c') ≠ (id, c) →
    add_to_chat_contacts_table now id [c] (members (db s)) !! (id', c')
    = members (db s) !! (id', c')).
  { intros id' c' Hne. unfold add_to_chat_contacts_table, upsert. simpl.
    destruct (members (db s) !! (id, c)); simpl; by rewrite lookup_insert_ne. }
  split; [done..| |].
  - intros id' c' Hid. destruct (decide ((id', c') = (id, c))) as [E|Hd].
    + simplify_eq. by right.
    + unfold in_chat, is_contact_in_chat in *. simpl. rewrite Hne by done. by apply H4.
  - intros e He. destruct (H5 e He) as [|[|(invite & [Ht Hr] & Hm')]]; [by left|by right; left|]. right. right.
    exists invite. split; [|done]. split; [done|]. simpl.
    destruct (decide ((e.1, QrInvite.contact_id invite) = (id, c))) as [E|Hd]; [|by rewrite Hne].
    rewrite E. unfold add_to_chat_contacts_table, upsert. simpl.
    destruct (members (db s) !! (id, c)); simpl; by rewrite lookup_insert_eq.
Qed.

Lemma get_cmd_set p k v : k ≠ Param.Cmd → get_cmd (Params_set p k v) = get_cmd p.
Proof. intros Hk. unfold get_cmd, get_int. by rewrite Params_get_set, decide_False. Qed.

Lemma get_cmd_set_cmd p m : get_cmd (set_cmd p m) = m.
Proof.
  unfold get_cmd, set_cmd. rewrite get_int_set_int by (by destruct m). simpl.
  by rewrite SystemMessage_from_to_i32.
Qed.

Lemma get_cmd_set_optional p k v : k ≠ Param.Cmd → get_cmd (Params_set_optional p k v) = get_cmd p.
Proof.
  intros Hk. destruct v; [by apply get_cmd_set|]. unfold get_cmd, get_int, Params_get. simpl.
  by rewrite lookup_delete_ne.
Qed.

Lemma outgoing_param msg : msg_param (outgoing msg) = msg_param msg.
Proof. unfold outgoing. by case_bool_decide. Qed.

Lemma member_added_no_code contact chat b secret :
  codeless (outgoing (member_added_msg contact chat b secret)).
Proof.
  left. unfold is_handshake. rewrite outgoing_param. unfold member_added_msg, set_int. cbn [msg_param].
  destruct secret; rewrite ?get_cmd_set, get_cmd_set_optional, !get_cmd_set, get_cmd_set_cmd;
    done.
Qed.

Hint Extern 5 (preserves admits _) =>
  (apply quiet_admits; solve [eauto with quiet | quiet_tac]) : preserves.

Lemma promote_quiet now chat : quiet (promote now chat).
Proof. unfold promote. quiet_tac. Qed.

Lemma real_exists_quiet id : quiet (real_exists_by_id id).
Proof. unfold real_exists_by_id. quiet_tac. Qed.

Lemma add_contact_admits now sync id c b :
  may_enter id c → preserves admits (add_contact_to_chat_ex now sync id c b).
Proof.
  intros Hm. pose proof (enter_admits now id c Hm) as He.
  assert (∀ contact chat secret, quiet (send_msg now id (member_added_msg contact chat b secret))).
  { intros. apply send_msg_quiet, member_added_no_code. }
 pose proof real_exists_quiet.
  pose proof promote_quiet.
  unfold add_contact_to_chat_ex, reset_gossiped_timestamp, load_broadcast_secret. preserves_tac.
Qed.

Lemma send_alice_quiet now c step :
  (step = lit "vc-contact-confirm" ∨ ∃ p, (length p <= 2)%nat ∧ step = p ++ lit "-auth-required") →
  quiet (send_alice_handshake_msg now c step).
Proof.
  intros Hstep. unfold send_alice_handshake_msg.
  apply quiet_bind; [apply get_for_contact_quiet|intros chat].
  apply quiet_bind; [|intros; apply quiet_ret]. apply send_msg_quiet. right. by exists step.
Qed.

Lemma get_prefix_length n t p : get_prefix n t = Some p → (N.of_nat (length p) <= n)%N.
Proof.
  revert n p. induction t as [|c t IH]; intros n p; cbn [get_prefix]; destruct (n =? 0)%N eqn:E; try (by intros [= <-]; cbn; lia).
  destruct (len_utf8 c <=? n)%N eqn:El; [|done]. destruct (get_prefix _ t) as [q|] eqn:Eq; [|done].
  intros [= <-]. apply IH in Eq. cbn [length]. apply N.leb_le in El.
  assert (1 <= len_utf8 c)%N by (unfold len_utf8; repeat case_match; lia). lia.
Qed.

Lemma admit_joiner_admits now c joining :
  (∀ id, joining = Some id → may_enter id c) → preserves admits (admit_joiner now c joining).
Proof.
  intros Hm.
  assert (quiet (send_alice_handshake_msg now c (lit "vc-contact-confirm"))) as Ha by (apply send_alice_quiet; by left).
  unfold admit_joiner, regossip_keys, info_chat_id, inviter_progress, create_for_contact.
  destruct joining as [id|]; [pose proof (add_contact_admits now false id c true (Hm id eq_refl))|];
    preserves_tac.
Qed.

Lemma answer_bobstates_admits now m sent_before rows :
  (∀ id invite, (id, invite) ∈ rows →
   encrypted_and_signed m (QrInvite.fingerprint invite) = true →
   may_verify (QrInvite.contact_id invite) (QrInvite.fingerprint invite)
   ∧ ∀ bob_fp, may_send invite (outgoing (handshake_msg (securejoin_header BobRequestWithAuth invite)
                                            (request_with_auth_param invite bob_fp)))) →
  preserves admits (answer_bobstates now m sent_before rows).
Proof.
  revert sent_before. induction rows as [|[id invite] rows IH]; intros sent_before H; simpl;
    [apply preserves_ret|].
  apply preserves_bind.
  - apply answer_bobstate_admits, (H id). by left.
  - intros sent_now. apply IH. intros id' invite' Hin. apply (H id'). by right.
Qed.

Lemma handle_request_quiet now r n : quiet (handle_request now r n).
Proof.
  unfold handle_request. apply quiet_bind; [quiet_tac|intros known].
  destruct (negb known); [quiet_tac|]. apply quiet_bind; [quiet_tac|intros addr].
  apply quiet_bind; [apply quiet_in_db, add_or_lookup_ex_quiet|intros contact]. cbv zeta.
  apply quiet_bind; [|intros; quiet_tac].
  apply send_alice_quiet. right. eexists. split; [|reflexivity].
  destruct (get_header _ _ ≫= get_prefix 2) as [p|] eqn:E; [|cbn; lia].
  apply bind_Some in E as (h & _ & E%get_prefix_length). lia.
Qed.

Lemma handle_request_pubkey_quiet r : quiet (handle_request_pubkey r).
Proof.
 unfold handle_request_pubkey, lookup_id_by_addr_ex,
    create_outgoing_rfc724_mid, insert_tombstone, insert_into_smtp. quiet_tac.
Qed.

Lemma handle_member_added_quiet r c : quiet (handle_member_added r c).
Proof. unfold handle_member_added. quiet_tac. Qed.
End Admits.

(** ** Proofs of having scanned an invitation *)

Section Trust.
Context {PF : Platform} {OS : Outside} {SD : Sending} {RD : Rendering} {JS : Json SyncItem}
  {JQ : Json QrInvite} {SO : SendingOk}.

(** The user scanned this invitation and waits for the answer of the inviter. *)
Definition scanned (s : Core) (invite : QrInvite) : Prop :=
  ∃ id text, (id, text) ∈ bobstate s ∧ of_json text = Some invite.

Definition own_fingerprint (s : Core) : str :=
  default generated_fingerprint (self_fingerprint_opt (db s)).

(** The message shows that the owner of the key [fp] has the code of an invitation of the user:
    it is signed with the key and names it, it has the code, and it was meant for the user. *)
Record joiner_proof (s : Core) (r : Received) (fp : Fingerprint) (token : token_row) : Prop := {
  jp_step : get_secure_join_step (mime r) = Some RequestWithAuth;
  jp_header : ∃ h, get_header (mime r) HeaderDef.SecureJoinFingerprint = Some h
                   ∧ Fingerprint_from_str str_to_uppercase h = Some fp;
  jp_signed : signature (mime r) = Some (hex fp);
  jp_token : token ∈ tokens (account s) ∧ tk_namespc token = Namespace.Auth
             ∧ get_header (mime r) HeaderDef.SecureJoinAuth = Some (tk_token token);
  jp_gossip : ∃ addr, gossiped_keys (mime r) !! addr = Some (own_fingerprint s)
}.

(** What the handshake may bring about, seen from before. *)
Definition proves_verified (now : Z) (s : Core) (r : Received) (c : N) (id : N) (fp : Fingerprint)
  : Prop :=
  (id = c ∧ ∃ token, joiner_proof s r fp token
                     ∧ (now < tk_timestamp token + VERIFICATION_TIMEOUT_SECONDS)%Z)
  ∨ ∃ invite, scanned s invite ∧ id = QrInvite.contact_id invite
              ∧ fp = QrInvite.fingerprint invite ∧ signature (mime r) = Some (hex fp).

Definition proves_entry (s : Core) (r : Received) (c : N) (id c' : N) : Prop :=
  c' = c ∧ (c ∉ contact_blocked s) ∧
  ∃ fp token, joiner_proof s r fp token ∧ key_of (db s) c = Some fp
    ∧ tk_foreign_key token ≠ []
    ∧ ch_grpid <$> chats (db s) !! id = Some (tk_foreign_key token).

(** The request that starts the protocol, and the message with the code. *)
Definition request_msg (invite : QrInvite) : Message :=
  outgoing (handshake_msg (securejoin_header BobRequest invite) (request_param invite)).

Definition code_msg (invite : QrInvite) (bob_fp : str) : Message :=
  outgoing (handshake_msg (securejoin_header BobRequestWithAuth invite) (request_with_auth_param invite bob_fp)).

Definition proves_sending (s : Core) (r : Received) (invite : QrInvite) (msg : Message) : Prop :=
  scanned s invite ∧ signature (mime r) = Some (hex (QrInvite.fingerprint invite))
  ∧ ∃ bob_fp, msg = code_msg invite bob_fp.

Lemma encrypted_and_signed_spec m fp :
  encrypted_and_signed m fp = true → signature m = Some (hex fp).
Proof.
  unfold encrypted_and_signed. destruct (signature m); [|done]. by intros ->%bool_decide_eq_true.
Qed.

(** Loading the own key changes nothing but the key itself. *)
Lemma load_self_public_key_spec s :
  load_self_public_key s = (Ok (own_fingerprint s), upd_db (λ _, (self_fingerprint generated_fingerprint (db s)).2) s)
  ∧ contacts (self_fingerprint generated_fingerprint (db s)).2 = contacts (db s)
  ∧ chats (self_fingerprint generated_fingerprint (db s)).2 = chats (db s).
Proof.
  unfold load_self_public_key, in_db, self_fingerprint, own_fingerprint.
  by destruct (self_fingerprint_opt (db s)).
Qed.

Lemma find_auth_token_spec auth s token :
  find_auth_token auth s = Some token →
  token ∈ tokens (account s) ∧ tk_namespc token = Namespace.Auth ∧ tk_token token = auth.
Proof.
  unfold find_auth_token. intros H%head_Some_elem_of. by apply list_elem_of_filter in H as [[? ?] ?].
Qed.

Lemma joining_chat_spec grpid s id s' :
  joining_chat grpid s = (Ok (Some (Some id)), s') →
  grpid ≠ [] ∧ ch_grpid <$> chats (db s) !! id = Some grpid.
Proof.
  unfold joining_chat, get_chat_id_by_grpid. case_bool_decide; [done|]. run_se.
  destruct (base.filter _ _) as [|x l] eqn:E; [done|]. simpl. intros ?. simplify_eq.
  split; [done|]. assert (id ∈ id :: l) as Hin by by left. rewrite <-E in Hin.
  by apply list_elem_of_filter in Hin as [? _].
Qed.

Lemma joining_chat_ro grpid s : (joining_chat grpid s).2 = s.
Proof. unfold joining_chat, get_chat_id_by_grpid. by case_bool_decide. Qed.

Lemma get_by_id_user id s :
  contact_is_special id = false →
  get_by_id id s = match row_of id s with
                   | Some row => (Ok (contact_of_row s row), s)
                   | None => (Err (NoSuchContact id), s)
                   end.
Proof.
  intros Hid. unfold get_by_id, get_by_id_optional. run_se.
  destruct (row_of id s) as [row|]; simpl; [|done].
  unfold contact_is_special, CONTACT_LAST_SPECIAL in Hid. apply N.leb_gt in Hid.
  rewrite (proj2 (N.eqb_neq id SELF)), (proj2 (N.eqb_neq id DEVICE)); [done|..];
    unfold SELF, DEVICE; lia.
Qed.

Lemma row_of_id id s row : row_of id s = Some row → c_id row = id.
Proof.
  unfold row_of, find_contact. intros H%head_Some_elem_of.
  apply list_elem_of_filter in H as [H _]. by apply N.eqb_eq.
Qed.

(** What holds before a handshake is handled, after the own key was loaded. *)
Record same_start (s s1 : Core) : Prop := {
  ss_account : account s1 = account s;
  ss_blocked : contact_blocked s1 = contact_blocked s;
  ss_bobstate : bobstate s1 = bobstate s;
  ss_contacts : contacts (db s1) = contacts (db s);
  ss_chats : chats (db s1) = chats (db s)
}.

Section Handshake.
Context (now : Z) (r : Received) (c : N) (s : Core).
Hypothesis Hspecial : contact_is_special c = false.

Local Abbreviation allowed :=
  (admits s (proves_verified now s r c) (proves_entry s r c) (λ _ _, False) (proves_sending s r)).

Lemma not_self : c ≠ SELF.
Proof. intros ->. done. Qed.

Lemma handle_request_with_auth_allowed s1 :
  get_secure_join_step (mime r) = Some RequestWithAuth →
  (∃ addr, gossiped_keys (mime r) !! addr = Some (own_fingerprint s)) →
  same_start s s1 → allowed s1 → allowed (handle_request_with_auth now r c s1).2.
Proof.
  intros Hstep Hgossip [Ha Hb Hbob Hc Hch] Hs. unfold handle_request_with_auth.
  destruct (get_header (mime r) HeaderDef.SecureJoinFingerprint) as [h|] eqn:Eh; [|done].
  destruct (Fingerprint_from_str _ h) as [fp|] eqn:Efp; [|done]. unfold ok_or, bind at 1, ret at 1.
  destruct (encrypted_and_signed _ _) eqn:Es; [|done]. apply encrypted_and_signed_spec in Es.
  cbn [negb]. destruct (get_header (mime r) HeaderDef.SecureJoinAuth) as [auth|] eqn:Eauth; [|done].
  unfold bind at 1, gets at 1. destruct (find_auth_token auth s1) as [token|] eqn:Et; [|done].
  apply find_auth_token_spec in Et as (Ht1 & Ht2 & Ht3). rewrite Ha in Ht1.
  unfold bind at 1. pose proof (joining_chat_ro (tk_foreign_key token) s1) as Hro.
  destruct (joining_chat _ s1) as [[[joining|]|e] s2] eqn:Ej; simpl in Hro; subst s2; [|done..].
  unfold bind at 1. rewrite get_by_id_user by done.
  destruct (row_of c s1) as [row|] eqn:Erow; [|done].
  case_bool_decide as Hfp; [|done]. cbn [negb].
  assert (joiner_proof s r fp token) as Hjp.
  { split; [done|by exists h|done| |done]. rewrite Ht3. done. }
  pose proof (contact_key _ _ _ _ Erow Hfp) as Hk.
  assert (key_of (db s) c = Some fp) as Hk0 by (unfold key_of, fps in *; by rewrite Hc in Hk).
  apply admits_bind.
  - destruct (now <? _)%Z eqn:Eold; [|done]. unfold when. eapply admits_mark; [done| |done].
    left. split; [done|]. exists token. split; [done|]. by apply Z.ltb_lt.
  - intros _. simpl. case_bool_decide as Hbl; [apply preserves_ret|].
    apply admit_joiner_admits. intros id ->. apply joining_chat_spec in Ej as [Hne Hid].
    rewrite Hb, (row_of_id _ _ _ Erow) in Hbl. rewrite Hch in Hid. split; [done|]. split; [done|]. by exists fp, token.
Qed.

Lemma handle_auth_required_allowed s1 :
  same_start s s1 → allowed s1 → allowed (handle_auth_required_or_pubkey now (mime r) s1).2.
Proof.
  intros [Ha Hb Hbob Hc Hch] Hs. unfold handle_auth_required_or_pubkey.
  unfold bind at 1, gets at 1. rewrite Hbob.
  destruct (mapM parse_bobstate (bobstate s)) as [rows|] eqn:Erows; [|done].
  unfold ok_or, bind at 1, ret at 1.
  apply admits_bind; [|intros ?; apply preserves_ret].
  apply answer_bobstates_admits; [|done]. intros id invite Hin Hsig.
  apply encrypted_and_signed_spec in Hsig.
  assert (scanned s invite) as Hsc.
  { apply list_elem_of_lookup in Hin as [i Hi].
    apply mapM_Some_1 in Erows. destruct (Forall2_lookup_r _ _ _ _ _ Erows Hi) as ([id' text] & Hl & Hp).
    unfold parse_bobstate in Hp. simpl in Hp. destruct (of_json text) as [q|] eqn:Eq; [|done].
    simplify_eq/=. exists id, text. split; [by eapply list_elem_of_lookup_2|done]. }
  split.
  - right. by exists invite.
  - intros fp. split; [done|]. split; [done|]. by exists fp.
Qed.

Lemma handshake_allowed : allowed (handle_securejoin_handshake now r c s).2.
Proof.
  unfold handle_securejoin_handshake, ensure_or. rewrite Hspecial. cbn [negb].
  unfold bind at 1, ret at 1.
  destruct (get_secure_join_step (mime r)) as [step|] eqn:Estep; [|apply admits_refl].
  unfold ok_or, bind at 1, ret at 1.
  destruct (load_self_public_key_spec s) as (El & Ec & Ech).
  set (s1 := upd_db (λ _, (self_fingerprint generated_fingerprint (db s)).2) s) in *.
  assert (allowed s1) as H1.
  { pose proof (quiet_admits s (proves_verified now s r c) (proves_entry s r c) (λ _ _, False) (proves_sending s r)
      _ load_self_public_key_quiet s (admits_refl _ _ _ _ _)) as H. by rewrite El in H. }
  assert (same_start s s1) as Hss by (by split).
  assert (same_start s s) as Hss0 by (by split).
  pose proof (admits_refl s (proves_verified now s r c) (proves_entry s r c) (λ _ _, False) (proves_sending s r))
    as H0.
  unfold bind at 1. destruct (needs_own_gossip step) eqn:En.
  - unfold bind at 1. rewrite El. cbn [ret].
    destruct (gossips_self (mime r) (own_fingerprint s)) eqn:Eg; [|done]. cbn [negb].
    assert (∃ addr, gossiped_keys (mime r) !! addr = Some (own_fingerprint s)) as Hg.
    { unfold gossips_self in Eg. apply existsb_exists in Eg as ([a k] & Hin & Hk).
      apply bool_decide_eq_true in Hk. simpl in Hk. subst k.
      exists a. by apply elem_of_map_to_list, list_elem_of_In. }
    destruct step; try done; simpl.
    + by apply handle_auth_required_allowed.
    + by apply handle_request_with_auth_allowed.
    + apply (quiet_admits s _ _ _ _ (emit_core _ ;;; ret Ignore)); [quiet_tac|done].
    + by apply quiet_admits; [apply handle_member_added_quiet|].
  - unfold ret at 1. cbn [negb]. destruct step; try done; simpl.
    + by apply quiet_admits; [apply handle_request_quiet|].
    + by apply quiet_admits; [apply handle_request_pubkey_quiet|].
    + by apply handle_auth_required_allowed.
Qed.
End Handshake.

(** ** Scanning an invitation *)

(** Verifying somebody leaves the 1:1 chats alone. *)
Lemma verify_sender_single fp c s id c' :
  single_with (db s) id c' → single_with (db (verify_sender_by_fingerprint fp c s).2) id c'.
Proof.
  intros Hs. unfold verify_sender_by_fingerprint, bind at 1.
  eapply (quiet_single _ _ _ _ (get_by_id_optional_quiet c)) in Hs.
  destruct (get_by_id_optional c s) as [[[ct|]|e] s1]; [|done..]. cbn [snd] in Hs.
  case_bool_decide; [|done]. unfold when, bind, ret.
  destruct (mark_by_self s1 c) as [[_ Hm]|(_ & _ & _ & Hm)];
    destruct (mark_contact_id_as_verified c (Some SELF) s1) as [[v|e] s2]; simpl in Hm; by subst s2.
Qed.

Section Scanning.
Context (now : Z) (invite : QrInvite) (s : Core).

Local Abbreviation alice := (QrInvite.contact_id invite).

Local Abbreviation by_scan :=
  (admits s (λ id fp, id = alice ∧ fp = QrInvite.fingerprint invite)
     (λ _ c', c' = alice)
     (λ i msg, i = invite ∧ QrInvite.is_v3 invite = false ∧ msg = request_msg invite)
     (λ i msg, i = invite ∧ ∃ bob_fp, msg = code_msg invite bob_fp)).

Lemma send_request_by_scan id s1 :
  single_with (db s1) id alice → by_scan s1 → by_scan (send_handshake_message now invite id BobRequest s1).2.
Proof.
  intros Hsw Hs. destruct (QrInvite.is_v3 invite) eqn:E.
  - apply quiet_admits; [|done].
    unfold send_handshake_message, create_outgoing_rfc724_mid, insert_tombstone, insert_into_smtp. rewrite E. quiet_tac.
  - unfold send_handshake_message. rewrite E. apply admits_bind; [|intros ?; apply preserves_ret].
    apply (send_msg_admits _ _ _ _ _ now invite); [by left|done..].
Qed.

Lemma show_joining_by_scan id known : preserves by_scan (show_joining now invite id known).
Proof.
  assert (∀ id, quiet (joining_chat_id now invite id)) as Hj.
  { intros.
 unfold joining_chat_id. quiet_tac. }

  assert (∀ id, preserves (Er := core_error) by_scan
    (modify (upd_db (set_members (add_to_chat_contacts_table now id [alice]))))) as He.
  { intros. by apply enter_admits. }
  assert (∀ X (x : C X), quiet x → preserves by_scan x) as Hq by (intros; by apply quiet_admits).
  unfold show_joining. destruct invite as [i|i name grpid|i name grpid]; [apply Hq; quiet_tac..|].
  apply preserves_bind; [by apply Hq|intros chat].
  apply preserves_bind; [apply Hq; quiet_tac|intros has_alice].
  apply preserves_bind; [apply preserves_when, He|intros _]. apply Hq. quiet_tac.
Qed.

Lemma ask_by_scan id known s1 :
  single_with (db s1) id alice → by_scan s1 →
  by_scan (((send_handshake_message now invite id BobRequest ;;; insert_new_db_entry invite ;;; ret tt) ;;;
            show_joining now invite id known) s1).2.
Proof.
  intros Hsw Hs. apply admits_bind; [|intros _; apply show_joining_by_scan].
  apply admits_bind; [by apply send_request_by_scan|]. intros _. apply quiet_admits.
  unfold insert_new_db_entry. quiet_tac.
Qed.

Lemma start_protocol_by_scan : by_scan (start_protocol now invite s).2.
Proof.
  assert (∀ X (x : C X), quiet x → preserves by_scan x) as Hq by (intros; by apply quiet_admits).
  unfold start_protocol. cbv zeta. unfold bind at 1.
  assert (quiet (private_chat_id now invite)) as Hp by apply create_for_contact_quiet.
  pose proof (Hq _ _ Hp s (admits_refl _ _ _ _ _)) as H1.
  destruct (private_chat_id now invite s) as [[id|e] s1] eqn:E1; [|done].
  apply create_for_contact_single in E1. cbn [snd] in *.
  match goal with |- by_scan (bind ?x _ _).2 => assert (quiet x) as Hx by
    (destruct invite; quiet_tac); unfold bind at 1;
    pose proof (Hq _ _ Hx s1 H1) as H2; eapply (quiet_single _ _ _ _ Hx) in E1;
    destruct (x s1) as [[?|e] s2] end; [|done]. cbn [snd] in *.
  assert (quiet (key_contains_all_invite_addrs invite)) as Hk.
  { unfold key_contains_all_invite_addrs. quiet_tac. }
  unfold bind at 1. pose proof (Hq _ _ Hk s2 H2) as H3. eapply (quiet_single _ _ _ _ Hk) in E1.
  destruct (key_contains_all_invite_addrs invite s2) as [[known|e] s3]; [|done]. cbn [snd] in *.
  assert (quiet (already_joined invite)) as Ha.
  { unfold already_joined. quiet_tac. }
  unfold bind at 1. pose proof (Hq _ _ Ha s3 H3) as H4. eapply (quiet_single _ _ _ _ Ha) in E1.
  destruct (already_joined invite s3) as [[[joined|]|e] s4]; [|clear Ha|done]; cbn [snd] in *.
  { apply Hq; [quiet_tac|done]. }
  unfold bind at 1, and_then. destruct known.
  - pose proof (verify_sender_admits s (λ id fp, id = alice ∧ fp = QrInvite.fingerprint invite)
      (λ _ c', c' = alice) (λ i msg, i = invite ∧ QrInvite.is_v3 invite = false ∧ msg = request_msg invite)
      (λ i msg, i = invite ∧ ∃ bob_fp, msg = code_msg invite bob_fp)
      (QrInvite.fingerprint invite) alice (conj eq_refl eq_refl) s4 H4) as H5.
    pose proof (verify_sender_single (QrInvite.fingerprint invite) alice _ _ _ E1) as E5'.
    destruct (verify_sender_by_fingerprint _ _ s4) as [[[|]|e] s5] eqn:E5; [| |done]; cbn [snd] in *.
    + apply admits_bind; [|intros _; apply show_joining_by_scan].
      apply admits_bind; [|intros _; apply Hq; quiet_tac].
      apply verify_sender_key in E5. apply send_auth_admits; [|done..].
      intros fp. split; [done|]. by exists fp.
    + by apply ask_by_scan.
  - unfold ret at 1. by apply ask_by_scan.
Qed.
End Scanning.

(** ** Theorems *)

Lemma handshake_allowed_any now r c s :
  admits s (proves_verified now s r c) (proves_entry s r c) (λ _ _, False) (proves_sending s r)
    (handle_securejoin_handshake now r c s).2.
Proof.
  destruct (contact_is_special c) eqn:E; [|by apply handshake_allowed].
  unfold handle_securejoin_handshake, ensure_or. rewrite E. apply admits_refl.
Qed.

(** C1. A received handshake message makes a contact verified, by the user and by nobody else,
    only if the key the contact is known by has signed the message, and either the message has a
    code of an invitation of the user that is not older than a week, names the signing key and
    was encrypted for the user, or it answers an invitation the user scanned and the key is the
    one in the scanned code. *)
Theorem handshake_verifies_only_proven now r c s id :
  let s' := (handle_securejoin_handshake now r c s).2 in
  verifier_of s' id ≠ verifier_of s id →
  verifier_of s' id = SELF
  ∧ ∃ fp, key_of (db s') id = Some fp ∧ signature (mime r) = Some (hex fp)
    ∧ ((id = c ∧ ∃ token, joiner_proof s r fp token
                          ∧ (now < tk_timestamp token + VERIFICATION_TIMEOUT_SECONDS)%Z)
       ∨ ∃ invite, scanned s invite ∧ id = QrInvite.contact_id invite
                   ∧ fp = QrInvite.fingerprint invite).
Proof.
  intros s' H. destruct (a_verifier _ _ _ _ _ _ (handshake_allowed_any now r c s) id H)
    as (Hv & fp & Hk & Hp).
  split; [done|]. exists fp. split; [done|].
  destruct Hp as [(-> & token & Hj & Ht)|(invite & Hs & Hi & Hf & Hsig)].
  - split; [apply (jp_signed _ _ _ _ Hj)|]. left. split; [done|]. by exists token.
  - split; [done|]. right. by exists invite.
Qed.

(** C2. A received handshake message lets nobody into an existing chat except its sender, and
    the sender only if not blocked and with a proof of having the code of an invitation to the
    group or channel with exactly this identifier, signed with the key the sender is known by. *)
Theorem handshake_admits_only_proven now r c s id c' :
  is_Some (chats (db s) !! id) →
  in_chat (db (handle_securejoin_handshake now r c s).2) id c' = true →
  in_chat (db s) id c' = true
  ∨ c' = c ∧ (c ∉ contact_blocked s)
    ∧ ∃ fp token, joiner_proof s r fp token ∧ key_of (db s) c = Some fp
        ∧ tk_foreign_key token ≠ []
        ∧ ch_grpid <$> chats (db s) !! id = Some (tk_foreign_key token).
Proof.
  intros Hid. apply (a_members _ _ _ _ _ _ (handshake_allowed_any now r c s)). by apply elem_of_dom.
Qed.

(** The first request of a v3 invitation is no message: a mail is queued for the addresses of the
    invitation. *)
Lemma v3_request_mail now invite id s :
  QrInvite.is_v3 invite = true →
  let s' := (send_handshake_message now invite id BobRequest s).2 in
  sent s' = sent s
  ∧ (smtp_rows s' = smtp_rows s
     ∨ ∃ row_id row t, smtp_rows s' = <[row_id := row]> (smtp_rows s)
         ∧ sm_recipients row = join [SP] (QrInvite.addrs invite)
         ∧ render_symm_encrypted (lit "vc-request-pubkey") (sm_rfc724_mid row) false (QrInvite.authcode invite)
             (securejoin_secret (hex (QrInvite.fingerprint invite)) (QrInvite.authcode invite)) t
           = Some (sm_mime row)).
Proof.
  intros E. unfold send_handshake_message, create_outgoing_rfc724_mid, insert_tombstone, insert_msg, insert_into_smtp. rewrite E.
  run_se. cbv zeta. destruct (render_symm_encrypted _ _ _ _ _ _) as [m|] eqn:Er; cbn [ok_or]; [|by split; [|left]].
  run_se. unfold to_u32. destruct (_ <=? _)%N; [|by split; [|left]]. run_se. split; [done|]. right. by eexists _, _, _.
Qed.

(** A request that knows of an invitation nothing but its number. *)
Definition plain_request (step number : str) : Message :=
  outgoing (handshake_msg step (set_int (Params_set (handshake_param step) Param.Arg2 number) Param.ForcePlaintext 1)).

Lemma request_msg_plain invite :
  ∃ step, step ∈ [lit "vc-request"; lit "vg-request"]
    ∧ request_msg invite = plain_request step (QrInvite.invitenumber invite).
Proof.
  destruct invite; [exists (lit "vc-request")|exists (lit "vg-request")..];
    (split; [set_solver|reflexivity]).
Qed.


(** After a contact was verified, letting it in does not change who verified it. *)
Lemma admit_joiner_verifier now c joining s id :
  verifier_of (admit_joiner now c joining s).2 id = verifier_of s id.
Proof.
  destruct (decide (verifier_of (admit_joiner now c joining s).2 id = verifier_of s id))
    as [|Hne]; [done|].
  assert (admits s (λ _ _, False) (λ _ _, True) (λ _ _, False) (λ _ _, False)
            (admit_joiner now c joining s).2) as Ha.
  { apply admit_joiner_admits; [done|apply admits_refl]. }
  by destruct (a_verifier _ _ _ _ _ _ Ha id Hne) as (_ & ? & _ & []).
Qed.

Lemma mark_by_self_ok s c row :
  c ≠ SELF → row_of c s = Some row → c_fingerprint row ≠ [] →
  mark_contact_id_as_verified c (Some SELF) s = (Ok tt, upd_verifier (<[c := SELF]>) s).
Proof.
  intros Hc Hrow Hfp. unfold mark_contact_id_as_verified, ensure_or.
  rewrite (proj2 (N.eqb_neq c SELF) Hc), bool_decide_eq_false_2 by congruence. run_se. cbn [negb].
  rewrite Hrow, bool_decide_eq_false_2 by done. run_se. cbn [negb]. simpl. f_equal.
  unfold upd_verifier, update_verifier. f_equal. by rewrite orb_true_r.
Qed.

Lemma joining_chat_known grpid s :
  grpid = [] ∨ (∃ id, ch_grpid <$> chats (db s) !! id = Some grpid) →
  ∃ joining, joining_chat grpid s = (Ok (Some joining), s).
Proof.
  unfold joining_chat, get_chat_id_by_grpid. case_bool_decide as E; [by exists None|].
  intros [|[id Hid]]; [done|]. run_se. destruct (base.filter _ _) as [|x l] eqn:Ef; [|by eexists].
  exfalso. assert (id ∈ @nil N) as []%not_elem_of_nil. rewrite <-Ef.
  apply list_elem_of_filter. split; [done|]. unfold row_ids. rewrite merge_sort_Permutation.
  apply elem_of_elements, elem_of_dom. by destruct (chats (db s) !! id).
Qed.

(** C27. Whoever proves to have the code of an invitation in time gets verified, also when a later
    step fails: the message names the key that signed it, has the code, gossips the own key, the
    sender is known by this key, and the group of the invitation, if any, is known. *)
Theorem proven_joiner_is_verified now r c s fp token :
  contact_is_special c = false →
  joiner_proof s r fp token →
  find_auth_token (tk_token token) s = Some token →
  (∃ row, row_of c s = Some row ∧ contact_fingerprint (contact_of_row s row) = Some fp) →
  (tk_foreign_key token = []
   ∨ ∃ id, ch_grpid <$> chats (db s) !! id = Some (tk_foreign_key token)) →
  (now < tk_timestamp token + VERIFICATION_TIMEOUT_SECONDS)%Z →
  verifier_of (handle_securejoin_handshake now r c s).2 c = SELF.
Proof.
  intros Hspecial [Hstep (h & Hh & Hfp) Hsig (_ & _ & Hauth) (a & Hg)] Htok (row & Hrow & Hct)
    Hgrp Hnow.
  unfold handle_securejoin_handshake, ensure_or. rewrite Hspecial, Hstep. run_se. cbn [negb].
  destruct (load_self_public_key_spec s) as (El & Ec & Ech). cbn [needs_own_gossip].
  run_se. rewrite El. set (s1 := upd_db (λ _, (self_fingerprint generated_fingerprint (db s)).2) s) in *.
  assert (gossips_self (mime r) (own_fingerprint s) = true) as ->.
  { apply existsb_exists. exists (a, own_fingerprint s).
    split; [by apply list_elem_of_In, elem_of_map_to_list|]. by apply bool_decide_eq_true. }
  cbn [negb handle_step]. unfold handle_request_with_auth. rewrite Hh. unfold ok_or. rewrite Hfp.
  unfold bind at 1, ret at 1. unfold encrypted_and_signed. rewrite Hsig, bool_decide_eq_true_2 by done.
  cbn [negb]. rewrite Hauth. unfold bind at 1, gets at 1.
  change (find_auth_token (tk_token token) s1) with (find_auth_token (tk_token token) s).
  rewrite Htok. unfold bind at 1.
  destruct (joining_chat_known (tk_foreign_key token) s1) as [joining Ej].
  { unfold s1. simpl. by rewrite Ech. }
  rewrite Ej. unfold bind at 1. rewrite get_by_id_user by done.
  assert (row_of c s1 = Some row) as Hrow1.
  { unfold row_of, find_contact, s1. simpl. by rewrite Ec. }
  rewrite Hrow1. rewrite bool_decide_eq_true_2 by exact Hct. cbn [negb].
  apply Z.ltb_lt in Hnow. rewrite Hnow. unfold when, bind at 1.
  rewrite (mark_by_self_ok s1 c row); [|by intros ->|done|].
  2: { intros E. unfold contact_fingerprint in Hct. simpl in Hct.
       by rewrite bool_decide_eq_true_2 in Hct. }
  assert (verifier_of (upd_verifier (<[c := SELF]>) s1) c = SELF) as Hv.
  { unfold verifier_of. simpl. by rewrite lookup_insert_eq. }
  destruct (ct_blocked _); [done|]. by rewrite admit_joiner_verifier.
Qed.

(** ** Chains of verification end *)

Lemma quiet_verification {X} (x : C X) : quiet x → preserves verification_wf x.
Proof.
  intros Hx s Hs. unfold verification_wf, verifier_of.
  by rewrite (k_verifier _ _ (Hx _ s (keeps_refl s))).
Qed.

(** Contacts that become verified by the user keep the chains of the others intact. *)
Lemma verified_by_self_wf f g :
  chains_wf f → (∀ a, g a ≠ f a → g a = SELF) → chains_wf g.
Proof.
  intros [H1 H2] Hg.
  assert (Hsame : ∀ a, g a ≠ SELF → g a = f a).
  { intros a Ha. destruct (decide (g a = f a)); [done|]. by destruct Ha; apply Hg. }
  split.
  - intros a Ha0 Ha1 Haa. pose proof (Hsame a Ha1) as E. rewrite E in *. clear E.
    destruct (decide (g (f a) = SELF)) as [->|Hb]; [split; [done|congruence]|].
    rewrite (Hsame _ Hb). by apply H1.
  - intros a Ha. destruct (decide (g a = SELF)) as [E|E]; [by apply by_user|].
    rewrite (Hsame a E) in Ha. specialize (H2 a Ha). clear Ha. induction H2 as [a H|a H|a H IH].
    + rewrite (Hsame a E) in E. done.
    + apply by_unknown. by rewrite Hsame.
    + apply by_contact. rewrite (Hsame a E).
      destruct (decide (g (f a) = SELF)); [by apply by_user|by apply IH].
Qed.

Lemma admits_verification s v e a t s' :
  admits s v e a t s' → verification_wf s → verification_wf s'.
Proof.
  intros Ha Hs. eapply verified_by_self_wf; [exact Hs|]. intros id Hid.
  apply (a_verifier _ _ _ _ _ _ Ha id Hid).
Qed.

(** What may verify a contact: handshakes received, seen from another device or started by
    scanning an invitation, the verified keys another contact passes on, and a marking by the
    program itself. *)
Inductive trust_op :=
| ReceiveHandshake (now : Z) (r : Received) (c : ContactId)
| ObserveHandshake (m : MimeMessage) (c : ContactId)
| ScanInvite (now : Z) (invite : QrInvite)
| ReceiveKeys (m : MimeMessage) (from_id : ContactId) (gossip_verified : gset str)
| MarkVerified (c : ContactId) (verifier_id : option N).

Definition receive_keys (m : MimeMessage) (from_id : ContactId) (gossip_verified : gset str)
  : C unit :=
  v <- has_verified_encryption m from_id ;;
  match v with
  | Verified => mark_recipients_as_verified from_id m gossip_verified
  | NotVerified => ret tt
  end.

Definition run_trust (s : Core) (op : trust_op) : Core :=
  match op with
  | ReceiveHandshake now r c => (handle_securejoin_handshake now r c s).2
  | ObserveHandshake m c => (observe_securejoin_on_other_device m c s).2
  | ScanInvite now invite => (start_protocol now invite s).2
  | ReceiveKeys m from_id gv => (receive_keys m from_id gv s).2
  | MarkVerified c v => (mark_contact_id_as_verified c v s).2
  end.

Lemma observe_verification m c :
  preserves verification_wf (observe_securejoin_on_other_device m c).
Proof.
  unfold observe_securejoin_on_other_device, inviter_progress.
  assert (∀ X (x : C X), quiet x → preserves verification_wf x) as Hq
    by (intros; by apply quiet_verification).
  repeat first [ apply preserves_mark_verified | apply preserves_bind; [|intros ?]
               | apply Hq; solve [eauto with quiet | quiet_tac]
               | match goal with |- preserves _ (match ?x with _ => _ end) => destruct x end ].
Qed.

Lemma receive_keys_verification m from_id gv :
  preserves verification_wf (receive_keys m from_id gv).
Proof.
  assert (∀ X (x : C X), quiet x → preserves verification_wf x) as Hq
    by (intros; by apply quiet_verification).
  unfold receive_keys. apply preserves_bind.
  - apply Hq. unfold has_verified_encryption, get_verifier_id. quiet_tac.
  - intros [|]; [|apply preserves_ret]. apply preserves_for_each. intros kv _.
    apply preserves_bind; [apply Hq; quiet_tac|intros [to_id|]; [|apply preserves_ret]].
    destruct (_ || _); [apply preserves_ret|apply preserves_mark_verified].
Qed.

Lemma run_trust_wf s op : verification_wf s → verification_wf (run_trust s op).
Proof.
  intros Hs. destruct op; simpl.
  - by eapply admits_verification; [apply handshake_allowed_any|].
  - by apply observe_verification.
  - by eapply admits_verification; [apply start_protocol_by_scan|].
  - by apply receive_keys_verification.
  - by apply preserves_mark_verified.
Qed.

(** However contacts got verified, by handshakes, by scanned invitations or by keys other
    contacts pass on, in any order and also when operations fail: asking who verified a contact,
    who verified that one, and so on, ends after finitely many steps, at the user or at a contact
    verified by somebody unknown; it never runs in a circle. *)
Theorem verification_chains_end ops s id :
  verifier s = ∅ →
  let s' := foldl run_trust s ops in
  verifier_of s' id ≠ UNDEFINED →
  ∃ n, Nat.iter (S n) (verifier_of s') id = SELF
       ∨ verifier_of s' (Nat.iter n (verifier_of s') id) = Nat.iter n (verifier_of s') id.
Proof.
  intros H0 s' Hid. apply introduced_steps.
  assert (verification_wf s) as Hs.
  { split; intros a; unfold verifier_of; by rewrite H0, lookup_empty. }
  assert (verification_wf s') as Hs'.
  { unfold s'. clear -Hs SO. revert s Hs. induction ops as [|op ops IH]; intros s Hs; [done|].
    simpl. by apply IH, run_trust_wf. }
  by apply (chains_end _ Hs').
Qed.
End Trust.

(** ** Concrete runs *)

Definition sample_outside : Outside :=
  {| stock_str := λ _, []; random_id := λ n, print_N (N.of_nat n);
     random_uuid := λ n, print_N (N.of_nat n); key_addresses := λ _, Some (Some [lit "alice@x.org"]);
     generated_fingerprint := hex (replicate 20 170%N) |}.

Definition sample_sending : Sending :=
  {| queue_msg := λ _ _ _, ret ([1%N], 1%N); resend_last_msgs := λ _ _ _, ret tt;
     get_parent_mime_headers := λ _ _, None |}.

Definition sample_rendering : Rendering := {| render_symm_encrypted := λ _ _ _ _ _ _, Some [] |}.

Lemma sample_sending_ok : SendingOk (H := sample_sending).
Proof. split; intros; apply quiet_ret. Qed.

Definition alice_fp : Fingerprint := replicate 20 170%N.
Definition bob_fp : Fingerprint := replicate 20 187%N.

Definition key_contact_row (id : N) (addr : string) (fp : Fingerprint) : contact_row :=
  {| c_id := id; c_name := []; c_addr := lit addr; c_fingerprint := hex fp;
     c_origin := Origin.IncomingTo; c_authname := []; c_last_seen := 0 |}.

Definition sample_core (d : Context) (tokens_ : list token_row) (keys : gmap str (list N))
  (bob : list (N * str)) : Core :=
  {| db := d; account := Config.upd_tokens (λ _, tokens_) empty_account; contact_blocked := ∅;
     verifier := ∅; chat_blocked := ∅; chat_seq := 30; gossiped_timestamp := ∅;
     gossip_timestamp := ∅; ephemeral_timer := ∅; public_keys := keys; msgs := ∅; msg_seq := 0;
     msg_txt := ∅; smtp_rows := ∅; smtp_seq := 0; bobstate := bob; bobstate_seq := 1; sent := [];
     tape := 0; contact_param := ∅; msgrmsg := ∅ |}.

(** Alice invites to her group 20; Bob is her contact 10. *)
Definition alice_token : token_row :=
  {| tk_namespc := Namespace.Auth; tk_foreign_key := lit "grp"; tk_token := lit "secret";
     tk_timestamp := 100 |}.

Definition alice : Core :=
  sample_core
    {| members := {[ (20%N, SELF) := {| add_timestamp := 5; remove_timestamp := 0 |} ]};
       contacts := [key_contact_row 1 "" alice_fp; key_contact_row 10 "bob@x.org" bob_fp];
       contact_seq := 10;
       chats := {[ 20%N := {| ch_type := Chattype.Group; ch_name := lit "Group";
                              ch_grpid := lit "grp"; ch_param := []; ch_created_timestamp := 1 |} ]};
       chats_descriptions := ∅; broadcast_secrets := ∅;
       configured_addr := Some (lit "alice@x.org"); transport_addrs := [lit "alice@x.org"];
       self_fingerprint_opt := Some (hex alice_fp); events := [] |}
    [alice_token] ∅ [].

(** The request of Bob. *)
Definition bob_request : Received :=
  {| mime := {| headers := list_to_map
                  [(HeaderDef.get_headername HeaderDef.SecureJoin, lit "vg-request-with-auth");
                   (HeaderDef.get_headername HeaderDef.SecureJoinAuth, lit "secret");
                   (HeaderDef.get_headername HeaderDef.SecureJoinFingerprint, hex bob_fp)];
                timestamp_sent := 100;
                gossiped_keys := {[ lit "alice@x.org" := hex alice_fp ]};
                group_avatar := None; signature := Some (hex bob_fp); first_part_error := None |};
     from_addr := lit "bob@x.org"; autocrypt_fingerprint := None |}.

(** Bob scanned an invitation of Alice, his contact 11. *)
Definition alice_invite : QrInvite :=
  QrInvite.Contact {| i_contact_id := 11; i_fingerprint := alice_fp;
                      i_addrs := [lit "alice@x.org"]; i_invitenumber := lit "number";
                      i_authcode := lit "secret"; i_is_v3 := true |}.

Definition bob (bobstate_ : list (N * str)) : Core :=
  sample_core
    {| members := ∅;
       contacts := [key_contact_row 1 "" bob_fp; key_contact_row 11 "alice@x.org" alice_fp];
       contact_seq := 11; chats := ∅; chats_descriptions := ∅; broadcast_secrets := ∅;
       configured_addr := Some (lit "bob@x.org"); transport_addrs := [lit "bob@x.org"];
       self_fingerprint_opt := Some (hex bob_fp); events := [] |}
    [] {[ hex alice_fp := [1%N] ]} bobstate_.

Section Witnesses.
#[local] Instance PF : Platform := sample_platform.
#[local] Instance OS : Outside := sample_outside.
#[local] Instance SD : Sending := sample_sending.
#[local] Instance RD : Rendering := sample_rendering.
#[local] Instance JS : Json SyncItem := opaque_json _.
#[local] Instance JQ : Json QrInvite := one_value_json alice_invite.
#[local] Instance SO : SendingOk := sample_sending_ok.

Definition alice_after : Core := (handle_securejoin_handshake 200 bob_request 10 alice).2.

Lemma handshake_verifies_only_proven_witness :
  verifier_of alice_after 10 ≠ verifier_of alice 10
  ∧ verifier_of alice_after 10 = SELF.
Proof.
  assert (E : verifier_of alice_after 10 ≠ verifier_of alice 10) by (vm_compute; discriminate).
  split; [exact E|].
  apply (proj1 (handshake_verifies_only_proven 200 bob_request 10 alice 10 E)).
Defined.

Lemma handshake_admits_only_proven_witness :
  in_chat (db alice) 20 10 = false ∧ in_chat (db alice_after) 20 10 = true
  ∧ (10%N ∉ contact_blocked alice).
Proof.
  assert (E : in_chat (db alice_after) 20 10 = true) by (vm_compute; reflexivity).
  assert (E0 : in_chat (db alice) 20 10 = false) by (vm_compute; reflexivity).
  split; [exact E0|]. split; [exact E|].
  destruct (handshake_admits_only_proven 200 bob_request 10 alice 20 10
              ltac:(vm_compute; by eexists) E) as [E1|(_ & H & _)]; [|exact H].
  exfalso. rewrite E0 in E1. discriminate E1.
Defined.

Definition alice_answer : Received :=
  {| mime := {| headers := {[ HeaderDef.get_headername HeaderDef.SecureJoin := lit "vc-pubkey" ]};
                timestamp_sent := 100; gossiped_keys := ∅; group_avatar := None;
                signature := Some (hex alice_fp); first_part_error := None |};
     from_addr := lit "alice@x.org"; autocrypt_fingerprint := None |}.

Definition bob_waiting : Core := bob [(1%N, [])].

Definition bob_after : Core := (handle_securejoin_handshake 200 alice_answer 11 bob_waiting).2.

Definition bob_code : N * Message := default (0%N, handshake_msg [] Params_new) (head (sent bob_after)).

Lemma default_head_elem {X} (d : X) l :
  match l with [] => false | _ => true end = true → default d (head l) ∈ l.
Proof. destruct l; [done|]. intros _. by left. Qed.


Lemma alice_proof : joiner_proof alice bob_request bob_fp alice_token.
Proof.
  split; [vm_compute; reflexivity|exists (hex bob_fp); split; vm_compute; reflexivity|
          vm_compute; reflexivity| |exists (lit "alice@x.org"); vm_compute; reflexivity].
  split; [by left|]. split; vm_compute; reflexivity.
Defined.

Lemma proven_joiner_is_verified_witness :
  verifier_of (handle_securejoin_handshake 200 bob_request 10 alice).2 10 = SELF.
Proof.
  apply (proven_joiner_is_verified 200 bob_request 10 alice bob_fp alice_token
           ltac:(vm_compute; reflexivity) alice_proof ltac:(vm_compute; reflexivity)).
  - exists (key_contact_row 10 "bob@x.org" bob_fp). split; vm_compute; reflexivity.
  - right. exists 20%N. vm_compute. reflexivity.
  - vm_compute. reflexivity.
Defined.

(** Bob was verified by a handshake and passes on the key of Carol (contact 12 of Alice). *)
Definition alice_knows_carol : Core :=
  upd_db (set_contacts (λ l, l ++ [key_contact_row 12 "carol@x.org" (replicate 20 204%N)])) alice.

Definition bob_gossips : MimeMessage :=
  {| headers := ∅; timestamp_sent := 300;
     gossiped_keys := {[ lit "carol@x.org" := hex (replicate 20 204%N) ]};
     group_avatar := None; signature := Some (hex bob_fp); first_part_error := None |}.

Definition carol_introduced : Core :=
  foldl run_trust alice_knows_carol
    [ReceiveHandshake 200 bob_request 10; ReceiveKeys bob_gossips 10 {[ lit "carol@x.org" ]}].

Lemma verification_chains_end_witness :
  verifier_of carol_introduced 12 = 10%N
  ∧ ∃ n, Nat.iter (S n) (verifier_of carol_introduced) 12%N = SELF
       ∨ verifier_of carol_introduced (Nat.iter n (verifier_of carol_introduced) 12%N)
         = Nat.iter n (verifier_of carol_introduced) 12%N.
Proof.
  assert (E : verifier_of carol_introduced 12 = 10%N) by (vm_compute; reflexivity).
  split; [exact E|].
  apply (verification_chains_end
           [ReceiveHandshake 200 bob_request 10; ReceiveKeys bob_gossips 10 {[ lit "carol@x.org" ]}]
           alice_knows_carol 12 eq_refl).
  vm_compute. discriminate.
Defined.

(** The whole protocol: Bob scans the invitation and waits, the answer signed by Alice makes her
    verified and is answered with the code. *)
Example bob_joins :
  let s1 := (handle_securejoin_handshake 200 alice_answer 11 bob_waiting).2 in
  (handle_securejoin_handshake 200 alice_answer 11 bob_waiting).1 = Ok Done
  ∧ verifier_of s1 11 = SELF ∧ bobstate s1 = []
  ∧ (λ e, Params_get (msg_param e.2) Param.Arg) <$> sent s1 = [Some (lit "vc-request-with-auth")].
Proof. vm_compute. done. Qed.

(** An invitation made for a group has a code that is found again when somebody joins with it. *)
Example invitation_is_known :
  let s1 := (get_securejoin_qr (λ s, s) 100 (Some 20%N) alice).2 in
  (tk_foreign_key <$> find_auth_token (lit "1") s1) = Some (lit "grp").
Proof. vm_compute. done. Qed.
End Witnesses.
