(* ===== verification/Ephemeral.v ===== *)
(** Ephemeral: disappearing messages (src/src/ephemeral.rs): timers, the deletion of expired
    messages on the device and on the server, and the time of the next deletion. *)
From S2P Require Import Prelude Ids Params MsgTable.
From stdpp Require Import sorting.

(** ** Timers *)

(** [enum Timer]. *)
Inductive Timer := Disabled | Enabled (duration : Z).

#[export] Instance Timer_eq_dec : EqDecision Timer.
Proof. solve_decision. Defined.

(** [Timer::to_u32], [Timer::from_u32]. *)
Definition to_u32 (t : Timer) : Z := match t with Disabled => 0 | Enabled d => d end.
Definition from_u32 (duration : Z) : Timer :=
  if (duration =? 0)%Z then Disabled else Enabled duration.

(** [Display] and [FromStr] of [Timer]. *)
Definition timer_to_string (t : Timer) : str := print_Z (to_u32 t).
Definition timer_from_str (input : str) : option Timer := from_u32 <$> parse_u32 input.

(** [ToSql] and [FromSql] of [Timer]; [None] is [FromSqlError::OutOfRange]. *)
Definition timer_to_sql (t : Timer) : Z := match t with Disabled => 0 | Enabled d => d end.
Definition timer_from_sql (value : Z) : option Timer :=
  if (value =? 0)%Z then Some Disabled
  else if in_u32 value then Some (Enabled value) else None.

(** [ChatId::get_ephemeral_timer]: an error without a row or out of range. *)
Definition get_ephemeral_timer (chat_id : ChatId) (d : MsgDb) : option Timer :=
  c ← chats d !! chat_id; timer_from_sql (default 0%Z (cs_ephemeral_timer c)).

(** [ChatId::inner_set_ephemeral_timer]; [None] is the failed [ensure!]. *)
Definition inner_set_ephemeral_timer (chat_id : ChatId) (timer : Timer) (d : MsgDb)
  : option MsgDb :=
  if chat_is_special chat_id then None
  else
    Some (emit [ChatEphemeralTimerModified chat_id (to_u32 timer)]
      (set_chat_rows (alter (λ c, {| cs_type := cs_type c; cs_visibility := cs_visibility c;
                                     cs_blocked := cs_blocked c;
                                     cs_ephemeral_timer := Some (timer_to_sql timer);
                                     cs_param := cs_param c |}) chat_id) d)).

(** [MsgId::ephemeral_timer]. *)
Definition ephemeral_timer (id : MsgId) (d : MsgDb) : Timer :=
  match msgs d !! id with
  | None => Disabled
  | Some r => from_u32 (m_ephemeral_timer r)
  end.

(** The condition of the statements that start timers: not started, or started to run out
    later than [ts]. *)
Definition may_start (r : msg_row) (ts : Z) : bool :=
  ((m_ephemeral_timestamp r =? 0) || (ts <? m_ephemeral_timestamp r))%Z.

(** [MsgId::start_ephemeral_timer]. *)
Definition start_ephemeral_timer (now : Z) (id : MsgId) (d : MsgDb) : MsgDb :=
  match ephemeral_timer id d with
  | Disabled => d
  | Enabled duration =>
      let ephemeral_timestamp := sat_add now duration in
      set_msgs (update_where (λ k r,
        if (k =? id)%N && may_start r ephemeral_timestamp
        then Some (with_ephemeral_timestamp r ephemeral_timestamp) else None)) d
  end.

(** The statement of [start_ephemeral_timers_msgids] and [start_chat_ephemeral_timers], for
    the rows selected by [p]: whether a row changed, and the table. *)
Definition starts (now : Z) (p : N -> msg_row -> bool) (k : N) (r : msg_row) : bool :=
  p k r && (0 <? m_ephemeral_timer r)%Z && may_start r (now + m_ephemeral_timer r).

Definition start_where (now : Z) (p : N -> msg_row -> bool) (t : msg_table) : bool * msg_table :=
  (any_row (starts now p) t,
   update_where (λ k r,
     if starts now p k r then Some (with_ephemeral_timestamp r (now + m_ephemeral_timer r))
     else None) t).

(** [start_ephemeral_timers_msgids]; the first component asks to wake the ephemeral loop. *)
Definition start_ephemeral_timers_msgids (now : Z) (msg_ids : list N) (d : MsgDb)
  : bool * MsgDb :=
  let '(should_interrupt, t) :=
    foldl (λ '(b, t) msg_id,
             let '(b', t') := start_where now (λ k _, k =? msg_id)%N t in (b || b', t'))
          (false, msgs d) msg_ids in
  (should_interrupt, set_msgs (λ _, t) d).

(** [start_chat_ephemeral_timers]. *)
Definition start_chat_ephemeral_timers (now : Z) (chat_id : ChatId) (d : MsgDb) : bool * MsgDb :=
  let '(b, t) := start_where now (λ _ r, m_chat_id r =? chat_id)%N (msgs d) in
  (b, set_msgs (λ _, t) d).

(** [start_ephemeral_timers]. *)
Definition start_ephemeral_timers (now : Z) (d : MsgDb) : MsgDb :=
  set_msgs (update_where (λ _ r,
    if (0 <? m_ephemeral_timer r)%Z && (m_ephemeral_timestamp r =? 0)%Z
       && negb (bool_decide (m_state r ∈ [MessageState.InFresh; MessageState.InNoticed;
                                          MessageState.OutDraft]))
    then Some (with_ephemeral_timestamp r (now + m_ephemeral_timer r)) else None)) d.

(** ** Deletion on the device *)

(** [get_config_delete_device_after]. *)
Definition get_config_delete_device_after (d : MsgDb) : option Z :=
  if (delete_device_after d =? 0)%Z then None else Some (delete_device_after d).

(** The two conditions of [select_expired_messages]. *)
Definition ephemeral_expired (now : Z) (r : msg_row) : bool :=
  negb (m_ephemeral_timestamp r =? 0)%Z && (m_ephemeral_timestamp r <=? now)%Z
  && negb (m_chat_id r =? DC_CHAT_ID_TRASH)%N.

Definition device_expired (d : MsgDb) (now : Z) (r : msg_row) : bool :=
  match get_config_delete_device_after d with
  | None => false
  | Some delete_device_after =>
      let threshold_timestamp := sat_sub now delete_device_after in
      (m_timestamp r <? threshold_timestamp)%Z && (m_timestamp_rcvd r <? threshold_timestamp)%Z
      && (DC_CHAT_ID_LAST_SPECIAL <? m_chat_id r)%N
      && negb (m_chat_id r =? default 0%N (self_chat d))%N
      && negb (m_chat_id r =? default 0%N (device_chat d))%N
  end.

(** The rows of a query, as pairs of identifier and row. *)
Definition select_rows (p : msg_row -> bool) (t : msg_table) : list (N * msg_row) :=
  base.filter (λ kr, p kr.2 = true) (map_to_list t).

(** [select_expired_messages]. *)
Definition select_expired_messages (d : MsgDb) (now : Z) : list (N * msg_row) :=
  select_rows (ephemeral_expired now) (msgs d) ++ select_rows (device_expired d now) (msgs d).

(** [BTreeSet] iteration over the modified chats. *)
Definition ascending_ids (l : list N) : list N :=
  merge_sort N.le (elements (list_to_set l : gset N)).

(** [delete_expired_messages]. *)
Definition delete_expired_messages (now : Z) (d : MsgDb) : MsgDb :=
  let rows := select_expired_messages d now in
  match rows with
  | [] => d
  | _ =>
      let d := set_msgs (λ t, foldl (λ t kr, replace_by_tombstone false kr.1 t) t rows) d in
      let d := set_locations (λ t,
                 foldl (λ t kr, if (0 <? m_location_id kr.2)%N
                                then base.filter (λ l, ¬ (l.1 = m_location_id kr.2 ∧ l.2 = true)) t
                                else t) t rows) d in
      emit (((λ kr, MsgDeleted (m_chat_id kr.2) kr.1) <$> rows)
            ++ (MsgsChanged <$> ascending_ids ((λ kr, m_chat_id kr.2) <$> rows))
            ++ omap (λ kr, if bool_decide (m_type kr.2 = Viewtype.Webxdc)
                           then Some (WebxdcInstanceDeleted kr.1) else None) rows) d
  end.

(** ** The time of the next deletion *)

(** [SELECT min(...) ... HAVING count( * ) > 0]. *)
Definition min_of (l : list Z) : option Z :=
  match l with [] => None | x :: l => Some (foldl Z.min x l) end.

(** [next_delete_device_after_timestamp]. *)
Definition device_deletable (d : MsgDb) (r : msg_row) : bool :=
  (DC_CHAT_ID_TRASH <? m_chat_id r)%N
  && negb (m_chat_id r =? default 0%N (self_chat d))%N
  && negb (m_chat_id r =? default 0%N (device_chat d))%N.

Definition next_delete_device_after_timestamp (d : MsgDb) : option Z :=
  match get_config_delete_device_after d with
  | None => None
  | Some delete_device_after =>
      (λ x, sat_add x delete_device_after)
        <$> min_of ((λ kr, Z.max (m_timestamp kr.2) (m_timestamp_rcvd kr.2))
                      <$> select_rows (device_deletable d) (msgs d))
  end.

(** [next_expiration_timestamp]. *)
Definition next_ephemeral_timestamp (d : MsgDb) : option Z :=
  min_of ((λ kr, m_ephemeral_timestamp kr.2)
    <$> select_rows (λ r, negb (m_ephemeral_timestamp r =? 0)%Z
                          && negb (m_chat_id r =? DC_CHAT_ID_TRASH)%N) (msgs d)).

Definition next_expiration_timestamp (d : MsgDb) : option Z :=
  match next_ephemeral_timestamp d, next_delete_device_after_timestamp d with
  | Some a, Some b => Some (Z.min a b)
  | Some a, None => Some a
  | None, o => o
  end.

(** The waiting time of [ephemeral_loop], in seconds; when it is not positive, the loop
    deletes at once. *)
Definition loop_wait (now : Z) (d : MsgDb) : Z :=
  match next_expiration_timestamp d with
  | Some ephemeral_timestamp => ephemeral_timestamp + 1 - now
  | None => 86400
  end.

(** ** Deletion on the server *)

(** The patterns with which the statement of [delete_expired_imap_messages] looks for
    [Param::GuaranteeE2ee] in the stored text: at its start, or after a line feed. *)
Definition glob_encrypted (param : str) : bool :=
  contains (LF :: lit "c=1") param || starts_with (lit "c=1") param.

(** [should_delete_all_downloaded_messages]. *)
Definition should_delete_all_downloaded_messages (bcc_self is_chatmail : bool) : bool :=
  negb bcc_self && is_chatmail.

Definition timer_over (now : Z) (r : msg_row) : bool :=
  negb (m_ephemeral_timestamp r =? 0)%Z && (m_ephemeral_timestamp r <=? now)%Z.

Definition is_done (r : msg_row) : bool :=
  bool_decide (m_download_state r = DownloadState.Done).

(** The Message-IDs to be deleted: those of the message rows that satisfy [p], and the
    Message-IDs of the pre-messages of the rows that satisfy [q]. *)
Definition in_deleted_mids (p q : msg_row -> bool) (t : msg_table) (mid : str) : bool :=
  any_row (λ id r, (9 <? id)%N
                   && ((p r && bool_decide (m_rfc724_mid r = mid))
                       || (q r && negb (bool_decide (m_pre_rfc724_mid r = []))
                           && bool_decide (m_pre_rfc724_mid r = mid)))) t.

(** [delete_expired_imap_messages]. *)
Definition delete_expired_imap_messages (now : Z) (transport_id : N) (is_chatmail : bool)
  (d : MsgDb) : MsgDb :=
  let '(p, q) :=
    if should_delete_all_downloaded_messages (bcc_self d) is_chatmail then
      ((λ r, timer_over now r || is_done r), (λ _, true))
    else if bcc_self d then (timer_over now, timer_over now)
    else
      ((λ r, timer_over now r || glob_encrypted (m_param r) && is_done r),
       (λ r, timer_over now r || glob_encrypted (m_param r))) in
  set_imap (update_where (λ _ i,
    if (i_transport_id i =? transport_id)%N && in_deleted_mids p q (msgs d) (i_rfc724_mid i)
    then Some {| i_transport_id := i_transport_id i; i_rfc724_mid := i_rfc724_mid i;
                 i_target := [] |}
    else None)) d.

(** ** Lemmas: selecting and deleting *)

Definition expired (d : MsgDb) (now : Z) (r : msg_row) : bool :=
  ephemeral_expired now r || device_expired d now r.

Lemma elem_of_select p t k r :
  (k, r) ∈ select_rows p t ↔ t !! k = Some r ∧ p r = true.
Proof.
  unfold select_rows. rewrite list_elem_of_filter, elem_of_map_to_list. simpl. tauto.
Qed.

Lemma elem_of_expired d now k r :
  (k, r) ∈ select_expired_messages d now ↔ msgs d !! k = Some r ∧ expired d now r = true.
Proof.
  unfold select_expired_messages, expired.
  rewrite elem_of_app, !elem_of_select, orb_true_iff. tauto.
Qed.

Lemma tombstones_lookup (rows : list (N * msg_row)) t k :
  foldl (λ t kr, replace_by_tombstone false kr.1 t) t rows !! k
  = if decide (k ∈ rows.*1) then (λ r, trashed_row r false) <$> t !! k else t !! k.
Proof.
  revert t. induction rows as [|[k' r'] rows IH]; intros t; [done|].
  cbn [foldl]. rewrite IH, replace_by_tombstone_lookup, fmap_cons. simpl.
  destruct (decide (k = k')) as [->|Hk].
  - rewrite (decide_True (P := k' ∈ k' :: rows.*1)) by (by left).
    destruct (decide _); [|done]. by destruct (t !! k').
  - destruct (decide (k ∈ rows.*1)) as [Hin|Hin].
    + rewrite decide_True by (by right). done.
    + rewrite decide_False; [done|]. by intros [?|?]%elem_of_cons.
Qed.

Lemma delete_expired_msgs d now k :
  msgs (delete_expired_messages now d) !! k
  = (λ r, if expired d now r then trashed_row r false else r) <$> msgs d !! k.
Proof.
  assert (msgs (delete_expired_messages now d)
          = foldl (λ t kr, replace_by_tombstone false kr.1 t) (msgs d)
              (select_expired_messages d now)) as ->.
  { unfold delete_expired_messages. by destruct (select_expired_messages d now). }
  rewrite tombstones_lookup. destruct (msgs d !! k) as [r|] eqn:E; [|by destruct (decide _)].
  destruct (decide _) as [Hin|Hin]; simpl.
  - apply list_elem_of_fmap in Hin as ([k' r'] & -> & Hin).
    apply elem_of_expired in Hin as [Hr He]. simpl in *. simplify_eq. by rewrite He.
  - destruct (expired d now r) eqn:He; [|done]. exfalso. apply Hin.
    apply list_elem_of_fmap. exists (k, r). by rewrite elem_of_expired.
Qed.

Lemma trashed_not_expired d now r b : expired d now (trashed_row r b) = false.
Proof.
  unfold expired, ephemeral_expired, device_expired. simpl.
  destruct (get_config_delete_device_after d); simpl; [|done]. by rewrite !andb_false_r.
Qed.

Lemma delete_expired_config now d :
  delete_device_after (delete_expired_messages now d) = delete_device_after d
  ∧ self_chat (delete_expired_messages now d) = self_chat d
  ∧ device_chat (delete_expired_messages now d) = device_chat d.
Proof. unfold delete_expired_messages. by destruct (select_expired_messages d now). Qed.

Lemma expired_after d now n r : expired (delete_expired_messages now d) n r = expired d n r.
Proof.
  unfold expired, device_expired, get_config_delete_device_after.
  destruct (delete_expired_config now d) as (-> & -> & ->). done.
Qed.

Lemma none_expired_after now d id r :
  msgs (delete_expired_messages now d) !! id = Some r →
  expired (delete_expired_messages now d) now r = false.
Proof.
  rewrite delete_expired_msgs, expired_after.
  destruct (msgs d !! id) as [r0|]; [|done]. simpl. intros [= <-].
  destruct (expired d now r0) eqn:He; [apply trashed_not_expired|done].
Qed.

(** What the user was promised, in terms of the columns of a message and of the settings: the timer
    of the message is over, or the device keeps messages only for some time, which is over. *)
Definition timer_ran_out (now : Z) (r : msg_row) : Prop :=
  m_ephemeral_timestamp r ≠ 0%Z ∧ (m_ephemeral_timestamp r <= now)%Z
  ∧ m_chat_id r ≠ DC_CHAT_ID_TRASH.

Definition kept_too_long (d : MsgDb) (now : Z) (r : msg_row) : Prop :=
  delete_device_after d ≠ 0%Z
  ∧ (m_timestamp r + delete_device_after d < now)%Z
  ∧ (m_timestamp_rcvd r + delete_device_after d < now)%Z
  ∧ (9 < m_chat_id r)%N ∧ self_chat d ≠ Some (m_chat_id r) ∧ device_chat d ≠ Some (m_chat_id r).

Lemma timer_ran_out_iff now r : ephemeral_expired now r = true ↔ timer_ran_out now r.
Proof.
  unfold ephemeral_expired, timer_ran_out.
  rewrite !andb_true_iff, !negb_true_iff, Z.eqb_neq, Z.leb_le, N.eqb_neq. tauto.
Qed.

Lemma other_chat (o : option N) id : (9 < id)%N → (id ≠ default 0%N o ↔ o ≠ Some id).
Proof. destruct o as [x|]; simpl; intros; split; congruence || lia. Qed.

Lemma kept_too_long_iff d now r :
  (0 <= now <= i64_max)%Z → (0 <= delete_device_after d <= i32_max)%Z →
  device_expired d now r = true ↔ kept_too_long d now r.
Proof.
  intros Hn Hd. unfold device_expired, kept_too_long, get_config_delete_device_after.
  destruct (Z.eqb_spec (delete_device_after d) 0) as [E|E]; [by split; [|intros [? _]]|].
  rewrite !andb_true_iff, !negb_true_iff, !N.eqb_neq, !Z.ltb_lt, N.ltb_lt.
  assert (sat_sub now (delete_device_after d) = now - delete_device_after d)%Z as ->.
  { unfold sat_sub, sat_i64, i32_max, i64_max, i64_min in *. lia. }
  change DC_CHAT_ID_LAST_SPECIAL with 9%N. split.
  - intros ((((H1 & H2) & H3) & H4) & H5). rewrite <-!other_chat by done. split_and!; (done || lia).
  - intros (_ & H1 & H2 & H3 & H4 & H5). rewrite !other_chat by done. split_and!; (done || lia).
Qed.

Lemma deletion_events now d :
  ∃ es, events (delete_expired_messages now d) = events d ++ es
    ∧ ∀ c id, MsgDeleted c id ∈ es ↔
        ∃ r, msgs d !! id = Some r ∧ m_chat_id r = c ∧ expired d now r = true.
Proof.
  assert (∀ c id, MsgDeleted c id ∈ ((λ kr, MsgDeleted (m_chat_id kr.2) kr.1)
                                       <$> select_expired_messages d now) ↔
      ∃ r, msgs d !! id = Some r ∧ m_chat_id r = c ∧ expired d now r = true) as Hd.
  { intros c id. rewrite list_elem_of_fmap. split.
    - intros ([k r] & [= -> ->] & [? ?]%elem_of_expired). eauto.
    - intros (r & Hr & <- & He). exists (id, r). by rewrite elem_of_expired. }
  unfold delete_expired_messages.
  destruct (select_expired_messages d now) as [|kr rows].
  - exists []. rewrite app_nil_r. split; [done|]. intros c id. rewrite <-Hd. done.
  - eexists. split; [reflexivity|]. intros c id. rewrite <-Hd, !elem_of_app. split; [|by left].
    intros [?|[H|H]]; [done| |].
    + by apply list_elem_of_fmap in H as (? & ? & _).
    + apply list_elem_of_omap in H as (? & _ & H). by case_bool_decide.
Qed.

(** C32. Messages disappear when they shall and no others do.  At a time from 1970 on, and with a
    deletion period of zero (off) or more seconds, a message is deleted exactly if it is not in the
    trash and has a timer that ran out by that time, or if the device is set to delete old messages,
    both the time the message was sent and the time it was received are more than the period ago, and
    it is in an ordinary chat that is neither the Saved Messages nor the device chat.  A deleted
    message is a row in the trash that keeps only the Message-IDs and the time; every other message is
    unchanged, no message is added, a deletion event is emitted for exactly the deleted messages, and
    a second round at the same time deletes nothing. *)
Theorem expired_messages_disappear now d :
  (0 <= now <= i64_max)%Z → (0 <= delete_device_after d <= i32_max)%Z →
  let d' := delete_expired_messages now d in
  (∀ id r, msgs d !! id = Some r → timer_ran_out now r ∨ kept_too_long d now r →
     msgs d' !! id = Some (trashed_row r false))
  ∧ (∀ id r, msgs d !! id = Some r → ¬ (timer_ran_out now r ∨ kept_too_long d now r) →
       msgs d' !! id = Some r)
  ∧ (∀ id, msgs d !! id = None → msgs d' !! id = None)
  ∧ (∃ es, events d' = events d ++ es
       ∧ ∀ c id, MsgDeleted c id ∈ es ↔
           ∃ r, msgs d !! id = Some r ∧ m_chat_id r = c ∧ (timer_ran_out now r ∨ kept_too_long d now r))
  ∧ delete_expired_messages now d' = d'.
Proof.
  intros Hn Hd d'.
  assert (∀ r, expired d now r = true ↔ timer_ran_out now r ∨ kept_too_long d now r) as Hx.
  { intros r. unfold expired. by rewrite orb_true_iff, timer_ran_out_iff, kept_too_long_iff. }
  unfold d'. split_and!.
  - intros id r Hr He. rewrite delete_expired_msgs, Hr. simpl. by rewrite (proj2 (Hx r) He).
  - intros id r Hr He. rewrite delete_expired_msgs, Hr. simpl. rewrite <-Hx in He. by case_match.
  - intros id Hr. by rewrite delete_expired_msgs, Hr.
  - destruct (deletion_events now d) as (es & He & Hes). exists es. split; [done|].
    intros c id. rewrite Hes. by setoid_rewrite Hx.
  - unfold delete_expired_messages at 1.
    destruct (select_expired_messages _ now) as [|[k r] rows] eqn:E; [done|exfalso].
    assert ((k, r) ∈ select_expired_messages (delete_expired_messages now d) now) as Hin
      by (rewrite E; by left).
    apply elem_of_expired in Hin as [Hr He]. by rewrite (none_expired_after _ _ _ _ Hr) in He.
Qed.

(** ** Lemmas: minima *)

Lemma foldl_min_spec x l :
  foldl Z.min x l ∈ x :: l ∧ ∀ y, y ∈ x :: l → (foldl Z.min x l <= y)%Z.
Proof.
  revert x. induction l as [|z l IH]; intros x; simpl.
  - split; [by left|]. intros y ->%list_elem_of_singleton. lia.
  - destruct (IH (Z.min x z)) as [Hin Hmin]. split.
    + apply elem_of_cons in Hin as [Hin|Hin]; [|by do 2 right].
      destruct (Z.min_spec x z) as [[_ E]|[_ E]]; rewrite E in *; rewrite Hin; [by left|].
      right. by left.
    + intros y Hy. pose proof (Hmin (Z.min x z) ltac:(by left)).
      apply elem_of_cons in Hy as [->|Hy]; [lia|].
      apply elem_of_cons in Hy as [->|Hy]; [lia|]. apply Hmin. by right.
Qed.

Lemma min_of_spec l m : min_of l = Some m → m ∈ l ∧ ∀ y, y ∈ l → (m <= y)%Z.
Proof. destruct l as [|x l]; [done|]. simpl. intros [= <-]. apply foldl_min_spec. Qed.

(** Messages are in the trash or in ordinary chats; the other reserved chats have none. *)
Definition chats_in_use (d : MsgDb) : Prop :=
  ∀ id r, msgs d !! id = Some r →
    (m_chat_id r <= DC_CHAT_ID_TRASH)%N ∨ (DC_CHAT_ID_LAST_SPECIAL < m_chat_id r)%N.

Lemma next_ephemeral_spec d a :
  next_ephemeral_timestamp d = Some a →
  ∃ id r, msgs d !! id = Some r ∧ m_ephemeral_timestamp r = a ∧ a ≠ 0%Z
          ∧ m_chat_id r ≠ DC_CHAT_ID_TRASH.
Proof.
  intros [Hin _]%min_of_spec. apply list_elem_of_fmap in Hin as ([id r] & -> & Hin).
  apply elem_of_select in Hin as [Hr Hp]. simpl in *.
  apply andb_true_iff in Hp as [H1 H2]. exists id, r. split_and!; [done|done| |].
  - intros E. by rewrite E in H1.
  - intros E. by rewrite E in H2.
Qed.

Lemma next_device_spec d b :
  next_delete_device_after_timestamp d = Some b →
  ∃ id r, msgs d !! id = Some r ∧ device_deletable d r = true
    ∧ get_config_delete_device_after d = Some (delete_device_after d)
    ∧ b = sat_add (Z.max (m_timestamp r) (m_timestamp_rcvd r)) (delete_device_after d).
Proof.
  unfold next_delete_device_after_timestamp, get_config_delete_device_after.
  destruct (delete_device_after d =? 0)%Z; [done|].
  rewrite fmap_Some. intros (x & [Hin _]%min_of_spec & ->).
  apply list_elem_of_fmap in Hin as ([id r] & -> & Hin).
  apply elem_of_select in Hin as [Hr Hp]. eauto 6.
Qed.

(** The device threshold, without saturation. *)
Lemma device_expired_iff d now r :
  (0 <= now <= i64_max)%Z → (0 <= delete_device_after d <= i32_max)%Z →
  get_config_delete_device_after d = Some (delete_device_after d) →
  device_deletable d r = true → (DC_CHAT_ID_LAST_SPECIAL < m_chat_id r)%N →
  device_expired d now r = true ↔
  (sat_add (Z.max (m_timestamp r) (m_timestamp_rcvd r)) (delete_device_after d) < now)%Z.
Proof.
  unfold device_expired, device_deletable. intros Hn Hd -> Hdel Hc.
  apply andb_true_iff in Hdel as [Hdel H3]. apply andb_true_iff in Hdel as [H1 H2].
  rewrite H2, H3, (proj2 (N.ltb_lt _ _) Hc), !andb_true_r, andb_true_iff, !Z.ltb_lt.
  unfold sat_add, sat_sub, sat_i64, i32_max, i64_max, i64_min in *. lia.
Qed.

Lemma chats_in_use_after now d : chats_in_use d → chats_in_use (delete_expired_messages now d).
Proof.
  intros H id r. rewrite delete_expired_msgs. destruct (msgs d !! id) as [r0|] eqn:E; [|done].
  simpl. intros [= <-]. destruct (expired d now r0); [|by eapply H]. left. simpl. done.
Qed.

Lemma ordinary_chat d id r :
  chats_in_use d → msgs d !! id = Some r → device_deletable d r = true →
  (DC_CHAT_ID_LAST_SPECIAL < m_chat_id r)%N.
Proof.
  intros Hu Hr Hdel. destruct (Hu id r Hr) as [H|H]; [|done].
  unfold device_deletable in Hdel. do 2 apply andb_true_iff in Hdel as [Hdel _].
  apply N.ltb_lt in Hdel. lia.
Qed.

(** The next expiration, if it is due, is that of an expired message. *)
Lemma due_is_expired now d ts :
  (0 <= now <= i64_max)%Z → (0 <= delete_device_after d <= i32_max)%Z → chats_in_use d →
  next_expiration_timestamp d = Some ts → (ts < now)%Z →
  ∃ id r, msgs d !! id = Some r ∧ expired d now r = true.
Proof.
  intros Hn Hd Hu Hnext Hts.
  assert (next_ephemeral_timestamp d = Some ts ∨ next_delete_device_after_timestamp d = Some ts)
    as [H|H].
  { unfold next_expiration_timestamp in Hnext.
    destruct (next_ephemeral_timestamp d) as [a|], (next_delete_device_after_timestamp d) as [b|];
      simplify_eq; auto. destruct (Z.min_spec a b) as [[_ ->]|[_ ->]]; auto. }
  - apply next_ephemeral_spec in H as (id & r & Hr & He & Hz & Hc). exists id, r.
    split; [done|]. unfold expired, ephemeral_expired. rewrite He.
    rewrite (proj2 (Z.eqb_neq ts 0)), (proj2 (N.eqb_neq _ _) Hc), (proj2 (Z.leb_le ts now));
      [done|lia|done].
  - apply next_device_spec in H as (id & r & Hr & Hdel & Hcfg & ->). exists id, r.
    split; [done|]. unfold expired. rewrite (proj2 (device_expired_iff _ _ _ Hn Hd Hcfg Hdel
      (ordinary_chat _ _ _ Hu Hr Hdel)) Hts). apply orb_true_r.
Qed.

(** The ephemeral loop does not spin and does not sleep over a deletion: after a round of
    deletions it waits for at least a second, and whenever it does not wait, the round that
    follows deletes a message. *)
Theorem ephemeral_loop_progress now d :
  (0 <= now <= i64_max)%Z → (0 <= delete_device_after d <= i32_max)%Z → chats_in_use d →
  (1 <= loop_wait now (delete_expired_messages now d))%Z
  ∧ ((loop_wait now d <= 0)%Z →
       ∃ id r, msgs d !! id = Some r ∧ m_chat_id r ≠ DC_CHAT_ID_TRASH
         ∧ msgs (delete_expired_messages now d) !! id = Some (trashed_row r false)).
Proof.
  intros Hn Hd Hu. unfold loop_wait. split.
  - destruct (next_expiration_timestamp (delete_expired_messages now d)) as [ts|] eqn:E; [|lia].
    destruct (decide (ts < now)%Z) as [Hlt|]; [exfalso|lia].
    destruct (due_is_expired now (delete_expired_messages now d) ts) as (id & r & Hr & He);
      try done; [by destruct (delete_expired_config now d) as (-> & _)|by apply chats_in_use_after|].
    by rewrite (none_expired_after _ _ _ _ Hr) in He.
  - destruct (next_expiration_timestamp d) as [ts|] eqn:E; [|lia]. intros Hle.
    destruct (due_is_expired now d ts) as (id & r & Hr & He); try done; [lia|].
    exists id, r. rewrite delete_expired_msgs, Hr. simpl. rewrite He. split_and!; try done.
    intros Hc. unfold expired, ephemeral_expired, device_expired in He. rewrite Hc in He.
    destruct (get_config_delete_device_after d); by rewrite !andb_false_r in He.
Qed.

(** ** Lemmas: starting timers *)

(** A message whose timer was started at [now], unless it runs out earlier already. *)
Definition started (now : Z) (r : msg_row) : msg_row :=
  if (0 <? m_ephemeral_timer r)%Z && may_start r (now + m_ephemeral_timer r)
  then with_ephemeral_timestamp r (now + m_ephemeral_timer r) else r.

Lemma started_started now r : started now (started now r) = started now r.
Proof.
  unfold started.
  destruct ((0 <? m_ephemeral_timer r)%Z && may_start r (now + m_ephemeral_timer r)) eqn:E.
  - cbn [m_ephemeral_timer with_ephemeral_timestamp].
    match goal with |- (if ?b then _ else _) = _ => by destruct b end.
  - by rewrite E.
Qed.

Lemma start_where_lookup now p t k :
  (start_where now p t).2 !! k = (λ r, if p k r then started now r else r) <$> t !! k.
Proof.
  unfold start_where. simpl. rewrite update_where_lookup.
  destruct (t !! k) as [r|]; [|done]. simpl. unfold starts, started.
  destruct (p k r); [|done]. simpl. by destruct (_ && _).
Qed.

Lemma start_msgids_lookup now ids b t k :
  (foldl (λ '(b, t) msg_id,
            let '(b', t') := start_where now (λ k _, k =? msg_id)%N t in (b || b', t'))
         (b, t) ids).2 !! k
  = (λ r, if bool_decide (k ∈ ids) then started now r else r) <$> t !! k.
Proof.
  revert b t. induction ids as [|i ids IH]; intros b t.
  - simpl. by destruct (t !! k).
  - cbn [foldl]. pose proof (start_where_lookup now (λ k _, k =? i)%N t k) as Hk.
    destruct (start_where now (λ k _, k =? i)%N t) as [b' t']. simpl in Hk. rewrite IH, Hk.
    destruct (t !! k) as [r|]; [|done]. simpl. f_equal.
    destruct (N.eqb_spec k i) as [->|Hne].
    + rewrite (bool_decide_eq_true_2 (i ∈ i :: ids)) by (by left).
      case_bool_decide; [apply started_started|done].
    + destruct (decide (k ∈ ids)).
      * by rewrite !bool_decide_eq_true_2 by (try right; done).
      * rewrite !bool_decide_eq_false_2; [done| |done]. by intros [?|?]%elem_of_cons.
Qed.

Definition timers_valid (d : MsgDb) : Prop :=
  ∀ id r, msgs d !! id = Some r → (0 <= m_ephemeral_timer r <= u32_max)%Z.

Lemma start_one_lookup now i d k :
  (0 <= now <= i64_max - u32_max)%Z → timers_valid d →
  msgs (start_ephemeral_timer now i d) !! k
  = (λ r, if bool_decide (k = i) then started now r else r) <$> msgs d !! k.
Proof.
  intros Hn Hv. unfold start_ephemeral_timer, ephemeral_timer, from_u32.
  destruct (msgs d !! i) as [ri|] eqn:Ei.
  - specialize (Hv i ri Ei). destruct (Z.eqb_spec (m_ephemeral_timer ri) 0) as [E0|E0].
    + destruct (msgs d !! k) as [r|] eqn:Ek; [|done]. simpl. f_equal.
      case_bool_decide; [|done]. simplify_eq. unfold started. by rewrite E0.
    + simpl. rewrite update_where_lookup. destruct (msgs d !! k) as [r|] eqn:Ek; [|done].
      simpl. f_equal. case_bool_decide as Hk; [|by rewrite (proj2 (N.eqb_neq k i))].
      simplify_eq. rewrite N.eqb_refl. unfold started.
      rewrite (proj2 (Z.ltb_lt 0 (m_ephemeral_timer ri))) by lia.
      replace (sat_add now (m_ephemeral_timer ri)) with (now + m_ephemeral_timer ri)%Z
        by (unfold sat_add, sat_i64, i64_max, i64_min, u32_max in *; lia).
      simpl. by destruct (may_start _ _).
  - destruct (msgs d !! k) as [r|] eqn:Ek; [|done]. simpl. f_equal.
    case_bool_decide; [|done]. simplify_eq.
Qed.

(** Timers run from the moment a message is seen and are never extended: the three ways
    to start them (for one message, for given messages, for a chat) do the same to each message
    they cover and nothing to others; a started timer runs out at most its duration later,
    and never later than it would have before. *)
Theorem start_timers_spec now d :
  (0 <= now <= i64_max - u32_max)%Z → timers_valid d →
  (∀ i k, msgs (start_ephemeral_timer now i d) !! k
          = (λ r, if bool_decide (k = i) then started now r else r) <$> msgs d !! k)
  ∧ (∀ ids k, msgs (start_ephemeral_timers_msgids now ids d).2 !! k
          = (λ r, if bool_decide (k ∈ ids) then started now r else r) <$> msgs d !! k)
  ∧ (∀ c k, msgs (start_chat_ephemeral_timers now c d).2 !! k
          = (λ r, if (m_chat_id r =? c)%N then started now r else r) <$> msgs d !! k)
  ∧ (∀ k r, msgs d !! k = Some r → (0 < m_ephemeral_timer r)%Z →
       let ts := m_ephemeral_timestamp (started now r) in
       (ts <= now + m_ephemeral_timer r)%Z ∧ ts ≠ 0%Z
       ∧ (m_ephemeral_timestamp r ≠ 0%Z → (ts <= m_ephemeral_timestamp r)%Z)).
Proof.
  intros Hn Hv. split_and!.
  - intros i k. by apply start_one_lookup.
  - intros ids k. pose proof (start_msgids_lookup now ids false (msgs d) k) as H.
    unfold start_ephemeral_timers_msgids. by destruct (foldl _ _ _) as [b t].
  - intros c k. pose proof (start_where_lookup now (λ _ r, m_chat_id r =? c)%N (msgs d) k) as H.
    unfold start_chat_ephemeral_timers. by destruct (start_where _ _ _) as [b t].
  - intros k r Hr Ht. unfold started, may_start. rewrite (proj2 (Z.ltb_lt _ _) Ht). simpl.
    destruct (Z.eqb_spec (m_ephemeral_timestamp r) 0); simpl; [lia|].
    destruct (Z.ltb_spec (now + m_ephemeral_timer r) (m_ephemeral_timestamp r)); simpl; lia.
Qed.

(** ** Lemmas: deletion on the server *)

Lemma contains_app p a b : contains p (a ++ p ++ b) = true.
Proof.
  induction a as [|c a IH].
  - simpl. destruct (p ++ b) eqn:E; simpl; rewrite <-E; unfold starts_with;
      by rewrite strip_prefix_app.
  - simpl app. cbn [contains]. rewrite IH. apply orb_true_r.
Qed.

Lemma fmt_entry_e2ee v :
  fmt_entry (Param.GuaranteeE2ee, 49%N :: v)
  = lit "c=1" ++ drop 1 (Prelude.join [LF; LF] (split_char LF (49%N :: v))).
Proof.
  unfold fmt_entry. simpl. by destruct (split_char LF v) as [|? []].
Qed.

(** An encrypted message is always found by the patterns. *)
Lemma glob_finds_encrypted i l v :
  (Param.GuaranteeE2ee, 49%N :: v) ∈ l →
  contains (LF :: lit "c=1") (fmt_entries i l)
  || (if (0 <? i)%nat then false else starts_with (lit "c=1") (fmt_entries i l)) = true.
Proof.
  revert i. induction l as [|kv l IH]; intros i Hin; [by apply not_elem_of_nil in Hin|].
  cbn [fmt_entries]. apply elem_of_cons in Hin as [<-|Hin].
  - rewrite fmt_entry_e2ee, <-app_assoc. destruct (Nat.ltb_spec 0 i).
    + apply orb_true_iff. left. apply (contains_app (LF :: lit "c=1") []).
    + apply orb_true_iff. right. cbn [app]. unfold starts_with. by rewrite strip_prefix_app.
  - specialize (IH (S i) Hin). simpl in IH. rewrite orb_false_r in IH.
    apply orb_true_iff. left.
    induction ((if (0 <? i)%nat then [LF] else []) ++ fmt_entry kv) as [|c s IHs] eqn:E in |- *.
    + rewrite app_assoc, E. done.
    + rewrite app_assoc, E. clear E IHs. induction (c :: s) as [|c' s' IH']; [done|].
      cbn [app contains]. rewrite IH'. apply orb_true_r.
Qed.

Lemma glob_encrypted_complete p v :
  Params_get p Param.GuaranteeE2ee = Some (49%N :: v) → glob_encrypted (to_string p) = true.
Proof.
  intros H. unfold glob_encrypted, to_string.
  pose proof (glob_finds_encrypted 0 (Params.iter (inner p)) v (proj2 (elem_of_iter _ _ _) H)) as Hg.
  rewrite Nat.ltb_irrefl in Hg. exact Hg.
Qed.

Lemma any_row_true {A} (p : N -> A -> bool) t :
  any_row p t = true ↔ ∃ id r, t !! id = Some r ∧ p id r = true.
Proof.
  unfold any_row. rewrite existsb_exists. split.
  - intros ([id r] & Hin & Hp). apply list_elem_of_In, elem_of_map_to_list in Hin. eauto.
  - intros (id & r & Hr & Hp). exists (id, r). split; [|done].
    by apply list_elem_of_In, elem_of_map_to_list.
Qed.

(** The message of row [r] has the Message-ID [mid], itself or its pre-message. *)
Definition has_mid (r : msg_row) (mid : str) : bool :=
  bool_decide (m_rfc724_mid r = mid)
  || (negb (bool_decide (m_pre_rfc724_mid r = [])) && bool_decide (m_pre_rfc724_mid r = mid)).

Lemma in_deleted_mids_spec p q t mid :
  in_deleted_mids p q t mid = true →
  ∃ id r, t !! id = Some r ∧ (9 < id)%N ∧ has_mid r mid = true ∧ p r || q r = true.
Proof.
  intros (id & r & Hr & Hp)%any_row_true. exists id, r.
  apply andb_true_iff in Hp as [Hid%N.ltb_lt Hp]. split_and!; [done|done| |];
    apply orb_true_iff in Hp as [Hp|Hp]; unfold has_mid.
  - apply andb_true_iff in Hp as [_ ->]. done.
  - apply andb_true_iff in Hp as [Hp ->]. apply andb_true_iff in Hp as [_ ->]. apply orb_true_r.
  - by apply andb_true_iff in Hp as [-> _].
  - apply andb_true_iff in Hp as [Hp _]. apply andb_true_iff in Hp as [-> _]. apply orb_true_r.
Qed.

Lemma in_deleted_mids_intro p q t mid id r :
  t !! id = Some r → (9 < id)%N → has_mid r mid = true → p r = true → q r = true →
  in_deleted_mids p q t mid = true.
Proof.
  intros Hr Hid Hm Hp Hq. apply any_row_true. exists id, r. split; [done|].
  rewrite (proj2 (N.ltb_lt 9 id) Hid), Hp, Hq. apply Hm.
Qed.

(** What is deleted from the server: every message whose timer ran out, with its
    pre-message, and on an only device (no copies to self) every downloaded message whose
    parameters say that it is encrypted; a message whose timer did not run out only if this is
    the only device, and then only on a chatmail server or if its parameters are taken to say
    that it is encrypted.  No other row of the server's table changes. *)
Theorem delete_expired_imap_messages_spec now tid is_chatmail d k i :
  imap_table d !! k = Some i →
  ∃ i', imap_table (delete_expired_imap_messages now tid is_chatmail d) !! k = Some i'
    ∧ i_rfc724_mid i' = i_rfc724_mid i ∧ i_transport_id i' = i_transport_id i
    ∧ (i_transport_id i = tid →
       (∃ id r, msgs d !! id = Some r ∧ (9 < id)%N ∧ has_mid r (i_rfc724_mid i) = true
                ∧ (timer_over now r = true
                   ∨ bcc_self d = false ∧ is_done r = true
                     ∧ ∃ ps v, m_param r = to_string ps
                         ∧ Params_get ps Param.GuaranteeE2ee = Some (49%N :: v))) →
       i_target i' = [])
    ∧ (i_target i' = i_target i
       ∨ i_transport_id i = tid ∧ i_target i' = []
         ∧ ∃ id r, msgs d !! id = Some r ∧ (9 < id)%N ∧ has_mid r (i_rfc724_mid i) = true
             ∧ (timer_over now r = true
                ∨ bcc_self d = false ∧ (is_chatmail = true ∨ glob_encrypted (m_param r) = true))).
Proof.
  intros Hi. unfold delete_expired_imap_messages, should_delete_all_downloaded_messages.
  assert (∃ p q,
    (if negb (bcc_self d) && is_chatmail then
       ((λ r, timer_over now r || is_done r), (λ _, true))
     else if bcc_self d then (timer_over now, timer_over now)
     else ((λ r, timer_over now r || glob_encrypted (m_param r) && is_done r),
           (λ r, timer_over now r || glob_encrypted (m_param r)))) = (p, q)
    ∧ (∀ r, timer_over now r = true
            ∨ bcc_self d = false ∧ is_done r = true ∧ glob_encrypted (m_param r) = true →
         p r = true ∧ q r = true)
    ∧ (∀ r, p r || q r = true → timer_over now r = true
         ∨ bcc_self d = false ∧ (is_chatmail = true ∨ glob_encrypted (m_param r) = true)))
    as (p & q & -> & Hpq & Honly).
  { destruct (bcc_self d), is_chatmail; simpl; do 2 eexists; (split; [reflexivity|]); split;
      intros r; destruct (timer_over now r); auto;
      destruct (glob_encrypted (m_param r)), (is_done r); simpl; auto; intros [?|(? & ? & ?)];
      done. }
  cbn [imap_table set_imap]. rewrite update_where_lookup, Hi. simpl. eexists. split; [reflexivity|].
  destruct (N.eqb_spec (i_transport_id i) tid) as [Ht|Ht]; simpl;
    [|split_and!; [done..|by intros|by left]].
  destruct (in_deleted_mids p q (msgs d) (i_rfc724_mid i)) eqn:E; simpl.
  - split_and!; [done..|]. right. split_and!; [done..|].
    apply in_deleted_mids_spec in E as (id & r & Hr & Hid & Hm & Hr'). eauto 8.
  - split_and!; [done..| |by left]. intros _ (id & r & Hr & Hid & Hm & Ho).
    destruct (Hpq r) as [Hp Hq].
    { destruct Ho as [?|(? & ? & ps & v & -> & Hv)]; [by left|right].
      by rewrite (glob_encrypted_complete _ _ Hv). }
    by rewrite (in_deleted_mids_intro p q (msgs d) _ id r) in E.
Qed.

(** A timer value survives the message header, the database column and the conversion
    to an integer; a value read from a header or the database is never an enabled timer
    of zero seconds. *)
Theorem timer_roundtrip t n :
  (0 <= n <= u32_max)%Z → t = from_u32 n →
  timer_from_str (timer_to_string t) = Some t
  ∧ timer_from_sql (timer_to_sql t) = Some t
  ∧ to_u32 t = n ∧ t ≠ Enabled 0.
Proof.
  intros Hn ->. unfold timer_from_str, timer_to_string, timer_from_sql, from_u32.
  destruct (Z.eqb_spec n 0) as [->|Hz]; [done|]. simpl.
  assert (in_u32 n = true) as Hu by (unfold in_u32; zcompare; lia).
  rewrite parse_print_u32, (proj2 (Z.eqb_neq n 0)), Hu by done. simpl.
  rewrite (proj2 (Z.eqb_neq n 0)) by done. split_and!; congruence.
Qed.

(** ** Concrete runs *)

Definition sample_msg (chat : ChatId) (ts timer ets : Z) (param : str) : msg_row :=
  {| m_rfc724_mid := lit "a@x"; m_pre_rfc724_mid := []; m_chat_id := chat; m_from_id := 10;
     m_timestamp := ts; m_timestamp_rcvd := ts; m_type := Viewtype.Text;
     m_state := MessageState.InSeen; m_hidden := false; m_param := param; m_location_id := 0;
     m_error := []; m_ephemeral_timer := timer; m_ephemeral_timestamp := ets;
     m_download_state := DownloadState.Done; m_deleted := false |}.

Definition sample_db (r : msg_row) : MsgDb :=
  {| msgs := {[100%N := r]}; msgs_mdns := []; smtp_mdns := [];
     imap_table := {[1%N := {| i_transport_id := 1; i_rfc724_mid := lit "a@x"; i_target := lit "INBOX" |}]};
     imap_markseen := []; locations := ∅; chats := ∅; last_msg_id := 0; bcc_self := false;
     mdns_enabled := true; delete_device_after := 3600; self_chat := None; device_chat := None;
     events := [] |}.

Lemma sample_chats_in_use ts timer ets param : chats_in_use (sample_db (sample_msg 20 ts timer ets param)).
Proof. intros id r. simpl. intros [<- <-]%lookup_singleton_Some. right. done. Qed.

Lemma ephemeral_loop_progress_witness :
  (1 <= loop_wait 1000 (delete_expired_messages 1000 (sample_db (sample_msg 20 900 50 950 []))))%Z
  ∧ ∃ id r, msgs (sample_db (sample_msg 20 900 50 950 [])) !! id = Some r
      ∧ m_chat_id r ≠ DC_CHAT_ID_TRASH
      ∧ msgs (delete_expired_messages 1000 (sample_db (sample_msg 20 900 50 950 []))) !! id
        = Some (trashed_row r false).
Proof.
  destruct (ephemeral_loop_progress 1000 (sample_db (sample_msg 20 900 50 950 []))) as [H1 H2];
    [unfold i64_max; lia|simpl; unfold i32_max; lia|apply sample_chats_in_use|].
  split; [exact H1|]. apply H2. apply Z.leb_le. reflexivity.
Defined.

(** Two messages: the timer of the first ran out, the second is kept. *)
Definition timed_and_kept : MsgDb :=
  set_msgs (<[101%N := sample_msg 20 900 0 0 []]>) (sample_db (sample_msg 20 900 50 950 [])).

Lemma expired_messages_disappear_witness :
  msgs (delete_expired_messages 1000 timed_and_kept) !! 100%N
    = Some (trashed_row (sample_msg 20 900 50 950 []) false)
  ∧ msgs (delete_expired_messages 1000 timed_and_kept) !! 101%N = Some (sample_msg 20 900 0 0 [])
  ∧ delete_expired_messages 1000 (delete_expired_messages 1000 timed_and_kept)
    = delete_expired_messages 1000 timed_and_kept.
Proof.
  destruct (expired_messages_disappear 1000 timed_and_kept) as (H1 & H2 & _ & _ & H5);
    [unfold i64_max; lia|simpl; unfold i32_max; lia|]. split; [|split; [|exact H5]].
  - apply H1; [reflexivity|]. left. split_and!; [discriminate|simpl; lia|discriminate].
  - apply H2; [reflexivity|]. intros [(E & _ & _)|(_ & E & _)]; [by apply E|simpl in E; lia].
Defined.

Lemma start_timers_spec_witness :
  m_ephemeral_timestamp <$>
    (msgs (start_ephemeral_timers_msgids 1000 [100%N] (sample_db (sample_msg 20 900 50 0 []))).2
       !! 100%N) = Some 1050%Z.
Proof.
  destruct (start_timers_spec 1000 (sample_db (sample_msg 20 900 50 0 []))) as (_ & H & _).
  - unfold i64_max, u32_max. lia.
  - intros id r. simpl. intros [<- <-]%lookup_singleton_Some. simpl. unfold u32_max. lia.
  - rewrite H. reflexivity.
Defined.

Lemma delete_expired_imap_messages_spec_witness :
  ∃ i', imap_table (delete_expired_imap_messages 1000 1 false (sample_db (sample_msg 20 900 50 950 [])))
          !! 1%N = Some i' ∧ i_target i' = [].
Proof.
  edestruct (delete_expired_imap_messages_spec 1000 1 false
    (sample_db (sample_msg 20 900 50 950 [])) 1%N _ eq_refl) as (i' & H1 & _ & _ & H2 & _).
  exists i'. split; [exact H1|]. apply H2; [reflexivity|].
  exists 100%N, (sample_msg 20 900 50 950 []). split_and!; [reflexivity..|left; reflexivity].
Defined.

Lemma timer_roundtrip_witness : timer_from_str (timer_to_string (Enabled 60)) = Some (Enabled 60).
Proof. apply (timer_roundtrip (Enabled 60) 60); [unfold u32_max; lia|reflexivity]. Defined.

(** The patterns also match a quote: an unencrypted message that quotes the line [c=1] is
    deleted from a classical mail server as if it were encrypted, on a single device. *)
Definition quoting_params : Params.Params :=
  Params_set Params_new Param.Quote (lit "x" ++ [LF] ++ lit "c=1").

Example quote_taken_for_encryption :
  Params_get quoting_params Param.GuaranteeE2ee = None
  ∧ i_target <$> (imap_table (delete_expired_imap_messages 1000 1 false
       (sample_db (sample_msg 20 900 0 0 (to_string quoting_params)))) !! 1%N) = Some [].
Proof. split; reflexivity. Qed.
