(* ===== verification/MsgState.v ===== *)
(** MsgState: the state of a message as the user sees it, and everything that changes it:
    delivery, read receipts, failure, resending, noticing and seeing (src/src/message.rs,
    src/src/mimeparser.rs, src/src/chat.rs, src/src/contact.rs, src/src/receive_imf.rs). *)
From S2P Require Import Prelude Ids Params MsgTable Ephemeral.
From stdpp Require Import sorting.

(** ** Reading *)

Definition has_mdns (d : MsgDb) (id : MsgId) : bool :=
  existsb (λ m, (m.1.1 =? id)%N) (msgs_mdns d).

(** [MsgId::get_state]. *)
Definition get_state (id : MsgId) (d : MsgDb) : MessageState :=
  match msgs d !! id with
  | Some r => MessageState.with_mdns (m_state r) (has_mdns d id)
  | None => MessageState.Undefined
  end.

(** The parts of [struct Message] used here. *)
Record Message := {
  msg_id : MsgId;
  msg_chat_id : ChatId;
  msg_state : MessageState;
  msg_error : option str
}.

(** [Message::load_from_db]; [None] is an error: a reserved identifier, no such message or a
    trashed one. *)
Definition load_from_db (id : MsgId) (d : MsgDb) : option Message :=
  if (id <=? 9)%N then None
  else
    r ← msgs d !! id;
    if (m_chat_id r =? DC_CHAT_ID_TRASH)%N then None
    else Some {| msg_id := id; msg_chat_id := m_chat_id r;
                 msg_state := MessageState.with_mdns (m_state r) (has_mdns d id);
                 msg_error := match m_error r with [] => None | e => Some e end |}.

(** ** Delivery and failure *)

(** [update_msg_state]; [None] is a failed [ensure!]. *)
Definition update_msg_state (id : MsgId) (state : MessageState) (d : MsgDb) : option MsgDb :=
  match state with
  | MessageState.OutMdnRcvd | MessageState.OutFailed => None
  | _ =>
      let clear_error :=
        (MessageState.to_u32 MessageState.OutPending <=? MessageState.to_u32 state)%Z in
      Some (set_msgs (alter (λ r, let r := with_state r state in
                                  if clear_error then with_error r [] else r) id) d)
  end.

(** [MsgId::set_delivered]. *)
Definition set_delivered (id : MsgId) (d : MsgDb) : bool * MsgDb :=
  match msgs d !! id with
  | Some r =>
      if bool_decide (m_state r = MessageState.OutPending) then
        (true,
         emit [MsgDelivered (m_chat_id r) id; ChatlistItemChanged (m_chat_id r)]
           (set_msgs (<[id := with_error (with_state r MessageState.OutDelivered) []]>) d))
      else (false, d)
  | None => (false, d)
  end.

(** [set_msg_failed]. *)
Definition set_msg_failed (msg : Message) (error : str) (d : MsgDb) : Message * MsgDb :=
  let state := if MessageState.can_fail (msg_state msg) then MessageState.OutFailed
               else msg_state msg in
  let msg := {| msg_id := msg_id msg; msg_chat_id := msg_chat_id msg; msg_state := state;
                msg_error := Some error |} in
  let exists_ := bool_decide (is_Some (msgs d !! msg_id msg)) in
  let d := set_msgs (alter (λ r, with_error (with_state r state) error) (msg_id msg)) d in
  (msg,
   emit (MsgFailed (msg_chat_id msg) (msg_id msg)
         :: if exists_ then [ChatlistItemChanged (msg_chat_id msg)] else []) d).

(** The identifiers of the messages that satisfy [p], ascending. *)
Definition ids_where (p : N -> msg_row -> bool) (t : msg_table) : list N :=
  merge_sort N.le (base.filter (λ kr, p kr.1 kr.2 = true) (map_to_list t)).*1.

(** [handle_ndn]; [None] is an error. *)
Definition handle_ndn (rfc724_mid : str) (error : option str) (d : MsgDb) : option MsgDb :=
  match rfc724_mid with
  | [] => Some d
  | _ =>
      let msg_ids :=
        ids_where (λ _ r, bool_decide (m_rfc724_mid r = rfc724_mid) && (m_from_id r =? SELF)%N)
          (msgs d) in
      let err_msg := default (lit "Delivery to at least one recipient failed.") error in
      foldl (λ o id,
        d ← o;
        message ← load_from_db id d;
        chat ← chats d !! msg_chat_id message;
        if bool_decide (cs_type chat = Chattype.OutBroadcast) then Some d
        else
          let aggregated := (λ err, err ++ [LF; LF] ++ err_msg) <$> msg_error message in
          Some (set_msg_failed message (default err_msg aggregated) d).2)
        (Some d) msg_ids
  end.

(** ** Read receipts *)

(** The newest message with the Message-ID that this account sent. *)
Definition latest_own (rfc724_mid : str) (t : msg_table) : option N :=
  last (ids_where (λ _ r, bool_decide (m_rfc724_mid r = rfc724_mid) && (m_from_id r =? SELF)%N) t).

(** [handle_mdn]; [None] is an error (the message is in no chat). *)
Definition handle_mdn (from_id : ContactId) (rfc724_mid : str) (timestamp_sent : Z) (d : MsgDb)
  : option MsgDb :=
  if (from_id =? SELF)%N then Some d
  else
    match latest_own rfc724_mid (msgs d) with
    | None => Some d
    | Some msg_id =>
        r ← msgs d !! msg_id;
        _ ← chats d !! m_chat_id r;
        if existsb (λ m, (m.1.1 =? msg_id)%N && (m.1.2 =? from_id)%N) (msgs_mdns d) then Some d
        else
          let chat_id := m_chat_id r in
          Some (emit ((if has_mdns d msg_id then []
                       else [MsgRead chat_id msg_id; ChatlistItemChanged chat_id])
                      ++ [MsgReadCountChanged chat_id msg_id])
                 (set_mdns (λ l, l ++ [(msg_id, from_id, timestamp_sent)]) d))
    end.

(** ** Seeing *)

(** The row of the query of [markseen_msgs]. *)
Record seen_row := {
  s_id : MsgId;
  s_chat_id : ChatId;
  s_state : MessageState;
  s_param : Params.Params;
  s_from_id : ContactId;
  s_rfc724_mid : str;
  s_hidden : bool;
  s_visibility : ChatVisibility;
  s_blocked : Blocked.Blocked;
  s_timer : Timer
}.

(** The query for one message: [None] is an error (no chat, timer out of range), [Some None]
    no row. *)
Definition load_seen (d : MsgDb) (id : MsgId) : option (option seen_row) :=
  match msgs d !! id with
  | None => Some None
  | Some r =>
      if (9 <? m_chat_id r)%N then
        c ← chats d !! m_chat_id r;
        timer ← timer_from_sql (m_ephemeral_timer r);
        Some (Some {| s_id := id; s_chat_id := m_chat_id r; s_state := m_state r;
                      s_param := load_params (m_param r); s_from_id := m_from_id r;
                      s_rfc724_mid := m_rfc724_mid r; s_hidden := m_hidden r;
                      s_visibility := cs_visibility c;
                      s_blocked := default Blocked.Not (cs_blocked c); s_timer := timer |})
      else Some None
  end.

Definition is_unseen (s : MessageState) : bool :=
  match s with MessageState.InFresh | MessageState.InNoticed => true | _ => false end.

(** Whether the sender gets a read receipt. *)
Definition sends_mdn (d : MsgDb) (s : seen_row) : bool :=
  bool_decide (s_blocked s = Blocked.Not) && negb (s_hidden s)
  && default false (get_bool (s_param s) Param.WantsMdn)
  && bool_decide (get_cmd (s_param s) = SystemMessage.Unknown) && mdns_enabled d.

(** [markseen_on_imap_table]. *)
Definition markseen_on_imap_table (message_id : str) (d : MsgDb) : MsgDb :=
  set_markseen (λ l, l ++ (base.filter (λ ki, i_rfc724_mid ki.2 = message_id)
                             (map_to_list (imap_table d))).*1) d.

(** The recipient of the read receipt. *)
Definition mdn_to (d : MsgDb) (s : seen_row) : option N :=
  if sends_mdn d s then Some (s_from_id s)
  else if bcc_self d then Some SELF else None.

(** One round of the loop of [markseen_msgs] for a message that was not seen. *)
Definition mark_unseen (s : seen_row) (d : MsgDb) : MsgDb :=
  let d := default d (update_msg_state (s_id s) MessageState.InSeen d) in
  let d := markseen_on_imap_table (s_rfc724_mid s) d in
  let d :=
    if sends_mdn d s then
      set_msgs (alter (λ r, with_msg_param r
                  (to_string (Params_remove (s_param s) Param.WantsMdn))) (s_id s)) d
    else d in
  match mdn_to d s with
  | Some to_id => set_smtp_mdns (λ l, l ++ [(s_id s, to_id, s_rfc724_mid s)]) d
  | None => d
  end.

Definition mark_one (d : MsgDb) (s : seen_row) : MsgDb :=
  if is_unseen (s_state s) then mark_unseen s d else d.

(** [markseen_msgs]. *)
Definition markseen_msgs (now : Z) (msg_ids : list N) (d : MsgDb) : option MsgDb :=
  match msg_ids with
  | [] => Some d
  | _ =>
      let d := set_last_msg_id (foldl N.max (last_msg_id d) msg_ids) d in
      rows ← mapM (load_seen d) msg_ids;
      let rows := omap id rows in
      let d :=
        if existsb (λ s, negb (bool_decide (s_timer s = Disabled))) rows
        then (start_ephemeral_timers_msgids now msg_ids d).2 else d in
      let d := foldl mark_one d rows in
      let updated_chat_ids :=
        ascending_ids (s_chat_id
          <$> base.filter (λ s, is_unseen (s_state s) && negb (s_hidden s) = true) rows) in
      let archived_chats_maybe_noticed :=
        existsb (λ s, bool_decide (s_state s = MessageState.InFresh) && negb (s_hidden s)
                      && bool_decide (s_visibility s = ChatVisibility.Archived)) rows in
      Some (emit (concat ((λ c, [MsgsNoticed c; ChatlistItemChanged c]) <$> updated_chat_ids)
                  ++ if archived_chats_maybe_noticed
                     then [MsgsChanged DC_CHAT_ID_ARCHIVED_LINK] else []) d)
  end.

(** ** Noticing *)

Definition is_fresh_in (hidden : bool) (chat_id : ChatId) (r : msg_row) : bool :=
  bool_decide (m_state r = MessageState.InFresh) && Bool.eqb (m_hidden r) hidden
  && (m_chat_id r =? chat_id)%N.

(** [UPDATE msgs SET state=InNoticed WHERE state=InFresh AND hidden=0 AND chat_id=?]. *)
Definition notice_chat (chat_id : ChatId) (t : msg_table) : msg_table :=
  update_where (λ _ r, if is_fresh_in false chat_id r
                       then Some (with_state r MessageState.InNoticed) else None) t.

(** The archived chats with fresh messages. *)
Definition fresh_archived_chats (d : MsgDb) : list N :=
  elements (list_to_set (omap (λ kr,
    if is_fresh_in false (m_chat_id kr.2) kr.2 && (9 <? m_chat_id kr.2)%N
       && match chats d !! m_chat_id kr.2 with
          | Some c => bool_decide (cs_visibility c = ChatVisibility.Archived)
          | None => false
          end
    then Some (m_chat_id kr.2) else None) (map_to_list (msgs d))) : gset N).

(** [marknoticed_chat]; [None] is an error of [markseen_msgs]. *)
Definition marknoticed_chat (now : Z) (chat_id : ChatId) (d : MsgDb) : option MsgDb :=
  let finish d :=
    emit [MsgsNoticed chat_id; ChatlistItemChanged chat_id; MsgsChanged DC_CHAT_ID_ARCHIVED_LINK] d in
  if (chat_id =? DC_CHAT_ID_ARCHIVED_LINK)%N then
    match fresh_archived_chats d with
    | [] => Some d
    | cs =>
        let d := set_msgs (λ t, foldl (λ t c, notice_chat c t) t cs) d in
        let d := foldl (λ d c, emit [MsgsNoticed c; ChatlistItemChanged c]
                                 (start_chat_ephemeral_timers now c d).2) d cs in
        Some (finish d)
    end
  else
    let d := (start_chat_ephemeral_timers now chat_id d).2 in
    let noticed := any_row (λ _ r, is_fresh_in false chat_id r) (msgs d) in
    let d := set_msgs (notice_chat chat_id) d in
    let hidden_messages := take 100 (ids_where (λ _ r, is_fresh_in true chat_id r) (msgs d)) in
    d ← markseen_msgs now hidden_messages d;
    if noticed then Some (finish d) else Some d.

(** [markfresh_chat]: the newest visible incoming message becomes fresh again. *)
Definition newest_incoming (chat_id : ChatId) (t : msg_table) : option (N * msg_row) :=
  last (merge_sort (λ a b : N * msg_row,
          (m_timestamp a.2 < m_timestamp b.2)%Z
          ∨ m_timestamp a.2 = m_timestamp b.2 ∧ (a.1 <= b.1)%N)
    (base.filter (λ kr, match m_state kr.2 with
                        | MessageState.InFresh | MessageState.InNoticed | MessageState.InSeen => true
                        | _ => false
                        end && negb (m_hidden kr.2) && (m_chat_id kr.2 =? chat_id)%N = true)
       (map_to_list t))).

Definition markfresh_chat (chat_id : ChatId) (d : MsgDb) : MsgDb :=
  match newest_incoming chat_id (msgs d) with
  | Some (id, r) =>
      if bool_decide (m_state r = MessageState.InFresh) then d
      else emit [MsgsChanged chat_id; ChatlistItemChanged chat_id]
             (set_msgs (<[id := with_state r MessageState.InFresh]>) d)
  | None => d
  end.

(** ** More that is noticed and seen *)

(** Fresh messages that satisfy [p] become noticed. *)
Definition notice_where (p : N -> msg_row -> bool) (t : msg_table) : msg_table :=
  update_where (λ k r, if bool_decide (m_state r = MessageState.InFresh) && p k r
                       then Some (with_state r MessageState.InNoticed) else None) t.

(** Archiving a chat: the part of [ChatId::set_visibility_ex] about messages. *)
Definition notice_archived (now : Z) (chat_id : ChatId) (d : MsgDb) : MsgDb :=
  (start_chat_ephemeral_timers now chat_id (set_msgs (notice_where (λ _ r, m_chat_id r =? chat_id)%N) d)).2.

(** [Contact::mark_noticed]. *)
Definition mark_noticed (contact_id : ContactId) (d : MsgDb) : MsgDb :=
  set_msgs (notice_where (λ _ r, m_from_id r =? contact_id)%N) d.

(** [mark_old_messages_as_noticed], for the newest outgoing message of a chat among those received. *)
Definition notice_until (chat_id : ChatId) (sort_timestamp : Z) (d : MsgDb) : MsgDb :=
  set_msgs (notice_where (λ _ r, negb (m_hidden r) && (m_chat_id r =? chat_id)%N
                                 && (m_timestamp r <=? sort_timestamp)%Z)) d.

(** A read receipt another device of the user sent ([receive_imf_inner]): the message is seen here too,
    and those before it in the chat are noticed. *)
Definition seen_elsewhere (now : Z) (encrypted : bool) (id : MsgId) (d : MsgDb) : MsgDb :=
  match load_from_db id d, msgs d !! id with
  | Some msg, Some r =>
      let showpadlock := negb (default 0 (get_int (load_params (m_param r)) Param.GuaranteeE2ee) =? 0)%Z
                         || (m_from_id r =? DEVICE)%N in
      if is_unseen (msg_state msg) && (encrypted || negb showpadlock)
      then start_ephemeral_timer now id (default d (update_msg_state id MessageState.InSeen d))
      else d
  | _, _ => d
  end.

Definition notice_before (chat_id : ChatId) (timestamp_sort : Z) (id : MsgId) (d : MsgDb) : MsgDb :=
  set_msgs (notice_where (λ k r, negb (m_hidden r) && (m_chat_id r =? chat_id)%N
    && ((m_timestamp r <? timestamp_sort)%Z || (m_timestamp r =? timestamp_sort)%Z && (k <? id)%N))) d.

(** ** Sending again *)

(** [Message::is_info]; [to_info] says that the recipient column holds the contact of info messages. *)
Definition is_info (to_info : bool) (r : msg_row) : bool :=
  let cmd := get_cmd (load_params (m_param r)) in
  (m_from_id r =? INFO)%N || to_info
  || negb (bool_decide (cmd = SystemMessage.Unknown)) && negb (bool_decide (cmd = SystemMessage.AutocryptSetupMessage)).

(** [resend_msgs_ex], the state of one of the messages; [None] is an error. *)
Definition resend_state (to_fingerprint to_info : bool) (id : MsgId) (d : MsgDb) : option MsgDb :=
  msg ← load_from_db id d;
  r ← msgs d !! id;
  if negb (m_from_id r =? SELF)%N then None
  else if is_info to_info r then None
  else
    match msg_state msg with
    | MessageState.OutPending | MessageState.OutFailed | MessageState.OutDelivered | MessageState.OutMdnRcvd =>
        if to_fingerprint then Some d else update_msg_state id MessageState.OutPending d
    | _ => None
    end.

(** The message of a draft is sent ([prepare_send_msg] and [Chat::prepare_msg_raw] with [update_msg_id]), its
    state in memory being that of its row; [new] holds the other columns that are written. *)
Definition send_draft (id : MsgId) (new : msg_row) (d : MsgDb) : option MsgDb :=
  r ← msgs d !! id;
  if bool_decide (m_state r = MessageState.OutDraft)
  then Some (set_msgs (<[id := with_state new MessageState.OutPending]>) d) else None.

(** ** Lemmas: seeing *)

(** The row of a message after a round of the loop. *)
Definition marked_row (d : MsgDb) (s : seen_row) (r : msg_row) : msg_row :=
  let r := with_state r MessageState.InSeen in
  if sends_mdn d s
  then with_msg_param r (to_string (Params_remove (s_param s) Param.WantsMdn)) else r.

Lemma marked_row_timestamp d s r ts :
  with_ephemeral_timestamp (marked_row d s r) ts = marked_row d s (with_ephemeral_timestamp r ts).
Proof.
  unfold marked_row. generalize (to_string (Params_remove (s_param s) Param.WantsMdn)) as p.
  by destruct (sends_mdn d s).
Qed.

(** The read receipt queued for a message. *)
Definition queued (d : MsgDb) (s : seen_row) : list (N * N * str) :=
  if is_unseen (s_state s) then
    match mdn_to d s with Some to_id => [(s_id s, to_id, s_rfc724_mid s)] | None => [] end
  else [].

Definition same_config (d d' : MsgDb) : Prop :=
  mdns_enabled d' = mdns_enabled d ∧ bcc_self d' = bcc_self d ∧ chats d' = chats d
  ∧ msgs_mdns d' = msgs_mdns d.

Lemma sends_mdn_config d d' s : same_config d d' → sends_mdn d' s = sends_mdn d s.
Proof. unfold sends_mdn. by intros (-> & _). Qed.

Lemma mdn_to_config d d' s : same_config d d' → mdn_to d' s = mdn_to d s.
Proof. intros H. unfold mdn_to. rewrite (sends_mdn_config _ _ _ H). by destruct H as (_ & -> & _). Qed.

Lemma mark_one_config d s : same_config d (mark_one d s).
Proof.
  unfold mark_one, mark_unseen, same_config. simpl.
  destruct (is_unseen _); [|done]. by destruct (mdn_to _ s), (sends_mdn _ s).
Qed.

Lemma mark_one_msgs d s k :
  msgs (mark_one d s) !! k
  = (λ r, if bool_decide (k = s_id s) && is_unseen (s_state s) then marked_row d s r else r)
      <$> msgs d !! k.
Proof.
  unfold mark_one, marked_row. destruct (is_unseen (s_state s)) eqn:E;
    [|rewrite andb_false_r; by destruct (msgs d !! k)].
  rewrite andb_true_r.
  assert (msgs (mark_unseen s d)
          = (if sends_mdn d s
             then alter (λ r, with_msg_param r (to_string (Params_remove (s_param s) Param.WantsMdn)))
                    (s_id s)
             else λ t, t)
              (alter (λ r, with_state r MessageState.InSeen) (s_id s) (msgs d))) as ->.
  { unfold mark_unseen. simpl.
    change (sends_mdn (markseen_on_imap_table _ _) s) with (sends_mdn d s).
    by destruct (sends_mdn d s), (mdn_to _ s). }
  destruct (sends_mdn d s); case_bool_decide as Hk; subst.
  - rewrite !lookup_alter_eq. by destruct (msgs d !! s_id s).
  - rewrite !lookup_alter_ne by done. by destruct (msgs d !! k).
  - rewrite !lookup_alter_eq. by destruct (msgs d !! s_id s).
  - rewrite !lookup_alter_ne by done. by destruct (msgs d !! k).
Qed.

Lemma mark_one_smtp d s : smtp_mdns (mark_one d s) = smtp_mdns d ++ queued d s.
Proof.
  unfold mark_one, queued. destruct (is_unseen _); [|by rewrite app_nil_r].
  unfold mark_unseen. simpl.
  change (sends_mdn (markseen_on_imap_table _ _) s) with (sends_mdn d s).
  assert (∀ b : bool, mdn_to (if b then set_msgs (alter (λ r, with_msg_param r
             (to_string (Params_remove (s_param s) Param.WantsMdn))) (s_id s))
             (markseen_on_imap_table (s_rfc724_mid s)
                (set_msgs (alter (λ r, with_state r MessageState.InSeen) (s_id s)) d))
           else markseen_on_imap_table (s_rfc724_mid s)
                (set_msgs (alter (λ r, with_state r MessageState.InSeen) (s_id s)) d)) s
           = mdn_to d s) as Hm by (by intros []).
  rewrite Hm. destruct (mdn_to d s), (sends_mdn d s); simpl; by rewrite ?app_nil_r.
Qed.

Lemma same_config_trans d1 d2 d3 : same_config d1 d2 → same_config d2 d3 → same_config d1 d3.
Proof. unfold same_config. intros (-> & -> & -> & ->). done. Qed.

Lemma mark_all_config rows d : same_config d (foldl mark_one d rows).
Proof.
  revert d. induction rows as [|s rows IH]; intros d; [done|]. cbn [foldl].
  eapply same_config_trans; [apply mark_one_config|apply IH].
Qed.

Lemma mark_all_smtp rows d :
  smtp_mdns (foldl mark_one d rows) = smtp_mdns d ++ concat (queued d <$> rows).
Proof.
  revert d. induction rows as [|s rows IH]; intros d; [by rewrite app_nil_r|]. cbn [foldl].
  rewrite IH, mark_one_smtp, <-app_assoc, fmap_cons. cbn [concat]. do 3 f_equal.
  apply list_fmap_ext. intros _ s' _. unfold queued.
  by rewrite (mdn_to_config d (mark_one d s) s' (mark_one_config d s)).
Qed.

Lemma mark_all_other rows d k :
  k ∉ s_id <$> rows → msgs (foldl mark_one d rows) !! k = msgs d !! k.
Proof.
  revert d. induction rows as [|s rows IH]; intros d Hk; [done|]. cbn [foldl].
  rewrite fmap_cons in Hk. apply not_elem_of_cons in Hk as [Hne Hk].
  rewrite (IH _ Hk), mark_one_msgs, bool_decide_eq_false_2 by done. by destruct (msgs d !! k).
Qed.

Lemma mark_all_msgs rows d s :
  NoDup (s_id <$> rows) → s ∈ rows →
  msgs (foldl mark_one d rows) !! s_id s
  = (λ r, if is_unseen (s_state s) then marked_row d s r else r) <$> msgs d !! s_id s.
Proof.
  revert d. induction rows as [|s' rows IH]; intros d Hn Hs; [by apply not_elem_of_nil in Hs|].
  cbn [foldl]. rewrite fmap_cons in Hn. apply list.NoDup_cons in Hn as [Hs' Hn].
  apply elem_of_cons in Hs as [->|Hs].
  - rewrite mark_all_other, mark_one_msgs, bool_decide_eq_true_2 by done. done.
  - rewrite (IH _ Hn Hs), mark_one_msgs, bool_decide_eq_false_2.
    + unfold marked_row. rewrite (sends_mdn_config d _ s (mark_one_config d s')).
      by destruct (msgs d !! s_id s).
    + intros E. apply Hs'. rewrite <-E. by apply list_elem_of_fmap_2.
Qed.

(** What the query gives for one message. *)
Definition seen_of (d : MsgDb) (id : MsgId) : option seen_row :=
  match load_seen d id with Some (Some s) => Some s | _ => None end.

(** The messages are in chats that exist and have timers the database can return. *)
Definition markseen_ready (d : MsgDb) (ids : list N) : Prop :=
  ∀ id r, id ∈ ids → msgs d !! id = Some r → (9 < m_chat_id r)%N →
    is_Some (chats d !! m_chat_id r) ∧ (0 <= m_ephemeral_timer r <= u32_max)%Z.

Lemma timer_from_sql_valid z : (0 <= z <= u32_max)%Z → is_Some (timer_from_sql z).
Proof.
  intros H. unfold timer_from_sql, in_u32. destruct (z =? 0)%Z; [by eexists|].
  rewrite !(proj2 (Z.leb_le _ _)) by lia. by eexists.
Qed.

Lemma load_seen_ready d ids id :
  markseen_ready d ids → id ∈ ids → is_Some (load_seen d id).
Proof.
  intros Hr Hid. unfold load_seen. destruct (msgs d !! id) as [r|] eqn:E; [|by eexists].
  destruct (N.ltb_spec 9 (m_chat_id r)) as [Hc|]; [|by eexists].
  destruct (Hr id r Hid E Hc) as [[c ->] Ht]. destruct (timer_from_sql_valid _ Ht) as [t ->].
  by eexists.
Qed.

Lemma mapM_load d ids :
  (∀ id, id ∈ ids → is_Some (load_seen d id)) →
  ∃ rows, mapM (load_seen d) ids = Some rows ∧ omap id rows = omap (seen_of d) ids.
Proof.
  induction ids as [|i ids IH]; intros H; [by exists []|].
  destruct IH as (rows & Hm & Ho); [intros; apply H; by right|].
  destruct (H i ltac:(by left)) as [o Hi].
  exists (o :: rows). cbn [mapM]. rewrite Hi. simpl. rewrite Hm. split; [done|].
  assert (seen_of d i = o) as Hs by (unfold seen_of; rewrite Hi; by destruct o).
  cbn [omap list_omap]. rewrite Hs. destruct o as [s|]; [|exact Ho].
  exact (f_equal (cons s) Ho).
Qed.

Lemma seen_of_spec d id s :
  seen_of d id = Some s →
  s_id s = id ∧ ∃ r, msgs d !! id = Some r ∧ (9 < m_chat_id r)%N ∧ s_state s = m_state r.
Proof.
  unfold seen_of, load_seen. destruct (msgs d !! id) as [r|]; [|done].
  destruct (N.ltb_spec 9 (m_chat_id r)); [|done].
  destruct (chats d !! m_chat_id r); [|done]. simpl.
  destruct (timer_from_sql _); [|done]. simpl. intros [= <-]. simpl. eauto.
Qed.

Lemma seen_of_some d ids id r :
  markseen_ready d ids → id ∈ ids → msgs d !! id = Some r → (9 < m_chat_id r)%N →
  is_Some (seen_of d id).
Proof.
  intros Hr Hid E Hc. unfold seen_of, load_seen. rewrite E, (proj2 (N.ltb_lt _ _) Hc).
  destruct (Hr id r Hid E Hc) as [[c ->] Ht]. destruct (timer_from_sql_valid _ Ht) as [t ->].
  by eexists.
Qed.

Lemma seen_ids_sub d (ids : list N) k : k ∈ s_id <$> omap (seen_of d) ids → k ∈ ids ∧ is_Some (seen_of d k).
Proof.
  intros (s & -> & Hs)%list_elem_of_fmap. apply list_elem_of_omap in Hs as (i & Hi & Hs).
  destruct (seen_of_spec _ _ _ Hs) as [-> _]. eauto.
Qed.

Lemma seen_ids_NoDup d (ids : list N) : NoDup ids → NoDup (s_id <$> omap (seen_of d) ids).
Proof.
  induction 1 as [|i ids Hi Hn IH]; [constructor|]. simpl.
  destruct (seen_of d i) as [s|] eqn:E; [|done]. rewrite fmap_cons.
  apply list.NoDup_cons. split; [|done]. destruct (seen_of_spec _ _ _ E) as [-> _].
  by intros [? _]%seen_ids_sub.
Qed.

(** Starting timers changes nothing but timers. *)
Lemma timers_keep now ids (b : bool) d k :
  let d' := if b then (start_ephemeral_timers_msgids now ids d).2 else d in
  same_config d d' ∧ smtp_mdns d' = smtp_mdns d
  ∧ ∃ ts, msgs d' !! k = (λ r, with_ephemeral_timestamp r (ts r)) <$> msgs d !! k.
Proof.
  assert (∀ r, with_ephemeral_timestamp r (m_ephemeral_timestamp r) = r) as Hid by (by intros []).
  destruct b; intros d'.
  - unfold d', start_ephemeral_timers_msgids.
    pose proof (start_msgids_lookup now ids false (msgs d) k) as H.
    destruct (foldl _ _ _) as [b t]. simpl in *. split_and!; [done..|].
    exists (λ r, m_ephemeral_timestamp (if bool_decide (k ∈ ids) then started now r else r)).
    rewrite H. destruct (msgs d !! k) as [r|]; [|done]. simpl. f_equal.
    destruct (bool_decide _); [|done]. unfold started. destruct (_ && _); done.
  - split_and!; [done..|]. exists m_ephemeral_timestamp.
    destruct (msgs d' !! k) as [r|] eqn:E; simpl; unfold d' in E; rewrite E; simpl; by rewrite ?Hid.
Qed.

(** The run of [markseen_msgs]. *)
Lemma markseen_run now ids d :
  NoDup ids → (∀ id, id ∈ ids → is_Some (load_seen d id)) →
  ∃ d', markseen_msgs now ids d = Some d' ∧ same_config d d'
    ∧ smtp_mdns d' = smtp_mdns d ++ concat (queued d <$> omap (seen_of d) ids)
    ∧ (∀ k, ∃ ts, msgs d' !! k
          = (λ r, with_ephemeral_timestamp
                    (match seen_of d k with
                     | Some s => if bool_decide (k ∈ ids) && is_unseen (s_state s)
                                 then marked_row d s r else r
                     | None => r
                     end) (ts r)) <$> msgs d !! k).
Proof.
  intros Hn Hr. unfold markseen_msgs. destruct ids as [|i ids].
  { exists d. split_and!; [done..|by rewrite app_nil_r|]. intros k. exists m_ephemeral_timestamp.
    destruct (msgs d !! k) as [[]|]; [|done]. simpl. by destruct (seen_of d k). }
  set (l := i :: ids) in *. set (d1 := set_last_msg_id _ d).
  destruct (mapM_load d1 l Hr) as (rows & -> & Ho).
  change (seen_of d1) with (seen_of d) in Ho. cbn [mbind option_bind]. rewrite Ho.
  set (b := existsb (λ s, negb (bool_decide (s_timer s = Disabled))) _).
  set (d2 := if b then (start_ephemeral_timers_msgids now l d1).2 else d1).
  eexists. split; [reflexivity|].
  destruct (timers_keep now l b d1 i) as (Hc1 & Hs1 & _). fold d2 in Hc1, Hs1.
  pose proof (mark_all_config (omap (seen_of d) l) d2) as Hc2.
  pose proof (same_config_trans d1 _ _ Hc1 Hc2) as Hc.
  split_and!; [exact Hc| |].
  - change (smtp_mdns (foldl mark_one d2 (omap (seen_of d) l))
            = smtp_mdns d ++ concat (queued d <$> omap (seen_of d) l)).
    rewrite mark_all_smtp, Hs1. do 2 f_equal. apply list_fmap_ext. intros _ s _.
    unfold queued. by rewrite (mdn_to_config d1 d2 s Hc1).
  - intros k. destruct (timers_keep now l b d1 k) as (_ & _ & ts & Hk). fold d2 in Hk.
    exists ts. cbn [msgs emit]. change (msgs d1) with (msgs d) in Hk.
    destruct (decide (k ∈ s_id <$> omap (seen_of d) l)) as [Hin|Hin].
    + destruct (seen_ids_sub _ _ _ Hin) as [Hkl [s Hs]]. rewrite Hs.
      destruct (seen_of_spec _ _ _ Hs) as [Hid _].
      assert (s ∈ omap (seen_of d) l) as Hsl by (apply list_elem_of_omap; eauto).
      pose proof (mark_all_msgs _ d2 s (seen_ids_NoDup d l Hn) Hsl) as Hm.
      rewrite Hid in Hm. rewrite Hm, Hk, bool_decide_eq_true_2 by done. simpl.
      destruct (msgs d !! k) as [r|]; [|done]. simpl. f_equal.
      destruct (is_unseen (s_state s)); [|reflexivity]. rewrite marked_row_timestamp.
      unfold marked_row. by rewrite (sends_mdn_config d1 d2 s Hc1).
    + rewrite mark_all_other, Hk by done. simpl.
      destruct (msgs d !! k) as [r|]; [|done]. simpl. f_equal.
      destruct (seen_of d k) as [s|] eqn:Hs; [|done].
      rewrite bool_decide_eq_false_2; [done|]. intros Hkl. apply Hin.
      destruct (seen_of_spec _ _ _ Hs) as [<- _]. apply list_elem_of_fmap_2.
      apply list_elem_of_omap. eauto.
Qed.

Lemma markseen_state d s k r ids ts :
  seen_of d k = s → msgs d !! k = Some r → markseen_ready d ids →
  m_state (with_ephemeral_timestamp
     (match s with
      | Some s => if bool_decide (k ∈ ids) && is_unseen (s_state s) then marked_row d s r else r
      | None => r
      end) ts)
  = if bool_decide (k ∈ ids) && (9 <? m_chat_id r)%N && is_unseen (m_state r)
    then MessageState.InSeen else m_state r.
Proof.
  intros Hs Hr Hready. destruct s as [s|].
  - destruct (seen_of_spec _ _ _ Hs) as (_ & r' & Hr' & Hc & Hst). simplify_eq.
    rewrite (proj2 (N.ltb_lt _ _) Hc), andb_true_r, Hst. simpl.
    destruct (bool_decide (k ∈ ids) && _); [|done].
    unfold marked_row. by destruct (sends_mdn d s).
  - simpl. destruct (decide (k ∈ ids)) as [Hk|Hk];
      [|by rewrite bool_decide_eq_false_2].
    destruct (N.ltb_spec 9 (m_chat_id r)) as [Hc|]; [|by rewrite andb_false_r].
    by destruct (seen_of_some d ids k r Hready Hk Hr Hc) as [? ?]; simplify_eq.
Qed.

(** Marking messages as seen: exactly the requested messages that were fresh or noticed
    become seen, all others keep their state; the read receipts queued are those of these
    messages, in order, to the sender when it asked for one (and else to the own devices, if
    they get copies); the request is cleared with the receipt, so that the sender never gets
    a second one; marking the same messages again queues nothing. *)
Theorem markseen_msgs_spec now ids d :
  NoDup ids → markseen_ready d ids →
  ∃ d', markseen_msgs now ids d = Some d'
    ∧ (∀ k r, msgs d !! k = Some r →
         ∃ r', msgs d' !! k = Some r'
           ∧ m_state r' = if bool_decide (k ∈ ids) && (9 <? m_chat_id r)%N
                             && is_unseen (m_state r)
                          then MessageState.InSeen else m_state r)
    ∧ smtp_mdns d' = smtp_mdns d ++ concat (queued d <$> omap (seen_of d) ids)
    ∧ (∀ k s, k ∈ ids → seen_of d k = Some s → is_unseen (s_state s) = true →
         sends_mdn d s = true →
         ∃ r', msgs d' !! k = Some r'
           ∧ Params_get (load_params (m_param r')) Param.WantsMdn = None)
    ∧ (∀ now', ∃ d'', markseen_msgs now' ids d' = Some d'' ∧ smtp_mdns d'' = smtp_mdns d').
Proof.
  intros Hn Hr. destruct (markseen_run now ids d Hn (λ id, load_seen_ready d ids id Hr)) as (d' & Hrun & Hcfg & Hsmtp & Hmsgs).
  assert (∀ k r, msgs d !! k = Some r →
         ∃ r', msgs d' !! k = Some r' ∧ m_chat_id r' = m_chat_id r
           ∧ m_ephemeral_timer r' = m_ephemeral_timer r
           ∧ m_state r' = if bool_decide (k ∈ ids) && (9 <? m_chat_id r)%N
                             && is_unseen (m_state r)
                          then MessageState.InSeen else m_state r) as Hstate.
  { intros k r Hk. destruct (Hmsgs k) as [ts Hts]. rewrite Hk in Hts. simpl in Hts.
    eexists. split; [exact Hts|]. rewrite (markseen_state d _ k r ids (ts r)) by done.
    destruct (seen_of d k) as [s|]; [|done].
    destruct (_ && _); [|done]. unfold marked_row. by destruct (sends_mdn d s). }
  exists d'. split_and!; [done| |done| |].
  - intros k r Hk. destruct (Hstate k r Hk) as (r' & ? & _ & _ & ?). eauto.
  - intros k s Hk Hs Hun Hsend. destruct (Hmsgs k) as [ts Hts].
    destruct (seen_of_spec _ _ _ Hs) as (_ & r & Hkr & _). rewrite Hs, Hkr in Hts. simpl in Hts.
    rewrite bool_decide_eq_true_2, Hun in Hts by done. simpl in Hts.
    eexists. split; [exact Hts|]. unfold marked_row. rewrite Hsend. cbn [m_param with_msg_param with_ephemeral_timestamp].
    rewrite load_params_to_string. unfold Params_get, Params_remove. simpl. apply lookup_delete_eq.
  - intros now'.
    assert (∀ k r', msgs d' !! k = Some r' → ∃ r, msgs d !! k = Some r) as Hback.
    { intros k r' Hk. destruct (Hmsgs k) as [ts Hts]. rewrite Hk in Hts.
      destruct (msgs d !! k); [by eexists|done]. }
    destruct (markseen_run now' ids d' Hn) as (d'' & ? & _ & Hs'' & _).
    { intros k0 Hk0. apply (load_seen_ready d' ids); [|done].
      intros k r' Hk Hkr' Hc. destruct (Hback k r' Hkr') as [r Hkr].
      destruct (Hstate k r Hkr) as (r'' & E & Ec & Et & _). simplify_eq.
      destruct Hcfg as (_ & _ & -> & _). rewrite Ec, Et in *. by apply (Hr k r). }
    exists d''. split; [done|]. rewrite Hs''. rewrite <-(app_nil_r (smtp_mdns d')) at 2. f_equal.
    assert (∀ s, s ∈ omap (seen_of d') ids → queued d' s = []) as Hq.
    { intros s (k & Hk & Hs)%list_elem_of_omap.
      destruct (seen_of_spec _ _ _ Hs) as (_ & r' & Hkr' & Hc & Hst).
      destruct (Hback k r' Hkr') as [r Hkr].
      destruct (Hstate k r Hkr) as (r'' & E & Ec & _ & Es). simplify_eq.
      unfold queued. rewrite Hst, Es. rewrite Ec in Hc.
      rewrite (bool_decide_eq_true_2 _ Hk), (proj2 (N.ltb_lt _ _) Hc). simpl.
      by destruct (is_unseen (m_state r)) eqn:Eu; simpl; rewrite ?Eu. }
    clear Hs''. induction (omap (seen_of d') ids) as [|s l IH]; [done|]. rewrite fmap_cons. cbn [concat].
    rewrite Hq by (by left). apply IH. intros s' ?. apply Hq. by right.
Qed.

(** ** Lemmas: read receipts *)

Lemma ids_where_spec p t k : k ∈ ids_where p t ↔ ∃ r, t !! k = Some r ∧ p k r = true.
Proof.
  unfold ids_where. rewrite merge_sort_Permutation, list_elem_of_fmap. split.
  - intros ([k' r] & -> & [Hp Hin]%list_elem_of_filter).
    apply elem_of_map_to_list in Hin. eauto.
  - intros (r & Hr & Hp). exists (k, r). split; [done|]. apply list_elem_of_filter.
    by rewrite elem_of_map_to_list.
Qed.

Lemma latest_own_spec mid t id :
  latest_own mid t = Some id →
  ∃ r, t !! id = Some r ∧ m_rfc724_mid r = mid ∧ m_from_id r = SELF.
Proof.
  intros H. apply last_Some_elem_of in H. apply ids_where_spec in H as (r & Hr & Hp).
  apply andb_true_iff in Hp as [Hm Hf]. apply bool_decide_eq_true in Hm.
  apply N.eqb_eq in Hf. eauto.
Qed.

Definition has_receipt (d : MsgDb) (id : MsgId) (from : ContactId) : Prop :=
  (id, from) ∈ (msgs_mdns d).*1.

Lemma existsb_receipt (l : list (N * N * Z)) id from :
  existsb (λ m, (m.1.1 =? id)%N && (m.1.2 =? from)%N) l = true ↔ (id, from) ∈ l.*1.
Proof.
  rewrite existsb_exists, list_elem_of_fmap. split.
  - intros ([[a b] z] & Hin & H). apply andb_true_iff in H as [Ha%N.eqb_eq Hb%N.eqb_eq].
    simpl in *. subst a b. exists (id, from, z). split; [done|]. by apply list_elem_of_In.
  - intros ([[a b] z] & [= -> ->] & Hin). exists (a, b, z).
    split; [by apply list_elem_of_In|]. simpl. by rewrite !N.eqb_refl.
Qed.

Lemma has_mdns_app d id from ts :
  has_mdns (set_mdns (λ l, l ++ [(id, from, ts)]) d) id = true.
Proof. unfold has_mdns. simpl. rewrite existsb_app. simpl. rewrite N.eqb_refl. apply orb_true_r. Qed.

(** A read receipt counts once: a receipt of a contact for a message this account sent is
    recorded for the newest message with that Message-ID, after which the message shows as read
    if it was delivered; the same contact's next receipt changes nothing, and receipts
    for messages of others are ignored. *)
Theorem handle_mdn_spec from mid ts d :
  from ≠ SELF →
  (∀ id r, msgs d !! id = Some r → is_Some (chats d !! m_chat_id r)) →
  ∃ d', handle_mdn from mid ts d = Some d'
    ∧ msgs d' = msgs d
    ∧ (latest_own mid (msgs d) = None → d' = d)
    ∧ (∀ id, latest_own mid (msgs d) = Some id →
         has_receipt d' id from
         ∧ (∀ id' c, has_receipt d' id' c ↔ has_receipt d id' c ∨ (id', c) = (id, from))
         ∧ (NoDup (msgs_mdns d).*1 → NoDup (msgs_mdns d').*1)
         ∧ (get_state id d = MessageState.OutDelivered →
              get_state id d' = MessageState.OutMdnRcvd))
    ∧ (∀ ts', handle_mdn from mid ts' d' = Some d').
Proof.
  intros Hf Hchats. unfold handle_mdn. rewrite (proj2 (N.eqb_neq _ _) Hf).
  destruct (latest_own mid (msgs d)) as [id|] eqn:Hl.
  2: { exists d. split_and!; [done..|]. intros ts'. by rewrite Hl. }
  destruct (latest_own_spec _ _ _ Hl) as (r & Hr & _). rewrite Hr. cbn [mbind option_bind].
  destruct (Hchats id r Hr) as [c Hc]. rewrite Hc. cbn [mbind option_bind].
  destruct (existsb _ (msgs_mdns d)) eqn:Edup.
  - apply existsb_receipt in Edup as Hin. exists d. split_and!; [done..| |].
    + intros id' [= <-]. split_and!; [done| |done|].
      * intros id' c'. split; [by left|]. by intros [?|[= -> ->]].
      * unfold get_state. rewrite Hr. unfold has_mdns.
        assert (existsb (λ m, (m.1.1 =? id)%N) (msgs_mdns d) = true) as ->.
        { apply list_elem_of_fmap in Hin as ([[a b] z] & [= -> ->] & Hin).
          apply existsb_exists. exists (a, b, z). split; [by apply list_elem_of_In|].
          simpl. apply N.eqb_refl. }
        by destruct (m_state r).
    + intros ts'. rewrite Hl, Hr. simpl. by rewrite Hc, Edup.
  - eexists. split; [reflexivity|]. split_and!; [done|done| |].
    + intros id' [= <-]. cbn [emit msgs_mdns set_mdns]. unfold has_receipt. simpl.
      rewrite fmap_app. simpl. split_and!.
      * apply elem_of_app. right. by left.
      * intros id' c'. by rewrite elem_of_app, list_elem_of_singleton.
      * intros Hn. apply NoDup_app. split_and!; [done| |apply NoDup_singleton].
        intros x Hx ->%list_elem_of_singleton. apply existsb_receipt in Hx. congruence.
      * unfold get_state. simpl. rewrite Hr. pose proof (has_mdns_app d id from ts) as Hm.
        unfold has_mdns in *. simpl in *. rewrite Hm.
        destruct (m_state r); simpl; try done; by destruct (existsb _ (msgs_mdns d)).
    + intros ts'. simpl. rewrite Hl, Hr. simpl. rewrite Hc. simpl.
      rewrite existsb_app. simpl. by rewrite !N.eqb_refl, orb_true_r.
Qed.

(** ** The state machine of a message *)

(** The states a message is received with, and those of messages of the same direction. *)
Definition received_as (s state : MessageState) : Prop :=
  if MessageState.is_outgoing s then state = MessageState.OutDelivered
  else state ∈ [MessageState.InFresh; MessageState.InNoticed; MessageState.InSeen].


(** Why a step is taken, as far as it matters below. *)
Inductive cause := Resending (id : MsgId) | PostMessage (id : MsgId) | AnotherCause.

(** One operation on the messages of an account. A post-message arrives with the state [state] of a
    received message of the same direction as its pre-message. Whatever else is written, rows are inserted or
    deleted, or their states are kept. *)
Inductive msg_step : cause -> MsgDb -> MsgDb -> Prop :=
| step_delivered id d : msg_step AnotherCause d (set_delivered id d).2
| step_failed id msg error d :
    load_from_db id d = Some msg → msg_step AnotherCause d (set_msg_failed msg error d).2
| step_mdn from mid ts d d' : handle_mdn from mid ts d = Some d' → msg_step AnotherCause d d'
| step_seen now ids d d' : NoDup ids → markseen_msgs now ids d = Some d' → msg_step AnotherCause d d'
| step_seen_elsewhere now encrypted id d : msg_step AnotherCause d (seen_elsewhere now encrypted id d)
| step_noticed now chat d d' : marknoticed_chat now chat d = Some d' → msg_step AnotherCause d d'
| step_archived now chat d : msg_step AnotherCause d (notice_archived now chat d)
| step_contact contact d : msg_step AnotherCause d (mark_noticed contact d)
| step_until chat ts d : msg_step AnotherCause d (notice_until chat ts d)
| step_before chat ts id d : msg_step AnotherCause d (notice_before chat ts id d)
| step_fresh chat d : msg_step AnotherCause d (markfresh_chat chat d)
| step_resend to info id d d' : resend_state to info id d = Some d' → msg_step (Resending id) d d'
| step_draft id new d d' : send_draft id new d = Some d' → msg_step AnotherCause d d'
| step_post id msg state f d :
    load_from_db id d = Some msg → received_as (msg_state msg) state →
    (∀ r, m_state (f r) = max_state (m_state r) state) →
    msg_step (PostMessage id) d (set_msgs (alter f id) d)
| step_trash id on_server d : msg_step AnotherCause d (set_msgs (trash id on_server) d)
| step_expire now d : msg_step AnotherCause d (delete_expired_messages now d)
| step_insert id r d : msgs d !! id = None → msg_step AnotherCause d (set_msgs (<[id := r]>) d)
| step_delete id d : msg_step AnotherCause d (set_msgs (delete id) d)
| step_other d d' :
    msgs_mdns d' = msgs_mdns d → (∀ k, m_state <$> msgs d' !! k = m_state <$> msgs d !! k) →
    msg_step AnotherCause d d'.

(** The changes of the state a user sees; [Undefined] is the state of a message that is not there. *)
Inductive allowed : MessageState -> MessageState -> Prop :=
| allowed_same s : allowed s s
| allowed_new s : allowed MessageState.Undefined s
| allowed_notice : allowed MessageState.InFresh MessageState.InNoticed
| allowed_see s : is_unseen s = true → allowed s MessageState.InSeen
| allowed_unsee s :
    s = MessageState.InNoticed ∨ s = MessageState.InSeen → allowed s MessageState.InFresh
| allowed_send : allowed MessageState.OutDraft MessageState.OutPending
| allowed_deliver : allowed MessageState.OutPending MessageState.OutDelivered
| allowed_read s :
    s = MessageState.OutPending ∨ s = MessageState.OutDelivered →
    allowed s MessageState.OutMdnRcvd
| allowed_fail s : MessageState.can_fail s = true → allowed s MessageState.OutFailed
| allowed_resend s :
    s ∈ [MessageState.OutFailed; MessageState.OutDelivered; MessageState.OutMdnRcvd] →
    allowed s MessageState.OutPending
| allowed_elsewhere s s' :
    s ∈ [MessageState.OutDraft; MessageState.OutPending; MessageState.OutFailed] →
    s' ∈ [MessageState.OutDelivered; MessageState.OutMdnRcvd] → allowed s s'
| allowed_delete s : allowed s MessageState.Undefined.

(** Noticing and seeing: no receipts, and every message moves forward. *)
Inductive forward_state : MessageState -> MessageState -> Prop :=
| forward_same s : forward_state s s
| forward_notice : forward_state MessageState.InFresh MessageState.InNoticed
| forward_see s : is_unseen s = true → forward_state s MessageState.InSeen.

Definition forward (d d' : MsgDb) : Prop :=
  msgs_mdns d' = msgs_mdns d
  ∧ ∀ k, option_Forall2 (λ r r', forward_state (m_state r) (m_state r')) (msgs d !! k) (msgs d' !! k).

Lemma forward_state_trans a b c : forward_state a b → forward_state b c → forward_state a c.
Proof.
  intros [s| |s Hs] H; [done| |]; inversion H; subst; try done; try by constructor.
Qed.

Lemma forward_trans d1 d2 d3 : forward d1 d2 → forward d2 d3 → forward d1 d3.
Proof.
  intros [E1 H1] [E2 H2]. split; [congruence|]. intros k. specialize (H1 k). specialize (H2 k).
  destruct H1 as [r r' Hr|]; inversion H2; subst; constructor.
  by eapply forward_state_trans.
Qed.

Lemma forward_fmap d d' (f : N -> msg_row -> msg_row) :
  msgs_mdns d' = msgs_mdns d →
  (∀ k r, msgs d !! k = Some r → forward_state (m_state r) (m_state (f k r))) →
  (∀ k, msgs d' !! k = f k <$> msgs d !! k) → forward d d'.
Proof.
  intros E Hf Hm. split; [done|]. intros k. rewrite Hm.
  destruct (msgs d !! k) as [r|] eqn:Er; simpl; constructor. by apply Hf.
Qed.

Lemma mapM_Some_load d ids rows :
  mapM (load_seen d) ids = Some rows → ∀ id, id ∈ ids → is_Some (load_seen d id).
Proof.
  revert rows. induction ids as [|i ids IH]; intros rows H id Hid;
    [by apply not_elem_of_nil in Hid|].
  cbn [mapM] in H. destruct (load_seen d i) as [o|] eqn:E; [|done]. simpl in H.
  destruct (mapM (load_seen d) ids) as [rows'|] eqn:E'; [|done].
  apply elem_of_cons in Hid as [->|Hid]; [by eexists|]. by eapply IH.
Qed.

Lemma markseen_forward now ids d d' :
  NoDup ids → markseen_msgs now ids d = Some d' → forward d d'.
Proof.
  intros Hn H.
  assert (∀ id, id ∈ ids → is_Some (load_seen d id)) as Hl.
  { destruct ids as [|i ids]; [intros id Hid; by apply not_elem_of_nil in Hid|].
    unfold markseen_msgs in H.
    destruct (mapM _ _) as [rows|] eqn:E; [|done]. exact (mapM_Some_load _ _ _ E). }
  destruct (markseen_run now ids d Hn Hl) as (d0 & H0 & (_ & _ & _ & Hm) & _ & Hmsgs).
  assert (d0 = d') as -> by congruence. split; [done|]. intros k.
  destruct (Hmsgs k) as [ts ->]. destruct (msgs d !! k) as [r|] eqn:Hr; simpl; constructor.
  destruct (seen_of d k) as [s|] eqn:Hs; [|constructor].
  destruct (seen_of_spec _ _ _ Hs) as (_ & r' & Hr' & _ & Hst). simplify_eq.
  destruct (bool_decide _ && _) eqn:E; [|constructor].
  apply andb_true_iff in E as [_ E]. rewrite Hst in E. simpl.
  unfold marked_row. destruct (sends_mdn d s); simpl; by constructor.
Qed.

Lemma start_chat_forward now c d : forward d (start_chat_ephemeral_timers now c d).2.
Proof.
  pose proof (λ k, start_where_lookup now (λ _ r, m_chat_id r =? c)%N (msgs d) k) as H.
  apply (forward_fmap _ _ (λ _ r, if (m_chat_id r =? c)%N then started now r else r)).
  - unfold start_chat_ephemeral_timers. by destruct (start_where _ _ _).
  - intros k r _. destruct (_ =? c)%N; [|constructor]. unfold started.
    destruct (_ && _); constructor.
  - unfold start_chat_ephemeral_timers. by destruct (start_where _ _ _).
Qed.

Lemma notice_forward c d : forward d (set_msgs (notice_chat c) d).
Proof.
  apply (forward_fmap _ _ (λ _ r, if is_fresh_in false c r
                                  then with_state r MessageState.InNoticed else r)); [done| |].
  - intros k r _. destruct (is_fresh_in false c r) eqn:E; [|constructor].
    unfold is_fresh_in in E. do 2 apply andb_true_iff in E as [E _].
    apply bool_decide_eq_true in E. rewrite E. simpl. constructor.
  - intros k. simpl. unfold notice_chat. rewrite update_where_lookup.
    destruct (msgs d !! k) as [r|]; [|done]. simpl. by destruct (is_fresh_in false c r).
Qed.

Lemma forward_refl d : forward d d.
Proof. split; [done|]. intros k. destruct (msgs d !! k); constructor. constructor. Qed.

Lemma start_one_forward now id d : forward d (start_ephemeral_timer now id d).
Proof.
  unfold start_ephemeral_timer. destruct (ephemeral_timer id d) as [|t]; [apply forward_refl|].
  apply (forward_fmap _ _ (λ k r, if (k =? id)%N && may_start r (sat_add now t)
                                  then with_ephemeral_timestamp r (sat_add now t) else r)); [done| |].
  - intros k r _. destruct (_ && _); constructor.
  - intros k. simpl. rewrite update_where_lookup. destruct (msgs d !! k); [|done]. simpl. by destruct (_ && _).
Qed.

Lemma notice_where_forward p d : forward d (set_msgs (notice_where p) d).
Proof.
  apply (forward_fmap _ _ (λ k r, if bool_decide (m_state r = MessageState.InFresh) && p k r
                                  then with_state r MessageState.InNoticed else r)); [done| |].
  - intros k r _. case_bool_decide as E; [|constructor]. destruct (p k r); [|constructor]. rewrite E. constructor.
  - intros k. simpl. unfold notice_where. rewrite update_where_lookup.
    destruct (msgs d !! k) as [r|]; [|done]. simpl. by destruct (_ && _).
Qed.

Lemma seen_elsewhere_forward now encrypted id d : forward d (seen_elsewhere now encrypted id d).
Proof.
  unfold seen_elsewhere. destruct (load_from_db id d) as [msg|] eqn:El; [|apply forward_refl].
  destruct (msgs d !! id) as [r|] eqn:Er; [|apply forward_refl].
  destruct (is_unseen (msg_state msg)) eqn:Eu; [|apply forward_refl]. destruct (_ || _); [|apply forward_refl]. cbn [andb].
  assert (is_unseen (m_state r) = true) as Hu.
  { unfold load_from_db in El. destruct (id <=? 9)%N; [done|]. rewrite Er in El. simpl in El.
    destruct (_ =? _)%N; [done|]. injection El as <-. simpl in Eu. by destruct (m_state r), (has_mdns d id). }
  eapply forward_trans; [|apply start_one_forward].
  apply (forward_fmap _ _ (λ k r, if decide (k = id) then with_state r MessageState.InSeen else r)); [done| |].
  - intros k r' Hr. destruct (decide (k = id)) as [->|]; [|constructor]. simplify_eq. simpl. by constructor.
  - intros k. simpl. destruct (decide (k = id)) as [->|Hne]; [by rewrite lookup_alter_eq|].
    rewrite lookup_alter_ne by done. by destruct (msgs d !! k).
Qed.

Lemma ids_where_NoDup p t : NoDup (ids_where p t).
Proof.
  unfold ids_where. rewrite merge_sort_Permutation.
  apply NoDup_fmap_fst; [|apply NoDup_filter, NoDup_map_to_list].
  intros k r r' [_ H]%list_elem_of_filter [_ H']%list_elem_of_filter.
  apply elem_of_map_to_list in H, H'. congruence.
Qed.

Lemma forward_emit d d' es : forward d d' → forward d (emit es d').
Proof. done. Qed.

Lemma notice_all_forward cs d : forward d (set_msgs (λ t, foldl (λ t c, notice_chat c t) t cs) d).
Proof.
  revert d. induction cs as [|c cs IH]; intros d; [exact (forward_refl d)|].
  eapply forward_trans; [apply (notice_forward c)|exact (IH (set_msgs (notice_chat c) d))].
Qed.

Lemma start_all_forward now cs d :
  forward d (foldl (λ d c, emit [MsgsNoticed c; ChatlistItemChanged c]
                             (start_chat_ephemeral_timers now c d).2) d cs).
Proof.
  revert d. induction cs as [|c cs IH]; intros d; [apply forward_refl|]. cbn [foldl].
  eapply forward_trans; [apply forward_emit, start_chat_forward|apply IH].
Qed.

Lemma marknoticed_forward now chat d d' : marknoticed_chat now chat d = Some d' → forward d d'.
Proof.
  unfold marknoticed_chat. destruct (chat =? DC_CHAT_ID_ARCHIVED_LINK)%N.
  - destruct (fresh_archived_chats d) as [|c cs]; [intros [= <-]; apply forward_refl|].
    intros [= <-]. apply forward_emit.
    eapply forward_trans; [exact (notice_all_forward (c :: cs) d)|].
    exact (start_all_forward now (c :: cs) _).
  - set (d1 := (start_chat_ephemeral_timers now chat d).2).
    set (d2 := set_msgs (notice_chat chat) d1).
    assert (forward d d2) as H2
      by (eapply forward_trans; [apply start_chat_forward|apply notice_forward]).
    destruct (markseen_msgs _ _ d2) as [d3|] eqn:E; [|done]. cbn [mbind option_bind].
    assert (forward d d3) as H3.
    { eapply forward_trans; [exact H2|]. eapply markseen_forward; [|exact E].
      eapply sublist_NoDup; [apply ids_where_NoDup|apply sublist_take]. }
    destruct (any_row _ _); intros [= <-]; done.
Qed.

Lemma newest_incoming_spec c t id r :
  newest_incoming c t = Some (id, r) →
  t !! id = Some r ∧ (m_state r = MessageState.InFresh ∨ m_state r = MessageState.InNoticed
                      ∨ m_state r = MessageState.InSeen).
Proof.
  intros H. apply last_Some_elem_of in H. rewrite merge_sort_Permutation in H.
  apply list_elem_of_filter in H as [Hp Hin]. apply elem_of_map_to_list in Hin.
  split; [done|]. simpl in Hp. destruct (m_state r); auto; done.
Qed.

(** The row of a message that can be loaded. *)
Lemma load_from_db_row id d msg :
  load_from_db id d = Some msg →
  ∃ r, msgs d !! id = Some r ∧ msg_id msg = id ∧ msg_state msg = MessageState.with_mdns (m_state r) (has_mdns d id).
Proof.
  unfold load_from_db. destruct (id <=? 9)%N; [done|]. destruct (msgs d !! id) as [r|] eqn:Hr; [|done]. simpl.
  destruct (_ =? DC_CHAT_ID_TRASH)%N; [done|]. intros [= <-]. by exists r.
Qed.

Lemma alter_insert (t : msg_table) (f : msg_row -> msg_row) k r : t !! k = Some r → alter f k t = <[k := f r]> t.
Proof.
  intros Hr. apply map_eq. intros i. destruct (decide (i = k)) as [->|].
  - by rewrite lookup_alter_eq, lookup_insert_eq, Hr.
  - by rewrite lookup_alter_ne, lookup_insert_ne.
Qed.

(** A failed message that is not failed any more was sent again, or its post-message was received. *)
Definition unfails (id : MsgId) (c : cause) (s s' : MessageState) : Prop :=
  s = MessageState.OutFailed →
  s' = MessageState.OutFailed ∨ s' = MessageState.Undefined
  ∨ c = Resending id ∧ s' = MessageState.OutPending
  ∨ c = PostMessage id ∧ s' ∈ [MessageState.OutDelivered; MessageState.OutMdnRcvd].

Definition moves (id : MsgId) (c : cause) (s s' : MessageState) : Prop := allowed s s' ∧ unfails id c s s'.

Lemma moves_same id c s : moves id c s s.
Proof. split; [constructor|by left]. Qed.

(** Where nothing else is said, the way is not one from failure. *)
Lemma moves_plain id c s s' : allowed s s' → (s = MessageState.OutFailed → s' = MessageState.OutFailed ∨ s' = MessageState.Undefined) → moves id c s s'.
Proof. intros Ha Hf. split; [done|]. intros E. destruct (Hf E); auto. Qed.

Lemma forward_moves id c d d' : forward d d' → moves id c (get_state id d) (get_state id d').
Proof.
  intros [E H]. unfold get_state, has_mdns. rewrite E. specialize (H id).
  destruct H as [r r' Hr|]; [|apply moves_same]. destruct Hr as [s| |s Hs]; [apply moves_same|by apply moves_plain; [constructor|]|].
  apply moves_plain; destruct s; try done; by constructor.
Qed.

(** Replacing the row of one message. *)
Lemma one_row_moves id c d d' k r r' :
  msgs_mdns d' = msgs_mdns d → msgs d !! k = Some r → msgs d' = <[k := r']> (msgs d) →
  moves k c (MessageState.with_mdns (m_state r) (has_mdns d k)) (MessageState.with_mdns (m_state r') (has_mdns d k)) →
  moves id c (get_state id d) (get_state id d').
Proof.
  intros E Hr Hm Ha. unfold get_state, has_mdns in *. rewrite Hm, E.
  destruct (decide (id = k)) as [->|Hne].
  - by rewrite lookup_insert_eq, Hr.
  - rewrite lookup_insert_ne by done. apply moves_same.
Qed.

Lemma tombstone_moves id c d d' :
  msgs_mdns d' = msgs_mdns d →
  (∀ k, ∃ f : msg_row -> msg_row, msgs d' !! k = f <$> msgs d !! k
        ∧ ∀ r, f r = r ∨ m_state (f r) = MessageState.Undefined) →
  moves id c (get_state id d) (get_state id d').
Proof.
  intros E H. destruct (H id) as (f & Hm & Hf). unfold get_state, has_mdns. rewrite Hm, E.
  destruct (msgs d !! id) as [r|]; [|apply moves_same]. simpl.
  destruct (Hf r) as [-> | ->]; [apply moves_same|]. apply moves_plain; [apply allowed_delete|intros _; by right].
Qed.

Lemma delivered_moves id c k d : moves id c (get_state id d) (get_state id (set_delivered k d).2).
Proof.
  unfold set_delivered. destruct (msgs d !! k) as [r|] eqn:Hr; [|apply moves_same].
  case_bool_decide as Hs; [|apply moves_same]. eapply one_row_moves; [done|exact Hr|done|]. rewrite Hs. simpl.
  apply moves_plain; [|done]. destruct (has_mdns d k); [apply allowed_read; by left|apply allowed_deliver].
Qed.

Lemma failed_moves id c k msg error d :
  load_from_db k d = Some msg → moves id c (get_state id d) (get_state id (set_msg_failed msg error d).2).
Proof.
  intros (r & Hr & Hid & Hst)%load_from_db_row. unfold set_msg_failed. cbn [snd msg_id msg_chat_id msg_state]. rewrite Hid, Hst.
  eapply (one_row_moves _ _ _ _ k r); [done|exact Hr|by apply alter_insert|]. simpl.
  apply moves_plain; destruct (m_state r), (has_mdns d k); simpl; try done; by (constructor || left).
Qed.

Lemma mdn_moves id c from mid ts d d' : handle_mdn from mid ts d = Some d' → moves id c (get_state id d) (get_state id d').
Proof.
  unfold handle_mdn. destruct (from =? SELF)%N; [intros [= <-]; apply moves_same|].
  destruct (latest_own mid (msgs d)) as [k|] eqn:Hk; [|intros [= <-]; apply moves_same].
  destruct (msgs d !! k) as [r|] eqn:Hr; [|done]. simpl. destruct (chats d !! m_chat_id r); [|done]. simpl.
  destruct (existsb _ (msgs_mdns d)); intros [= <-]; [apply moves_same|].
  unfold get_state, has_mdns. simpl. rewrite existsb_app. simpl. destruct (msgs d !! id) as [r'|]; [|apply moves_same].
  apply moves_plain; destruct (m_state r'), (existsb _ (msgs_mdns d)), (k =? id)%N; simpl; try done; (constructor || left); auto.
Qed.

Lemma fresh_moves id c chat d : moves id c (get_state id d) (get_state id (markfresh_chat chat d)).
Proof.
  unfold markfresh_chat. destruct (newest_incoming chat (msgs d)) as [[k r]|] eqn:Hk; [|apply moves_same].
  apply newest_incoming_spec in Hk as [Hr Hs]. case_bool_decide; [apply moves_same|].
  eapply one_row_moves; [done|exact Hr|done|]. simpl.
  destruct Hs as [E|[E|E]]; rewrite E; [done|apply moves_plain; [constructor; auto|done]..].
Qed.

Lemma resend_moves id to info k d d' : resend_state to info k d = Some d' → moves id (Resending k) (get_state id d) (get_state id d').
Proof.
  unfold resend_state. destruct (load_from_db k d) as [msg|] eqn:El; [|done]. simpl.
  apply load_from_db_row in El as (r & Hr & _ & Hst). rewrite Hr. simpl. destruct (negb _); [done|].
  destruct (is_info info r); [done|]. rewrite Hst. clear Hst.
  assert (moves k (Resending k) (MessageState.with_mdns (m_state r) (has_mdns d k)) MessageState.OutPending →
          update_msg_state k MessageState.OutPending d = Some d' →
          moves id (Resending k) (get_state id d) (get_state id d')) as Hone.
  { intros Hm [= <-]. eapply (one_row_moves _ _ _ _ k r); [done|exact Hr|by apply alter_insert|]. exact Hm. }
  destruct (MessageState.with_mdns _ _) eqn:Es; try done; (destruct to; [intros [= <-]; apply moves_same|apply Hone]).
  - apply moves_same.
  - split; [constructor; set_solver|]. intros _. right; right; left. done.
  - apply moves_plain; [constructor; set_solver|done].
  - apply moves_plain; [constructor; set_solver|done].
Qed.

Lemma draft_moves id c k new d d' : send_draft k new d = Some d' → moves id c (get_state id d) (get_state id d').
Proof.
  unfold send_draft. destruct (msgs d !! k) as [r|] eqn:Hr; [|done]. simpl. case_bool_decide as Hs; [|done]. intros [= <-].
  eapply one_row_moves; [done|exact Hr|done|]. rewrite Hs. simpl. apply moves_plain; [constructor|done].
Qed.

Lemma post_moves id k msg state f d :
  load_from_db k d = Some msg → received_as (msg_state msg) state →
  (∀ r, m_state (f r) = max_state (m_state r) state) →
  moves id (PostMessage k) (get_state id d) (get_state id (set_msgs (alter f k) d)).
Proof.
  intros (r & Hr & _ & Hst)%load_from_db_row Hs Hf.
  eapply (one_row_moves _ _ _ _ k r); [done|exact Hr|by apply alter_insert|]. rewrite Hf. rewrite Hst in Hs. clear Hst.
  unfold received_as in Hs.
  destruct (m_state r), (has_mdns d k); cbn in Hs; rewrite ?elem_of_cons, ?elem_of_nil in Hs;
    repeat match type of Hs with _ ∨ _ => destruct Hs as [Hs|Hs] end; subst; try done; cbn;
    first [apply moves_same
          |split; [first [apply allowed_new|apply allowed_notice|apply allowed_see; reflexivity|apply allowed_deliver
                         |apply allowed_read; set_solver|apply allowed_elsewhere; set_solver]
                  |intros E; first [discriminate E|right; right; right; split; [reflexivity|set_solver]]]].
Qed.

Lemma step_moves c d d' id : msg_step c d d' → moves id c (get_state id d) (get_state id d').
Proof.
  intros H. destruct H as [k d|k msg error d Hl|from mid ts d d' H|now ids d d' Hn H|now enc k d|now ch d d' H|now ch d|ct d
    |ch ts d|ch ts k d|ch d|to info k d d' H|k new d d' H|k msg state f d Hl Hs Hf|k on_server d|now d|k r d Hk|k d|d d' Hm Hs].
  - apply delivered_moves.
  - by eapply failed_moves.
  - by eapply mdn_moves.
  - by apply forward_moves, (markseen_forward now ids).
  - apply forward_moves, seen_elsewhere_forward.
  - by apply forward_moves, (marknoticed_forward now ch).
  - apply forward_moves. eapply forward_trans; [apply notice_where_forward|apply start_chat_forward].
  - apply forward_moves, notice_where_forward.
  - apply forward_moves, notice_where_forward.
  - apply forward_moves, notice_where_forward.
  - apply fresh_moves.
  - by eapply resend_moves.
  - by eapply draft_moves.
  - by eapply post_moves.
  - apply tombstone_moves; [done|]. intros i. simpl. unfold trash.
    exists (λ r, if decide (i = k) then trashed_row r on_server else r).
    rewrite replace_by_tombstone_lookup. destruct (msgs d !! i); simpl; destruct (decide (i = k)); split; auto.
  - apply tombstone_moves.
    + unfold delete_expired_messages. by destruct (select_expired_messages d now).
    + intros i. exists (λ r, if expired d now r then trashed_row r false else r).
      rewrite delete_expired_msgs. split; [done|]. intros r. destruct (expired d now r); auto.
  - unfold get_state. simpl. destruct (decide (k = id)) as [->|]; [|rewrite lookup_insert_ne by done; apply moves_same].
    rewrite Hk. apply moves_plain; [constructor|done].
  - unfold get_state. simpl. destruct (decide (k = id)) as [->|]; [|rewrite lookup_delete_ne by done; apply moves_same].
    rewrite lookup_delete_eq. apply moves_plain; [apply allowed_delete|intros _; by right].
  - unfold get_state, has_mdns. rewrite Hm. specialize (Hs id).
    destruct (msgs d !! id) as [r|], (msgs d' !! id) as [r'|]; simpl in Hs; try done; [injection Hs as ->|]; apply moves_same.
Qed.

(** A notification of failed delivery is a sequence of failures. *)
Lemma handle_ndn_steps mid error d d' : handle_ndn mid error d = Some d' → rtc (msg_step AnotherCause) d d'.
Proof.
  unfold handle_ndn. destruct mid as [|x mid]; [by intros [= <-]|].
  set (f := λ (o : option MsgDb) (id : N), _).
  assert (∀ ids o, foldl f o ids = Some d' → ∃ d0, o = Some d0 ∧ rtc (msg_step AnotherCause) d0 d') as H.
  { intros ids. induction ids as [|id ids IH]; intros o; cbn [foldl]; [intros ->; by exists d'|].
    intros (d1 & E & Hr)%IH. unfold f in E. destruct o as [d0|]; [|done]. exists d0. split; [done|]. simpl in E.
    destruct (load_from_db id d0) as [msg|] eqn:El; [|done]. simpl in E. destruct (chats d0 !! _) as [ch|]; [|done]. simpl in E.
    case_bool_decide; injection E as <-; [done|]. eapply rtc_l; [by eapply step_failed|exact Hr]. }
  intros (d0 & [= <-] & Hr)%H. done.
Qed.

(** What happens to a message while it is there. *)
Definition lives (id : MsgId) : relation MsgDb :=
  rtc (λ d d', (∃ c, msg_step c d d') ∧ get_state id d' ≠ MessageState.Undefined).

Lemma allowed_direction s s' :
  allowed s s' → s ≠ MessageState.Undefined → s' ≠ MessageState.Undefined →
  MessageState.is_outgoing s' = MessageState.is_outgoing s.
Proof.
  intros [s0|s0| |s0 Hs|s0 Hs| | |s0 Hs|s0 Hs|s0 Hs|s0 s1 Hs Hs'|s0]; try done; intros _ _;
    rewrite ?elem_of_cons, ?elem_of_nil in *; repeat match goal with H : _ ∨ _ |- _ => destruct H | H : False |- _ => done end; subst;
    try done; by destruct s0.
Qed.

(** C31. The state of a message as the user sees it follows its state machine: every operation that writes
    states (delivery, failure, read receipts of others and of other devices of the user, seeing,
    noticing, marking as fresh, sending a draft, sending again, receiving the post-message, deletion,
    expiry) leaves it or moves it along an allowed edge. A message that failed stays failed until it is sent
    again, its post-message is received from another device, or it is deleted. While it is there, whatever
    happens, an incoming message never turns into an outgoing one or the other way round. A post-message is
    taken to be received in the direction of its pre-message; operations that keep all states, insert or
    delete rows may do anything else. *)
Theorem message_state_machine c d d' id :
  (msg_step c d d' →
     allowed (get_state id d) (get_state id d')
     ∧ (get_state id d = MessageState.OutFailed →
          get_state id d' = MessageState.OutFailed ∨ get_state id d' = MessageState.Undefined
          ∨ c = Resending id ∧ get_state id d' = MessageState.OutPending
          ∨ c = PostMessage id ∧ get_state id d' ∈ [MessageState.OutDelivered; MessageState.OutMdnRcvd]))
  ∧ (lives id d d' → get_state id d ≠ MessageState.Undefined →
       MessageState.is_outgoing (get_state id d') = MessageState.is_outgoing (get_state id d)).
Proof.
  split; [apply step_moves|]. intros H. induction H as [d|d d1 d2 [[k Hstep] Hne] _ IH]; intros Hd; [done|].
  rewrite IH by done. apply allowed_direction; [|done|done]. by eapply step_moves.
Qed.

(** ** Concrete runs *)

Definition sample_seen_db : MsgDb :=
  let r := sample_msg 20 900 50 0 (to_string (set_int Params_new Param.WantsMdn 1)) in
  let d := sample_db (with_state r MessageState.InFresh) in
  set_chat_rows (λ _, {[20%N := {| cs_type := Chattype.Single;
                                   cs_visibility := ChatVisibility.Normal;
                                   cs_blocked := Some Blocked.Not; cs_ephemeral_timer := None;
                                   cs_param := [] |}]}) d.

Lemma markseen_msgs_spec_witness :
  ∃ d', markseen_msgs 1000 [100%N] sample_seen_db = Some d'
    ∧ smtp_mdns d' = [(100%N, 10%N, lit "a@x")].
Proof.
  destruct (markseen_msgs_spec 1000 [100%N] sample_seen_db) as (d' & H1 & _ & H3 & _).
  - apply NoDup_singleton.
  - intros id r _ Hr _. simpl in Hr. apply lookup_singleton_Some in Hr as [<- <-].
    split; [by eexists|]. simpl. unfold u32_max. lia.
  - exists d'. split; [exact H1|]. rewrite H3. reflexivity.
Defined.

Definition sample_sent_db : MsgDb :=
  let r := sample_msg 20 900 0 0 [] in
  set_msgs (λ _, {[100%N := {| m_rfc724_mid := lit "a@x"; m_pre_rfc724_mid := [];
     m_chat_id := 20; m_from_id := SELF; m_timestamp := 900; m_timestamp_rcvd := 0;
     m_type := Viewtype.Text; m_state := MessageState.OutDelivered; m_hidden := false;
     m_param := []; m_location_id := 0; m_error := []; m_ephemeral_timer := 0;
     m_ephemeral_timestamp := 0; m_download_state := DownloadState.Done; m_deleted := false |}]})
    sample_seen_db.

Lemma handle_mdn_spec_witness :
  ∃ d', handle_mdn 10 (lit "a@x") 1000 sample_sent_db = Some d'
    ∧ get_state 100 d' = MessageState.OutMdnRcvd.
Proof.
  destruct (handle_mdn_spec 10 (lit "a@x") 1000 sample_sent_db) as (d' & H1 & _ & _ & H2 & _).
  - done.
  - intros id r Hr. simpl in Hr. apply lookup_singleton_Some in Hr as [<- <-]. by eexists.
  - exists d'. split; [exact H1|]. apply (H2 100%N); reflexivity.
Defined.

Lemma message_state_machine_witness :
  get_state 100 sample_sent_db = MessageState.OutDelivered
  ∧ allowed (get_state 100 sample_sent_db) (get_state 100 (set_msgs (trash 100 true) sample_sent_db))
  ∧ ∃ d', resend_state false false 100 sample_sent_db = Some d' ∧ get_state 100 d' = MessageState.OutPending
      ∧ MessageState.is_outgoing (get_state 100 d') = MessageState.is_outgoing (get_state 100 sample_sent_db).
Proof.
  split; [reflexivity|]. split.
  - apply (message_state_machine AnotherCause). constructor.
  - eexists. split; [vm_compute; reflexivity|]. split; [reflexivity|].
    apply (message_state_machine (Resending 100)); [|discriminate].
    eapply rtc_once. split; [|discriminate]. exists (Resending 100). apply (step_resend false false). vm_compute. reflexivity.
Defined.
