(* ===== verification/Reaction.v ===== *)
(** Reaction: emoji reactions to messages (src/src/reaction.rs). *)
From S2P Require Import Prelude Ids Params Headers MsgTable Ephemeral MsgState.
From stdpp Require Import sorting.

(** ** One reaction *)

(** [Reaction::new]: the first word, if it is shorter than 30 bytes. *)
Definition Reaction_new (reaction : str) : str :=
  match split_ascii_whitespace reaction with
  | emoji :: _ => if (byte_len emoji <? 30)%N then emoji else []
  | [] => []
  end.

(** [Reaction::is_empty]. *)
Definition Reaction_is_empty (r : str) : bool := bool_decide (r = []).

(** ** The reactions of a message *)

Abbreviation Reactions := (gmap N str) (only parsing).

(** [BTreeMap] iteration: ascending by contact. *)
Definition contact_le (a b : N * str) : Prop := (a.1 <= b.1)%N.

#[export] Instance contact_le_dec : RelDecision contact_le.
Proof. intros a b. unfold contact_le. apply _. Defined.

Definition Reactions_iter (rs : Reactions) : list (N * str) :=
  merge_sort contact_le (map_to_list rs).

(** [Reactions::contacts], [Reactions::get], [Reactions::is_empty]. *)
Definition Reactions_contacts (rs : Reactions) : list N := (Reactions_iter rs).*1.
Definition Reactions_get (rs : Reactions) (contact_id : ContactId) : str :=
  default [] (rs !! contact_id).
Definition Reactions_is_empty (rs : Reactions) : bool := bool_decide (rs = ∅).

(** [Reactions::emoji_frequencies], one step of the loop and the loop. *)
Definition count_emoji (freq : gmap (list N) nat) (emoji : str) : gmap (list N) nat :=
  <[emoji := match freq !! emoji with Some x => x + 1 | None => 1 end]> freq.

Definition emoji_frequencies (rs : Reactions) : gmap (list N) nat :=
  foldl count_emoji ∅ (Reactions_iter rs).*2.

(** The order of [emoji_sorted_by_frequency]: more frequent first, then by the emoji. *)
Definition emoji_cmp (a b : str * nat) : comparison :=
  match CompOpp (Nat.compare a.2 b.2) with Eq => str_cmp a.1 b.1 | c => c end.

Definition emoji_le (a b : str * nat) : Prop := emoji_cmp a b ≠ Gt.

#[export] Instance emoji_le_dec : RelDecision emoji_le.
Proof. intros a b. unfold emoji_le. destruct (emoji_cmp a b); [left|left|right]; congruence. Defined.

(** [Reactions::emoji_sorted_by_frequency]. *)
Definition emoji_sorted_by_frequency (rs : Reactions) : list (str * nat) :=
  merge_sort emoji_le (map_to_list (emoji_frequencies rs)).

(** [Display] of [Reactions]. *)
Definition Reactions_to_string (rs : Reactions) : str :=
  Prelude.join [SP] ((λ ef : str * nat, ef.1 ++ print_N (N.of_nat ef.2))
               <$> emoji_sorted_by_frequency rs).

(** ** The database *)

Inductive ReactionEvent :=
| ReactionsChanged (chat_id : ChatId) (msg_id : MsgId) (contact_id : ContactId)
| ReactionChatlistItemChanged (chat_id : ChatId)
| IncomingReaction (chat_id : ChatId) (contact_id : ContactId) (msg_id : MsgId) (reaction : str).

(** The messages, the table [reactions] (primary key message and contact) and the events. *)
Record ReactionDb := {
  base_db : MsgDb;
  reactions : gmap (N * N) str;
  reaction_events : list ReactionEvent
}.

(** The last reaction of the chat is remembered in its parameters. *)
Definition remember_reaction (msg_id : MsgId) (contact_id : ContactId) (timestamp : Z)
  (c : chat_state) : chat_state :=
  let '(update, p) := update_timestamp (load_params (cs_param c)) Param.LastReactionTimestamp
                        timestamp in
  if update then
    let p := set_i64 p Param.LastReactionMsgId (Z.of_N msg_id) in
    let p := set_i64 p Param.LastReactionContactId (Z.of_N contact_id) in
    {| cs_type := cs_type c; cs_visibility := cs_visibility c; cs_blocked := cs_blocked c;
       cs_ephemeral_timer := cs_ephemeral_timer c; cs_param := to_string p |}
  else c.

(** [set_msg_id_reaction]: the new database, and whether it succeeded (it fails, with the
    reaction stored, when the chat does not exist). *)
Definition set_msg_id_reaction (msg_id : MsgId) (chat_id : ChatId) (contact_id : ContactId)
  (timestamp : Z) (reaction : str) (d : ReactionDb) : bool * ReactionDb :=
  let changed d :=
    {| base_db := base_db d; reactions := reactions d;
       reaction_events := reaction_events d
         ++ [ReactionsChanged chat_id msg_id contact_id; ReactionChatlistItemChanged chat_id] |} in
  if Reaction_is_empty reaction then
    (true, changed {| base_db := base_db d;
                      reactions := delete (msg_id, contact_id) (reactions d);
                      reaction_events := reaction_events d |})
  else
    let stored := <[(msg_id, contact_id) := reaction]> (reactions d) in
    match chats (base_db d) !! chat_id with
    | None => (false, {| base_db := base_db d; reactions := stored;
                         reaction_events := reaction_events d |})
    | Some c =>
        (true, changed {| base_db := set_chat_rows
                            (<[chat_id := remember_reaction msg_id contact_id timestamp c]>)
                            (base_db d);
                          reactions := stored; reaction_events := reaction_events d |})
    end.

(** The message a Message-ID refers to, with the angle brackets removed: any of the messages
    that have it, itself or as the Message-ID of the pre-message; the query of
    [rfc724_mid_exists_ex] does not determine which. *)
Definition mid_trimmed (mid : str) : str :=
  trim_end_by (λ c, c =? 62)%N (trim_start_by (λ c, c =? 60)%N mid).

Definition mid_row (mid : str) (r : msg_row) : Prop :=
  mid ≠ [] ∧ (m_rfc724_mid r = mid ∨ m_pre_rfc724_mid r = mid).

Definition rfc724_mid_exists (mid : str) (d : MsgDb) (found : option N) : Prop :=
  match found with
  | Some id => ∃ r, msgs d !! id = Some r ∧ mid_row (mid_trimmed mid) r
  | None => ∀ id r, msgs d !! id = Some r → ¬ mid_row (mid_trimmed mid) r
  end.

(** [set_msg_reaction], given the message [rfc724_mid_exists] found. *)
Definition set_msg_reaction (found : option N) (chat_id : ChatId) (contact_id : ContactId)
  (timestamp : Z) (reaction : str) (is_incoming_fresh : bool) (d : ReactionDb)
  : bool * ReactionDb :=
  match found with
  | None => (true, d)
  | Some msg_id =>
      let '(ok, d) := set_msg_id_reaction msg_id chat_id contact_id timestamp reaction d in
      if ok && is_incoming_fresh && negb (Reaction_is_empty reaction)
         && MessageState.is_outgoing (get_state msg_id (base_db d))
      then (ok, {| base_db := base_db d; reactions := reactions d;
                   reaction_events := reaction_events d
                     ++ [IncomingReaction chat_id contact_id msg_id reaction] |})
      else (ok, d)
  end.

(** [get_msg_reactions]. *)
Definition get_msg_reactions (msg_id : MsgId) (d : ReactionDb) : Reactions :=
  list_to_map (omap (λ kr : N * N * str,
    if (kr.1.1 =? msg_id)%N then
      let r := Reaction_new kr.2 in
      if Reaction_is_empty r then None else Some (kr.1.2, r)
    else None) (map_to_list (reactions d))).

(** [as u32] of an [i32]. *)
Definition i32_as_u32 (z : Z) : N := Z.to_N (z mod 4294967296).

(** [Chat::get_last_reaction_if_newer_than]: the message, the contact and the reaction;
    the outer [None] is the error for a reserved message identifier. *)
Definition get_last_reaction_if_newer_than (param : Params.Params) (timestamp : Z) (d : ReactionDb)
  : option (option (Message * N * str)) :=
  match get_i64 param Param.LastReactionTimestamp with
  | None => Some None
  | Some reaction_timestamp =>
      if (reaction_timestamp <=? timestamp)%Z then Some None
      else
        let reaction_msg_id := i32_as_u32 (default 0%Z (get_int param Param.LastReactionMsgId)) in
        if (reaction_msg_id <=? 9)%N then None
        else
          Some (reaction_msg ← load_from_db reaction_msg_id (base_db d);
                let contact_id :=
                  i32_as_u32 (default 0%Z (get_int param Param.LastReactionContactId)) in
                reaction ← reactions d !! (msg_id reaction_msg, contact_id);
                Some (reaction_msg, contact_id, reaction))
  end.

(** ** Lemmas: words *)

Lemma Reaction_new_idem s : Reaction_new (Reaction_new s) = Reaction_new s.
Proof.
  unfold Reaction_new at 2 3. destruct (split_ascii_whitespace s) as [|w ws] eqn:E; [done|].
  destruct (byte_len w <? 30)%N eqn:El; [|done].
  assert (w ≠ [] ∧ Forall word_char w) as [Hne Hw].
  { apply (ascii_words_chars [] s); [constructor|].
    unfold split_ascii_whitespace in E. rewrite E. by left. }
  unfold Reaction_new, split_ascii_whitespace. rewrite (ascii_words_single [] w) by done.
  cbn [app]. by rewrite El.
Qed.

(** ** Lemmas: the reactions of a message *)

Lemma get_msg_reactions_lookup m d c :
  get_msg_reactions m d !! c
  = reactions d !! (m, c) ≫= λ s, let r := Reaction_new s in
                                  if Reaction_is_empty r then None else Some r.
Proof.
  unfold get_msg_reactions. set (f := λ kr : N * N * str, _).
  assert (∀ c' r, (c', r) ∈ omap f (map_to_list (reactions d)) ↔
            ∃ s, reactions d !! (m, c') = Some s ∧ r = Reaction_new s ∧ r ≠ []) as Hel.
  { intros c' r. rewrite list_elem_of_omap. split.
    - intros ([[m' c''] s] & Hin%elem_of_map_to_list & Hf). unfold f in Hf. simpl in Hf.
      destruct (N.eqb_spec m' m) as [->|]; [|done]. unfold Reaction_is_empty in Hf.
      case_bool_decide; simplify_eq. eauto.
    - intros (s & Hs & -> & Hne). exists ((m, c'), s). rewrite elem_of_map_to_list.
      split; [done|]. unfold f. simpl. rewrite N.eqb_refl. unfold Reaction_is_empty.
      by rewrite bool_decide_eq_false_2. }
  assert (NoDup (omap f (map_to_list (reactions d))).*1) as Hnd.
  { apply NoDup_fmap_fst.
    - intros c' r r' (s & Hs & -> & _)%Hel (s' & Hs' & -> & _)%Hel. congruence.
    - assert (NoDup (map_to_list (reactions d)).*1) as Hk by apply NoDup_fst_map_to_list.
      revert Hk. clear Hel. generalize (map_to_list (reactions d)) as l.
      induction l as [|[[m' c'] s] l IH]; intros Hk; [constructor|].
      rewrite fmap_cons in Hk. apply list.NoDup_cons in Hk as [Hni Hk].
      cbn [omap list_omap]. destruct (f (m', c', s)) as [[c'' r]|] eqn:E; [|by apply IH].
      apply list.NoDup_cons. split; [|by apply IH]. intros Hin.
      apply list_elem_of_omap in Hin as ([[m2 c2] s2] & Hin2 & E2). apply Hni.
      unfold f in E, E2. simpl in E, E2.
      destruct (N.eqb_spec m' m) as [->|], (N.eqb_spec m2 m) as [->|]; try done.
      destruct (Reaction_is_empty (Reaction_new s)), (Reaction_is_empty (Reaction_new s2)); try done.
      simplify_eq. apply list_elem_of_fmap. by exists (m, c'', s2). }
  destruct (reactions d !! (m, c)) as [s|] eqn:Es; simpl.
  - unfold Reaction_is_empty. case_bool_decide as Hr.
    + apply not_elem_of_list_to_map_1. intros ([c' r] & -> & Hin)%list_elem_of_fmap.
      apply Hel in Hin as (s' & Hs' & -> & Hne). simpl in *. congruence.
    + apply elem_of_list_to_map; [done|]. apply Hel. eauto.
  - apply not_elem_of_list_to_map_1. intros ([c' r] & -> & Hin)%list_elem_of_fmap.
    apply Hel in Hin as (s' & Hs' & _). simpl in *. congruence.
Qed.

Lemma set_reaction_table m chat c ts r d :
  reactions (set_msg_id_reaction m chat c ts r d).2
  = if Reaction_is_empty r then delete (m, c) (reactions d) else <[(m, c) := r]> (reactions d).
Proof.
  unfold set_msg_id_reaction. destruct (Reaction_is_empty r); [done|].
  by destruct (chats (base_db d) !! chat).
Qed.

(** A reaction replaces all earlier reactions of the same contact to the same message, an
    empty one removes them; reactions of other contacts and to other messages are
    untouched.  What is read back is what was sent: storing does not change a reaction. *)
Theorem reaction_overrides m chat c ts txt d :
  let r := Reaction_new txt in
  let d' := (set_msg_id_reaction m chat c ts r d).2 in
  get_msg_reactions m d'
    = (if Reaction_is_empty r then delete c (get_msg_reactions m d)
       else <[c := r]> (get_msg_reactions m d))
  ∧ ∀ m', m' ≠ m → get_msg_reactions m' d' = get_msg_reactions m' d.
Proof.
  intros r d'. split.
  - apply map_eq. intros c'. rewrite get_msg_reactions_lookup. unfold d'.
    rewrite set_reaction_table. destruct (Reaction_is_empty r) eqn:E.
    + destruct (decide (c' = c)) as [->|Hc].
      * by rewrite !lookup_delete_eq.
      * rewrite !lookup_delete_ne, get_msg_reactions_lookup by congruence. done.
    + destruct (decide (c' = c)) as [->|Hc].
      * rewrite !lookup_insert_eq. simpl. unfold r. rewrite Reaction_new_idem.
        fold r. by rewrite E.
      * rewrite !lookup_insert_ne, get_msg_reactions_lookup by congruence. done.
  - intros m' Hm. apply map_eq. intros c'. rewrite !get_msg_reactions_lookup. unfold d'.
    rewrite set_reaction_table. destruct (Reaction_is_empty r);
      by rewrite ?lookup_delete_ne, ?lookup_insert_ne by congruence.
Qed.

(** ** Lemmas: counting *)

Definition occurrences (e : str) (l : list str) : nat := length (base.filter (λ x, x = e) l).

Lemma occurrences_cons e x l :
  occurrences e (x :: l) = (if decide (x = e) then 1 else 0) + occurrences e l.
Proof. unfold occurrences. rewrite filter_cons. by destruct (decide (x = e)). Qed.

Lemma count_foldl l freq e :
  foldl count_emoji freq l !! e
  = match occurrences e l with
    | O => freq !! e
    | S n => Some (default 0 (freq !! e) + S n)
    end.
Proof.
  revert freq. induction l as [|x l IH]; intros freq; [done|]. cbn [foldl].
  rewrite IH, occurrences_cons. unfold count_emoji. destruct (decide (x = e)) as [->|Hx].
  - rewrite lookup_insert_eq. simpl. destruct (occurrences e l), (freq !! e); simpl; f_equal; lia.
  - by rewrite lookup_insert_ne.
Qed.

Lemma frequencies_lookup rs e :
  emoji_frequencies rs !! e
  = match occurrences e (map_to_list rs).*2 with O => None | n => Some n end.
Proof.
  unfold emoji_frequencies. rewrite count_foldl, lookup_empty. simpl.
  assert (occurrences e (Reactions_iter rs).*2 = occurrences e (map_to_list rs).*2) as ->.
  { unfold occurrences, Reactions_iter. by rewrite merge_sort_Permutation. }
  by destruct (occurrences e _).
Qed.

#[export] Instance emoji_le_total : Total emoji_le.
Proof.
  intros a b. unfold emoji_le, emoji_cmp. rewrite (Nat.compare_antisym a.2 b.2).
  destruct (Nat.compare a.2 b.2); simpl; try (by left); try (by right).
  rewrite (str_cmp_antisym a.1 b.1). destruct (str_cmp a.1 b.1); simpl; by (left + right).
Qed.

Lemma frequencies_total l freq :
  sum_list (map_to_list (foldl count_emoji freq l)).*2
  = sum_list (map_to_list freq).*2 + length l.
Proof.
  revert freq. induction l as [|x l IH]; intros freq; [simpl; lia|]. cbn [foldl].
  rewrite IH. cbn [length].
  assert (sum_list (map_to_list (count_emoji freq x)).*2
          = S (sum_list (map_to_list freq).*2)) as ->; [|lia].
  unfold count_emoji. destruct (freq !! x) as [n|] eqn:E.
  - rewrite <-(insert_id freq x n E) at 2.
    rewrite <-(insert_delete_eq freq x n), <-(insert_delete_eq freq x (n + 1)).
    rewrite !map_to_list_insert by apply lookup_delete_eq. simpl. lia.
  - rewrite map_to_list_insert by done. reflexivity.
Qed.

(** The emoji shown under a message: each emoji once, with the number of contacts whose
    reaction it is, the most frequent first and equally frequent ones in a fixed order; the
    numbers add up to the number of contacts that reacted. *)
Theorem emoji_sorted_by_frequency_spec rs :
  let l := emoji_sorted_by_frequency rs in
  (∀ e n, (e, n) ∈ l ↔ n = occurrences e (map_to_list rs).*2 ∧ n ≠ 0)
  ∧ NoDup l.*1
  ∧ Sorted emoji_le l
  ∧ sum_list l.*2 = length (Reactions_contacts rs).
Proof.
  intros l. unfold l, emoji_sorted_by_frequency. split_and!.
  - intros e n. rewrite merge_sort_Permutation, elem_of_map_to_list, frequencies_lookup.
    destruct (occurrences e _); split; [done|by intros [-> ?]|intros [= <-]; done|by intros [-> _]].
  - rewrite merge_sort_Permutation. apply NoDup_fst_map_to_list.
  - apply Sorted_merge_sort, _.
  - rewrite merge_sort_Permutation.
    unfold emoji_frequencies. rewrite frequencies_total. simpl.
    unfold Reactions_contacts. by rewrite !length_fmap.
Qed.

(** ** Lemmas: the last reaction of a chat *)

Lemma i32_as_u32_small n : (n <= 2147483647)%N → i32_as_u32 (Z.of_N n) = n.
Proof. intros H. unfold i32_as_u32. rewrite Z.mod_small by lia. lia. Qed.

Lemma get_int_set_i64 p k z : in_i32 z = true → get_int (set_i64 p k z) k = Some z.
Proof. apply get_int_set_int. Qed.

(** The chat list shows the last reaction: once a contact reacted to a message, with a
    time that is not older than that of the reaction remembered before, the chat's
    last reaction, asked for any earlier time, is that message, that contact and that reaction. *)
Theorem last_reaction_shown m chat c ts txt ts' d cs msg :
  let r := Reaction_new txt in
  let d' := (set_msg_id_reaction m chat c ts r d).2 in
  r ≠ [] → chats (base_db d) !! chat = Some cs → load_from_db m (base_db d) = Some msg →
  (m <= 2147483647)%N → (c <= 2147483647)%N → in_i64 ts = true → (ts' < ts)%Z →
  (default 0 (get_i64 (load_params (cs_param cs)) Param.LastReactionTimestamp) <= ts)%Z →
  ∃ cs', chats (base_db d') !! chat = Some cs'
    ∧ get_last_reaction_if_newer_than (load_params (cs_param cs')) ts' d' = Some (Some (msg, c, r)).
Proof.
  intros r d' Hr Hcs Hmsg Hm Hc Hts Hlt Hold. unfold d', set_msg_id_reaction.
  unfold Reaction_is_empty. rewrite bool_decide_eq_false_2, Hcs by done. cbn [snd base_db set_chat_rows chats].
  rewrite lookup_insert_eq. eexists. split; [reflexivity|].
  unfold remember_reaction, update_timestamp.
  rewrite Z.geb_leb, (proj2 (Z.leb_le _ _) Hold). cbn [cs_param]. rewrite load_params_to_string.
  unfold get_last_reaction_if_newer_than.
  assert (in_i32 (Z.of_N c) = true) as Hc32 by (unfold in_i32, i32_min, i32_max; zcompare; lia).
  assert (in_i32 (Z.of_N m) = true) as Hm32 by (unfold in_i32, i32_min, i32_max; zcompare; lia).
  set (p1 := set_i64 _ Param.LastReactionTimestamp ts).
  set (p2 := set_i64 p1 Param.LastReactionMsgId (Z.of_N m)).
  assert (get_i64 (set_i64 p2 Param.LastReactionContactId (Z.of_N c)) Param.LastReactionTimestamp
          = Some ts) as ->.
  { unfold set_i64 at 1. rewrite get_i64_set_other by done. unfold p2, set_i64 at 1.
    rewrite get_i64_set_other by done. by apply get_i64_set_i64. }
  rewrite (proj2 (Z.leb_gt ts ts') Hlt).
  assert (get_int (set_i64 p2 Param.LastReactionContactId (Z.of_N c)) Param.LastReactionMsgId
          = Some (Z.of_N m)) as ->.
  { unfold get_int, set_i64 at 1. rewrite Params_get_set, decide_False by done.
    by apply get_int_set_i64. }
  rewrite (get_int_set_i64 _ _ _ Hc32). cbn [from_option id default].
  rewrite !i32_as_u32_small by done.
  unfold load_from_db in *. destruct (m <=? 9)%N; [done|].
  cbn [base_db set_chat_rows msgs msgs_mdns]. change (has_mdns (set_chat_rows _ (base_db d)) m)
    with (has_mdns (base_db d) m). rewrite Hmsg. cbn [mbind option_bind].
  assert (msg_id msg = m) as ->.
  { destruct (msgs (base_db d) !! m); [|done]. simpl in Hmsg.
    destruct (_ =? _)%N; [done|]. by injection Hmsg as <-. }
  cbn [reactions]. by rewrite lookup_insert_eq.
Qed.

(** ** Concrete runs *)

Definition sample_reaction_db : ReactionDb :=
  {| base_db := sample_sent_db; reactions := {[(100%N, 11%N) := lit ":heart:"]};
     reaction_events := [] |}.

Lemma last_reaction_shown_witness :
  ∃ cs', chats (base_db (set_msg_id_reaction 100 20 10 1000 (lit ":+1:") sample_reaction_db).2)
           !! 20%N = Some cs'
    ∧ (λ x, x.2) <$> default None
        (get_last_reaction_if_newer_than (load_params (cs_param cs')) 900
           (set_msg_id_reaction 100 20 10 1000 (lit ":+1:") sample_reaction_db).2)
      = Some (lit ":+1:").
Proof.
  edestruct (last_reaction_shown 100 20 10 1000 (lit ":+1: :-1:") 900 sample_reaction_db)
    as (cs' & H1 & H2); try reflexivity; try done.
  exists cs'. split; [exact H1|].
  change (Reaction_new (lit ":+1: :-1:")) with (lit ":+1:") in H2. by rewrite H2.
Defined.

Example reactions_rendered :
  Reactions_to_string (get_msg_reactions 100
    (set_msg_id_reaction 100 20 10 1000 (Reaction_new (lit ":heart: x")) sample_reaction_db).2)
  = lit ":heart:2".
Proof. reflexivity. Qed.
