(* ===== verification/ImapUids.v ===== *)
(** ImapUids: sets of message numbers as IMAP writes them, for fetching, moving, deleting and
    flagging messages in batches (src/src/imap.rs). *)
From S2P Require Import Prelude.

(** ** Ranges *)

(** [struct UidRange] and its [Display]. *)
Record UidRange := { ur_start : N; ur_end : N }.

Definition range_to_string (r : UidRange) : str :=
  if (ur_start r =? ur_end r)%N then print_N (ur_start r)
  else print_N (ur_start r) ++ lit ":" ++ print_N (ur_end r).

(** Addition of one to a [u32]: it wraps around in release builds. *)
Definition succ_u32 (n : N) : N := ((n + 1) mod 4294967296)%N.

(** [start..=end]. *)
Definition range_uids (r : UidRange) : list N :=
  (λ i, (ur_start r + N.of_nat i)%N) <$> seq 0 (N.to_nat (ur_end r + 1 - ur_start r)).

(** ** Sets to fetch *)

(** The first loop of [build_sequence_sets]; [ranges] is in reverse order. *)
Fixpoint build_ranges (ranges : list UidRange) (uids : list N) : list UidRange :=
  match uids with
  | [] => reverse ranges
  | current :: uids' =>
      match ranges with
      | last :: ranges' =>
          if (succ_u32 (ur_end last) =? current)%N
          then build_ranges ({| ur_start := ur_start last; ur_end := current |} :: ranges') uids'
          else build_ranges ({| ur_start := current; ur_end := current |} :: ranges) uids'
      | [] => build_ranges [{| ur_start := current; ur_end := current |}] uids'
      end
  end.

(** The second loop. *)
Fixpoint build_sets (last_uids : list N) (last_str : str) (ranges : list UidRange)
  : list (list N * str) :=
  match ranges with
  | [] => [(last_uids, last_str)]
  | range :: ranges' =>
      let last_uids := last_uids ++ range_uids range in
      let last_str := (if bool_decide (last_str = []) then last_str else last_str ++ lit ",")
                        ++ range_to_string range in
      if (990 <? byte_len last_str)%N
      then (last_uids, last_str) :: build_sets [] [] ranges'
      else build_sets last_uids last_str ranges'
  end.

(** [build_sequence_sets]. *)
Definition build_sequence_sets (uids : list N) : list (list N * str) :=
  filter (λ us, us.2 ≠ []) (build_sets [] [] (build_ranges [] uids)).

(** ** Batches of one folder *)

(** A row the grouper reads: row identifier, UID, folder. *)
Abbreviation grouped_row := (Z * N * str)%type.

(** The inner loop of [UidGrouper::next]: the rows that extend a range. *)
Fixpoint take_range (folder : str) (end_uid : N) (rows : list grouped_row)
  : N * list Z * list grouped_row :=
  match rows with
  | (rowid, uid, f) :: rows' =>
      if bool_decide (f = folder) && ((uid =? succ_u32 end_uid)%N || (uid =? end_uid)%N) then
        let '(e, ids, rest) := take_range folder uid rows' in (e, rowid :: ids, rest)
      else (end_uid, [], rows)
  | [] => (end_uid, [], [])
  end.

(** The outer loop: ranges are added while the set is short.  [fuel] bounds the number of ranges;
    every range takes a row. *)
Fixpoint take_batch (fuel : nat) (folder : str) (rowid_set : list Z) (uid_set : str)
  (rows : list grouped_row) : list Z * str * list grouped_row :=
  match fuel with
  | O => (rowid_set, uid_set, rows)
  | S fuel =>
      if negb (byte_len uid_set <? 1000)%N then (rowid_set, uid_set, rows)
      else
        match rows with
        | (rowid, uid, f) :: rows' =>
            if bool_decide (f = folder) then
              let '(end_uid, ids, rest) := take_range folder uid rows' in
              take_batch fuel folder (rowid_set ++ rowid :: ids)
                ((if bool_decide (uid_set = []) then uid_set else uid_set ++ lit ",")
                   ++ range_to_string {| ur_start := uid; ur_end := end_uid |}) rest
            else (rowid_set, uid_set, rows)
        | [] => (rowid_set, uid_set, rows)
        end
  end.

(** [UidGrouper::next]. *)
Definition grouper_next (rows : list grouped_row)
  : option (str * list Z * str * list grouped_row) :=
  match rows with
  | [] => None
  | (_, _, folder) :: _ =>
      let '(rowid_set, uid_set, rest) := take_batch (length rows) folder [] [] rows in
      Some (folder, rowid_set, uid_set, rest)
  end.

(** The items the grouper yields; every item takes a row. *)
Fixpoint uid_groups (fuel : nat) (rows : list grouped_row) : list (str * list Z * str) :=
  match fuel with
  | O => []
  | S fuel =>
      match grouper_next rows with
      | Some (folder, rowid_set, uid_set, rest) =>
          (folder, rowid_set, uid_set) :: uid_groups fuel rest
      | None => []
      end
  end.

Definition UidGrouper (rows : list grouped_row) : list (str * list Z * str) :=
  uid_groups (length rows) rows.

(** ** What a set denotes (RFC 3501, sequence-set) *)

Definition expand_range (s : str) : option (list N) :=
  match split_char 58%N s with
  | [a] => x ← parse_digits1 a; Some [x]
  | [a; b] =>
      x ← parse_digits1 a; y ← parse_digits1 b; Some (range_uids {| ur_start := x; ur_end := y |})
  | _ => None
  end.

Definition expand_set (s : str) : option (list N) :=
  ls ← mapM expand_range (split_char 44%N s); Some (concat ls).

(** ** Lemmas *)

Lemma print_N_digits n : Forall (λ c, is_digit c = true) (print_N n).
Proof. apply print_digits_Forall. Qed.

Lemma print_N_no_sep sep n : is_digit sep = false → sep ∉ print_N n.
Proof.
  intros Hs Hin. pose proof (proj1 (list.Forall_forall _ _) (print_N_digits n) _ Hin) as H.
  simpl in H. congruence.
Qed.

Lemma range_uids_single a : range_uids {| ur_start := a; ur_end := a |} = [a].
Proof.
  unfold range_uids. simpl. replace (N.to_nat (a + 1 - a)) with 1%nat by lia. simpl.
  f_equal. lia.
Qed.

Lemma expand_range_to_string r :
  expand_range (range_to_string r) = Some (range_uids r).
Proof.
  unfold range_to_string, expand_range. destruct r as [a b]. simpl.
  destruct (a =? b)%N eqn:E.
  - apply N.eqb_eq in E as <-. rewrite split_char_single by (by apply print_N_no_sep).
    rewrite parse_print_N. simpl. by rewrite range_uids_single.
  - change (lit ":" ++ print_N b) with (58%N :: print_N b).
    rewrite split_char_app by (by apply print_N_no_sep).
    rewrite split_char_single by (by apply print_N_no_sep). rewrite !parse_print_N. done.
Qed.

Lemma range_no_comma r : 44%N ∉ range_to_string r.
Proof.
  unfold range_to_string. destruct (_ =? _)%N; [by apply print_N_no_sep|].
  rewrite !elem_of_app. intros [H|[H|H]]; [by apply print_N_no_sep in H| |by apply print_N_no_sep in H].
  apply list_elem_of_singleton in H. discriminate.
Qed.

(** The text of a list of ranges. *)
Definition ranges_str (rs : list UidRange) : str := join (lit ",") (range_to_string <$> rs).

Definition ranges_uids (rs : list UidRange) : list N := concat (range_uids <$> rs).

Lemma range_to_string_not_nil r : range_to_string r ≠ [].
Proof.
  unfold range_to_string. destruct (print_N_head (ur_start r)) as (c & s & -> & _).
  by destruct (_ =? _)%N.
Qed.

Lemma ranges_str_nil rs : ranges_str rs = [] ↔ rs = [].
Proof.
  split; [|by intros ->]. destruct rs as [|r rs]; [done|]. unfold ranges_str. rewrite fmap_cons.
  rewrite join_concat. intros [H _]%app_nil. by apply range_to_string_not_nil in H.
Qed.

Lemma ranges_str_snoc rs r :
  ranges_str (rs ++ [r])
  = (if bool_decide (ranges_str rs = []) then ranges_str rs else ranges_str rs ++ lit ",")
      ++ range_to_string r.
Proof.
  case_bool_decide as E.
  - apply ranges_str_nil in E as ->. done.
  - rewrite <-app_assoc. unfold ranges_str in *. rewrite fmap_app.
    destruct (range_to_string <$> rs) as [|x l] eqn:Er; [done|].
    rewrite <-Er. rewrite join_app; [done|by rewrite Er|done].
Qed.

Lemma ranges_uids_snoc rs r : ranges_uids (rs ++ [r]) = ranges_uids rs ++ range_uids r.
Proof. unfold ranges_uids. rewrite fmap_app, concat_app. simpl. by rewrite app_nil_r. Qed.

(** A server reads from the text exactly the numbers of the ranges. *)
Lemma expand_ranges_str rs : rs ≠ [] → expand_set (ranges_str rs) = Some (ranges_uids rs).
Proof.
  intros Hne. unfold expand_set, ranges_str. change (lit ",") with [44%N]. rewrite split_join.
  - assert (mapM expand_range (range_to_string <$> rs) = Some (range_uids <$> rs)) as ->; [|done].
    clear Hne. induction rs as [|r rs IH]; [done|]. rewrite !fmap_cons. simpl.
    rewrite expand_range_to_string. simpl. by rewrite IH.
  - by intros ?%fmap_nil_inv.
  - apply list.Forall_forall. intros x (r & -> & _)%list_elem_of_fmap. apply range_no_comma.
Qed.

(** *** Ranges *)

Definition uid_ok (u : N) : Prop := (0 < u <= 4294967295)%N.
Definition range_ok (r : UidRange) : Prop := (ur_start r <= ur_end r <= 4294967295)%N.

Lemma succ_u32_eq e u : (e <= 4294967295)%N → uid_ok u → succ_u32 e = u → u = (e + 1)%N.
Proof.
  intros He [Hu _]. unfold succ_u32. destruct (decide (e = 4294967295%N)) as [->|].
  - vm_compute (_ mod _)%N. lia.
  - rewrite N.mod_small by lia. lia.
Qed.

Lemma range_uids_extend a e :
  (a <= e)%N → range_uids {| ur_start := a; ur_end := e + 1 |}
               = range_uids {| ur_start := a; ur_end := e |} ++ [(e + 1)%N].
Proof.
  intros H. unfold range_uids. simpl.
  replace (N.to_nat (e + 1 + 1 - a)) with (S (N.to_nat (e + 1 - a))) by lia.
  rewrite seq_S, fmap_app. simpl. do 2 f_equal. lia.
Qed.

Lemma build_ranges_spec ranges uids :
  Forall range_ok ranges → Forall uid_ok uids →
  Forall range_ok (build_ranges ranges uids)
  ∧ ranges_uids (build_ranges ranges uids) = ranges_uids (reverse ranges) ++ uids.
Proof.
  intros Hr Hu. revert ranges Hr. induction Hu as [|u uids Hu Hus IH]; intros ranges Hr; simpl.
  { split; [by apply Forall_reverse|by rewrite app_nil_r]. }
  assert (range_ok {| ur_start := u; ur_end := u |}) as Hsingle by (unfold range_ok, uid_ok in *; simpl; lia).
  destruct ranges as [|[a e] ranges].
  - destruct (IH [{| ur_start := u; ur_end := u |}]) as [H1 H2]; [by constructor|].
    split; [done|]. rewrite H2. unfold ranges_uids. simpl. by rewrite range_uids_single.
  - apply list.Forall_cons in Hr as [Hl0 Hr]. pose proof Hl0 as Hl. unfold range_ok in Hl. simpl in Hl. cbn [ur_start ur_end].
    destruct (succ_u32 e =? u)%N eqn:E.
    + apply N.eqb_eq, succ_u32_eq in E; [|lia|done]. subst u.
      destruct (IH ({| ur_start := a; ur_end := e + 1 |} :: ranges)) as [H1 H2].
      { constructor; [|done]. unfold range_ok, uid_ok in *. simpl. lia. }
      split; [done|]. rewrite H2, !reverse_cons, !ranges_uids_snoc, range_uids_extend by lia.
      by rewrite <-!app_assoc.
    + destruct (IH ({| ur_start := u; ur_end := u |} :: {| ur_start := a; ur_end := e |} :: ranges))
        as [H1 H2]; [by constructor; [|constructor]|].
      split; [done|]. rewrite H2, (reverse_cons _ {| ur_start := u; ur_end := u |}).
      rewrite ranges_uids_snoc, range_uids_single. by rewrite <-app_assoc.
Qed.

(** *** Sets *)

Lemma print_digits_length fuel n k :
  (n < 10 ^ N.of_nat k)%N → (0 < k)%nat → (length (print_digits fuel n) <= k)%nat.
Proof.
  revert n k. induction fuel as [|fuel IH]; intros n k Hn Hk; simpl; [lia|].
  destruct (n <? 10)%N eqn:E; simpl; [lia|]. apply N.ltb_ge in E. rewrite length_app. simpl.
  destruct k as [|[|k]]; [lia|simpl in Hn; lia|].
  assert (length (print_digits fuel (n / 10)) <= S k)%nat; [|lia]. apply IH; [|lia].
  apply N.Div0.div_lt_upper_bound. rewrite <-N.pow_succ_r'. by rewrite <-Nat2N.inj_succ.
Qed.

Lemma byte_len_ascii s : Forall (λ c, (c < 128)%N) s → byte_len s = N.of_nat (length s).
Proof.
  induction 1 as [|c s Hc _ IH]; [done|]. cbn [byte_len length]. rewrite IH. unfold len_utf8.
  destruct (c <? 128)%N eqn:E; [lia|]. apply N.ltb_ge in E. lia.
Qed.

Lemma print_N_len n : (n <= 4294967295)%N → (byte_len (print_N n) <= 10)%N.
Proof.
  intros Hn. rewrite byte_len_ascii.
  - assert (length (print_N n) <= 10)%nat; [|lia]. apply print_digits_length; [|lia].
    change (10 ^ N.of_nat 10)%N with 10000000000%N. lia.
  - eapply list.Forall_impl; [apply print_N_digits|]. intros c. unfold is_digit. intros H.
    apply andb_true_iff in H as [_ H%N.leb_le]. lia.
Qed.

Lemma range_len r : range_ok r → (byte_len (range_to_string r) <= 21)%N.
Proof.
  intros Hr. unfold range_ok in Hr. unfold range_to_string.
  pose proof (print_N_len (ur_start r) ltac:(lia)). pose proof (print_N_len (ur_end r) ltac:(lia)).
  destruct (_ =? _)%N; [lia|]. rewrite !byte_len_app. change (byte_len (lit ":")) with 1%N. lia.
Qed.

Lemma ranges_uids_not_nil rs : Forall range_ok rs → rs ≠ [] → ranges_uids rs ≠ [].
Proof.
  intros Hok. destruct Hok as [|r rs Hr _]; [done|]. intros _. unfold range_ok in Hr.
  unfold ranges_uids. rewrite fmap_cons. simpl. intros [H _]%app_nil.
  unfold range_uids in H. apply fmap_nil_inv in H.
  destruct (N.to_nat (ur_end r + 1 - ur_start r)) eqn:E; [lia|done].
Qed.

(** What a set of [build_sequence_sets] is: the text of some ranges, with their numbers. *)
Definition is_set (us : list N * str) : Prop :=
  ∃ rs, us = (ranges_uids rs, ranges_str rs) ∧ Forall range_ok rs
        ∧ (byte_len (ranges_str rs) <= 1012)%N.

Lemma build_sets_spec rs ranges :
  Forall range_ok rs → Forall range_ok ranges → (byte_len (ranges_str rs) <= 990)%N →
  Forall is_set (build_sets (ranges_uids rs) (ranges_str rs) ranges)
  ∧ concat (fst <$> build_sets (ranges_uids rs) (ranges_str rs) ranges)
    = ranges_uids rs ++ ranges_uids ranges.
Proof.
  intros Hrs Hr. revert rs Hrs. induction Hr as [|r ranges Hr Hrest IH]; intros rs Hrs Hlen; simpl.
  { rewrite !app_nil_r. split; [|done]. constructor; [|done]. exists rs. split; [done|].
    split; [done|lia]. }
  rewrite <-ranges_str_snoc, <-ranges_uids_snoc.
  assert (Forall range_ok (rs ++ [r])) as Hrs' by (apply Forall_app; split; [done|by constructor]).
  destruct (990 <? byte_len (ranges_str (rs ++ [r])))%N eqn:E.
  - destruct (IH []) as [H1 H2]; [done|by vm_compute|]. split.
    + constructor; [|done]. exists (rs ++ [r]). split; [done|]. split; [done|].
      rewrite ranges_str_snoc, byte_len_app. pose proof (range_len r Hr).
      case_bool_decide; rewrite ?byte_len_app; [lia|]. change (byte_len (lit ",")) with 1%N. lia.
    + rewrite fmap_cons. simpl. change (build_sets [] []) with (build_sets (ranges_uids []) (ranges_str [])).
      rewrite H2, ranges_uids_snoc. simpl. by rewrite <-app_assoc.
  - apply N.ltb_ge in E. destruct (IH (rs ++ [r])) as [H1 H2]; [done|done|]. split; [done|].
    rewrite H2, ranges_uids_snoc. by rewrite <-app_assoc.
Qed.

Lemma is_set_empty us : is_set us → us.2 = [] → us.1 = [].
Proof. intros (rs & -> & _). simpl. by intros ->%ranges_str_nil. Qed.

Lemma concat_filter_sets (l : list (list N * str)) :
  Forall is_set l → concat (fst <$> filter (λ us, us.2 ≠ []) l) = concat (fst <$> l).
Proof.
  induction 1 as [|us l Hus _ IH]; [done|]. rewrite filter_cons.
  case_decide as E; rewrite !fmap_cons; cbn [concat]; rewrite IH; [done|].
  rewrite (is_set_empty us); [done|done|]. by destruct (us.2).
Qed.

Lemma build_sequence_sets_spec uids :
  Forall uid_ok uids →
  concat (fst <$> build_sequence_sets uids) = uids
  ∧ Forall (λ us, us.1 ≠ [] ∧ expand_set us.2 = Some us.1 ∧ (byte_len us.2 <= 1012)%N)
      (build_sequence_sets uids).
Proof.
  intros Hu. unfold build_sequence_sets.
  destruct (build_ranges_spec [] uids) as [H1 H2]; [done|done|].
  destruct (build_sets_spec [] (build_ranges [] uids)) as [H3 H4]; [done|done|by vm_compute|].
  change (build_sets [] []) with (build_sets (ranges_uids []) (ranges_str [])).
  rewrite concat_filter_sets by done. split; [by rewrite H4, H2|].
  apply list.Forall_forall. intros us [Hne Hin]%list_elem_of_filter.
  apply (proj1 (list.Forall_forall _ _) H3) in Hin as (rs & -> & Hok & Hlen). simpl in *.
  assert (rs ≠ []) as Hrs by (by intros ->).
  split; [|split; [by apply expand_ranges_str|done]].
  by apply ranges_uids_not_nil.
Qed.

(** C37. Messages are requested from the server in sets that name, one after another, exactly the
    message numbers that were to be requested: reading the text of a set as RFC 3501 defines it
    gives the numbers the program expects an answer for, no set is empty, and none is longer than
    1012 characters. *)
Theorem sequence_sets_denote uids :
  Forall uid_ok uids →
  concat (fst <$> build_sequence_sets uids) = uids
  ∧ Forall (λ us, us.1 ≠ [] ∧ expand_set us.2 = Some us.1 ∧ (byte_len us.2 <= 1012)%N)
      (build_sequence_sets uids).
Proof. apply build_sequence_sets_spec. Qed.

(** *** Batches *)

Definition rowids (seg : list grouped_row) : list Z := (λ r, r.1.1) <$> seg.
Definition seg_uids (seg : list grouped_row) : list N := (λ r, r.1.2) <$> seg.
Definition rows_ok (rows : list grouped_row) : Prop := Forall (λ r, uid_ok r.1.2) rows.

Lemma take_range_spec folder e rows e' ids rest :
  rows_ok rows → (e <= 4294967295)%N → take_range folder e rows = (e', ids, rest) →
  ∃ seg, rows = seg ++ rest ∧ ids = rowids seg ∧ Forall (λ r, r.2 = folder) seg
    ∧ (e <= e' <= 4294967295)%N
    ∧ (∀ u, (e < u <= e')%N → u ∈ seg_uids seg) ∧ (∀ u, u ∈ seg_uids seg → (e <= u <= e')%N).
Proof.
  intros Hok. revert e e' ids rest. induction Hok as [|[[rowid uid] f] rows Hu Hrows IH];
    intros e e' ids rest He H; simpl in H.
  { simplify_eq. exists []. split_and!; try done; [lia|]. intros u ?%elem_of_nil. done. }
  simpl in Hu. destruct (bool_decide (f = folder) && _) eqn:E.
  - apply andb_true_iff in E as [Hf E]. apply bool_decide_eq_true in Hf as ->.
    assert (uid = e + 1 ∨ uid = e)%N as Huid.
    { apply orb_true_iff in E as [E%N.eqb_eq|E%N.eqb_eq]; [left|by right].
      apply succ_u32_eq; [done|done|by symmetry]. }
    destruct (take_range folder uid rows) as [[e1 ids1] rest1] eqn:Et. simplify_eq.
    destruct (IH uid e' ids1 rest) as (seg & -> & -> & Hf & He' & Hin & Hall);
      [unfold uid_ok in Hu; lia|done|].
    exists ((rowid, uid, folder) :: seg). split_and!; try done.
    + by constructor.
    + lia.
    + lia.
    + intros u Hu'. unfold seg_uids. rewrite fmap_cons. apply elem_of_cons. simpl.
      destruct (decide (u = uid)); [by left|right]. apply Hin. lia.
    + intros u. unfold seg_uids. rewrite fmap_cons. intros [->|Hu']%elem_of_cons; simpl; [lia|].
      apply Hall in Hu'. lia.
  - simplify_eq. exists []. split_and!; try done; [lia|]. intros u ?%elem_of_nil. done.
Qed.

Lemma elem_of_range_uids u r : range_ok r → u ∈ range_uids r ↔ (ur_start r <= u <= ur_end r)%N.
Proof.
  intros Hr. unfold range_ok in Hr. unfold range_uids. rewrite list_elem_of_fmap. split.
  - intros (i & -> & Hi%elem_of_seq). lia.
  - intros Hu. exists (N.to_nat (u - ur_start r)). split; [lia|]. apply elem_of_seq. lia.
Qed.

Lemma take_batch_spec fuel folder ids rs rows ids' set' rest :
  rows_ok rows → Forall range_ok rs → (length rows <= fuel)%nat →
  (byte_len (ranges_str rs) <= 1021)%N →
  take_batch fuel folder ids (ranges_str rs) rows = (ids', set', rest) →
  ∃ seg rs', rows = seg ++ rest ∧ ids' = ids ++ rowids seg ∧ Forall (λ r, r.2 = folder) seg
    ∧ set' = ranges_str (rs ++ rs') ∧ Forall range_ok rs'
    ∧ (∀ u, u ∈ ranges_uids rs' ↔ u ∈ seg_uids seg)
    ∧ (byte_len set' <= 1021)%N ∧ (seg = [] ↔ rs' = []).
Proof.
  revert ids rs rows. induction fuel as [|fuel IH]; intros ids rs rows Hok Hrs Hfuel Hlen H;
    simpl in H.
  { simplify_eq. exists [], []. rewrite !app_nil_r. split_and!; done. }
  destruct (byte_len (ranges_str rs) <? 1000)%N eqn:E; simpl in H.
  2: { simplify_eq. exists [], []. rewrite !app_nil_r. split_and!; done. }
  destruct rows as [|[[rowid uid] f] rows].
  { simplify_eq. exists [], []. rewrite !app_nil_r. split_and!; done. }
  case_bool_decide as Hf.
  2: { simplify_eq. exists [], []. rewrite !app_nil_r. split_and!; done. }
  subst f. apply list.Forall_cons in Hok as [Hu Hok]. simpl in Hu.
  destruct (take_range folder uid rows) as [[e ids1] rest1] eqn:Et.
  destruct (take_range_spec folder uid rows e ids1 rest1 Hok) as
    (seg & -> & -> & Hff & He & Hin & Hall); [unfold uid_ok in Hu; lia|done|].
  set (r := {| ur_start := uid; ur_end := e |}) in *.
  assert (range_ok r) as Hr by (unfold range_ok, r; simpl; lia).
  rewrite <-ranges_str_snoc in H. apply list.Forall_app in Hok as [_ Hok].
  apply N.ltb_lt in E. pose proof (range_len r Hr) as Hrl.
  apply IH in H as (seg' & rs' & -> & -> & Hf' & -> & Hok' & Hu' & Hl' & Hnil); [|done| | |].
  - exists (((rowid, uid, folder) :: seg) ++ seg'), (r :: rs').
    rewrite <-(app_assoc rs), <-!app_assoc. split_and!; try done.
    + unfold rowids. rewrite fmap_app, fmap_cons. simpl. done.
    + apply list.Forall_app. split; [by constructor|done].
    + by constructor.
    + intros u. unfold ranges_uids, seg_uids in *. rewrite fmap_cons, fmap_app, fmap_cons. simpl.
      rewrite elem_of_app, elem_of_cons, elem_of_app, Hu', elem_of_range_uids by done.
      unfold r. simpl. split.
      * intros [H|H]; [|by right; right]. destruct (decide (u = uid)); [by left|right; left].
        apply Hin. lia.
      * intros [->|[H|H]]; [left; lia|left; apply Hall in H; lia|by right].
    + by rewrite (app_assoc rs).
  - apply list.Forall_app. split; [done|by constructor].
  - simpl in Hfuel. rewrite length_app in Hfuel. lia.
  - rewrite ranges_str_snoc, byte_len_app. case_bool_decide; rewrite ?byte_len_app; [lia|].
    change (byte_len (lit ",")) with 1%N. lia.
Qed.

Lemma take_range_rest folder e rows e' ids rest :
  take_range folder e rows = (e', ids, rest) → ∃ l, rows = l ++ rest.
Proof.
  revert e e' ids rest. induction rows as [|[[rowid uid] f] rows IH]; intros e e' ids rest H;
    simpl in H; [simplify_eq; by exists []|].
  destruct (bool_decide _ && _); [|simplify_eq; by exists []].
  destruct (take_range folder uid rows) as [[e1 ids1] rest1] eqn:Et. simplify_eq.
  apply IH in Et as [l ->]. by exists ((rowid, uid, f) :: l).
Qed.

Lemma take_batch_rest fuel folder ids set rows ids' set' rest :
  take_batch fuel folder ids set rows = (ids', set', rest) → ∃ l, rows = l ++ rest.
Proof.
  revert ids set rows. induction fuel as [|fuel IH]; intros ids set rows H; simpl in H;
    [simplify_eq; by exists []|].
  destruct (negb _); [simplify_eq; by exists []|].
  destruct rows as [|[[rowid uid] f] rows]; [simplify_eq; by exists []|].
  case_bool_decide; [|simplify_eq; by exists []].
  destruct (take_range folder uid rows) as [[e ids1] rest1] eqn:Et.
  apply take_range_rest in Et as [l ->]. apply IH in H as [l' ->].
  exists ((rowid, uid, f) :: l ++ l'). simpl. by rewrite <-app_assoc.
Qed.

(** What a batch is for: rows that follow each other, of one folder. *)
Definition batch_of (g : str * list Z * str) (seg : list grouped_row) : Prop :=
  seg ≠ [] ∧ g.1.2 = rowids seg ∧ Forall (λ r, r.2 = g.1.1) seg
  ∧ (byte_len g.2 <= 1021)%N
  ∧ ∃ l, expand_set g.2 = Some l ∧ ∀ u, u ∈ l ↔ u ∈ seg_uids seg.

Lemma grouper_next_spec rows folder ids set rest :
  rows_ok rows → grouper_next rows = Some (folder, ids, set, rest) →
  ∃ seg, rows = seg ++ rest ∧ batch_of (folder, ids, set) seg.
Proof.
  intros Hok H. unfold grouper_next in H. destruct rows as [|[[rowid uid] f] rows]; [done|].
  set (all := (rowid, uid, f) :: rows) in *.
  destruct (take_batch (length all) f [] [] all) as [[ids0 set0] rest0] eqn:E. simplify_eq.
  assert (rest ≠ all) as Hrest.
  { intros ->. revert E. unfold all. simpl. case_bool_decide; [|done].
    destruct (take_range folder uid rows) as [[e i] r] eqn:Et. intros E.
    apply list.Forall_cons in Hok as [Hu Hok]. simpl in Hu.
    apply take_range_spec in Et as (seg & -> & _); [|done|unfold uid_ok in Hu; lia].
    apply list.Forall_app in Hok as [_ Hok].
    apply take_batch_rest in E as [l E]. apply (f_equal length) in E.
    rewrite length_app in E. simpl in E. rewrite length_app in E. lia. }
  change (@nil N) with (ranges_str []) in E.
  apply take_batch_spec in E as (seg & rs & Hsplit & -> & Hf & -> & Hrs & Hu & Hlen & Hnil);
    [|done|done|done|by vm_compute].
  exists seg. split; [done|]. assert (seg ≠ []) as Hne by (by intros ->).
  unfold batch_of. simpl. split_and!; try done. exists (ranges_uids rs). split; [|done].
  apply expand_ranges_str. by intros Hr%Hnil.
Qed.

Lemma uid_groups_spec fuel rows :
  rows_ok rows → (length rows <= fuel)%nat →
  ∃ segs, rows = concat segs ∧ Forall2 batch_of (uid_groups fuel rows) segs.
Proof.
  revert rows. induction fuel as [|fuel IH]; intros rows Hok Hfuel; simpl.
  { exists []. destruct rows; [|simpl in *; lia]. split; [done|constructor]. }
  destruct (grouper_next rows) as [[[[folder ids] set] rest]|] eqn:E.
  - apply grouper_next_spec in E as (seg & -> & Hb); [|done].
    apply list.Forall_app in Hok as [_ Hok].
    destruct (IH rest) as (segs & -> & Hsegs); [done| |].
    { rewrite length_app in Hfuel. destruct Hb as [Hne _]. destruct seg; [done|]. simpl in *. lia. }
    exists (seg :: segs). split; [done|by constructor].
  - exists []. destruct rows as [|[[? ?] ?] ?]; [by split|]. exfalso. revert E. unfold grouper_next.
    by destruct (take_batch _ _ _ _ _) as [[? ?] ?].
Qed.

(** Rows that wait for a bulk operation on the server (moving, deleting, flagging) are grouped
    without loss: the batches of the grouper are consecutive runs of the rows, in order and together
    all of them; each belongs to one folder, carries the identifiers of its rows, and its set, read as
    RFC 3501 defines it, names exactly the message numbers of those rows in at most 1021
    characters. *)
Theorem groups_partition_rows rows :
  rows_ok rows →
  ∃ segs, rows = concat segs ∧ Forall2 batch_of (UidGrouper rows) segs.
Proof. intros Hok. by apply uid_groups_spec. Qed.

Lemma groups_partition_rows_witness :
  ∃ segs, [(1%Z, 2%N, lit "INBOX"); (2%Z, 2%N, lit "INBOX"); (4%Z, 3%N, lit "INBOX");
           (5%Z, 6%N, lit "INBOX"); (6%Z, 7%N, lit "Sent")] = concat segs
    ∧ Forall2 batch_of
        [(lit "INBOX", [1%Z; 2%Z; 4%Z; 5%Z], lit "2:3,6"); (lit "Sent", [6%Z], lit "7")] segs.
Proof.
  apply (groups_partition_rows
    [(1%Z, 2%N, lit "INBOX"); (2%Z, 2%N, lit "INBOX"); (4%Z, 3%N, lit "INBOX");
     (5%Z, 6%N, lit "INBOX"); (6%Z, 7%N, lit "Sent")]).
  repeat constructor; by vm_compute.
Defined.

Lemma sequence_sets_denote_witness :
  build_sequence_sets [1%N; 3%N; 4%N; 5%N; 9%N] = [([1%N; 3%N; 4%N; 5%N; 9%N], lit "1,3:5,9")]
  ∧ concat (fst <$> build_sequence_sets [1%N; 3%N; 4%N; 5%N; 9%N]) = [1%N; 3%N; 4%N; 5%N; 9%N].
Proof.
  split; [vm_compute; reflexivity|].
  refine (proj1 (sequence_sets_denote [1%N; 3%N; 4%N; 5%N; 9%N] _)).
  repeat constructor; by vm_compute.
Defined.
