(* ===== verification/Imap.v ===== *)
(** Imap: the IMAP side of the account: selecting folders, fetching new messages in batches,
    downloading postponed messages, and moving, deleting and flagging messages on the server
    (src/src/imap.rs, src/src/imap/select_folder.rs, src/src/imap/session.rs,
    src/src/download.rs). *)
From stdpp Require Import sorting.
From S2P Require Import Prelude Monad Ids Headers Recipients ImapUids.

(** ** Server *)

(** What a [FETCH] asks for: the constants [PREFETCH_FLAGS] and [BODY_FULL]. *)
Inductive fetch_query := PREFETCH_FLAGS | BODY_FULL.

(** [async_imap::types::Flag], the flags the code looks at. *)
Inductive Flag := FDeleted | FSeen | FDraft | FOther.

#[export] Instance Flag_eq_dec : EqDecision Flag.
Proof. solve_decision. Defined.

(** [async_imap::types::Fetch]. *)
Record Fetch := {
  f_uid : option N;
  f_size : option N;
  f_flags : list Flag;
  f_header : option (list N);
  f_body : option (list N)
}.

(** [async_imap::types::Mailbox]. *)
Record Mailbox := { mb_uid_validity : option N; mb_uid_next : option N }.

(** The stream of responses to a command: what arrives, and whether it ends with an error. *)
Record responses := { items : list Fetch; broken : bool }.

(** The results of [select]: [Error::No] is told apart from other errors. *)
Inductive select_result := Selected (m : Mailbox) | SelectNo | SelectFailed.

(** The IMAP server and the connection to it ([async_imap::Session]): every command may change
    its state.  A command that fails gives [None] or [false]. *)
Class ImapServer (Srv : Type) := {
  srv_select : str -> Srv -> select_result * Srv;
  srv_close : Srv -> bool * Srv;
  srv_status : str -> Srv -> option (option N) * Srv;
  srv_uid_fetch : str -> fetch_query -> Srv -> option responses * Srv;
  srv_uid_store : str -> str -> Srv -> bool * Srv;
  srv_uid_mv : str -> str -> Srv -> bool * Srv;
  srv_uid_copy : str -> str -> Srv -> bool * Srv
}.

(** ** State *)

(** A row of [imap_sync]. *)
Record sync_row := { sy_uidvalidity : N; sy_uid_next : N; sy_modseq : N }.

(** A row of [imap]. *)
Record ImapRow := {
  im_id : Z;
  im_transport_id : N;
  im_rfc724_mid : str;
  im_folder : str;
  im_target : str;
  im_uid : N;
  im_uidvalidity : N
}.

(** The database: the tables of the IMAP code, with the last identifier [AUTOINCREMENT] gave to
    a row of [imap], and the rest of the account. *)
Record ImapDb (Acct : Type) := {
  imap_sync : gmap (N * str) sync_row;
  imap : list ImapRow;
  imap_seq : Z;
  imap_markseen : list Z;
  available_post_msgs : list str;
  download : list (str * Z);
  rest : Acct
}.
Arguments imap_sync {_} _. Arguments imap {_} _. Arguments imap_seq {_} _.
Arguments imap_markseen {_} _. Arguments available_post_msgs {_} _. Arguments download {_} _.
Arguments rest {_} _.

(** [struct Session]; [resync_requested] is the channel for a resynchronisation, which holds at
    most one request. *)
Record Session := {
  transport_id : N;
  selected_folder : option str;
  selected_mailbox : option Mailbox;
  selected_folder_needs_expunge : bool;
  new_mail : bool;
  can_move : bool;
  is_chatmail : bool;
  resync_requested : bool
}.

(** The commands that change messages on the server, with the folder and the UIDVALIDITY that
    were selected when they were sent. *)
Inductive command :=
| CStore (folder : option str) (validity : option N) (set flag : str)
| CMove (folder : option str) (validity : option N) (set target : str)
| CCopy (folder : option str) (validity : option N) (set target : str).

Inductive ImapEvent := IncomingMsgBunch | ImapMessageDeleted (set : str) | ImapMessageMoved (set : str)
| InterruptInbox.

(** The account with its session: the channel on which downloaded messages are reported, and what
    went over the connection: the numbers asked for with the responses, and the commands.
    [ReceivedMsg] is what [receive_imf] reports. *)
Record ImapState (Srv Acct ReceivedMsg : Type) := {
  db : ImapDb Acct;
  session : Session;
  server : Srv;
  received_msgs_channel : list (N * option ReceivedMsg);
  fetched : list (list N * responses);
  commands : list command;
  imap_events : list ImapEvent
}.
Arguments db {_ _ _} _. Arguments session {_ _ _} _. Arguments server {_ _ _} _.
Arguments received_msgs_channel {_ _ _} _. Arguments fetched {_ _ _} _.
Arguments commands {_ _ _} _. Arguments imap_events {_ _ _} _.

Inductive imap_error :=
| ESelect | ENoFolder | ENoTransport | ENoMailbox | ENoUidValidity | EStatus | EClose | EFetch
| EStream | ENoSize | EStore | ECopy | EUidZero | ENotFetched | ENoLocation | EAccount.

(** ** The rest of the program *)

(** Parsing of header sections: [mailparse], and [mimeparser::get_from] on top of it. *)
Class MailParse := {
  mail_headers : Type;
  no_headers : mail_headers;
  parse_headers : list N -> option mail_headers;
  get_first_value : mail_headers -> str -> option str;
  parse_mimetype : str -> str;
  get_from : mail_headers -> option SingleInfo
}.

(** The operations on the account the IMAP code calls; [DownloadLimit], [Bot], [ForceEncryption],
    [TeamProfile] and [BccSelf] are settings. *)
Class Mailroom (Acct ReceivedMsg : Type) := {
  receive_imf_inner : str -> list N -> bool -> SE (ImapDb Acct) imap_error (option ReceivedMsg);
  add_device_msg : SE (ImapDb Acct) imap_error unit;
  mark_old_messages_as_noticed : list ReceivedMsg -> SE (ImapDb Acct) imap_error unit;
  locally_deleted : str -> SE (ImapDb Acct) imap_error (option bool);
  rfc724_mid_download_tried : str -> SE (ImapDb Acct) imap_error bool;
  msg_is_downloaded_for : str -> SE (ImapDb Acct) imap_error bool;
  set_state_to_failure : str -> SE (ImapDb Acct) imap_error unit;
  from_field_to_contact_id : SingleInfo -> SE (ImapDb Acct) imap_error (option (ContactId * bool));
  imap_is_self_addr : str -> SE (ImapDb Acct) imap_error bool;
  imap_create_id : SE (ImapDb Acct) imap_error str;
  download_limit_config : SE (ImapDb Acct) imap_error (option N);
  is_bot_config : SE (ImapDb Acct) imap_error bool;
  force_encryption_config : SE (ImapDb Acct) imap_error bool;
  team_profile_config : SE (ImapDb Acct) imap_error bool;
  bcc_self_config : SE (ImapDb Acct) imap_error bool;
  should_delete_all_downloaded_messages : bool -> bool -> bool
}.

Definition upd_imap {A : Type} (f : list ImapRow -> list ImapRow) (d : ImapDb A) : ImapDb A :=
  {| imap_sync := imap_sync d; imap := f (imap d); imap_seq := imap_seq d;
     imap_markseen := imap_markseen d; available_post_msgs := available_post_msgs d;
     download := download d; rest := rest d |}.

Definition upd_sync {A : Type} (f : gmap (N * str) sync_row -> gmap (N * str) sync_row) (d : ImapDb A)
  : ImapDb A :=
  {| imap_sync := f (imap_sync d); imap := imap d; imap_seq := imap_seq d;
     imap_markseen := imap_markseen d; available_post_msgs := available_post_msgs d;
     download := download d; rest := rest d |}.

Definition upd_markseen {A : Type} (f : list Z -> list Z) (d : ImapDb A) : ImapDb A :=
  {| imap_sync := imap_sync d; imap := imap d; imap_seq := imap_seq d;
     imap_markseen := f (imap_markseen d); available_post_msgs := available_post_msgs d;
     download := download d; rest := rest d |}.

Definition upd_post_msgs {A : Type} (f : list str -> list str) (d : ImapDb A) : ImapDb A :=
  {| imap_sync := imap_sync d; imap := imap d; imap_seq := imap_seq d;
     imap_markseen := imap_markseen d; available_post_msgs := f (available_post_msgs d);
     download := download d; rest := rest d |}.

Definition upd_download {A : Type} (f : list (str * Z) -> list (str * Z)) (d : ImapDb A) : ImapDb A :=
  {| imap_sync := imap_sync d; imap := imap d; imap_seq := imap_seq d;
     imap_markseen := imap_markseen d; available_post_msgs := available_post_msgs d;
     download := f (download d); rest := rest d |}.

(** ** Tables *)

Section Tables.
Context {A : Type}.
Local Abbreviation D := (SE (ImapDb A) imap_error).

Definition new_sync_row : sync_row := {| sy_uidvalidity := 0; sy_uid_next := 0; sy_modseq := 0 |}.

(** The row of a folder, or the defaults of a new one. *)
Definition sync_of (tid : N) (folder : str) (d : ImapDb A) : sync_row :=
  default new_sync_row (imap_sync d !! (tid, folder)).

(** [set_uid_next], [get_uid_next], [set_uidvalidity], [get_uidvalidity], [set_modseq]. *)
Definition set_uid_next (tid : N) (folder : str) (uid_next : N) : D unit :=
  modify (λ d, upd_sync (<[(tid, folder) :=
    let r := sync_of tid folder d in
    {| sy_uidvalidity := sy_uidvalidity r; sy_uid_next := uid_next; sy_modseq := sy_modseq r |}]>) d).

Definition get_uid_next (tid : N) (folder : str) : D N :=
  gets (λ d, sy_uid_next (sync_of tid folder d)).

Definition set_uidvalidity (tid : N) (folder : str) (uidvalidity : N) : D unit :=
  modify (λ d, upd_sync (<[(tid, folder) :=
    let r := sync_of tid folder d in
    {| sy_uidvalidity := uidvalidity; sy_uid_next := sy_uid_next r; sy_modseq := sy_modseq r |}]>) d).

Definition get_uidvalidity (tid : N) (folder : str) : D N :=
  gets (λ d, sy_uidvalidity (sync_of tid folder d)).

Definition set_modseq (tid : N) (folder : str) (modseq : N) : D unit :=
  modify (λ d, upd_sync (<[(tid, folder) :=
    let r := sync_of tid folder d in
    {| sy_uidvalidity := sy_uidvalidity r; sy_uid_next := sy_uid_next r; sy_modseq := modseq |}]>) d).

(** [DELETE FROM imap WHERE ..]: [imap_markseen] follows, its rows reference those of [imap]
    and are deleted with them. *)
Definition delete_imap_rows (P : ImapRow -> bool) (d : ImapDb A) : ImapDb A :=
  let gone := im_id <$> filter (λ r, P r = true) (imap d) in
  upd_markseen (filter (λ id, id ∉ gone)) (upd_imap (filter (λ r, P r = false)) d).

(** The same row of [imap]: the columns of its unique constraint. *)
Definition same_place (tid : N) (folder : str) (uid validity : N) (r : ImapRow) : bool :=
  (im_transport_id r =? tid)%N && bool_decide (im_folder r = folder) && (im_uid r =? uid)%N
  && (im_uidvalidity r =? validity)%N.

(** [INSERT INTO imap .. ON CONFLICT .. DO UPDATE]. *)
Definition upsert_imap (tid : N) (mid folder : str) (uid validity : N) (target : str)
  (d : ImapDb A) : ImapDb A :=
  if bool_decide (Exists (λ r, same_place tid folder uid validity r = true) (imap d)) then
    upd_imap (fmap (λ r,
      if same_place tid folder uid validity r then
        {| im_id := im_id r; im_transport_id := im_transport_id r; im_rfc724_mid := mid;
           im_folder := im_folder r; im_target := target; im_uid := im_uid r;
           im_uidvalidity := im_uidvalidity r |}
      else r)) d
  else
    let id := (imap_seq d + 1)%Z in
    {| imap_sync := imap_sync d;
       imap := imap d ++
         [{| im_id := id; im_transport_id := tid; im_rfc724_mid := mid; im_folder := folder;
             im_target := target; im_uid := uid; im_uidvalidity := validity |}];
       imap_seq := id; imap_markseen := imap_markseen d;
       available_post_msgs := available_post_msgs d; download := download d; rest := rest d |}.

(** [INSERT OR IGNORE] into a table with a primary key. *)
Definition insert_new {B} `{EqDecision B} (l : list B) (x : B) : list B :=
  if bool_decide (x ∈ l) then l else l ++ [x].

(** [delete_from_available_post_msgs], [delete_from_downloads]. *)
Definition delete_from_available_post_msgs (mid : str) : D unit :=
  modify (upd_post_msgs (filter (λ m, m ≠ mid))).
Definition delete_from_downloads (mid : str) : D unit :=
  modify (upd_download (filter (λ r, r.1 ≠ mid))).
End Tables.

(** ** Operations *)

Section Imap.
Context {Srv Acct ReceivedMsg : Type} `{SV : !ImapServer Srv} `{MP : !MailParse}
  `{MR : !Mailroom Acct ReceivedMsg}.
Local Abbreviation St := (ImapState Srv Acct ReceivedMsg).
Local Abbreviation I := (SE St imap_error).

Definition upd_db (f : ImapDb Acct -> ImapDb Acct) (s : St) : St :=
  {| db := f (db s); session := session s; server := server s;
     received_msgs_channel := received_msgs_channel s; fetched := fetched s;
     commands := commands s; imap_events := imap_events s |}.

Definition upd_session (f : Session -> Session) (s : St) : St :=
  {| db := db s; session := f (session s); server := server s;
     received_msgs_channel := received_msgs_channel s; fetched := fetched s;
     commands := commands s; imap_events := imap_events s |}.

Definition upd_channel (f : list (N * option ReceivedMsg) -> list (N * option ReceivedMsg))
  (s : St) : St :=
  {| db := db s; session := session s; server := server s;
     received_msgs_channel := f (received_msgs_channel s); fetched := fetched s;
     commands := commands s; imap_events := imap_events s |}.

Definition upd_fetched (f : list (list N * responses) -> list (list N * responses)) (s : St) : St :=
  {| db := db s; session := session s; server := server s;
     received_msgs_channel := received_msgs_channel s; fetched := f (fetched s);
     commands := commands s; imap_events := imap_events s |}.

Definition upd_commands (f : list command -> list command) (s : St) : St :=
  {| db := db s; session := session s; server := server s;
     received_msgs_channel := received_msgs_channel s; fetched := fetched s;
     commands := f (commands s); imap_events := imap_events s |}.

Definition emit_imap (e : ImapEvent) : I unit :=
  modify (λ s, {| db := db s; session := session s; server := server s;
    received_msgs_channel := received_msgs_channel s; fetched := fetched s;
    commands := commands s; imap_events := imap_events s ++ [e] |}).

(** A database operation. *)
Definition on_db {A : Type} (x : SE (ImapDb Acct) imap_error A) : I A :=
  λ s, let '(r, d) := x (db s) in (r, upd_db (λ _, d) s).

(** A command to the server. *)
Definition on_server {A : Type} (x : Srv -> A * Srv) : I A :=
  λ s, let '(r, v) := x (server s) in
       (Ok r, {| db := db s; session := session s; server := v;
                 received_msgs_channel := received_msgs_channel s; fetched := fetched s;
                 commands := commands s; imap_events := imap_events s |}).

(** A transaction that updates the database. *)
Definition transaction (f : ImapDb Acct -> ImapDb Acct) : I unit := on_db (modify f).

Definition set_selected (folder : option str) (expunge : bool) (mail : bool) (se : Session) : Session :=
  {| transport_id := transport_id se; selected_folder := folder;
     selected_mailbox := selected_mailbox se; selected_folder_needs_expunge := expunge;
     new_mail := mail; can_move := can_move se; is_chatmail := is_chatmail se;
     resync_requested := resync_requested se |}.

Definition set_mailbox (m : option Mailbox) (se : Session) : Session :=
  {| transport_id := transport_id se; selected_folder := selected_folder se;
     selected_mailbox := m; selected_folder_needs_expunge := selected_folder_needs_expunge se;
     new_mail := new_mail se; can_move := can_move se; is_chatmail := is_chatmail se;
     resync_requested := resync_requested se |}.

Definition set_new_mail (b : bool) (se : Session) : Session :=
  set_selected (selected_folder se) (selected_folder_needs_expunge se) b se.

Definition request_resync (se : Session) : Session :=
  {| transport_id := transport_id se; selected_folder := selected_folder se;
     selected_mailbox := selected_mailbox se;
     selected_folder_needs_expunge := selected_folder_needs_expunge se;
     new_mail := new_mail se; can_move := can_move se; is_chatmail := is_chatmail se;
     resync_requested := true |}.

(** *** Selecting a folder *)

(** [maybe_close_folder]. *)
Definition maybe_close_folder : I unit :=
  se <- gets session ;;
  match selected_folder se with
  | Some _ =>
      when (selected_folder_needs_expunge se)
        (ok <- on_server srv_close ;;
         (if ok : bool then ret tt else fail EClose) ;;;
         modify (upd_session (set_selected None false false)))
  | None => ret tt
  end.

Inductive NewlySelected := Yes | No.
Inductive select_error := NoFolder | Other (e : imap_error).

(** [select_folder]; its own error type tells a missing folder from other failures. *)
Definition select_folder (folder : str) : I (result NewlySelected select_error) :=
  se <- gets session ;;
  if bool_decide (selected_folder se = Some folder) then ret (Ok No)
  else
    λ s, match maybe_close_folder s with
    | (Err e, s) => (Ok (Err (Other e)), s)
    | (Ok _, s) =>
        (res <- on_server (srv_select folder) ;;
         match res with
         | Selected mailbox =>
             modify (upd_session (λ se, set_mailbox (Some mailbox)
               (set_selected (Some folder) (selected_folder_needs_expunge se) (new_mail se) se))) ;;;
             ret (Ok Yes)
         | SelectNo => ret (Err NoFolder)
         | SelectFailed => ret (Err (Other ESelect))
         end) s
    end.

(** The UIDNEXT of the selected mailbox: from the response to [SELECT], or asked for. *)
Definition determine_uid_next (folder : str) (mailbox : Mailbox) : I (option N) :=
  match mb_uid_next mailbox with
  | Some uid_next => ret (Some uid_next)
  | None => status <- on_server (srv_status folder) ;; ok_or status EStatus
  end.

(** The part of [select_with_uidvalidity] for an unchanged UIDVALIDITY. *)
Definition same_validity (folder : str) (newly : NewlySelected) (new_uid_next : option N)
  (old_uid_next : N) : I unit :=
  match newly with
  | No => ret tt
  | Yes =>
      se <- gets session ;;
      match new_uid_next with
      | Some new_uid_next =>
          when (new_uid_next <? old_uid_next)%N
            (on_db (set_uid_next (transport_id se) folder new_uid_next) ;;;
             modify (upd_session request_resync)) ;;;
          modify (upd_session (λ se, set_new_mail
            (new_mail se || negb (new_uid_next =? old_uid_next)%N) se))
      | None => modify (upd_session (set_new_mail true))
      end
  end.

(** The part for a new UIDVALIDITY. *)
Definition changed_validity (folder : str) (new_uid_validity : N) (new_uid_next : option N)
  (old_uid_validity old_uid_next : N) : I unit :=
  se <- gets session ;;
  let tid := transport_id se in
  on_db (set_modseq tid folder 0) ;;;
  on_db (set_uid_next tid folder (default 0%N new_uid_next)) ;;;
  on_db (set_uidvalidity tid folder new_uid_validity) ;;;
  modify (upd_session (set_new_mail true)) ;;;
  transaction (delete_imap_rows (λ r,
    (im_transport_id r =? tid)%N && bool_decide (im_folder r = folder)
    && negb (im_uidvalidity r =? new_uid_validity)%N)) ;;;
  when (negb (old_uid_validity =? 0)%N || negb (old_uid_next =? 0)%N)
    (modify (upd_session request_resync)).

(** [select_with_uidvalidity]: comparing the selected mailbox with what is known of the folder. *)
Definition check_validity (folder : str) (newly : NewlySelected) (tid : N) (mailbox : Mailbox)
  : I bool :=
  old_uid_validity <- on_db (get_uidvalidity tid folder) ;;
  old_uid_next <- on_db (get_uid_next tid folder) ;;
  new_uid_validity <- ok_or (mb_uid_validity mailbox) ENoUidValidity ;;
  new_uid_next <- determine_uid_next folder mailbox ;;
  modify (upd_session (set_mailbox (Some
    {| mb_uid_validity := mb_uid_validity mailbox; mb_uid_next := new_uid_next |}))) ;;;
  (if (new_uid_validity =? old_uid_validity)%N
   then same_validity folder newly new_uid_next old_uid_next
   else changed_validity folder new_uid_validity new_uid_next old_uid_validity old_uid_next) ;;;
  ret true.

Definition select_with_uidvalidity (folder : str) : I bool :=
  r <- select_folder folder ;;
  match r with
  | Err NoFolder => ret false
  | Err (Other e) => fail e
  | Ok newly =>
      se <- gets session ;;
      (if (0 <? transport_id se)%N then ret tt else fail ENoTransport) ;;;
      mailbox <- ok_or (selected_mailbox se) ENoMailbox ;;
      check_validity folder newly (transport_id se) mailbox
  end.

(** *** Downloading messages *)

(** The inner loop of [fetch_many_msgs]: the response for [request_uid], looked for in those that
    arrived early and then in the stream, and what is left of both. *)
Fixpoint find_response (request_uids : list N) (request_uid : N) (uid_msgs : gmap N Fetch)
  (stream : list Fetch) : option Fetch * gmap N Fetch * list Fetch :=
  match stream with
  | [] => (None, uid_msgs, [])
  | next :: stream' =>
      match f_uid next with
      | Some next_uid =>
          if (next_uid =? request_uid)%N then (Some next, uid_msgs, stream')
          else if bool_decide (next_uid ∉ request_uids)
          then find_response request_uids request_uid uid_msgs stream'
          else find_response request_uids request_uid (<[next_uid := next]> uid_msgs) stream'
      | None => find_response request_uids request_uid uid_msgs stream'
      end
  end.

Definition take_response (request_uids : list N) (request_uid : N) (uid_msgs : gmap N Fetch)
  (stream : list Fetch) : option Fetch * gmap N Fetch * list Fetch :=
  match uid_msgs !! request_uid with
  | Some fetch => (Some fetch, delete request_uid uid_msgs, stream)
  | None => find_response request_uids request_uid uid_msgs stream
  end.

Definition report (uid : N) (msg : option ReceivedMsg) : I unit :=
  modify (upd_channel (λ l, l ++ [(uid, msg)])).

(** What [fetch_many_msgs] does with the response to [request_uid]. *)
Definition handle_response (uid_message_ids : gmap N str) (request_uid : N) (fetch : Fetch) : I unit :=
  if bool_decide (FDeleted ∈ f_flags fetch) then report request_uid None
  else
    match f_body fetch with
    | None => report request_uid None
    | Some body =>
        let is_seen := bool_decide (FSeen ∈ f_flags fetch) in
        match uid_message_ids !! request_uid with
        | None => ret tt
        | Some rfc724_mid =>
            received_msg <- (λ s,
              match on_db (receive_imf_inner rfc724_mid body is_seen) s with
              | (Err _, s) => (on_db add_device_msg ;;; ret None) s
              | (Ok msg, s) => (Ok msg, s)
              end) ;;
            report request_uid received_msg
        end
    end.

(** The loop over the numbers of one set; it gives the rest of the stream. *)
Fixpoint fetch_uids (ids : gmap N str) (request_uids : list N) (broken_stream : bool)
  (uids : list N) (uid_msgs : gmap N Fetch) (stream : list Fetch) : I (list Fetch) :=
  match uids with
  | [] => ret stream
  | request_uid :: uids' =>
      let '(found, uid_msgs', stream') := take_response request_uids request_uid uid_msgs stream in
      match found with
      | None =>
          if broken_stream then fail EStream
          else fetch_uids ids request_uids broken_stream uids' uid_msgs' stream'
      | Some fetch =>
          handle_response ids request_uid fetch ;;;
          fetch_uids ids request_uids broken_stream uids' uid_msgs' stream'
      end
  end.

(** [fetch_many_msgs]. *)
Definition fetch_set (ids : gmap N str) (us : list N * str) : I unit :=
  res <- on_server (srv_uid_fetch us.2 BODY_FULL) ;;
  fetch_responses <- ok_or res EFetch ;;
  modify (upd_fetched (λ l, l ++ [(us.1, fetch_responses)])) ;;;
  _ <- fetch_uids ids us.1 (broken fetch_responses) us.1 ∅ (items fetch_responses) ;;
  if broken fetch_responses then fail EStream else ret tt.

Definition fetch_many_msgs (request_uids : list N) (ids : gmap N str) : I unit :=
  if bool_decide (request_uids = []) then ret tt
  else for_each (build_sequence_sets request_uids) (fetch_set ids).

(** *** Looking at new messages *)

(** [get_header_value]. *)
Definition get_header_value (headers : mail_headers) (h : HeaderDef) : option str :=
  get_first_value headers (lit (HeaderDef.get_headername h)).

(** [get_fetch_headers]. *)
Definition get_fetch_headers (fetch : Fetch) : option mail_headers :=
  match f_header fetch with
  | Some header_bytes => parse_headers header_bytes
  | None => Some no_headers
  end.

(** [str::split_whitespace]; [cur] is the word being read. *)
Fixpoint words (cur : str) (s : str) : list str :=
  match s with
  | [] => if bool_decide (cur = []) then [] else [cur]
  | c :: s' =>
      if is_whitespace c then
        if bool_decide (cur = []) then words [] s' else cur :: words [] s'
      else words (cur ++ [c]) s'
  end.

Definition split_whitespace (s : str) : list str := words [] s.

(** [parse_message_ids] and [parse_message_id]. *)
Definition parse_message_ids (ids : str) : list str :=
  omap (λ id,
    let id := default id (strip_prefix (lit "<") id) in
    let id := default id (strip_suffix (lit ">") id) in
    if bool_decide (id = []) then None else Some id) (split_whitespace ids).

Definition parse_message_id (ids : str) : option str := head (parse_message_ids ids).

(** [prefetch_get_message_id]. *)
Definition prefetch_get_message_id (headers : mail_headers) : option str :=
  msgid ← match get_header_value headers HeaderDef.XMicrosoftOriginalMessageId with
          | Some v => Some v
          | None => get_header_value headers HeaderDef.MessageId
          end;
  parse_message_id msgid.

(** [create_message_id]. *)
Definition create_message_id : SE (ImapDb Acct) imap_error str :=
  id <- imap_create_id ;; ret (lit "GEN_" ++ id).

(** [markseen_on_imap_table]. *)
Definition markseen_on_imap_table (message_id : str) : I unit :=
  transaction (λ d, upd_markseen (λ l, foldl insert_new l
    (im_id <$> filter (λ r, im_rfc724_mid r = message_id) (imap d))) d) ;;;
  emit_imap InterruptInbox.

(** [to_ascii_lowercase]. *)
Definition ascii_lower (s : str) : str := nocase <$> s.

(** [prefetch_should_download]. *)
Definition prefetch_should_download (headers : mail_headers) (message_id : str) (flags : list Flag)
  : I bool :=
  tried <- on_db (rfc724_mid_download_tried message_id) ;;
  if tried : bool then
    match get_from headers with
    | Some from =>
        is_self <- on_db (imap_is_self_addr (info_addr from)) ;;
        when is_self (markseen_on_imap_table message_id)
    | None => ret tt
    end ;;;
    ret false
  else
    let maybe_ndn :=
      match get_header_value headers HeaderDef.From_ with
      | Some from =>
          contains (lit "mailer-daemon") (ascii_lower from)
          || contains (lit "mail-daemon") (ascii_lower from)
      | None => false
      end in
    match get_from headers with
    | None => ret false
    | Some from =>
        contact <- on_db (from_field_to_contact_id from) ;;
        match contact with
        | None => ret false
        | Some (_, blocked_contact) =>
            let is_legacy_securejoin :=
              match get_header_value headers HeaderDef.SecureJoin with Some _ => true | None => false end in
            let is_encrypted :=
              match get_header_value headers HeaderDef.ContentType with
              | Some content_type => bool_decide (parse_mimetype content_type = lit "multipart/encrypted")
              | None => false
              end in
            if bool_decide (FDraft ∈ flags) then ret false
            else if maybe_ndn then ret true
            else if blocked_contact : bool then ret false
            else if is_legacy_securejoin || is_encrypted then ret true
            else force <- on_db force_encryption_config ;; ret (negb force)
        end
    end.

(** [Session::prefetch]: the responses in the order of their numbers, the last one of a number. *)
Definition u32_sat_add (a b : N) : N := N.min 4294967295 (a + b).

Definition uid_le (x y : N * Fetch) : Prop := (x.1 <= y.1)%N.
#[global] Instance uid_le_dec x y : Decision (uid_le x y) := N.le_dec x.1 y.1.

Definition prefetch (uid_next n_uids : N) : I (list (N * Fetch)) :=
  let uid_last := u32_sat_add uid_next (n_uids - 1) in
  list <- on_server (srv_uid_fetch (print_N uid_next ++ lit ":" ++ print_N uid_last) PREFETCH_FLAGS) ;;
  list <- ok_or list EFetch ;;
  if broken list then fail EStream
  else
    let msgs := foldl (λ m f, match f_uid f with Some uid => <[uid := f]> m | None => m end)
                  (∅ : gmap N Fetch) (items list) in
    ret (merge_sort uid_le (map_to_list msgs)).

(** *** Fetching new messages *)

(** The variables of [fetch_new_msg_batch] that its first loop fills. *)
Record batch := {
  uids_fetch : list N;
  b_post_msgs : list str;
  download_later : list str;
  b_message_ids : gmap N str;
  largest_uid_skipped : option N
}.

Definition no_batch : batch :=
  {| uids_fetch := []; b_post_msgs := []; download_later := []; b_message_ids := ∅;
     largest_uid_skipped := None |}.

Definition push_fetch (uid : N) (mid : str) (b : batch) : batch :=
  {| uids_fetch := uids_fetch b ++ [uid]; b_post_msgs := b_post_msgs b;
     download_later := download_later b; b_message_ids := <[uid := mid]> (b_message_ids b);
     largest_uid_skipped := largest_uid_skipped b |}.

Definition push_post (mid : str) (b : batch) : batch :=
  {| uids_fetch := uids_fetch b; b_post_msgs := b_post_msgs b ++ [mid];
     download_later := download_later b; b_message_ids := b_message_ids b;
     largest_uid_skipped := largest_uid_skipped b |}.

Definition push_later (mid : str) (b : batch) : batch :=
  {| uids_fetch := uids_fetch b; b_post_msgs := b_post_msgs b;
     download_later := download_later b ++ [mid]; b_message_ids := b_message_ids b;
     largest_uid_skipped := largest_uid_skipped b |}.

Definition skip_uid (uid : N) (b : batch) : batch :=
  {| uids_fetch := uids_fetch b; b_post_msgs := b_post_msgs b;
     download_later := download_later b; b_message_ids := b_message_ids b;
     largest_uid_skipped := Some uid |}.

(** [download_limit.is_none_or(|l| size <= l)]. *)
Definition within_limit (limit : option N) (size : N) : bool :=
  match limit with None => true | Some l => (size <=? l)%N end.

(** The decision about a message that should be downloaded. *)
Definition schedule (limit : option N) (headers : mail_headers) (uid size : N) (mid : str)
  (b : batch) : I batch :=
  match get_header_value headers HeaderDef.ChatIsPostMessage with
  | Some _ =>
      let b := push_post mid b in
      is_bot <- on_db is_bot_config ;;
      if is_bot && within_limit limit size then ret (push_fetch uid mid b)
      else ret (skip_uid uid (if within_limit limit size then push_later mid b else b))
  | None =>
      if within_limit limit size then ret (push_fetch uid mid b)
      else ret (skip_uid uid (push_later mid b))
  end.

(** The body of the first loop of [fetch_new_msg_batch]. *)
Definition look_at (tid : N) (folder : str) (uid_validity : N) (limit : option N)
  (msg : N * Fetch) (b : batch) : I batch :=
  let '(uid, fetch_response) := msg in
  match get_fetch_headers fetch_response with
  | None => ret b
  | Some headers =>
      let message_id := prefetch_get_message_id headers in
      size <- ok_or (f_size fetch_response) ENoSize ;;
      delete <- match message_id with
                | Some message_id =>
                    deleted <- on_db (locally_deleted message_id) ;; ret (default false deleted)
                | None => ret false
                end ;;
      message_id <- match message_id with
                    | Some message_id => ret message_id
                    | None => on_db create_message_id
                    end ;;
      let target := if delete : bool then [] else folder in
      transaction (upsert_imap tid message_id folder uid uid_validity target) ;;;
      should_download <- and_then (bool_decide (folder = target))
                           (prefetch_should_download headers message_id (f_flags fetch_response)) ;;
      if should_download : bool then schedule limit headers uid size message_id b
      else ret (skip_uid uid b)
  end.

Fixpoint look_at_all (tid : N) (folder : str) (uid_validity : N) (limit : option N)
  (msgs : list (N * Fetch)) (b : batch) : I batch :=
  match msgs with
  | [] => ret b
  | msg :: msgs' =>
      b <- look_at tid folder uid_validity limit msg b ;;
      look_at_all tid folder uid_validity limit msgs' b
  end.

(** [u32] addition and [max]. *)
Definition u32_add (a b : N) : N := ((a + b) mod 4294967296)%N.

Definition uids_to_prefetch : N := 500.

(** The number of messages read and the batch, before anything is downloaded. *)
Definition plan_batch (tid : N) (folder : str) (old_uid_next : N) : I (nat * batch) :=
  uid_validity <- on_db (get_uidvalidity tid folder) ;;
  msgs <- prefetch old_uid_next uids_to_prefetch ;;
  limit <- on_db download_limit_config ;;
  let limit := match limit with Some l => if (0 <? l)%N then Some l else None | None => None end in
  b <- look_at_all tid folder uid_validity limit msgs no_batch ;;
  ret (length msgs, b).

(** The UIDNEXT to remember after the batch, and whether there is more to fetch. *)
Definition advance (old_uid_next largest_uid_fetched mailbox_uid_next : N)
  (largest_uid_skipped : option N) (fetch_ok : bool) : N * bool :=
  let new_uid_next := u32_add largest_uid_fetched 1 in
  if fetch_ok then
    let prefetch_uid_next := u32_add old_uid_next uids_to_prefetch in
    let new_uid_next := N.max new_uid_next (N.min prefetch_uid_next mailbox_uid_next) in
    (N.max new_uid_next (u32_add (default 0%N largest_uid_skipped) 1),
     (prefetch_uid_next <? mailbox_uid_next)%N)
  else (new_uid_next, false).

(** The end of [fetch_new_msg_batch], after the UIDNEXT was stored. *)
Definition finish_batch (b : batch) (received_msgs : list ReceivedMsg)
  (fetch_res : result unit imap_error) (read_cnt : nat) (fetch_more : bool) : I (nat * bool) :=
  when (bool_decide (received_msgs ≠ [])) (emit_imap IncomingMsgBunch) ;;;
  on_db (mark_old_messages_as_noticed received_msgs) ;;;
  when (match fetch_res with Ok _ => true | Err _ => false end)
    (transaction (λ d, upd_download (λ l, foldl (λ l mid,
         if bool_decide (mid ∈ l.*1) then l else l ++ [(mid, 0%Z)]) l (download_later b))
       (upd_post_msgs (λ l, foldl insert_new l (b_post_msgs b)) d))) ;;;
  match fetch_res with
  | Ok _ => ret (read_cnt, fetch_more)
  | Err e => fail e
  end.

(** The rest of [fetch_new_msg_batch]: the messages are downloaded and the UIDNEXT advanced. *)
Definition run_batch (tid : N) (folder : str) (old_uid_next : N) (read_cnt : nat) (b : batch)
  : I (nat * bool) :=
  se <- gets session ;;
  mailbox <- ok_or (selected_mailbox se) ENoMailbox ;;
  let mailbox_uid_next := default 0%N (mb_uid_next mailbox) in
  modify (upd_channel (λ _, [])) ;;;
  fetch_res <- (λ s, let '(r, s) := fetch_many_msgs (uids_fetch b) (b_message_ids b) s in (Ok r, s)) ;;
  received <- gets received_msgs_channel ;;
  let largest_uid_fetched := foldl (λ m r, N.max m r.1) 0%N received in
  let fetch_ok := match fetch_res with Ok _ => true | Err _ => false end in
  let '(new_uid_next, fetch_more) :=
    advance old_uid_next largest_uid_fetched mailbox_uid_next (largest_uid_skipped b) fetch_ok in
  when (old_uid_next <? new_uid_next)%N (on_db (set_uid_next tid folder new_uid_next)) ;;;
  finish_batch b (omap snd received) fetch_res read_cnt fetch_more.

(** [fetch_new_msg_batch]; [tid] is the transport of the connection. *)
Definition fetch_new_msg_batch (tid : N) (folder : str) : I (nat * bool) :=
  old_uid_next <- on_db (get_uid_next tid folder) ;;
  pb <- plan_batch tid folder old_uid_next ;;
  run_batch tid folder old_uid_next pb.1 pb.2.

(** The loop of [fetch_new_messages]; [None] when [fuel] does not suffice. *)
Fixpoint fetch_batches (fuel : nat) (tid : N) (folder : str) (read_cnt : nat) : I (option bool) :=
  match fuel with
  | O => ret None
  | S fuel =>
      r <- fetch_new_msg_batch tid folder ;;
      let read_cnt := (read_cnt + r.1)%nat in
      if r.2 : bool then fetch_batches fuel tid folder read_cnt
      else ret (Some (0 <? read_cnt)%nat)
  end.

(** [fetch_new_messages]. *)
Definition fetch_new_messages (fuel : nat) (tid : N) (folder : str) : I (option bool) :=
  folder_exists <- select_with_uidvalidity folder ;;
  se <- gets session ;;
  if negb (new_mail se) then ret (Some false)
  else
    modify (upd_session (set_new_mail false)) ;;;
    if negb folder_exists then ret (Some false)
    else fetch_batches fuel tid folder 0.

(** *** Moving, deleting and flagging messages *)

(** [add_flag_finalized_with_set]. *)
Definition add_flag_finalized_with_set (uid_set flag : str) : I unit :=
  when (bool_decide (flag = lit "\Deleted"))
    (modify (upd_session (λ se, set_selected (selected_folder se) true (new_mail se) se))) ;;;
  se <- gets session ;;
  modify (upd_commands (λ l, l ++
    [CStore (selected_folder se) (selected_mailbox se ≫= mb_uid_validity) uid_set flag])) ;;;
  ok <- on_server (srv_uid_store uid_set (lit "+FLAGS (" ++ flag ++ lit ")")) ;;
  if ok : bool then ret tt else fail EStore.

Definition delete_rows_by_id (ids : list Z) (d : ImapDb Acct) : ImapDb Acct :=
  foldl (λ d id, delete_imap_rows (λ r, bool_decide (im_id r = id)) d) d ids.

(** [delete_message_batch]. *)
Definition delete_message_batch (uid_set : str) (row_ids : list Z) : I unit :=
  add_flag_finalized_with_set uid_set (lit "\Deleted") ;;;
  transaction (delete_rows_by_id row_ids) ;;;
  emit_imap (ImapMessageDeleted uid_set).

(** [UPDATE imap SET target='' WHERE id = ?]. *)
Definition plan_deletion (ids : list Z) (d : ImapDb Acct) : ImapDb Acct :=
  foldl (λ d id, upd_imap (fmap (λ r,
    if bool_decide (im_id r = id) then
      {| im_id := im_id r; im_transport_id := im_transport_id r; im_rfc724_mid := im_rfc724_mid r;
         im_folder := im_folder r; im_target := []; im_uid := im_uid r;
         im_uidvalidity := im_uidvalidity r |}
    else r)) d) d ids.

(** [move_message_batch]. *)
Definition move_message_batch (set : str) (row_ids : list Z) (target : str) : I unit :=
  se <- gets session ;;
  let validity := selected_mailbox se ≫= mb_uid_validity in
  moved <- (if can_move se then
              modify (upd_commands (λ l, l ++ [CMove (selected_folder se) validity set target])) ;;;
              on_server (srv_uid_mv set target)
            else ret false) ;;
  if moved : bool then
    transaction (delete_rows_by_id row_ids) ;;;
    emit_imap (ImapMessageMoved set)
  else
    modify (upd_commands (λ l, l ++ [CCopy (selected_folder se) validity set target])) ;;;
    ok <- on_server (srv_uid_copy set target) ;;
    (if ok : bool then ret tt else fail ECopy) ;;;
    transaction (plan_deletion row_ids) ;;;
    emit_imap (ImapMessageMoved set).

(** [ORDER BY folder, uid]: the order the grouper expects. *)
Definition row_le (x y : grouped_row) : Prop :=
  match str_cmp x.2 y.2 with Lt => True | Eq => (x.1.2 <= y.1.2)%N | Gt => False end.
#[global] Instance row_le_dec x y : Decision (row_le x y).
Proof. unfold row_le. destruct (str_cmp x.2 y.2); apply _. Defined.

(** [move_delete_messages]. *)
Definition planned_rows (tid : N) (folder : str) (d : ImapDb Acct) : list grouped_row :=
  merge_sort row_le ((λ r, (im_id r, im_uid r, im_target r)) <$>
    filter (λ r, im_folder r = folder ∧ im_transport_id r = tid ∧ im_target r ≠ im_folder r) (imap d)).

Definition move_delete_batch (folder : str) (group : str * list Z * str) : I unit :=
  let '(target, rowid_set, uid_set) := group in
  folder_exists <- select_with_uidvalidity folder ;;
  (if folder_exists : bool then ret tt else fail ENoFolder) ;;;
  if bool_decide (target = []) then delete_message_batch uid_set rowid_set
  else move_message_batch uid_set rowid_set target.

Definition move_delete_messages (folder : str) : I unit :=
  se <- gets session ;;
  rows <- gets (λ s, planned_rows (transport_id se) folder (db s)) ;;
  for_each (UidGrouper rows) (move_delete_batch folder) ;;;
  _ <- ignore_err maybe_close_folder ;;
  ret tt.

(** [store_seen_flags_on_imap]. *)
Definition seen_rows (tid : N) (d : ImapDb Acct) : list grouped_row :=
  merge_sort row_le ((λ r, (im_id r, im_uid r, im_folder r)) <$>
    filter (λ r, im_id r ∈ imap_markseen d ∧ im_transport_id r = tid ∧ im_target r = im_folder r)
      (imap d)).

Definition seen_batch (group : str * list Z * str) : I unit :=
  let '(folder, rowid_set, uid_set) := group in
  let done := transaction (λ d, upd_markseen (λ l, foldl (λ l id, filter (λ x, x ≠ id) l) l rowid_set) d) in
  folder_exists <- ignore_err (select_with_uidvalidity folder) ;;
  match folder_exists with
  | None => ret tt
  | Some false => done
  | Some true =>
      stored <- ignore_err (add_flag_finalized_with_set uid_set (lit "\Seen")) ;;
      match stored with None => ret tt | Some _ => done end
  end.

Definition store_seen_flags_on_imap : I unit :=
  team_profile <- on_db team_profile_config ;;
  if team_profile : bool then ret tt
  else
    transaction (λ d, upd_markseen (filter (λ id, id ∈ im_id <$> imap d)) d) ;;;
    se <- gets session ;;
    rows <- gets (λ s, seen_rows (transport_id se) (db s)) ;;
    for_each (UidGrouper rows) seen_batch.

(** *** Postponed messages *)

(** [Session::fetch_single_msg]. *)
Definition fetch_single_msg (folder : str) (uid : N) (rfc724_mid : str) : I unit :=
  (if (uid =? 0)%N then fail EUidZero else ret tt) ;;;
  folder_exists <- select_with_uidvalidity folder ;;
  (if folder_exists : bool then ret tt else fail ENoFolder) ;;;
  modify (upd_channel (λ _, [])) ;;;
  fetch_many_msgs [uid] {[uid := rfc724_mid]} ;;;
  received <- gets received_msgs_channel ;;
  if bool_decide (received = []) then fail ENotFetched else ret tt.

(** [ORDER BY transport_id=? DESC LIMIT 1]. *)
Definition msg_location (mid : str) (tid : N) (d : ImapDb Acct) : option ImapRow :=
  let found := filter (λ r, im_rfc724_mid r = mid ∧ im_target r ≠ []) (imap d) in
  match filter (λ r, im_transport_id r = tid) found with
  | r :: _ => Some r
  | [] => head found
  end.

(** [download_msg]: [false] when the message is at another relay. *)
Definition download_msg (rfc724_mid : str) : I bool :=
  se <- gets session ;;
  row <- gets (λ s, msg_location rfc724_mid (transport_id se) (db s)) ;;
  match row with
  | None => on_db (delete_from_available_post_msgs rfc724_mid) ;;; fail ENoLocation
  | Some r =>
      if negb (im_transport_id r =? transport_id se)%N then ret false
      else
        fetch_single_msg (im_folder r) (im_uid r) rfc724_mid ;;;
        bcc_self <- on_db bcc_self_config ;;
        when (should_delete_all_downloaded_messages bcc_self (is_chatmail se))
          (emit_imap InterruptInbox) ;;;
        ret true
  end.

(** The body of the loop of [download_msgs]. *)
Definition download_postponed (rfc724_mid : str) : I unit :=
  res <- (λ s, let '(r, s) := download_msg rfc724_mid s in (Ok r, s)) ;;
  match res with
  | Ok true =>
      on_db (delete_from_downloads rfc724_mid) ;;;
      on_db (delete_from_available_post_msgs rfc724_mid)
  | Ok false => ret tt
  | Err _ =>
      downloaded <- on_db (msg_is_downloaded_for rfc724_mid) ;;
      if negb downloaded then on_db (delete_from_downloads rfc724_mid)
      else
        available <- gets (λ s, bool_decide (rfc724_mid ∈ available_post_msgs (db s))) ;;
        if available : bool then
          on_db (set_state_to_failure rfc724_mid) ;;;
          on_db (delete_from_downloads rfc724_mid) ;;;
          on_db (delete_from_available_post_msgs rfc724_mid)
        else ret tt
  end.

(** [download_msgs]. *)
Definition download_msgs : I unit :=
  rfc724_mids <- gets (λ s, (download (db s)).*1) ;;
  for_each rfc724_mids download_postponed.

(** [download_known_post_messages_without_pre_message]. *)
Definition download_without_pre_message (rfc724_mid : str) : I unit :=
  downloaded <- on_db (msg_is_downloaded_for rfc724_mid) ;;
  if downloaded : bool then on_db (delete_from_available_post_msgs rfc724_mid)
  else
    res <- (λ s, let '(r, s) := download_msg rfc724_mid s in (Ok r, s)) ;;
    match res with
    | Ok true => on_db (delete_from_available_post_msgs rfc724_mid)
    | Ok false | Err _ => ret tt
    end.

Definition download_known_post_messages_without_pre_message : I unit :=
  rfc724_mids <- gets (λ s, available_post_msgs (db s)) ;;
  for_each rfc724_mids download_without_pre_message.
End Imap.
