(* ===== verification/ImapFetch.v ===== *)
(** ImapFetch: fetching new messages loses none and ends (about the model of Imap). *)
From stdpp Require Import sorting.
From S2P Require Import Prelude Monad Ids Headers Recipients ImapUids Imap.

Create HintDb quietly.

(** ** What the server and the rest of the program promise *)

(** Rows of [imap_sync] are kept or removed, as when the relay they belong to is removed. *)
Definition sync_shrinks {A : Type} (d d' : ImapDb A) : Prop :=
  ∀ k, imap_sync d' !! k = imap_sync d !! k ∨ imap_sync d' !! k = None.

Definition shrinks {A B : Type} (x : SE (ImapDb A) imap_error B) : Prop :=
  ∀ d, sync_shrinks d (x d).2.

(** The numbers a server gives to messages are not zero (RFC 3501, section 2.3.1.1) and at most
    [top]. *)
Class ImapServerOk (top : N) (Srv : Type) `{!ImapServer Srv} : Prop := {
  server_fetch_uids set q v rs v' f u :
    srv_uid_fetch set q v = (Some rs, v') → f ∈ items rs → f_uid f = Some u → (0 < u <= top)%N;
  server_select_next folder v m v' n :
    srv_select folder v = (Selected m, v') → mb_uid_next m = Some n → (n <= top)%N;
  server_status_next folder v v' n :
    srv_status folder v = (Some (Some n), v') → (n <= top)%N
}.

(** The rest of the program does not write [imap_sync], apart from removing rows. *)
Class MailroomOk (Acct ReceivedMsg : Type) `{!Mailroom Acct ReceivedMsg} : Prop := {
  receive_shrinks mid body seen : shrinks (receive_imf_inner (ReceivedMsg := ReceivedMsg) mid body seen);
  device_msg_shrinks : shrinks (add_device_msg (ReceivedMsg := ReceivedMsg));
  deleted_shrinks mid : shrinks (locally_deleted (ReceivedMsg := ReceivedMsg) mid);
  tried_shrinks mid : shrinks (rfc724_mid_download_tried (ReceivedMsg := ReceivedMsg) mid);
  contact_shrinks from : shrinks (from_field_to_contact_id (ReceivedMsg := ReceivedMsg) from);
  self_addr_shrinks a : shrinks (imap_is_self_addr (ReceivedMsg := ReceivedMsg) a);
  create_id_shrinks : shrinks (imap_create_id (ReceivedMsg := ReceivedMsg));
  limit_shrinks : shrinks (download_limit_config (ReceivedMsg := ReceivedMsg));
  bot_shrinks : shrinks (is_bot_config (ReceivedMsg := ReceivedMsg));
  force_shrinks : shrinks (force_encryption_config (ReceivedMsg := ReceivedMsg));
  noticed_keeps msgs d :
    imap_sync (mark_old_messages_as_noticed (ReceivedMsg := ReceivedMsg) msgs d).2 = imap_sync d
}.

Lemma sync_shrinks_refl {A : Type} (d : ImapDb A) : sync_shrinks d d.
Proof. intros k. by left. Qed.

Lemma sync_shrinks_trans {A : Type} (d d' d'' : ImapDb A) :
  sync_shrinks d d' → sync_shrinks d' d'' → sync_shrinks d d''.
Proof. intros H H' k. destruct (H k), (H' k); intuition congruence. Qed.

Lemma sync_shrinks_next {A : Type} (d d' : ImapDb A) tid folder :
  sync_shrinks d d' →
  (sy_uid_next (sync_of tid folder d') <= sy_uid_next (sync_of tid folder d))%N.
Proof. intros H. unfold sync_of. destruct (H (tid, folder)) as [->| ->]; [done|]. simpl. lia. Qed.

Ltac run_se_in H :=
  unfold when, ok_or, bind, ret, fail, gets, modify in H; cbv beta iota zeta in H.

Section Fetch.
Context {Srv Acct ReceivedMsg : Type} `{SV : !ImapServer Srv} `{MP : !MailParse}
  `{MR : !Mailroom Acct ReceivedMsg} `{MO : !MailroomOk Acct ReceivedMsg}.
Local Abbreviation St := (ImapState Srv Acct ReceivedMsg).
Local Abbreviation Db := (ImapDb Acct).
Local Abbreviation I := (SE St imap_error).

(** Message numbers have 32 bits. *)
Context (top : N) {SO : ImapServerOk top Srv} (Htop : (top < 4294967296)%N).

(** ** Operations on the database only *)

(** What a step of the download leaves alone. *)
Record quiet (s s' : St) : Prop := {
  quiet_session : session s' = session s;
  quiet_fetched : fetched s' = fetched s;
  quiet_channel : received_msgs_channel s' = received_msgs_channel s;
  quiet_sync : sync_shrinks (db s) (db s')
}.

Lemma quiet_refl s : quiet s s.
Proof. split; try done. apply sync_shrinks_refl. Qed.

Lemma quiet_trans s s' s'' : quiet s s' → quiet s' s'' → quiet s s''.
Proof.
  intros [? ? ? ?] [? ? ? ?]. split; try congruence. by eapply sync_shrinks_trans.
Qed.

Definition quietly {A} (x : I A) : Prop := ∀ s, quiet s (x s).2.

Lemma quietly_ret {A} (a : A) : quietly (ret a).
Proof. intros s. apply quiet_refl. Qed.

Lemma quietly_fail {A} e : quietly (fail e : I A).
Proof. intros s. apply quiet_refl. Qed.

Lemma quietly_bind {A B} (x : I A) (f : A -> I B) :
  quietly x → (∀ a, quietly (f a)) → quietly (bind x f).
Proof.
  intros Hx Hf s. unfold bind. specialize (Hx s). destruct (x s) as [[a|e] s']; [|done].
  eapply quiet_trans; [done|apply Hf].
Qed.

Lemma quietly_on_db {A} (x : SE (ImapDb Acct) imap_error A) : shrinks x → quietly (on_db x).
Proof. intros H s. specialize (H (db s)). unfold on_db. destruct (x (db s)) as [r d]. by split. Qed.

Lemma quietly_transaction f : (∀ d, imap_sync (f d) = imap_sync d) → quietly (transaction f).
Proof. intros H. apply quietly_on_db. intros d k. left. simpl. by rewrite H. Qed.

Lemma quietly_emit e : quietly (emit_imap e).
Proof. intros s. split; try done. apply sync_shrinks_refl. Qed.

Lemma quietly_on_server {A} (x : Srv -> A * Srv) : quietly (on_server x).
Proof.
  intros s. unfold on_server. destruct (x (server s)). split; try done. apply sync_shrinks_refl.
Qed.

Lemma quietly_ok_or {A} (o : option A) e : quietly (ok_or o e).
Proof. destruct o; [apply quietly_ret|apply quietly_fail]. Qed.

Lemma quietly_when b (x : I unit) : quietly x → quietly (when b x).
Proof. destruct b; [done|]. intros _. apply quietly_ret. Qed.

Lemma quietly_and_then b (x : I bool) : quietly x → quietly (and_then b x).
Proof. destruct b; [done|]. intros _. apply quietly_ret. Qed.

Lemma upsert_sync tid mid folder uid validity target (d : ImapDb Acct) :
  imap_sync (upsert_imap tid mid folder uid validity target d) = imap_sync d.
Proof. unfold upsert_imap. by case_bool_decide. Qed.

#[local] Hint Resolve quietly_ret quietly_fail quietly_on_db quietly_emit quietly_on_server
  quietly_ok_or receive_shrinks device_msg_shrinks deleted_shrinks tried_shrinks contact_shrinks
  self_addr_shrinks create_id_shrinks limit_shrinks bot_shrinks force_shrinks : quietly.

Ltac quietly_tac :=
  repeat match goal with
  | |- quietly (bind _ _) => apply quietly_bind; [|intros ?]
  | |- quietly (when _ _) => apply quietly_when
  | |- quietly (and_then _ _) => apply quietly_and_then
  | |- quietly (match ?x with _ => _ end) => destruct x
  | |- quietly (let '_ := ?x in _) => destruct x
  | |- quietly _ => solve [eauto with quietly]
  end.

Lemma create_message_id_shrinks : shrinks (create_message_id (Acct := Acct) (ReceivedMsg := ReceivedMsg)).
Proof.
  intros d. unfold create_message_id, bind. pose proof (create_id_shrinks d) as H.
  by destruct (imap_create_id d) as [[id|e] d'].
Qed.
#[local] Hint Resolve create_message_id_shrinks : quietly.

Lemma markseen_quietly mid : quietly (markseen_on_imap_table mid).
Proof. unfold markseen_on_imap_table. quietly_tac. by apply quietly_transaction. Qed.
#[local] Hint Resolve markseen_quietly : quietly.

Lemma should_download_quietly headers mid flags : quietly (prefetch_should_download headers mid flags).
Proof. unfold prefetch_should_download. quietly_tac. Qed.

Lemma look_at_quietly tid folder validity limit msg b : quietly (look_at tid folder validity limit msg b).
Proof.
  unfold look_at, schedule. destruct msg as [uid f]. quietly_tac.
  - apply quietly_transaction. intros d. apply upsert_sync.
  - apply should_download_quietly.
Qed.

Lemma look_at_all_quietly tid folder validity limit msgs b :
  quietly (look_at_all tid folder validity limit msgs b).
Proof.
  revert b. induction msgs as [|msg msgs IH]; intros b; simpl; quietly_tac; apply look_at_quietly.
Qed.

Lemma prefetch_quietly n k : quietly (prefetch n k).
Proof. unfold prefetch. quietly_tac. Qed.

(** ** The responses to one set *)

(** A response for [u] is at hand: it arrived early or is still in the stream. *)
Definition at_hand (m : gmap N Fetch) (stream : list Fetch) (u : N) : Prop :=
  is_Some (m !! u) ∨ ∃ g, g ∈ stream ∧ f_uid g = Some u.

Lemma find_response_spec req u m stream found m' stream' :
  find_response req u m stream = (found, m', stream') →
  (found = None → ∀ g, g ∈ stream → f_uid g ≠ Some u)
  ∧ (∀ w, w ≠ u → w ∈ req → at_hand m stream w → at_hand m' stream' w).
Proof.
  revert m. induction stream as [|next stream IH]; intros m H; simpl in H.
  { simplify_eq. split; [|done]. intros _ g Hg. by apply elem_of_nil in Hg. }
  assert (∀ w, f_uid next ≠ Some w → at_hand m (next :: stream) w → at_hand m stream w) as Hdrop.
  { intros w Hw [Hm|(g & [->|Hg]%elem_of_cons & Huid)]; [by left|done|right; eauto]. }
  destruct (f_uid next) as [n|] eqn:En.
  2: { apply IH in H as [H1 H2]. split.
       - intros Hf g [->|Hg]%elem_of_cons; [by rewrite En|by apply H1].
       - intros w Hw Hr Ha. apply H2; [done|done|]. by apply Hdrop. }
  destruct (n =? u)%N eqn:E.
  { apply N.eqb_eq in E as ->. simplify_eq. split; [done|]. intros w Hw _ Ha. apply Hdrop; [congruence|done]. }
  apply N.eqb_neq in E. case_bool_decide as Hreq.
  - apply IH in H as [H1 H2]. split.
    + intros Hf g [->|Hg]%elem_of_cons; [rewrite En; congruence|by apply H1].
    + intros w Hw Hr Ha. apply H2; [done|done|]. apply Hdrop; [congruence|done].
  - apply IH in H as [H1 H2]. split.
    + intros Hf g [->|Hg]%elem_of_cons; [rewrite En; congruence|by apply H1].
    + intros w Hw Hr Ha. apply H2; [done|done|]. destruct (decide (w = n)) as [->|Hn].
      * left. rewrite lookup_insert_eq. eauto.
      * destruct (Hdrop w) as [Hm|Hs]; [congruence|done| |by right].
        left. by rewrite lookup_insert_ne by done.
Qed.

Lemma take_response_spec req u m stream found m' stream' :
  take_response req u m stream = (found, m', stream') →
  (found = None → ¬ at_hand m stream u)
  ∧ (∀ w, w ≠ u → w ∈ req → at_hand m stream w → at_hand m' stream' w).
Proof.
  unfold take_response. destruct (m !! u) as [f|] eqn:E; intros H.
  - simplify_eq. split; [done|]. intros w Hw _ [Hm|Hs]; [left|by right].
    by rewrite lookup_delete_ne by done.
  - apply find_response_spec in H as [H1 H2]. split; [|done].
    intros Hf [[x Hm]|(g & Hg & Hu)]; [congruence|]. by apply (H1 Hf g).
Qed.

(** *** What becomes of a response *)

(** The message of a response is handed over, with the outcome that is reported: it is dropped if it is
    flagged as deleted or has no body, and given to [receive_imf] otherwise; if that fails the user is
    told. *)
Inductive handed (ids : gmap N str) (u : N) (f : Fetch) (d : Db) : Db -> option ReceivedMsg -> Prop :=
| handed_deleted : FDeleted ∈ f_flags f → handed ids u f d d None
| handed_empty : f_body f = None → handed ids u f d d None
| handed_received body mid msg d' :
    FDeleted ∉ f_flags f → f_body f = Some body → ids !! u = Some mid →
    receive_imf_inner mid body (bool_decide (FSeen ∈ f_flags f)) d = (Ok msg, d') → handed ids u f d d' msg
| handed_refused body mid e d' d'' :
    FDeleted ∉ f_flags f → f_body f = Some body → ids !! u = Some mid →
    receive_imf_inner (ReceivedMsg := ReceivedMsg) mid body (bool_decide (FSeen ∈ f_flags f)) d = (Err e, d') →
    add_device_msg (ReceivedMsg := ReceivedMsg) d' = (Ok tt, d'') → handed ids u f d d'' None.

(** A step of a download: a response is handed over, or the download stops as the user cannot be told. *)
Inductive db_step (ids : gmap N str) (d : Db) : Db -> Prop :=
| step_handed u f msg d' : handed ids u f d d' msg → db_step ids d d'
| step_stopped mid body seen e e' d' d'' :
    receive_imf_inner (ReceivedMsg := ReceivedMsg) mid body seen d = (Err e, d') →
    add_device_msg (ReceivedMsg := ReceivedMsg) d' = (Err e', d'') → db_step ids d d''.

(** Between [d0] and [dm] a response for [u] among [all] was handed over, and the outcome reported. *)
Definition handed_over (ids : gmap N str) (all : list Fetch) (d0 dm : Db)
  (channel : list (N * option ReceivedMsg)) (u : N) : Prop :=
  ∃ f d d' msg, f ∈ all ∧ f_uid f = Some u ∧ handed ids u f d d' msg ∧ (u, msg) ∈ channel
    ∧ rtc (db_step ids) d0 d ∧ rtc (db_step ids) d' dm.

(** Responses at hand are responses of the server. *)
Definition all_from (all : list Fetch) (m : gmap N Fetch) (stream : list Fetch) : Prop :=
  (∀ w f, m !! w = Some f → f ∈ all ∧ f_uid f = Some w) ∧ stream ⊆ all.

Lemma find_response_from all req u m stream found m' stream' :
  all_from all m stream → find_response req u m stream = (found, m', stream') →
  all_from all m' stream' ∧ ∀ f, found = Some f → f ∈ all ∧ f_uid f = Some u.
Proof.
  revert m. induction stream as [|next stream IH]; intros m [Hm Hs] H; simpl in H; [by simplify_eq|].
  assert (next ∈ all ∧ stream ⊆ all) as [Hn Hs'] by (split; [apply Hs; by left|intros x Hx; apply Hs; by right]).
  destruct (f_uid next) as [n|] eqn:En; [|by apply IH in H].
  destruct (n =? u)%N eqn:E; [apply N.eqb_eq in E as ->; injection H as <- <- <-; split; [done|by intros ? [= <-]]|].
  case_bool_decide; apply IH in H; try done. split; [|done]. intros w f.
  destruct (decide (n = w)) as [->|Hw]; [rewrite lookup_insert_eq; by intros [= <-]|rewrite lookup_insert_ne by done; apply Hm].
Qed.

Lemma take_response_from all req u m stream found m' stream' :
  all_from all m stream → take_response req u m stream = (found, m', stream') →
  all_from all m' stream' ∧ ∀ f, found = Some f → f ∈ all ∧ f_uid f = Some u.
Proof.
  unfold take_response. destruct (m !! u) as [f|] eqn:E; [|apply find_response_from].
  intros [Hm Hs] [= <- <- <-]. split; [|intros ? [= <-]; by apply Hm]. split; [|done].
  intros w g. rewrite lookup_delete_Some. intros [_ ?]. by apply Hm.
Qed.

(** A number is missing in the answer to a request for it. *)
Definition missed (all : list Fetch) (u : N) : Prop := ∀ f, f ∈ all → f_uid f ≠ Some u.

Record progress (ids : gmap N str) (s s' : St) (finished : list N) : Prop := {
  progress_session : session s' = session s;
  progress_db : rtc (db_step ids) (db s) (db s');
  progress_sync : sync_shrinks (db s) (db s');
  progress_channel : ∃ new, received_msgs_channel s' = received_msgs_channel s ++ new
                            ∧ new.*1 ⊆ finished
}.

Lemma progress_refl ids s : progress ids s s [].
Proof. split; [done|done|apply sync_shrinks_refl|]. exists []. by rewrite app_nil_r. Qed.

Lemma progress_trans ids s s' s'' l l' :
  progress ids s s' l → progress ids s' s'' l' → progress ids s s'' (l ++ l').
Proof.
  intros [H1 H1' H2 (n & H3 & Hn)] [H4 H4' H5 (n' & H6 & Hn')]. split; [congruence|by etrans| |].
  - by eapply sync_shrinks_trans.
  - exists (n ++ n'). split; [by rewrite H6, H3, <-app_assoc|]. rewrite fmap_app. set_solver.
Qed.

Lemma progress_missed ids s u : progress ids s s [u].
Proof.
  split; [done|done|apply sync_shrinks_refl|]. exists []. split; [by rewrite app_nil_r|apply list_subseteq_nil].
Qed.

Lemma progress_channel_later ids s s' l r :
  progress ids s s' l → r ∈ received_msgs_channel s → r ∈ received_msgs_channel s'.
Proof. intros [_ _ _ (n & -> & _)] H. set_solver. Qed.

(** What was handed over stays so when more is. *)
Lemma handed_over_later ids all d0 s s' l u :
  progress ids s s' l → handed_over ids all d0 (db s) (received_msgs_channel s) u →
  handed_over ids all d0 (db s') (received_msgs_channel s') u.
Proof.
  intros Hp (f & d & d' & msg & H1 & H2 & H3 & H4 & H5 & H6). exists f, d, d', msg. split_and!; try done.
  - by eapply progress_channel_later.
  - etrans; [done|apply Hp].
Qed.

Lemma handed_over_earlier ids all s s' l dm ch u :
  progress ids s s' l → handed_over ids all (db s') dm ch u → handed_over ids all (db s) dm ch u.
Proof.
  intros Hp (f & d & d' & msg & H1 & H2 & H3 & H4 & H5 & H6). exists f, d, d', msg. split_and!; try done.
  etrans; [apply Hp|done].
Qed.

(** A response that was handed over, once its outcome is reported. *)
Lemma reported ids all u f (s s1 : St) msg :
  f ∈ all → f_uid f = Some u → quiet s s1 → handed ids u f (db s) (db s1) msg →
  let s' := upd_channel (λ l, l ++ [(u, msg)]) s1 in
  fetched s' = fetched s ∧ progress ids s s' [u] ∧ handed_over ids all (db s) (db s') (received_msgs_channel s') u.
Proof.
  intros Hf Hu [Q1 Q2 Q3 Q4] Hh s'. split; [done|]. split.
  - split; [done|eapply rtc_once, step_handed, Hh|done|]. exists [(u, msg)]. simpl. by rewrite Q3.
  - exists f, (db s), (db s1), msg. split_and!; try done. simpl. set_solver.
Qed.

Lemma on_db_run {A} (x : SE Db imap_error A) (s : St) r s' :
  on_db x s = (r, s') → x (db s) = (r, db s').
Proof. unfold on_db. destruct (x (db s)) as [r' d]. by intros [= <- <-]. Qed.

Lemma handle_response_spec ids all u f s r s' :
  f ∈ all → f_uid f = Some u → is_Some (ids !! u) → handle_response ids u f s = (r, s') →
  fetched s' = fetched s ∧
  match r with
  | Ok _ => progress ids s s' [u] ∧ handed_over ids all (db s) (db s') (received_msgs_channel s') u
  | Err _ => progress ids s s' []
  end.
Proof.
  intros Hf Hu [mid Hid] H. unfold handle_response in H. rewrite Hid in H.
  case_bool_decide as Hdel; [injection H as <- <-; apply (reported ids all u f); [done|done|apply quiet_refl|by apply handed_deleted]|].
  destruct (f_body f) as [body|] eqn:Eb;
    [|injection H as <- <-; apply (reported ids all u f); [done|done|apply quiet_refl|by apply handed_empty]].
  unfold bind at 1 in H.
  pose proof (quietly_on_db _ (receive_shrinks mid body (bool_decide (FSeen ∈ f_flags f))) s) as Hq.
  destruct (on_db (receive_imf_inner _ _ _) s) as [[m|e] s1] eqn:Er; simpl in Hq; apply on_db_run in Er.
  - injection H as <- <-. apply (reported ids all u f); try done. by eapply handed_received.
  - unfold bind in H. pose proof (quietly_on_db _ device_msg_shrinks s1) as Hq'.
    destruct (on_db add_device_msg s1) as [[[]|e'] s2] eqn:Ed; simpl in Hq'; apply on_db_run in Ed;
      pose proof (quiet_trans _ _ _ Hq Hq') as Hqq.
    + injection H as <- <-. apply (reported ids all u f); try done. by eapply handed_refused.
    + simplify_eq. split; [apply Hqq|]. destruct Hqq as [Q1 Q2 Q3 Q4].
      split; [done|by eapply rtc_once, step_stopped|done|]. exists []. by rewrite Q3, app_nil_r.
Qed.

Lemma fetch_uids_spec ids req brk all uids m stream s r s' :
  NoDup uids → uids ⊆ req → (∀ u, u ∈ uids → is_Some (ids !! u)) → all_from all m stream →
  (∀ u, u ∈ uids → at_hand m stream u ∨ missed all u) →
  fetch_uids ids req brk uids m stream s = (r, s') →
  ∃ finished todo, uids = finished ++ todo ∧ fetched s' = fetched s ∧ progress ids s s' finished
    ∧ (∀ u, u ∈ finished → handed_over ids all (db s) (db s') (received_msgs_channel s') u ∨ missed all u)
    ∧ (∀ x, r = Ok x → todo = []).
Proof.
  intros Hnd Hsub Hids Hfrom Hall. revert m stream s Hfrom Hall.
  induction uids as [|u uids IH]; intros m stream s Hfrom Hall H; simpl in H.
  { unfold ret in H. simplify_eq. exists [], []. split_and!; try done; [apply progress_refl|].
    intros u Hu. by apply elem_of_nil in Hu. }
  apply list.NoDup_cons in Hnd as [Hu Hnd].
  destruct (take_response req u m stream) as [[found m'] stream'] eqn:Et.
  destruct (take_response_from all _ _ _ _ _ _ _ Hfrom Et) as [Hfrom' Hfound].
  apply take_response_spec in Et as [Hnone Hkeep].
  assert (∀ w, w ∈ uids → at_hand m' stream' w ∨ missed all w) as Hall'.
  { intros w Hw. destruct (Hall w) as [Ha|Hm]; [by right| |by right]. left.
    apply Hkeep; [by intros ->|apply Hsub; by right|done]. }
  specialize (IH Hnd ltac:(set_solver) ltac:(set_solver) m' stream').
  destruct found as [f|].
  - destruct (Hfound f eq_refl) as [Hfa Hfu].
    unfold bind in H. destruct (handle_response ids u f s) as [r1 s1] eqn:Eh.
    apply (handle_response_spec _ all) in Eh as [Hf Hr]; [|done|done|apply Hids; by left].
    destruct r1 as [[]|e].
    + destruct Hr as [Hp Hin]. apply IH in H as (fin & todo & -> & Hf' & Hp' & Hacc & Hok); [|done|done].
      exists (u :: fin), todo. split_and!; [done|congruence|by apply (progress_trans _ _ s1 _ [u])| |done].
      intros w [->|Hw]%elem_of_cons; [left; by eapply handed_over_later|].
      destruct (Hacc w Hw); [left; by eapply handed_over_earlier|by right].
    + simplify_eq. exists [], (u :: uids). split_and!; try done.
      intros w Hw. by apply elem_of_nil in Hw.
  - destruct brk.
    + unfold fail in H. simplify_eq. exists [], (u :: uids). split_and!; try done; [apply progress_refl|].
      intros w Hw. by apply elem_of_nil in Hw.
    + apply IH in H as (fin & todo & -> & Hf' & Hp' & Hacc & Hok); [|done|done].
      exists (u :: fin), todo. split_and!; [done|done| | |done].
      * apply (progress_trans _ _ s _ [u]); [|done]. apply progress_missed.
      * intros w [->|Hw]%elem_of_cons; [right|by apply Hacc].
        destruct (Hall u) as [Ha|Hm]; [by left|by apply Hnone in Ha|done].
Qed.

(** A number is accounted for when the database has gone from [d0] to that of [s]: a request that names it
    was answered with a response that was handed over, or without one. *)
Definition accounted (ids : gmap N str) (d0 : Db) (s : St) (u : N) : Prop :=
  ∃ us rs, (us, rs) ∈ fetched s ∧ u ∈ us
    ∧ (handed_over ids (items rs) d0 (db s) (received_msgs_channel s) u ∨ missed (items rs) u).

(** What [fetch_many_msgs] did when it has come through [finished]. *)
Record downloaded (ids : gmap N str) (s s' : St) (finished : list N) : Prop := {
  downloaded_progress : progress ids s s' finished;
  downloaded_fetched : fetched s ⊆ fetched s';
  downloaded_accounted : ∀ u, u ∈ finished → accounted ids (db s) s' u
}.

Lemma accounted_later ids d0 s s' l u : downloaded ids s s' l → accounted ids d0 s u → accounted ids d0 s' u.
Proof.
  intros [Hp Hf _] (us & rs & H & Hu & Ha). exists us, rs. split; [by apply Hf|]. split; [done|].
  destruct Ha; [left; by eapply handed_over_later|by right].
Qed.

Lemma accounted_earlier ids s s' l s'' u : progress ids s s' l → accounted ids (db s') s'' u → accounted ids (db s) s'' u.
Proof.
  intros Hp (us & rs & H & Hu & Ha). exists us, rs. split; [done|]. split; [done|].
  destruct Ha; [left; by eapply handed_over_earlier|by right].
Qed.

Lemma fetch_set_spec ids us s r s' :
  NoDup us.1 → (∀ u, u ∈ us.1 → is_Some (ids !! u)) → fetch_set ids us s = (r, s') →
  ∃ finished todo, us.1 = finished ++ todo ∧ downloaded ids s s' finished
    ∧ (∀ x, r = Ok x → todo = []).
Proof.
  intros Hnd Hids H. unfold fetch_set, on_server in H. run_se_in H.
  destruct (srv_uid_fetch us.2 BODY_FULL (server s)) as [o v].
  destruct o as [rs|]; run_se_in H.
  2: { simplify_eq. exists [], us.1. split_and!; try done. split; [|done|].
       - split; [done|done|apply sync_shrinks_refl|]. exists []. by rewrite app_nil_r.
       - intros u Hu. by apply elem_of_nil in Hu. }
  match type of H with context [fetch_uids _ _ _ _ _ _ ?s1] => set (s0 := s1) in H end.
  destruct (fetch_uids ids us.1 (broken rs) us.1 ∅ (items rs) s0) as [r1 s1] eqn:Ef.
  apply (fetch_uids_spec _ _ _ (items rs)) in Ef
    as (fin & todo & Hsplit & Hfet & Hp & Hacc & Hok); [|done|done|done|done|].
  2: { intros u _. destruct (decide (Exists (λ f, f_uid f = Some u) (items rs))) as [He|He].
       - left. right. by apply list.Exists_exists in He.
       - right. intros f Hf Hu. apply He, list.Exists_exists. eauto. }
  assert (downloaded ids s s1 fin) as Hd.
  { split.
    - destruct Hp as [H1 H2 H3 H4]. by split.
    - rewrite Hfet. intros x Hx. apply elem_of_app. by left.
    - intros u Hu. exists us.1, rs. split; [|split; [|by apply Hacc]]; [rewrite Hfet|rewrite Hsplit];
        apply elem_of_app; [right|by left]. by apply list_elem_of_singleton. }
  exists fin, todo. split; [done|]. destruct r1 as [l|e]; [|by simplify_eq].
  rewrite (Hok l) in * by done. by destruct (broken rs); simplify_eq.
Qed.

Lemma fetch_sets_spec ids sets s r s' :
  NoDup (concat (fst <$> sets)) → (∀ u, u ∈ concat (fst <$> sets) → is_Some (ids !! u)) →
  for_each sets (fetch_set ids) s = (r, s') →
  ∃ finished todo, concat (fst <$> sets) = finished ++ todo ∧ downloaded ids s s' finished
    ∧ (∀ x, r = Ok x → todo = []).
Proof.
  revert s. induction sets as [|us sets IH]; intros s Hnd Hids H; simpl in H.
  { unfold ret in H. simplify_eq. exists [], []. split_and!; try done. split; [apply progress_refl|done|].
    intros u Hu. by apply elem_of_nil in Hu. }
  rewrite fmap_cons in *. simpl in *. apply list.NoDup_app in Hnd as (Hnd1 & _ & Hnd2).
  unfold bind in H. destruct (fetch_set ids us s) as [r1 s1] eqn:E.
  apply fetch_set_spec in E as (fin & todo & Hs & Hd & Hok); [|done|set_solver].
  destruct r1 as [x|e].
  - rewrite (Hok x) in * by done. apply IH in H as (fin' & todo' & -> & Hd' & Hok'); [|done|set_solver].
    rewrite app_nil_r in Hs. rewrite Hs in *. exists (fin ++ fin'), todo'.
    split; [by rewrite app_assoc|]. split; [|done]. split.
    + eapply progress_trans; [apply Hd|apply Hd'].
    + etrans; [apply Hd|apply Hd'].
    + intros u [Hu|Hu]%elem_of_app; [|eapply accounted_earlier; [apply Hd|by apply Hd']].
      eapply accounted_later; [done|]. by apply Hd.
  - simplify_eq. exists fin, (todo ++ concat (fst <$> sets)).
    split; [by rewrite Hs, <-app_assoc|]. by split.
Qed.

Lemma fetch_many_spec ids uids s r s' :
  NoDup uids → Forall uid_ok uids → (∀ u, u ∈ uids → is_Some (ids !! u)) →
  fetch_many_msgs uids ids s = (r, s') →
  ∃ finished todo, uids = finished ++ todo ∧ downloaded ids s s' finished
    ∧ (∀ x, r = Ok x → todo = []).
Proof.
  intros Hnd Hok Hids H. unfold fetch_many_msgs in H. case_bool_decide as Hn.
  - unfold ret in H. simplify_eq. exists [], []. split_and!; try done. split; [apply progress_refl|done|].
    intros u Hu. by apply elem_of_nil in Hu.
  - destruct (build_sequence_sets_spec uids Hok) as [Hc _]. rewrite <-Hc.
    apply fetch_sets_spec in H; rewrite ?Hc; [by rewrite Hc in H|done|done].
Qed.

(** ** Planning a batch *)

Definition ids_known (b : batch) : Prop := ∀ u, u ∈ uids_fetch b → is_Some (b_message_ids b !! u).

(** The batch [b'] has grown from [b] by [l]. *)
Definition grows (b b' : batch) (l : list N) : Prop :=
  uids_fetch b' = uids_fetch b ++ l ∧ (ids_known b → ids_known b').

Lemma grows_refl b : grows b b [].
Proof. split; [by rewrite app_nil_r|done]. Qed.

Lemma grows_trans b b' b'' l l' : grows b b' l → grows b' b'' l' → grows b b'' (l ++ l').
Proof. intros [H1 H2] [H3 H4]. split; [by rewrite H3, H1, app_assoc|auto]. Qed.

Lemma grows_fetch b uid mid : grows b (push_fetch uid mid b) [uid].
Proof.
  split; [done|]. intros Hb u. simpl. intros [Hu|Hu%list_elem_of_singleton]%elem_of_app.
  - apply Hb in Hu. by apply lookup_insert_is_Some'; right.
  - subst. rewrite lookup_insert_eq. eauto.
Qed.

Lemma grows_post b mid : grows b (push_post mid b) [].
Proof. split; [simpl; by rewrite app_nil_r|done]. Qed.
Lemma grows_later b mid : grows b (push_later mid b) [].
Proof. split; [simpl; by rewrite app_nil_r|done]. Qed.
Lemma grows_skip b uid : grows b (skip_uid uid b) [].
Proof. split; [simpl; by rewrite app_nil_r|done]. Qed.

(** The results of an operation satisfy [Q]. *)
Definition returns {A} (x : I A) (Q : A -> Prop) : Prop :=
  ∀ s a s', x s = (Ok a, s') → Q a.

Lemma returns_ret {A} (a : A) (Q : A -> Prop) : Q a → returns (ret a) Q.
Proof. intros H s a' s' [= -> _]. done. Qed.

Lemma returns_bind {A B} (x : I A) (f : A -> I B) (Q : B -> Prop) :
  (∀ a, returns (f a) Q) → returns (bind x f) Q.
Proof. intros H s b s'. unfold bind. destruct (x s) as [[a|e] s1]; [apply H|done]. Qed.

Lemma schedule_grows limit headers uid size mid b :
  returns (schedule limit headers uid size mid b) (λ b', grows b b' [] ∨ grows b b' [uid]).
Proof.
  unfold schedule. destruct (get_header_value headers _).
  - apply returns_bind. intros is_bot. destruct (is_bot && _); apply returns_ret.
    + right. apply (grows_trans _ _ _ [] [uid] (grows_post b mid)), grows_fetch.
    + left. apply (grows_trans _ _ _ [] [] (grows_post b mid)). destruct (within_limit _ _).
      * apply (grows_trans _ _ _ [] [] (grows_later _ mid)), grows_skip.
      * apply grows_skip.
  - destruct (within_limit _ _); apply returns_ret; [right; apply grows_fetch|left].
    apply (grows_trans _ _ _ [] [] (grows_later _ mid)), grows_skip.
Qed.

Lemma look_at_grows tid folder validity limit msg b :
  returns (look_at tid folder validity limit msg b) (λ b', grows b b' [] ∨ grows b b' [msg.1]).
Proof.
  unfold look_at. destruct msg as [uid f]. simpl. destruct (get_fetch_headers f) as [headers|].
  2: { apply returns_ret. left. apply grows_refl. }
  do 5 (apply returns_bind; intros ?). destruct (_ : bool).
  - apply schedule_grows.
  - apply returns_ret. left. apply grows_skip.
Qed.

Lemma look_at_all_grows tid folder validity limit msgs b :
  returns (look_at_all tid folder validity limit msgs b)
    (λ b', ∃ l, l `sublist_of` msgs.*1 ∧ grows b b' l).
Proof.
  revert b. induction msgs as [|msg msgs IH]; intros b; simpl.
  { apply returns_ret. exists []. split; [done|apply grows_refl]. }
  intros s b'' s'. unfold bind.
  destruct (look_at tid folder validity limit msg b s) as [[b'|e] s1] eqn:E; [|done]. intros H.
  apply IH in H as (l & Hl & Hg). apply look_at_grows in E as [E|E].
  - exists l. split; [by apply sublist_cons|]. by apply (grows_trans _ _ _ [] _ E).
  - exists (msg.1 :: l). split; [by apply sublist_skip|]. by apply (grows_trans _ _ _ [msg.1] _ E).
Qed.

(** The skipped number, if any, is one of the responses. *)
Lemma look_at_skips tid folder validity limit msg b :
  returns (look_at tid folder validity limit msg b)
    (λ b', largest_uid_skipped b' = largest_uid_skipped b ∨ largest_uid_skipped b' = Some msg.1).
Proof.
  unfold look_at. destruct msg as [uid f]. simpl. destruct (get_fetch_headers f) as [headers|].
  2: { apply returns_ret. by left. }
  do 5 (apply returns_bind; intros ?). destruct (_ : bool); [|apply returns_ret; by right].
  unfold schedule. destruct (get_header_value headers _).
  - apply returns_bind. intros is_bot. destruct (is_bot && _); apply returns_ret; [by left|by right].
  - destruct (within_limit _ _); apply returns_ret; [by left|by right].
Qed.

Lemma look_at_all_skips tid folder validity limit msgs b M :
  Forall (λ u, (u <= M)%N) msgs.*1 → (default 0 (largest_uid_skipped b) <= M)%N →
  returns (look_at_all tid folder validity limit msgs b)
    (λ b', (default 0 (largest_uid_skipped b') <= M)%N).
Proof.
  revert b. induction msgs as [|msg msgs IH]; intros b Hm Hb; simpl; [by apply returns_ret|].
  rewrite fmap_cons in Hm. apply list.Forall_cons in Hm as [Hmsg Hm].
  intros s b'' s'. unfold bind.
  destruct (look_at tid folder validity limit msg b s) as [[b'|e] s1] eqn:E; [|done].
  apply IH; [done|]. apply look_at_skips in E as [->| ->]; done.
Qed.

(** The numbers of the messages of a list of responses are ascending and in range. *)
Definition good_uids (l : list N) : Prop :=
  StronglySorted N.lt l ∧ Forall (λ u, 0 < u <= top)%N l.

Lemma Forall_sublist (P : N -> Prop) l l' : l `sublist_of` l' → Forall P l' → Forall P l.
Proof.
  intros Hl Hf. apply list.Forall_forall. intros x Hx. apply (proj1 (list.Forall_forall _ _) Hf).
  by apply (elem_of_sublist l).
Qed.

Lemma good_uids_sublist l l' : l `sublist_of` l' → good_uids l' → good_uids l.
Proof.
  intros Hl [Hs Hf]. split.
  - induction Hl as [|x l l' Hl IH|x l l' Hl IH]; [done| |].
    + apply StronglySorted_inv in Hs as [Hs Hx]. apply list.Forall_cons in Hf as [_ Hf].
      constructor; [by apply IH|]. by apply (Forall_sublist _ _ _ Hl).
    + apply StronglySorted_inv in Hs as [Hs _]. apply list.Forall_cons in Hf as [_ Hf]. by apply IH.
  - by apply (Forall_sublist _ _ _ Hl).
Qed.

Lemma sorted_strict (l : list (N * Fetch)) :
  StronglySorted uid_le l → NoDup l.*1 → StronglySorted N.lt l.*1.
Proof.
  induction 1 as [|x l Hs IH Hx]; [constructor|]. rewrite fmap_cons. intros [Hn Hnd]%list.NoDup_cons.
  constructor; [by apply IH|]. apply list.Forall_forall. intros u Hu.
  assert (u ≠ x.1) by (by intros ->). apply list_elem_of_fmap in Hu as (y & -> & Hy).
  apply (proj1 (list.Forall_forall _ _) Hx) in Hy. unfold uid_le in Hy. lia.
Qed.

Lemma collect_uids (l : list Fetch) (m : gmap N Fetch) u f :
  foldl (λ m f, match f_uid f with Some uid => <[uid := f]> m | None => m end) m l !! u = Some f →
  m !! u = Some f ∨ ∃ g, g ∈ l ∧ f_uid g = Some u.
Proof.
  revert m. induction l as [|g l IH]; intros m H; simpl in H; [by left|].
  apply IH in H as [H|(h & Hh & Hu)]; [|right; exists h; split; [by right|done]].
  destruct (f_uid g) as [w|] eqn:Eg; [|by left]. destruct (decide (w = u)) as [->|Hw].
  - right. exists g. split; [by left|done].
  - rewrite lookup_insert_ne in H by done. by left.
Qed.

#[local] Instance uid_le_trans : Transitive uid_le.
Proof. intros x y z. unfold uid_le. lia. Qed.
#[local] Instance uid_le_total : Total uid_le.
Proof. intros x y. unfold uid_le. lia. Qed.

Lemma prefetch_good n k : returns (prefetch n k) (λ msgs, good_uids msgs.*1).
Proof.
  intros s msgs s' H. unfold prefetch, on_server in H. run_se_in H.
  destruct (srv_uid_fetch _ PREFETCH_FLAGS (server s)) as [[rs|] v] eqn:E; run_se_in H; [|done].
  destruct (broken rs); [done|]. simplify_eq. set (m := foldl _ _ _).
  pose proof (merge_sort_Permutation uid_le (map_to_list m)) as Hp.
  split.
  - apply sorted_strict.
    + apply (StronglySorted_merge_sort uid_le).
    + rewrite Hp. apply NoDup_fst_map_to_list.
  - rewrite Hp. apply list.Forall_forall. intros u ([w f] & -> & Hx)%list_elem_of_fmap. simpl.
    apply elem_of_map_to_list in Hx. apply collect_uids in Hx as [Hx|(g & Hg & Hu)].
    + by rewrite lookup_empty in Hx.
    + by apply (server_fetch_uids (top := top) _ _ _ _ _ _ _ E Hg).
Qed.

Lemma plan_quiet tid folder old s r s' : plan_batch tid folder old s = (r, s') → quiet s s'.
Proof.
  intros H. replace s' with (plan_batch tid folder old s).2 by (by rewrite H). clear H r s'.
  revert s. change (quietly (plan_batch tid folder old)). unfold plan_batch. quietly_tac.
  - apply quietly_on_db. intros d. apply sync_shrinks_refl.
  - apply prefetch_quietly.
  - apply look_at_all_quietly.
Qed.

Lemma plan_good tid folder old :
  returns (plan_batch tid folder old) (λ nb, good_uids (uids_fetch nb.2) ∧ ids_known nb.2
    ∧ (default 0 (largest_uid_skipped nb.2) <= top)%N).
Proof.
  intros s nb s' H. unfold plan_batch in H. unfold bind at 1 in H.
  destruct (on_db (get_uidvalidity tid folder) s) as [[v|e] s1]; [|done].
  unfold bind at 1 in H. destruct (prefetch old uids_to_prefetch s1) as [[msgs|e] s2] eqn:Ep; [|done].
  apply prefetch_good in Ep. unfold bind at 1 in H.
  destruct (on_db download_limit_config s2) as [[limit|e] s3]; [|done]. unfold bind in H.
  destruct (look_at_all _ _ _ _ _ _ _) as [[b|e] s4] eqn:El; [|done]. unfold ret in H. simplify_eq.
  pose proof El as El'. apply look_at_all_grows in El as (l & Hl & Hu & Hk). simpl in *.
  rewrite Hu. split_and!.
  - by apply (good_uids_sublist _ _ Hl).
  - apply Hk. intros u Hu'. by apply elem_of_nil in Hu'.
  - apply (look_at_all_skips _ _ _ _ _ _ top) in El'; [done| |apply N.le_0_l].
    eapply list.Forall_impl; [apply Ep|]. intros u Hu'. apply Hu'.
Qed.

(** ** Running a batch *)

Lemma good_nodup l : good_uids l → NoDup l.
Proof.
  intros [Hs _]. induction Hs as [|u l Hs IH Hu]; [constructor|]. apply list.NoDup_cons. split; [|done].
  intros Hin. apply (proj1 (list.Forall_forall _ _) Hu) in Hin. lia.
Qed.

Lemma largest_bounds (l : list (N * option ReceivedMsg)) m :
  (m <= foldl (λ m r, N.max m r.1) m l)%N
  ∧ (∀ u, u ∈ l.*1 → (u <= foldl (λ m r, N.max m r.1) m l)%N)
  ∧ (foldl (λ m r, N.max m r.1) m l = m ∨ foldl (λ m r, N.max m r.1) m l ∈ l.*1).
Proof.
  revert m. induction l as [|r l IH]; intros m; simpl.
  { split; [done|]. split; [|by left]. intros u Hu. by apply elem_of_nil in Hu. }
  destruct (IH (N.max m r.1)) as (H1 & H2 & H3). split; [lia|]. split.
  - intros u [->|Hu]%elem_of_cons; [lia|]. by apply H2.
  - destruct H3 as [H3|H3]; [|right; by right]. rewrite H3.
    destruct (N.max_spec m r.1) as [[_ ->]|[_ ->]]; [right; by left|by left].
Qed.

Definition uid_next_of (tid : N) (folder : str) (s : St) : N :=
  sy_uid_next (sync_of tid folder (db s)).

Lemma set_uid_next_of tid folder n (s : St) :
  uid_next_of tid folder (on_db (set_uid_next tid folder n) s).2 = n.
Proof. unfold uid_next_of, sync_of. simpl. by rewrite lookup_insert_eq. Qed.

(** What a batch leaves behind: its downloads went through [finished], all of them if they
    succeeded, and the new UIDNEXT was stored if it is larger. *)
Record batch_done (tid : N) (folder : str) (old : N) (b : batch) (mailbox : Mailbox) (s s' : St)
  (fetch_ok : bool) (more : bool) : Prop := {
  done_session : session s' = session s;
  done_split : ∃ finished todo largest, uids_fetch b = finished ++ todo
    ∧ (fetch_ok = true → todo = [])
    ∧ (∃ res sm, fetch_many_msgs (uids_fetch b) (b_message_ids b) (upd_channel (λ _, []) s) = (res, sm)
         ∧ fetched s' = fetched sm ∧ received_msgs_channel s' = received_msgs_channel sm
         ∧ ∀ u, u ∈ finished → accounted (b_message_ids b) (db s) sm u)
    ∧ (largest = 0%N ∨ largest ∈ finished)
    ∧ let '(new, more') := advance old largest (default 0%N (mb_uid_next mailbox))
                             (largest_uid_skipped b) fetch_ok in
      more = more'
      ∧ if (old <? new)%N then uid_next_of tid folder s' = new
        else (uid_next_of tid folder s' <= uid_next_of tid folder s)%N
}.

Lemma finish_batch_settles b msgs res cnt more (s : St) r (s' : St) :
  finish_batch b msgs res cnt more s = (r, s') →
  session s' = session s ∧ fetched s' = fetched s
  ∧ received_msgs_channel s' = received_msgs_channel s ∧ imap_sync (db s') = imap_sync (db s)
  ∧ ∀ n more', r = Ok (n, more') → (∃ x, res = Ok x) ∧ more' = more.
Proof.
  intros H. unfold finish_batch in H. unfold bind at 1 in H.
  set (s1 := (when (bool_decide (msgs ≠ [])) (emit_imap IncomingMsgBunch) s).2).
  assert (when (bool_decide (msgs ≠ [])) (emit_imap IncomingMsgBunch) s = (Ok tt, s1)) as E
    by (unfold s1; by case_bool_decide). rewrite E in H.
  assert (session s1 = session s ∧ fetched s1 = fetched s
    ∧ received_msgs_channel s1 = received_msgs_channel s ∧ db s1 = db s) as (<- & <- & <- & <-)
    by (unfold s1; by case_bool_decide).
  unfold bind at 1 in H. pose proof (noticed_keeps msgs (db s1)) as Hn. unfold on_db at 1 in H.
  destruct (mark_old_messages_as_noticed msgs (db s1)) as [[[]|e] d]; simpl in Hn.
  2: { simplify_eq. by split_and!. }
  destruct res as [[]|e]; run_se_in H; unfold transaction, on_db, modify in H; simpl in H;
    simplify_eq; split_and!; try done; simpl; try congruence.
  intros n more' [= _ ->]. eauto.
Qed.

Lemma run_batch_spec tid folder old cnt b (s : St) r (s' : St) :
  good_uids (uids_fetch b) → ids_known b →
  run_batch tid folder old cnt b s = (r, s') →
  (selected_mailbox (session s) = None ∧ s' = s) ∨
  ∃ mailbox ok more, selected_mailbox (session s) = Some mailbox
    ∧ batch_done tid folder old b mailbox s s' ok more
    ∧ (∀ n more', r = Ok (n, more') → ok = true ∧ more' = more).
Proof.
  intros Hgood Hids H. unfold run_batch in H. unfold bind at 1, gets at 1 in H.
  destruct (selected_mailbox (session s)) as [mailbox|] eqn:Em; run_se_in H;
    [|simplify_eq; by left]. right.
  set (s1 := upd_channel (λ _, []) s) in H.
  destruct (fetch_many_msgs (uids_fetch b) (b_message_ids b) s1) as [res s2] eqn:Ef. pose proof Ef as Erun.
  apply fetch_many_spec in Ef as (fin & todo & Hsplit & [Hp Hfet Hacc] & Hok); [|by apply good_nodup| |done].
  2: { eapply list.Forall_impl; [apply Hgood|]. intros u [? Hu]. unfold uid_ok. lia. }
  destruct Hp as [Hse _ Hsy (new & Hch & Hnew)]. simpl in Hch.
  set (largest := foldl _ _ _) in H.
  set (ok := match res with Ok _ => true | Err _ => false end) in H.
  destruct (advance old largest (default 0%N (mb_uid_next mailbox)) (largest_uid_skipped b) ok)
    as [new_uid_next more] eqn:Ea.
  set (s3 := if (old <? new_uid_next)%N then (on_db (set_uid_next tid folder new_uid_next) s2).2 else s2).
  assert (finish_batch b (omap snd (received_msgs_channel s2)) res cnt more s3 = (r, s')) as Hfin
    by (unfold s3; by destruct (old <? new_uid_next)%N).
  clear H. apply finish_batch_settles in Hfin as (H1 & H2 & H3 & H4 & H5).
  assert (session s3 = session s2 ∧ fetched s3 = fetched s2
    ∧ received_msgs_channel s3 = received_msgs_channel s2) as (H6 & H7 & H8)
    by (unfold s3; by destruct (old <? new_uid_next)%N).
  exists mailbox, ok, more. split; [done|]. split.
  - split; [by rewrite H1, H6|]. exists fin, todo, largest. split_and!.
    + done.
    + unfold ok. destruct res as [x|e]; [|done]. intros _. by apply (Hok x).
    + exists res, s2. by rewrite H2, H7, H3, H8.
    + destruct (largest_bounds (received_msgs_channel s2) 0%N) as (_ & _ & [Hl|Hl]); [by left|right].
      rewrite Hch in Hl. apply Hnew. unfold largest. by rewrite Hch.
    + rewrite Ea. split; [done|]. unfold uid_next_of, sync_of in *. rewrite H4. unfold s3.
      destruct (old <? new_uid_next)%N.
      * apply set_uid_next_of.
      * by apply (sync_shrinks_next (db s)).
  - intros n more' Hr. apply H5 in Hr as [[x ->] ->]. done.
Qed.

(** A message whose number was not reached keeps its place: everything finished is below it. *)
Lemma finished_below fin todo u w :
  good_uids (fin ++ todo) → u ∈ todo → w ∈ fin → (w < u)%N.
Proof.
  intros [Hs _] Hu. induction fin as [|x fin IH]; [by intros ?%elem_of_nil|].
  apply StronglySorted_inv in Hs as [Hs Hx]. intros [->|Hw]%elem_of_cons; [|by apply IH].
  apply (proj1 (list.Forall_forall _ _) Hx). apply elem_of_app. by right.
Qed.

Lemma advance_fail old largest mailbox skipped new more :
  advance old largest mailbox skipped false = (new, more) → (new <= largest + 1)%N.
Proof.
  unfold advance, u32_add. intros [= <- _]. apply N.Div0.mod_le.
Qed.

(** C15. Fetching never skips a message: once a batch has been planned, and however its download
    ends, for every message it was to download whose number lies between the old and the new UIDNEXT a
    request named the number, and it was answered by the server without the message, or with the message
    and then the message was handed over while downloading. That is: it was given to [receive_imf] with its
    own body, identifier and flag, on the database the messages before it had left, and what that returned
    was reported (nothing if it failed, and then the user was told); or nothing was done with it, as the
    response has the deletion flag or no body. A message the download did not get to stays at or above
    UIDNEXT, so that it is fetched again. *)
Theorem fetching_skips_no_message tid folder (s s1 s2 : St) cnt b r :
  plan_batch tid folder (uid_next_of tid folder s) s = (Ok (cnt, b), s1) →
  run_batch tid folder (uid_next_of tid folder s) cnt b s1 = (r, s2) →
  let sm := (fetch_many_msgs (uids_fetch b) (b_message_ids b) (upd_channel (λ _, []) s1)).2 in
  ∀ u, u ∈ uids_fetch b → (uid_next_of tid folder s <= u < uid_next_of tid folder s2)%N →
    accounted (b_message_ids b) (db s1) sm u ∧ received_msgs_channel s2 = received_msgs_channel sm.
Proof.
  intros Hplan Hrun sm u Hu [Hold Hnew].
  destruct (plan_good _ _ _ _ _ _ Hplan) as (Hgood & Hids & _). simpl in *.
  assert (uid_next_of tid folder s1 <= uid_next_of tid folder s)%N as Hs1.
  { apply sync_shrinks_next. by apply (quiet_sync s s1), (plan_quiet _ _ _ _ _ _ Hplan). }
  destruct (run_batch_spec _ _ _ _ _ _ _ _ Hgood Hids Hrun)
    as [[_ ->]|(mailbox & ok & more & _
         & [_ (fin & todo & largest & Hsplit & Htodo & (res & sm' & Hf & _ & Hc & Hacc) & Hl & Hadv)] & _)]; [lia|].
  assert (sm' = sm) as -> by (unfold sm; by rewrite Hf).
  destruct (decide (u ∈ fin)) as [Hfin|Hfin]; [split; [by apply Hacc|done]|]. exfalso.
  assert (u ∈ todo) as Ht by (rewrite Hsplit in Hu; by apply elem_of_app in Hu as [?|?]).
  destruct ok; [rewrite Htodo in Ht by done; by apply elem_of_nil in Ht|].
  destruct (advance _ _ _ _ false) as [new more'] eqn:Ea. apply advance_fail in Ea.
  destruct Hadv as [_ Hadv]. destruct (_ <? new)%N eqn:E; [|lia].
  assert (0 < u)%N by (apply (proj1 (list.Forall_forall _ _) (proj2 Hgood)) in Hu; lia).
  destruct Hl as [->|Hl]; [lia|]. rewrite Hsplit in Hgood.
  pose proof (finished_below _ _ _ _ Hgood Ht Hl). lia.
Qed.

(** ** The loop ends *)

Lemma u32_add_small a b : (a + b < 4294967296)%N → u32_add a b = (a + b)%N.
Proof. intros H. unfold u32_add. by apply N.mod_small. Qed.

(** The state the loop works in: the mailbox is selected, and its UIDNEXT and the stored one are in
    range. *)
Definition fetching (tid : N) (folder : str) (mailbox_next : N) (s : St) : Prop :=
  (∀ m, selected_mailbox (session s) = Some m → default 0%N (mb_uid_next m) = mailbox_next)
  ∧ (uid_next_of tid folder s <= top + 1)%N.

Lemma get_uid_next_run tid folder (s : St) :
  on_db (get_uid_next tid folder) s = (Ok (uid_next_of tid folder s), s).
Proof. by destruct s. Qed.

(** After a batch that asks for more, the stored UIDNEXT has advanced by the size of a batch. *)
Lemma batch_advances tid folder next (s s' : St) cnt :
  (top + 501 < 4294967296)%N → (next <= top)%N → fetching tid folder next s →
  fetch_new_msg_batch tid folder s = (Ok (cnt, true), s') →
  fetching tid folder next s'
  ∧ (uid_next_of tid folder s + 500 < next)%N
  ∧ (uid_next_of tid folder s + 500 <= uid_next_of tid folder s')%N.
Proof.
  intros Hsmall Hnext [Hm Hold] H. unfold fetch_new_msg_batch in H. unfold bind at 1 in H.
  rewrite get_uid_next_run in H. unfold bind in H. set (old := uid_next_of tid folder s) in *.
  destruct (plan_batch tid folder old s) as [[[n b]|e] s1] eqn:Ep; [|done].
  destruct (plan_good _ _ _ _ _ _ Ep) as (Hgood & Hids & Hskip). simpl in Hgood, Hids, Hskip, H.
  pose proof (quiet_session _ _ (plan_quiet _ _ _ _ _ _ Ep)) as Hse.
  destruct (run_batch_spec _ _ _ _ _ _ _ _ Hgood Hids H)
    as [[Hno ->]|(mailbox & ok & more & Hmb & [Hse' (fin & todo & largest & Hsplit & Htodo & Hacc & Hl & Hadv)] & Hr)].
  { exfalso. unfold run_batch in H. run_se_in H. rewrite Hno in H. done. }
  destruct (Hr cnt true eq_refl) as [-> <-]. unfold advance in Hadv.
  assert (default 0%N (mb_uid_next mailbox) = next) as Hmn by (apply Hm; congruence).
  rewrite Hmn in Hadv. assert (largest <= top)%N as Hlm.
  { destruct Hl as [->|Hl]; [lia|].
    apply (proj1 (list.Forall_forall _ _) (proj2 Hgood)). rewrite Hsplit. apply elem_of_app. by left. }
  unfold uids_to_prefetch in *. rewrite !u32_add_small in Hadv by lia.
  destruct Hadv as [Hmore Hadv]. symmetry in Hmore. apply N.ltb_lt in Hmore.
  destruct (old <? _)%N eqn:E in Hadv; [|apply N.ltb_ge in E; lia].
  split_and!; [|lia|lia]. split; [|lia]. rewrite Hse', Hse. done.
Qed.

Lemma fetch_batches_end fuel tid folder next (s : St) cnt :
  (top + 501 < 4294967296)%N → (next <= top)%N → fetching tid folder next s →
  ((next - uid_next_of tid folder s) / 500 < N.of_nat fuel)%N →
  (fetch_batches fuel tid folder cnt s).1 ≠ Ok None.
Proof.
  intros Hsmall Hnext. revert s cnt. induction fuel as [|fuel IH]; intros s cnt Hf Hfuel;
    [by apply N.nlt_0_r in Hfuel|]. simpl.
  unfold bind. destruct (fetch_new_msg_batch tid folder s) as [[[n more]|e] s1] eqn:E; [|done].
  simpl. destruct more; [|done]. apply (batch_advances _ _ next) in E as (Hf' & Hlt & Hadv); [|done..].
  apply IH; [done|].
  assert ((next - uid_next_of tid folder s1) / 500 + 1 <= (next - uid_next_of tid folder s) / 500)%N; [|lia].
  rewrite <-N.div_add by done. apply N.Div0.div_le_mono. lia.
Qed.

(** Every UIDNEXT in sight is in range. *)
Record ranged (s : St) : Prop := {
  ranged_mailbox m n : selected_mailbox (session s) = Some m → mb_uid_next m = Some n → (n <= top)%N;
  ranged_sync tid folder : (uid_next_of tid folder s <= top + 1)%N
}.

Lemma ranged_session s f :
  (∀ m n, selected_mailbox (f (session s)) = Some m → mb_uid_next m = Some n → (n <= top)%N) →
  ranged s → ranged (upd_session f s).
Proof. intros Hf [_ Hs]. split; [apply Hf|apply Hs]. Qed.

Lemma ranged_server s v :
  ranged s →
  ranged {| db := db s; session := session s; server := v;
            received_msgs_channel := received_msgs_channel s; fetched := fetched s;
            commands := commands s; imap_events := imap_events s |}.
Proof. intros [H1 H2]. by split. Qed.

Lemma ranged_row tid folder (g : sync_row -> sync_row) :
  (∀ r, sy_uid_next r <= top + 1 → sy_uid_next (g r) <= top + 1)%N →
  preserves ranged (on_db (Srv := Srv) (ReceivedMsg := ReceivedMsg)
    (modify (λ d, upd_sync (<[(tid, folder) := g (sync_of tid folder d)]>) d))).
Proof.
  intros Hg s [H1 H2]. split; [done|]. intros tid' folder'. unfold uid_next_of, sync_of in *. simpl.
  destruct (decide ((tid, folder) = (tid', folder'))) as [[= <- <-]|Hne].
  - rewrite lookup_insert_eq. simpl. apply Hg, H2.
  - rewrite lookup_insert_ne by done. apply H2.
Qed.

Lemma ranged_close s : ranged s → ranged (maybe_close_folder s).2.
Proof.
  intros H. unfold maybe_close_folder. run_se.
  destruct (selected_folder (session s)); [|done].
  destruct (selected_folder_needs_expunge (session s)); [|done].
  unfold on_server. destruct (srv_close (server s)) as [[] v]; simpl; [|by apply ranged_server].
  apply ranged_session; [|by apply ranged_server]. apply H.
Qed.

Lemma ranged_select_folder folder s : ranged s → ranged (select_folder folder s).2.
Proof.
  intros H. unfold select_folder. run_se. case_bool_decide; [done|].
  pose proof (ranged_close s H) as Hc. destruct (maybe_close_folder s) as [[[]|e] s1]; [|done].
  simpl in Hc. unfold on_server. destruct (srv_select folder (server s1)) as [[m| |] v] eqn:E;
    [|by apply ranged_server|by apply ranged_server].
  apply ranged_session; [|by apply ranged_server]. simpl. intros m' n [= <-] Hn.
  by apply (server_select_next (top := top) _ _ _ _ _ E).
Qed.

Lemma ranged_determine folder m s r s' :
  ranged s → (∀ n, mb_uid_next m = Some n → (n <= top)%N) →
  determine_uid_next folder m s = (r, s') →
  ranged s' ∧ ∀ n, r = Ok (Some n) → (n <= top)%N.
Proof.
  intros H Hm. unfold determine_uid_next. destruct (mb_uid_next m) as [n|].
  - intros [= <- <-]. split; [done|]. intros n' [= <-]. by apply Hm.
  - unfold on_server. run_se. destruct (srv_status folder (server s)) as [[o|] v] eqn:E;
      intros [= <- <-]; (split; [by apply ranged_server|]); intros n [= ->].
    by apply (server_status_next (top := top) _ _ _ _ E).
Qed.

Lemma ranged_transaction f :
  (∀ d, imap_sync (f d) = imap_sync d) → preserves ranged (transaction f).
Proof.
  intros Hf s [H1 H2]. split; [done|]. intros tid folder. unfold uid_next_of, sync_of. simpl.
  rewrite Hf. apply H2.
Qed.

Lemma ranged_set_next tid folder n :
  (n <= top + 1)%N → preserves ranged (on_db (set_uid_next tid folder n)).
Proof.
  intros Hn. apply (ranged_row tid folder (λ r, {| sy_uidvalidity := sy_uidvalidity r;
    sy_uid_next := n; sy_modseq := sy_modseq r |})). done.
Qed.

(** The operations of the session that keep the mailbox. *)
Lemma ranged_modify f :
  (∀ se, selected_mailbox (f se) = selected_mailbox se) →
  preserves (Er := imap_error) ranged (modify (upd_session f)).
Proof. intros Hf s H. apply ranged_session; [rewrite Hf; apply H|done]. Qed.

Lemma ranged_same folder newly next old :
  (∀ n, next = Some n → (n <= top)%N) → preserves ranged (same_validity folder newly next old).
Proof.
  intros Hn. unfold same_validity. preserves_tac; try by apply ranged_modify.
  apply ranged_set_next. specialize (Hn _ eq_refl). lia.
Qed.

Lemma ranged_changed folder v next ov on :
  (∀ n, next = Some n → (n <= top)%N) → preserves ranged (changed_validity folder v next ov on).
Proof.
  intros Hn. unfold changed_validity. preserves_tac; try by apply ranged_modify.
  - apply (ranged_row _ folder (λ r, {| sy_uidvalidity := sy_uidvalidity r;
      sy_uid_next := sy_uid_next r; sy_modseq := 0 |})). done.
  - apply ranged_set_next. destruct next as [n|]; simpl; [specialize (Hn n eq_refl)|]; lia.
  - apply (ranged_row _ folder (λ r, {| sy_uidvalidity := v; sy_uid_next := sy_uid_next r;
      sy_modseq := sy_modseq r |})). done.
  - by apply ranged_transaction.
Qed.

Lemma ranged_get {A} (g : ImapDb Acct -> A) : preserves ranged (on_db (gets g)).
Proof. intros s [H1 H2]. by split. Qed.

Lemma ranged_check folder newly tid m :
  (∀ n, mb_uid_next m = Some n → (n <= top)%N) →
  preserves ranged (check_validity folder newly tid m).
Proof.
  intros Hm. unfold check_validity. do 3 (apply preserves_bind;
    [first [apply ranged_get|apply preserves_ok_or]|intros ?]).
  intros s H. unfold bind at 1. destruct (determine_uid_next folder m s) as [r s1] eqn:E.
  apply ranged_determine in E as [H1 Hr]; [|done|done]. destruct r as [next|e]; [|done].
  assert (∀ n, next = Some n → (n <= top)%N) as Hnext by (intros n ->; by apply Hr).
  unfold bind at 1, modify. apply preserves_bind.
  - destruct (_ =? _)%N; [by apply ranged_same|by apply ranged_changed].
  - intros _. apply preserves_ret.
  - apply ranged_session; [|done]. simpl. intros m' n [= <-]. apply Hnext.
Qed.

Lemma ranged_select folder s : ranged s → ranged (select_with_uidvalidity folder s).2.
Proof.
  intros H. unfold select_with_uidvalidity. unfold bind at 1.
  pose proof (ranged_select_folder folder s H) as H1.
  destruct (select_folder folder s) as [[[newly|[|e]]|e] s1]; simpl in H1; [|done|done|done].
  unfold bind at 1, gets at 1. unfold bind at 1. destruct (0 <? _)%N; [|done].
  unfold ret at 1, bind at 1. destruct (selected_mailbox (session s1)) as [m|] eqn:Em; [|done].
  simpl. apply ranged_check; [|done]. intros n. by apply (ranged_mailbox _ H1).
Qed.

(** C28. Fetching new messages ends, whatever receiving the messages does: as long as the numbers the
    server gives to messages, and the stored UIDNEXT values, are not within 501 of the end of the 32-bit
    range, a run of the loop needs at most one batch for every 500 numbers, so that a bound of one batch
    more is never reached. Nearer to the end UIDNEXT plus 500 wraps around, and fetching need not end. *)
Theorem fetching_ends fuel tid folder (s : St) :
  (top + 501 < 4294967296)%N → ranged s → (top / 500 < N.of_nat fuel)%N →
  (fetch_new_messages fuel tid folder s).1 ≠ Ok None.
Proof.
  intros Hsmall H Hfuel. unfold fetch_new_messages. unfold bind at 1.
  pose proof (ranged_select folder s H) as H1.
  destruct (select_with_uidvalidity folder s) as [[exists_|e] s1]; simpl in H1; [|done].
  unfold bind at 1, gets at 1. destruct (new_mail (session s1)); [|done]. simpl.
  unfold bind at 1, modify at 1. destruct exists_; [|done]. simpl.
  set (s2 := upd_session (set_new_mail false) s1).
  assert (ranged s2) as H2 by (apply (ranged_modify (set_new_mail false)); done).
  set (next := default 0%N (selected_mailbox (session s2) ≫= mb_uid_next)).
  assert (next <= top)%N as Hnext.
  { unfold next. destruct (selected_mailbox (session s2)) as [m|] eqn:Em; [|simpl; lia].
    simpl. destruct (mb_uid_next m) as [n|] eqn:En; [|simpl; lia].
    by apply (ranged_mailbox _ H2 m). }
  apply (fetch_batches_end fuel tid folder next); [done|done| |].
  - split; [|apply (ranged_sync _ H2)]. intros m Em. unfold next. by rewrite Em.
  - apply (N.le_lt_trans _ (top / 500)); [apply N.Div0.div_le_mono; lia|done].
Qed.
End Fetch.

(** ** A connection that breaks *)

(** Three messages: a large one that is postponed, and two small ones.  The connection to the
    server in state [true] breaks after the second. *)
Definition small_fetch (uid size header : N) : Fetch :=
  {| f_uid := Some uid; f_size := Some size; f_flags := []; f_header := Some [header]; f_body := None |}.
Definition body_fetch (uid : N) : Fetch :=
  {| f_uid := Some uid; f_size := None; f_flags := []; f_header := None; f_body := Some [uid] |}.

#[local] Instance small_server : ImapServer bool := {
  srv_select _ v := (Selected {| mb_uid_validity := Some 7%N; mb_uid_next := Some 4%N |}, v);
  srv_close v := (true, v);
  srv_status _ v := (Some None, v);
  srv_uid_fetch _ q v :=
    (Some match q with
          | PREFETCH_FLAGS =>
              {| items := [small_fetch 1 900000 1; small_fetch 2 10 2; small_fetch 3 10 3];
                 broken := false |}
          | BODY_FULL =>
              if v then {| items := [body_fetch 2]; broken := true |}
              else {| items := [body_fetch 2; body_fetch 3]; broken := false |}
          end, v);
  srv_uid_store _ _ v := (true, v);
  srv_uid_mv _ _ v := (true, v);
  srv_uid_copy _ _ v := (true, v)
}.

#[local] Instance small_server_ok : ImapServerOk 4 bool.
Proof.
  split.
  - intros set q v rs v' f u H Hf Hu. simpl in H.
    assert (Forall (λ f, match f_uid f with Some u => (0 < u <= 4)%N | None => True end) (items rs)) as Hall.
    { destruct q, v; injection H as <- <-; repeat constructor; by vm_compute. }
    apply (proj1 (list.Forall_forall _ _) Hall) in Hf. by rewrite Hu in Hf.
  - intros folder v m v' n [= <- _] [= <-]. by vm_compute.
  - done.
Qed.

#[local] Instance small_mail : MailParse := {
  mail_headers := list (str * str);
  no_headers := [];
  parse_headers b := Some [(lit "message-id", 60%N :: b ++ [62%N]); (lit "from", lit "bob@example.net")];
  get_first_value h k := snd <$> head (filter (λ kv, kv.1 = k) h);
  parse_mimetype _ := lit "text/plain";
  get_from _ := Some {| display_name := None; info_addr := lit "bob@example.net" |}
}.

#[local] Instance small_mailroom : Mailroom (list str) str := {
  receive_imf_inner mid _ _ := λ d, (Ok (Some mid),
    {| imap_sync := imap_sync d; imap := imap d; imap_seq := imap_seq d; imap_markseen := imap_markseen d;
       available_post_msgs := available_post_msgs d; download := download d; rest := rest d ++ [mid] |});
  add_device_msg := ret tt;
  mark_old_messages_as_noticed _ := ret tt;
  locally_deleted _ := ret None;
  rfc724_mid_download_tried _ := ret false;
  msg_is_downloaded_for _ := ret false;
  set_state_to_failure _ := ret tt;
  from_field_to_contact_id _ := ret (Some (10%N, false));
  imap_is_self_addr _ := ret false;
  imap_create_id := ret (lit "id");
  download_limit_config := ret (Some 163840%N);
  is_bot_config := ret false;
  force_encryption_config := ret false;
  team_profile_config := ret false;
  bcc_self_config := ret false;
  should_delete_all_downloaded_messages _ _ := false
}.

#[local] Instance small_mailroom_ok : MailroomOk (list str) str.
Proof. split; try (intros; intros d k; by left). by intros. Qed.

Definition small_state (breaks : bool) : ImapState bool (list str) str :=
  {| db := {| imap_sync := {[(1%N, lit "INBOX") := {| sy_uidvalidity := 7; sy_uid_next := 1; sy_modseq := 0 |}]};
              imap := []; imap_seq := 0; imap_markseen := []; available_post_msgs := []; download := [];
              rest := [] |};
     session := {| transport_id := 1; selected_folder := Some (lit "INBOX");
                   selected_mailbox := Some {| mb_uid_validity := Some 7%N; mb_uid_next := Some 4%N |};
                   selected_folder_needs_expunge := false; new_mail := true; can_move := true;
                   is_chatmail := true; resync_requested := false |};
     server := breaks; received_msgs_channel := []; fetched := []; commands := []; imap_events := [] |}.

Definition planned : nat * batch :=
  (3%nat, {| uids_fetch := [2%N; 3%N]; b_post_msgs := []; download_later := [[1%N]];
             b_message_ids := <[3%N := [3%N]]> {[2%N := [2%N]]}; largest_uid_skipped := Some 1%N |}).

Definition state_planned : ImapState bool (list str) str :=
  (plan_batch 1 (lit "INBOX") 1 (small_state true)).2.
Definition state_broken : ImapState bool (list str) str :=
  (run_batch 1 (lit "INBOX") 1 3 planned.2 state_planned).2.

Lemma fetching_skips_no_message_witness :
  uid_next_of 1 (lit "INBOX") state_broken = 3%N
  ∧ accounted (b_message_ids planned.2) (db state_planned)
      (fetch_many_msgs [2; 3]%N (b_message_ids planned.2) (upd_channel (λ _, []) state_planned)).2 2
  ∧ received_msgs_channel state_broken = [(2%N, Some [2%N])].
Proof.
  split; [vm_compute; reflexivity|].
  assert (plan_batch 1 (lit "INBOX") (uid_next_of 1 (lit "INBOX") (small_state true)) (small_state true)
    = (Ok (3%nat, planned.2), state_planned)) as H1 by (vm_compute; reflexivity).
  assert (run_batch 1 (lit "INBOX") (uid_next_of 1 (lit "INBOX") (small_state true)) 3 planned.2
    state_planned = (Err EStream, state_broken)) as H2 by (vm_compute; reflexivity).
  destruct (fetching_skips_no_message 4 eq_refl 1 (lit "INBOX") (small_state true) state_planned state_broken 3
    planned.2 (Err EStream) H1 H2 2%N) as [Ha Hc].
  - by left.
  - vm_compute. split; done.
  - split; [exact Ha|]. rewrite Hc. vm_compute. reflexivity.
Defined.

(** A postponed message is lost when the connection breaks after a later message: UIDNEXT has passed
    it, and it is not noted for download. *)
Example postponed_message_lost :
  download_later planned.2 = [[1%N]] ∧ uid_next_of 1 (lit "INBOX") state_broken = 3%N
  ∧ download (db state_broken) = [] ∧ rest (db state_broken) = [[2%N]].
Proof. split_and!; vm_compute; reflexivity. Qed.

Lemma fetching_ends_witness :
  (fetch_new_messages 1 1 (lit "INBOX") (small_state false)).1 ≠ Ok None.
Proof.
  apply (fetching_ends 4 eq_refl 1 1 (lit "INBOX") (small_state false) eq_refl).
  - split.
    + intros m n [= <-] [= <-]. by vm_compute.
    + intros tid folder. unfold uid_next_of, sync_of. simpl.
      destruct (decide ((1%N, lit "INBOX") = (tid, folder))) as [<-|Hne].
      * rewrite lookup_singleton_eq. by vm_compute.
      * rewrite lookup_singleton_ne by done. by vm_compute.
  - reflexivity.
Defined.

(** ** The end of the numbers *)

(** A server that has no messages left and has come to the end of its numbers. *)
#[local] Instance worn_server : ImapServer unit := {
  srv_select _ v := (Selected {| mb_uid_validity := Some 7%N; mb_uid_next := Some 4294967295%N |}, v);
  srv_close v := (true, v);
  srv_status _ v := (Some None, v);
  srv_uid_fetch _ _ v := (Some {| items := []; broken := false |}, v);
  srv_uid_store _ _ v := (true, v);
  srv_uid_mv _ _ v := (true, v);
  srv_uid_copy _ _ v := (true, v)
}.

Definition worn_state : ImapState unit (list str) str :=
  {| db := {| imap_sync := {[(1%N, lit "INBOX") := {| sy_uidvalidity := 7; sy_uid_next := 4294966900; sy_modseq := 0 |}]};
              imap := []; imap_seq := 0; imap_markseen := []; available_post_msgs := []; download := [];
              rest := [] |};
     session := {| transport_id := 1; selected_folder := Some (lit "INBOX");
                   selected_mailbox := Some {| mb_uid_validity := Some 7%N; mb_uid_next := Some 4294967295%N |};
                   selected_folder_needs_expunge := false; new_mail := true; can_move := true;
                   is_chatmail := true; resync_requested := false |};
     server := tt; received_msgs_channel := []; fetched := []; commands := []; imap_events := [] |}.

(** UIDNEXT plus 500 wraps around, a batch asks for more and changes nothing, and fetching never ends. *)
Example worn_server_never_done fuel cnt : (fetch_batches fuel 1 (lit "INBOX") cnt worn_state).1 = Ok None.
Proof.
  revert cnt. induction fuel as [|fuel IH]; intros cnt; [done|].
  assert (fetch_new_msg_batch 1 (lit "INBOX") worn_state = (Ok (0%nat, true), worn_state)) as E
    by (vm_compute; reflexivity).
  cbn [fetch_batches]. unfold bind. rewrite E. apply IH.
Qed.
