(* ===== verification/ImapMove.v ===== *)
(** ImapMove: what is moved, deleted and flagged on the server was planned, for the messages the
    server knows under those numbers (about the model of Imap). *)
From stdpp Require Import sorting.
From S2P Require Import Prelude Monad Ids Headers Recipients ImapUids Imap ImapFetch.

(** The rows of [imap] belong to the UIDVALIDITY known for their folder. *)
Definition rows_fresh {A : Type} (d : ImapDb A) : Prop :=
  ∀ r, r ∈ imap d → im_uidvalidity r = sy_uidvalidity (sync_of (im_transport_id r) (im_folder r) d).

Ltac run_se_all H :=
  unfold when, ok_or, bind, ret, fail, gets, modify in H; cbv beta iota zeta in H; simpl in H.

Section Move.
Context {Srv Acct ReceivedMsg : Type} `{SV : !ImapServer Srv}.
Local Abbreviation St := (ImapState Srv Acct ReceivedMsg).
Local Abbreviation I := (SE St imap_error).

(** The folder is selected, and its UIDVALIDITY is the one stored. *)
Record validated (folder : str) (s : St) : Prop := {
  valid_transport : (0 < transport_id (session s))%N;
  valid_folder : selected_folder (session s) = Some folder;
  valid_mailbox : ∃ m, selected_mailbox (session s) = Some m
    ∧ mb_uid_validity m = Some (sy_uidvalidity (sync_of (transport_id (session s)) folder (db s)))
}.

(** ** Selecting *)

(** Steps that touch neither the database nor the commands, and keep the transport. *)
Definition calm (s s' : St) : Prop :=
  db s' = db s ∧ commands s' = commands s ∧ transport_id (session s') = transport_id (session s).

Lemma calm_close (s s' : St) r : maybe_close_folder s = (r, s') → calm s s'.
Proof.
  unfold maybe_close_folder. run_se. intros H.
  destruct (selected_folder (session s)); [|by simplify_eq].
  destruct (selected_folder_needs_expunge (session s)); [|by simplify_eq].
  unfold on_server in H. by destruct (srv_close (server s)) as [[] v]; simplify_eq.
Qed.

Lemma select_folder_spec folder (s s' : St) r :
  select_folder folder s = (r, s') →
  calm s s' ∧ ∀ newly, r = Ok (Ok newly) →
    selected_folder (session s') = Some folder
    ∧ (selected_folder (session s) = Some folder → newly = No ∧ s' = s).
Proof.
  unfold select_folder. run_se. intros H. case_bool_decide as Hsel.
  { simplify_eq. split; [done|]. intros newly [= <-]. done. }
  destruct (maybe_close_folder s) as [[[]|e] s1] eqn:Ec; apply calm_close in Ec as (H1 & H2 & H3).
  2: { simplify_eq. split; [done|]. by intros newly [=]. }
  unfold on_server in H. destruct (srv_select folder (server s1)) as [[m| |] v]; simplify_eq;
    (split; [done|]); intros newly [=]; simplify_eq; done.
Qed.

Lemma determine_calm folder m (s s' : St) r :
  determine_uid_next folder m s = (r, s') →
  calm s s' ∧ session s' = session s.
Proof.
  unfold determine_uid_next. destruct (mb_uid_next m) as [n|]; [by intros [= <- <-]|].
  unfold on_server. run_se. by destruct (srv_status folder (server s)) as [[o|] v]; intros [= <- <-].
Qed.

Lemma sync_of_insert tid folder (row : sync_row) (d : ImapDb Acct) tid' folder' :
  sync_of tid' folder' (upd_sync (<[(tid, folder) := row]>) d)
  = if decide ((tid, folder) = (tid', folder')) then row else sync_of tid' folder' d.
Proof.
  unfold sync_of. simpl. case_decide as E.
  - rewrite E. by rewrite lookup_insert_eq.
  - by rewrite lookup_insert_ne by done.
Qed.

(** A new UIDVALIDITY is stored and the rows of the old one are removed. *)
Lemma changed_validity_spec folder v next ov on (s s' : St) r :
  changed_validity folder v next ov on s = (r, s') →
  let tid := transport_id (session s) in
  r = Ok tt ∧ commands s' = commands s ∧ transport_id (session s') = tid
  ∧ selected_folder (session s') = selected_folder (session s)
  ∧ selected_mailbox (session s') = selected_mailbox (session s)
  ∧ sy_uidvalidity (sync_of tid folder (db s')) = v
  ∧ (rows_fresh (db s) → rows_fresh (db s')).
Proof.
  unfold changed_validity, transaction, on_db, set_modseq, set_uid_next, set_uidvalidity. run_se.
  intros H. set (tid := transport_id (session s)) in *.
  match type of H with (if ?b then _ else _) ?s1 = _ => set (c := b) in H; set (s0 := s1) in H end.
  assert (r = Ok tt ∧ db s' = db s0 ∧ commands s' = commands s0
    ∧ transport_id (session s') = transport_id (session s0)
    ∧ selected_folder (session s') = selected_folder (session s0)
    ∧ selected_mailbox (session s') = selected_mailbox (session s0)) as (-> & Hdb & -> & -> & -> & ->)
    by (by destruct c; simplify_eq).
  split_and!; try done.
  - rewrite Hdb. unfold s0, sync_of. simpl. by rewrite lookup_insert_eq.
  - intros Hf row Hrow. rewrite Hdb in *. unfold s0 in Hrow |- *. simpl in Hrow.
    apply list_elem_of_filter in Hrow as [Hk Hrow]. apply Hf in Hrow.
    unfold sync_of. simpl.
    destruct (decide ((tid, folder) = (im_transport_id row, im_folder row))) as [E|E].
    + rewrite <-E. rewrite lookup_insert_eq. simpl. injection E as Et Ef.
      rewrite <-Et, <-Ef, N.eqb_refl, bool_decide_eq_true_2 in Hk by done. simpl in Hk.
      apply negb_false_iff, N.eqb_eq in Hk. done.
    + rewrite !lookup_insert_ne by done. apply Hrow.
Qed.

Lemma same_validity_spec folder newly next old (s s' : St) r :
  same_validity folder newly next old s = (r, s') →
  r = Ok tt ∧ commands s' = commands s ∧ transport_id (session s') = transport_id (session s)
  ∧ selected_folder (session s') = selected_folder (session s)
  ∧ selected_mailbox (session s') = selected_mailbox (session s)
  ∧ imap (db s') = imap (db s)
  ∧ (∀ tid f, sy_uidvalidity (sync_of tid f (db s')) = sy_uidvalidity (sync_of tid f (db s)))
  ∧ (newly = No → s' = s).
Proof.
  unfold same_validity. destruct newly; [|by intros [= <- <-]]. run_se. intros H.
  destruct next as [n|]; [|by simplify_eq].
  destruct (n <? old)%N; [|by simplify_eq].
  unfold on_db, set_uid_next, modify in H. simpl in H. simplify_eq. split_and!; try done.
  intros tid f. simpl. rewrite sync_of_insert. case_decide as E; [|done]. by injection E as -> ->.
Qed.

Lemma check_validity_spec folder newly m (s s' : St) :
  check_validity folder newly (transport_id (session s)) m s = (Ok true, s') →
  selected_folder (session s) = Some folder → (0 < transport_id (session s))%N →
  validated folder s' ∧ commands s' = commands s
  ∧ transport_id (session s') = transport_id (session s)
  ∧ (rows_fresh (db s) → rows_fresh (db s')).
Proof.
  intros H Hsel Ht. unfold check_validity in H. set (tid := transport_id (session s)) in *.
  unfold bind, on_db, get_uidvalidity, get_uid_next, gets, ok_or in H. cbv beta iota zeta in H.
  assert (upd_db (λ _, db s) s = s) as Hid by (by destruct s).
  rewrite ?Hid in H. cbn [db upd_db] in H. rewrite ?Hid in H.
  destruct (mb_uid_validity m) as [v|] eqn:Ev; [|done]. unfold ret at 1 in H.
  destruct (determine_uid_next folder m s) as [[next|e] s1] eqn:Ed; [|done].
  apply determine_calm in Ed as [(Hdb & Hcmd & Htr) Hse]. unfold modify at 1 in H.
  set (s2 := upd_session _ s1) in H.
  assert (db s2 = db s ∧ commands s2 = commands s ∧ transport_id (session s2) = tid
    ∧ selected_folder (session s2) = Some folder
    ∧ selected_mailbox (session s2) = Some {| mb_uid_validity := Some v; mb_uid_next := next |})
    as (Hdb2 & Hcmd2 & Ht2 & Hf2 & Hm2) by (unfold s2; simpl; rewrite Hse; by rewrite ?Hdb, ?Hcmd).
  destruct (v =? _)%N eqn:E in H.
  - apply N.eqb_eq in E. destruct (same_validity _ _ _ _ s2) as [r3 s3] eqn:Es.
    apply same_validity_spec in Es as (-> & H1 & H2 & H3 & H4 & H5 & H6 & _).
    unfold ret in H. simplify_eq. split_and!; [|congruence|congruence|].
    + split; [congruence|congruence|]. eexists. split; [by rewrite H4|]. simpl.
      by rewrite H2, Ht2, H6, Hdb2.
    + intros Hf row Hrow. rewrite H6, Hdb2. apply Hf. by rewrite <-Hdb2, <-H5.
  - destruct (changed_validity _ _ _ _ _ s2) as [r3 s3] eqn:Es.
    apply changed_validity_spec in Es as (-> & H1 & H2 & H3 & H4 & H5 & H6).
    unfold ret in H. simplify_eq. split_and!; [|congruence|congruence|].
    + split; [congruence|congruence|]. eexists. split; [by rewrite H4|]. simpl. by rewrite H2, H5.
    + by rewrite <-Hdb2.
Qed.

Lemma select_validates folder (s s' : St) :
  select_with_uidvalidity folder s = (Ok true, s') →
  validated folder s' ∧ commands s' = commands s
  ∧ transport_id (session s') = transport_id (session s)
  ∧ (rows_fresh (db s) → rows_fresh (db s')).
Proof.
  intros H. unfold select_with_uidvalidity in H. unfold bind at 1 in H.
  destruct (select_folder folder s) as [r s1] eqn:E.
  apply select_folder_spec in E as [(Hdb & Hcmd & Htr) Hsel].
  destruct r as [[newly|[|e]]|e]; [|done|done|done].
  destruct (Hsel newly eq_refl) as [Hf _]. unfold bind at 1, gets at 1, bind at 1 in H.
  destruct (0 <? transport_id (session s1))%N eqn:Et; [|done]. apply N.ltb_lt in Et.
  unfold ret at 1, bind at 1 in H. destruct (selected_mailbox (session s1)) as [m|]; [|done].
  simpl in H. apply check_validity_spec in H as (Hv & Hc & Ht & Hr); [|done|done].
  rewrite <-Hdb, <-Htr, <-Hcmd. done.
Qed.

(** Selecting the selected folder changes nothing that matters. *)
Lemma select_again folder (s s' : St) r :
  validated folder s → select_with_uidvalidity folder s = (r, s') →
  calm s s' ∧ (∀ b, r = Ok b → validated folder s').
Proof.
  intros [Ht Hf (m & Hm & Hv)] H. unfold select_with_uidvalidity in H. unfold bind at 1 in H.
  assert (select_folder folder s = (Ok (Ok No), s)) as E
    by (unfold select_folder; run_se; by rewrite Hf, bool_decide_eq_true_2).
  rewrite E in H. unfold bind at 1, gets at 1, bind at 1 in H.
  rewrite (proj2 (N.ltb_lt _ _) Ht), Hm in H. unfold ret at 1, bind at 1 in H. simpl in H.
  unfold check_validity in H. unfold bind, on_db, get_uidvalidity, get_uid_next, gets, ok_or in H.
  cbv beta iota zeta in H. assert (upd_db (λ _, db s) s = s) as Hid by (by destruct s).
  rewrite ?Hid in H. cbn [db upd_db] in H. rewrite ?Hid, Hv in H. unfold ret at 1 in H.
  destruct (determine_uid_next folder m s) as [[next|e] s1] eqn:Ed;
    apply determine_calm in Ed as [(Hdb & Hcmd & Htr) Hse].
  2: { simplify_eq. split; [done|]. by intros b [=]. }
  rewrite N.eqb_refl in H. unfold modify, same_validity, ret in H. simplify_eq.
  split; [done|]. intros b _. split; simpl; rewrite ?Hse, ?Hdb; try done.
  eexists. split; [done|]. simpl. done.
Qed.

(** ** Commands *)

(** The messages a set names, as the server reads it, all have a row that plans [target] for them,
    under the UIDVALIDITY the set is sent for. *)
Definition names_planned (tid : N) (folder : str) (d : ImapDb Acct) (validity : option N)
  (set target : str) : Prop :=
  ∃ uids, expand_set set = Some uids ∧ ∀ u, u ∈ uids → ∃ r, r ∈ imap d
    ∧ im_transport_id r = tid ∧ im_folder r = folder ∧ im_uid r = u ∧ im_target r = target
    ∧ validity = Some (im_uidvalidity r).

Definition planned_command (tid : N) (folder : str) (d : ImapDb Acct) (c : command) : Prop :=
  match c with
  | CStore f v set flag =>
      f = Some folder ∧ flag = lit "\Deleted" ∧ names_planned tid folder d v set []
  | CMove f v set target | CCopy f v set target =>
      f = Some folder ∧ target ≠ [] ∧ target ≠ folder ∧ names_planned tid folder d v set target
  end.

(** A batch of the grouper and the rows it was made of. *)
Definition group_ok (tid : N) (folder : str) (d : ImapDb Acct) (g : str * list Z * str) : Prop :=
  g.1.1 ≠ folder ∧ ∃ uids, expand_set g.2 = Some uids ∧ ∀ u, u ∈ uids → ∃ r, r ∈ imap d
    ∧ im_transport_id r = tid ∧ im_folder r = folder ∧ im_uid r = u ∧ im_target r = g.1.1.

Lemma planned_rows_elem tid folder (d : ImapDb Acct) row :
  row ∈ planned_rows tid folder d →
  ∃ r, r ∈ imap d ∧ im_transport_id r = tid ∧ im_folder r = folder ∧ im_target r ≠ folder
    ∧ row = (im_id r, im_uid r, im_target r).
Proof.
  unfold planned_rows. rewrite merge_sort_Permutation. intros (r & -> & Hr)%list_elem_of_fmap.
  apply list_elem_of_filter in Hr as [(Hf & Ht & Hg) Hr]. exists r. rewrite <-Hf at 2. by split_and!.
Qed.

Lemma groups_ok tid folder (d : ImapDb Acct) :
  (∀ r, r ∈ imap d → uid_ok (im_uid r)) →
  Forall (group_ok tid folder d) (UidGrouper (planned_rows tid folder d)).
Proof.
  intros Hok. set (rows := planned_rows tid folder d).
  assert (rows_ok rows) as Hrows.
  { apply list.Forall_forall. intros row (r & Hr & _ & _ & _ & ->)%planned_rows_elem. by apply Hok. }
  destruct (uid_groups_spec (length rows) rows Hrows) as (segs & Hsegs & H2); [done|].
  apply list.Forall_forall. intros g Hg.
  apply list_elem_of_lookup in Hg as [i Hi].
  destruct (Forall2_lookup_l _ _ _ _ _ H2 Hi) as (seg & Hseg & Hne & _ & Htarget & _ & uids & Hexp & Hu).
  assert (∀ row, row ∈ seg → ∃ r, r ∈ imap d ∧ im_transport_id r = tid ∧ im_folder r = folder
    ∧ im_target r ≠ folder ∧ row = (im_id r, im_uid r, im_target r)) as Hin.
  { intros row Hrow. apply planned_rows_elem. fold rows. rewrite Hsegs. apply list_elem_of_In, in_concat.
    exists seg. split; apply list_elem_of_In; [by eapply list_elem_of_lookup_2|done]. }
  pose proof (proj1 (list.Forall_forall _ _) Htarget) as Ht. split.
  - destruct seg as [|row seg]; [done|]. rewrite <-(Ht row) by (by left).
    destruct (Hin row) as (r & _ & _ & _ & Hr & ->); [by left|done].
  - exists uids. split; [done|]. intros u (row & -> & Hrow)%Hu%list_elem_of_fmap.
    rewrite <-(Ht row Hrow). destruct (Hin row Hrow) as (r & Hr & Htid & Hf & _ & ->).
    by exists r.
Qed.

(** What a batch does on the server, in a state where the folder is selected. *)
Record batch_effect (tid : N) (folder : str) (d : ImapDb Acct) (s s' : St) : Prop := {
  effect_commands : ∃ new, commands s' = commands s ++ new ∧ Forall (planned_command tid folder d) new;
  effect_session : transport_id (session s') = transport_id (session s)
    ∧ selected_folder (session s') = selected_folder (session s)
    ∧ selected_mailbox (session s') = selected_mailbox (session s);
  effect_sync : imap_sync (db s') = imap_sync (db s)
}.

Lemma delete_rows_sync ids (d : ImapDb Acct) : imap_sync (delete_rows_by_id ids d) = imap_sync d.
Proof.
  unfold delete_rows_by_id. revert d. induction ids as [|i ids IH]; intros d; [done|].
  simpl. by rewrite IH.
Qed.

Lemma plan_deletion_sync ids (d : ImapDb Acct) : imap_sync (plan_deletion ids d) = imap_sync d.
Proof.
  unfold plan_deletion. revert d. induction ids as [|i ids IH]; intros d; [done|].
  simpl. by rewrite IH.
Qed.

Lemma delete_batch_effect tid folder d set ids (s s' : St) r :
  planned_command tid folder d (CStore (selected_folder (session s))
    (selected_mailbox (session s) ≫= mb_uid_validity) set (lit "\Deleted")) →
  delete_message_batch set ids s = (r, s') → batch_effect tid folder d s s'.
Proof.
  intros Hc H. unfold delete_message_batch, add_flag_finalized_with_set in H.
  rewrite bool_decide_eq_true_2 in H by done.
  unfold transaction, on_db, emit_imap, on_server in H. run_se_all H.
  destruct (srv_uid_store _ _ _) as [[] v]; simpl in H; simplify_eq; (split; simpl;
    [eexists [_]; split; [done|by apply list.Forall_singleton]|done|by rewrite ?delete_rows_sync]).
Qed.

Lemma move_batch_effect tid folder d set ids target (s s' : St) r :
  (∀ b : bool, planned_command tid folder d ((if b then CMove else CCopy) (selected_folder (session s))
    (selected_mailbox (session s) ≫= mb_uid_validity) set target)) →
  move_message_batch set ids target s = (r, s') → batch_effect tid folder d s s'.
Proof.
  intros Hc H. pose proof (Hc true) as Hmv. pose proof (Hc false) as Hcp.
  unfold move_message_batch in H. unfold transaction, on_db, emit_imap, on_server in H. run_se_all H.
  destruct (can_move (session s)); simpl in H.
  - destruct (srv_uid_mv _ _ _) as [[] v]; simpl in H.
    + simplify_eq. split; simpl; [eexists [_]; split; [done|by apply list.Forall_singleton]|done|by rewrite delete_rows_sync].
    + destruct (srv_uid_copy _ _ _) as [[] v']; simpl in H; simplify_eq; (split; simpl;
        [eexists [_; _]; split; [by rewrite <-app_assoc|constructor; [exact Hmv|constructor; [exact Hcp|constructor]]]|done|by rewrite ?plan_deletion_sync]).
  - destruct (srv_uid_copy _ _ _) as [[] v']; simpl in H; simplify_eq; (split; simpl;
      [eexists [_]; split; [done|by apply list.Forall_singleton]|done|by rewrite ?plan_deletion_sync]).
Qed.

(** The validity the folder was selected with, through the loop. *)
Definition at_folder (tid : N) (folder : str) (v : N) (s : St) : Prop :=
  validated folder s ∧ transport_id (session s) = tid ∧ sy_uidvalidity (sync_of tid folder (db s)) = v.

Lemma at_folder_effect tid folder v d (s s' : St) :
  at_folder tid folder v s → batch_effect tid folder d s s' → at_folder tid folder v s'.
Proof.
  intros ([H1 H2 (m & H3 & H4)] & H5 & H6) [_ (H7 & H8 & H9) H10].
  assert (∀ t, sync_of t folder (db s') = sync_of t folder (db s)) as Hs
    by (intros t; unfold sync_of; by rewrite H10).
  split_and!; [|congruence|by rewrite Hs]. split; [by rewrite H7|congruence|].
  exists m. by rewrite H9, H7, Hs.
Qed.

Lemma group_commands tid folder (d : ImapDb Acct) v g (s : St) :
  rows_fresh d → sy_uidvalidity (sync_of tid folder d) = v → group_ok tid folder d g →
  at_folder tid folder v s →
  selected_folder (session s) = Some folder
  ∧ names_planned tid folder d (selected_mailbox (session s) ≫= mb_uid_validity) g.2 g.1.1.
Proof.
  intros Hfresh Hv [_ (uids & Hexp & Hu)] ([_ Hsel (m & Hm & Hmv)] & Ht & Hsv). split; [done|].
  exists uids. split; [done|]. intros u Hin. destruct (Hu u Hin) as (r & Hr & H1 & H2 & H3 & H4).
  exists r. split_and!; try done. rewrite Hm. simpl. rewrite Hmv, Ht, Hsv, (Hfresh r Hr), H1, H2.
  by rewrite Hv.
Qed.

Lemma calm_at_folder tid folder v (s s' : St) :
  at_folder tid folder v s → calm s s' → validated folder s' → at_folder tid folder v s'.
Proof. intros (_ & H2 & H3) (Hd & _ & Ht) Hv. split_and!; [done|congruence|by rewrite Hd]. Qed.

Lemma batch_step tid folder (d : ImapDb Acct) v g (s s' : St) r :
  rows_fresh d → sy_uidvalidity (sync_of tid folder d) = v → group_ok tid folder d g →
  at_folder tid folder v s → move_delete_batch folder g s = (r, s') →
  (∃ new, commands s' = commands s ++ new ∧ Forall (planned_command tid folder d) new)
  ∧ (r = Ok tt → at_folder tid folder v s').
Proof.
  intros Hfresh Hv Hg Hat H. destruct g as [[target ids] set]. unfold move_delete_batch in H.
  unfold bind at 1 in H. destruct (select_with_uidvalidity folder s) as [re s1] eqn:E.
  destruct Hat as [Hval Hat]. destruct (select_again _ _ _ _ Hval E) as [Hcalm Hval'].
  destruct Hcalm as (Hd & Hc & Ht).
  destruct re as [b|e]; [|simplify_eq; split; [exists []; by rewrite app_nil_r, Hc|done]].
  assert (at_folder tid folder v s1) as Hat1.
  { apply (calm_at_folder _ _ _ s); [by split|done|by apply (Hval' b)]. }
  destruct (group_commands _ _ _ _ _ _ Hfresh Hv Hg Hat1) as [Hsel Hnames]. simpl in Hnames.
  destruct b; [|unfold bind, fail in H; simplify_eq; split; [exists []; by rewrite app_nil_r, Hc|done]].
  unfold bind, ret in H. assert (batch_effect tid folder d s1 s') as Heff.
  { destruct (bool_decide (target = [])) eqn:Ht0; [apply bool_decide_eq_true in Ht0|apply bool_decide_eq_false in Ht0].
    - refine (delete_batch_effect _ _ _ _ _ _ _ _ _ H). subst target. simpl. by split_and!.
    - refine (move_batch_effect _ _ _ _ _ _ _ _ _ _ H). destruct Hg as [Hne _]. simpl in Hne.
      intros []; simpl; by split_and!. }
  split; [rewrite <-Hc; apply Heff|]. intros _. by eapply at_folder_effect.
Qed.

Lemma batches_run tid folder (d : ImapDb Acct) v gs (s s' : St) r :
  rows_fresh d → sy_uidvalidity (sync_of tid folder d) = v → Forall (group_ok tid folder d) gs →
  at_folder tid folder v s → for_each gs (move_delete_batch folder) s = (r, s') →
  ∃ new, commands s' = commands s ++ new ∧ Forall (planned_command tid folder d) new.
Proof.
  intros Hfresh Hv Hgs. revert s. induction Hgs as [|g gs Hg Hgs IH]; intros s Hat H; simpl in H.
  { unfold ret in H. simplify_eq. exists []. by rewrite app_nil_r. }
  unfold bind in H. destruct (move_delete_batch folder g s) as [[[]|e] s1] eqn:E;
    apply (batch_step tid folder d v) in E as [(new & Hc & Hnew) Hat']; try done.
  - apply IH in H as (new' & Hc' & Hnew'); [|by apply Hat'].
    exists (new ++ new'). rewrite Hc', Hc, <-app_assoc. split; [done|]. by apply Forall_app.
  - simplify_eq. eauto.
Qed.

(** C16. Only what was planned is moved or deleted: from any state whose rows belong to the stored
    UIDVALIDITY, when a folder has been selected and the planned operations are carried out on it,
    every command that changes messages is sent while that folder is selected; a deletion sets the
    deletion flag on messages whose rows have an empty target, a move or copy goes to the target of
    the rows, and all these rows belong to the UIDVALIDITY the server selected the folder with, so
    that no other message is hit. *)
Theorem only_planned_messages_change folder (s s1 s2 : St) r :
  rows_fresh (db s) → (∀ row, row ∈ imap (db s1) → uid_ok (im_uid row)) →
  select_with_uidvalidity folder s = (Ok true, s1) →
  move_delete_messages folder s1 = (r, s2) →
  ∃ new, commands s2 = commands s1 ++ new
    ∧ Forall (planned_command (transport_id (session s1)) folder (db s1)) new.
Proof.
  intros Hfresh Huid Hsel H. apply select_validates in Hsel as (Hval & _ & _ & Hf).
  specialize (Hf Hfresh). set (tid := transport_id (session s1)) in *.
  unfold move_delete_messages in H. unfold bind at 1, gets at 1, bind at 1, gets at 1, bind at 1 in H.
  fold tid in H. destruct (for_each _ (move_delete_batch folder) s1) as [re s3] eqn:E.
  apply (batches_run tid folder (db s1) (sy_uidvalidity (sync_of tid folder (db s1)))) in E
    as (new & Hc & Hnew); [|done|done|by apply groups_ok|done].
  destruct re as [[]|e]; [|simplify_eq; eauto].
  unfold bind, ignore_err, ret in H. destruct (maybe_close_folder s3) as [[[]|e] s4] eqn:Ec;
    apply calm_close in Ec as (_ & Hc4 & _); simplify_eq; exists new; by rewrite Hc4.
Qed.
End Move.

(** ** Examples *)

#[local] Existing Instance small_server.
#[local] Existing Instance small_mailroom.

Definition small_row (id : Z) (uid validity : N) (target : str) : ImapRow :=
  {| im_id := id; im_transport_id := 1; im_rfc724_mid := [uid]; im_folder := lit "INBOX";
     im_target := target; im_uid := uid; im_uidvalidity := validity |}.

(** An account that has seen the folder with [validity]; no folder is selected yet. *)
Definition rows_state (validity : N) (rows : list ImapRow) (markseen : list Z)
  : ImapState bool (list str) str :=
  {| db := {| imap_sync := {[(1%N, lit "INBOX") :=
                {| sy_uidvalidity := validity; sy_uid_next := 4; sy_modseq := 0 |}]};
              imap := rows; imap_seq := 9; imap_markseen := markseen; available_post_msgs := [];
              download := []; rest := [] |};
     session := {| transport_id := 1; selected_folder := None; selected_mailbox := None;
                   selected_folder_needs_expunge := false; new_mail := false; can_move := true;
                   is_chatmail := true; resync_requested := false |};
     server := false; received_msgs_channel := []; fetched := []; commands := []; imap_events := [] |}.

Definition plan_state : ImapState bool (list str) str :=
  rows_state 7 [small_row 1 2 7 []; small_row 2 3 7 []; small_row 3 5 7 (lit "Trash");
                small_row 4 6 7 (lit "INBOX")] [].
Definition plan_selected : ImapState bool (list str) str :=
  (select_with_uidvalidity (lit "INBOX") plan_state).2.

Lemma only_planned_messages_change_witness :
  commands (move_delete_messages (lit "INBOX") plan_selected).2
    = [CStore (Some (lit "INBOX")) (Some 7%N) (lit "2:3") (lit "\Deleted");
       CMove (Some (lit "INBOX")) (Some 7%N) (lit "5") (lit "Trash")]
  ∧ ∃ new, commands (move_delete_messages (lit "INBOX") plan_selected).2 = commands plan_selected ++ new
      ∧ Forall (planned_command 1 (lit "INBOX") (db plan_selected)) new.
Proof.
  split; [vm_compute; reflexivity|].
  assert (imap (db plan_selected) = imap (db plan_state)) as Hrows by (vm_compute; reflexivity).
  apply (only_planned_messages_change (lit "INBOX") plan_state plan_selected
    (move_delete_messages (lit "INBOX") plan_selected).2
    (move_delete_messages (lit "INBOX") plan_selected).1).
  - assert (Forall (λ r, im_uidvalidity r = sy_uidvalidity (sync_of (im_transport_id r) (im_folder r)
      (db plan_state))) (imap (db plan_state))) as H by (repeat constructor; vm_compute; reflexivity).
    exact (proj1 (list.Forall_forall _ _) H).
  - rewrite Hrows.
    assert (Forall (λ r, uid_ok (im_uid r)) (imap (db plan_state))) as H
      by (repeat constructor; by vm_compute).
    exact (proj1 (list.Forall_forall _ _) H).
  - vm_compute. reflexivity.
  - by destruct (move_delete_messages (lit "INBOX") plan_selected).
Defined.

(** The flag is set on another message: the row was noted for UIDVALIDITY 6, the server selects the
    folder with UIDVALIDITY 7, and the number is used all the same. *)
Example stale_number_flagged :
  commands (store_seen_flags_on_imap (rows_state 6 [small_row 1 2 6 (lit "INBOX")] [1%Z])).2
  = [CStore (Some (lit "INBOX")) (Some 7%N) (lit "2") (lit "\Seen")].
Proof. vm_compute. reflexivity. Qed.
