(* ===== verification/Smtp.v ===== *)
(** Smtp: the queue of messages to send and the queue of read receipts (src/src/smtp.rs,
    src/src/smtp/send.rs). *)
From S2P Require Import Prelude Monad Ids Params MsgTable MsgState.
From stdpp Require Import sorting.

(** ** Data *)

(** A row of [smtp]. *)
Record smtp_job := {
  j_id : Z;
  j_mime : str;
  j_msg_id : MsgId;
  j_recipients : str;
  j_retries : Z
}.

(** A row of [smtp_mdns], which [MsgState] inserts with no retries. *)
Record mdn_job := {
  q_rfc724_mid : str;
  q_from_id : ContactId;
  q_retries : Z
}.

(** [async_smtp::response::Response]: category and detail are digits of the reply code. *)
Record smtp_response := {
  rs_category : N;
  rs_detail : N;
  rs_first_word : option str;
  rs_text : str
}.

(** [async_smtp::error::Error]. *)
Inductive smtp_error :=
| Permanent (response : smtp_response)
| Transient (response : smtp_response)
| OtherSmtp (text : str).

(** [smtp::send::Error]. *)
Inductive send_error :=
| Envelope (text : str)
| SmtpSend (err : smtp_error)
| NoTransport
| Other (text : str).

(** [enum SendResult]. *)
Inductive SendResult := Success | Failure (err : str) | Retry.

(** [Category::MailSystem] and [Detail::Zero]. *)
Definition MailSystem : N := 5.
Definition Zero : N := 0.

(** The clock, the configured login (the address and the servers to try, or an error), the order in
    which [prioritize_server_login_params] tries the servers, connecting to one of them, closing the
    connection, and a mail that the server takes over or not; the rate limiter is asked and told. *)
Class SmtpServer (Net : Type) := {
  net_now : Net -> Z;
  configured_login : Net -> result (str * list str) str;
  prioritize_server_login_params : Net -> list str -> result (list str) str;
  connect_and_auth : str -> str -> Net -> result unit str * Net;
  net_quit : Net -> Net;
  net_send : option str -> list str -> str -> Net -> result unit smtp_error * Net;
  envelope_error : option str -> list str -> option str;
  smtp_error_text : smtp_error -> str;
  valid_addr : str -> bool;
  ratelimit_can_send : Net -> bool;
  ratelimit_send : Net -> Net
}.

(** The account and [struct Smtp]; [accepted] are the mails the server took over. *)
Record SmtpState (Net : Type) := {
  mdb : MsgDb;
  smtp : list smtp_job;
  smtp_mdns_rows : list mdn_job;
  is_bot : bool;
  connected : bool;
  smtp_from : option str;
  last_success : option Z;
  last_send_error : option str;
  net : Net;
  accepted : list (list str * str)
}.
Arguments mdb {_} _. Arguments smtp {_} _. Arguments smtp_mdns_rows {_} _. Arguments is_bot {_} _.
Arguments connected {_} _. Arguments smtp_from {_} _. Arguments last_success {_} _. Arguments last_send_error {_} _.
Arguments net {_} _. Arguments accepted {_} _.

Section Updates.
Context {Net : Type}.
Local Abbreviation St := (SmtpState Net).

Definition upd_mdb (f : MsgDb -> MsgDb) (s : St) : St :=
  {| mdb := f (mdb s); smtp := smtp s; smtp_mdns_rows := smtp_mdns_rows s; is_bot := is_bot s;
     connected := connected s; smtp_from := smtp_from s; last_success := last_success s; last_send_error := last_send_error s;
     net := net s; accepted := accepted s |}.

Definition upd_smtp (f : list smtp_job -> list smtp_job) (s : St) : St :=
  {| mdb := mdb s; smtp := f (smtp s); smtp_mdns_rows := smtp_mdns_rows s; is_bot := is_bot s;
     connected := connected s; smtp_from := smtp_from s; last_success := last_success s; last_send_error := last_send_error s;
     net := net s; accepted := accepted s |}.

Definition upd_mdn_rows (f : list mdn_job -> list mdn_job) (s : St) : St :=
  {| mdb := mdb s; smtp := smtp s; smtp_mdns_rows := f (smtp_mdns_rows s); is_bot := is_bot s;
     connected := connected s; smtp_from := smtp_from s; last_success := last_success s; last_send_error := last_send_error s;
     net := net s; accepted := accepted s |}.

Definition set_connection (c : bool) (from : option str) (last : option Z) (s : St) : St :=
  {| mdb := mdb s; smtp := smtp s; smtp_mdns_rows := smtp_mdns_rows s; is_bot := is_bot s;
     connected := c; smtp_from := from; last_success := last; last_send_error := last_send_error s;
     net := net s; accepted := accepted s |}.

Definition set_last_send_error (e : option str) (s : St) : St :=
  {| mdb := mdb s; smtp := smtp s; smtp_mdns_rows := smtp_mdns_rows s; is_bot := is_bot s;
     connected := connected s; smtp_from := smtp_from s; last_success := last_success s; last_send_error := e;
     net := net s; accepted := accepted s |}.

Definition set_net (n : Net) (s : St) : St :=
  {| mdb := mdb s; smtp := smtp s; smtp_mdns_rows := smtp_mdns_rows s; is_bot := is_bot s;
     connected := connected s; smtp_from := smtp_from s; last_success := last_success s; last_send_error := last_send_error s;
     net := n; accepted := accepted s |}.

Definition accept (mail : list str * str) (s : St) : St :=
  {| mdb := mdb s; smtp := smtp s; smtp_mdns_rows := smtp_mdns_rows s; is_bot := is_bot s;
     connected := connected s; smtp_from := smtp_from s; last_success := last_success s; last_send_error := last_send_error s;
     net := net s; accepted := accepted s ++ [mail] |}.
End Updates.

(** The rest of the program: lower case, the info message about an unencrypted mail, the items put
    at the end of the queue before it is worked off ([send_sync_msg], [flush_status_updates]),
    contacts (address and whether blocked), rendering of receipts (whether encrypted, Message-ID
    and text), and the own addresses. *)
Class Outbox (Net : Type) := {
  ob_lowercase : str -> str;
  add_unencrypted_info : ChatId -> Z -> SE MsgDb str unit;
  enqueue_updates : SE (SmtpState Net) str unit;
  contact_by_id : ContactId -> option (str * bool);
  render_mdn : ContactId -> str -> list str -> result (bool * str * str) str;
  published_secondary_self_addrs : list str;
  primary_self_addr : result str str
}.

Section Smtp.
Context {Net : Type} `{SV : !SmtpServer Net} `{OB : !Outbox Net}.
Local Abbreviation St := (SmtpState Net).
Local Abbreviation S := (SE St str).

(** ** The connection *)

(** [Smtp::disconnect]. *)
Definition disconnect (s : St) : St :=
  let s := if connected s then set_net (net_quit (net s)) s else s in
  set_connection false (smtp_from s) None s.

(** [Smtp::has_maybe_stale_connection]; [time_elapsed] is 0 for a time in the future. *)
Definition has_maybe_stale_connection (s : St) : bool :=
  match last_success s with
  | Some t => (60 <? Z.max 0 (net_now (net s) - t))%Z
  | None => false
  end.

(** The loop of [Smtp::connect] over the servers. *)
Fixpoint try_servers (addr : str) (first_error : option str) (lps : list str) : S unit :=
  match lps with
  | [] => fail (default (lit "No SMTP connection candidates provided") first_error)
  | lp :: lps => λ s,
      match connect_and_auth addr lp (net s) with
      | (Ok _, n) => (Ok tt, set_connection true (smtp_from s) (Some (net_now n)) (set_net n s))
      | (Err err, n) =>
          try_servers addr (Some (default err first_error)) lps (set_net n s)
      end
  end.

(** [Smtp::connect]. *)
Definition connect (addr : str) (login_params : list str) : S unit :=
  is_connected <- gets connected ;;
  if is_connected : bool then ret tt
  else if negb (valid_addr addr) then fail (lit "Invalid address")
  else
    modify (λ s, set_connection (connected s) (Some addr) (last_success s) s) ;;;
    n <- gets net ;;
    match prioritize_server_login_params n login_params with
    | Err e => fail e
    | Ok lps => try_servers addr None lps
    end.

(** [Smtp::connect_configured]. *)
Definition connect_configured : S unit :=
  modify (λ s, if has_maybe_stale_connection s then disconnect s else s) ;;;
  is_connected <- gets connected ;;
  if is_connected : bool then ret tt
  else
    n <- gets net ;;
    match configured_login n with
    | Err e => fail e
    | Ok (addr, lps) => connect addr lps
    end.

(** [Smtp::send]. *)
Definition send (recipients : list str) (message : str) : St -> result unit send_error * St :=
  λ s,
    let s := if is_bot s then s else set_net (ratelimit_send (net s)) s in
    match envelope_error (smtp_from s) recipients with
    | Some e => (Err (Envelope e), s)
    | None =>
        if negb (connected s) then (Err NoTransport, s)
        else
          let '(r, n) := net_send (smtp_from s) recipients message (net s) in
          match r with
          | Ok _ =>
              let s := accept (recipients, message) (set_net n s) in
              (Ok tt, set_connection (connected s) (smtp_from s) (Some (net_now n)) s)
          | Err e => (Err (SmtpSend e), set_net n s)
          end
    end.

Definition send_error_text (e : send_error) : str :=
  match e with
  | Envelope t => lit "Envelope error: " ++ t
  | SmtpSend e => lit "Send error: " ++ smtp_error_text e
  | NoTransport => lit "SMTP has no transport"
  | Other t => t
  end.

(** ** Sending *)

(** A permanent error that is probably not one. *)
Definition maybe_transient (response : smtp_response) : bool :=
  (rs_category response =? MailSystem)%N && (rs_detail response =? Zero)%N
  && bool_decide (rs_first_word response = Some (lit "5.5.0")).

(** The status of a failed attempt, and whether the connection is closed. *)
Definition send_status (e : send_error) : SendResult * bool :=
  match e with
  | SmtpSend err =>
      (match err with
       | Permanent response =>
           if maybe_transient response then Retry
           else Failure (lit "Permanent SMTP error: " ++ smtp_error_text err)
       | Transient _ => Retry
       | OtherSmtp _ => Retry
       end, true)
  | Envelope err => (Failure err, true)
  | NoTransport => (Failure (lit "SMTP has not transport"), false)
  | Other err => (Failure err, true)
  end.

(** Marking a message that could not be sent; errors are only logged. *)
Definition mark_failed (status : SendResult) (msg_id : option MsgId) (s : St) : St :=
  match status, msg_id with
  | Failure err, Some id =>
      match load_from_db id (mdb s) with
      | Some msg => upd_mdb (λ d, (set_msg_failed msg err d).2) s
      | None => s
      end
  | _, _ => s
  end.

(** [smtp_send]. *)
Definition smtp_send (recipients : list str) (message : str) (msg_id : option MsgId) (s : St)
  : SendResult * St :=
  if bool_decide (recipients = []) then (Success, s)
  else
    match connect_configured s with
    | (Err err, s) => (Retry, set_last_send_error (Some err) s)
    | (Ok _, s) =>
        let '(send_result, s) := send recipients message s in
        match send_result with
        | Ok _ => (Success, set_last_send_error None s)
        | Err e =>
            let s := set_last_send_error (Some (send_error_text e)) s in
            let '(status, close) := send_status e in
            let s := if close then disconnect s else s in
            (status, mark_failed status msg_id s)
        end
    end.

Definition delete_job (rowid : Z) : St -> St := upd_smtp (base.filter (λ j, j_id j ≠ rowid)).

Definition count_retry (rowid : Z) : St -> St :=
  upd_smtp (fmap (λ j, if bool_decide (j_id j = rowid)
    then {| j_id := j_id j; j_mime := j_mime j; j_msg_id := j_msg_id j;
            j_recipients := j_recipients j; j_retries := j_retries j + 1 |} else j)).

Definition find_job (rowid : Z) (s : St) : option smtp_job :=
  head (base.filter (λ j, j_id j = rowid) (smtp s)).

(** The recipients of a job with a valid address. *)
Definition job_recipients (j : smtp_job) : list str :=
  base.filter (λ a, valid_addr a = true) (split_char SP (j_recipients j)).

(** [Message::load_from_db_optional]; the error is a reserved identifier. *)
Definition load_from_db_optional (id : MsgId) (d : MsgDb) : result (option Message) str :=
  if (id <=? 9)%N then Err (lit "Can not load special message ID") else Ok (load_from_db id d).

Definition lift_msg {A : Type} (x : SE MsgDb str A) : S A :=
  λ s, let '(r, d) := x (mdb s) in (r, upd_mdb (λ _, d) s).

(** [msg_has_pending_smtp_job]. *)
Definition msg_has_pending_smtp_job (msg_id : MsgId) (s : St) : bool :=
  existsb (λ j, (j_msg_id j =? msg_id)%N) (smtp s).

(** The info message shown when a server refuses unencrypted mail. *)
Definition unencrypted_info (err : str) (msg_id : MsgId) : S unit :=
  when (contains (lit "invalid unencrypted mail") (ob_lowercase err))
    (row <- gets (λ s, msgs (mdb s) !! msg_id) ;;
     match row with
     | Some r => lift_msg (add_unencrypted_info (m_chat_id r) (m_timestamp r))
     | None => ret tt
     end).

(** The part of [send_msg_to_smtp] after an attempt. *)
Definition settle_job (rowid : Z) (msg_id : MsgId) (status : SendResult) : S unit :=
  match status with
  | Retry => fail (lit "Retry")
  | Success =>
      modify (delete_job rowid) ;;;
      pending <- gets (msg_has_pending_smtp_job msg_id) ;;
      when (negb pending) (modify (upd_mdb (λ d, (set_delivered msg_id d).2)))
  | Failure err =>
      unencrypted_info err msg_id ;;;
      modify (delete_job rowid) ;;;
      fail err
  end.

(** Giving up: the job is removed and the message marked as failed. *)
Definition abandon_job (rowid : Z) (msg_id : MsgId) : S unit :=
  modify (delete_job rowid) ;;;
  d <- gets mdb ;;
  match load_from_db_optional msg_id d with
  | Err e => fail e
  | Ok None => ret tt
  | Ok (Some msg) =>
      modify (upd_mdb (λ d, (set_msg_failed msg (lit "Number of retries exceeded the limit.") d).2))
  end.

(** [send_msg_to_smtp]. *)
Definition send_msg_to_smtp (rowid : Z) : S unit :=
  (λ s, match connect_configured s with
        | (Err err, s) => (Err err, set_last_send_error (Some err) s)
        | (Ok _, s) => (Ok tt, s)
        end) ;;;
  modify (count_retry rowid) ;;;
  job <- gets (find_job rowid) ;;
  match job with
  | None => ret tt
  | Some j =>
      if (6 <? j_retries j)%Z then abandon_job rowid (j_msg_id j)
      else
        status <- (λ s, let '(st, s) := smtp_send (job_recipients j) (j_mime j) (Some (j_msg_id j)) s in
                        (Ok st, s)) ;;
        settle_job rowid (j_msg_id j) status
  end.

(** ** Read receipts *)

(** [add_self_recipients]. *)
Definition add_self_recipients (recipients : list str) (encrypted : bool) : S (list str) :=
  let recipients := recipients ++ if encrypted then published_secondary_self_addrs else [] in
  match primary_self_addr with
  | Ok from => ret (recipients ++ [from])
  | Err e => fail e
  end.

(** [insert_tombstone]. *)
Definition tombstone_row (mid : str) : msg_row :=
  {| m_rfc724_mid := mid; m_pre_rfc724_mid := []; m_chat_id := DC_CHAT_ID_TRASH; m_from_id := 0;
     m_timestamp := 0; m_timestamp_rcvd := 0; m_type := Viewtype.Unknown;
     m_state := MessageState.Undefined; m_hidden := false; m_param := []; m_location_id := 0;
     m_error := []; m_ephemeral_timer := 0; m_ephemeral_timestamp := 0;
     m_download_state := DownloadState.Done; m_deleted := false |}.

Definition insert_tombstone (mid : str) (d : MsgDb) : MsgDb :=
  let id := (last_msg_id d + 1)%N in set_last_msg_id id (set_msgs (<[id := tombstone_row mid]>) d).

Definition delete_mdns (mid : str) : list mdn_job -> list mdn_job :=
  base.filter (λ q, q_rfc724_mid q ≠ mid).

(** The other receipts for the contact. *)
Definition additional_mids (contact_id : ContactId) (mid : str) (s : St) : list str :=
  q_rfc724_mid <$> base.filter (λ q, q_from_id q = contact_id ∧ q_rfc724_mid q ≠ mid) (smtp_mdns_rows s).

(** [send_mdn_rfc724_mid]. *)
Definition send_mdn_rfc724_mid (mid : str) (contact_id : ContactId) : S bool :=
  match contact_by_id contact_id with
  | None => fail (lit "contact not found")
  | Some (_, true) => fail (lit "Contact is blocked")
  | Some (addr, false) =>
      additional <- gets (additional_mids contact_id mid) ;;
      match render_mdn contact_id mid additional with
      | Err e => fail e
      | Ok (encrypted, rendered_mid, body) =>
          let recipients := if (contact_id =? SELF)%N then [] else [addr] in
          bcc <- gets (λ s, bcc_self (mdb s)) ;;
          recipients <- (if bcc : bool then add_self_recipients recipients encrypted
                         else ret recipients) ;;
          let recipients := base.filter (λ a, valid_addr a = true) recipients in
          modify (upd_mdb (insert_tombstone rendered_mid)) ;;;
          status <- (λ s, let '(st, s) := smtp_send recipients body None s in (Ok st, s)) ;;
          match status with
          | Success =>
              modify (upd_mdn_rows (λ l, foldl (λ l m, delete_mdns m l) (delete_mdns mid l) additional)) ;;;
              ret true
          | Retry => ret false
          | Failure err => fail err
          end
      end
  end.

Definition retries_le (x y : mdn_job) : Prop := (q_retries x <= q_retries y)%Z.
#[global] Instance retries_le_dec x y : Decision (retries_le x y) := Z.le_dec _ _.

(** [ORDER BY retries LIMIT 1]. *)
Definition next_mdn (s : St) : option mdn_job := head (merge_sort retries_le (smtp_mdns_rows s)).

Definition count_mdn_retry (mid : str) : list mdn_job -> list mdn_job :=
  fmap (λ q, if bool_decide (q_rfc724_mid q = mid)
    then {| q_rfc724_mid := q_rfc724_mid q; q_from_id := q_from_id q; q_retries := q_retries q + 1 |}
    else q).

(** [send_mdn]. *)
Definition send_mdn : S bool :=
  should_send <- gets (λ s, mdns_enabled (mdb s)) ;;
  if negb should_send then modify (upd_mdn_rows (λ _, [])) ;;; ret false
  else
    modify (upd_mdn_rows (base.filter (λ q, (q_retries q <= 6)%Z))) ;;;
    row <- gets next_mdn ;;
    match row with
    | None => ret false
    | Some q =>
        let mid := q_rfc724_mid q in
        modify (upd_mdn_rows (count_mdn_retry mid)) ;;;
        res <- (λ s, let '(r, s) := send_mdn_rfc724_mid mid (q_from_id q) s in (Ok r, s)) ;;
        match res with
        | Err e => modify (upd_mdn_rows (delete_mdns mid)) ;;; fail e
        | Ok false => fail (lit "Temporary error while sending an MDN")
        | Ok true => ret true
        end
    end.

(** [send_mdns]; [None] when [fuel] does not suffice. *)
Fixpoint send_mdns (fuel : nat) : S (option unit) :=
  match fuel with
  | O => ret None
  | Datatypes.S fuel =>
      allowed <- gets (λ s, ratelimit_can_send (net s)) ;;
      if negb allowed then ret (Some tt)
      else
        more_mdns <- send_mdn ;;
        if more_mdns : bool then send_mdns fuel else ret (Some tt)
  end.

(** ** Working off the queues *)

(** [SELECT id FROM smtp ORDER BY id ASC]. *)
Definition queued_rowids (s : St) : list Z := merge_sort Z.le (j_id <$> smtp s).

(** [send_smtp_messages]. *)
Definition send_smtp_messages (fuel : nat) : S (option unit) :=
  allowed <- gets (λ s, ratelimit_can_send (net s)) ;;
  (if allowed : bool then enqueue_updates else ret tt) ;;;
  rowids <- gets queued_rowids ;;
  for_each rowids send_msg_to_smtp ;;;
  if allowed : bool then send_mdns fuel else ret (Some tt).
End Smtp.
