(* ===== verification/SmtpQueue.v ===== *)
(** SmtpQueue: no message leaves the queue unnoticed, the queue is worked off in order, and sending
    read receipts ends (about the model of Smtp). *)
From stdpp Require Import sorting.
From S2P Require Import Prelude Monad Ids Params MsgTable MsgState Smtp.

(** The info message only adds rows to the table of messages. *)
Class OutboxOk (Net : Type) `{!Outbox Net} : Prop := {
  info_adds chat_id ts d id r :
    msgs d !! id = Some r → msgs (add_unencrypted_info (Net := Net) chat_id ts d).2 !! id = Some r
}.

Ltac run_se_all H :=
  unfold when, ok_or, bind, ret, fail, gets, modify in H; cbv beta iota zeta in H; simpl in H.

Section Queue.
Context {Net : Type} `{SV : !SmtpServer Net} `{OB : !Outbox Net} `{OK : !OutboxOk Net}.
Local Abbreviation St := (SmtpState Net).
Implicit Types s : St.

(** Steps that leave queue, messages and receipts alone. *)
Record wire_only (s s' : St) : Prop := {
  wo_mdb : mdb s' = mdb s;
  wo_smtp : smtp s' = smtp s;
  wo_mdns : smtp_mdns_rows s' = smtp_mdns_rows s
}.

Lemma wire_only_refl s : wire_only s s.
Proof. done. Qed.

Lemma wire_only_trans s s' s'' : wire_only s s' → wire_only s' s'' → wire_only s s''.
Proof. intros [? ? ?] [? ? ?]. split; congruence. Qed.

Lemma disconnect_wire s : wire_only s (disconnect s) ∧ accepted (disconnect s) = accepted s.
Proof. unfold disconnect. by destruct (connected s). Qed.

Lemma try_servers_wire addr e lps s r s' :
  try_servers addr e lps s = (r, s') → wire_only s s' ∧ accepted s' = accepted s.
Proof.
  revert e s. induction lps as [|lp lps IH]; intros e s H; simpl in H.
  { unfold fail in H. by simplify_eq. }
  destruct (connect_and_auth addr lp (net s)) as [[[]|err] n]; [by simplify_eq|].
  apply IH in H as [[W1 W2 W3] W4]. split; [by split|done].
Qed.

Lemma connect_wire s r s' :
  connect_configured s = (r, s') → wire_only s s' ∧ accepted s' = accepted s.
Proof.
  unfold connect_configured, connect. run_se. intros H.
  set (s1 := if has_maybe_stale_connection s then disconnect s else s) in H.
  assert (wire_only s s1 ∧ accepted s1 = accepted s) as [H1 H2]
    by (unfold s1; destruct (has_maybe_stale_connection s); [apply disconnect_wire|done]).
  destruct (connected s1) eqn:Ec; [by simplify_eq|].
  destruct (configured_login (net s1)) as [[addr lps]|e]; [|by simplify_eq].
  rewrite Ec in H. destruct (valid_addr addr); simpl in H; [|by simplify_eq].
  destruct (prioritize_server_login_params _ lps) as [lps'|e]; [|simplify_eq; by destruct H1].
  apply try_servers_wire in H as [[W1 W2 W3] W4]. destruct H1 as [X1 X2 X3].
  simpl in *. split; [split; congruence|congruence].
Qed.

Lemma send_wire rcpts m s r s' :
  send rcpts m s = (r, s') →
  wire_only s s' ∧ accepted s' = accepted s ++ match r with Ok _ => [(rcpts, m)] | Err _ => [] end.
Proof.
  unfold send. intros H.
  set (s1 := if is_bot s then s else set_net (ratelimit_send (net s)) s) in H.
  assert (wire_only s s1 ∧ accepted s1 = accepted s) as [H1 H2] by (unfold s1; by destruct (is_bot s)).
  destruct (envelope_error (smtp_from s1) rcpts); [simplify_eq; by rewrite app_nil_r|].
  destruct (connected s1); simpl in H; [|simplify_eq; by rewrite app_nil_r].
  destruct (net_send _ _ _ _) as [[[]|e] n]; simplify_eq; simpl; rewrite H2, ?app_nil_r;
    (split; [|done]); destruct H1; by split.
Qed.

(** The message was marked as failed, as far as its state allows, or does not exist any more. *)
Definition failed_or_gone (id : MsgId) (d d' : MsgDb) : Prop :=
  load_from_db id d = None
  ∨ ∃ msg r', load_from_db id d = Some msg ∧ msgs d' !! id = Some r'
      ∧ m_state r' = if MessageState.can_fail (msg_state msg) then MessageState.OutFailed
                     else msg_state msg.

Lemma load_some id d msg :
  load_from_db id d = Some msg → msg_id msg = id ∧ is_Some (msgs d !! id).
Proof.
  unfold load_from_db. destruct (id <=? 9)%N; [done|]. destruct (msgs d !! id) as [r|] eqn:E; [|done].
  simpl. destruct (m_chat_id r =? DC_CHAT_ID_TRASH)%N; [done|]. intros [= <-]. eauto.
Qed.

Lemma set_msg_failed_spec id d msg err :
  load_from_db id d = Some msg → failed_or_gone id d (set_msg_failed msg err d).2.
Proof.
  intros H. right. destruct (load_some _ _ _ H) as [Hid [r Hr]].
  exists msg. unfold set_msg_failed. simpl. rewrite Hid, lookup_alter_eq, Hr. simpl. eauto.
Qed.

Lemma mark_failed_spec err id s :
  smtp (mark_failed (Failure err) (Some id) s) = smtp s
  ∧ accepted (mark_failed (Failure err) (Some id) s) = accepted s
  ∧ failed_or_gone id (mdb s) (mdb (mark_failed (Failure err) (Some id) s)).
Proof.
  unfold mark_failed. destruct (load_from_db id (mdb s)) as [msg|] eqn:E; split_and!; try done.
  - by apply set_msg_failed_spec.
  - by left.
Qed.

Lemma mark_failed_mdns st o s : smtp_mdns_rows (mark_failed st o s) = smtp_mdns_rows s.
Proof. unfold mark_failed. destruct st, o; try done. by destruct (load_from_db _ _). Qed.

Lemma smtp_send_spec rcpts m id s st s' :
  smtp_send rcpts m (Some id) s = (st, s') →
  smtp s' = smtp s ∧
  match st with
  | Success => mdb s' = mdb s ∧ ((accepted s' = accepted s ++ [(rcpts, m)]) ∨ (rcpts = [] ∧ accepted s' = accepted s))
  | Retry => mdb s' = mdb s ∧ accepted s' = accepted s
  | Failure _ => accepted s' = accepted s ∧ failed_or_gone id (mdb s) (mdb s')
  end.
Proof.
  unfold smtp_send. intros H. case_bool_decide as Hr; [simplify_eq; eauto|].
  destruct (connect_configured s) as [[[]|e] s1] eqn:Ec; apply connect_wire in Ec as [[W1 W2 W3] W4];
    [|by simplify_eq].
  destruct (send rcpts m s1) as [r s2] eqn:Es. apply send_wire in Es as [[X1 X2 X3] X4].
  destruct r as [[]|e].
  - simplify_eq. simpl. split; [congruence|]. split; [congruence|]. left. by rewrite X4, W4.
  - rewrite app_nil_r in X4. destruct (send_status e) as [st0 close] eqn:Est.
    set (s3 := set_last_send_error _ s2) in H.
    set (s4 := if close then disconnect s3 else s3) in H.
    assert (wire_only s3 s4 ∧ accepted s4 = accepted s3) as [[Y1 Y2 Y3] Y4]
      by (unfold s4; destruct close; [apply disconnect_wire|done]).
    simpl in Y1, Y2, Y4.
    destruct st0 as [|err|]; simplify_eq.
    + destruct e as [|[]| |]; simpl in Est; try done. by destruct (maybe_transient _).
    + destruct (mark_failed_spec err id s4) as (Z1 & Z2 & Z3).
      rewrite Z1, Z2. split; [congruence|]. split; [congruence|].
      by rewrite Y1, X1, W1 in Z3.
    + simpl. split; [congruence|]. split; congruence.
Qed.

Lemma smtp_send_mdns rcpts m o s st s' :
  smtp_send rcpts m o s = (st, s') → smtp_mdns_rows s' = smtp_mdns_rows s.
Proof.
  unfold smtp_send. intros H. case_bool_decide; [by simplify_eq|].
  destruct (connect_configured s) as [[[]|e] s1] eqn:Ec; apply connect_wire in Ec as [[W1 W2 W3] W4];
    [|by simplify_eq].
  destruct (send rcpts m s1) as [[[]|e] s2] eqn:Es; apply send_wire in Es as [[X1 X2 X3] _];
    [simplify_eq; simpl; congruence|].
  destruct (send_status e) as [st0 close]. simplify_eq. rewrite mark_failed_mdns.
  destruct close; [|simpl; congruence]. destruct (disconnect_wire (set_last_send_error
    (Some (send_error_text e)) s2)) as [[_ _ Y] _]. rewrite Y. simpl. congruence.
Qed.

(** ** One job *)

Definition retried (j : smtp_job) : smtp_job :=
  {| j_id := j_id j; j_mime := j_mime j; j_msg_id := j_msg_id j; j_recipients := j_recipients j;
     j_retries := j_retries j + 1 |}.

Definition others (rowid : Z) (s : St) : list smtp_job := base.filter (λ j, j_id j ≠ rowid) (smtp s).

Lemma find_job_Some rowid s j : find_job rowid s = Some j → j_id j = rowid ∧ j ∈ smtp s.
Proof.
  unfold find_job. destruct (base.filter _ (smtp s)) as [|x l] eqn:E; [done|]. intros [= ->].
  assert (j ∈ base.filter (λ j, j_id j = rowid) (smtp s)) as H by (rewrite E; by left).
  by apply list_elem_of_filter in H.
Qed.

Lemma find_counted rowid s j :
  find_job rowid s = Some j → find_job rowid (count_retry rowid s) = Some (retried j).
Proof.
  unfold find_job, count_retry. simpl. induction (smtp s) as [|x l IH]; [done|].
  rewrite fmap_cons, !filter_cons. case_bool_decide as Hx.
  - rewrite !decide_True by done. simpl. by intros [= ->].
  - rewrite !decide_False by done. apply IH.
Qed.

Lemma others_counted rowid s : others rowid (count_retry rowid s) = others rowid s.
Proof.
  unfold others, count_retry. simpl. induction (smtp s) as [|x l IH]; [done|].
  rewrite fmap_cons, !filter_cons, IH. case_bool_decide as Hx.
  - by rewrite !decide_False by (simpl; tauto).
  - by rewrite !decide_True by done.
Qed.

(** How an attempt to send a queued job ends. *)
Inductive job_outcome (rowid : Z) (j : smtp_job) (s : St) : result unit str -> St -> Prop :=
| no_connection e s' :
    wire_only s s' → accepted s' = accepted s → job_outcome rowid j s (Err e) s'
| kept e s' :
    (j_retries j < 6)%Z → smtp s' = smtp (count_retry rowid s) → accepted s' = accepted s →
    job_outcome rowid j s (Err e) s'
| sent s' :
    smtp s' = others rowid s →
    (accepted s' = accepted s ++ [(job_recipients j, j_mime j)]
     ∨ job_recipients j = [] ∧ accepted s' = accepted s) →
    mdb s' = (if existsb (λ k, (j_msg_id k =? j_msg_id j)%N) (others rowid s) then mdb s
              else (set_delivered (j_msg_id j) (mdb s)).2) →
    job_outcome rowid j s (Ok tt) s'
| dropped r s' :
    smtp s' = others rowid s → accepted s' = accepted s →
    failed_or_gone (j_msg_id j) (mdb s) (mdb s') → (r = Ok tt → 6 <= j_retries j)%Z →
    job_outcome rowid j s r s'.

Lemma failed_later id d d' d'' :
  failed_or_gone id d d' → (∀ k r, msgs d' !! k = Some r → msgs d'' !! k = Some r) →
  failed_or_gone id d d''.
Proof.
  intros [H|(msg & r & H1 & H2 & H3)] Hsub; [by left|right]. exists msg, r. split; [done|].
  split; [by apply Hsub|done].
Qed.

Lemma info_spec err id s r s' :
  unencrypted_info err id s = (r, s') →
  smtp s' = smtp s ∧ accepted s' = accepted s
  ∧ ∀ k row, msgs (mdb s) !! k = Some row → msgs (mdb s') !! k = Some row.
Proof.
  unfold unencrypted_info. destruct (contains _ _); simpl; [|by intros [= <- <-]].
  run_se. destruct (msgs (mdb s) !! id) as [row|]; [|by intros [= <- <-]].
  unfold lift_msg. pose proof (info_adds (m_chat_id row) (m_timestamp row) (mdb s)) as Hi.
  destruct (add_unencrypted_info _ _ (mdb s)) as [ri d]. intros [= <- <-]. simpl in *. eauto.
Qed.

Lemma settle_spec rowid j s0 s st r s' :
  smtp s = smtp (count_retry rowid s0) → (j_retries j < 6)%Z →
  match st with
  | Success => mdb s = mdb s0 ∧ (accepted s = accepted s0 ++ [(job_recipients j, j_mime j)]
                 ∨ job_recipients j = [] ∧ accepted s = accepted s0)
  | Retry => mdb s = mdb s0 ∧ accepted s = accepted s0
  | Failure _ => accepted s = accepted s0 ∧ failed_or_gone (j_msg_id j) (mdb s0) (mdb s)
  end →
  settle_job rowid (j_msg_id j) st s = (r, s') → job_outcome rowid j s0 r s'.
Proof.
  intros Hsm Hret Hst H.
  assert (base.filter (λ k, j_id k ≠ rowid) (smtp s) = others rowid s0) as Ho
    by (rewrite Hsm; apply others_counted).
  destruct st as [|err|]; simpl in H.
  - destruct Hst as [Hm Ha]. run_se_all H. unfold msg_has_pending_smtp_job in H. simpl in H.
    rewrite Ho in H. destruct (existsb _ (others rowid s0)) eqn:Ep; simpl in H; simplify_eq;
      (apply sent; simpl; [done|done|by rewrite Ep, ?Hm]).
  - destruct Hst as [Ha Hf]. unfold bind at 1 in H.
    destruct (unencrypted_info err (j_msg_id j) s) as [ri s1] eqn:Ei.
    apply info_spec in Ei as (H1 & H2 & H3). destruct ri as [[]|e].
    + run_se_all H. simplify_eq. apply dropped; simpl; [by rewrite H1|congruence| |done].
      by eapply failed_later.
    + simplify_eq. apply kept; [done|congruence|congruence].
  - unfold fail in H. simplify_eq. apply kept; [done|done|apply Hst].
Qed.

Lemma abandon_job_spec rowid j s0 s r s' :
  smtp s = smtp (count_retry rowid s0) → mdb s = mdb s0 → accepted s = accepted s0 →
  (6 <= j_retries j)%Z → abandon_job rowid (j_msg_id j) s = (r, s') → job_outcome rowid j s0 r s'.
Proof.
  intros Hsm Hm Ha H6 H. unfold abandon_job, load_from_db_optional in H. run_se_all H.
  assert (base.filter (λ k, j_id k ≠ rowid) (smtp s) = others rowid s0) as Ho
    by (rewrite Hsm; apply others_counted).
  destruct (j_msg_id j <=? 9)%N eqn:E9.
  - simplify_eq. apply dropped; [done|done| |done]. left. unfold load_from_db. by rewrite E9.
  - destruct (load_from_db (j_msg_id j) (mdb s)) as [msg|] eqn:El; simplify_eq;
      (apply dropped; [done|done| |done]); simpl; rewrite Hm in *.
    + by apply set_msg_failed_spec.
    + by left.
Qed.

Lemma send_job_outcome rowid j s r s' :
  find_job rowid s = Some j → send_msg_to_smtp rowid s = (r, s') → job_outcome rowid j s r s'.
Proof.
  intros Hj H. unfold send_msg_to_smtp in H. unfold bind at 1 in H.
  destruct (connect_configured s) as [[[]|e] s1] eqn:Ec; apply connect_wire in Ec as [[W1 W2 W3] W4].
  2: { simplify_eq. by apply no_connection; [split|]. }
  unfold bind at 1, modify at 1, bind at 1, gets at 1 in H.
  assert (find_job rowid s1 = Some j) as Hj1 by (unfold find_job in *; by rewrite W2).
  rewrite (find_counted _ _ _ Hj1) in H. cbn [retried j_retries j_msg_id j_mime] in H.
  assert (smtp (count_retry rowid s1) = smtp (count_retry rowid s)) as Hc
    by (unfold count_retry; simpl; by rewrite W2).
  destruct (6 <? j_retries j + 1)%Z eqn:E6.
  - apply Z.ltb_lt in E6. apply (abandon_job_spec rowid j s (count_retry rowid s1)); [done|done|done|lia|done].
  - apply Z.ltb_ge in E6. unfold bind in H.
    change (job_recipients (retried j)) with (job_recipients j) in H.
    destruct (smtp_send _ _ _ _) as [st s2] eqn:Es. apply smtp_send_spec in Es as [H1 H2].
    simpl in H2. rewrite W1, W4 in H2.
    apply (settle_spec rowid j s s2 st); [congruence|lia|done|done].
Qed.

(** ** The queue *)

Definition jobs_of (id : Z) (s : St) : list smtp_job := base.filter (λ j, j_id j = id) (smtp s).

Lemma filter_filter_id (id rowid : Z) (l : list smtp_job) :
  id ≠ rowid →
  base.filter (λ j, j_id j = id) (base.filter (λ j, j_id j ≠ rowid) l) = base.filter (λ j, j_id j = id) l.
Proof.
  intros Hne. induction l as [|x l IH]; [done|]. rewrite (filter_cons _ x l).
  destruct (decide (j_id x ≠ rowid)) as [Hx|Hx]; rewrite !filter_cons, ?IH.
  - done.
  - rewrite decide_False; [done|]. intros E. apply Hx. congruence.
Qed.

Lemma counted_other id rowid s : id ≠ rowid → jobs_of id (count_retry rowid s) = jobs_of id s.
Proof.
  intros Hne. unfold jobs_of, count_retry. simpl. induction (smtp s) as [|x l IH]; [done|].
  rewrite fmap_cons, !filter_cons, IH. case_bool_decide as Hx; [|done].
  rewrite !decide_False by (simpl; congruence). done.
Qed.

Definition mail_of (j : smtp_job) : list str * str := (job_recipients j, j_mime j).

(** The mails of queued jobs, in the order of the given row numbers. *)
Definition mails_of (ids : list Z) (s : St) : list (list str * str) :=
  concat (map (λ id, mail_of <$> option_list (find_job id s)) ids).

Lemma mails_of_ext ids s s' :
  (∀ id, id ∈ ids → jobs_of id s' = jobs_of id s) → mails_of ids s' = mails_of ids s.
Proof.
  intros H. unfold mails_of. f_equal. apply map_ext_in. intros id Hid.
  assert (jobs_of id s' = jobs_of id s) as E by (apply H; by apply list_elem_of_In).
  unfold find_job, jobs_of in *. by rewrite E.
Qed.

(** What a step of the loop over the queue does: it sends at most its own mail and leaves other
    jobs alone. *)
Lemma send_step rowid s r s' :
  send_msg_to_smtp rowid s = (r, s') →
  (∀ id, id ≠ rowid → jobs_of id s' = jobs_of id s)
  ∧ ∃ mails, accepted s' = accepted s ++ mails ∧ mails `sublist_of` (mail_of <$> option_list (find_job rowid s)).
Proof.
  intros H. destruct (find_job rowid s) as [j|] eqn:Ej.
  - destruct (send_job_outcome _ _ _ _ _ Ej H) as [e s1 [_ W _] Ha|e s1 _ Hs Ha|s1 Hs Ha _|r1 s1 Hs Ha _ _].
    + split; [intros id _; unfold jobs_of; by rewrite W|]. exists []. rewrite app_nil_r.
      split; [done|apply sublist_nil_l].
    + split; [intros id Hid; unfold jobs_of; rewrite Hs; by apply counted_other|].
      exists []. rewrite app_nil_r. split; [done|apply sublist_nil_l].
    + split; [intros id Hid; unfold jobs_of; rewrite Hs; by apply filter_filter_id|].
      destruct Ha as [Ha|[_ Ha]]; [by exists [mail_of j]|]. exists []. rewrite app_nil_r.
      split; [done|apply sublist_nil_l].
    + split; [intros id Hid; unfold jobs_of; rewrite Hs; by apply filter_filter_id|].
      exists []. rewrite app_nil_r. split; [done|apply sublist_nil_l].
  - unfold send_msg_to_smtp in H. unfold bind at 1 in H.
    destruct (connect_configured s) as [[[]|e] s1] eqn:Ec; apply connect_wire in Ec as [[_ W _] Ha].
    + unfold bind, modify, gets in H. assert (find_job rowid (count_retry rowid s1) = None) as En.
      { unfold find_job, count_retry in *. simpl. rewrite W. revert Ej. clear.
        induction (smtp s) as [|x l IH]; [done|]. rewrite fmap_cons, !filter_cons.
        case_bool_decide as Hx; [rewrite !decide_True by done; done|].
        rewrite !decide_False by done. apply IH. }
      rewrite En in H. unfold ret in H. simplify_eq. split.
      * intros id Hid. rewrite counted_other by done. unfold jobs_of. by rewrite W.
      * exists []. rewrite app_nil_r. split; [done|constructor].
    + simplify_eq. split; [intros id _; unfold jobs_of; simpl; by rewrite W|].
      exists []. rewrite app_nil_r. split; [done|constructor].
Qed.

Lemma queue_run ids s r s' :
  NoDup ids → for_each ids send_msg_to_smtp s = (r, s') →
  ∃ finished rest mails, ids = finished ++ rest ∧ (r = Ok tt → rest = [])
    ∧ accepted s' = accepted s ++ mails
    ∧ mails `sublist_of` mails_of finished s
    ∧ (∀ id, id ∉ finished → jobs_of id s' = jobs_of id s).
Proof.
  intros Hnd. revert s. induction Hnd as [|id ids Hid Hnd IH]; intros s H; simpl in H.
  { unfold ret in H. simplify_eq. exists [], [], []. split_and!; by rewrite ?app_nil_r. }
  unfold bind in H. destruct (send_msg_to_smtp id s) as [r1 s1] eqn:E.
  apply send_step in E as [Hoth (mails & Hacc & Hsub)]. destruct r1 as [[]|e].
  - apply IH in H as (fin & rest & mails' & -> & Hr & Hacc' & Hsub' & Hoth').
    exists (id :: fin), rest, (mails ++ mails'). split; [done|]. split; [done|].
    split; [by rewrite Hacc', Hacc, app_assoc|]. split.
    + change (mails_of (id :: fin) s) with ((mail_of <$> option_list (find_job id s)) ++ mails_of fin s).
      apply sublist_app; [done|]. rewrite <-(mails_of_ext fin s s1); [done|].
      intros x Hx. apply Hoth. intros ->. apply Hid. apply elem_of_app. by left.
    + intros k Hk. rewrite Hoth' by (intros ?; apply Hk; by right). apply Hoth. intros ->. apply Hk. by left.
  - simplify_eq. exists [id], ids, mails. split; [done|]. split; [done|]. split; [done|].
    split; [unfold mails_of; simpl; by rewrite app_nil_r|]. intros k Hk. apply Hoth. intros ->. apply Hk. by left.
Qed.

(** ** Read receipts *)

(** Sending a receipt only adds to what the server took over. *)
Definition appends (s s' : St) : Prop := smtp s' = smtp s ∧ ∃ l, accepted s' = accepted s ++ l.

Lemma appends_refl s : appends s s.
Proof. split; [done|]. exists []. by rewrite app_nil_r. Qed.

Lemma appends_trans s s' s'' : appends s s' → appends s' s'' → appends s s''.
Proof.
  intros [H1 [l H2]] [H3 [l' H4]]. split; [congruence|]. exists (l ++ l').
  by rewrite H4, H2, app_assoc.
Qed.

Definition appending {A} (x : SE St str A) : Prop := ∀ s, appends s (x s).2.

Lemma appending_bind {A B} (x : SE St str A) (f : A -> SE St str B) :
  appending x → (∀ a, appending (f a)) → appending (bind x f).
Proof.
  intros Hx Hf s. unfold bind. specialize (Hx s). destruct (x s) as [[a|e] s1]; [|done].
  eapply appends_trans; [done|apply Hf].
Qed.

Lemma appending_ret {A} (a : A) : appending (ret a).
Proof. intros s. apply appends_refl. Qed.
Lemma appending_fail {A} e : appending (fail e : SE St str A).
Proof. intros s. apply appends_refl. Qed.
Lemma appending_gets {A} (f : St -> A) : appending (gets f).
Proof. intros s. apply appends_refl. Qed.
Lemma appending_mdns f : appending (modify (upd_mdn_rows f)).
Proof. intros s. split; [done|]. exists []. by rewrite app_nil_r. Qed.
Lemma appending_mdb f : appending (modify (upd_mdb f)).
Proof. intros s. split; [done|]. exists []. by rewrite app_nil_r. Qed.

Lemma appending_send rcpts m :
  appending (λ s, let '(st, s) := smtp_send rcpts m None s in (Ok st, s)).
Proof.
  intros s. unfold smtp_send. case_bool_decide; [apply appends_refl|].
  destruct (connect_configured s) as [[[]|e] s1] eqn:Ec; apply connect_wire in Ec as [[_ W _] Ha].
  2: { split; [done|]. exists []. by rewrite app_nil_r. }
  destruct (send rcpts m s1) as [r s2] eqn:Es. apply send_wire in Es as [[_ X _] X4].
  assert (appends s s2) as Hs by (split; [congruence|rewrite X4, Ha; eauto]).
  destruct r as [[]|e]; [done|]. destruct (send_status e) as [st close].
  assert (mark_failed st None = id) as -> by (by destruct st).
  destruct close; [|done]. simpl. destruct (disconnect_wire (set_last_send_error
    (Some (send_error_text e)) s2)) as [[_ Y _] Y2]. destruct Hs as [H1 [l H2]].
  split; [by rewrite Y|]. exists l. by rewrite Y2.
Qed.

Lemma appending_mdn mid c : appending (send_mdn_rfc724_mid mid c).
Proof.
  unfold send_mdn_rfc724_mid. destruct (contact_by_id c) as [[addr []]|]; try apply appending_fail.
  apply appending_bind; [apply appending_gets|intros add].
  destruct (render_mdn c mid add) as [[[enc rmid] body]|e]; [|apply appending_fail].
  apply appending_bind; [apply appending_gets|intros bcc].
  apply appending_bind.
  { destruct bcc; [|apply appending_ret]. unfold add_self_recipients.
    destruct primary_self_addr; [apply appending_ret|apply appending_fail]. }
  intros rc. apply appending_bind; [apply appending_mdb|intros _].
  apply appending_bind; [apply appending_send|intros st].
  destruct st; [|apply appending_fail|apply appending_ret].
  apply appending_bind; [apply appending_mdns|intros _; apply appending_ret].
Qed.

Lemma appending_send_mdn : appending send_mdn.
Proof.
  unfold send_mdn. apply appending_bind; [apply appending_gets|intros b]. destruct (negb b).
  { apply appending_bind; [apply appending_mdns|intros _; apply appending_ret]. }
  apply appending_bind; [apply appending_mdns|intros _].
  apply appending_bind; [apply appending_gets|intros q]. destruct q as [q|]; [|apply appending_ret].
  apply appending_bind; [apply appending_mdns|intros _]. apply appending_bind.
  - intros s. pose proof (appending_mdn (q_rfc724_mid q) (q_from_id q) s) as H.
    by destruct (send_mdn_rfc724_mid _ _ s).
  - intros [[]|e]; [apply appending_ret|apply appending_fail|].
    apply appending_bind; [apply appending_mdns|intros _; apply appending_fail].
Qed.

Lemma appending_send_mdns fuel : appending (send_mdns fuel).
Proof.
  induction fuel as [|fuel IH]; simpl; [apply appending_ret|].
  apply appending_bind; [apply appending_gets|intros b]. destruct (negb b); [apply appending_ret|].
  apply appending_bind; [apply appending_send_mdn|intros more].
  destruct more; [apply IH|apply appending_ret].
Qed.

Lemma mdn_sent_deletes mid c s s' :
  send_mdn_rfc724_mid mid c s = (Ok true, s') →
  (length (smtp_mdns_rows s') <= length (delete_mdns mid (smtp_mdns_rows s)))%nat.
Proof.
  intros H. unfold send_mdn_rfc724_mid in H. destruct (contact_by_id c) as [[addr []]|]; [done| |done].
  unfold bind at 1, gets at 1 in H. set (add := additional_mids c mid s) in H.
  destruct (render_mdn c mid add) as [[[enc rmid] body]|e]; [|done].
  unfold bind at 1, gets at 1, bind at 1 in H.
  match type of H with context [match ?x s with _ => _ end] =>
    destruct (x s) as [[rc|e] s1] eqn:Er; [|done] end.
  assert (s1 = s) as ->.
  { revert Er. destruct (bcc_self (mdb s)); [|by intros [= _ ->]]. unfold add_self_recipients.
    destruct primary_self_addr; [by intros [= _ ->]|done]. }
  unfold bind at 1, modify at 1, bind at 1 in H.
  destruct (smtp_send _ body None _) as [st s2] eqn:Es. apply smtp_send_mdns in Es. simpl in Es.
  destruct st; [|done|done]. unfold bind, modify, ret in H. simplify_eq. simpl. rewrite Es.
  clear. revert add. generalize (delete_mdns mid (smtp_mdns_rows s)). intros l add. revert l.
  induction add as [|m add IH]; intros l; [done|]. simpl. etrans; [apply IH|]. apply length_filter.
Qed.

Lemma filter_strict {A : Type} (P : A -> Prop) `{∀ x, Decision (P x)} x (l : list A) :
  x ∈ l → ¬ P x → (length (base.filter P l) < length l)%nat.
Proof.
  intros Hx Hp. induction Hx as [x l|x y l Hx IH]; rewrite filter_cons.
  - rewrite decide_False by done. simpl. pose proof (length_filter P l). lia.
  - destruct (decide (P y)); simpl; specialize (IH Hp); lia.
Qed.

(** A receipt that was sent is removed from the queue. *)
Lemma send_mdn_shrinks s s' :
  send_mdn s = (Ok true, s') → (length (smtp_mdns_rows s') < length (smtp_mdns_rows s))%nat.
Proof.
  intros H. unfold send_mdn in H. unfold bind at 1, gets at 1 in H.
  destruct (mdns_enabled (mdb s)); simpl in H; [|done].
  unfold bind at 1, modify at 1, bind at 1, gets at 1 in H.
  set (s1 := upd_mdn_rows _ s) in H. destruct (next_mdn s1) as [q|] eqn:Eq; [|done].
  unfold bind at 1, modify at 1 in H. set (mid := q_rfc724_mid q) in *.
  set (s2 := upd_mdn_rows (count_mdn_retry mid) s1) in H.
  assert (q ∈ smtp_mdns_rows s1) as Hq.
  { unfold next_mdn in Eq. rewrite <-(merge_sort_Permutation retries_le).
    destruct (merge_sort retries_le (smtp_mdns_rows s1)); [done|]. injection Eq as ->. by left. }
  unfold bind in H. destruct (send_mdn_rfc724_mid mid (q_from_id q) s2) as [[[]|e] s3] eqn:Es; [|done|done].
  unfold ret in H. simplify_eq.
  assert (length (smtp_mdns_rows s') <= length (delete_mdns mid (smtp_mdns_rows s2)))%nat as Hle
    by (by apply (mdn_sent_deletes mid (q_from_id q))).
  assert (length (delete_mdns mid (smtp_mdns_rows s2)) < length (smtp_mdns_rows s2))%nat as Hlt.
  { apply (filter_strict (λ q, q_rfc724_mid q ≠ mid)
      {| q_rfc724_mid := mid; q_from_id := q_from_id q; q_retries := q_retries q + 1 |}); [|simpl; tauto].
    unfold s2, count_mdn_retry. simpl. apply list_elem_of_fmap. exists q. split; [|done].
    by rewrite bool_decide_eq_true_2. }
  assert (length (smtp_mdns_rows s2) = length (smtp_mdns_rows s1)) as H21
    by (unfold s2, count_mdn_retry; simpl; by rewrite length_fmap).
  assert (length (smtp_mdns_rows s1) <= length (smtp_mdns_rows s))%nat
    by (unfold s1; simpl; apply length_filter). lia.
Qed.

Lemma send_mdns_end fuel s :
  (length (smtp_mdns_rows s) < fuel)%nat → (send_mdns fuel s).1 ≠ Ok None.
Proof.
  revert s. induction fuel as [|fuel IH]; intros s Hf; [lia|]. simpl. unfold bind at 1, gets at 1.
  destruct (ratelimit_can_send (net s)); simpl; [|done]. unfold bind.
  destruct (send_mdn s) as [[[]|e] s1] eqn:E; [|done|done]. apply send_mdn_shrinks in E.
  apply IH. lia.
Qed.
Lemma send_mdns_more fuel k s :
  (send_mdns fuel s).1 ≠ Ok None → send_mdns (fuel + k) s = send_mdns fuel s.
Proof.
  revert s. induction fuel as [|fuel IH]; intros s; simpl; [done|]. unfold bind at 1 3 5, gets at 1 2 3.
  destruct (ratelimit_can_send (net s)); simpl; [|done]. unfold bind.
  destruct (send_mdn s) as [[[]|e] s1]; [|done|done]. apply IH.
Qed.

Lemma find_deleted rowid s s' : smtp s' = others rowid s → find_job rowid s' = None.
Proof.
  intros H. unfold find_job. rewrite H. unfold others. induction (smtp s) as [|x l IH]; [done|].
  rewrite filter_cons. destruct (decide (j_id x ≠ rowid)) as [Hx|Hx]; [|done].
  by rewrite filter_cons, decide_False.
Qed.

(** C23. A queued message is never lost silently: after an attempt to send it, its job is still
    queued, unchanged or with one more retry counted (at most six in all) and nothing was sent; or
    the job is removed and the server took the mail over, for the valid recipients of the job; or it
    is removed because it has no valid recipient; or it is removed and nothing was sent, and then the
    message was marked as failed as far as its state allows, unless it does not exist any more. *)
Theorem no_message_lost_silently rowid j s r s' :
  find_job rowid s = Some j → send_msg_to_smtp rowid s = (r, s') →
  (find_job rowid s' = Some j ∧ accepted s' = accepted s)
  ∨ (find_job rowid s' = Some (retried j) ∧ (j_retries (retried j) <= 6)%Z ∧ accepted s' = accepted s)
  ∨ (find_job rowid s' = None ∧ accepted s' = accepted s ++ [mail_of j])
  ∨ (find_job rowid s' = None ∧ accepted s' = accepted s ∧ job_recipients j = [])
  ∨ (find_job rowid s' = None ∧ accepted s' = accepted s ∧ failed_or_gone (j_msg_id j) (mdb s) (mdb s')).
Proof.
  intros Hj H. destruct (send_job_outcome _ _ _ _ _ Hj H) as [e s1 [_ W _] Ha|e s1 Hr Hs Ha|s1 Hs Ha _|r1 s1 Hs Ha Hf _].
  - left. unfold find_job in *. by rewrite W.
  - right; left. split; [|split; [simpl; lia|done]]. unfold find_job. rewrite Hs. by apply find_counted.
  - right; right. apply find_deleted in Hs. destruct Ha as [Ha|[Ha1 Ha2]]; [by left|]. right; left. done.
  - do 4 right. by apply find_deleted in Hs.
Qed.

(** A message becomes delivered only with its last mail: an attempt that removes a job and
    reports success marks the message as delivered exactly when no other job of the message is
    queued, and otherwise leaves the table of messages alone. *)
Theorem delivered_with_last_job rowid j s s' :
  find_job rowid s = Some j → (j_retries j < 6)%Z → send_msg_to_smtp rowid s = (Ok tt, s') →
  smtp s' = others rowid s
  ∧ mdb s' = (if existsb (λ k, (j_msg_id k =? j_msg_id j)%N) (others rowid s) then mdb s
              else (set_delivered (j_msg_id j) (mdb s)).2).
Proof.
  intros Hj H6 H. pose proof (send_job_outcome _ _ _ _ _ Hj H) as Ho.
  inversion Ho as [| |s1 Hs Ha Hm|r1 s1 Hs Ha Hf Hr]; subst; [done|]. specialize (Hr eq_refl). lia.
Qed.

(** The queue is worked off in the order of the row numbers, and it stops at the first mail that
    cannot be sent: the mails the server takes over are, in this order, mails of the jobs worked on,
    followed by read receipts; the jobs not worked on are left as they are; and if there are any, the
    call fails and no receipt was sent. *)
Theorem queue_worked_off_in_order fuel s s1 r s' :
  (if ratelimit_can_send (net s) then enqueue_updates else ret tt) s = (Ok tt, s1) →
  NoDup (j_id <$> smtp s1) →
  send_smtp_messages fuel s = (r, s') →
  ∃ finished rest mails receipts,
    queued_rowids s1 = finished ++ rest
    ∧ Sorted Z.le (finished ++ rest)
    ∧ accepted s' = accepted s1 ++ mails ++ receipts
    ∧ mails `sublist_of` mails_of finished s1
    ∧ (∀ id, id ∉ finished → jobs_of id s' = jobs_of id s1)
    ∧ (rest ≠ [] → receipts = [] ∧ ∃ e, r = Err e).
Proof.
  intros Hen Hnd H. unfold send_smtp_messages in H. unfold bind at 1, gets at 1, bind at 1 in H.
  rewrite Hen in H. unfold bind at 1, gets at 1, bind in H.
  destruct (for_each (queued_rowids s1) send_msg_to_smtp s1) as [r1 s2] eqn:Ef.
  apply queue_run in Ef as (fin & rest & mails & Hids & Hr & Hacc & Hsub & Hoth).
  2: { unfold queued_rowids. by rewrite merge_sort_Permutation. }
  assert (Sorted Z.le (fin ++ rest)) as Hsort by (rewrite <-Hids; apply (Sorted_merge_sort Z.le)).
  destruct r1 as [[]|e].
  - assert (appends s2 s') as [Hq [l Hl]].
    { destruct (ratelimit_can_send (net s)).
      - pose proof (appending_send_mdns fuel s2) as Ha. by rewrite H in Ha.
      - unfold ret in H. simplify_eq. apply appends_refl. }
    exists fin, rest, mails, l. split_and!; try done.
    + by rewrite Hl, Hacc, app_assoc.
    + intros id Hid. unfold jobs_of. rewrite Hq. by apply Hoth.
    + intros []. by apply Hr.
  - simplify_eq. exists fin, rest, mails, []. rewrite app_nil_r. split_and!; eauto.
Qed.

(** Sending read receipts ends: with more fuel than there are receipts in the table the loop has
    come to its end, and more fuel does not change the result. *)
Theorem send_mdns_ends fuel k s :
  (length (smtp_mdns_rows s) < fuel)%nat →
  (send_mdns fuel s).1 ≠ Ok None ∧ send_mdns (fuel + k) s = send_mdns fuel s.
Proof. intros H. pose proof (send_mdns_end fuel s H). split; [done|]. by apply send_mdns_more. Qed.
End Queue.

(** ** Examples *)

Module SmtpExamples.
(** A server that answers the next mails as the list says, and accepts the mails after it. *)
Definition Script : Type := list (result unit smtp_error).

#[local] Instance scripted : SmtpServer Script := {|
  net_now _ := 100%Z; configured_login _ := Ok (lit "me@x.org", [lit "mx"]);
  prioritize_server_login_params _ l := Ok l; connect_and_auth _ _ n := (Ok tt, n); net_quit n := n;
  net_send _ _ _ n := match n with [] => (Ok tt, []) | r :: n => (r, n) end;
  envelope_error _ _ := None; smtp_error_text _ := lit "rejected"; valid_addr a := existsb (N.eqb 64%N) a;
  ratelimit_can_send _ := true; ratelimit_send n := n |}.

#[local] Instance plain_outbox : Outbox Script := {|
  ob_lowercase l := l; add_unencrypted_info _ _ := ret tt; enqueue_updates := ret tt;
  contact_by_id c := Some (lit "bob@x.org", (c =? 12)%N);
  render_mdn _ mid _ := Ok (true, lit "r" ++ mid, lit "receipt");
  published_secondary_self_addrs := []; primary_self_addr := Ok (lit "me@x.org") |}.

#[local] Instance plain_outbox_ok : OutboxOk Script.
Proof. split. done. Qed.

Definition out_row (state : MessageState) : msg_row :=
  {| m_rfc724_mid := lit "a@x"; m_pre_rfc724_mid := []; m_chat_id := 10; m_from_id := 1; m_timestamp := 5;
     m_timestamp_rcvd := 0; m_type := Viewtype.Text; m_state := state; m_hidden := false; m_param := [];
     m_location_id := 0; m_error := []; m_ephemeral_timer := 0; m_ephemeral_timestamp := 0;
     m_download_state := DownloadState.Done; m_deleted := false |}.

Definition out_db : MsgDb :=
  {| msgs := {[20%N := out_row MessageState.OutPending; 21%N := out_row MessageState.OutPending]};
     msgs_mdns := []; smtp_mdns := []; imap_table := ∅; imap_markseen := []; locations := ∅; chats := ∅;
     last_msg_id := 21; bcc_self := false; mdns_enabled := true; delete_device_after := 0;
     self_chat := None; device_chat := None; events := [] |}.

Definition job (id : Z) (msg : MsgId) (retries : Z) : smtp_job :=
  {| j_id := id; j_mime := lit "mime"; j_msg_id := msg; j_recipients := lit "bob@x.org nobody";
     j_retries := retries |}.

Definition out_state (script : Script) (jobs : list smtp_job) (mdns : list mdn_job) : SmtpState Script :=
  {| mdb := out_db; smtp := jobs; smtp_mdns_rows := mdns; is_bot := false; connected := false;
     smtp_from := None; last_success := None; last_send_error := None; net := script; accepted := [] |}.

Definition rejected : result unit smtp_error :=
  Err (Permanent {| rs_category := 1; rs_detail := 0; rs_first_word := Some (lit "5.1.1"); rs_text := [] |}).
Definition postponed : result unit smtp_error :=
  Err (Transient {| rs_category := 1; rs_detail := 0; rs_first_word := None; rs_text := [] |}).

(** A mail that the server rejects. *)
Definition reject_state := out_state [rejected] [job 1 20 0] [].

Lemma no_message_lost_silently_witness :
  find_job 1 (send_msg_to_smtp 1 reject_state).2 = None
  ∧ (m_state <$> msgs (mdb (send_msg_to_smtp 1 reject_state).2) !! 20%N) = Some MessageState.OutFailed
  ∧ ((find_job 1 (send_msg_to_smtp 1 reject_state).2 = Some (job 1 20 0)
      ∧ accepted (send_msg_to_smtp 1 reject_state).2 = [])
     ∨ (find_job 1 (send_msg_to_smtp 1 reject_state).2 = Some (retried (job 1 20 0))
        ∧ (j_retries (retried (job 1 20 0)) <= 6)%Z ∧ accepted (send_msg_to_smtp 1 reject_state).2 = [])
     ∨ (find_job 1 (send_msg_to_smtp 1 reject_state).2 = None
        ∧ accepted (send_msg_to_smtp 1 reject_state).2 = [] ++ [mail_of (job 1 20 0)])
     ∨ (find_job 1 (send_msg_to_smtp 1 reject_state).2 = None
        ∧ accepted (send_msg_to_smtp 1 reject_state).2 = [] ∧ job_recipients (job 1 20 0) = [])
     ∨ (find_job 1 (send_msg_to_smtp 1 reject_state).2 = None
        ∧ accepted (send_msg_to_smtp 1 reject_state).2 = []
        ∧ failed_or_gone 20 out_db (mdb (send_msg_to_smtp 1 reject_state).2))).
Proof.
  split; [vm_compute; reflexivity|]. split; [vm_compute; reflexivity|].
  apply (no_message_lost_silently 1 (job 1 20 0) reject_state (send_msg_to_smtp 1 reject_state).1
    (send_msg_to_smtp 1 reject_state).2); [reflexivity|]. by destruct (send_msg_to_smtp 1 reject_state).
Defined.

(** Two mails of one message. *)
Definition split_state := out_state [] [job 1 20 0; job 2 20 0] [].

Lemma delivered_with_last_job_witness :
  smtp (send_msg_to_smtp 1 split_state).2 = others 1 split_state
  ∧ mdb (send_msg_to_smtp 1 split_state).2
    = (if existsb (λ k, (j_msg_id k =? 20)%N) (others 1 split_state) then out_db
       else (set_delivered 20 out_db).2).
Proof.
  apply (delivered_with_last_job 1 (job 1 20 0) split_state (send_msg_to_smtp 1 split_state).2);
    [reflexivity|simpl; lia|].
  assert ((send_msg_to_smtp 1 split_state).1 = Ok tt) as E by (vm_compute; reflexivity).
  destruct (send_msg_to_smtp 1 split_state) as [r s]. simpl in *. by rewrite E.
Defined.

(** The second mail has to wait: the third and the receipt are not sent. *)
Definition wait_state :=
  out_state [Ok tt; postponed] [job 3 21 0; job 1 20 0; job 2 21 0]
    [{| q_rfc724_mid := lit "m"; q_from_id := 11; q_retries := 0 |}].

Lemma queue_worked_off_in_order_witness :
  j_id <$> smtp (send_smtp_messages 2 wait_state).2 = [3; 2]%Z
  ∧ accepted (send_smtp_messages 2 wait_state).2 = [([lit "bob@x.org"], lit "mime")]
  ∧ ∃ finished rest mails receipts,
    queued_rowids wait_state = finished ++ rest
    ∧ Sorted Z.le (finished ++ rest)
    ∧ accepted (send_smtp_messages 2 wait_state).2 = accepted wait_state ++ mails ++ receipts
    ∧ mails `sublist_of` mails_of finished wait_state
    ∧ (∀ id, id ∉ finished → jobs_of id (send_smtp_messages 2 wait_state).2 = jobs_of id wait_state)
    ∧ (rest ≠ [] → receipts = [] ∧ ∃ e, (send_smtp_messages 2 wait_state).1 = Err e).
Proof.
  split; [vm_compute; reflexivity|]. split; [vm_compute; reflexivity|].
  apply (queue_worked_off_in_order 2 wait_state wait_state (send_smtp_messages 2 wait_state).1
    (send_smtp_messages 2 wait_state).2); [reflexivity| |by destruct (send_smtp_messages 2 wait_state)].
  repeat constructor; set_solver.
Defined.

(** Two receipts for one contact are sent as one mail, the third one after it. *)
Definition receipts_state :=
  out_state [] [] [{| q_rfc724_mid := lit "m"; q_from_id := 11; q_retries := 0 |};
                   {| q_rfc724_mid := lit "n"; q_from_id := 13; q_retries := 0 |};
                   {| q_rfc724_mid := lit "o"; q_from_id := 11; q_retries := 0 |}].

Lemma send_mdns_ends_witness :
  accepted (send_mdns 4 receipts_state).2
    = [([lit "bob@x.org"], lit "receipt"); ([lit "bob@x.org"], lit "receipt")]
  ∧ (send_mdns 4 receipts_state).1 ≠ Ok None
  ∧ send_mdns (4 + 1) receipts_state = send_mdns 4 receipts_state.
Proof.
  split; [vm_compute; reflexivity|]. apply (send_mdns_ends 4 1 receipts_state). simpl. lia.
Defined.
End SmtpExamples.
