(* ===== verification/Calls.v ===== *)
(** Calls: placing, accepting and ending calls, and the messages about them (src/src/calls.rs). *)
From S2P Require Import Prelude Monad Ids Params MsgTable Ephemeral MsgState.

(** ** Data *)

(** How long a phone rings, in seconds. *)
Definition RINGING_SECONDS : Z := 120.
Definition CALL_ACCEPTED_TIMESTAMP : Param.Param := Param.Arg.
Definition CALL_ENDED_TIMESTAMP : Param.Param := Param.Arg4.
Definition CALL_CANCELED_TIMESTAMP : Param.Param := Param.Arg2.
Definition STUN_PORT : Z := 3478.

(** The texts shown for a call. *)
Inductive StockMessage :=
| OutgoingVideoCall | OutgoingAudioCall | IncomingVideoCall | IncomingAudioCall
| DeclinedCall | CanceledCall | MissedCall.

(** The events about calls; [MsgsChanged] and [IncomingMsg] as the functions of [Context] emit them. *)
Inductive CallEvent :=
| MsgsChanged (chat_id : ChatId) (msg_id : MsgId)
| IncomingMsg (chat_id : ChatId) (msg_id : MsgId)
| IncomingCall (msg_id : MsgId) (chat_id : ChatId) (place_call_info : str) (has_video : bool)
| IncomingCallAccepted (msg_id : MsgId) (chat_id : ChatId) (from_this_device : bool)
| OutgoingCallAccepted (msg_id : MsgId) (chat_id : ChatId) (accept_call_info : str)
| CallEnded (msg_id : MsgId) (chat_id : ChatId).

(** [enum WhoCanCallMe]. *)
Inductive WhoCanCallMe := Everybody | Contacts | Nobody.

(** A message to send. *)
Record OutMsg := {
  om_viewtype : Viewtype;
  om_text : str;
  om_param : Params;
  om_hidden : bool;
  om_in_reply_to : option str
}.

(** The account: the database, the columns [txt] and [timestamp_sent] of [msgs], the setting, and
    the spawned tasks [emit_end_call_if_unaccepted] with the seconds they sleep. *)
Record CallDb := {
  cdb : MsgDb;
  txt : gmap N str;
  timestamp_sent : gmap N Z;
  who_can_call_me_int : Z;
  waiting : list (Z * MsgId);
  call_events : list CallEvent
}.

Definition upd_cdb (f : MsgDb -> MsgDb) (s : CallDb) : CallDb :=
  {| cdb := f (cdb s); txt := txt s; timestamp_sent := timestamp_sent s;
     who_can_call_me_int := who_can_call_me_int s; waiting := waiting s; call_events := call_events s |}.

Definition upd_txt (f : gmap N str -> gmap N str) (s : CallDb) : CallDb :=
  {| cdb := cdb s; txt := f (txt s); timestamp_sent := timestamp_sent s;
     who_can_call_me_int := who_can_call_me_int s; waiting := waiting s; call_events := call_events s |}.

Definition spawn (wait : Z) (id : MsgId) (s : CallDb) : CallDb :=
  {| cdb := cdb s; txt := txt s; timestamp_sent := timestamp_sent s;
     who_can_call_me_int := who_can_call_me_int s; waiting := waiting s ++ [(wait, id)];
     call_events := call_events s |}.

Definition emit_call (e : CallEvent) (s : CallDb) : CallDb :=
  {| cdb := cdb s; txt := txt s; timestamp_sent := timestamp_sent s;
     who_can_call_me_int := who_can_call_me_int s; waiting := waiting s;
     call_events := call_events s ++ [e] |}.

(** The rest of the program: sending a message, accepting a contact request, the 1:1 chat with a
    contact, translated texts, the summary of a message without text. *)
Class Phone := {
  send_msg : ChatId -> OutMsg -> SE CallDb str MsgId;
  accept_chat : ChatId -> SE CallDb str unit;
  lookup_by_contact : ContactId -> CallDb -> result (option Blocked.Blocked) str;
  translated : StockMessage -> str;
  summary_text : MsgId -> CallDb -> result str str
}.

(** The fields of [Message] that the code below reads. *)
Record CallMsg := {
  cm_id : MsgId;
  cm_chat_id : ChatId;
  cm_from_id : ContactId;
  cm_rfc724_mid : str;
  cm_timestamp_sent : Z;
  cm_viewtype : Viewtype;
  cm_text : str;
  cm_param : Params
}.

(** [struct CallInfo]. *)
Record CallInfo := {
  place_call_info : str;
  accept_call_info : str;
  msg : CallMsg
}.

(** What the code below reads of a received message. *)
Record CallMime := {
  first_part_type : option Viewtype;
  is_system_message : SystemMessage.SystemMessage;
  webrtc_accepted_header : option str
}.

(** [MimeMessage::is_call]. *)
Definition is_call (m : CallMime) : bool := bool_decide (first_part_type m = Some Viewtype.Call).

Section Calls.
Context `{PH : Phone}.
Local Abbreviation C := (SE CallDb str).

(** ** Loading *)

(** [Message::load_from_db]. *)
Definition load_msg (id : MsgId) (s : CallDb) : option CallMsg :=
  if (id <=? 9)%N then None
  else
    r ← msgs (cdb s) !! id;
    if (m_chat_id r =? DC_CHAT_ID_TRASH)%N then None
    else Some {| cm_id := id; cm_chat_id := m_chat_id r; cm_from_id := m_from_id r;
                 cm_rfc724_mid := m_rfc724_mid r;
                 cm_timestamp_sent := default 0%Z (timestamp_sent s !! id);
                 cm_viewtype := m_type r; cm_text := default [] (txt s !! id);
                 cm_param := load_params (m_param r) |}.

(** [Context::load_call_by_message]. *)
Definition load_call_by_message (call : CallMsg) : option CallInfo :=
  if negb (bool_decide (cm_viewtype call = Viewtype.Call)) then None
  else Some {| place_call_info := default [] (Params_get (cm_param call) Param.WebrtcRoom);
               accept_call_info := default [] (Params_get (cm_param call) Param.WebrtcAccepted);
               msg := call |}.

(** [Context::load_call_by_id]. *)
Definition load_call_by_id (call_id : MsgId) : C (option CallInfo) :=
  m <- gets (load_msg call_id) ;;
  call <- ok_or m (lit "Message does not exist") ;;
  ret (load_call_by_message call).

(** ** [impl CallInfo] *)

Definition is_incoming (c : CallInfo) : bool := negb (cm_from_id (msg c) =? SELF)%N.

(** [remaining_ring_seconds]. *)
Definition remaining_ring_seconds (now : Z) (c : CallInfo) : Z :=
  let remaining_seconds := (cm_timestamp_sent (msg c) + RINGING_SECONDS - now)%Z in
  Z.min RINGING_SECONDS (Z.max 0 remaining_seconds).

Definition is_stale (now : Z) (c : CallInfo) : bool :=
  (is_incoming c || negb (cm_timestamp_sent (msg c) =? 0)%Z) && (remaining_ring_seconds now c <=? 0)%Z.

(** [update_text]: [txt_normalized] follows [txt]. *)
Definition update_text (c : CallInfo) (text : str) : C unit :=
  modify (λ s, if bool_decide (is_Some (msgs (cdb s) !! cm_id (msg c)))
               then upd_txt (<[cm_id (msg c) := text]>) s else s).

Definition has_video_initially (c : CallInfo) : bool :=
  default false (get_bool (cm_param (msg c)) Param.WebrtcHasVideoInitially).

Definition is_accepted (c : CallInfo) : bool := Params_exists (cm_param (msg c)) CALL_ACCEPTED_TIMESTAMP.
Definition is_canceled (c : CallInfo) : bool := Params_exists (cm_param (msg c)) CALL_CANCELED_TIMESTAMP.
Definition is_ended (c : CallInfo) : bool := Params_exists (cm_param (msg c)) CALL_ENDED_TIMESTAMP.

(** [duration_seconds]. *)
Definition duration_seconds (c : CallInfo) : Z :=
  match get_i64 (cm_param (msg c)) CALL_ACCEPTED_TIMESTAMP, get_i64 (cm_param (msg c)) CALL_ENDED_TIMESTAMP with
  | Some start, Some end_ =>
      let seconds := (end_ - start)%Z in
      if (seconds <=? 0)%Z then 1 else seconds
  | _, _ => 0
  end.

Definition incoming_call (has_video : bool) : str :=
  translated (if has_video then IncomingVideoCall else IncomingAudioCall).
Definition outgoing_call (has_video : bool) : str :=
  translated (if has_video then OutgoingVideoCall else OutgoingAudioCall).

(** [update_text_duration]. *)
Definition update_text_duration (c : CallInfo) : C unit :=
  let minutes := Z.quot (duration_seconds c) 60 in
  let duration :=
    if (minutes =? 0)%Z then lit "<1 minute"
    else if (minutes =? 1)%Z then lit "1 minute"
    else print_Z minutes ++ lit " minutes" in
  let title := if is_incoming c then incoming_call (has_video_initially c)
               else outgoing_call (has_video_initially c) in
  update_text c (title ++ [LF] ++ duration).

(** The message with other parameters, and [Message::update_param]. *)
Definition with_param (c : CallInfo) (p : Params) : CallInfo :=
  {| place_call_info := place_call_info c; accept_call_info := accept_call_info c;
     msg := {| cm_id := cm_id (msg c); cm_chat_id := cm_chat_id (msg c); cm_from_id := cm_from_id (msg c);
               cm_rfc724_mid := cm_rfc724_mid (msg c); cm_timestamp_sent := cm_timestamp_sent (msg c);
               cm_viewtype := cm_viewtype (msg c); cm_text := cm_text (msg c); cm_param := p |} |}.

Definition update_param (c : CallInfo) : C unit :=
  modify (upd_cdb (set_msgs (alter (λ r, with_msg_param r (to_string (cm_param (msg c)))) (cm_id (msg c))))).

(** [mark_as_accepted], [mark_as_ended], [mark_as_canceled]; they change the call in memory too. *)
Definition mark_as_accepted (now : Z) (c : CallInfo) : C CallInfo :=
  let c := with_param c (set_i64 (cm_param (msg c)) CALL_ACCEPTED_TIMESTAMP now) in
  update_param c ;;; ret c.

Definition mark_as_ended (now : Z) (c : CallInfo) : C CallInfo :=
  let c := with_param c (set_i64 (cm_param (msg c)) CALL_ENDED_TIMESTAMP now) in
  update_param c ;;; ret c.

Definition mark_as_canceled (now : Z) (c : CallInfo) : C CallInfo :=
  let p := set_i64 (cm_param (msg c)) CALL_ENDED_TIMESTAMP now in
  let c := with_param c (set_i64 p CALL_CANCELED_TIMESTAMP now) in
  update_param c ;;; ret c.

(** ** What the user does *)

(** [Message::set_quote] with a message, and [set_quote_text]. *)
Definition set_quote (m : OutMsg) (quote : CallMsg) : C OutMsg :=
  if bool_decide (cm_rfc724_mid quote = []) then fail (lit "Message without Message-Id cannot be quoted")
  else
    text <- (if bool_decide (cm_text quote = []) then
               λ s, (summary_text (cm_id quote) s, s)
             else ret (cm_text quote)) ;;
    let protect := default false (get_bool (cm_param quote) Param.GuaranteeE2ee) in
    let p := Params_set_optional (Params_set (om_param m) Param.Quote text) Param.ProtectQuote
               (if protect : bool then Some (lit "1") else None) in
    ret {| om_viewtype := om_viewtype m; om_text := om_text m; om_param := p; om_hidden := om_hidden m;
           om_in_reply_to := Some (cm_rfc724_mid quote) |}.

(** The sleep of a task: a negative number of seconds is an error. *)
Definition spawn_end_call (wait : Z) (id : MsgId) : C unit :=
  if (wait <? 0)%Z then fail (lit "out of range integral type conversion attempted")
  else modify (spawn wait id).

(** [Context::place_outgoing_call]. *)
Definition place_outgoing_call (chat_id : ChatId) (place_info : str) (has_video : bool) : C MsgId :=
  chat <- gets (λ s, chats (cdb s) !! chat_id) ;;
  chat <- ok_or chat (lit "Failed loading chat") ;;
  if negb (bool_decide (cs_type chat = Chattype.Single)) then fail (lit "Can only place calls in 1:1 chats")
  else if Params_exists (load_params (cs_param chat)) Param.Selftalk then fail (lit "Cannot call self")
  else
    let p := set_int (Params_set Params_new Param.WebrtcRoom place_info) Param.WebrtcHasVideoInitially
               (if has_video then 1 else 0) in
    id <- send_msg chat_id {| om_viewtype := Viewtype.Call; om_text := outgoing_call has_video; om_param := p;
                              om_hidden := false; om_in_reply_to := None |} ;;
    spawn_end_call RINGING_SECONDS id ;;;
    ret id.

(** [markseen_msgs] on one message. *)
Definition mark_call_seen (now : Z) (id : MsgId) : C unit :=
  λ s, match markseen_msgs now [id] (cdb s) with
       | Some d => (Ok tt, upd_cdb (λ _, d) s)
       | None => (Err (lit "failed to load messages"), s)
       end.

Definition note_msg (text : str) (p : Params) : OutMsg :=
  {| om_viewtype := Viewtype.Text; om_text := text; om_param := p; om_hidden := true; om_in_reply_to := None |}.

(** [Context::accept_incoming_call]. *)
Definition accept_incoming_call (now : Z) (call_id : MsgId) (accept_info : str) : C unit :=
  o <- load_call_by_id call_id ;;
  call <- ok_or o (lit "does not refer to a call") ;;
  if negb (is_incoming call) then fail (lit "call is not incoming")
  else if is_accepted call || is_ended call then ret tt
  else
    call <- mark_as_accepted now call ;;
    chat <- gets (λ s, chats (cdb s) !! cm_chat_id (msg call)) ;;
    chat <- ok_or chat (lit "Failed loading chat") ;;
    when (bool_decide (cs_blocked chat = Some Blocked.Request)) (accept_chat (cm_chat_id (msg call))) ;;;
    mark_call_seen now call_id ;;;
    let p := Params_set (set_cmd Params_new SystemMessage.CallAccepted) Param.WebrtcAccepted accept_info in
    m <- set_quote (note_msg (lit "[Call accepted]") p) (msg call) ;;
    send_msg (cm_chat_id (msg call)) m ;;;
    modify (emit_call (IncomingCallAccepted call_id (cm_chat_id (msg call)) true)) ;;;
    modify (emit_call (MsgsChanged (cm_chat_id (msg call)) call_id)).

(** The marks and the text of a call that the user ends. *)
Definition end_locally (now : Z) (call_id : MsgId) (call : CallInfo) : C CallInfo :=
  if negb (is_accepted call) then
    if is_incoming call then
      call <- mark_as_ended now call ;;
      mark_call_seen now call_id ;;;
      update_text call (translated DeclinedCall) ;;;
      ret call
    else
      call <- mark_as_canceled now call ;;
      update_text call (translated CanceledCall) ;;;
      ret call
  else
    call <- mark_as_ended now call ;;
    update_text_duration call ;;;
    ret call.

(** [Context::end_call]. *)
Definition end_call (now : Z) (call_id : MsgId) : C unit :=
  o <- load_call_by_id call_id ;;
  call <- ok_or o (lit "does not refer to a call") ;;
  if is_ended call then ret tt
  else
    call <- end_locally now call_id call ;;
    m <- set_quote (note_msg (lit "[Call ended]") (set_cmd Params_new SystemMessage.CallEnded)) (msg call) ;;
    send_msg (cm_chat_id (msg call)) m ;;;
    modify (emit_call (CallEnded call_id (cm_chat_id (msg call)))) ;;;
    modify (emit_call (MsgsChanged (cm_chat_id (msg call)) call_id)).

(** [Context::emit_end_call_if_unaccepted], after the sleep. *)
Definition emit_end_call_if_unaccepted (now : Z) (call_id : MsgId) : C unit :=
  o <- load_call_by_id call_id ;;
  match o with
  | None => ret tt
  | Some call =>
      if negb (is_accepted call) && negb (is_ended call) then
        (if is_incoming call then
           call <- mark_as_canceled now call ;;
           update_text call (translated MissedCall)
         else
           call <- mark_as_ended now call ;;
           update_text call (translated CanceledCall)) ;;;
        modify (emit_call (MsgsChanged (cm_chat_id (msg call)) call_id)) ;;;
        modify (emit_call (CallEnded call_id (cm_chat_id (msg call))))
      else ret tt
  end.

(** ** Messages about calls *)

(** [who_can_call_me]. *)
Definition who_can_call_me (s : CallDb) : WhoCanCallMe :=
  match who_can_call_me_int s with 0%Z => Everybody | 1%Z => Contacts | 2%Z => Nobody | _ => Contacts end.

Definition can_call_me (from_id : ContactId) : C bool :=
  w <- gets who_can_call_me ;;
  match w with
  | Contacts =>
      b <- (λ s, (lookup_by_contact from_id s, s)) ;;
      ret (bool_decide (b = Some Blocked.Not))
  | Everybody =>
      b <- (λ s, (lookup_by_contact from_id s, s)) ;;
      ret (negb (bool_decide (b = Some Blocked.Yes)))
  | Nobody => ret false
  end.

(** [handle_call_msg] for the message that is the call. *)
Definition handle_call (now : Z) (call_id : MsgId) (from_id : ContactId) : C unit :=
  o <- load_call_by_id call_id ;;
  match o with
  | None => ret tt
  | Some call =>
      let chat_id := cm_chat_id (msg call) in
      if is_incoming call then
        if is_stale now call then
          update_text call (translated MissedCall) ;;;
          modify (emit_call (IncomingMsg chat_id call_id))
        else
          update_text call (incoming_call (has_video_initially call)) ;;;
          modify (emit_call (MsgsChanged chat_id call_id)) ;;;
          rings <- can_call_me from_id ;;
          when rings
            (modify (emit_call (IncomingCall call_id chat_id (place_call_info call) (has_video_initially call)))) ;;;
          spawn_end_call (remaining_ring_seconds now call) call_id
      else
        update_text call (outgoing_call (has_video_initially call)) ;;;
        modify (emit_call (MsgsChanged chat_id call_id))
  end.

(** [handle_call_msg] for "call accepted". *)
Definition handle_accepted (now : Z) (call_id : MsgId) (mime : CallMime) : C unit :=
  o <- load_call_by_id call_id ;;
  match o with
  | None => ret tt
  | Some call =>
      if is_ended call || is_accepted call then ret tt
      else
        call <- mark_as_accepted now call ;;
        modify (emit_call (MsgsChanged (cm_chat_id (msg call)) call_id)) ;;;
        if is_incoming call then
          modify (emit_call (IncomingCallAccepted call_id (cm_chat_id (msg call)) false))
        else
          modify (emit_call (OutgoingCallAccepted call_id (cm_chat_id (msg call))
            (default [] (webrtc_accepted_header mime))))
  end.

(** The marks and the text of a call that a message ends. *)
Definition end_remotely (now : Z) (from_id : ContactId) (call : CallInfo) : C unit :=
  if negb (is_accepted call) then
    if is_incoming call then
      if (from_id =? SELF)%N then
        call <- mark_as_ended now call ;;
        update_text call (translated DeclinedCall)
      else
        call <- mark_as_canceled now call ;;
        update_text call (translated MissedCall)
    else
      if (from_id =? SELF)%N then
        call <- mark_as_canceled now call ;;
        update_text call (translated CanceledCall)
      else
        call <- mark_as_ended now call ;;
        update_text call (translated DeclinedCall)
  else
    call <- mark_as_ended now call ;;
    update_text_duration call.

(** [handle_call_msg] for "call ended". *)
Definition handle_ended (now : Z) (call_id : MsgId) (from_id : ContactId) : C unit :=
  o <- load_call_by_id call_id ;;
  match o with
  | None => ret tt
  | Some call =>
      if is_ended call then ret tt
      else
        end_remotely now from_id call ;;;
        modify (emit_call (MsgsChanged (cm_chat_id (msg call)) call_id)) ;;;
        modify (emit_call (CallEnded call_id (cm_chat_id (msg call))))
  end.

(** [Context::handle_call_msg]. *)
Definition handle_call_msg (now : Z) (call_id : MsgId) (mime : CallMime) (from_id : ContactId) : C unit :=
  if is_call mime then handle_call now call_id from_id
  else
    match is_system_message mime with
    | SystemMessage.CallAccepted => handle_accepted now call_id mime
    | SystemMessage.CallEnded => handle_ended now call_id from_id
    | _ => ret tt
    end.

(** ** The state shown *)

(** [enum CallState]. *)
Inductive CallState :=
| Alerting | Active | Completed (duration : Z) | Missed | Declined | Canceled.

(** The state of a loaded call. *)
Definition state_of (now : Z) (call : CallInfo) : CallState :=
  if is_incoming call then
    if is_accepted call then
      if is_ended call then Completed (duration_seconds call) else Active
    else if is_canceled call then Missed
    else if is_ended call then Declined
    else if is_stale now call then Missed
    else Alerting
  else if is_accepted call then
    if is_ended call then Completed (duration_seconds call) else Active
  else if is_canceled call then Canceled
  else if is_ended call || is_stale now call then Declined
  else Alerting.

(** [call_state]. *)
Definition call_state (now : Z) (msg_id : MsgId) : C CallState :=
  o <- load_call_by_id msg_id ;;
  call <- ok_or o (lit "is not a call message") ;;
  ret (state_of now call).
End Calls.

(** ** Servers *)

(** [struct IceServer]. *)
Record IceServer := { urls : list str; username : option str; credential : option str }.

(** [enum UnresolvedIceServer]. *)
Inductive UnresolvedIceServer :=
| Stun (hostname : str) (port : Z)
| Turn (hostname : str) (port : Z) (username credential : str).

Definition COLON : char := 58%N.

(** [create_ice_servers_from_metadata]. *)
Definition create_ice_servers_from_metadata (metadata : str)
  : result (Z * list UnresolvedIceServer) str :=
  match split_once COLON metadata with
  | None => Err (lit "Missing hostname")
  | Some (hostname, rest) =>
      match split_once COLON rest with
      | None => Err (lit "Missing port")
      | Some (port, rest) =>
          match parse_u16 port with
          | None => Err (lit "Failed to parse the port")
          | Some port =>
              match split_once COLON rest with
              | None => Err (lit "Missing timestamp")
              | Some (ts, password) =>
                  match parse_i64 ts with
                  | None => Err (lit "Failed to parse the timestamp")
                  | Some expiration_timestamp =>
                      Ok (expiration_timestamp, [Turn hostname port ts password])
                  end
              end
          end
      end
  end.

(** Name lookup, and JSON of the resolved servers. *)
Class IceWorld := {
  lookup_host : str -> Z -> result (list str) str;
  ice_json : list IceServer -> result str str
}.

Definition resolve_one `{IceWorld} (u : UnresolvedIceServer) : list IceServer :=
  match u with
  | Stun hostname port =>
      match lookup_host hostname port with
      | Ok addrs => [{| urls := (λ a, lit "stun:" ++ a) <$> addrs; username := None; credential := None |}]
      | Err _ => []
      end
  | Turn hostname port user cred =>
      match lookup_host hostname port with
      | Ok addrs => [{| urls := (λ a, lit "turn:" ++ a) <$> addrs; username := Some user;
                        credential := Some cred |}]
      | Err _ => []
      end
  end.

(** [resolve_ice_servers]: a server that cannot be resolved is skipped. *)
Definition resolve_ice_servers `{IceWorld} (l : list UnresolvedIceServer) : result str str :=
  ice_json (foldl (λ res u, res ++ resolve_one u) [] l).

(** [create_fallback_ice_servers]. *)
Definition create_fallback_ice_servers : list UnresolvedIceServer :=
  [Stun (lit "nine.testrun.org") STUN_PORT;
   Turn (lit "turn.delta.chat") STUN_PORT (lit "public") (lit "o4tR7yG4rG2slhXqRUf9zgmHz")].

(** [ice_servers]. *)
Definition ice_servers `{IceWorld} (metadata : option (list UnresolvedIceServer)) : result str str :=
  match metadata with
  | Some l => resolve_ice_servers l
  | None => Ok (lit "[]")
  end.
