(* ===== verification/CallStates.v ===== *)
(** CallStates: every call runs through one small state machine, both parties agree about it, and
    a phone rings only when it may (about the model of Calls). *)
From S2P Require Import Prelude Monad Ids Params MsgTable Ephemeral MsgState Calls.

(** Sending a message and accepting a chat leave the rows of calls alone, and the chat with a contact
    is looked up in the tables. *)
Class PhoneOk `{Phone} : Prop := {
  send_keeps chat_id m s id r :
    msgs (cdb s) !! id = Some r → m_type r = Viewtype.Call →
    msgs (cdb (send_msg chat_id m s).2) !! id = Some r
    ∧ timestamp_sent (send_msg chat_id m s).2 !! id = timestamp_sent s !! id;
  accept_keeps chat_id s id r :
    msgs (cdb s) !! id = Some r → m_type r = Viewtype.Call →
    msgs (cdb (accept_chat chat_id s).2) !! id = Some r
    ∧ timestamp_sent (accept_chat chat_id s).2 !! id = timestamp_sent s !! id;
  lookup_reads_db contact s s' : cdb s = cdb s' → lookup_by_contact contact s = lookup_by_contact contact s'
}.

(** ** The abstract machine *)

(** A call rings, is going on since a time, or is over for good. *)
Inductive status := Ringing | Talking (start : option Z) | Over (st : CallState).

(** What happens to a call: it is accepted, ended by the own user on any device, ended by the other
    side, or it was not answered in time. *)
Inductive action := Accept | EndSelf | EndPeer | Timeout | Other.

Definition talked (now : Z) (start : option Z) : CallState :=
  Completed (match start with Some t => if (now - t <=? 0)%Z then 1 else (now - t)%Z | None => 0 end).

Definition next (incoming : bool) (now : Z) (st : status) (a : action) : status :=
  match st, a with
  | Ringing, Accept => Talking (Some now)
  | Ringing, EndSelf => Over (if incoming then Declined else Canceled)
  | Ringing, EndPeer => Over (if incoming then Missed else Declined)
  | Ringing, Timeout => Over (if incoming then Missed else Declined)
  | Talking start, (EndSelf | EndPeer) => Over (talked now start)
  | _, _ => st
  end.

(** What is shown: a call that rings too long is shown as missed or declined. *)
Definition shown (incoming stale : bool) (st : status) : CallState :=
  match st with
  | Ringing => if stale then (if incoming then Missed else Declined) else Alerting
  | Talking _ => Active
  | Over st => st
  end.

Definition status_of (c : CallInfo) : status :=
  if is_accepted c then
    if is_ended c then Over (Completed (duration_seconds c))
    else Talking (get_i64 (cm_param (msg c)) CALL_ACCEPTED_TIMESTAMP)
  else if is_canceled c then Over (if is_incoming c then Missed else Canceled)
  else if is_ended c then Over Declined
  else Ringing.

(** A canceled call is an ended call. *)
Definition call_ok (c : CallInfo) : Prop := is_canceled c = true → is_ended c = true.

Lemma state_of_status now c : state_of now c = shown (is_incoming c) (is_stale now c) (status_of c).
Proof.
  unfold state_of, status_of, shown.
  destruct (is_incoming c), (is_accepted c), (is_canceled c), (is_ended c), (is_stale now c); done.
Qed.

(** ** The call behind a message *)

Definition call_view (id : MsgId) (s : CallDb) : option CallInfo :=
  load_msg id s ≫= load_call_by_message.

(** The part of a call that its status depends on. *)
Definition essence (c : CallInfo) : bool * Z * option str * option str * option str :=
  (is_incoming c, cm_timestamp_sent (msg c), Params_get (cm_param (msg c)) CALL_ACCEPTED_TIMESTAMP,
   Params_get (cm_param (msg c)) CALL_CANCELED_TIMESTAMP, Params_get (cm_param (msg c)) CALL_ENDED_TIMESTAMP).

Lemma essence_determines c c' :
  essence c = essence c' →
  is_incoming c = is_incoming c' ∧ status_of c = status_of c' ∧ (call_ok c → call_ok c')
  ∧ ∀ now, is_stale now c = is_stale now c'.
Proof.
  intros [= H1 H2 H3 H4 H5]. unfold status_of, call_ok, is_stale, remaining_ring_seconds, duration_seconds,
    is_accepted, is_canceled, is_ended, get_i64, Params_exists in *.
  unfold Params_get in *. rewrite H1, H2, H3, H4, H5. done.
Qed.

Definition same_essence (id : MsgId) (s s' : CallDb) : Prop :=
  ∀ c, call_view id s = Some c → ∃ c', call_view id s' = Some c' ∧ essence c' = essence c.

Lemma same_essence_refl id s : same_essence id s s.
Proof. intros c H. eauto. Qed.

Lemma same_essence_trans id s s' s'' : same_essence id s s' → same_essence id s' s'' → same_essence id s s''.
Proof.
  intros H1 H2 c Hc. destruct (H1 c Hc) as (c' & H & E). destruct (H2 c' H) as (c'' & H' & E').
  exists c''. split; [done|congruence].
Qed.

(** A row of a call that keeps the columns that matter. *)
Definition keeps_row (r r' : msg_row) : Prop :=
  m_type r' = m_type r ∧ m_chat_id r' = m_chat_id r ∧ m_from_id r' = m_from_id r
  ∧ ∀ k, k ≠ Param.WantsMdn →
      Params_get (load_params (m_param r')) k = Params_get (load_params (m_param r)) k.

Lemma keeps_row_refl r : keeps_row r r.
Proof. done. Qed.

Lemma call_view_row id s c :
  call_view id s = Some c →
  (9 < id)%N ∧ ∃ r, msgs (cdb s) !! id = Some r ∧ m_type r = Viewtype.Call ∧ m_chat_id r ≠ DC_CHAT_ID_TRASH
    ∧ cm_id (msg c) = id ∧ cm_chat_id (msg c) = m_chat_id r
    ∧ cm_param (msg c) = load_params (m_param r) ∧ is_incoming c = negb (m_from_id r =? SELF)%N
    ∧ cm_timestamp_sent (msg c) = default 0%Z (timestamp_sent s !! id).
Proof.
  unfold call_view, load_msg. destruct (id <=? 9)%N eqn:E9; [done|]. apply N.leb_gt in E9.
  destruct (msgs (cdb s) !! id) as [r|] eqn:Er; [|done]. simpl.
  destruct (m_chat_id r =? DC_CHAT_ID_TRASH)%N eqn:Et; [done|]. simpl. unfold load_call_by_message. simpl.
  case_bool_decide as Ht; [|done]. simpl. intros [= <-]. apply N.eqb_neq in Et.
  split; [done|]. exists r. done.
Qed.

Lemma call_view_intro id s r :
  (9 < id)%N → msgs (cdb s) !! id = Some r → m_type r = Viewtype.Call → m_chat_id r ≠ DC_CHAT_ID_TRASH →
  ∃ c, call_view id s = Some c ∧ cm_param (msg c) = load_params (m_param r)
    ∧ is_incoming c = negb (m_from_id r =? SELF)%N
    ∧ cm_timestamp_sent (msg c) = default 0%Z (timestamp_sent s !! id).
Proof.
  intros H9 Hr Ht Htr. unfold call_view, load_msg. rewrite (proj2 (N.leb_gt _ _) H9), Hr. simpl.
  rewrite (proj2 (N.eqb_neq _ _) Htr). simpl. unfold load_call_by_message. simpl.
  rewrite bool_decide_eq_true_2 by done. simpl. eauto.
Qed.

Lemma keeps_row_essence id s s' :
  (∀ r, msgs (cdb s) !! id = Some r → m_type r = Viewtype.Call →
     ∃ r', msgs (cdb s') !! id = Some r' ∧ keeps_row r r') →
  timestamp_sent s' !! id = timestamp_sent s !! id → same_essence id s s'.
Proof.
  intros Hrow Hts c Hc. apply call_view_row in Hc as (H9 & r & Hr & Ht & Htr & _ & _ & Hp & Hi & Hs).
  destruct (Hrow r Hr Ht) as (r' & Hr' & Kt & Kc & Kf & Kp).
  destruct (call_view_intro id s' r') as (c' & Hc' & Hp' & Hi' & Hs'); [done|done|congruence|congruence|].
  exists c'. split; [done|]. unfold essence. rewrite Hi, Hi', Hs, Hs', Hts, Hp, Hp', Kf.
  by rewrite !Kp by done.
Qed.

(** Steps that leave all calls as they are. *)
Definition harmless {A} (x : SE CallDb str A) : Prop := ∀ s id, same_essence id s (x s).2.

Lemma harmless_ret {A} (a : A) : harmless (ret a).
Proof. intros s id. apply same_essence_refl. Qed.
Lemma harmless_fail {A} e : harmless (fail e : SE CallDb str A).
Proof. intros s id. apply same_essence_refl. Qed.
Lemma harmless_read {A} (f : CallDb -> result A str) : harmless (λ s, (f s, s)).
Proof. intros s id. apply same_essence_refl. Qed.
Lemma harmless_gets {A} (f : CallDb -> A) : harmless (gets f).
Proof. intros s id. apply same_essence_refl. Qed.
Lemma harmless_ok_or {A} (o : option A) e : harmless (ok_or o e).
Proof. destruct o; [apply harmless_ret|apply harmless_fail]. Qed.
Lemma harmless_bind {A B} (x : SE CallDb str A) (f : A -> SE CallDb str B) :
  harmless x → (∀ a, harmless (f a)) → harmless (bind x f).
Proof.
  intros Hx Hf s id. unfold bind. specialize (Hx s id). destruct (x s) as [[a|e] s1]; [|done].
  eapply same_essence_trans; [done|apply Hf].
Qed.
Lemma harmless_when (b : bool) x : harmless x → harmless (when b x).
Proof. intros H. destruct b; [done|apply harmless_ret]. Qed.
Lemma harmless_emit e : harmless (modify (emit_call e)).
Proof. intros s id. by apply keeps_row_essence; [eauto using keeps_row_refl|]. Qed.

Create HintDb calls.
#[export] Hint Resolve harmless_ret harmless_fail harmless_read harmless_gets harmless_ok_or harmless_when
  harmless_emit : calls.

Ltac harmless := repeat first
  [ progress eauto with calls
  | apply harmless_bind; [|intros]
  | case_match ].

(** ** Seeing a call *)

Definition keeps_rows (d d' : MsgDb) : Prop :=
  ∀ k r, msgs d !! k = Some r → ∃ r', msgs d' !! k = Some r' ∧ keeps_row r r'.

Lemma keeps_row_trans r r' r'' : keeps_row r r' → keeps_row r' r'' → keeps_row r r''.
Proof.
  intros (H1 & H2 & H3 & H4) (K1 & K2 & K3 & K4). split_and!; [congruence..|].
  intros k Hk. by rewrite K4, H4.
Qed.

Lemma keeps_rows_trans d d' d'' : keeps_rows d d' → keeps_rows d' d'' → keeps_rows d d''.
Proof.
  intros H1 H2 k r Hr. destruct (H1 k r Hr) as (r' & Hr' & K). destruct (H2 k r' Hr') as (r'' & Hr'' & K').
  eauto using keeps_row_trans.
Qed.

Lemma keeps_rows_refl d d' : msgs d' = msgs d → keeps_rows d d'.
Proof. intros E k r Hr. rewrite E. eauto using keeps_row_refl. Qed.

Lemma keeps_rows_alter d f id :
  (∀ r, msgs d !! id = Some r → keeps_row r (f r)) → keeps_rows d (set_msgs (alter f id) d).
Proof.
  intros Hf k r Hr. simpl. destruct (decide (k = id)) as [->|Hk].
  - rewrite lookup_alter_eq, Hr. simpl. eauto.
  - rewrite lookup_alter_ne by done. eauto using keeps_row_refl.
Qed.

Lemma load_remove p k :
  k ≠ Param.WantsMdn →
  Params_get (load_params (to_string (Params_remove p Param.WantsMdn))) k = Params_get p k.
Proof. intros Hk. rewrite load_params_to_string. unfold Params_get, Params_remove. simpl. by rewrite lookup_delete_ne. Qed.

Lemma mark_one_keeps s d :
  (∀ r k, msgs d !! s_id s = Some r → k ≠ Param.WantsMdn →
     Params_get (s_param s) k = Params_get (load_params (m_param r)) k) →
  keeps_rows d (mark_one d s).
Proof.
  intros Hp. unfold mark_one. destruct (is_unseen (s_state s)); [|by apply keeps_rows_refl].
  unfold mark_unseen. simpl. set (d1 := set_msgs _ d).
  assert (keeps_rows d d1) as H1 by (by apply keeps_rows_alter).
  set (d2 := markseen_on_imap_table _ d1).
  assert (msgs d2 = msgs d1) as H2 by done.
  set (d3 := if sends_mdn d2 s then _ else d2).
  assert (keeps_rows d d3) as H3.
  { assert (keeps_rows d d2) as Hd2 by (intros k r Hr; rewrite H2; by apply H1).
    unfold d3. destruct (sends_mdn d2 s); [|done]. eapply keeps_rows_trans; [done|].
    apply keeps_rows_alter. intros r Hr. split_and!; try done. intros k Hk. simpl.
    rewrite load_remove by done. rewrite H2 in Hr. simpl in Hr. rewrite lookup_alter_eq in Hr.
    destruct (msgs d !! s_id s) as [r0|] eqn:Er; [|done]. simpl in Hr. simplify_eq.
    by apply (Hp r0). }
  destruct (mdn_to d3 s); done.
Qed.

Lemma markseen_keeps now id d d' : markseen_msgs now [id] d = Some d' → keeps_rows d d'.
Proof.
  unfold markseen_msgs. simpl. set (d0 := set_last_msg_id _ d).
  destruct (load_seen d0 id) as [o|] eqn:El; [|done]. simpl. intros [= <-].
  set (d1 := if existsb _ _ then _ else d0).
  assert (keeps_rows d d1) as H1.
  { unfold d1. destruct (existsb _ _); [|by apply keeps_rows_refl].
    intros k r Hr. simpl. rewrite update_where_lookup, Hr. simpl. eexists. split; [done|].
    by destruct (starts _ _ _ _). }
  destruct o as [s|]; simpl; [|intros k r Hr; by apply H1].
  eapply keeps_rows_trans; [exact H1|]. enough (keeps_rows d1 (mark_one d1 s)) as H by exact H.
  unfold load_seen in El. destruct (msgs d0 !! id) as [r0|] eqn:Er; [|done].
  destruct (9 <? m_chat_id r0)%N; [|done]. destruct (chats d0 !! m_chat_id r0) as [cs|]; [|done]. simpl in El.
  destruct (timer_from_sql _) as [t|]; [|done]. simpl in El. injection El as Es.
  assert (s_id s = id ∧ s_param s = load_params (m_param r0)) as [Hi Hp] by (by rewrite <-Es).
  apply mark_one_keeps. rewrite Hi, Hp. intros r k Hr Hk. destruct (H1 id r0 Er) as (r' & Hr' & _ & _ & _ & Kp).
  assert (r' = r) as -> by (apply (inj Some); rewrite <-Hr', <-Hr; reflexivity). by rewrite Kp.
Qed.

Section Machine.
Context `{PH : Phone} `{PO : !PhoneOk}.

Lemma harmless_update_text c t : harmless (update_text c t).
Proof. intros s id. unfold update_text, modify. simpl. case_bool_decide; by apply keeps_row_essence; [eauto using keeps_row_refl|]. Qed.
Lemma harmless_duration c : harmless (update_text_duration c).
Proof. apply harmless_update_text. Qed.
Lemma harmless_spawn w i : harmless (spawn_end_call w i).
Proof.
  unfold spawn_end_call. case_match; [apply harmless_fail|]. intros s id.
  by apply keeps_row_essence; [eauto using keeps_row_refl|].
Qed.
Lemma harmless_send ch m : harmless (send_msg ch m).
Proof.
  intros s id c Hc. pose proof Hc as Hr. apply call_view_row in Hr as (_ & r & Hr & Ht & _).
  destruct (send_keeps ch m s id r Hr Ht) as [K1 K2]. revert c Hc.
  apply keeps_row_essence; [|done]. intros r' Hr' _. simplify_eq. eauto using keeps_row_refl.
Qed.
Lemma harmless_accept_chat ch : harmless (accept_chat ch).
Proof.
  intros s id c Hc. pose proof Hc as Hr. apply call_view_row in Hr as (_ & r & Hr & Ht & _).
  destruct (accept_keeps ch s id r Hr Ht) as [K1 K2]. revert c Hc.
  apply keeps_row_essence; [|done]. intros r' Hr' _. simplify_eq. eauto using keeps_row_refl.
Qed.
Lemma harmless_seen now i : harmless (mark_call_seen now i).
Proof.
  intros s id. unfold mark_call_seen. destruct (markseen_msgs now [i] (cdb s)) as [d|] eqn:E;
    [|apply same_essence_refl].
  apply markseen_keeps in E. apply keeps_row_essence; [|done]. intros r Hr _. by apply E.
Qed.
Hint Resolve harmless_update_text harmless_duration harmless_spawn harmless_send harmless_accept_chat
  harmless_seen : calls.

Lemma harmless_quote m q : harmless (set_quote m q).
Proof. unfold set_quote. case_bool_decide; [apply harmless_fail|]. case_bool_decide; harmless. Qed.
Lemma harmless_can_call from : harmless (can_call_me from).
Proof. unfold can_call_me. harmless. Qed.
Hint Resolve harmless_quote harmless_can_call : calls.

(** ** Marking a call *)

Definition write_param (id : MsgId) (q : str) : CallDb -> CallDb :=
  upd_cdb (set_msgs (alter (λ r, with_msg_param r q) id)).

Lemma write_param_view id c q s :
  call_view id s = Some c →
  ∃ c', call_view id (write_param id q s) = Some c'
     ∧ essence c' = essence (with_param c (load_params q)).
Proof.
  intros Hc. apply call_view_row in Hc as (H9 & r & Hr & Ht & Htr & Hid & _ & Hp & Hi & Hs).
  destruct (call_view_intro id (write_param id q s) (with_msg_param r q))
    as (c' & Hc' & Hp' & Hi' & Hs'); [done| |done|done|].
  { unfold write_param. cbn [upd_cdb cdb set_msgs msgs]. by rewrite lookup_alter_eq, Hr. }
  exists c'. split; [exact Hc'|].
  assert (is_incoming (with_param c (load_params q)) = is_incoming c) as E1 by reflexivity.
  unfold essence. rewrite Hi', Hs', Hp', E1, Hi. cbn [with_param msg cm_timestamp_sent cm_param]. by rewrite Hs.
Qed.

Lemma write_param_other id q k s : k ≠ id → same_essence k s (write_param id q s).
Proof.
  intros Hk. apply keeps_row_essence; [|done]. intros r' Hr' _. unfold write_param.
  cbn [upd_cdb cdb set_msgs msgs]. rewrite lookup_alter_ne by done. eauto using keeps_row_refl.
Qed.

(** The parameters of a call are replaced; other calls stay as they are. *)
Lemma update_param_effect id c p s :
  call_view id s = Some c →
  (∃ c', call_view id (update_param (with_param c p) s).2 = Some c'
     ∧ essence c' = essence (with_param c p))
  ∧ ∀ k, k ≠ id → same_essence k s (update_param (with_param c p) s).2.
Proof.
  intros Hc. pose proof Hc as Hid. apply call_view_row in Hid as (_ & r & _ & _ & _ & Hid & _).
  assert ((update_param (with_param c p) s).2 = write_param id (to_string p) s) as ->
    by (rewrite <-Hid; reflexivity).
  split; [|intros k Hk; by apply write_param_other].
  destruct (write_param_view id c (to_string p) s Hc) as (c' & Hc' & E). exists c'. split; [done|].
  by rewrite E, load_params_to_string.
Qed.

(** A mark: the parameters [p c] are written, the rest of the operation does nothing to calls. *)
Definition mark_with (p : Params) (c : CallInfo) : SE CallDb str CallInfo :=
  update_param (with_param c p) ;;; ret (with_param c p).

Definition accepted_params (now : Z) (c : CallInfo) : Params :=
  set_i64 (cm_param (msg c)) CALL_ACCEPTED_TIMESTAMP now.
Definition ended_params (now : Z) (c : CallInfo) : Params :=
  set_i64 (cm_param (msg c)) CALL_ENDED_TIMESTAMP now.
Definition canceled_params (now : Z) (c : CallInfo) : Params :=
  set_i64 (ended_params now c) CALL_CANCELED_TIMESTAMP now.

(** The call with identifier [id] gets the parameters [p]; other calls stay as they are. *)
Definition writes (id : MsgId) (c : CallInfo) (p : Params) (s s' : CallDb) : Prop :=
  (∃ c', call_view id s' = Some c' ∧ essence c' = essence (with_param c p))
  ∧ ∀ k, k ≠ id → same_essence k s s'.

Lemma writes_then id c p s s1 {A} (x : SE CallDb str A) :
  writes id c p s s1 → harmless x → writes id c p s (x s1).2.
Proof.
  intros [(c1 & H1 & E1) H2] Hx. split.
  - destruct (Hx s1 id c1 H1) as (c2 & Hc2 & E2). exists c2. split; [done|congruence].
  - intros k Hk. eapply same_essence_trans; [by apply H2|apply Hx].
Qed.

Lemma mark_writes {B} id c p (f : CallInfo -> SE CallDb str B) s :
  call_view id s = Some c → (∀ c', harmless (f c')) → writes id c p s (bind (mark_with p c) f s).2.
Proof.
  intros Hc Hf. destruct (update_param_effect id c p s Hc) as [H1 H2].
  change ((bind (mark_with p c) f s).2) with ((f (with_param c p) ((update_param (with_param c p) s).2)).2).
  apply writes_then; [|apply Hf]. by split.
Qed.

Lemma load_call_view id s c : call_view id s = Some c → load_call_by_id id s = (Ok (Some c), s).
Proof.
  unfold call_view, load_call_by_id, bind, gets, ok_or. destruct (load_msg id s) as [m|]; [|done].
  simpl. intros ->. done.
Qed.

Lemma load_no_call id s :
  call_view id s = None → (∃ e, load_call_by_id id s = (Err e, s)) ∨ load_call_by_id id s = (Ok None, s).
Proof.
  unfold call_view, load_call_by_id, bind, gets, ok_or. destruct (load_msg id s) as [m|]; [|by left; eexists].
  simpl. intros ->. by right.
Qed.

(** The call [id] takes the step [a] of the machine. *)
Definition moves (id : MsgId) (now : Z) (a : action) (s s' : CallDb) : Prop :=
  ∀ c, call_view id s = Some c → call_ok c →
    ∃ c', call_view id s' = Some c' ∧ is_incoming c' = is_incoming c ∧ (∀ t, is_stale t c' = is_stale t c)
      ∧ status_of c' = next (is_incoming c) now (status_of c) a ∧ call_ok c'.

(** An operation on the call [id] does [a] to it and leaves other calls alone. *)
Definition follows (id : MsgId) (now : Z) (a : action) (s s' : CallDb) : Prop :=
  moves id now a s s' ∧ ∀ k, k ≠ id → same_essence k s s'.

Lemma follows_writes id now a c p s s' :
  call_view id s = Some c → writes id c p s s' →
  (call_ok c → status_of (with_param c p) = next (is_incoming c) now (status_of c) a
     ∧ call_ok (with_param c p)) →
  follows id now a s s'.
Proof.
  intros Hc [(c1 & H1 & E1) H2] Hst. split; [|done]. intros c0 Hc0 Hok. assert (c0 = c) as -> by congruence.
  destruct (Hst Hok) as [S1 S2]. symmetry in E1. destruct (essence_determines _ _ E1) as (I1 & I2 & I3 & I4).
  exists c1. split_and!; [done|by rewrite <-I1|intros t; by rewrite <-I4|by rewrite <-I2|by apply I3].
Qed.

Lemma follows_same id now a s s' :
  (∀ k, same_essence k s s') →
  (∀ c, call_view id s = Some c → call_ok c → next (is_incoming c) now (status_of c) a = status_of c) →
  follows id now a s s'.
Proof.
  intros Hs Ha. split; [|intros k _; apply Hs]. intros c Hc Hok. destruct (Hs id c Hc) as (c' & Hc' & E).
  symmetry in E. destruct (essence_determines _ _ E) as (I1 & I2 & I3 & I4). exists c'.
  split_and!; [done|done|done|by rewrite Ha|by apply I3].
Qed.

(** ** Statuses after a mark *)

Lemma status_ringing c : is_accepted c = false → is_ended c = false → call_ok c → status_of c = Ringing.
Proof.
  intros Ha He Hok. unfold status_of. rewrite Ha, He. destruct (is_canceled c) eqn:E; [|done].
  specialize (Hok E). congruence.
Qed.

Lemma status_final c : is_ended c = true → call_ok c → ∃ st, status_of c = Over st.
Proof. intros He _. unfold status_of. rewrite He. destruct (is_accepted c), (is_canceled c); eauto. Qed.

Lemma exists_set p k k' z : Params_exists (set_i64 p k z) k' = bool_decide (k = k') || Params_exists p k'.
Proof.
  unfold Params_exists, set_i64, Params_set. cbn [inner]. case_bool_decide as E.
  - by rewrite E, lookup_insert_eq.
  - by rewrite lookup_insert_ne.
Qed.

Ltac marked := unfold status_of, call_ok, is_accepted, is_ended, is_canceled, accepted_params,
  canceled_params, ended_params in *; cbn [with_param msg cm_param] in *; rewrite ?exists_set in *; simpl in *.

Lemma marks_accepted now c :
  in_i64 now = true → is_accepted c = false → is_ended c = false → call_ok c →
  status_of (with_param c (accepted_params now c)) = Talking (Some now)
  ∧ call_ok (with_param c (accepted_params now c)).
Proof.
  intros Hn Ha He Hok. marked. rewrite He in *. split; [|done]. by rewrite get_i64_set_i64.
Qed.

Lemma marks_ended now c :
  is_accepted c = false → is_ended c = false → call_ok c →
  status_of (with_param c (ended_params now c)) = Over Declined
  ∧ call_ok (with_param c (ended_params now c)).
Proof.
  intros Ha He Hok. marked. rewrite Ha. destruct (Params_exists _ CALL_CANCELED_TIMESTAMP) eqn:E; [|done].
  rewrite Hok in He; done.
Qed.

Lemma marks_canceled now c :
  is_accepted c = false →
  status_of (with_param c (canceled_params now c)) = Over (if is_incoming c then Missed else Canceled)
  ∧ call_ok (with_param c (canceled_params now c)).
Proof. intros Ha. marked. by rewrite Ha. Qed.

Lemma marks_talked now c :
  in_i64 now = true → is_accepted c = true → is_ended c = false →
  status_of c = Talking (get_i64 (cm_param (msg c)) CALL_ACCEPTED_TIMESTAMP)
  ∧ status_of (with_param c (ended_params now c))
      = Over (talked now (get_i64 (cm_param (msg c)) CALL_ACCEPTED_TIMESTAMP))
  ∧ call_ok (with_param c (ended_params now c)).
Proof.
  intros Hn Ha He. marked. rewrite Ha, He. split_and!; [done| |done].
  do 2 f_equal. unfold duration_seconds, talked. cbn [with_param msg cm_param].
  rewrite get_i64_set_i64 by done. unfold set_i64. rewrite get_i64_set_other by done.
  by destruct (get_i64 _ CALL_ACCEPTED_TIMESTAMP).
Qed.

(** ** The operations *)

(** An operation that starts by loading the call: it does nothing to calls when there is none. *)
Lemma follows_load {A} id now a (f : option CallInfo -> SE CallDb str A) s :
  (∀ c, call_view id s = Some c → follows id now a s (f (Some c) s).2) →
  harmless (f None) → follows id now a s (bind (load_call_by_id id) f s).2.
Proof.
  intros Hf Hn. destruct (call_view id s) as [c|] eqn:Ec.
  - unfold bind. rewrite (load_call_view _ _ _ Ec). by apply Hf.
  - apply follows_same; [|congruence]. intros k. unfold bind.
    destruct (load_no_call _ _ Ec) as [[e ->]| ->]; [apply same_essence_refl|apply Hn].
Qed.

Lemma next_ended c now a :
  is_ended c = true → call_ok c → next (is_incoming c) now (status_of c) a = status_of c.
Proof. intros He Hok. destruct (status_final c He Hok) as [st ->]. by destruct a. Qed.

Lemma next_accepted c now :
  is_accepted c = true → next (is_incoming c) now (status_of c) Accept = status_of c.
Proof. intros Ha. unfold status_of. rewrite Ha. by destruct (is_ended c). Qed.

Lemma next_timeout c now :
  is_accepted c = true → next (is_incoming c) now (status_of c) Timeout = status_of c.
Proof. intros Ha. unfold status_of. rewrite Ha. by destruct (is_ended c). Qed.

(** Accepting a call that rings. *)
Lemma accept_follows {B} now id c (f : CallInfo -> SE CallDb str B) s :
  in_i64 now = true → call_view id s = Some c → is_accepted c = false → is_ended c = false →
  (∀ c', harmless (f c')) → follows id now Accept s (bind (mark_as_accepted now c) f s).2.
Proof.
  intros Hn Hc Ha He Hf.
  apply (follows_writes _ _ _ c (accepted_params now c)); [done|by apply (mark_writes id c (accepted_params now c))|].
  intros Hok. rewrite (status_ringing c) by done. by apply marks_accepted.
Qed.

(** Ending a call that rings, with the mark "ended" or "canceled". *)
Lemma end_follows {B} now id c a (f : CallInfo -> SE CallDb str B) s :
  call_view id s = Some c → is_accepted c = false → is_ended c = false → (∀ c', harmless (f c')) →
  next (is_incoming c) now Ringing a = Over Declined →
  follows id now a s (bind (mark_as_ended now c) f s).2.
Proof.
  intros Hc Ha He Hf Hnext.
  apply (follows_writes _ _ _ c (ended_params now c)); [done|by apply (mark_writes id c (ended_params now c))|].
  intros Hok. rewrite (status_ringing c), Hnext by done. by apply marks_ended.
Qed.

Lemma cancel_follows {B} now id c a (f : CallInfo -> SE CallDb str B) s :
  call_view id s = Some c → is_accepted c = false → is_ended c = false → (∀ c', harmless (f c')) →
  next (is_incoming c) now Ringing a = Over (if is_incoming c then Missed else Canceled) →
  follows id now a s (bind (mark_as_canceled now c) f s).2.
Proof.
  intros Hc Ha He Hf Hnext.
  apply (follows_writes _ _ _ c (canceled_params now c));
    [done|by apply (mark_writes id c (canceled_params now c))|].
  intros Hok. rewrite (status_ringing c), Hnext by done. by apply marks_canceled.
Qed.

(** Ending a call that is going on. *)
Lemma talk_follows {B} now id c a (f : CallInfo -> SE CallDb str B) s :
  in_i64 now = true → call_view id s = Some c → is_accepted c = true → is_ended c = false →
  (∀ c', harmless (f c')) → a = EndSelf ∨ a = EndPeer →
  follows id now a s (bind (mark_as_ended now c) f s).2.
Proof.
  intros Hn Hc Ha He Hf Hd.
  apply (follows_writes _ _ _ c (ended_params now c)); [done|by apply (mark_writes id c (ended_params now c))|].
  intros _. destruct (marks_talked now c Hn Ha He) as (-> & -> & Hok). split; [|done].
  by destruct Hd as [-> | ->].
Qed.

Lemma bind_assoc {A B D} (x : SE CallDb str A) (f : A -> SE CallDb str B) (g : B -> SE CallDb str D) s :
  bind (bind x f) g s = bind x (λ a, bind (f a) g) s.
Proof. unfold bind. by destruct (x s) as [[a|e] s1]. Qed.

Lemma harmless_no_call {A B} e (f : A -> SE CallDb str B) : harmless (bind (ok_or None e) f).
Proof. intros s id. apply same_essence_refl. Qed.

Lemma follows_idle id now a s c :
  call_view id s = Some c → (call_ok c → next (is_incoming c) now (status_of c) a = status_of c) →
  follows id now a s s.
Proof.
  intros Hc Ha. apply follows_same; [intros k; apply same_essence_refl|]. intros c' Hc'.
  by assert (c' = c) as -> by congruence.
Qed.

Lemma accept_incoming_follows now id info s :
  in_i64 now = true →
  follows id now (if bool_decide (is_incoming <$> call_view id s = Some true) then Accept else Other)
    s (accept_incoming_call now id info s).2.
Proof.
  intros Hn. unfold accept_incoming_call. apply follows_load; [|apply harmless_no_call].
  intros c Hc. rewrite Hc. cbn [fmap option_fmap option_map ok_or]. unfold bind at 1, ret at 1.
  destruct (is_incoming c) eqn:Ei; cbn [negb].
  2: { rewrite bool_decide_eq_false_2 by done. apply (follows_idle _ _ _ _ c); [done|]. by destruct (status_of c). }
  rewrite bool_decide_eq_true_2 by done. destruct (is_accepted c) eqn:Ea; cbn [orb].
  { apply (follows_idle _ _ _ _ c); [done|]. intros _. by apply next_accepted. }
  destruct (is_ended c) eqn:Ee; [apply (follows_idle _ _ _ _ c); [done|]; by apply next_ended|].
  apply accept_follows; [done..|]. intros c'. harmless.
Qed.

Lemma end_call_follows now id s :
  in_i64 now = true → follows id now EndSelf s (end_call now id s).2.
Proof.
  intros Hn. unfold end_call. apply follows_load; [|apply harmless_no_call].
  intros c Hc. cbn [ok_or]. unfold bind at 1, ret at 1.
  destruct (is_ended c) eqn:Ee; [apply (follows_idle _ _ _ _ c); [done|]; by apply next_ended|].
  unfold end_locally. destruct (is_accepted c) eqn:Ea; cbn [negb].
  - rewrite bind_assoc. apply talk_follows; try done; [|by left]. intros c'. harmless.
  - destruct (is_incoming c) eqn:Ei; rewrite bind_assoc.
    + apply end_follows; try done; [|by rewrite Ei]. intros c'. harmless.
    + apply cancel_follows; try done; [|by rewrite Ei]. intros c'. harmless.
Qed.

Lemma timeout_follows now id s :
  in_i64 now = true → follows id now Timeout s (emit_end_call_if_unaccepted now id s).2.
Proof.
  intros Hn. unfold emit_end_call_if_unaccepted. apply follows_load; [|harmless].
  intros c Hc. destruct (is_accepted c) eqn:Ea; cbn [negb andb].
  { apply (follows_idle _ _ _ _ c); [done|]. intros _. by apply next_timeout. }
  destruct (is_ended c) eqn:Ee; cbn [negb];
    [apply (follows_idle _ _ _ _ c); [done|]; by apply next_ended|].
  destruct (is_incoming c) eqn:Ei; rewrite bind_assoc.
  - apply cancel_follows; try done; [|by rewrite Ei]. intros c'. harmless.
  - apply end_follows; try done; [|by rewrite Ei]. intros c'. harmless.
Qed.

Lemma handle_call_harmless now id from : harmless (handle_call now id from).
Proof.
  unfold handle_call. apply harmless_bind; [unfold load_call_by_id; harmless|]. intros [c|]; harmless.
Qed.

Definition msg_action (mime : CallMime) (from_id : ContactId) : action :=
  if is_call mime then Other
  else match is_system_message mime with
       | SystemMessage.CallAccepted => Accept
       | SystemMessage.CallEnded => if (from_id =? SELF)%N then EndSelf else EndPeer
       | _ => Other
       end.

Lemma handle_accepted_follows now id mime s :
  in_i64 now = true → follows id now Accept s (handle_accepted now id mime s).2.
Proof.
  intros Hn. unfold handle_accepted. apply follows_load; [|harmless].
  intros c Hc. destruct (is_ended c) eqn:Ee; cbn [orb];
    [apply (follows_idle _ _ _ _ c); [done|]; by apply next_ended|].
  destruct (is_accepted c) eqn:Ea.
  { apply (follows_idle _ _ _ _ c); [done|]. intros _. by apply next_accepted. }
  apply accept_follows; [done..|]. intros c'. harmless.
Qed.

Lemma handle_ended_follows now id from s :
  in_i64 now = true →
  follows id now (if (from =? SELF)%N then EndSelf else EndPeer) s (handle_ended now id from s).2.
Proof.
  intros Hn. unfold handle_ended. apply follows_load; [|harmless].
  intros c Hc. destruct (is_ended c) eqn:Ee; [apply (follows_idle _ _ _ _ c); [done|]; by apply next_ended|].
  unfold end_remotely. destruct (is_accepted c) eqn:Ea; cbn [negb].
  - rewrite bind_assoc. apply talk_follows; try done; [|destruct (from =? SELF)%N; auto]. intros c'. harmless.
  - destruct (is_incoming c) eqn:Ei, (from =? SELF)%N; rewrite bind_assoc.
    + apply end_follows; try done; [|by rewrite Ei]. intros c'. harmless.
    + apply cancel_follows; try done; [|by rewrite Ei]. intros c'. harmless.
    + apply cancel_follows; try done; [|by rewrite Ei]. intros c'. harmless.
    + apply end_follows; try done; [|by rewrite Ei]. intros c'. harmless.
Qed.

Lemma handle_call_msg_follows now id mime from s :
  in_i64 now = true → follows id now (msg_action mime from) s (handle_call_msg now id mime from s).2.
Proof.
  intros Hn. unfold handle_call_msg, msg_action. destruct (is_call mime).
  { apply follows_same; [intros k; apply handle_call_harmless|]. intros c _ _. by destruct (status_of c). }
  destruct (is_system_message mime);
    try (apply follows_same; [intros k; apply same_essence_refl|intros c _ _; by destruct (status_of c)]).
  - by apply handle_accepted_follows.
  - by apply handle_ended_follows.
Qed.

(** ** Histories *)

(** Everything that happens on a device. *)
Inductive call_op :=
| OpPlace (chat_id : ChatId) (info : str) (video : bool)
| OpAccept (id : MsgId) (info : str)
| OpEnd (id : MsgId)
| OpTimeout (id : MsgId)
| OpMsg (id : MsgId) (mime : CallMime) (from_id : ContactId).

Definition exec (now : Z) (op : call_op) : SE CallDb str unit :=
  match op with
  | OpPlace chat_id info video => place_outgoing_call chat_id info video ;;; ret tt
  | OpAccept id info => accept_incoming_call now id info
  | OpEnd id => end_call now id
  | OpTimeout id => emit_end_call_if_unaccepted now id
  | OpMsg id mime from_id => handle_call_msg now id mime from_id
  end.

(** What an operation means for the call [id]. *)
Definition op_action (id : MsgId) (incoming : bool) (op : call_op) : action :=
  match op with
  | OpPlace _ _ _ => Other
  | OpAccept i _ => if (i =? id)%N && incoming then Accept else Other
  | OpEnd i => if (i =? id)%N then EndSelf else Other
  | OpTimeout i => if (i =? id)%N then Timeout else Other
  | OpMsg i mime from_id => if (i =? id)%N then msg_action mime from_id else Other
  end.

(** An operation that fails keeps the changes made before the failure. *)
Definition run_calls (s : CallDb) (history : list (Z * call_op)) : CallDb :=
  foldl (λ s o, (exec o.1 o.2 s).2) s history.

Definition machine (id : MsgId) (incoming : bool) (st : status) (history : list (Z * call_op)) : status :=
  foldl (λ st o, next incoming o.1 st (op_action id incoming o.2)) st history.

Lemma same_moves id now s s' : same_essence id s s' → moves id now Other s s'.
Proof.
  intros H2 c Hc Hok. destruct (H2 c Hc) as (c' & Hc' & E). symmetry in E.
  destruct (essence_determines _ _ E) as (I1 & I2 & I3 & I4). exists c'. split_and!; try done; [|by apply I3].
  rewrite <-I2. by destruct (status_of c).
Qed.

Lemma follows_moves id k now a s s' :
  follows k now a s s' → moves id now (if (k =? id)%N then a else Other) s s'.
Proof.
  intros [H1 H2]. destruct (k =? id)%N eqn:E; [by apply N.eqb_eq in E as ->|]. apply N.eqb_neq in E.
  apply same_moves, H2. congruence.
Qed.

Lemma exec_moves id now op s c :
  in_i64 now = true → call_view id s = Some c →
  moves id now (op_action id (is_incoming c) op) s (exec now op s).2.
Proof.
  intros Hn Hc. destruct op as [ch info v|i info|i|i|i mime from]; simpl.
  - apply same_moves. unfold place_outgoing_call. enough (harmless (place_outgoing_call ch info v ;;; ret tt)) as Hh
      by apply Hh. unfold place_outgoing_call. harmless.
  - pose proof (follows_moves id _ _ _ _ _ (accept_incoming_follows now i info s Hn)) as Hm.
    destruct (i =? id)%N eqn:E; [|done]. apply N.eqb_eq in E as ->. rewrite Hc in Hm. simpl in *.
    by destruct (is_incoming c).
  - by apply follows_moves, end_call_follows.
  - by apply follows_moves, timeout_follows.
  - by apply follows_moves, handle_call_msg_follows.
Qed.

Lemma history_moves history id s c :
  Forall (λ o, in_i64 o.1 = true) history → call_view id s = Some c → call_ok c →
  ∃ c', call_view id (run_calls s history) = Some c' ∧ is_incoming c' = is_incoming c
    ∧ (∀ t, is_stale t c' = is_stale t c)
    ∧ status_of c' = machine id (is_incoming c) (status_of c) history ∧ call_ok c'.
Proof.
  intros Hn. revert s c. induction Hn as [|[now op] history Hn _ IH]; intros s c Hc Hok; [by exists c|].
  simpl in *. destruct (exec_moves id now op s c Hn Hc c Hc Hok) as (c1 & Hc1 & I1 & T1 & S1 & O1).
  destruct (IH _ c1 Hc1 O1) as (c2 & Hc2 & I2 & T2 & S2 & O2). exists c2.
  split_and!; [done|congruence|intros t; by rewrite T2|by rewrite S2, S1, I1|done].
Qed.

Lemma call_state_view t id s c :
  call_view id s = Some c →
  (call_state t id s).1 = Ok (shown (is_incoming c) (is_stale t c) (status_of c)).
Proof.
  intros Hc. unfold call_state, bind. rewrite (load_call_view _ _ _ Hc). simpl.
  by rewrite state_of_status.
Qed.

(** *** What the documentation of [CallState] says *)

(** As [next], but an outgoing call that nobody answers in time has an end of its own: it was not declined
    before the timeout, which is what the documentation calls declined. *)
Inductive fate := Known (st : status) | Unanswered.

Definition fate_next (incoming : bool) (now : Z) (f : fate) (a : action) : fate :=
  match f, a with
  | Known Ringing, Timeout => if incoming then Known (Over Missed) else Unanswered
  | Known st, a => Known (next incoming now st a)
  | Unanswered, _ => Unanswered
  end.

(** What the documentation says is shown; nothing for an outgoing call that nobody answers. *)
Definition documented (incoming stale : bool) (f : fate) : option CallState :=
  match f with
  | Known Ringing => if stale then (if incoming then Some Missed else None) else Some Alerting
  | Known (Talking _) => Some Active
  | Known (Over st) => Some st
  | Unanswered => None
  end.

Definition fate_of (id : MsgId) (incoming : bool) (st : status) (history : list (Z * call_op)) : fate :=
  foldl (λ f o, fate_next incoming o.1 f (op_action id incoming o.2)) (Known st) history.

(** The machine of the code gives an unanswered call the state of a declined one. *)
Definition code_status (f : fate) : status := match f with Known st => st | Unanswered => Over Declined end.

Lemma fate_next_status incoming now f a :
  code_status (fate_next incoming now f a) = next incoming now (code_status f) a.
Proof. destruct f as [[|start|st]|], a, incoming; done. Qed.

Lemma fate_of_status id incoming st history :
  code_status (fate_of id incoming st history) = machine id incoming st history.
Proof.
  unfold fate_of, machine. change st with (code_status (Known st)) at 2. generalize (Known st).
  induction history as [|[now op] history IH]; intros f; [done|]. cbn [foldl]. by rewrite IH, fate_next_status.
Qed.

Lemma documented_shown incoming stale f :
  match documented incoming stale f with
  | Some st => shown incoming stale (code_status f) = st
  | None => shown incoming stale (code_status f) ≠ Alerting ∧ shown incoming stale (code_status f) ≠ Active
  end.
Proof. by destruct f as [[|start|st]|], stale, incoming. Qed.

(** C17. Every call follows one small state machine: whatever the user does, whatever messages arrive
    from whomever in whatever order, and however operations fail, the state shown for a call after a
    history is the documented one for where the machine of [fate_next] has come from the actions on this
    call. A call that is over stays as it is, a call that is going on can only be completed, actions on
    other calls do not matter, and an incoming call that rings too long is shown as missed. An outgoing
    call that nobody answers in time is shown as neither ringing nor going on; which of the other states
    the code gives it, for which the documentation has none, is left open. *)
Theorem call_follows_machine history id s c t :
  Forall (λ o, in_i64 o.1 = true) history → call_view id s = Some c → call_ok c →
  ∃ st, (call_state t id (run_calls s history)).1 = Ok st
    ∧ match documented (is_incoming c) (is_stale t c) (fate_of id (is_incoming c) (status_of c) history) with
      | Some st' => st = st'
      | None => st ≠ Alerting ∧ st ≠ Active
      end.
Proof.
  intros Hn Hc Hok. destruct (history_moves _ _ _ _ Hn Hc Hok) as (c' & Hc' & I & T & S & _).
  eexists. split; [by rewrite (call_state_view t id _ c' Hc'), I, T, S, <-fate_of_status|]. apply documented_shown.
Qed.

(** ** Two parties *)

(** What a party does, with the time on its device and on the device of the other party. *)
Inductive turn := Accepts (info : str) | Hangs (by_caller : bool).

Definition note_of (m : SystemMessage.SystemMessage) (info : option str) : CallMime :=
  {| first_part_type := Some Viewtype.Text; is_system_message := m; webrtc_accepted_header := info |}.

(** A party acts and the other party receives the message about it; [None] when an operation fails.
    [a] is the call on the phone of the caller, who knows the callee as [callee]; [b] on the other. *)
Definition take_turn (a b : MsgId) (caller callee : ContactId) (phones : CallDb * CallDb) (t : Z * Z * turn)
  : option (CallDb * CallDb) :=
  let '(now, later, what) := t in
  let '(sa, sb) := phones in
  let both (x y : result unit str * CallDb) (mk : CallDb -> CallDb -> CallDb * CallDb) :=
    match x, y with (Ok _, s), (Ok _, s') => Some (mk s s') | _, _ => None end in
  match what with
  | Accepts info =>
      both (accept_incoming_call now b info sb)
           (handle_call_msg later a (note_of SystemMessage.CallAccepted (Some info)) callee sa)
           (λ s s', (s', s))
  | Hangs true =>
      both (end_call now a sa) (handle_call_msg later b (note_of SystemMessage.CallEnded None) caller sb)
           (λ s s', (s, s'))
  | Hangs false =>
      both (end_call now b sb) (handle_call_msg later a (note_of SystemMessage.CallEnded None) callee sa)
           (λ s s', (s', s))
  end.

(** The statuses of a call on the phones of the caller and of the callee that fit together. *)
Inductive mirrored : status -> status -> Prop :=
| both_ring : mirrored Ringing Ringing
| both_talk x y : mirrored (Talking x) (Talking y)
| both_done x y : mirrored (Over (Completed x)) (Over (Completed y))
| both_declined : mirrored (Over Declined) (Over Declined)
| canceled_missed : mirrored (Over Canceled) (Over Missed).

Definition on_line (a b : MsgId) (phones : CallDb * CallDb) : Prop :=
  ∃ ca cb, call_view a phones.1 = Some ca ∧ call_view b phones.2 = Some cb ∧ call_ok ca ∧ call_ok cb
    ∧ is_incoming ca = false ∧ is_incoming cb = true ∧ mirrored (status_of ca) (status_of cb).

Lemma mirrored_turn a b ca cb sa sb sa' sb' now later act act' :
  call_view a sa = Some ca → call_view b sb = Some cb → call_ok ca → call_ok cb →
  is_incoming ca = false → is_incoming cb = true →
  moves a now act sa sa' → moves b later act' sb sb' →
  mirrored (next false now (status_of ca) act) (next true later (status_of cb) act') →
  on_line a b (sa', sb').
Proof.
  intros Ha Hb Oa Ob Ia Ib Ma Mb Hm.
  destruct (Ma _ Ha Oa) as (ca' & Ha' & Ia' & _ & Sa & Oa').
  destruct (Mb _ Hb Ob) as (cb' & Hb' & Ib' & _ & Sb & Ob').
  exists ca', cb'. simpl. rewrite Sa, Sb, Ia', Ib', Ia, Ib. done.
Qed.

Lemma turn_keeps a b caller callee phones t phones' :
  caller ≠ SELF → callee ≠ SELF → in_i64 t.1.1 = true → in_i64 t.1.2 = true →
  on_line a b phones → take_turn a b caller callee phones t = Some phones' → on_line a b phones'.
Proof.
  intros Hr He Hn Hl (ca & cb & Ha & Hb & Oa & Ob & Ia & Ib & Hm) H. destruct t as [[now later] what].
  destruct phones as [sa sb]. simpl in *.
  assert (∀ m info f, m = SystemMessage.CallEnded → f ≠ SELF → msg_action (note_of m info) f = EndPeer) as Hend.
  { intros m info f -> Hf. unfold msg_action. simpl. by rewrite (proj2 (N.eqb_neq _ _) Hf). }
  destruct what as [info|[]].
  - pose proof (accept_incoming_follows now b info sb Hn) as [M1 _].
    rewrite Hb, bool_decide_eq_true_2 in M1 by (simpl; congruence).
    pose proof (handle_call_msg_follows later a (note_of SystemMessage.CallAccepted (Some info)) callee sa Hl)
      as [M2 _].
    destruct (accept_incoming_call now b info sb) as [[[]|] s1]; [|done].
    destruct (handle_call_msg later a _ callee sa) as [[[]|] s2]; [|done]. simplify_eq.
    eapply mirrored_turn; eauto. inversion Hm; constructor.
  - pose proof (end_call_follows now a sa Hn) as [M1 _].
    pose proof (handle_call_msg_follows later b (note_of SystemMessage.CallEnded None) caller sb Hl) as [M2 _].
    rewrite Hend in M2 by done. destruct (end_call now a sa) as [[[]|] s1]; [|done].
    destruct (handle_call_msg later b _ caller sb) as [[[]|] s2]; [|done]. simplify_eq.
    eapply mirrored_turn; eauto. inversion Hm; constructor.
  - pose proof (end_call_follows now b sb Hn) as [M1 _].
    pose proof (handle_call_msg_follows later a (note_of SystemMessage.CallEnded None) callee sa Hl) as [M2 _].
    rewrite Hend in M2 by done. destruct (end_call now b sb) as [[[]|] s1]; [|done].
    destruct (handle_call_msg later a _ callee sa) as [[[]|] s2]; [|done]. simplify_eq.
    eapply mirrored_turn; eauto. inversion Hm; constructor.
Qed.

Fixpoint take_turns (a b : MsgId) (caller callee : ContactId) (phones : CallDb * CallDb)
  (turns : list (Z * Z * turn)) : option (CallDb * CallDb) :=
  match turns with
  | [] => Some phones
  | t :: turns => phones ← take_turn a b caller callee phones t; take_turns a b caller callee phones turns
  end.

(** Caller and callee agree about a call: as long as each message about it arrives before the next
    action, both phones ring, both talk, both show a completed call, both show it as declined, or the
    caller shows it as canceled and the callee as missed, whoever accepts and hangs up in whatever
    order. *)
Theorem calls_agree a b caller callee phones turns phones' :
  caller ≠ SELF → callee ≠ SELF → Forall (λ t, in_i64 t.1.1 = true ∧ in_i64 t.1.2 = true) turns →
  on_line a b phones → take_turns a b caller callee phones turns = Some phones' → on_line a b phones'.
Proof.
  intros Hr He Hn. revert phones. induction Hn as [|t turns [Hn1 Hn2] _ IH]; intros phones Hl H; simpl in H.
  { by simplify_eq. }
  destruct (take_turn a b caller callee phones t) as [p|] eqn:Et; [|done]. simpl in H.
  apply (IH p); [|done]. by apply (turn_keeps a b caller callee phones t).
Qed.

(** ** Ringing *)

Definition may_call (w : WhoCanCallMe) (chat : result (option Blocked.Blocked) str) : bool :=
  match w, chat with
  | Nobody, _ => false
  | _, Err _ => false
  | Contacts, Ok b => bool_decide (b = Some Blocked.Not)
  | Everybody, Ok b => negb (bool_decide (b = Some Blocked.Yes))
  end.

Definition rings (e : CallEvent) : bool := match e with IncomingCall _ _ _ _ => true | _ => false end.

Lemma can_call_me_spec from s :
  ∃ r, can_call_me from s = (r, s)
    ∧ may_call (who_can_call_me s) (lookup_by_contact from s) = match r with Ok b => b | Err _ => false end.
Proof.
  unfold can_call_me, bind, gets, ret. destruct (who_can_call_me s); simpl; [| |by eexists];
    (destruct (lookup_by_contact from s) as [o|e]; by eexists).
Qed.

(** A phone rings only when it may: the message of a call makes the phone ring exactly when the
    call is incoming and fresh and the setting allows calls of the sender, whose chat is neither
    blocked nor, if only contacts may call, a contact request or missing; it rings at most once. A task
    that ends the call is started for every incoming call that is not stale, unless the operation fails,
    and it sleeps at least 0 and at most 120 seconds. *)
Theorem rings_only_when_allowed now id mime from s c r s' :
  is_call mime = true → call_view id s = Some c → handle_call_msg now id mime from s = (r, s') →
  let fresh := is_incoming c && negb (is_stale now c) in
  let allowed := may_call (who_can_call_me s) (lookup_by_contact from s) in
  (∃ new, call_events s' = call_events s ++ new
     ∧ base.filter (λ e, rings e = true) new
       = if fresh && allowed
         then [IncomingCall id (cm_chat_id (msg c)) (place_call_info c) (has_video_initially c)] else [])
  ∧ waiting s' = waiting s ++ (if fresh && match r with Ok _ => true | Err _ => false end
                               then [(remaining_ring_seconds now c, id)] else [])
  ∧ (0 <= remaining_ring_seconds now c <= 120)%Z.
Proof.
  intros Hm Hc H fresh allowed.
  assert (0 <= remaining_ring_seconds now c <= 120)%Z as Hw
    by (unfold remaining_ring_seconds, RINGING_SECONDS; lia).
  unfold handle_call_msg in H. rewrite Hm in H. unfold handle_call in H. unfold bind at 1 in H.
  rewrite (load_call_view _ _ _ Hc) in H. unfold fresh.
  destruct (is_incoming c) eqn:Ei; cbn [andb].
  2: { unfold update_text, bind, modify in H. case_bool_decide; simplify_eq; simpl; rewrite app_nil_r; eauto. }
  destruct (is_stale now c); cbn [negb andb].
  { unfold update_text, bind, modify in H. case_bool_decide; simplify_eq; simpl; rewrite app_nil_r; eauto. }
  unfold bind at 1 2 in H. unfold update_text, modify in H.
  set (s1 := if bool_decide _ then _ else s) in H.
  assert (cdb s1 = cdb s ∧ who_can_call_me s1 = who_can_call_me s ∧ call_events s1 = call_events s
    ∧ waiting s1 = waiting s) as (D & W & E & Wt) by (unfold s1; by case_bool_decide).
  set (s2 := emit_call _ s1) in H. destruct (can_call_me_spec from s2) as (rr & Hr & Hmay).
  assert (allowed = match rr with Ok b => b | Err _ => false end) as ->.
  { rewrite <-Hmay. unfold allowed. change (who_can_call_me s2) with (who_can_call_me s1). rewrite W.
    by rewrite (lookup_reads_db from s s2). }
  unfold bind at 1 in H. rewrite Hr in H. destruct rr as [b|e].
  2: { simplify_eq. simpl. rewrite E, Wt, app_nil_r. eauto. }
  unfold spawn_end_call in H. rewrite (proj2 (Z.ltb_ge _ _)) in H by lia.
  destruct b; unfold when, bind, modify, ret in H; simplify_eq; simpl; rewrite E, Wt, <-?app_assoc; eauto.
Qed.
End Machine.

(** ** Examples *)

Module CallExamples.
Definition call_row (from : ContactId) (chat_id : ChatId) (p : Params) (ty : Viewtype) : msg_row :=
  {| m_rfc724_mid := lit "a@x"; m_pre_rfc724_mid := []; m_chat_id := chat_id; m_from_id := from; m_timestamp := 5;
     m_timestamp_rcvd := 0; m_type := ty; m_state := MessageState.InFresh; m_hidden := false;
     m_param := to_string p; m_location_id := 0; m_error := []; m_ephemeral_timer := 0;
     m_ephemeral_timestamp := 0; m_download_state := DownloadState.Done; m_deleted := false |}.

(** Sending stores the message as the next row. *)
Definition small_send (chat_id : ChatId) (m : OutMsg) : SE CallDb str MsgId := λ s,
  let id := (foldr N.max 0 (map_to_list (msgs (cdb s))).*1 + 1)%N in
  (Ok id, upd_cdb (set_msgs (<[id := call_row SELF chat_id (om_param m) (om_viewtype m)]>)) s).

#[local] Instance small_phone : Phone := {|
  send_msg := small_send; accept_chat _ := ret tt; lookup_by_contact c _ := Ok (if (c =? 11)%N then Some Blocked.Not else None);
  translated m := match m with MissedCall => lit "missed" | DeclinedCall => lit "declined"
                  | CanceledCall => lit "canceled" | _ => lit "call" end;
  summary_text _ _ := Ok (lit "Call") |}.

Lemma foldr_max_elem (x : N) l : x ∈ l → (x <= foldr N.max 0 l)%N.
Proof. intros Hx. induction Hx as [x l|x y l Hx IH]; simpl; lia. Qed.

#[local] Instance small_phone_ok : PhoneOk.
Proof.
  split; try done. intros ch m s id r Hr _. split; [|done]. simpl. rewrite lookup_insert_ne; [done|].
  intros E. assert (id <= foldr N.max 0 (map_to_list (msgs (cdb s))).*1)%N; [|lia].
  apply foldr_max_elem. apply list_elem_of_fmap. exists (id, r). split; [done|]. by apply elem_of_map_to_list.
Qed.

Definition phone (from : ContactId) : CallDb :=
  {| cdb := {| msgs := {[20%N := call_row from 30 Params_new Viewtype.Call]}; msgs_mdns := []; smtp_mdns := [];
               imap_table := ∅; imap_markseen := []; locations := ∅;
               chats := {[30%N := {| cs_type := Chattype.Single; cs_visibility := ChatVisibility.Normal;
                                     cs_blocked := Some Blocked.Not; cs_ephemeral_timer := None; cs_param := [] |}]};
               last_msg_id := 20; bcc_self := false; mdns_enabled := true; delete_device_after := 0;
               self_chat := None; device_chat := None; events := [] |};
     txt := ∅; timestamp_sent := {[20%N := 1000%Z]}; who_can_call_me_int := 1; waiting := []; call_events := [] |}.

Definition call_of (from : ContactId) : CallInfo :=
  default {| place_call_info := []; accept_call_info := [];
             msg := {| cm_id := 0; cm_chat_id := 0; cm_from_id := 0; cm_rfc724_mid := []; cm_timestamp_sent := 0;
                       cm_viewtype := Viewtype.Unknown; cm_text := []; cm_param := Params_new |} |}
    (call_view 20 (phone from)).

(** The callee talks for 50 seconds, a late message and a late hang-up change nothing. *)
Definition callee_history : list (Z * call_op) :=
  [(1010, OpAccept 20 (lit "ok")); (1060, OpEnd 20); (1061, OpMsg 20 (note_of SystemMessage.CallEnded None) 11);
   (1120, OpTimeout 20)]%Z.

Lemma call_follows_machine_witness :
  documented true (is_stale 2000 (call_of 11)) (fate_of 20 true (status_of (call_of 11)) callee_history) = Some (Completed 50)
  ∧ (call_state 2000 20 (run_calls (phone 11) callee_history)).1 = Ok (Completed 50).
Proof.
  assert (E : documented true (is_stale 2000 (call_of 11)) (fate_of 20 true (status_of (call_of 11)) callee_history)
    = Some (Completed 50)) by (vm_compute; reflexivity).
  split; [exact E|].
  destruct (call_follows_machine callee_history 20 (phone 11) (call_of 11) 2000) as (st & H & Hst).
  - repeat constructor.
  - vm_compute. reflexivity.
  - vm_compute. done.
  - change (is_incoming (call_of 11)) with true in Hst. rewrite E in Hst. by rewrite H, Hst.
Defined.

Lemma calls_agree_witness :
  (λ p, ((call_state 2000 20 p.1).1, (call_state 2000 20 p.2).1))
    <$> take_turns 20 20 11 11 (phone SELF, phone 11) [(1005, 1006, Hangs true); (1010, 1012, Accepts [])]%Z
    = Some (Ok Canceled, Ok Missed)
  ∧ match take_turns 20 20 11 11 (phone SELF, phone 11) [(1005, 1006, Hangs true); (1010, 1012, Accepts [])]%Z with
    | Some p => on_line 20 20 p
    | None => False
    end.
Proof.
  split; [vm_compute; reflexivity|].
  destruct (take_turns _ _ _ _ _ _) as [p|] eqn:E; [|vm_compute in E; done].
  apply (calls_agree 20 20 11 11 (phone SELF, phone 11)
    [(1005, 1006, Hangs true); (1010, 1012, Accepts [])]%Z); [done|done|repeat constructor| |done].
  exists (call_of SELF), (call_of 11). split; [vm_compute; reflexivity|]. split; [vm_compute; reflexivity|].
  split; [vm_compute; done|]. split; [vm_compute; done|]. split; [vm_compute; reflexivity|].
  split; [vm_compute; reflexivity|]. vm_compute. apply both_ring.
Defined.

Definition call_mime : CallMime :=
  {| first_part_type := Some Viewtype.Call; is_system_message := SystemMessage.Unknown; webrtc_accepted_header := None |}.

Lemma rings_only_when_allowed_witness :
  call_events (handle_call_msg 1030 20 call_mime 11 (phone 11)).2 = [MsgsChanged 30 20; IncomingCall 20 30 [] false]
  ∧ waiting (handle_call_msg 1030 20 call_mime 11 (phone 11)).2 = [(90%Z, 20%N)]
  ∧ ((∃ new, call_events (handle_call_msg 1030 20 call_mime 11 (phone 11)).2 = call_events (phone 11) ++ new
       ∧ base.filter (λ e, rings e = true) new
         = if is_incoming (call_of 11) && negb (is_stale 1030 (call_of 11))
              && may_call (who_can_call_me (phone 11)) (lookup_by_contact 11 (phone 11))
           then [IncomingCall 20 (cm_chat_id (msg (call_of 11))) (place_call_info (call_of 11))
                   (has_video_initially (call_of 11))] else [])
     ∧ waiting (handle_call_msg 1030 20 call_mime 11 (phone 11)).2
       = waiting (phone 11) ++ (if is_incoming (call_of 11) && negb (is_stale 1030 (call_of 11))
                   && match (handle_call_msg 1030 20 call_mime 11 (phone 11)).1 with Ok _ => true | Err _ => false end
                then [(remaining_ring_seconds 1030 (call_of 11), 20%N)] else [])
     ∧ (0 <= remaining_ring_seconds 1030 (call_of 11) <= 120)%Z).
Proof.
  split; [vm_compute; reflexivity|]. split; [vm_compute; reflexivity|].
  apply (rings_only_when_allowed 1030 20 call_mime 11 (phone 11) (call_of 11)
    (handle_call_msg 1030 20 call_mime 11 (phone 11)).1 (handle_call_msg 1030 20 call_mime 11 (phone 11)).2).
  - reflexivity.
  - vm_compute. reflexivity.
  - by destruct (handle_call_msg 1030 20 call_mime 11 (phone 11)).
Defined.

(** An outgoing call that the other side rejects is not "canceled", as the documentation of
    [is_canceled] has it; one that the own user cancels is. *)
Example rejected_is_not_canceled :
  (is_canceled <$> call_view 20 (handle_call_msg 1030 20 (note_of SystemMessage.CallEnded None) 11 (phone SELF)).2,
   is_canceled <$> call_view 20 (end_call 1030 20 (phone SELF)).2) = (Some false, Some true).
Proof. vm_compute. reflexivity. Qed.

(** An outgoing call that nobody answers is declined for [call_state], which documents this state as
    declined before the timeout, and canceled for the text of the message. *)
Example unanswered_is_declined :
  let s := (emit_end_call_if_unaccepted 1120 20 (phone SELF)).2 in
  ((call_state 1120 20 s).1, txt s !! 20%N) = (Ok Declined, Some (lit "canceled")).
Proof. vm_compute. reflexivity. Qed.
End CallExamples.
