(* ===== verification/ChatAssign.v ===== *)
(** ChatAssign: which chat a received message belongs to (src/src/receive_imf.rs,
    decide_chat_assignment, do_chat_assignment and what they call). *)
From stdpp Require Import sorting.
From S2P Require Import Prelude Monad Ids Params Membership ContactTools Headers MsgTable.
From S2P Require Import Db Contacts Recipients GroupChanges LoginParam Config Sync ChatDb.

(** ** Data *)

(** [struct Part]: a part of a parsed message. *)
Record Part := {
  p_typ : Viewtype;
  p_msg : str;
  p_param : Params;
  p_is_reaction : bool;
  p_error : option str
}.

(** [struct PostMsgMetadata]. *)
Record PostMsgMetadata := {
  pm_size : N;
  pm_viewtype : Viewtype;
  pm_filename : str;
  pm_wh : option (Z * Z);
  pm_duration : option Z
}.

(** [enum PreMessageMode]. *)
Inductive PreMessageMode :=
| Post
| Pre (post_msg_rfc724_mid : str) (metadata : option PostMsgMetadata)
| NoPre.

(** The parsed message, as far as reception reads it: [mime] has the headers, the times and the
    fingerprint of the key that signed it; [recipient_fps] are the intended recipients the signature
    names, [autocrypt_fp] is the fingerprint of the key of the Autocrypt header, [gossip_verified] are
    the addresses whose gossiped key is marked as verified; a receipt is the list of the messages it
    is for. *)
Record InMime := {
  mime : MimeMessage;
  incoming : bool;
  from : SingleInfo;
  recipients : list SingleInfo;
  past_members : list SingleInfo;
  recipient_fps : list Fingerprint;
  autocrypt_fp : option str;
  gossip_verified : gset str;
  parts : list Part;
  mdn_reports : list (list str);
  delivery_report : bool;
  has_sync_items : bool;
  is_system_message : SystemMessage.SystemMessage;
  decryption_error : option str;
  pre_message : PreMessageMode;
  webxdc_status_update : option str;
  list_post : option str;
  location_kml : bool;
  is_mime_modified : bool;
  timestamp_rcvd : Z
}.

(** [enum ChatAssignment]. *)
Inductive ChatAssignment :=
| Trash
| GroupChat (grpid : str)
| MailingListOrBroadcast
| AdHocGroup
| ExistingChat (chat_id : ChatId) (chat_id_blocked : Blocked.Blocked)
| OneOneChat.

#[export] Instance ChatAssignment_eq_dec : EqDecision ChatAssignment.
Proof. solve_decision. Defined.

(** What the statements do not determine or other components do: the row an aggregate query shows
    ([choose], a position in the list), queueing a message to be marked as seen on the server, the
    device message about own messages that cannot be decrypted. *)
Class Intake := {
  choose : list N -> nat;
  markseen_on_imap_table : str -> C unit;
  add_cant_decrypt_msg : str -> str -> C unit
}.

(** ** Headers (mimeparser.rs) *)

(** [MimeMessage::get_mailinglist_header]. *)
Definition get_mailinglist_header (m : MimeMessage) : option str :=
  match get_header m HeaderDef.ListId with
  | Some list_id => Some list_id
  | None =>
      match get_header m HeaderDef.ChatListId with
      | Some chat_list_id => Some chat_list_id
      | None =>
          match get_header m HeaderDef.Sender, get_header m HeaderDef.Precedence with
          | Some sender, Some precedence =>
              if bool_decide (precedence = lit "list") || bool_decide (precedence = lit "bulk")
              then Some sender else None
          | _, _ => None
          end
      end
  end.

(** [MimeMessage::is_mailinglist_message]. *)
Definition is_mailinglist_message (m : MimeMessage) : bool :=
  bool_decide (is_Some (get_mailinglist_header m)).

(** [tools::validate_id]. *)
Definition validate_id (s : str) : bool :=
  forallb is_base64url s && (10 <? byte_len s)%N && (byte_len s <=? 32)%N.

(** [MimeMessage::get_chat_group_id]. *)
Definition get_chat_group_id (m : MimeMessage) : option str :=
  match get_header m HeaderDef.ChatGroupId with
  | Some s => if validate_id s then Some s else None
  | None => None
  end.

(** [MimeMessage::has_chat_version]. *)
Definition has_chat_version (m : MimeMessage) : bool :=
  bool_decide (is_Some (get_header m HeaderDef.ChatVersion)).

(** [MimeMessage::get_subject]. *)
Definition get_subject (m : MimeMessage) : option str :=
  match trim_start <$> get_header m HeaderDef.Subject with
  | Some (c :: s) => Some (c :: s)
  | _ => None
  end.

(** [str::split_whitespace]. *)
Fixpoint words (word : str) (s : str) : list str :=
  match s with
  | [] => if bool_decide (word = []) then [] else [word]
  | c :: s' =>
      if is_whitespace c then (if bool_decide (word = []) then [] else [word]) ++ words [] s'
      else words (word ++ [c]) s'
  end.

Definition split_whitespace (s : str) : list str := words [] s.

(** [parse_message_ids]. *)
Definition unbracket (id : str) : str :=
  let id := default id (strip_prefix [60%N] id) in
  default id (strip_suffix [62%N] id).

Definition parse_message_ids (ids : str) : list str :=
  base.filter (λ id, id ≠ []) (unbracket <$> split_whitespace ids).

(** [should_prevent_rename]. *)
Definition should_prevent_rename (m : MimeMessage) : bool :=
  (is_mailinglist_message m && negb (was_encrypted m))
  || bool_decide (is_Some (get_header m HeaderDef.Sender)).

(** [tools::remove_subject_prefix]. *)
Definition remove_subject_prefix (last_subject : str) : str :=
  let subject_start :=
    match strip_prefix (lit "Chat:") last_subject with
    | Some _ => 0%nat
    | None =>
        match list_find (λ c, c = 58%N) (take 5 last_subject) with
        | Some (prefix_end, _) => S prefix_end
        | None => 0%nat
        end
    end in
  trim (drop subject_start last_subject).

(** ** Mailing lists *)

(** [LIST_ID_REGEX], [^(.+)<(.+)>$]: the first group is as long as possible. *)
Fixpoint last_angle (before s : str) (found : option (str * str)) : option (str * str) :=
  match s with
  | [] => found
  | c :: s' =>
      last_angle (before ++ [c]) s'
        (if (c =? 60)%N && negb (bool_decide (before = [])) && negb (bool_decide (s' = []))
         then Some (before, s') else found)
  end.

Definition list_id_captures (s : str) : option (str * str) :=
  if existsb (N.eqb LF) s then None
  else match strip_suffix [62%N] s with
       | Some t => last_angle [] t None
       | None => None
       end.

(** [mailinglist_header_listid]. *)
Definition mailinglist_header_listid (list_id_header : str) : str :=
  match list_id_captures list_id_header with
  | Some (_, id) => trim id
  | None => trim_end_by (N.eqb 62) (trim_start_by (N.eqb 60) (trim list_id_header))
  end.

(** The regular expression [^.{0,5}\[(.+?)\](\s*\[.+\])?] on a subject: the lazy group up to the
    first closing bracket, the greedy optional group up to the last one of the line. *)
Fixpoint lazy_bracket (acc s : str) : option (str * str) :=
  match s with
  | [] => None
  | c :: s' =>
      if (c =? 93)%N && negb (bool_decide (acc = [])) then Some (acc, s')
      else if (c =? LF)%N then None
      else lazy_bracket (acc ++ [c]) s'
  end.

Fixpoint greedy_bracket (acc s : str) (found : option str) : option str :=
  match s with
  | [] => found
  | c :: s' =>
      if (c =? LF)%N then found
      else greedy_bracket (acc ++ [c]) s'
             (if (c =? 93)%N && negb (bool_decide (acc = [])) then Some (acc ++ [c]) else found)
  end.

Definition second_bracket (s : str) : str :=
  let t := trim_start s in
  match t with
  | 91%N :: t' =>
      match greedy_bracket [] t' None with
      | Some g => take (length s - length t) s ++ 91%N :: g
      | None => []
      end
  | _ => []
  end.

Fixpoint bracket_at (n : nat) (s : str) : option (str * str) :=
  match drop n s with
  | 91%N :: t =>
      if existsb (N.eqb LF) (take n s) then
        match n with O => None | S n' => bracket_at n' s end
      else
        match lazy_bracket [] t with
        | Some (name, rest) => Some (name, second_bracket rest)
        | None => match n with O => None | S n' => bracket_at n' s end
        end
  | _ => match n with O => None | S n' => bracket_at n' s end
  end.

Definition subject_captures (s : str) : option (str * str) := bracket_at 5 s.

(** The regular expression [([0-9a-fA-F]{32})\.(.{6,})] on an identifier. *)
Definition is_hex (c : char) : bool :=
  ((48 <=? c) && (c <=? 57) || (65 <=? c) && (c <=? 70) || (97 <=? c) && (c <=? 102))%N.

Fixpoint line_of (s : str) : str :=
  match s with
  | [] => []
  | c :: s' => if (c =? LF)%N then [] else c :: line_of s'
  end.

Fixpoint hash_prefix (s : str) : option str :=
  match s with
  | [] => None
  | _ :: s' =>
      match drop 32 s with
      | 46%N :: t =>
          if forallb is_hex (take 32 s) && (6 <=? length (line_of t))%nat then Some (line_of t)
          else hash_prefix s'
      | _ => hash_prefix s'
      end
  end.

(** [compute_mailinglist_name]. *)
Definition compute_mailinglist_name (list_id_header listid : str) (m : InMime) : str :=
  let name := match list_id_captures list_id_header with Some (n, _) => trim n | None => [] end in
  let name := match strip_suffix (lit ".list-id.mcsv.net") listid, display_name (from m) with
              | Some _, Some display_name => display_name
              | _, _ => name
              end in
  let name := match subject_captures (default [] (get_subject (mime m))) with
              | Some (n, more) => n ++ more
              | None => name
              end in
  let addr := info_addr (from m) in
  let notification :=
    contains (lit "noreply") addr || contains (lit "no-reply") addr
    || bool_decide (is_Some (strip_prefix (lit "notifications@") addr))
    || bool_decide (is_Some (strip_prefix (lit "newsletter@") addr))
    || bool_decide (is_Some (strip_suffix (lit ".xt.local") listid)) in
  let name := match display_name (from m) with
              | Some display_name =>
                  if bool_decide (name = []) && notification then display_name else name
              | None => name
              end in
  let name := if bool_decide (name = []) then default listid (hash_prefix listid) else name in
  sanitize_single_line name.

(** [MimeMessage::get_rfc724_mid]. *)
Definition get_rfc724_mid (m : MimeMessage) : option str :=
  head (parse_message_ids (default [] (get_header m HeaderDef.MessageId))).

Section Assignment.
Context `{!Platform, !Outside, !Json SyncItem, !Json EnteredLoginParam,
          !Json ConfiguredLoginParamJson, !Sending, !Intake}.

(** ** Messages that are there already (message.rs) *)

(** [rfc724_mid_exists_ex]: the message shown is one with the least value of the expression. *)
Definition mid_ids (mid : str) (s : Core) : list N :=
  base.filter (λ id, m_rfc724_mid <$> msgs s !! id = Some mid
                     ∨ m_pre_rfc724_mid <$> msgs s !! id = Some mid) (row_ids (msgs s)).

Definition rfc724_mid_exists_ex (rfc724_mid : str) (expr : msg_row -> bool)
  : C (option (N * bool)) :=
  let mid := trim_end_by (N.eqb 62) (trim_start_by (N.eqb 60) rfc724_mid) in
  if bool_decide (mid = []) then ret None
  else gets (λ s,
    let ids := mid_ids mid s in
    let holds id := match msgs s !! id with Some r => expr r | None => false end in
    let least := forallb holds ids in
    let shown := base.filter (λ id, holds id = least) ids in
    (λ id, (id, least)) <$> shown !! (choose shown mod length shown)).

(** [rfc724_mid_exists]. *)
Definition rfc724_mid_exists (rfc724_mid : str) : C (option N) :=
  res <- rfc724_mid_exists_ex rfc724_mid (λ _, true) ;; ret (fst <$> res).

(** [MsgId::is_special] and [Message::load_from_db_optional]. *)
Definition DC_MSG_ID_LAST_SPECIAL : N := 9.

Definition msg_is_special (id : MsgId) : bool := (id <=? DC_MSG_ID_LAST_SPECIAL)%N.

Definition load_msg_optional (id : MsgId) : C (option (N * msg_row)) :=
  ensure_or (negb (msg_is_special id)) (SpecialMessage id) ;;;
  gets (λ s, match msgs s !! id with
             | Some r => if (m_chat_id r =? DC_CHAT_ID_TRASH)%N then None else Some (id, r)
             | None => None
             end).

(** [get_by_rfc724_mids]: the last one downloaded, or else the last one. *)
Fixpoint by_mids (latest : option (N * msg_row)) (mids : list str) : C (option (N * msg_row)) :=
  match mids with
  | [] => ret latest
  | mid :: rest =>
      id <- rfc724_mid_exists mid ;;
      match id with
      | None => by_mids latest rest
      | Some id =>
          msg <- load_msg_optional id ;;
          match msg with
          | None => by_mids latest rest
          | Some (id, r) =>
              if bool_decide (m_download_state r = DownloadState.Done) then ret (Some (id, r))
              else by_mids (match latest with Some m => Some m | None => Some (id, r) end) rest
          end
      end
  end.

Definition get_by_rfc724_mids (mids : list str) : C (option (N * msg_row)) :=
  by_mids None (rev mids).

(** [get_parent_message]. *)
Definition get_parent_message (references in_reply_to : option str) : C (option (N * msg_row)) :=
  get_by_rfc724_mids (match in_reply_to with Some field => parse_message_ids field | None => [] end
                      ++ match references with Some field => parse_message_ids field | None => [] end).

(** [get_previous_message]. *)
Definition get_previous_message (m : MimeMessage) : C (option (N * msg_row)) :=
  match head (rev (parse_message_ids (default [] (get_header m HeaderDef.References)))) with
  | None => ret None
  | Some mid =>
      id <- rfc724_mid_exists mid ;;
      match id with
      | Some id => load_msg_optional id
      | None => ret None
      end
  end.

(** ** Replies *)

(** [ChatId::lookup_by_message]. *)
Definition lookup_by_message (r : msg_row) : option ChatId :=
  if (m_chat_id r =? DC_CHAT_ID_TRASH)%N then None
  else if bool_decide (m_download_state r = DownloadState.Undecipherable) then None
  else Some (m_chat_id r).

(** [is_probably_private_reply]. *)
Definition is_probably_private_reply (m : InMime) (parent_chat_id : ChatId) : C bool :=
  if bool_decide (is_Some (get_chat_group_id (mime m))) then ret false
  else if negb (length (recipients m) =? 1)%nat then ret false
  else if negb (has_chat_version (mime m)) then
    chat_contacts <- in_db (chat_contacts parent_chat_id) ;;
    ret (negb ((length chat_contacts =? 2)%nat && bool_decide (SELF ∈ chat_contacts)))
  else ret true.

(** [lookup_chat_by_reply]. *)
Definition lookup_chat_by_reply (m : InMime) (parent : msg_row)
  : C (option (N * Blocked.Blocked)) :=
  ensure_or (negb (bool_decide (is_Some (get_chat_group_id (mime m))))
             || negb (was_encrypted (mime m))) EncryptedWithGroupId ;;;
  match lookup_by_message parent with
  | None => ret None
  | Some parent_chat_id =>
      private <- is_probably_private_reply m parent_chat_id ;;
      if (private : bool) then ret None
      else
        parent_chat <- in_db (load_from_db parent_chat_id) ;;
        if bool_decide (chat_typ parent_chat = Chattype.Single) && (1 <? length (recipients m))%nat
        then ret None
        else
          encrypted <- is_encrypted parent_chat ;;
          if encrypted && negb (was_encrypted (mime m)) then ret None
          else gets (λ s, Some (chat_id parent_chat, blocked_of (chat_id parent_chat) s))
  end.

(** ** The kind of chat *)

(** The first reasons of [decide_chat_assignment] to show a message nowhere. *)
Definition cant_decrypt_outgoing (now : Z) (decryption_error rfc724_mid : str) : C unit :=
  last_time <- in_account (get_config_parsed parse_i64 Config.LastCantDecryptOutgoingMsgs) ;;
  let last_time := default 0%Z last_time in
  update_config <-
    (if (sat_add last_time (24 * 60 * 60) <=? now)%Z then
       _ <- ignore_err (add_cant_decrypt_msg decryption_error rfc724_mid) ;; ret true
     else ret (now <? last_time)%Z) ;;
  when update_config
    (in_account (set_config_internal now Config.LastCantDecryptOutgoingMsgs (Some (print_Z now)))).

Definition present (m : MimeMessage) (h : HeaderDef) : bool := bool_decide (is_Some (get_header m h)).

Definition wants_trash (now : Z) (m : InMime) (rfc724_mid : str) : C bool :=
  let h := mime m in
  if negb (bool_decide (mdn_reports m = [])) then ret true
  else if delivery_report m then
    _ <- ignore_err (markseen_on_imap_table rfc724_mid) ;; ret true
  else if present h HeaderDef.ChatEdit || present h HeaderDef.ChatDelete
          || present h HeaderDef.IrohNodeAddr || has_sync_items m then ret true
  else if bool_decide (is_system_message m ∈ [SystemMessage.CallAccepted; SystemMessage.CallEnded])
  then ret true
  else
    match decryption_error m, incoming m with
    | Some e, false => cant_decrypt_outgoing now e rfc724_mid ;;; ret true
    | _, _ =>
        if present h HeaderDef.XMozillaDraftInfo then ret true
        else
          match pre_message m with
          | Pre _ _ => ret false
          | _ =>
              match webxdc_status_update m, parts m with
              | Some _, [part] =>
                  if bool_decide (p_typ part = Viewtype.Text) && bool_decide (p_msg part = []) then
                    _ <- ignore_err (markseen_on_imap_table rfc724_mid) ;; ret true
                  else ret false
              | _, _ => ret false
              end
          end
    end.

Definition with_pre_rfc724_mid (mid : str) (r : msg_row) : msg_row :=
  {| m_rfc724_mid := m_rfc724_mid r; m_pre_rfc724_mid := mid;
     m_chat_id := m_chat_id r; m_from_id := m_from_id r; m_timestamp := m_timestamp r;
     m_timestamp_rcvd := m_timestamp_rcvd r; m_type := m_type r; m_state := m_state r;
     m_hidden := m_hidden r; m_param := m_param r; m_location_id := m_location_id r;
     m_error := m_error r; m_ephemeral_timer := m_ephemeral_timer r;
     m_ephemeral_timestamp := m_ephemeral_timestamp r;
     m_download_state := m_download_state r; m_deleted := m_deleted r |}.

(** A post-message whose pre-message is there, a pre-message whose post-message is. *)
Definition completes_other (m : InMime) (rfc724_mid : str) : C bool :=
  match pre_message m with
  | Post =>
      id <- rfc724_mid_exists rfc724_mid ;; ret (bool_decide (is_Some id))
  | Pre post_msg_rfc724_mid _ =>
      res <- rfc724_mid_exists_ex post_msg_rfc724_mid
               (λ r, bool_decide (m_download_state r ≠ DownloadState.Done)) ;;
      match res with
      | Some (msg_id, not_downloaded) =>
          modify (upd_msgs (alter (with_pre_rfc724_mid rfc724_mid) msg_id)) ;;;
          ret (negb not_downloaded)
      | None => ret false
      end
  | NoPre => ret false
  end.

(** The recipients beside the sender, and whether the message is addressed to this account. *)
Fixpoint count_recipients (from_addr : str) (l : list SingleInfo) (has_self_addr : bool) (n : nat)
  : C (bool * nat) :=
  match l with
  | [] => ret (has_self_addr, n)
  | recipient :: rest =>
      is_self <- in_db (is_self_addr str_to_lowercase (info_addr recipient)) ;;
      count_recipients from_addr rest (has_self_addr || is_self)
        (if addr_cmp str_to_lowercase (info_addr recipient) from_addr then n else S n)
  end.

Definition audience (m : InMime) (from_id : ContactId) : C (bool * nat) :=
  match signature (mime m) with
  | Some sender_fingerprint =>
      if negb (bool_decide (recipient_fps m = [])) then
        ret (true, length (base.filter (λ fp, hex fp ≠ sender_fingerprint) (recipient_fps m)))
      else
        res <- count_recipients (info_addr (from m)) (recipients m) false 0 ;;
        ret (res.1, if negb (from_id =? SELF)%N && negb res.1 then S res.2 else res.2)
  | None =>
      res <- count_recipients (info_addr (from m)) (recipients m) false 0 ;;
      ret (res.1, if negb (from_id =? SELF)%N && negb res.1 then S res.2 else res.2)
  end.

(** Where a message goes that belongs to no chat by its headers. *)
Definition by_header (m : InMime) (can_be_11_chat : bool) : ChatAssignment :=
  if present (mime m) HeaderDef.ChatGroupName then AdHocGroup
  else if can_be_11_chat then OneOneChat
  else AdHocGroup.

(** [decide_chat_assignment]. *)
Definition decide_chat_assignment (now : Z) (m : InMime) (parent_message : option (N * msg_row))
  (rfc724_mid : str) (from_id : ContactId) : C ChatAssignment :=
  should_trash <- wants_trash now m rfc724_mid ;;
  other <- completes_other m rfc724_mid ;;
  aud <- audience m from_id ;;
  let '(has_self_addr, num_recipients) := aud in
  let can_be_11_chat :=
    (num_recipients <=? 1)%nat
    && (negb (from_id =? SELF)%N
        || negb (bool_decide (recipients m = []) || has_self_addr)
        || was_encrypted (mime m)) in
  if should_trash || other then ret Trash
  else if is_mailinglist_message (mime m) then ret MailingListOrBroadcast
  else
    match get_chat_group_id (mime m) with
    | Some grpid =>
        if was_encrypted (mime m) then ret (GroupChat grpid)
        else
          match parent_message with
          | Some (_, parent) =>
              res <- lookup_chat_by_reply m parent ;;
              match res with
              | Some (chat_id, chat_id_blocked) => ret (ExistingChat chat_id chat_id_blocked)
              | None => ret AdHocGroup
              end
          | None => ret AdHocGroup
          end
    | None =>
        match parent_message with
        | Some (_, parent) =>
            res <- lookup_chat_by_reply m parent ;;
            match res with
            | Some (chat_id, chat_id_blocked) => ret (ExistingChat chat_id chat_id_blocked)
            | None => ret (by_header m can_be_11_chat)
            end
        | None => ret (by_header m can_be_11_chat)
        end
    end.

(** ** Contacts of the header fields *)

(** The key-contact with an address that [from_field_to_contact_id] prefers. *)
Definition key_contact_by_addr (addr : str) : C (option (N * Origin.Origin)) :=
  gets (λ s, (λ r, (c_id r, c_origin r)) <$>
    pick_first (λ r r', (c_last_seen r' <? c_last_seen r)%Z)
      (base.filter (λ r,
         eq_nocase (c_addr r) addr && negb (bool_decide (c_fingerprint r = []))
         && (CONTACT_LAST_SPECIAL <? c_id r)%N
         && Origin.leb Origin.IncomingUnknownFrom (c_origin r)
         && has_blocked Blocked.Not s (c_id r) = true) (contacts (db s)))).

Definition with_addr (addr : str) (r : contact_row) : contact_row :=
  {| c_id := c_id r; c_name := c_name r; c_addr := addr; c_fingerprint := c_fingerprint r;
     c_origin := c_origin r; c_authname := c_authname r; c_last_seen := c_last_seen r |}.

(** [from_field_to_contact_id]. *)
Definition from_field_to_contact_id (info : SingleInfo) (fingerprint : str)
  (prevent_rename find_key_contact_by_addr : bool) : C (option (N * bool * Origin.Origin)) :=
  let name := if prevent_rename then [] else default [] (display_name info) in
  match ContactAddress_new str_to_lowercase (info_addr info) with
  | None => ret None
  | Some from_addr =>
      known <- (if bool_decide (fingerprint = []) && find_key_contact_by_addr
                then key_contact_by_addr (addr_normalize str_to_lowercase from_addr)
                else ret None) ;;
      match known with
      | Some (from_id, origin) => ret (Some (from_id, false, origin))
      | None =>
          res <- in_db (add_or_lookup_ex str_to_lowercase generated_fingerprint name from_addr
                          fingerprint Origin.IncomingUnknownFrom) ;;
          let from_id := res.1 in
          if (from_id =? SELF)%N then ret (Some (SELF, false, Origin.OutgoingBcc))
          else
            contact <- get_by_id from_id ;;
            in_db (update_contact from_id (with_addr from_addr)) ;;;
            ret (Some (from_id, ct_blocked contact, ct_origin contact))
      end
  end.

(** [add_or_lookup_contacts_by_address_list]. *)
Fixpoint add_or_lookup_contacts_by_address_list (address_list : list SingleInfo)
  (origin : Origin.Origin) : M (list (option N)) :=
  match address_list with
  | [] => ret []
  | info :: rest =>
      id <- (if negb (may_be_valid_addr (info_addr info)) then ret None
             else key_contact str_to_lowercase generated_fingerprint info [] origin) ;;
      ids <- add_or_lookup_contacts_by_address_list rest origin ;;
      ret (id :: ids)
  end.

(** [lookup_key_contact_by_address] without a chat: accepted contacts first, then those seen
    last, then the newest. *)
Definition contact_before (s : Core) (r r' : contact_row) : bool :=
  let n := single_chats Blocked.Not s (c_id r) in
  let n' := single_chats Blocked.Not s (c_id r') in
  (n' <? n)%nat
  || ((n =? n')%nat
      && ((c_last_seen r' <? c_last_seen r)%Z
          || ((c_last_seen r =? c_last_seen r')%Z && (c_id r' <? c_id r)%N))).

Definition lookup_key_contact_anywhere (addr : str) : C (option N) :=
  is_self <- in_db (is_self_addr str_to_lowercase addr) ;;
  if (is_self : bool) then ret (Some SELF)
  else gets (λ s,
    c_id <$> pick_first (contact_before s)
      (base.filter (λ r, eq_nocase (c_addr r) addr = true ∧ c_fingerprint r ≠ []) (contacts (db s)))).

(** [lookup_key_contacts_fallback_to_chat] without a chat. *)
Fixpoint lookup_key_contacts_anywhere (address_list : list SingleInfo)
  (fingerprints : list Fingerprint) : C (list (option N)) :=
  match address_list with
  | [] => ret []
  | info :: rest =>
      id <- (if negb (may_be_valid_addr (info_addr info)) then ret None
             else match head fingerprints with
                  | Some fp =>
                      in_db (key_contact str_to_lowercase generated_fingerprint info (hex fp)
                               Origin.Hidden)
                  | None => lookup_key_contact_anywhere (info_addr info)
                  end) ;;
      ids <- lookup_key_contacts_anywhere rest (tail fingerprints) ;;
      ret (id :: ids)
  end.

Definition lookup_key_contacts_fallback (address_list : list SingleInfo)
  (fingerprints : list Fingerprint) (chat_id : option ChatId) : C (list (option N)) :=
  match chat_id with
  | Some chat_id =>
      in_db (lookup_key_contacts_fallback_to_chat str_to_lowercase generated_fingerprint
               address_list fingerprints chat_id)
  | None => lookup_key_contacts_anywhere address_list fingerprints
  end.

(** The origin of the recipients of a message. *)
Definition to_origin (m : InMime) (incoming_origin : Origin.Origin) : Origin.Origin :=
  if negb (incoming m) then Origin.OutgoingTo
  else if Origin.is_known incoming_origin then Origin.IncomingTo
  else Origin.IncomingUnknownTo.

Definition address_contacts (m : InMime) (incoming_origin : Origin.Origin)
  : C (list (option N) * list (option N)) :=
  to_ids <- in_db (add_or_lookup_contacts_by_address_list (recipients m)
                     (to_origin m incoming_origin)) ;;
  past_ids <- in_db (add_or_lookup_contacts_by_address_list (past_members m) Origin.Hidden) ;;
  ret (to_ids, past_ids).

Definition key_contacts (m : InMime) (fps : list Fingerprint) : C (list (option N)) :=
  in_db (add_or_lookup_key_contacts str_to_lowercase generated_fingerprint (recipients m)
           (gossiped_keys (mime m)) fps Origin.Hidden).

(** The recipients of an encrypted message of a 1:1 chat or a channel, by the keys the signature
    names or by their addresses. *)
Definition intended_contacts (m : InMime) (to_fps : list Fingerprint) (chat_id : option ChatId)
  : C (list (option N)) :=
  if negb (bool_decide (recipient_fps m = [])) && (length (recipient_fps m) <=? 2)%nat then
    self_fp <- load_self_public_key ;;
    let fps := base.filter (λ fp, hex fp ≠ self_fp) (recipient_fps m) in
    if bool_decide (fps = []) then ret [Some SELF] else key_contacts m fps
  else lookup_key_contacts_fallback (recipients m) to_fps chat_id.

(** The case of 1:1 chats and channels; the assignment may be downgraded. *)
Definition single_contacts (m : InMime) (assignment : ChatAssignment)
  (incoming_origin : Origin.Origin) (to_fps : list Fingerprint) (chat_id : option ChatId)
  : C (ChatAssignment * list (option N)) :=
  pgp_to_ids <- key_contacts m to_fps ;;
  match pgp_to_ids with
  | Some _ :: _ => ret (assignment, pgp_to_ids)
  | _ =>
      ids <- (if was_encrypted (mime m) then intended_contacts m to_fps chat_id else ret []) ;;
      if (was_encrypted (mime m) && negb (bool_decide (None ∈ ids)))
         || existsb (λ c, bool_decide (is_Some c) && negb (bool_decide (c = Some SELF))) ids
      then ret (assignment, ids)
      else
        to_ids <- in_db (add_or_lookup_contacts_by_address_list (recipients m)
                           (to_origin m incoming_origin)) ;;
        ret (if was_encrypted (mime m) then AdHocGroup else assignment, to_ids)
  end.

(** [get_to_and_past_contact_ids]: also the assignment, which it may change. *)
Definition to_and_past_contact_ids (m : InMime) (assignment : ChatAssignment)
  (parent_message : option (N * msg_row)) (incoming_origin : Origin.Origin)
  : C (ChatAssignment * list (option N) * list (option N)) :=
  let '(to_fps, past_fps) :=
    split_fingerprints (chat_group_member_fingerprints str_to_uppercase (mime m))
      (length (recipients m)) in
  match assignment with
  | Trash => ret (Trash, [], [])
  | GroupChat grpid =>
      chat <- get_chat_id_by_grpid grpid ;;
      ids <- in_db (get_to_and_past_contact_ids str_to_lowercase str_to_uppercase
                      generated_fingerprint (mime m) (recipients m) (past_members m)
                      (fst <$> chat)) ;;
      ret (assignment, ids.1, ids.2)
  | ExistingChat chat_id _ =>
      chat <- in_db (load_from_db chat_id) ;;
      encrypted <- is_encrypted chat ;;
      if (encrypted : bool) then
        to_ids <- key_contacts m to_fps ;;
        past_ids <- lookup_key_contacts_fallback (past_members m) past_fps (Some chat_id) ;;
        ret (assignment, to_ids, past_ids)
      else
        ids <- address_contacts m incoming_origin ;;
        ret (assignment, ids.1, ids.2)
  | AdHocGroup =>
      ids <- address_contacts m incoming_origin ;;
      ret (assignment, ids.1, ids.2)
  | OneOneChat | MailingListOrBroadcast =>
      let chat_id :=
        if bool_decide (assignment = OneOneChat) && negb (incoming m)
        then (λ p, m_chat_id p.2) <$> parent_message else None in
      res <- single_contacts m assignment incoming_origin to_fps chat_id ;;
      past_ids <- in_db (add_or_lookup_contacts_by_address_list (past_members m) Origin.Hidden) ;;
      ret (res.1, res.2, past_ids)
  end.

(** ** Groups *)

Definition announce_new_chat (id : ChatId) : C unit :=
  emit_core (ChatModified id) ;;; emit_core ChatlistChanged ;;; emit_core (ChatlistItemChanged id).

Definition add_members (timestamp : Z) (id : ChatId) (ids : list N) : C unit :=
  modify (upd_db (set_members (add_to_chat_contacts_table timestamp id ids))).

(** [create_adhoc_group]. *)
Definition create_adhoc_group (now : Z) (m : MimeMessage) (create_blocked : Blocked.Blocked)
  (from_id : ContactId) (to_ids : list N) (grpname : str) : C (option (N * Blocked.Blocked)) :=
  let member_ids := base.filter (λ id, id ≠ SELF) to_ids in
  let member_ids := if negb (from_id =? SELF)%N && negb (bool_decide (from_id ∈ member_ids))
                    then member_ids ++ [from_id] else member_ids in
  let member_ids := if negb (was_encrypted m) then member_ids ++ [SELF] else member_ids in
  if is_mailinglist_message m then ret None
  else if present m HeaderDef.ChatGroupMemberRemoved then ret (Some (DC_CHAT_ID_TRASH, Blocked.Not))
  else
    new_chat_id <- create_multiuser_record now Chattype.Group [] grpname create_blocked None
                     (timestamp_sent m) ;;
    add_members (timestamp_sent m) new_chat_id member_ids ;;;
    announce_new_chat new_chat_id ;;;
    ret (Some (new_chat_id, create_blocked)).

(** The name an ad-hoc group without subject has. *)
Definition NO_SUBJECT : str := [128101%N; 128231%N].

Definition adhoc_name (m : MimeMessage) : str :=
  match get_header m HeaderDef.ChatGroupName with
  | Some name => name
  | None => match get_subject m with
            | Some subject => remove_subject_prefix subject
            | None => NO_SUBJECT
            end
  end.

(** The chats without identifier that have this name, these members and a visible message. *)
Definition members_of (t : chats_contacts) (id : ChatId) : gset N :=
  list_to_set (omap (λ kr, if (kr.1.1 =? id)%N && row_is_member kr.2 then Some kr.1.2 else None)
                 (map_to_list t)).

Definition newest_visible (id : ChatId) (s : Core) : option Z :=
  max_timestamp (λ r, (m_chat_id r =? id)%N && negb (m_hidden r)) s.

Definition adhoc_candidates (grpname : str) (contact_ids : gset N) (s : Core) : list N :=
  base.filter (λ id,
    ch_grpid <$> chats (db s) !! id = Some [] ∧ ch_name <$> chats (db s) !! id = Some grpname
    ∧ members_of (members (db s)) id = contact_ids ∧ is_Some (newest_visible id s))
    (row_ids (chats (db s))).

Definition find_adhoc_group (grpname : str) (contact_ids : gset N) (s : Core)
  : option (N * Blocked.Blocked) :=
  let ids := adhoc_candidates grpname contact_ids s in
  let shown := base.filter (λ id,
    forallb (λ id', default 0 (newest_visible id' s) <=? default 0 (newest_visible id s))%Z ids
    = true) ids in
  (λ id, (id, blocked_of id s)) <$> shown !! (choose shown mod length shown).

(** [lookup_or_create_adhoc_group]. *)
Definition lookup_or_create_adhoc_group (now : Z) (m : InMime) (to_ids : list (option N))
  (allow_creation : bool) (create_blocked : Blocked.Blocked)
  : C (option (N * Blocked.Blocked * bool)) :=
  if bool_decide (is_Some (decryption_error m)) then ret None
  else
    res <- from_field_to_contact_id (from m) [] (should_prevent_rename (mime m)) false ;;
    res <- ok_or res NoAddressContact ;;
    let from_id := res.1.1 in
    let grpname := adhoc_name (mime m) in
    let to_ids := flatten to_ids in
    let contact_ids : gset N := list_to_set to_ids ∪ {[from_id]} in
    let contact_ids := if was_encrypted (mime m) then contact_ids ∖ {[SELF]} else contact_ids in
    found <- gets (find_adhoc_group grpname contact_ids) ;;
    match found with
    | Some (chat_id, blocked) => ret (Some (chat_id, blocked, false))
    | None =>
        if negb allow_creation then ret None
        else
          res <- create_adhoc_group now (mime m) create_blocked from_id to_ids grpname ;;
          ret ((λ r, (r.1, r.2, true)) <$> res)
    end.

(** [create_group]. *)
Definition create_group (now : Z) (m : InMime) (create_blocked : Blocked.Blocked)
  (from_id : ContactId) (to_ids past_ids : list (option N)) (grpid : str)
  : C (option (N * Blocked.Blocked)) :=
  match get_header (mime m) HeaderDef.ChatGroupName with
  | Some grpname =>
      if negb (is_mailinglist_message (mime m)) && negb (bool_decide (grpid = []))
         && negb (present (mime m) HeaderDef.ChatGroupMemberRemoved) then
        new_chat_id <- create_multiuser_record now Chattype.Group grpid (trim grpname)
                         create_blocked None (timestamp_sent (mime m)) ;;
        (match chat_group_member_timestamps now TIMESTAMP_SENT_TOLERANCE (mime m) with
         | Some timestamps =>
             let '(new_to_ids, timestamps) :=
               if bool_decide (Some from_id ∈ to_ids) then (to_ids, timestamps)
               else (Some from_id :: to_ids, timestamp_sent (mime m) :: timestamps) in
             modify (upd_db (set_members (λ t,
               (update_chats_contacts_timestamps new_chat_id None new_to_ids past_ids timestamps
                  t).2)))
         | None =>
             add_members 0 new_chat_id
               (SELF :: (if negb (contact_is_special from_id) then [from_id] else [])
                ++ flatten to_ids)
         end) ;;;
        announce_new_chat new_chat_id ;;;
        ret (Some (new_chat_id, create_blocked))
      else if bool_decide (is_Some (decryption_error m)) then ret None
      else ret (Some (DC_CHAT_ID_TRASH, Blocked.Not))
  | None =>
      if bool_decide (is_Some (decryption_error m)) then ret None
      else ret (Some (DC_CHAT_ID_TRASH, Blocked.Not))
  end.

(** ** Mailing lists and channels *)

(** [create_or_lookup_mailinglist_or_broadcast]. *)
Definition create_or_lookup_mailinglist_or_broadcast (now : Z) (allow_creation : bool)
  (create_blocked : Blocked.Blocked) (list_id_header : str) (from_id : ContactId) (m : InMime)
  : C (option (N * Blocked.Blocked * bool)) :=
  let listid := mailinglist_header_listid list_id_header in
  found <- get_chat_id_by_grpid listid ;;
  match found with
  | Some (chat_id, blocked) => ret (Some (chat_id, blocked, false))
  | None =>
      if allow_creation then
        let encrypted := was_encrypted (mime m) in
        let name := if encrypted
                    then default (lit "Broadcast Channel")
                           (get_header (mime m) HeaderDef.ChatGroupName)
                    else compute_mailinglist_name list_id_header listid m in
        let param := (λ p, to_string (Params_set Params_new Param.ListPost p)) <$> list_post m in
        chat_id <- create_multiuser_record now
                     (if encrypted then Chattype.InBroadcast else Chattype.Mailinglist) listid name
                     (if encrypted then Blocked.Not else create_blocked) param
                     (timestamp_sent (mime m)) ;;
        when encrypted (add_members (timestamp_sent (mime m)) chat_id [from_id]) ;;;
        announce_new_chat chat_id ;;;
        ret (Some (chat_id, create_blocked, true))
      else ret None
  end.

Definition contact_params_of (id : ContactId) (s : Core) : Params :=
  load_params (default [] (contact_param s !! id)).

(** [apply_mailinglist_changes]. *)
Definition apply_list_name (m : InMime) (header : str) (chat : Chat) : C unit :=
  let new_name := compute_mailinglist_name header (chat_grpid chat) m in
  newer <- and_then (negb (bool_decide (chat_name chat = new_name)))
             (in_db (chat_update_timestamp (chat_id chat) Param.GroupNameTimestamp
                       (timestamp_sent (mime m)))) ;;
  when newer
    (in_db (set_name_column (chat_id chat) new_name) ;;; emit_core (ChatModified (chat_id chat))).

Definition apply_list_post (chat : Chat) (list_post : str) : C unit :=
  res <- in_db (add_or_lookup_ex str_to_lowercase generated_fingerprint [] list_post []
                  Origin.Hidden) ;;
  let contact_id := res.1 in
  get_by_id contact_id ;;;
  p <- gets (contact_params_of contact_id) ;;
  when (negb (bool_decide (Params_get p Param.ListId = Some (chat_grpid chat))))
    (modify (upd_contact_param (<[contact_id :=
       to_string (Params_set p Param.ListId (chat_grpid chat))]>))) ;;;
  match Params_get (chat_param chat) Param.ListPost with
  | Some old_list_post =>
      when (negb (bool_decide (list_post = old_list_post)))
        (in_db (update_param (with_param chat (Params_remove (chat_param chat) Param.ListPost))))
  | None =>
      in_db (update_param (with_param chat (Params_set (chat_param chat) Param.ListPost list_post)))
  end.

Definition apply_mailinglist_changes (m : InMime) (id : ChatId) : C unit :=
  match get_mailinglist_header (mime m) with
  | None => ret tt
  | Some header =>
      chat <- in_db (load_from_db id) ;;
      if negb (bool_decide (chat_typ chat = Chattype.Mailinglist)) then ret tt
      else
        apply_list_name m header chat ;;;
        match list_post m ≫= ContactAddress_new str_to_lowercase with
        | Some list_post => apply_list_post chat list_post
        | None => ret tt
        end
  end.

(** [create_out_broadcast_ex] without synchronisation. *)
Definition create_out_broadcast (now : Z) (grpid chat_name secret : str) : C N :=
  let chat_name := sanitize_single_line chat_name in
  if bool_decide (chat_name = []) then fail InvalidChannelName
  else
    chat_id <- rollback (
      taken <- get_chat_id_by_grpid grpid ;;
      ensure_or (negb (bool_decide (is_Some taken))) GrpidTaken ;;;
      chat_id <- insert_chat
        {| ch_type := Chattype.OutBroadcast; ch_name := chat_name; ch_grpid := grpid;
           ch_param := to_string (update_timestamp Params_new Param.GroupNameTimestamp now).2;
           ch_created_timestamp := now |} Blocked.Not ;;
      modify (upd_db (set_secrets (<[chat_id := secret]>))) ;;;
      ret chat_id) ;;
    add_e2ee_notice now chat_id now ;;;
    emit_core (MsgsChanged 0 0) ;;; emit_core ChatlistChanged ;;;
    emit_core (ChatlistItemChanged chat_id) ;;;
    ret chat_id.

(** ** The chat of a message *)

(** How a new chat with the sender of a message is shown. *)
Definition create_blocked_for (is_bot : bool) (from_id : ContactId)
  (test_normal_chat : option (N * Blocked.Blocked)) : C Blocked.Blocked :=
  let create_blocked_default := if is_bot then Blocked.Not else Blocked.Request in
  match test_normal_chat with
  | Some (_, Blocked.Not) => ret Blocked.Not
  | Some (_, Blocked.Yes) =>
      contact <- get_by_id from_id ;;
      ret (if ct_blocked contact then Blocked.Yes else create_blocked_default)
  | Some (_, Blocked.Request) | None => ret create_blocked_default
  end.

(** The first part of [do_chat_assignment] for incoming messages: the chat the assignment names. *)
Definition assigned_incoming (now : Z) (assignment : ChatAssignment) (from_id : ContactId)
  (to_ids past_ids : list (option N)) (allow_creation : bool) (create_blocked : Blocked.Blocked)
  (has_normal_chat : bool) (m : InMime) : C (option (N * Blocked.Blocked * bool)) :=
  match assignment with
  | Trash => ret (Some (DC_CHAT_ID_TRASH, Blocked.Not, false))
  | GroupChat grpid =>
      found <- get_chat_id_by_grpid grpid ;;
      match found with
      | Some (id, blocked) => ret (Some (id, blocked, false))
      | None =>
          if allow_creation || has_normal_chat then
            res <- create_group now m create_blocked from_id to_ids past_ids grpid ;;
            ret ((λ r, (r.1, r.2, true)) <$> res)
          else ret None
      end
  | MailingListOrBroadcast =>
      match get_mailinglist_header (mime m) with
      | Some header =>
          res <- create_or_lookup_mailinglist_or_broadcast now allow_creation create_blocked header
                   from_id m ;;
          match res with
          | Some r => apply_mailinglist_changes m r.1.1 ;;; ret (Some r)
          | None => ret None
          end
      | None => ret None
      end
  | ExistingChat id blocked => ret (Some (id, blocked, false))
  | AdHocGroup =>
      lookup_or_create_adhoc_group now m to_ids (allow_creation || has_normal_chat) create_blocked
  | OneOneChat => ret None
  end.

(** The rest: the 1:1 chat with the sender. *)
Definition assign_single (now : Z) (is_bot : bool) (from_id : ContactId) (allow_creation : bool)
  (test_normal_chat : option (N * Blocked.Blocked)) (is_reply : bool)
  : C (option (N * Blocked.Blocked * bool)) :=
  contact <- get_by_id from_id ;;
  let create_blocked := if ct_blocked contact then Blocked.Yes
                        else if is_bot then Blocked.Not else Blocked.Request in
  res <- match test_normal_chat with
         | Some (id, blocked) => ret (Some (id, blocked, false))
         | None =>
             if allow_creation then
               chat <- get_for_contact now from_id create_blocked ;;
               ret (Some (chat.1, chat.2, true))
             else ret None
         end ;;
  match res with
  | Some (id, blocked, _) =>
      when (negb (bool_decide (blocked = Blocked.Not)))
        (when (negb (bool_decide (blocked = create_blocked)))
           (set_chat_blocked id create_blocked ;;; ret tt) ;;;
         when (bool_decide (create_blocked = Blocked.Request) && is_reply)
           (in_db (scaleup_origin [from_id] Origin.IncomingReplyTo)))
  | None => ret tt
  end ;;;
  ret res.

Definition assign_incoming (now : Z) (is_bot : bool) (assignment : ChatAssignment)
  (from_id : ContactId) (to_ids past_ids : list (option N)) (allow_creation : bool) (m : InMime)
  (is_reply : bool) : C (option (N * Blocked.Blocked * bool)) :=
  test_normal_chat <- lookup_by_contact from_id ;;
  create_blocked <- create_blocked_for is_bot from_id test_normal_chat ;;
  res <- assigned_incoming now assignment from_id to_ids past_ids allow_creation create_blocked
           (bool_decide (is_Some test_normal_chat)) m ;;
  match res with
  | Some (id, blocked, created) =>
      if negb (bool_decide (blocked = Blocked.Not)) && negb (bool_decide (create_blocked = Blocked.Yes))
         && negb (bool_decide (assignment = MailingListOrBroadcast))
      then set_chat_blocked id create_blocked ;;; ret (Some (id, create_blocked, created))
      else ret (Some (id, blocked, created))
  | None => assign_single now is_bot from_id allow_creation test_normal_chat is_reply
  end.

(** The same for messages sent by another device of this account. *)
Definition assigned_outgoing (now : Z) (assignment : ChatAssignment) (from_id : ContactId)
  (to_ids past_ids : list (option N)) (allow_creation : bool) (m : InMime)
  : C (option (N * Blocked.Blocked * bool)) :=
  match assignment with
  | Trash => ret (Some (DC_CHAT_ID_TRASH, Blocked.Not, false))
  | GroupChat grpid =>
      found <- get_chat_id_by_grpid grpid ;;
      match found with
      | Some (id, blocked) => ret (Some (id, blocked, false))
      | None =>
          if allow_creation then
            res <- create_group now m Blocked.Not from_id to_ids past_ids grpid ;;
            ret ((λ r, (r.1, r.2, true)) <$> res)
          else ret None
      end
  | ExistingChat id blocked => ret (Some (id, blocked, false))
  | MailingListOrBroadcast =>
      match get_mailinglist_header (mime m) with
      | None => ret None
      | Some header =>
          let listid := mailinglist_header_listid header in
          found <- get_chat_id_by_grpid listid ;;
          match found with
          | Some (id, _) => ret (Some (id, Blocked.Not, false))
          | None =>
              match get_header (mime m) HeaderDef.ChatBroadcastSecret with
              | Some secret =>
                  if validate_broadcast_secret secret then
                    id <- create_out_broadcast now listid
                            (compute_mailinglist_name header listid m) secret ;;
                    ret (Some (id, Blocked.Not, true))
                  else ret None
              | None => ret None
              end
          end
      end
  | AdHocGroup => lookup_or_create_adhoc_group now m to_ids allow_creation Blocked.Not
  | OneOneChat => ret None
  end.

(** A chat with the recipient. *)
Definition outgoing_single (now : Z) (to_id : ContactId) (allow_creation : bool) (m : InMime)
  : C (option (N * Blocked.Blocked * bool)) :=
  res <- (if allow_creation then
            get_by_id to_id ;;;
            p <- gets (contact_params_of to_id) ;;
            match Params_get p Param.ListId with
            | Some list_id =>
                found <- get_chat_id_by_grpid list_id ;;
                ret ((λ r, (r.1, r.2, false)) <$> found)
            | None =>
                chat <- get_for_contact now to_id Blocked.Not ;;
                ret (Some (chat.1, chat.2, true))
            end
          else ret None) ;;
  match res with
  | Some r => ret (Some r)
  | None =>
      if has_chat_version (mime m) then
        found <- lookup_by_contact to_id ;; ret ((λ r, (r.1, r.2, false)) <$> found)
      else ret None
  end.

Definition assign_outgoing (now : Z) (assignment : ChatAssignment) (from_id : ContactId)
  (to_ids past_ids : list (option N)) (to_id : ContactId) (allow_creation : bool) (m : InMime)
  : C (option (N * Blocked.Blocked * bool)) :=
  let self_sent := (length to_ids <=? 1)%nat && (to_id =? SELF)%N in
  res <- assigned_outgoing now assignment from_id to_ids past_ids allow_creation m ;;
  res <- match res with
         | Some r => ret (Some r)
         | None => if bool_decide (to_ids = []) then ret None
                   else outgoing_single now to_id allow_creation m
         end ;;
  res <- match res with
         | Some r => ret (Some r)
         | None =>
             if self_sent then
               chat <- get_for_contact now SELF Blocked.Not ;;
               when (negb (bool_decide (chat.2 = Blocked.Not))) (unblock_ex now false chat.1) ;;;
               ret (Some (chat.1, chat.2, false))
             else ret None
         end ;;
  match res with
  | Some (id, blocked, created) =>
      when (negb (bool_decide (blocked = Blocked.Not))) (unblock_ex now false id) ;;;
      ret (Some (id, Blocked.Not, created))
  | None => ret None
  end.

(** [do_chat_assignment]. *)
Definition do_chat_assignment (now : Z) (assignment : ChatAssignment) (from_id : ContactId)
  (to_ids past_ids : list (option N)) (to_id : ContactId) (allow_creation : bool) (m : InMime)
  (is_reply : bool) : C (N * Blocked.Blocked * bool) :=
  is_bot <- in_account (get_config_bool Config.Bot) ;;
  res <- (if incoming m
          then assign_incoming now is_bot assignment from_id to_ids past_ids allow_creation m is_reply
          else assign_outgoing now assignment from_id to_ids past_ids to_id allow_creation m) ;;
  ret (default (DC_CHAT_ID_TRASH, Blocked.Not, false) res).
End Assignment.
