(* ===== verification/Reception.v ===== *)
(** Reception: what is done with a received message (src/src/receive_imf.rs, add_parts and
    receive_imf_inner): changes of the chat, of its timer, of other messages, and the rows that
    store the message. *)
From S2P Require Import Prelude Monad Ids Params Membership ContactTools Headers MsgTable.
From S2P Require Import Db Contacts Recipients GroupChanges Simplify LoginParam Config Sync ChatDb.
From S2P Require Import Verification SecureJoin ChatAssign.

(** ** Data *)

(** [struct ReceivedMsg]. *)
Record ReceivedMsg := {
  rm_chat_id : ChatId;
  rm_state : MessageState;
  rm_hidden : bool;
  rm_sort_timestamp : Z;
  rm_msg_ids : list N;
  rm_needs_delete_job : bool
}.

(** What other components do with a received message: reactions, calls, the peers and topics of
    mini apps, locations, unarchiving, the texts of info messages, and what [receive_imf_inner] does
    once the message is stored and its sender noted as seen (locations, sync items, status updates,
    avatar and footer of the sender, receipts, events). *)
Class Neighbours := {
  set_msg_reaction : str -> ChatId -> ContactId -> Z -> str -> bool -> C unit;
  handle_call_msg : MsgId -> InMime -> ContactId -> C unit;
  add_gossip_peer_from_header : MsgId -> str -> C unit;
  insert_topic_stub : MsgId -> str -> C unit;
  maybe_set_logging_xdc : Viewtype -> ChatId -> option str -> MsgId -> C unit;
  stop_logging_xdc : MsgId -> C unit;
  delete_poi : N -> C unit;
  unarchive_if_not_muted : ChatId -> MessageState -> C unit;
  after_reception : InMime -> ReceivedMsg -> ContactId -> bool -> C unit;
  info_str : info_text -> str;
  ephemeral_timer_changed : Z -> ContactId -> str;
  msg_location_enabled_by : ContactId -> str
}.

(** ** Messages *)

(** [Message::get_showpadlock]. *)
Definition get_showpadlock (r : msg_row) : bool :=
  negb (default 0%Z (get_int (load_params (m_param r)) Param.GuaranteeE2ee) =? 0)%Z
  || (m_from_id r =? DEVICE)%N.

(** [Viewtype::has_file] and the numbers of the types. *)
Definition has_file (t : Viewtype) : bool :=
  match t with
  | Viewtype.Unknown | Viewtype.Text | Viewtype.Call => false
  | _ => true
  end.

Definition viewtype_to_i64 (t : Viewtype) : Z :=
  match t with
  | Viewtype.Unknown => 0 | Viewtype.Text => 10 | Viewtype.Image => 20 | Viewtype.Gif => 21
  | Viewtype.Sticker => 23 | Viewtype.Audio => 40 | Viewtype.Voice => 41 | Viewtype.Video => 50
  | Viewtype.File => 60 | Viewtype.Call => 71 | Viewtype.Webxdc => 80 | Viewtype.Vcard => 90
  end%Z.

(** [Params::apply_post_msg_metadata]. *)
Definition apply_post_msg_metadata (p : Params) (d : PostMsgMetadata) : Params :=
  let p := Params_set p Param.PostMessageFileBytes (print_N (pm_size d)) in
  let p := if bool_decide (pm_filename d = []) then p
           else Params_set p Param.Filename (pm_filename d) in
  let p := set_i64 p Param.PostMessageViewtype (viewtype_to_i64 (pm_viewtype d)) in
  let p := match pm_wh d with
           | Some (width, height) =>
               Params_set (Params_set p Param.Width (print_Z width)) Param.Height (print_Z height)
           | None => p
           end in
  match pm_duration d with
  | Some duration => Params_set p Param.Duration (print_Z duration)
  | None => p
  end.

Definition STATISTICS_BOT_EMAIL : str := lit "self_reporting@testrun.org".
Definition EDITED_PREFIX : str := [9999%N; 65039%N].

Section Reception.
Context `{!Platform, !Outside, !Json SyncItem, !Json EnteredLoginParam,
          !Json ConfiguredLoginParamJson, !Sending, !Intake, !Neighbours}.

(** [chat::save_text_edit_to_db]. *)
Definition save_text_edit_to_db (id : MsgId) (r : msg_row) (new_text : str) : C unit :=
  let param := set_int (load_params (m_param r)) Param.IsEdited 1 in
  exists_ <- gets (λ s, bool_decide (is_Some (msgs s !! id))) ;;
  when exists_
    (modify (λ s, upd_msg_txt (<[id := new_text]>)
                    (upd_msgs (alter (λ r, with_msg_param r (to_string param)) id) s))) ;;;
  emit_core (MsgsChanged (m_chat_id r) id).

(** [message::delete_msg_locally] and [delete_msgs_locally_done]. *)
Definition delete_msg_locally (id : MsgId) (r : msg_row) : C unit :=
  when (0 <? m_location_id r)%N (delete_poi (m_location_id r)) ;;;
  modify (λ s, upd_msg_txt (delete id) (upd_msgs (trash id true) s)) ;;;
  emit_core (MsgDeleted (m_chat_id r) id) ;;;
  when (bool_decide (m_type r = Viewtype.Webxdc)) (emit_core (WebxdcInstanceDeleted id)) ;;;
  stop_logging_xdc id.

Definition delete_msgs_locally_done (now : Z) (msg_ids : list N) (modified_chat_ids : gset N)
  : C unit :=
  for_each (ascending modified_chat_ids)
    (λ id, emit_core (MsgsChanged id 0) ;;; emit_core (ChatlistItemChanged id)) ;;;
  when (negb (bool_decide (msg_ids = [])))
    (emit_core (MsgsChanged 0 0) ;;; emit_core ChatlistChanged ;;;
     in_account (set_config_internal now Config.LastHousekeeping None)).

(** The two halves of [handle_edit_delete]. *)
Definition handle_edit (m : InMime) (from_id : ContactId) (rfc724_mid : str) : C unit :=
  original_msg_id <- rfc724_mid_exists rfc724_mid ;;
  match original_msg_id with
  | None => ret tt
  | Some id =>
      original_msg <- load_msg_optional id ;;
      match original_msg, parts m with
      | Some (id, r), part :: _ =>
          if negb (m_from_id r =? from_id)%N then ret tt
          else if negb (default false (get_bool (p_param part) Param.GuaranteeE2ee))
                  && get_showpadlock r then ret tt
          else save_text_edit_to_db id r (default (p_msg part) (strip_prefix EDITED_PREFIX (p_msg part)))
      | _, _ => ret tt
      end
  end.

Fixpoint delete_listed (from_id : ContactId) (mids : list str) (deleted : list N)
  (modified : gset N) : C (list N * gset N) :=
  match mids with
  | [] => ret (deleted, modified)
  | mid :: rest =>
      let mid := trim_end_by (N.eqb 62) (trim_start_by (N.eqb 60) mid) in
      id <- rfc724_mid_exists mid ;;
      match id with
      | None => insert_tombstone mid ;;; delete_listed from_id rest deleted modified
      | Some id =>
          msg <- load_msg_optional id ;;
          match msg with
          | Some (id, r) =>
              if (m_from_id r =? from_id)%N then
                delete_msg_locally id r ;;;
                delete_listed from_id rest (deleted ++ [id]) ({[m_chat_id r]} ∪ modified)
              else delete_listed from_id rest deleted modified
          | None => delete_listed from_id rest deleted modified
          end
      end
  end.

(** [handle_edit_delete]. *)
Definition handle_edit_delete (now : Z) (m : InMime) (from_id : ContactId) : C unit :=
  match get_header (mime m) HeaderDef.ChatEdit with
  | Some rfc724_mid => handle_edit m from_id rfc724_mid
  | None =>
      match get_header (mime m) HeaderDef.ChatDelete, parts m with
      | Some rfc724_mid_list, part :: _ =>
          if negb (bool_decide (get_bool (p_param part) Param.GuaranteeE2ee = Some true)) then ret tt
          else
            res <- delete_listed from_id (split_whitespace rfc724_mid_list) [] ∅ ;;
            delete_msgs_locally_done now res.1 res.2
      | _, _ => ret tt
      end
  end.

(** The [UPDATE] of [handle_post_message]. *)
Definition completed_row (new_params : Params) (part : Part) (state : MessageState) (r : msg_row)
  : msg_row :=
  {| m_rfc724_mid := m_rfc724_mid r; m_pre_rfc724_mid := m_pre_rfc724_mid r;
     m_chat_id := m_chat_id r; m_from_id := m_from_id r; m_timestamp := m_timestamp r;
     m_timestamp_rcvd := m_timestamp_rcvd r; m_type := p_typ part;
     m_state := max_state (m_state r) state; m_hidden := m_hidden r;
     m_param := to_string new_params; m_location_id := m_location_id r;
     m_error := default [] (p_error part); m_ephemeral_timer := m_ephemeral_timer r;
     m_ephemeral_timestamp := m_ephemeral_timestamp r;
     m_download_state := DownloadState.Done; m_deleted := m_deleted r |}.

(** [handle_post_message]. *)
Definition complete_msg (m : InMime) (id : MsgId) (r : msg_row) (part : Part) (state : MessageState)
  : C unit :=
  (match get_header (mime m) HeaderDef.IrohGossipTopic with
   | Some topic => when (bool_decide (p_typ part = Viewtype.Webxdc)) (insert_topic_stub id topic)
   | None => ret tt
   end) ;;;
  let new_params :=
    Params_remove (Params_remove (merge_in_params (load_params (m_param r)) (p_param part))
                     Param.PostMessageFileBytes) Param.PostMessageViewtype in
  modify (upd_msgs (alter (completed_row new_params part state) id)) ;;;
  is_bot <- in_account (get_config_bool Config.Bot) ;;
  if (is_bot : bool) then
    if m_hidden r then ret tt
    else when (negb (m_chat_id r =? DC_CHAT_ID_TRASH)%N)
           (if incoming m && bool_decide (m_state r = MessageState.InFresh)
            then emit_core (IncomingMsg (m_chat_id r) id)
            else emit_core (MsgsChanged (m_chat_id r) id))
  else emit_core (MsgsChanged (m_chat_id r) id).

Definition handle_post_message (m : InMime) (from_id : ContactId) (state : MessageState) : C unit :=
  match pre_message m with
  | Post =>
      mid <- ok_or (get_rfc724_mid (mime m)) NoMessageId ;;
      id <- rfc724_mid_exists mid ;;
      match id with
      | None => ret tt
      | Some id =>
          original_msg <- load_msg_optional id ;;
          match original_msg, parts m with
          | Some (id, r), part :: _ =>
              if negb (from_id =? m_from_id r)%N then ret tt
              else if negb (default false (get_bool (p_param part) Param.GuaranteeE2ee))
                      && get_showpadlock r then ret tt
              else if negb (has_file (p_typ part)) then ret tt
              else complete_msg m id r part state
          | _, _ => ret tt
          end
      end
  | _ => ret tt
  end.

(** ** The chat of the message *)

(** [tweak_sort_timestamp]; a message it replies to that is there several times is any of them. *)
Definition get_parent_timestamp (m : MimeMessage) : C (option Z) :=
  match head (parse_message_ids (default [] (get_header m HeaderDef.InReplyTo))) with
  | None => ret None
  | Some mid =>
      gets (λ s,
        let ids := base.filter (λ id, m_rfc724_mid <$> msgs s !! id = Some mid) (row_ids (msgs s)) in
        id ← ids !! (choose ids mod length ids); m_timestamp <$> msgs s !! id)
  end.

Definition tweak_sort_timestamp (m : MimeMessage) (silent : bool) (id : ChatId)
  (sort_timestamp : Z) : C Z :=
  parent_timestamp <- get_parent_timestamp m ;;
  let sort_timestamp := match parent_timestamp with
                        | Some t => Z.max sort_timestamp t
                        | None => sort_timestamp
                        end in
  if silent then
    gets (λ s,
      Z.min sort_timestamp
        (match max_timestamp (λ r, (m_chat_id r =? id)%N) s with
         | Some t => t
         | None => match chats (db s) !! id with
                   | Some row => ch_created_timestamp row
                   | None => 0%Z
                   end
         end))
  else ret sort_timestamp.

(** The timer a message has. *)
Definition header_timer (m : MimeMessage) : Z :=
  match get_header m HeaderDef.EphemeralTimer with
  | Some value => default 0%Z (parse_u32 value)
  | None => 0%Z
  end.

(** [ChatId::inner_set_ephemeral_timer]. *)
Definition inner_set_ephemeral_timer (id : ChatId) (timer : Z) : C unit :=
  ensure_or (negb (chat_is_special id)) (SpecialChat id) ;;;
  exists_ <- gets (λ s, bool_decide (is_Some (chats (db s) !! id))) ;;
  when exists_ (modify (upd_ephemeral_timer (<[id := timer]>))) ;;;
  emit_core (ChatEphemeralTimerModified id timer).

(** A message sent before the sender learned of our timer. *)
Definition is_timer_rollback (m : InMime) (is_dc_message : MessengerMessage) (timer : Z) : C bool :=
  same <- and_then (bool_decide (is_dc_message = MessengerMessage.Yes))
            (previous <- get_previous_message (mime m) ;;
             ret (bool_decide ((λ p, m_ephemeral_timer p.2) <$> previous = Some timer))) ;;
  ret (same && negb (bool_decide (is_system_message m = SystemMessage.EphemeralTimerChanged))).

(** The timer changes of [add_parts]. *)
Definition apply_ephemeral_timer (now : Z) (m : InMime) (id : ChatId) (from_id : ContactId)
  (is_dc_message : MessengerMessage) (timer sort_timestamp : Z) : C unit :=
  if chat_is_special id || bool_decide (parts m = []) then ret tt
  else
    current <- get_ephemeral_timer id ;;
    if (current =? timer)%Z then ret tt
    else
      chat_contacts <- in_db (chat_contacts id) ;;
      if bool_decide (SELF ∈ chat_contacts) && negb (bool_decide (from_id ∈ chat_contacts))
      then ret tt
      else
        rollback <- is_timer_rollback m is_dc_message timer ;;
        if (rollback : bool) then ret tt
        else
          newer <- in_db (chat_update_timestamp id Param.EphemeralSettingsTimestamp
                            (timestamp_sent (mime m))) ;;
          when newer
            (ok <- ignore_err (inner_set_ephemeral_timer id timer) ;;
             when (bool_decide (is_Some ok)
                   && negb (bool_decide (is_system_message m = SystemMessage.EphemeralTimerChanged)))
               (add_info_msg_with_cmd now id (ephemeral_timer_changed timer from_id)
                  SystemMessage.Unknown (Some sort_timestamp) (timestamp_sent (mime m)) None None ;;;
                ret tt)).

(** The chat a message is put into, with the names to show for the sender: a message of somebody
    else than the owner does not go into a channel. *)
Definition set_override (name : str) (l : list Part) : list Part :=
  (λ p, {| p_typ := p_typ p; p_msg := p_msg p;
           p_param := Params_set (p_param p) Param.OverrideSenderDisplayname name;
           p_is_reaction := p_is_reaction p; p_error := p_error p |}) <$> l.

Definition settle_chat (now : Z) (m : InMime) (from_id : ContactId) (id : ChatId)
  (blocked : Blocked.Blocked) (l : list Part) : C (Chat * Blocked.Blocked * list Part) :=
  chat <- in_db (load_from_db id) ;;
  if incoming m && negb (id =? DC_CHAT_ID_TRASH)%N then
    in_chat <- in_db (contact_in_chat id from_id) ;;
    if negb in_chat then
      let l := set_override (default (info_addr (from m)) (display_name (from m))) l in
      if bool_decide (chat_typ chat = Chattype.InBroadcast) then
        direct_chat <- get_for_contact now from_id Blocked.Request ;;
        chat <- in_db (load_from_db direct_chat.1) ;;
        ret (chat, direct_chat.2, l)
      else ret (chat, blocked, l)
    else ret (chat, blocked, l)
  else ret (chat, blocked, l).

(** The state of the message. *)
Definition initial_state (m : InMime) (seen silent : bool) (blocked : Blocked.Blocked)
  : MessageState :=
  if negb (incoming m) then MessageState.OutDelivered
  else if seen || negb (bool_decide (mdn_reports m = [])) || bool_decide (blocked = Blocked.Yes)
  then MessageState.InSeen
  else if bool_decide (info_addr (from m) = STATISTICS_BOT_EMAIL) || silent
  then MessageState.InNoticed
  else MessageState.InFresh.

(** ** The rows of the message *)

(** What the rows of a message have in common. *)
Record row_frame := {
  f_mid : str;
  f_chat_id : ChatId;
  f_from_id : ContactId;
  f_sort_timestamp : Z;
  f_state : MessageState;
  f_dc : MessengerMessage;
  f_better : option str;
  f_added_removed : option N;
  f_timer : Z
}.

Definition ephemeral_deadline (m : InMime) (f : row_frame) : Z :=
  if bool_decide (f_state f = MessageState.InFresh) || (f_timer f =? 0)%Z then 0%Z
  else sat_add (timestamp_rcvd m) (f_timer f).

Definition row_params (m : InMime) (f : row_frame) (part : Part) : Params :=
  let p := p_param part in
  let p := if bool_decide (is_system_message m = SystemMessage.Unknown) then p
           else set_cmd p (is_system_message m) in
  let p := match f_added_removed f with
           | Some id => Params_set p Param.ContactAddedRemoved (print_N id)
           | None => p
           end in
  match pre_message m with
  | Pre _ (Some metadata) => apply_post_msg_metadata p metadata
  | _ => p
  end.

Definition row_text (f : row_frame) (part : Part) : str * Viewtype :=
  match f_better f with
  | Some better_msg => (better_msg, Viewtype.Text)
  | None => (p_msg part, p_typ part)
  end.

Definition part_is_empty (f : row_frame) (part : Part) : bool :=
  let '(msg, typ) := row_text f part in
  bool_decide (typ = Viewtype.Text) && bool_decide (msg = [])
  && negb (bool_decide (is_Some (Params_get (p_param part) Param.Quote))).

Definition row_of_part (m : InMime) (f : row_frame) (trashed : bool) (part : Part) : msg_row :=
  let hidden := p_is_reaction part in
  let '(mid, pre_mid, is_pre) :=
    match pre_message m with
    | Pre post_mid _ => (post_mid, f_mid f, true)
    | _ => (f_mid f, [], false)
    end in
  {| m_rfc724_mid := mid; m_pre_rfc724_mid := pre_mid;
     m_chat_id := if trashed then DC_CHAT_ID_TRASH else f_chat_id f;
     m_from_id := if trashed then UNDEFINED else f_from_id f;
     m_timestamp := f_sort_timestamp f;
     m_timestamp_rcvd := if trashed then 0 else timestamp_rcvd m;
     m_type := if trashed then Viewtype.Unknown
               else if (is_pre : bool) then Viewtype.Text else (row_text f part).2;
     m_state := if trashed then MessageState.Undefined else f_state f;
     m_hidden := negb trashed && hidden;
     m_param := if trashed then [] else to_string (row_params m f part);
     m_location_id := 0;
     m_error := if trashed then [] else default [] (p_error part);
     m_ephemeral_timer := if trashed then 0 else f_timer f;
     m_ephemeral_timestamp := if trashed then 0 else ephemeral_deadline m f;
     m_download_state := if trashed then DownloadState.Done
                         else if bool_decide (is_Some (decryption_error m))
                         then DownloadState.Undecipherable
                         else if (is_pre : bool) then DownloadState.Available
                         else DownloadState.Done;
     m_deleted := false |}.

(** The loop over the parts: reactions, and one row per part. *)
Fixpoint insert_parts (m : InMime) (f : row_frame) (seen save_mime_modified : bool)
  (l : list Part) : C (list N) :=
  match l with
  | [] => ret []
  | part :: rest =>
      let hidden := p_is_reaction part in
      when hidden
        (set_msg_reaction (default [] (get_header (mime m) HeaderDef.InReplyTo)) (f_chat_id f)
           (f_from_id f) (f_sort_timestamp f) (remove_footers (p_msg part))
           (incoming m && negb seen)) ;;;
      let save_mime_modified :=
        save_mime_modified || (is_mime_modified m && negb (part_is_empty f part) && negb hidden) in
      let saved := save_mime_modified && bool_decide (rest = []) in
      let trashed := (f_chat_id f =? DC_CHAT_ID_TRASH)%N
                     || (location_kml m && part_is_empty f part && negb saved) in
      id <- insert_msg (row_of_part m f trashed part)
              (if trashed || hidden then [] else (row_text f part).1) ;;
      when (negb trashed) (modify (upd_msgrmsg (<[id := f_dc f]>))) ;;;
      ensure_or (negb (msg_is_special id)) (SpecialMessage id) ;;;
      ids <- insert_parts m f seen save_mime_modified rest ;;
      ret (id :: ids)
  end.

(** ** [add_parts] *)

Definition render_info (t : info_text) : str := match t with EmptyText => [] | _ => info_str t end.

(** The text shown instead of the message, and the other info messages. *)
Definition shown_instead (m : InMime) (from_id : ContactId) (timer : Z) (changes : GroupChangesInfo)
  : option str * list (str * SystemMessage.SystemMessage * option N) :=
  let extra := (λ e, (render_info e.1.1, e.1.2, e.2)) <$> extra_msgs changes in
  let better :=
    if bool_decide (is_system_message m = SystemMessage.LocationStreamingEnabled)
    then Some (msg_location_enabled_by from_id)
    else if bool_decide (is_system_message m = SystemMessage.EphemeralTimerChanged)
    then Some (ephemeral_timer_changed timer from_id)
    else None in
  match render_info <$> better_msg changes, better with
  | Some t, None => (Some t, extra)
  | Some t, Some b =>
      (Some b, if bool_decide (t = []) then extra else extra ++ [(t, is_system_message m, None)])
  | None, _ => (better, extra)
  end.

(** Messages about other messages: a peer of a mini app, an edit or deletion, the attachment of a
    message that is there, the state of a call.  [false]: the mini app of the peer is not there. *)
Definition iroh_peer (m : InMime) : C bool :=
  match get_header (mime m) HeaderDef.IrohNodeAddr, get_header (mime m) HeaderDef.InReplyTo with
  | Some node_addr, Some in_reply_to =>
      id <- rfc724_mid_exists in_reply_to ;;
      match id with
      | Some id => _ <- ignore_err (add_gossip_peer_from_header id node_addr) ;; ret true
      | None => ret false
      end
  | _, _ => ret true
  end.

Definition call_update (m : InMime) (from_id : ContactId) : C unit :=
  if bool_decide (is_system_message m ∈ [SystemMessage.CallAccepted; SystemMessage.CallEnded]) then
    match get_header (mime m) HeaderDef.InReplyTo with
    | Some field =>
        call <- get_by_rfc724_mids (parse_message_ids field) ;;
        match call with
        | Some (id, _) => handle_call_msg id m from_id
        | None => ret tt
        end
    | None => ret tt
    end
  else ret tt.

(** The mini apps among the parts. *)
Definition note_webxdc (m : InMime) (id : ChatId) (part : Part) (msg_id : MsgId) : C unit :=
  (match pre_message m, get_header (mime m) HeaderDef.IrohGossipTopic with
   | Post, _ | _, None => ret tt
   | _, Some topic =>
       when (bool_decide (p_typ part = Viewtype.Webxdc)) (insert_topic_stub msg_id topic)
   end) ;;;
  maybe_set_logging_xdc (p_typ part) id (Params_get (p_param part) Param.Filename) msg_id.

(** The subject of the last message, and the promotion of the chat. *)
Definition note_subject (m : InMime) (id : ChatId) (sort_timestamp : Z) : C unit :=
  chat <- in_db (load_from_db id) ;;
  let '(newer, p) := update_timestamp (chat_param chat) Param.SubjectTimestamp sort_timestamp in
  let p := if (newer : bool)
           then Params_set p Param.LastSubject (default [] (get_subject (mime m))) else p in
  let unpromoted := default false (get_bool p Param.Unpromoted) in
  let p := if unpromoted then Params_remove p Param.Unpromoted else p in
  when (newer || unpromoted) (in_db (update_param (with_param chat p))).

(** From the group changes on, in the chat the message goes to. *)
Definition store_message (now : Z) (m : InMime) (l : list Part) (rfc724_mid : str)
  (from_id : ContactId) (seen : bool) (id : ChatId) (is_dc_message : MessengerMessage)
  (state : MessageState) (timer sort_timestamp : Z) (better : option str)
  (added_removed : option N) : C ReceivedMsg :=
  known <- iroh_peer m ;;
  if negb known then
    ret {| rm_chat_id := id; rm_state := state; rm_hidden := true;
           rm_sort_timestamp := sort_timestamp; rm_msg_ids := []; rm_needs_delete_job := false |}
  else
    handle_edit_delete now m from_id ;;;
    handle_post_message m from_id state ;;;
    call_update m from_id ;;;
    let hidden := forallb p_is_reaction l in
    let f := {| f_mid := default rfc724_mid (get_rfc724_mid (mime m)); f_chat_id := id;
                f_from_id := from_id; f_sort_timestamp := sort_timestamp; f_state := state;
                f_dc := is_dc_message; f_better := better; f_added_removed := added_removed;
                f_timer := timer |} in
    ids <- insert_parts m f seen false l ;;
    for_each (zip l ids) (λ p, note_webxdc m id p.1 p.2) ;;;
    unarchive <- match get_header (mime m) HeaderDef.ChatGroupMemberRemoved with
                 | Some addr => in_db (is_self_addr str_to_lowercase addr)
                 | None => ret true
                 end ;;
    when unarchive (unarchive_if_not_muted id state) ;;;
    when (negb (id =? DC_CHAT_ID_TRASH)%N && negb hidden) (note_subject m id sort_timestamp) ;;;
    ret {| rm_chat_id := id; rm_state := state; rm_hidden := hidden;
           rm_sort_timestamp := sort_timestamp; rm_msg_ids := ids; rm_needs_delete_job := false |}.

(** [add_parts]. *)
Definition add_parts (now : Z) (m : InMime) (to_ids past_ids : list (option N)) (rfc724_mid : str)
  (from_id : ContactId) (seen prevent_rename : bool) (id : ChatId) (blocked : Blocked.Blocked)
  (is_dc_message : MessengerMessage) (is_chat_created : bool) : C ReceivedMsg :=
  let l := match display_name (from m) with
           | Some name => if prevent_rename then set_override name (parts m) else parts m
           | None => parts m
           end in
  settled <- settle_chat now m from_id id blocked l ;;
  let '(chat, blocked, l) := settled in
  let id := chat_id chat in
  self_in_chat <- in_db (is_self_in_chat chat) ;;
  self_fp <- gets (λ s, default generated_fingerprint (self_fingerprint_opt (db s))) ;;
  changes <- in_db (dispatch_group_changes str_to_lowercase now self_fp (mime m) chat from_id to_ids
                      past_ids is_chat_created) ;;
  let timer := header_timer (mime m) in
  let state := initial_state m seen (silent changes) blocked in
  sort_timestamp <- calc_sort_timestamp now id (timestamp_sent (mime m)) (negb self_in_chat) ;;
  apply_ephemeral_timer now m id from_id is_dc_message timer sort_timestamp ;;;
  sort_timestamp <- tweak_sort_timestamp (mime m) (silent changes) id sort_timestamp ;;
  let '(better, extra) := shown_instead m from_id timer changes in
  let timer := if bool_decide (is_system_message m = SystemMessage.EphemeralTimerChanged)
               then 0%Z else timer in
  let id := if bool_decide (better = Some []) then DC_CHAT_ID_TRASH else id in
  for_each extra (λ e,
    add_info_msg_with_cmd now id e.1.1 e.1.2 (Some sort_timestamp) (timestamp_sent (mime m)) None
      e.2 ;;;
    ret tt) ;;;
  store_message now m l rfc724_mid from_id seen id is_dc_message state timer sort_timestamp better
    (added_removed_id changes).

(** ** [receive_imf_inner] *)

(** [LIKE]: [%] stands for any text, [_] for any character; letters of ASCII match in both cases. *)
Fixpoint like (p s : str) {struct p} : bool :=
  match p with
  | [] => bool_decide (s = [])
  | 37%N :: p' =>
      (fix suffixes (s : str) : bool :=
         like p' s || match s with [] => false | _ :: s' => suffixes s' end) s
  | c :: p' =>
      match s with
      | [] => false
      | d :: s' => ((c =? 95)%N || eq_nocase [c] [d]) && like p' s'
      end
  end.

(** [MsgId::set_delivered]. *)
Definition set_delivered (id : MsgId) : C unit :=
  row <- gets (λ s, msgs s !! id) ;;
  match row with
  | Some r =>
      when (bool_decide (m_state r = MessageState.OutPending))
        (modify (upd_msgs (<[id := with_error (with_state r MessageState.OutDelivered) []]>)) ;;;
         emit_core (MsgDelivered (m_chat_id r) id) ;;;
         emit_core (ChatlistItemChanged (m_chat_id r)))
  | None => ret tt
  end.

(** A message of this account came back from the server: the job that sends it to this account is
    done. *)
Definition own_message_back (rfc724_mid : str) (msg_id : MsgId) : C unit :=
  self_addr <- in_db get_primary_self_addr ;;
  done <- gets (λ s, dom (base.filter (λ kr,
            sm_rfc724_mid kr.2 = rfc724_mid
            ∧ (like self_addr (sm_recipients kr.2) || like (37%N :: SP :: self_addr)
                 (sm_recipients kr.2) = true)) (smtp_rows s))) ;;
  modify (λ s, upd_account (upd_smtp_queue (base.filter (λ id, id ∉ done)))
                 (upd_smtp_rows (base.filter (λ kr, kr.1 ∉ done)) s)) ;;;
  pending <- gets (λ s, existsb (λ r, (sm_msg_id r =? msg_id)%N) ((map_to_list (smtp_rows s)).*2)) ;;
  when (negb pending) (set_delivered msg_id).

Definition trashed_msg (rfc724_mid : str) (state : MessageState) (sort_timestamp : Z)
  (needs_delete_job : bool) : C ReceivedMsg :=
  id <- insert_tombstone rfc724_mid ;;
  ret {| rm_chat_id := DC_CHAT_ID_TRASH; rm_state := state; rm_hidden := false;
         rm_sort_timestamp := sort_timestamp; rm_msg_ids := [id];
         rm_needs_delete_job := needs_delete_job |}.

(** The handshake messages: [Some] if there is nothing else to do with the message. *)
Definition securejoin_msg `{!Rendering, !Json QrInvite} (now : Z) (m : InMime)
  (from_id : ContactId) (to_ids : list (option N)) (rfc724_mid : str) : C (option ReceivedMsg) :=
  match get_secure_join_step (mime m) with
  | None => ret None
  | Some _ =>
      res <- (if incoming m then
                handle_securejoin_handshake now
                  {| SecureJoin.mime := mime m; from_addr := info_addr (from m);
                     autocrypt_fingerprint := autocrypt_fp m |} from_id
              else match to_ids with
                   | Some to_id :: _ => observe_securejoin_on_other_device (mime m) to_id
                   | _ => ret Propagate
                   end) ;;
      match res with
      | Propagate => ret None
      | Done | Ignore =>
          r <- trashed_msg rfc724_mid MessageState.InSeen (timestamp_sent (mime m))
                 (bool_decide (res = Done)) ;;
          ret (Some r)
      end
  end.

Definition dc_message (m : InMime) (parent_message : option (N * msg_row)) (s : Core)
  : MessengerMessage :=
  if has_chat_version (mime m) then MessengerMessage.Yes
  else match parent_message with
       | Some (id, _) =>
           match default MessengerMessage.No (msgrmsg s !! id) with
           | MessengerMessage.No => MessengerMessage.No
           | _ => MessengerMessage.Reply
           end
       | None => MessengerMessage.No
       end.

(** [contact::update_last_seen]. *)
Definition SEEN_RECENTLY_SECONDS : Z := 600.

Definition update_last_seen (now : Z) (id : ContactId) (timestamp : Z) : C unit :=
  ensure_or (negb (contact_is_special id)) InvalidContactId ;;;
  older <- gets (λ s, existsb (λ r, (c_id r =? id)%N && (c_last_seen r <? timestamp)%Z)
                        (contacts (db s))) ;;
  when older
    (in_db (update_contact id (λ r,
       {| c_id := c_id r; c_name := c_name r; c_addr := c_addr r; c_fingerprint := c_fingerprint r;
          c_origin := c_origin r; c_authname := c_authname r; c_last_seen := timestamp |})) ;;;
     when (now - SEEN_RECENTLY_SECONDS <? timestamp)%Z (emit_core (ContactsChanged id))).

(** The keys that need not be gossiped again soon. *)
Definition note_gossip (id : ChatId) (timestamp : Z) (fps : list str) (s : Core) : Core :=
  upd_gossip_timestamp (λ g,
    foldl (λ g fp, partial_alter (λ o, Some (Z.max timestamp (default timestamp o))) (id, fp) g) g fps)
    s.

(** From the sender on: the chat is found, handshakes are handled, the message is stored. *)
Definition receive_from `{!Rendering, !Json QrInvite} (now : Z) (m : InMime)
  (rfc724_mid rfc724_mid_orig : str) (seen : bool) (from_id : ContactId)
  (incoming_origin : Origin.Origin) : C (ReceivedMsg * bool) :=
  parent_message <- get_parent_message (get_header (mime m) HeaderDef.References)
                      (get_header (mime m) HeaderDef.InReplyTo) ;;
  dc <- gets (dc_message m parent_message) ;;
  assignment <- decide_chat_assignment now m parent_message rfc724_mid from_id ;;
  ids <- to_and_past_contact_ids m assignment parent_message incoming_origin ;;
  let '(assignment, to_ids, past_ids) := ids in
  handled <- securejoin_msg now m from_id to_ids rfc724_mid ;;
  verified <- has_verified_encryption (mime m) from_id ;;
  (match verified with
   | Verified => mark_recipients_as_verified from_id (mime m) (gossip_verified m)
   | NotVerified => ret tt
   end) ;;;
  match handled with
  | Some r => ret (r, false)
  | None =>
      let allow_creation :=
        negb (bool_decide (is_Some (decryption_error m))) && negb (forallb p_is_reaction (parts m)) in
      let to_id := if incoming m then SELF
                   else match to_ids with Some id :: _ => id | _ => SELF end in
      chat <- do_chat_assignment now assignment from_id to_ids past_ids to_id allow_creation m
                (bool_decide (is_Some parent_message)) ;;
      let '(chat_id, chat_id_blocked, is_created) := chat in
      r <- add_parts now m to_ids past_ids rfc724_mid_orig from_id seen
             (should_prevent_rename (mime m)) chat_id chat_id_blocked dc is_created ;;
      ret (r, bool_decide (chat_id_blocked = Blocked.Request) && negb is_created)
  end.

(** [receive_imf_inner] on the parsed message, [None] if it could not be parsed. *)
Definition GENERATED_PREFIX : str := lit "GEN_".

Definition receive_imf_inner `{!Rendering, !Json QrInvite} (now : Z) (rfc724_mid : str)
  (parsed : option InMime) (seen : bool) : C (option ReceivedMsg) :=
  simulate_error <- in_account (get_config_bool Config.SimulateReceiveImfError) ;;
  ensure_or (negb simulate_error) SimulatedError ;;;
  let trash := r <- trashed_msg rfc724_mid MessageState.Undefined 0%Z false ;; ret (Some r) in
  match parsed with
  | None => if bool_decide (is_Some (strip_prefix GENERATED_PREFIX rfc724_mid)) then ret None else trash
  | Some m =>
      unwanted <- and_then (negb (was_encrypted (mime m))
                            && negb (present (mime m) HeaderDef.SecureJoin))
                    (in_account (get_config_bool Config.ForceEncryption)) ;;
      if (unwanted : bool) then trash
      else
        let rfc724_mid_orig := default rfc724_mid (get_rfc724_mid (mime m)) in
        self_fp <- gets (λ s, self_fingerprint_opt (db s)) ;;
        let foreign := match self_fp with
                       | Some fp => was_encrypted (mime m) && negb (bool_decide (recipient_fps m = []))
                                    && negb (bool_decide (fp ∈ (hex <$> recipient_fps m)))
                       | None => false
                       end in
        if foreign then trash
        else
          known <- match pre_message m with
                   | Post => ret None
                   | _ => rfc724_mid_exists rfc724_mid_orig
                   end ;;
          match known with
          | Some msg_id =>
              when (negb (incoming m)) (own_message_back rfc724_mid_orig msg_id) ;;;
              ret None
          | None =>
              sender <- from_field_to_contact_id (from m) (default [] (signature (mime m)))
                          (should_prevent_rename (mime m)) false ;;
              match sender with
              | None => ret None
              | Some (from_id, _, incoming_origin) =>
                  res <- receive_from now m rfc724_mid rfc724_mid_orig seen from_id
                           incoming_origin ;;
                  let '(r, is_old_contact_request) := res in
                  when (negb (contact_is_special from_id))
                    (update_last_seen now from_id (timestamp_sent (mime m))) ;;;
                  when (negb (chat_is_special (rm_chat_id r)))
                    (modify (note_gossip (rm_chat_id r) (timestamp_sent (mime m))
                       (snd <$> map_to_list (gossiped_keys (mime m))))) ;;;
                  after_reception m r from_id is_old_contact_request ;;;
                  ret (Some r)
              end
          end
  end.
End Reception.
