(* ===== verification/ChatKinds.v ===== *)
(** ChatKinds: what the reception of messages leaves alone: the type and the identifier of a chat,
    the contact of a 1:1 chat, the key of a contact (over src/src/contact.rs, src/src/chat.rs and
    src/src/receive_imf.rs). *)
From S2P Require Import Prelude Monad Ids Params Membership ContactTools Headers MsgTable.
From S2P Require Import Db Contacts Recipients GroupChanges Simplify LoginParam Config Sync ChatDb.
From S2P Require Import Verification SecureJoin ChatAssign Reception.

(** ** Relations between databases *)

Definition kind (d : Context) (id : ChatId) : option (Chattype.Chattype * str) :=
  (λ row, (ch_type row, ch_grpid row)) <$> chats d !! id.

Definition key_of (d : Context) (c : ContactId) : option str :=
  c_fingerprint <$> find_contact (λ r, (c_id r =? c)%N) d.

(** The chats and their members are the same; contacts keep their keys and stay apart. *)
Record same_kinds (d d' : Context) : Prop := {
  sk_kind : ∀ id, kind d' id = kind d id;
  sk_members : members d' = members d;
  sk_key : ∀ c k, key_of d c = Some k → key_of d' c = Some k;
  sk_ids : NoDup (c_id <$> contacts d) → NoDup (c_id <$> contacts d')
}.

(** There may be new chats, and the members of groups and channels may change. *)
Record grows (d d' : Context) : Prop := {
  gr_kind : ∀ id k, kind d id = Some k → kind d' id = Some k;
  gr_single : ∀ id g c, kind d id = Some (Chattype.Single, g) →
    is_Some (members d !! (id, c)) → is_Some (members d' !! (id, c));
  gr_key : ∀ c k, key_of d c = Some k → key_of d' c = Some k;
  gr_ids : NoDup (c_id <$> contacts d) → NoDup (c_id <$> contacts d')
}.

#[export] Instance same_kinds_preorder : PreOrder same_kinds.
Proof.
  split.
  - intros d. by split.
  - intros d d' d'' [H1 H2 H3 H4] [K1 K2 K3 K4]. split; [congruence|congruence|eauto|auto].
Qed.

#[export] Instance grows_preorder : PreOrder grows.
Proof.
  split.
  - intros d. by split.
  - intros d d' d'' [H1 H2 H3 H4] [K1 K2 K3 K4]. split; eauto.
Qed.

Lemma same_kinds_grows d d' : same_kinds d d' → grows d d'.
Proof. intros [H1 H2 H3 H4]. split; [|by rewrite H2|done|done]. intros id k. by rewrite H1. Qed.

(** Predicates on the database that such changes keep. *)
Class QuietClosed (P : Context -> Prop) := quiet_closed : ∀ d d', same_kinds d d' → P d → P d'.
Class GrowClosed (P : Context -> Prop) := grow_closed : ∀ d d', grows d d' → P d → P d'.

#[export] Instance grow_quiet P : GrowClosed P → QuietClosed P.
Proof. intros H d d' Hd. apply H, same_kinds_grows, Hd. Qed.

#[export] Instance same_kinds_closed d0 : QuietClosed (same_kinds d0).
Proof. intros d d' H H0. by transitivity d. Qed.

#[export] Instance grows_closed d0 : GrowClosed (grows d0).
Proof. intros d d' H H0. by transitivity d. Qed.

#[export] Hint Mode QuietClosed ! : typeclass_instances.
#[export] Hint Mode GrowClosed ! : typeclass_instances.
#[export] Hint Extern 0 (QuietClosed _) => typeclasses eauto : preserves.
#[export] Hint Extern 0 (GrowClosed _) => typeclasses eauto : preserves.

(** ** Contacts *)

(** An update of the contact table that keeps identifiers and keys. *)
Lemma key_of_fmap d g c :
  (∀ r, c_id (g r) = c_id r ∧ c_fingerprint (g r) = c_fingerprint r) →
  key_of (set_contacts (fmap g) d) c = key_of d c.
Proof.
  intros Hg. unfold key_of, find_contact. simpl. induction (contacts d) as [|r l IH]; [done|].
  csimpl. destruct (Hg r) as [Hid Hfp]. rewrite !filter_cons, Hid.
  destruct (decide _); [simpl; by rewrite Hfp|exact IH].
Qed.

Lemma same_kinds_fmap d g :
  (∀ r, c_id (g r) = c_id r ∧ c_fingerprint (g r) = c_fingerprint r) →
  same_kinds d (set_contacts (fmap g) d).
Proof.
  intros Hg. split; [done|done| |].
  - intros c k. by rewrite key_of_fmap.
  - simpl. rewrite <-list_fmap_compose.
    rewrite (list_fmap_ext (c_id ∘ g) c_id (contacts d)); [done|]. intros i r _. apply Hg.
Qed.

(** A change of a row that keeps type and identifier. *)
Lemma same_kinds_alter d id f :
  (∀ row, ch_type (f row) = ch_type row ∧ ch_grpid (f row) = ch_grpid row) →
  same_kinds d (set_chats (alter f id) d).
Proof.
  intros Hf. split; [|done..]. intros i. unfold kind. simpl.
  destruct (decide (i = id)) as [->|Hi]; [|by rewrite lookup_alter_ne].
  rewrite lookup_alter_eq. destruct (chats d !! id) as [row|]; [|done].
  simpl. by destruct (Hf row) as [-> ->].
Qed.

Section Quiet.
Context {P : Context -> Prop} `{!QuietClosed P}.

Lemma quiet_kinds (f : Context -> Context) : (∀ d, same_kinds d (f d)) → preserves P (modify f : M unit).
Proof. intros Hf. apply preserves_modify. intros d. apply quiet_closed, Hf. Qed.

Lemma emit_event_quiet e : preserves P (emit_event e).
Proof. apply quiet_kinds. intros d. by split. Qed.

Lemma ensure_quiet b : preserves P (ensure b).
Proof. destruct b; [apply preserves_ret|apply preserves_fail]. Qed.

Lemma transaction_kinds {A} (x : M A) : preserves P x → preserves P (transaction x).
Proof.
  intros Hx d Hd. unfold transaction. specialize (Hx d Hd). destruct (x d) as [[a|e] d']; [done|].
  simpl. eapply quiet_closed; [|exact Hd]. by split.
Qed.

Lemma update_contact_quiet id f :
  (∀ r, c_id (f r) = c_id r ∧ c_fingerprint (f r) = c_fingerprint r) →
  preserves P (update_contact id f).
Proof.
  intros Hf. apply quiet_kinds. intros d. apply same_kinds_fmap. intros r.
  destruct (c_id r =? id)%N; [apply Hf|done].
Qed.

Lemma scaleup_origin_kinds ids o : preserves P (scaleup_origin ids o).
Proof. apply quiet_kinds. intros d. apply same_kinds_fmap. intros r. by destruct (_ && _). Qed.

Lemma insert_contact_quiet name addr fp o authname : preserves P (insert_contact name addr fp o authname).
Proof.
  intros d Hd. unfold insert_contact. run_m.
  match goal with |- P ((if _ then _ else _) ?d').2 => assert (same_kinds d d') as Hs end.
  { split; [done|done| |].
    - intros c k. unfold key_of, find_contact. simpl. rewrite list.filter_app.
      by destruct (filter _ (contacts d)).
    - intros Hn. simpl. rewrite fmap_app. apply list.NoDup_app.
      split_and!; [done| |by apply NoDup_singleton].
      intros x Hx ->%list_elem_of_singleton. apply list_elem_of_fmap in Hx as (r & Hid & Hr).
      pose proof (next_contact_id_fresh d r Hr). simpl in Hid. lia. }
  destruct (_ <=? _)%N; by eapply quiet_closed.
Qed.

Lemma set_name_column_quiet id name : preserves P (set_name_column id name).
Proof. apply quiet_kinds. intros d. by apply same_kinds_alter. Qed.

Lemma set_param_column_quiet id col : preserves P (set_param_column id col).
Proof. apply quiet_kinds. intros d. by apply same_kinds_alter. Qed.

Lemma self_fingerprint_kinds gen : preserves P (self_fingerprint gen).
Proof.
  intros d Hd. unfold self_fingerprint. destruct (self_fingerprint_opt d); [done|].
  simpl. eapply quiet_closed; [|exact Hd]. by split.
Qed.

Lemma chat_update_timestamp_quiet id k ts : preserves P (chat_update_timestamp id k ts).
Proof.
  intros d Hd. unfold chat_update_timestamp. destruct (chats d !! id) as [row|] eqn:E; [|done].
  destruct (update_timestamp_row _ _ _) as [[upd col]|]; [|done]. simpl.
  eapply quiet_closed; [|exact Hd]. split; [|done..]. intros i. unfold kind. simpl.
  destruct (decide (i = id)) as [->|Hi]; [by rewrite lookup_insert_eq, E|by rewrite lookup_insert_ne].
Qed.
End Quiet.

#[export] Hint Resolve emit_event_quiet ensure_quiet transaction_kinds scaleup_origin_kinds
  insert_contact_quiet set_name_column_quiet set_param_column_quiet self_fingerprint_kinds
  chat_update_timestamp_quiet : preserves.

Section QuietContacts.
Context {P : Context -> Prop} `{!QuietClosed P}.

Lemma update_chat_names_kinds id : preserves P (update_chat_names id).
Proof. unfold update_chat_names. preserves_tac. Qed.
#[local] Hint Resolve update_chat_names_kinds : preserves.

Lemma lookup_or_insert_kinds name addr fp o : preserves P (lookup_or_insert name addr fp o).
Proof.
  unfold lookup_or_insert. apply transaction_kinds. preserves_tac.
  by apply update_contact_quiet.
Qed.
#[local] Hint Resolve lookup_or_insert_kinds : preserves.

Lemma add_or_lookup_ex_kinds lower gen name addr fp o :
  preserves P (add_or_lookup_ex lower gen name addr fp o).
Proof.
  unfold add_or_lookup_ex, is_configured, is_self_addr.
  preserves_tac; apply preserves_and_then; preserves_tac.
Qed.
#[local] Hint Resolve add_or_lookup_ex_kinds : preserves.

Lemma key_contact_quiet lower gen info fp o : preserves P (key_contact lower gen info fp o).
Proof. unfold key_contact. preserves_tac. Qed.
#[local] Hint Resolve key_contact_quiet : preserves.

Lemma key_contacts_quiet lower gen infos keys fps o :
  preserves P (add_or_lookup_key_contacts lower gen infos keys fps o).
Proof.
  revert fps. induction infos as [|info infos IH]; intros fps; cbn [add_or_lookup_key_contacts];
    unfold one_key_contact, is_self_addr; preserves_tac; apply IH.
Qed.

Lemma fallback_contacts_quiet lower gen infos fps chat :
  preserves P (lookup_key_contacts_fallback_to_chat lower gen infos fps chat).
Proof.
  revert fps. induction infos as [|info infos IH]; intros fps;
    cbn [lookup_key_contacts_fallback_to_chat];
    unfold one_fallback_contact, lookup_key_contact_by_address, is_self_addr; preserves_tac; apply IH.
Qed.

Lemma address_list_quiet `{!Platform, !Outside} infos o :
  preserves P (add_or_lookup_contacts_by_address_list infos o).
Proof.
  induction infos as [|info infos IH]; cbn [add_or_lookup_contacts_by_address_list];
    preserves_tac; apply IH.
Qed.

Lemma load_from_db_kinds id : preserves P (load_from_db id).
Proof. intros d Hd. unfold load_from_db. by destruct (chats d !! id). Qed.

Lemma group_contact_ids_quiet lower upper gen m infos past chat :
  preserves P (get_to_and_past_contact_ids lower upper gen m infos past chat).
Proof.
  unfold get_to_and_past_contact_ids.
  preserves_tac; first [apply key_contacts_quiet|apply fallback_contacts_quiet].
Qed.
End QuietContacts.

#[export] Hint Resolve update_chat_names_kinds lookup_or_insert_kinds add_or_lookup_ex_kinds
  key_contact_quiet key_contacts_quiet fallback_contacts_quiet address_list_quiet
  load_from_db_kinds group_contact_ids_quiet : preserves.

(** ** Operations on the account *)

Definition at_db (P : Context -> Prop) (s : Core) : Prop := P (db s).

Lemma in_db_keeps {A} P (x : M A) : preserves P x → preserves (at_db P) (in_db x).
Proof.
  intros Hx s Hs. unfold in_db. specialize (Hx (db s) Hs). by destruct (x (db s)) as [[a|e] d].
Qed.

Lemma quiet_at_db {X} `{!QuietClosed P} (x : C X) :
  (∀ s, same_kinds (db s) (db (x s).2)) → preserves (at_db P) x.
Proof. intros Hx s Hs. exact (quiet_closed _ _ (Hx s) Hs). Qed.

Lemma grow_at_db {X} `{!GrowClosed P} (x : C X) :
  (∀ s, grows (db s) (db (x s).2)) → preserves (at_db P) x.
Proof. intros Hx s Hs. exact (grow_closed _ _ (Hx s) Hs). Qed.

Lemma in_account_keeps {X} P (x : A X) : preserves (at_db P) (in_account x).
Proof. intros s Hs. unfold in_account. by destruct (x (account s)) as [[a|e] d]. Qed.

Lemma rollback_keeps {X} (Q : Core -> Prop) (x : C X) : preserves Q x → preserves Q (rollback x).
Proof. intros Hx s Hs. unfold rollback. specialize (Hx s Hs). by destruct (x s) as [[a|e] d]. Qed.

Lemma emit_core_keeps `{!QuietClosed P} e : preserves (at_db P) (emit_core e).
Proof.
  apply preserves_modify. intros s Hs. unfold at_db in *. simpl.
  eapply quiet_closed; [|exact Hs]. by split.
Qed.

Lemma ensure_or_keeps (Q : Core -> Prop) b e : preserves Q (ensure_or b e).
Proof. destruct b; [apply preserves_ret|apply preserves_fail]. Qed.

Lemma to_u32_keeps (Q : Core -> Prop) n : preserves Q (to_u32 n).
Proof. unfold to_u32. preserves_tac. Qed.

Lemma core_modify_keeps P (f : Core -> Core) :
  (∀ s, db (f s) = db s) → preserves (at_db P) (modify f : C unit).
Proof. intros Hf. apply preserves_modify. intros s Hs. unfold at_db. by rewrite Hf. Qed.

#[export] Hint Resolve in_db_keeps in_account_keeps rollback_keeps emit_core_keeps ensure_or_keeps
  to_u32_keeps : preserves.
#[export] Hint Extern 1 (preserves (at_db _) (modify _)) =>
  solve [apply core_modify_keeps; reflexivity] : preserves.

(** What the other components do with a received message. *)
Class IntakeOk `{!Intake} := {
  markseen_quiet mid s : same_kinds (db s) (db (markseen_on_imap_table mid s).2);
  cant_decrypt_quiet e mid s : same_kinds (db s) (db (add_cant_decrypt_msg e mid s).2)
}.

Section QuietAssignment.
Context `{!Platform, !Outside, !Json SyncItem, !Json EnteredLoginParam,
          !Json ConfiguredLoginParamJson, !Sending, !Intake, !IntakeOk}.
Context {P : Context -> Prop} `{!QuietClosed P}.

Lemma markseen_imap_keeps mid : preserves (at_db P) (markseen_on_imap_table mid).
Proof. apply quiet_at_db. intros s. apply markseen_quiet. Qed.

Lemma cant_decrypt_keeps e mid : preserves (at_db P) (add_cant_decrypt_msg e mid).
Proof. apply quiet_at_db. intros s. apply cant_decrypt_quiet. Qed.
#[local] Hint Resolve markseen_imap_keeps cant_decrypt_keeps : preserves.

Lemma mid_exists_ex_keeps mid e : preserves (at_db P) (rfc724_mid_exists_ex mid e).
Proof. unfold rfc724_mid_exists_ex. preserves_tac. Qed.
#[local] Hint Resolve mid_exists_ex_keeps : preserves.

Lemma mid_exists_keeps mid : preserves (at_db P) (rfc724_mid_exists mid).
Proof. unfold rfc724_mid_exists. preserves_tac. Qed.
#[local] Hint Resolve mid_exists_keeps : preserves.

Lemma load_msg_keeps id : preserves (at_db P) (load_msg_optional id).
Proof. unfold load_msg_optional. preserves_tac. Qed.
#[local] Hint Resolve load_msg_keeps : preserves.

Lemma by_mids_keeps latest mids : preserves (at_db P) (by_mids latest mids).
Proof. revert latest. induction mids; intros latest; cbn [by_mids]; preserves_tac; done. Qed.

Lemma get_parent_message_keeps a b : preserves (at_db P) (get_parent_message a b).
Proof. apply by_mids_keeps. Qed.

Lemma get_by_id_keeps id : preserves (at_db P) (get_by_id id).
Proof. unfold get_by_id, get_by_id_optional. preserves_tac. Qed.
#[local] Hint Resolve get_by_id_keeps : preserves.

Lemma is_encrypted_keeps chat : preserves (at_db P) (is_encrypted chat).
Proof. unfold is_encrypted. preserves_tac. Qed.
#[local] Hint Resolve is_encrypted_keeps : preserves.

Lemma lookup_chat_by_reply_keeps m r : preserves (at_db P) (lookup_chat_by_reply m r).
Proof.
  unfold lookup_chat_by_reply, is_probably_private_reply, chat_contacts. preserves_tac.
Qed.
#[local] Hint Resolve lookup_chat_by_reply_keeps : preserves.

Lemma wants_trash_keeps now m mid : preserves (at_db P) (wants_trash now m mid).
Proof. unfold wants_trash, cant_decrypt_outgoing. preserves_tac. Qed.

Lemma completes_other_keeps m mid : preserves (at_db P) (completes_other m mid).
Proof. unfold completes_other. preserves_tac. Qed.

Lemma count_recipients_keeps addr l b n : preserves (at_db P) (count_recipients addr l b n).
Proof.
  revert b n. induction l as [|i l IH]; intros b n; cbn [count_recipients]; unfold is_self_addr;
    preserves_tac; apply IH.
Qed.
#[local] Hint Resolve count_recipients_keeps : preserves.

Lemma audience_keeps m from : preserves (at_db P) (audience m from).
Proof. unfold audience. preserves_tac. Qed.
#[local] Hint Resolve wants_trash_keeps completes_other_keeps audience_keeps : preserves.

Lemma decide_keeps now m parent mid from :
  preserves (at_db P) (decide_chat_assignment now m parent mid from).
Proof. unfold decide_chat_assignment. preserves_tac. Qed.

Lemma from_field_keeps info fp b b' : preserves (at_db P) (from_field_to_contact_id info fp b b').
Proof.
  unfold from_field_to_contact_id, key_contact_by_addr. preserves_tac.
  apply in_db_keeps. by apply update_contact_quiet.
Qed.

Lemma anywhere_keeps infos fps : preserves (at_db P) (lookup_key_contacts_anywhere infos fps).
Proof.
  revert fps. induction infos as [|info infos IH]; intros fps; cbn [lookup_key_contacts_anywhere];
    unfold lookup_key_contact_anywhere, is_self_addr; preserves_tac; apply IH.
Qed.
#[local] Hint Resolve anywhere_keeps : preserves.

Lemma to_and_past_keeps m a parent o : preserves (at_db P) (to_and_past_contact_ids m a parent o).
Proof.
  unfold to_and_past_contact_ids, single_contacts, intended_contacts, key_contacts,
    lookup_key_contacts_fallback, address_contacts, get_chat_id_by_grpid, load_self_public_key.
  preserves_tac.
Qed.
End QuietAssignment.

#[export] Hint Resolve markseen_imap_keeps cant_decrypt_keeps mid_exists_ex_keeps mid_exists_keeps
  load_msg_keeps by_mids_keeps get_parent_message_keeps get_by_id_keeps is_encrypted_keeps
  lookup_chat_by_reply_keeps decide_keeps from_field_keeps to_and_past_keeps : preserves.

(** ** Changes of one group *)

(** Only the members of the chat [id] change. *)
Record group_step (id : ChatId) (d d' : Context) : Prop := {
  gs_kind : ∀ i, kind d' i = kind d i;
  gs_members : ∀ key, key.1 ≠ id → members d' !! key = members d !! key;
  gs_key : ∀ c k, key_of d c = Some k → key_of d' c = Some k;
  gs_ids : NoDup (c_id <$> contacts d) → NoDup (c_id <$> contacts d')
}.

Class GroupClosed (id : ChatId) (P : Context -> Prop) :=
  group_closed : ∀ d d', group_step id d d' → P d → P d'.

#[export] Instance group_quiet id P : GroupClosed id P → QuietClosed P.
Proof.
  intros H d d' [H1 H2 H3 H4]. apply H. split; [done| |done..]. intros key _. by rewrite H2.
Qed.

(** A group may change without any 1:1 chat changing. *)
Lemma grows_group_closed d0 id :
  (∀ g, kind d0 id ≠ Some (Chattype.Single, g)) → GroupClosed id (grows d0).
Proof.
  intros Hid d d' [H1 H2 H3 H4] [K1 K2 K3 K4].
  split; [intros i k Hk; rewrite H1; auto| |eauto|auto].
  intros i g c Hk Hc. rewrite H2; [by eapply K2|]. simpl. intros ->. by apply (Hid g).
Qed.

Definition off_chat (id : ChatId) (f : chats_contacts -> chats_contacts) : Prop :=
  ∀ t key, key.1 ≠ id → f t !! key = t !! key.

Lemma add_to_chat_off ts id l : off_chat id (add_to_chat_contacts_table ts id l).
Proof. intros t key Hk. unfold add_to_chat_contacts_table. apply upsert_loop_other. by left. Qed.

Lemma update_table_off ts id cs : off_chat id (update_chat_contacts_table ts id cs).
Proof. intros t key Hk. by rewrite update_chat_contacts_table_lookup, decide_False. Qed.

Lemma replace_off id cs : off_chat id (replace_members id cs).
Proof. intros t [c x] Hk. by rewrite replace_members_lookup, decide_False. Qed.

Lemma remove_trace_off id c :
  off_chat id (λ t, (remove_from_chat_contacts_table_without_trace id c t).2).
Proof.
  intros t key Hk. unfold remove_from_chat_contacts_table_without_trace.
  destruct (t !! (id, c)); [|done]. simpl. rewrite lookup_delete_ne; [done|]. by intros <-.
Qed.

Lemma changes_off id chs : off_chat id (λ t, foldl (apply_change id) t chs).
Proof.
  intros t key Hk. revert t. induction chs as [|ch chs IH]; intros t; [done|]. simpl. rewrite IH.
  unfold apply_change, add_statement, remove_statement. destruct (ch_stamp ch) as [ts []];
    rewrite upsert_lookup, decide_False; [done| |done|]; by intros <-.
Qed.

Lemma timestamps_off id ign to past ts :
  off_chat id (λ t, (update_chats_contacts_timestamps id ign to past ts t).2).
Proof.
  intros t key Hk.
  pose proof (apply_header_changes id t {| hd_ignored := ign; hd_to := to; hd_past := past;
    hd_timestamps := ts |}) as E. unfold apply_header in E. simpl in E. rewrite E.
  by apply changes_off.
Qed.

#[export] Hint Resolve add_to_chat_off update_table_off replace_off remove_trace_off timestamps_off
  : preserves.

Section OneGroup.
Context {P : Context -> Prop} (id : ChatId) `{!GroupClosed id P}.

Lemma set_members_keeps f : off_chat id f → preserves P (modify (set_members f) : M unit).
Proof.
  intros Hf. apply preserves_modify. intros d. apply group_closed. split; [done| |done..].
  intros key. apply Hf.
Qed.

(** An operation on the table that gives a result. *)
Lemma members_run_keeps {X R : Type} (f : chats_contacts -> X * chats_contacts) (g : X -> R) :
  off_chat id (λ t, (f t).2) →
  preserves P ((λ c, let '(x, t) := f (members c) in (Ok (g x), set_members (λ _, t) c)) : M R).
Proof.
  intros Hf d Hd. specialize (Hf (members d)). cbv beta in Hf. destruct (f (members d)) as [x t]. simpl in *.
  eapply group_closed; [|exact Hd]. split; [done| |done..]. exact Hf.
Qed.

Lemma set_descriptions_quiet f : preserves P (modify (set_descriptions f) : M unit).
Proof. apply quiet_kinds. intros d. by split. Qed.

Lemma set_secrets_quiet f : preserves P (modify (set_secrets f) : M unit).
Proof. apply quiet_kinds. intros d. by split. Qed.

(** The name, the description and the avatar; the chat in memory stays the same chat. *)
Lemma chat_changes_keeps m from b st :
  preserves P (apply_chat_name_avatar_and_description_changes m from b st).
Proof.
  destruct st as [[chat se] better].
  unfold apply_chat_name_avatar_and_description_changes, apply_name_change,
    apply_description_change, apply_avatar_change, get_chat_description, update_param.
  preserves_tac; auto using set_descriptions_quiet; apply preserves_and_then; preserves_tac.
Qed.

Lemma chat_changes_bind {A} m from b chat se better (k : change_state -> M A) :
  chat_id chat = id →
  (∀ chat' se' better', chat_id chat' = id → preserves P (k (chat', se', better'))) →
  preserves P (bind (apply_chat_name_avatar_and_description_changes m from b (chat, se, better)) k).
Proof.
  intros Hid Hk d Hd. unfold bind.
  pose proof (chat_changes_keeps m from b (chat, se, better) d Hd) as Hd'.
  destruct (apply_chat_changes_frame m from b chat se better d) as (_ & _ & Hc).
  destruct (apply_chat_name_avatar_and_description_changes _ _ _ _ d) as [[[[chat' se'] b']|e] d'];
    [|done]. destruct Hc as [Hc _]. apply Hk; [by rewrite Hc|done].
Qed.

Lemma lookup_fingerprint_keeps fp : preserves P (lookup_key_contact_by_fingerprint fp).
Proof. apply preserves_gets. Qed.

Lemma lookup_address_keeps lower addr chat : preserves P (lookup_key_contact_by_address lower addr chat).
Proof. unfold lookup_key_contact_by_address, is_self_addr. preserves_tac. Qed.

Lemma is_self_in_chat_keeps chat : preserves P (is_self_in_chat chat).
Proof. unfold is_self_in_chat, contact_in_chat. preserves_tac. Qed.
#[local] Hint Resolve set_members_keeps set_descriptions_quiet set_secrets_quiet
  lookup_fingerprint_keeps lookup_address_keeps is_self_in_chat_keeps : preserves.

Lemma explicit_changes_keeps lower m chat from cc b :
  chat_id chat = id → preserves P (explicit_changes lower m chat from cc b).
Proof. intros Hid. unfold explicit_changes. rewrite Hid. preserves_tac. Qed.

Lemma member_list_keeps lower now m chat from k to past cc ex se :
  chat_id chat = id → preserves P (apply_member_list lower now m chat from k to past cc ex se).
Proof.
  intros Hid. unfold apply_member_list, member_list_is_stale, member_list_timestamp, is_self_added,
    get_primary_self_addr. rewrite Hid.
  preserves_tac; try (apply preserves_and_then; preserves_tac).
  - by apply (members_run_keeps _ (λ modified, se || modified)), timestamps_off.
  - intros d Hd. by destruct (configured_addr d).
Qed.

Lemma group_changes_keeps lower now m chat from to past created :
  chat_id chat = id → preserves P (apply_group_changes lower now m chat from to past created).
Proof.
  intros Hid. unfold apply_group_changes, chat_contacts.
  apply preserves_bind.
  { intros d Hd. unfold is_key_contact. by destruct (find_contact _ d). }
  intros k. do 3 (apply preserves_bind; [apply ensure_quiet|intros _]).
  apply preserves_bind; [apply preserves_gets|intros l].
  apply preserves_bind; [by apply explicit_changes_keeps|intros ex].
  apply chat_changes_bind; [done|]. intros chat' se' better' Hid'. cbv beta iota zeta.
  preserves_tac. by apply member_list_keeps.
Qed.

Lemma out_broadcast_keeps m chat from :
  chat_id chat = id → preserves P (apply_out_broadcast_changes m chat from).
Proof.
  intros Hid. unfold apply_out_broadcast_changes, contact_in_chat.
  apply preserves_bind; [apply ensure_quiet|intros _].
  set (k := λ st : change_state, _).
  assert (∀ chat' se' b', chat_id chat' = id → preserves P (k (chat', se', b'))) as Hk.
  { intros chat' se' b' Hid'. subst k. cbv beta iota zeta. rewrite Hid'. preserves_tac.
    apply (members_run_keeps _ (λ b, b)), remove_trace_off. }
  destruct (from =? SELF)%N; [by apply chat_changes_bind|].
  exact (Hk chat false None Hid).
Qed.

Lemma in_broadcast_keeps lower self_fp m chat from :
  chat_id chat = id → preserves P (apply_in_broadcast_changes lower self_fp m chat from).
Proof.
  intros Hid. unfold apply_in_broadcast_changes, contact_in_chat.
  apply preserves_bind; [apply ensure_quiet|intros _].
  destruct (first_part_error m); [apply preserves_ret|].
  apply preserves_bind; [apply preserves_gets|intros b]. apply chat_changes_bind; [done|].
  intros chat' se' better' Hid'. unfold in_broadcast_self, in_broadcast_finish, is_self_addr.
  rewrite Hid'. preserves_tac.
  apply (members_run_keeps _ (λ b, b)), remove_trace_off.
Qed.

Lemma dispatch_keeps lower now self_fp m chat from to past created :
  chat_id chat = id →
  preserves P (dispatch_group_changes lower now self_fp m chat from to past created).
Proof.
  intros Hid. unfold dispatch_group_changes.
  destruct (chat_is_special _); [apply preserves_ret|].
  destruct (chat_typ chat); auto using preserves_ret, group_changes_keeps, out_broadcast_keeps,
    in_broadcast_keeps.
Qed.
End OneGroup.

(** ** New chats and stored messages *)

Lemma grows_new_chat d id row : chats d !! id = None → grows d (set_chats (<[id := row]>) d).
Proof.
  intros Hid. split; [|done..]. intros i k. unfold kind. simpl.
  destruct (decide (i = id)) as [->|Hi]; [by rewrite Hid|by rewrite lookup_insert_ne].
Qed.

Lemma grows_members d f :
  (∀ key, is_Some (members d !! key) → is_Some (f (members d) !! key)) → grows d (set_members f d).
Proof. intros Hf. split; [done| |done..]. intros id g c _. apply Hf. Qed.

(** The tables of members, when rows are only added. *)
Lemma upsert_some key new upd t key' :
  is_Some (t !! key') → is_Some ((upsert key new upd t).2 !! key').
Proof. intros Ht. rewrite upsert_lookup. by destruct (decide _). Qed.

Lemma add_to_chat_some ts id l t key :
  is_Some (t !! key) → is_Some (add_to_chat_contacts_table ts id l t !! key).
Proof.
  unfold add_to_chat_contacts_table. revert t. induction l as [|x l IH]; intros t Ht; [done|].
  simpl. by apply IH, upsert_some.
Qed.

Lemma timestamps_some id ign to past ts t key :
  is_Some (t !! key) → is_Some ((update_chats_contacts_timestamps id ign to past ts t).2 !! key).
Proof.
  pose proof (apply_header_changes id t {| hd_ignored := ign; hd_to := to; hd_past := past;
    hd_timestamps := ts |}) as E. unfold apply_header in E. simpl in E. rewrite E. clear E.
  generalize (header_changes {| hd_ignored := ign; hd_to := to; hd_past := past;
    hd_timestamps := ts |}) as chs. intros chs. revert t.
  induction chs as [|ch chs IH]; intros t Ht; [done|]. simpl. apply IH.
  unfold apply_change, add_statement, remove_statement.
  destruct (ch_stamp ch) as [ts' []]; by apply upsert_some.
Qed.

(** What the components around reception do to the chats: they may add some. *)
Class NeighboursOk `{!Neighbours} := {
  reaction_grows a b c d e f s : grows (db s) (db (set_msg_reaction a b c d e f s).2);
  call_grows a b c s : grows (db s) (db (handle_call_msg a b c s).2);
  peer_grows a b s : grows (db s) (db (add_gossip_peer_from_header a b s).2);
  topic_grows a b s : grows (db s) (db (insert_topic_stub a b s).2);
  logging_grows a b c d s : grows (db s) (db (maybe_set_logging_xdc a b c d s).2);
  stop_logging_grows a s : grows (db s) (db (stop_logging_xdc a s).2);
  poi_grows a s : grows (db s) (db (delete_poi a s).2);
  unarchive_grows a b s : grows (db s) (db (unarchive_if_not_muted a b s).2)
}.

Section Growing.
Context `{!Platform, !Outside, !Json SyncItem, !Json EnteredLoginParam,
          !Json ConfiguredLoginParamJson, !Sending, !Intake, !IntakeOk, !Neighbours, !NeighboursOk}.
Context {P : Context -> Prop} `{!GrowClosed P}.

Lemma grow_modify (f : Context -> Context) :
  (∀ d, grows d (f d)) → preserves (at_db P) (modify (upd_db f) : C unit).
Proof. intros Hf. apply grow_at_db. intros s. apply Hf. Qed.

Lemma add_members_grows ts id l : preserves (at_db P) (add_members ts id l).
Proof. apply grow_modify. intros d. apply grows_members. intros key. apply add_to_chat_some. Qed.

Lemma insert_chat_grows row b : preserves (at_db P) (insert_chat row b).
Proof.
  unfold insert_chat. intros s Hs. unfold bind, gets, modify.
  assert (at_db P (upd_chat_seq (λ _, next_row_id (chat_seq s) (chats (db s)))
    (upd_chat_blocked (<[next_row_id (chat_seq s) (chats (db s)) := b]>)
      (upd_db (set_chats (<[next_row_id (chat_seq s) (chats (db s)) := row]>)) s)))) as Hnew.
  { unfold at_db. simpl. eapply grow_closed; [|exact Hs]. apply grows_new_chat, next_row_id_fresh. }
  by apply to_u32_keeps.
Qed.

Lemma insert_msg_grows r txt : preserves (at_db P) (insert_msg r txt).
Proof. unfold insert_msg. preserves_tac. Qed.
#[local] Hint Resolve add_members_grows insert_chat_grows insert_msg_grows : preserves.

Lemma info_msg_grows now id text cmd sort rcvd from added :
  preserves (at_db P) (add_info_msg_with_cmd now id text cmd sort rcvd from added).
Proof.
  unfold add_info_msg_with_cmd, create_outgoing_rfc724_mid, get_ephemeral_timer,
    calc_sort_timestamp, join_timestamp. preserves_tac.
Qed.
#[local] Hint Resolve info_msg_grows : preserves.

Lemma e2ee_notice_grows now id ts : preserves (at_db P) (add_e2ee_notice now id ts).
Proof. unfold add_e2ee_notice. preserves_tac. Qed.
#[local] Hint Resolve e2ee_notice_grows : preserves.

Lemma lookup_by_contact_grows id : preserves (at_db P) (lookup_by_contact id).
Proof. unfold lookup_by_contact. preserves_tac. Qed.
#[local] Hint Resolve lookup_by_contact_grows : preserves.

Lemma get_for_contact_grows now id b : preserves (at_db P) (get_for_contact now id b).
Proof.
  unfold get_for_contact. preserves_tac. apply grow_modify. intros d. apply grows_members.
  intros key Hk. destruct (decide (key = (a1, id))) as [->|Hne];
    [by rewrite lookup_insert_eq|by rewrite lookup_insert_ne].
Qed.

Lemma multiuser_record_grows now t g n b p ts :
  preserves (at_db P) (create_multiuser_record now t g n b p ts).
Proof. unfold create_multiuser_record. preserves_tac. Qed.
#[local] Hint Resolve get_for_contact_grows multiuser_record_grows : preserves.

Lemma set_chat_blocked_grows id b : preserves (at_db P) (set_chat_blocked id b).
Proof. unfold set_chat_blocked. preserves_tac. Qed.

Lemma adhoc_group_grows now m to allow b :
  preserves (at_db P) (lookup_or_create_adhoc_group now m to allow b).
Proof.
  unfold lookup_or_create_adhoc_group, create_adhoc_group, announce_new_chat. preserves_tac.
Qed.

Lemma create_group_grows now m b from to past g :
  preserves (at_db P) (create_group now m b from to past g).
Proof.
  unfold create_group, announce_new_chat.
  destruct (chat_group_member_timestamps _ _ _) as [ts|]; [|preserves_tac].
  preserves_tac. apply grow_modify. intros d. apply grows_members. intros key. apply timestamps_some.
Qed.

Lemma mailinglist_grows now allow b h from m :
  preserves (at_db P) (create_or_lookup_mailinglist_or_broadcast now allow b h from m).
Proof.
  unfold create_or_lookup_mailinglist_or_broadcast, get_chat_id_by_grpid, announce_new_chat.
  preserves_tac.
Qed.

Lemma mailinglist_changes_grows m id : preserves (at_db P) (apply_mailinglist_changes m id).
Proof.
  unfold apply_mailinglist_changes, apply_list_name, apply_list_post, update_param.
  preserves_tac; apply preserves_and_then; preserves_tac.
Qed.
#[local] Hint Resolve set_chat_blocked_grows adhoc_group_grows create_group_grows mailinglist_grows
  mailinglist_changes_grows : preserves.

Lemma assigned_incoming_grows now a from to past allow b h m :
  preserves (at_db P) (assigned_incoming now a from to past allow b h m).
Proof. unfold assigned_incoming, get_chat_id_by_grpid. preserves_tac. Qed.

Lemma assign_single_grows now bot from allow t r :
  preserves (at_db P) (assign_single now bot from allow t r).
Proof. unfold assign_single. preserves_tac. Qed.
End Growing.

#[export] Hint Resolve add_members_grows insert_chat_grows insert_msg_grows info_msg_grows
  e2ee_notice_grows lookup_by_contact_grows get_for_contact_grows multiuser_record_grows
  set_chat_blocked_grows adhoc_group_grows create_group_grows mailinglist_grows
  mailinglist_changes_grows assigned_incoming_grows assign_single_grows : preserves.
