(* ===== verification/ReceptionSafety.v ===== *)
(** ReceptionSafety: where received messages end up (src/src/receive_imf.rs): a message that is not
    encrypted stays out of encrypted chats, other people's messages are not edited or deleted, the
    timer of a chat follows its members. *)
From stdpp Require Import sorting.
From S2P Require Import Prelude Monad Ids Params Membership ContactTools Headers MsgTable.
From S2P Require Import Db Contacts Recipients GroupChanges Simplify LoginParam Config Sync ChatDb.
From S2P Require Import Verification SecureJoin JoinTrust ChatAssign Reception ChatKinds.

(** ** Chats for messages without encryption *)

(** An ad-hoc group, a mailing list, a 1:1 chat whose contact has no key. *)
Definition open_chat (d : Context) (id : ChatId) : Prop :=
  match kind d id with
  | Some (Chattype.Group, g) => g = []
  | Some (Chattype.Mailinglist, _) => True
  | Some (Chattype.Single, _) =>
      ∃ c, is_Some (members d !! (id, c)) ∧ key_of d c = Some []
  | _ => False
  end.

#[export] Instance open_chat_closed id : GrowClosed (λ d, open_chat d id).
Proof.
  intros d d' [H1 H2 H3 _]. unfold open_chat. destruct (kind d id) as [[t g]|] eqn:E; [|done].
  rewrite (H1 _ _ E). destruct t; try done. intros (c & Hc & Hk). exists c. eauto.
Qed.

#[export] Instance key_closed c k : GrowClosed (λ d, key_of d c = Some k).
Proof. intros d d' H. apply H. Qed.

#[export] Instance kind_closed id k : GrowClosed (λ d, kind d id = Some k).
Proof. intros d d' H. apply H. Qed.

(** The tables: 1:1 chats and the reserved chats have no identifier, channels have one; the row of
    the user has no key. *)
Record tables_ok (d : Context) : Prop := {
  singles_unnamed : ∀ id g, kind d id = Some (Chattype.Single, g) → g = [];
  special_unnamed : ∀ id t g, chat_is_special id = true → kind d id = Some (t, g) → g = [];
  channels_named : ∀ id t g, kind d id = Some (t, g) →
    t ∈ [Chattype.OutBroadcast; Chattype.InBroadcast] → g ≠ [];
  self_keyless : key_of d SELF = Some [];
  contacts_apart : NoDup (c_id <$> contacts d);
  reserved_chat : ∃ id, chat_is_special id = true ∧ is_Some (kind d id)
}.

#[export] Instance tables_ok_closed : QuietClosed tables_ok.
Proof.
  intros d d' [H1 _ H3 H4] [T1 T2 T3 T4 T5 (i & T6 & T7)].
  split; [| | |by apply H3|by apply H4|exists i; by rewrite H1].
  - intros id g. rewrite H1. apply T1.
  - intros id t g. rewrite H1. apply T2.
  - intros id t g. rewrite H1. apply T3.
Qed.

#[export] Instance single_closed id c : GrowClosed (λ d, single_with d id c).
Proof.
  intros d d' [H1 H2 _ _] [Ht Hm]. destruct (chats d !! id) as [row|] eqn:E; simplify_eq/=.
  assert (kind d id = Some (Chattype.Single, ch_grpid row)) as Hk by (unfold kind; rewrite E; simpl; by rewrite Ht).
  split; [|by eapply H2]. apply H1 in Hk. unfold kind in Hk.
  destruct (chats d' !! id); simplify_eq/=. by f_equal.
Qed.

Lemma at_db_run {A} P (x : C A) s r s' :
  preserves (at_db P) x → x s = (r, s') → P (db s) → P (db s').
Proof. apply (preserves_run (at_db P)). Qed.

(** A fact about the database after an operation that keeps it: the run is [H], the fact [K]. *)
Ltac carry_by tac P H K :=
  let K' := fresh in
  pose proof (λ Hp, at_db_run P _ _ _ _ Hp H K) as K'; cbv beta in K';
  (match type of K' with ?A → _ =>
     let HA := fresh in assert (HA : A) by tac; specialize (K' HA); clear HA end);
  clear K; rename K' into K.
Ltac carry P H K := carry_by preserves_tac P H K.

(** The state is only read. *)
Ltac ro H := unfold ret, fail, gets, ensure_or in H; cbv beta iota in H.

Lemma ensure_run b c x c' : ensure b c = (Ok x, c') → b = true ∧ c' = c.
Proof. by destruct b; intros [= <- <-]. Qed.

Section Open.
Context {PF : Platform} {OS : Outside} {JS : Json SyncItem} {JE : Json EnteredLoginParam}
  {JC : Json ConfiguredLoginParamJson} {SD : Sending} {IN : Intake} {IO : IntakeOk}.

Lemma load_from_db_run id s chat s' :
  in_db (load_from_db id) s = (Ok chat, s') →
  db s' = db s ∧ chat_id chat = id ∧ kind (db s) id = Some (chat_typ chat, chat_grpid chat).
Proof.
  unfold in_db, load_from_db, kind. destruct (chats (db s) !! id) as [row|]; [|done].
  intros [= <- <-]. done.
Qed.

Lemma single_open d id c : single_with d id c → key_of d c = Some [] → open_chat d id.
Proof.
  intros [H1 H2] Hk. unfold open_chat, kind.
  destruct (chats d !! id) as [row|]; simplify_eq/=. rewrite H1. eauto.
Qed.

(** A chat that is not encrypted. *)
Lemma unencrypted_open chat s s' :
  kind (db s) (chat_id chat) = Some (chat_typ chat, chat_grpid chat) →
  is_encrypted chat s = (Ok false, s') → s' = s ∧ open_chat (db s) (chat_id chat).
Proof.
  intros Hk. unfold is_encrypted, open_chat. rewrite Hk. destruct (is_self_talk chat); [done|].
  destruct (chat_typ chat); run_se; try done.
  - destruct (head (chat_rows (chat_id chat) s)) as [c|] eqn:E; simpl; [|done].
    unfold key_of, row_of. destruct (find_contact _ (db s)) as [r|] eqn:F; [|done].
    intros [= H <-]. split; [done|]. exists c. rewrite F. simpl. split.
    + apply head_Some_elem_of in E. unfold chat_rows in E.
      rewrite merge_sort_Permutation in E. apply list_elem_of_omap in E as ([i x] & Hin & Hx).
      simpl in Hx. destruct (N.eqb_spec i (chat_id chat)) as [->|]; [|done]. simplify_eq.
      by apply elem_of_dom, elem_of_elements.
    + apply orb_false_iff in H as [H%negb_false_iff%bool_decide_eq_true _]. by rewrite H.
  - intros [= H%negb_false_iff%bool_decide_eq_true <-]. by rewrite H.
  - by intros [= <-].
Qed.

(** The assignments of messages without encryption. *)
Definition assignment_open (a : ChatAssignment) (d : Context) : Prop :=
  match a with
  | GroupChat _ => False
  | ExistingChat id _ => open_chat d id
  | _ => True
  end.

#[export] Instance assignment_open_closed a : GrowClosed (assignment_open a).
Proof. intros d d' H. destruct a; try done. simpl. by apply (open_chat_closed chat_id d d'). Qed.

Lemma lookup_chat_by_reply_open m parent s id b s' :
  signature (mime m) = None → lookup_chat_by_reply m parent s = (Ok (Some (id, b)), s') →
  open_chat (db s') id.
Proof.
  intros Hsig. unfold lookup_chat_by_reply, was_encrypted. rewrite Hsig.
  intros (? & s1 & _ & H)%bind_ok. destruct (lookup_by_message parent) as [p|]; [|done].
  apply bind_ok in H as ([] & s2 & _ & H); [done|]. apply bind_ok in H as (chat & s3 & H3 & H).
  apply load_from_db_run in H3 as (E & Hid & Hk). destruct (_ && _); [done|].
  apply bind_ok in H as (enc & s4 & H4 & H). destruct enc; [done|]. simpl in H. ro H.
  simplify_eq. rewrite <-E in Hk. apply unencrypted_open in H4 as [<- Ho]; [done|congruence].
Qed.

Lemma decide_open now m parent mid from s a s' :
  signature (mime m) = None → decide_chat_assignment now m parent mid from s = (Ok a, s') →
  assignment_open a (db s').
Proof.
  intros Hsig. unfold decide_chat_assignment. intros (t & s1 & _ & H)%bind_ok.
  apply bind_ok in H as (o & s2 & _ & H). apply bind_ok in H as ([hs n] & s3 & _ & H).
  cbv beta iota zeta in H. destruct (t || o); [ro H; by simplify_eq|].
  destruct (is_mailinglist_message _); [ro H; by simplify_eq|].
  assert (∀ b, assignment_open (by_header m b) (db s')) as Hh.
  { intros b. unfold by_header. by destruct (present _ _), b. }
  destruct (get_chat_group_id (mime m)) as [g|].
  - unfold was_encrypted in H at 1. rewrite Hsig in H. destruct parent as [[? p]|]; [|ro H; by simplify_eq].
    apply bind_ok in H as ([[id b]|] & s4 & H4 & H); ro H; simplify_eq; [|done].
    by eapply lookup_chat_by_reply_open.
  - destruct parent as [[? p]|]; [|ro H; simplify_eq; apply Hh].
    apply bind_ok in H as ([[id b]|] & s4 & H4 & H); ro H; simplify_eq; [|apply Hh].
    by eapply lookup_chat_by_reply_open.
Qed.

(** The chat a record was created for. *)
Lemma insert_chat_kind row b s id s' :
  insert_chat row b s = (Ok id, s') → kind (db s') id = Some (ch_type row, ch_grpid row).
Proof.
  unfold insert_chat, to_u32. run_se. destruct (_ <=? _)%N; [|done]. intros [= <- <-].
  unfold kind. simpl. by rewrite lookup_insert_eq.
Qed.

Lemma multiuser_record_kind now t g n b p ts s id s' :
  create_multiuser_record now t g n b p ts s = (Ok id, s') → kind (db s') id = Some (t, g).
Proof.
  unfold create_multiuser_record. intros (i & s1 & H1 & H)%bind_ok.
  apply insert_chat_kind in H1. simpl in H1. apply bind_ok in H as (chat & s2 & H2 & H).
  apply load_from_db_run in H2 as (E & _). rewrite <-E in H1.
  apply bind_ok in H as (e & s3 & H3 & H). apply bind_ok in H as (? & s4 & H4 & H). ro H. simplify_eq.
  carry (λ d, kind d id = Some (t, g)) H3 H1. by carry (λ d, kind d id = Some (t, g)) H4 H1.
Qed.

(** A contact looked up without a key has none. *)
Lemma key_of_member d r :
  NoDup (c_id <$> contacts d) → r ∈ contacts d → key_of d (c_id r) = Some (c_fingerprint r).
Proof.
  unfold key_of, find_contact. induction (contacts d) as [|x l IH]; intros Hn Hr;
    [by apply not_elem_of_nil in Hr|]. rewrite fmap_cons in Hn. apply list.NoDup_cons in Hn as [Hx Hn].
  apply elem_of_cons in Hr as [->|Hr].
  - rewrite filter_cons, decide_True; [done|]. apply N.eqb_refl.
  - rewrite filter_cons, decide_False; [by apply IH|]. intros E%N.eqb_eq. apply Hx.
    rewrite E. by apply list_elem_of_fmap_2.
Qed.

Lemma lookup_or_insert_keyless name addr o d id md d' :
  NoDup (c_id <$> contacts d) →
  lookup_or_insert name addr [] o d = (Ok (id, md), d') → key_of d' id = Some [].
Proof.
  intros Hn. unfold lookup_or_insert, transaction.
  set (x := bind _ _). intros H. destruct (x d) as [[v|e] d1] eqn:E; simplify_eq. subst x.
  apply bind_ok in E as (row & d2 & H2 & E). ro H2. simplify_eq.
  destruct (find_contact (matches [] addr) d2) as [row|] eqn:F.
  - apply find_contact_Some in F as [Hr Hm]. unfold matches in Hm.
    apply andb_true_iff in Hm as [Hm%bool_decide_eq_true _].
    assert (key_of d2 (c_id row) = Some []) as Hk by by rewrite key_of_member, Hm.
    cbv zeta in E. destruct (_ || _).
    + apply bind_ok in E as ([] & d3 & H3 & E). apply bind_ok in E as ([] & d4 & H4 & E). ro E.
      simplify_eq.
      refine (preserves_run (λ d, key_of d (c_id row) = Some []) _ _ _ _ _ H4
        (preserves_run (λ d, key_of d (c_id row) = Some []) _ _ _ _ _ H3 Hk)); [preserves_tac|].
      by apply update_contact_quiet.
    + ro E. by simplify_eq.
  - apply bind_ok in E as (i & d3 & H3 & E). ro E. simplify_eq.
    unfold insert_contact in H3. revert H3. run_m. destruct (_ <=? _)%N; [|done].
    intros [= <- <-]. unfold key_of, find_contact. simpl. rewrite list.filter_app.
    destruct (filter _ (contacts d2)) as [|r l] eqn:E.
    + rewrite filter_cons, decide_True; [done|]. apply N.eqb_refl.
    + assert (r ∈ r :: l) as Hr by by left. rewrite <-E in Hr.
      apply list_elem_of_filter in Hr as [Hid%N.eqb_eq Hr].
      pose proof (next_contact_id_fresh d2 r Hr). lia.
Qed.

Lemma add_or_lookup_keyless lower gen name addr o d id md d' :
  tables_ok d → add_or_lookup_ex lower gen name addr [] o d = (Ok (id, md), d') →
  key_of d' id = Some [].
Proof.
  intros [_ _ _ Hself Hn]. unfold add_or_lookup_ex. intros (? & d1 & H1 & H)%bind_ok.
  apply bind_ok in H as (? & d2 & H2 & H). apply bind_ok in H as (conf & d3 & H3 & H).
  apply bind_ok in H as (self & d4 & H4 & H).
  assert (d4 = d) as ->.
  { apply ensure_run in H1 as [_ ->]. apply ensure_run in H2 as [_ ->].
    unfold Contacts.is_configured in H3. unfold is_self_addr, and_then in H4. ro H3.
    simplify_eq. destruct (negb _) in H4; ro H4; by simplify_eq. }
  destruct self; [ro H; by simplify_eq|]. apply bind_ok in H as (k & d5 & H5 & H).
  rewrite bool_decide_eq_true_2 in H5 by done. cbn [negb andb and_then] in H5. ro H5.
  injection H5 as <- <-. destruct (effective_name_origin _ _ _) as [name' o'].
  by eapply lookup_or_insert_keyless.
Qed.

Lemma from_field_keyless info b s id bl o s' :
  tables_ok (db s) → from_field_to_contact_id info [] b false s = (Ok (Some (id, bl, o)), s') →
  key_of (db s') id = Some [].
Proof.
  intros Ht. unfold from_field_to_contact_id.
  destruct (ContactAddress_new _ _) as [addr|]; [|done]. cbv zeta. rewrite andb_false_r.
  intros (? & s1 & H1 & H)%bind_ok. ro H1. simplify_eq. apply bind_ok in H as ([i md] & s2 & H2 & H).
  unfold in_db in H2. destruct (add_or_lookup_ex _ _ _ _ _ _ _) as [[v|e] d] eqn:E; simplify_eq.
  pose proof (add_or_lookup_keyless _ _ _ _ _ _ _ _ _ Ht E) as Hk.
  change d with (db (upd_db (λ _, d) s1)) in Hk. cbn [fst] in H.
  destruct (N.eqb_spec i SELF) as [->|]; [ro H; by simplify_eq|].
  apply bind_ok in H as (c & s3 & H3 & H). apply bind_ok in H as ([] & s4 & H4 & H). ro H. simplify_eq.
  carry (λ d, key_of d id = Some []) H3 Hk.
  by carry_by ltac:(apply in_db_keeps; by apply update_contact_quiet)
    (λ d, key_of d id = Some []) H4 Hk.
Qed.

Lemma members_of_elem t id c : c ∈ members_of t id → is_Some (t !! (id, c)).
Proof.
  unfold members_of. rewrite elem_of_list_to_set. intros ([[i x] r] & Hin & H)%list_elem_of_omap.
  simpl in H. destruct (N.eqb_spec i id) as [->|]; [|done]. simpl in H.
  destruct (row_is_member r); simplify_eq. apply elem_of_map_to_list in Hin. eauto.
Qed.

(** An ad-hoc group. *)
Lemma adhoc_group_open now m to allow b s id bl cr s' :
  tables_ok (db s) → signature (mime m) = None →
  lookup_or_create_adhoc_group now m to allow b s = (Ok (Some (id, bl, cr)), s') →
  id = DC_CHAT_ID_TRASH ∨ open_chat (db s') id.
Proof.
  intros Ht Hsig. unfold lookup_or_create_adhoc_group. case_bool_decide as Hd; [done|]. clear Hd.
  intros (res & s1 & H1 & H)%bind_ok. apply bind_ok in H as ([[from bl'] o] & s2 & H2 & H).
  unfold ok_or in H2. destruct res; ro H2; simplify_eq.
  pose proof (from_field_keyless _ _ _ _ _ _ _ Ht H1) as Hk. carry tables_ok H1 Ht.
  cbv zeta in H. cbn [fst] in H. apply bind_ok in H as (found & s3 & H3 & H). ro H3. simplify_eq.
  unfold was_encrypted in H. rewrite Hsig in H.
  destruct (find_adhoc_group _ _ _) as [[i bl1]|] eqn:F.
  - ro H. simplify_eq. right. unfold find_adhoc_group in F.
    destruct (_ !! _) as [i|] eqn:E; simplify_eq/=. apply list_elem_of_lookup_2 in E.
    apply list_elem_of_filter in E as [_ E]. unfold adhoc_candidates in E.
    apply list_elem_of_filter in E as [(Hg & _ & Hm & _) _].
    assert (from ∈ members_of (members (db s')) id) as Hf by (rewrite Hm; set_solver).
    apply members_of_elem in Hf. unfold open_chat.
    destruct (kind (db s') id) as [[t g]|] eqn:K.
    + assert (g = []) as ->.
      { unfold kind in K. destruct (chats (db s') !! id); simplify_eq/=. done. }
      destruct t; try done; eauto.
      all: by destruct (channels_named _ Ht _ _ _ K); [set_solver|].
    + unfold kind in K. by destruct (chats (db s') !! id).
  - destruct allow; [|done]. cbn [negb] in H. apply bind_ok in H as (res & s4 & H4 & H). ro H.
    destruct res as [[i b1]|]; simplify_eq/=. unfold create_adhoc_group in H4. cbv zeta in H4.
    destruct (is_mailinglist_message _); [done|].
    destruct (present _ _); [ro H4; simplify_eq; by left|]. right.
    apply bind_ok in H4 as (i & s5 & H5 & H4). apply bind_ok in H4 as ([] & s6 & H6 & H4).
    apply bind_ok in H4 as ([] & s7 & H7 & H4). ro H4. simplify_eq.
    apply multiuser_record_kind in H5. assert (Ho : open_chat (db s5) id) by (unfold open_chat; by rewrite H5).
    carry (λ d, open_chat d id) H6 Ho.
    by carry_by ltac:(unfold announce_new_chat; preserves_tac) (λ d, open_chat d id) H7 Ho.
Qed.

Lemma get_chat_id_by_grpid_run g s id b s' :
  get_chat_id_by_grpid g s = (Ok (Some (id, b)), s') → s' = s ∧ ∃ t, kind (db s) id = Some (t, g).
Proof.
  unfold get_chat_id_by_grpid. intros H. ro H.
  destruct (head _) as [i|] eqn:E; simplify_eq/=. split; [done|].
  apply head_Some_elem_of, list_elem_of_filter in E as [E _]. unfold kind.
  destruct (chats (db s') !! id) as [row|]; simplify_eq/=. eauto.
Qed.

(** The message has a List-Id without an identifier. *)
Definition nameless_list (m : InMime) : Prop :=
  ∃ h, get_mailinglist_header (mime m) = Some h ∧ mailinglist_header_listid h = [].

(** Where a message without encryption may be put at first: the chat named by the List-Id may also
    be a channel or a group, which [add_parts] looks at again. *)
Definition lands (m : InMime) (id : ChatId) (d : Context) : Prop :=
  id = DC_CHAT_ID_TRASH ∨ open_chat d id
  ∨ (nameless_list m ∧ chat_is_special id = true)
  ∨ ∃ h t, get_mailinglist_header (mime m) = Some h ∧ mailinglist_header_listid h ≠ []
      ∧ chat_is_special id = false
      ∧ t ∈ [Chattype.Group; Chattype.OutBroadcast; Chattype.InBroadcast]
      ∧ kind d id = Some (t, mailinglist_header_listid h).

#[export] Instance lands_closed m id : GrowClosed (lands m id).
Proof.
  intros d d' Hg [?|[Ho|[?|(h & t & Hh & Hn & Hs & Ht & Hk)]]];
    [by left|right; left|by right; right; left|right; right; right].
  - by apply (open_chat_closed id d d').
  - exists h, t. split_and!; try done. by apply (kind_closed id _ d d').
Qed.

Lemma head_filter_least (P : N -> Prop) `{!∀ x, Decision (P x)} l :
  StronglySorted N.le l → ∀ x y, head (base.filter P l) = Some x → y ∈ l → P y → (x <= y)%N.
Proof.
  induction 1 as [|z l Hs IH Hall]; intros x y; [done|]. rewrite filter_cons.
  destruct (decide (P z)) as [Hz|Hz]; simpl.
  - intros [= <-] [->|Hy]%elem_of_cons _; [lia|]. rewrite list.Forall_forall in Hall. by apply Hall.
  - intros Hx [->|Hy]%elem_of_cons HP; [done|]. by apply IH.
Qed.

(** The chat that is found for an empty identifier is a reserved one: they were created with the
    database and have the lowest numbers. *)
Lemma nameless_reserved s id b s' :
  tables_ok (db s) → get_chat_id_by_grpid [] s = (Ok (Some (id, b)), s') → chat_is_special id = true.
Proof.
  intros Ht. unfold get_chat_id_by_grpid. intros H. ro H.
  destruct (head _) as [i|] eqn:E; simplify_eq/=.
  destruct (reserved_chat _ Ht) as (k & Hk & [[t g] Hkind]).
  pose proof (special_unnamed _ Ht k t g Hk Hkind) as ->.
  unfold chat_is_special in *. apply andb_true_iff in Hk as [_ Hk%N.leb_le].
  apply andb_true_iff. split; [apply N.leb_le; lia|apply N.leb_le].
  destruct (decide (id <= k)%N) as [|Hlt]; [lia|exfalso].
  assert (k ∈ row_ids (chats (db s')) ∧ ch_grpid <$> chats (db s') !! k = Some []) as [Hin Hg].
  { unfold kind in Hkind. destruct (chats (db s') !! k) eqn:Ek; simplify_eq/=.
    split; [|by f_equal]. unfold row_ids. rewrite merge_sort_Permutation, elem_of_elements, elem_of_dom.
    by rewrite Ek. }
  assert (StronglySorted N.le (row_ids (chats (db s')))) as Hs
    by (apply StronglySorted_merge_sort; apply _).
  pose proof (head_filter_least _ _ Hs _ _ E Hin Hg). lia.
Qed.

Lemma mailinglist_lands now allow b h from m s id bl cr s' :
  tables_ok (db s) → signature (mime m) = None → get_mailinglist_header (mime m) = Some h →
  create_or_lookup_mailinglist_or_broadcast now allow b h from m s = (Ok (Some (id, bl, cr)), s') →
  lands m id (db s').
Proof.
  intros Ht Hsig Hh. unfold create_or_lookup_mailinglist_or_broadcast, was_encrypted. rewrite Hsig.
  cbv zeta. intros ([[i b1]|] & s1 & H1 & H)%bind_ok.
  - ro H. simplify_eq. right.
    destruct (decide (mailinglist_header_listid h = [])) as [Hn|Hn].
    { right. left. rewrite Hn in H1. split; [by exists h|by eapply nameless_reserved]. }
    apply get_chat_id_by_grpid_run in H1 as [-> (t & Hk)].
    destruct (decide (t = Chattype.Mailinglist)) as [->|Hm].
    { left. unfold open_chat. by rewrite Hk. }
    right. right. exists h, t. split_and!; try done.
    + destruct (chat_is_special id) eqn:E; [|done]. by destruct Hn; eapply special_unnamed.
    + destruct t; try set_solver. by destruct Hn; eapply singles_unnamed.
  - destruct allow; [|done]. apply bind_ok in H as (i & s2 & H2 & H).
    apply bind_ok in H as ([] & s3 & H3 & H). apply bind_ok in H as ([] & s4 & H4 & H).
    apply multiuser_record_kind in H2. ro H. simplify_eq. right. left.
    assert (Ho : open_chat (db s2) id) by (unfold open_chat; by rewrite H2).
    carry (λ d, open_chat d id) H3 Ho.
    by carry_by ltac:(unfold announce_new_chat; preserves_tac) (λ d, open_chat d id) H4 Ho.
Qed.

Lemma assigned_lands now a from to past allow b h m s id bl cr s' :
  tables_ok (db s) → signature (mime m) = None → assignment_open a (db s) →
  assigned_incoming now a from to past allow b h m s = (Ok (Some (id, bl, cr)), s') →
  lands m id (db s').
Proof.
  intros Ht Hsig Ha. unfold assigned_incoming.
  destruct a as [|g| | |i b1|]; try done; try (intros H; ro H; simplify_eq).
  - by left.
  - destruct (get_mailinglist_header (mime m)) as [hd|] eqn:Hh; [|done].
    apply bind_ok in H as ([[[i b1] c1]|] & s1 & H1 & H); [|done].
    apply bind_ok in H as ([] & s2 & H2 & H). ro H. simplify_eq.
    eapply mailinglist_lands in H1 as Hl; [|done..]. by carry (lands m id) H2 Hl.
  - apply adhoc_group_open in H as [Hl|Hl]; [by left|right; by left|done|done].
  - right. left. by simpl in Ha.
Qed.

Lemma assign_single_lands now bot from allow t r m s id bl cr s' :
  key_of (db s) from = Some [] → (∀ i b, t = Some (i, b) → single_with (db s) i from) →
  assign_single now bot from allow t r s = (Ok (Some (id, bl, cr)), s') → lands m id (db s').
Proof.
  intros Hk Ht. unfold assign_single. intros (c & s1 & H1 & H)%bind_ok. cbv zeta in H.
  apply bind_ok in H as (res & s2 & H2 & H).
  assert (∀ i b c, res = Some (i, b, c) → open_chat (db s2) i) as Ho.
  { intros i b1 c1 ->. destruct t as [[i' b2]|].
    - ro H2. simplify_eq. assert (Hi : open_chat (db s) i) by eauto using single_open.
      by carry (λ d, open_chat d i) H1 Hi.
    - destruct allow; [|done]. apply bind_ok in H2 as ([i' b2] & s3 & H3 & H2). ro H2. simplify_eq/=.
      carry (λ d, key_of d from = Some []) H1 Hk. pose proof (get_for_contact_single _ _ _ _ _ _ H3) as Hw.
      carry (λ d, key_of d from = Some []) H3 Hk. by eapply single_open. }
  apply bind_ok in H as ([] & s3 & H3 & H). ro H. simplify_eq.
  specialize (Ho id bl cr eq_refl). right. left.
  by carry (λ d, open_chat d id) H3 Ho.
Qed.

Lemma assign_incoming_lands now bot a from to past allow m r s id bl cr s' :
  tables_ok (db s) → signature (mime m) = None → assignment_open a (db s) →
  key_of (db s) from = Some [] →
  assign_incoming now bot a from to past allow m r s = (Ok (Some (id, bl, cr)), s') →
  lands m id (db s').
Proof.
  intros Ht Hsig Ha Hk. unfold assign_incoming. intros (t & s1 & H1 & H)%bind_ok.
  assert (s1 = s) as ->.
  { unfold lookup_by_contact in H1. apply bind_ok in H1 as (? & s3 & H3 & H1). ro H1.
    unfold ensure_or in H3. destruct (negb _) in H3; ro H3; by simplify_eq. }
  apply bind_ok in H as (b & s2 & H2 & H). unfold create_blocked_for in H2.
  assert (Hs : ∀ i b, t = Some (i, b) → single_with (db s) i from).
  { intros i b1 ->. by eapply lookup_by_contact_single. }
  assert (Hp : ∀ i b, t = Some (i, b) → single_with (db s2) i from).
  { intros i b1 Hi. specialize (Hs i b1 Hi).
    by carry (λ d, single_with d i from) H2 Hs. }
  carry tables_ok H2 Ht. carry (assignment_open a) H2 Ha. carry (λ d, key_of d from = Some []) H2 Hk.
  apply bind_ok in H as ([[[i b1] c1]|] & s3 & H3 & H).
  - eapply assigned_lands in H3; [|done..]. destruct (_ && _).
    + apply bind_ok in H as (? & s4 & H4 & H). ro H. simplify_eq. by carry (lands m id) H4 H3.
    + ro H. by simplify_eq.
  - eapply assign_single_lands; [| |exact H].
    + by carry (λ d, key_of d from = Some []) H3 Hk.
    + intros i b1 Hi. specialize (Hp i b1 Hi). by carry (λ d, single_with d i from) H3 Hp.
Qed.
End Open.

(** ** Storing a message *)

Section Stored.
Context {PF : Platform} {OS : Outside} {JS : Json SyncItem} {JE : Json EnteredLoginParam}
  {JC : Json ConfiguredLoginParamJson} {SD : Sending} {IN : Intake} {IO : IntakeOk}
  {NB : Neighbours} {NO : NeighboursOk}.
Context {P : Context -> Prop} `{!GrowClosed P}.

Lemma reaction_keeps a b c d e f : preserves (at_db P) (set_msg_reaction a b c d e f).
Proof. apply grow_at_db. intros s. apply reaction_grows. Qed.
Lemma call_keeps a b c : preserves (at_db P) (handle_call_msg a b c).
Proof. apply grow_at_db. intros s. apply call_grows. Qed.
Lemma peer_keeps a b : preserves (at_db P) (add_gossip_peer_from_header a b).
Proof. apply grow_at_db. intros s. apply peer_grows. Qed.
Lemma topic_keeps a b : preserves (at_db P) (insert_topic_stub a b).
Proof. apply grow_at_db. intros s. apply topic_grows. Qed.
Lemma logging_keeps a b c d : preserves (at_db P) (maybe_set_logging_xdc a b c d).
Proof. apply grow_at_db. intros s. apply logging_grows. Qed.
Lemma stop_logging_keeps a : preserves (at_db P) (stop_logging_xdc a).
Proof. apply grow_at_db. intros s. apply stop_logging_grows. Qed.
Lemma poi_keeps a : preserves (at_db P) (delete_poi a).
Proof. apply grow_at_db. intros s. apply poi_grows. Qed.
Lemma unarchive_keeps a b : preserves (at_db P) (unarchive_if_not_muted a b).
Proof. apply grow_at_db. intros s. apply unarchive_grows. Qed.
#[local] Hint Resolve reaction_keeps call_keeps peer_keeps topic_keeps logging_keeps
  stop_logging_keeps poi_keeps unarchive_keeps : preserves.

Lemma delete_listed_keeps from mids del md : preserves (at_db P) (delete_listed from mids del md).
Proof.
  revert del md. induction mids as [|mid mids IH]; intros del md; cbn [delete_listed];
    unfold insert_tombstone, delete_msg_locally; preserves_tac; apply IH.
Qed.
#[local] Hint Resolve delete_listed_keeps : preserves.

Lemma handle_edit_delete_keeps now m from : preserves (at_db P) (handle_edit_delete now m from).
Proof.
  unfold handle_edit_delete, handle_edit, save_text_edit_to_db, delete_msgs_locally_done.
  preserves_tac. apply preserves_for_each. intros id _. preserves_tac.
Qed.

Lemma handle_post_message_keeps m from st : preserves (at_db P) (handle_post_message m from st).
Proof. unfold handle_post_message, complete_msg. preserves_tac. Qed.

Lemma insert_parts_keeps m f seen save l : preserves (at_db P) (insert_parts m f seen save l).
Proof.
  revert save. induction l as [|part l IH]; intros save; cbn [insert_parts]; preserves_tac; apply IH.
Qed.
#[local] Hint Resolve handle_edit_delete_keeps handle_post_message_keeps insert_parts_keeps : preserves.

Lemma ephemeral_timer_keeps now m id from dc t ts :
  preserves (at_db P) (apply_ephemeral_timer now m id from dc t ts).
Proof.
  unfold apply_ephemeral_timer, get_ephemeral_timer, is_timer_rollback, get_previous_message,
    inner_set_ephemeral_timer, chat_contacts.
  preserves_tac; apply preserves_and_then; preserves_tac.
Qed.

Lemma store_message_keeps now m l mid from seen id dc st t ts better added :
  preserves (at_db P) (store_message now m l mid from seen id dc st t ts better added).
Proof.
  unfold store_message, iroh_peer, call_update, get_by_rfc724_mids, note_subject, update_param,
    is_self_addr.
  preserves_tac. apply preserves_for_each. intros [part i] _. unfold note_webxdc. preserves_tac.
Qed.
End Stored.

Section Unencrypted.
Context {PF : Platform} {OS : Outside} {JS : Json SyncItem} {JE : Json EnteredLoginParam}
  {JC : Json ConfiguredLoginParamJson} {SD : Sending} {IN : Intake} {IO : IntakeOk}
  {NB : Neighbours} {NO : NeighboursOk}.

(** The chat [add_parts] works on. *)
Lemma settle_lands now m from id b l s chat b' l' s' :
  lands m id (db s) → key_of (db s) from = Some [] → incoming m = true →
  settle_chat now m from id b l s = (Ok (chat, b', l'), s') →
  lands m (chat_id chat) (db s') ∧ key_of (db s') from = Some []
  ∧ kind (db s') (chat_id chat) = Some (chat_typ chat, chat_grpid chat).
Proof.
  intros Hl Hk Hin. unfold settle_chat. intros (c0 & s1 & H1 & H)%bind_ok.
  apply load_from_db_run in H1 as (E1 & Hid & Hkind). rewrite Hin in H. rewrite <-E1 in *.
  assert (∀ b2 l2, (ret (c0, b2, l2) : C _) s1 = (Ok (chat, b', l'), s') →
    lands m (chat_id chat) (db s') ∧ key_of (db s') from = Some []
    ∧ kind (db s') (chat_id chat) = Some (chat_typ chat, chat_grpid chat)) as Hstay.
  { intros b2 l2 HH. ro HH. simplify_eq. done. }
  destruct (_ && _) in H; [|by eapply Hstay].
  apply bind_ok in H as (here & s2 & H2 & H).
  assert (s2 = s1) as ->.
  { unfold in_db, contact_in_chat in H2. cbn in H2. simplify_eq. by destruct s1. }
  destruct here; cbn [negb] in H; [by eapply Hstay|]. cbv zeta in H.
  case_bool_decide as Ht; [|by eapply Hstay].
  apply bind_ok in H as ([i b2] & s3 & H3 & H). apply bind_ok in H as (c1 & s4 & H4 & H). ro H.
  simplify_eq. apply load_from_db_run in H4 as (E4 & Hid4 & Hkind4). cbn [fst] in *.
  pose proof (get_for_contact_single _ _ _ _ _ _ H3) as Hw. cbn [fst] in Hw.
  carry (λ d, key_of d from = Some []) H3 Hk. rewrite E4. rewrite Hid4. split_and!; try done.
  right. left. by eapply single_open.
Qed.

(** The group code refuses a message of a contact without key in a group with an identifier. *)
Lemma dispatch_refuses now self_fp m chat from to past created s r s' :
  key_of (db s) from = Some [] → from ≠ SELF → chat_is_special (chat_id chat) = false →
  chat_typ chat = Chattype.Group → chat_grpid chat ≠ [] →
  in_db (dispatch_group_changes str_to_lowercase now self_fp m chat from to past created) s
  ≠ (Ok r, s').
Proof.
  intros Hk Hf Hs Ht Hg. unfold in_db, dispatch_group_changes. rewrite Hs, Ht.
  unfold apply_group_changes, is_key_contact. unfold key_of in Hk. unfold bind at 1.
  destruct (find_contact _ (db s)) as [row|]; [|done]. simplify_eq/=.
  rewrite bool_decide_eq_true_2 by done. rewrite (proj2 (N.eqb_neq _ _) Hf). cbn [negb orb].
  rewrite bool_decide_eq_false_2 by done. by unfold ensure, bind, fail.
Qed.

(** Where a message without encryption is: in the trash, in a chat that is not encrypted, in a
    channel its List-Id names, or, if the List-Id names nothing, in a reserved chat. *)
Definition kept_out (m : InMime) (id : ChatId) (d : Context) : Prop :=
  id = DC_CHAT_ID_TRASH ∨ open_chat d id
  ∨ (nameless_list m ∧ chat_is_special id = true)
  ∨ ∃ h t, get_mailinglist_header (mime m) = Some h
      ∧ t ∈ [Chattype.OutBroadcast; Chattype.InBroadcast]
      ∧ kind d id = Some (t, mailinglist_header_listid h).

#[export] Instance kept_out_closed m id : GrowClosed (kept_out m id).
Proof.
  intros d d' Hg [?|[Ho|[?|(h & t & Hh & Ht & Hk)]]];
    [by left|right; left|by right; right; left|right; right; right].
  - by apply (open_chat_closed id d d').
  - exists h, t. split_and!; try done. by apply (kind_closed id _ d d').
Qed.

Lemma in_db_ro {A} (x : M A) s r s' : (∀ d, (x d).2 = d) → in_db x s = (r, s') → db s' = db s.
Proof.
  intros Hx. unfold in_db. specialize (Hx (db s)). destruct (x (db s)) as [[v|e] d]; intros [= <- <-];
    exact Hx.
Qed.

Lemma dispatch_grows now self_fp m chat from to past created s r s' :
  kind (db s) (chat_id chat) = Some (chat_typ chat, chat_grpid chat) →
  in_db (dispatch_group_changes str_to_lowercase now self_fp m chat from to past created) s = (r, s') →
  grows (db s) (db s').
Proof.
  intros Hk H. destruct (decide (chat_typ chat = Chattype.Single)) as [Ht|Ht].
  { apply in_db_ro in H as ->; [done|]. intros d. unfold dispatch_group_changes. rewrite Ht.
    by destruct (chat_is_special _). }
  pose proof (grows_group_closed (db s) (chat_id chat)) as Hc.
  refine (at_db_run (grows (db s)) _ _ _ _ _ H _); [|done]. apply in_db_keeps.
  apply @dispatch_keeps with (id := chat_id chat); [|done]. apply Hc. intros g. rewrite Hk. congruence.
Qed.

Lemma store_message_chat now m l mid from seen id dc st t ts better added s r s' :
  store_message now m l mid from seen id dc st t ts better added s = (Ok r, s') → rm_chat_id r = id.
Proof.
  unfold store_message. intros (known & s1 & _ & H)%bind_ok. destruct known; cbn [negb] in H;
    [|ro H; by simplify_eq].
  do 4 (apply bind_ok in H as (? & ? & _ & H); cbv beta iota zeta in H).
  do 4 (apply bind_ok in H as (? & ? & _ & H); cbv beta iota zeta in H).
  ro H. by simplify_eq.
Qed.

Lemma add_parts_kept_out now m to past mid from seen rn id b dc cr s r s' :
  lands m id (db s) → key_of (db s) from = Some [] → from ≠ SELF → incoming m = true →
  add_parts now m to past mid from seen rn id b dc cr s = (Ok r, s') →
  kept_out m (rm_chat_id r) (db s').
Proof.
  intros Hl Hk Hf Hin. unfold add_parts. cbv zeta.
  intros ([[chat b'] l'] & s1 & H1 & H)%bind_ok. eapply settle_lands in H1; [|done..].
  destruct H1 as (Hl1 & Hk1 & Hkind). cbv beta iota zeta in H.
  apply bind_ok in H as (self & s2 & H2 & H). apply bind_ok in H as (fp & s3 & H3 & H). ro H3.
  injection H3 as _ <-. apply in_db_ro in H2; [|intros d; unfold is_self_in_chat; by destruct (chat_typ chat)].
  rewrite <-H2 in *. apply bind_ok in H as (ch & s4 & H4 & H).
  assert (Ho : kept_out m (chat_id chat) (db s4)).
  { apply (kept_out_closed m (chat_id chat) (db s2)); [by eapply dispatch_grows|].
    destruct Hl1 as [?|[Ho|[?|(h & t & Hh & Hn & Hs & Ht & Hkd)]]];
      [by left|right; by left|by right; right; left|right; right; right].
    exists h, t. split_and!; try done. rewrite Hkind in Hkd. injection Hkd as Htyp Hg.
    apply elem_of_cons in Ht as [->|Ht]; [exfalso|done].
    eapply dispatch_refuses in H4; [done..|]. by rewrite Hg. }
  apply bind_ok in H as (ts & s5 & H5 & H). apply bind_ok in H as ([] & s6 & H6 & H).
  apply bind_ok in H as (ts' & s7 & H7 & H).
  carry_by ltac:(unfold calc_sort_timestamp, join_timestamp; preserves_tac)
    (kept_out m (chat_id chat)) H5 Ho.
  carry_by ltac:(apply ephemeral_timer_keeps) (kept_out m (chat_id chat)) H6 Ho.
  carry_by ltac:(unfold tweak_sort_timestamp, get_parent_timestamp; preserves_tac)
    (kept_out m (chat_id chat)) H7 Ho.
  destruct (shown_instead _ _ _ _) as [better extra]. cbv beta iota zeta in H.
  set (id' := if bool_decide _ then _ else _) in H.
  assert (Ho' : kept_out m id' (db s7)) by (subst id'; destruct (bool_decide _); [by left|done]).
  apply bind_ok in H as ([] & s8 & H8 & H).
  carry_by ltac:(apply preserves_for_each; intros e _; preserves_tac) (kept_out m id') H8 Ho'.
  replace (rm_chat_id r) with id'; [by carry_by ltac:(apply store_message_keeps) (kept_out m id') H Ho'|].
  symmetry. by eapply store_message_chat.
Qed.

Lemma single_contacts_assignment m a o fps chat s a' ids s' :
  single_contacts m a o fps chat s = (Ok (a', ids), s') → a' = a ∨ a' = AdHocGroup.
Proof.
  unfold single_contacts. intros (pgp & s1 & _ & H)%bind_ok.
  assert (∀ x, bind (if was_encrypted (mime m) then intended_contacts m fps chat else ret []) (λ ids,
    if (was_encrypted (mime m) && negb (bool_decide (None ∈ ids)))
       || existsb (λ c, bool_decide (is_Some c) && negb (bool_decide (c = Some SELF))) ids
    then ret (a, ids)
    else
      to_ids <- in_db (add_or_lookup_contacts_by_address_list (recipients m) (to_origin m o)) ;;
      ret (if was_encrypted (mime m) then AdHocGroup else a, to_ids)) x = (Ok (a', ids), s') →
    a' = a ∨ a' = AdHocGroup) as Hrest.
  { intros x (l & s2 & _ & HH)%bind_ok. destruct (_ || _); [ro HH; simplify_eq; by left|].
    apply bind_ok in HH as (? & s3 & _ & HH). ro HH. destruct (was_encrypted _); simplify_eq; auto. }
  destruct pgp as [|[c|] pgp]; [by eapply Hrest|ro H; simplify_eq; by left|by eapply Hrest].
Qed.

Lemma to_and_past_assignment m a parent o s a' to past s' :
  to_and_past_contact_ids m a parent o s = (Ok (a', to, past), s') → a' = a ∨ a' = AdHocGroup.
Proof.
  unfold to_and_past_contact_ids. destruct (split_fingerprints _ _) as [to_fps past_fps].
  destruct a as [|g| | |i b|]; intros H.
  - ro H. simplify_eq. by left.
  - apply bind_ok in H as (? & s1 & _ & H). apply bind_ok in H as (? & s2 & _ & H). ro H.
    simplify_eq. by left.
  - apply bind_ok in H as ([a1 ids] & s1 & H1 & H). apply bind_ok in H as (? & s2 & _ & H). ro H.
    simplify_eq. by eapply single_contacts_assignment.
  - apply bind_ok in H as (? & s1 & _ & H). ro H. simplify_eq. by left.
  - apply bind_ok in H as (? & s1 & _ & H). apply bind_ok in H as ([] & s2 & _ & H).
    + apply bind_ok in H as (? & s3 & _ & H). apply bind_ok in H as (? & s4 & _ & H). ro H.
      simplify_eq. by left.
    + apply bind_ok in H as (? & s3 & _ & H). ro H. simplify_eq. by left.
  - apply bind_ok in H as ([a1 ids] & s1 & H1 & H). apply bind_ok in H as (? & s2 & _ & H). ro H.
    simplify_eq. by eapply single_contacts_assignment.
Qed.

(** A received message that is not encrypted and is no handshake, from a sender of whom only
    the address is known, never gets into an encrypted chat, whatever it claims in its headers to be
    a reply to or part of: if reception succeeds, the message is in the trash, in an ad-hoc group, a
    mailing list or a 1:1 chat whose contact has no key, or else in the channel its List-Id names, or
    in a reserved chat if the List-Id names nothing. *)
Theorem unencrypted_stays_out {RD : Rendering} {JQ : Json QrInvite} now m mid mid_orig seen from o s
  r b s' :
  tables_ok (db s) → signature (mime m) = None → incoming m = true →
  get_secure_join_step (mime m) = None →
  from ≠ SELF → key_of (db s) from = Some [] →
  receive_from now m mid mid_orig seen from o s = (Ok (r, b), s') →
  kept_out m (rm_chat_id r) (db s').
Proof.
  intros Ht Hsig Hin Hsj Hf Hk. unfold receive_from. intros (parent & s1 & H1 & H)%bind_ok.
  carry tables_ok H1 Ht. carry (λ d, key_of d from = Some []) H1 Hk.
  apply bind_ok in H as (dc & s1' & H1' & H). ro H1'. injection H1' as _ <-.
  apply bind_ok in H as (a & s2 & H2 & H). pose proof (decide_open _ _ _ _ _ _ _ _ Hsig H2) as Ha.
  carry tables_ok H2 Ht. carry (λ d, key_of d from = Some []) H2 Hk.
  apply bind_ok in H as ([[a' to] past] & s3 & H3 & H).
  assert (Ha' : assignment_open a' (db s2))
    by (destruct (to_and_past_assignment _ _ _ _ _ _ _ _ _ H3) as [->| ->]; done).
  carry (assignment_open a') H3 Ha'. carry tables_ok H3 Ht. carry (λ d, key_of d from = Some []) H3 Hk.
  cbv beta iota in H. apply bind_ok in H as (handled & s4 & H4 & H).
  unfold securejoin_msg in H4. rewrite Hsj in H4. ro H4. injection H4 as <- <-.
  apply bind_ok in H as (v & s5 & H5 & H). unfold has_verified_encryption, was_encrypted in H5.
  rewrite Hsig in H5. cbn [negb] in H5. ro H5. injection H5 as <- <-.
  apply bind_ok in H as ([] & s6 & H6 & H). ro H6. injection H6 as <-. cbv zeta in H.
  rewrite Hin in H. apply bind_ok in H as ([[id bl] cr] & s7 & H7 & H). cbv beta iota in H.
  apply bind_ok in H as (r' & s8 & H8 & H). ro H. simplify_eq.
  unfold do_chat_assignment in H7. apply bind_ok in H7 as (bot & s9 & H9 & H7).
  carry (assignment_open a') H9 Ha'. carry tables_ok H9 Ht. carry (λ d, key_of d from = Some []) H9 Hk.
  rewrite Hin in H7. apply bind_ok in H7 as (res & s10 & H10 & H7). ro H7. simplify_eq.
  eapply add_parts_kept_out in H8; [exact H8| | |done..].
  - destruct res as [[[i bl'] cr']|]; simplify_eq/=; [|by left]. by eapply assign_incoming_lands.
  - by carry_by ltac:(unfold assign_incoming, create_blocked_for; preserves_tac)
      (λ d, key_of d from = Some []) H10 Hk.
Qed.
End Unencrypted.

(** ** Concrete runs *)

Definition idle_intake : Intake :=
  {| choose := λ _, 0%nat; markseen_on_imap_table := λ _, ret tt; add_cant_decrypt_msg := λ _ _, ret tt |}.

Lemma idle_intake_ok : IntakeOk (H := idle_intake).
Proof. split; intros; done. Qed.

Definition idle_neighbours : Neighbours :=
  {| set_msg_reaction := λ _ _ _ _ _ _, ret tt; handle_call_msg := λ _ _ _, ret tt;
     add_gossip_peer_from_header := λ _ _, ret tt; insert_topic_stub := λ _ _, ret tt;
     maybe_set_logging_xdc := λ _ _ _ _, ret tt; stop_logging_xdc := λ _, ret tt;
     delete_poi := λ _, ret tt; unarchive_if_not_muted := λ _ _, ret tt;
     after_reception := λ _ _ _ _, ret tt; info_str := λ _, lit "info";
     ephemeral_timer_changed := λ _ _, lit "timer"; msg_location_enabled_by := λ _, lit "location" |}.

Lemma idle_neighbours_ok : NeighboursOk (H := idle_neighbours).
Proof. split; intros; done. Qed.

Definition chat_of (t : Chattype.Chattype) (name grpid : str) : chat_row :=
  {| ch_type := t; ch_name := name; ch_grpid := grpid; ch_param := []; ch_created_timestamp := 1 |}.

Definition address_row (id : N) (addr : string) : contact_row :=
  {| c_id := id; c_name := []; c_addr := lit addr; c_fingerprint := []; c_origin := Origin.IncomingTo;
     c_authname := []; c_last_seen := 0 |}.

Definition member : member_row := {| add_timestamp := 0; remove_timestamp := 0 |}.

(** Alice has an encrypted group (chat 20) with Bob (contact 10), and a message in it; of Dave
    (contact 12) she knows the address only. *)
Definition alice_db : Context :=
  {| members := list_to_map [((20%N, SELF), member); ((20%N, 10%N), member)];
     contacts := [address_row 1 ""; key_contact_row 10 "bob@x.org" bob_fp; address_row 12 "dave@x.org"];
     contact_seq := 12;
     chats := list_to_map [(1%N, chat_of Chattype.Group (lit "deaddrop") []);
                           (3%N, chat_of Chattype.Group (lit "trash") []);
                           (20%N, chat_of Chattype.Group (lit "Group") (lit "grp"))];
     chats_descriptions := ∅; broadcast_secrets := ∅; configured_addr := Some (lit "alice@x.org");
     transport_addrs := [lit "alice@x.org"]; self_fingerprint_opt := Some (hex alice_fp);
     events := [] |}.

Definition bobs_message : msg_row :=
  {| m_rfc724_mid := lit "first@x"; m_pre_rfc724_mid := []; m_chat_id := 20; m_from_id := 10;
     m_timestamp := 50; m_timestamp_rcvd := 50; m_type := Viewtype.Text;
     m_state := MessageState.InSeen; m_hidden := false;
     m_param := to_string (set_int Params_new Param.GuaranteeE2ee 1); m_location_id := 0;
     m_error := []; m_ephemeral_timer := 0; m_ephemeral_timestamp := 0;
     m_download_state := DownloadState.Done; m_deleted := false |}.

Definition alice_inbox : Core :=
  upd_msgs (λ _, {[ 15%N := bobs_message ]}) (sample_core alice_db [] ∅ []).

Definition mail (hs : list (HeaderDef * str)) (sender : string) (fp : option str) (l : list Part)
  : InMime :=
  {| mime := {| headers := list_to_map ((λ h, (HeaderDef.get_headername h.1, h.2)) <$> hs);
                timestamp_sent := 100; gossiped_keys := ∅; group_avatar := None; signature := fp;
                first_part_error := None |};
     incoming := true; from := {| display_name := None; info_addr := lit sender |};
     recipients := [{| display_name := None; info_addr := lit "alice@x.org" |}]; past_members := [];
     recipient_fps := []; autocrypt_fp := None; gossip_verified := ∅; parts := l; mdn_reports := [];
     delivery_report := false; has_sync_items := false; is_system_message := SystemMessage.Unknown;
     decryption_error := None; pre_message := NoPre; webxdc_status_update := None; list_post := None;
     location_kml := false; is_mime_modified := false; timestamp_rcvd := 101 |}.

Definition text_part (text : str) (p : Params) : Part :=
  {| p_typ := Viewtype.Text; p_msg := text; p_param := p; p_is_reaction := false; p_error := None |}.

(** Dave answers a message of the group. *)
Definition daves_reply : InMime :=
  mail [(HeaderDef.InReplyTo, lit "<first@x>"); (HeaderDef.MessageId, lit "<reply@x>")] "dave@x.org"
    None [text_part (lit "me too") Params_new].

Lemma alice_tables : tables_ok alice_db.
Proof.
  assert (map_Forall (λ id row,
    (ch_type row = Chattype.Single → ch_grpid row = [])
    ∧ (chat_is_special id = true → ch_grpid row = [])
    ∧ (ch_type row ∈ [Chattype.OutBroadcast; Chattype.InBroadcast] → ch_grpid row ≠ []))
    (chats alice_db)) as Hall by (apply (bool_decide_unpack _); vm_compute; exact I).
  split; [| | |done|apply (bool_decide_unpack _); vm_compute; exact I|by exists 1%N].
  all: unfold kind; intros id; intros;
    destruct (chats alice_db !! id) as [row|] eqn:E; simplify_eq/=;
    destruct (Hall id row E) as (H1 & H2 & H3); auto.
Qed.

Section Witnesses.
#[local] Instance PF : Platform := sample_platform.
#[local] Instance OS : Outside := sample_outside.
#[local] Instance SD : Sending := sample_sending.
#[local] Instance RD : Rendering := sample_rendering.
#[local] Instance JS : Json SyncItem := opaque_json _.
#[local] Instance JE : Json EnteredLoginParam := opaque_json _.
#[local] Instance JC : Json ConfiguredLoginParamJson := opaque_json _.
#[local] Instance JQ : Json QrInvite := opaque_json _.
#[local] Instance IN : Intake := idle_intake.
#[local] Instance IO : IntakeOk := idle_intake_ok.
#[local] Instance NB : Neighbours := idle_neighbours.
#[local] Instance NO : NeighboursOk := idle_neighbours_ok.

Definition after_reply : result (ReceivedMsg * bool) core_error * Core :=
  receive_from 200 daves_reply (lit "reply@x") (lit "reply@x") false 12 Origin.IncomingTo alice_inbox.

(** The reply is not shown in the group, but in a new 1:1 chat with Dave. *)
Lemma unencrypted_stays_out_witness :
  ∃ r b, after_reply.1 = Ok (r, b) ∧ rm_chat_id r = 31%N
    ∧ kept_out daves_reply (rm_chat_id r) (db after_reply.2).
Proof.
  assert (E : match after_reply.1 with Ok (r, _) => rm_chat_id r | Err _ => 0%N end = 31%N)
    by (vm_compute; reflexivity).
  destruct after_reply as [[[r b]|e] s'] eqn:R; [|discriminate E].
  exists r, b. split; [reflexivity|]. split; [exact E|].
  refine (unencrypted_stays_out 200 daves_reply (lit "reply@x") (lit "reply@x") false 12
            Origin.IncomingTo alice_inbox r b s' alice_tables _ _ _ _ _ R).
  - reflexivity.
  - reflexivity.
  - vm_compute. reflexivity.
  - discriminate.
  - vm_compute. reflexivity.
Defined.

(** A list without a name ([List-Id: <>]) is found among the chats that have no group identifier:
    the message is put into a reserved chat, which is not listed. *)
Example nameless_list_is_reserved_chat :
  (create_or_lookup_mailinglist_or_broadcast 200 true Blocked.Request (lit "<>") 12 daves_reply
     alice_inbox).1 = Ok (Some (1%N, Blocked.Not, false)).
Proof. vm_compute. reflexivity. Qed.

(** A channel is created unblocked, and reported to be a request. *)
Example new_channel_reported_blocked :
  let m := mail [(HeaderDef.ListId, lit "News <news>")] "bob@x.org" (Some bob_fp) [] in
  let '(res, s) := create_or_lookup_mailinglist_or_broadcast 200 true Blocked.Request
                     (lit "News <news>") 10 m alice_inbox in
  res = Ok (Some (31%N, Blocked.Request, true)) ∧ blocked_of 31 s = Blocked.Not.
Proof. vm_compute. split; reflexivity. Qed.
End Witnesses.
