(* ===== verification/ReceptionEffects.v ===== *)
(** ReceptionEffects: what a received message does to other messages and to the timer of its chat
    (src/src/receive_imf.rs, handle_edit_delete, handle_post_message and add_parts). *)
From stdpp Require Import sorting.
From S2P Require Import Prelude Monad Ids Params Membership ContactTools Headers MsgTable.
From S2P Require Import Db Contacts Recipients GroupChanges Simplify LoginParam Config Sync ChatDb.
From S2P Require Import Verification SecureJoin JoinTrust ChatAssign Reception ChatKinds ReceptionSafety.

(** ** Edits, deletions, attachments *)

(** The first part is encrypted. *)
Definition encrypted_part (m : InMime) : Prop :=
  ∃ part rest, parts m = part :: rest ∧ get_bool (p_param part) Param.GuaranteeE2ee = Some true.

(** The messages a message of [from] may change. *)
Definition may_change (m : InMime) (from : ContactId) (r : msg_row) : Prop :=
  m_from_id r = from ∧ m_chat_id r ≠ DC_CHAT_ID_TRASH
  ∧ (get_showpadlock r = true → encrypted_part m).

(** All others are as they were. *)
Definition spared (m : InMime) (from : ContactId) (s0 s : Core) : Prop :=
  ∀ id r, msgs s0 !! id = Some r →
    (msgs s !! id = Some r ∧ msg_txt s !! id = msg_txt s0 !! id) ∨ may_change m from r.

(** The components around do not touch the table of messages. *)
Class NeighboursApart `{!Neighbours} := {
  poi_apart a s : msgs (delete_poi a s).2 = msgs s ∧ msg_txt (delete_poi a s).2 = msg_txt s;
  stop_logging_apart a s :
    msgs (stop_logging_xdc a s).2 = msgs s ∧ msg_txt (stop_logging_xdc a s).2 = msg_txt s;
  topic_apart a b s :
    msgs (insert_topic_stub a b s).2 = msgs s ∧ msg_txt (insert_topic_stub a b s).2 = msg_txt s
}.

(** An operation that leaves the messages alone. *)
Definition apart {A} (x : C A) : Prop := ∀ s, msgs (x s).2 = msgs s ∧ msg_txt (x s).2 = msg_txt s.

Lemma apart_spared {A} m from s0 (x : C A) : apart x → preserves (spared m from s0) x.
Proof.
  intros Hx s Hs id r Hr. destruct (Hx s) as [-> ->]. by apply Hs.
Qed.

Lemma in_db_apart {A} (x : M A) : apart (in_db x).
Proof. intros s. unfold in_db. by destruct (x (db s)) as [[v|e] d]. Qed.

Lemma in_account_apart {X} (x : A X) : apart (in_account x).
Proof. intros s. unfold in_account. by destruct (x (account s)) as [[v|e] d]. Qed.

Lemma emit_core_apart e : apart (emit_core e).
Proof. done. Qed.

Lemma ensure_or_apart b e : apart (ensure_or b e).
Proof. by destruct b. Qed.

Create HintDb apart.
#[export] Hint Resolve in_db_apart in_account_apart emit_core_apart ensure_or_apart : apart.
#[export] Hint Extern 2 (preserves (spared _ _ _) _) => apply apart_spared; solve [eauto with apart] : preserves.

Section Changes.
Context {PF : Platform} {OS : Outside} {JS : Json SyncItem} {JE : Json EnteredLoginParam}
  {JC : Json ConfiguredLoginParamJson} {SD : Sending} {IN : Intake} {NB : Neighbours}
  {NA : NeighboursApart}.
Context (m : InMime) (from : ContactId) (s0 : Core).
Local Abbreviation P := (spared m from s0).

Lemma poi_spares a : apart (delete_poi a).
Proof. intros s. apply poi_apart. Qed.
Lemma stop_logging_spares a : apart (stop_logging_xdc a).
Proof. intros s. apply stop_logging_apart. Qed.
Lemma topic_spares a b : apart (insert_topic_stub a b).
Proof. intros s. apply topic_apart. Qed.
#[local] Hint Resolve poi_spares stop_logging_spares topic_spares : apart.

(** A row that the message may change is changed. *)
Lemma spared_change (f : Core -> Core) id r s :
  msgs s !! id = Some r → may_change m from r →
  (∀ k, k ≠ id → msgs (f s) !! k = msgs s !! k ∧ msg_txt (f s) !! k = msg_txt s !! k) →
  P s → P (f s).
Proof.
  intros Hr Hm Hf Hs k rk Hk. destruct (Hs k rk Hk) as [[Hk1 Hk2]|]; [|by right].
  destruct (decide (k = id)) as [->|Hne]; [right; congruence|].
  left. destruct (Hf k Hne) as [-> ->]. done.
Qed.

Lemma insert_msg_spares r txt : preserves P (insert_msg r txt).
Proof.
  intros s Hs. unfold insert_msg, to_u32. run_se.
  assert (P (upd_msg_seq (λ _, next_row_id (msg_seq s) (msgs s))
    (upd_msg_txt (<[next_row_id (msg_seq s) (msgs s) := txt]>)
      (upd_msgs (<[next_row_id (msg_seq s) (msgs s) := r]>) s)))) as Hn.
  { intros id x Hx. destruct (Hs id x Hx) as [[H1 H2]|]; [left|by right]. simpl.
    assert (next_row_id (msg_seq s) (msgs s) ≠ id).
    { intros <-. by rewrite next_row_id_fresh in H1. }
    by rewrite !lookup_insert_ne. }
  by destruct (_ <=? _)%N.
Qed.
#[local] Hint Resolve insert_msg_spares : preserves.

Lemma load_msg_run id s i r s' :
  load_msg_optional id s = (Ok (Some (i, r)), s') →
  s' = s ∧ i = id ∧ msgs s !! id = Some r ∧ m_chat_id r ≠ DC_CHAT_ID_TRASH.
Proof.
  unfold load_msg_optional. intros (? & s1 & H1 & H)%bind_ok.
  unfold ensure_or in H1. destruct (negb _) in H1; ro H1; [|done]. simplify_eq. ro H.
  destruct (msgs s1 !! id) as [x|]; [|done].
  destruct (N.eqb_spec (m_chat_id x) DC_CHAT_ID_TRASH); [done|]. by simplify_eq.
Qed.

(** A message is loaded; what follows may rely on its row. *)
Lemma load_msg_bind {A} id (k : option (N * msg_row) -> C A) :
  (∀ s r, msgs s !! id = Some r → m_chat_id r ≠ DC_CHAT_ID_TRASH → P s → P (k (Some (id, r)) s).2) →
  preserves P (k None) → preserves P (bind (load_msg_optional id) k).
Proof.
  intros Hk Hn s Hs. unfold bind. destruct (load_msg_optional id s) as [[o|e] s'] eqn:E.
  - destruct o as [[i r]|].
    + apply load_msg_run in E as (-> & -> & Hr & Ht). by apply Hk.
    + apply Hn. eapply preserves_run; [|exact E|exact Hs]. unfold load_msg_optional. preserves_tac.
  - eapply preserves_run; [|exact E|exact Hs]. unfold load_msg_optional. preserves_tac.
Qed.

Lemma mid_exists_spares mid : preserves P (rfc724_mid_exists mid).
Proof. unfold rfc724_mid_exists, rfc724_mid_exists_ex. preserves_tac. Qed.
#[local] Hint Resolve mid_exists_spares : preserves.

(** An operation that leaves the messages alone, then the change of a row. *)
Lemma apart_then_change {A} (x : C unit) (f : Core -> Core) (k : C A) id r s :
  apart x → msgs s !! id = Some r → may_change m from r →
  (∀ s i, i ≠ id → msgs (f s) !! i = msgs s !! i ∧ msg_txt (f s) !! i = msg_txt s !! i) →
  preserves P k → P s → P ((x ;;; modify f ;;; k) s).2.
Proof.
  intros Hx Hr Hm Hf Hk Hs. unfold bind at 1. pose proof (apart_spared m from s0 x Hx s Hs) as H1.
  destruct (Hx s) as [E _]. destruct (x s) as [[[]|e] s1]; [|done]. simpl in *.
  unfold bind at 1, modify. apply Hk. eapply spared_change; [by rewrite E|done|apply Hf|done].
Qed.

Lemma when_apart b (x : C unit) : apart x → apart (when b x).
Proof. by destruct b. Qed.

Lemma trash_other id b t k : k ≠ id → trash id b t !! k = t !! k.
Proof. intros Hk. unfold trash. by rewrite replace_by_tombstone_lookup, decide_False. Qed.

Lemma delete_msg_spares id r s :
  msgs s !! id = Some r → may_change m from r → P s → P (delete_msg_locally id r s).2.
Proof.
  intros Hr Hm Hs. unfold delete_msg_locally. eapply apart_then_change; try done.
  - apply when_apart, poi_spares.
  - intros s1 i Hi. simpl. by rewrite trash_other, lookup_delete_ne.
  - preserves_tac.
Qed.

Lemma delete_listed_spares mids del md :
  encrypted_part m → preserves P (delete_listed from mids del md).
Proof.
  intros He. revert del md. induction mids as [|mid mids IH]; intros del md; cbn [delete_listed];
    [apply preserves_ret|]. apply preserves_bind; [apply mid_exists_spares|].
  intros [id|]; [|unfold insert_tombstone; preserves_tac; apply IH].
  apply load_msg_bind; [|apply IH]. intros s r Hr Ht Hs. cbv beta iota.
  destruct (N.eqb_spec (m_from_id r) from) as [Hf|]; [|by apply IH].
  pose proof (delete_msg_spares id r s Hr ltac:(by split_and!) Hs) as Hd. unfold bind at 1.
  destruct (delete_msg_locally id r s) as [[[]|e] s1]; [by apply IH|done].
Qed.

(** The padlock of the original asks for an encrypted change. *)
Lemma change_allowed part rest r :
  parts m = part :: rest → m_from_id r = from → m_chat_id r ≠ DC_CHAT_ID_TRASH →
  negb (default false (get_bool (p_param part) Param.GuaranteeE2ee)) && get_showpadlock r = false →
  may_change m from r.
Proof.
  intros Hp Hf Ht Hg. split_and!; [done..|]. intros Hl. rewrite Hl, andb_true_r in Hg.
  exists part, rest. split; [done|]. destruct (get_bool _ _) as [[]|]; done.
Qed.

Lemma handle_edit_spares mid : preserves P (handle_edit m from mid).
Proof.
  unfold handle_edit. apply preserves_bind; [apply mid_exists_spares|]. intros [id|]; [|apply preserves_ret].
  apply load_msg_bind; [|preserves_tac]. intros s r Hr Ht Hs. cbv beta iota.
  destruct (parts m) as [|part rest] eqn:Hp; [done|].
  destruct (N.eqb_spec (m_from_id r) from) as [Hf|]; [|done]. cbn [negb].
  destruct (_ && _) eqn:Hg; [done|]. unfold save_text_edit_to_db.
  pose proof (change_allowed part rest r Hp Hf Ht Hg) as Hm.
  unfold bind at 1, gets at 1. rewrite bool_decide_eq_true_2 by (by rewrite Hr).
  unfold when, bind, modify, emit_core. simpl.
  apply (spared_change (λ s, upd_db (add_event (MsgsChanged (m_chat_id r) id)) (upd_msg_txt _ (upd_msgs _ s))) id r);
    try done. intros k Hk. simpl. by rewrite lookup_alter_ne, lookup_insert_ne.
Qed.

Lemma handle_edit_delete_spares now : preserves P (handle_edit_delete now m from).
Proof.
  unfold handle_edit_delete. destruct (get_header _ HeaderDef.ChatEdit); [apply handle_edit_spares|].
  destruct (get_header _ HeaderDef.ChatDelete) as [mids|]; [|apply preserves_ret].
  destruct (parts m) as [|part rest] eqn:Hp; [apply preserves_ret|].
  case_bool_decide as He; cbn [negb]; [|apply preserves_ret].
  apply preserves_bind; [apply delete_listed_spares; by exists part, rest|]. intros [del md].
  unfold delete_msgs_locally_done. preserves_tac. apply preserves_for_each. intros i _. preserves_tac.
Qed.

Lemma complete_msg_spares id r part st s :
  msgs s !! id = Some r → may_change m from r → P s → P (complete_msg m id r part st s).2.
Proof.
  intros Hr Hm Hs. unfold complete_msg. cbv zeta. eapply apart_then_change; try done.
  - destruct (get_header _ _); [apply when_apart, topic_spares|done].
  - intros s1 i Hi. simpl. by rewrite lookup_alter_ne.
  - preserves_tac.
Qed.

Lemma handle_post_message_spares st : preserves P (handle_post_message m from st).
Proof.
  unfold handle_post_message. destruct (pre_message m); try apply preserves_ret.
  apply preserves_bind; [apply preserves_ok_or|]. intros mid.
  apply preserves_bind; [apply mid_exists_spares|]. intros [id|]; [|apply preserves_ret].
  apply load_msg_bind; [|preserves_tac]. intros s r Hr Ht Hs. cbv beta iota.
  destruct (parts m) as [|part rest] eqn:Hp; [done|].
  destruct (N.eqb_spec from (m_from_id r)) as [Hf|]; [|done]. cbn [negb].
  destruct (_ && _) eqn:Hg; [done|]. destruct (has_file _); [|done]. cbn [negb].
  apply complete_msg_spares; try done. by eapply change_allowed.
Qed.

(** C22. The part of a received message that is about other messages, edits, deletions and late
    attachments, leaves every message of somebody else than its sender as it is, row and text, and
    every encrypted message too unless it is itself encrypted; what is in the trash stays there. *)
Theorem only_own_messages_changed now st id r :
  msgs s0 !! id = Some r →
  let s := ((handle_edit_delete now m from ;;; handle_post_message m from st) s0).2 in
  (msgs s !! id = Some r ∧ msg_txt s !! id = msg_txt s0 !! id) ∨ may_change m from r.
Proof.
  intros Hr s. assert (P s) as Hs; [|by apply Hs].
  apply (preserves_bind P); [apply handle_edit_delete_spares|intros _; apply handle_post_message_spares|].
  intros k x Hx. by left.
Qed.
End Changes.

(** ** The timer of a chat *)

Definition timer_of (id : ChatId) (s : Core) : Z := default 0%Z (ephemeral_timer s !! id).

(** Whether a message of [from] may change the timer: nobody from outside while the user is in the
    chat, and nothing older than the last change. *)
Definition timer_allowed (m : InMime) (id : ChatId) (from : ContactId) (row : chat_row) (s : Core)
  : bool :=
  (negb (is_contact_in_chat (members (db s)) id SELF)
   || is_contact_in_chat (members (db s)) id from)
  && (row_timestamp row Param.EphemeralSettingsTimestamp <=? timestamp_sent (mime m))%Z.

Section Timer.
Context {PF : Platform} {OS : Outside} {JS : Json SyncItem} {JE : Json EnteredLoginParam}
  {JC : Json ConfiguredLoginParamJson} {SD : Sending} {IN : Intake} {NB : Neighbours}.

(** Info messages leave the timers, the chats and the members alone. *)
Definition timers_kept (s s' : Core) : Prop :=
  ephemeral_timer s' = ephemeral_timer s ∧ chats (db s') = chats (db s)
  ∧ members (db s') = members (db s).

Lemma info_msg_timers now id text cmd sort rcvd from added s :
  timers_kept s (add_info_msg_with_cmd now id text cmd (Some sort) rcvd from added s).2.
Proof.
  unfold add_info_msg_with_cmd, create_outgoing_rfc724_mid, get_ephemeral_timer, insert_msg, to_u32.
  run_se. destruct (negb _); [done|]. run_se. by destruct (_ <=? _)%N.
Qed.

Lemma chat_contacts_mem id s x :
  bool_decide (x ∈ get_chat_contacts (members (db s)) (last_seen_of (db s)) id)
  = is_contact_in_chat (members (db s)) id x.
Proof.
  apply eq_true_iff_eq. rewrite bool_decide_eq_true, <-elem_of_chat_contacts.
  by rewrite elem_of_list_to_set.
Qed.

(** The changes of a timer, the row of the chat included. *)
Definition timer_step (m : InMime) (id : ChatId) (t : Z) (row : chat_row) (accepted : bool)
  (s s' : Core) : Prop :=
  members (db s') = members (db s)
  ∧ ephemeral_timer s' = (if accepted then <[id := t]> (ephemeral_timer s) else ephemeral_timer s)
  ∧ ∃ row', chats (db s') !! id = Some row'
      ∧ (if accepted then in_i64 (timestamp_sent (mime m)) = true →
           row_timestamp row' Param.EphemeralSettingsTimestamp = timestamp_sent (mime m)
         else row_timestamp row' Param.EphemeralSettingsTimestamp
              = row_timestamp row Param.EphemeralSettingsTimestamp).

Lemma timer_stays m id t row s s' :
  timers_kept s s' → chats (db s) !! id = Some row → timer_step m id t row false s s'.
Proof. intros (H1 & H2 & H3) Hr. split_and!; [done..|]. exists row. by rewrite H2. Qed.

(** The last part, when the message is allowed to change the timer. *)
Lemma set_timer_step now m id from t sort s row col :
  chats (db s) !! id = Some row → chat_is_special id = false →
  (row_timestamp row Param.EphemeralSettingsTimestamp <= timestamp_sent (mime m))%Z →
  load_params col = (update_timestamp (load_params (ch_param row)) Param.EphemeralSettingsTimestamp
    (timestamp_sent (mime m))).2 →
  let s1 := upd_db (λ _, set_chats (<[id := with_column row col]>) (db s)) s in
  timer_step m id t row true s
    ((ok <- ignore_err (inner_set_ephemeral_timer id t) ;;
      when (bool_decide (is_Some ok)
            && negb (bool_decide (is_system_message m = SystemMessage.EphemeralTimerChanged)))
        (add_info_msg_with_cmd now id (ephemeral_timer_changed t from) SystemMessage.Unknown
           (Some sort) (timestamp_sent (mime m)) None None ;;; ret tt)) s1).2.
Proof.
  intros Hrow Hsp Hle Hcol s1. set (s2 := upd_db (add_event (ChatEphemeralTimerModified id t))
    (upd_ephemeral_timer (<[id := t]>) s1)).
  assert (Hset : ignore_err (inner_set_ephemeral_timer id t) s1 = (Ok (Some tt), s2)).
  { unfold ignore_err, inner_set_ephemeral_timer, ensure_or. rewrite Hsp. cbn [negb].
    unfold bind, gets, ret, when. rewrite bool_decide_eq_true_2; [done|].
    exists (with_column row col). apply lookup_insert_eq. }
  assert (Hend : ∀ s', timers_kept s2 s' → timer_step m id t row true s s').
  { intros s' (H1 & H2 & H3). split_and!; [by rewrite H3|by rewrite H1|]. exists (with_column row col).
    rewrite H2. split; [apply lookup_insert_eq|]. intros Hi. by apply row_timestamp_column. }
  unfold bind at 1. rewrite Hset. rewrite bool_decide_eq_true_2 by eauto. cbn [andb].
  destruct (negb _); [|by apply Hend]. unfold when, bind.
  pose proof (info_msg_timers now id (ephemeral_timer_changed t from) SystemMessage.Unknown sort
    (timestamp_sent (mime m)) None None s2) as Hi.
  destruct (add_info_msg_with_cmd _ _ _ _ _ _ _ _ s2) as [[i|e] s3]; by apply Hend.
Qed.

Lemma apply_timer_run now m id from dc t sort s row rb :
  chats (db s) !! id = Some row → chat_is_special id = false → parts m ≠ [] →
  is_timer_rollback m dc t s = (Ok rb, s) →
  timer_step m id t row (timer_allowed m id from row s && negb rb && negb (timer_of id s =? t)%Z) s
    (apply_ephemeral_timer now m id from dc t sort s).2.
Proof.
  intros Hrow Hsp Hp Hrb.
  assert (Hstay : timer_step m id t row false s s) by (by apply timer_stays).
  unfold apply_ephemeral_timer, timer_allowed. rewrite Hsp, (bool_decide_eq_false_2 _ Hp). cbn [orb].
  unfold bind at 1, get_ephemeral_timer. unfold bind at 1, gets at 1.
  rewrite (bool_decide_eq_true_2 (is_Some _)) by (rewrite Hrow; eauto). cbn [negb].
  unfold gets at 1. fold (timer_of id s).
  destruct (timer_of id s =? t)%Z; cbn [negb]; [by rewrite andb_false_r|].
  unfold bind at 1, in_db at 1, chat_contacts, gets at 1. rewrite !chat_contacts_mem.
  replace (upd_db (λ _, db s) s) with s by (by destruct s).
  set (inside := negb (is_contact_in_chat (members (db s)) id SELF)
                 || is_contact_in_chat (members (db s)) id from).
  replace (is_contact_in_chat (members (db s)) id SELF
           && negb (is_contact_in_chat (members (db s)) id from)) with (negb inside)
    by (subst inside; by rewrite negb_orb, negb_involutive).
  destruct inside; cbn [negb andb]; [|done]. unfold bind at 1. rewrite Hrb.
  destruct rb; cbn [negb andb]; [by rewrite andb_false_r|]. rewrite !andb_true_r.
  unfold bind at 1, in_db at 1.
  destruct (chat_update_timestamp_run (db s) id row Param.EphemeralSettingsTimestamp
              (timestamp_sent (mime m)) Hrow) as (col & Hcol & E).
  destruct (Z.leb_spec (row_timestamp row Param.EphemeralSettingsTimestamp) (timestamp_sent (mime m)))
    as [Hle|Hlt].
  - rewrite E. by apply set_timer_step.
  - rewrite E. split_and!; [done..|]. exists (with_column row col).
    split; [apply lookup_insert_eq|]. unfold row_timestamp. simpl. rewrite Hcol.
    unfold update_timestamp. unfold row_timestamp, stored_timestamp in Hlt.
    by rewrite Z.geb_leb, (proj2 (Z.leb_gt _ _) Hlt).
Qed.
(** A received message sets the timer of its chat to its own value exactly if its sender is in
    the chat (or the user is not), it is not an unaware reply to a message with that timer, and it
    is not older than the change before; otherwise the timer stays. Timers of other chats stay in
    any case, and so do all members; whoever is refused leaves no trace in the row of the chat. *)
Theorem timer_follows_members now m id from dc t sort s row rb :
  chats (db s) !! id = Some row → chat_is_special id = false → parts m ≠ [] →
  is_timer_rollback m dc t s = (Ok rb, s) →
  let s' := (apply_ephemeral_timer now m id from dc t sort s).2 in
  timer_of id s' = (if timer_allowed m id from row s && negb rb then t else timer_of id s)
  ∧ (∀ id', id' ≠ id → timer_of id' s' = timer_of id' s)
  ∧ members (db s') = members (db s)
  ∧ (timer_allowed m id from row s = false →
     ∃ row', chats (db s') !! id = Some row'
       ∧ row_timestamp row' Param.EphemeralSettingsTimestamp
         = row_timestamp row Param.EphemeralSettingsTimestamp).
Proof.
  intros Hrow Hsp Hp Hrb s'.
  destruct (apply_timer_run now m id from dc t sort s row rb Hrow Hsp Hp Hrb) as (Hm & Ht & row' & Hr & Hs).
  fold s' in Hm, Ht, Hr. split_and!; [| |exact Hm|].
  - unfold timer_of at 1. rewrite Ht. destruct (timer_allowed _ _ _ _ _ && negb rb); cbn [andb]; [|done].
    destruct (Z.eqb_spec (timer_of id s) t) as [E|]; cbn [negb]; [exact E|].
    by rewrite lookup_insert_eq.
  - intros id' Hne. unfold timer_of. rewrite Ht. destruct (_ && _); [|done]. by rewrite lookup_insert_ne.
  - intros Ha. rewrite Ha in Hs. eauto.
Qed.

(** A message that says the timer was changed, and that answers nothing. *)
Definition timer_change (m : InMime) : Prop :=
  is_system_message m = SystemMessage.EphemeralTimerChanged
  ∧ get_header (mime m) HeaderDef.References = None
  ∧ parts m ≠ [] ∧ in_i64 (timestamp_sent (mime m)) = true.

Lemma timer_change_no_rollback m dc t s :
  timer_change m → is_timer_rollback m dc t s = (Ok false, s).
Proof.
  intros (Hs & Hr & _). unfold is_timer_rollback, and_then, get_previous_message. rewrite Hs, Hr.
  by destruct (bool_decide _).
Qed.

(** A change by a member that is not older than the last one. *)
Lemma timer_change_run now m id from dc t sort s row :
  timer_change m → chats (db s) !! id = Some row → chat_is_special id = false →
  is_contact_in_chat (members (db s)) id from = true →
  (row_timestamp row Param.EphemeralSettingsTimestamp <= timestamp_sent (mime m))%Z →
  timer_step m id t row (negb (timer_of id s =? t)%Z) s
    (apply_ephemeral_timer now m id from dc t sort s).2.
Proof.
  intros Hm Hrow Hsp Hmem Hle.
  pose proof (apply_timer_run now m id from dc t sort s row false Hrow Hsp (proj1 (proj2 (proj2 Hm)))
    (timer_change_no_rollback m dc t s Hm)) as H.
  unfold timer_allowed in H. rewrite Hmem, orb_true_r, (proj2 (Z.leb_le _ _) Hle) in H. exact H.
Qed.

(** Two members change the timer of a chat, the later one to the value the user has at present.
    In the order they were sent, the later change wins; if the later one arrives first, it is
    skipped as no change, its time is not recorded, and the earlier one wins. *)
Theorem timer_changes_depend_on_order now early late id a b dc te sort1 sort2 s row :
  timer_change early → timer_change late →
  (timestamp_sent (mime early) < timestamp_sent (mime late))%Z →
  chats (db s) !! id = Some row → chat_is_special id = false →
  (row_timestamp row Param.EphemeralSettingsTimestamp <= timestamp_sent (mime early))%Z →
  is_contact_in_chat (members (db s)) id a = true → is_contact_in_chat (members (db s)) id b = true →
  timer_of id s ≠ te →
  let tl := timer_of id s in
  let run_early s := (apply_ephemeral_timer now early id a dc te sort1 s).2 in
  let run_late s := (apply_ephemeral_timer now late id b dc tl sort2 s).2 in
  timer_of id (run_late (run_early s)) = tl ∧ timer_of id (run_early (run_late s)) = te.
Proof.
  intros He Hl Hlt Hrow Hsp Hold Ha Hb Hne tl run_early run_late.
  assert (timer_step early id te row true s (run_early s)) as (Hm1 & Ht1 & r1 & Hr1 & Hs1).
  { rewrite <-(proj2 (negb_true_iff _) (proj2 (Z.eqb_neq _ _) Hne)). by apply timer_change_run. }
  specialize (Hs1 (proj2 (proj2 (proj2 He)))).
  assert (timer_of id (run_early s) = te) as Hv1.
  { unfold timer_of. by rewrite Ht1, lookup_insert_eq. }
  assert (timer_step late id tl row false s (run_late s)) as (Hm2 & Ht2 & r2 & Hr2 & Hs2).
  { change false with (negb true). rewrite <-(Z.eqb_refl tl). apply timer_change_run; try done. lia. }
  split.
  - assert (timer_step late id tl r1 (negb (timer_of id (run_early s) =? tl)%Z) (run_early s)
      (run_late (run_early s))) as (_ & Ht & _).
    { apply timer_change_run; try done; [by rewrite Hm1|lia]. }
    rewrite Hv1, (proj2 (Z.eqb_neq te tl)) in Ht by (subst tl; auto).
    unfold timer_of. rewrite Ht. cbn [negb]. by rewrite lookup_insert_eq.
  - assert (timer_step early id te r2 (negb (timer_of id (run_late s) =? te)%Z) (run_late s)
      (run_early (run_late s))) as (_ & Ht & _).
    { apply timer_change_run; try done; [by rewrite Hm2|lia]. }
    assert (timer_of id (run_late s) = tl) as Hv2 by (unfold timer_of at 1; by rewrite Ht2).
    rewrite Hv2, (proj2 (Z.eqb_neq tl te)) in Ht by auto.
    unfold timer_of. rewrite Ht. cbn [negb]. by rewrite lookup_insert_eq.
Qed.
End Timer.

(** ** Concrete runs *)

Lemma idle_neighbours_apart : NeighboursApart (H := idle_neighbours).
Proof. split; intros; done. Qed.

(** Dave, an outsider, edits Bob's message. *)
Definition daves_edit : InMime :=
  mail [(HeaderDef.ChatEdit, lit "<first@x>"); (HeaderDef.MessageId, lit "<edit@x>")] "dave@x.org"
    None [text_part (lit "changed") Params_new].

(** Bob turns the timer of the group to a minute, and Alice turns it off later. *)
Definition timer_mail (sent : Z) : InMime :=
  let m := mail [(HeaderDef.MessageId, lit "<timer@x>")] "bob@x.org" (Some bob_fp)
             [text_part (lit "timer") Params_new] in
  {| mime := {| headers := headers (mime m); timestamp_sent := sent; gossiped_keys := ∅;
                group_avatar := None; signature := Some bob_fp; first_part_error := None |};
     incoming := true; from := from m; recipients := recipients m; past_members := [];
     recipient_fps := []; autocrypt_fp := None; gossip_verified := ∅; parts := parts m;
     mdn_reports := []; delivery_report := false; has_sync_items := false;
     is_system_message := SystemMessage.EphemeralTimerChanged; decryption_error := None;
     pre_message := NoPre; webxdc_status_update := None; list_post := None; location_kml := false;
     is_mime_modified := false; timestamp_rcvd := 301 |}.

Section Witnesses.
#[local] Instance PF : Platform := sample_platform.
#[local] Instance OS : Outside := sample_outside.
#[local] Instance SD : Sending := sample_sending.
#[local] Instance JS : Json SyncItem := opaque_json _.
#[local] Instance JE : Json EnteredLoginParam := opaque_json _.
#[local] Instance JC : Json ConfiguredLoginParamJson := opaque_json _.
#[local] Instance IN : Intake := idle_intake.
#[local] Instance NB : Neighbours := idle_neighbours.
#[local] Instance NA : NeighboursApart := idle_neighbours_apart.

Lemma only_own_messages_changed_witness :
  let s := ((handle_edit_delete 200 daves_edit 12 ;;; handle_post_message daves_edit 12 MessageState.InFresh)
              alice_inbox).2 in
  msgs s !! 15%N = Some bobs_message ∧ msg_txt s !! 15%N = msg_txt alice_inbox !! 15%N.
Proof.
  destruct (only_own_messages_changed daves_edit 12 alice_inbox 200 MessageState.InFresh 15 bobs_message)
    as [H|[H _]]; [reflexivity|exact H|discriminate H].
Defined.

Lemma timer_follows_members_witness :
  timer_of 20 (apply_ephemeral_timer 200 (timer_mail 100) 20 10 MessengerMessage.Yes 60 100 alice_inbox).2 = 60%Z
  ∧ timer_of 20 (apply_ephemeral_timer 200 (timer_mail 100) 20 12 MessengerMessage.Yes 60 100 alice_inbox).2 = 0%Z.
Proof.
  split.
  - refine (proj1 (timer_follows_members 200 (timer_mail 100) 20 10 MessengerMessage.Yes 60 100 alice_inbox
      (chat_of Chattype.Group (lit "Group") (lit "grp")) false _ _ _ _));
      [reflexivity|reflexivity|discriminate|vm_compute; reflexivity].
  - refine (proj1 (timer_follows_members 200 (timer_mail 100) 20 12 MessengerMessage.Yes 60 100 alice_inbox
      (chat_of Chattype.Group (lit "Group") (lit "grp")) false _ _ _ _));
      [reflexivity|reflexivity|discriminate|vm_compute; reflexivity].
Defined.

Lemma timer_mail_change sent : in_i64 sent = true → timer_change (timer_mail sent).
Proof. intros H. split_and!; [reflexivity|vm_compute; reflexivity|discriminate|exact H]. Qed.

Lemma timer_changes_depend_on_order_witness :
  timer_of 20 alice_inbox = 0%Z
  ∧ timer_of 20 (apply_ephemeral_timer 300 (timer_mail 100) 20 10 MessengerMessage.Yes 60 200
      (apply_ephemeral_timer 300 (timer_mail 200) 20 SELF MessengerMessage.Yes 0 200 alice_inbox).2).2
    = 60%Z.
Proof.
  split; [reflexivity|].
  refine (proj2 (timer_changes_depend_on_order 300 (timer_mail 100) (timer_mail 200) 20 10 SELF
    MessengerMessage.Yes 60 200 200 alice_inbox (chat_of Chattype.Group (lit "Group") (lit "grp"))
    _ _ _ _ _ _ _ _ _)); try (apply timer_mail_change); try reflexivity; discriminate.
Defined.
End Witnesses.
