(* ===== verification/Proxy.v ===== *)
(** Proxy: the proxies an account may use (src/src/net/proxy.rs): their URLs, the settings that
    hold them, and the request that opens a tunnel. *)
From S2P Require Import Prelude Monad ContactTools LoginParam Config.

(** What the code reads of a parsed URL ([url::Url]). *)
Record Url := {
  u_scheme : str;
  u_host : option str;
  u_port : option Z;
  u_port_or_known_default : option Z;
  u_username : str;
  u_password : option str;
  u_path : str;
  u_query : option str;
  u_query_pairs : list (str * str);
  u_as_str : str
}.

(** What the code takes from the crates url, percent-encoding, shadowsocks and base64: parsing a
    URL, encoding everything but ASCII letters and digits, decoding to valid UTF-8, a server of
    Shadowsocks with its host, port and URL, and the standard encoding of base64. *)
Class Urls := {
  url_parse : str -> option Url;
  percent_encode_all : str -> str;
  percent_decode : str -> option str;
  shadowsocks_from_url : str -> option (str * Z * str);
  base64_encode : str -> str
}.

Definition DEFAULT_SOCKS_PORT : Z := 1080.

(** [struct HttpConfig] and [struct Socks5Config] have the same fields. *)
Record ProxyServer := {
  px_host : str;
  px_port : Z;
  px_user_password : option (str * str)
}.

(** [enum ProxyConfig]; of a Shadowsocks server, its URL. *)
Inductive ProxyConfig :=
| Http (c : ProxyServer)
| Https (c : ProxyServer)
| Socks5 (c : ProxyServer)
| Shadowsocks (url : str).

#[export] Instance ProxyServer_eq_dec : EqDecision ProxyServer.
Proof. solve_decision. Defined.
#[export] Instance ProxyConfig_eq_dec : EqDecision ProxyConfig.
Proof. solve_decision. Defined.

Section Proxy.
Context `{!Platform, !Urls}.

(** The user and the password of a URL. *)
Definition url_user_password (url : Url) : option (option (str * str)) :=
  match u_password url with
  | None => Some None
  | Some password =>
      username ← percent_decode (u_username url);
      password ← percent_decode password;
      Some (Some (username, password))
  end.

(** [HttpConfig::from_url]. *)
Definition HttpConfig_from_url (url : Url) : option ProxyServer :=
  host ← u_host url;
  port ← u_port_or_known_default url;
  user_password ← url_user_password url;
  Some {| px_host := host; px_port := port; px_user_password := user_password |}.

(** [HttpConfig::to_url] and [Socks5Config::to_url]. *)
Definition server_to_url (scheme : str) (c : ProxyServer) : str :=
  match px_user_password c with
  | Some (user, password) =>
      scheme ++ lit "://" ++ percent_encode_all user ++ lit ":" ++ percent_encode_all password
        ++ lit "@" ++ px_host c ++ lit ":" ++ print_Z (px_port c)
  | None => scheme ++ lit "://" ++ px_host c ++ lit ":" ++ print_Z (px_port c)
  end.

(** [ProxyConfig::from_url]. *)
Definition ProxyConfig_from_url (url : str) : option ProxyConfig :=
  url ← url_parse url;
  if bool_decide (u_scheme url = lit "http") then Http <$> HttpConfig_from_url url
  else if bool_decide (u_scheme url = lit "https") then Https <$> HttpConfig_from_url url
  else if bool_decide (u_scheme url = lit "ss")
  then (λ s, Shadowsocks s.2) <$> shadowsocks_from_url (u_as_str url)
  else if bool_decide (u_scheme url = lit "socks5") then
    host ← u_host url;
    user_password ← url_user_password url;
    Some (Socks5 {| px_host := host; px_port := default DEFAULT_SOCKS_PORT (u_port url);
                    px_user_password := user_password |})
  else None.

(** [ProxyConfig::to_url]. *)
Definition ProxyConfig_to_url (c : ProxyConfig) : str :=
  match c with
  | Http c => server_to_url (lit "http") c
  | Https c => server_to_url (lit "https") c
  | Socks5 c => server_to_url (lit "socks5") c
  | Shadowsocks url => url
  end.

(** A SOCKS5 URL put together from its parts, with credentials if there is a password. *)
Definition socks5_url (user pass host : str) (port : Z) (with_password : bool) : str :=
  lit "socks5://"
  ++ (if with_password
      then percent_encode_all user ++ lit ":" ++ percent_encode_all pass ++ lit "@" else [])
  ++ host ++ lit ":" ++ print_Z port.

(** [ProxyConfig::migrate_socks_config]; the port is cast to 16 bits. *)
Definition migrate_socks_config : A unit :=
  proxy_url <- get_raw_config (lit "proxy_url") ;;
  (match proxy_url with
   | Some _ => ret tt
   | None =>
       host <- get_raw_config (lit "socks5_host") ;;
       (match host with
        | Some (c :: h) =>
            port <- get_raw_config_int (lit "socks5_port") ;;
            user <- get_raw_config (lit "socks5_user") ;;
            pass <- get_raw_config (lit "socks5_password") ;;
            let pass := default [] pass in
            set_raw_config (lit "proxy_url")
              (Some (socks5_url (default [] user) pass (c :: h)
                       (default DEFAULT_SOCKS_PORT port mod 65536)%Z (negb (bool_decide (pass = [])))))
        | _ => set_raw_config (lit "proxy_url") (Some [])
        end) ;;;
       socks5_enabled <- get_raw_config (lit "socks5_enabled") ;;
       set_raw_config (lit "proxy_enabled") socks5_enabled
   end) ;;;
  set_raw_config (lit "socks5_enabled") None ;;;
  set_raw_config (lit "socks5_host") None ;;;
  set_raw_config (lit "socks5_port") None ;;;
  set_raw_config (lit "socks5_user") None ;;;
  set_raw_config (lit "socks5_password") None.

(** [ProxyConfig::load]. *)
Definition ProxyConfig_load : A (option ProxyConfig) :=
  migrate_socks_config ;;;
  enabled <- get_config_bool Config.ProxyEnabled ;;
  if negb enabled then ret None
  else
    proxy_url <- get_config Config.ProxyUrl ;;
    let proxy_url := default [] proxy_url in
    let proxy_url := match split_once LF proxy_url with
                     | Some (first_url, _) => first_url
                     | None => proxy_url
                     end in
    config <- ok_or (ProxyConfig_from_url proxy_url) InvalidValue ;;
    ret (Some config).

(** [http_connect_request]. *)
Definition http_connect_request (host : str) (port : Z) (auth : option (str * str)) : str :=
  let crlf := [CR; LF] in
  let target := host ++ lit ":" ++ print_Z port in
  lit "CONNECT " ++ target ++ lit " HTTP/1.1" ++ crlf ++ lit "Host: " ++ target ++ crlf
  ++ (match auth with
      | Some (username, password) =>
          lit "Proxy-Authorization: Basic " ++ base64_encode (username ++ lit ":" ++ password) ++ crlf
      | None => []
      end)
  ++ crlf.

(** The verdict of [http_tunnel] on the response. *)
Inductive TunnelResult := Established | AuthenticationRequired | TunnelFailed.

Definition tunnel_response (res : str) : TunnelResult :=
  if negb (starts_with (lit "HTTP/") res) then TunnelFailed
  else
    let status_code := take 3 (drop 9 res) in
    if negb (length status_code =? 3)%nat then TunnelFailed
    else if bool_decide (status_code = lit "407") then AuthenticationRequired
    else if starts_with (lit "2") status_code then Established
    else TunnelFailed.
End Proxy.
