(* ===== verification/QrCode.v ===== *)
(** QrCode: what a scanned code means and what is done with it (src/src/qr.rs,
    src/src/qr/dclogin_scheme.rs, src/src/securejoin.rs, src/src/configure.rs). *)
From S2P Require Import Prelude Monad Ids Params ContactTools Db Contacts Recipients LoginParam.
From S2P Require Import Config Transport Configure Sync ChatDb SecureJoin ChatAssign Proxy.

(** ** Schemes *)

Definition OPENPGP4FPR_SCHEME : str := lit "OPENPGP4FPR:".
Definition IDELTACHAT_SCHEME : str := lit "https://i.delta.chat/#".
Definition IDELTACHAT_NOSLASH_SCHEME : str := lit "https://i.delta.chat#".
Definition DCACCOUNT_SCHEME : str := lit "DCACCOUNT:".
Definition DCLOGIN_SCHEME : str := lit "DCLOGIN:".
Definition TG_SOCKS_SCHEME : str := lit "https://t.me/socks".
Definition MAILTO_SCHEME : str := lit "mailto:".
Definition MATMSG_SCHEME : str := lit "MATMSG:".
Definition VCARD_SCHEME : str := lit "BEGIN:VCARD".
Definition SMTP_SCHEME : str := lit "SMTP:".
Definition HTTPS_SCHEME : str := lit "https://".
Definition SHADOWSOCKS_SCHEME : str := lit "ss://".
Definition DCBACKUP_SCHEME_PREFIX : str := lit "DCBACKUP".
Definition DCBACKUP_VERSION : Z := 5.

(** ** Text *)

(** [str::get(n..)]: [n] counts bytes, and must not be inside a character. *)
Fixpoint get_from (n : N) (s : str) : option str :=
  if (n =? 0)%N then Some s
  else match s with
       | [] => None
       | c :: s' => if (len_utf8 c <=? n)%N then get_from (n - len_utf8 c) s' else None
       end.

(** [str::replacen(pat, rep, 1)]. *)
Fixpoint replace_first (pat rep s : str) : str :=
  match strip_prefix pat s with
  | Some rest => rep ++ rest
  | None => match s with [] => [] | c :: s' => c :: replace_first pat rep s' end
  end.

(** [str::find] with a text, and [str::split_once] with one. *)
Fixpoint split_at_text (pat s : str) : option (str * str) :=
  match strip_prefix pat s with
  | Some rest => Some ([], rest)
  | None =>
      match s with
      | [] => None
      | c :: s' => (λ p, (c :: p.1, p.2)) <$> split_at_text pat s'
      end
  end.

(** [key=value&key=value]: later values win. *)
Definition parse_params (fragment : str) : list (str * str) :=
  omap (split_once EQ) (split_char 38 fragment).

Definition param_get (params : list (str * str)) (key : string) : option str :=
  snd <$> head (base.filter (λ p, p.1 = lit key) (reverse params)).

(** The texts that begin a line ([(?m)^]). *)
Fixpoint line_starts (at_start : bool) (s : str) : list str :=
  match s with
  | [] => if at_start then [[]] else []
  | c :: s' => (if at_start then [s] else []) ++ line_starts (c =? LF)%N s'
  end.

Definition not_semicolon_or_LF (c : char) : bool := negb (c =? 59)%N && negb (c =? LF)%N.

(** [VCARD_NAME_RE]: at the beginning of a line, [N:], a text without semicolon, a semicolon, and a
    text without semicolon and line break. *)
Definition vcard_name_re (s : str) : option (str * str) :=
  head (omap (λ l,
    rest ← strip_prefix (lit "N:") l;
    '(last_name, rest) ← split_once 59 rest;
    Some (last_name, (span not_semicolon_or_LF rest).1)) (line_starts true s)).

(** [VCARD_EMAIL_RE]: at the beginning of a line, [EMAIL], a text without colon and line break, a
    colon, and a text without semicolon and line break, which is the result. *)
Definition vcard_email_re (s : str) : option str :=
  head (omap (λ l,
    rest ← strip_prefix (lit "EMAIL") l;
    rest ← strip_prefix (lit ":") (span (λ c, negb (c =? 58)%N && negb (c =? LF)%N) rest).2;
    Some (span not_semicolon_or_LF rest).1) (line_starts true s)).

(** ** What a code may be *)

(** [enum LoginOptions]. *)
Inductive LoginOptions :=
| UnsupportedVersion (v : Z)
| V1 (mail_pw : str)
     (imap_host : option str) (imap_port : option Z) (imap_username imap_password : option str)
     (imap_security : option Socket.Socket)
     (smtp_host : option str) (smtp_port : option Z) (smtp_username smtp_password : option str)
     (smtp_security : option Socket.Socket)
     (certificate_checks : option EnteredCertificateChecks.EnteredCertificateChecks).

(** What the variants about own codes share. *)
Record own_code := {
  o_contact_id : ContactId;
  o_fingerprint : Fingerprint;
  o_invitenumber : str;
  o_authcode : str
}.

(** [enum Qr]; the variants with an inviter share the fields of [inviter]. *)
Module Qr.
Inductive Qr {NodeAddr : Type} :=
| AskVerifyContact (i : inviter)
| AskVerifyGroup (i : inviter) (grpname grpid : str)
| AskJoinBroadcast (i : inviter) (name grpid : str)
| FprOk (contact_id : ContactId)
| FprMismatch (contact_id : option ContactId)
| FprWithoutAddr (fingerprint : str)
| Account (domain : str)
| Backup2 (node_addr : NodeAddr) (auth_token : str)
| BackupTooNew
| Proxy (url host : str) (port : Z)
| Addr (contact_id : ContactId) (draft : option str)
| Url (url : str)
| Text (text : str)
| WithdrawVerifyContact (o : own_code)
| WithdrawVerifyGroup (o : own_code) (grpname grpid : str)
| WithdrawJoinBroadcast (o : own_code) (name grpid : str)
| ReviveVerifyContact (o : own_code)
| ReviveVerifyGroup (o : own_code) (grpname grpid : str)
| ReviveJoinBroadcast (o : own_code) (name grpid : str)
| Login (address : str) (options : LoginOptions).
Arguments Qr : clear implicits.
End Qr.
Abbreviation Qr := Qr.Qr.

(** What creating an account takes from outside: the answer of the server to an empty POST request
    and whether it is a success, the fields of its JSON, random letters and digits. *)
Class Signup := {
  post_empty : str -> option (str * bool);
  parse_created : str -> option (str * str);
  sample_username : str;
  sample_password : str
}.

Section Codes.
Context `{!Platform, !Outside, !Urls, !Signup, !World, !Json SyncItem, !Json EnteredLoginParam,
          !Json ConfiguredLoginParamJson}.
Context {NodeAddr : Type} `{!Json NodeAddr}.

(** ** Decoding *)

(** [fix_add_second_device_qr]. *)
Definition fix_add_second_device_qr (qr : str) : str :=
  let q := [34%N] in
  replace_first (q ++ lit "]}}") (q ++ lit "]}")
    (replace_first (lit "," ++ q ++ lit "info" ++ q ++ lit ":{" ++ q ++ lit "relay_url" ++ q ++ lit ":")
       (lit "," ++ q ++ lit "relay_url" ++ q ++ lit ":") qr).

(** [starts_with_ignore_case]. *)
Definition starts_with_ignore_case (string pattern : str) : bool :=
  starts_with (str_to_lowercase pattern) (str_to_lowercase string).

(** [normalize_address]. *)
Definition normalize_address (addr : str) : C str :=
  new_addr <- ok_or (percent_decode addr) BadQrCode ;;
  let new_addr := addr_normalize str_to_lowercase new_addr in
  ensure_or (may_be_valid_addr new_addr) InvalidAddress ;;;
  ret new_addr.

(** [decode_name]: a final underscore stands for an ellipsis. *)
Definition decode_name (params : list (str * str)) (key : string) : C (option str) :=
  match param_get params key with
  | None => ret None
  | Some encoded_name =>
      name <- ok_or (percent_decode (replace (lit "+") (lit "%20") encoded_name)) BadQrCode ;;
      ret (Some (match strip_suffix (lit "_") name with
                 | Some n => n ++ [8230%N]
                 | None => name
                 end))
  end.

(** [Qr::from_address]. *)
Definition from_address (name addr : str) (draft : option str) : C (Qr NodeAddr) :=
  addr <- ok_or (ContactAddress_new str_to_lowercase addr) InvalidAddress ;;
  res <- in_db (add_or_lookup_ex str_to_lowercase generated_fingerprint name addr []
                  Origin.UnhandledQrScan) ;;
  ret (Qr.Addr res.1 draft).

(** The branches of [decode_openpgp] for a code with an address, a number and a code. *)
Definition decode_invitation (addr : str) (fingerprint : Fingerprint)
  (name invitenumber authcode : str) (grpid grpname broadcast_name : option str) (is_v3 : bool)
  : C (Qr NodeAddr) :=
  addr <- ok_or (ContactAddress_new str_to_lowercase addr) InvalidAddress ;;
  res <- in_db (add_or_lookup_ex str_to_lowercase generated_fingerprint name addr (hex fingerprint)
                  Origin.UnhandledSecurejoinQrScan) ;;
  let contact_id := res.1 in
  let i := {| i_contact_id := contact_id; i_fingerprint := fingerprint; i_addrs := [addr];
              i_invitenumber := invitenumber; i_authcode := authcode; i_is_v3 := is_v3 |} in
  let o := {| o_contact_id := contact_id; o_fingerprint := fingerprint;
              o_invitenumber := invitenumber; o_authcode := authcode |} in
  is_self <- in_db (is_self_addr str_to_lowercase addr) ;;
  known <- and_then is_self (in_account (token_exists Namespace.Auth authcode)) ;;
  ret (match grpid, grpname, broadcast_name with
       | Some grpid, Some grpname, _ =>
           if negb is_self then Qr.AskVerifyGroup i grpname grpid
           else if known then Qr.WithdrawVerifyGroup o grpname grpid
           else Qr.ReviveVerifyGroup o grpname grpid
       | Some grpid, None, Some name =>
           if negb is_self then Qr.AskJoinBroadcast i name grpid
           else if known then Qr.WithdrawJoinBroadcast o name grpid
           else Qr.ReviveJoinBroadcast o name grpid
       | _, _, _ =>
           if negb is_self then Qr.AskVerifyContact i
           else if known then Qr.WithdrawVerifyContact o
           else Qr.ReviveVerifyContact o
       end).

Definition valid_id (s : option str) : option str :=
  s ← s; if validate_id s then Some s else None.

(** The part of [decode_openpgp] after the fingerprint. *)
Definition decode_fields (fingerprint : Fingerprint) (params : list (str * str)) : C (Qr NodeAddr) :=
  addr <- match param_get params "a" with
          | Some addr => addr <- normalize_address addr ;; ret (Some addr)
          | None => ret None
          end ;;
  name <- decode_name params "n" ;;
  let number := match param_get params "i" with
                | Some n => Some n
                | None => param_get params "j"
                end in
  let invitenumber := valid_id number in
  let authcode := valid_id (param_get params "s") in
  let grpid := valid_id (param_get params "x") in
  grpname <- decode_name params "g" ;;
  broadcast_name <- decode_name params "b" ;;
  let is_v3 := bool_decide (param_get params "v" = Some (lit "3")) in
  let '(invitenumber, is_v3) := match authcode, invitenumber with
                                | Some _, None => (Some [], true)
                                | _, _ => (invitenumber, is_v3)
                                end in
  match addr, invitenumber, authcode with
  | Some addr, Some invitenumber, Some authcode =>
      decode_invitation addr fingerprint (default [] name) invitenumber authcode grpid grpname
        broadcast_name is_v3
  | Some addr, _, _ =>
      res <- in_db (add_or_lookup_ex str_to_lowercase generated_fingerprint [] addr (hex fingerprint)
                      Origin.UnhandledQrScan) ;;
      contact <- get_by_id res.1 ;;
      has_key <- has_public_key contact ;;
      ret (if has_key : bool then Qr.FprOk res.1 else Qr.FprMismatch (Some res.1))
  | None, _, _ => ret (Qr.FprWithoutAddr (human_readable fingerprint))
  end.

(** [decode_openpgp]. *)
Definition decode_openpgp (qr : str) : C (Qr NodeAddr) :=
  payload <- ok_or (get_from (byte_len OPENPGP4FPR_SCHEME) qr) BadQrCode ;;
  let '(fingerprint, fragment) :=
    match split_once 35 payload with
    | Some p => p
    | None => default (payload, []) (split_at_text (lit "%23") payload)
    end in
  fingerprint <- ok_or (Fingerprint_from_str str_to_uppercase fingerprint) BadQrCode ;;
  decode_fields fingerprint (parse_params fragment).

(** [decode_ideltachat]. *)
Definition decode_ideltachat (prefix qr : str) : C (Qr NodeAddr) :=
  decode_openpgp (replace_first (lit "&") (lit "#") (replace_first prefix OPENPGP4FPR_SCHEME qr)).

(** [decode_account]. *)
Definition decode_account (qr : str) : C (Qr NodeAddr) :=
  payload <- ok_or (get_from (byte_len DCACCOUNT_SCHEME) qr) BadQrCode ;;
  let payload := default payload (strip_prefix (lit "//") payload) in
  if bool_decide (payload = []) then fail BadQrCode
  else if starts_with (lit "https://") payload then
    url <- ok_or (url_parse payload) BadQrCode ;;
    if bool_decide (u_scheme url = lit "https") then
      host <- ok_or (u_host url) BadQrCode ;;
      ret (Qr.Account host)
    else fail BadQrCode
  else if starts_with (lit "/") payload then fail BadQrCode
  else ret (Qr.Account payload).

(** [decode_tg_socks_proxy]: server, port, user and password of the query. *)
Definition decode_tg_socks_proxy (qr : str) : C (Qr NodeAddr) :=
  url <- ok_or (url_parse qr) BadQrCode ;;
  let pairs := u_query_pairs url in
  host <- ok_or (param_get pairs "server") BadQrCode ;;
  let port := match param_get pairs "port" with
              | Some value => default DEFAULT_SOCKS_PORT (parse_u16 value)
              | None => DEFAULT_SOCKS_PORT
              end in
  let user := default [] (param_get pairs "user") in
  let pass := param_get pairs "pass" in
  ret (Qr.Proxy (socks5_url user (default [] pass) host port (bool_decide (is_Some pass))) host port).

(** [decode_shadowsocks_proxy]. *)
Definition decode_shadowsocks_proxy (qr : str) : C (Qr NodeAddr) :=
  server <- ok_or (shadowsocks_from_url qr) BadQrCode ;;
  ret (Qr.Proxy qr server.1.1 server.1.2).

(** [decode_backup2]. *)
Definition decode_backup2 (qr : str) : C (Qr NodeAddr) :=
  version_and_payload <- ok_or (strip_prefix DCBACKUP_SCHEME_PREFIX qr) BadQrCode ;;
  split <- ok_or (split_once 58 version_and_payload) BadQrCode ;;
  version <- ok_or (parse_i32 split.1) BadQrCode ;;
  if (DCBACKUP_VERSION <? version)%Z then ret Qr.BackupTooNew
  else
    split <- ok_or (split_once 38 split.2) BadQrCode ;;
    node_addr <- ok_or (of_json split.2) BadQrCode ;;
    ret (Qr.Backup2 node_addr split.1).

(** [format_backup]. *)
Definition format_backup (qr : Qr NodeAddr) : option str :=
  match qr with
  | Qr.Backup2 node_addr auth_token =>
      Some (DCBACKUP_SCHEME_PREFIX ++ print_Z DCBACKUP_VERSION ++ lit ":" ++ auth_token ++ lit "&"
              ++ to_json node_addr)
  | _ => None
  end.

(** [decode_mailto]. *)
Definition decode_mailto (qr : str) : C (Qr NodeAddr) :=
  payload <- ok_or (get_from (byte_len MAILTO_SCHEME) qr) BadQrCode ;;
  let '(addr, query) := default (payload, []) (split_once 63 payload) in
  let params := parse_params query in
  let subject := default [] (param_get params "subject") in
  let draft := match param_get params "body" with
               | Some body => if bool_decide (subject = []) then body else subject ++ [LF] ++ body
               | None => subject
               end in
  let draft := replace (lit "+") (lit "%20") draft in
  let draft := default draft (percent_decode draft) in
  addr <- normalize_address addr ;;
  from_address [] addr (if bool_decide (draft = []) then None else Some draft).

(** [decode_smtp]. *)
Definition decode_smtp (qr : str) : C (Qr NodeAddr) :=
  payload <- ok_or (get_from (byte_len SMTP_SCHEME) qr) BadQrCode ;;
  split <- ok_or (split_once 58 payload) BadQrCode ;;
  addr <- normalize_address split.1 ;;
  from_address [] addr None.

(** [decode_matmsg]. *)
Definition decode_matmsg (qr : str) : C (Qr NodeAddr) :=
  split <- ok_or (split_at_text (lit "TO:") qr) BadQrCode ;;
  let addr := trim split.2 in
  let addr := match split_once 59 addr with Some (a, _) => trim a | None => addr end in
  addr <- normalize_address addr ;;
  from_address [] addr None.

(** [decode_vcard]. *)
Definition decode_vcard (qr : str) : C (Qr NodeAddr) :=
  let name := match vcard_name_re qr with
              | Some (last_name, first_name) => trim first_name ++ lit " " ++ trim last_name
              | None => []
              end in
  match vcard_email_re qr with
  | Some addr => addr <- normalize_address (trim addr) ;; from_address name addr None
  | None => fail BadQrCode
  end.

(** [parse_port], [parse_socket_security], [parse_certificate_checks]: [None] for a value that is
    not understood. *)
Definition parse_port (port : option str) : option (option Z) :=
  match port with Some p => Some <$> parse_u16 p | None => Some None end.

Definition parse_socket_security (security : option str) : option (option Socket.Socket) :=
  match security with
  | None => Some None
  | Some s =>
      if bool_decide (s = lit "ssl") then Some (Some Socket.Ssl)
      else if bool_decide (s = lit "starttls") then Some (Some Socket.Starttls)
      else if bool_decide (s = lit "default") then Some (Some Socket.Automatic)
      else if bool_decide (s = lit "plain") then Some (Some Socket.Plain)
      else None
  end.

Definition parse_certificate_checks (checks : option str)
  : option (option EnteredCertificateChecks) :=
  match checks with
  | None => Some None
  | Some s =>
      if bool_decide (s = lit "0") then Some (Some EnteredCertificateChecks.Automatic)
      else if bool_decide (s = lit "1") then Some (Some EnteredCertificateChecks.Strict)
      else if bool_decide (s = lit "2")
      then Some (Some EnteredCertificateChecks.AcceptInvalidCertificates)
      else if bool_decide (s = lit "3")
      then Some (Some EnteredCertificateChecks.AcceptInvalidCertificates2)
      else None
  end.

(** The options of version 1. *)
Definition login_v1 (params : list (str * str)) : option LoginOptions :=
  mail_pw ← param_get params "p";
  imap_port ← parse_port (param_get params "ip");
  imap_security ← parse_socket_security (param_get params "is");
  smtp_port ← parse_port (param_get params "sp");
  smtp_security ← parse_socket_security (param_get params "ss");
  certificate_checks ← parse_certificate_checks (param_get params "ic");
  Some (V1 mail_pw (param_get params "ih") imap_port (param_get params "iu")
          (param_get params "ipw") imap_security (param_get params "sh") smtp_port
          (param_get params "su") (param_get params "spw") smtp_security certificate_checks).

(** [decode_login]. *)
Definition decode_login (qr : str) : C (Qr NodeAddr) :=
  let qr := replace_first (lit "://") (lit ":") qr in
  url <- ok_or (url_parse qr) BadQrCode ;;
  payload <- ok_or (get_from (byte_len DCLOGIN_SCHEME) qr) BadQrCode ;;
  let addr := (span (λ c, negb (c =? 63)%N && negb (c =? 47)%N) payload).1 in
  if negb (eq_nocase (u_scheme url) (lit "dclogin")) then fail BadQrCode
  else
    let params := u_query_pairs url in
    if bool_decide (params = []) then fail BadQrCode
    else
      addr <- ok_or (percent_decode addr) BadQrCode ;;
      if negb (may_be_valid_addr addr) then fail BadQrCode
      else
        options <- ok_or (match param_get params "v" with
                          | Some v =>
                              v ← parse_u32 v;
                              if (v =? 1)%Z then login_v1 params else Some (UnsupportedVersion v)
                          | None => None
                          end) BadQrCode ;;
        ret (Qr.Login addr options).

(** The branches of [check_qr] for any other URL. *)
Definition classify_url (qr : str) (url : Url) : C (Qr NodeAddr) :=
  if bool_decide (u_scheme url = lit "socks5") then
    host <- ok_or (u_host url) BadQrCode ;;
    ret (Qr.Proxy qr host (default DEFAULT_SOCKS_PORT (u_port url)))
  else if bool_decide (u_scheme url = lit "http") || bool_decide (u_scheme url = lit "https") then
    url <- match strip_prefix (lit "http://") qr, strip_prefix (lit "https://") qr with
           | Some rest, _ | None, Some rest =>
               ok_or (url_parse (lit "foobarbaz://" ++ rest)) BadQrCode
           | None, None => ret url
           end ;;
    if bool_decide (u_port url = None) || negb (bool_decide (u_path url = []))
       || bool_decide (is_Some (u_query url))
    then ret (Qr.Url qr)
    else
      host <- ok_or (u_host url) BadQrCode ;;
      port <- ok_or (u_port_or_known_default url) BadQrCode ;;
      ret (Qr.Proxy qr host port)
  else ret (Qr.Url qr).

(** [check_qr]. *)
Definition check_qr (qr : str) : C (Qr NodeAddr) :=
  let qr := trim qr in
  if starts_with_ignore_case qr OPENPGP4FPR_SCHEME then decode_openpgp qr
  else if starts_with IDELTACHAT_SCHEME qr then decode_ideltachat IDELTACHAT_SCHEME qr
  else if starts_with IDELTACHAT_NOSLASH_SCHEME qr
  then decode_ideltachat IDELTACHAT_NOSLASH_SCHEME qr
  else if starts_with_ignore_case qr DCACCOUNT_SCHEME then decode_account qr
  else if starts_with_ignore_case qr DCLOGIN_SCHEME then decode_login qr
  else if starts_with_ignore_case qr TG_SOCKS_SCHEME then decode_tg_socks_proxy qr
  else if starts_with SHADOWSOCKS_SCHEME qr then decode_shadowsocks_proxy qr
  else if starts_with_ignore_case qr DCBACKUP_SCHEME_PREFIX
  then decode_backup2 (fix_add_second_device_qr qr)
  else if starts_with MAILTO_SCHEME qr then decode_mailto qr
  else if starts_with SMTP_SCHEME qr then decode_smtp qr
  else if starts_with MATMSG_SCHEME qr then decode_matmsg qr
  else if starts_with VCARD_SCHEME qr then decode_vcard qr
  else match url_parse qr with
       | Some url => classify_url qr url
       | None => ret (Qr.Text qr)
       end.

(** ** What is done with a code *)

(** [login_param_from_login_qr]. *)
Definition login_param_from_login_qr (addr : str) (options : LoginOptions)
  : option EnteredLoginParam :=
  match options with
  | V1 mail_pw imap_host imap_port imap_username imap_password imap_security smtp_host smtp_port
       smtp_username smtp_password smtp_security certificate_checks =>
      Some {| e_addr := addr;
              e_imap := {| imap_server := default [] imap_host; imap_port := default 0%Z imap_port;
                           imap_folder := lit "INBOX";
                           imap_security := default Socket.Automatic imap_security;
                           imap_user := default [] imap_username;
                           imap_password := default mail_pw imap_password |};
              e_smtp := {| smtp_server := default [] smtp_host; smtp_port := default 0%Z smtp_port;
                           smtp_security := default Socket.Automatic smtp_security;
                           smtp_user := default [] smtp_username;
                           smtp_password := default [] smtp_password |};
              e_certificate_checks := default EnteredCertificateChecks.Automatic certificate_checks;
              e_oauth2 := false |}
  | UnsupportedVersion _ => None
  end.

(** The parameters of a new account. *)
Definition account_param (addr password : str) : EnteredLoginParam :=
  {| e_addr := addr;
     e_imap := {| imap_server := []; imap_port := 0; imap_folder := [];
                  imap_security := Socket.Automatic; imap_user := []; imap_password := password |};
     e_smtp := {| smtp_server := []; smtp_port := 0; smtp_security := Socket.Automatic;
                  smtp_user := []; smtp_password := [] |};
     e_certificate_checks := EnteredCertificateChecks.Strict; e_oauth2 := false |}.

(** [login_param_from_account_qr]. *)
Definition login_param_from_account_qr (qr : str) : C EnteredLoginParam :=
  payload <- ok_or (get_from (byte_len DCACCOUNT_SCHEME) qr) BadQrCode ;;
  if negb (starts_with HTTPS_SCHEME payload) then
    ret (account_param (sample_username ++ lit "@" ++ payload) sample_password)
  else
    response <- ok_or (post_empty payload) SignupFailed ;;
    if response.2 : bool then
      created <- ok_or (parse_created response.1) SignupFailed ;;
      ret (account_param created.1 created.2)
    else fail SignupFailed.

Context (config_defaults : Provider -> list (Config * str))
  (pre_sending_config_change : bool -> bool -> A unit) (maybe_send_stats : A unit).
Local Abbreviation add_transport :=
  (add_transport_inner config_defaults pre_sending_config_change maybe_send_stats).

(** A proxy becomes the first of the list. *)
Definition add_proxy (now : Z) (url : str) : C unit :=
  old_proxy_url_value <- in_account (get_config Config.ProxyUrl) ;;
  config <- ok_or (ProxyConfig_from_url url) BadQrCode ;;
  let url := ProxyConfig_to_url config in
  let proxy_urls := url :: base.filter (λ s, s ≠ [] ∧ s ≠ url)
                             (split_char LF (default [] old_proxy_url_value)) in
  in_account (set_config pre_sending_config_change maybe_send_stats now Config.ProxyUrl
                 (Some (join [LF] proxy_urls))) ;;;
  in_account (set_config_bool pre_sending_config_change maybe_send_stats now Config.ProxyEnabled true).

(** Withdrawing and reviving an own code. *)
Definition withdraw (now : Z) (foreign_key invitenumber authcode : str) : C unit :=
  in_account (delete_tokens foreign_key) ;;;
  in_account (sync_qr_code_token_deletion now invitenumber authcode).

Definition revive (now : Z) (grpid : option str) (invitenumber authcode : str) : C unit :=
  in_account (save_token Namespace.InviteNumber grpid invitenumber now) ;;;
  in_account (save_token Namespace.Auth grpid authcode now) ;;;
  in_account (sync_qr_code_tokens now grpid).

(** [set_config_from_qr]. *)
Definition set_config_from_qr (now : Z) (qr : str) : C unit :=
  code <- check_qr qr ;;
  match code with
  | Qr.Account _ =>
      param <- login_param_from_account_qr qr ;;
      in_account (add_transport now param)
  | Qr.Proxy url _ _ => add_proxy now url
  | Qr.WithdrawVerifyContact o => withdraw now [] (o_invitenumber o) (o_authcode o)
  | Qr.WithdrawVerifyGroup o _ grpid | Qr.WithdrawJoinBroadcast o _ grpid =>
      withdraw now grpid (o_invitenumber o) (o_authcode o)
  | Qr.ReviveVerifyContact o => revive now None (o_invitenumber o) (o_authcode o)
  | Qr.ReviveVerifyGroup o _ grpid | Qr.ReviveJoinBroadcast o _ grpid =>
      revive now (Some grpid) (o_invitenumber o) (o_authcode o)
  | Qr.Login address options =>
      param <- ok_or (login_param_from_login_qr address options) UnsupportedQrCode ;;
      in_account (add_transport now param)
  | _ => fail UnsupportedQrCode
  end.

(** [Context::add_transport_from_qr], without stopping and starting of I/O. *)
Definition add_transport_from_qr (now : Z) (qr : str) : C unit :=
  code <- check_qr qr ;;
  param <- match code with
           | Qr.Account _ => login_param_from_account_qr qr
           | Qr.Login address options =>
               ok_or (login_param_from_login_qr address options) UnsupportedQrCode
           | _ => fail UnsupportedQrCode
           end ;;
  in_account (add_transport now param).

(** [QrInvite::try_from]. *)
Definition QrInvite_try_from (qr : Qr NodeAddr) : option QrInvite :=
  match qr with
  | Qr.AskVerifyContact i => Some (QrInvite.Contact i)
  | Qr.AskVerifyGroup i grpname grpid => Some (QrInvite.Group i grpname grpid)
  | Qr.AskJoinBroadcast i name grpid => Some (QrInvite.Broadcast i name grpid)
  | _ => None
  end.

(** [securejoin]. *)
Definition securejoin `{!Sending, !Rendering, !Json QrInvite} (now : Z) (qr : str) : C N :=
  qr_scan <- check_qr qr ;;
  invite <- ok_or (QrInvite_try_from qr_scan) UnsupportedQrCode ;;
  start_protocol now invite.
End Codes.
