(* ===== verification/Invitations.v ===== *)
(** Invitations: an invitation that one user makes is understood by whoever scans it, and by its
    owner, who may withdraw and revive it (src/src/securejoin.rs, src/src/qr.rs,
    src/src/token.rs). *)
From S2P Require Import Prelude Monad Ids Params ContactTools Db Contacts Recipients GroupChanges LoginParam.
From S2P Require Import Config Transport Configure Sync ChatDb SecureJoin JoinTrust ImapUids ChatAssign Proxy QrCode.

(** ** Text *)

(** Replacing a character acts on each one. *)
Lemma replace_char_bind c rep s :
  replace [c] rep s = s ≫= (λ d, if (c =? d)%N then rep else [d]).
Proof.
  unfold replace. assert (∀ fuel s, length s ≤ fuel →
    replace_fuel fuel [c] rep s = s ≫= (λ d, if (c =? d)%N then rep else [d])) as H; [|by apply H].
  clear s. intros fuel. induction fuel as [|fuel IH]; intros [|d s] Hl; simpl in *; try done; [lia|].
  destruct (N.eqb_spec c d) as [->|Hne]; simpl; rewrite IH by lia; done.
Qed.

(** A text replaced by a character that does not occur comes back. *)
Lemma replace_back c pat s :
  pat ≠ [] → c ∉ s → replace [c] pat (replace pat [c] s) = s.
Proof.
  intros Hp Hs. rewrite replace_char_bind. unfold replace.
  assert (∀ fuel s, length s ≤ fuel → c ∉ s →
    (replace_fuel fuel pat [c] s ≫= λ d, if (c =? d)%N then pat else [d]) = s) as H; [|by apply H].
  clear s Hs. intros fuel. induction fuel as [|fuel IH]; intros [|d s] Hl Hc; simpl in *; try done; [lia|].
  destruct (strip_prefix pat (d :: s)) as [rest|] eqn:E.
  - apply strip_prefix_Some in E. destruct pat as [|p pat]; [done|]. simpl in E.
    injection E as -> ->. simpl. rewrite N.eqb_refl, IH; [done|rewrite length_app in Hl; lia|].
    intros ?. apply Hc. set_solver.
  - simpl. rewrite (proj2 (N.eqb_neq c d)) by set_solver. simpl. rewrite IH; [done|lia|set_solver].
Qed.

Lemma replace_first_prefix pat rep rest : replace_first pat rep (pat ++ rest) = rep ++ rest.
Proof. destruct (pat ++ rest) eqn:E; cbn [replace_first]; rewrite <-E, strip_prefix_app; done. Qed.

Lemma replace_first_char c rep a b :
  c ∉ a → replace_first [c] rep (a ++ c :: b) = a ++ rep ++ b.
Proof.
  induction a as [|d a IH]; intros Hc; simpl.
  - by rewrite N.eqb_refl.
  - rewrite (proj2 (N.eqb_neq c d)) by set_solver. simpl. by rewrite IH by set_solver.
Qed.

Lemma get_from_app a b : get_from (byte_len a) (a ++ b) = Some b.
Proof.
  induction a as [|c a IH]; simpl; [by destruct b|].
  assert (0 < len_utf8 c)%N by (unfold len_utf8; repeat case_match; lia).
  rewrite (proj2 (N.eqb_neq _ 0)) by lia. rewrite (proj2 (N.leb_le _ _)) by lia.
  replace (len_utf8 c + byte_len a - len_utf8 c)%N with (byte_len a) by lia. done.
Qed.

Lemma replace_chars (P : char -> Prop) pat rep s :
  Forall P rep → Forall P s → Forall P (replace pat rep s).
Proof.
  intros Hr Hs. unfold replace. generalize (length s) as fuel. intros fuel.
  revert s Hs. induction fuel as [|fuel IH]; intros s Hs; [done|]. destruct s as [|c s]; [done|]. simpl.
  destruct (strip_prefix pat (c :: s)) as [rest|] eqn:E.
  - apply strip_prefix_Some in E. rewrite E in Hs. apply list.Forall_app in Hs as [_ Hs].
    apply list.Forall_app. auto.
  - apply list.Forall_cons in Hs as [Hc Hs]. constructor; auto.
Qed.

Lemma trim_id s : Forall (λ c, is_whitespace c = false) s → trim s = s.
Proof.
  assert (∀ s, Forall (λ c, is_whitespace c = false) s → trim_start_by is_whitespace s = s) as H.
  { intros [|c l] Hf; [done|]. simpl. apply list.Forall_cons in Hf as [Hc _]. by rewrite Hc. }
  intros Hs. unfold trim, trim_start, trim_end, trim_end_by. rewrite (H s Hs).
  rewrite H by (by apply List.Forall_rev). apply rev_involutive.
Qed.

(** ** Links *)

(** A character that may be part of a field. *)
Definition field_char (c : char) : Prop := c ≠ 38%N ∧ is_whitespace c = false.

Definition link_of (fp : str) (fields : list (string * str)) : str :=
  IDELTACHAT_SCHEME ++ fp ++ concat ((λ f, lit "&" ++ lit f.1 ++ lit "=" ++ f.2) <$> fields).

(** The fields of a link: short keys and plain values. *)
Definition plain_field (f : string * str) : Prop :=
  Forall field_char (lit f.1) ∧ (EQ ∉ lit f.1) ∧ Forall field_char f.2.

Lemma concat_fields f fields :
  concat ((λ f, lit "&" ++ lit f.1 ++ lit "=" ++ f.2) <$> (f :: fields))
  = 38%N :: join [38%N] ((λ f, lit f.1 ++ lit "=" ++ f.2) <$> (f :: fields)).
Proof.
  revert f. induction fields as [|g fields IH]; intros f.
  - simpl. by rewrite app_nil_r.
  - rewrite fmap_cons. cbn [concat]. rewrite IH. simpl. by rewrite <-!app_assoc.
Qed.

Lemma field_no_sep f : plain_field f → no_sep 38 (lit f.1 ++ lit "=" ++ f.2).
Proof.
  intros (H1 & _ & H2). unfold no_sep. rewrite !elem_of_app. intros [H|[H|H]].
  - rewrite list.Forall_forall in H1. by destruct (H1 _ H).
  - apply list_elem_of_singleton in H. discriminate.
  - rewrite list.Forall_forall in H2. by destruct (H2 _ H).
Qed.

Lemma parse_fields f fields :
  Forall plain_field (f :: fields) →
  parse_params (join [38%N] ((λ f, lit f.1 ++ lit "=" ++ f.2) <$> (f :: fields)))
  = (λ f, (lit f.1, f.2)) <$> (f :: fields).
Proof.
  intros Hf. unfold parse_params. rewrite split_join; [|done|].
  - induction Hf as [|g l Hg _ IH]; [done|]. cbn [fmap list_fmap omap list_omap].
    change (lit "=" ++ g.2) with (EQ :: g.2). rewrite split_once_app by apply Hg. by rewrite IH.
  - apply list.Forall_fmap. eapply list.Forall_impl; [exact Hf|]. apply field_no_sep.
Qed.

Lemma link_chars fp fields :
  Forall field_char fp → Forall plain_field fields →
  Forall (λ c, is_whitespace c = false) (link_of fp fields).
Proof.
  intros Hfp Hf. unfold link_of. rewrite !list.Forall_app. split_and!.
  - apply (bool_decide_unpack _). by vm_compute.
  - eapply list.Forall_impl; [exact Hfp|]. by intros c [_ H].
  - apply List.Forall_concat, list.Forall_fmap. eapply list.Forall_impl; [exact Hf|].
    intros f (H1 & _ & H2). simpl. constructor; [done|]. rewrite !list.Forall_app. split_and!.
    + eapply list.Forall_impl; [exact H1|]. by intros c [_ H].
    + constructor; [done|]. eapply list.Forall_impl; [exact H2|]. by intros c [_ H].
Qed.

(** What the crates and the platform promise: decoding undoes encoding, encoding leaves only
    letters, digits and a few signs, case mappings act on ASCII as usual. *)
Class CodingOk `{!Platform, !Urls} (percent_encode : str -> str) : Prop := {
  decode_encoded s : percent_decode (percent_encode s) = Some s;
  encoded_chars s : Forall (λ c, is_base64url c = true ∨ c = 46%N ∨ c = 37%N) (percent_encode s);
  lower_ascii c s : (c < 128)%N → head (str_to_lowercase (c :: s)) = Some (nocase c);
  upper_capitals : upper_fixes_capitals str_to_uppercase
}.

Lemma base64url_field c : is_base64url c = true → field_char c.
Proof.
  intros H. unfold is_base64url in H. rewrite !orb_true_iff, !andb_true_iff, !N.leb_le, !N.eqb_eq in H.
  split; [lia|]. unfold is_whitespace. apply not_true_is_false.
  rewrite !orb_true_iff, !andb_true_iff, !N.leb_le, !N.eqb_eq. lia.
Qed.

Lemma base64url_fields s : forallb is_base64url s = true → Forall field_char s.
Proof.
  intros H. apply list.Forall_forall. intros c Hc. apply base64url_field.
  rewrite forallb_forall in H. apply H. by apply list_elem_of_In.
Qed.

Lemma hex_fields fp : valid_fingerprint fp → Forall field_char (hex fp) ∧ (38%N ∉ hex fp) ∧ (35%N ∉ hex fp).
Proof.
  intros [Hb _]. pose proof (hex_upper fp Hb) as Hu. rewrite list.Forall_forall in Hu.
  assert (∀ c, c ∈ hex fp → c ≠ 35%N ∧ field_char c) as H.
  { intros c Hc. apply Hu in Hc. destruct Hc as [_ Hc]. split; [lia|]. apply base64url_field.
    unfold is_base64url. rewrite !orb_true_iff, !andb_true_iff, !N.leb_le, !N.eqb_eq. lia. }
  split_and!.
  - apply list.Forall_forall. intros c Hc. by apply H.
  - intros Hc. by destruct (proj2 (H _ Hc)).
  - intros Hc. by destruct (proj1 (H _ Hc)).
Qed.

Section Scanning.
Context {PF : Platform} {OS : Outside} {UR : Urls} {SU : Signup} {JS : Json SyncItem}
  {JE : Json EnteredLoginParam} {JC : Json ConfiguredLoginParamJson}.
Context {NodeAddr : Type} {JN : Json NodeAddr}.
Context (percent_encode : str -> str) {CO : CodingOk percent_encode}.

(** A scanned link is its fingerprint and its fields. *)
Lemma scan_link fp f fields :
  valid_fingerprint fp → Forall plain_field (f :: fields) →
  check_qr (NodeAddr := NodeAddr) (link_of (hex fp) (f :: fields))
  = decode_fields fp ((λ f, (lit f.1, f.2)) <$> (f :: fields)).
Proof.
  intros Hfp Hf. destruct (hex_fields fp Hfp) as (H1 & H2 & H3).
  unfold check_qr. rewrite trim_id by (by apply link_chars).
  assert (starts_with_ignore_case (link_of (hex fp) (f :: fields)) OPENPGP4FPR_SCHEME = false) as ->.
  { unfold starts_with_ignore_case, starts_with, link_of, OPENPGP4FPR_SCHEME, IDELTACHAT_SCHEME.
    pose proof (lower_ascii (percent_encode := percent_encode) 79%N (lit "PENPGP4FPR:") eq_refl) as Ho.
    pose proof (lower_ascii (percent_encode := percent_encode) 104%N (lit "ttps://i.delta.chat/#"
      ++ hex fp ++ concat ((λ f, lit "&" ++ lit f.1 ++ lit "=" ++ f.2) <$> (f :: fields))) eq_refl) as Hh.
    change (lit "OPENPGP4FPR:") with (79%N :: lit "PENPGP4FPR:").
    change (lit "https://i.delta.chat/#" ++ ?x) with (104%N :: lit "ttps://i.delta.chat/#" ++ x).
    destruct (str_to_lowercase (79%N :: _)) as [|a l]; [done|].
    destruct (str_to_lowercase (104%N :: _)) as [|b l']; [done|]. by simplify_eq/=. }
  assert (starts_with IDELTACHAT_SCHEME (link_of (hex fp) (f :: fields)) = true) as ->.
  { unfold starts_with, link_of. by rewrite strip_prefix_app. }
  unfold decode_ideltachat, link_of. rewrite replace_first_prefix, concat_fields.
  change (lit "&") with [38%N]. change (lit "#") with [35%N].
  rewrite (app_assoc OPENPGP4FPR_SCHEME), replace_first_char.
  - unfold decode_openpgp. rewrite <-app_assoc, get_from_app. unfold ok_or at 1, bind at 1, ret at 1.
    cbv beta iota. change ([35%N] ++ ?x) with (35%N :: x). rewrite split_once_app by done. cbv beta iota.
    rewrite (from_str_hex _ upper_capitals) by done. unfold ok_or, bind, ret. cbv beta iota.
    by rewrite parse_fields.
  - rewrite elem_of_app. intros [H|H]; [|done]. vm_compute in H. by repeat (apply elem_of_cons in H as [H|H]; [done|]); apply elem_of_nil in H.
Qed.

(** ** The fields of an invitation *)

(** How a shortened name is shown. *)
Definition shown_name (name : str) : str :=
  match strip_suffix (lit "_") name with Some n => n ++ [8230%N] | None => name end.

Lemma decode_name_encoded params key name s :
  param_get params key = Some (url_encode percent_encode name) →
  decode_name params key s = (Ok (Some (shown_name name)), s).
Proof.
  intros Hp. unfold decode_name. rewrite Hp. unfold url_encode. change (lit "+") with [43%N].
  rewrite replace_back; [|done|].
  - by rewrite (decode_encoded (percent_encode := percent_encode)).
  - intros H. pose proof (encoded_chars (percent_encode := percent_encode) name) as Hc.
    rewrite list.Forall_forall in Hc. by destruct (Hc _ H) as [?|[?|?]].
Qed.

Lemma decode_name_none params key s :
  param_get params key = None → decode_name params key s = (Ok None, s).
Proof. intros Hp. unfold decode_name. by rewrite Hp. Qed.

(** An address as the account stores it. *)
Definition proper_addr (addr : str) : Prop :=
  addr_normalize str_to_lowercase addr = addr ∧ may_be_valid_addr addr = true.

Lemma normalize_encoded addr s :
  proper_addr addr → normalize_address (percent_encode addr) s = (Ok addr, s).
Proof.
  intros [Hn Hv]. unfold normalize_address, ok_or.
  rewrite (decode_encoded (percent_encode := percent_encode)). run_se. by rewrite Hn, Hv.
Qed.

(** What an invitation is for: a contact, or a chat with its kind, name and identifier. *)
Record invited := { in_channel : bool; in_name : str; in_grpid : str }.

Definition invite_fields (what : option invited) (number auth addr self_name : str)
  : list (string * str) :=
  match what with
  | None =>
      [("v", lit "3"); ("i", number); ("s", auth); ("a", percent_encode addr);
       ("n", url_encode percent_encode (shorten_name self_name 25))]
  | Some w =>
      [("v", lit "3"); ("x", in_grpid w); (if in_channel w then "j" else "i", number); ("s", auth);
       ("a", percent_encode addr); ("n", url_encode percent_encode (shorten_name self_name 16));
       (if in_channel w then "b" else "g", url_encode percent_encode (shorten_name (in_name w) 25))]
  end%string.

Definition self_length (what : option invited) : nat := match what with None => 25 | Some _ => 16 end.

(** The fields are read back. *)
Lemma decode_opt_name params key name s :
  param_get params key = url_encode percent_encode <$> name →
  decode_name params key s = (Ok (shown_name <$> name), s).
Proof. destruct name; [apply decode_name_encoded|apply decode_name_none]. Qed.

Lemma decode_fields_run fp params addr name number auth grpname broadcast_name s :
  proper_addr addr → validate_id number = true → validate_id auth = true →
  param_get params "a" = Some (percent_encode addr) →
  param_get params "n" = Some (url_encode percent_encode name) →
  match param_get params "i" with Some n => Some n | None => param_get params "j" end = Some number →
  param_get params "s" = Some auth → param_get params "v" = Some (lit "3") →
  param_get params "g" = url_encode percent_encode <$> grpname →
  param_get params "b" = url_encode percent_encode <$> broadcast_name →
  decode_fields (NodeAddr := NodeAddr) fp params s
  = decode_invitation addr fp (shown_name name) number auth (valid_id (param_get params "x"))
      (shown_name <$> grpname) (shown_name <$> broadcast_name) true s.
Proof.
  intros Ha Hn Hs Ea En Ei Es Ev Eg Eb. unfold decode_fields. rewrite Ea, Ei, Es, Ev.
  unfold bind at 1 2. rewrite normalize_encoded by done. unfold ret at 1. cbv beta iota.
  unfold bind at 1. rewrite (decode_name_encoded params "n" name) by done. cbv beta iota.
  unfold bind at 1. rewrite (decode_opt_name params "g" grpname) by done. cbv beta iota.
  unfold bind at 1. rewrite (decode_opt_name params "b" broadcast_name) by done. cbv beta iota zeta.
  unfold valid_id at 1 2. simpl. by rewrite Hn, Hs.
Qed.

Lemma decode_invite_fields fp what number auth addr self_name s :
  proper_addr addr → validate_id number = true → validate_id auth = true →
  (∀ w, what = Some w → validate_id (in_grpid w) = true) →
  decode_fields (NodeAddr := NodeAddr) fp
    ((λ f, (lit f.1, f.2)) <$> invite_fields what number auth addr self_name) s
  = decode_invitation addr fp (shown_name (shorten_name self_name (self_length what))) number auth
      (in_grpid <$> what)
      (w ← what; if in_channel w then None else Some (shown_name (shorten_name (in_name w) 25)))
      (w ← what; if in_channel w then Some (shown_name (shorten_name (in_name w) 25)) else None)
      true s.
Proof.
  intros Ha Hn Hs Hg.
  erewrite (decode_fields_run fp _ addr (shorten_name self_name (self_length what)) number auth
    (w ← what; if in_channel w then None else Some (shorten_name (in_name w) 25))
    (w ← what; if in_channel w then Some (shorten_name (in_name w) 25) else None)); try done;
    destruct what as [[[] name grpid]|]; try reflexivity;
    pose proof (Hg _ eq_refl) as Hv; simpl in Hv; unfold param_get, valid_id; simpl; by rewrite Hv.
Qed.

(** ** Scanning by somebody else *)

Definition scanned (what : option invited) (i : inviter) : Qr NodeAddr :=
  match what with
  | None => Qr.AskVerifyContact i
  | Some w =>
      let name := shown_name (shorten_name (in_name w) 25) in
      if in_channel w then Qr.AskJoinBroadcast i name (in_grpid w)
      else Qr.AskVerifyGroup i name (in_grpid w)
  end.

(** An account that can add a contact, and is not the one with this address and key. *)
Record stranger (addr : str) (fp : Fingerprint) (s : Core) : Prop := {
  st_wf : contacts_wf (db s);
  st_room : (next_contact_id (db s) <= 4294967295)%N;
  st_key : ∃ self, self_fingerprint_opt (db s) = Some self ∧ self ≠ hex fp;
  st_addr : (is_self_addr str_to_lowercase addr (db s)).1 = Ok false
}.

Lemma proper_contact_addr addr :
  proper_addr addr → ContactAddress_new str_to_lowercase addr = Some addr.
Proof. intros [Hn Hv]. unfold ContactAddress_new. by rewrite Hn, Hv. Qed.

Lemma proper_not_nil addr : proper_addr addr → addr ≠ [].
Proof. by intros [_ Hv] ->. Qed.

Lemma in_db_run {X} (x : M X) s v c :
  x (db s) = (Ok v, c) → in_db x s = (Ok v, upd_db (λ _, c) s).
Proof. intros E. unfold in_db. by rewrite E. Qed.

(** Adding a contact keeps the addresses of the account. *)
Lemma add_or_lookup_self lower gen name addr fp origin c r c' :
  add_or_lookup_ex lower gen name addr fp origin c = (r, c') →
  contacts_wf c → (addr ≠ [] ∨ fp ≠ []) → origin ≠ Origin.Unknown →
  (∃ self, self_fingerprint_opt c = Some self) → (next_contact_id c <= 4294967295)%N →
  configured_addr c' = configured_addr c ∧ transport_addrs c' = transport_addrs c.
Proof.
  intros E Hwf Hne Hor [self Hself] Hroom.
  rewrite (add_or_lookup_run _ _ _ _ _ _ c self) in E by done.
  destruct (own lower addr fp c); [by simplify_eq|].
  destruct (effective_name_origin name addr origin) as [n o].
  destruct (lookup_or_insert_ok n addr fp o c Hwf (λ _, Hroom)) as (m & c1 & row & E1 & _ & _ & _ & _ & _ & Hsame).
  rewrite E1 in E. simplify_eq. destruct Hsame as (_ & Ha & Ht & _). done.
Qed.

Lemma stranger_decodes addr fp name number auth what s :
  proper_addr addr → stranger addr fp s →
  ∃ id s', decode_invitation (NodeAddr := NodeAddr) addr fp name number auth (in_grpid <$> what)
      (w ← what; if in_channel w then None else Some (shown_name (shorten_name (in_name w) 25)))
      (w ← what; if in_channel w then Some (shown_name (shorten_name (in_name w) 25)) else None)
      true s
    = (Ok (scanned what {| i_contact_id := id; i_fingerprint := fp; i_addrs := [addr];
             i_invitenumber := number; i_authcode := auth; i_is_v3 := true |}), s')
    ∧ account s' = account s
    ∧ ∃ row, row ∈ contacts (db s') ∧ c_id row = id ∧ c_fingerprint row = hex fp.
Proof.
  intros Ha [Hwf Hroom (self & Hself & Hne) Haddr].
  assert (own str_to_lowercase addr (hex fp) (db s) = false) as Hown.
  { unfold own. rewrite Haddr. simpl. rewrite (bool_decide_eq_false_2 (_ = Some (hex fp))) by congruence.
    by rewrite andb_false_r, andb_false_r. }
  destruct (add_or_lookup_spec str_to_lowercase generated_fingerprint name addr (hex fp)
    Origin.UnhandledSecurejoinQrScan (db s) self Hwf (or_introl (proper_not_nil _ Ha)) ltac:(done)
    Hself Hroom) as (id & m & c' & E & _ & Hid & _).
  rewrite Hown in Hid. destruct Hid as (row & Hrow & Hc & Hf & _).
  exists id, (upd_db (λ _, c') s). split_and!; [|done|by exists row].
  unfold decode_invitation, ok_or. rewrite proper_contact_addr by done.
  unfold bind at 1, ret at 1. cbv beta iota. unfold bind at 1.
  rewrite (in_db_run _ s (id, m) c' E). cbv beta iota zeta. simpl.
  assert (in_db (is_self_addr str_to_lowercase addr) (upd_db (λ _, c') s)
    = (Ok false, upd_db (λ _, c') s)) as Hs.
  { destruct (add_or_lookup_self _ _ _ _ _ _ _ _ _ E Hwf (or_introl (proper_not_nil _ Ha)) ltac:(done)
      (ex_intro _ self Hself) Hroom) as [H1 H2].
    rewrite (in_db_run _ (upd_db (λ _, c') s) false c'); [by destruct s|]. simpl.
    pose proof (is_self_addr_same str_to_lowercase addr (db s) c' H1 H2) as H. rewrite Haddr in H.
    rewrite is_self_addr_run, H. done. }
  unfold bind at 1. rewrite Hs. cbv beta iota. unfold bind, and_then, ret.
  destruct what as [[[] ? ?]|]; reflexivity.
Qed.

(** ** Making an invitation *)

Lemma in_account_ok {X} (x : A X) s v s' :
  in_account x s = (Ok v, s') → ∃ a, x (account s) = (Ok v, a) ∧ s' = upd_account (λ _, a) s.
Proof. unfold in_account. destruct (x (account s)) as [[w|e] a]; [|done]. intros [= -> <-]. by exists a. Qed.

(** What a chat is invited to. *)
Definition what_of (row : chat_row) : invited :=
  {| in_channel := bool_decide (ch_type row = Chattype.OutBroadcast); in_name := ch_name row;
     in_grpid := ch_grpid row |}.

Definition inviting (chat : option ChatId) (s : Core) : option invited :=
  id ← chat; row ← chats (db s) !! id; Some (what_of row).

Lemma load_inviting_chat_ok now id s chat s' :
  load_inviting_chat now id s = (Ok chat, s') →
  s' = s ∧ ∃ row, chats (db s) !! id = Some row ∧ chat_typ chat = ch_type row
    ∧ chat_name chat = ch_name row ∧ chat_grpid chat = ch_grpid row.
Proof.
  unfold load_inviting_chat. intros (c & s1 & H1 & H)%bind_ok.
  unfold in_db, load_from_db in H1. destruct (chats (db s) !! id) as [row|] eqn:Hr; [|done].
  injection H1 as <- <-. replace (upd_db (λ _, db s) s) with s in H by (by destruct s).
  apply bind_ok in H as (? & s2 & H2 & H). unfold ensure_or in H2.
  destruct (_ || _) in H2; [|done]. injection H2 as <- <-. simpl in H.
  destruct (bool_decide (ch_grpid row = [])); [done|].
  apply bind_ok in H as (secret & s2 & H2 & H). unfold load_broadcast_secret, gets in H2.
  injection H2 as <- <-. destruct (_ && _).
  - by apply bind_ok in H as (? & ? & ? & ?).
  - injection H as <- <-. split; [done|]. by exists row.
Qed.

(** The rows of the codes in a link. *)
Definition code_row (ns : Namespace) (key token : str) (now : Z) : token_row :=
  {| tk_namespc := ns; tk_foreign_key := key; tk_token := token; tk_timestamp := now |}.

(** The tokens an invitation leaves: a number that was there or is new, and a new code. *)
Definition invitation_tokens (now : Z) (key number auth : str) (l l' : list token_row) : Prop :=
  ∃ l1, l' = l1 ++ [code_row Namespace.Auth key auth now]
    ∧ (l1 = l ∧ (∃ r, r ∈ l ∧ tk_namespc r = Namespace.InviteNumber ∧ tk_foreign_key r = key
                        ∧ tk_token r = number)
       ∨ l1 = l ++ [code_row Namespace.InviteNumber key number now]).

Lemma save_new_token ns key token now a :
  token ≠ [] → token ∉ tk_token <$> tokens a →
  save_token ns key token now a
  = (Ok tt, upd_tokens (λ _, tokens a ++ [code_row ns (default [] key) token now]) a).
Proof.
  intros Hn Ht. unfold save_token. rewrite (bool_decide_eq_false_2 _ Hn). unfold modify.
  f_equal. destruct a. unfold upd_tokens. simpl in *. by rewrite (bool_decide_eq_false_2 _ Ht).
Qed.

Lemma lookup_or_new_ok now new key a :
  new ≠ [] → new ∉ tk_token <$> tokens a →
  ∃ number l1, lookup_or_new now new Namespace.InviteNumber key a
      = (Ok number, upd_tokens (λ _, l1) a)
    ∧ ((l1 = tokens a ∧ ∃ r, r ∈ tokens a ∧ tk_namespc r = Namespace.InviteNumber
          ∧ tk_foreign_key r = default [] key ∧ tk_token r = number)
       ∨ (number = new ∧ l1 = tokens a ++ [code_row Namespace.InviteNumber (default [] key) new now])).
Proof.
  intros Hn Ht. unfold lookup_or_new, bind at 1, lookup_token, gets.
  destruct (head _) as [r|] eqn:E; simpl.
  - exists (tk_token r), (tokens a). split; [by destruct a|]. left. split; [done|]. exists r.
    apply head_Some_elem_of in E. rewrite elem_of_reverse in E.
    apply list_elem_of_filter in E as [[H1 H2] H3]. done.
  - unfold bind. rewrite save_new_token by done. eauto 10.
Qed.

Lemma sync_tokens_frame l now key : preserves (λ a, tokens a = l) (sync_qr_code_tokens now key).
Proof.
  unfold sync_qr_code_tokens, lookup_token.
  preserves_tac; first [apply should_send_frame|apply add_sync_item_frame]; apply _.
Qed.

Lemma get_config_tokens l key : preserves (λ a, tokens a = l) (get_config key).
Proof. apply get_config_frame, _. Qed.

Lemma in_account_tokens {X} (x : A X) s v s' :
  (∀ l, preserves (λ a, tokens a = l) x) → in_account x s = (Ok v, s') →
  db s' = db s ∧ tokens (account s') = tokens (account s).
Proof.
  intros Hx (a & E & ->)%in_account_ok. split; [done|].
  by eapply (preserves_run _ _ _ _ _ (Hx _) E).
Qed.

(** The random identifiers an invitation draws. *)
Record fresh_ids (s : Core) : Prop := {
  fresh_number : random_id (tape s) ≠ [] ∧ random_id (tape s) ∉ tk_token <$> tokens (account s);
  fresh_auth : random_id (S (tape s)) ≠ [] ∧ random_id (S (tape s)) ∉ tk_token <$> tokens (account s);
  fresh_apart : random_id (S (tape s)) ≠ random_id (tape s)
}.

(** The text of the link. *)
Lemma link_text fp what number auth addr self_name :
  link_of fp (invite_fields what number auth addr self_name)
  = let prefix := lit "https://i.delta.chat/#" ++ fp ++ lit "&v=3" in
    let common number_key :=
      number_key ++ number ++ lit "&s=" ++ auth ++ lit "&a=" ++ percent_encode addr in
    match what with
    | Some w =>
        let name := url_encode percent_encode (shorten_name (in_name w) 25) in
        let self_name := url_encode percent_encode (shorten_name self_name 16) in
        if in_channel w
        then prefix ++ lit "&x=" ++ in_grpid w ++ common (lit "&j=") ++ lit "&n=" ++ self_name
               ++ lit "&b=" ++ name
        else prefix ++ lit "&x=" ++ in_grpid w ++ common (lit "&i=") ++ lit "&n=" ++ self_name
               ++ lit "&g=" ++ name
    | None =>
        prefix ++ common (lit "&i=") ++ lit "&n="
        ++ url_encode percent_encode (shorten_name self_name 25)
    end.
Proof.
  unfold link_of, IDELTACHAT_SCHEME.
  destruct what as [[[] name grpid]|]; cbn [invite_fields in_channel in_name in_grpid fmap list_fmap concat];
    cbv zeta; rewrite <-!app_assoc; do 2 f_equal; simpl;
    repeat (f_equal; rewrite <-?app_assoc; simpl; rewrite ?app_nil_r).
Qed.

(** The codes of an invitation. *)
Lemma invitation_codes now key s :
  fresh_ids s →
  ∃ number s', (new_number <- create_id ;;
      invitenumber <- in_account (lookup_or_new now new_number Namespace.InviteNumber key) ;;
      auth <- create_id ;;
      in_account (save_token Namespace.Auth key auth now) ;;;
      ret (invitenumber, auth)) s = (Ok (number, random_id (S (tape s))), s')
    ∧ db s' = db s ∧ (number = random_id (tape s) ∨ number ∈ tk_token <$> tokens (account s))
    ∧ invitation_tokens now (default [] key) number (random_id (S (tape s))) (tokens (account s))
        (tokens (account s')).
Proof.
  intros [[Hn1 Hn2] [Ha1 Ha2] Hna]. unfold create_id. run_se. simpl.
  destruct (lookup_or_new_ok now (random_id (tape s)) key (account s) Hn1 Hn2) as (number & l1 & E & Hl).
  unfold in_account at 1. simpl. rewrite E. cbv beta iota. simpl. unfold in_account at 1. simpl.
  rewrite save_new_token; [| done |].
  - eexists _, _. split; [reflexivity|]. split; [done|]. simpl. split.
    + destruct Hl as [(_ & r & Hr & _ & _ & Ht)|[-> _]]; [right|by left].
      apply list_elem_of_fmap. eauto.
    + exists l1. split; [done|]. destruct Hl as [[-> ?]|[-> ->]]; [by left|by right].
  - simpl. destruct Hl as [[-> _]|[_ ->]]; [done|].
    rewrite fmap_app, elem_of_app. intros [H|H]; [done|]. by apply list_elem_of_singleton in H.
Qed.

Lemma key_known_run s fp :
  self_fingerprint_opt (db s) = Some fp →
  in_db (self_fingerprint generated_fingerprint) s = (Ok fp, s).
Proof. intros H. unfold in_db, self_fingerprint. rewrite H. by destruct s. Qed.

Lemma invitation_made now chat s link s' fp addr :
  get_securejoin_qr percent_encode now chat s = (Ok link, s') →
  self_fingerprint_opt (db s) = Some (hex fp) → configured_addr (db s) = Some addr → fresh_ids s →
  (∀ id, chat = Some id → is_Some (chats (db s) !! id)) ∧
  ∃ number self_name,
    link = link_of (hex fp) (invite_fields (inviting chat s) number (random_id (S (tape s))) addr self_name)
    ∧ db s' = db s ∧ (number = random_id (tape s) ∨ number ∈ tk_token <$> tokens (account s))
    ∧ invitation_tokens now (default [] (in_grpid <$> inviting chat s)) number (random_id (S (tape s)))
        (tokens (account s)) (tokens (account s')).
Proof.
  intros H Hfp Haddr Hfresh. unfold get_securejoin_qr in H.
  unfold bind at 1, ignore_err at 1, load_self_public_key in H. rewrite (key_known_run s _ Hfp) in H.
  cbv beta iota in H. apply bind_ok in H as (c & s1 & H1 & H).
  assert (s1 = s ∧ inviting chat s = (λ c, {| in_channel := bool_decide (chat_typ c = Chattype.OutBroadcast);
    in_name := chat_name c; in_grpid := chat_grpid c |}) <$> c
    ∧ ∀ id, chat = Some id → is_Some (chats (db s) !! id)) as (-> & Hw & Hsome).
  { destruct chat as [id|]; [|injection H1 as <- <-; by split_and!].
    apply bind_ok in H1 as (c' & s2 & H1 & H2). injection H2 as <- <-.
    apply load_inviting_chat_ok in H1 as (-> & row & Hr & H1 & H2 & H3).
    split; [done|]. split; [|intros ? [= <-]; by rewrite Hr]. unfold inviting, what_of. simpl.
    rewrite Hr. simpl. by rewrite H1, H2, H3. }
  split; [done|]. cbv zeta in H.
  destruct (invitation_codes now (chat_grpid <$> c) s Hfresh) as (number & s2 & E & Hd & Hnum & Htok).
  replace (default [] (chat_grpid <$> c)) with (default [] (in_grpid <$> inviting chat s)) in Htok
    by (rewrite Hw; by destruct c).
  apply bind_ok in H as (v1 & t1 & G1 & H). unfold bind at 1 in E. rewrite G1 in E.
  apply bind_ok in H as (v2 & t2 & G2 & H). unfold bind at 1 in E. rewrite G2 in E.
  apply bind_ok in H as (v3 & t3 & G3 & H). unfold bind at 1 in E. rewrite G3 in E.
  apply bind_ok in H as (v4 & t4 & G4 & H). unfold bind at 1 in E. rewrite G4 in E.
  injection E as -> -> ->. clear G1 G2 G3 G4.
  unfold bind at 1 in H. rewrite (key_known_run s2 (hex fp)) in H by congruence. cbv beta iota in H.
  apply bind_ok in H as (a & s3 & G & H). unfold in_db, get_primary_self_addr in G.
  rewrite Hd, Haddr in G. injection G as <- <-. replace (upd_db (λ _, db s) s2) with s2 in H
    by (rewrite <-Hd; by destruct s2).
  apply bind_ok in H as (name & s3 & G & H).
  apply in_account_tokens in G as [Hd3 Ht3]; [|intros; apply get_config_tokens].
  exists number, (default [] name). rewrite link_text, Hw.
  destruct c as [c|]; apply bind_ok in H as ([] & s4 & G & H);
    (apply in_account_tokens in G as [Hd4 Ht4]; [|intros; apply sync_tokens_frame]);
    injection H as <- <-; (split_and!; [by simpl; try case_bool_decide|congruence|done|]);
    rewrite Ht4, Ht3; by rewrite Hw in Htok.
Qed.

Lemma valid_id_fields s : validate_id s = true → Forall field_char s.
Proof. unfold validate_id. rewrite !andb_true_iff. intros [[H _] _]. by apply base64url_fields. Qed.

Lemma encoded_fields s : Forall field_char (percent_encode s).
Proof.
  eapply list.Forall_impl; [apply encoded_chars|]. intros c [H|[->| ->]]; [by apply base64url_field|done..].
Qed.

Lemma url_encoded_fields s : Forall field_char (url_encode percent_encode s).
Proof. apply replace_chars; [by repeat constructor|apply encoded_fields]. Qed.

Lemma invite_fields_plain what number auth addr self_name :
  validate_id number = true → validate_id auth = true →
  (∀ w, what = Some w → validate_id (in_grpid w) = true) →
  Forall plain_field (invite_fields what number auth addr self_name).
Proof.
  intros Hn%valid_id_fields Ha%valid_id_fields Hg.
  pose proof (encoded_fields addr). pose proof url_encoded_fields.
  assert (Forall field_char (lit "3")) by (apply (bool_decide_unpack _); by vm_compute).
  assert (∀ k v, Forall field_char v → bool_decide (Forall field_char (lit k) ∧ (EQ ∉ lit k)) = true →
    plain_field (k, v)) as Hk.
  { intros k v Hv [Hk1 Hk2]%bool_decide_eq_true. by split_and!. }
  destruct what as [[[] name grpid]|]; [pose proof (valid_id_fields _ (Hg _ eq_refl)) as Hg'; simpl in Hg'..|];
    cbn [invite_fields in_channel in_grpid in_name];
    repeat (apply list.Forall_cons; split; [apply Hk; [by auto|by vm_compute]|]);
    apply list.Forall_nil_2.
Qed.

(** An account that can invite: its key and address, and identifiers that pass for ones. *)
Record inviting_account (fp : Fingerprint) (addr : str) (chat : option ChatId) (s : Core) : Prop := {
  ia_fp : valid_fingerprint fp;
  ia_key : self_fingerprint_opt (db s) = Some (hex fp);
  ia_addr : configured_addr (db s) = Some addr;
  ia_proper : proper_addr addr;
  ia_fresh : fresh_ids s;
  ia_random n : validate_id (random_id n) = true;
  ia_tokens : Forall (λ r, validate_id (tk_token r) = true) (tokens (account s));
  ia_grpid id row : chat = Some id → chats (db s) !! id = Some row → validate_id (ch_grpid row) = true
}.

(** What is known of an invitation once it is made. *)
Lemma invitation_plain now chat s link s' fp addr :
  get_securejoin_qr percent_encode now chat s = (Ok link, s') → inviting_account fp addr chat s →
  ∃ number auth self_name,
    link = link_of (hex fp) (invite_fields (inviting chat s) number auth addr self_name)
    ∧ db s' = db s ∧ validate_id number = true ∧ validate_id auth = true
    ∧ (∀ w, inviting chat s = Some w → validate_id (in_grpid w) = true)
    ∧ (auth ∉ tk_token <$> tokens (account s)) ∧ number ≠ auth
    ∧ invitation_tokens now (default [] (in_grpid <$> inviting chat s)) number auth
        (tokens (account s)) (tokens (account s')).
Proof.
  intros H [Hv Hk Ha Hp Hf Hr Ht Hg].
  destruct (invitation_made _ _ _ _ _ _ _ H Hk Ha Hf) as (_ & number & self_name & -> & Hd & Hn & Htok).
  exists number, (random_id (S (tape s))), self_name. split_and!; try done.
  - destruct Hn as [->|(r & -> & Hin)%list_elem_of_fmap]; [done|]. rewrite list.Forall_forall in Ht. auto.
  - unfold inviting. destruct chat as [id|]; [|done]. simpl. intros w.
    destruct (chats (db s) !! id) as [row|] eqn:E; [|done]. intros [= <-]. by eapply Hg.
  - apply Hf.
  - destruct Hf as [_ [_ Hf] Hne]. destruct Hn as [->|Hn]; [congruence|]. by intros ->.
Qed.

Lemma check_invitation fp what number auth addr self_name s :
  valid_fingerprint fp → proper_addr addr → validate_id number = true → validate_id auth = true →
  (∀ w, what = Some w → validate_id (in_grpid w) = true) →
  check_qr (NodeAddr := NodeAddr) (link_of (hex fp) (invite_fields what number auth addr self_name)) s
  = decode_invitation addr fp (shown_name (shorten_name self_name (self_length what))) number auth
      (in_grpid <$> what)
      (w ← what; if in_channel w then None else Some (shown_name (shorten_name (in_name w) 25)))
      (w ← what; if in_channel w then Some (shown_name (shorten_name (in_name w) 25)) else None)
      true s.
Proof.
  intros Hfp Ha Hn Hs Hg. rewrite <-decode_invite_fields by done.
  pose proof (invite_fields_plain what number auth addr self_name Hn Hs Hg) as Hpl.
  destruct (invite_fields what number auth addr self_name) as [|f l] eqn:E;
    [by destruct what|]. by rewrite scan_link.
Qed.

(** C18. Whoever scans an invitation is asked exactly for what was invited to: the code stands for
    the inviter's key and address, for the chat with its identifier and its name (shortened, with an
    ellipsis), and for an invite number and a code that the inviter accepts for this chat; the inviter
    becomes a contact with that key, and joining starts the protocol with it. *)
Theorem invitation_arrives {SD : Sending} {RD : Rendering} {JQ : Json QrInvite}
  now now' chat sA link sA' fp addr sB :
  get_securejoin_qr percent_encode now chat sA = (Ok link, sA') → inviting_account fp addr chat sA →
  stranger addr fp sB →
  ∃ i invite sB',
    check_qr (NodeAddr := NodeAddr) link sB = (Ok (scanned (inviting chat sA) i), sB')
    ∧ i_fingerprint i = fp ∧ i_addrs i = [addr] ∧ i_is_v3 i = true
    ∧ (∃ r, r ∈ tokens (account sA') ∧ tk_namespc r = Namespace.InviteNumber
         ∧ tk_token r = i_invitenumber i ∧ tk_foreign_key r = default [] (in_grpid <$> inviting chat sA))
    ∧ (∃ r, r ∈ tokens (account sA') ∧ tk_namespc r = Namespace.Auth
         ∧ tk_token r = i_authcode i ∧ tk_foreign_key r = default [] (in_grpid <$> inviting chat sA))
    ∧ (∃ row, row ∈ contacts (db sB') ∧ c_id row = i_contact_id i ∧ c_fingerprint row = hex fp)
    ∧ QrInvite_try_from (scanned (inviting chat sA) i) = Some invite
    ∧ securejoin (NodeAddr := NodeAddr) now' link sB = start_protocol now' invite sB'.
Proof.
  intros H Hia Hs.
  destruct (invitation_plain _ _ _ _ _ _ _ H Hia)
    as (number & auth & self_name & -> & _ & Hn & Ha & Hg & _ & _ & l1 & Htok & Hl1).
  destruct Hia as [Hfp _ _ Hp _ _ _ _].
  destruct (stranger_decodes addr fp (shown_name (shorten_name self_name (self_length (inviting chat sA))))
    number auth (inviting chat sA) sB Hp Hs) as (id & sB' & E & _ & Hrow).
  rewrite <-(check_invitation fp (inviting chat sA) number auth addr self_name) in E by done.
  set (i := {| i_contact_id := id; i_fingerprint := fp; i_addrs := [addr]; i_invitenumber := number;
    i_authcode := auth; i_is_v3 := true |}) in *.
  assert (∃ invite, QrInvite_try_from (scanned (inviting chat sA) i) = Some invite) as [invite Hi].
  { unfold scanned. destruct (inviting chat sA) as [[[] ? ?]|]; simpl; eauto. }
  exists i, invite, sB'. rewrite Htok. split_and!; try done.
  - destruct Hl1 as [(-> & r & ? & ? & ? & ?)| ->].
    + exists r. rewrite elem_of_app. by split_and!; [left|..].
    + eexists. rewrite !elem_of_app, list_elem_of_singleton. split; [left; right; reflexivity|done].
  - eexists. rewrite elem_of_app, list_elem_of_singleton. split; [right; reflexivity|done].
  - unfold securejoin, bind at 1. rewrite E. cbv beta iota. by rewrite Hi.
Qed.

(** ** Own invitations *)

Definition own_scanned (what : option invited) (known : bool) (o : own_code) : Qr NodeAddr :=
  match what with
  | None => if known then Qr.WithdrawVerifyContact o else Qr.ReviveVerifyContact o
  | Some w =>
      let name := shown_name (shorten_name (in_name w) 25) in
      match in_channel w, known with
      | true, true => Qr.WithdrawJoinBroadcast o name (in_grpid w)
      | true, false => Qr.ReviveJoinBroadcast o name (in_grpid w)
      | false, true => Qr.WithdrawVerifyGroup o name (in_grpid w)
      | false, false => Qr.ReviveVerifyGroup o name (in_grpid w)
      end
  end.

Definition knows_code (auth : str) (l : list token_row) : bool :=
  existsb (λ r, bool_decide (tk_namespc r = Namespace.Auth) && bool_decide (tk_token r = auth)) l.

Lemma owner_decodes addr fp self name number auth what s :
  proper_addr addr → configured_addr (db s) = Some addr → transport_addrs (db s) ≠ [] →
  self_fingerprint_opt (db s) = Some self →
  decode_invitation (NodeAddr := NodeAddr) addr fp name number auth (in_grpid <$> what)
      (w ← what; if in_channel w then None else Some (shown_name (shorten_name (in_name w) 25)))
      (w ← what; if in_channel w then Some (shown_name (shorten_name (in_name w) 25)) else None)
      true s
  = (Ok (own_scanned what (knows_code auth (tokens (account s)))
       {| o_contact_id := SELF; o_fingerprint := fp; o_invitenumber := number; o_authcode := auth |}), s).
Proof.
  intros Ha Hc Ht Hk.
  assert (is_self_addr str_to_lowercase addr (db s) = (Ok true, db s)) as Hself.
  { unfold is_self_addr, gets. rewrite Hc. simpl. unfold addr_cmp.
    by rewrite (bool_decide_eq_false_2 _ (proper_not_nil _ Ha)), bool_decide_eq_true_2. }
  unfold decode_invitation, ok_or. rewrite proper_contact_addr by done.
  unfold bind at 1, ret at 1. cbv beta iota. unfold bind at 1.
  rewrite (in_db_run _ s (SELF, Unmodified) (db s)).
  - replace (upd_db (λ _, db s) s) with s by (by destruct s). cbv beta iota zeta. simpl.
    unfold bind at 1. rewrite (in_db_run _ s true (db s) Hself).
    replace (upd_db (λ _, db s) s) with s by (by destruct s). cbv beta iota.
    unfold and_then, bind, in_account, token_exists, gets, ret.
    replace (upd_account (λ _, account s) s) with s by (by destruct s). fold (knows_code auth (tokens (account s))).
    destruct what as [[[] ? ?]|]; simpl; by destruct (knows_code auth (tokens (account s))).
  - rewrite (add_or_lookup_run _ _ _ _ _ _ (db s) self); [|by left; apply proper_not_nil|done|done].
    unfold own. rewrite Hself. by rewrite (bool_decide_eq_false_2 _ Ht).
Qed.

Context {WO : World} (config_defaults : Provider -> list (Config * str))
  (pre_sending_config_change : bool -> bool -> A unit) (maybe_send_stats : A unit).
Local Abbreviation set_config_from_qr :=
  (set_config_from_qr (NodeAddr := NodeAddr) config_defaults pre_sending_config_change maybe_send_stats).

(** Operations on the tokens and on the queue of items for the other devices do not fail, and the
    latter do not touch the tokens. *)
Definition runs {X} (x : A X) : Prop := ∀ a, ∃ v a', x a = (Ok v, a') ∧ tokens a' = tokens a.

Lemma runs_ret {X} (v : X) : runs (ret v).
Proof. intros a. by exists v, a. Qed.
Lemma runs_gets {X} (f : Config.Account -> X) : runs (gets f).
Proof. intros a. by exists (f a), a. Qed.
Lemma runs_modify f : (∀ a, tokens (f a) = tokens a) → runs (modify f).
Proof. intros Hf a. eexists _, _. split; [reflexivity|]. apply Hf. Qed.
Lemma runs_bind {X Y} (x : A X) (k : X -> A Y) : runs x → (∀ v, runs (k v)) → runs (bind x k).
Proof.
  intros Hx Hk a. destruct (Hx a) as (v & a1 & E1 & H1). destruct (Hk v a1) as (w & a2 & E2 & H2).
  exists w, a2. unfold bind. rewrite E1. split; [done|congruence].
Qed.
Lemma runs_and_then b (x : A bool) : runs x → runs (and_then b x).
Proof. intros Hx. destruct b; [done|apply runs_ret]. Qed.
Lemma runs_raw k : runs (get_raw_config k).
Proof. intros a. unfold get_raw_config. destruct (config_cache a !! k); by eexists _, _. Qed.
Create HintDb runs.
#[local] Hint Resolve runs_ret runs_gets runs_modify runs_bind runs_and_then runs_raw : runs.

Lemma runs_config_opt key : runs (get_config_opt key).
Proof. unfold get_config_opt. destruct (env_var _); [auto with runs|]. destruct key; auto with runs. Qed.
#[local] Hint Resolve runs_config_opt : runs.
Lemma runs_config key : runs (get_config key).
Proof.
  apply runs_bind; [auto with runs|]. intros [v|]; [auto with runs|]. destruct key; auto with runs.
Qed.
#[local] Hint Resolve runs_config : runs.
Lemma runs_should_send : runs should_send_sync_msgs.
Proof. unfold should_send_sync_msgs, get_config_bool. auto 12 with runs. Qed.
#[local] Hint Resolve runs_should_send : runs.
Lemma runs_sync_item now d : runs (add_sync_item now d).
Proof.
  apply runs_bind; [auto with runs|]. intros b. unfold insert_sync_item.
  destruct b; simpl; auto with runs.
Qed.
#[local] Hint Resolve runs_sync_item : runs.
Lemma runs_sync_tokens now key : runs (sync_qr_code_tokens now key).
Proof.
  apply runs_bind; [auto with runs|]. intros b. unfold lookup_token. destruct b; simpl; [|auto with runs].
  apply runs_bind; [auto with runs|]. intros i. apply runs_bind; [auto with runs|]. intros o.
  destruct i, o; auto with runs.
Qed.

Lemma runs_in_account {X} (x : A X) s :
  runs x → ∃ v s', in_account x s = (Ok v, s') ∧ db s' = db s
    ∧ tokens (account s') = tokens (account s).
Proof.
  intros Hx. destruct (Hx (account s)) as (v & a & E & H). unfold in_account. rewrite E.
  by eexists _, _.
Qed.

(** The foreign key of the codes of an invitation. *)
Definition code_key (what : option invited) : str := default [] (in_grpid <$> what).

(** What the two kinds of own codes do. *)
Lemma set_config_own now link what known o s :
  check_qr (NodeAddr := NodeAddr) link s = (Ok (own_scanned what known o), s) →
  set_config_from_qr now link s
  = (if known then withdraw now (code_key what) (o_invitenumber o) (o_authcode o)
     else revive now (in_grpid <$> what) (o_invitenumber o) (o_authcode o)) s.
Proof.
  intros E. unfold QrCode.set_config_from_qr, bind at 1. rewrite E.
  destruct what as [[[] ? ?]|], known; reflexivity.
Qed.

Lemma withdraw_run now key number auth s :
  ∃ s', withdraw now key number auth s = (Ok tt, s') ∧ db s' = db s
    ∧ tokens (account s') = filter (λ r, tk_foreign_key r ≠ key) (tokens (account s)).
Proof.
  unfold withdraw, bind at 1, in_account at 1, delete_tokens, modify.
  destruct (runs_in_account (sync_qr_code_token_deletion now number auth)
    (upd_account (λ _, upd_tokens (filter (λ r, tk_foreign_key r ≠ key)) (account s)) s))
    as ([] & s' & E & Hd & Ht); [apply runs_sync_item|].
  exists s'. split; [exact E|]. done.
Qed.

Lemma revive_run now key number auth s :
  auth ≠ [] → number ≠ auth → auth ∉ tk_token <$> tokens (account s) →
  ∃ s' l, revive now key number auth s = (Ok tt, s') ∧ db s' = db s
    ∧ (l = tokens (account s)
       ∨ l = tokens (account s) ++ [code_row Namespace.InviteNumber (default [] key) number now])
    ∧ tokens (account s') = l ++ [code_row Namespace.Auth (default [] key) auth now].
Proof.
  intros Hn Hne Ha. unfold revive, bind at 1. unfold in_account at 1.
  assert (∃ l, save_token Namespace.InviteNumber key number now (account s) = (Ok tt, upd_tokens (λ _, l) (account s))
    ∧ (l = tokens (account s)
       ∨ l = tokens (account s) ++ [code_row Namespace.InviteNumber (default [] key) number now]))
    as (l & E & Hl).
  { unfold save_token. destruct (bool_decide (number = [])).
    - exists (tokens (account s)). split; [by destruct (account s)|by left].
    - destruct (decide (number ∈ tk_token <$> tokens (account s))) as [Hb|Hb].
      + exists (tokens (account s)). split; [|by left]. unfold modify. f_equal.
        destruct (account s). unfold upd_tokens. simpl in *. by rewrite bool_decide_eq_true_2.
      + eexists. split; [|by right]. unfold modify. f_equal.
        destruct (account s). unfold upd_tokens. simpl in *. by rewrite bool_decide_eq_false_2. }
  rewrite E. unfold bind at 1, in_account at 1. simpl.
  rewrite save_new_token; [|done|].
  - destruct (runs_in_account (sync_qr_code_tokens now key) (upd_account (λ _, upd_tokens (λ _,
      l ++ [code_row Namespace.Auth (default [] key) auth now]) (upd_tokens (λ _, l) (account s))) s))
      as ([] & s' & E' & Hd & Ht); [apply runs_sync_tokens|].
    exists s', l. split; [exact E'|]. done.
  - simpl. destruct Hl as [->| ->]; [done|]. rewrite fmap_app, elem_of_app.
    intros [H|H]; [done|]. apply list_elem_of_singleton in H. by simpl in H.
Qed.

Lemma knows_code_elem auth l :
  knows_code auth l = true ↔ ∃ r, r ∈ l ∧ tk_namespc r = Namespace.Auth ∧ tk_token r = auth.
Proof.
  unfold knows_code. rewrite existsb_exists. split.
  - intros (r & Hr & H). rewrite andb_true_iff, !bool_decide_eq_true in H.
    apply list_elem_of_In in Hr. eauto.
  - intros (r & Hr & H). exists r. rewrite andb_true_iff, !bool_decide_eq_true. by apply list_elem_of_In in Hr.
Qed.

Lemma unknown_code auth l : auth ∉ tk_token <$> l → knows_code auth l = false.
Proof.
  intros H. apply not_true_is_false. rewrite knows_code_elem. intros (r & Hr & _ & <-).
  apply H. by apply list_elem_of_fmap_2.
Qed.

(** The code of an invitation is the only one with its text. *)
Lemma invitation_code_new now key number auth l l' :
  auth ∉ tk_token <$> l → number ≠ auth → invitation_tokens now key number auth l l' →
  ∃ l1, l' = l1 ++ [code_row Namespace.Auth key auth now] ∧ (auth ∉ tk_token <$> l1).
Proof.
  intros Ha Hne (l1 & -> & Hl1). exists l1. split; [done|].
  destruct Hl1 as [[-> _]| ->]; [done|]. rewrite fmap_app, elem_of_app. intros [H|H]; [done|].
  apply list_elem_of_singleton in H. by simpl in H.
Qed.

Lemma find_missing auth s : auth ∉ tk_token <$> tokens (account s) → find_auth_token auth s = None.
Proof.
  intros H. unfold find_auth_token. destruct (head _) as [r|] eqn:E; [|done].
  apply head_Some_elem_of, list_elem_of_filter in E as [[_ <-] Hr]. destruct H. by apply list_elem_of_fmap_2.
Qed.

Lemma find_appended key auth t l s :
  tokens (account s) = l ++ [code_row Namespace.Auth key auth t] → auth ∉ tk_token <$> l →
  find_auth_token auth s = Some (code_row Namespace.Auth key auth t).
Proof.
  intros Hs Hl. unfold find_auth_token. rewrite Hs, list.filter_app.
  assert (filter (λ t, tk_namespc t = Namespace.Auth ∧ tk_token t = auth) l = []) as ->.
  { destruct (filter _ l) as [|r l'] eqn:E; [done|]. assert (r ∈ r :: l') as Hr by left.
    rewrite <-E in Hr. apply list_elem_of_filter in Hr as [[_ <-] Hr]. destruct Hl. by apply list_elem_of_fmap_2. }
  simpl. rewrite filter_cons, decide_True by done. done.
Qed.

Lemma without_key key row l1 auth :
  tk_foreign_key row = key → auth ∉ tk_token <$> l1 →
  auth ∉ tk_token <$> filter (λ r, tk_foreign_key r ≠ key) (l1 ++ [row]).
Proof.
  intros Hk Hl (r & -> & [Hr Hin]%list_elem_of_filter)%list_elem_of_fmap.
  apply elem_of_app in Hin as [Hin|Hin]; [destruct Hl; by apply list_elem_of_fmap_2|].
  apply list_elem_of_singleton in Hin. by subst.
Qed.

(** The owner who scans an invitation that is valid withdraws it: its code, the invite number
    and all other codes of the same chat are no longer known, so that nobody joins with them, and
    the codes of other chats stay; scanning the invitation again makes the same code valid again,
    for the same chat. *)
Theorem withdraw_and_revive now now1 now2 chat s link s1 fp addr :
  get_securejoin_qr percent_encode now chat s = (Ok link, s1) → inviting_account fp addr chat s →
  transport_addrs (db s) ≠ [] →
  let key := code_key (inviting chat s) in
  ∃ auth s2 s3 r,
    find_auth_token auth s1 = Some r ∧ tk_foreign_key r = key
    ∧ set_config_from_qr now1 link s1 = (Ok tt, s2)
    ∧ tokens (account s2) = filter (λ r, tk_foreign_key r ≠ key) (tokens (account s1))
    ∧ find_auth_token auth s2 = None
    ∧ set_config_from_qr now2 link s2 = (Ok tt, s3)
    ∧ find_auth_token auth s3 = Some (code_row Namespace.Auth key auth now2).
Proof.
  intros H Hia Htr key.
  destruct (invitation_plain _ _ _ _ _ _ _ H Hia)
    as (number & auth & self_name & -> & Hd & Hn & Ha & Hg & Hfresh & Hne & Htok).
  destruct Hia as [Hfp Hk Hc Hp _ _ _ _].
  set (o := {| o_contact_id := SELF; o_fingerprint := fp; o_invitenumber := number; o_authcode := auth |}).
  assert (∀ s', db s' = db s → check_qr (NodeAddr := NodeAddr)
    (link_of (hex fp) (invite_fields (inviting chat s) number auth addr self_name)) s'
    = (Ok (own_scanned (inviting chat s) (knows_code auth (tokens (account s'))) o), s')) as Hscan.
  { intros s' Hs'. rewrite check_invitation by done. by eapply owner_decodes; rewrite ?Hs'. }
  destruct (invitation_code_new _ _ _ _ _ _ Hfresh Hne Htok) as (l1 & Ht1 & Hl1).
  fold key in Ht1. change (default [] (in_grpid <$> inviting chat s)) with key in Ht1.
  pose proof (without_key key (code_row Namespace.Auth key auth now) l1 auth eq_refl Hl1) as Hgone.
  rewrite <-Ht1 in Hgone.
  destruct (withdraw_run now1 key number auth s1) as (s2 & E2 & Hd2 & Ht2). rewrite <-Ht2 in Hgone.
  destruct (revive_run now2 (in_grpid <$> inviting chat s) number auth s2) as (s3 & l & E3 & _ & Hl & Ht3);
    [intros ->; by vm_compute in Ha|done|done|].
  exists auth, s2, s3, (code_row Namespace.Auth key auth now). split_and!; try done.
  - by eapply find_appended.
  - erewrite set_config_own; [|by apply Hscan].
    assert (knows_code auth (tokens (account s1)) = true) as ->; [|exact E2].
    apply knows_code_elem. eexists. rewrite Ht1, elem_of_app. split; [right; by left|done].
  - by apply find_missing.
  - erewrite set_config_own; [|apply Hscan; congruence]. by rewrite unknown_code.
  - eapply find_appended; [exact Ht3|]. destruct Hl as [->| ->]; [done|].
    rewrite fmap_app, elem_of_app. intros [?|Hx]; [done|]. apply list_elem_of_singleton in Hx. by simpl in Hx.
Qed.
End Scanning.

(** ** Proxies *)

Section Proxies.
Context {PF : Platform} {OS : Outside} {UR : Urls} {SU : Signup} {JS : Json SyncItem}
  {JE : Json EnteredLoginParam} {JC : Json ConfiguredLoginParamJson}.

(** No setting is overridden by the environment. *)
Hypothesis no_env : ∀ key, env_var (lit "DELTACHAT_" ++ str_to_uppercase (key_name key)) = None.

Definition legacy_keys : list str :=
  lit <$> ["socks5_enabled"; "socks5_host"; "socks5_port"; "socks5_user"; "socks5_password"]%string.

(** Once there is a list of proxies, the older settings are dropped. *)
Lemma migrate_drops_legacy a v :
  coherent a → config a !! lit "proxy_url" = Some v →
  ∃ a', migrate_socks_config a = (Ok tt, a') ∧ coherent a'
    ∧ ∀ k, k ∉ legacy_keys → config a' !! k = config a !! k.
Proof.
  intros Ha Hv. pose proof (get_raw_config_reads (lit "proxy_url") a Ha) as (E & Hc & H1 & _ & _).
  unfold migrate_socks_config, bind at 1.
  destruct (get_raw_config (lit "proxy_url") a) as [r a1]. simpl in *. subst r. rewrite Hv. cbv beta iota.
  set (x := set_raw_config _ _ ;;; _).
  assert (preserves coherent x) as Hx.
  { subst x. preserves_tac; apply set_raw_config_coherent. }
  specialize (Hx a1 Hc). eexists. split; [reflexivity|]. split; [exact Hx|].
  intros k Hk. unfold bind, ret. subst x. unfold set_raw_config. run_se. simpl.
  unfold legacy_keys in Hk. rewrite !fmap_cons, !not_elem_of_cons in Hk.
  destruct Hk as (? & ? & ? & ? & ? & _).
  rewrite !lookup_partial_alter_ne by congruence. by rewrite H1.
Qed.

(** The settings after a proxy is added. *)
Lemma set_config_plain pre stats now key v a a' :
  coherent a → key ≠ Config.Selfavatar → key ≠ Config.ConfiguredAddr → key ≠ Config.StatsSending →
  set_config pre stats now key (Some v) a = (Ok tt, a') →
  coherent a' ∧ config a' = partial_alter (λ _, stored_value key (Some v)) (key_name key) (config a).
Proof.
  intros Ha H1 H2 H3 H. unfold set_config in H. apply bind_ok in H as ([] & a1 & E1 & H).
  assert (a1 = a) as ->.
  { assert ((check_config key (Some v) a).2 = a) as Hc
      by (unfold check_config; destruct key; by repeat case_match). by rewrite E1 in Hc. }
  rewrite (bool_decide_eq_false_2 _ H3) in H.
  apply bind_ok in H as (u & a1 & E2 & H). injection E2 as <- <-.
  apply bind_ok in H as ([] & a2 & E3 & H). injection H as <-. unfold set_config_internal in E3.
  split.
  - pose proof (set_config_ex_coherent now true key (Some v) H2 a Ha) as Hc. by rewrite E3 in Hc.
  - by apply set_config_ex_table in E3.
Qed.

(** A setting that is neither computed nor overridden is what is stored. *)
Lemma setting_plain key c :
  key = Config.ProxyUrl ∨ key = Config.ProxyEnabled → setting key c = c !! key_name key.
Proof.
  intros Hk. unfold setting, shown_value. rewrite no_env. destruct Hk as [->| ->]; by destruct (c !! _).
Qed.

Lemma first_of_join (x : str) l :
  (LF ∉ x) → (match split_once LF (join [LF] (x :: l)) with Some (f, _) => f | None => join [LF] (x :: l) end) = x.
Proof.
  intros Hx. destruct l as [|y l]; simpl.
  - by rewrite split_once_absent.
  - change ([LF] ++ ?z) with (LF :: z). by rewrite split_once_app.
Qed.

(** A scanned proxy is the one that is used, and the ones that were there are kept after it. *)
Theorem scanned_proxy_is_used pre stats now url c s s' :
  coherent (account s) → ProxyConfig_from_url url = Some c →
  ProxyConfig_from_url (ProxyConfig_to_url c) = Some c → (LF ∉ ProxyConfig_to_url c) →
  add_proxy pre stats now url s = (Ok tt, s') →
  (ProxyConfig_load (account s')).1 = Ok (Some c)
  ∧ config (account s') !! key_name Config.ProxyUrl
    = Some (join [LF] (ProxyConfig_to_url c
        :: filter (λ x, x ≠ [] ∧ x ≠ ProxyConfig_to_url c)
             (split_char LF (default [] (config (account s) !! key_name Config.ProxyUrl))))).
Proof.
  intros Ha Hc Hback Hlf H. unfold add_proxy in H. apply bind_ok in H as (old & s1 & E1 & H).
  apply in_account_ok in E1 as (a1 & E1 & ->).
  pose proof (get_config_reads Config.ProxyUrl (account s) Ha) as (Hr & Ha1 & Hc1 & _).
  rewrite E1 in Hr, Ha1, Hc1. simpl in Hr, Ha1, Hc1. injection Hr as ->.
  unfold bind at 1, ok_or in H. rewrite Hc in H. unfold ret in H. cbv beta iota zeta in H.
  apply bind_ok in H as ([] & s2 & E2 & E3). apply in_account_ok in E2 as (a2 & E2 & ->).
  apply in_account_ok in E3 as (a3 & E3 & ->).
  cbn [account upd_account] in *. apply set_config_plain in E2 as [Ha2 Hc2]; [|done..].
  apply set_config_plain in E3 as [Ha3 Hc3]; [|done..].
  rewrite setting_plain in Hc2 by auto. rewrite Hc1 in Hc2. simpl in Hc2, Hc3.
  match goal with |- _ ∧ _ = Some (join _ ?u) => set (urls := u) in * end.
  assert (config a3 !! key_name Config.ProxyUrl = Some (join [LF] urls)) as Hurl.
  { rewrite Hc3, lookup_partial_alter_ne by (by vm_compute). rewrite Hc2. by rewrite lookup_partial_alter_eq. }
  assert (config a3 !! key_name Config.ProxyEnabled = Some (lit "1")) as Hen
    by (rewrite Hc3; by rewrite lookup_partial_alter_eq).
  split; [|exact Hurl]. unfold ProxyConfig_load, bind at 1.
  destruct (migrate_drops_legacy a3 _ Ha3 Hurl) as (a4 & -> & Ha4 & H4). unfold bind at 1.
  pose proof (get_config_bool_reads Config.ProxyEnabled a4 Ha4) as (E4 & Ha5 & Hc5 & _).
  destruct (get_config_bool Config.ProxyEnabled a4) as [r a5]. simpl in E4, Ha5, Hc5. subst r.
  assert (flag Config.ProxyEnabled (config a4) = true) as ->.
  { unfold flag. rewrite setting_plain by auto. rewrite H4 by (apply (bool_decide_unpack _); by vm_compute). by rewrite Hen. }
  unfold bind at 1. cbv beta iota delta [negb].
  pose proof (get_config_reads Config.ProxyUrl a5 Ha5) as (E6 & _).
  destruct (get_config Config.ProxyUrl a5) as [r a6]. simpl in E6. subst r.
  rewrite setting_plain by auto. rewrite Hc5, H4 by (apply (bool_decide_unpack _); by vm_compute). rewrite Hurl.
  unfold default, id, urls; cbv zeta. rewrite first_of_join by done. unfold bind, ok_or. by rewrite Hback.
Qed.
End Proxies.

(** ** Concrete runs *)

(** A coding of texts with the characters that links allow: each character as its decimal code
    between a percent sign and a dot. *)
Definition sample_encode (s : str) : str := s ≫= (λ c, 37%N :: print_N c ++ [46%N]).

Fixpoint sample_decode_pieces (l : list str) : option str :=
  match l with
  | [[]] => Some []
  | (_ :: d) :: l' => c ← parse_digits1 d; s ← sample_decode_pieces l'; Some (c :: s)
  | _ => None
  end.

Definition sample_decode (s : str) : option str := sample_decode_pieces (split_char 46 s).

Lemma sample_decode_encode s : sample_decode (sample_encode s) = Some s.
Proof.
  unfold sample_decode, sample_encode. induction s as [|c s IH]; [done|].
  rewrite bind_cons. change ((37%N :: ?x ++ [46%N]) ++ ?y) with (37%N :: (x ++ [46%N]) ++ y).
  rewrite <-app_assoc. change (37%N :: print_N c ++ [46%N] ++ ?y) with ((37%N :: print_N c) ++ 46%N :: y).
  rewrite split_char_app.
  - cbn [sample_decode_pieces]. rewrite parse_print_N. simpl. by rewrite IH.
  - unfold no_sep. rewrite not_elem_of_cons. split; [done|by apply print_N_no_sep].
Qed.

Definition sample_urls : Urls :=
  {| url_parse := λ _, None; percent_encode_all := sample_encode; percent_decode := sample_decode;
     shadowsocks_from_url := λ _, None; base64_encode := λ s, s |}.

Definition sample_signup : Signup :=
  {| post_empty := λ _, None; parse_created := λ _, None; sample_username := lit "ab12cd34e";
     sample_password := lit "pw" |}.

(** Identifiers of eleven characters; two drawn in a row differ. *)
Definition invite_outside : Outside :=
  {| stock_str := λ _, []; random_id := λ n, lit (if Nat.even n then "abcdefghijk" else "lmnopqrstuv");
     random_uuid := λ n, print_N (N.of_nat n); key_addresses := λ _, None;
     generated_fingerprint := hex alice_fp |}.

(** Alice has the group 20. *)
Definition chess_club : chat_row :=
  {| ch_type := Chattype.Group; ch_name := lit "Chess club"; ch_grpid := lit "chessclub-1";
     ch_param := []; ch_created_timestamp := 1 |}.

Definition inviting_alice : Core :=
  upd_db (set_chats (<[20%N := chess_club]>))
    (upd_account (Config.upd_tokens (λ _, [])) alice).

Section InvitationWitnesses.
#[local] Instance PF : Platform := sample_platform.
#[local] Instance OS : Outside := invite_outside.
#[local] Instance UR : Urls := sample_urls.
#[local] Instance SU : Signup := sample_signup.
#[local] Instance SD : Sending := sample_sending.
#[local] Instance RD : Rendering := sample_rendering.
#[local] Instance WO : World :=
  {| w_provider_data := []; w_oauth2_addr := λ _ _, None; w_read_url := λ _ _, None;
     w_xml_events := λ _, []; w_percent_encode := λ s, s; w_connect := λ _, None |}.
#[local] Instance JS : Json SyncItem := opaque_json _.
#[local] Instance JE : Json EnteredLoginParam := opaque_json _.
#[local] Instance JC : Json ConfiguredLoginParamJson := opaque_json _.
#[local] Instance JN : Json unit := opaque_json _.
#[local] Instance JQ : Json QrInvite := opaque_json _.

#[local] Instance sample_coding : CodingOk sample_encode.
Proof.
  split.
  - apply sample_decode_encode.
  - intros s. unfold sample_encode. induction s as [|c s IH]; [constructor|].
    rewrite bind_cons. apply list.Forall_app. split; [|exact IH].
    constructor; [tauto|]. apply list.Forall_app. split; [|by repeat constructor; tauto].
    eapply list.Forall_impl; [apply print_N_digits|]. intros d. unfold is_digit, is_base64url. intros ->.
    left. by rewrite !orb_true_r.
  - done.
  - unfold upper_fixes_capitals. done.
Defined.

Lemma alice_inviting : inviting_account alice_fp (lit "alice@x.org") (Some 20%N) inviting_alice.
Proof.
  split.
  - split; [|by left]. apply list.Forall_replicate. by vm_compute.
  - reflexivity.
  - reflexivity.
  - split; by vm_compute.
  - split; [split|split|]; vm_compute; try done; by intros ?%elem_of_nil.
  - intros n. unfold random_id. simpl. by destruct (Nat.even n).
  - constructor.
  - intros id row [= <-] Hr. change (chats (db inviting_alice)) with
      (<[20%N := chess_club]> (chats (db alice))) in Hr. rewrite lookup_insert_eq in Hr.
    by injection Hr as <-.
Defined.

Lemma bob_stranger : stranger (lit "alice@x.org") alice_fp (bob []).
Proof.
  split.
  - split; [apply (bool_decide_unpack _); by vm_compute|by repeat constructor; vm_compute|].
    simpl. intros r r' Hr Hr'. rewrite !elem_of_cons, elem_of_nil in Hr, Hr'.
    destruct_or?; subst; try done; intros E _; by vm_compute in E.
  - by vm_compute.
  - exists (hex bob_fp). split; [done|]. by vm_compute.
  - by vm_compute.
Defined.

Definition alice_link : str :=
  match (get_securejoin_qr sample_encode 100 (Some 20%N) inviting_alice).1 with
  | Ok link => link
  | Err _ => []
  end.

Definition alice_invited : Core := (get_securejoin_qr sample_encode 100 (Some 20%N) inviting_alice).2.

Lemma invitation_arrives_witness :
  get_securejoin_qr sample_encode 100 (Some 20%N) inviting_alice = (Ok alice_link, alice_invited)
  ∧ ∃ i s', check_qr (NodeAddr := unit) alice_link (bob [])
      = (Ok (Qr.AskVerifyGroup i (lit "Chess club") (lit "chessclub-1")), s')
    ∧ i_fingerprint i = alice_fp.
Proof.
  assert (E : get_securejoin_qr sample_encode 100 (Some 20%N) inviting_alice
    = (Ok alice_link, alice_invited)) by (vm_compute; reflexivity).
  split; [exact E|].
  destruct (invitation_arrives (NodeAddr := unit) sample_encode 100 200 (Some 20%N) inviting_alice
    alice_link alice_invited alice_fp (lit "alice@x.org") (bob []) E alice_inviting bob_stranger)
    as (i & invite & s' & H & Hf & _).
  exists i, s'. split; [exact H|exact Hf].
Defined.

Lemma withdraw_and_revive_witness :
  ∃ auth s2, set_config_from_qr (NodeAddr := unit) (λ _, []) (λ _ _, ret tt) (ret tt) 101 alice_link
      alice_invited = (Ok tt, s2)
    ∧ find_auth_token auth alice_invited ≠ None ∧ find_auth_token auth s2 = None.
Proof.
  assert (E : get_securejoin_qr sample_encode 100 (Some 20%N) inviting_alice
    = (Ok alice_link, alice_invited)) by (vm_compute; reflexivity).
  destruct (withdraw_and_revive (NodeAddr := unit) sample_encode (λ _, []) (λ _ _, ret tt) (ret tt)
    100 101 102 (Some 20%N) inviting_alice alice_link alice_invited alice_fp (lit "alice@x.org")
    E alice_inviting ltac:(vm_compute; discriminate)) as (auth & s2 & s3 & r & Hr & _ & H & _ & Hn & _).
  exists auth, s2. split; [exact H|]. split; [rewrite Hr; discriminate|exact Hn].
Defined.

(** A name that ends in an underscore is shown with an ellipsis, although nothing was cut off. *)
Example underscore_becomes_ellipsis :
  shown_name (shorten_name (lit "snake_case_") 25) = lit "snake_case" ++ [8230%N].
Proof. vm_compute. reflexivity. Qed.

(** A scanned code with slashes is shown as an account at the host, but the address that is made from
    it keeps the slashes. *)
Example account_with_slashes :
  let qr := lit "dcaccount://example.org" in
  (check_qr (NodeAddr := unit) qr (bob [])).1 = Ok (Qr.Account (lit "example.org"))
  ∧ (λ p, e_addr p) <$> match (login_param_from_account_qr qr (bob [])).1 with
       | Ok p => Some p | Err _ => None end = Some (lit "ab12cd34e@//example.org").
Proof. vm_compute. done. Qed.
End InvitationWitnesses.
