(* ===== verification/Location.v ===== *)
(** Location: location streaming (src/src/location.rs) and the parts of composing and receiving a
    message that carry locations (src/src/mimefactory.rs, src/src/chat.rs,
    src/src/receive_imf.rs). *)
From stdpp Require Import sorting.
From S2P Require Import Prelude Monad Ids ContactTools LoginParam Autoconfig Config.

(** What the code takes from Rust's [f64] and the crates chrono and quick_xml: printing and parsing
    numbers, printing and parsing times (printing panics beyond the years it can represent), and the
    stream of events of an XML text, trimmed. *)
Class Geo := {
  f64 : Type;
  zero_f64 : f64;
  is_zero : f64 -> bool;
  parse_f64 : str -> option f64;
  print_f64 : f64 -> str;
  format_utc : Z -> option str;
  parse_utc : str -> option Z;
  xml_events : str -> reader
}.

Section Kml.
Context `{!Platform, !Geo}.

(** [struct Location]. *)
Record Location := {
  location_id : N;
  latitude : f64;
  longitude : f64;
  accuracy : f64;
  timestamp : Z;
  contact_id : ContactId;
  msg_id : N;
  chat_id : ChatId;
  marker : option str;
  independent : N
}.

Definition Location_new : Location :=
  {| location_id := 0; latitude := zero_f64; longitude := zero_f64; accuracy := zero_f64;
     timestamp := 0; contact_id := 0; msg_id := 0; chat_id := 0; marker := None; independent := 0 |}.

Definition with_timestamp (t : Z) (l : Location) : Location :=
  {| location_id := location_id l; latitude := latitude l; longitude := longitude l;
     accuracy := accuracy l; timestamp := t; contact_id := contact_id l; msg_id := msg_id l;
     chat_id := chat_id l; marker := marker l; independent := independent l |}.

Definition with_position (lat lon : f64) (l : Location) : Location :=
  {| location_id := location_id l; latitude := lat; longitude := lon; accuracy := accuracy l;
     timestamp := timestamp l; contact_id := contact_id l; msg_id := msg_id l; chat_id := chat_id l;
     marker := marker l; independent := independent l |}.

Definition with_accuracy (a : f64) (l : Location) : Location :=
  {| location_id := location_id l; latitude := latitude l; longitude := longitude l; accuracy := a;
     timestamp := timestamp l; contact_id := contact_id l; msg_id := msg_id l; chat_id := chat_id l;
     marker := marker l; independent := independent l |}.

(** [enum KmlTag]. *)
Inductive KmlTag : Set :=
| Undefined | Placemark | PlacemarkTimestamp | PlacemarkTimestampWhen | PlacemarkPoint
| PlacemarkPointCoordinates.

#[export] Instance KmlTag_eq_dec : EqDecision KmlTag.
Proof. solve_decision. Defined.

(** [struct Kml]. *)
Record Kml := {
  addr : option str;
  locations : list Location;
  tag : KmlTag;
  curr : Location
}.

Definition Kml_new : Kml := {| addr := None; locations := []; tag := Undefined; curr := Location_new |}.

Definition set_tag (t : KmlTag) (k : Kml) : Kml :=
  {| addr := addr k; locations := locations k; tag := t; curr := curr k |}.

Definition upd_curr (f : Location -> Location) (k : Kml) : Kml :=
  {| addr := addr k; locations := locations k; tag := tag k; curr := f (curr k) |}.

(** Without the characters the code removes from a text. *)
Definition without_blanks (s : str) : str :=
  filter (λ c, (c ∉ [LF; CR; 9%N; SP])) s.

(** [Kml::text_cb]; [now] is what the clock shows. *)
Definition text_cb (now : Z) (event : option str) (k : Kml) : Kml :=
  let val := without_blanks (default [] event) in
  match tag k with
  | PlacemarkTimestampWhen =>
      if (19 <=? byte_len val)%N
      then upd_curr (with_timestamp (match parse_utc val with
                                     | Some t => if (now <? t)%Z then now else t
                                     | None => now
                                     end)) k
      else k
  | PlacemarkPointCoordinates =>
      match split_once 44 val with
      | Some (lon, lat) =>
          upd_curr (with_position (default zero_f64 (parse_f64 lat)) (default zero_f64 (parse_f64 lon))) k
      | None => k
      end
  | _ => k
  end.

(** [Kml::endtag_cb]. *)
Definition endtag_cb (name : str) (k : Kml) : Kml :=
  let t := tag_name str_to_lowercase name in
  match tag k with
  | PlacemarkTimestampWhen => if bool_decide (t = lit "when") then set_tag PlacemarkTimestamp k else k
  | PlacemarkTimestamp => if bool_decide (t = lit "timestamp") then set_tag Placemark k else k
  | PlacemarkPointCoordinates =>
      if bool_decide (t = lit "coordinates") then set_tag PlacemarkPoint k else k
  | PlacemarkPoint => if bool_decide (t = lit "point") then set_tag Placemark k else k
  | Placemark =>
      if bool_decide (t = lit "placemark") then
        if negb (0 =? timestamp (curr k))%Z && negb (is_zero (latitude (curr k)))
           && negb (is_zero (longitude (curr k)))
        then {| addr := addr k; locations := locations k ++ [curr k]; tag := Undefined;
                curr := Location_new |}
        else set_tag Undefined k
      else k
  | Undefined => k
  end.

(** The first well-formed attribute whose name passes a test. *)
Fixpoint find_attr (p : str -> bool) (attributes : list (option (str * option str)))
  : option (option str) :=
  match attributes with
  | [] => None
  | Some (key, value) :: attributes' => if p (trim key) then Some value else find_attr p attributes'
  | None :: attributes' => find_attr p attributes'
  end.

(** [Kml::starttag_cb]. *)
Definition starttag_cb (name : str) (attributes : list (option (str * option str))) (k : Kml) : Kml :=
  let t := tag_name str_to_lowercase name in
  if bool_decide (t = lit "document") then
    match find_attr (λ key, bool_decide (str_to_lowercase key = lit "addr")) attributes with
    | Some value => {| addr := value; locations := locations k; tag := tag k; curr := curr k |}
    | None => k
    end
  else if bool_decide (t = lit "placemark") then
    set_tag Placemark
      (upd_curr (λ l, with_accuracy zero_f64 (with_position zero_f64 zero_f64 (with_timestamp 0 l))) k)
  else if bool_decide (t = lit "timestamp") && bool_decide (tag k = Placemark) then
    set_tag PlacemarkTimestamp k
  else if bool_decide (t = lit "when") && bool_decide (tag k = PlacemarkTimestamp) then
    set_tag PlacemarkTimestampWhen k
  else if bool_decide (t = lit "point") && bool_decide (tag k = Placemark) then
    set_tag PlacemarkPoint k
  else if bool_decide (t = lit "coordinates") && bool_decide (tag k = PlacemarkPoint) then
    let k := set_tag PlacemarkPointCoordinates k in
    match find_attr (λ key, eq_nocase key (lit "accuracy")) attributes with
    | Some value => upd_curr (with_accuracy (default zero_f64 (parse_f64 (trim (default [] value))))) k
    | None => k
    end
  else k.

(** One event of the loop of [Kml::parse]. *)
Definition kml_event (now : Z) (e : Event) (k : Kml) : Kml :=
  match e with
  | Start name attributes => starttag_cb name attributes k
  | End_ name => endtag_cb name k
  | Text content => text_cb now content k
  | Other => k
  end.

Fixpoint kml_events (now : Z) (r : reader) (k : Kml) : option Kml :=
  match r with
  | [] => Some k
  | None :: _ => None
  | Some e :: r' => kml_events now r' (kml_event now e k)
  end.

(** [Kml::parse]. *)
Definition Kml_parse (now : Z) (to_parse : str) : option Kml :=
  if (byte_len to_parse <=? 1024 * 1024)%N then kml_events now (xml_events to_parse) Kml_new else None.

(** [is_marker]. *)
Definition is_marker (txt : str) : bool :=
  match txt with [c] => negb (is_whitespace c) | _ => false end.

(** ** The documents that are sent *)

Definition quoted (s : str) : str := 34%N :: s ++ [34%N].

Definition xml_declaration : str :=
  lit "<?xml version=" ++ quoted (lit "1.0") ++ lit " encoding=" ++ quoted (lit "UTF-8") ++ lit "?>".

Definition kml_start : str :=
  xml_declaration ++ [LF] ++ lit "<kml xmlns=" ++ quoted (lit "http://www.opengis.net/kml/2.2")
  ++ lit ">" ++ [LF].

(** A placemark of [get_kml] and of [get_message_kml]. *)
Definition placemark (when_ : str) (accuracy : option f64) (lon lat : f64) : str :=
  lit "<Placemark><Timestamp><when>" ++ when_ ++ lit "</when></Timestamp><Point><coordinates"
  ++ (match accuracy with Some a => lit " accuracy=" ++ quoted (print_f64 a) | None => [] end)
  ++ lit ">" ++ print_f64 lon ++ lit "," ++ print_f64 lat
  ++ lit "</coordinates></Point></Placemark>" ++ [LF].

(** [get_kml_timestamp]; [None] is a panic. *)
Definition get_kml_timestamp (utc : Z) : option str := format_utc utc.

(** [get_message_kml]. *)
Definition get_message_kml (timestamp : Z) (lat lon : f64) : option str :=
  when_ ← get_kml_timestamp timestamp;
  Some (kml_start ++ lit "<Document>" ++ [LF] ++ placemark when_ None lon lat
        ++ lit "</Document>" ++ [LF] ++ lit "</kml>").
End Kml.

(** ** The tables *)

(** The streaming columns of a row of [chats]. *)
Record stream := {
  s_chat : ChatId;
  locations_send_begin : Z;
  locations_send_until : Z;
  locations_last_sent : Z
}.

Definition set_window (begin_ until_ : Z) (r : stream) : stream :=
  {| s_chat := s_chat r; locations_send_begin := begin_; locations_send_until := until_;
     locations_last_sent := locations_last_sent r |}.

Definition set_last_sent (t : Z) (r : stream) : stream :=
  {| s_chat := s_chat r; locations_send_begin := locations_send_begin r;
     locations_send_until := locations_send_until r; locations_last_sent := t |}.

(** The columns of a message that locations need. *)
Record msg_place := {
  mp_chat : ChatId;
  mp_txt : str;
  mp_location_id : N
}.

(** A message handed to [chat::send_msg]: what it says, and whether it has a position of its own
    ([Param::SetLatitude]). *)
Inductive LocationMsg := StreamingEnabled | LocationOnly | Written (text : str).

Record OutMsg := {
  om_what : LocationMsg;
  om_has_position : bool
}.

Inductive LocEvent :=
| LocationChanged (contact_id : option ContactId)
| WebxdcUpdate (msg_id : N)
| ChatModified (chat_id : ChatId)
| ChatlistItemChanged (chat_id : ChatId)
| LocationInterrupt.

Inductive loc_error :=
| NegativeDuration | SpecialChat | NoPrimaryAddress | NoSuchChat | FormatPanic | SendFailed
| InfoFailed | NoSuchContact | SettingFailed (e : AccountError).

Section Streaming.
Context `{!Platform, !Geo}.

(** A row of [locations]. *)
Record loc_row := {
  l_id : N;
  l_latitude : f64;
  l_longitude : f64;
  l_accuracy : f64;
  l_timestamp : Z;
  l_chat_id : ChatId;
  l_from_id : ContactId;
  l_independent : bool
}.

(** A queued mail with its [location.kml]. *)
Record mail := {
  ml_chat : ChatId;
  ml_msg : OutMsg;
  ml_kml : option str
}.

(** The account as far as locations are concerned.  [streams] has the rows of [chats] in the order
    the database returns them; [loc_seq] is the last identifier [AUTOINCREMENT] gave; [infos] has
    the chats an info message about the end of streaming was added to; [ticks] counts how often the
    clock was read. *)
Record LocDb := {
  streams : list stream;
  loc_rows : list loc_row;
  loc_seq : N;
  msg_places : gmap N msg_place;
  self_addr : option str;
  contact_addrs : gmap ContactId str;
  settings : Account;
  loc_events : list LocEvent;
  mails : list mail;
  infos : list ChatId;
  ticks : nat
}.

Definition upd_streams (f : list stream -> list stream) (d : LocDb) : LocDb :=
  {| streams := f (streams d); loc_rows := loc_rows d; loc_seq := loc_seq d;
     msg_places := msg_places d; self_addr := self_addr d; contact_addrs := contact_addrs d;
     settings := settings d; loc_events := loc_events d; mails := mails d; infos := infos d;
     ticks := ticks d |}.

Definition upd_loc_rows (seq : N) (f : list loc_row -> list loc_row) (d : LocDb) : LocDb :=
  {| streams := streams d; loc_rows := f (loc_rows d); loc_seq := seq;
     msg_places := msg_places d; self_addr := self_addr d; contact_addrs := contact_addrs d;
     settings := settings d; loc_events := loc_events d; mails := mails d; infos := infos d;
     ticks := ticks d |}.

Definition upd_msg_places (f : gmap N msg_place -> gmap N msg_place) (d : LocDb) : LocDb :=
  {| streams := streams d; loc_rows := loc_rows d; loc_seq := loc_seq d;
     msg_places := f (msg_places d); self_addr := self_addr d; contact_addrs := contact_addrs d;
     settings := settings d; loc_events := loc_events d; mails := mails d; infos := infos d;
     ticks := ticks d |}.

Definition upd_settings (a : Account) (d : LocDb) : LocDb :=
  {| streams := streams d; loc_rows := loc_rows d; loc_seq := loc_seq d;
     msg_places := msg_places d; self_addr := self_addr d; contact_addrs := contact_addrs d;
     settings := a; loc_events := loc_events d; mails := mails d; infos := infos d;
     ticks := ticks d |}.

Definition add_loc_event (e : LocEvent) (d : LocDb) : LocDb :=
  {| streams := streams d; loc_rows := loc_rows d; loc_seq := loc_seq d;
     msg_places := msg_places d; self_addr := self_addr d; contact_addrs := contact_addrs d;
     settings := settings d; loc_events := loc_events d ++ [e]; mails := mails d; infos := infos d;
     ticks := ticks d |}.

Definition add_mail (m : mail) (d : LocDb) : LocDb :=
  {| streams := streams d; loc_rows := loc_rows d; loc_seq := loc_seq d;
     msg_places := msg_places d; self_addr := self_addr d; contact_addrs := contact_addrs d;
     settings := settings d; loc_events := loc_events d; mails := mails d ++ [m]; infos := infos d;
     ticks := ticks d |}.

Definition add_info (c : ChatId) (d : LocDb) : LocDb :=
  {| streams := streams d; loc_rows := loc_rows d; loc_seq := loc_seq d;
     msg_places := msg_places d; self_addr := self_addr d; contact_addrs := contact_addrs d;
     settings := settings d; loc_events := loc_events d; mails := mails d; infos := infos d ++ [c];
     ticks := ticks d |}.

Definition tick (d : LocDb) : LocDb :=
  {| streams := streams d; loc_rows := loc_rows d; loc_seq := loc_seq d;
     msg_places := msg_places d; self_addr := self_addr d; contact_addrs := contact_addrs d;
     settings := settings d; loc_events := loc_events d; mails := mails d; infos := infos d;
     ticks := S (ticks d) |}.

Abbreviation L := (SE LocDb loc_error).

(** What sending a message comes to, apart from its locations: it may fail, or have nobody to go
    to. *)
Inductive SendOutcome : Set := Fails | NoRecipient | Queued.

(** The clock, what sending and info messages come to, and the row of a group of rows SQLite takes
    columns from that are not aggregated. *)
Class Surroundings := {
  clock : nat -> Z;
  send_outcome : ChatId -> OutMsg -> LocDb -> SendOutcome;
  info_succeeds : ChatId -> LocDb -> bool;
  group_row : loc_row -> list loc_row -> loc_row
}.
Context `{!Surroundings}.

(** [time]. *)
Definition time : L Z := t <- gets (λ d, clock (ticks d)) ;; modify tick ;;; ret t.

Definition in_settings {X} (x : A X) : L X :=
  λ d, match x (settings d) with
       | (Ok v, a) => (Ok v, upd_settings a d)
       | (Err e, a) => (Err (SettingFailed e), upd_settings a d)
       end.

Definition emit_loc (e : LocEvent) : L unit := modify (add_loc_event e).

Definition ensure_loc (b : bool) (e : loc_error) : L unit := if b then ret tt else fail e.

(** [u32] of [str::parse]. *)
Definition parse_u32 (s : str) : option N :=
  n ← parse_digits1 (default s (strip_prefix (lit "+") s));
  if (n <=? 4294967295)%N then Some n else None.

(** [Context::emit_location_changed]. *)
Definition emit_location_changed (contact_id : option ContactId) : L unit :=
  emit_loc (LocationChanged contact_id) ;;;
  msg_id <- in_settings (get_config_parsed parse_u32 Config.WebxdcIntegration) ;;
  match msg_id with
  | Some msg_id => emit_loc (WebxdcUpdate msg_id)
  | None => ret tt
  end.

Definition update_stream (id : ChatId) (f : stream -> stream) : L unit :=
  modify (upd_streams (fmap (λ r, if (s_chat r =? id)%N then f r else r))).

(** [is_sending], [is_sending_to_chat], [get_chats_with_location_streaming]. *)
Definition is_sending : L bool :=
  now <- time ;;
  gets (λ d, existsb (λ r, (now <? locations_send_until r)%Z) (streams d)).

Definition is_sending_to_chat (id : ChatId) : L bool :=
  now <- time ;;
  gets (λ d, existsb (λ r, (s_chat r =? id)%N && (now <? locations_send_until r)%Z) (streams d)).

Definition get_chats_with_location_streaming : L (list ChatId) :=
  now <- time ;;
  gets (λ d, s_chat <$> filter (λ r, (now < locations_send_until r)%Z) (streams d)).

(** ** Sending locations *)

(** [MAX(timestamp)] of the own rows. *)
Definition latest_own (rows : list loc_row) : option Z :=
  foldr (λ r m, if (l_from_id r =? SELF)%N
                then Some (match m with Some t => Z.max (l_timestamp r) t | None => l_timestamp r end)
                else m) None rows.

(** The own rows of paths since [begin_], from the last sending on or with the latest time. *)
Definition unsent_rows (begin_ last_sent : Z) (rows : list loc_row) : list loc_row :=
  filter (λ r, l_from_id r = SELF ∧ (begin_ <= l_timestamp r)%Z
               ∧ ((last_sent <= l_timestamp r)%Z ∨ Some (l_timestamp r) = latest_own rows)
               ∧ l_independent r = false) rows.

(** [GROUP BY timestamp ORDER BY timestamp]. *)
Definition by_timestamp (rows : list loc_row) : list loc_row :=
  omap (λ t, match filter (λ r, l_timestamp r = t) rows with
             | [] => None
             | r :: l => Some (group_row r l)
             end)
    (merge_sort Z.le (remove_dups (l_timestamp <$> rows))).

(** The placemarks of [get_kml]. *)
Fixpoint placemarks (rows : list loc_row) : option str :=
  match rows with
  | [] => Some []
  | r :: rows' =>
      when_ ← get_kml_timestamp (l_timestamp r);
      rest ← placemarks rows';
      Some (placemark when_ (Some (l_accuracy r)) (l_longitude r) (l_latitude r) ++ rest)
  end.

(** [get_kml]. *)
Definition get_kml (id : ChatId) : L (option (str * N)) :=
  self_addr <- gets self_addr ;;
  self_addr <- ok_or self_addr NoPrimaryAddress ;;
  row <- gets (λ d, head (filter (λ r, s_chat r = id) (streams d))) ;;
  row <- ok_or row NoSuchChat ;;
  now <- time ;;
  if negb (locations_send_begin row =? 0)%Z && (now <=? locations_send_until row)%Z then
    rows <- gets (λ d, by_timestamp (unsent_rows (locations_send_begin row) (locations_last_sent row)
                                       (loc_rows d))) ;;
    body <- ok_or (placemarks rows) FormatPanic ;;
    match list.last rows with
    | Some r =>
        ret (Some (kml_start ++ lit "<Document addr=" ++ quoted self_addr ++ lit ">" ++ [LF] ++ body
                   ++ lit "</Document>" ++ [LF] ++ lit "</kml>", l_id r))
    | None => ret None
    end
  else ret None.

(** [set_kml_sent_timestamp]. *)
Definition set_kml_sent_timestamp (id : ChatId) (timestamp : Z) : L unit :=
  update_stream id (set_last_sent timestamp).

(** [MimeFactory::get_location_kml_part] and its caller: the attachment, and whether the mail counts
    as having sent the locations. *)
Definition get_location_kml_part (id : ChatId) (msg : OutMsg) : L (option str * bool) :=
  sending <- is_sending_to_chat id ;;
  if sending then
    kml <- get_kml id ;;
    match kml with
    | Some (content, _) => ret (Some content, negb (om_has_position msg))
    | None => ret (None, false)
    end
  else ret (None, false).

(** The end of [create_send_msg_jobs]: the mail is queued. *)
Definition finish_sending (id : ChatId) (msg : OutMsg) (part : option str * bool) : L unit :=
  now <- time ;;
  when part.2 (set_kml_sent_timestamp id now) ;;;
  modify (add_mail {| ml_chat := id; ml_msg := msg; ml_kml := part.1 |}).

(** [chat::send_msg]. *)
Definition send_msg (id : ChatId) (msg : OutMsg) : L unit :=
  outcome <- gets (send_outcome id msg) ;;
  match outcome with
  | Fails => fail SendFailed
  | NoRecipient => ret tt
  | Queued => part <- get_location_kml_part id msg ;; finish_sending id msg part
  end.

(** [chat::add_info_msg] with the text that streaming ended. *)
Definition add_disabled_info (id : ChatId) : L unit :=
  ok <- gets (info_succeeds id) ;;
  if (ok : bool) then modify (add_info id) else fail InfoFailed.

(** [send_to_chat]. *)
Definition send_to_chat (id : ChatId) (seconds : Z) : L unit :=
  ensure_loc (0 <=? seconds)%Z NegativeDuration ;;;
  ensure_loc (negb (chat_is_special id)) SpecialChat ;;;
  now <- time ;;
  is_sending_locations_before <- is_sending_to_chat id ;;
  let on := negb (0 =? seconds)%Z in
  update_stream id (set_window (if on then now else 0)%Z (if on then now + seconds else 0)%Z) ;;;
  (if on && negb is_sending_locations_before
   then ignore_err (send_msg id {| om_what := StreamingEnabled; om_has_position := false |}) ;;; ret tt
   else if negb on && is_sending_locations_before then add_disabled_info id
   else ret tt) ;;;
  emit_loc (ChatModified id) ;;;
  emit_loc (ChatlistItemChanged id) ;;;
  when on (emit_loc LocationInterrupt).

(** [stop_sending]. *)
Definition stop_sending : L unit :=
  chats <- get_chats_with_location_streaming ;;
  for_each chats (λ id, send_to_chat id 0).

Definition insert_location (mk : N -> loc_row) : L N :=
  id <- gets (λ d, (loc_seq d + 1)%N) ;;
  modify (upd_loc_rows id (λ l, l ++ [mk id])) ;;; ret id.

(** [set]. *)
Definition set (lat lon acc : f64) : L bool :=
  if is_zero lat && is_zero lon then ret true
  else
    now <- time ;;
    chats <- gets (λ d, s_chat <$> filter (λ r, (now < locations_send_until r)%Z) (streams d)) ;;
    for_each chats (λ id,
      insert_location (λ row_id,
        {| l_id := row_id; l_latitude := lat; l_longitude := lon; l_accuracy := acc;
           l_timestamp := now; l_chat_id := id; l_from_id := SELF; l_independent := false |}) ;;; ret tt) ;;;
    let continue_streaming := negb (bool_decide (chats = [])) in
    when continue_streaming (emit_location_changed (Some SELF)) ;;;
    when continue_streaming (emit_loc LocationInterrupt) ;;;
    ret continue_streaming.

(** ** Receiving locations *)

(** [save]: the identifier of the newest location that was stored. *)
Definition save_one (id : ChatId) (from : ContactId) (indep : bool) (l : Location)
  (newest : Z * option N) : L (Z * option N) :=
  exists_ <- gets (λ d, existsb (λ r, (l_timestamp r =? timestamp l)%Z && (l_from_id r =? from)%N)
                          (loc_rows d)) ;;
  if indep || negb exists_ then
    row_id <- insert_location (λ row_id,
      {| l_id := row_id; l_latitude := latitude l; l_longitude := longitude l;
         l_accuracy := accuracy l; l_timestamp := timestamp l; l_chat_id := id; l_from_id := from;
         l_independent := indep |}) ;;
    ret (if (newest.1 <? timestamp l)%Z then (timestamp l, Some row_id) else newest)
  else ret newest.

Fixpoint save_all (id : ChatId) (from : ContactId) (indep : bool) (l : list Location)
  (newest : Z * option N) : L (Z * option N) :=
  match l with
  | [] => ret newest
  | x :: l' => newest <- save_one id from indep x newest ;; save_all id from indep l' newest
  end.

Definition save (id : ChatId) (from : ContactId) (l : list Location) (indep : bool) : L (option N) :=
  ensure_loc (negb (chat_is_special id)) SpecialChat ;;;
  newest <- save_all id from indep l (0%Z, None) ;;
  ret newest.2.

(** [set_msg_location_id]. *)
Definition set_msg_location_id (msg : N) (location : N) : L unit :=
  modify (upd_msg_places (alter (λ m, {| mp_chat := mp_chat m; mp_txt := mp_txt m;
                                          mp_location_id := location |}) msg)).

(** [save_locations] of receive_imf.rs. *)
Definition save_locations (message_kml location_kml : option Kml) (id : ChatId) (from : ContactId)
  (msg : N) : L unit :=
  if chat_is_special id then ret tt
  else
    send_event <- (match message_kml with
                   | Some k =>
                       newest <- save id from (locations k) true ;;
                       match newest with
                       | Some location => set_msg_location_id msg location ;;; ret true
                       | None => ret false
                       end
                   | None => ret false
                   end) ;;
    send_event' <- (match location_kml with
                    | Some k =>
                        match addr k with
                        | Some a =>
                            contact <- gets (λ d, contact_addrs d !! from) ;;
                            contact <- ok_or contact NoSuchContact ;;
                            if bool_decide (str_to_lowercase contact = str_to_lowercase a) then
                              newest <- save id from (locations k) false ;;
                              ret (send_event || bool_decide (newest ≠ None))
                            else ret send_event
                        | None => ret send_event
                        end
                    | None => ret send_event
                    end) ;;
    when send_event' (emit_location_changed (Some from)).

(** ** Looking up and deleting *)

(** A row joined with a message; [0] and the empty text without one. *)
Definition location_of (r : loc_row) (msg : N) (txt : str) : Location :=
  {| location_id := l_id r; latitude := l_latitude r; longitude := l_longitude r;
     accuracy := l_accuracy r; timestamp := l_timestamp r; contact_id := l_from_id r; msg_id := msg;
     chat_id := l_chat_id r; marker := if negb (msg =? 0)%N && is_marker txt then Some txt else None;
     independent := if l_independent r then 1 else 0 |}.

Definition joined (places : gmap N msg_place) (r : loc_row) : list Location :=
  match filter (λ p, mp_location_id p.2 = l_id r) (map_to_list places) with
  | [] => [location_of r 0 []]
  | l => (λ p, location_of r p.1 (mp_txt p.2)) <$> l
  end.

(** [ORDER BY timestamp DESC, id DESC, msg_id DESC]. *)
Definition not_after (x y : Location) : bool :=
  (timestamp y <? timestamp x)%Z
  || ((timestamp y =? timestamp x)%Z
      && ((location_id y <? location_id x)%N
          || ((location_id y =? location_id x)%N && (msg_id y <=? msg_id x)%N))).

Definition listed_before (x y : Location) : Prop := not_after x y = true.

#[export] Instance listed_before_dec : RelDecision listed_before.
Proof. intros x y. unfold listed_before. apply _. Defined.

(** The [WHERE] clause of [get_range]. *)
Definition in_range (id : option ChatId) (from : option N) (timestamp_from timestamp_to : Z)
  (r : loc_row) : bool :=
  match id with Some c => (l_chat_id r =? c)%N | None => true end
  && match from with Some c => (l_from_id r =? c)%N | None => true end
  && (l_independent r || ((timestamp_from <=? l_timestamp r)%Z && (l_timestamp r <=? timestamp_to)%Z)).

(** [get_range]. *)
Definition get_range (id : option ChatId) (from : option N) (timestamp_from timestamp_to : Z)
  : L (list Location) :=
  timestamp_to <- (if (timestamp_to =? 0)%Z then now <- time ;; ret (now + 10)%Z
                   else ret timestamp_to) ;;
  gets (λ d,
    merge_sort listed_before
      (filter (λ r, in_range id from timestamp_from timestamp_to r = true) (loc_rows d)
       ≫= joined (msg_places d))).

(** [delete_expired]. *)
Definition delete_expired (now : Z) : L unit :=
  delete_device_after <- in_settings get_config_delete_device_after ;;
  match delete_device_after with
  | None => ret tt
  | Some delete_device_after =>
      let threshold_timestamp := sat_sub now delete_device_after in
      let gone r := negb (l_independent r) && (l_timestamp r <? threshold_timestamp)%Z in
      deleted <- gets (λ d, existsb gone (loc_rows d)) ;;
      modify (λ d, upd_loc_rows (loc_seq d) (filter (λ r, gone r = false)) d) ;;;
      when deleted (emit_location_changed None)
  end.

(** [delete_poi]. *)
Definition delete_poi (location : N) : L unit :=
  modify (λ d, upd_loc_rows (loc_seq d)
                 (filter (λ r, negb (l_independent r && (l_id r =? location)%N) = true)) d).

(** [delete_orphaned_poi]. *)
Definition delete_orphaned_poi : L unit :=
  modify (λ d,
    let used := omap (λ p, if (0 <? mp_location_id p.2)%N && negb (mp_chat p.2 =? DC_CHAT_ID_TRASH)%N
                           then Some (mp_location_id p.2) else None) (map_to_list (msg_places d)) in
    upd_loc_rows (loc_seq d)
      (filter (λ r, negb (l_independent r && negb (bool_decide (l_id r ∈ used))) = true)) d).

(** ** The loop *)

Definition min_event (x : option Z) (y : Z) : option Z :=
  if (0 <=? y)%Z then Some (match x with Some x => Z.min x y | None => y end) else x.

(** Whether there are own locations the chat has not got. *)
Definition has_locations (r : stream) (d : LocDb) : bool :=
  existsb (λ l, (l_from_id l =? SELF)%N && (locations_send_begin r <=? l_timestamp l)%Z
                && (locations_last_sent r <? l_timestamp l)%Z && negb (l_independent l)) (loc_rows d).

(** [maybe_send]: one chat, and all of them. *)
Definition maybe_send_one (now : Z) (r : stream) (next_event : option Z) : L (option Z) :=
  let id := s_chat r in
  if (0 <? locations_send_begin r)%Z && (now <? locations_send_until r)%Z then
    let can_send := (locations_last_sent r + 60 <? now)%Z in
    pending <- gets (has_locations r) ;;
    let next_event := min_event next_event (locations_send_until r - now) in
    if (pending : bool) then
      if can_send
      then send_msg id {| om_what := LocationOnly; om_has_position := false |} ;;; ret next_event
      else ret (min_event next_event (locations_last_sent r + 61 - now))
    else ret next_event
  else
    update_stream id (set_window 0 0) ;;;
    add_disabled_info id ;;;
    emit_loc (ChatModified id) ;;;
    emit_loc (ChatlistItemChanged id) ;;;
    ret next_event.

Fixpoint maybe_send_all (now : Z) (rows : list stream) (next_event : option Z) : L (option Z) :=
  match rows with
  | [] => ret next_event
  | r :: rows' => next_event <- maybe_send_one now r next_event ;; maybe_send_all now rows' next_event
  end.

Definition maybe_send : L (option Z) :=
  now <- time ;;
  rows <- gets (λ d, filter (λ r, (0 < locations_send_until r)%Z) (streams d)) ;;
  maybe_send_all now rows None.

(** One round of [location_loop]: how many seconds it waits. *)
Definition location_loop_wait : L Z :=
  λ d, match maybe_send d with
       | (Err _, d') => (Ok 60%Z, d')
       | (Ok next_event, d') => (Ok (default 86400%Z next_event), d')
       end.
End Streaming.
