(* ===== verification/LocationStream.v ===== *)
(** LocationStream: what location streaming guarantees: the locations that are sent arrive, none is
    left out, none leaves the device when the user does not stream, and the loop that sends them
    neither spins nor oversleeps. *)
From stdpp Require Import sorting.
From S2P Require Import Prelude Monad Ids ContactTools LoginParam Autoconfig Config Location.

(** ** XML

    A document as the sequence of its tags and texts, and what a reader makes of it. *)
Inductive xml_item :=
| Open (name : str) (attributes : list (str * str))
| Close (name : str)
| Chars (text : str).

Definition print_item (i : xml_item) : str :=
  match i with
  | Open name attributes =>
      lit "<" ++ name ++ concat ((λ a, lit " " ++ a.1 ++ lit "=" ++ quoted a.2) <$> attributes) ++ lit ">"
  | Close name => lit "</" ++ name ++ lit ">"
  | Chars text => text
  end.

Definition item_event (i : xml_item) : option Event :=
  match i with
  | Open name attributes => Some (Start name ((λ a, Some (a.1, Some a.2)) <$> attributes))
  | Close name => Some (End_ name)
  | Chars text => if bool_decide (trim text = []) then None else Some (Text (Some (trim text)))
  end.

Definition is_alnum (c : char) : bool := is_digit c || ((65 <=? c) && (c <=? 90))%N || ((97 <=? c) && (c <=? 122))%N.

(** Names are letters and digits; values and texts need no escaping. *)
Definition plain_name (s : str) : bool := negb (bool_decide (s = [])) && forallb is_alnum s.
Definition plain_value (s : str) : bool :=
  forallb (λ c, negb (bool_decide (c ∈ [34; 38; 60; 62; 9; 10; 13]%N))) s.
Definition plain_text (s : str) : bool :=
  negb (bool_decide (s = [])) && forallb (λ c, negb (bool_decide (c ∈ [38; 60; 62; 13]%N))) s.

(** Tags are nested, and there is a tag between two texts. *)
Fixpoint well_formed (open : list str) (after_text : bool) (l : list xml_item) : bool :=
  match l with
  | [] => bool_decide (open = [])
  | Open name attributes :: l' =>
      plain_name name && forallb (λ a, plain_name a.1 && plain_value a.2) attributes
      && well_formed (name :: open) false l'
  | Close name :: l' =>
      match open with
      | name' :: open' => bool_decide (name = name') && well_formed open' false l'
      | [] => false
      end
  | Chars text :: l' => negb after_text && plain_text text && well_formed open true l'
  end.

Definition number_char (c : char) : bool := is_alnum c || bool_decide (c ∈ [43; 45; 46; 58]%N).

(** What Rust and the crates promise: numbers and times are read as they were printed, with the
    characters one expects; a well-formed document gives its events; lower case acts on ASCII as
    usual. *)
Class GeoOk `{!Platform, !Geo} : Prop := {
  parse_print_f64 x : parse_f64 (print_f64 x) = Some x;
  print_f64_chars x : forallb number_char (print_f64 x) = true;
  parse_format_utc t s : format_utc t = Some s → parse_utc s = Some t;
  format_utc_chars t s : format_utc t = Some s → forallb number_char s = true ∧ 19 ≤ length s;
  reads_items l : well_formed [] false l = true →
    xml_events (xml_declaration ++ concat (print_item <$> l)) = Some Other :: (Some <$> omap item_event l);
  lower_letters s : forallb is_alnum s = true → str_to_lowercase s = nocase <$> s
}.

(** ** Reading a document back *)

Section Reading.
Context {PF : Platform} {GE : Geo} {GO : GeoOk}.

Lemma alnum_not_space c : is_alnum c = true → is_whitespace c = false.
Proof.
  unfold is_alnum, is_digit, is_whitespace. rewrite !orb_true_iff, !andb_true_iff, !N.leb_le.
  intros H. apply not_true_is_false. rewrite !orb_true_iff, !andb_true_iff, !N.leb_le, !N.eqb_eq. lia.
Qed.

Lemma trim_no_space s : Forall (λ c, is_whitespace c = false) s → trim s = s.
Proof.
  assert (∀ s, Forall (λ c, is_whitespace c = false) s → trim_start_by is_whitespace s = s) as H.
  { intros [|c l] Hf; [done|]. simpl. apply list.Forall_cons in Hf as [Hc _]. by rewrite Hc. }
  intros Hs. unfold trim, trim_start, trim_end, trim_end_by. rewrite (H s Hs).
  rewrite H by (by apply List.Forall_rev). apply rev_involutive.
Qed.

Lemma tag_name_letters s : forallb is_alnum s = true → tag_name str_to_lowercase s = nocase <$> s.
Proof.
  intros Hs. unfold tag_name. rewrite trim_no_space, lower_letters; [done|done|].
  apply list.Forall_forall. intros c Hc. apply alnum_not_space.
  rewrite forallb_forall in Hs. apply Hs. by apply list_elem_of_In.
Qed.

Lemma number_char_facts c :
  number_char c = true → is_whitespace c = false ∧ c ≠ 44%N
    ∧ (c ∉ [LF; CR; 9%N; SP]) ∧ (c ∉ [38; 60; 62; 13]%N) ∧ (c ∉ [34; 38; 60; 62; 9; 10; 13]%N).
Proof.
  unfold number_char. rewrite orb_true_iff, bool_decide_eq_true. intros [H|H].
  - pose proof (alnum_not_space _ H) as Hw. unfold is_alnum, is_digit in H.
    rewrite !orb_true_iff, !andb_true_iff, !N.leb_le in H. unfold LF, CR, SP.
    rewrite !not_elem_of_cons, !elem_of_nil. split_and!; try done; lia.
  - unfold LF, CR, SP. repeat (apply elem_of_cons in H as [->|H]); [..|by apply elem_of_nil in H];
      (split; [done|split; [done|]]); split_and!; by apply (bool_decide_unpack _).
Qed.

Lemma numbers_forall (P : char -> Prop) s :
  (∀ c, number_char c = true → P c) → forallb number_char s = true → Forall P s.
Proof.
  intros HP Hs. apply list.Forall_forall. intros c Hc. apply HP.
  rewrite forallb_forall in Hs. apply Hs. by apply list_elem_of_In.
Qed.

Lemma without_blanks_id s : Forall (λ c, c ∉ [LF; CR; 9%N; SP]) s → without_blanks s = s.
Proof. unfold without_blanks. induction 1 as [|c s Hc _ IH]; [done|]. by rewrite filter_cons_True, IH. Qed.

#[local] Arguments placemark : simpl never.

(** The tags of a row. *)
Definition row_items (when_ : str) (r : loc_row) : list xml_item :=
  [Open (lit "Placemark") []; Open (lit "Timestamp") []; Open (lit "when") []; Chars when_;
   Close (lit "when"); Close (lit "Timestamp"); Open (lit "Point") [];
   Open (lit "coordinates") [(lit "accuracy", print_f64 (l_accuracy r))];
   Chars (print_f64 (l_longitude r) ++ lit "," ++ print_f64 (l_latitude r));
   Close (lit "coordinates"); Close (lit "Point"); Close (lit "Placemark"); Chars [LF]].

Fixpoint rows_items (rows : list loc_row) : option (list xml_item) :=
  match rows with
  | [] => Some []
  | r :: rows' => w ← format_utc (l_timestamp r); l ← rows_items rows'; Some (row_items w r ++ l)
  end.

Definition document_items (a : str) (body : list xml_item) : list xml_item :=
  [Chars [LF]; Open (lit "kml") [(lit "xmlns", lit "http://www.opengis.net/kml/2.2")]; Chars [LF];
   Open (lit "Document") [(lit "addr", a)]; Chars [LF]] ++ body
  ++ [Close (lit "Document"); Chars [LF]; Close (lit "kml")].

Lemma placemark_items w r :
  placemark w (Some (l_accuracy r)) (l_longitude r) (l_latitude r) = concat (print_item <$> row_items w r).
Proof.
  unfold placemark, row_items. cbn [fmap list_fmap concat print_item fst snd].
  rewrite ?app_nil_r, <-?app_assoc. reflexivity.
Qed.

Lemma placemarks_items rows body :
  placemarks rows = Some body →
  ∃ l, rows_items rows = Some l ∧ body = concat (print_item <$> l).
Proof.
  revert body. induction rows as [|r rows IH]; intros body; cbn [placemarks rows_items];
    [intros [= <-]; by exists []|].
  unfold get_kml_timestamp. destruct (format_utc (l_timestamp r)) as [w|]; [|done]. cbn [mbind option_bind].
  destruct (placemarks rows) as [rest|]; [|done]. cbn [mbind option_bind]. intros <-%(inj Some).
  destruct (IH rest eq_refl) as (l & -> & ->). eexists. split; [done|].
  by rewrite placemark_items, fmap_app, concat_app.
Qed.

Lemma document_text a l :
  kml_start ++ lit "<Document addr=" ++ quoted a ++ lit ">" ++ [LF] ++ concat (print_item <$> l)
    ++ lit "</Document>" ++ [LF] ++ lit "</kml>"
  = xml_declaration ++ concat (print_item <$> document_items a l).
Proof.
  unfold document_items. rewrite !fmap_app, !concat_app. unfold kml_start.
  cbn [fmap list_fmap concat print_item fst snd]. rewrite ?app_nil_r, <-?app_assoc. reflexivity.
Qed.

(** ** Well-formedness *)
Lemma numbers_unescaped s :
  forallb number_char s = true → forallb (λ c, negb (bool_decide (c ∈ [38; 60; 62; 13]%N))) s = true.
Proof.
  intros Hs. apply forallb_forall. intros c Hc. rewrite forallb_forall in Hs.
  rewrite bool_decide_eq_false_2; [done|]. by apply number_char_facts, Hs.
Qed.

Lemma plain_text_numbers s :
  forallb number_char s = true → s ≠ [] → plain_text s = true.
Proof.
  intros Hs Hne. unfold plain_text. by rewrite (bool_decide_eq_false_2 _ Hne), numbers_unescaped.
Qed.

Lemma plain_value_numbers s : forallb number_char s = true → plain_value s = true.
Proof.
  intros Hs. apply forallb_forall. intros c Hc. rewrite forallb_forall in Hs.
  rewrite bool_decide_eq_false_2; [done|]. by apply number_char_facts, Hs.
Qed.

Lemma plain_position x y : plain_text (print_f64 x ++ lit "," ++ print_f64 y) = true.
Proof.
  unfold plain_text. rewrite bool_decide_eq_false_2 by (by intros [_ ?]%app_nil).
  rewrite !forallb_app, (numbers_unescaped (print_f64 x)), (numbers_unescaped (print_f64 y))
    by apply print_f64_chars. by vm_compute.
Qed.

Lemma well_formed_row open b w r rest :
  forallb number_char w = true → w ≠ [] →
  well_formed open b (row_items w r ++ rest) = well_formed open true rest.
Proof.
  intros Hw Hne. unfold row_items. cbn [app well_formed].
  rewrite (plain_text_numbers w), plain_position by done. simpl.
  by rewrite (plain_value_numbers (print_f64 _)) by apply print_f64_chars.
Qed.

Lemma well_formed_rows open rows l rest :
  rows_items rows = Some l → well_formed open true (l ++ rest) = well_formed open true rest.
Proof.
  revert l. induction rows as [|r rows IH]; intros l; cbn [rows_items]; [by intros [= <-]|].
  destruct (format_utc (l_timestamp r)) as [w|] eqn:E; [|done]. cbn [mbind option_bind].
  destruct (rows_items rows) as [l'|]; [|done]. cbn [mbind option_bind]. intros <-%(inj Some).
  destruct (format_utc_chars _ _ E) as [Hw Hl]. rewrite <-app_assoc, well_formed_row.
  - by apply IH.
  - done.
  - intros ->. simpl in Hl. lia.
Qed.

Lemma well_formed_document a rows l :
  plain_value a = true → rows_items rows = Some l →
  well_formed [] false (document_items a l) = true.
Proof.
  intros Ha Hl. unfold document_items. cbn [app well_formed forallb fst snd]. rewrite Ha.
  rewrite (well_formed_rows _ rows) by done. vm_compute. done.
Qed.

(** ** Parsing *)

(** What a receiver makes of a row. *)
Definition parsed (now : Z) (r : loc_row) : Location :=
  {| location_id := 0; latitude := l_latitude r; longitude := l_longitude r; accuracy := l_accuracy r;
     timestamp := if (now <? l_timestamp r)%Z then now else l_timestamp r; contact_id := 0; msg_id := 0;
     chat_id := 0; marker := None; independent := 0 |}.

Definition kept (l : Location) : bool :=
  negb (0 =? timestamp l)%Z && negb (is_zero (latitude l)) && negb (is_zero (longitude l)).

(** Nothing but the fields of a placemark was set. *)
Definition blank (l : Location) : Prop :=
  location_id l = 0%N ∧ contact_id l = 0%N ∧ msg_id l = 0%N ∧ chat_id l = 0%N ∧ marker l = None
  ∧ independent l = 0%N.

Definition events_of (l : list xml_item) : list Event := omap item_event l.
Definition run_events (now : Z) (l : list Event) (k : Kml) : Kml := foldl (λ k e, kml_event now e k) k l.

Lemma kml_events_run now l k : kml_events now (Some <$> l) k = Some (run_events now l k).
Proof. revert k. induction l as [|e l IH]; intros k; simpl; [done|]. apply IH. Qed.

Lemma number_text_event s :
  forallb number_char s = true → s ≠ [] → item_event (Chars s) = Some (Text (Some s)).
Proof.
  intros Hs Hne. unfold item_event. rewrite trim_no_space by (by eapply numbers_forall; [apply number_char_facts|]).
  by rewrite (bool_decide_eq_false_2 _ Hne).
Qed.

Lemma position_event x y :
  let s := print_f64 x ++ lit "," ++ print_f64 y in
  Forall (λ c, is_whitespace c = false ∧ (c ∉ [LF; CR; 9%N; SP])) s
  ∧ item_event (Chars s) = Some (Text (Some s)) ∧ split_once 44 s = Some (print_f64 x, print_f64 y).
Proof.
  intros s. assert (Forall (λ c, is_whitespace c = false ∧ (c ∉ [LF; CR; 9%N; SP])) s) as Hs.
  { unfold s. rewrite !list.Forall_app. split_and!.
    - eapply numbers_forall; [|apply print_f64_chars]. intros c Hc. by destruct (number_char_facts c Hc) as (?&?&?&_).
    - constructor; [|constructor]. split; [done|]. by apply (bool_decide_unpack _).
    - eapply numbers_forall; [|apply print_f64_chars]. intros c Hc. by destruct (number_char_facts c Hc) as (?&?&?&_). }
  split; [done|]. split.
  - unfold item_event. rewrite trim_no_space by (eapply list.Forall_impl; [exact Hs|]; by intros c [? _]).
    rewrite bool_decide_eq_false_2; [done|]. by intros [_ [=]]%app_nil.
  - unfold s. apply split_once_app. intros Hin.
    pose proof (numbers_forall (λ c, c ≠ 44%N) (print_f64 x)) as Hn. rewrite list.Forall_forall in Hn.
    by eapply Hn; [|apply print_f64_chars|exact Hin|]; [intros c Hc; apply number_char_facts|].
Qed.

Lemma row_events w r :
  forallb number_char w = true → w ≠ [] →
  events_of (row_items w r)
  = [Start (lit "Placemark") []; Start (lit "Timestamp") []; Start (lit "when") []; Text (Some w);
     End_ (lit "when"); End_ (lit "Timestamp"); Start (lit "Point") [];
     Start (lit "coordinates") [Some (lit "accuracy", Some (print_f64 (l_accuracy r)))];
     Text (Some (print_f64 (l_longitude r) ++ lit "," ++ print_f64 (l_latitude r)));
     End_ (lit "coordinates"); End_ (lit "Point"); End_ (lit "Placemark")].
Proof.
  intros Hw Hne. unfold events_of, row_items. cbn [omap list_omap].
  rewrite (number_text_event w) by done.
  destruct (position_event (l_longitude r) (l_latitude r)) as (_ & -> & _). reflexivity.
Qed.

Ltac decide_tags :=
  rewrite tag_name_letters by done; cbv zeta;
  repeat match goal with
  | |- context [bool_decide (?x = ?y)] =>
      first [rewrite (bool_decide_eq_true_2 (x = y)) by reflexivity
            |rewrite (bool_decide_eq_false_2 (x = y)) by (by vm_compute)]
  end; cbn [andb].

Lemma start_placemark k :
  starttag_cb (lit "Placemark") [] k
  = set_tag Placemark
      (upd_curr (λ l, with_accuracy zero_f64 (with_position zero_f64 zero_f64 (with_timestamp 0 l))) k).
Proof. unfold starttag_cb. by decide_tags. Qed.
Lemma start_timestamp k : tag k = Placemark → starttag_cb (lit "Timestamp") [] k = set_tag PlacemarkTimestamp k.
Proof. intros Hk. unfold starttag_cb. rewrite Hk. by decide_tags. Qed.
Lemma start_when k : tag k = PlacemarkTimestamp → starttag_cb (lit "when") [] k = set_tag PlacemarkTimestampWhen k.
Proof. intros Hk. unfold starttag_cb. rewrite Hk. by decide_tags. Qed.
Lemma start_point k : tag k = Placemark → starttag_cb (lit "Point") [] k = set_tag PlacemarkPoint k.
Proof. intros Hk. unfold starttag_cb. rewrite Hk. by decide_tags. Qed.
Lemma end_timestamp k : tag k = PlacemarkTimestamp → endtag_cb (lit "Timestamp") k = set_tag Placemark k.
Proof. intros Hk. unfold endtag_cb. rewrite Hk. by decide_tags. Qed.
Lemma end_when k : tag k = PlacemarkTimestampWhen → endtag_cb (lit "when") k = set_tag PlacemarkTimestamp k.
Proof. intros Hk. unfold endtag_cb. rewrite Hk. by decide_tags. Qed.
Lemma end_point k : tag k = PlacemarkPoint → endtag_cb (lit "Point") k = set_tag Placemark k.
Proof. intros Hk. unfold endtag_cb. rewrite Hk. by decide_tags. Qed.
Lemma end_coordinates k : tag k = PlacemarkPointCoordinates → endtag_cb (lit "coordinates") k = set_tag PlacemarkPoint k.
Proof. intros Hk. unfold endtag_cb. rewrite Hk. by decide_tags. Qed.

Lemma start_coordinates x k :
  tag k = PlacemarkPoint →
  starttag_cb (lit "coordinates") [Some (lit "accuracy", Some (print_f64 x))] k
  = upd_curr (with_accuracy x) (set_tag PlacemarkPointCoordinates k).
Proof.
  intros Hk. unfold starttag_cb. rewrite Hk. decide_tags. cbn [find_attr].
  change (eq_nocase (trim (lit "accuracy")) (lit "accuracy")) with true. cbv iota. cbn [default id].
  change (default [] (Some ?x)) with x. rewrite trim_no_space by (eapply numbers_forall; [apply number_char_facts|apply print_f64_chars]).
  by rewrite parse_print_f64.
Qed.

Lemma end_placemark k :
  tag k = Placemark →
  endtag_cb (lit "Placemark") k
  = if kept (curr k)
    then {| addr := addr k; locations := locations k ++ [curr k]; tag := Undefined; curr := Location_new |}
    else set_tag Undefined k.
Proof. intros Hk. unfold endtag_cb. rewrite Hk. by decide_tags. Qed.

Lemma byte_len_length s : (N.of_nat (length s) <= byte_len s)%N.
Proof.
  induction s as [|c s IH]; simpl; [lia|]. assert (1 <= len_utf8 c)%N by (unfold len_utf8; repeat case_match; lia). lia.
Qed.

Lemma text_when now t w k :
  format_utc t = Some w → tag k = PlacemarkTimestampWhen →
  text_cb now (Some w) k = upd_curr (with_timestamp (if (now <? t)%Z then now else t)) k.
Proof.
  intros Hw Hk. destruct (format_utc_chars _ _ Hw) as [Hc Hl]. unfold text_cb. rewrite Hk. change (default [] (Some ?x)) with x. cbv zeta.
  rewrite without_blanks_id by (by eapply numbers_forall; [apply number_char_facts|]).
  rewrite (proj2 (N.leb_le 19 (byte_len w))) by (pose proof (byte_len_length w); lia).
  by rewrite (parse_format_utc _ _ Hw).
Qed.

Lemma text_coordinates now x y k :
  tag k = PlacemarkPointCoordinates →
  text_cb now (Some (print_f64 x ++ lit "," ++ print_f64 y)) k = upd_curr (with_position y x) k.
Proof.
  intros Hk. destruct (position_event x y) as (Hb & _ & Hsp). unfold text_cb. rewrite Hk. change (default [] (Some ?x)) with x. cbv zeta.
  rewrite without_blanks_id by (eapply list.Forall_impl; [exact Hb|]; by intros c [_ ?]).
  by rewrite Hsp, !parse_print_f64.
Qed.

(** A placemark is read back. *)
Lemma run_row now w r k :
  format_utc (l_timestamp r) = Some w → tag k = Undefined → blank (curr k) →
  ∃ c, blank c ∧ run_events now (events_of (row_items w r)) k
    = {| addr := addr k; locations := locations k ++ filter (λ l, kept l = true) [parsed now r];
         tag := Undefined; curr := c |}.
Proof.
  intros Hw Hk (B1 & B2 & B3 & B4 & B5 & B6). destruct (format_utc_chars _ _ Hw) as [Hc Hl].
  rewrite row_events; [|done|intros ->; simpl in Hl; lia].
  unfold run_events. cbn [foldl kml_event]. destruct k as [a ls t c0]. destruct c0 as [x1 x2 x3 x4 x5 x6 x7 x8 x9 x10].
  cbn [tag curr addr locations location_id contact_id msg_id chat_id marker independent] in *. subst.
  rewrite start_placemark, start_timestamp, start_when by done.
  rewrite (text_when _ _ _ _ Hw), end_when, end_timestamp, start_point, start_coordinates by done.
  rewrite text_coordinates, end_coordinates, end_point, end_placemark by done.
  change (curr _) with (parsed now r). rewrite filter_cons. simpl.
  destruct (kept (parsed now r)) eqn:E.
  - rewrite decide_True by done. by exists Location_new.
  - rewrite decide_False by done. exists (parsed now r). split; [done|]. by rewrite app_nil_r.
Qed.

Lemma run_events_app now l l' k : run_events now (l ++ l') k = run_events now l' (run_events now l k).
Proof. apply foldl_app. Qed.

Lemma run_rows now rows l k :
  rows_items rows = Some l → tag k = Undefined → blank (curr k) →
  ∃ c, blank c ∧ run_events now (events_of l) k
    = {| addr := addr k; locations := locations k ++ filter (λ l, kept l = true) (parsed now <$> rows);
         tag := Undefined; curr := c |}.
Proof.
  revert l k. induction rows as [|r rows IH]; intros l k; cbn [rows_items].
  - intros <-%(inj Some) Hk Hb. exists (curr k). split; [done|]. destruct k. simpl in *. subst.
    by rewrite app_nil_r.
  - destruct (format_utc (l_timestamp r)) as [w|] eqn:E; [|done]. cbn [mbind option_bind].
    destruct (rows_items rows) as [l'|]; [|done]. cbn [mbind option_bind]. intros <-%(inj Some) Hk Hb.
    unfold events_of. rewrite omap_app. fold (events_of (row_items w r)) (events_of l'). rewrite run_events_app.
    destruct (run_row now w r k E Hk Hb) as (c & Hc & ->).
    edestruct (IH l') as (c' & Hc' & ->); [done..|]. exists c'. split; [done|].
    cbn [addr locations]. by rewrite fmap_cons, <-app_assoc, <-list.filter_app.
Qed.

(** The document the sender makes of its rows is read as the rows it was made of. *)
Lemma parse_document now a rows body :
  plain_value a = true → placemarks rows = Some body →
  let text := kml_start ++ lit "<Document addr=" ++ quoted a ++ lit ">" ++ [LF] ++ body
    ++ lit "</Document>" ++ [LF] ++ lit "</kml>" in
  (byte_len text <= 1024 * 1024)%N →
  ∃ k, Kml_parse now text = Some k ∧ addr k = Some a
    ∧ locations k = filter (λ l, kept l = true) (parsed now <$> rows).
Proof.
  intros Ha Hp text Hlen. destruct (placemarks_items rows body Hp) as (l & Hl & ->).
  unfold Kml_parse. rewrite (proj2 (N.leb_le _ _) Hlen). unfold text.
  rewrite document_text, reads_items by (by eapply well_formed_document).
  change (omap item_event ?x) with (events_of x). rewrite <-fmap_cons, kml_events_run.
  eexists. split; [done|].
  assert (events_of (document_items a l)
    = [Start (lit "kml") [Some (lit "xmlns", Some (lit "http://www.opengis.net/kml/2.2"))];
       Start (lit "Document") [Some (lit "addr", Some a)]]
      ++ events_of l ++ [End_ (lit "Document"); End_ (lit "kml")]) as ->.
  { unfold events_of, document_items. by rewrite !omap_app. }
  change (Other :: ?x ++ ?y) with ((Other :: x) ++ y). rewrite run_events_app, run_events_app.
  assert (∀ xs, run_events now [Other; Start (lit "kml") xs; Start (lit "Document") [Some (lit "addr", Some a)]]
    Kml_new = {| addr := Some a; locations := []; tag := Undefined; curr := Location_new |}) as ->.
  { intros xs. unfold run_events. cbn [foldl kml_event].
    assert (starttag_cb (lit "kml") xs Kml_new = Kml_new) as -> by (unfold starttag_cb; by decide_tags).
    unfold starttag_cb. decide_tags. cbn [find_attr].
    rewrite (trim_no_space (lit "addr")) by (by apply (bool_decide_unpack _)).
    rewrite lower_letters, bool_decide_eq_true_2 by done. done. }
  edestruct (run_rows now rows l) as (c & Hc & ->); [done..|].
  unfold run_events. cbn [foldl kml_event]. done.
Qed.
End Reading.

(** What the clock and SQLite promise. *)
Class SurroundingsOk `{!Platform, !Geo, !Surroundings} : Prop := {
  clock_forward m n : m ≤ n → (clock m <= clock n)%Z;
  group_row_elem r l : group_row r l ∈ r :: l
}.

Section Stream.
Context {PF : Platform} {GE : Geo} {GO : GeoOk} {SR : Surroundings} {SRO : SurroundingsOk}.

(** ** Running the operations *)

Lemma get_config_total key a : ∃ v a', get_config key a = (Ok v, a').
Proof.
  assert (∀ k a, ∃ v a', get_raw_config k a = (Ok v, a')) as Hraw.
  { intros k b. unfold get_raw_config. destruct (config_cache b !! k); by eexists _, _. }
  assert (∀ key a, ∃ v a', get_config_opt key a = (Ok v, a')) as Hopt.
  { intros k b. unfold get_config_opt. destruct (env_var _); [by eexists _, _|].
    destruct k; try apply Hraw; try (by eexists _, _).
    unfold bind. destruct (Hraw (key_name Config.Selfavatar) b) as (v & b' & ->). by eexists _, _. }
  unfold get_config, bind. destruct (Hopt key a) as (v & a1 & ->). destruct v; [by eexists _, _|].
  destruct key; try (by eexists _, _); apply Hopt.
Qed.

(** The tables an operation on locations may not touch. *)
Definition same_places (d d' : LocDb) : Prop :=
  streams d' = streams d ∧ loc_rows d' = loc_rows d ∧ loc_seq d' = loc_seq d
  ∧ self_addr d' = self_addr d ∧ contact_addrs d' = contact_addrs d ∧ mails d' = mails d
  ∧ ticks d' = ticks d.

Lemma emit_location_changed_run c d :
  ∃ d', emit_location_changed c d = (Ok tt, d') ∧ same_places d d'.
Proof.
  unfold emit_location_changed, emit_loc, in_settings. run_se.
  destruct (get_config_total Config.WebxdcIntegration (settings (add_loc_event (LocationChanged c) d)))
    as (v & a & E). unfold get_config_parsed, bind. rewrite E. unfold ret.
  destruct (v ≫= parse_u32); by eexists.
Qed.

(** ** Saving *)

Definition row_of_location (row_id : N) (id : ChatId) (from : ContactId) (indep : bool) (l : Location)
  : loc_row :=
  {| l_id := row_id; l_latitude := latitude l; l_longitude := longitude l; l_accuracy := accuracy l;
     l_timestamp := timestamp l; l_chat_id := id; l_from_id := from; l_independent := indep |}.

Definition known_at (from : ContactId) (t : Z) (rows : list loc_row) : bool :=
  existsb (λ r, (l_timestamp r =? t)%Z && (l_from_id r =? from)%N) rows.

Lemma known_at_elem from t rows :
  known_at from t rows = true ↔ ∃ r, r ∈ rows ∧ l_timestamp r = t ∧ l_from_id r = from.
Proof.
  unfold known_at. rewrite existsb_exists. setoid_rewrite andb_true_iff.
  setoid_rewrite Z.eqb_eq. setoid_rewrite N.eqb_eq. by setoid_rewrite list_elem_of_In.
Qed.

(** Saving a path stores what is new by its time. *)
Lemma save_all_path id from l newest d :
  ∃ newest' d', save_all id from false l newest d = (Ok newest', d')
    ∧ streams d' = streams d ∧ self_addr d' = self_addr d ∧ contact_addrs d' = contact_addrs d
    ∧ mails d' = mails d ∧ ticks d' = ticks d
    ∧ (∀ r, r ∈ loc_rows d → r ∈ loc_rows d')
    ∧ (∀ x, x ∈ l → known_at from (timestamp x) (loc_rows d') = true)
    ∧ (NoDup (timestamp <$> l) → ∀ x, x ∈ l → known_at from (timestamp x) (loc_rows d) = false →
         ∃ n, row_of_location n id from false x ∈ loc_rows d')
    ∧ (∀ r, r ∈ loc_rows d' → r ∈ loc_rows d ∨ ∃ x n, x ∈ l ∧ r = row_of_location n id from false x).
Proof.
  revert newest d. induction l as [|x l IH]; intros newest d; cbn [save_all].
  { eexists _, _. split; [reflexivity|]. split_and!; try done; try set_solver. }
  unfold bind, save_one. run_se. fold (known_at from (timestamp x) (loc_rows d)).
  destruct (known_at from (timestamp x) (loc_rows d)) eqn:Hk; cbn [orb negb].
  - destruct (IH newest d) as (newest' & d' & E & H1 & H2 & H3 & H4 & H5 & H6 & H7 & H8 & H9).
    eexists _, _. split; [exact E|]. split_and!; try done.
    + intros y [->|Hy]%elem_of_cons; [|auto]. apply known_at_elem in Hk as (r & Hr & Ht).
      apply known_at_elem. eauto.
    + rewrite fmap_cons, list.NoDup_cons. intros [Hn Hnd] y [->|Hy]%elem_of_cons Hf; [congruence|]. by apply H8.
    + intros r Hr. destruct (H9 r Hr) as [?|(y & n & ? & ->)]; [by left|]. right. exists y, n. set_solver.
  - unfold insert_location. run_se.
    set (d1 := upd_loc_rows (loc_seq d + 1) (λ l, l ++ [row_of_location (loc_seq d + 1) id from false x]) d).
    destruct (IH (if (newest.1 <? timestamp x)%Z then (timestamp x, Some (loc_seq d + 1)%N) else newest) d1)
      as (newest' & d' & E & H1 & H2 & H3 & H4 & H5 & H6 & H7 & H8 & H9).
    eexists _, _. split; [exact E|]. split_and!; try done.
    + intros r Hr. apply H6. simpl. set_solver.
    + intros y [->|Hy]%elem_of_cons; [|auto]. apply known_at_elem.
      exists (row_of_location (loc_seq d + 1) id from false x). split_and!; try done.
      apply H6. simpl. set_solver.
    + rewrite fmap_cons, list.NoDup_cons. intros [Hn Hnd] y [->|Hy]%elem_of_cons Hf; [exists (loc_seq d + 1)%N; apply H6; simpl; set_solver|].
      apply H8; [done|done|]. apply not_true_is_false. rewrite known_at_elem. simpl.
      intros (r & [Hr|Hr]%elem_of_app & Ht & Hfr).
      * apply not_true_iff_false in Hf. apply Hf, known_at_elem. eauto.
      * apply list_elem_of_singleton in Hr as ->. simpl in Ht. apply Hn. rewrite Ht.
        by apply list_elem_of_fmap_2.
    + intros r Hr. destruct (H9 r Hr) as [Hr'|(y & n & ? & ->)]; [|right; exists y, n; set_solver].
      simpl in Hr'. apply elem_of_app in Hr' as [?|Hr']; [by left|].
      apply list_elem_of_singleton in Hr' as ->. right. eexists _, _. split; [|done]. by left.
Qed.

(** ** Selecting *)

(** The streaming row of a chat. *)
Definition stream_of (id : ChatId) (d : LocDb) : option stream :=
  head (filter (λ r, s_chat r = id) (streams d)).

(** The rows [get_kml] sends. *)
Definition sent_rows (st : stream) (d : LocDb) : list loc_row :=
  by_timestamp (unsent_rows (locations_send_begin st) (locations_last_sent st) (loc_rows d)).

Lemma by_timestamp_elem r rows :
  r ∈ by_timestamp rows → r ∈ rows.
Proof.
  unfold by_timestamp. rewrite list_elem_of_omap. intros (t & _ & H).
  destruct (filter _ rows) as [|x l] eqn:E; [done|]. injection H as <-.
  pose proof (group_row_elem x l) as Hg. rewrite <-E in Hg. by apply list_elem_of_filter in Hg as [_ ?].
Qed.

(** Every time is represented, once and in order. *)
Lemma by_timestamp_times rows :
  l_timestamp <$> by_timestamp rows = merge_sort Z.le (remove_dups (l_timestamp <$> rows)).
Proof.
  unfold by_timestamp.
  assert (∀ ts : list Z, (∀ t, t ∈ ts → t ∈ l_timestamp <$> rows) →
    l_timestamp <$> omap (λ t, match filter (λ r, l_timestamp r = t) rows with
      | [] => None | r :: l => Some (group_row r l) end) ts = ts) as H.
  { intros ts. induction ts as [|t ts IH]; intros Hts; [done|]. cbn [omap list_omap].
    destruct (filter _ rows) as [|x l] eqn:E.
    - destruct (proj1 (list_elem_of_fmap _ _ _) (Hts t ltac:(by left))) as (r & -> & Hr).
      exfalso. apply (not_elem_of_nil r). rewrite <-E. by apply list_elem_of_filter.
    - rewrite fmap_cons, IH by set_solver. f_equal.
      pose proof (group_row_elem x l) as Hg. rewrite <-E in Hg. by apply list_elem_of_filter in Hg as [? _]. }
  apply H. intros t Ht. rewrite (merge_sort_Permutation Z.le) in Ht. rewrite elem_of_remove_dups in Ht. exact Ht.
Qed.

Lemma by_timestamp_nodup rows : NoDup (l_timestamp <$> by_timestamp rows).
Proof.
  rewrite by_timestamp_times, (merge_sort_Permutation Z.le). apply NoDup_remove_dups.
Qed.

Lemma by_timestamp_all r rows :
  r ∈ rows → ∃ r', r' ∈ by_timestamp rows ∧ l_timestamp r' = l_timestamp r.
Proof.
  intros Hr. assert (l_timestamp r ∈ l_timestamp <$> by_timestamp rows) as (r' & E & Hr')%list_elem_of_fmap.
  { rewrite by_timestamp_times, (merge_sort_Permutation Z.le). by apply elem_of_remove_dups, list_elem_of_fmap_2. }
  eauto.
Qed.

Lemma get_kml_run id d text last_id d' :
  get_kml id d = (Ok (Some (text, last_id)), d') →
  d' = tick d ∧ ∃ a st body, self_addr d = Some a ∧ stream_of id d = Some st
    ∧ locations_send_begin st ≠ 0%Z ∧ (clock (ticks d) <= locations_send_until st)%Z
    ∧ sent_rows st d ≠ [] ∧ placemarks (sent_rows st d) = Some body
    ∧ text = kml_start ++ lit "<Document addr=" ++ quoted a ++ lit ">" ++ [LF] ++ body
        ++ lit "</Document>" ++ [LF] ++ lit "</kml>".
Proof.
  unfold get_kml, time. intros H. apply bind_ok in H as (x & s1 & E & H). injection E as <- <-.
  apply bind_ok in H as (a & s1 & E & H). destruct (self_addr d) as [a'|] eqn:Ha; [|done]. injection E as -> <-.
  apply bind_ok in H as (x & s1 & E & H). unfold gets in E. fold (stream_of id d) in E. injection E as <- <-.
  apply bind_ok in H as (st & s1 & E & H). destruct (stream_of id d) as [st'|] eqn:Hst; [|done].
  injection E as -> <-. apply bind_ok in H as (now & s1 & E & H). injection E as <- <-.
  destruct (_ =? 0)%Z eqn:Eb in H; [done|]. destruct (_ <=? _)%Z eqn:Eu in H; [|done]. cbn [negb andb] in H.
  apply bind_ok in H as (rows & s1 & E & H). unfold gets in E.
  change (loc_rows (tick d)) with (loc_rows d) in E. fold (sent_rows st d) in E. injection E as <- <-.
  apply bind_ok in H as (body & s1 & E & H). destruct (placemarks (sent_rows st d)) as [b'|] eqn:Hp; [|done].
  injection E as -> <-.
  destruct (list.last (sent_rows st d)) as [r|] eqn:Hl; [|done].
  unfold ret in H. apply pair_equal_spec in H as [H1 <-].
  assert (text = kml_start ++ lit "<Document addr=" ++ quoted a ++ lit ">" ++ [LF] ++ body
    ++ lit "</Document>" ++ [LF] ++ lit "</kml>") as -> by congruence.
  split; [done|]. exists a, st, body. apply Z.eqb_neq in Eb. apply Z.leb_le in Eu.
  split_and!; try done. intros E. by rewrite E in Hl.
Qed.

(** The locations a chat has not got arrive: the document that is attached to a message is
    understood by the receiver, who stores a location of the sender for each time at which the
    sender recorded one since the last message, with the position and the accuracy that was recorded,
    unless there already is one for that time. *)
Theorem streamed_locations_arrive id d text last_id d' a st now chat from c msg dB :
  get_kml id d = (Ok (Some (text, last_id)), d') → self_addr d = Some a → plain_value a = true →
  (byte_len text <= 1024 * 1024)%N → stream_of id d = Some st →
  Forall (λ r, kept (parsed now r) = true ∧ (l_timestamp r <= now)%Z) (sent_rows st d) →
  contact_addrs dB !! from = Some c → str_to_lowercase c = str_to_lowercase a →
  chat_is_special chat = false →
  ∃ k dB', Kml_parse now text = Some k
    ∧ save_locations None (Some k) chat from msg dB = (Ok tt, dB')
    ∧ ∀ r, r ∈ unsent_rows (locations_send_begin st) (locations_last_sent st) (loc_rows d) →
        known_at from (l_timestamp r) (loc_rows dB') = true
        ∧ (known_at from (l_timestamp r) (loc_rows dB) = false →
           ∃ r0 n, r0 ∈ loc_rows d ∧ l_from_id r0 = SELF ∧ l_timestamp r0 = l_timestamp r
             ∧ {| l_id := n; l_latitude := l_latitude r0; l_longitude := l_longitude r0;
                  l_accuracy := l_accuracy r0; l_timestamp := l_timestamp r; l_chat_id := chat;
                  l_from_id := from; l_independent := false |} ∈ loc_rows dB').
Proof.
  intros H Ha Hpl Hlen Hst Hall Hc Hlow Hsp.
  destruct (get_kml_run _ _ _ _ _ H) as (-> & a' & st' & body & Ha' & Hst' & _ & _ & _ & Hp & ->).
  assert (a' = a) as -> by congruence. assert (st' = st) as -> by congruence.
  destruct (parse_document now a _ _ Hpl Hp Hlen) as (k & Hk & Hka & Hkl). exists k.
  assert (locations k = parsed now <$> sent_rows st d) as Hkl'.
  { rewrite Hkl. clear -Hall. induction Hall as [|r l [Hr _] _ IH]; [done|].
    rewrite fmap_cons, filter_cons_True, IH by done. done. }
  assert (timestamp <$> locations k = l_timestamp <$> sent_rows st d) as Hts.
  { rewrite Hkl', <-list_fmap_compose. apply list_fmap_ext. intros i r Hr.
    apply list_elem_of_lookup_2 in Hr. rewrite list.Forall_forall in Hall. destruct (Hall r Hr) as [_ Hle].
    simpl. destruct (Z.ltb_spec now (l_timestamp r)); [lia|done]. }
  destruct (save_all_path chat from (locations k) (0%Z, None) dB)
    as (newest & d1 & E & _ & _ & _ & _ & _ & _ & H7 & H8 & _).
  assert (∃ dB', save_locations None (Some k) chat from msg dB = (Ok tt, dB') ∧ loc_rows dB' = loc_rows d1)
    as (dB' & Es & Hr).
  { unfold save_locations, save. rewrite Hsp, Hka. run_se. rewrite Hc, (bool_decide_eq_true_2 _ Hlow).
    unfold ensure_loc, ret. cbv beta iota. rewrite E. cbn [orb]. case_bool_decide; [|by exists d1].
    destruct (emit_location_changed_run (Some from) d1) as (d2 & -> & Hs). exists d2. split; [done|]. apply Hs. }
  exists dB'. split; [done|]. split; [done|]. rewrite Hr. intros r Hin.
  destruct (by_timestamp_all _ _ Hin) as (r0 & Hr0 & Ht). change (r0 ∈ sent_rows st d) in Hr0.
  assert (parsed now r0 ∈ locations k) as Hx by (rewrite Hkl'; by apply list_elem_of_fmap_2).
  assert (timestamp (parsed now r0) = l_timestamp r) as Hxt.
  { rewrite list.Forall_forall in Hall. destruct (Hall r0 Hr0) as [_ Hle]. simpl.
    destruct (Z.ltb_spec now (l_timestamp r0)); [lia|congruence]. }
  split; [rewrite <-Hxt; by apply H7|]. intros Hf. rewrite <-Hxt in Hf.
  destruct (H8 ltac:(rewrite Hts; apply by_timestamp_nodup) _ Hx Hf) as (n & Hn).
  apply by_timestamp_elem, list_elem_of_filter in Hr0 as [(Hs & _) Hr0].
  exists r0, n. split_and!; try done. unfold row_of_location in Hn. by rewrite Hxt in Hn.
Qed.
(** ** Windows

    The text of a document with these rows. *)
Definition is_document (a : str) (rows : list loc_row) (text : str) : Prop :=
  ∃ body, placemarks rows = Some body
    ∧ text = kml_start ++ lit "<Document addr=" ++ quoted a ++ lit ">" ++ [LF] ++ body
        ++ lit "</Document>" ++ [LF] ++ lit "</kml>".

(** Streaming to a chat goes on as it was, or it ends. *)
Definition narrows (d d' : LocDb) : Prop :=
  ∀ st', st' ∈ streams d' → locations_send_begin st' ≠ 0%Z →
    ∃ st, st ∈ streams d ∧ s_chat st' = s_chat st
      ∧ locations_send_begin st' = locations_send_begin st
      ∧ locations_send_until st' = locations_send_until st.

(** A mail has locations only from a window of the chat, and is rendered before it ends. *)
Definition within_window (d : LocDb) (m : mail) : Prop :=
  ∀ text, ml_kml m = Some text →
    ∃ st a rows, st ∈ streams d ∧ s_chat st = ml_chat m ∧ locations_send_begin st ≠ 0%Z
      ∧ (clock (ticks d) <= locations_send_until st)%Z ∧ is_document a rows text
      ∧ Forall (λ r, l_from_id r = SELF ∧ l_independent r = false
                     ∧ (locations_send_begin st <= l_timestamp r)%Z) rows.

Definition on_course (d d' : LocDb) : Prop :=
  narrows d d' ∧ ticks d ≤ ticks d'
  ∧ ∀ m, m ∈ mails d' → m ∈ mails d ∨ within_window d m.

Lemma on_course_refl d : on_course d d.
Proof. split_and!; [|done|auto]. intros st Hst _. by exists st. Qed.

Lemma on_course_same d0 d d' :
  on_course d0 d → (∀ st, st ∈ streams d' → st ∈ streams d ∨ locations_send_begin st = 0%Z
    ∨ ∃ st1 t, st1 ∈ streams d ∧ st = set_last_sent t st1) →
  ticks d ≤ ticks d' → mails d' = mails d → on_course d0 d'.
Proof.
  intros (H1 & H2 & H3) Hs Ht Hm. split_and!; [|lia|by rewrite Hm].
  intros st Hst Hb. destruct (Hs st Hst) as [H|[H|(st1 & t & H & ->)]]; [by apply H1|done|].
  by apply (H1 st1).
Qed.

Lemma update_stream_elem id f d st :
  st ∈ streams (update_stream id f d).2 →
  st ∈ streams d ∨ ∃ st1, st1 ∈ streams d ∧ s_chat st1 = id ∧ st = f st1.
Proof.
  simpl. intros (st1 & -> & H)%list_elem_of_fmap. destruct (N.eqb_spec (s_chat st1) id); eauto.
Qed.

Section Courses.
Context (d0 : LocDb).
Local Abbreviation keeps := (preserves (on_course d0)).

Lemma keeps_modify f :
  (∀ d, streams (f d) = streams d ∧ ticks d ≤ ticks (f d) ∧ mails (f d) = mails d) →
  preserves (Er := loc_error) (on_course d0) (modify f).
Proof.
  intros Hf d Hd. destruct (Hf d) as (H1 & H2 & H3). apply (on_course_same d0 d); try done.
  intros st Hst. left. simpl in Hst. by rewrite H1 in Hst.
Qed.

Lemma keeps_time : keeps time.
Proof. unfold time. preserves_tac. apply keeps_modify. intros d. simpl. auto with lia. Qed.

Lemma keeps_emit e : keeps (emit_loc e).
Proof. apply keeps_modify. done. Qed.

Lemma keeps_settings {X} (x : A X) : keeps (in_settings x).
Proof.
  intros d Hd. unfold in_settings. destruct (x (settings d)) as [[v|e] a];
    (apply (on_course_same d0 d); try done; by left).
Qed.

Lemma keeps_close id : keeps (update_stream id (set_window 0 0)).
Proof.
  intros d Hd. apply (on_course_same d0 d); [done| |done|done].
  intros st [Hst|(st1 & _ & _ & ->)]%update_stream_elem; [by left|by right; left].
Qed.

Lemma keeps_sent id t : keeps (set_kml_sent_timestamp id t).
Proof.
  intros d Hd. apply (on_course_same d0 d); [done| |done|done].
  intros st [Hst|(st1 & H & _ & ->)]%update_stream_elem; [by left|]. right; right. by exists st1, t.
Qed.
Hint Resolve keeps_time keeps_emit keeps_settings keeps_close keeps_sent : preserves.

Lemma keeps_sending id : keeps (is_sending_to_chat id).
Proof. unfold is_sending_to_chat. preserves_tac. Qed.

Lemma keeps_kml id : keeps (get_kml id).
Proof. unfold get_kml. preserves_tac. Qed.

Lemma keeps_location_changed c : keeps (emit_location_changed c).
Proof. unfold emit_location_changed. preserves_tac. Qed.

Lemma keeps_info id : keeps (add_disabled_info id).
Proof. unfold add_disabled_info. preserves_tac. by apply keeps_modify. Qed.

Lemma keeps_insert mk : keeps (insert_location mk).
Proof. unfold insert_location. preserves_tac. by apply keeps_modify. Qed.
Hint Resolve keeps_sending keeps_kml keeps_location_changed keeps_info keeps_insert : preserves.

Lemma stream_of_elem id d st : stream_of id d = Some st → st ∈ streams d ∧ s_chat st = id.
Proof. intros H%head_Some_elem_of. by apply list_elem_of_filter in H as [? ?]. Qed.

(** What is attached comes from a window that is open. *)
Lemma kml_part_window id msg d content counts d' :
  on_course d0 d → get_location_kml_part id msg d = (Ok (Some content, counts), d') →
  within_window d0 {| ml_chat := id; ml_msg := msg; ml_kml := Some content |}.
Proof.
  intros Hd H. unfold get_location_kml_part in H. apply bind_ok in H as (b & d1 & E1 & H).
  assert (on_course d0 d1) as Hd1 by (eapply preserves_run; [apply keeps_sending|exact E1|done]).
  destruct b; [|done]. apply bind_ok in H as (kml & d2 & E2 & H). destruct kml as [[c n]|]; [|done].
  injection H as <- _ _. destruct (get_kml_run _ _ _ _ _ E2) as (_ & a & st & body & _ & Hst & Hb & Hu & _ & Hp & ->).
  destruct (stream_of_elem _ _ _ Hst) as [Hin Hid]. destruct Hd1 as (H1 & H2 & _).
  destruct (H1 st Hin Hb) as (st0 & Hin0 & Hc & Hb0 & Hu0). intros text. simpl. intros <-%(inj Some).
  exists st0, a, (sent_rows st d1). rewrite <-Hb0, <-Hu0. split_and!; try done.
  - congruence.
  - etrans; [|exact Hu]. by apply clock_forward.
  - by exists body.
  - apply list.Forall_forall. intros r Hr. apply by_timestamp_elem, list_elem_of_filter in Hr as [(? & ? & ? & ?) _].
    done.
Qed.

Lemma keeps_part id msg : keeps (get_location_kml_part id msg).
Proof. unfold get_location_kml_part. preserves_tac. Qed.

Lemma keeps_send id msg : keeps (send_msg id msg).
Proof.
  unfold send_msg. apply preserves_bind; [apply preserves_gets|]. intros [| |]; [auto with preserves..|].
  intros d Hd. unfold bind at 1. destruct (get_location_kml_part id msg d) as [[[kml counts]|e] d1] eqn:E;
    [|by eapply preserves_run; [apply keeps_part|exact E|]].
  assert (on_course d0 d1) as Hd1 by (by eapply preserves_run; [apply keeps_part|exact E|]).
  unfold finish_sending. cbn [fst snd].
  assert (keeps (now <- time ;; when counts (set_kml_sent_timestamp id now))) as Hk by preserves_tac.
  specialize (Hk d1 Hd1). unfold bind in *. destruct (time d1) as [[now|e] d2]; [|done].
  destruct (when counts _ d2) as [[[]|e] d3] eqn:E3; [|done]. simpl in Hk |- *.
  destruct Hk as (H1 & H2 & H3). split_and!; [done..|]. simpl. intros m [Hm|Hm]%elem_of_app; [auto|].
  apply list_elem_of_singleton in Hm as ->. right. destruct kml as [content|]; [|done].
  eapply kml_part_window; [exact Hd|exact E].
Qed.
Hint Resolve keeps_part keeps_send : preserves.

Lemma keeps_maybe_send : keeps maybe_send.
Proof.
  unfold maybe_send. preserves_tac. generalize (None : option Z).
  match goal with |- ∀ n, keeps (maybe_send_all _ ?l n) => induction l as [|r l IH] end; intros n;
    cbn [maybe_send_all]; unfold maybe_send_one; preserves_tac.
Qed.

Lemma keeps_loop : keeps location_loop_wait.
Proof.
  intros d Hd. unfold location_loop_wait. pose proof (keeps_maybe_send d Hd).
  by destruct (maybe_send d) as [[[]|] ?].
Qed.

Lemma keeps_set lat lon acc : keeps (set lat lon acc).
Proof.
  unfold set. destruct (_ && _); [auto with preserves|]. preserves_tac.
  apply preserves_for_each. intros. preserves_tac.
Qed.

Lemma keeps_save id from l indep : keeps (save id from l indep).
Proof.
  unfold save, ensure_loc. preserves_tac. generalize (0%Z, None : option N).
  induction l as [|x l IH]; intros n; cbn [save_all]; unfold save_one; preserves_tac.
Qed.
Hint Resolve keeps_save : preserves.

Lemma keeps_save_locations mk lk id from msg : keeps (save_locations mk lk id from msg).
Proof. unfold save_locations, set_msg_location_id. preserves_tac; by apply keeps_modify. Qed.

(** Switching streaming off, or a request that is refused. *)
Lemma keeps_stop id seconds :
  (seconds <= 0)%Z ∨ chat_is_special id = true → keeps (send_to_chat id seconds).
Proof.
  intros Hs. unfold send_to_chat, ensure_loc.
  destruct (0 <=? seconds)%Z eqn:E; [|by intros d Hd]. destruct (chat_is_special id) eqn:Hsp; [by intros d Hd|].
  assert (seconds = 0%Z) as -> by (apply Z.leb_le in E; destruct Hs; [lia|done]). simpl. preserves_tac.
Qed.

Lemma keeps_stop_sending : keeps stop_sending.
Proof.
  unfold stop_sending, get_chats_with_location_streaming. preserves_tac.
  apply preserves_for_each. intros id _. apply keeps_stop. by left.
Qed.
End Courses.

(** ** Histories *)

Inductive loc_op :=
| SendToChat (id : ChatId) (seconds : Z)
| StopSending
| SetLocation (lat lon acc : f64)
| SendMessage (id : ChatId) (msg : OutMsg)
| LoopRound
| ReceiveLocations (message_kml location_kml : option Kml) (id : ChatId) (from : ContactId) (msg : N)
| DeleteExpired (now : Z)
| DeletePoi (location : N)
| Housekeeping.

Definition run_op (op : loc_op) (d : LocDb) : LocDb :=
  match op with
  | SendToChat id seconds => (send_to_chat id seconds d).2
  | StopSending => (stop_sending d).2
  | SetLocation lat lon acc => (set lat lon acc d).2
  | SendMessage id msg => (send_msg id msg d).2
  | LoopRound => (location_loop_wait d).2
  | ReceiveLocations mk lk id from msg => (save_locations mk lk id from msg d).2
  | DeleteExpired now => (delete_expired now d).2
  | DeletePoi location => (delete_poi location d).2
  | Housekeeping => (delete_orphaned_poi d).2
  end.

Definition run_ops (ops : list loc_op) (d : LocDb) : LocDb := foldl (λ d op, run_op op d) d ops.

Lemma run_ops_snoc ops op d : run_ops (ops ++ [op]) d = run_op op (run_ops ops d).
Proof. unfold run_ops. by rewrite foldl_app. Qed.

(** In the state [d] the operation leaves a window of the chat alone that is open until [u]: it is no
    request for this chat, and no end of all streaming, unless that fails or comes when the window is over. *)
Definition leaves_window (d : LocDb) (id : ChatId) (u : Z) (op : loc_op) : Prop :=
  match op with
  | SendToChat id' seconds => id' = id → (seconds < 0)%Z ∨ chat_is_special id = true
  | StopSending => (stop_sending d).1 ≠ Ok tt ∨ (u <= clock (ticks d))%Z
  | _ => True
  end.

(** The last thing the user said about streaming to the chat is to do it, from [b] to [u]. *)
Definition granted (d0 : LocDb) (ops : list loc_op) (id : ChatId) (b u : Z) : Prop :=
  ∃ pre mid seconds, ops = pre ++ SendToChat id seconds :: mid ∧ (0 < seconds)%Z ∧ chat_is_special id = false
    ∧ (∀ mid1 op mid2, mid = mid1 ++ op :: mid2 →
         leaves_window (run_ops (pre ++ SendToChat id seconds :: mid1) d0) id u op)
    ∧ b = clock (ticks (run_ops pre d0)) ∧ u = (b + seconds)%Z.

Lemma granted_snoc d0 ops op id b u :
  granted d0 ops id b u → leaves_window (run_ops ops d0) id u op → granted d0 (ops ++ [op]) id b u.
Proof.
  intros (pre & mid & seconds & -> & Hs & Hsp & Hm & Hb & Hu) Hop. exists pre, (mid ++ [op]), seconds.
  split_and!; try done; [by rewrite <-app_assoc|]. intros mid1 op' mid2 E.
  destruct mid2 as [|x mid2 _] using rev_ind.
  - apply app_inj_tail in E as [-> ->]. done.
  - rewrite app_comm_cons, app_assoc in E. apply app_inj_tail in E as [E _]. by apply (Hm _ _ mid2).
Qed.

Lemma bind_run {St Er X Y} (x : SE St Er X) (f : X -> SE St Er Y) d v d1 :
  x d = (Ok v, d1) → bind x f d = f v d1.
Proof. intros E. unfold bind. by rewrite E. Qed.

(** *** The end of all streaming *)

(** Since [d] no mail was sent and no window opened; those of the chats [done] are closed. *)
Definition stopping (d : LocDb) (done : list ChatId) (d' : LocDb) : Prop :=
  narrows d d' ∧ mails d' = mails d
  ∧ ∀ st, st ∈ streams d' → s_chat st ∈ done → locations_send_begin st = 0%Z.

Lemma stopping_frame d done f :
  (∀ d', streams (f d') = streams d' ∧ mails (f d') = mails d') →
  preserves (Er := loc_error) (stopping d done) (modify f).
Proof.
  intros Hf d' (H1 & H2 & H3). destruct (Hf d') as [E1 E2]. simpl.
  split_and!; [intros st; rewrite E1; apply H1|congruence|intros st; rewrite E1; apply H3].
Qed.

Lemma stop_one d done id d' r d'' :
  stopping d done d' → send_to_chat id 0 d' = (r, d'') →
  stopping d done d'' ∧ (r = Ok tt → stopping d (id :: done) d'').
Proof.
  intros Hd H. unfold send_to_chat, ensure_loc in H. change (0 <=? 0)%Z with true in H. change (negb (0 =? 0)%Z) with false in H.
  erewrite bind_run in H by reflexivity. destruct (chat_is_special id); [by injection H as <- <-|].
  do 4 (erewrite bind_run in H by reflexivity). cbn [andb negb] in H.
  match type of H with bind _ _ ?x = _ => set (d1 := x) in H; assert (stopping d (id :: done) d1 ∧ stopping d done d1) as [H1 H1'] end.
  { assert (∀ st, st ∈ streams d1 → st ∈ streams d' ∧ s_chat st ≠ id ∨ locations_send_begin st = 0%Z) as Hst.
    { intros st (st1 & -> & Hin)%list_elem_of_fmap. destruct (N.eqb_spec (s_chat st1) id); [by right|by left]. }
    destruct Hd as (K1 & K2 & K3). unfold stopping. split_and!; try done.
    all: intros st Hin; destruct (Hst st Hin) as [[Hin' Hne]|E]; [|done]; try by apply K1.
    - intros [?|?]%elem_of_cons; [done|by apply K3].
    - by apply K3. }
  match type of H with ?x d1 = _ => assert (∀ l, preserves (stopping d l) x) as Hp end.
  { intros l. preserves_tac; try (unfold add_disabled_info; preserves_tac); by apply stopping_frame. }
  pose proof (Hp (id :: done) d1 H1) as G1. pose proof (Hp done d1 H1') as G2. rewrite H in G1, G2. by split.
Qed.

Lemma stop_all d l : ∀ done d' r d'',
  stopping d done d' → for_each l (λ id, send_to_chat id 0) d' = (r, d'') →
  stopping d done d'' ∧ (r = Ok tt → stopping d (rev l ++ done) d'').
Proof.
  induction l as [|id l IH]; intros done d' r d'' Hd H; [by injection H as <- <-|].
  cbn [for_each] in H. unfold bind in H. destruct (send_to_chat id 0 d') as [[[]|e] d1] eqn:E.
  - destruct (stop_one _ _ _ _ _ _ Hd E) as [H1 H2]. split; [by apply (IH _ _ _ _ H1 H)|].
    intros Hr. cbn [rev]. rewrite <-app_assoc. by apply (IH _ _ _ _ (H2 eq_refl) H).
  - injection H as <- <-. by destruct (stop_one _ _ _ _ _ _ Hd E).
Qed.

(** After the end of all streaming, the windows that are left were over before. *)
Lemma stop_sending_run d r d' :
  stop_sending d = (r, d') →
  mails d' = mails d
  ∧ ∀ st, st ∈ streams d' → locations_send_begin st ≠ 0%Z →
      ∃ st0, st0 ∈ streams d ∧ s_chat st = s_chat st0 ∧ locations_send_begin st = locations_send_begin st0
        ∧ locations_send_until st = locations_send_until st0
        ∧ (r ≠ Ok tt ∨ (locations_send_until st <= clock (ticks d))%Z).
Proof.
  unfold stop_sending, get_chats_with_location_streaming, time. intros H.
  erewrite bind_run in H by reflexivity. set (l := s_chat <$> _) in H.
  assert (stopping d [] (tick d)) as H0.
  { split_and!; [|done|by intros st _ ?%elem_of_nil]. intros st Hin _. by exists st. }
  destruct (stop_all d l _ _ _ _ H0 H) as [(H1 & H2 & _) H3]. split; [done|]. intros st Hin Hb.
  destruct (H1 st Hin Hb) as (st0 & Hin0 & Hc & Eb & Eu). exists st0. split_and!; try done.
  destruct r as [[]|e]; [right|by left]. destruct (H3 eq_refl) as (_ & _ & H4). rewrite Eu. apply Z.nlt_ge. intros Hlt.
  apply Hb, (H4 st Hin). rewrite app_nil_r. apply list_elem_of_In, (proj1 (in_rev _ _)), list_elem_of_In.
  unfold l. rewrite Hc. apply list_elem_of_fmap_2, list_elem_of_filter. done.
Qed.

(** An operation that does not set a window stays on course. *)
Definition is_grant (op : loc_op) : bool :=
  match op with SendToChat id seconds => (0 <=? seconds)%Z && negb (chat_is_special id) | _ => false end.

Lemma run_op_course op d : is_grant op = false → on_course d (run_op op d).
Proof.
  pose proof (on_course_refl d) as Hd. destruct op; simpl; intros Hg;
    try (eapply keeps_stop_sending || eapply keeps_set || eapply keeps_send || eapply keeps_loop
         || eapply keeps_save_locations); try done.
  - apply keeps_stop; [|done]. rewrite andb_false_iff, Z.leb_gt, negb_false_iff in Hg. destruct Hg; [left; lia|by right].
  - unfold delete_expired. assert (preserves (on_course d) (delete_expired now)) as H; [|by apply H].
    unfold delete_expired. preserves_tac;
      first [apply keeps_settings|by apply keeps_modify|apply keeps_location_changed].
Qed.

(** A request opens a window, and the rest stays on course. *)
Lemma grant_course id seconds d :
  is_grant (SendToChat id seconds) = true →
  ∃ d1, on_course d1 (run_op (SendToChat id seconds) d) ∧ mails d1 = mails d ∧ ticks d ≤ ticks d1
    ∧ streams d1 = (λ r, if (s_chat r =? id)%N
        then set_window (if negb (0 =? seconds)%Z then clock (ticks d) else 0)
               (if negb (0 =? seconds)%Z then clock (ticks d) + seconds else 0) r else r) <$> streams d.
Proof.
  intros Hg. simpl in Hg. apply andb_true_iff in Hg as [Hs Hsp]. apply negb_true_iff in Hsp.
  cbn [run_op]. unfold send_to_chat, ensure_loc. rewrite Hs, Hsp. cbn [negb].
  do 5 (erewrite bind_run by reflexivity). set (d1 := upd_streams _ _). exists d1.
  split_and!; try done; [|simpl; lia].
  match goal with |- on_course d1 (?x d1).2 => assert (preserves (on_course d1) x) as H; [|apply H, on_course_refl] end.
  preserves_tac; first [apply keeps_send|apply keeps_emit|apply keeps_info].
Qed.

(** The mails and the windows of a history. *)
Definition mail_granted (d0 : LocDb) (ops : list loc_op) (m : mail) : Prop :=
  ∀ text, ml_kml m = Some text →
    ∃ pre op post b u a rows, ops = pre ++ op :: post ∧ granted d0 (pre ++ [op]) (ml_chat m) b u
      ∧ (clock (ticks (run_ops pre d0)) <= u)%Z ∧ is_document a rows text
      ∧ Forall (λ r, l_from_id r = SELF ∧ l_independent r = false ∧ (b <= l_timestamp r)%Z) rows.

Definition windows_granted (d0 : LocDb) (ops : list loc_op) (d : LocDb) : Prop :=
  ∀ st, st ∈ streams d → locations_send_begin st ≠ 0%Z →
    granted d0 ops (s_chat st) (locations_send_begin st) (locations_send_until st).

Lemma course_granted d0 ops op d1 d2 :
  windows_granted d0 (ops ++ [op]) d1 → ticks (run_ops ops d0) ≤ ticks d1 → on_course d1 d2 →
  (∀ m, m ∈ mails d1 → mail_granted d0 (ops ++ [op]) m) →
  windows_granted d0 (ops ++ [op]) d2 ∧ ∀ m, m ∈ mails d2 → mail_granted d0 (ops ++ [op]) m.
Proof.
  intros Hw Ht (Hn & _ & Hm) Hold. split.
  - intros st Hst Hb. destruct (Hn st Hst Hb) as (st1 & Hin & Hc & Eb & Eu). rewrite Hc, Eb, Eu.
    apply Hw; [done|congruence].
  - intros m Hin. destruct (Hm m Hin) as [|Hwin]; [auto|]. intros text Htext.
    destruct (Hwin text Htext) as (st & a & rows & Hst & Hc & Hb & Hu & Hdoc & Hrows).
    exists ops, op, [], (locations_send_begin st), (locations_send_until st), a, rows. split_and!; try done.
    + rewrite <-Hc. by apply Hw.
    + etrans; [|exact Hu]. by apply clock_forward.
Qed.

Lemma mail_granted_snoc d0 ops op m : mail_granted d0 ops m → mail_granted d0 (ops ++ [op]) m.
Proof.
  intros H text Htext. destruct (H text Htext) as (pre & op' & post & b & u & a & rows & -> & H').
  exists pre, op', (post ++ [op]), b, u, a, rows. split; [by rewrite <-app_assoc|done].
Qed.

Lemma history_granted d0 ops :
  Forall (λ st, locations_send_begin st = 0%Z) (streams d0) → mails d0 = [] →
  windows_granted d0 ops (run_ops ops d0) ∧ ∀ m, m ∈ mails (run_ops ops d0) → mail_granted d0 ops m.
Proof.
  intros Hs Hm. induction ops as [|op ops [IHw IHm]] using rev_ind.
  { simpl. split; [|rewrite Hm; by intros m ?%elem_of_nil]. intros st Hst Hb.
    rewrite list.Forall_forall in Hs. by destruct Hb; apply Hs. }
  rewrite run_ops_snoc. set (d := run_ops ops d0) in *.
  destruct (is_grant op) eqn:Hg.
  - destruct op as [id seconds| | | | | | | |]; try done.
    destruct (grant_course id seconds d Hg) as (d1 & Hc & Hm1 & Ht & Hst).
    apply (course_granted d0 ops _ d1); [|done|done|rewrite Hm1; auto using mail_granted_snoc].
    intros st. rewrite Hst. intros (st1 & -> & Hin)%list_elem_of_fmap.
    apply andb_true_iff in Hg as [Hg Hsp]. apply Z.leb_le in Hg.
    destruct (N.eqb_spec (s_chat st1) id) as [<-|Hne].
    + destruct (Z.eqb_spec 0 seconds) as [|Hs0]; simpl; intros Hb; [done|].
      exists ops, [], seconds. split_and!; try done; [lia|by apply negb_true_iff|]. by intros [].
    + intros Hb. apply granted_snoc; [by apply IHw|]. simpl. congruence.
  - assert (op = StopSending ∨ op ≠ StopSending) as [->|Hns] by (destruct op; first [by left|by right]).
    { unfold run_op. destruct (stop_sending d) as [r d'] eqn:E. destruct (stop_sending_run d r d' E) as [Hm' Hw].
      cbn [snd]. split; [|rewrite Hm'; auto using mail_granted_snoc].
      intros st Hin Hb. destruct (Hw st Hin Hb) as (st0 & Hin0 & -> & Eb & Eu & Hend). rewrite Eb, Eu.
      apply granted_snoc; [apply IHw; [done|congruence]|]. simpl. fold d. rewrite E. by rewrite <-Eu. }
    pose proof (run_op_course op d Hg) as Hc.
    apply (course_granted d0 ops _ d); [|done|done|auto using mail_granted_snoc].
    intros st Hst Hb. apply granted_snoc; [by apply IHw|]. destruct op; try done. simpl in *. intros <-.
    rewrite andb_false_iff, Z.leb_gt, negb_false_iff in Hg. tauto.
Qed.


(** ** Nothing is left out *)

(** The chat got a location of that time. *)
Definition delivered (id : ChatId) (t : Z) (d : LocDb) : Prop :=
  ∃ m text a rows, m ∈ mails d ∧ ml_chat m = id ∧ ml_kml m = Some text ∧ is_document a rows text
    ∧ t ∈ l_timestamp <$> rows.

(** Of the own locations since streaming began, those before the last sending were delivered. *)
Record nothing_missing (d : LocDb) : Prop := {
  nm_keys : NoDup (s_chat <$> streams d);
  nm_sent : ∀ st, st ∈ streams d → (locations_last_sent st <= clock (ticks d))%Z;
  nm_rows : ∀ st r, st ∈ streams d → locations_send_begin st ≠ 0%Z → r ∈ loc_rows d →
    l_from_id r = SELF → l_independent r = false → (locations_send_begin st <= l_timestamp r)%Z →
    (locations_last_sent st <= l_timestamp r)%Z ∨ delivered (s_chat st) (l_timestamp r) d
}.

Lemma delivered_mono id t d d' :
  (∀ m, m ∈ mails d → m ∈ mails d') → delivered id t d → delivered id t d'.
Proof. intros Hm (m & text & a & rows & H & H'). exists m, text, a, rows. auto. Qed.

(** New rows are no older than the last sending, or not own paths. *)
Lemma nm_weaken d d' :
  nothing_missing d → streams d' = streams d → ticks d ≤ ticks d' →
  (∀ m, m ∈ mails d → m ∈ mails d') →
  (∀ r, r ∈ loc_rows d' → r ∈ loc_rows d ∨ l_from_id r ≠ SELF ∨ l_independent r = true
     ∨ ∀ st, st ∈ streams d → (locations_last_sent st <= l_timestamp r)%Z) →
  nothing_missing d'.
Proof.
  intros [H1 H2 H3] Hs Ht Hm Hr. split; rewrite Hs; [done|..].
  - intros st Hst. etrans; [by apply H2|]. by apply clock_forward.
  - intros st r Hst Hb Hin Hf Hi Hle. destruct (Hr r Hin) as [Hold|[?|[?|Hnew]]]; [|done|congruence|by left; apply Hnew].
    destruct (H3 st r) as [?|?]; [done..|by left|right]. by eapply delivered_mono.
Qed.

Lemma unique_stream st st' (l : list stream) :
  NoDup (s_chat <$> l) → st ∈ l → st' ∈ l → s_chat st = s_chat st' → st = st'.
Proof.
  induction l as [|x l IH]; [by intros _ ?%elem_of_nil|]. rewrite fmap_cons, list.NoDup_cons, !elem_of_cons.
  intros [Hx Hnd] [->|H] [->|H'] E; [done|..|by apply IH]; destruct Hx; [rewrite E|rewrite <-E];
    by apply list_elem_of_fmap_2.
Qed.

Lemma none_modify f :
  (∀ d, streams (f d) = streams d ∧ ticks d ≤ ticks (f d) ∧ mails (f d) = mails d
     ∧ ∀ r, r ∈ loc_rows (f d) → r ∈ loc_rows d) →
  preserves (Er := loc_error) nothing_missing (modify f).
Proof.
  intros Hf d Hd. destruct (Hf d) as (H1 & H2 & H3 & H4). apply (nm_weaken d); simpl; try done; [by rewrite H3|].
  intros r Hr. left. by apply H4.
Qed.

Lemma none_time : preserves nothing_missing time.
Proof. unfold time. preserves_tac. apply none_modify. intros d. simpl. auto with lia. Qed.

Lemma none_emit e : preserves nothing_missing (emit_loc e).
Proof. by apply none_modify. Qed.

Lemma none_settings {X} (x : A X) : preserves nothing_missing (in_settings x).
Proof.
  intros d Hd. unfold in_settings. destruct (x (settings d)) as [[v|e] a];
    (apply (nm_weaken d); try done; by left).
Qed.

Lemma none_close id : preserves nothing_missing (update_stream id (set_window 0 0)).
Proof.
  intros d [H1 H2 H3]. split; simpl.
  - rewrite <-list_fmap_compose. erewrite list_fmap_ext; [exact H1|]. intros i st _. simpl.
    by destruct (s_chat st =? id)%N.
  - intros st [Hst|(st1 & Hst & _ & ->)]%update_stream_elem; [by apply H2|by apply (H2 st1)].
  - intros st r [Hst|(st1 & _ & _ & ->)]%update_stream_elem; [|done]. by apply H3.
Qed.
Hint Resolve none_time none_emit none_settings none_close : preserves.

Lemma none_sending id : preserves nothing_missing (is_sending_to_chat id).
Proof. unfold is_sending_to_chat. preserves_tac. Qed.

Lemma none_location_changed c : preserves nothing_missing (emit_location_changed c).
Proof. unfold emit_location_changed. preserves_tac. Qed.

Lemma none_info id : preserves nothing_missing (add_disabled_info id).
Proof. unfold add_disabled_info. preserves_tac. by apply none_modify. Qed.
Hint Resolve none_sending none_location_changed none_info : preserves.

Lemma get_kml_frame id d : (get_kml id d).2 = d ∨ (get_kml id d).2 = tick d.
Proof.
  unfold get_kml, time, ok_or, bind, gets, modify, ret, fail.
  destruct (self_addr d); [|by left]. destruct (head _); [|by left]. destruct (_ && _); [|by right].
  destruct (placemarks _); [|by right]. destruct (list.last _); by right.
Qed.

(** What the attachment holds, and what computing it changes. *)
Lemma kml_part_run id msg d part d' :
  get_location_kml_part id msg d = (Ok part, d') →
  streams d' = streams d ∧ loc_rows d' = loc_rows d ∧ mails d' = mails d ∧ ticks d ≤ ticks d'
  ∧ match part with
    | (Some text, counts) => ∃ a st, stream_of id d = Some st ∧ is_document a (sent_rows st d) text
    | (None, counts) => counts = false
    end.
Proof.
  unfold get_location_kml_part. intros (b & d1 & [= <- <-] & H)%bind_ok.
  destruct (existsb _ _); [|injection H as <- <-; simpl; auto 10 with lia].
  apply bind_ok in H as (kml & d2 & E2 & H). destruct kml as [[text n]|].
  - injection H as <- <-. destruct (get_kml_run _ _ _ _ _ E2) as (-> & a & st & body & _ & Hst & _ & _ & _ & Hp & ->).
    split_and!; try done; [simpl; lia|]. exists a, st. split; [done|]. by exists body.
  - injection H as <- <-. pose proof (get_kml_frame id (tick d)) as Hf. rewrite E2 in Hf. simpl in Hf.
    destruct Hf as [->| ->]; simpl; auto 10 with lia.
Qed.

Lemma none_part id msg : preserves nothing_missing (get_location_kml_part id msg).
Proof.
  unfold get_location_kml_part. preserves_tac. intros d Hd.
  destruct (get_kml_frame id d) as [->| ->]; [done|]. apply (nm_weaken d); simpl; auto with lia.
Qed.

Lemma none_send id msg : preserves nothing_missing (send_msg id msg).
Proof.
  unfold send_msg. apply preserves_bind; [apply preserves_gets|]. intros [| |]; [auto with preserves..|].
  intros d Hd. unfold bind at 1. destruct (get_location_kml_part id msg d) as [[[kml counts]|e] d1] eqn:E;
    [|by eapply preserves_run; [apply none_part|exact E|]].
  assert (nothing_missing d1) as Hd1 by (by eapply preserves_run; [apply none_part|exact E|]).
  destruct (kml_part_run _ _ _ _ _ E) as (Es & Er & Em & Et & Hpart).
  unfold finish_sending. cbn [fst snd]. destruct counts.
  2:{ unfold time. run_se. simpl. apply (nm_weaken d1); simpl; auto with lia. intros. set_solver. }
  destruct kml as [text|]; [|done]. destruct Hpart as (a & st & Hst & Hdoc).
  destruct (stream_of_elem _ _ _ Hst) as [Hin Hid]. rewrite <-Es in Hin.
  destruct Hd1 as [H1 H2 H3].
  unfold time. run_se. unfold set_kml_sent_timestamp, update_stream. run_se.
  split; simpl.
  - rewrite <-list_fmap_compose. erewrite list_fmap_ext; [exact H1|]. intros i st1 _. simpl.
    by destruct (s_chat st1 =? id)%N.
  - intros st' (st1 & -> & Hst1)%list_elem_of_fmap. destruct (s_chat st1 =? id)%N; simpl.
    + apply clock_forward. lia.
    + etrans; [by apply H2|]. apply clock_forward. lia.
  - intros st' r (st1 & -> & Hst1)%list_elem_of_fmap Hb Hr Hself Hi Hle.
    match goal with |- _ ∨ delivered _ _ ?x => set (d2 := x) end.
    assert (∀ i t, delivered i t d1 → delivered i t d2) as Hmono.
    { intros i t. apply delivered_mono. intros m Hm. simpl. set_solver. }
    destruct (N.eqb_spec (s_chat st1) id) as [Hc|Hc]; simpl in *.
    2:{ destruct (H3 st1 r) as [?|?]; auto. }
    assert (st1 = st) as -> by (eapply unique_stream; [exact H1|done|done|congruence]). right.
    destruct (H3 st r) as [Hle'|Hd']; [done..| |by apply Hmono; rewrite ?Hid in *].
    destruct (by_timestamp_all r (unsent_rows (locations_send_begin st) (locations_last_sent st) (loc_rows d)))
      as (r' & Hr' & Ht').
    { apply list_elem_of_filter. rewrite <-Er. split_and!; auto. }
    eexists _, text, a, (sent_rows st d). split; [apply elem_of_app; right; by left|].
    split_and!; try done. rewrite <-Ht'. by apply list_elem_of_fmap_2.
Qed.
Hint Resolve none_part none_send : preserves.

Lemma none_maybe_send : preserves nothing_missing maybe_send.
Proof.
  unfold maybe_send. preserves_tac. generalize (None : option Z).
  match goal with |- ∀ n, preserves _ (maybe_send_all _ ?l n) => induction l as [|r l IH] end; intros n;
    cbn [maybe_send_all]; unfold maybe_send_one; preserves_tac.
Qed.

Lemma none_loop : preserves nothing_missing location_loop_wait.
Proof.
  intros d Hd. unfold location_loop_wait. pose proof (none_maybe_send d Hd).
  by destruct (maybe_send d) as [[[]|] ?].
Qed.

(** A recorded location is not older than any sending. *)
Lemma none_insert mk now :
  (∀ n, l_timestamp (mk n) = now) →
  preserves (λ d, nothing_missing d ∧ ∀ st, st ∈ streams d → (locations_last_sent st <= now)%Z)
    (insert_location mk).
Proof.
  intros Hn d [Hd Hs]. split; [|exact Hs]. apply (nm_weaken d); try done. simpl.
  intros r [Hr|Hr]%elem_of_app; [by left|]. apply list_elem_of_singleton in Hr as ->. right; right; right.
  rewrite Hn. exact Hs.
Qed.

Lemma none_set lat lon acc : preserves nothing_missing (set lat lon acc).
Proof.
  intros d Hd. unfold set. destruct (_ && _); [done|]. do 2 (erewrite bind_run by reflexivity).
  set (now := clock (ticks d)). set (ids := s_chat <$> _).
  assert (nothing_missing (tick d)) as Hd1 by (apply (nm_weaken d); simpl; auto with lia).
  match goal with |- context [for_each ids ?f] => set (g := f) end.
  assert (preserves (λ d, nothing_missing d ∧ ∀ st, st ∈ streams d → (locations_last_sent st <= now)%Z)
    (for_each ids g)) as Hf.
  { apply preserves_for_each. intros id _. unfold g. apply preserves_bind; [by apply none_insert|].
    intros _. apply preserves_ret. }
  destruct (Hf (tick d)) as [Hd2 _]; [split; [done|]; apply Hd|].
  unfold bind at 1. destruct (for_each ids g (tick d)) as [[[]|e] d2]; [|done]. cbn [snd] in Hd2.
  match goal with |- nothing_missing (?x d2).2 => assert (preserves nothing_missing x) as H; [|by apply H] end.
  destruct (negb _); preserves_tac.
Qed.

Lemma none_save id from l indep :
  from ≠ SELF → preserves nothing_missing (save id from l indep).
Proof.
  intros Hf. unfold save, ensure_loc. preserves_tac. generalize (0%Z, None : option N).
  induction l as [|x l IH]; intros n; cbn [save_all]; unfold save_one, insert_location; preserves_tac.
  intros d Hd. apply (nm_weaken d); try done. simpl. intros r [Hr|Hr]%elem_of_app; [by left|].
  apply list_elem_of_singleton in Hr as ->. by right; left.
Qed.

Lemma none_save_locations mk lk id from msg :
  from ≠ SELF → preserves nothing_missing (save_locations mk lk id from msg).
Proof.
  intros Hf. unfold save_locations, set_msg_location_id.
  preserves_tac; first [by apply none_save|by apply none_modify].
Qed.

(** Asking for streaming, or for its end. *)
Lemma none_window id b u d :
  nothing_missing d → (b = 0%Z ∨ ∀ st, st ∈ streams d → (locations_last_sent st <= b)%Z) →
  nothing_missing (update_stream id (set_window b u) d).2.
Proof.
  intros [H1 H2 H3] Hb. split; simpl.
  - rewrite <-list_fmap_compose. erewrite list_fmap_ext; [exact H1|]. intros i st _. simpl.
    by destruct (s_chat st =? id)%N.
  - intros st [Hst|(st1 & Hst & _ & ->)]%update_stream_elem; [by apply H2|by apply (H2 st1)].
  - intros st r [Hst|(st1 & Hst & _ & ->)]%update_stream_elem; [by apply H3|]. simpl. intros Hne _ _ _ Hle. left.
    destruct Hb as [?|Hb]; [done|]. etrans; [by apply Hb|done].
Qed.

Lemma none_send_to_chat id seconds : preserves nothing_missing (send_to_chat id seconds).
Proof.
  intros d Hd. unfold send_to_chat, ensure_loc. destruct (0 <=? seconds)%Z; [|done].
  erewrite bind_run by reflexivity. destruct (chat_is_special id); [done|]. cbn [negb].
  do 3 (erewrite bind_run by reflexivity). unfold bind at 1.
  assert (nothing_missing (tick (tick d))) as Hd1 by (apply (nm_weaken d); simpl; auto with lia).
  pose proof (none_window id (if negb (0 =? seconds)%Z then clock (ticks d) else 0)
    (if negb (0 =? seconds)%Z then clock (ticks d) + seconds else 0) _ Hd1) as Hw.
  destruct (update_stream id _ (tick (tick d))) as [[[]|e] d2]; cbn [snd] in Hw.
  2:{ apply Hw. destruct (negb _); [right; apply Hd|by left]. }
  match goal with |- nothing_missing (?x d2).2 => assert (preserves nothing_missing x) as H end.
  { preserves_tac. }
  apply H, Hw. destruct (negb _); [right; apply Hd|by left].
Qed.

Lemma none_stop_sending : preserves nothing_missing stop_sending.
Proof.
  unfold stop_sending, get_chats_with_location_streaming. preserves_tac.
  apply preserves_for_each. intros id _. apply none_send_to_chat.
Qed.

(** Locations that other own devices recorded are not counted. *)
Definition not_from_self (op : loc_op) : Prop :=
  match op with ReceiveLocations _ _ _ from _ => from ≠ SELF | _ => True end.

Lemma none_op op d : not_from_self op → nothing_missing d → nothing_missing (run_op op d).
Proof.
  intros Ho Hd. destruct op; simpl in *.
  - by apply none_send_to_chat.
  - by apply none_stop_sending.
  - by apply none_set.
  - by apply none_send.
  - by apply none_loop.
  - by apply none_save_locations.
  - assert (preserves nothing_missing (delete_expired now)) as H; [|by apply H].
    unfold delete_expired. preserves_tac. apply none_modify. intros c. split_and!; try done. simpl.
    by intros r [_ ?]%list_elem_of_filter.
  - apply (nm_weaken d); simpl; try done. intros r [_ ?]%list_elem_of_filter. by left.
  - apply (nm_weaken d); simpl; try done. intros r [_ ?]%list_elem_of_filter. by left.
Qed.

(** No location is left out: whatever was done, an own location recorded since streaming to a
    chat began is among those the next message attaches, or a message to that chat already had a
    location of that time (unless the location came from another own device). *)
Theorem no_location_left_out d0 ops st r :
  nothing_missing d0 → Forall not_from_self ops →
  let d := run_ops ops d0 in
  st ∈ streams d → locations_send_begin st ≠ 0%Z → r ∈ loc_rows d → l_from_id r = SELF →
  l_independent r = false → (locations_send_begin st <= l_timestamp r)%Z →
  delivered (s_chat st) (l_timestamp r) d ∨ l_timestamp r ∈ l_timestamp <$> sent_rows st d.
Proof.
  intros Hd Hops d Hst Hb Hr Hs Hi Hle.
  assert (nothing_missing d) as [_ _ H3].
  { unfold d, run_ops. clear -Hd Hops SRO GO. revert d0 Hd. induction Hops as [|op ops Hop _ IH]; intros d0 Hd; [done|].
    simpl. by apply IH, none_op. }
  destruct (H3 st r) as [Hlast|?]; [done..| |by left]. right.
  destruct (by_timestamp_all r (unsent_rows (locations_send_begin st) (locations_last_sent st) (loc_rows d)))
    as (r' & Hr' & <-); [|by apply list_elem_of_fmap_2].
  apply list_elem_of_filter. split_and!; auto.
Qed.

(** ** The loop *)

(** A round closes windows and queues mails; it does not touch the locations. *)
Definition eases (d d' : LocDb) : Prop :=
  loc_rows d' = loc_rows d ∧ mails d `prefix_of` mails d'
  ∧ ∀ st', st' ∈ streams d' → ∃ st, st ∈ streams d ∧ s_chat st' = s_chat st
      ∧ (locations_send_begin st' = locations_send_begin st
         ∧ locations_send_until st' = locations_send_until st
         ∨ locations_send_until st' = 0%Z).

Lemma eases_refl d : eases d d.
Proof. split_and!; [done..|]. intros st Hst. exists st. auto. Qed.

Lemma eases_trans d1 d2 d3 : eases d1 d2 → eases d2 d3 → eases d1 d3.
Proof.
  intros (H1 & H2 & H3) (H1' & H2' & H3'). split_and!; [congruence|by etrans|].
  intros st3 Hst3. destruct (H3' st3 Hst3) as (st2 & Hst2 & E2 & W2).
  destruct (H3 st2 Hst2) as (st1 & Hst1 & E1 & W1). exists st1. split_and!; [done|congruence|].
  destruct W2 as [[-> ->]|?]; [|by right]. destruct W1 as [[-> ->]|?]; auto.
Qed.

Section Rounds.
Context (d0 : LocDb).

Lemma eases_modify f :
  (∀ d, streams (f d) = streams d ∧ loc_rows (f d) = loc_rows d ∧ mails d `prefix_of` mails (f d)) →
  preserves (Er := loc_error) (eases d0) (modify f).
Proof.
  intros Hf d Hd. apply (eases_trans _ d); [done|]. simpl. destruct (Hf d) as (H1 & H2 & H3).
  split_and!; [done..|]. intros st. rewrite H1. intros Hst. exists st. auto.
Qed.

Lemma eases_time : preserves (eases d0) time.
Proof. unfold time. preserves_tac. by apply eases_modify. Qed.

Lemma eases_emit e : preserves (eases d0) (emit_loc e).
Proof. by apply eases_modify. Qed.

Lemma eases_info id : preserves (eases d0) (add_disabled_info id).
Proof. unfold add_disabled_info. preserves_tac. by apply eases_modify. Qed.

Lemma eases_close id : preserves (eases d0) (update_stream id (set_window 0 0)).
Proof.
  intros d Hd. apply (eases_trans _ d); [done|]. split_and!; [done..|].
  intros st [Hst|(st1 & Hst & _ & ->)]%update_stream_elem; [exists st|exists st1]; auto.
Qed.

Lemma eases_sent id t : preserves (eases d0) (set_kml_sent_timestamp id t).
Proof.
  intros d Hd. apply (eases_trans _ d); [done|]. split_and!; [done..|].
  intros st [Hst|(st1 & Hst & _ & ->)]%update_stream_elem; [exists st|exists st1]; auto.
Qed.
Hint Resolve eases_time eases_emit eases_info eases_close eases_sent : preserves.

Lemma eases_part id msg : preserves (eases d0) (get_location_kml_part id msg).
Proof.
  unfold get_location_kml_part, is_sending_to_chat. preserves_tac. intros d Hd.
  destruct (get_kml_frame id d) as [->| ->]; [done|]. apply (eases_trans _ d); [done|].
  split_and!; [done..|]. intros st Hst. exists st. auto.
Qed.
Hint Resolve eases_part : preserves.

Lemma eases_send id msg : preserves (eases d0) (send_msg id msg).
Proof.
  unfold send_msg, finish_sending. preserves_tac. apply eases_modify. intros d. split_and!; try done.
  simpl. by apply prefix_app_r.
Qed.
Hint Resolve eases_send : preserves.

Lemma eases_one now r n : preserves (eases d0) (maybe_send_one now r n).
Proof. unfold maybe_send_one. preserves_tac. Qed.
End Rounds.

Definition is_open (now : Z) (r : stream) : bool :=
  (0 <? locations_send_begin r)%Z && (now <? locations_send_until r)%Z.

(** The first comes no later than the second. *)
Definition no_later (x y : option Z) : Prop :=
  ∀ b, y = Some b → ∃ a, x = Some a ∧ (a <= b)%Z.

Lemma min_event_spec x y :
  (1 <= y)%Z → (∀ w, x = Some w → (1 <= w)%Z) →
  no_later (min_event x y) x ∧ (∃ a, min_event x y = Some a ∧ (a <= y)%Z)
  ∧ ∀ w, min_event x y = Some w → (1 <= w)%Z.
Proof.
  intros Hy Hx. unfold min_event. rewrite (proj2 (Z.leb_le 0 y)) by lia. split_and!.
  - intros b ->. eexists. split; [done|lia].
  - destruct x; eexists; (split; [done|lia]).
  - destruct x as [v|]; intros w [= <-]; [|done]. specialize (Hx v eq_refl). lia.
Qed.

Lemma no_later_refl x : no_later x x.
Proof. intros b ->. exists b. split; [done|lia]. Qed.

Lemma no_later_trans x y z : no_later x y → no_later y z → no_later x z.
Proof. intros H1 H2 b E. destruct (H2 b E) as (a & Ea & ?). destruct (H1 a Ea) as (c & Ec & ?). exists c. split; [done|lia]. Qed.

Lemma no_later_within x y b : no_later x y → (∃ a, y = Some a ∧ (a <= b)%Z) → ∃ a, x = Some a ∧ (a <= b)%Z.
Proof. intros H (a & E & Ha). destruct (H a E) as (c & Ec & ?). exists c. split; [done|lia]. Qed.

(** What a round did for one chat. *)
Definition attended (now : Z) (r : stream) (n : option Z) (d d' : LocDb) : Prop :=
  if is_open now r then
    (∃ w, n = Some w ∧ (w <= locations_send_until r - now)%Z)
    ∧ (has_locations r d = true →
         if (locations_last_sent r + 60 <? now)%Z
         then (∀ id msg c, send_outcome id msg c = Queued) →
              ∃ pre m, pre ++ [m] `prefix_of` mails d' ∧ mails d `prefix_of` pre ∧ ml_chat m = s_chat r
                ∧ om_what (ml_msg m) = LocationOnly
         else ∃ w, n = Some w ∧ (w <= locations_last_sent r + 61 - now)%Z)
  else ∀ st, st ∈ streams d' → s_chat st = s_chat r → locations_send_until st = 0%Z.

Lemma attended_mono now r n n' d d1 d2 :
  attended now r n d d1 → no_later n' n → eases d1 d2 → attended now r n' d d2.
Proof.
  unfold attended. intros H Hn (_ & Hm & Hs). destruct (is_open now r).
  - destruct H as [Hw Hp]. split; [by eapply no_later_within|]. intros Hh. specialize (Hp Hh).
    destruct (_ <? _)%Z; [|by eapply no_later_within]. intros Hq.
    destruct (Hp Hq) as (pre & m & ? & ? & ?). exists pre, m. split_and!; try tauto. by etrans.
  - intros st' Hst' Hc. destruct (Hs st' Hst') as (st & Hst & Ec & [[_ ->]|?]); [|done].
    apply H; [done|congruence].
Qed.

Lemma send_adds id msg d d' :
  (∀ id msg c, send_outcome id msg c = Queued) → send_msg id msg d = (Ok tt, d') →
  ∃ m, mails d' = mails d ++ [m] ∧ ml_chat m = id ∧ ml_msg m = msg.
Proof.
  intros Hq. unfold send_msg. intros (o & d1 & [= <- <-] & H)%bind_ok. rewrite Hq in H.
  apply bind_ok in H as (part & d1 & E & H). destruct (kml_part_run _ _ _ _ _ E) as (_ & _ & Hm & _).
  unfold finish_sending in H. apply bind_ok in H as (now & d2 & [= <- <-] & H).
  apply bind_ok in H as (u & d3 & E3 & H). injection H as <-. simpl.
  exists {| ml_chat := id; ml_msg := msg; ml_kml := part.1 |}. split; [|done].
  f_equal. rewrite <-Hm. destruct part.2; by injection E3 as _ <-.
Qed.

Lemma maybe_send_one_run now r n n' d d' :
  maybe_send_one now r n d = (Ok n', d') → (∀ w, n = Some w → (1 <= w)%Z) →
  attended now r n' d d' ∧ no_later n' n ∧ ∀ w, n' = Some w → (1 <= w)%Z.
Proof.
  unfold maybe_send_one, attended. fold (is_open now r). destruct (is_open now r) eqn:Ho.
  - apply andb_true_iff in Ho as [_ Hu]. apply Z.ltb_lt in Hu. intros (b & d1 & [= <- <-] & H)%bind_ok Hn.
    destruct (min_event_spec n (locations_send_until r - now)) as (M1 & M2 & M3); [lia|done|].
    destruct (has_locations r d); [|injection H as <- <-; by split_and!].
    destruct (Z.ltb_spec (locations_last_sent r + 60) now) as [Hc|Hc].
    + apply bind_ok in H as ([] & d1 & E & H). injection H as <- <-. split_and!; try done. intros _ Hq.
      destruct (send_adds _ _ _ _ Hq E) as (m & Hm & ? & Hw). exists (mails d), m. rewrite Hm.
      split_and!; try done. by rewrite Hw.
    + injection H as <- <-.
      destruct (min_event_spec (min_event n (locations_send_until r - now)) (locations_last_sent r + 61 - now))
        as (N1 & N2 & N3); [lia|done|].
      split_and!; try done; [by eapply no_later_within|by eapply no_later_trans].
  - intros (u & d1 & E1 & H)%bind_ok Hn. injection E1 as _ <-. apply bind_ok in H as (u1 & d2 & E2 & H).
    assert (eases (update_stream (s_chat r) (set_window 0 0) d).2 d2) as He
      by (eapply preserves_run; [apply eases_info|exact E2|apply eases_refl]).
    do 2 (apply bind_ok in H as (? & ? & [= <- <-] & H)). injection H as <- <-.
    split_and!; [|apply no_later_refl|done]. intros st Hst Hc. destruct He as (_ & _ & He).
    destruct (He st Hst) as (st1 & Hst1 & Ec & W). simpl in Hst1.
    apply list_elem_of_fmap in Hst1 as (st0 & -> & _). destruct (N.eqb_spec (s_chat st0) (s_chat r)); simpl in *.
    + destruct W as [[_ ->]|?]; done.
    + congruence.
Qed.

Lemma maybe_send_all_run now rows n n' d d' :
  maybe_send_all now rows n d = (Ok n', d') → (∀ w, n = Some w → (1 <= w)%Z) →
  (∀ r, r ∈ rows → attended now r n' d d') ∧ no_later n' n ∧ (∀ w, n' = Some w → (1 <= w)%Z) ∧ eases d d'.
Proof.
  revert n d. induction rows as [|r rows IH]; intros n d; cbn [maybe_send_all].
  { intros [= <- <-] Hn. split_and!; [by intros r ?%elem_of_nil|apply no_later_refl|done|apply eases_refl]. }
  intros (n1 & d1 & E & H)%bind_ok Hn.
  destruct (maybe_send_one_run _ _ _ _ _ _ E Hn) as (A1 & L1 & P1).
  assert (eases d d1) as He by (eapply preserves_run; [apply eases_one|exact E|apply eases_refl]).
  destruct (IH n1 d1 H P1) as (A2 & L2 & P2 & He2).
  split_and!; [|by eapply no_later_trans|done|by eapply eases_trans].
  intros r' [->|Hr']%elem_of_cons; [by eapply attended_mono|].
  specialize (A2 r' Hr'). clear -A2 He. destruct He as (Hr & Hm & _). unfold attended in *.
  destruct (is_open now r'); [|done]. destruct A2 as [Hw Hp]. split; [done|]. intros Hh.
  assert (has_locations r' d1 = true) as Hh1 by (unfold has_locations in *; by rewrite Hr).
  specialize (Hp Hh1). destruct (_ <? _)%Z; [|done]. intros Hq. destruct (Hp Hq) as (pre & m & ? & ? & ?).
  exists pre, m. split_and!; try tauto. by etrans.
Qed.

(** The loop that sends locations neither spins nor oversleeps: a round that succeeds waits for at
    least a second; it ends streaming where the time is over, and wakes up when the time of another
    chat is over; pending locations are sent now if the last ones were sent more than a minute ago,
    and otherwise the loop wakes up when they may be sent. *)
Theorem location_loop_progress d n d' :
  maybe_send d = (Ok n, d') →
  let now := clock (ticks d) in
  (∀ w, n = Some w → (1 <= w)%Z)
  ∧ (∀ st, st ∈ streams d' → (0 < locations_send_until st)%Z →
       (0 < locations_send_begin st)%Z ∧ (now < locations_send_until st)%Z
       ∧ ∃ w, n = Some w ∧ (now + w <= locations_send_until st)%Z)
  ∧ ∀ st, st ∈ streams d → is_open now st = true → (0 < locations_send_until st)%Z →
      has_locations st d = true →
      if (locations_last_sent st + 60 <? now)%Z
      then (∀ id msg c, send_outcome id msg c = Queued) →
           ∃ pre m, pre ++ [m] `prefix_of` mails d' ∧ mails d `prefix_of` pre ∧ ml_chat m = s_chat st
             ∧ om_what (ml_msg m) = LocationOnly
      else ∃ w, n = Some w ∧ (now + w <= locations_last_sent st + 61)%Z.
Proof.
  intros H now. unfold maybe_send in H. apply bind_ok in H as (t & d1 & [= <- <-] & H).
  apply bind_ok in H as (rows & d1 & [= <- <-] & H).
  destruct (maybe_send_all_run _ _ _ _ _ _ H ltac:(done)) as (HA & _ & HP & He). split; [done|].
  assert (∀ st, st ∈ streams d → (0 < locations_send_until st)%Z → attended now st n (tick d) d') as HA'.
  { intros st Hst Hu. apply HA. by apply list_elem_of_filter. }
  split.
  - intros st' Hst' Hu'. destruct He as (_ & _ & He).
    destruct (He st' Hst') as (st & Hst & Ec & [[-> Eu]|?]); [|lia].
    rewrite Eu in *. specialize (HA' st Hst Hu'). unfold attended in HA'.
    destruct (is_open now st) eqn:Ho; [|specialize (HA' st' Hst' Ec); lia].
    apply andb_true_iff in Ho as [Hb Hn]. apply Z.ltb_lt in Hb, Hn. split_and!; [done..|].
    destruct HA' as [(w & -> & Hw) _]. exists w. split; [done|lia].
  - intros st Hst Ho Hu Hh. specialize (HA' st Hst Hu). unfold attended in HA'. rewrite Ho in HA'.
    destruct HA' as [_ HA']. specialize (HA' Hh). destruct (_ <? _)%Z; [exact HA'|].
    destruct HA' as (w & -> & Hw). exists w. split; [done|lia].
Qed.
End Stream.
