(* ===== verification/LocationSamples.v ===== *)
(** LocationSamples: concrete runs of location streaming, with a small XML reader, and the cases in
    which a location does not arrive. *)
From stdpp Require Import sorting.
From S2P Require Import Prelude Monad Ids ContactTools LoginParam Autoconfig Config Location LocationStream ImapUids.

(** ** A reader for documents without escapes *)

Fixpoint lex_attributes (fuel : nat) (s : str) : list (option (str * option str)) :=
  match fuel, s with
  | S f, 32%N :: s1 =>
      match split_once 61 s1 with
      | Some (k, 34%N :: s2) =>
          match split_once 34 s2 with
          | Some (v, s3) => Some (k, Some v) :: lex_attributes f s3
          | None => []
          end
      | _ => []
      end
  | _, _ => []
  end.

Definition lex_tag (body : str) : Event :=
  match body with
  | [] => Other
  | c :: name =>
      if (c =? 47)%N then End_ name
      else if (c =? 63)%N then Other
      else match split_once 32 body with
           | Some (name, rest) => Start name (lex_attributes (S (length rest)) (32%N :: rest))
           | None => Start body []
           end
  end.

Definition text_events (t : str) : reader :=
  if bool_decide (trim t = []) then [] else [Some (Text (Some (trim t)))].

Fixpoint lex (fuel : nat) (s : str) : reader :=
  match fuel, s with
  | O, _ | _, [] => []
  | S f, c :: s1 =>
      if (c =? 60)%N then
        match split_once 62 s1 with
        | Some (body, rest) => Some (lex_tag body) :: lex f rest
        | None => [None]
        end
      else
        match split_once 60 s with
        | Some (text, rest) => text_events text ++ lex f (60%N :: rest)
        | None => text_events s
        end
  end.

Definition sample_reader (s : str) : reader := lex (S (length s)) s.

Lemma absent_from (p : char -> bool) c s : forallb p s = true → p c = false → c ∉ s.
Proof.
  intros Hs Hc Hin. rewrite forallb_forall in Hs. apply list_elem_of_In in Hin. specialize (Hs c Hin). congruence.
Qed.

Definition print_attribute (a : str * str) : str := lit " " ++ a.1 ++ lit "=" ++ quoted a.2.

Definition plain_attribute (a : str * str) : bool := plain_name a.1 && plain_value a.2.

Lemma name_absent c s : plain_name s = true → is_alnum c = false → c ∉ s.
Proof. unfold plain_name. rewrite andb_true_iff. intros [_ Hs]. by apply absent_from. Qed.

Lemma value_absent c s :
  plain_value s = true → bool_decide (c ∈ [34; 38; 60; 62; 9; 10; 13]%N) = true → c ∉ s.
Proof. intros Hs Hc. eapply absent_from; [exact Hs|]. cbv beta. by rewrite Hc. Qed.

Lemma lex_attributes_print l fuel :
  forallb plain_attribute l = true → length (concat (print_attribute <$> l)) ≤ fuel →
  lex_attributes fuel (concat (print_attribute <$> l)) = (λ a, Some (a.1, Some a.2)) <$> l.
Proof.
  revert fuel. induction l as [|[k v] l IH]; intros fuel Hl Hf; [by destruct fuel|].
  cbn [forallb] in Hl. apply andb_true_iff in Hl as [Ha Hl]. apply andb_true_iff in Ha as [Hk Hv].
  rewrite fmap_cons. cbn [concat]. unfold print_attribute at 1. cbn [fst snd].
  rewrite fmap_cons in Hf. cbn [concat] in Hf. unfold print_attribute at 1 in Hf. cbn [fst snd] in Hf.
  unfold quoted in *. destruct fuel as [|fuel]; [simpl in Hf; lia|].
  replace (((lit " " ++ k ++ lit "=" ++ 34%N :: v ++ [34%N]) ++ concat (print_attribute <$> l)))
    with (32%N :: k ++ 61%N :: 34%N :: v ++ 34%N :: concat (print_attribute <$> l))
    by (change (lit " ") with [32%N]; change (lit "=") with [61%N]; by rewrite <-!app_assoc; simpl;
        rewrite <-!app_assoc).
  cbn [lex_attributes]. rewrite split_once_app by (by apply (name_absent 61%N)).
  rewrite split_once_app by (by apply (value_absent 34%N)).
  rewrite IH; [done|done|]. repeat (rewrite ?length_app, ?length_cons in Hf; simpl in Hf). lia.
Qed.

Lemma plain_name_head s : plain_name s = true → ∃ c s', s = c :: s' ∧ is_alnum c = true.
Proof.
  unfold plain_name. destruct s as [|c s]; [done|]. simpl. rewrite andb_true_iff. intros [H _]. eauto.
Qed.

Lemma lex_open name attributes :
  plain_name name = true → forallb plain_attribute attributes = true →
  lex_tag (name ++ concat (print_attribute <$> attributes))
  = Start name ((λ a, Some (a.1, Some a.2)) <$> attributes).
Proof.
  intros Hn Ha. destruct (plain_name_head _ Hn) as (c & s & E & Hc). unfold lex_tag.
  assert (c ≠ 47%N ∧ c ≠ 63%N) as [H1%N.eqb_neq H2%N.eqb_neq] by (split; by intros ->).
  rewrite E at 1. cbn [app]. rewrite H1, H2. destruct attributes as [|[k v] l].
  - rewrite app_nil_r. rewrite split_once_absent by (by apply (name_absent 32%N)). done.
  - set (rest := k ++ lit "=" ++ quoted v ++ concat (print_attribute <$> l)).
    assert (concat (print_attribute <$> (k, v) :: l) = 32%N :: rest) as Er.
    { unfold rest. rewrite fmap_cons. cbn [concat]. unfold print_attribute at 1. cbn [fst snd].
      change (lit " ") with [32%N]. by rewrite <-!app_assoc. }
    rewrite Er, split_once_app by (by apply (name_absent 32%N)).
    rewrite <-Er, lex_attributes_print; [done|done|]. rewrite Er. simpl. lia.
Qed.

Definition is_tag (i : xml_item) : bool := match i with Chars _ => false | _ => true end.

Lemma tag_text i open after_text l :
  well_formed open after_text (i :: l) = true → is_tag i = true → forallb plain_name open = true →
  ∃ body e, print_item i = 60%N :: body ++ [62%N] ∧ (62%N ∉ body) ∧ lex_tag body = e ∧ item_event i = Some e.
Proof.
  intros Hw Ht Ho. destruct i as [name attributes|name|]; [| |done]; cbn [well_formed] in Hw.
  - rewrite !andb_true_iff in Hw. destruct Hw as [[Hn Ha] _]. fold plain_attribute in Ha.
    exists (name ++ concat (print_attribute <$> attributes)), (Start name ((λ a, Some (a.1, Some a.2)) <$> attributes)).
    split_and!; [|..|by apply lex_open|done].
    + unfold print_item. change (lit "<") with [60%N]. change (lit ">") with [62%N]. by rewrite <-app_assoc.
    + rewrite elem_of_app. intros [H|H]; [by apply (name_absent 62%N) in H|].
      apply list_elem_of_In, in_concat in H as (x & Hx & Hc). apply list_elem_of_In, list_elem_of_fmap in Hx as ([k v] & -> & Hkv).
      rewrite forallb_forall in Ha. apply list_elem_of_In, Ha in Hkv. apply andb_true_iff in Hkv as [Hk Hv].
      apply list_elem_of_In in Hc. unfold print_attribute, quoted in Hc. simpl in Hk, Hv, Hc.
      rewrite !elem_of_cons, !elem_of_app, !elem_of_cons, !elem_of_app in Hc.
      destruct Hc as [?|[H|[?|[?|[H|H]]]]]; try done.
      * by apply (name_absent 62%N) in H.
      * by apply (value_absent 62%N) in H.
      * by apply list_elem_of_singleton in H.
  - destruct open as [|name' open]; [done|].
    apply andb_true_iff in Hw as [->%bool_decide_eq_true _]. apply andb_true_iff in Ho as [Ho _].
    exists (47%N :: name'), (End_ name'). split_and!; [|..|done|done].
    + unfold print_item. change (lit "</") with [60%N; 47%N]. change (lit ">") with [62%N]. done.
    + rewrite not_elem_of_cons. split; [done|by apply (name_absent 62%N)].
Qed.

Lemma well_formed_tail i l open after_text :
  well_formed open after_text (i :: l) = true → forallb plain_name open = true →
  ∃ open' after_text', well_formed open' after_text' l = true ∧ forallb plain_name open' = true
    ∧ (is_tag i = false → after_text' = true).
Proof.
  intros Hw Ho. destruct i as [name attributes|name|text]; cbn [well_formed] in Hw.
  - rewrite !andb_true_iff in Hw. destruct Hw as [[Hn _] Hw]. exists (name :: open), false.
    split_and!; [done| |done]. simpl. by rewrite Hn.
  - destruct open as [|name' open]; [done|]. apply andb_true_iff in Hw as [_ Hw], Ho as [_ Ho].
    exists open, false. by split_and!.
  - rewrite !andb_true_iff in Hw. destruct Hw as [_ Hw]. exists open, true. by split_and!.
Qed.

Lemma lex_items l open after_text fuel :
  well_formed open after_text l = true → forallb plain_name open = true →
  length (concat (print_item <$> l)) ≤ fuel →
  lex fuel (concat (print_item <$> l)) = Some <$> omap item_event l.
Proof.
  revert open after_text fuel. induction l as [|i l IH]; intros open after_text fuel Hw Ho Hf; [by destruct fuel|].
  destruct (well_formed_tail _ _ _ _ Hw Ho) as (open' & at' & Hw' & Ho' & Hat).
  rewrite fmap_cons. cbn [concat omap list_omap]. rewrite fmap_cons in Hf. cbn [concat] in Hf. rewrite length_app in Hf.
  destruct (is_tag i) eqn:Ht.
  - destruct (tag_text _ _ _ _ Hw Ht Ho) as (body & e & Ep & Hb & El & Ee). rewrite Ep in *. rewrite Ee.
    simpl in Hf. destruct fuel as [|fuel]; [lia|]. rewrite length_app in Hf. simpl in Hf.
    rewrite <-app_comm_cons. cbn [lex]. rewrite N.eqb_refl. rewrite <-app_assoc. cbn [app].
    rewrite split_once_app by done. rewrite El, fmap_cons. f_equal. eapply IH; [done|done|lia].
  - destruct i as [| |text]; try done. cbn [well_formed] in Hw. rewrite !andb_true_iff in Hw.
    destruct Hw as [[_ Hpt] _]. unfold plain_text in Hpt. apply andb_true_iff in Hpt as [Hne Hpt].
    assert (60%N ∉ text) as H60 by (by eapply absent_from).
    assert ((match item_event (Chars text) with Some y => y :: omap item_event l | None => omap item_event l end)
      = omap id [item_event (Chars text)] ++ omap item_event l) as -> by (by destruct (item_event (Chars text))).
    assert (Some <$> omap id [item_event (Chars text)] = text_events text) as Ete.
    { unfold item_event, text_events. by destruct (bool_decide (trim text = [])). }
    rewrite fmap_app, Ete. unfold print_item at 1. unfold print_item at 1 in Hf.
    destruct text as [|c text']; [done|]. set (text := c :: text') in *.
    destruct fuel as [|fuel]; [simpl in Hf; lia|].
    assert (c ≠ 60%N) as Hc%N.eqb_neq by (intros ->; apply H60; by left).
    change (text ++ ?x) with (c :: text' ++ x). cbn [lex]. rewrite Hc.
    change (c :: text' ++ ?x) with (text ++ x). destruct l as [|j l].
    + cbn [fmap list_fmap concat omap list_omap]. by rewrite !app_nil_r, split_once_absent.
    + assert (is_tag j = true) as Hj by (destruct j; try done; simpl in Hw'; by rewrite (Hat eq_refl) in Hw').
      destruct (tag_text _ _ _ _ Hw' Hj Ho') as (body & e & Ep & _).
      assert (concat (print_item <$> j :: l) = 60%N :: body ++ [62%N] ++ concat (print_item <$> l)) as Ec.
      { rewrite fmap_cons. cbn [concat]. by rewrite Ep, <-app_comm_cons, <-app_assoc. }
      rewrite Ec, split_once_app by done. rewrite <-Ec. f_equal.
      eapply IH; [done|done|]. unfold text in Hf. simpl in Hf. simpl. lia.
Qed.

(** ** Samples

    Coordinates are natural numbers; a time is printed after nineteen letters. *)
Definition sample_geo : Geo :=
  {| f64 := N; zero_f64 := 0%N; is_zero := λ x, (x =? 0)%N; parse_f64 := parse_digits1;
     print_f64 := print_N;
     format_utc := λ t, if (0 <=? t)%Z then Some (replicate 19 84%N ++ print_N (Z.to_N t)) else None;
     parse_utc := λ s, Z.of_N <$> parse_digits1 (drop 19 s);
     xml_events := sample_reader |}.

Section LocationWitnesses.
#[local] Instance PF : Platform := sample_platform.
#[local] Instance GE : Geo := sample_geo.

Lemma digits_number_chars n : forallb number_char (print_N n) = true.
Proof.
  apply forallb_forall. intros c Hc. apply list_elem_of_In in Hc. unfold number_char, is_alnum.
  by rewrite (proj1 (list.Forall_forall _ _) (print_N_digits n) c Hc).
Qed.

#[local] Instance sample_geo_ok : GeoOk.
Proof.
  split.
  - apply parse_print_N.
  - apply digits_number_chars.
  - intros t s. simpl. destruct (Z.leb_spec 0 t); [|done]. intros [= <-].
    change (Z.of_N <$> parse_digits1 (print_N (Z.to_N t)) = Some t). rewrite parse_print_N. simpl. f_equal. lia.
  - intros t s. change (format_utc t) with
      (if (0 <=? t)%Z then Some (replicate 19 84%N ++ print_N (Z.to_N t)) else None).
    destruct (0 <=? t)%Z; [|done]. intros <-%(inj Some). split.
    + rewrite forallb_app. by rewrite digits_number_chars.
    + rewrite length_app, length_replicate. lia.
  - intros l Hw. change (xml_events ?x) with (lex (S (length x)) x).
    change xml_declaration with (60%N :: lit "?xml version=" ++ quoted (lit "1.0") ++ lit " encoding="
      ++ quoted (lit "UTF-8") ++ lit "?" ++ [62%N]).
    rewrite <-app_comm_cons. cbn [lex]. rewrite N.eqb_refl.
    replace ((lit "?xml version=" ++ quoted (lit "1.0") ++ lit " encoding=" ++ quoted (lit "UTF-8") ++ lit "?"
      ++ [62%N]) ++ concat (print_item <$> l))
      with ((lit "?xml version=" ++ quoted (lit "1.0") ++ lit " encoding=" ++ quoted (lit "UTF-8") ++ lit "?")
        ++ 62%N :: concat (print_item <$> l)) by (by rewrite <-!app_assoc).
    rewrite split_once_app by (by apply (bool_decide_unpack _)). f_equal.
    eapply lex_items; [exact Hw|done|]. rewrite length_cons, length_app, length_cons. lia.
  - intros s Hs. reflexivity.
Defined.

#[local] Instance SR : Surroundings :=
  {| clock := λ n, (1000 + 10 * Z.of_nat n)%Z; send_outcome := λ _ _ _, Queued;
     info_succeeds := λ _ _, true; group_row := λ r _, r |}.

#[local] Instance sample_surroundings_ok : SurroundingsOk.
Proof. split; [simpl; lia|]. intros r l. by left. Defined.

(** Alice has the chats 20 and 21 and streams to nobody. *)
Definition idle : LocDb :=
  {| streams := [{| s_chat := 20; locations_send_begin := 0; locations_send_until := 0; locations_last_sent := 0 |};
                 {| s_chat := 21; locations_send_begin := 0; locations_send_until := 0; locations_last_sent := 0 |}];
     loc_rows := []; loc_seq := 0; msg_places := ∅; self_addr := Some (lit "alice@x.org");
     contact_addrs := {[ 10%N := lit "Alice@x.org" ]}; settings := empty_account; loc_events := [];
     mails := []; infos := []; ticks := 0 |}.

Definition hello : OutMsg := {| om_what := Written (lit "hi"); om_has_position := false |}.

(** She asks to stream to chat 20 for ten minutes and records a location. *)
Definition walk : list loc_op := [SendToChat 20 600; SetLocation 53%N 10%N 5%N].

Definition walking : LocDb := run_ops walk idle.

Definition walk_kml : str :=
  Eval vm_compute in match (get_kml 20 walking).1 with Ok (Some (text, _)) => text | _ => [] end.

Lemma with_result {X Y} (x : X * Y) v : x.1 = v → x = (v, x.2).
Proof. by destruct x; intros <-. Defined.

Definition walk_stream : stream :=
  {| s_chat := 20; locations_send_begin := 1000; locations_send_until := 1600; locations_last_sent := 0 |}.

Definition walk_row : loc_row :=
  {| l_id := 1; l_latitude := 53%N; l_longitude := 10%N; l_accuracy := 5%N; l_timestamp := 1050;
     l_chat_id := 20; l_from_id := SELF; l_independent := false |}.

Lemma walk_row_time : (l_timestamp walk_row <= 2000)%Z.
Proof. by apply Z.leb_le. Defined.

Lemma streamed_locations_arrive_witness :
  ∃ k d', Kml_parse 2000 walk_kml = Some k
    ∧ save_locations None (Some k) 30 10 7 idle = (Ok tt, d')
    ∧ known_at 10 1050 (loc_rows d') = true.
Proof.
  assert (E1 : get_kml 20 walking = (Ok (Some (walk_kml, 1%N)), (get_kml 20 walking).2))
    by (apply with_result; vm_compute; reflexivity).
  assert (E2 : self_addr walking = Some (lit "alice@x.org")) by (vm_compute; reflexivity).
  assert (E3 : plain_value (lit "alice@x.org") = true) by (vm_compute; reflexivity).
  assert (E4 : (byte_len walk_kml <= 1024 * 1024)%N) by (vm_compute; discriminate).
  assert (E5 : stream_of 20 walking = Some walk_stream) by (vm_compute; reflexivity).
  assert (E6 : Forall (λ r, kept (parsed 2000 r) = true ∧ (l_timestamp r <= 2000)%Z) (sent_rows walk_stream walking))
    by (assert (E : sent_rows walk_stream walking = [walk_row]) by (vm_cast_no_check (eq_refl [walk_row]));
        rewrite E; constructor; [split; [reflexivity|exact walk_row_time]|constructor]).
  destruct (streamed_locations_arrive 20 walking walk_kml 1 (get_kml 20 walking).2 (lit "alice@x.org")
    walk_stream 2000 30 10 (lit "Alice@x.org") 7 idle E1 E2 E3 E4 E5 E6 ltac:(vm_compute; reflexivity)
    ltac:(vm_compute; reflexivity) ltac:(vm_compute; reflexivity)) as (k & d' & Hk & Hs & Hr).
  exists k, d'. split; [exact Hk|]. split; [exact Hs|].
  refine (proj1 (Hr walk_row (list_elem_of_lookup_2 _ 0 walk_row _))).
  vm_cast_no_check (eq_refl (Some walk_row)).
Defined.

(** A message to the chat carries the location. *)
Definition told : LocDb := run_ops (walk ++ [SendMessage 20 hello]) idle.

Definition told_mail : mail := {| ml_chat := 20; ml_msg := hello; ml_kml := Some walk_kml |}.


Lemma idle_nothing_missing : nothing_missing idle.
Proof.
  split.
  - apply (bool_decide_unpack _). by vm_compute.
  - intros st Hst. simpl in Hst. rewrite !elem_of_cons, elem_of_nil in Hst.
    destruct Hst as [->|[->|[]]]; by apply Z.leb_le.
  - intros st r _ _ Hr. by apply elem_of_nil in Hr.
Defined.

Lemma no_location_left_out_witness :
  nothing_missing idle
  ∧ (delivered 20 1050 walking ∨ 1050%Z ∈ l_timestamp <$> sent_rows walk_stream walking).
Proof.
  split; [exact idle_nothing_missing|].
  apply (no_location_left_out idle walk walk_stream walk_row idle_nothing_missing).
  - by repeat constructor.
  - apply (list_elem_of_lookup_2 _ 0 walk_stream). vm_compute. reflexivity.
  - vm_compute. discriminate.
  - apply (list_elem_of_lookup_2 _ 0 walk_row). vm_cast_no_check (eq_refl (Some walk_row)).
  - reflexivity.
  - reflexivity.
  - apply Z.leb_le. vm_compute. reflexivity.
Defined.

Lemma location_loop_progress_witness :
  ∃ w d', maybe_send walking = (Ok (Some w), d') ∧ (1 <= w)%Z.
Proof.
  assert (E : maybe_send walking = (Ok (Some 540%Z), (maybe_send walking).2))
    by (apply with_result; vm_compute; reflexivity).
  exists 540%Z, (maybe_send walking).2. split; [exact E|].
  exact (proj1 (location_loop_progress walking (Some 540%Z) (maybe_send walking).2 E) 540%Z eq_refl).
Defined.

(** A location that is recorded while a mail is encrypted is older than the time that is noted for
    the mail, but not in it: if another one follows, no later mail has it. *)
Example location_during_sending_is_lost :
  let r := get_location_kml_part 20 hello walking in
  let part := match r.1 with Ok p => p | Err _ => (None, false) end in
  let d1 := (set 54%N 11%N 5%N r.2).2 in
  let d2 := (finish_sending 20 hello part d1).2 in
  let d3 := (set 55%N 12%N 5%N d2).2 in
  part.1 = Some walk_kml ∧ l_timestamp <$> loc_rows d3 = [1050; 1080; 1100]%Z
  ∧ (λ st, l_timestamp <$> sent_rows st d3) <$> stream_of 20 d3 = Some [1100%Z].
Proof. vm_compute. split_and!; reflexivity. Qed.

(** Somebody streams to two chats: the location that was received in the first chat is not stored
    for the second one. *)
Example second_chat_gets_nothing :
  let k := Kml_parse 2000 walk_kml in
  let d1 := (save_locations None k 30 10 7 idle).2 in
  let d2 := (save_locations None k 31 10 8 d1).2 in
  (l_chat_id <$> loc_rows d2) = [30%N].
Proof. vm_compute. reflexivity. Qed.
End LocationWitnesses.
