(* ===== verification/Webxdc.v ===== *)
(** Webxdc: status updates of mini apps (src/src/webxdc.rs): storing, queueing, sending, receiving
    and handing them to the app, and resending them with the app (src/src/chat.rs). *)
From stdpp Require Import sorting.
From S2P Require Import Prelude Monad Ids Params ContactTools MsgTable Db Config Sync ChatDb ChatAssign.

(** [struct StatusUpdateItem]; the payload is its JSON text. *)
Record StatusUpdateItem := {
  payload : str;
  info : option str;
  href : option str;
  document : option str;
  summary : option str;
  uid : option str;
  notify : option (gmap str str)
}.

Definition with_uid (u : option str) (i : StatusUpdateItem) : StatusUpdateItem :=
  {| payload := payload i; info := info i; href := href i; document := document i;
     summary := summary i; uid := u; notify := notify i |}.

(** Serials are of 32 bits ([StatusUpdateSerial]). *)
Definition u32_max : N := 4294967295.

Definition WEBXDC_SUFFIX : str := lit "xdc".
Definition BODY_DESCR : str := lit "Webxdc Status Update".

(** 100 KiB. *)
Definition STATUS_UPDATE_SIZE_MAX : N := 102400.

(** A row of [msgs_status_updates], and one of [smtp_status_updates]. *)
Record update_row := {
  u_id : N;
  u_msg_id : MsgId;
  u_item : str;
  u_uid : option str
}.

Record queue_row := {
  q_msg_id : MsgId;
  q_first : Z;
  q_last : N
}.

Inductive wx_event :=
| WebxdcStatusUpdate (msg_id : MsgId) (serial : N)
| IncomingWebxdcNotify (chat_id : ChatId) (contact_id : ContactId) (msg_id : MsgId) (text : str)
    (href : option str)
| InterruptSmtp.

Inductive wx_error :=
| CoreError (e : core_error)
| NoSuchMessage (id : MsgId)
| NotWebxdc (id : MsgId)
| BadUpdate
| CannotSendUpdate
| DuplicateUid
| SerialOutOfRange
| NoUpdateItem
| ChatTypeNotFound
| SenderNotMember
| EmptyMessageId
| HostError.

(** The account, the column [mime_in_reply_to] of its messages, and the tables of status updates:
    [updates] in the order of their identifiers, of which [update_seq] is the last [AUTOINCREMENT]
    gave. *)
Record Wx := {
  core : Core;
  replies : gmap N str;
  updates : list update_row;
  update_seq : N;
  queue : list queue_row;
  wx_events : list wx_event
}.

Definition upd_core (f : Core -> Core) (w : Wx) : Wx :=
  {| core := f (core w); replies := replies w; updates := updates w; update_seq := update_seq w;
     queue := queue w; wx_events := wx_events w |}.

Definition upd_replies (f : gmap N str -> gmap N str) (w : Wx) : Wx :=
  {| core := core w; replies := f (replies w); updates := updates w; update_seq := update_seq w;
     queue := queue w; wx_events := wx_events w |}.

Definition upd_updates (seq : N) (f : list update_row -> list update_row) (w : Wx) : Wx :=
  {| core := core w; replies := replies w; updates := f (updates w); update_seq := seq;
     queue := queue w; wx_events := wx_events w |}.

Definition upd_queue (f : list queue_row -> list queue_row) (w : Wx) : Wx :=
  {| core := core w; replies := replies w; updates := updates w; update_seq := update_seq w;
     queue := f (queue w); wx_events := wx_events w |}.

Definition add_wx_event (e : wx_event) (w : Wx) : Wx :=
  {| core := core w; replies := replies w; updates := updates w; update_seq := update_seq w;
     queue := queue w; wx_events := wx_events w ++ [e] |}.

Abbreviation W := (SE Wx wx_error).

(** What the code takes from serde and sha2, and the parts of the program it calls: the JSON of the
    updates of a mail and of an update for the app, a digest, whether a chat is muted, the text that
    quotes a message, and the two operations of an app that is built in. *)
Class WebxdcWorld := {
  parse_updates : str -> option (list StatusUpdateItem);
  print_numbered : StatusUpdateItem -> N -> N -> str;
  sha256_hex : str -> str;
  chat_is_muted : ChatId -> Core -> bool;
  quote_summary : MsgId -> Core -> option str;
  intercept_send : MsgId -> StatusUpdateItem -> W unit;
  intercept_get : MsgId -> N -> W str
}.

Section Updates.
Context `{!Platform, !Outside, !Json SyncItem, !Sending, !Json StatusUpdateItem, !WebxdcWorld}.

Definition in_core {X} (x : C X) : W X :=
  λ w, match x (core w) with
       | (Ok v, c) => (Ok v, upd_core (λ _, c) w)
       | (Err e, c) => (Err (CoreError e), upd_core (λ _, c) w)
       end.

Definition emit_wx (e : wx_event) : W unit := modify (add_wx_event e).

(** [Message::load_from_db]. *)
Definition load_message (id : MsgId) : W (MsgId * msg_row) :=
  m <- in_core (load_msg_optional id) ;;
  ok_or m (NoSuchMessage id).

(** [Message::update_param]. *)
Definition store_param (id : MsgId) (p : Params) : W unit :=
  modify (upd_core (upd_msgs (alter (λ r, with_msg_param r (to_string p)) id))).

(** The last message of a chat that is shown. *)
Definition later_msg (x y : N * msg_row) : bool :=
  (m_timestamp y.2 <? m_timestamp x.2)%Z
  || ((m_timestamp y.2 =? m_timestamp x.2)%Z && (y.1 <=? x.1)%N).

Definition last_shown (id : ChatId) (s : Core) : option (N * msg_row) :=
  foldr (λ x m, if (m_chat_id x.2 =? id)%N && negb (m_hidden x.2)
                then Some (match m with Some y => if later_msg x y then x else y | None => x end)
                else m) None (map_to_list (msgs s)).

(** [Context::get_overwritable_info_msg_id]. *)
Definition get_overwritable_info_msg_id (instance : msg_row) (from_id : ContactId) : W (option MsgId) :=
  gets (λ w,
    match last_shown (m_chat_id instance) (core w) with
    | Some (id, r) =>
        if (m_from_id r =? from_id)%N
           && bool_decide (get_cmd (load_params (m_param r)) = SystemMessage.WebxdcInfoMessage)
           && bool_decide (default [] (replies w !! id) = m_rfc724_mid instance)
        then Some id else None
    | None => None
    end).

Definition with_timestamp_rcvd (t : Z) (r : msg_row) : msg_row :=
  {| m_rfc724_mid := m_rfc724_mid r; m_pre_rfc724_mid := m_pre_rfc724_mid r;
     m_chat_id := m_chat_id r; m_from_id := m_from_id r; m_timestamp := m_timestamp r;
     m_timestamp_rcvd := t; m_type := m_type r; m_state := m_state r; m_hidden := m_hidden r;
     m_param := m_param r; m_location_id := m_location_id r; m_error := m_error r;
     m_ephemeral_timer := m_ephemeral_timer r; m_ephemeral_timestamp := m_ephemeral_timestamp r;
     m_download_state := m_download_state r; m_deleted := m_deleted r |}.

Definition with_timestamp (t : Z) (r : msg_row) : msg_row :=
  {| m_rfc724_mid := m_rfc724_mid r; m_pre_rfc724_mid := m_pre_rfc724_mid r;
     m_chat_id := m_chat_id r; m_from_id := m_from_id r; m_timestamp := t;
     m_timestamp_rcvd := m_timestamp_rcvd r; m_type := m_type r; m_state := m_state r;
     m_hidden := m_hidden r; m_param := m_param r; m_location_id := m_location_id r;
     m_error := m_error r; m_ephemeral_timer := m_ephemeral_timer r;
     m_ephemeral_timestamp := m_ephemeral_timestamp r; m_download_state := m_download_state r;
     m_deleted := m_deleted r |}.

(** [Context::write_status_update_inner]: one transaction. *)
Definition known_uid (u : option str) (l : list update_row) : bool :=
  match u with
  | Some u => existsb (λ r, bool_decide (u_uid r = Some u)) l
  | None => false
  end.

Definition write_status_update_inner (instance : MsgId) (item : StatusUpdateItem) (timestamp : Z)
  : W (option N) :=
  w <- gets id ;;
  let touched := upd_core (upd_msgs (alter (with_timestamp_rcvd timestamp) instance)) w in
  if known_uid (uid item) (updates w) then modify (λ _, touched) ;;; ret None
  else
    let serial := (update_seq w + 1)%N in
    if (u32_max <? serial)%N || negb (bool_decide (is_Some (msgs (core w) !! instance)))
    then fail SerialOutOfRange
    else
      modify (λ _, upd_updates serial (λ l, l ++ [{| u_id := serial; u_msg_id := instance;
                                                     u_item := to_json item; u_uid := uid item |}]) touched) ;;;
      ret (Some serial).

(** [chat::update_msg_text_and_timestamp]. *)
Definition update_msg_text_and_timestamp (chat : ChatId) (id : MsgId) (text : str) (t : Z) : W unit :=
  modify (upd_core (λ s, upd_msg_txt (λ m, if bool_decide (is_Some (msgs s !! id)) then <[id := text]> m else m)
                           (upd_msgs (alter (with_timestamp t) id) s))) ;;;
  in_core (emit_core (MsgsChanged chat id)).

(** [Message::get_webxdc_self_addr]. *)
Definition get_webxdc_self_addr (instance : msg_row) : W str :=
  fingerprint <- in_core load_self_public_key ;;
  ret (sha256_hex (fingerprint ++ lit "-" ++ m_rfc724_mid instance)).

(** The info message of an update: the last one of the chat is overwritten if it is of the same app
    and sender and the update has no link. *)
Definition show_info (now : Z) (id : MsgId) (instance : msg_row) (item : StatusUpdateItem) (info : str)
  (timestamp : Z) (from_id : ContactId) : W MsgId :=
  info_msg_id <- get_overwritable_info_msg_id instance from_id ;;
  notify_msg_id <-
    (match info_msg_id, href item with
     | Some info_msg_id, None =>
         update_msg_text_and_timestamp (m_chat_id instance) info_msg_id info timestamp ;;;
         ret info_msg_id
     | _, _ =>
         new <- in_core (add_info_msg_with_cmd now (m_chat_id instance) info
                           SystemMessage.WebxdcInfoMessage (Some timestamp) timestamp (Some from_id) None) ;;
         modify (upd_replies (<[new := m_rfc724_mid instance]>)) ;;;
         ret new
     end) ;;
  (match href item with
   | Some href =>
       m <- load_message notify_msg_id ;;
       store_param m.1 (Params_set (load_params (m_param m.2)) Param.Arg href)
   | None => ret tt
   end) ;;;
  ret notify_msg_id.

(** The name of the document and the summary in the parameters of the app. *)
Definition document_param (item : StatusUpdateItem) (timestamp : Z) (p : Params) : bool * Params :=
  match document item with
  | Some document =>
      let '(update, p) := update_timestamp p Param.WebxdcDocumentTimestamp timestamp in
      if update then (true, Params_set p Param.WebxdcDocument document) else (false, p)
  | None => (false, p)
  end.

Definition summary_param (item : StatusUpdateItem) (timestamp : Z) (p : Params) : bool * Params :=
  match summary item with
  | Some summary =>
      let '(update, p) := update_timestamp p Param.WebxdcSummaryTimestamp timestamp in
      if update then (true, Params_set p Param.WebxdcSummary (sanitize_bidi_characters summary)) else (false, p)
  | None => (false, p)
  end.

(** The notification an update asks for. *)
Definition notify_user (instance : msg_row) (item : StatusUpdateItem) (from_id : ContactId)
  (notify_msg_id : MsgId) : W unit :=
  match notify item with
  | None => ret tt
  | Some notify_list =>
      self_addr <- get_webxdc_self_addr instance ;;
      text <- (match notify_list !! self_addr with
               | Some text => ret (Some text)
               | None =>
                   match notify_list !! lit "*" with
                   | Some text =>
                       in_core (in_db (load_from_db (m_chat_id instance))) ;;;
                       muted <- gets (λ w, chat_is_muted (m_chat_id instance) (core w)) ;;
                       ret (if (muted : bool) then None else Some text)
                   | None => ret None
                   end
               end) ;;
      match text with
      | Some text =>
          emit_wx (IncomingWebxdcNotify (m_chat_id instance) from_id notify_msg_id text (href item))
      | None => ret tt
      end
  end.

(** [Context::create_status_update_record]; [instance] is the app as the caller loaded it. *)
Definition create_status_update_record (now : Z) (id : MsgId) (instance : msg_row)
  (item : StatusUpdateItem) (timestamp : Z) (can_info_msg : bool) (from_id : ContactId)
  : W (option N) :=
  serial <- write_status_update_inner id item timestamp ;;
  match serial with
  | None => ret None
  | Some serial =>
      let '(changed, p) := document_param item timestamp (load_params (m_param instance)) in
      let '(changed', p) := summary_param item timestamp p in
      notify_msg_id <- (match (if can_info_msg then info item else None) with
                        | Some info => show_info now id instance item info timestamp from_id
                        | None => ret id
                        end) ;;
      when (changed || changed')
        (store_param id p ;;; in_core (emit_core (MsgsChanged (m_chat_id instance) id))) ;;;
      when (bool_decide (m_type instance = Viewtype.Webxdc)) (emit_wx (WebxdcStatusUpdate id serial)) ;;;
      when (negb (from_id =? SELF)%N) (notify_user instance item from_id notify_msg_id) ;;;
      ret (Some serial)
  end.

(** [Context::get_status_update]. *)
Definition get_status_update (id : MsgId) (serial : N) : W str :=
  row <- gets (λ w, head (base.filter (λ r, u_id r = serial ∧ u_msg_id r = id) (updates w))) ;;
  ok_or (u_item <$> row) NoUpdateItem.

(** ** Sending *)

(** [ON CONFLICT(msg_id) DO UPDATE]. *)
Definition upsert (id : MsgId) (new : queue_row) (f : queue_row -> queue_row) (q : list queue_row)
  : list queue_row :=
  if bool_decide (id ∈ q_msg_id <$> q)
  then (λ r, if (q_msg_id r =? id)%N then f r else r) <$> q
  else q ++ [new].

Definition enqueue (id : MsgId) (serial : N) : W unit :=
  modify (upd_queue (upsert id {| q_msg_id := id; q_first := Z.of_N serial; q_last := serial |}
    (λ r, {| q_msg_id := q_msg_id r; q_first := q_first r; q_last := serial |}))).

(** [Context::send_webxdc_status_update_struct] up to and including the transaction that stores the update;
    it gives the serial if the update is to be queued. *)
Definition store_update (now : Z) (id : MsgId) (item : StatusUpdateItem) : W (option N) :=
  m <- load_message id ;;
  let instance := m.2 in
  if negb (bool_decide (m_type instance = Viewtype.Webxdc)) then fail (NotWebxdc id)
  else if bool_decide (is_Some (get_int (load_params (m_param instance)) Param.WebxdcIntegration))
  then intercept_send id item ;;; ret None
  else
    chat <- in_core (in_db (load_from_db (m_chat_id instance))) ;;
    reason <- in_core (why_cant_send_ex chat (λ _, false)) ;;
    match reason with
    | Some _ => fail CannotSendUpdate
    | None =>
        let send_now := negb (bool_decide (m_state instance ∈ [MessageState.Undefined; MessageState.OutDraft])) in
        new_uid <- in_core create_id ;;
        serial <- create_status_update_record now id instance (with_uid (Some new_uid) item) now send_now SELF ;;
        serial <- ok_or serial DuplicateUid ;;
        ret (if send_now then Some serial else None)
    end.

(** The rest of it, another transaction. *)
Definition queue_update (id : MsgId) (serial : N) : W unit := enqueue id serial ;;; emit_wx InterruptSmtp.

Definition send_webxdc_status_update_struct (now : Z) (id : MsgId) (item : StatusUpdateItem) : W unit :=
  serial <- store_update now id item ;;
  match serial with
  | Some serial => queue_update id serial
  | None => ret tt
  end.

(** [Context::send_webxdc_status_update]. *)
Definition send_webxdc_status_update (now : Z) (id : MsgId) (update_str : str) : W unit :=
  item <- ok_or (of_json update_str) BadUpdate ;;
  send_webxdc_status_update_struct now id item.

(** [smtp_status_update_get]. *)
Definition smtp_status_update_get : W (option queue_row) := gets (λ w, head (queue w)).

(** [smtp_status_update_pop_serials]. *)
Definition smtp_status_update_pop_serials (id : MsgId) (first : Z) (first_new : N) : W unit :=
  let done r := (q_msg_id r =? id)%N && (q_first r =? first)%Z && (q_last r <? first_new)%N in
  deleted <- gets (λ w, existsb done (queue w)) ;;
  if (deleted : bool) then modify (upd_queue (base.filter (λ r, done r = false)))
  else modify (upd_queue (fmap (λ r, if (q_msg_id r =? id)%N && (q_first r =? first)%Z
                                     then {| q_msg_id := q_msg_id r; q_first := Z.of_N first_new; q_last := q_last r |}
                                     else r))).

(** The loop of [render_webxdc_status_update_object]: the updates that fit, and the first that does
    not. *)
Fixpoint take_updates (size_max : option N) (json : str) (rows : list update_row)
  : str * list update_row * option N :=
  match rows with
  | [] => (json, [], None)
  | r :: rows' =>
      let full := match size_max with
                  | Some m => (m <=? byte_len json + byte_len (u_item r))%N
                  | None => false
                  end in
      if negb (bool_decide (json = [])) && full then (json, [], Some (u_id r))
      else
        let json := (if bool_decide (json = []) then [] else json ++ lit "," ++ [LF]) ++ u_item r in
        let '(json, taken, stop) := take_updates size_max json rows' in
        (json, r :: taken, stop)
  end.

Definition updates_object (json : str) : str :=
  lit "{" ++ [34%N] ++ lit "updates" ++ [34%N] ++ lit ":[" ++ json ++ lit "]}".

Definition requested (id : MsgId) (first last : N) (w : Wx) : list update_row :=
  base.filter (λ r, u_msg_id r = id ∧ (first <= u_id r <= last)%N) (updates w).

(** [Context::render_webxdc_status_update_object]. *)
Definition render_webxdc_status_update_object (id : MsgId) (first last : N) (size_max : option N)
  : W (option str * N) :=
  gets (λ w,
    let '(json, _, stop) := take_updates size_max [] (requested id first last w) in
    (if bool_decide (json = []) then None else Some (updates_object json),
     default (N.min (last + 1) u32_max) stop)).

(** The hidden message that carries updates. *)
Definition update_message (id : MsgId) (instance : msg_row) (json : str) : W Message :=
  if bool_decide (m_rfc724_mid instance = []) then fail EmptyMessageId
  else
    text <- gets (λ w, default [] (msg_txt (core w) !! id)) ;;
    text <- (if bool_decide (text = [])
             then s <- gets (λ w, quote_summary id (core w)) ;; ok_or s HostError
             else ret text) ;;
    let p := Params_set (set_cmd Params_new SystemMessage.WebxdcStatusUpdate) Param.Arg json in
    let protect := default false (get_bool (load_params (m_param instance)) Param.GuaranteeE2ee) in
    let p := Params_set_optional (Params_set p Param.Quote text) Param.ProtectQuote
               (if protect : bool then Some (lit "1") else None) in
    ret {| msg_viewtype := Viewtype.Text; msg_text := BODY_DESCR; msg_hidden := true;
           msg_param := Params_remove p Param.GuaranteeE2ee |}.

(** The first serial of a row of the queue: [max(first, 1).try_into()?]. *)
Definition first_serial (q : queue_row) : W N :=
  let first := Z.to_N (Z.max (q_first q) 1) in
  if (first <=? u32_max)%N then ret first else fail SerialOutOfRange.

(** A round of [Context::flush_status_updates] up to the sending, and the whole round. *)
Definition flush_send (now : Z) (q : queue_row) : W N :=
  first <- first_serial q ;;
  rendered <- render_webxdc_status_update_object (q_msg_id q) first (q_last q) (Some STATUS_UPDATE_SIZE_MAX) ;;
  (match rendered.1 with
   | Some json =>
       m <- load_message (q_msg_id q) ;;
       msg <- update_message m.1 m.2 json ;;
       in_core (send_msg now (m_chat_id m.2) msg) ;;; ret tt
   | None => ret tt
   end) ;;;
  ret rendered.2.

Definition flush_round (now : Z) (q : queue_row) : W unit :=
  first_new <- flush_send now q ;;
  smtp_status_update_pop_serials (q_msg_id q) (q_first q) first_new.

(** [Context::flush_status_updates], with at most [fuel] rounds. *)
Fixpoint flush_status_updates (fuel : nat) (now : Z) : Wx -> option (result unit wx_error * Wx) :=
  λ w,
  match fuel with
  | O => None
  | S f =>
      match queue w with
      | [] => Some (Ok tt, w)
      | q :: _ =>
          match flush_round now q w with
          | (Ok _, w') => flush_status_updates f now w'
          | (Err e, w') => Some (Err e, w')
          end
      end
  end.

(** [resend_msgs_ex] of chat.rs: the updates of an app that is sent again. *)
Definition update_range (id : MsgId) (w : Wx) : N * N :=
  let ids := u_id <$> base.filter (λ r, u_msg_id r = id) (updates w) in
  (match ids with [] => 1%N | i :: l => foldr N.min i l end, foldr N.max 0%N ids).

Definition requeue_updates (id : MsgId) : W unit :=
  range <- gets (update_range id) ;;
  if (range.2 <? range.1)%N then ret tt
  else modify (upd_queue (upsert id {| q_msg_id := id; q_first := Z.of_N range.1; q_last := range.2 |}
         (λ r, {| q_msg_id := q_msg_id r; q_first := Z.min (q_first r - 1) (Z.of_N range.1);
                  q_last := q_last r |}))).

(** ** Receiving *)

(** [Context::receive_status_update]. *)
Definition receive_status_update (now : Z) (from_id : ContactId) (id : MsgId) (instance : msg_row)
  (timestamp : Z) (can_info_msg : bool) (json : str) : W unit :=
  let chat := m_chat_id instance in
  member <- gets (λ w, Membership.is_contact_in_chat (members (db (core w))) chat from_id) ;;
  (if negb (from_id =? SELF)%N && negb member then
     typ <- gets (λ w, ch_type <$> chats (db (core w)) !! chat) ;;
     typ <- ok_or typ ChatTypeNotFound ;;
     if bool_decide (typ = Chattype.Mailinglist) then ret tt else fail SenderNotMember
   else ret tt) ;;;
  items <- ok_or (parse_updates json) BadUpdate ;;
  for_each items (λ item,
    create_status_update_record now id instance item timestamp can_info_msg from_id ;;; ret tt).

(** [Context::get_webxdc_status_updates]. *)
Definition numbered_updates (id : MsgId) (last_known : N) (w : Wx) : option (list str) :=
  let rows := base.filter (λ r, u_msg_id r = id ∧ (last_known < u_id r)%N) (updates w) in
  let max_serial := foldr N.max 0%N (u_id <$> rows) in
  mapM (λ r, item ← of_json (u_item r); Some (print_numbered (with_uid None item) (u_id r) max_serial)) rows.

Definition get_webxdc_status_updates (id : MsgId) (last_known : N) : W str :=
  p <- gets (λ w, load_params (default [] (m_param <$> msgs (core w) !! id))) ;;
  if bool_decide (is_Some (get_int p Param.WebxdcIntegration))
  then m <- load_message id ;; intercept_get m.1 last_known
  else
    items <- gets (numbered_updates id last_known) ;;
    items <- ok_or items BadUpdate ;;
    ret (lit "[" ++ join (lit "," ++ [LF]) items ++ lit "]").

(** Housekeeping (sql.rs): updates without a message. *)
Definition delete_old_updates : W unit :=
  modify (λ w, upd_updates (update_seq w)
    (base.filter (λ r, match msgs (core w) !! u_msg_id r with
                       | Some m => negb (m_chat_id m =? DC_CHAT_ID_TRASH)%N
                       | None => false
                       end = true)) w).
End Updates.
