(* ===== verification/WebxdcUpdates.v ===== *)
(** WebxdcUpdates: what holds of status updates: an update that is queued stays queued until a message
    carries it, whatever happens in between; sending the queue ends; an update that is received is
    stored once. *)
From stdpp Require Import sorting.
From S2P Require Import Prelude Monad Ids Params ContactTools MsgTable Db Config Sync ChatDb ChatAssign Webxdc.

Definition comma : str := lit "," ++ [LF].

(** The JSON of an array of updates. *)
Definition updates_json (rows : list update_row) : str := updates_object (join comma (u_item <$> rows)).

(** ** Taking updates *)

Lemma take_updates_spec size json rows json' taken stop :
  take_updates size json rows = (json', taken, stop) → Forall (λ r, u_item r ≠ []) rows →
  ∃ rest, rows = taken ++ rest
    ∧ match stop with None => rest = [] | Some n => ∃ r rest', rest = r :: rest' ∧ n = u_id r end
    ∧ json' = (if bool_decide (json = []) then join comma (u_item <$> taken)
               else json ++ concat (app comma <$> (u_item <$> taken)))
    ∧ (json = [] → rows ≠ [] → taken ≠ []).
Proof.
  revert json json' taken stop. induction rows as [|r rows IH]; intros json json' taken stop E Hne; simpl in E.
  { simplify_eq. exists []. split_and!; try done. simpl. case_bool_decide; [done|by rewrite app_nil_r]. }
  apply list.Forall_cons in Hne as [Hr Hne].
  destruct (negb (bool_decide (json = [])) && _) eqn:Eb.
  { simplify_eq. apply andb_true_iff in Eb as [Eb _]. apply negb_true_iff in Eb. exists (r :: rows).
    rewrite Eb. apply bool_decide_eq_false in Eb. split_and!; try done; [by exists r, rows|].
    simpl. by rewrite app_nil_r. }
  destruct (take_updates size _ rows) as [[j t] s] eqn:Er. injection E as <- <- <-.
  destruct (IH _ _ _ _ Er Hne) as (rest & -> & Hs & -> & _). exists rest. split_and!; try done.
  rewrite bool_decide_eq_false_2 by (case_bool_decide; [done|by intros [_ ?]%app_nil]).
  rewrite fmap_cons, join_concat. case_bool_decide; [done|].
  rewrite fmap_cons. cbn [concat]. by rewrite <-!app_assoc.
Qed.

(** What serde and the app that is built in promise: the text of an item is not empty, and the other
    app leaves the updates alone. *)
Definition same_updates (w w' : Wx) : Prop :=
  updates w' = updates w ∧ update_seq w' = update_seq w ∧ queue w' = queue w.

Class WebxdcOk `{!Json StatusUpdateItem, !WebxdcWorld} : Prop := {
  item_text i : to_json i ≠ [];
  intercept_leaves_updates id i w0 : preserves (same_updates w0) (intercept_send id i)
}.

Section Updates.
Context {PF : Platform} {OS : Outside} {JS : Json SyncItem} {SD : Sending} {JI : Json StatusUpdateItem}
  {WW : WebxdcWorld} {WO : WebxdcOk}.

(** ** The tables *)

Definition range_ok (seq : N) (q : queue_row) : Prop :=
  (q_last q <= seq)%N ∧ (q_first q <= Z.of_N seq + 1)%Z.

Record consistent (w : Wx) : Prop := {
  co_ids : StronglySorted N.lt (u_id <$> updates w);
  co_seq : Forall (λ r, (1 <= u_id r <= update_seq w)%N) (updates w);
  co_max : (update_seq w <= u32_max)%N;
  co_text : Forall (λ r, u_item r ≠ []) (updates w);
  co_uids : ∀ r r' x, r ∈ updates w → r' ∈ updates w → u_uid r = Some x → u_uid r' = Some x → r = r';
  co_queue : NoDup (q_msg_id <$> queue w);
  co_range : Forall (range_ok (update_seq w)) (queue w)
}.

Section Frame.
Context (w0 : Wx).
Local Abbreviation leaves := (preserves (same_updates w0)).

Lemma leaves_core {X} (x : C X) : leaves (in_core x).
Proof. intros w Hw. unfold in_core. by destruct (x (core w)) as [[v|e] c]. Qed.

Lemma leaves_modify f :
  (∀ w, same_updates w (f w)) → preserves (Er := wx_error) (same_updates w0) (modify f).
Proof.
  intros Hf w (H1 & H2 & H3). simpl. destruct (Hf w) as (F1 & F2 & F3).
  unfold same_updates. by rewrite F1, F2, F3.
Qed.

Lemma leaves_emit e : leaves (emit_wx e).
Proof. by apply leaves_modify. Qed.
Hint Resolve leaves_core leaves_emit : preserves.

Lemma leaves_load id : leaves (load_message id).
Proof. unfold load_message. preserves_tac. Qed.

Lemma leaves_param id p : leaves (store_param id p).
Proof. by apply leaves_modify. Qed.
Hint Resolve leaves_load leaves_param : preserves.

Lemma leaves_info now id instance item text t from : leaves (show_info now id instance item text t from).
Proof.
  unfold show_info, get_overwritable_info_msg_id, update_msg_text_and_timestamp. preserves_tac; by apply leaves_modify.
Qed.

Lemma leaves_notify instance item from id : leaves (notify_user instance item from id).
Proof. unfold notify_user, get_webxdc_self_addr. preserves_tac. Qed.
Hint Resolve leaves_info leaves_notify : preserves.

(** What follows the insertion of an update. *)
Lemma leaves_rest now id instance item t can from serial :
  leaves (let '(changed, p) := document_param item t (load_params (m_param instance)) in
      let '(changed', p) := summary_param item t p in
      notify_msg_id <- (match (if can : bool then info item else None) with
                        | Some info => show_info now id instance item info t from
                        | None => ret id
                        end) ;;
      when (changed || changed')
        (store_param id p ;;; in_core (emit_core (MsgsChanged (m_chat_id instance) id))) ;;;
      when (bool_decide (m_type instance = Viewtype.Webxdc)) (emit_wx (WebxdcStatusUpdate id serial)) ;;;
      when (negb (from =? SELF)%N) (notify_user instance item from notify_msg_id) ;;;
      ret (Some serial)).
Proof.
  destruct (document_param _ _ _) as [changed p]. destruct (summary_param _ _ _) as [changed' p']. preserves_tac.
Qed.

Lemma leaves_flush_send now q : leaves (flush_send now q).
Proof.
  unfold flush_send, first_serial, render_webxdc_status_update_object, update_message. preserves_tac.
Qed.
End Frame.

Lemma same_updates_refl w : same_updates w w.
Proof. done. Qed.

(** ** Sorted lists *)

Lemma sorted_snoc l n : StronglySorted N.lt l → Forall (λ m, (m < n)%N) l → StronglySorted N.lt (l ++ [n]).
Proof.
  induction l as [|m l IH]; intros Hs Hn; simpl; [by repeat constructor|].
  apply StronglySorted_inv in Hs as [Hs Hm]. apply list.Forall_cons in Hn as [Hmn Hn].
  constructor; [by apply IH|]. apply list.Forall_app. by repeat constructor.
Qed.

Lemma sorted_filter (P : update_row -> Prop) `{!∀ r, Decision (P r)} l :
  StronglySorted N.lt (u_id <$> l) → StronglySorted N.lt (u_id <$> base.filter P l).
Proof.
  induction l as [|r l IH]; intros Hs; [done|]. rewrite fmap_cons in Hs.
  apply StronglySorted_inv in Hs as [Hs Hr]. rewrite filter_cons. destruct (decide (P r)); [|by apply IH].
  rewrite fmap_cons. constructor; [by apply IH|]. apply list.Forall_fmap, list.Forall_forall.
  intros x [_ Hx]%list_elem_of_filter. rewrite list.Forall_fmap, list.Forall_forall in Hr. by apply Hr.
Qed.

Lemma sorted_app_before (l : list update_row) r l' x :
  StronglySorted N.lt (u_id <$> l ++ r :: l') → x ∈ l ++ r :: l' → (u_id x < u_id r)%N → x ∈ l.
Proof.
  induction l as [|y l IH]; simpl; intros Hs Hx Hlt.
  - apply StronglySorted_inv in Hs as [_ Hr]. apply elem_of_cons in Hx as [->|Hx]; [lia|].
    rewrite list.Forall_fmap, list.Forall_forall in Hr. specialize (Hr x Hx). simpl in Hr. lia.
  - apply StronglySorted_inv in Hs as [Hs _]. apply elem_of_cons in Hx as [->|Hx]; [by left|].
    right. by apply IH.
Qed.

Lemma sorted_unique (l : list update_row) x y :
  StronglySorted N.lt (u_id <$> l) → x ∈ l → y ∈ l → u_id x = u_id y → x = y.
Proof.
  induction l as [|r l IH]; [by intros _ ?%elem_of_nil|]. intros Hs Hx Hy E. rewrite fmap_cons in Hs.
  apply StronglySorted_inv in Hs as [Hs Hr]. rewrite list.Forall_fmap, list.Forall_forall in Hr.
  apply elem_of_cons in Hx as [->|Hx], Hy as [->|Hy]; [done|..|by apply IH];
    [specialize (Hr y Hy)|specialize (Hr x Hx)]; simpl in Hr; lia.
Qed.

(** ** Storing an update *)

Definition new_row (w : Wx) (id : MsgId) (item : StatusUpdateItem) : update_row :=
  {| u_id := update_seq w + 1; u_msg_id := id; u_item := to_json item; u_uid := uid item |}.

(** The update was added. *)
Definition added (id : MsgId) (item : StatusUpdateItem) (w w' : Wx) : Prop :=
  updates w' = updates w ++ [new_row w id item] ∧ update_seq w' = (update_seq w + 1)%N
  ∧ queue w' = queue w ∧ (update_seq w + 1 <= u32_max)%N ∧ known_uid (uid item) (updates w) = false.

Lemma same_updates_trans w1 w2 w3 : same_updates w1 w2 → same_updates w2 w3 → same_updates w1 w3.
Proof. unfold same_updates. intros (-> & -> & ->) (-> & -> & ->). done. Qed.

Lemma added_then_same id item w w1 w2 : added id item w w1 → same_updates w1 w2 → added id item w w2.
Proof. unfold added, same_updates. intros (-> & -> & -> & ? & ?) (-> & -> & ->). done. Qed.

Lemma write_run id item t w r w' :
  write_status_update_inner id item t w = (r, w') →
  match r with
  | Ok (Some n) => added id item w w' ∧ n = (update_seq w + 1)%N
  | Ok None => same_updates w w' ∧ known_uid (uid item) (updates w) = true
  | Err _ => w' = w
  end.
Proof.
  unfold write_status_update_inner. run_se. unfold Datatypes.id.
  destruct (known_uid (uid item) (updates w)) eqn:Hk; [by intros [= <- <-]|].
  destruct (_ || _) eqn:Eb; [by intros [= <- <-]|]. apply orb_false_iff in Eb as [Eb _]. apply N.ltb_ge in Eb.
  intros [= <- <-]. split; [|done]. by split_and!.
Qed.

Lemma create_run now id instance item t can from w r w' :
  create_status_update_record now id instance item t can from w = (r, w') →
  (same_updates w w' ∧ (∀ n, r ≠ Ok (Some n)) ∧ (r = Ok None → known_uid (uid item) (updates w) = true))
  ∨ (added id item w w' ∧ r ≠ Ok None ∧ ∀ n, r = Ok (Some n) → n = (update_seq w + 1)%N).
Proof.
  unfold create_status_update_record, bind at 1.
  destruct (write_status_update_inner id item t w) as [[[n|]|e] w1] eqn:E1;
    pose proof (write_run _ _ _ _ _ _ E1) as H1; simpl in H1.
  - destruct H1 as [Ha ->]. intros E. right.
    assert (same_updates w1 w') as Hs by (eapply preserves_run; [apply leaves_rest|exact E|done]).
    split; [by eapply added_then_same|].
    revert E. destruct (document_param _ _ _) as [c1 p1]. destruct (summary_param _ _ _) as [c2 p2].
    intros E. destruct r as [v|e]; [|done].
    do 4 (apply bind_ok in E as (? & ? & ? & E)). injection E as <- _. split; [done|]. by intros n [= <-].
  - destruct H1 as [H1 Hk]. intros [= <- <-]. by left.
  - subst w1. intros [= <- <-]. by left.
Qed.

Lemma known_uid_elem x l : known_uid (Some x) l = true ↔ ∃ r, r ∈ l ∧ u_uid r = Some x.
Proof.
  simpl. rewrite existsb_exists. split.
  - intros (r & Hr & H%bool_decide_eq_true). apply list_elem_of_In in Hr. eauto.
  - intros (r & Hr & H). exists r. rewrite bool_decide_eq_true. by apply list_elem_of_In in Hr.
Qed.

Lemma same_consistent w w' : same_updates w w' → consistent w → consistent w'.
Proof. intros (E1 & E2 & E3) [H1 H2 H3 H4 H5 H6 H7]. split; rewrite ?E1, ?E2, ?E3; done. Qed.

Lemma added_consistent id item w w' : added id item w w' → consistent w → consistent w'.
Proof.
  intros (E1 & E2 & E3 & Hm & Hk) [H1 H2 H3 H4 H5 H6 H7].
  assert (∀ r, r ∈ updates w → (u_id r <= update_seq w)%N) as Hle
    by (intros r Hr; rewrite list.Forall_forall in H2; by apply H2).
  split; rewrite ?E1, ?E2, ?E3; try done.
  - rewrite fmap_app. apply sorted_snoc; [done|]. apply list.Forall_fmap, list.Forall_forall.
    intros r Hr. simpl. specialize (Hle r Hr). lia.
  - apply list.Forall_app. split; [|repeat constructor; simpl; lia].
    eapply list.Forall_impl; [exact H2|]. intros r. simpl. lia.
  - apply list.Forall_app. split; [done|]. repeat constructor. apply item_text.
  - assert (∀ r x, r ∈ updates w → u_uid r = Some x → uid item = Some x → False) as Hno.
    { intros r x Hr Hx Hi. rewrite Hi in Hk. apply not_true_iff_false in Hk. apply Hk, known_uid_elem. eauto. }
    intros r r' x Hr Hr' Hx Hx'. rewrite elem_of_app, list_elem_of_singleton in Hr, Hr'.
    destruct Hr as [Hr| ->], Hr' as [Hr'| ->]; simpl in *; [by eapply H5|exfalso; eauto..|done].
  - eapply list.Forall_impl; [exact H7|]. unfold range_ok. lia.
Qed.

(** ** Queueing *)

Lemma upsert_keys id new f q :
  q_msg_id new = id → (∀ r, q_msg_id (f r) = q_msg_id r) → NoDup (q_msg_id <$> q) →
  NoDup (q_msg_id <$> upsert id new f q).
Proof.
  intros Hn Hf Hq. unfold upsert. case_bool_decide as Hin.
  - rewrite <-list_fmap_compose. erewrite list_fmap_ext; [exact Hq|]. intros i r _. simpl.
    destruct (q_msg_id r =? id)%N; auto.
  - rewrite fmap_app, list.NoDup_app. split_and!; [done| |apply list.NoDup_singleton].
    intros x Hx Hy. apply list_elem_of_singleton in Hy as ->. congruence.
Qed.

Lemma upsert_elem id new f q r :
  r ∈ upsert id new f q →
  r ∈ q ∨ (r = new ∧ id ∉ q_msg_id <$> q) ∨ ∃ r0, r0 ∈ q ∧ q_msg_id r0 = id ∧ r = f r0.
Proof.
  unfold upsert. case_bool_decide as Hin.
  - intros (r0 & -> & Hr0)%list_elem_of_fmap. destruct (N.eqb_spec (q_msg_id r0) id); eauto 6.
  - intros [?|Hr]%elem_of_app; [by left|]. apply list_elem_of_singleton in Hr. auto.
Qed.

(** An update is waiting if its serial is in the range of its app. *)
Definition in_range (n : N) (q : queue_row) : Prop := (q_first q <= Z.of_N n)%Z ∧ (n <= q_last q)%N.

Definition waiting (id : MsgId) (n : N) (w : Wx) : Prop :=
  ∃ q, q ∈ queue w ∧ q_msg_id q = id ∧ in_range n q.

Lemma upsert_waiting id n id' new f q :
  (∀ r, q_msg_id (f r) = q_msg_id r) → (∀ r, r ∈ q → in_range n r → in_range n (f r)) →
  (∃ r, r ∈ q ∧ q_msg_id r = id ∧ in_range n r) →
  ∃ r, r ∈ upsert id' new f q ∧ q_msg_id r = id ∧ in_range n r.
Proof.
  intros Hk Hf (r & Hr & Hid & Hn). unfold upsert. case_bool_decide.
  - exists (if (q_msg_id r =? id')%N then f r else r). split; [by apply list_elem_of_fmap; eauto|].
    destruct (q_msg_id r =? id')%N; rewrite ?Hk; auto.
  - exists r. rewrite elem_of_app. auto.
Qed.

(** Storing an update that is sent leaves the tables alone or adds the update. *)
Lemma store_run now id item w r w' :
  store_update now id item w = (r, w') →
  same_updates w w' ∧ (∀ n, r ≠ Ok (Some n))
  ∨ (∃ x, added id (with_uid (Some x) item) w w') ∧ ∀ n, r = Ok (Some n) → n = (update_seq w + 1)%N.
Proof.
  unfold store_update, bind at 1.
  destruct (load_message id w) as [[m|e] w1] eqn:E1;
    (assert (same_updates w w1) as H1 by (eapply preserves_run; [apply leaves_load|exact E1|done]));
    [|intros [= <- <-]; by left].
  destruct (negb _); [intros [= <- <-]; by left|].
  destruct (bool_decide _).
  { intros E. left. split.
    - eapply same_updates_trans; [exact H1|].
      assert (preserves (same_updates w1) (intercept_send id item ;;; ret (None : option N))) as Hp.
      { apply preserves_bind; [apply intercept_leaves_updates|intros ?; apply preserves_ret]. }
      eapply preserves_run; [exact Hp|exact E|done].
    - intros n ->. apply bind_ok in E as (? & ? & _ & [=]). }
  unfold bind at 1. destruct (in_core _ w1) as [[chat|e] w2] eqn:E2;
    (assert (same_updates w w2) as H2
      by (eapply same_updates_trans; [exact H1|]; eapply preserves_run; [apply leaves_core|exact E2|done]));
    [|intros [= <- <-]; by left].
  unfold bind at 1. destruct (in_core _ w2) as [[reason|e] w3] eqn:E3;
    (assert (same_updates w w3) as H3
      by (eapply same_updates_trans; [exact H2|]; eapply preserves_run; [apply leaves_core|exact E3|done]));
    [|intros [= <- <-]; by left].
  destruct reason; [intros [= <- <-]; by left|].
  unfold bind at 1. destruct (in_core create_id w3) as [[u|e] w4] eqn:E4;
    (assert (same_updates w w4) as H4
      by (eapply same_updates_trans; [exact H3|]; eapply preserves_run; [apply leaves_core|exact E4|done]));
    [|intros [= <- <-]; by left].
  assert (∀ i w5, added id i w4 w5 → added id i w w5) as Hadd.
  { intros i w5 (B1 & B2 & B3 & B4 & B5). destruct H4 as (A1 & A2 & A3). unfold added, new_row in *.
    rewrite A1, A2, A3 in *. done. }
  unfold bind at 1. destruct (create_status_update_record _ _ _ _ _ _ _ w4) as [[serial|e] w5] eqn:E5;
    destruct (create_run _ _ _ _ _ _ _ _ _ _ E5) as [[H5 [H5' _]]|[H5 [_ H5']]].
  - intros E. left. destruct serial as [n|]; [by destruct (H5' n)|]. injection E as <- <-.
    split; [by eapply same_updates_trans|done].
  - intros E. right. split.
    + exists u. apply Hadd. destruct serial; by injection E as <- <-.
    + intros n ->. destruct serial as [m'|]; [|done]. destruct H4 as (_ & <- & _).
      unfold bind, ok_or, ret in E. rewrite <-(H5' m' eq_refl). destruct (negb _); [by injection E as ->|done].
  - intros [= <- <-]. left. split; [by eapply same_updates_trans|done].
  - intros [= <- <-]. right. split; [exists u; by apply Hadd|done].
Qed.

(** ** Histories

    [inflight] is the range a round of the queue has sent and not yet removed, and [pending] are the
    updates that were stored and are still to be queued by the call that stored them, oldest first: other
    operations may come in between. *)
Record Run := {
  wx : Wx;
  inflight : option (MsgId * Z * N);
  pending : list (MsgId * N)
}.

(** The calls for one app queue their updates in the order they stored them. *)
Inductive wx_op :=
| StoreUpdate (now : Z) (id : MsgId) (item : StatusUpdateItem)
| QueueUpdate (id : MsgId)
| FlushSend (now : Z)
| FlushPop
| Requeue (id : MsgId)
| ReceiveUpdates (now : Z) (from : ContactId) (id : MsgId) (instance : msg_row) (timestamp : Z) (can : bool)
    (json : str)
| Housekeeping.

(** The first of the calls for the app. *)
Fixpoint take_pending (id : MsgId) (l : list (MsgId * N)) : option (N * list (MsgId * N)) :=
  match l with
  | [] => None
  | p :: l' =>
      if (p.1 =? id)%N then Some (p.2, l')
      else match take_pending id l' with Some (n, rest) => Some (n, p :: rest) | None => None end
  end.

(** What a round sends. *)
Definition round_of (q : queue_row) (w : Wx) : str * list update_row * option N :=
  take_updates (Some STATUS_UPDATE_SIZE_MAX) []
    (requested (q_msg_id q) (Z.to_N (Z.max (q_first q) 1)) (q_last q) w).

Definition with_wx (f : Wx -> Wx) (s : Run) : Run :=
  {| wx := f (wx s); inflight := inflight s; pending := pending s |}.

Definition run_op (op : wx_op) (s : Run) : Run :=
  match op with
  | StoreUpdate now id item =>
      match store_update now id item (wx s) with
      | (Ok (Some n), w') => {| wx := w'; inflight := inflight s; pending := pending s ++ [(id, n)] |}
      | (_, w') => with_wx (λ _, w') s
      end
  | QueueUpdate id =>
      match take_pending id (pending s) with
      | Some (n, rest) => {| wx := (queue_update id n (wx s)).2; inflight := inflight s; pending := rest |}
      | None => s
      end
  | FlushSend now =>
      match inflight s, queue (wx s) with
      | None, q :: _ =>
          match flush_send now q (wx s) with
          | (Ok first_new, w') =>
              {| wx := w'; inflight := Some (q_msg_id q, q_first q, first_new); pending := pending s |}
          | (Err _, w') => with_wx (λ _, w') s
          end
      | _, _ => s
      end
  | FlushPop =>
      match inflight s with
      | Some (id, first, first_new) =>
          {| wx := (smtp_status_update_pop_serials id first first_new (wx s)).2; inflight := None;
             pending := pending s |}
      | None => s
      end
  | Requeue id => with_wx (λ w, (requeue_updates id w).2) s
  | ReceiveUpdates now from id instance t can json =>
      with_wx (λ w, (receive_status_update now from id instance t can json w).2) s
  | Housekeeping => with_wx (λ w, (delete_old_updates w).2) s
  end.

Definition run_ops (ops : list wx_op) (s : Run) : Run := foldl (λ s op, run_op op s) s ops.

Lemma run_snoc ops op s : run_ops (ops ++ [op]) s = run_op op (run_ops ops s).
Proof. unfold run_ops. by rewrite foldl_app. Qed.

(** A hidden message with the updates [json] was sent to the chat of the app. *)
Definition sent_with (now : Z) (id : MsgId) (json : str) (w w' : Wx) : Prop :=
  ∃ r msg mid, msgs (core w) !! id = Some r ∧ send_msg now (m_chat_id r) msg (core w) = (Ok mid, core w')
    ∧ Params_get (msg_param msg) Param.Arg = Some json ∧ msg_hidden msg = true.

(** Sending from [w] to [w'] took the update along. *)
Definition takes_along (now : Z) (u : update_row) (w w' : Wx) : Prop :=
  ∃ rows, u ∈ rows ∧ sent_with now (u_msg_id u) (updates_json rows) w w'.

(** In the history a round has sent the update. *)
Definition sent_in (ops : list wx_op) (s : Run) (u : update_row) : Prop :=
  ∃ before_ now after_, ops = before_ ++ FlushSend now :: after_
    ∧ takes_along now u (wx (run_ops before_ s)) (wx (run_ops (before_ ++ [FlushSend now]) s)).

Record sound (s : Run) : Prop := {
  so_tables : consistent (wx s);
  so_sorted : StronglySorted N.lt (pending s).*2;
  so_pending : Forall (λ p, (p.2 <= update_seq (wx s))%N) (pending s);
  so_inflight : ∀ id first first_new, inflight s = Some (id, first, first_new) →
    (first_new <= update_seq (wx s) + 1)%N
}.

Lemma join_not_empty r rows : r ∈ rows → u_item r ≠ [] → join comma (u_item <$> rows) ≠ [].
Proof.
  intros Hr Hne E. destruct (u_item r) as [|c s] eqn:Ei; [done|].
  apply (not_elem_of_nil c). rewrite <-E. eapply join_char; [by apply list_elem_of_fmap_2|]. rewrite Ei. by left.
Qed.

(** The rows a round takes: all that are requested before the first serial it leaves. *)
Lemma round_spec q w u :
  consistent w → u ∈ updates w → u_msg_id u = q_msg_id q → (q_first q <= Z.of_N (u_id u))%Z →
  (u_id u <= q_last q)%N →
  (∀ n, (round_of q w).2 = Some n → (u_id u < n)%N) → u ∈ (round_of q w).1.2.
Proof.
  intros [H1 H2 _ H4 _ _ _] Hu Hm Hf Hl Hs. unfold round_of in *.
  destruct (take_updates _ _ _) as [[json taken] stop] eqn:E. simpl in *.
  edestruct take_updates_spec as (rest & Er & Hst & _ & _); [exact E| |].
  { apply list.Forall_forall. intros r [_ Hr]%list_elem_of_filter. rewrite list.Forall_forall in H4. auto. }
  assert (u ∈ taken ++ rest) as Hin.
  { rewrite <-Er. apply list_elem_of_filter. rewrite list.Forall_forall in H2. specialize (H2 u Hu). split_and!; [done|lia|done|done]. }
  destruct stop as [n|]; [|subst rest; by rewrite app_nil_r in Hin].
  destruct Hst as (r & rest' & -> & ->). eapply sorted_app_before; [|exact Hin|by apply Hs].
  rewrite <-Er. by apply sorted_filter.
Qed.

(** ** Operations that take nothing off the queue *)

Record grows (w w' : Wx) : Prop := {
  gr_consistent : consistent w → consistent w';
  gr_seq : (update_seq w <= update_seq w')%N;
  gr_new : ∀ u, u ∈ updates w' → u ∈ updates w ∨ (update_seq w < u_id u)%N;
  gr_waiting : consistent w → ∀ id n, waiting id n w → waiting id n w'
}.

Lemma queue_grows_trans w1 w2 w3 : grows w1 w2 → grows w2 w3 → grows w1 w3.
Proof.
  intros [A1 A2 A3 A4] [B1 B2 B3 B4]. split; [by auto|lia| |by auto].
  intros u Hu. destruct (B3 u Hu) as [Hu'|]; [by apply A3|right; lia].
Qed.

Lemma queue_grows_same w w' : same_updates w w' → grows w w'.
Proof.
  intros Hs. split; [by apply same_consistent|..]; destruct Hs as (E1 & E2 & E3).
  - by rewrite E2.
  - rewrite E1. by left.
  - intros _ id n. unfold waiting. by rewrite E3.
Qed.

Lemma grows_added id item w w' : added id item w w' → grows w w'.
Proof.
  intros Ha. split; [by apply (added_consistent _ _ _ _ Ha)|..]; destruct Ha as (E1 & E2 & E3 & _).
  - lia.
  - rewrite E1. intros u [Hu| ->%list_elem_of_singleton]%elem_of_app; [by left|right; simpl; lia].
  - intros _ i n. unfold waiting. by rewrite E3.
Qed.

Lemma grows_upsert id new f w w' :
  updates w' = updates w → update_seq w' = update_seq w → queue w' = upsert id new f (queue w) →
  q_msg_id new = id → range_ok (update_seq w) new →
  (∀ r, q_msg_id (f r) = q_msg_id r) → (∀ r, range_ok (update_seq w) r → range_ok (update_seq w) (f r)) →
  (∀ n r, range_ok (update_seq w) r → in_range n r → in_range n (f r)) → grows w w'.
Proof.
  intros E1 E2 E3 Hn Hl Hk Hf Hr. split; [|lia|rewrite E1; by left|].
  - intros [H1 H2 H3 H4 H5 H6 H7]. split; rewrite ?E1, ?E2, ?E3; try done; [by apply upsert_keys|].
    rewrite list.Forall_forall in H7. apply list.Forall_forall.
    intros r [H| [[-> _]|(r0 & H & _ & ->)]]%upsert_elem; auto.
  - intros [_ _ _ _ _ _ H7] i n. unfold waiting. rewrite E3. apply upsert_waiting; [done|].
    intros r H. rewrite list.Forall_forall in H7. auto.
Qed.

Lemma store_grows now id item w : grows w (store_update now id item w).2.
Proof.
  destruct (store_update now id item w) as [r w'] eqn:E.
  destruct (store_run _ _ _ _ _ _ E) as [[H _]|[[x H] _]]; simpl; [by apply queue_grows_same|by eapply grows_added].
Qed.

(** A call that queues a stored update. *)
Lemma queue_consistent id n w :
  (n <= update_seq w)%N → consistent w → consistent (queue_update id n w).2.
Proof.
  intros Hn [H1 H2 H3 H4 H5 H6 H7]. split; simpl; try done; [by apply upsert_keys|].
  rewrite list.Forall_forall in H7. apply list.Forall_forall.
  intros r [H| [[-> _]|(r0 & H & _ & ->)]]%upsert_elem; [by apply H7|split; simpl; lia|].
  destruct (H7 r0 H). split; simpl; lia.
Qed.

Lemma max_bound (l : list N) b : Forall (λ n, (n <= b)%N) l → (foldr N.max 0 l <= b)%N.
Proof. induction 1; simpl; lia. Qed.

Lemma range_bound id w : consistent w → ((update_range id w).2 <= update_seq w)%N.
Proof.
  intros [_ H2 _ _ _ _ _]. unfold update_range. cbn [snd]. apply max_bound, list.Forall_fmap, list.Forall_forall.
  intros r [_ Hr]%list_elem_of_filter. rewrite list.Forall_forall in H2. specialize (H2 r Hr). simpl. lia.
Qed.

Lemma requeue_grows id w : consistent w → grows w (requeue_updates id w).2.
Proof.
  intros Hc. unfold requeue_updates, bind, gets. destruct (_ <? _)%N eqn:E; [by apply queue_grows_same|].
  apply N.ltb_ge in E. pose proof (range_bound id w Hc).
  eapply grows_upsert; [done|done|done|done|split; cbn [q_first q_last]; lia|done|..].
  - intros r [Hr Hr']. split; cbn [q_first q_last]; lia.
  - intros n r _ [Hn Hl]. split; cbn [q_first q_last]; lia.
Qed.

Lemma create_grows w0 now id instance item t can from :
  preserves (grows w0) (create_status_update_record now id instance item t can from).
Proof.
  intros w Hw. destruct (create_status_update_record _ _ _ _ _ _ _ w) as [r w'] eqn:E. simpl.
  eapply queue_grows_trans; [exact Hw|].
  destruct (create_run _ _ _ _ _ _ _ _ _ _ E) as [[H _]|[H _]]; [by apply queue_grows_same|by eapply grows_added].
Qed.
Hint Resolve create_grows : preserves.

Lemma receive_grows now from id instance t can json w :
  grows w (receive_status_update now from id instance t can json w).2.
Proof.
  assert (preserves (grows w) (receive_status_update now from id instance t can json)) as H.
  { unfold receive_status_update. preserves_tac. apply preserves_for_each. intros item _. preserves_tac. }
  apply H. by apply queue_grows_same.
Qed.

Lemma forall_kept {X} (Q P : X -> Prop) `{!∀ x, Decision (P x)} l : Forall Q l → Forall Q (base.filter P l).
Proof. rewrite !list.Forall_forall. intros Hq x [_ Hx]%list_elem_of_filter. auto. Qed.

Lemma housekeeping_grows w : grows w (delete_old_updates w).2.
Proof.
  split; simpl; [|lia| |].
  - intros [H1 H2 H3 H4 H5 H6 H7].
    split; simpl; [by apply sorted_filter|..| |done|done]; try done; try by apply forall_kept.
    intros r r' x [_ Hr]%list_elem_of_filter [_ Hr']%list_elem_of_filter. by apply H5.
  - intros u [_ Hu]%list_elem_of_filter. by left.
  - done.
Qed.

Lemma grows_sound s w' : grows (wx s) w' → sound s → sound (with_wx (λ _, w') s).
Proof.
  intros [G1 G2 G3 _] [Hc Hs Hp Hi]. split; simpl; [by apply G1|done| |].
  - eapply list.Forall_impl; [exact Hp|]. simpl. lia.
  - intros id f n E. specialize (Hi _ _ _ E). lia.
Qed.

(** ** A round of the queue *)

Lemma upd_core_id w : upd_core (λ _, core w) w = w.
Proof. by destruct w. Qed.

Lemma load_message_ok id w m w' :
  load_message id w = (Ok m, w') → w' = w ∧ m.1 = id ∧ msgs (core w) !! id = Some m.2.
Proof.
  unfold load_message, load_msg_optional, in_core, ensure_or, bind, gets, fail, ret. destruct (negb _); [|done].
  destruct (msgs (core w) !! id) as [r|]; [|done]. destruct (_ =? _)%N; [done|]. simpl. rewrite upd_core_id.
  by intros [= <- <-].
Qed.

Lemma update_message_ok id r json w msg w' :
  update_message id r json w = (Ok msg, w') →
  w' = w ∧ Params_get (msg_param msg) Param.Arg = Some json ∧ msg_hidden msg = true.
Proof.
  unfold update_message. destruct (bool_decide _); [done|]. intros E.
  apply bind_ok in E as (text & w1 & [= <- <-] & E). apply bind_ok in E as (text & w2 & E1 & [= <- <-]).
  assert (w2 = w) as ->.
  { revert E1. unfold bind, gets, ok_or, ret, fail. destruct (bool_decide _); [destruct (quote_summary _ _); [|done]|];
      by intros [= _ <-]. }
  split_and!; [done| |done]. simpl. unfold Params_get, Params_set_optional.
  destruct (default false (get_bool _ _)); simpl; repeat first [rewrite lookup_delete_ne by done|rewrite lookup_insert_ne by done];
    by rewrite lookup_insert_eq.
Qed.

Lemma flush_send_ok now q w n w' :
  flush_send now q w = (Ok n, w') →
  n = default (N.min (q_last q + 1) u32_max) (round_of q w).2
  ∧ ((round_of q w).1.1 ≠ [] → sent_with now (q_msg_id q) (updates_object (round_of q w).1.1) w w').
Proof.
  unfold flush_send, first_serial. intros E. apply bind_ok in E as (first & w1 & E1 & E).
  assert (first = Z.to_N (Z.max (q_first q) 1) ∧ w1 = w) as [-> ->].
  { revert E1. destruct (_ <=? _)%N; [|done]. by intros [= <- <-]. }
  apply bind_ok in E as (rendered & w2 & [= <- <-] & E). apply bind_ok in E as ([] & w2 & E2 & [= <- <-]).
  change (take_updates _ _ _) with (round_of q w) in *.
  destruct (round_of q w) as [[json taken] stop]. simpl in *. split; [done|]. intros Hne.
  rewrite bool_decide_eq_false_2 in E2 by done.
  apply bind_ok in E2 as (m & w3 & (-> & Em & Er)%load_message_ok & E2).
  apply bind_ok in E2 as (msg & w4 & (-> & Ea & Eh)%update_message_ok & E2).
  apply bind_ok in E2 as (mid & w5 & E2 & [= <-]). exists m.2, msg, mid. split_and!; try done.
  revert E2. unfold in_core. destruct (send_msg _ _ _ _) as [[v|e] c]; [|done]. by intros [= <- <-].
Qed.

Lemma stop_requested q w n :
  consistent w → (round_of q w).2 = Some n →
  ∃ r, r ∈ updates w ∧ u_id r = n ∧ (n <= q_last q)%N.
Proof.
  intros Hc E. unfold round_of in E. destruct (take_updates _ _ _) as [[json taken] stop] eqn:Et. simpl in E. subst stop.
  destruct (take_updates_spec _ _ _ _ _ _ Et) as (rest & Er & (r & rest' & -> & ->) & _); [apply forall_kept, Hc|].
  assert (r ∈ requested (q_msg_id q) (Z.to_N (Z.max (q_first q) 1)) (q_last q) w) as Hr
    by (rewrite Er; apply elem_of_app; right; by left).
  apply list_elem_of_filter in Hr as [[_ [_ Hl]] Hr]. eauto.
Qed.

Lemma flush_send_kept now q w w' r :
  flush_send now q w = (r, w') → updates w' = updates w ∧ update_seq w' = update_seq w ∧ queue w' = queue w.
Proof. intros E. by apply (preserves_run _ _ _ _ _ (leaves_flush_send w now q) E). Qed.

(** The first serial that a round leaves. *)
Lemma first_left_bound now q w n w' :
  consistent w → flush_send now q w = (Ok n, w') → (n <= q_last q + 1)%N.
Proof.
  intros Hc [-> _]%flush_send_ok. destruct (round_of q w).2 as [n|] eqn:En; simpl; [|lia].
  destruct (stop_requested _ _ _ Hc En) as (_ & _ & _ & H). lia.
Qed.

(** A round takes along what it does not leave. *)
Lemma flush_takes_along now q w n w' u :
  consistent w → flush_send now q w = (Ok n, w') → u ∈ updates w → u_msg_id u = q_msg_id q →
  (q_first q <= Z.of_N (u_id u))%Z → (u_id u < n)%N → takes_along now u w w'.
Proof.
  intros Hc E Hu Hm Hf Hlt. pose proof (first_left_bound _ _ _ _ _ Hc E) as Hb.
  destruct (flush_send_ok _ _ _ _ _ E) as [-> Hs].
  assert (u ∈ (round_of q w).1.2) as Hin.
  { apply round_spec; try done; [lia|]. intros n En. by rewrite En in Hlt. }
  unfold round_of in *. destruct (take_updates _ _ _) as [[json taken] stop] eqn:Et. simpl in *.
  destruct (take_updates_spec _ _ _ _ _ _ Et) as (rest & _ & _ & -> & _); [apply forall_kept, Hc|].
  rewrite bool_decide_eq_true_2 in * by done. destruct Hc as [_ _ _ H4 _ _ _]. rewrite list.Forall_forall in H4.
  exists taken. split; [done|]. rewrite Hm. apply Hs. eapply join_not_empty; eauto.
Qed.

(** ** Taking a range off the queue *)

Definition pop_row (id : MsgId) (first : Z) (first_new : N) (r : queue_row) : option queue_row :=
  if (q_msg_id r =? id)%N && (q_first r =? first)%Z then
    if (q_last r <? first_new)%N then None
    else Some {| q_msg_id := q_msg_id r; q_first := Z.of_N first_new; q_last := q_last r |}
  else Some r.

Lemma pop_unmatched id first first_new (l : list queue_row) :
  id ∉ q_msg_id <$> l → omap (pop_row id first first_new) l = l
  ∧ (λ r, if (q_msg_id r =? id)%N && (q_first r =? first)%Z
          then {| q_msg_id := q_msg_id r; q_first := Z.of_N first_new; q_last := q_last r |} else r) <$> l = l.
Proof.
  induction l as [|r l IH]; [done|]. rewrite fmap_cons, not_elem_of_cons. intros [Hr Hl].
  destruct (IH Hl) as [IH1 IH2]. rewrite fmap_cons, IH2. cbn [omap list_omap]. unfold pop_row at 1.
  destruct (N.eqb_spec (q_msg_id r) id); [congruence|]. cbn [andb]. by rewrite IH1.
Qed.

(** Of the row of an app, which there is at most one of, nothing or the rest is kept. *)
Lemma pop_queue id first first_new w :
  NoDup (q_msg_id <$> queue w) →
  queue (smtp_status_update_pop_serials id first first_new w).2 = omap (pop_row id first first_new) (queue w).
Proof.
  intros Hn. unfold smtp_status_update_pop_serials, bind, gets. cbv zeta.
  destruct (existsb _ _) eqn:Ed; simpl; revert Hn Ed; generalize (queue w) as l; clear w;
    induction l as [|r l IH]; try done; simpl; intros [Hr Hn]%list.NoDup_cons Ed.
  - rewrite filter_cons. unfold pop_row at 1.
    destruct (q_msg_id r =? id)%N eqn:E1, (q_first r =? first)%Z eqn:E2; simpl in *;
      try (f_equal; by apply IH).
    + apply N.eqb_eq in E1 as <-. destruct (q_last r <? first_new)%N eqn:E3; simpl in Ed.
      * rewrite decide_False by done. rewrite (proj1 (pop_unmatched _ _ _ _ Hr)).
        clear -Hr. induction l as [|x l IH]; [done|]. rewrite fmap_cons, not_elem_of_cons in Hr. destruct Hr as [Hx Hr].
        rewrite filter_cons_True by (by destruct (N.eqb_spec (q_msg_id x) (q_msg_id r)); [congruence|]).
        f_equal. by apply IH.
      * exfalso. apply existsb_exists in Ed as (x & Hx & Eb). apply Hr, list_elem_of_fmap. exists x.
        rewrite !andb_true_iff, N.eqb_eq in Eb. destruct Eb as [[Ex _] _]. by apply list_elem_of_In in Hx.
  - apply orb_false_iff in Ed as [Ed1 Ed2]. specialize (IH Hn Ed2). unfold pop_row at 1.
    destruct (q_msg_id r =? id)%N, (q_first r =? first)%Z; simpl in *; rewrite ?Ed1; f_equal; exact IH.
Qed.

Lemma pop_tables id first first_new w :
  updates (smtp_status_update_pop_serials id first first_new w).2 = updates w
  ∧ update_seq (smtp_status_update_pop_serials id first first_new w).2 = update_seq w.
Proof. unfold smtp_status_update_pop_serials, bind, gets. by destruct (existsb _ _). Qed.

Lemma pop_row_same id first first_new r r' :
  pop_row id first first_new r = Some r' → q_msg_id r' = q_msg_id r ∧ q_last r' = q_last r.
Proof. unfold pop_row. destruct (_ && _); [destruct (_ <? _)%N; [done|]|]; by intros [= <-]. Qed.

Lemma pop_keys id first first_new (l : list queue_row) :
  NoDup (q_msg_id <$> l) → NoDup (q_msg_id <$> omap (pop_row id first first_new) l).
Proof.
  induction l as [|r l IH]; [done|]. rewrite fmap_cons. intros [Hr Hn]%list.NoDup_cons. cbn [omap list_omap].
  destruct (pop_row id first first_new r) as [r'|] eqn:E; [|by apply IH].
  rewrite fmap_cons, list.NoDup_cons. split; [|by apply IH]. destruct (pop_row_same _ _ _ _ _ E) as [-> _].
  intros (x & Ex & (y & Hy & Ey)%list_elem_of_omap)%list_elem_of_fmap. apply Hr, list_elem_of_fmap. exists y.
  destruct (pop_row_same _ _ _ _ _ Ey) as [<- _]. done.
Qed.

Lemma pop_consistent id first first_new w :
  consistent w → consistent (smtp_status_update_pop_serials id first first_new w).2.
Proof.
  intros [H1 H2 H3 H4 H5 H6 H7]. destruct (pop_tables id first first_new w) as [E1 E2].
  split; rewrite ?E1, ?E2, ?pop_queue by done; try done; [by apply pop_keys|].
  rewrite list.Forall_forall in H7. apply list.Forall_forall.
  intros r (r0 & Hr & E)%list_elem_of_omap. destruct (H7 r0 Hr) as [Hl Hf]. revert E. unfold pop_row.
  destruct (_ && _); [destruct (_ <? _)%N eqn:E; [done|apply N.ltb_ge in E]|]; intros [= <-]; split; simpl; lia.
Qed.

(** An update that was waiting still waits after a range was taken off, or was below its end. *)
Lemma pop_waiting id first first_new w i n :
  consistent w → waiting i n w →
  waiting i n (smtp_status_update_pop_serials id first first_new w).2
  ∨ (i = id ∧ (first <= Z.of_N n)%Z ∧ (n < first_new)%N).
Proof.
  intros Hc (q & Hq & Hi & Hn1 & Hn2). unfold waiting. rewrite pop_queue by apply Hc.
  destruct ((q_msg_id q =? id)%N && (q_first q =? first)%Z) eqn:E.
  - apply andb_true_iff in E as [E1%N.eqb_eq E2%Z.eqb_eq].
    destruct (decide (n < first_new)%N); [right; split_and!; congruence || lia|]. left.
    exists {| q_msg_id := q_msg_id q; q_first := Z.of_N first_new; q_last := q_last q |}.
    split_and!; [|done|split; simpl; lia]. apply list_elem_of_omap. exists q. split; [done|]. unfold pop_row.
    rewrite E1, E2, N.eqb_refl, Z.eqb_refl. cbn [andb]. by rewrite (proj2 (N.ltb_ge _ _)) by lia.
  - left. exists q. split; [|done]. apply list_elem_of_omap. exists q. unfold pop_row. by rewrite E.
Qed.

(** ** Steps *)

Lemma take_pending_spec id l n rest :
  take_pending id l = Some (n, rest) →
  ∃ l1 l2, l = l1 ++ (id, n) :: l2 ∧ rest = l1 ++ l2 ∧ ∀ m, (id, m) ∉ l1.
Proof.
  revert rest. induction l as [|p l IH]; intros rest; cbn [take_pending]; [done|].
  destruct (N.eqb_spec p.1 id) as [<-|Hne].
  - intros [= <- <-]. exists [], l. split_and!; [by destruct p|done|]. by intros m ?%elem_of_nil.
  - destruct (take_pending id l) as [[k r]|] eqn:E; [|done]. intros [= <- <-].
    destruct (IH _ eq_refl) as (l1 & l2 & -> & -> & Hno). exists (p :: l1), l2. split_and!; try done.
    intros m [<-|Hm]%elem_of_cons; [done|by apply (Hno m)].
Qed.

Lemma sorted_around (l1 l2 : list (MsgId * N)) p :
  StronglySorted N.lt (l1 ++ p :: l2).*2 →
  StronglySorted N.lt (l1 ++ l2).*2 ∧ (∀ x, x ∈ l1 → (x.2 < p.2)%N) ∧ ∀ x, x ∈ l2 → (p.2 < x.2)%N.
Proof.
  induction l1 as [|y l1 IH]; cbn [app]; rewrite fmap_cons; intros Hs; apply StronglySorted_inv in Hs as [Hs Hy];
    rewrite list.Forall_fmap, list.Forall_forall in Hy.
  - split_and!; [done|by intros x ?%elem_of_nil|done].
  - destruct (IH Hs) as (H1 & H2 & H3). split_and!; [|intros x [->|Hx]%elem_of_cons; [apply Hy; set_solver|by apply H2]|done].
    rewrite fmap_cons. constructor; [done|]. apply list.Forall_fmap, list.Forall_forall. intros x Hx. apply Hy. set_solver.
Qed.

Lemma run_op_sound op s : sound s → sound (run_op op s).
Proof.
  intros Hs. destruct op; cbn [run_op].
  - pose proof (store_grows now id item (wx s)) as Hg. destruct (store_update now id item (wx s)) as [r w'] eqn:E.
    pose proof (grows_sound s w' Hg Hs) as Hs'. destruct r as [[n|]|e]; [|done..].
    destruct (store_run _ _ _ _ _ _ E) as [[_ Hno]|[[x Ha] Hn]]; [by destruct (Hno n)|]. rewrite (Hn n eq_refl).
    destruct Hs' as [Hc _ Hp Hi]. simpl in *. destruct Ha as (_ & Hq & _). split; simpl; [done|..|done].
    + rewrite fmap_app. apply sorted_snoc; [apply Hs|]. apply list.Forall_fmap.
      eapply list.Forall_impl; [apply (so_pending _ Hs)|]. simpl. lia.
    + apply list.Forall_app. split; [done|]. repeat constructor. simpl. lia.
  - destruct (take_pending id (pending s)) as [[n rest]|] eqn:E; [|done].
    destruct (take_pending_spec _ _ _ _ E) as (l1 & l2 & Hl & -> & _). destruct Hs as [Hc Hso Hp Hi]. rewrite Hl in Hso, Hp.
    apply list.Forall_app in Hp as [Hp1 [Hn Hp2]%list.Forall_cons]. simpl in Hn.
    split; simpl; [by apply queue_consistent|by eapply sorted_around|by apply list.Forall_app|done].
  - destruct (inflight s) eqn:Ei; [done|]. destruct (queue (wx s)) as [|q l] eqn:Eq; [done|].
    destruct (flush_send now q (wx s)) as [r w'] eqn:E. destruct (flush_send_kept _ _ _ _ _ E) as (K1 & K2 & K3).
    assert (sound (with_wx (λ _, w') s)) as Hs' by (apply grows_sound; [by apply queue_grows_same|done]).
    destruct r as [n|e]; [|done]. destruct Hs' as [Hc Hso Hp _]. split; try done. simpl. intros id f m [= <- <- <-].
    pose proof (first_left_bound _ _ _ _ _ (so_tables s Hs) E). rewrite K2.
    destruct (so_tables s Hs) as [_ _ _ _ _ _ H7]. rewrite Eq, list.Forall_cons in H7. destruct H7 as [[? _] _]. lia.
  - destruct (inflight s) as [[[id first] first_new]|] eqn:Ei; [|done]. destruct (pop_tables id first first_new (wx s)) as [_ K].
    destruct Hs as [Hc Hso Hp _]. split; simpl; [by apply pop_consistent|done|by rewrite K|done].
  - apply grows_sound; [apply requeue_grows, Hs|done].
  - apply grows_sound; [apply receive_grows|done].
  - apply grows_sound; [apply housekeeping_grows|done].
Qed.

(** *** One update

    It was sent, or it is still to be queued, or it is queued; then no range of its app begins after it.
    Updates of its app that are queued after it have a larger serial. *)
Record tracked (u : update_row) (gone : Prop) (s : Run) : Prop := {
  tr_id : (u_id u <= update_seq (wx s))%N;
  tr_later : (u_msg_id u, u_id u) ∈ pending s ∨ ∀ n, (u_msg_id u, n) ∈ pending s → (u_id u < n)%N;
  tr_where : u ∈ updates (wx s) →
    gone ∨ ((u_msg_id u, u_id u) ∈ pending s ∨ waiting (u_msg_id u) (u_id u) (wx s))
           ∧ ∀ q, q ∈ queue (wx s) → q_msg_id q = u_msg_id u → (q_first q <= Z.of_N (u_id u))%Z;
  tr_inflight : ∀ first first_new, inflight s = Some (u_msg_id u, first, first_new) → u ∈ updates (wx s) →
    (u_id u < first_new)%N → gone
}.

Lemma tracked_mono u (gone gone' : Prop) s : (gone → gone') → tracked u gone s → tracked u gone' s.
Proof.
  intros Hg [H1 H2 H3 H4]. split; try done; [|by eauto]. intros Hu. destruct (H3 Hu); [left; auto|by right].
Qed.

Lemma tracked_grows u gone s w' :
  sound s → grows (wx s) w' →
  (u ∈ updates (wx s) → ∀ q, q ∈ queue w' → q_msg_id q = u_msg_id u →
     (q_first q <= Z.of_N (u_id u))%Z ∨ ∃ q0, q0 ∈ queue (wx s) ∧ q_msg_id q0 = u_msg_id u ∧ (q_first q <= q_first q0)%Z) →
  tracked u gone s → tracked u gone (with_wx (λ _, w') s).
Proof.
  intros Hs [_ G2 G3 G4] Hq [H1 H2 H3 H4].
  assert (u ∈ updates w' → u ∈ updates (wx s)) as Hold by (intros Hu; destruct (G3 u Hu); [done|lia]).
  split; simpl; [lia|done| |by eauto]. intros Hu%Hold. destruct (H3 Hu) as [|[Hw Hr]]; [by left|right]. split.
  - destruct Hw; [by left|right]. by apply G4; [apply Hs|].
  - intros q Hin Hm. destruct (Hq Hu q Hin Hm) as [|(q0 & Hin0 & Hm0 & Hle)]; [done|]. specialize (Hr q0 Hin0 Hm0). lia.
Qed.

Lemma tracked_same_queue u gone s w' :
  sound s → grows (wx s) w' → queue w' = queue (wx s) → tracked u gone s → tracked u gone (with_wx (λ _, w') s).
Proof.
  intros Hs Hg Hq. apply tracked_grows; [done|done|]. intros _ q Hin Hm. right. exists q. by rewrite <-Hq.
Qed.

Lemma store_tracked u gone s now id item :
  sound s → tracked u gone s → tracked u gone (run_op (StoreUpdate now id item) s).
Proof.
  intros Hs Ht. cbn [run_op]. pose proof (store_grows now id item (wx s)) as Hg.
  destruct (store_update now id item (wx s)) as [r w'] eqn:E.
  assert (queue w' = queue (wx s)) as Hq by (destruct (store_run _ _ _ _ _ _ E) as [[H _]|[[x H] _]]; apply H).
  pose proof (tracked_same_queue _ _ _ _ Hs Hg Hq Ht) as Ht'. destruct r as [[n|]|e]; [|done..].
  destruct (store_run _ _ _ _ _ _ E) as [[_ Hno]|[[x Ha] Hn]]; [by destruct (Hno n)|]. rewrite (Hn n eq_refl).
  pose proof (tr_id _ _ _ Ht) as Hid. destruct Ht' as [H1 H2 H3 H4]. split; simpl in *; [done| | |done].
  - destruct H2 as [H2|H2]; [left; set_solver|right]. intros m [Hm|Hm]%elem_of_app; [by apply H2|].
    apply list_elem_of_singleton in Hm as [= _ ->]. lia.
  - intros Hu. destruct (H3 Hu) as [|[[|] ?]]; [by left|right; set_solver|right; by split; [right|]].
Qed.

(** Queueing an update of the app keeps others of it that are to be sent. *)
Lemma queue_tracked u gone s id :
  sound s → tracked u gone s → tracked u gone (run_op (QueueUpdate id) s).
Proof.
  intros Hs [H1 H2 H3 H4]. cbn [run_op]. destruct (take_pending id (pending s)) as [[n rest]|] eqn:E; [|done].
  destruct (take_pending_spec _ _ _ _ E) as (l1 & l2 & Hl & -> & Hfirst).
  pose proof (so_sorted _ Hs) as Hso. rewrite Hl in Hso. destruct (sorted_around _ _ _ Hso) as (_ & Hb & Ha).
  rewrite Hl in H2, H3. simpl in Hb, Ha.
  assert (∀ m, (u_msg_id u, m) ∈ l1 ++ l2 → (u_msg_id u, m) ∈ l1 ++ (id, n) :: l2) as Hsub by set_solver.
  assert (id = u_msg_id u → n ≠ u_id u → (u_msg_id u, u_id u) ∈ l1 ++ (id, n) :: l2 → (n < u_id u)%N) as Hbefore.
  { intros -> Hn [Hin|[[= Hc]|Hin]%elem_of_cons]%elem_of_app; [by apply Hfirst in Hin|by destruct Hn|by apply (Ha _ Hin)]. }
  split; simpl; [done| | |done].
  - destruct (decide ((id, n) = (u_msg_id u, u_id u))) as [[= -> ->]|Hne].
    + right. intros m [Hm|Hm]%elem_of_app; [by apply Hfirst in Hm|by apply (Ha _ Hm)].
    + destruct H2 as [H2|H2]; [left; set_solver|right; eauto].
  - intros Hu. destruct (H3 Hu) as [|[Hw Hr]]; [by left|right]. split.
    + destruct (decide ((id, n) = (u_msg_id u, u_id u))) as [[= -> ->]|Hne].
      { right. unfold waiting. simpl. unfold upsert. case_bool_decide as Hin.
        - apply list_elem_of_fmap in Hin as (q & Eq & Hq). eexists. split; [apply list_elem_of_fmap; by exists q|].
          rewrite Eq, N.eqb_refl. split; [done|]. split; simpl; [by apply Hr|lia].
        - eexists. split; [apply elem_of_app; right; by left|]. split; [done|]. split; simpl; lia. }
      destruct (decide ((u_msg_id u, u_id u) ∈ l1 ++ (id, n) :: l2)) as [Hp|Hp]; [left; set_solver|right].
      destruct Hw as [|Hw]; [done|]. destruct H2 as [|H2]; [done|]. unfold waiting. simpl.
      destruct (N.eqb_spec id (u_msg_id u)) as [->|Hid].
      * apply upsert_waiting; [done| |done]. intros q _ [Hf _]. split; simpl; [done|].
        specialize (H2 n ltac:(set_solver)). lia.
      * destruct Hw as (q & Hq & Em & Hin). exists q. split; [|done]. unfold upsert. case_bool_decide.
        -- apply list_elem_of_fmap. exists q. split; [|done]. destruct (N.eqb_spec (q_msg_id q) id); congruence.
        -- apply elem_of_app. by left.
    + intros q Hin Hm. apply upsert_elem in Hin as [Hin|[[-> Hno]|(q0 & Hin & _ & ->)]]; [by apply Hr| |simpl in *; by apply Hr].
      simpl in Hm. subst id. simpl. destruct (decide (n = u_id u)) as [->|Hn]; [lia|].
      destruct Hw as [Hw|(q & Hq & Em & _)]; [specialize (Hbefore eq_refl Hn Hw); lia|].
      exfalso. apply Hno, list_elem_of_fmap. by exists q.
Qed.

Lemma flush_tracked u gone s now :
  sound s → tracked u gone s →
  tracked u (gone ∨ takes_along now u (wx s) (wx (run_op (FlushSend now) s))) (run_op (FlushSend now) s).
Proof.
  intros Hs Ht. cbn [run_op]. destruct (inflight s) as [i|] eqn:Ei; [by eapply tracked_mono; [|exact Ht]; left|].
  destruct (queue (wx s)) as [|q l] eqn:Eq; [by eapply tracked_mono; [|exact Ht]; left|].
  destruct (flush_send now q (wx s)) as [r w'] eqn:E. destruct (flush_send_kept _ _ _ _ _ E) as (K1 & K2 & K3).
  assert (tracked u gone (with_wx (λ _, w') s)) as Ht'
    by (apply tracked_same_queue; [done|by apply queue_grows_same|done|done]).
  destruct r as [n|e]; [|by eapply tracked_mono; [|exact Ht']; left].
  apply (tracked_mono _ _ (gone ∨ takes_along now u (wx s) w')) in Ht'; [|by left]. simpl. destruct Ht' as [H1 H2 H3 _].
  split; try done. simpl. intros first first_new [= Hm <- <-] Hu Hlt. rewrite K1 in Hu.
  destruct (tr_where _ _ _ Ht Hu) as [|[_ Hr]]; [by left|right].
  eapply flush_takes_along; [apply Hs|exact E|done|done| |done]. apply Hr; [rewrite Eq; by left|done].
Qed.

Lemma pop_tracked u gone s : sound s → tracked u gone s → tracked u gone (run_op FlushPop s).
Proof.
  intros Hs Ht. cbn [run_op]. destruct (inflight s) as [[[id first] first_new]|] eqn:Ei; [|done].
  destruct Ht as [H1 H2 H3 H4]. destruct (pop_tables id first first_new (wx s)) as [K1 K2]. split; simpl; rewrite ?K2; [done|done| |done].
  rewrite K1. intros Hu. destruct (decide (id = u_msg_id u ∧ (u_id u < first_new)%N)) as [[-> Hlt]|Hno]; [left; by eapply H4|].
  destruct (H3 Hu) as [|[Hw Hr]]; [by left|right]. split.
  - destruct Hw as [|Hw]; [by left|right].
    destruct (pop_waiting id first first_new _ _ _ (so_tables _ Hs) Hw) as [|(Hid & _ & Hlt)]; [done|]. exfalso. apply Hno. by rewrite Hid.
  - intros q. rewrite pop_queue by apply Hs. intros (q0 & Hq0 & E)%list_elem_of_omap Hm. revert E. unfold pop_row.
    destruct (_ && _) eqn:Em; [|intros [= <-]; by apply Hr]. apply andb_true_iff in Em as [Em%N.eqb_eq _].
    destruct (_ <? _)%N; [done|]. intros [= <-]. simpl in *. assert (¬ (u_id u < first_new)%N) by (intros ?; apply Hno; split; congruence).
    lia.
Qed.

Lemma min_le (l : list N) i n : n ∈ i :: l → (foldr N.min i l <= n)%N.
Proof.
  induction l as [|x l IH]; simpl; [by intros ->%list_elem_of_singleton|].
  intros [->|[->|Hn]%elem_of_cons]%elem_of_cons; [|lia|]; [assert (foldr N.min i l <= i)%N by (apply IH; by left)|
    assert (foldr N.min i l <= n)%N by (apply IH; by right)]; lia.
Qed.

Lemma range_first id w u : u ∈ updates w → u_msg_id u = id → ((update_range id w).1 <= u_id u)%N.
Proof.
  intros Hu Hm. unfold update_range. cbn [fst].
  assert (u_id u ∈ u_id <$> base.filter (λ r, u_msg_id r = id) (updates w)) as Hin
    by (apply list_elem_of_fmap_2, list_elem_of_filter; done).
  destruct (u_id <$> _) as [|i l]; [by apply elem_of_nil in Hin|]. by apply min_le.
Qed.

Lemma requeue_tracked u gone s id : sound s → tracked u gone s → tracked u gone (run_op (Requeue id) s).
Proof.
  intros Hs Ht. cbn [run_op]. apply (tracked_grows u gone s); [done|apply requeue_grows, Hs| |done].
  intros Hu q. unfold requeue_updates, bind, gets. destruct (_ <? _)%N eqn:Er; simpl; intros Hq Hm; [by right; exists q|].
  apply upsert_elem in Hq as [Hq|[[-> _]|(q0 & Hq & _ & ->)]]; [by right; exists q| |].
  - left. simpl in *. pose proof (range_first id (wx s) u Hu (eq_sym Hm)). unfold update_range in *. simpl in *. lia.
  - right. exists q0. simpl in *. split_and!; [done|done|lia].
Qed.

Lemma receive_queue now from id instance t can json w :
  queue (receive_status_update now from id instance t can json w).2 = queue w.
Proof.
  assert (preserves (λ w', queue w' = queue w) (receive_status_update now from id instance t can json)) as H; [|by apply H].
  assert (∀ item, preserves (λ w', queue w' = queue w) (create_status_update_record now id instance item t can from)) as Hc.
  { intros item w1 Hw1. destruct (create_status_update_record _ _ _ _ _ _ _ w1) as [r w2] eqn:E. simpl.
    destruct (create_run _ _ _ _ _ _ _ _ _ _ E) as [[H _]|[H _]]; [destruct H as (_ & _ & ->)|destruct H as (_ & _ & -> & _)]; done. }
  unfold receive_status_update. preserves_tac. apply preserves_for_each. intros item _. preserves_tac.
Qed.

Lemma run_op_tracked op s u gone :
  sound s → tracked u gone s →
  tracked u (gone ∨ ∃ now, op = FlushSend now ∧ takes_along now u (wx s) (wx (run_op op s))) (run_op op s).
Proof.
  intros Hs Ht. destruct op.
  3: { eapply tracked_mono; [|by apply flush_tracked]. intros [|H]; [by left|right]. by exists now. }
  all: eapply tracked_mono; [intros ?; left; eassumption|].
  - by apply store_tracked.
  - by apply queue_tracked.
  - by apply pop_tracked.
  - by apply requeue_tracked.
  - apply (tracked_same_queue u gone s); [done|apply receive_grows|apply receive_queue|done].
  - apply (tracked_same_queue u gone s); [done|apply housekeeping_grows|done|done].
Qed.

Lemma run_ops_tracked ops s u :
  sound s → tracked u False s → sound (run_ops ops s) ∧ tracked u (sent_in ops s u) (run_ops ops s).
Proof.
  intros Hs Ht. induction ops as [|op ops [IHs IHt]] using rev_ind.
  { split; [done|]. by eapply tracked_mono; [|exact Ht]. }
  rewrite run_snoc. split; [by apply run_op_sound|].
  eapply tracked_mono; [|by apply run_op_tracked]. intros [(b & now & a & -> & H)|(now & -> & H)].
  - exists b, now, (a ++ [op]). split; [by rewrite <-app_assoc|done].
  - exists ops, now, []. split; [done|]. by rewrite run_snoc.
Qed.

(** An update of an app that was sent itself is stored. *)
Lemma store_sent now id item w w' r o :
  msgs (core w) !! id = Some r → get_int (load_params (m_param r)) Param.WebxdcIntegration = None →
  m_state r ∉ [MessageState.Undefined; MessageState.OutDraft] →
  store_update now id item w = (Ok o, w') → ∃ x, added id (with_uid (Some x) item) w w' ∧ o = Some (update_seq w + 1)%N.
Proof.
  intros Hr Hi Hst E. assert (∃ n, o = Some n) as [n ->].
  { apply bind_ok in E as (m & w1 & (-> & Em & Er)%load_message_ok & E).
    assert (m.2 = r) as <- by congruence. cbv zeta in E. destruct (negb (bool_decide (_ = Viewtype.Webxdc))); [done|].
    rewrite bool_decide_eq_false_2 in E by (rewrite Hi; by intros [? ?]).
    apply bind_ok in E as (chat & w2 & E2 & E). apply bind_ok in E as (reason & w3 & E3 & E).
    destruct reason; [done|]. apply bind_ok in E as (x & w4 & E4 & E).
    apply bind_ok in E as (serial & w5 & E5 & E). rewrite bool_decide_eq_false_2 in E by done.
    destruct serial as [n|]; [|done]. injection E as <- _. by exists n. }
  destruct (store_run _ _ _ _ _ _ E) as [[_ Hno]|[[x Ha] Hn]]; [by destruct (Hno n)|]. exists x. by rewrite (Hn n eq_refl).
Qed.

(** C21. An update that an app sends gets to the other members' devices: once it is stored it is, at any
    later time and as long as it is stored, still to be queued by the call that stored it, or in the queue,
    or it was sent with a hidden message to the chat of the app. This holds whatever happens between the
    two transactions of that call and afterwards, and between the sending of a message and the removal of its
    updates from the queue: more updates, received updates, sending the app again, housekeeping. The app is
    one that was sent itself and is not built in, and calls for one app that overlap queue their
    updates in the order they stored them, which the code does not ensure. *)
Theorem updates_wait_until_sent now id item s r o w1 :
  sound s → msgs (core (wx s)) !! id = Some r →
  get_int (load_params (m_param r)) Param.WebxdcIntegration = None →
  m_state r ∉ [MessageState.Undefined; MessageState.OutDraft] →
  store_update now id item (wx s) = (Ok o, w1) →
  let s1 := run_op (StoreUpdate now id item) s in
  wx s1 = w1
  ∧ ∃ u x, u ∈ updates w1 ∧ u_msg_id u = id ∧ u_item u = to_json (with_uid (Some x) item)
    ∧ (id, u_id u) ∈ pending s1
    ∧ ∀ ops, let s' := run_ops ops s1 in
        u ∈ updates (wx s') → (id, u_id u) ∈ pending s' ∨ waiting id (u_id u) (wx s') ∨ sent_in ops s1 u.
Proof.
  intros Hs Hr Hi Hst E. destruct (store_sent _ _ _ _ _ _ _ Hr Hi Hst E) as (x & Ha & ->).
  pose proof (run_op_sound (StoreUpdate now id item) s Hs) as Hs1. cbn [run_op] in *. rewrite E in *. cbv zeta. split; [done|].
  set (s1 := {| wx := w1 |}) in *. set (u := new_row (wx s) id (with_uid (Some x) item)). exists u, x.
  assert ((id, u_id u) ∈ pending s1) as Hp by (simpl; set_solver).
  destruct Ha as (A1 & A2 & A3 & _). split_and!; try done; [rewrite A1; set_solver|].
  assert (tracked u False s1) as Ht.
  { split; simpl; [lia|by left| |].
    - intros _. right. split; [by left|]. rewrite A3. intros q Hq _. destruct (so_tables s Hs) as [_ _ _ _ _ _ H7].
      rewrite list.Forall_forall in H7. destruct (H7 q Hq). lia.
    - intros first first_new Hf _. pose proof (so_inflight s Hs _ _ _ Hf). lia. }
  intros ops Hu. destruct (run_ops_tracked ops s1 u Hs1 Ht) as [_ Ht'].
  destruct (tr_where _ _ _ Ht' Hu) as [|[[|] _]]; auto.
Qed.

(** ** Sending the whole queue *)

(** How many updates a range has at most, and one round for each range. *)
Definition span (q : queue_row) : nat := S (Z.to_nat (Z.of_N (q_last q) + 1 - Z.max (q_first q) 1)).

Definition backlog (w : Wx) : nat := sum_list_with span (queue w).

(** A round either empties the range or takes at least one update. *)
Lemma round_progress q w :
  consistent w → ∀ n, (round_of q w).2 = Some n → (Z.max (q_first q) 1 < Z.of_N n)%Z.
Proof.
  intros Hc n E. unfold round_of in E. destruct (take_updates _ _ _) as [[json taken] stop] eqn:Et. simpl in E. subst stop.
  destruct (take_updates_spec _ _ _ _ _ _ Et) as (rest & Er & (r & rest' & -> & ->) & _ & Hne); [apply forall_kept, Hc|].
  assert (StronglySorted N.lt (u_id <$> (taken ++ r :: rest'))) as Hs by (rewrite <-Er; apply sorted_filter, Hc).
  destruct taken as [|t taken]; [exfalso; apply Hne; [done|rewrite Er; by destruct rest'|done]|].
  assert (t ∈ requested (q_msg_id q) (Z.to_N (Z.max (q_first q) 1)) (q_last q) w) as Ht by (rewrite Er; by left).
  apply list_elem_of_filter in Ht as [[_ [Ht _]] _]. rewrite <-app_comm_cons, fmap_cons in Hs.
  apply StronglySorted_inv in Hs as [_ Hs].
  rewrite list.Forall_fmap, list.Forall_forall in Hs. specialize (Hs r). simpl in Hs.
  assert (r ∈ taken ++ r :: rest') as Hr by (apply elem_of_app; right; by left). specialize (Hs Hr). lia.
Qed.

Lemma flush_round_progress now q l w w' :
  consistent w → (update_seq w < u32_max)%N → queue w = q :: l → flush_round now q w = (Ok tt, w') →
  consistent w' ∧ (update_seq w' < u32_max)%N ∧ (backlog w' < backlog w)%nat.
Proof.
  intros Hc Hm Eq E. apply bind_ok in E as (n & w1 & E1 & E).
  pose proof (preserves_run _ _ _ _ _ (leaves_flush_send w now q) E1 (same_updates_refl w)) as Hs.
  destruct (flush_send_ok _ _ _ _ _ E1) as [-> _]. pose proof (same_consistent _ _ Hs Hc) as Hc1.
  destruct Hs as (Hs1 & Hs2 & Hs3). set (n := default _ _) in *.
  replace w' with (smtp_status_update_pop_serials (q_msg_id q) (q_first q) n w1).2 by (by rewrite E).
  split_and!; [by apply pop_consistent|by rewrite (proj2 (pop_tables _ _ _ _)), Hs2|].
  unfold backlog. rewrite pop_queue, Hs3, Eq by apply Hc1. pose proof Hc as [_ _ _ _ _ H6 H7].
  rewrite Eq in H6, H7. apply list.Forall_cons in H7 as [[Hl Hf] _]. rewrite fmap_cons in H6.
  apply list.NoDup_cons in H6 as [H6 _]. cbn [omap list_omap]. unfold pop_row at 1.
  rewrite N.eqb_refl, Z.eqb_refl. cbn [andb]. rewrite (proj1 (pop_unmatched _ (q_first q) n _ H6)).
  destruct (q_last q <? n)%N eqn:El; simpl; [unfold span; lia|]. apply N.ltb_ge in El.
  subst n. destruct (round_of q w).2 as [n|] eqn:En; simpl in *; [|lia].
  assert (Z.max (q_first q) 1 < Z.of_N n)%Z as Hp by (by apply (round_progress q w)).
  unfold span. simpl. lia.
Qed.

Lemma flush_status_updates_ends fuel now w :
  consistent w → (update_seq w < u32_max)%N → (backlog w < fuel)%nat →
  ∃ res w', flush_status_updates fuel now w = Some (res, w') ∧ (res = Ok tt → queue w' = []).
Proof.
  revert w. induction fuel as [|f IH]; intros w Hc Hm Hf; [lia|]. simpl.
  destruct (queue w) as [|q l] eqn:Eq; [by eexists _, _|].
  destruct (flush_round now q w) as [[[]|e] w'] eqn:E; [|by eexists _, _].
  destruct (flush_round_progress _ _ _ _ _ Hc Hm Eq E) as (Hc' & Hm' & Hb). apply IH; [done|done|lia].
Qed.

(** One round of the loop. *)
Definition round (now : Z) (w w' : Wx) : Prop :=
  ∃ q l, queue w = q :: l ∧ flush_round now q w = (Ok tt, w').

(** Between [w] and [w'] the loop has sent the update: in a round that came to [wa], [send_msg] was called with
    it for the chat of its app and succeeded, and the loop went on from there. *)
Definition sent_between (now : Z) (u : update_row) (w w' : Wx) : Prop :=
  ∃ wa wb wc, rtc (round now) w wa ∧ takes_along now u wa wb ∧ round now wa wc ∧ updates wc = updates wb
    ∧ core wc = core wb ∧ rtc (round now) wc w'.

Lemma pop_core id first first_new w : core (smtp_status_update_pop_serials id first first_new w).2 = core w.
Proof. unfold smtp_status_update_pop_serials, bind, gets. by destruct (existsb _ _). Qed.

(** A round keeps an update in the queue or sends it. *)
Lemma round_keeps_or_sends now q l w n wb w' u :
  consistent w → queue w = q :: l → flush_send now q w = (Ok n, wb) →
  smtp_status_update_pop_serials (q_msg_id q) (q_first q) n wb = (Ok tt, w') →
  u ∈ updates w → waiting (u_msg_id u) (u_id u) w →
  waiting (u_msg_id u) (u_id u) w' ∨ takes_along now u w wb.
Proof.
  intros Hc Eq E Ep Hu Hw. destruct (flush_send_kept _ _ _ _ _ E) as (K1 & K2 & K3).
  assert (consistent wb) as Hcb by (by eapply same_consistent).
  assert (waiting (u_msg_id u) (u_id u) wb) as Hwb by (unfold waiting; by rewrite K3).
  replace w' with (smtp_status_update_pop_serials (q_msg_id q) (q_first q) n wb).2 by (by rewrite Ep).
  destruct (pop_waiting (q_msg_id q) (q_first q) n wb _ _ Hcb Hwb) as [|(Hm & Hf & Hlt)]; [by left|right].
  by eapply flush_takes_along.
Qed.

Lemma flush_sends_waiting fuel now w w' u :
  consistent w → (update_seq w < u32_max)%N → flush_status_updates fuel now w = Some (Ok tt, w') →
  u ∈ updates w → waiting (u_msg_id u) (u_id u) w →
  rtc (round now) w w' ∧ sent_between now u w w'.
Proof.
  assert (∀ fuel w, flush_status_updates fuel now w = Some (Ok tt, w') → rtc (round now) w w') as Hrounds.
  { clear. intros fuel. induction fuel as [|f IH]; intros w E; [done|]. simpl in E.
    destruct (queue w) as [|q l] eqn:Eq; [by injection E as <-|].
    destruct (flush_round now q w) as [[[]|e] w1] eqn:Er; [|done]. eapply rtc_l; [by exists q, l|by apply IH]. }
  revert w. induction fuel as [|f IH]; intros w Hc Hm E Hu Hw; [done|]. split; [by eapply Hrounds|]. simpl in E.
  destruct (queue w) as [|q l] eqn:Eq; [by destruct Hw as (q & Hq & _); rewrite Eq in Hq; apply elem_of_nil in Hq|].
  destruct (flush_round now q w) as [[[]|e] w1] eqn:Er; [|done].
  destruct (flush_round_progress _ _ _ _ _ Hc Hm Eq Er) as (Hc1 & Hm1 & _).
  assert (round now w w1) as Hr by (by exists q, l).
  apply bind_ok in Er as (n & wb & E1 & E2). destruct (flush_send_kept _ _ _ _ _ E1) as (K1 & _ & _).
  pose proof (pop_tables (q_msg_id q) (q_first q) n wb) as [P1 _]. pose proof (pop_core (q_msg_id q) (q_first q) n wb) as P2.
  rewrite E2 in P1, P2. simpl in P1, P2.
  destruct (round_keeps_or_sends _ _ _ _ _ _ _ _ Hc Eq E1 E2 Hu Hw) as [Hw1|Hs].
  - destruct (IH w1 Hc1 Hm1 E) as [_ (wa & wb' & wc & H1 & H2)]; [by rewrite P1, K1|done|].
    exists wa, wb', wc. split; [by eapply rtc_l|done].
  - exists w, wb, w1. split_and!; try done. by eapply Hrounds.
Qed.

(** C24. Sending the queued updates ends, after at most as many rounds as there are updates in the ranges of
    the queue and ranges. If no message fails, the queue is then empty, and each stored update that was
    queued was sent: in one of the rounds [send_msg] was called, with success, for a hidden message to the
    chat of its app whose parameter is the JSON of rows with the update among them. *)
Theorem flush_sends_all fuel now w :
  consistent w → (update_seq w < u32_max)%N → (backlog w < fuel)%nat →
  ∃ res w', flush_status_updates fuel now w = Some (res, w')
    ∧ (res = Ok tt → queue w' = []
         ∧ ∀ u, u ∈ updates w → waiting (u_msg_id u) (u_id u) w → sent_between now u w w').
Proof.
  intros Hc Hm Hf. destruct (flush_status_updates_ends fuel now w) as (res & w' & E & Hq); [done..|].
  exists res, w'. split; [done|]. intros ->. split; [by apply Hq|]. intros u Hu Hw. by eapply flush_sends_waiting.
Qed.

(** ** Receiving *)

(** The updates of a batch whose uid is not known, and of those with one uid the first. *)
Fixpoint fresh (known : list str) (items : list StatusUpdateItem) : list StatusUpdateItem :=
  match items with
  | [] => []
  | i :: items' =>
      match uid i with
      | Some x => if bool_decide (x ∈ known) then fresh known items' else i :: fresh (known ++ [x]) items'
      | None => i :: fresh known items'
      end
  end.

Definition uids (w : Wx) : list str := omap u_uid (updates w).

(** The app, the text and the uid of a row. *)
Definition content (r : update_row) : MsgId * str * option str := (u_msg_id r, u_item r, u_uid r).

Definition content_of (id : MsgId) (i : StatusUpdateItem) : MsgId * str * option str := (id, to_json i, uid i).

Lemma known_uids x w : known_uid (Some x) (updates w) = bool_decide (x ∈ uids w).
Proof.
  apply eq_iff_eq_true. rewrite known_uid_elem, bool_decide_eq_true. unfold uids. rewrite list_elem_of_omap.
  split; intros (r & ? & ?); eauto.
Qed.

Lemma create_fresh now id instance item t can from v w w' :
  create_status_update_record now id instance item t can from w = (Ok v, w') →
  ∃ new, updates w' = updates w ++ new ∧ content <$> new = content_of id <$> fresh (uids w) [item]
    ∧ ∀ items, fresh (uids w) (item :: items) = fresh (uids w) [item] ++ fresh (uids w') items.
Proof.
  intros E. destruct (create_run _ _ _ _ _ _ _ _ _ _ E) as [((H1 & _) & H2 & H3)|[Ha _]].
  - destruct v as [n|]; [by destruct (H2 n)|]. specialize (H3 eq_refl). exists []. rewrite app_nil_r.
    destruct (uid item) as [x|] eqn:Eu; [|done]. rewrite known_uids in H3. cbn [fresh]. rewrite Eu, H3.
    unfold uids. by rewrite H1.
  - destruct Ha as (H1 & _ & _ & _ & H5). exists [new_row w id item]. split; [done|]. cbn [fresh].
    unfold uids in *. rewrite H1, omap_app. cbn [omap list_omap new_row u_uid].
    destruct (uid item) as [x|] eqn:Eu; [|by rewrite app_nil_r].
    fold (uids w). rewrite known_uids in H5. rewrite H5. by unfold content, content_of; simpl; rewrite Eu.
Qed.

Lemma receive_all now id instance t can from items w w' :
  for_each items (λ item, create_status_update_record now id instance item t can from ;;; ret tt) w = (Ok tt, w') →
  ∃ new, updates w' = updates w ++ new ∧ content <$> new = content_of id <$> fresh (uids w) items.
Proof.
  revert w. induction items as [|i items IH]; intros w E.
  { injection E as <-. exists []. by rewrite app_nil_r. }
  cbn [for_each] in E. apply bind_ok in E as ([] & w1 & E1 & E). apply bind_ok in E1 as (v & w2 & E1 & [= <-]).
  destruct (create_fresh _ _ _ _ _ _ _ _ _ _ E1) as (new & Hw & Hn & Hf).
  destruct (IH _ E) as (new' & -> & Hn'). rewrite Hw. exists (new ++ new'). rewrite (assoc_L (++)). split; [done|].
  rewrite fmap_app, Hf, fmap_app. by rewrite Hn, Hn'.
Qed.

Lemma fresh_none known items :
  Forall (λ i, ∃ x, uid i = Some x ∧ x ∈ known) items → fresh known items = [].
Proof.
  induction 1 as [|i items (x & Hx & Hk) _ IH]; [done|]. simpl. by rewrite Hx, bool_decide_eq_true_2.
Qed.

Lemma fresh_all known items xs :
  uid <$> items = Some <$> xs → NoDup xs → (∀ x, x ∈ xs → x ∉ known) → fresh known items = items.
Proof.
  revert known xs. induction items as [|i items IH]; intros known [|x xs]; try done. rewrite !fmap_cons.
  intros [= Hx Hxs] [Hn1 Hn2]%list.NoDup_cons Hk. cbn [fresh]. rewrite Hx, bool_decide_eq_false_2 by (apply Hk; by left).
  f_equal. apply (IH _ xs); [done|done|]. intros y Hy [Hy'|Hy']%elem_of_app; [apply (Hk y); [by right|done]|].
  apply list_elem_of_singleton in Hy' as ->. done.
Qed.

Lemma fresh_known known items i x :
  i ∈ items → uid i = Some x → x ∈ known ∨ ∃ i', i' ∈ fresh known items ∧ uid i' = Some x.
Proof.
  revert known. induction items as [|j items IH]; intros known Hi Hx; [by apply elem_of_nil in Hi|]. cbn [fresh].
  destruct (decide (uid j = Some x)) as [Hj|Hj].
  { rewrite Hj. case_bool_decide; [by left|]. right. exists j. split; [by left|done]. }
  apply elem_of_cons in Hi as [->|Hi]; [done|]. destruct (uid j) as [y|].
  - case_bool_decide; [by apply IH|]. destruct (IH (known ++ [y]) Hi Hx) as [[Hy|Hy]%elem_of_app|(i' & Hi' & Hx')].
    + by left.
    + apply list_elem_of_singleton in Hy. congruence.
    + right. exists i'. split; [by right|done].
  - destruct (IH known Hi Hx) as [H|(i' & H & H')]; [by left|]. right. exists i'. split; [by right|done].
Qed.

(** What serde promises of a batch of updates: it is parsed as it was printed. *)
Definition batch_law : Prop :=
  ∀ items, parse_updates (updates_object (join comma (to_json <$> items))) = Some items.

Lemma receive_run now from id instance t can json items w w' :
  parse_updates json = Some items → receive_status_update now from id instance t can json w = (Ok tt, w') →
  ∃ new, updates w' = updates w ++ new ∧ content <$> new = content_of id <$> fresh (uids w) items.
Proof.
  intros Hp E. apply bind_ok in E as (member & w1 & [= <- <-] & E). apply bind_ok in E as ([] & w2 & E2 & E).
  assert (updates w2 = updates w) as Hu.
  { revert E2. unfold bind, gets, ok_or, ret, fail. destruct (_ && _); [|by intros [= <-]].
    destruct (ch_type <$> _); [|done]. destruct (bool_decide _); [|done]. by intros [= <-]. }
  apply bind_ok in E as (l & w3 & E3 & E). rewrite Hp in E3. injection E3 as <- <-.
  apply receive_all in E. unfold uids in E. by rewrite Hu in E.
Qed.

(** A batch of updates, as a sender renders it from the rows it takes, arrives: each of its
    updates is stored for the app once, in the order they were sent, unless an update with its uid is
    there already; if none is, all are stored; and receiving the batch again, after whatever else was
    received, stores nothing. *)
Theorem sent_updates_arrive rows items now from id instance t can w w' :
  batch_law → u_item <$> rows = to_json <$> items →
  receive_status_update now from id instance t can (updates_json rows) w = (Ok tt, w') →
  (∃ new, updates w' = updates w ++ new ∧ content <$> new = content_of id <$> fresh (uids w) items)
  ∧ (∀ i x, i ∈ items → uid i = Some x → x ∈ uids w')
  ∧ (∀ xs, uid <$> items = Some <$> xs → NoDup xs → (∀ x, x ∈ xs → x ∉ uids w) → fresh (uids w) items = items)
  ∧ (∀ now' w1 w2, Forall (λ i, is_Some (uid i)) items → (∀ r, r ∈ updates w' → r ∈ updates w1) →
       receive_status_update now' from id instance t can (updates_json rows) w1 = (Ok tt, w2) →
       updates w2 = updates w1).
Proof.
  intros Hl Hr E. unfold updates_json in *. rewrite Hr in *. pose proof (Hl items) as Hp.
  destruct (receive_run _ _ _ _ _ _ _ _ _ _ Hp E) as (new & Hn & Hc).
  assert (∀ i x, i ∈ items → uid i = Some x → x ∈ uids w') as Hx.
  { intros i x Hi Hx. unfold uids. rewrite Hn, omap_app, elem_of_app.
    destruct (fresh_known (uids w) items i x Hi Hx) as [H|(i' & H & H')]; [by left|right].
    assert (content_of id i' ∈ content <$> new) as Hin by (rewrite Hc; by apply list_elem_of_fmap_2).
    apply list_elem_of_fmap in Hin as (r & Er & Hin). apply list_elem_of_omap. exists r. split; [done|].
    injection Er as _ _ Er. congruence. }
  split_and!; [by exists new|done|intros xs ? ? ?; by apply (fresh_all _ _ xs)|].
  intros now' w1 w2 Hu Hsub E'. destruct (receive_run _ _ _ _ _ _ _ _ _ _ Hp E') as (new' & -> & Hc').
  rewrite fresh_none in Hc'.
  - apply fmap_nil_inv in Hc' as ->. by rewrite app_nil_r.
  - rewrite list.Forall_forall in Hu. apply list.Forall_forall. intros i Hi. destruct (Hu i Hi) as [x Ei]. exists x.
    split; [done|]. specialize (Hx i x Hi Ei). apply list_elem_of_omap in Hx as (r & Hin & Er).
    apply list_elem_of_omap. eauto.
Qed.
End Updates.
