(* ===== verification/WebxdcSamples.v ===== *)
(** WebxdcSamples: concrete runs of the status updates of an app, and the cases in which an update is
    not sent or its effect is undone. *)
From S2P Require Import Prelude Monad Ids Params MsgTable Db Config Sync ChatDb ChatAssign JoinTrust Webxdc WebxdcUpdates.

(** ** A JSON of one character for each item *)

#[local] Instance item_eq_dec : EqDecision StatusUpdateItem.
Proof. solve_decision. Defined.

#[local] Instance item_countable : Countable StatusUpdateItem.
Proof.
  refine (inj_countable'
    (λ i, (payload i, info i, href i, document i, summary i, uid i, notify i))
    (λ '(p, i, h, d, s, u, n), {| payload := p; info := i; href := h; document := d; summary := s;
                                  uid := u; notify := n |}) _).
  by intros [].
Defined.

Definition item_char (i : StatusUpdateItem) : char := (1000 + N.pos (encode i))%N.

Definition char_item (c : char) : option StatusUpdateItem :=
  match (c - 1000)%N with
  | N0 => None
  | Npos p => decode p
  end.

Definition sample_item_json : Json StatusUpdateItem :=
  {| to_json := λ i, [item_char i];
     of_json := λ s, match s with [c] => char_item c | _ => None end |}.

Lemma char_item_char i : char_item (item_char i) = Some i.
Proof.
  unfold char_item, item_char. replace (1000 + N.pos (encode i) - 1000)%N with (N.pos (encode i)) by lia.
  apply decode_encode.
Qed.

Definition sample_world : WebxdcWorld :=
  {| parse_updates := λ s, mapM char_item (base.filter (λ c, (1000 < c)%N) s);
     print_numbered := λ i n m, payload i ++ lit " " ++ print_N n ++ lit "/" ++ print_N m;
     sha256_hex := λ s, s; chat_is_muted := λ _ _, false; quote_summary := λ _ _, Some (lit "app");
     intercept_send := λ _ _, ret tt; intercept_get := λ _ _, ret [] |}.

Lemma sample_world_ok : @WebxdcOk sample_item_json sample_world.
Proof. split; [done|]. intros id i w0 w Hw. exact Hw. Qed.

Lemma item_chars_join items :
  base.filter (λ c, (1000 < c)%N) (join comma ((λ i, [item_char i]) <$> items)) = item_char <$> items.
Proof.
  assert (∀ i, 1000 < item_char i)%N as Hc by (intros i; unfold item_char; lia).
  induction items as [|i items IH]; [done|].
  destruct items as [|j items]; [cbn; by rewrite decide_True|].
  change (join comma ((λ i, [item_char i]) <$> i :: j :: items))
    with ([item_char i] ++ comma ++ join comma ((λ i, [item_char i]) <$> j :: items)).
  rewrite !list.filter_app, IH. cbn. by rewrite decide_True.
Qed.

Lemma sample_batch_law : @batch_law sample_item_json sample_world.
Proof.
  intros items. unfold updates_object. cbn [parse_updates sample_world].
  rewrite !list.filter_app, item_chars_join.
  repeat match goal with
         | |- context [filter ?P (lit ?s)] => replace (filter P (lit s)) with (@nil N) by (vm_compute; reflexivity)
         | |- context [filter ?P [34%N]] => replace (filter P [34%N]) with (@nil N) by (vm_compute; reflexivity)
         end.
  rewrite app_nil_r. cbn [app].
  induction items as [|i items IH]; [done|]. rewrite fmap_cons. cbn [mapM]. by rewrite char_item_char, IH.
Qed.

(** ** Alice has an app in her group *)

Definition app_row : msg_row :=
  {| m_rfc724_mid := lit "app@x"; m_pre_rfc724_mid := []; m_chat_id := 20; m_from_id := 1;
     m_timestamp := 50; m_timestamp_rcvd := 50; m_type := Viewtype.Webxdc;
     m_state := MessageState.OutDelivered; m_hidden := false; m_param := []; m_location_id := 0;
     m_error := []; m_ephemeral_timer := 0; m_ephemeral_timestamp := 0;
     m_download_state := DownloadState.Done; m_deleted := false |}.

Definition alice_wx : Wx :=
  {| core := upd_msg_seq (λ _, 15%N) (upd_msgs (λ _, {[ 15%N := app_row ]}) alice); replies := ∅;
     updates := []; update_seq := 0; queue := []; wx_events := [] |}.

Definition update (p : string) (u : option str) : StatusUpdateItem :=
  {| payload := lit p; info := None; href := None; document := None; summary := None; uid := u;
     notify := None |}.

Section Witnesses.
#[local] Instance PF : Platform := sample_platform.
#[local] Instance OS : Outside := sample_outside.
#[local] Instance SD : Sending := sample_sending.
#[local] Instance JS : Json SyncItem := opaque_json _.
#[local] Instance JI : Json StatusUpdateItem := sample_item_json.
#[local] Instance WW : WebxdcWorld := sample_world.
#[local] Instance WO : WebxdcOk := sample_world_ok.

Definition after_move : result unit wx_error * Wx :=
  send_webxdc_status_update_struct 100 15 (update "move" None) alice_wx.

Lemma after_move_ok : after_move = (Ok tt, after_move.2).
Proof. vm_compute. reflexivity. Qed.

Definition start : Run := {| wx := alice_wx; inflight := None; pending := [] |}.

Lemma start_sound : sound start.
Proof. split; [|by constructor..|done]. split; simpl; first [by constructor|lia|by intros ? ? ? ?%elem_of_nil]. Qed.

Definition stored_move : result (option N) wx_error * Wx := store_update 100 15 (update "move" None) alice_wx.

Lemma updates_wait_until_sent_witness :
  ∃ u, u ∈ updates stored_move.2 ∧ u_msg_id u = 15%N
    ∧ ∀ ops, let s1 := run_op (StoreUpdate 100 15 (update "move" None)) start in
        let s' := run_ops ops s1 in
        u ∈ updates (wx s') → (15%N, u_id u) ∈ pending s' ∨ waiting 15 (u_id u) (wx s') ∨ sent_in ops s1 u.
Proof.
  destruct (updates_wait_until_sent 100 15 (update "move" None) start app_row (Some 1%N) stored_move.2 start_sound)
    as (_ & u & x & Hu & Hm & _ & _ & Hops).
  - vm_compute. reflexivity.
  - vm_compute. reflexivity.
  - apply (bool_decide_unpack _). vm_compute. exact I.
  - vm_compute. reflexivity.
  - exists u. by split_and!.
Defined.

Definition moved : Wx := after_move.2.

Lemma moved_consistent : consistent moved.
Proof.
  destruct (run_op_sound (QueueUpdate 15) _ (run_op_sound (StoreUpdate 100 15 (update "move" None)) start start_sound)) as [H _ _ _].
  assert (E : wx (run_op (QueueUpdate 15) (run_op (StoreUpdate 100 15 (update "move" None)) start)) = moved)
    by (vm_compute; reflexivity).
  by rewrite E in H.
Defined.

Definition move_row : update_row :=
  default {| u_id := 0; u_msg_id := 0; u_item := []; u_uid := None |} (head (updates moved)).

Lemma flush_sends_all_witness :
  ∃ w', flush_status_updates 5 101 moved = Some (Ok tt, w') ∧ queue w' = [] ∧ sent_between 101 move_row moved w'.
Proof.
  assert (F : (λ x, x.1) <$> flush_status_updates 5 101 moved = Some (Ok tt)) by (vm_compute; reflexivity).
  destruct (flush_sends_all 5 101 moved moved_consistent) as (res & w' & E & H);
    [vm_compute; reflexivity|apply (bool_decide_unpack _); vm_compute; exact I|].
  rewrite E in F. injection F as ->. destruct (H eq_refl) as [Hq Hs]. exists w'. split_and!; [done|done|]. apply Hs.
  - apply (list_elem_of_lookup_2 _ 0 move_row). vm_compute. reflexivity.
  - eexists. split; [apply (list_elem_of_lookup_2 _ 0); vm_compute; reflexivity|]. vm_compute. split_and!; done.
Defined.

(** The message with the update, and the empty queue. *)
Example moved_flushed :
  ((λ x, (x.1, queue x.2, length (sent (core x.2)))) <$> flush_status_updates 5 101 moved)
  = Some (Ok tt, [], 1%nat).
Proof. vm_compute. reflexivity. Qed.

(** The batch arrives at another device of Alice. *)
Definition batch : list StatusUpdateItem := [update "a" (Some (lit "u1")); update "b" (Some (lit "u2"))].

Definition batch_rows : list update_row :=
  [{| u_id := 7; u_msg_id := 33; u_item := to_json (update "a" (Some (lit "u1"))); u_uid := Some (lit "u1") |};
   {| u_id := 8; u_msg_id := 33; u_item := to_json (update "b" (Some (lit "u2"))); u_uid := Some (lit "u2") |}].

Definition batch_received : result unit wx_error * Wx :=
  receive_status_update 120 1 15 app_row 110 true (updates_json batch_rows) alice_wx.

Lemma batch_received_ok : batch_received = (Ok tt, batch_received.2).
Proof. vm_compute. reflexivity. Qed.

Lemma sent_updates_arrive_witness :
  ∃ new, updates batch_received.2 = updates alice_wx ++ new
    ∧ content <$> new = content_of 15 <$> fresh (uids alice_wx) batch.
Proof.
  exact (proj1 (sent_updates_arrive batch_rows batch 120 1 15 app_row 110 true alice_wx batch_received.2
    sample_batch_law eq_refl batch_received_ok)).
Defined.

Example batch_stored : u_uid <$> updates batch_received.2 = [Some (lit "u1"); Some (lit "u2")].
Proof. vm_compute. reflexivity. Qed.

(** ** Updates that get lost *)

(** Two updates are sent at the same time: both are stored, and the second is queued before the
    first.  The range that results is empty, and the queue is emptied with nothing sent. *)
Definition two_stored : Wx :=
  upd_updates 2 (λ _, [{| u_id := 1; u_msg_id := 15; u_item := to_json (update "a" (Some (lit "u1")));
                          u_uid := Some (lit "u1") |};
                       {| u_id := 2; u_msg_id := 15; u_item := to_json (update "b" (Some (lit "u2")));
                          u_uid := Some (lit "u2") |}]) alice_wx.

Example crossing_updates_are_lost :
  ((λ x, (x.1, queue x.2, length (sent (core x.2)))) <$>
     flush_status_updates 5 101 ((enqueue 15 2 ;;; enqueue 15 1) two_stored).2)
  = Some (Ok tt, [], 0%nat)
  ∧ ((λ x, (x.1, queue x.2, length (sent (core x.2)))) <$>
     flush_status_updates 5 101 ((enqueue 15 1 ;;; enqueue 15 2) two_stored).2)
  = Some (Ok tt, [], 1%nat).
Proof. vm_compute. done. Qed.

(** A batch with a document and then a summary: the app ends up without the document, as the second
    update starts from the parameters before the first. *)
Definition with_document : StatusUpdateItem :=
  {| payload := lit "1"; info := None; href := None; document := Some (lit "doc"); summary := None;
     uid := Some (lit "u1"); notify := None |}.

Definition with_summary : StatusUpdateItem :=
  {| payload := lit "2"; info := None; href := None; document := None; summary := Some (lit "sum");
     uid := Some (lit "u2"); notify := None |}.

Definition app_params (w : Wx) : Params := load_params (default [] (m_param <$> msgs (core w) !! 15%N)).

Example summary_undoes_document :
  let json i := updates_object (join comma (to_json <$> i)) in
  let receive i w := (receive_status_update 120 1 15 app_row 110 true (json i) w).2 in
  Params_get (app_params (receive [with_document; with_summary] alice_wx)) Param.WebxdcDocument = None
  ∧ Params_get (app_params (receive [with_document] alice_wx)) Param.WebxdcDocument = Some (lit "doc").
Proof. vm_compute. done. Qed.

(** An app whose first update is queued is sent again: updates received since are not queued. *)
Example resent_without_later_updates :
  queue (requeue_updates 15 (enqueue 15 1 two_stored).2).2
  = [{| q_msg_id := 15; q_first := 0; q_last := 1 |}].
Proof. vm_compute. reflexivity. Qed.

(** An app is deleted while an update of it is queued: until housekeeping, the queue is stuck and the
    updates of all apps stay behind it. *)
Definition trash_app (w : Wx) : Wx :=
  upd_core (upd_msgs (<[15%N := {| m_rfc724_mid := []; m_pre_rfc724_mid := []; m_chat_id := DC_CHAT_ID_TRASH;
     m_from_id := 0; m_timestamp := 0; m_timestamp_rcvd := 0; m_type := Viewtype.Unknown;
     m_state := MessageState.Undefined; m_hidden := false; m_param := []; m_location_id := 0; m_error := [];
     m_ephemeral_timer := 0; m_ephemeral_timestamp := 0; m_download_state := DownloadState.Done;
     m_deleted := true |}]>)) w.

Definition other_queued (w : Wx) : Wx :=
  upd_queue (λ q, q ++ [{| q_msg_id := 16; q_first := 1; q_last := 2 |}]) w.

Example deleted_app_blocks_queue :
  let w := other_queued (trash_app after_move.2) in
  (∃ e, flush_status_updates 9 101 w = Some (Err e, w))
  ∧ ((λ x, (x.1, queue x.2)) <$> flush_status_updates 9 101 (delete_old_updates w).2) = Some (Ok tt, []).
Proof. split; [eexists|]; vm_compute; reflexivity. Qed.
End Witnesses.
