(* ===== verification/ChatActions.v ===== *)
(** ChatActions: what the user does with chats (src/src/chat.rs, src/src/contact.rs): creating,
    renaming, describing, archiving, pinning, muting, accepting, blocking and deleting them, removing
    members, and the execution of the same actions on the user's other devices. *)
From stdpp Require Import sorting.
From S2P Require Import Prelude Monad Ids Params Membership ContactTools Headers MsgTable.
From S2P Require Import Db Contacts Recipients GroupChanges LoginParam Config Sync ChatDb ChatAssign.

(** The account, with the columns [archived] and [muted_until] of its chats, the columns
    [rfc724_mid] and [target] of the table imap, the messages with read receipts and the labels of
    device messages. *)
Record Own := {
  core : Core;
  visibility : gmap N ChatVisibility;
  muted_until : gmap N Z;
  imap_targets : list (str * str);
  mdn_rows : list MsgId;
  devmsglabels : list str
}.

Definition upd_core (f : Core -> Core) (o : Own) : Own :=
  {| core := f (core o); visibility := visibility o; muted_until := muted_until o;
     imap_targets := imap_targets o; mdn_rows := mdn_rows o; devmsglabels := devmsglabels o |}.

Definition upd_visibility (f : gmap N ChatVisibility -> gmap N ChatVisibility) (o : Own) : Own :=
  {| core := core o; visibility := f (visibility o); muted_until := muted_until o;
     imap_targets := imap_targets o; mdn_rows := mdn_rows o; devmsglabels := devmsglabels o |}.

Definition upd_muted_until (f : gmap N Z -> gmap N Z) (o : Own) : Own :=
  {| core := core o; visibility := visibility o; muted_until := f (muted_until o);
     imap_targets := imap_targets o; mdn_rows := mdn_rows o; devmsglabels := devmsglabels o |}.

Definition upd_imap_targets (f : list (str * str) -> list (str * str)) (o : Own) : Own :=
  {| core := core o; visibility := visibility o; muted_until := muted_until o;
     imap_targets := f (imap_targets o); mdn_rows := mdn_rows o; devmsglabels := devmsglabels o |}.

Definition upd_mdn_rows (f : list MsgId -> list MsgId) (o : Own) : Own :=
  {| core := core o; visibility := visibility o; muted_until := muted_until o;
     imap_targets := imap_targets o; mdn_rows := f (mdn_rows o); devmsglabels := devmsglabels o |}.

Definition upd_devmsglabels (f : list str -> list str) (o : Own) : Own :=
  {| core := core o; visibility := visibility o; muted_until := muted_until o;
     imap_targets := imap_targets o; mdn_rows := mdn_rows o; devmsglabels := f (devmsglabels o) |}.

Abbreviation O := (SE Own core_error).

Definition on_core {X} (x : C X) : O X :=
  λ o, match x (core o) with (r, s) => (r, upd_core (λ _, s) o) end.

Definition emit (e : EventType) : O unit := on_core (emit_core e).
Definition ensure_that (b : bool) (e : core_error) : O unit := on_core (ensure_or b e).

(** [Context::emit_msgs_changed_without_ids]. *)
Definition emit_msgs_changed : O unit := emit (MsgsChanged 0 0).

Definition visibility_of (id : ChatId) (o : Own) : ChatVisibility :=
  default ChatVisibility.Normal (visibility o !! id).

(** ** Muting *)

(** [MuteDuration::to_sql] and [MuteDuration::column_result]. *)
Definition mute_to_sql (d : MuteDuration) : option Z :=
  match d with
  | NotMuted => Some 0%Z
  | Forever => Some (-1)%Z
  | Until t => if (0 <=? t)%Z then Some t else None
  end.

Definition mute_of_sql (n : Z) : MuteDuration :=
  if (n =? -1)%Z then Forever else if (0 <? n)%Z then Until n else NotMuted.

Definition mute_duration_of (id : ChatId) (o : Own) : MuteDuration :=
  mute_of_sql (default 0%Z (muted_until o !! id)).

(** [Chat::is_muted]. *)
Definition is_muted (now : Z) (d : MuteDuration) : bool :=
  match d with
  | NotMuted => false
  | Forever => true
  | Until t => (now <? t)%Z
  end.

Section Actions.
Context `{!Platform, !Outside, !Json SyncItem, !Sending, !Json EnteredLoginParam,
          !Json ConfiguredLoginParamJson, !Intake}.

Definition load_chat (id : ChatId) : O Chat := on_core (in_db (load_from_db id)).

(** [chat::sync], whose errors the callers only log. *)
Definition sync (now : Z) (id : SyncId) (action : SyncAction) : O unit :=
  _ <- ignore_err (on_core (in_account (add_sync_item now (AlterChat id action)))) ;; ret tt.

(** [Chat::sync] with the error logged. *)
Definition try_sync (now : Z) (chat : Chat) (action : SyncAction) : O unit :=
  _ <- ignore_err (on_core (sync_chat now chat action)) ;; ret tt.

(** [UPDATE chats SET ..=? WHERE id=?]: a column of a chat that exists. *)
Definition set_column {V} (upd : (gmap N V -> gmap N V) -> Own -> Own) (id : ChatId) (v : V) : O unit :=
  modify (λ o, if bool_decide (is_Some (chats (db (core o)) !! id)) then upd (<[id := v]>) o else o).

(** [set_muted_ex]. *)
Definition set_muted_ex (now : Z) (with_sync : bool) (id : ChatId) (d : MuteDuration) : O unit :=
  ensure_that (negb (chat_is_special id)) (SpecialChat id) ;;;
  n <- ok_or (mute_to_sql d) CannotMute ;;
  set_column upd_muted_until id n ;;;
  emit (ChatModified id) ;;;
  emit (ChatlistItemChanged id) ;;;
  when with_sync (chat <- load_chat id ;; try_sync now chat (SetMuted d)).

(** ** Archiving and pinning *)

(** [UPDATE msgs SET state=? WHERE .. AND state=?]. *)
Definition notice_where (p : msg_row -> bool) (t : msg_table) : msg_table :=
  update_where (λ _ r, if p r && bool_decide (m_state r = MessageState.InFresh)
                       then Some (with_state r MessageState.InNoticed) else None) t.

(** [start_chat_ephemeral_timers]. *)
Definition start_chat_timers (now : Z) (id : ChatId) (t : msg_table) : msg_table :=
  update_where (λ _ r,
    let ts := (now + m_ephemeral_timer r)%Z in
    if (m_chat_id r =? id)%N && (0 <? m_ephemeral_timer r)%Z
       && ((m_ephemeral_timestamp r =? 0)%Z || (ts <? m_ephemeral_timestamp r)%Z)
    then Some (with_ephemeral_timestamp r ts) else None) t.

(** [ChatId::set_visibility_ex]. *)
Definition set_visibility_ex (now : Z) (with_sync : bool) (id : ChatId) (v : ChatVisibility) : O unit :=
  ensure_that (negb (chat_is_special id)) (SpecialChat id) ;;;
  let archived := bool_decide (v = ChatVisibility.Archived) in
  when archived (modify (upd_core (upd_msgs (notice_where (λ r, m_chat_id r =? id)%N)))) ;;;
  set_column upd_visibility id v ;;;
  when archived (modify (upd_core (upd_msgs (start_chat_timers now id)))) ;;;
  emit_msgs_changed ;;;
  emit ChatlistChanged ;;;
  emit (ChatlistItemChanged id) ;;;
  when with_sync (chat <- load_chat id ;; try_sync now chat (SetVisibility v)).

(** [ChatId::unarchive_if_not_muted]. *)
Definition fresh_count (id : ChatId) (t : msg_table) : nat :=
  length (base.filter (λ r, m_state r = MessageState.InFresh ∧ m_hidden r = false ∧ m_chat_id r = id)
            (map_to_list t).*2).

Definition unarchive_if_not_muted (now : Z) (id : ChatId) (state : MessageState) : O unit :=
  if negb (bool_decide (state = MessageState.InFresh)) then
    modify (λ o,
      let m := default 0%Z (muted_until o !! id) in
      if bool_decide (visibility_of id o = ChatVisibility.Archived) && negb ((m =? -1)%Z || (now <? m)%Z)
      then upd_visibility (<[id := ChatVisibility.Normal]>) o else o)
  else
    load_chat id ;;;
    v <- gets (visibility_of id) ;;
    if negb (bool_decide (v = ChatVisibility.Archived)) then ret tt
    else
      muted <- gets (λ o, is_muted now (mute_duration_of id o)) ;;
      if (muted : bool) then
        unread <- gets (λ o, fresh_count id (msgs (core o))) ;;
        when (unread =? 1)%nat (emit (MsgsChanged DC_CHAT_ID_ARCHIVED_LINK 0))
      else set_column upd_visibility id ChatVisibility.Normal.

(** ** Device messages *)

(** [ChatId::get_timestamp]. *)
Definition get_timestamp (id : ChatId) (s : Core) : option Z :=
  max_timestamp (λ r, bool_decide (m_chat_id r = id)) s.

(** [was_device_msg_ever_added]. *)
Definition was_device_msg_ever_added (label : str) : O bool :=
  ensure_that (negb (bool_decide (label = []))) EmptyLabel ;;;
  gets (λ o, bool_decide (label ∈ devmsglabels o)).

(** [add_device_msg_with_importance], for a text. *)
Definition add_device_text (now : Z) (msg : Message) : O (ChatId * MsgId) :=
  res <- on_core (get_for_contact now DEVICE Blocked.Not) ;;
  rfc724_mid <- on_core create_outgoing_rfc724_mid ;;
  last <- gets (λ o, get_timestamp res.1 (core o)) ;;
  let sort := match last with
              | Some t => if (now <=? t)%Z then (t + 1)%Z else now
              | None => now
              end in
  msg_id <- on_core (insert_msg
    {| m_rfc724_mid := rfc724_mid; m_pre_rfc724_mid := []; m_chat_id := res.1; m_from_id := DEVICE;
       m_timestamp := sort; m_timestamp_rcvd := now; m_type := msg_viewtype msg;
       m_state := MessageState.InFresh; m_hidden := false; m_param := to_string (msg_param msg);
       m_location_id := 0; m_error := []; m_ephemeral_timer := 0; m_ephemeral_timestamp := 0;
       m_download_state := DownloadState.Done; m_deleted := false |} (msg_text msg)) ;;
  when (negb (msg_hidden msg)) (unarchive_if_not_muted now res.1 MessageState.InFresh) ;;;
  ret (res.1, msg_id).

Definition add_device_msg_with_importance (now : Z) (label : option str) (msg : option Message)
  (important : bool) : O MsgId :=
  ensure_that (bool_decide (is_Some label) || bool_decide (is_Some msg)) NoLabelNorMessage ;;;
  known <- (match label with Some l => was_device_msg_ever_added l | None => ret false end) ;;
  if (known : bool) then ret 0%N
  else
    added <- (match msg with
              | Some msg => a <- add_device_text now msg ;; ret (Some a)
              | None => ret None
              end) ;;
    (match label with Some l => modify (upd_devmsglabels (λ ls, ls ++ [l])) | None => ret tt end) ;;;
    match added with
    | Some (chat, id) =>
        when (negb (id =? 0)%N) (emit (if important then IncomingMsg chat id else MsgsChanged chat id)) ;;;
        ret id
    | None => ret 0%N
    end.

(** [add_device_msg]. *)
Definition add_device_msg (now : Z) (label : option str) (msg : option Message) : O MsgId :=
  add_device_msg_with_importance now label msg false.

(** [delete_and_reset_all_device_msgs]. *)
Definition delete_and_reset_all_device_msgs : O unit :=
  modify (upd_core (upd_msgs (base.filter (λ kr, m_from_id kr.2 ≠ DEVICE)))) ;;;
  modify (upd_devmsglabels (λ _, [lit "core-welcome-image"; lit "core-welcome"])).

(** ** Deleting *)

(** The statements of the transaction of [ChatId::delete_ex]. *)
Definition mids_of (id : ChatId) (t : msg_table) : list str :=
  base.filter (λ m, m ≠ []) (m_rfc724_mid <$> base.filter (λ r, m_chat_id r = id) (map_to_list t).*2)
  ++ base.filter (λ m, m ≠ []) (m_pre_rfc724_mid <$> base.filter (λ r, m_chat_id r = id) (map_to_list t).*2).

Definition delete_rows (id : ChatId) (o : Own) : Own :=
  let t := msgs (core o) in
  let o := upd_imap_targets (fmap (λ r, if bool_decide (r.1 ∈ mids_of id t) then (r.1, []) else r)) o in
  let o := upd_mdn_rows (base.filter (λ m, m_chat_id <$> t !! m ≠ Some id)) o in
  let o := upd_core (upd_msgs (update_where (λ _ r, if (m_chat_id r =? id)%N then Some (trashed_row r true) else None))) o in
  let o := upd_core (upd_db (set_members (base.filter (λ kr, kr.1.1 ≠ id)))) o in
  upd_core (upd_db (set_chats (base.delete id))) o.

(** [ChatId::delete_ex]. *)
Definition delete_ex (now : Z) (with_sync : bool) (id : ChatId) : O unit :=
  ensure_that (negb (chat_is_special id)) (SpecialChat id) ;;;
  chat <- load_chat id ;;
  sync_id <- (if with_sync then on_core (get_sync_id chat) else ret None) ;;
  modify (delete_rows id) ;;;
  emit (ChatDeleted id) ;;;
  emit_msgs_changed ;;;
  (match sync_id with Some sid => sync now sid Delete | None => ret tt end) ;;;
  (if is_self_talk chat then
     add_device_msg now None (Some {| msg_viewtype := Viewtype.Text; msg_text := stock_str self_deleted_msg_body;
                                      msg_hidden := false; msg_param := Params_new |}) ;;; ret tt
   else ret tt) ;;;
  emit ChatlistChanged ;;;
  on_core (in_account (set_config_internal now Config.LastHousekeeping None)).

(** ** Blocking and accepting *)

(** [contact::set_blocked]. *)
Definition block_single_chats (id : ContactId) (b : Blocked.Blocked) (s : Core) : Core :=
  upd_chat_blocked (λ m, foldr (λ c m, <[c := b]> m) m
    (base.filter (λ c, ch_type <$> chats (db s) !! c = Some Chattype.Single
                       ∧ is_Some (members (db s) !! (c, id))) (elements (dom (chats (db s)))))) s.

Definition set_contact_blocked (now : Z) (with_sync : bool) (id : ContactId) (new_blocking : bool) : O unit :=
  ensure_that (negb (contact_is_special id)) (SpecialContact id) ;;;
  contact <- on_core (get_by_id id) ;;
  (if Bool.eqb (ct_blocked contact) new_blocking then ret tt
   else
     modify (upd_core (upd_contact_blocked (λ b, if new_blocking then {[ id ]} ∪ b else b ∖ {[ id ]}))) ;;;
     modify (upd_core (block_single_chats id (if new_blocking then Blocked.Yes else Blocked.Not))) ;;;
     modify (upd_core (upd_msgs (notice_where (λ r, m_from_id r =? id)%N))) ;;;
     emit (ContactsChanged id) ;;;
     (if negb new_blocking && bool_decide (ct_origin contact = Origin.MailinglistAddress) then
        list_chat <- on_core (get_chat_id_by_grpid (ct_addr contact)) ;;
        match list_chat with
        | Some (chat, _) => on_core (unblock_ex now false chat)
        | None => ret tt
        end
      else ret tt) ;;;
     when with_sync
       (sync now (match contact_fingerprint contact with
                  | Some fp => ContactFingerprint (hex fp)
                  | None => ContactAddr (ct_addr contact)
                  end) (if new_blocking then Block else Unblock))) ;;;
  emit ChatlistChanged.

(** [ChatId::block_ex]. *)
Definition block_ex (now : Z) (with_sync : bool) (id : ChatId) : O unit :=
  chat <- load_chat id ;;
  (match chat_typ chat with
   | Chattype.OutBroadcast => fail CannotBlock
   | Chattype.Single =>
       ids <- on_core (in_db (chat_contacts id)) ;;
       for_each ids (λ c, when (negb (c =? SELF)%N) (set_contact_blocked now false c true))
   | Chattype.Group => ret tt
   | Chattype.Mailinglist | Chattype.InBroadcast =>
       changed <- on_core (set_chat_blocked id Blocked.Yes) ;;
       when changed (emit (ChatModified id))
   end) ;;;
  emit ChatlistChanged ;;;
  when with_sync (try_sync now chat Block) ;;;
  when (bool_decide (chat_typ chat = Chattype.Group)) (delete_ex now false id).

(** [ChatId::accept_ex]. *)
Definition accept_ex (now : Z) (with_sync : bool) (id : ChatId) : O unit :=
  chat <- load_chat id ;;
  (match chat_typ chat with
   | Chattype.Mailinglist => ret tt
   | typ =>
       let origin := match typ with Chattype.Group => Origin.IncomingTo | _ => Origin.CreateChat end in
       ids <- on_core (in_db (chat_contacts id)) ;;
       for_each ids (λ c, when (negb (c =? SELF)%N) (on_core (in_db (scaleup_origin [c] origin))))
   end) ;;;
  changed <- on_core (set_chat_blocked id Blocked.Not) ;;
  when changed (emit (ChatModified id) ;;; emit (ChatlistItemChanged id)) ;;;
  when with_sync (try_sync now chat Accept).

(** ** Names, descriptions, images *)

(** [rename_ex]. *)
Definition name_changed_msg (chat : Chat) (new_name : str) : Message :=
  let p := set_cmd Params_new SystemMessage.GroupNameChanged in
  {| msg_viewtype := Viewtype.Text;
     msg_text := stock_str (if bool_decide (chat_typ chat = Chattype.OutBroadcast)
                            then msg_broadcast_name_changed (chat_name chat) new_name
                            else msg_grp_name (chat_name chat) new_name SELF);
     msg_hidden := false;
     msg_param := if bool_decide (chat_name chat = []) then p else Params_set p Param.Arg (chat_name chat) |}.

Definition set_name_column (id : ChatId) (name : str) : O unit :=
  modify (upd_core (upd_db (set_chats (alter (λ r,
    {| ch_type := ch_type r; ch_name := name; ch_grpid := ch_grpid r; ch_param := ch_param r;
       ch_created_timestamp := ch_created_timestamp r |}) id)))).

Definition rename_ex (now : Z) (with_sync : bool) (id : ChatId) (new_name : str) : O unit :=
  let new_name := sanitize_single_line new_name in
  ensure_that (negb (bool_decide (new_name = []))) EmptyName ;;;
  ensure_that (negb (chat_is_special id)) (SpecialChat id) ;;;
  chat <- load_chat id ;;
  if negb (bool_decide (chat_typ chat ∈ [Chattype.Group; Chattype.Mailinglist; Chattype.OutBroadcast]))
  then fail CannotRename
  else if bool_decide (chat_name chat = new_name) then ret tt
  else
    self_in_chat <- on_core (in_db (is_self_in_chat chat)) ;;
    if negb self_in_chat then emit ErrorSelfNotInGroup ;;; fail CannotRename
    else
      set_name_column id new_name ;;;
      let told := is_promoted chat && negb (bool_decide (chat_typ chat = Chattype.Mailinglist))
                  && negb (bool_decide (sanitize_single_line (chat_name chat) = new_name)) in
      when told (msg_id <- on_core (send_msg now id (name_changed_msg chat new_name)) ;;
                 emit (MsgsChanged id msg_id)) ;;;
      emit (ChatModified id) ;;;
      emit (ChatlistItemChanged id) ;;;
      when (with_sync && negb told) (try_sync now chat (Rename new_name)).

(** [get_chat_description] and [set_chat_description_ex]. *)
Definition get_chat_description (id : ChatId) (s : Core) : str :=
  default [] (chats_descriptions (db s) !! id).

Definition set_chat_description_ex (now : Z) (with_sync : bool) (id : ChatId) (new : str) : O unit :=
  let new := sanitize_bidi_characters (trim new) in
  ensure_that (negb (chat_is_special id)) (SpecialChat id) ;;;
  chat <- load_chat id ;;
  ensure_that (bool_decide (chat_typ chat ∈ [Chattype.Group; Chattype.OutBroadcast])) CannotDescribe ;;;
  ensure_that (negb (bool_decide (chat_grpid chat = []))) CannotDescribe ;;;
  self_in_chat <- on_core (in_db (is_self_in_chat chat)) ;;
  if negb self_in_chat then emit ErrorSelfNotInGroup ;;; fail SelfNotInGroup
  else
    old <- gets (λ o, get_chat_description id (core o)) ;;
    if bool_decide (old = new) then ret tt
    else
      modify (upd_core (upd_db (set_descriptions (<[id := new]>)))) ;;;
      when (is_promoted chat)
        (msg_id <- on_core (send_msg now id
           {| msg_viewtype := Viewtype.Text; msg_text := stock_str (msg_chat_description_changed SELF);
              msg_hidden := false;
              msg_param := set_cmd Params_new SystemMessage.GroupDescriptionChanged |}) ;;
         emit (MsgsChanged id msg_id)) ;;;
      emit (ChatModified id) ;;;
      when (with_sync && negb (is_promoted chat)) (try_sync now chat (SetDescription new)).

(** [set_chat_profile_image]; [blob] is the name of the image in the blob directory, which is
    made from the file unless the name of the file is empty. *)
Definition set_chat_profile_image (now : Z) (id : ChatId) (new_image : str) (blob : option str) : O unit :=
  ensure_that (negb (chat_is_special id)) (SpecialChat id) ;;;
  chat <- load_chat id ;;
  ensure_that (bool_decide (chat_typ chat ∈ [Chattype.Group; Chattype.OutBroadcast])) NotAGroup ;;;
  ensure_that (negb (bool_decide (chat_grpid chat = []))) NotAGroup ;;;
  self_in_chat <- on_core (in_db (is_self_in_chat chat)) ;;
  if negb self_in_chat then emit ErrorSelfNotInGroup ;;; fail SelfNotInGroup
  else
    let channel := bool_decide (chat_typ chat = Chattype.OutBroadcast) in
    let p := set_cmd Params_new SystemMessage.GroupImageChanged in
    changed <- (if bool_decide (new_image = [])
                then ret (Params_remove (chat_param chat) Param.ProfileImage, Params_remove p Param.Arg,
                          if channel then msg_broadcast_img_changed else msg_grp_img_deleted SELF)
                else
                  name <- ok_or blob BadImage ;;
                  ret (Params_set (chat_param chat) Param.ProfileImage name, Params_set p Param.Arg name,
                       if channel then msg_broadcast_img_changed else msg_grp_img_changed SELF)) ;;
    let '(chat_p, msg_p, text) := changed in
    on_core (in_db (update_param (with_param chat chat_p))) ;;;
    when (is_promoted chat)
      (msg_id <- on_core (send_msg now id {| msg_viewtype := Viewtype.Text; msg_text := stock_str text;
                                             msg_hidden := false; msg_param := msg_p |}) ;;
       emit (MsgsChanged id msg_id)) ;;;
    emit (ChatModified id) ;;;
    emit (ChatlistItemChanged id).

(** ** Creating groups and channels *)

(** [ChatId::add_start_info_message]. *)
Definition add_start_info_message (now : Z) (id : ChatId) (text : str) : O unit :=
  on_core (add_info_msg_with_cmd now id text SystemMessage.Unknown (Some 0%Z) now None None) ;;; ret tt.

(** [create_group_ex]. *)
Definition create_group_ex (now : Z) (with_sync : bool) (grpid name : str) : O ChatId :=
  let name := sanitize_single_line name in
  let chat_name := if bool_decide (name = []) then [8230%N] else name in
  id <- on_core (insert_chat {| ch_type := Chattype.Group; ch_name := chat_name; ch_grpid := grpid;
                                ch_param := lit "U=1"; ch_created_timestamp := now |} Blocked.Not) ;;
  modify (upd_core (upd_db (set_members (add_to_chat_contacts_table now id [SELF])))) ;;;
  emit_msgs_changed ;;; emit ChatlistChanged ;;; emit (ChatlistItemChanged id) ;;;
  let encrypted := negb (bool_decide (grpid = [])) in
  when encrypted (on_core (add_e2ee_notice now id now)) ;;;
  bot <- on_core (in_account (get_config_bool Config.Bot)) ;;
  start <- (if (bot : bool) then ret false
            else skip <- on_core (in_account (get_config_bool Config.SkipStartMessages)) ;; ret (negb skip)) ;;
  when start (add_start_info_message now id
    (stock_str (if encrypted then new_group_send_first_message else chat_unencrypted_explanation))) ;;;
  when (with_sync && encrypted) (sync now (Grpid grpid) (CreateGroupEncrypted chat_name)) ;;;
  ret id.

(** [create_group] and [create_group_unencrypted]. *)
Definition create_group (now : Z) (name : str) : O ChatId :=
  grpid <- on_core create_id ;; create_group_ex now true grpid name.

Definition create_group_unencrypted (now : Z) (name : str) : O ChatId := create_group_ex now true [] name.

(** [create_out_broadcast_ex] and [create_broadcast]; the secret is drawn like an identifier. *)
Definition create_out_broadcast_ex (now : Z) (with_sync : bool) (grpid name secret : str) : O ChatId :=
  id <- on_core (create_out_broadcast now grpid name secret) ;;
  when with_sync (sync now (Grpid grpid) (CreateOutBroadcast (sanitize_single_line name) secret)) ;;;
  ret id.

Definition create_broadcast (now : Z) (name : str) : O ChatId :=
  grpid <- on_core create_id ;;
  secret <- on_core create_id ;;
  create_out_broadcast_ex now true grpid name secret.

(** ** Members *)

(** [send_member_removal_msg]. *)
Definition member_removed_msg (chat : Chat) (contact_id : ContactId) (addr : str) (fp : option str) : Message :=
  let text := if (contact_id =? SELF)%N
              then if bool_decide (chat_typ chat = Chattype.InBroadcast) then msg_you_left_broadcast
                   else msg_group_left_local SELF
              else msg_del_member_local contact_id SELF in
  let p := set_cmd Params_new SystemMessage.MemberRemovedFromGroup in
  let p := Params_set_optional (Params_set p Param.Arg (str_to_lowercase addr)) Param.Arg4 fp in
  {| msg_viewtype := Viewtype.Text; msg_text := stock_str text; msg_hidden := false;
     msg_param := Params_set p Param.ContactAddedRemoved (print_N contact_id) |}.

(** [remove_contact_from_chat]. *)
Definition remove_contact_from_chat (now : Z) (id : ChatId) (contact_id : ContactId) : O unit :=
  ensure_that (negb (chat_is_special id)) (SpecialChat id) ;;;
  ensure_that (negb (contact_is_special contact_id) || (contact_id =? SELF)%N) (SpecialContact contact_id) ;;;
  chat <- load_chat id ;;
  (if bool_decide (chat_typ chat = Chattype.InBroadcast) then
     ensure_that (contact_id =? SELF)%N InvalidContactId ;;;
     modify (upd_core (upd_db (set_secrets (base.delete id))))
   else ret tt) ;;;
  ensure_that (bool_decide (chat_typ chat ∈ [Chattype.Group; Chattype.OutBroadcast; Chattype.InBroadcast])) NotAGroup ;;;
  self_in_chat <- on_core (in_db (is_self_in_chat chat)) ;;
  if negb self_in_chat then emit ErrorSelfNotInGroup ;;; fail SelfNotInGroup
  else
    let removal t := if is_promoted chat && negb (bool_decide (chat_typ chat = Chattype.OutBroadcast))
                     then remove_from_chat_contacts_table now id contact_id t
                     else remove_from_chat_contacts_table_without_trace id contact_id t in
    removed <- gets (λ o, (removal (members (db (core o)))).1) ;;
    modify (upd_core (upd_db (set_members (λ t, (removal t).2)))) ;;;
    if negb removed then ret tt
    else
      contact <- on_core (get_by_id_optional contact_id) ;;
      (match contact with
       | Some contact =>
           if is_promoted chat then
             let msg := member_removed_msg chat contact_id (ct_addr contact) (hex <$> contact_fingerprint contact) in
             if (contact_id =? SELF)%N then on_core (send_msg now id msg) ;;; ret tt
             else _ <- ignore_err (on_core (send_msg now id msg)) ;; ret tt
           else ret tt
       | None => ret tt
       end) ;;;
      emit (ChatModified id) ;;;
      when (bool_decide (is_Some contact) && negb (is_promoted chat))
        (_ <- ignore_err (on_core (sync_contacts now chat)) ;; ret tt).

(** ** Executing the actions of another device *)

(** The contacts of a list, each created if necessary, as a set in ascending order. *)
Fixpoint contacts_of {X} (lookup : X -> O ContactId) (l : list X) : O (list ContactId) :=
  match l with
  | [] => ret []
  | x :: l' =>
      id <- lookup x ;;
      ids <- contacts_of lookup l' ;;
      ret (if bool_decide (id ∈ ids) then ids else id :: ids)
  end.

Definition add_or_lookup (name addr fp : str) (origin : Origin.Origin) : O (ContactId * Modifier) :=
  on_core (in_db (add_or_lookup_ex str_to_lowercase generated_fingerprint name addr fp origin)).

Definition untimed : member_row := {| add_timestamp := 0; remove_timestamp := 0 |}.

Definition members_of (id : ChatId) (ids : list ContactId) (t : chats_contacts) : chats_contacts :=
  foldl (λ t c, match t !! (id, c) with Some _ => t | None => <[(id, c) := untimed]> t end) t ids.

Definition same_set (l l' : list ContactId) : bool :=
  forallb (λ c, bool_decide (c ∈ l')) l && forallb (λ c, bool_decide (c ∈ l)) l'.

(** [set_contacts_by_addrs]. *)
Definition set_contacts_by_addrs (id : ChatId) (addrs : list str) : O unit :=
  chat <- load_chat id ;;
  encrypted <- on_core (is_encrypted chat) ;;
  ensure_that (negb encrypted) IsEncrypted ;;;
  ensure_that (bool_decide (chat_typ chat = Chattype.OutBroadcast)) NotAChannel ;;;
  new <- contacts_of (λ a,
           a <- ok_or (ContactAddress_new str_to_lowercase a) InvalidAddress ;;
           res <- add_or_lookup [] a [] Origin.Hidden ;; ret res.1) addrs ;;
  old <- on_core (in_db (chat_contacts id)) ;;
  if same_set new old then ret tt
  else
    modify (upd_core (upd_db (set_members (λ t, members_of id new (base.filter (λ kr, kr.1.1 ≠ id) t))))) ;;;
    emit (ChatModified id).

(** [set_contacts_by_fingerprints]. *)
Definition set_contacts_by_fingerprints (now : Z) (id : ChatId) (fps : list (str * str)) : O unit :=
  chat <- load_chat id ;;
  encrypted <- on_core (is_encrypted chat) ;;
  ensure_that encrypted NotEncrypted ;;;
  ensure_that (bool_decide (chat_typ chat ∈ [Chattype.Group; Chattype.OutBroadcast])) NotAGroup ;;;
  new <- contacts_of (λ fa, res <- add_or_lookup [] fa.2 fa.1 Origin.Hidden ;; ret res.1) fps ;;
  old <- on_core (in_db (chat_contacts id)) ;;
  if same_set new old then ret tt
  else
    let channel := bool_decide (chat_typ chat = Chattype.OutBroadcast) in
    added <- gets (λ o, if channel
                        then merge_sort N.le (base.filter (λ c, members (db (core o)) !! (id, c) = None) new)
                        else []) ;;
    modify (upd_core (upd_db (set_members (λ t,
      members_of id new (if channel then t else base.filter (λ kr, kr.1.1 ≠ id) t))))) ;;;
    for_each added (λ c,
      on_core (add_info_msg_with_cmd now id (stock_str (msg_add_member_local c UNDEFINED))
                 SystemMessage.MemberAddedToGroup (Some now) now (Some SELF) (Some c)) ;;; ret tt) ;;;
    emit (ChatModified id).

(** [Contact::create_ex]. *)
Definition create_contact_ex (now : Z) (with_sync : bool) (name addr : str) : O ContactId :=
  let '(name, addr) := sanitize_name_and_addr name addr in
  addr <- ok_or (ContactAddress_new str_to_lowercase addr) InvalidAddress ;;
  res <- add_or_lookup name addr [] Origin.ManuallyCreated ;;
  blocked <- gets (λ o, bool_decide (res.1 ∈ contact_blocked (core o))) ;;
  (match res.2 with Unmodified => ret tt | _ => emit (ContactsChanged res.1) end) ;;;
  when blocked (set_contact_blocked now false res.1 false) ;;;
  (match res.2 with
   | Unmodified => ret tt
   | _ => when with_sync (sync now (ContactAddr addr) (Rename name))
   end) ;;;
  ret res.1.

(** The chat an item is about, and the actions that are already done with it. *)
Definition alter_contact (now : Z) (contact_id : ContactId) (action : SyncAction) : O (option ChatId) :=
  match action with
  | Block => set_contact_blocked now false contact_id true ;;; ret None
  | Unblock => set_contact_blocked now false contact_id false ;;; ret None
  | _ =>
      res <- on_core (get_for_contact now contact_id Blocked.Yes) ;;
      ret (Some res.1)
  end.

Definition sync_target (now : Z) (id : SyncId) (action : SyncAction) : O (option ChatId) :=
  match id with
  | ContactAddr addr =>
      match action with
      | Rename to => create_contact_ex now false to addr ;;; ret None
      | _ =>
          addr <- ok_or (ContactAddress_new str_to_lowercase addr) InvalidAddress ;;
          res <- add_or_lookup [] addr [] Origin.Hidden ;;
          alter_contact now res.1 action
      end
  | ContactFingerprint fp =>
      res <- add_or_lookup [] [] fp Origin.Hidden ;;
      match action with
      | Rename to =>
          on_core (in_db (set_name_ex res.1 to)) ;;;
          emit (ContactsChanged res.1) ;;;
          ret None
      | _ => alter_contact now res.1 action
      end
  | Grpid grpid =>
      match action with
      | CreateOutBroadcast name secret => create_out_broadcast_ex now false grpid name secret ;;; ret None
      | CreateGroupEncrypted name => create_group_ex now false grpid name ;;; ret None
      | _ =>
          res <- on_core (get_chat_id_by_grpid grpid) ;;
          res <- ok_or res NoSuchGroup ;;
          ret (Some res.1)
      end
  | Msgids mids =>
      msg <- on_core (get_by_rfc724_mids mids) ;;
      msg <- ok_or msg NoMessageId ;;
      chat <- ok_or (lookup_by_message msg.2) NoMessageId ;;
      ret (Some chat)
  | Device => res <- on_core (get_for_contact now DEVICE Blocked.Not) ;; ret (Some res.1)
  end.

(** [Context::sync_alter_chat]. *)
Definition sync_alter_chat (now : Z) (id : SyncId) (action : SyncAction) : O unit :=
  target <- sync_target now id action ;;
  match target with
  | None => ret tt
  | Some chat_id =>
      match action with
      | Block => block_ex now false chat_id
      | Unblock => on_core (unblock_ex now false chat_id)
      | Accept => accept_ex now false chat_id
      | SetVisibility v => set_visibility_ex now false chat_id v
      | SetMuted d => set_muted_ex now false chat_id d
      | CreateOutBroadcast _ _ | CreateGroupEncrypted _ => fail BadRequest
      | Rename to => rename_ex now false chat_id to
      | SetDescription to => set_chat_description_ex now false chat_id to
      | SetContacts addrs => set_contacts_by_addrs chat_id addrs
      | SetPgpContacts fps => set_contacts_by_fingerprints now chat_id fps
      | Delete => delete_ex now false chat_id
      end
  end.
End Actions.
