(* ===== verification/ChatSync.v ===== *)
(** ChatSync: the actions of the user on a group, a channel or a mailing list reach the other devices:
    an abstract account of what each action does to a chat, that the operations implement it on
    success and change nothing otherwise, and that devices that execute each other's items agree. *)
From stdpp Require Import sorting.
From S2P Require Import Prelude Monad Ids Params Membership ContactTools Headers MsgTable.
From S2P Require Import Db Contacts Recipients GroupChanges LoginParam Config Sync ChatDb ChatAssign ChatActions.

(** ** What is shown of a chat *)

Record shown := {
  v_type : Chattype.Chattype;
  v_name : str;
  v_promoted : bool;
  v_self : bool;
  v_visibility : ChatVisibility;
  v_muted : Z;
  v_blocked : Blocked.Blocked;
  v_description : str
}.

Definition row_self (t : chats_contacts) (id : ChatId) (r : chat_row) : bool :=
  match ch_type r with
  | Chattype.Single | Chattype.OutBroadcast | Chattype.Mailinglist => true
  | Chattype.Group | Chattype.InBroadcast => Membership.is_contact_in_chat t id SELF
  end.

Definition shown_at (id : ChatId) (o : Own) : option shown :=
  r ← chats (db (core o)) !! id;
  Some {| v_type := ch_type r; v_name := ch_name r;
          v_promoted := negb (default false (get_bool (load_params (ch_param r)) Param.Unpromoted));
          v_self := row_self (members (db (core o))) id r; v_visibility := visibility_of id o;
          v_muted := default 0%Z (muted_until o !! id);
          v_blocked := default Blocked.Not (chat_blocked (core o) !! id);
          v_description := default [] (chats_descriptions (db (core o)) !! id) |}.

(** What identifies a chat. *)
Definition key_at (id : ChatId) (o : Own) : option (str * bool * Chattype.Chattype) :=
  (λ r, (ch_grpid r, Params_exists (load_params (ch_param r)) Param.Selftalk, ch_type r))
    <$> chats (db (core o)) !! id.

(** A group identifier names one chat, an ordinary one. *)
Definition groups_wf (o : Own) : Prop :=
  ∀ id g st ty, key_at id o = Some (g, st, ty) → g ≠ [] →
    chat_is_special id = false ∧ st = false ∧ ty ≠ Chattype.Single
    ∧ ∀ id' st' ty', key_at id' o = Some (g, st', ty') → id' = id.

(** [get_chat_id_by_grpid]. *)
Definition chat_by (g : str) (o : Own) : option ChatId :=
  head (base.filter (λ id, ch_grpid <$> chats (db (core o)) !! id = Some g) (row_ids (chats (db (core o))))).

Definition view (g : str) (o : Own) : option shown := id ← chat_by g o; shown_at id o.

Lemma elem_of_row_ids {X} (t : gmap N X) id : id ∈ row_ids t ↔ is_Some (t !! id).
Proof. unfold row_ids. by rewrite merge_sort_Permutation, elem_of_elements, elem_of_dom. Qed.

Lemma chat_by_Some g o id : chat_by g o = Some id → ∃ st ty, key_at id o = Some (g, st, ty).
Proof.
  unfold chat_by. intros H%head_Some_elem_of. apply list_elem_of_filter in H as [H _]. unfold key_at.
  destruct (chats (db (core o)) !! id) as [r|]; [|done]. injection H as <-. eauto.
Qed.

Lemma chat_by_key g o id st ty :
  groups_wf o → g ≠ [] → key_at id o = Some (g, st, ty) → chat_by g o = Some id.
Proof.
  intros Hwf Hg Hk. destruct (chat_by g o) as [id'|] eqn:E.
  - destruct (chat_by_Some _ _ _ E) as (st' & ty' & Hk'). f_equal.
    destruct (Hwf _ _ _ _ Hk Hg) as (_ & _ & _ & Hu). by apply Hu in Hk'.
  - exfalso. unfold chat_by in E. apply head_None in E. unfold key_at in Hk.
    destruct (chats (db (core o)) !! id) as [r|] eqn:Er; [|done]. injection Hk as <- <- <-.
    apply (not_elem_of_nil id). rewrite <-E. apply list_elem_of_filter. rewrite Er. split; [done|].
    apply elem_of_row_ids. by rewrite Er.
Qed.

(** ** What an action does *)

Definition with_blocked (b : Blocked.Blocked) (v : shown) : shown :=
  {| v_type := v_type v; v_name := v_name v; v_promoted := v_promoted v; v_self := v_self v;
     v_visibility := v_visibility v; v_muted := v_muted v; v_blocked := b; v_description := v_description v |}.

Definition with_visibility (x : ChatVisibility) (v : shown) : shown :=
  {| v_type := v_type v; v_name := v_name v; v_promoted := v_promoted v; v_self := v_self v;
     v_visibility := x; v_muted := v_muted v; v_blocked := v_blocked v; v_description := v_description v |}.

Definition with_muted (n : Z) (v : shown) : shown :=
  {| v_type := v_type v; v_name := v_name v; v_promoted := v_promoted v; v_self := v_self v;
     v_visibility := v_visibility v; v_muted := n; v_blocked := v_blocked v; v_description := v_description v |}.

Definition with_name (n : str) (v : shown) : shown :=
  {| v_type := v_type v; v_name := n; v_promoted := v_promoted v; v_self := v_self v;
     v_visibility := v_visibility v; v_muted := v_muted v; v_blocked := v_blocked v;
     v_description := v_description v |}.

Definition with_description (t : str) (v : shown) : shown :=
  {| v_type := v_type v; v_name := v_name v; v_promoted := v_promoted v; v_self := v_self v;
     v_visibility := v_visibility v; v_muted := v_muted v; v_blocked := v_blocked v; v_description := t |}.

Definition clean_description (t : str) : str := sanitize_bidi_characters (trim t).

(** The abstract effect: the chat afterwards, or [None] if it is deleted. *)
Definition act (a : SyncAction) (v : shown) : option shown :=
  match a with
  | Block => match v_type v with Chattype.Group => None | _ => Some (with_blocked Blocked.Yes v) end
  | Unblock | Accept => Some (with_blocked Blocked.Not v)
  | SetVisibility x => Some (with_visibility x v)
  | SetMuted d => Some (with_muted (default 0%Z (mute_to_sql d)) v)
  | Rename n => Some (with_name (sanitize_single_line n) v)
  | SetDescription t => Some (with_description (clean_description t) v)
  | Delete => None
  | _ => Some v
  end.

(** Whether the action is possible. *)
Definition allowed (a : SyncAction) (v : shown) : bool :=
  match a with
  | Block => negb (bool_decide (v_type v = Chattype.OutBroadcast))
  | SetMuted d => bool_decide (is_Some (mute_to_sql d))
  | Rename n =>
      negb (bool_decide (sanitize_single_line n = []))
      && bool_decide (v_type v ∈ [Chattype.Group; Chattype.Mailinglist; Chattype.OutBroadcast])
      && (bool_decide (v_name v = sanitize_single_line n) || v_self v)
  | SetDescription _ =>
      bool_decide (v_type v ∈ [Chattype.Group; Chattype.OutBroadcast]) && v_self v
  | Unblock | Accept | SetVisibility _ | Delete => true
  | _ => false
  end.

(** Whether the other devices hear of it. *)
Definition changes (a : SyncAction) (v : shown) : bool :=
  match a with
  | Rename n => negb (bool_decide (v_name v = sanitize_single_line n))
  | SetDescription t => negb (bool_decide (v_description v = clean_description t))
  | _ => true
  end.

(** Names and descriptions of groups that are known to others are sent to the members instead. *)
Definition quiet (a : SyncAction) (v : shown) : bool :=
  match a with
  | Rename _ => negb (v_promoted v) || bool_decide (v_type v = Chattype.Mailinglist)
  | SetDescription _ => negb (v_promoted v)
  | _ => true
  end.

(** The action as it is told to the other devices. *)
Definition told (a : SyncAction) : SyncAction :=
  match a with
  | Rename n => Rename (sanitize_single_line n)
  | SetDescription t => SetDescription (clean_description t)
  | a => a
  end.

(** A text that is cleaned once stays as it is. *)
Definition stable (a : SyncAction) : bool :=
  match a with
  | Rename n => bool_decide (sanitize_single_line (sanitize_single_line n) = sanitize_single_line n)
  | SetDescription t => bool_decide (clean_description (clean_description t) = clean_description t)
  | _ => true
  end.

(** ** Effects on the tables *)

Record effect (f : shown -> option shown) (id : ChatId) (o o' : Own) : Prop := {
  ef_at : shown_at id o' = shown_at id o ≫= f;
  ef_other : ∀ i, i ≠ id → shown_at i o' = shown_at i o;
  ef_key : ∀ i, is_Some (shown_at i o') → key_at i o' = key_at i o
}.

Lemma shown_key i o : is_Some (shown_at i o) ↔ is_Some (key_at i o).
Proof. unfold shown_at, key_at. by destruct (chats (db (core o)) !! i); split; intros [? ?]. Qed.

Lemma effect_key f id o o' i k : effect f id o o' → key_at i o' = Some k → key_at i o = Some k.
Proof.
  intros Hef Hk. rewrite <-(ef_key _ _ _ _ Hef i); [done|]. apply shown_key. by rewrite Hk.
Qed.

Lemma effect_wf f id o o' : effect f id o o' → groups_wf o → groups_wf o'.
Proof.
  intros Hef Hwf i g st ty Hk Hg. destruct (Hwf i g st ty (effect_key _ _ _ _ _ _ Hef Hk) Hg) as (H1 & H2 & H3 & H4).
  split_and!; try done. intros i' st' ty' Hk'. eapply H4. by apply (effect_key _ _ _ _ _ _ Hef).
Qed.

Lemma effect_view f id o o' g st ty :
  groups_wf o → key_at id o = Some (g, st, ty) → g ≠ [] → effect f id o o' →
  view g o' = view g o ≫= f ∧ ∀ g', g' ≠ [] → g' ≠ g → view g' o' = view g' o.
Proof.
  intros Hwf Hk Hg Hef. pose proof (effect_wf _ _ _ _ Hef Hwf) as Hwf'. unfold view. split.
  - rewrite (chat_by_key g o id st ty) by done. simpl.
    destruct (shown_at id o') as [v|] eqn:Ev.
    + rewrite (chat_by_key g o' id st ty); [|done|done|].
      * simpl. by rewrite <-(ef_at _ _ _ _ Hef).
      * rewrite (ef_key _ _ _ _ Hef); [done|by rewrite Ev].
    + rewrite <-(ef_at _ _ _ _ Hef), Ev. destruct (chat_by g o') as [i|] eqn:Ei; [|done].
      destruct (chat_by_Some _ _ _ Ei) as (st' & ty' & Hk'). pose proof (effect_key _ _ _ _ _ _ Hef Hk') as Hk''.
      destruct (Hwf _ _ _ _ Hk Hg) as (_ & _ & _ & Hu). apply Hu in Hk'' as ->. simpl. done.
  - intros g' Hg' Hne. destruct (chat_by g' o) as [i|] eqn:Ei.
    + destruct (chat_by_Some _ _ _ Ei) as (st' & ty' & Hk'). assert (i ≠ id) as Hi by (intros ->; congruence).
      assert (is_Some (shown_at i o')) as Hs by (rewrite (ef_other _ _ _ _ Hef) by done; apply shown_key; by rewrite Hk').
      rewrite (chat_by_key g' o' i st' ty') by (try done; by rewrite (ef_key _ _ _ _ Hef)). simpl.
      by rewrite (ef_other _ _ _ _ Hef).
    + destruct (chat_by g' o') as [i|] eqn:Ei'; [|done]. destruct (chat_by_Some _ _ _ Ei') as (st' & ty' & Hk').
      apply (effect_key _ _ _ _ _ _ Hef) in Hk'. by rewrite (chat_by_key g' o i st' ty') in Ei.
Qed.

(** ** Steps that do not touch what is shown *)

Section Steps.
Context {PF : Platform} {OS : Outside} {JS : Json SyncItem} {SD : Sending} {JE : Json EnteredLoginParam}
  {JC : Json ConfiguredLoginParamJson} {IN : Intake}.

(** The tables that are shown. *)
Definition tables (o : Own) :=
  (chats (db (core o)), members (db (core o)), chats_descriptions (db (core o)), chat_blocked (core o),
   visibility o, muted_until o).

Lemma tables_shown o o' : tables o' = tables o → ∀ i, shown_at i o' = shown_at i o ∧ key_at i o' = key_at i o.
Proof.
  unfold tables. intros [= E1 E2 E3 E4 E5 E6] i. unfold shown_at, key_at, visibility_of.
  by rewrite E1, E2, E3, E4, E5, E6.
Qed.

(** How the account changes: the items that are queued. *)
Record account_step (a a' : Account) (new : list (N * str)) : Prop := {
  as_coherent : coherent a → coherent a';
  as_sends : sends_sync_msgs (config a') = sends_sync_msgs (config a);
  as_queue : multi_device_sync a' = multi_device_sync a ++ new
}.

Lemma account_step_refl a : account_step a a [].
Proof. split; [done..|by rewrite app_nil_r]. Qed.

Lemma account_step_trans a a1 a2 new new' :
  account_step a a1 new → account_step a1 a2 new' → account_step a a2 (new ++ new').
Proof.
  intros [H1 H2 H3] [K1 K2 K3]. split; [auto|congruence|]. by rewrite K3, H3, (assoc_L (++)).
Qed.

(** An operation leaves the tables and the account alone. *)
Definition same (o o' : Own) : Prop := tables o' = tables o ∧ account (core o') = account (core o).

Lemma same_refl o : same o o.
Proof. done. Qed.

Lemma same_trans o o1 o2 : same o o1 → same o1 o2 → same o o2.
Proof. unfold same. intros [-> ->] [-> ->]. done. Qed.

Lemma tables_chats o o' : tables o' = tables o → chats (db (core o')) = chats (db (core o)).
Proof. by intros [=]. Qed.

Lemma same_emit o0 e : preserves (same o0) (emit e).
Proof. intros o Ho. exact Ho. Qed.
Hint Resolve same_emit : preserves.

Lemma same_scaleup o0 ids origin : preserves (same o0) (on_core (in_db (scaleup_origin ids origin))).
Proof. intros o Ho. exact Ho. Qed.
Hint Resolve same_scaleup : preserves.

Lemma preserves_total {St Er X} (P : St -> Prop) (x : SE St Er X) s :
  preserves P x → P s → P (x s).2.
Proof. intros H Hs. by apply H. Qed.

(** An item about a group is queued. *)
Definition item_for (now : Z) (g : str) (a : SyncAction) : str :=
  to_json {| si_timestamp := now; si_data := Known (AlterChat (Grpid g) a) |}.

Lemma add_item_run now d a :
  coherent a → sends_sync_msgs (config a) = true →
  ∃ n a', add_sync_item now d a = (Ok tt, a')
    ∧ account_step a a' [(n, to_json {| si_timestamp := now; si_data := Known d |})].
Proof.
  intros Hc Hs. destruct (add_sync_item_spec now d a Hc Hs) as (n & a' & E & Hc' & Hcfg & _ & Hq).
  exists n, a'. split; [done|]. split; [done|by rewrite Hcfg|done].
Qed.

Lemma try_sync_run now chat act o :
  coherent (account (core o)) → sends_sync_msgs (config (account (core o))) = true →
  chat_typ chat ≠ Chattype.Single → chat_grpid chat ≠ [] →
  ∃ n o', try_sync now chat act o = (Ok tt, o') ∧ tables o' = tables o
    ∧ account_step (account (core o)) (account (core o')) [(n, item_for now (chat_grpid chat) act)].
Proof.
  intros Hc Hs Ht Hg. destruct (add_item_run now (AlterChat (Grpid (chat_grpid chat)) act) _ Hc Hs) as (n & a' & E & Ha).
  exists n, (upd_core (λ _, upd_account (λ _, a') (core o)) o).
  split; [|split; [done|exact Ha]].
  unfold try_sync, sync_chat, get_sync_id.
  assert (∀ X (x y : C X), match chat_typ chat with Chattype.Single => x | _ => y end = y) as Hm
    by (intros; by destruct (chat_typ chat)).
  rewrite Hm, bool_decide_eq_false_2 by done. cbn [negb].
  unfold ignore_err, on_core, in_account, bind, ret. by rewrite E.
Qed.

Lemma sync_run now g act o :
  coherent (account (core o)) → sends_sync_msgs (config (account (core o))) = true →
  ∃ n o', sync now (Grpid g) act o = (Ok tt, o') ∧ tables o' = tables o
    ∧ account_step (account (core o)) (account (core o')) [(n, item_for now g act)].
Proof.
  intros Hc Hs. destruct (add_item_run now (AlterChat (Grpid g) act) _ Hc Hs) as (n & a' & E & Ha).
  exists n, (upd_core (λ _, upd_account (λ _, a') (core o)) o). split; [|split; [done|exact Ha]].
  unfold sync, ignore_err, on_core, in_account, bind, ret. by rewrite E.
Qed.

(** The setting that makes housekeeping run. *)
Lemma housekeeping_run now a :
  ∃ a', set_config_internal now Config.LastHousekeeping None a = (Ok tt, a') ∧ account_step a a' [].
Proof.
  eexists. split; [reflexivity|]. simpl. split; simpl.
  - intros Ha. apply (set_raw_config_coherent None (key_name Config.LastHousekeeping) None a Ha).
  - unfold sends_sync_msgs, flag, setting. by rewrite !lookup_partial_alter_ne by (intros E%key_name_inj; done).
  - by rewrite app_nil_r.
Qed.

(** ** The operations implement the abstract effect *)

Lemma run_bind {St Er X Y} (x : SE St Er X) (f : X -> SE St Er Y) s v s1 : x s = (Ok v, s1) → bind x f s = f v s1.
Proof. unfold bind. by intros ->. Qed.

Definition chat_of (id : ChatId) (r : chat_row) : Chat :=
  {| chat_id := id; chat_typ := ch_type r; chat_name := ch_name r; chat_grpid := ch_grpid r;
     chat_param := load_params (ch_param r) |}.

Lemma upd_core_same o : ChatActions.upd_core (λ _, core o) o = o.
Proof. by destruct o. Qed.

Lemma upd_db_same s : upd_db (λ _, db s) s = s.
Proof. by destruct s. Qed.

Lemma load_run id r o : chats (db (core o)) !! id = Some r → load_chat id o = (Ok (chat_of id r), o).
Proof.
  intros E. unfold load_chat, on_core, in_db, load_from_db. by rewrite E, upd_db_same, upd_core_same.
Qed.

Lemma ensure_true_run b e o : b = true → ensure_that b e o = (Ok tt, o).
Proof. intros ->. unfold ensure_that, on_core, ensure_or, ret. by rewrite upd_core_same. Qed.

Lemma ensure_fails b e o : b = false → ensure_that b e o = (Err e, o).
Proof. intros ->. unfold ensure_that, on_core, ensure_or, fail. by rewrite upd_core_same. Qed.

(** The items that are queued: one, or none. *)
Definition queues (b : bool) (item : str) (o o' : Own) : Prop :=
  ∃ n, account_step (account (core o)) (account (core o')) (if b then [(n, item)] else []).

Definition can_sync (sync : bool) (o : Own) : Prop :=
  sync = true → coherent (account (core o)) ∧ sends_sync_msgs (config (account (core o))) = true.

Lemma queues_none item o o' : account (core o') = account (core o) → queues false item o o'.
Proof. intros E. exists 0%N. rewrite E. apply account_step_refl. Qed.

Lemma same_can_sync b o o' : account (core o') = account (core o) → can_sync b o → can_sync b o'.
Proof. unfold can_sync. by intros ->. Qed.

(** The end of the operations: the chat is loaded and the action sent. *)
Lemma sync_chat_run now sync chat a o :
  can_sync sync o → chat_typ chat ≠ Chattype.Single → chat_grpid chat ≠ [] →
  ∃ o', when sync (try_sync now chat a) o = (Ok tt, o') ∧ tables o' = tables o
    ∧ queues sync (item_for now (chat_grpid chat) a) o o'.
Proof.
  intros Hs Ht Hg. destruct sync; simpl.
  - destruct (Hs eq_refl) as [Hc Hs'].
    destruct (try_sync_run now chat a o Hc Hs' Ht Hg) as (n & o' & E & H1 & H2). exists o'. by split_and!; [..|exists n].
  - exists o. split_and!; [done|done|]. by apply queues_none.
Qed.

Lemma load_sync_run now sync id r a o :
  can_sync sync o → chats (db (core o)) !! id = Some r → ch_type r ≠ Chattype.Single → ch_grpid r ≠ [] →
  ∃ o', when sync (chat <- load_chat id ;; try_sync now chat a) o = (Ok tt, o') ∧ tables o' = tables o
    ∧ queues sync (item_for now (ch_grpid r) a) o o'.
Proof.
  intros Hs Hr Ht Hg. destruct (sync_chat_run now sync (chat_of id r) a o Hs Ht Hg) as (o' & E & H).
  exists o'. split; [|done]. destruct sync; [|done]. simpl in *. by rewrite (run_bind _ _ _ _ _ (load_run id r o Hr)).
Qed.

(** The hypotheses on the chat an action is about. *)
Record about (id : ChatId) (g : str) (v : shown) (o : Own) (r : chat_row) : Prop := {
  ab_row : chats (db (core o)) !! id = Some r;
  ab_grpid : ch_grpid r = g;
  ab_group : g ≠ [];
  ab_shown : shown_at id o = Some v;
  ab_special : chat_is_special id = false;
  ab_single : ch_type r ≠ Chattype.Single;
  ab_selftalk : Params_exists (load_params (ch_param r)) Param.Selftalk = false;
  ab_type : v_type v = ch_type r;
  ab_name : v_name v = ch_name r;
  ab_promoted : is_promoted (chat_of id r) = v_promoted v;
  ab_self : row_self (members (db (core o))) id r = v_self v
}.

Lemma about_intro id g st ty v o :
  groups_wf o → key_at id o = Some (g, st, ty) → g ≠ [] → shown_at id o = Some v → ∃ r, about id g v o r.
Proof.
  intros Hwf Hk Hg Hv. destruct (Hwf _ _ _ _ Hk Hg) as (H1 & H2 & H3 & _).
  pose proof Hv as Hv'. unfold key_at, shown_at in *.
  destruct (chats (db (core o)) !! id) as [r|] eqn:E; [|done]. injection Hk as <- <- <-. injection Hv as <-.
  exists r. split; try done. unfold shown_at. by rewrite E.
Qed.

(** What holds when an action was done. *)
Definition done_with (now : Z) (sync : bool) (a : SyncAction) (id : ChatId) (g : str) (v : shown) (o o' : Own) : Prop :=
  effect (act a) id o o' ∧ queues (sync && changes a v) (item_for now g (told a)) o o'.

Lemma effect_then f id o o1 o2 : effect f id o o1 → tables o2 = tables o1 → effect f id o o2.
Proof.
  intros [H1 H2 H3] E. pose proof (tables_shown o1 o2 E) as Ht. split.
  - by rewrite (proj1 (Ht id)).
  - intros i Hi. rewrite (proj1 (Ht i)). by apply H2.
  - intros i Hi. rewrite (proj2 (Ht i)). apply H3. by rewrite <-(proj1 (Ht i)).
Qed.

Lemma queues_after b item o o1 o2 :
  account (core o1) = account (core o) → queues b item o1 o2 → queues b item o o2.
Proof. unfold queues. by intros ->. Qed.

Lemma muted_spec now sync id g v o r d :
  about id g v o r → can_sync sync o → allowed (SetMuted d) v = true →
  ∃ o', set_muted_ex now sync id d o = (Ok tt, o') ∧ done_with now sync (SetMuted d) id g v o o'.
Proof.
  intros Hab Hs Ha. apply bool_decide_eq_true in Ha as [n Hn]. pose proof Hab as [H1 <- H3 H4 H5 H6 H7 H8 H9 H10 H11].
  unfold set_muted_ex. rewrite (run_bind _ _ _ _ _ (ensure_true_run _ _ _ (f_equal negb H5))), Hn.
  rewrite (run_bind _ _ o n o) by done.
  set (o1 := upd_muted_until (<[id := n]>) o).
  rewrite (run_bind _ _ o tt o1) by (unfold set_column, modify; by rewrite bool_decide_eq_true_2 by (by rewrite H1)).
  set (o3 := (emit (ChatlistItemChanged id) (emit (ChatModified id) o1).2).2).
  rewrite (run_bind _ _ o1 tt (emit (ChatModified id) o1).2), (run_bind _ _ _ tt o3) by done.
  destruct (load_sync_run now sync id r (SetMuted d) o3) as (o' & E & Ht & Hq); [done..|].
  exists o'. split; [done|]. split.
  - eapply effect_then; [|exact Ht]. split; simpl.
    + rewrite H4. simpl. unfold shown_at in *. simpl. rewrite H1 in *. injection H4 as <-. simpl.
      unfold with_muted. simpl. rewrite lookup_insert_eq, Hn. done.
    + intros i Hi. unfold shown_at. simpl. destruct (chats (db (core o)) !! i); [|done]. simpl.
      by rewrite lookup_insert_ne by done.
    + done.
  - simpl. rewrite andb_true_r. by apply (queues_after _ _ o o3).
Qed.

Lemma emit_run e o : emit e o = (Ok tt, (emit e o).2).
Proof. done. Qed.

Lemma set_column_run {V} (upd : (gmap N V -> gmap N V) -> Own -> Own) id (x : V) o r :
  chats (db (core o)) !! id = Some r → set_column upd id x o = (Ok tt, upd (<[id := x]>) o).
Proof. intros E. unfold set_column, modify. by rewrite bool_decide_eq_true_2 by (by rewrite E). Qed.

Lemma visibility_effect id x o :
  effect (λ v, Some (with_visibility x v)) id o (upd_visibility (<[id := x]>) o).
Proof.
  split; simpl; [|intros i Hi|done]; unfold shown_at, visibility_of; simpl.
  - destruct (chats (db (core o)) !! id); [|done]. simpl. unfold with_visibility. simpl. by rewrite lookup_insert_eq.
  - destruct (chats (db (core o)) !! i); [|done]. simpl. by rewrite lookup_insert_ne by done.
Qed.

Lemma visibility_spec now sync id g v o r x :
  about id g v o r → can_sync sync o →
  ∃ o', set_visibility_ex now sync id x o = (Ok tt, o') ∧ done_with now sync (SetVisibility x) id g v o o'.
Proof.
  intros Hab Hs. pose proof Hab as [H1 <- H3 H4 H5 H6 H7 H8 H9 H10 H11]. unfold set_visibility_ex, emit_msgs_changed.
  rewrite (run_bind _ _ _ _ _ (ensure_true_run _ _ _ (f_equal negb H5))). cbv zeta.
  set (b := bool_decide (x = ChatVisibility.Archived)).
  assert (∀ f o, (when b (modify (ChatActions.upd_core (upd_msgs f))) : O unit) o
            = (Ok tt, if b then ChatActions.upd_core (upd_msgs f) o else o)) as Hw by (by destruct b).
  rewrite (run_bind _ _ _ _ _ (Hw _ _)).
  set (o1 := if b then _ else o). assert (same o o1) as Hs1 by (unfold o1; by destruct b).
  assert (chats (db (core o1)) !! id = Some r) as Hr1 by (by rewrite (tables_chats _ _ (proj1 Hs1))).
  rewrite (run_bind _ _ _ _ _ (set_column_run _ _ _ _ _ Hr1)). rewrite (run_bind _ _ _ _ _ (Hw _ _)).
  set (o2 := upd_visibility _ o1). set (o3 := if b then _ else o2).
  assert (same o2 o3) as Hs3 by (unfold o3; by destruct b).
  rewrite (run_bind _ _ _ _ _ (emit_run _ _)), (run_bind _ _ _ _ _ (emit_run _ _)), (run_bind _ _ _ _ _ (emit_run _ _)).
  set (o6 := (emit _ _).2). assert (same o3 o6) as Hs6 by done.
  assert (same o2 o6) as Hs26 by (eapply same_trans; [exact Hs3|exact Hs6]).
  destruct (load_sync_run now sync id r (SetVisibility x) o6) as (o' & E & Ht & Hq); [|by rewrite (tables_chats _ _ (proj1 Hs26))|done..|].
  { eapply same_can_sync; [|exact Hs]. rewrite (proj2 Hs26). apply Hs1. }
  exists o'. split; [done|]. split.
  - eapply effect_then; [|rewrite Ht; apply Hs26].
    destruct (visibility_effect id x o1) as [V1 V2 V3]. pose proof (tables_shown o o1 (proj1 Hs1)) as Hsh. split.
    + fold o2 in V1. rewrite V1. by rewrite (proj1 (Hsh id)).
    + intros i Hi. fold o2 in V2. rewrite V2 by done. apply Hsh.
    + intros i Hi. fold o2 in V3. rewrite V3 by done. apply Hsh.
  - simpl. rewrite andb_true_r. apply (queues_after _ _ o o6); [|done]. rewrite (proj2 Hs26). apply Hs1.
Qed.

(** Blocking a chat. *)
Lemma blocked_effect id b o o' :
  same o o' ∧ default Blocked.Not (chat_blocked (core o) !! id) = b
  ∨ o' = ChatActions.upd_core (upd_chat_blocked (<[id := b]>)) o →
  effect (λ v, Some (with_blocked b v)) id o o'.
Proof.
  intros [[Hs <-]| ->].
  - pose proof (tables_shown o o' (proj1 Hs)) as Ht. split; [|intros i _; apply Ht|intros i _; apply Ht].
    rewrite (proj1 (Ht id)). unfold shown_at. destruct (chats (db (core o)) !! id); done.
  - split; simpl; [|intros i Hi|done]; unfold shown_at; simpl.
    + destruct (chats (db (core o)) !! id); [|done]. simpl. unfold with_blocked. simpl. by rewrite lookup_insert_eq.
    + destruct (chats (db (core o)) !! i); [|done]. simpl. by rewrite lookup_insert_ne by done.
Qed.

Lemma set_blocked_run id b o r :
  chats (db (core o)) !! id = Some r → chat_is_special id = false →
  ∃ c o', on_core (set_chat_blocked id b) o = (Ok c, o')
    ∧ effect (λ v, Some (with_blocked b v)) id o o' ∧ account (core o') = account (core o)
    ∧ chats (db (core o')) = chats (db (core o)).
Proof.
  intros Hr Hsp. unfold on_core, set_chat_blocked. rewrite Hsp. unfold bind, gets, when, modify, ret.
  rewrite Hr, bool_decide_eq_true_2 by done. cbn [andb].
  destruct (negb _) eqn:E.
  - eexists _, _. split; [done|]. split; [|done]. apply blocked_effect. by right.
  - apply negb_false_iff, bool_decide_eq_true in E. eexists _, _. split; [done|]. split; [|done].
    apply blocked_effect. left. rewrite upd_core_same. done.
Qed.

Lemma unblock_spec now sync id g v o r :
  about id g v o r → can_sync sync o →
  ∃ o', on_core (unblock_ex now sync id) o = (Ok tt, o') ∧ done_with now sync Unblock id g v o o'.
Proof.
  intros Hab Hs. pose proof Hab as [H1 <- H3 H4 H5 H6 H7 H8 H9 H10 H11].
  destruct (set_blocked_run id Blocked.Not o r H1 H5) as (c & o1 & E & He & Ha & Hc).
  set (o2 := (emit ChatlistChanged o1).2).
  destruct (load_sync_run now sync id r Unblock o2) as (o' & E' & Ht & Hq); [by apply (same_can_sync _ o)|by rewrite <-H1, <-Hc|done..|].
  exists o'. split.
  - revert E E'. unfold on_core, unblock_ex. intros E E'. unfold bind at 1.
    destruct (set_chat_blocked id Blocked.Not (core o)) as [[c'|e] s] eqn:Es; [|done]. injection E as _ <-.
    rewrite (run_bind _ _ s tt (core o2)) by done. unfold when in *. destruct sync.
    + unfold load_chat, try_sync in E'. revert E'. unfold bind, on_core, ignore_err, ret.
      change (core o2) with (upd_db (add_event ChatlistChanged) s).
      destruct (in_db (load_from_db id) _) as [[ch|e] s2]; simpl; [|done].
      destruct (sync_chat now ch Unblock s2) as [[[]|e] s3]; simpl; intros [= <-]; done.
    + unfold ret in *. injection E' as <-. done.
  - split; [by eapply effect_then|]. simpl. rewrite andb_true_r. by apply (queues_after _ _ o o2).
Qed.

Lemma accept_members_same o0 ids origin :
  preserves (same o0) (for_each ids (λ c, when (negb (c =? SELF)%N) (on_core (in_db (scaleup_origin [c] origin))))).
Proof. apply preserves_for_each. intros c _. preserves_tac. Qed.

Lemma accept_members_run ids origin o :
  ∃ o', for_each ids (λ c, when (negb (c =? SELF)%N) (on_core (in_db (scaleup_origin [c] origin)))) o = (Ok tt, o').
Proof.
  revert o. induction ids as [|c ids IH]; intros o; simpl; [by exists o|].
  unfold bind. destruct (negb _); simpl; apply IH.
Qed.

Lemma accept_loop_run typ id o :
  ∃ o', (match typ with
         | Chattype.Group =>
             ids <- on_core (in_db (chat_contacts id)) ;;
             for_each ids (λ c, when (negb (c =? SELF)%N) (on_core (in_db (scaleup_origin [c] Origin.IncomingTo))))
         | Chattype.Mailinglist => ret tt
         | _ =>
             ids <- on_core (in_db (chat_contacts id)) ;;
             for_each ids (λ c, when (negb (c =? SELF)%N) (on_core (in_db (scaleup_origin [c] Origin.CreateChat))))
         end : O unit) o = (Ok tt, o') ∧ same o o'.
Proof.
  assert (∀ origin, ∃ o', (ids <- on_core (in_db (chat_contacts id)) ;;
      for_each ids (λ c, when (negb (c =? SELF)%N) (on_core (in_db (scaleup_origin [c] origin)))) : O unit) o
      = (Ok tt, o') ∧ same o o') as Hl.
  { intros origin. set (ids := get_chat_contacts (members (db (core o))) (last_seen_of (db (core o))) id).
    rewrite (run_bind _ _ o ids o)
      by (unfold on_core, in_db, chat_contacts, gets; by rewrite upd_db_same, upd_core_same).
    destruct (accept_members_run ids origin o) as [o' E]. exists o'. split; [done|].
    apply (preserves_run _ _ _ _ _ (accept_members_same o ids origin) E). apply same_refl. }
  destruct typ; try apply Hl. by exists o.
Qed.

Lemma accept_spec now sync id g v o r :
  about id g v o r → can_sync sync o →
  ∃ o', accept_ex now sync id o = (Ok tt, o') ∧ done_with now sync Accept id g v o o'.
Proof.
  intros Hab Hs. pose proof Hab as [H1 <- H3 H4 H5 H6 H7 H8 H9 H10 H11]. unfold accept_ex.
  rewrite (run_bind _ _ _ _ _ (load_run _ _ _ H1)).
  destruct (accept_loop_run (chat_typ (chat_of id r)) id o) as (o1 & E1 & Hs1). rewrite (run_bind _ _ _ _ _ E1).
  assert (chats (db (core o1)) !! id = Some r) as Hr1 by (by rewrite (tables_chats _ _ (proj1 Hs1))).
  destruct (set_blocked_run id Blocked.Not o1 r Hr1 H5) as (c & o2 & E2 & He & Ha & Hc). rewrite (run_bind _ _ _ _ _ E2).
  assert (∃ o3, when c (emit (ChatModified id) ;;; emit (ChatlistItemChanged id)) o2 = (Ok tt, o3) ∧ same o2 o3)
    as (o3 & E3 & Hs3) by (by destruct c; eexists; split).
  rewrite (run_bind _ _ _ _ _ E3).
  assert (account (core o3) = account (core o)) as Hacc by (by rewrite (proj2 Hs3), Ha, (proj2 Hs1)).
  destruct (sync_chat_run now sync (chat_of id r) Accept o3) as (o' & E & Ht & Hq); [by apply (same_can_sync _ o)|done..|].
  exists o'. split; [done|]. split.
  - eapply effect_then; [|rewrite Ht; apply Hs3]. pose proof (tables_shown o o1 (proj1 Hs1)) as Hsh.
    destruct He as [V1 V2 V3]. split.
    + rewrite V1. by rewrite (proj1 (Hsh id)).
    + intros i Hi. rewrite V2 by done. apply Hsh.
    + intros i Hi. rewrite V3 by done. apply Hsh.
  - simpl. rewrite andb_true_r. by apply (queues_after _ _ o o3).
Qed.

(** Deleting a chat. *)
Lemma delete_effect id o : effect (λ _, None) id o (delete_rows id o).
Proof.
  split.
  - unfold shown_at. simpl. rewrite lookup_delete_eq. simpl. by destruct (chats _ !! id).
  - intros i Hi. unfold shown_at. simpl. rewrite lookup_delete_ne by done.
    destruct (chats (db (core o)) !! i) as [r|]; [|done]. simpl. unfold visibility_of. simpl. do 2 f_equal.
    unfold row_self, Membership.is_contact_in_chat. destruct (ch_type r); try done.
    all: assert (filter (λ kr : N * N * member_row, kr.1.1 ≠ id) (members (db (core o))) !! (i, SELF)
                 = members (db (core o)) !! (i, SELF)) as -> by
      (rewrite map_lookup_filter; destruct (members (db (core o)) !! (i, SELF)); [|done]; simpl;
       by rewrite option_guard_True).
    all: done.
  - intros i. unfold shown_at, key_at. simpl. intros [x Hx]. destruct (decide (i = id)) as [->|Hi].
    + by rewrite lookup_delete_eq in Hx.
    + by rewrite lookup_delete_ne.
Qed.

Lemma sync_id_run chat o :
  chat_typ chat ≠ Chattype.Single → chat_grpid chat ≠ [] →
  on_core (get_sync_id chat) o = (Ok (Some (Grpid (chat_grpid chat))), o).
Proof.
  intros Ht Hg. unfold on_core, get_sync_id.
  assert (∀ X (x y : C X), match chat_typ chat with Chattype.Single => x | _ => y end = y) as Hm
    by (intros; by destruct (chat_typ chat)).
  rewrite Hm, bool_decide_eq_false_2 by done. cbn [negb]. unfold ret. by rewrite upd_core_same.
Qed.

Lemma delete_run now sync id o r :
  chats (db (core o)) !! id = Some r → chat_is_special id = false → ch_type r ≠ Chattype.Single →
  ch_grpid r ≠ [] → Params_exists (load_params (ch_param r)) Param.Selftalk = false → can_sync sync o →
  ∃ o', delete_ex now sync id o = (Ok tt, o') ∧ effect (λ _, None) id o o'
    ∧ queues sync (item_for now (ch_grpid r) Delete) o o'.
Proof.
  intros H1 H5 H6 H3 H7 Hs. unfold delete_ex, emit_msgs_changed.
  rewrite (run_bind _ _ _ _ _ (ensure_true_run _ _ _ (f_equal negb H5))), (run_bind _ _ _ _ _ (load_run _ _ _ H1)).
  rewrite (run_bind _ _ o (if sync then Some (Grpid (ch_grpid r)) else None) o)
    by (destruct sync; [by rewrite sync_id_run|done]).
  rewrite (run_bind _ _ o tt (delete_rows id o)) by done.
  rewrite (run_bind _ _ _ _ _ (emit_run _ _)), (run_bind _ _ _ _ _ (emit_run _ _)).
  set (o2 := (emit _ _).2). assert (same (delete_rows id o) o2) as Hs2 by done.
  assert (account (core o2) = account (core o)) as Ha2 by done.
  assert (∃ o3, (match (if sync then Some (Grpid (ch_grpid r)) else None) with
                 | Some sid => ChatActions.sync now sid Delete | None => ret tt end) o2 = (Ok tt, o3)
          ∧ tables o3 = tables o2 ∧ queues sync (item_for now (ch_grpid r) Delete) o2 o3) as (o3 & E3 & Ht3 & Hq3).
  { destruct sync.
    - destruct (Hs eq_refl) as [Hc Hs']. rewrite <-Ha2 in Hc, Hs'.
      destruct (sync_run now (ch_grpid r) Delete o2 Hc Hs') as (n & o3 & E & Ht & Hq). exists o3. by split_and!; [..|exists n].
    - exists o2. split_and!; [done|done|by apply queues_none]. }
  rewrite (run_bind _ _ _ _ _ E3).
  assert (is_self_talk (chat_of id r) = false) as -> by exact H7.
  rewrite (run_bind _ _ o3 tt o3), (run_bind _ _ _ _ _ (emit_run _ _)) by done.
  set (o4 := (emit _ _).2). destruct (housekeeping_run now (account (core o4))) as (a' & Eh & Hh).
  unfold on_core, in_account. rewrite Eh. eexists. split; [reflexivity|]. split.
  - eapply effect_then; [apply delete_effect|]. transitivity (tables o3); [done|]. by rewrite Ht3.
  - destruct Hq3 as [n Hn]. exists n. simpl. rewrite <-Ha2. pose proof (account_step_trans _ _ _ _ _ Hn Hh) as Hall.
    by rewrite app_nil_r in Hall.
Qed.

Lemma delete_spec now sync id g v o r :
  about id g v o r → can_sync sync o →
  ∃ o', delete_ex now sync id o = (Ok tt, o') ∧ done_with now sync Delete id g v o o'.
Proof.
  intros [H1 <- H3 H4 H5 H6 H7 H8 H9 H10 H11] Hs. destruct (delete_run now sync id o r) as (o' & E & He & Hq); [done..|].
  exists o'. split; [done|]. split; [done|]. simpl. by rewrite andb_true_r.
Qed.

Lemma block_group now sync id o r :
  ch_type r = Chattype.Group → chats (db (core o)) !! id = Some r → chat_is_special id = false → ch_grpid r ≠ [] →
  Params_exists (load_params (ch_param r)) Param.Selftalk = false → can_sync sync o →
  ∃ o', block_ex now sync id o = (Ok tt, o') ∧ effect (λ _, None) id o o'
    ∧ queues sync (item_for now (ch_grpid r) Block) o o'.
Proof.
  intros Ht H1 H5 H3 H7 Hs. unfold block_ex. rewrite (run_bind _ _ _ _ _ (load_run _ _ _ H1)). cbn [chat_of chat_typ].
  rewrite Ht, (run_bind _ _ o tt o), (run_bind _ _ _ _ _ (emit_run _ _)) by done. set (o1 := (emit _ _).2).
  destruct (sync_chat_run now sync (chat_of id r) Block o1) as (o2 & E2 & Ht2 & Hq2); [done|by cbn; rewrite Ht|done|].
  rewrite (run_bind _ _ _ _ _ E2), bool_decide_eq_true_2 by done. cbn [when].
  destruct (delete_run now false id o2 r) as (o' & E & He & Hq); [by rewrite (tables_chats _ _ Ht2)|done|by rewrite Ht|done|done|done|].
  exists o'. split; [done|]. split.
  - pose proof (tables_shown o o2 Ht2) as Hsh. destruct He as [V1 V2 V3]. split.
    + rewrite V1. by rewrite (proj1 (Hsh id)).
    + intros i Hi. rewrite V2 by done. apply Hsh.
    + intros i Hi. rewrite V3 by done. apply Hsh.
  - destruct Hq2 as [n Hn], Hq as [m Hm]. exists n. change (account (core o)) with (account (core o1)).
    pose proof (account_step_trans _ _ _ _ _ Hn Hm) as Hall. by rewrite app_nil_r in Hall.
Qed.

Lemma block_list now sync id o r :
  ch_type r = Chattype.Mailinglist ∨ ch_type r = Chattype.InBroadcast →
  chats (db (core o)) !! id = Some r → chat_is_special id = false → ch_grpid r ≠ [] → can_sync sync o →
  ∃ o', block_ex now sync id o = (Ok tt, o') ∧ effect (λ v, Some (with_blocked Blocked.Yes v)) id o o'
    ∧ queues sync (item_for now (ch_grpid r) Block) o o'.
Proof.
  intros Ht H1 H5 H3 Hs. unfold block_ex. rewrite (run_bind _ _ _ _ _ (load_run _ _ _ H1)).
  destruct (set_blocked_run id Blocked.Yes o r H1 H5) as (c & o1 & E1 & He & Ha & Hc).
  assert (∃ o2, (match chat_typ (chat_of id r) with
     | Chattype.OutBroadcast => fail CannotBlock
     | Chattype.Single =>
         ids <- on_core (in_db (chat_contacts id)) ;;
         for_each ids (λ c, when (negb (c =? SELF)%N) (set_contact_blocked now false c true))
     | Chattype.Group => ret tt
     | Chattype.Mailinglist | Chattype.InBroadcast =>
         changed <- on_core (set_chat_blocked id Blocked.Yes) ;;
         when changed (emit (ChatModified id))
     end : O unit) o = (Ok tt, o2) ∧ same o1 o2) as (o2 & E2 & Hs2).
  { cbn [chat_of chat_typ]. destruct Ht as [-> | ->]; rewrite (run_bind _ _ _ _ _ E1); by destruct c; eexists; split. }
  rewrite (run_bind _ _ _ _ _ E2), (run_bind _ _ _ _ _ (emit_run _ _)). set (o3 := (emit _ _).2).
  assert (account (core o3) = account (core o)) as Hacc by (by rewrite <-Ha, <-(proj2 Hs2)).
  destruct (sync_chat_run now sync (chat_of id r) Block o3) as (o' & E & Hto & Hq);
    [by apply (same_can_sync _ o)|by cbn; destruct Ht as [-> | ->]|done|].
  rewrite (run_bind _ _ _ _ _ E), bool_decide_eq_false_2 by (cbn; destruct Ht as [-> | ->]; done).
  exists o'. split; [done|]. split; [|by apply (queues_after _ _ o o3)].
  eapply effect_then; [exact He|]. rewrite Hto. transitivity (tables o2); [done|apply Hs2].
Qed.

Lemma block_spec now sync id g v o r :
  about id g v o r → can_sync sync o → allowed Block v = true →
  ∃ o', block_ex now sync id o = (Ok tt, o') ∧ done_with now sync Block id g v o o'.
Proof.
  intros [H1 <- H3 H4 H5 H6 H7 H8 H9 H10 H11] Hs Ha. apply negb_true_iff, bool_decide_eq_false in Ha.
  rewrite H8 in Ha. unfold done_with. cbn [changes told]. rewrite andb_true_r.
  assert (∀ o', effect (act Block) id o o' ↔
      effect (match ch_type r with Chattype.Group => λ _, None | _ => λ v, Some (with_blocked Blocked.Yes v) end) id o o') as Heq.
  { intros o'. split; intros [V1 V2 V3]; split; try done; rewrite V1, H4; simpl; rewrite H8; by destruct (ch_type r). }
  destruct (ch_type r) eqn:Et; try done.
  - destruct (block_group now sync id o r) as (o' & E & He & Hq); [done..|]. exists o'. by rewrite Heq.
  - destruct (block_list now sync id o r) as (o' & E & He & Hq); [by auto|done..|]. exists o'. by rewrite Heq.
  - destruct (block_list now sync id o r) as (o' & E & He & Hq); [by auto|done..|]. exists o'. by rewrite Heq.
Qed.

Lemma self_run id r o :
  on_core (in_db (is_self_in_chat (chat_of id r))) o = (Ok (row_self (members (db (core o))) id r), o).
Proof.
  unfold on_core, in_db, is_self_in_chat, row_self, contact_in_chat, gets, ret. cbn [chat_of chat_typ chat_id].
  destruct (ch_type r); by rewrite upd_db_same, upd_core_same.
Qed.

(** No change. *)
Lemma effect_none (f : shown -> option shown) id v o :
  shown_at id o = Some v → f v = Some v → effect f id o o.
Proof. intros E Hf. split; [|done..]. by rewrite E. Qed.

Definition renamed (id : ChatId) (n : str) (o : Own) : Own := (set_name_column id n o).2.

Lemma rename_effect id n o : effect (λ v, Some (with_name n v)) id o (renamed id n o).
Proof.
  split.
  - unfold shown_at, renamed. simpl. rewrite lookup_alter_eq. by destruct (chats (db (core o)) !! id).
  - intros i Hi. unfold shown_at, renamed. simpl. by rewrite lookup_alter_ne.
  - intros i _. unfold key_at, renamed. simpl. destruct (decide (i = id)) as [->|Hi].
    + rewrite lookup_alter_eq. by destruct (chats (db (core o)) !! id).
    + by rewrite lookup_alter_ne.
Qed.

Lemma rename_spec now sync id g v o r n :
  about id g v o r → can_sync sync o → allowed (Rename n) v = true → quiet (Rename n) v = true →
  ∃ o', rename_ex now sync id n o = (Ok tt, o') ∧ done_with now sync (Rename n) id g v o o'.
Proof.
  intros [H1 <- H3 H4 H5 H6 H7 H8 H9 H10 H11] Hs Ha Hq. cbn in Ha. rewrite !andb_true_iff in Ha.
  destruct Ha as [[Hn Hty] Hself]. unfold rename_ex. cbv zeta. set (m := sanitize_single_line n) in *.
  rewrite (run_bind _ _ _ _ _ (ensure_true_run _ _ _ Hn)), (run_bind _ _ _ _ _ (ensure_true_run _ _ _ (f_equal negb H5))).
  rewrite (run_bind _ _ _ _ _ (load_run _ _ _ H1)). cbn [chat_of chat_typ chat_name]. rewrite <-H8, Hty, <-H9. cbn [negb].
  destruct (bool_decide (v_name v = m)) eqn:En.
  { exists o. split; [done|]. apply bool_decide_eq_true in En. split.
    - apply (effect_none _ _ v); [done|]. unfold act. fold m. rewrite <-En. by destruct v.
    - cbn. fold m. rewrite bool_decide_eq_true_2 by done. rewrite andb_false_r. by apply queues_none. }
  cbn [orb] in Hself. rewrite <-H11 in Hself.
  change {| chat_id := id; chat_typ := _; chat_name := _; chat_grpid := _; chat_param := _ |} with (chat_of id r).
  rewrite (run_bind _ _ _ _ _ (self_run id r o)), Hself. cbn [negb].
  rewrite (run_bind _ _ o tt (renamed id m o)) by done.
  assert (is_promoted (chat_of id r) && negb (bool_decide (v_type v = Chattype.Mailinglist))
          && negb (bool_decide (sanitize_single_line (v_name v) = m)) = false) as ->.
  { rewrite H10. cbn in Hq. apply orb_true_iff in Hq as [Hq|Hq].
    - apply negb_true_iff in Hq. by rewrite Hq.
    - rewrite Hq. by destruct (v_promoted v). }
  cbn [when negb]. rewrite (run_bind _ _ (renamed id m o) tt (renamed id m o)) by done.
  rewrite (run_bind _ _ _ _ _ (emit_run _ _)), (run_bind _ _ _ _ _ (emit_run _ _)). set (o3 := (emit _ _).2).
  rewrite andb_true_r.
  destruct (sync_chat_run now sync (chat_of id r) (Rename m) o3) as (o' & E & Ht & Hqu); [done..|].
  exists o'. split; [done|]. split.
  - eapply effect_then; [apply rename_effect|]. by rewrite Ht.
  - cbn. fold m. rewrite En. cbn [negb]. rewrite andb_true_r. by apply (queues_after _ _ o o3).
Qed.

Definition described (id : ChatId) (t : str) (o : Own) : Own :=
  ChatActions.upd_core (upd_db (set_descriptions (<[id := t]>))) o.

Lemma describe_effect id t o : effect (λ v, Some (with_description t v)) id o (described id t o).
Proof.
  split; [| |done].
  - unfold shown_at, described. simpl. rewrite lookup_insert_eq. by destruct (chats (db (core o)) !! id).
  - intros i Hi. unfold shown_at, described. simpl. by rewrite lookup_insert_ne.
Qed.

Lemma describe_spec now sync id g v o r t :
  about id g v o r → can_sync sync o → allowed (SetDescription t) v = true → quiet (SetDescription t) v = true →
  ∃ o', set_chat_description_ex now sync id t o = (Ok tt, o')
    ∧ done_with now sync (SetDescription t) id g v o o'.
Proof.
  intros [H1 <- H3 H4 H5 H6 H7 H8 H9 H10 H11] Hs Ha Hq. cbn in Ha, Hq. rewrite !andb_true_iff in Ha.
  destruct Ha as [Hty Hself]. unfold set_chat_description_ex. cbv zeta. fold (clean_description t).
  set (m := clean_description t). apply negb_true_iff in Hq.
  rewrite (run_bind _ _ _ _ _ (ensure_true_run _ _ _ (f_equal negb H5))), (run_bind _ _ _ _ _ (load_run _ _ _ H1)).
  rewrite H8 in Hty. rewrite (run_bind _ _ _ _ _ (ensure_true_run _ _ _ Hty)).
  assert (negb (bool_decide (chat_grpid (chat_of id r) = [])) = true) as Hg by (by rewrite bool_decide_eq_false_2).
  rewrite (run_bind _ _ _ _ _ (ensure_true_run _ _ _ Hg)).
  rewrite (run_bind _ _ _ _ _ (self_run id r o)), H11, Hself. cbn [negb].
  rewrite (run_bind _ _ o (get_chat_description id (core o)) o) by done.
  assert (get_chat_description id (core o) = v_description v) as ->.
  { unfold shown_at in H4. rewrite H1 in H4. by injection H4 as <-. }
  destruct (bool_decide (v_description v = m)) eqn:En.
  { exists o. split; [done|]. apply bool_decide_eq_true in En. split.
    - apply (effect_none _ _ v); [done|]. cbn. fold m. rewrite <-En. by destruct v.
    - cbn. fold m. rewrite bool_decide_eq_true_2 by done. rewrite andb_false_r. by apply queues_none. }
  rewrite (run_bind _ _ o tt (described id m o)) by done. rewrite H10, Hq. cbn [when negb].
  rewrite (run_bind _ _ (described id m o) tt (described id m o)), (run_bind _ _ _ _ _ (emit_run _ _)) by done.
  set (o3 := (emit _ _).2). rewrite andb_true_r.
  destruct (sync_chat_run now sync (chat_of id r) (SetDescription m) o3) as (o' & E & Ht & Hqu); [done..|].
  exists o'. split; [done|]. split.
  - eapply effect_then; [apply describe_effect|]. by rewrite Ht.
  - cbn. fold m. rewrite En. cbn [negb]. rewrite andb_true_r. by apply (queues_after _ _ o o3).
Qed.

(** ** Actions *)

(** The actions of the user on a chat that exists; [sync] is whether the other devices are told. *)
Definition user_action (a : SyncAction) : bool :=
  match a with
  | Block | Unblock | Accept | SetVisibility _ | SetMuted _ | Rename _ | SetDescription _ | Delete => true
  | _ => false
  end.

Definition do_action (now : Z) (sync : bool) (id : ChatId) (a : SyncAction) : O unit :=
  match a with
  | Block => block_ex now sync id
  | Unblock => on_core (unblock_ex now sync id)
  | Accept => accept_ex now sync id
  | SetVisibility x => set_visibility_ex now sync id x
  | SetMuted d => set_muted_ex now sync id d
  | Rename n => rename_ex now sync id n
  | SetDescription t => set_chat_description_ex now sync id t
  | Delete => delete_ex now sync id
  | _ => fail BadRequest
  end.

Lemma action_done now sync id g v o r a :
  about id g v o r → can_sync sync o → user_action a = true → allowed a v = true → quiet a v = true →
  ∃ o', do_action now sync id a o = (Ok tt, o') ∧ done_with now sync a id g v o o'.
Proof.
  intros Hab Hs Hu Ha Hq. destruct a; try done; cbn [do_action].
  - by eapply block_spec.
  - by eapply unblock_spec.
  - by eapply accept_spec.
  - by eapply visibility_spec.
  - by eapply muted_spec.
  - by eapply rename_spec.
  - by eapply describe_spec.
  - by eapply delete_spec.
Qed.

Lemma action_refused now sync id g v o r a :
  about id g v o r → user_action a = true → allowed a v = false →
  ∃ e o', do_action now sync id a o = (Err e, o') ∧ same o o'.
Proof.
  intros [H1 <- H3 H4 H5 H6 H7 H8 H9 H10 H11] Hu Ha. destruct a; try done; cbn [do_action]; cbn in Ha.
  - apply negb_false_iff, bool_decide_eq_true in Ha. unfold block_ex.
    rewrite (run_bind _ _ _ _ _ (load_run _ _ _ H1)). cbn [chat_of chat_typ]. rewrite <-H8, Ha. by eexists _, _.
  - apply bool_decide_eq_false, eq_None_not_Some in Ha. unfold set_muted_ex.
    rewrite (run_bind _ _ _ _ _ (ensure_true_run _ _ _ (f_equal negb H5))), Ha. by eexists _, _.
  - unfold rename_ex. cbv zeta. set (m := sanitize_single_line name) in *. destruct (bool_decide (m = [])) eqn:En.
    { unfold bind at 1. rewrite ensure_fails by done. by eexists _, _. }
    cbn [negb andb] in Ha. rewrite (run_bind _ _ _ _ _ (ensure_true_run _ _ _ eq_refl)).
    rewrite (run_bind _ _ _ _ _ (ensure_true_run _ _ _ (f_equal negb H5))), (run_bind _ _ _ _ _ (load_run _ _ _ H1)).
    cbn [chat_of chat_typ chat_name]. rewrite <-H8, <-H9.
    destruct (bool_decide (v_type v ∈ _)); [|by eexists _, _]. cbn [negb]. cbn [andb] in Ha.
    apply orb_false_iff in Ha as [-> Hself]. rewrite <-H11 in Hself.
    change {| chat_id := id; chat_typ := _; chat_name := _; chat_grpid := _; chat_param := _ |} with (chat_of id r).
    rewrite (run_bind _ _ _ _ _ (self_run id r o)), Hself. by eexists _, _.
  - unfold set_chat_description_ex. cbv zeta. rewrite H8 in Ha.
    rewrite (run_bind _ _ _ _ _ (ensure_true_run _ _ _ (f_equal negb H5))), (run_bind _ _ _ _ _ (load_run _ _ _ H1)).
    destruct (bool_decide (ch_type r ∈ _)) eqn:Ety; cbn [andb] in Ha.
    + rewrite (run_bind _ _ _ _ _ (ensure_true_run _ _ _ Ety)).
      assert (negb (bool_decide (chat_grpid (chat_of id r) = [])) = true) as Hg by (by rewrite bool_decide_eq_false_2).
      rewrite (run_bind _ _ _ _ _ (ensure_true_run _ _ _ Hg)), (run_bind _ _ _ _ _ (self_run id r o)), H11, Ha.
      by eexists _, _.
    + unfold bind at 1. rewrite ensure_fails by done. by eexists _, _.
Qed.

(** ** Two devices *)

(** What a device does with an item that another one queued. *)
Definition execute_item (now : Z) (o : Own) (item : str) : Own :=
  match of_json item with
  | Some {| si_data := Known (AlterChat id a) |} => (sync_alter_chat now id a o).2
  | _ => o
  end.

(** The other device is told what was done, and does it. *)
Lemma told_spec a v :
  stable a = true → act (told a) v = act a v ∧ allowed (told a) v = allowed a v ∧ quiet (told a) v = quiet a v
    ∧ user_action (told a) = user_action a.
Proof.
  destruct a; try done; cbn; intros Hs%bool_decide_eq_true; by rewrite Hs.
Qed.

Lemma sync_alter_chat_run now g a o id :
  user_action a = true → chat_by g o = Some id → (sync_alter_chat now (Grpid g) a o) = do_action now false id a o.
Proof.
  intros Hu Hc. unfold sync_alter_chat.
  rewrite (run_bind _ _ o (Some id) o).
  - by destruct a.
  - assert (sync_target now (Grpid g) a
      = (res <- on_core (get_chat_id_by_grpid g) ;; res <- ok_or res NoSuchGroup ;; ret (Some res.1))) as -> by (by destruct a).
    unfold bind at 1, on_core, get_chat_id_by_grpid, gets. unfold chat_by in Hc. rewrite Hc.
    cbn. by rewrite upd_core_same.
Qed.

Lemma view_Some g o v : view g o = Some v → ∃ id st ty, chat_by g o = Some id ∧ key_at id o = Some (g, st, ty) ∧ shown_at id o = Some v.
Proof.
  unfold view. destruct (chat_by g o) as [id|] eqn:E; [|done]. intros Hv.
  destruct (chat_by_Some _ _ _ E) as (st & ty & Hk). eauto 6.
Qed.
End Steps.
