(* ===== verification/ChatReplicas.v ===== *)
(** ChatReplicas: two devices of one user who acts on their groups, channels and mailing lists now on
    the one and now on the other: after each turn both show the chats as an abstract account of the
    actions has them. *)
From stdpp Require Import countable.
From S2P Require Import Prelude Monad Ids Params Membership ContactTools Headers MsgTable.
From S2P Require Import Db Contacts Recipients GroupChanges LoginParam Config Sync ChatDb ChatAssign JoinTrust ReceptionSafety ChatActions ChatSync.

(** ** The abstract account *)

(** What is shown of each group, by its identifier. *)
Abbreviation world := (str -> option shown).

Definition spec_step (w : world) (g : str) (a : SyncAction) : world := λ g',
  if decide (g' = g) then v ← w g; if allowed a v then act a v else Some v else w g'.

(** The actions that are told as items, with texts that stay as they are when cleaned again. *)
Definition fine_step (w : world) (g : str) (a : SyncAction) : bool :=
  negb (bool_decide (g = [])) && user_action a && stable a
  && match w g with Some v => quiet a v | None => true end.

(** A turn: the actions on one device, each with its time, and when the other executes the items. *)
Record turn := {
  t_first : bool;
  t_actions : list (Z * str * SyncAction);
  t_executed : Z
}.

Definition spec_turn (w : world) (t : turn) : world := foldl (λ w x, spec_step w x.1.2 x.2) w (t_actions t).

Fixpoint fine_actions (w : world) (l : list (Z * str * SyncAction)) : bool :=
  match l with
  | [] => true
  | (_, g, a) :: l' => fine_step w g a && fine_actions (spec_step w g a) l'
  end.

Fixpoint fine_turns (w : world) (ts : list turn) : bool :=
  match ts with
  | [] => true
  | t :: ts' => fine_actions w (t_actions t) && fine_turns (spec_turn w t) ts'
  end.

(** ** The devices *)

(** Items about groups survive their encoding. *)
Class ItemsOk `{!Json SyncItem} : Prop :=
  item_read now g a : user_action a = true →
    of_json (item_for now g a) = Some {| si_timestamp := now; si_data := Known (AlterChat (Grpid g) a) |}.

Section Replicas.
Context {PF : Platform} {OS : Outside} {JS : Json SyncItem} {SD : Sending} {JE : Json EnteredLoginParam}
  {JC : Json ConfiguredLoginParamJson} {IN : Intake} {IO : ItemsOk}.

(** The user picks the chat of the group, if there is one, and acts on it. *)
Definition perform (o : Own) (x : Z * str * SyncAction) : Own :=
  match chat_by x.1.2 o with
  | Some id => (do_action x.1.1 true id x.2 o).2
  | None => o
  end.

Definition queue_of (o : Own) : list (N * str) := multi_device_sync (account (core o)).

(** The items that were queued since. *)
Definition new_items (o o' : Own) : list str := (drop (length (queue_of o)) (queue_of o')).*2.

Definition one_turn (l : list (Z * str * SyncAction)) (now : Z) (x y : Own) : Own * Own :=
  let x' := foldl perform x l in (x', foldl (execute_item now) y (new_items x x')).

Definition play_turn (xy : Own * Own) (t : turn) : Own * Own :=
  if t_first t then one_turn (t_actions t) (t_executed t) xy.1 xy.2
  else let yx := one_turn (t_actions t) (t_executed t) xy.2 xy.1 in (yx.2, yx.1).

Definition play : list turn -> Own * Own -> Own * Own := λ ts xy, foldl play_turn xy ts.

(** A device of an account with several devices. *)
Definition device_ok (o : Own) : Prop := groups_wf o ∧ can_sync true o.

Definition shows (o : Own) (w : world) : Prop := ∀ g, g ≠ [] → view g o = w g.

Lemma shows_effect f id o o' g st ty w :
  groups_wf o → key_at id o = Some (g, st, ty) → g ≠ [] → effect f id o o' → shows o w →
  shows o' (λ g', if decide (g' = g) then w g ≫= f else w g').
Proof.
  intros Hwf Hk Hg He Hs g' Hg'. destruct (effect_view _ _ _ _ _ _ _ Hwf Hk Hg He) as [V1 V2].
  destruct (decide (g' = g)) as [->|Hne].
  - by rewrite V1, Hs.
  - by rewrite V2, Hs.
Qed.

Lemma shows_ext o w w' : shows o w → (∀ g, g ≠ [] → w g = w' g) → shows o w'.
Proof. intros H E g Hg. rewrite H by done. by apply E. Qed.

Lemma account_step_sync b o o' new : account_step (account (core o)) (account (core o')) new → can_sync b o → can_sync b o'.
Proof. intros [H1 H2 _] Hs Hb. destruct (Hs Hb) as [Hc Hss]. split; [by apply H1|by rewrite H2]. Qed.

(** An action on a chat that is shown, with or without telling others. *)
Lemma action_run now sync id g st ty v o a w :
  groups_wf o → can_sync sync o → key_at id o = Some (g, st, ty) → g ≠ [] → shows o w → w g = Some v →
  user_action a = true → quiet a v = true →
  ∃ o', (do_action now sync id a o).2 = o' ∧ groups_wf o' ∧ shows o' (spec_step w g a)
    ∧ queues (sync && (allowed a v && changes a v)) (item_for now g (told a)) o o'.
Proof.
  intros Hwf Hs Hk Hg Hsh Hw Hu Hq. assert (shown_at id o = Some v) as Hv.
  { pose proof (Hsh g Hg) as Hview. unfold view in Hview. rewrite (chat_by_key g o id st ty), Hw in Hview by done. done. }
  destruct (about_intro _ _ _ _ _ _ Hwf Hk Hg Hv) as [r Hab]. destruct (allowed a v) eqn:Ha.
  - destruct (action_done now sync id g v o r a) as (o' & E & He & Hqu); [done..|]. exists o'. rewrite E.
    split; [done|]. split; [by eapply effect_wf|]. split; [|by rewrite andb_true_l].
    eapply shows_ext; [by eapply shows_effect|]. intros g' Hg'. unfold spec_step. simpl.
    destruct (decide (g' = g)) as [->|]; [|done]. rewrite Hw. simpl. by rewrite Ha.
  - destruct (action_refused now sync id g v o r a) as (e & o' & E & Ht & Hac); [done..|]. exists o'. rewrite E.
    pose proof (tables_shown o o' Ht) as Hts. assert (effect (λ v, Some v) id o o') as He.
    { split; [|intros i _; apply Hts|intros i _; apply Hts]. rewrite (proj1 (Hts id)). by destruct (shown_at id o). }
    split; [done|]. split; [by eapply effect_wf|]. split.
    + eapply shows_ext; [by eapply shows_effect|]. intros g' Hg'. unfold spec_step. simpl.
      destruct (decide (g' = g)) as [->|]; [|done]. rewrite Hw. simpl. by rewrite Ha.
    + rewrite andb_false_l, andb_false_r. by apply queues_none.
Qed.

Lemma told_changes a v : act a v = Some v ∨ changes a v = true ∨ allowed a v = false.
Proof.
  destruct a; simpl; auto.
  - destruct (bool_decide (v_name v = sanitize_single_line name)) eqn:E; [|by auto]. left.
    apply bool_decide_eq_true in E. rewrite <-E. by destruct v.
  - destruct (bool_decide (v_description v = clean_description d)) eqn:E; [|by auto]. left.
    apply bool_decide_eq_true in E. rewrite <-E. by destruct v.
Qed.

Lemma spec_told w g a : stable a = true → ∀ g', spec_step w g (told a) g' = spec_step w g a g'.
Proof.
  intros Hst g'. unfold spec_step. destruct (decide (g' = g)); [|done]. destruct (w g) as [v|]; [|done]. simpl.
  destruct (told_spec a v Hst) as (-> & -> & _). done.
Qed.

(** Executing the item of an action. *)
Lemma executed now t g a o w v :
  groups_wf o → g ≠ [] → shows o w → w g = Some v → user_action a = true → stable a = true → quiet a v = true →
  ∃ o', execute_item now o (item_for t g (told a)) = o' ∧ groups_wf o' ∧ shows o' (spec_step w g a)
    ∧ account_step (account (core o)) (account (core o')) [].
Proof.
  intros Hwf Hg Hsh Hw Hu Hst Hq. destruct (told_spec a v Hst) as (_ & _ & Hqt & Hut).
  unfold execute_item. rewrite item_read by (by rewrite Hut).
  destruct (view_Some g o v) as (id & st & ty & Hb & Hk & _); [by rewrite Hsh|].
  rewrite (sync_alter_chat_run _ _ _ _ id) by (by rewrite ?Hut).
  destruct (action_run now false id g st ty v o (told a) w) as (o' & E & H1 & H2 & n & H3); try done.
  { by rewrite Hut. } { by rewrite Hqt. }
  exists o'. split_and!; [done..| |done]. eapply shows_ext; [exact H2|]. intros g' _. by apply spec_told.
Qed.

(** One action and the items it queues. *)
Lemma performed x y w now g a now' :
  device_ok x → device_ok y → shows x w → shows y w → fine_step w g a = true →
  ∃ x' new, perform x (now, g, a) = x' ∧ account_step (account (core x)) (account (core x')) new
    ∧ device_ok x' ∧ shows x' (spec_step w g a)
    ∧ device_ok (foldl (execute_item now') y new.*2) ∧ shows (foldl (execute_item now') y new.*2) (spec_step w g a).
Proof.
  intros [Hx Cx] [Hy Cy] Sx Sy Hf. unfold fine_step in Hf. rewrite !andb_true_iff in Hf.
  destruct Hf as [[[Hg Hu] Hst] Hq]. apply negb_true_iff, bool_decide_eq_false in Hg. unfold perform. simpl.
  destruct (w g) as [v|] eqn:Hw.
  - destruct (view_Some g x v) as (id & st & ty & Hb & Hk & _); [by rewrite Sx|]. rewrite Hb.
    destruct (action_run now true id g st ty v x a w) as (x' & E & H1 & H2 & n & H3); [done..|].
    eexists x', _. split; [done|]. split; [exact H3|]. split; [by split; [|by eapply account_step_sync]|]. split; [done|].
    rewrite andb_true_l. destruct (allowed a v && changes a v) eqn:Hac; simpl.
    + destruct (executed now' now g a y w v) as (y' & -> & K1 & K2 & K3); [done..|].
      by split; [split; [|by eapply account_step_sync]|].
    + split; [by split|]. eapply shows_ext; [exact Sy|]. intros g' _. unfold spec_step.
      destruct (decide (g' = g)) as [->|]; [|done]. rewrite Hw. simpl. destruct (allowed a v) eqn:Ha; [|done].
      destruct (told_changes a v) as [->|[Hc|Hc]]; [done|by rewrite Hc in Hac|congruence].
  - destruct (chat_by g x) as [id|] eqn:Hb.
    { pose proof (Sx g Hg) as Hv. unfold view in Hv. rewrite Hb, Hw in Hv. simpl in Hv.
      destruct (chat_by_Some _ _ _ Hb) as (st & ty & Hk). destruct (proj2 (shown_key id x)); [by rewrite Hk|congruence]. }
    assert (∀ g', w g' = spec_step w g a g') as Hsame.
    { intros g'. unfold spec_step. destruct (decide (g' = g)) as [->|]; [|done]. by rewrite Hw. }
    exists x, []. split; [done|]. split; [apply account_step_refl|]. simpl.
    split_and!; try done; (eapply shows_ext; [done|]); intros; apply Hsame.
Qed.

Lemma performed_all l : ∀ x y w now',
  device_ok x → device_ok y → shows x w → shows y w → fine_actions w l = true →
  let w' := foldl (λ w x, spec_step w x.1.2 x.2) w l in
  ∃ new, account_step (account (core x)) (account (core (foldl perform x l))) new
    ∧ device_ok (foldl perform x l) ∧ shows (foldl perform x l) w'
    ∧ device_ok (foldl (execute_item now') y new.*2) ∧ shows (foldl (execute_item now') y new.*2) w'.
Proof.
  induction l as [|[[now g] a] l IH]; intros x y w now' Dx Dy Sx Sy Hf; simpl.
  { exists []. split_and!; try done; apply account_step_refl || apply Dx || apply Dy. }
  simpl in Hf. apply andb_true_iff in Hf as [Hf1 Hf2].
  destruct (performed x y w now g a now') as (x' & new & -> & Ha & D1 & S1 & D2 & S2); [done..|].
  destruct (IH x' _ _ now' D1 D2 S1 S2 Hf2) as (new' & Hb & H). exists (new ++ new').
  split; [by eapply account_step_trans|]. by rewrite fmap_app, foldl_app.
Qed.

Lemma one_turn_run x y w l now :
  device_ok x → device_ok y → shows x w → shows y w → fine_actions w l = true →
  let w' := foldl (λ w x, spec_step w x.1.2 x.2) w l in
  let xy := one_turn l now x y in
  device_ok xy.1 ∧ device_ok xy.2 ∧ shows xy.1 w' ∧ shows xy.2 w'.
Proof.
  intros Dx Dy Sx Sy Hf. destruct (performed_all l x y w now Dx Dy Sx Sy Hf) as (new & Ha & D1 & S1 & D2 & S2).
  unfold one_turn, new_items, queue_of. simpl. rewrite (as_queue _ _ _ Ha), drop_app_length. done.
Qed.

End Replicas.

(** ** Samples *)

(** An encoding of the items about groups. *)
Definition action_code (a : SyncAction) : N * Z * list N :=
  match a with
  | Block => (0, 0%Z, [])
  | Unblock => (1, 0%Z, [])
  | Accept => (2, 0%Z, [])
  | Delete => (3, 0%Z, [])
  | SetVisibility ChatVisibility.Normal => (4, 0%Z, [])
  | SetVisibility ChatVisibility.Archived => (5, 0%Z, [])
  | SetVisibility ChatVisibility.Pinned => (6, 0%Z, [])
  | SetMuted NotMuted => (7, 0%Z, [])
  | SetMuted Forever => (8, 0%Z, [])
  | SetMuted (Until t) => (9, t, [])
  | Rename n => (10, 0%Z, n)
  | SetDescription t => (11, 0%Z, t)
  | _ => (12, 0%Z, [])
  end%N.

Definition action_of_code (c : N * Z * list N) : option SyncAction :=
  match c.1.1 with
  | 0 => Some Block
  | 1 => Some Unblock
  | 2 => Some Accept
  | 3 => Some Delete
  | 4 => Some (SetVisibility ChatVisibility.Normal)
  | 5 => Some (SetVisibility ChatVisibility.Archived)
  | 6 => Some (SetVisibility ChatVisibility.Pinned)
  | 7 => Some (SetMuted NotMuted)
  | 8 => Some (SetMuted Forever)
  | 9 => Some (SetMuted (Until c.1.2))
  | 10 => Some (Rename c.2)
  | 11 => Some (SetDescription c.2)
  | _ => None
  end%N.

Definition group_items : Json SyncItem :=
  {| to_json := λ i, match si_data i with
                     | Known (AlterChat (Grpid g) a) => [Npos (encode (si_timestamp i, g, action_code a))]
                     | _ => []
                     end;
     of_json := λ s, match s with
                     | [Npos p] =>
                         '(t, g, c) ← decode p; a ← action_of_code c;
                         Some {| si_timestamp := t; si_data := Known (AlterChat (Grpid g) a) |}
                     | _ => None
                     end |}.

Lemma group_items_ok : @ItemsOk group_items.
Proof.
  intros now g a Ha. unfold item_for. simpl. rewrite decode_encode. simpl. destruct a as [| | |[]|[]| | | | | | |]; done.
Qed.

Section Witnesses.
#[local] Instance PF : Platform := sample_platform.
#[local] Instance OS : Outside := sample_outside.
#[local] Instance SD : Sending := sample_sending.
#[local] Instance JS : Json SyncItem := group_items.
#[local] Instance JE : Json EnteredLoginParam := opaque_json _.
#[local] Instance JC : Json ConfiguredLoginParamJson := opaque_json _.
#[local] Instance IN : Intake := idle_intake.
#[local] Instance IO : ItemsOk := group_items_ok.

(** Alice's devices, which have the group under different numbers. *)
Definition new_group (name : str) : chat_row :=
  {| ch_type := Chattype.Group; ch_name := name; ch_grpid := lit "grp"; ch_param := lit "U=1";
     ch_created_timestamp := 1 |}.

Definition two_devices : Account := Config.upd_config (λ _, {[ key_name Config.BccSelf := lit "1" ]}) empty_account.

Definition device (id : ChatId) (name : str) : Own :=
  {| core := upd_account (λ _, two_devices)
       (upd_db (λ d, set_members (λ _, {[ (id, SELF) := {| add_timestamp := 5; remove_timestamp := 0 |} ]})
                       (set_chats (λ _, {[ id := new_group name ]}) d)) alice);
     visibility := ∅; muted_until := ∅; imap_targets := []; mdn_rows := []; devmsglabels := [] |}.

Definition sample_shown (name : str) : shown :=
  {| v_type := Chattype.Group; v_name := name; v_promoted := false; v_self := true;
     v_visibility := ChatVisibility.Normal; v_muted := 0; v_blocked := Blocked.Not; v_description := [] |}.

Definition sample_world (name : str) : world :=
  λ g, if decide (g = lit "grp") then Some (sample_shown name) else None.

Lemma device_key id name i g st ty :
  key_at i (device id name) = Some (g, st, ty) → i = id ∧ g = lit "grp" ∧ st = false ∧ ty = Chattype.Group.
Proof.
  unfold key_at, device. simpl. destruct (decide (i = id)) as [->|Hi].
  - rewrite lookup_singleton_eq. simpl. by intros [= <- <- <-].
  - by rewrite lookup_singleton_ne.
Qed.

Lemma device_wf id name : chat_is_special id = false → device_ok (device id name).
Proof.
  intros Hid. split; [|done]. intros i g st ty Hk _.
  apply device_key in Hk as (-> & -> & -> & ->). split_and!; [done..|]. by intros i' st' ty' (-> & _)%device_key.
Qed.

Lemma device_shows id name : shows (device id name) (sample_world name).
Proof.
  intros g Hg. unfold view, sample_world. destruct (decide (g = lit "grp")) as [->|Hne].
  - assert (chat_by (lit "grp") (device id name) = Some id) as ->.
    { unfold chat_by, row_ids. simpl. rewrite dom_singleton_L, elements_singleton. simpl.
      change (sorting.merge_sort N.le [id]) with [id]. rewrite filter_cons_True; [done|]. by rewrite lookup_singleton_eq. }
    unfold shown_at, device. simpl. rewrite lookup_singleton_eq. simpl.
    unfold row_self, Membership.is_contact_in_chat, visibility_of, sample_shown. simpl.
    by rewrite lookup_singleton_eq, !lookup_empty.
  - destruct (chat_by g (device id name)) as [i|] eqn:E; [|done].
    destruct (chat_by_Some _ _ _ E) as (st & ty & (_ & -> & _)%device_key). done.
Qed.

Definition sample_turns : list turn :=
  [{| t_first := true; t_executed := 9;
      t_actions := [(5%Z, lit "grp", Rename (lit " Chess club ")); (6%Z, lit "grp", SetMuted (Until (-5)));
                    (7%Z, lit "grp", SetVisibility ChatVisibility.Pinned)] |};
   {| t_first := false; t_executed := 12; t_actions := [(10%Z, lit "grp", SetDescription (lit "Mondays ")); (11%Z, lit "grp", SetMuted Forever)] |}].


(** A name is trimmed before directional marks at its start are removed: a blank behind a mark stays
    at the device where it was entered, and is removed at the other one, which cleans it again. *)
Definition marked_name : str := 8238%N :: lit " Bob".

Example cleaned_again_differs :
  let xy := play [{| t_first := true; t_executed := 9; t_actions := [(5%Z, lit "grp", Rename marked_name)] |}]
              (device 20 (lit "Group"), device 33 (lit "Group")) in
  v_name <$> view (lit "grp") xy.1 = Some (lit " Bob") ∧ v_name <$> view (lit "grp") xy.2 = Some (lit "Bob").
Proof. split; vm_compute; reflexivity. Qed.

(** The item of a new group that arrives after a message of the group is executed nevertheless: there
    are two chats with its identifier. *)
Example created_again :
  let o := (sync_alter_chat 9 (Grpid (lit "grp")) (CreateGroupEncrypted (lit "Group")) (device 20 (lit "Group"))).2 in
  ch_grpid <$> chats (db (core o)) !! 20%N = Some (lit "grp") ∧ ch_grpid <$> chats (db (core o)) !! 31%N = Some (lit "grp").
Proof. split; vm_compute; reflexivity. Qed.
End Witnesses.
