(* ===== verification/Mime.v ===== *)
(** Mime: a mail as the crate mailparse gives it, Autocrypt headers (src/src/aheader.rs), importing
    keys (src/src/contact.rs), and finding and decrypting the encrypted payload of a mail with own
    keys or shared secrets (src/src/decrypt.rs, src/src/pgp.rs). *)
From stdpp Require Import sorting.
From S2P Require Import Prelude Monad Ids Params Membership ContactTools Headers MsgTable.
From S2P Require Import Db Contacts Recipients GroupChanges LoginParam Config Sync ChatDb Verification SecureJoin ChatAssign.

(** ** Mails *)

(** [mailparse::MailAddr]. *)
Inductive MailAddr := SingleAddr (i : SingleInfo) | GroupAddr (l : list SingleInfo).

(** [mailparse::MailHeader]: name, decoded value, and the addresses in it if they can be parsed. *)
Record MailHeader := {
  h_key : str;
  h_value : str;
  h_addrs : option (list MailAddr)
}.

(** [mailparse::DispositionType]. *)
Inductive DispositionType := Inline | Attachment | FormData | Extension (name : str).

#[export] Instance DispositionType_eq_dec : EqDecision DispositionType.
Proof. solve_decision. Defined.

(** [mailparse::ParsedMail]: the fields and results of the methods the parser uses; [ml_body_mail] is
    the mail in the body, where it is one. *)
Inductive ParsedMail := Mail {
  ml_headers : list MailHeader;
  ml_mimetype : str;
  ml_params : list (str * str);
  ml_disposition : DispositionType;
  ml_disposition_params : list (str * str);
  ml_raw : list N;
  ml_body_raw : option (list N);
  ml_body : option str;
  ml_body_mail : option ParsedMail;
  ml_subparts : list ParsedMail
}.

(** [mime::Mime], in lower case; the suffix is what follows a plus sign. *)
Record Mime := {
  mime_type : str;
  mime_subtype : str;
  mime_suffix : option str
}.

Definition type_is (t : string) (m : Mime) : bool := bool_decide (mime_type m = lit t).
Definition subtype_is (t : string) (m : Mime) : bool := bool_decide (mime_subtype m = lit t).

(** Equality with a type that has no suffix, such as [mime::TEXT_PLAIN]. *)
Definition is_mime (t s : string) (m : Mime) : bool :=
  type_is t m && subtype_is s m && bool_decide (mime_suffix m = None).

(** The crates mailparse and mime, and UTF-8. *)
Class Mailparse := {
  parse_mail : list N -> option ParsedMail;
  parse_fields : list N -> option (list MailHeader * nat);
  dateparse : str -> option Z;
  parse_mime : str -> option Mime;
  utf8 : list N -> option str;
  utf8_lossy : list N -> str
}.

(** The value of a key in a list of parameters. *)
Definition param_value (key : string) (l : list (str * str)) : option str :=
  snd <$> head (base.filter (λ kv, kv.1 = lit key) l).

(** [get_first_value], [get_all_values]: names are compared without case. *)
Definition get_all_values (l : list MailHeader) (name : str) : list str :=
  h_value <$> base.filter (λ h, eq_nocase (h_key h) name = true) l.

Definition get_first_value (l : list MailHeader) (name : str) : option str := head (get_all_values l name).

(** [HeaderDefMap::get_header_value]. *)
Definition get_header_value (l : list MailHeader) (h : HeaderDef) : option str :=
  get_first_value l (lit (HeaderDef.get_headername h)).

(** ** OpenPGP *)

(** A key is its bytes. *)
Abbreviation PublicKey := (list N) (only parsing).

(** [pgp::composed::Esk]: an encrypted session key; for a symmetric one, whether its string-to-key
    algorithm is "Salted". *)
Inductive Esk := SymEsk (salted : bool) (data : list N) | PubEsk (data : list N).

(** A parsed encrypted message, and a decrypted one: what it is, its data, and the verification of
    its signature with a key, which gives the intended recipients. *)
Record EncMessage := {
  em_esk : list Esk;
  em_data : list N
}.

Inductive MessageKind := Literal | Compressed | Signed (issuers : list Fingerprint) | EncryptedAgain.

Record Decrypted := {
  d_kind : MessageKind;
  d_data : option (list N);
  d_verify : PublicKey -> option (list Fingerprint)
}.

(** The crate pgp.  [sig_order] is the position of the signature that comes last in a hash map with
    these keys. *)
Class OpenPgp := {
  key_fingerprint : PublicKey -> Fingerprint;
  verify_bindings : PublicKey -> bool;
  key_from_slice : list N -> option PublicKey;
  key_from_base64 : str -> option PublicKey;
  key_to_base64 : PublicKey -> str;
  key_from_asc : str -> option PublicKey;
  merge_certificates : PublicKey -> PublicKey -> option PublicKey;
  self_public_key : PublicKey;
  from_armor : list N -> option EncMessage;
  session_key : list N -> str -> option (list N);
  decrypt_with_session_key : EncMessage -> list N -> option Decrypted;
  decrypt_with_secret_keys : EncMessage -> option Decrypted;
  detached_verify : PublicKey -> list N -> list N -> bool;
  sig_order : list Fingerprint -> nat
}.

Section Aheaders.
Context `{!Platform, !OpenPgp}.

(** ** Autocrypt headers (aheader.rs) *)

(** [struct Aheader]. *)
Inductive EncryptPreference := NoPreference | Mutual.

Record Aheader := {
  ah_addr : str;
  ah_public_key : PublicKey;
  ah_prefer_encrypt : EncryptPreference;
  ah_verified : bool
}.

Definition EncryptPreference_new (s : str) : option EncryptPreference :=
  if bool_decide (s = lit "mutual") then Some Mutual
  else if bool_decide (s = lit "nopreference") then Some NoPreference
  else None.

Definition SEMICOLON : char := 59%N.

(** The attributes: of several with one name, the last. *)
Definition attribute (a : str) : option (str * str) :=
  '(key, value) ← split_once EQ (trim a); Some (trim key, trim value).

Definition attributes (s : str) : gmap str str :=
  foldl (λ m kv, <[kv.1 := kv.2]> m) ∅ (omap attribute (split_char SEMICOLON s)).

(** [Aheader::from_str]. *)
Definition Aheader_from_str (s : str) : option Aheader :=
  let m := attributes s in
  addr ← m !! lit "addr";
  raw ← m !! lit "keydata";
  key ← key_from_base64 raw;
  if negb (verify_bindings key) then None
  else
    let pref := default NoPreference (m !! lit "prefer-encrypt" ≫= EncryptPreference_new) in
    let verified := bool_decide (is_Some (m !! lit "_verified")) in
    let rest := base.delete (lit "_verified") (base.delete (lit "prefer-encrypt")
                  (base.delete (lit "keydata") (base.delete (lit "addr") m))) in
    if forallb (λ kv, starts_with (lit "_") kv.1) (map_to_list rest)
    then Some {| ah_addr := addr; ah_public_key := key; ah_prefer_encrypt := pref; ah_verified := verified |}
    else None.

(** [Aheader::fmt]: a blank every 78 characters. *)
Fixpoint keydata (i : nat) (s : str) : str :=
  match s with
  | [] => []
  | c :: s' => (if (i mod 78 =? 78 - 8)%nat then [SP; c] else [c]) ++ keydata (S i) s'
  end.

Definition Aheader_to_string (h : Aheader) : str :=
  lit "addr=" ++ str_to_lowercase (ah_addr h) ++ lit ";"
  ++ (match ah_prefer_encrypt h with Mutual => lit " prefer-encrypt=mutual;" | NoPreference => [] end)
  ++ lit " keydata=" ++ keydata 0 (key_to_base64 (ah_public_key h)).

End Aheaders.

(** ** Finding the payload (decrypt.rs) *)

Definition has_type (t : string) (m : ParsedMail) : bool := bool_decide (ml_mimetype m = lit t).

(** [get_autocrypt_mime]. *)
Definition get_autocrypt_mime (mail : ParsedMail) : option ParsedMail :=
  if negb (has_type "multipart/encrypted" mail) then None
  else match ml_subparts mail with
       | [first; second] =>
           if has_type "application/pgp-encrypted" first && has_type "application/octet-stream" second
           then Some second else None
       | _ => None
       end.

(** [get_mixed_up_mime]. *)
Definition get_mixed_up_mime (mail : ParsedMail) : option ParsedMail :=
  if negb (has_type "multipart/mixed" mail) then None
  else match ml_subparts mail with
       | [first; second; third] =>
           if has_type "text/plain" first && has_type "application/pgp-encrypted" second
              && has_type "application/octet-stream" third
           then Some third else None
       | _ => None
       end.

(** [get_attachment_mime]. *)
Definition get_attachment_mime (mail : ParsedMail) : option ParsedMail :=
  if negb (has_type "multipart/mixed" mail) then None
  else match ml_subparts mail with
       | [first; second] =>
           if has_type "text/plain" first && has_type "multipart/encrypted" second
           then get_autocrypt_mime second else None
       | _ => None
       end.

(** [get_encrypted_mime]. *)
Definition get_encrypted_mime (mail : ParsedMail) : option ParsedMail :=
  match get_autocrypt_mime mail with
  | Some p => Some p
  | None =>
      match get_mixed_up_mime mail with
      | Some p => Some p
      | None => get_attachment_mime mail
      end
  end.

Section Decryption.
Context `{!Platform, !Outside, !Json QrInvite, !OpenPgp}.

(** [import_public_key]. *)
Definition import_public_key (key : PublicKey) : C unit :=
  if negb (verify_bindings key) then fail BrokenKey
  else
    let fp := hex (key_fingerprint key) in
    old <- gets (λ s, public_keys s !! fp) ;;
    merged <- (match old with
               | Some bytes =>
                   old_key <- ok_or (key_from_slice bytes) BrokenKey ;;
                   ok_or (merge_certificates key old_key) BrokenKey
               | None => ret key
               end) ;;
    modify (upd_public_keys (<[fp := merged]>)).

(** ** Shared secrets (decrypt.rs) *)

(** [try_decrypt_with_bobstate]. *)
Definition invite_secret (fp authcode : str) : str := lit "securejoin/" ++ fp ++ lit "/" ++ authcode.

Fixpoint try_bobstate (esk : list N) (rows : list (N * str)) : option (option (list N * str)) :=
  match rows with
  | [] => Some None
  | (_, json) :: rows' =>
      match of_json json with
      | None => None
      | Some invite =>
          let fp := hex (QrInvite.fingerprint invite) in
          match session_key esk (invite_secret fp (QrInvite.authcode invite)) with
          | Some psk => Some (Some (psk, fp))
          | None => try_bobstate esk rows'
          end
      end
  end.

Definition try_decrypt_with_bobstate (esk : list N) : C (option (list N * str)) :=
  rows <- gets bobstate ;; ok_or (try_bobstate esk rows) InvalidJsonColumn.

(** [try_decrypt_with_broadcast_secret_inner]: the rows are ordered by their key. *)
Definition try_secret (esk : list N) (secrets : gmap N str) : option (list N * ChatId) :=
  head (omap (λ id, secret ← secrets !! id; psk ← session_key esk secret; Some (psk, id)) (row_ids secrets)).

(** [try_decrypt_with_broadcast_secret]: the owner of a channel is its only member that is not
    special; [query_one] fails unless there is exactly one row. *)
Definition channel_owner (id : ChatId) (s : Core) : option str :=
  match base.filter (λ c, 9 < c)%N (chat_rows id s) with
  | [c] => c_fingerprint <$> head (base.filter (λ r, c_id r = c) (contacts (db s)))
  | _ => None
  end.

Definition try_decrypt_with_broadcast_secret (esk : list N) : C (option (list N * option str)) :=
  found <- gets (λ s, try_secret esk (broadcast_secrets (db s))) ;;
  match found with
  | None => ret None
  | Some (psk, chat_id) =>
      typ <- gets (λ s, ch_type <$> chats (db s) !! chat_id) ;;
      match typ with
      | Some Chattype.OutBroadcast => ret (Some (psk, None))
      | Some Chattype.InBroadcast =>
          owner <- gets (channel_owner chat_id) ;;
          fp <- ok_or owner NotABroadcast ;;
          ret (Some (psk, Some fp))
      | Some _ => fail NotABroadcast
      | None => fail (NoSuchChat chat_id)
      end
  end.

(** [try_decrypt_with_auth_token]: the most recent codes first. *)
Definition try_decrypt_with_auth_token (esk : list N) (self_fp : str) : C (option (list N)) :=
  gets (λ s, head (omap (λ r, session_key esk (invite_secret self_fp (tk_token r)))
    (reverse (base.filter (λ r, tk_namespc r = Namespace.Auth) (tokens (account s)))))).

(** [decrypt_session_key_symmetrically]. *)
Definition decrypt_session_key_symmetrically (esk : list N) : C (list N * option str) :=
  self_fp <- in_db (self_fingerprint generated_fingerprint) ;;
  r <- try_decrypt_with_bobstate esk ;;
  match r with
  | Some (psk, fp) => ret (psk, Some fp)
  | None =>
      r <- try_decrypt_with_broadcast_secret esk ;;
      match r with
      | Some r => ret r
      | None =>
          r <- try_decrypt_with_auth_token esk self_fp ;;
          psk <- ok_or r NoSecret ;;
          ret (psk, None)
      end
  end.

(** [get_encrypted_pgp_message_boxed]. *)
Definition get_encrypted_pgp_message (mail : ParsedMail) : C (option EncMessage) :=
  match get_encrypted_mime mail with
  | None => ret None
  | Some part =>
      data <- ok_or (ml_body_raw part) BrokenMail ;;
      msg <- ok_or (from_armor data) CannotDecrypt ;;
      ret (Some msg)
  end.

(** [check_symmetric_encryption]. *)
Definition check_symmetric_encryption (salted : bool) : C unit := ensure_or salted UnsupportedStringToKey.

(** [decrypt]: a message with one session key that is encrypted symmetrically needs a shared secret,
    any other is decrypted with own keys. *)
Definition decrypt (mail : ParsedMail) : C (option (Decrypted * option str)) :=
  msg <- get_encrypted_pgp_message mail ;;
  match msg with
  | None => ret None
  | Some msg =>
      match em_esk msg with
      | [SymEsk salted esk] =>
          check_symmetric_encryption salted ;;;
          key <- decrypt_session_key_symmetrically esk ;;
          plain <- ok_or (decrypt_with_session_key msg key.1) CannotDecrypt ;;
          ret (Some (plain, key.2))
      | _ =>
          plain <- ok_or (decrypt_with_secret_keys msg) CannotDecrypt ;;
          ret (Some (plain, None))
      end
  end.

(** ** Signatures (pgp.rs, decrypt.rs) *)

(** Fingerprints with the intended recipients of their signatures; a fingerprint occurs once. *)
Definition add_signature (fp : Fingerprint) (rs : list Fingerprint) (l : list (Fingerprint * list Fingerprint)) :=
  base.filter (λ x, x.1 ≠ fp) l ++ [(fp, rs)].

(** [valid_signature_fingerprints]. *)
Definition valid_signature_fingerprints (msg : Decrypted) (keys : list PublicKey)
  : list (Fingerprint * list Fingerprint) :=
  match d_kind msg with
  | Signed _ =>
      foldl (λ l k, match d_verify msg k with
                    | Some rs => add_signature (key_fingerprint k) rs l
                    | None => l
                    end) [] keys
  | _ => []
  end.

(** [pk_validate]. *)
Definition pk_validate (content signature : list N) (keys : list PublicKey) : list Fingerprint :=
  key_fingerprint <$> base.filter (λ k, detached_verify k content signature = true) keys.

(** [validate_detached_signature]. *)
Definition validate_detached_signature (mail : ParsedMail) (keys : list PublicKey)
  : option (ParsedMail * list Fingerprint) :=
  if negb (has_type "multipart/signed" mail) then None
  else match ml_subparts mail with
       | [first; second] =>
           Some (first, match ml_body_raw second with
                        | Some signature => pk_validate (ml_raw first) signature keys
                        | None => []
                        end)
       | _ => None
       end.
End Decryption.
