(* ===== verification/MimeParser.v ===== *)
(** MimeParser: from the bytes of a mail to a parsed message (src/src/mimeparser.rs): which headers
    count, decryption and signatures, the parts that are shown, attachments and reports. *)
From stdpp Require Import sorting.
From S2P Require Import Prelude Monad Ids Params Membership ContactTools Headers MsgTable Simplify FormatFlowed.
From S2P Require Import Db Contacts Recipients GroupChanges LoginParam Config Sync ChatDb Verification SecureJoin ChatAssign Mime.

(** ** Data *)

(** [struct Part]. *)
Record MPart := {
  mp_typ : Viewtype;
  mp_mimetype : option Mime;
  mp_msg : str;
  mp_msg_raw : option str;
  mp_bytes : N;
  mp_param : Params;
  mp_org_filename : option str;
  mp_error : option str;
  mp_dehtml_failed : bool;
  mp_is_related : bool;
  mp_is_reaction : bool
}.

Definition default_part : MPart :=
  {| mp_typ := Viewtype.Unknown; mp_mimetype := None; mp_msg := []; mp_msg_raw := None; mp_bytes := 0;
     mp_param := Params_new; mp_org_filename := None; mp_error := None; mp_dehtml_failed := false;
     mp_is_related := false; mp_is_reaction := false |}.

Definition set_mp_typ (t : Viewtype) (p : MPart) : MPart :=
  {| mp_typ := t; mp_mimetype := mp_mimetype p; mp_msg := mp_msg p; mp_msg_raw := mp_msg_raw p;
     mp_bytes := mp_bytes p; mp_param := mp_param p; mp_org_filename := mp_org_filename p;
     mp_error := mp_error p; mp_dehtml_failed := mp_dehtml_failed p; mp_is_related := mp_is_related p;
     mp_is_reaction := mp_is_reaction p |}.

Definition set_mp_msg (t : str) (p : MPart) : MPart :=
  {| mp_typ := mp_typ p; mp_mimetype := mp_mimetype p; mp_msg := t; mp_msg_raw := mp_msg_raw p;
     mp_bytes := mp_bytes p; mp_param := mp_param p; mp_org_filename := mp_org_filename p;
     mp_error := mp_error p; mp_dehtml_failed := mp_dehtml_failed p; mp_is_related := mp_is_related p;
     mp_is_reaction := mp_is_reaction p |}.

Definition set_mp_param (f : Params -> Params) (p : MPart) : MPart :=
  {| mp_typ := mp_typ p; mp_mimetype := mp_mimetype p; mp_msg := mp_msg p; mp_msg_raw := mp_msg_raw p;
     mp_bytes := mp_bytes p; mp_param := f (mp_param p); mp_org_filename := mp_org_filename p;
     mp_error := mp_error p; mp_dehtml_failed := mp_dehtml_failed p; mp_is_related := mp_is_related p;
     mp_is_reaction := mp_is_reaction p |}.

(** [struct Report] and [struct DeliveryReport]. *)
Record Report := {
  original_message_id : option str;
  additional_message_ids : list str
}.

Record DeliveryReport := {
  dr_rfc724_mid : str;
  dr_failure : bool
}.

(** What is in the parts of a mail: KML, HTML, contact cards, images, archives of mini apps, files of
    the blob directory, JSON, and the texts of errors. *)
Class Contents := {
  kml : Type;
  kml_parse : list N -> option kml;
  dehtml : str -> option SimplifiedText;
  get_vcard_summary : list N -> option str;
  get_filemeta : list N -> option (Z * Z);
  is_webxdc_file : str -> list N -> bool;
  create_blob : list N -> str -> option str;
  parse_sync_items : str -> option (list SyncItem);
  parse_metadata : str -> option PostMsgMetadata;
  error_text : core_error -> str
}.

(** What is collected from header sections: [headers], [recipients], [past_members], [from],
    [list_post] and [chat_disposition_notification_to]. *)
Record Fields := {
  f_headers : gmap str str;
  f_recipients : list SingleInfo;
  f_past_members : list SingleInfo;
  f_from : option SingleInfo;
  f_list_post : option str;
  f_notification_to : option SingleInfo
}.

(** The fields of [struct MimeMessage] that are known before its parts are parsed. *)
Record Envelope := {
  e_headers : gmap str str;
  e_recipients : list SingleInfo;
  e_past_members : list SingleInfo;
  e_from : SingleInfo;
  e_list_post : option str;
  e_notification_to : option SingleInfo;
  e_incoming : bool;
  e_decryption_error : option str;
  e_signature : option (Fingerprint * list Fingerprint);
  e_gossiped_keys : gmap str (PublicKey * bool);
  e_autocrypt_fingerprint : option str;
  e_timestamp_rcvd : Z;
  e_timestamp_sent : Z;
  e_pre_message : PreMessageMode
}.

Section Bodies.
Context `{!Contents}.

(** The fields that are filled from the parts. *)
Record Body := {
  b_parts : list MPart;
  b_forwarded : bool;
  b_system_message : SystemMessage.SystemMessage;
  b_location_kml : option kml;
  b_message_kml : option kml;
  b_sync_items : option (list SyncItem);
  b_status_update : option str;
  b_user_avatar : option AvatarAction;
  b_group_avatar : option AvatarAction;
  b_mdn_reports : list Report;
  b_delivery_report : option DeliveryReport;
  b_footer : option str;
  b_mime_modified : bool;
  b_is_bot : option bool
}.

Definition set_b_parts (v : list MPart) (b : Body) : Body :=
  {| b_parts := v; b_forwarded := b_forwarded b; b_system_message := b_system_message b; b_location_kml :=
     b_location_kml b; b_message_kml := b_message_kml b; b_sync_items := b_sync_items b; b_status_update :=
     b_status_update b; b_user_avatar := b_user_avatar b; b_group_avatar := b_group_avatar b; b_mdn_reports
     := b_mdn_reports b; b_delivery_report := b_delivery_report b; b_footer := b_footer b; b_mime_modified
     := b_mime_modified b; b_is_bot := b_is_bot b |}.
Definition set_b_forwarded (v : bool) (b : Body) : Body :=
  {| b_parts := b_parts b; b_forwarded := v; b_system_message := b_system_message b; b_location_kml :=
     b_location_kml b; b_message_kml := b_message_kml b; b_sync_items := b_sync_items b; b_status_update :=
     b_status_update b; b_user_avatar := b_user_avatar b; b_group_avatar := b_group_avatar b; b_mdn_reports
     := b_mdn_reports b; b_delivery_report := b_delivery_report b; b_footer := b_footer b; b_mime_modified
     := b_mime_modified b; b_is_bot := b_is_bot b |}.
Definition set_b_system_message (v : SystemMessage.SystemMessage) (b : Body) : Body :=
  {| b_parts := b_parts b; b_forwarded := b_forwarded b; b_system_message := v; b_location_kml :=
     b_location_kml b; b_message_kml := b_message_kml b; b_sync_items := b_sync_items b; b_status_update :=
     b_status_update b; b_user_avatar := b_user_avatar b; b_group_avatar := b_group_avatar b; b_mdn_reports
     := b_mdn_reports b; b_delivery_report := b_delivery_report b; b_footer := b_footer b; b_mime_modified
     := b_mime_modified b; b_is_bot := b_is_bot b |}.
Definition set_b_location_kml (v : option kml) (b : Body) : Body :=
  {| b_parts := b_parts b; b_forwarded := b_forwarded b; b_system_message := b_system_message b;
     b_location_kml := v; b_message_kml := b_message_kml b; b_sync_items := b_sync_items b; b_status_update
     := b_status_update b; b_user_avatar := b_user_avatar b; b_group_avatar := b_group_avatar b;
     b_mdn_reports := b_mdn_reports b; b_delivery_report := b_delivery_report b; b_footer := b_footer b;
     b_mime_modified := b_mime_modified b; b_is_bot := b_is_bot b |}.
Definition set_b_message_kml (v : option kml) (b : Body) : Body :=
  {| b_parts := b_parts b; b_forwarded := b_forwarded b; b_system_message := b_system_message b;
     b_location_kml := b_location_kml b; b_message_kml := v; b_sync_items := b_sync_items b; b_status_update
     := b_status_update b; b_user_avatar := b_user_avatar b; b_group_avatar := b_group_avatar b;
     b_mdn_reports := b_mdn_reports b; b_delivery_report := b_delivery_report b; b_footer := b_footer b;
     b_mime_modified := b_mime_modified b; b_is_bot := b_is_bot b |}.
Definition set_b_sync_items (v : option (list SyncItem)) (b : Body) : Body :=
  {| b_parts := b_parts b; b_forwarded := b_forwarded b; b_system_message := b_system_message b;
     b_location_kml := b_location_kml b; b_message_kml := b_message_kml b; b_sync_items := v;
     b_status_update := b_status_update b; b_user_avatar := b_user_avatar b; b_group_avatar :=
     b_group_avatar b; b_mdn_reports := b_mdn_reports b; b_delivery_report := b_delivery_report b; b_footer
     := b_footer b; b_mime_modified := b_mime_modified b; b_is_bot := b_is_bot b |}.
Definition set_b_status_update (v : option str) (b : Body) : Body :=
  {| b_parts := b_parts b; b_forwarded := b_forwarded b; b_system_message := b_system_message b;
     b_location_kml := b_location_kml b; b_message_kml := b_message_kml b; b_sync_items := b_sync_items b;
     b_status_update := v; b_user_avatar := b_user_avatar b; b_group_avatar := b_group_avatar b;
     b_mdn_reports := b_mdn_reports b; b_delivery_report := b_delivery_report b; b_footer := b_footer b;
     b_mime_modified := b_mime_modified b; b_is_bot := b_is_bot b |}.
Definition set_b_user_avatar (v : option AvatarAction) (b : Body) : Body :=
  {| b_parts := b_parts b; b_forwarded := b_forwarded b; b_system_message := b_system_message b;
     b_location_kml := b_location_kml b; b_message_kml := b_message_kml b; b_sync_items := b_sync_items b;
     b_status_update := b_status_update b; b_user_avatar := v; b_group_avatar := b_group_avatar b;
     b_mdn_reports := b_mdn_reports b; b_delivery_report := b_delivery_report b; b_footer := b_footer b;
     b_mime_modified := b_mime_modified b; b_is_bot := b_is_bot b |}.
Definition set_b_group_avatar (v : option AvatarAction) (b : Body) : Body :=
  {| b_parts := b_parts b; b_forwarded := b_forwarded b; b_system_message := b_system_message b;
     b_location_kml := b_location_kml b; b_message_kml := b_message_kml b; b_sync_items := b_sync_items b;
     b_status_update := b_status_update b; b_user_avatar := b_user_avatar b; b_group_avatar := v;
     b_mdn_reports := b_mdn_reports b; b_delivery_report := b_delivery_report b; b_footer := b_footer b;
     b_mime_modified := b_mime_modified b; b_is_bot := b_is_bot b |}.
Definition set_b_mdn_reports (v : list Report) (b : Body) : Body :=
  {| b_parts := b_parts b; b_forwarded := b_forwarded b; b_system_message := b_system_message b;
     b_location_kml := b_location_kml b; b_message_kml := b_message_kml b; b_sync_items := b_sync_items b;
     b_status_update := b_status_update b; b_user_avatar := b_user_avatar b; b_group_avatar :=
     b_group_avatar b; b_mdn_reports := v; b_delivery_report := b_delivery_report b; b_footer := b_footer b;
     b_mime_modified := b_mime_modified b; b_is_bot := b_is_bot b |}.
Definition set_b_delivery_report (v : option DeliveryReport) (b : Body) : Body :=
  {| b_parts := b_parts b; b_forwarded := b_forwarded b; b_system_message := b_system_message b;
     b_location_kml := b_location_kml b; b_message_kml := b_message_kml b; b_sync_items := b_sync_items b;
     b_status_update := b_status_update b; b_user_avatar := b_user_avatar b; b_group_avatar :=
     b_group_avatar b; b_mdn_reports := b_mdn_reports b; b_delivery_report := v; b_footer := b_footer b;
     b_mime_modified := b_mime_modified b; b_is_bot := b_is_bot b |}.
Definition set_b_footer (v : option str) (b : Body) : Body :=
  {| b_parts := b_parts b; b_forwarded := b_forwarded b; b_system_message := b_system_message b;
     b_location_kml := b_location_kml b; b_message_kml := b_message_kml b; b_sync_items := b_sync_items b;
     b_status_update := b_status_update b; b_user_avatar := b_user_avatar b; b_group_avatar :=
     b_group_avatar b; b_mdn_reports := b_mdn_reports b; b_delivery_report := b_delivery_report b; b_footer
     := v; b_mime_modified := b_mime_modified b; b_is_bot := b_is_bot b |}.
Definition set_b_mime_modified (v : bool) (b : Body) : Body :=
  {| b_parts := b_parts b; b_forwarded := b_forwarded b; b_system_message := b_system_message b;
     b_location_kml := b_location_kml b; b_message_kml := b_message_kml b; b_sync_items := b_sync_items b;
     b_status_update := b_status_update b; b_user_avatar := b_user_avatar b; b_group_avatar :=
     b_group_avatar b; b_mdn_reports := b_mdn_reports b; b_delivery_report := b_delivery_report b; b_footer
     := b_footer b; b_mime_modified := v; b_is_bot := b_is_bot b |}.
Definition set_b_is_bot (v : option bool) (b : Body) : Body :=
  {| b_parts := b_parts b; b_forwarded := b_forwarded b; b_system_message := b_system_message b;
     b_location_kml := b_location_kml b; b_message_kml := b_message_kml b; b_sync_items := b_sync_items b;
     b_status_update := b_status_update b; b_user_avatar := b_user_avatar b; b_group_avatar :=
     b_group_avatar b; b_mdn_reports := b_mdn_reports b; b_delivery_report := b_delivery_report b; b_footer
     := b_footer b; b_mime_modified := b_mime_modified b; b_is_bot := v |}.

Definition empty_body : Body :=
  {| b_parts := []; b_forwarded := false; b_system_message := SystemMessage.Unknown; b_location_kml := None;
     b_message_kml := None; b_sync_items := None; b_status_update := None; b_user_avatar := None;
     b_group_avatar := None; b_mdn_reports := []; b_delivery_report := None; b_footer := None;
     b_mime_modified := false; b_is_bot := None |}.
End Bodies.

(** [struct MimeMessage]. *)
Record Parsed `{!Contents} := {
  pd_envelope : Envelope;
  pd_body : Body;
  pd_decoded_data : list N
}.

(** The headers of the envelope with known names, as the code after parsing reads them. *)
Definition known_headers (m : gmap str str) : gmap string str :=
  list_to_map (omap (λ h, (λ v, (HeaderDef.get_headername h, v)) <$> m !! lit (HeaderDef.get_headername h))
                 HeaderDef.variants).

Definition envelope_mime (e : Envelope) : MimeMessage :=
  {| headers := known_headers (e_headers e); timestamp_sent := e_timestamp_sent e; gossiped_keys := ∅;
     group_avatar := None; signature := hex <$> (fst <$> e_signature e); first_part_error := None |}.

(** ** Headers *)

(** [is_protected]. *)
Definition is_protected (key : str) : bool :=
  starts_with (lit "chat-") key
  || bool_decide (key ∈ lit <$> ["return-path"; "auto-submitted"; "autocrypt-setup-message"; "date"; "from";
       "sender"; "reply-to"; "to"; "cc"; "bcc"; "message-id"; "in-reply-to"; "references"; "secure-join"]).

(** [is_hidden]. *)
Definition is_hidden (key : str) : bool :=
  bool_decide (key ∈ lit <$> ["chat-user-avatar"; "chat-group-avatar"; "chat-delete"; "chat-edit"]).

(** [tools::single_value]. *)
Definition single_value {X} (l : list X) : option X := match l with [x] => Some x | _ => None end.

(** [remove_secured_headers]. *)
Definition remove_secured_headers (encrypted : bool) (m : gmap str str) : gmap str str :=
  let m := base.delete (lit "autocrypt-gossip") (base.delete (lit "chat-verified")
             (base.delete (lit "secure-join-fingerprint") m)) in
  if bool_decide (m !! lit "secure-join" = Some (lit "vc-request-pubkey")) && encrypted then m
  else
    let m := base.delete (lit "secure-join-auth") m in
    match m !! lit "secure-join" with
    | Some v => if bool_decide (v = lit "vc-request") || bool_decide (v = lit "vg-request") then m
                else base.delete (lit "secure-join") m
    | None => m
    end.

Section Headers.
Context `{!Platform}.

(** [get_all_addresses_from_header]: the last header of the name. *)
Definition normal_info (i : SingleInfo) : SingleInfo :=
  {| display_name := display_name i;
     info_addr := str_to_lowercase (addr_normalize str_to_lowercase (info_addr i)) |}.

Definition addresses (a : MailAddr) : list SingleInfo :=
  match a with SingleAddr i => [normal_info i] | GroupAddr l => normal_info <$> l end.

Definition get_all_addresses_from_header (l : list MailHeader) (name : string) : list SingleInfo :=
  match head (base.filter (λ h, str_to_lowercase (h_key h) = lit name) (reverse l)) with
  | Some h => match h_addrs h with Some addrs => mjoin (addresses <$> addrs) | None => [] end
  | None => []
  end.

(** [get_recipients], [get_from], [get_list_post]. *)
Definition get_recipients (l : list MailHeader) : list SingleInfo :=
  get_all_addresses_from_header l "to" ++ get_all_addresses_from_header l "cc".

Definition get_from (l : list MailHeader) : option SingleInfo :=
  single_value (get_all_addresses_from_header l "from").

Definition get_list_post (l : list MailHeader) : option str :=
  info_addr <$> head (get_all_addresses_from_header l "list-post").

(** [extract_single_info]. *)
Definition extract_single_info (l : list MailAddr) : option SingleInfo :=
  match l with [SingleAddr i] => Some i | _ => None end.

(** One field in [merge_headers]. *)
Definition notification_to : str := lit (HeaderDef.get_headername HeaderDef.ChatDispositionNotificationTo).

Definition merge_field (fs : gmap str str * option SingleInfo) (h : MailHeader) : gmap str str * option SingleInfo :=
  let key := str_to_lowercase (h_key h) in
  if bool_decide (key = notification_to) then
    (fs.1, match h_addrs h with Some l => extract_single_info l | None => fs.2 end)
  else (<[key := h_value h]> fs.1, fs.2).

Definition or_old {X} (new old : list X) : list X := match new with [] => old | _ => new end.
Definition or_old_value {X} (new old : option X) : option X := match new with None => old | _ => new end.

(** [merge_headers]. *)
Definition has_header_protection (part : ParsedMail) : bool := bool_decide (is_Some (param_value "hp" (ml_params part))).

Definition merge_headers (part : ParsedMail) (f : Fields) : Fields :=
  let kept := base.filter (λ kv, (has_header_protection part || is_protected kv.1) = false) (f_headers f) in
  let '(m, to) := foldl merge_field (kept, f_notification_to f) (ml_headers part) in
  {| f_headers := m;
     f_recipients := or_old (get_recipients (ml_headers part)) (f_recipients f);
     f_past_members := or_old (get_all_addresses_from_header (ml_headers part) "chat-group-past-members")
                         (f_past_members f);
     f_from := or_old_value (get_from (ml_headers part)) (f_from f);
     f_list_post := or_old_value (get_list_post (ml_headers part)) (f_list_post f);
     f_notification_to := to |}.

Definition set_f_headers (m : gmap str str -> gmap str str) (f : Fields) : Fields :=
  {| f_headers := m (f_headers f); f_recipients := f_recipients f; f_past_members := f_past_members f;
     f_from := f_from f; f_list_post := f_list_post f; f_notification_to := f_notification_to f |}.

Definition set_f_from (i : option SingleInfo) (f : Fields) : Fields :=
  {| f_headers := f_headers f; f_recipients := f_recipients f; f_past_members := f_past_members f;
     f_from := i; f_list_post := f_list_post f; f_notification_to := f_notification_to f |}.

Definition no_fields : Fields :=
  {| f_headers := ∅; f_recipients := []; f_past_members := []; f_from := None; f_list_post := None;
     f_notification_to := None |}.

(** The headers of the outer mail in [from_bytes]: hidden ones only count in the first part of a
    multipart/mixed, the original identifier of a Microsoft server replaces the identifier, and what
    is only allowed in a signed payload is dropped. *)
Definition hidden_field (m : gmap str str) (h : MailHeader) : gmap str str :=
  let key := str_to_lowercase (h_key h) in
  if (bool_decide (m !! key = None) && is_hidden key) || bool_decide (key = lit "message-id")
  then <[key := h_value h]> m else m.

Definition hidden_headers (mimetype : Mime) (mail : ParsedMail) (m : gmap str str) : gmap str str :=
  if type_is "multipart" mimetype && subtype_is "mixed" mimetype then
    match ml_subparts mail with
    | part :: _ => foldl hidden_field m (ml_headers part)
    | [] => m
    end
  else m.

Definition original_message_id_header (m : gmap str str) : gmap str str :=
  let key := lit (HeaderDef.get_headername HeaderDef.XMicrosoftOriginalMessageId) in
  match m !! key with
  | Some v => <[lit "message-id" := v]> (base.delete key m)
  | None => m
  end.

Definition outer_fields (mimetype : Mime) (mail : ParsedMail) : Fields :=
  let f := merge_headers mail no_fields in
  let f := set_f_headers (base.filter (λ kv, is_hidden kv.1 = false)) f in
  let f := set_f_headers (hidden_headers mimetype mail) f in
  let f := set_f_headers original_message_id_header f in
  set_f_headers (remove_secured_headers false) f.
End Headers.

(** ** The envelope *)

Section Envelopes.
Context `{!Platform, !Outside, !Json QrInvite, !OpenPgp, !Mailparse, !Contents, !Json SyncItem, !Json EnteredLoginParam,
          !Json ConfiguredLoginParamJson, !Intake}.

(** [get_timestamp_sent]. *)
Definition get_timestamp_sent (l : list MailHeader) (default_ timestamp_rcvd : Z) : Z :=
  match get_header_value l HeaderDef.Date ≫= dateparse with
  | Some value => Z.min value (timestamp_rcvd + TIMESTAMP_SENT_TOLERANCE)
  | None => default_
  end.

(** [parse_message_id]. *)
Definition parse_message_id (ids : str) : option str := head (parse_message_ids ids).

(** The last Autocrypt header that can be parsed and has the address of the sender. *)
Definition choose_aheader (from_addr : str) (values : list str) : option Aheader :=
  head (omap (λ v, h ← Aheader_from_str v;
                   if addr_cmp str_to_lowercase (ah_addr h) from_addr then Some h else None) (reverse values)).

(** [parse_gossip_headers]. *)
Fixpoint parse_gossip_headers (from_addr : str) (recipients : list SingleInfo) (values : list str)
  (keys : gmap str (PublicKey * bool)) : C (gmap str (PublicKey * bool)) :=
  match values with
  | [] => ret keys
  | v :: values' =>
      match Aheader_from_str v with
      | None => parse_gossip_headers from_addr recipients values' keys
      | Some h =>
          if negb (existsb (λ i, addr_cmp str_to_lowercase (info_addr i) (ah_addr h)) recipients)
             || addr_cmp str_to_lowercase from_addr (ah_addr h)
          then parse_gossip_headers from_addr recipients values' keys
          else
            import_public_key (ah_public_key h) ;;;
            parse_gossip_headers from_addr recipients values'
              (<[str_to_lowercase (ah_addr h) := (ah_public_key h, ah_verified h)]> keys)
      end
  end.

(** The keys of the issuers a signature names, from the table of keys. *)
Fixpoint issuer_keys (issuers : list Fingerprint) : C (list PublicKey) :=
  match issuers with
  | [] => ret []
  | fp :: issuers' =>
      row <- gets (λ s, public_keys s !! hex fp) ;;
      match row with
      | None => issuer_keys issuers'
      | Some bytes =>
          key <- ok_or (key_from_slice bytes) BrokenKey ;;
          keys <- issuer_keys issuers' ;;
          ret (key :: keys)
      end
  end.

Definition issuers_of (msg : option Decrypted) : list Fingerprint :=
  match msg with
  | Some m => match d_kind m with Signed issuers => issuers | _ => [] end
  | None => []
  end.

(** [load_self_public_keyring]. *)
Definition load_self_public_keyring : C (list PublicKey) :=
  gets (λ s, match self_fingerprint_opt (db s) with Some _ => [self_public_key] | None => [] end).

(** The signature that counts. *)
Definition last_signature (l : list (Fingerprint * list Fingerprint)) : option (Fingerprint * list Fingerprint) :=
  match l with [] => None | x :: _ => Some (default x (l !! (sig_order l.*1 mod length l)%nat)) end.

(** The result of [decrypt] in [from_bytes]: the payload, whether it was encrypted, the decrypted
    message, and the sender a shared secret is restricted to. *)
Record Opened := {
  op_mail : result ParsedMail core_error;
  op_encrypted : bool;
  op_message : option Decrypted;
  op_expected : option str
}.

Definition open_mail (mail : ParsedMail) : C Opened :=
  λ s, match decrypt mail s with
       | (Ok (Some (msg, expected)), s') =>
           match parse_mail (default [] (d_data msg)) with
           | Some inner => (Ok {| op_mail := Ok inner; op_encrypted := true; op_message := Some msg;
                                  op_expected := expected |}, s')
           | None => (Err BrokenMail, s')
           end
       | (Ok None, s') =>
           (Ok {| op_mail := Ok mail; op_encrypted := false; op_message := None; op_expected := None |}, s')
       | (Err e, s') =>
           (Ok {| op_mail := Err e; op_encrypted := false; op_message := None; op_expected := None |}, s')
       end.

(** The signatures: those of the decrypted message, and detached ones inside an encrypted message. *)
Definition payload (o : Opened) (keys : list PublicKey)
  : result ParsedMail core_error * list (Fingerprint * list Fingerprint) :=
  let signatures := match op_message o with
                    | Some msg => valid_signature_fingerprints msg keys
                    | None => []
                    end in
  match op_mail o with
  | Err e => (Err e, signatures)
  | Ok mail =>
      let '(content, detached) := default (mail, []) (validate_detached_signature mail keys) in
      (Ok content, if op_encrypted o then foldl (λ l fp, add_signature fp [] l) signatures detached else signatures)
  end.

(** A shared secret may only be used by its owner. *)
Definition check_expected (expected : option str) (signatures : list (Fingerprint * list Fingerprint)) : C unit :=
  match expected with
  | None => ret tt
  | Some fp =>
      ensure_or (negb (bool_decide (signatures = []))) Unsigned ;;;
      ensure_or (length signatures =? 1)%nat TooManySignatures ;;;
      fp <- ok_or (Fingerprint_from_str str_to_uppercase fp) BrokenKey ;;
      ensure_or (bool_decide (fp ∈ signatures.*1)) WrongSigner
  end.

(** The headers of the payload override those of the outer mail. *)
Definition inner_fields (mail : ParsedMail) (signed : bool) (f : Fields) : Fields :=
  let f := if signed then set_f_headers (λ m, base.delete (lit "list-id") (base.delete (lit "subject") m)) f else f in
  merge_headers mail (set_f_from None f).

Definition merge_payload (mail : result ParsedMail core_error) (encrypted signed : bool) (from : SingleInfo) (f : Fields)
  : C (Fields * SingleInfo * gmap str (PublicKey * bool)) :=
  match mail, encrypted with
  | Ok mail, true =>
      let f' := inner_fields mail signed f in
      keys <- (if signed then parse_gossip_headers (info_addr from) (f_recipients f')
                                (get_all_values (ml_headers mail) (lit "Autocrypt-Gossip")) ∅
               else ret ∅) ;;
      match f_from f' with
      | Some inner =>
          if negb (addr_cmp str_to_lowercase (info_addr inner) (info_addr from)) then fail ForgedFrom
          else ret (f', inner, keys)
      | None => ret (f', from, keys)
      end
  | _, _ => ret (f, from, ∅)
  end.

(** The mode of a message with a preview. *)
Definition pre_message_of (outer : ParsedMail) (mail : result ParsedMail core_error) (encrypted : bool) : C PreMessageMode :=
  let outer_mode := match get_header_value (ml_headers outer) HeaderDef.ChatIsPostMessage with
                    | Some _ => Post
                    | None => NoPre
                    end in
  match mail, encrypted with
  | Ok mail, true =>
      match get_header_value (ml_headers mail) HeaderDef.ChatPostMessageId with
      | Some v =>
          mid <- ok_or (parse_message_id v) NoMessageId ;;
          ret (Pre mid (get_header_value (ml_headers mail) HeaderDef.ChatPostMessageMetadata ≫= parse_metadata))
      | None => ret outer_mode
      end
  | _, _ => ret outer_mode
  end.

(** [MimeMessage::from_bytes] up to the parts; returns the root of the payload, too. *)
Definition parse_envelope (now : Z) (mail : ParsedMail) : C (Envelope * result ParsedMail core_error * list N) :=
  let sent := get_timestamp_sent (ml_headers mail) now now in
  mimetype <- ok_or (parse_mime (ml_mimetype mail)) BrokenMail ;;
  let f := outer_fields mimetype mail in
  from <- ok_or (f_from f) NoFrom ;;
  is_self <- in_db (is_self_addr str_to_lowercase (info_addr from)) ;;
  o <- open_mail mail ;;
  let sent := match op_mail o with
              | Ok inner => if op_encrypted o then get_timestamp_sent (ml_headers inner) sent now else sent
              | Err _ => sent
              end in
  let outer_values := get_all_values (ml_headers mail) (lit "autocrypt") in
  let values := match op_mail o with
                | Ok inner => if op_encrypted o then or_old (get_all_values (ml_headers inner) (lit "autocrypt")) outer_values
                              else outer_values
                | Err _ => outer_values
                end in
  let aheader := if (is_self : bool) then None else choose_aheader (info_addr from) values in
  (match aheader with Some h => import_public_key (ah_public_key h) | None => ret tt end) ;;;
  keyring <- (if (is_self : bool) then load_self_public_keyring
              else ret (match aheader with Some h => [ah_public_key h] | None => [] end)) ;;
  issuers <- issuer_keys (issuers_of (op_message o)) ;;
  let '(content, signatures) := payload o (keyring ++ issuers) in
  check_expected (op_expected o) signatures ;;;
  let signed := negb (bool_decide (signatures = [])) in
  merged <- merge_payload content (op_encrypted o) signed from f ;;
  let '(f, from, gossiped) := merged in
  let f := if signed then f else set_f_headers (remove_secured_headers (op_encrypted o)) f in
  let signatures := if op_encrypted o then signatures else [] in
  pre <- pre_message_of mail content (op_encrypted o) ;;
  let signature := last_signature signatures in
  incoming <- (match signature with
               | Some (fp, _) =>
                   self_fp <- in_db (self_fingerprint generated_fingerprint) ;;
                   ret (negb (bool_decide (hex fp = self_fp)))
               | None => ret (negb is_self)
               end) ;;
  ret ({| e_headers := f_headers f; e_recipients := f_recipients f; e_past_members := f_past_members f;
          e_from := from; e_list_post := f_list_post f; e_notification_to := f_notification_to f;
          e_incoming := incoming;
          e_decryption_error := match content with Err e => Some (error_text e) | Ok _ => None end;
          e_signature := signature; e_gossiped_keys := gossiped;
          e_autocrypt_fingerprint := (λ h, hex (key_fingerprint (ah_public_key h))) <$> aheader;
          e_timestamp_rcvd := now; e_timestamp_sent := sent; e_pre_message := pre |},
       content, default [] (op_message o ≫= d_data)).
End Envelopes.

(** ** Parts *)

(** [is_attachment_disposition]. *)
Definition is_attachment_disposition (mail : ParsedMail) : bool :=
  bool_decide (ml_disposition mail = Attachment)
  && existsb (λ kv, starts_with (lit "filename") kv.1) (ml_disposition_params mail).

(** [Path::extension] of a file name. *)
Definition file_name (path : str) : option str :=
  match list.last (base.filter (λ c, c ≠ [] ∧ c ≠ lit ".") (split_char 47 path)) with
  | Some c => if bool_decide (c = lit "..") then None else Some c
  | None => None
  end.

Definition extension (path : str) : option str :=
  name ← file_name path;
  match reverse (split_char 46 name) with
  | ext :: _ :: _ as parts => if bool_decide (join [46%N] (reverse (tail parts)) = []) then None else Some ext
  | _ => None
  end.

(** [guess_msgtype_from_path_suffix], the types. *)
Definition viewtypes_by_extension : list (string * Viewtype) :=
  [("3gp", Viewtype.Video); ("aac", Viewtype.Audio); ("avi", Viewtype.Video); ("avif", Viewtype.File);
   ("doc", Viewtype.File); ("docx", Viewtype.File); ("epub", Viewtype.File); ("flac", Viewtype.Audio);
   ("gif", Viewtype.Gif); ("heic", Viewtype.File); ("heif", Viewtype.File); ("html", Viewtype.File);
   ("htm", Viewtype.File); ("ico", Viewtype.File); ("jar", Viewtype.File); ("jpeg", Viewtype.Image);
   ("jpe", Viewtype.Image); ("jpg", Viewtype.Image); ("json", Viewtype.File); ("mov", Viewtype.Video);
   ("m4a", Viewtype.Audio); ("mp3", Viewtype.Audio); ("mp4", Viewtype.Video); ("odp", Viewtype.File);
   ("ods", Viewtype.File); ("odt", Viewtype.File); ("oga", Viewtype.Audio); ("ogg", Viewtype.Audio);
   ("ogv", Viewtype.File); ("opus", Viewtype.File); ("otf", Viewtype.File); ("pdf", Viewtype.File);
   ("png", Viewtype.Image); ("ppt", Viewtype.File); ("pptx", Viewtype.File); ("rar", Viewtype.File);
   ("rtf", Viewtype.File); ("spx", Viewtype.File); ("svg", Viewtype.File); ("tgs", Viewtype.File);
   ("tiff", Viewtype.File); ("tif", Viewtype.File); ("ttf", Viewtype.File); ("txt", Viewtype.File);
   ("vcard", Viewtype.Vcard); ("vcf", Viewtype.Vcard); ("wav", Viewtype.Audio); ("weba", Viewtype.File);
   ("webm", Viewtype.File); ("webp", Viewtype.Image); ("wmv", Viewtype.Video); ("xdc", Viewtype.Webxdc);
   ("xhtml", Viewtype.File); ("xls", Viewtype.File); ("xlsx", Viewtype.File); ("xml", Viewtype.File);
   ("zip", Viewtype.File)].

(** [truncate_by_lines], after the count of lines and characters: where the text is cut. *)
Definition DC_ELLIPSIS : str := lit "[...]".
Definition DC_DESIRED_TEXT_LINES : nat := 38.
Definition DC_DESIRED_TEXT_LINE_LEN : nat := 100.

Fixpoint break_point (max_lines max_line_len lines line_chars : nat) (before s : str) : option str :=
  match s with
  | [] => None
  | c :: s' =>
      let '(lines, line_chars) :=
        if (c =? LF)%N then (S lines, 0%nat)
        else if (max_line_len <? S line_chars)%nat then (S lines, 1%nat) else (lines, S line_chars) in
      if (lines =? max_lines)%nat then Some before
      else break_point max_lines max_line_len lines line_chars (before ++ [c]) s'
  end.

(** The text up to and with its last blank or line break. *)
Definition cut_at_blank (s : str) : str :=
  match trim_end_by (λ c, negb ((c =? SP) || (c =? LF)))%N s with
  | [] => s
  | t => t
  end.

Definition truncate_by_lines (buf : str) (max_lines max_line_len : nat) : str * bool :=
  match break_point max_lines max_line_len 0 0 [] buf with
  | Some text => (cut_at_blank text ++ DC_ELLIPSIS, true)
  | None => (buf, false)
  end.

(** [rm_legacy_display_elements]: each empty line starts anew. *)
Definition display_line (res : option str) (l : str) : option str :=
  let res := (λ r, match r with [] => l | _ => r ++ [CR; LF] ++ l end) <$> res in
  match l with [] => Some [] | _ => res end.

Definition rm_legacy_display_elements (text : str) : str := default [] (foldl display_line None (lines_of text)).

Definition u32_mul (a b : Z) : Z := (a * b) mod 4294967296.
Definition MAX_RCVD_IMAGE_PIXELS : Z := 50000000.

Section Parts.
Context `{!Platform, !Outside, !Json QrInvite, !OpenPgp, !Mailparse, !Contents, !Json SyncItem, !Json EnteredLoginParam,
          !Json ConfiguredLoginParamJson, !Intake}.

(** The account and the message while its parts are parsed. *)
Record PState := {
  p_core : Core;
  p_body : Body
}.

Abbreviation P := (SE PState core_error).

Definition on_account {X} (x : C X) : P X :=
  λ s, match x (p_core s) with (r, c) => (r, {| p_core := c; p_body := p_body s |}) end.

Definition body {X} (f : Body -> X) : P X := gets (λ s, f (p_body s)).
Definition edit (f : Body -> Body) : P unit := modify (λ s, {| p_core := p_core s; p_body := f (p_body s) |}).

Context (env : Envelope).

Definition env_header (h : HeaderDef) : option str := e_headers env !! lit (HeaderDef.get_headername h).
Definition chat_version : bool := has_chat_version (envelope_mime env).

(** [guess_msgtype_from_path_suffix]. *)
Definition guess_viewtype (path : str) : option Viewtype :=
  ext ← extension path;
  snd <$> head (base.filter (λ kv, lit kv.1 = str_to_lowercase ext) viewtypes_by_extension).

(** [get_attachment_filename]. *)
Definition or_value {X} (a b : option X) : option X := match a with Some x => Some x | None => b end.

Definition get_attachment_filename (mail : ParsedMail) : P (option str) :=
  let ps := ml_disposition_params mail in
  let name := or_value (param_value "filename" ps) (or_value (param_value "filename*" ps)
                (or_value (param_value "name" ps) (param_value "name" (ml_params mail)))) in
  name <- (match name with
           | Some n => ret (Some n)
           | None =>
               if bool_decide (ml_disposition mail = Attachment) then
                 match split_char 47 (ml_mimetype mail) with
                 | _ :: subtype :: _ => ret (Some (lit "file." ++ subtype))
                 | _ => fail NoFilename
                 end
               else ret None
           end) ;;
  ret (sanitize_bidi_characters <$> name).

(** [get_mime_type]. *)
Definition viewtype_of (m : Mime) (mail : ParsedMail) (filename : option str) : Viewtype :=
  if type_is "text" m then
    if subtype_is "vcard" m then Viewtype.Vcard
    else if (subtype_is "plain" m || subtype_is "html" m) && negb (is_attachment_disposition mail) then Viewtype.Text
    else Viewtype.File
  else if type_is "image" m then
    if subtype_is "gif" m then Viewtype.Gif else if subtype_is "svg" m then Viewtype.File else Viewtype.Image
  else if type_is "audio" m then Viewtype.Audio
  else if type_is "video" m then Viewtype.Video
  else if type_is "multipart" m then Viewtype.Unknown
  else if type_is "message" m then if is_attachment_disposition mail then Viewtype.File else Viewtype.Unknown
  else if type_is "application" m then
    if subtype_is "octet-stream" m then
      match filename with
      | Some f => if chat_version then Viewtype.File else default Viewtype.File (guess_viewtype f)
      | None => Viewtype.File
      end
    else Viewtype.File
  else Viewtype.Unknown.

Definition get_mime_type (mail : ParsedMail) (filename : option str) : P (Mime * Viewtype) :=
  m <- ok_or (parse_mime (ml_mimetype mail)) BrokenMail ;;
  ret (m, viewtype_of m mail filename).

(** [do_add_single_part]. *)
Definition do_add_single_part (p : MPart) : P unit :=
  let p := if bool_decide (is_Some (e_signature env))
           then set_mp_param (λ ps, set_int ps Param.GuaranteeE2ee 1) p else p in
  edit (λ b, set_b_parts (b_parts b ++ [p]) b).

(** [try_set_peer_key_from_file_part]. *)
Definition try_set_peer_key_from_file_part (data : list N) : P bool :=
  match utf8 data ≫= key_from_asc with
  | None => ret false
  | Some key => r <- ignore_err (on_account (import_public_key key)) ;; ret (bool_decide (is_Some r))
  end.

(** [do_add_single_file_part]: the part is not added if the file has a meaning of its own. *)
Definition add_file (typ : Viewtype) (ps : Params) (m : Mime) (raw_mime : str) (data : list N)
  (filename : str) (is_related : bool) : P unit :=
  match create_blob data filename with
  | None => ret tt
  | Some blob =>
      let ps := Params_set (Params_set (Params_set ps Param.File blob) Param.Filename filename) Param.MimeType raw_mime in
      do_add_single_part
        {| mp_typ := typ; mp_mimetype := Some m; mp_msg := []; mp_msg_raw := None; mp_bytes := N.of_nat (length data);
           mp_param := ps; mp_org_filename := Some filename; mp_error := None; mp_dehtml_failed := false;
           mp_is_related := is_related; mp_is_reaction := false |}
  end.

Definition do_add_single_file_part (msg_type : Viewtype) (m : Mime) (raw_mime : str) (data : list N)
  (filename : str) (is_related : bool) : P unit :=
  imported <- (if type_is "application" m && subtype_is "pgp-keys" m then try_set_peer_key_from_file_part data
               else ret false) ;;
  if (imported : bool) then ret tt
  else
    let add typ ps := add_file typ ps m raw_mime data filename is_related in
    if is_webxdc_file filename data then add Viewtype.Webxdc Params_new
    else if ends_with (lit ".kml") filename then
      if starts_with (lit "location") filename then edit (set_b_location_kml (kml_parse data))
      else if starts_with (lit "message") filename then edit (set_b_message_kml (kml_parse data))
      else add msg_type Params_new
    else if bool_decide (filename = lit "multi-device-sync.json") then
      wanted <- on_account (in_account (get_config_bool Config.SyncMsgs)) ;;
      when wanted (edit (set_b_sync_items (parse_sync_items (utf8_lossy data))))
    else if bool_decide (filename = lit "status-update.json") then
      edit (set_b_status_update (Some (utf8_lossy data)))
    else
      match msg_type with
      | Viewtype.Vcard =>
          match get_vcard_summary data with
          | Some summary => add Viewtype.Vcard (Params_set Params_new Param.Summary1 summary)
          | None => add Viewtype.File Params_new
          end
      | Viewtype.Image | Viewtype.Gif | Viewtype.Sticker =>
          match get_filemeta data with
          | Some (width, height) =>
              if (u32_mul width height <=? MAX_RCVD_IMAGE_PIXELS)%Z
              then add msg_type (set_i64 (set_i64 Params_new Param.Width width) Param.Height height)
              else add Viewtype.File Params_new
          | None => add Viewtype.File Params_new
          end
      | _ => add msg_type Params_new
      end.

(** [truncate_msg_text]. *)
Definition truncate_msg_text (text : str) : P (str * bool) :=
  bot <- on_account (in_account (get_config_bool Config.Bot)) ;;
  ret (if (bot : bool) then (text, false) else truncate_by_lines text DC_DESIRED_TEXT_LINES DC_DESIRED_TEXT_LINE_LEN).

(** [add_single_part_if_known]: a text. *)
Definition no_text : SimplifiedText :=
  {| Simplify.text := []; Simplify.is_forwarded := false; Simplify.is_cut := false; Simplify.top_quote := None;
     Simplify.footer := None |}.

Definition simplified (m : Mime) (data : str) : SimplifiedText * bool :=
  match data with
  | [] => (no_text, false)
  | _ =>
      if is_mime "text" "html" m then
        match dehtml data with
        | Some t => (t, false)
        | None => ({| Simplify.text := data; Simplify.is_forwarded := false; Simplify.is_cut := false;
                      Simplify.top_quote := None; Simplify.footer := None |}, true)
        end
      else (simplify data chat_version, false)
  end.

Definition flag_param (key : string) (value : str) (mail : ParsedMail) : bool :=
  match param_value key (ml_params mail) with Some v => eq_nocase v value | None => false end.

Definition unflowed (m : Mime) (mail : ParsedMail) (t : SimplifiedText) : str * option str :=
  if type_is "text" m && subtype_is "plain" m then
    let txt := if bool_decide (param_value "hp-legacy-display" (ml_params mail) = Some (lit "1"))
               then rm_legacy_display_elements (Simplify.text t) else Simplify.text t in
    if flag_param "format" (lit "flowed") mail then
      let delsp := flag_param "delsp" (lit "yes") mail in
      (unformat_flowed txt delsp, (λ q, unformat_flowed q delsp) <$> Simplify.top_quote t)
    else (txt, Simplify.top_quote t)
  else (Simplify.text t, Simplify.top_quote t).

Definition add_text_part (m : Mime) (mail : ParsedMail) (data : str) : P unit :=
  let is_html := is_mime "text" "html" m && negb (bool_decide (data = [])) in
  let '(t, dehtml_failed) := simplified m data in
  edit (λ b, set_b_mime_modified (b_mime_modified b || is_html
        || ((Simplify.is_forwarded t || Simplify.is_cut t || bool_decide (is_Some (Simplify.top_quote t)))
            && negb chat_version)) b) ;;;
  let '(txt, quote) := unflowed m mail t in
  cut <- truncate_msg_text txt ;;
  when cut.2 (edit (set_b_mime_modified true)) ;;;
  (if negb (bool_decide (cut.1 = [])) || bool_decide (is_Some quote) then
     do_add_single_part
       {| mp_typ := Viewtype.Text; mp_mimetype := Some m; mp_msg := cut.1; mp_msg_raw := Some data; mp_bytes := 0;
          mp_param := Params_set_optional Params_new Param.Quote quote; mp_org_filename := None; mp_error := None;
          mp_dehtml_failed := dehtml_failed; mp_is_related := false; mp_is_reaction := false |}
   else ret tt) ;;;
  when (Simplify.is_forwarded t) (edit (set_b_forwarded true)) ;;;
  edit (λ b, match b_footer b with
             | None => if is_mime "text" "plain" m then set_b_footer (Some (default [] (Simplify.footer t))) b else b
             | Some _ => b
             end).

(** [add_single_part_if_known]. *)
Definition add_single_part_if_known (mail : ParsedMail) (is_related : bool) : P bool :=
  filename <- get_attachment_filename mail ;;
  mt <- get_mime_type mail filename ;;
  let '(m, msg_type) := mt in
  old <- body (λ b, length (b_parts b)) ;;
  let added := n <- body (λ b, length (b_parts b)) ;; ret (old <? n)%nat in
  match filename with
  | Some filename =>
      data <- ok_or (ml_body_raw mail) BrokenMail ;;
      do_add_single_file_part msg_type m (str_to_lowercase (ml_mimetype mail)) data filename is_related ;;;
      added
  | None =>
      if type_is "text" m && bool_decide (ml_disposition mail = Extension (lit "reaction")) then
        match ml_body mail with
        | None => ret false
        | Some data =>
            do_add_single_part
              {| mp_typ := Viewtype.Text; mp_mimetype := Some m; mp_msg := data; mp_msg_raw := None; mp_bytes := 0;
                 mp_param := Params_new; mp_org_filename := None; mp_error := None; mp_dehtml_failed := false;
                 mp_is_related := false; mp_is_reaction := true |} ;;;
            ret true
        end
      else if type_is "text" m || type_is "html" m then
        match ml_body mail with
        | None => ret false
        | Some data => add_text_part m mail data ;;; added
        end
      else ret false
  end.

(** [process_report]. *)
Definition process_report (report : ParsedMail) : P (option Report) :=
  match ml_subparts report with
  | _ :: second :: _ =>
      data <- ok_or (ml_body_raw second) BrokenMail ;;
      fields <- ok_or (parse_fields data) BrokenMail ;;
      let fs := fields.1 in
      ret (match get_header_value fs HeaderDef.Disposition with
           | None => None
           | Some _ =>
               Some {| original_message_id :=
                         or_value (get_header_value fs HeaderDef.OriginalMessageId)
                           (get_header_value (ml_headers report) HeaderDef.InReplyTo) ≫= parse_message_id;
                       additional_message_ids :=
                         match get_header_value fs HeaderDef.AdditionalMessageIds with
                         | Some v => omap parse_message_id (split_char SP v)
                         | None => []
                         end |}
           end)
  | _ => fail NoReport
  end.

(** [process_delivery_status]. *)
Definition delivery_failed (status_body : list N) : P bool :=
  fields <- ok_or (parse_fields status_body) BrokenMail ;;
  if (fields.2 <=? length status_body)%nat then
    fields <- ok_or (parse_fields (drop fields.2 status_body)) BrokenMail ;;
    ret (match get_first_value fields.1 (lit "action") with
         | Some action => bool_decide (action = lit "failed")
         | None => true
         end)
  else ret true.

Definition is_original (p : ParsedMail) : bool :=
  contains (lit "rfc822") (ml_mimetype p) || has_type "message/global" p || has_type "message/global-headers" p.

Definition process_delivery_status (report : ParsedMail) : P (option DeliveryReport) :=
  match ml_subparts report with
  | _ :: status :: rest =>
      if negb (has_type "message/delivery-status" status) && negb (has_type "message/global-delivery-status" status)
      then ret None
      else
        status_body <- ok_or (ml_body_raw status) BrokenMail ;;
        failure <- delivery_failed status_body ;;
        match head rest with
        | Some original =>
            if negb (is_original original) then ret None
            else
              data <- ok_or (ml_body_raw original) BrokenMail ;;
              fields <- ok_or (parse_fields data) BrokenMail ;;
              ret ((λ mid, {| dr_rfc724_mid := mid; dr_failure := failure |})
                     <$> (get_header_value fields.1 HeaderDef.MessageId ≫= parse_message_id))
        | None => ret None
        end
  | _ => ret None
  end.

(** ** The tree of parts *)

(** From the last part to the first, until one gives an answer. *)
Fixpoint rev_first {X Y} (f : X -> P (option Y)) (l : list X) : P (option Y) :=
  match l with
  | [] => ret None
  | x :: l' => r <- rev_first f l' ;; match r with Some y => ret (Some y) | None => f x end
  end.

Fixpoint rev_each {X} (f : X -> P unit) (l : list X) : P unit :=
  match l with
  | [] => ret tt
  | x :: l' => rev_each f l' ;;; f x
  end.

(** Whether a part was added by one of all. *)
Fixpoint all_parts {X} (f : X -> P bool) (l : list X) : P bool :=
  match l with
  | [] => ret false
  | x :: l' => a <- f x ;; b <- all_parts f l' ;; ret (a || b)
  end.

(** The calendar of a multipart/alternative becomes an attachment. *)
Definition add_calendar (mail : ParsedMail) (is_related : bool) (part : ParsedMail) : P unit :=
  m <- ok_or (parse_mime (ml_mimetype part)) BrokenMail ;;
  if type_is "text" m && subtype_is "calendar" m then
    filename <- get_attachment_filename part ;;
    data <- ok_or (ml_body_raw mail) BrokenMail ;;
    do_add_single_file_part Viewtype.File m (str_to_lowercase (ml_mimetype mail)) data
      (default (lit "calendar.ics") filename) is_related
  else ret tt.

(** [handle_multiple]; [rec] parses a part. *)
Definition handle_alternative (rec : ParsedMail -> P bool) (mail : ParsedMail) (subparts : list ParsedMail)
  (is_related : bool) : P bool :=
  r <- rev_first (λ part,
         filename <- get_attachment_filename part ;;
         mt <- get_mime_type part filename ;;
         if is_mime "text" "plain" mt.1 || type_is "multipart" mt.1
         then added <- rec part ;; ret (Some added) else ret None) subparts ;;
  rev_each (add_calendar mail is_related) subparts ;;;
  added <- (match r with
            | Some true => ret true
            | _ =>
                r <- rev_first (λ part, added <- rec part ;; ret (if (added : bool) then Some tt else None)) subparts ;;
                ret (bool_decide (is_Some r))
            end) ;;
  when (added && (1 <? length subparts)%nat) (edit (set_b_mime_modified true)) ;;;
  ret added.

Definition handle_report (rec : ParsedMail -> P bool) (mail : ParsedMail) (subparts : list ParsedMail)
  (is_related : bool) : P bool :=
  match subparts with
  | _ :: second :: _ =>
      let typ := param_value "report-type" (ml_params mail) in
      if bool_decide (typ = Some (lit "disposition-notification")) then
        report <- process_report mail ;;
        (match report with Some r => edit (λ b, set_b_mdn_reports (b_mdn_reports b ++ [r]) b) | None => ret tt end) ;;;
        edit (λ b, set_b_parts (b_parts b ++ [default_part]) b) ;;;
        ret true
      else if bool_decide (typ = Some (lit "delivery-status")) || bool_decide (typ = None) then
        report <- process_delivery_status mail ;;
        (match report with Some r => edit (set_b_delivery_report (Some r)) | None => ret tt end) ;;;
        all_parts rec subparts
      else if bool_decide (typ = Some (lit "multi-device-sync")) || bool_decide (typ = Some (lit "status-update")) then
        add_single_part_if_known second is_related ;;; ret false
      else all_parts rec subparts
  | _ => ret false
  end.

Definition handle_multiple (rec : ParsedMail -> P bool) (mail : ParsedMail) (subparts : list ParsedMail)
  (is_related : bool) : P bool :=
  filename <- get_attachment_filename mail ;;
  mt <- get_mime_type mail filename ;;
  let m := mt.1 in
  if type_is "multipart" m && subtype_is "alternative" m then handle_alternative rec mail subparts is_related
  else if type_is "multipart" m && subtype_is "signed" m then
    match subparts with first :: _ => rec first | [] => ret false end
  else if type_is "multipart" m && subtype_is "report" m then handle_report rec mail subparts is_related
  else all_parts rec subparts.

(** [parse_mime_recursive]. *)
Fixpoint parse_mime_recursive (is_related : bool) (mail : ParsedMail) : P bool :=
  let mimetype := str_to_lowercase (ml_mimetype mail) in
  let is_related := is_related || bool_decide (mimetype = lit "multipart/related") in
  match mail with
  | Mail _ _ params _ _ _ body_raw _ body_mail subparts =>
      if starts_with (lit "multipart") mimetype && bool_decide (is_Some (param_value "boundary" params)) then
        handle_multiple (parse_mime_recursive is_related) mail subparts is_related
      else if bool_decide (mimetype = lit "message/rfc822") && negb (is_attachment_disposition mail) then
        match body_raw with
        | None => fail BrokenMail
        | Some [] => ret false
        | Some _ =>
            match body_mail with
            | None => fail BrokenMail
            | Some inner => parse_mime_recursive is_related inner
            end
        end
      else add_single_part_if_known mail is_related
  end.

(** ** After the parts *)

(** [maybe_remove_bad_parts]. *)
Definition is_image (p : MPart) : bool := bool_decide (mp_typ p ∈ [Viewtype.Image; Viewtype.Gif]).
Definition is_related_image (p : MPart) : bool := is_image p && mp_is_related p.

Fixpoint first_images (is_first_image : bool) (l : list MPart) : list MPart :=
  match l with
  | [] => []
  | p :: l' =>
      let rest := first_images (is_first_image && negb (is_image p)) l' in
      if is_first_image || negb (is_related_image p) then p :: rest else rest
  end.

Definition good_parts (l : list MPart) : list MPart :=
  match base.filter (λ p, mp_dehtml_failed p = false) l with
  | [] => take 1 l
  | good => good
  end.

Definition maybe_remove_bad_parts (b : Body) : Body :=
  let l := good_parts (b_parts b) in
  let l := if negb chat_version && b_mime_modified b
              && (1 <? length (base.filter (λ p, is_related_image p = true) l))%nat
           then first_images true l else l in
  set_b_parts l b.

(** [is_schleuder_message] and [maybe_remove_inline_mailinglist_footer]. *)
Definition is_schleuder_message : bool :=
  bool_decide (env_header HeaderDef.ListHelp = Some (lit "<https://schleuder.org/>")).

Definition maybe_remove_inline_mailinglist_footer (b : Body) : Body :=
  let l := b_parts b in
  if is_mailinglist_message (envelope_mime env) && negb is_schleuder_message
     && (length (base.filter (λ p, mp_typ p = Viewtype.Text) l) =? 2)%nat
     && bool_decide (mp_typ <$> list.last l = Some Viewtype.Text)
  then set_b_parts (take (length l - 1) l) b else b.

(** [heuristically_parse_ndn]: of several identifiers that are known, the last one counts. *)
Fixpoint after_marker (marker s : str) : option str :=
  match strip_prefix marker s with
  | Some rest => Some rest
  | None => match s with [] => None | _ :: s' => after_marker marker s' end
  end.

Definition mentioned_ids (l : list MPart) : list str :=
  omap (λ line, after_marker (lit "Message-ID:") line ≫= parse_message_id)
    (mjoin (lines_of <$> omap mp_msg_raw l)).

Definition to_ascii_lowercase (s : str) : str := nocase <$> s.

Definition heuristically_parse_ndn : P unit :=
  let maybe_ndn := match env_header HeaderDef.From_ with
                   | Some from =>
                       let from := to_ascii_lowercase from in
                       contains (lit "mailer-daemon") from || contains (lit "mail-daemon") from
                   | None => false
                   end in
  known <- body b_delivery_report ;;
  if maybe_ndn && bool_decide (known = None) then
    ids <- body (λ b, mentioned_ids (b_parts b)) ;;
    for_each ids (λ mid,
      r <- ignore_err (on_account (rfc724_mid_exists mid)) ;;
      match r with
      | Some (Some _) => edit (set_b_delivery_report (Some {| dr_rfc724_mid := mid; dr_failure := true |}))
      | _ => ret tt
      end)
  else ret tt.

(** [parse_system_message_headers]. *)
Definition parse_system_message_headers (b : Body) : Body :=
  let known h := bool_decide (is_Some (env_header h)) in
  match env_header HeaderDef.ChatContent with
  | Some value =>
      let says x := bool_decide (value = lit x) in
      if says "location-streaming-enabled" then set_b_system_message SystemMessage.LocationStreamingEnabled b
      else if says "ephemeral-timer-changed" then set_b_system_message SystemMessage.EphemeralTimerChanged b
      else if says "protection-enabled" then set_b_system_message SystemMessage.ChatProtectionEnabled b
      else if says "protection-disabled" then set_b_system_message SystemMessage.ChatProtectionDisabled b
      else if says "group-avatar-changed" then set_b_system_message SystemMessage.GroupImageChanged b
      else if says "call-accepted" then set_b_system_message SystemMessage.CallAccepted b
      else if says "call-ended" then set_b_system_message SystemMessage.CallEnded b
      else b
  | None =>
      if known HeaderDef.ChatGroupMemberRemoved then set_b_system_message SystemMessage.MemberRemovedFromGroup b
      else if known HeaderDef.ChatGroupMemberAdded then set_b_system_message SystemMessage.MemberAddedToGroup b
      else if known HeaderDef.ChatGroupNameChanged then set_b_system_message SystemMessage.GroupNameChanged b
      else if known HeaderDef.ChatGroupDescriptionChanged
      then set_b_system_message SystemMessage.GroupDescriptionChanged b
      else b
  end.

(** [avatar_action_from_header]. *)
Definition avatar_action_from_header (value : str) : P (option AvatarAction) :=
  if bool_decide (value = lit "0") then ret (Some AvatarDelete)
  else
    match strip_prefix (lit "base64:") (mjoin (split_ascii_whitespace value)) with
    | Some base64 =>
        r <- ok_or (store_from_base64 base64) BadImage ;;
        ret (AvatarChange <$> r)
    | None =>
        parts <- body b_parts ;;
        match list_find (λ p, mp_org_filename p = Some value) parts with
        | Some (i, p) =>
            match Params_get (mp_param p) Param.File with
            | Some blob =>
                edit (set_b_parts (take i parts ++ drop (S i) parts)) ;;;
                ret (Some (AvatarChange blob))
            | None => ret None
            end
        | None => ret None
        end
    end.

(** [parse_avatar_headers]. *)
Definition parse_avatar_headers : P unit :=
  (match env_header HeaderDef.ChatGroupAvatar with
   | Some v => a <- avatar_action_from_header v ;; edit (set_b_group_avatar a)
   | None => ret tt
   end) ;;;
  match env_header HeaderDef.ChatUserAvatar with
  | Some v => a <- avatar_action_from_header v ;; edit (set_b_user_avatar a)
  | None => ret tt
  end.

(** [parse_videochat_headers]. *)
Definition videochat (p : MPart) : MPart :=
  let p := match env_header HeaderDef.ChatWebrtcRoom with
           | Some room =>
               if bool_decide (default [] (env_header HeaderDef.ChatContent) = lit "call")
               then set_mp_param (λ ps, Params_set ps Param.WebrtcRoom room) (set_mp_typ Viewtype.Call p) else p
           | None =>
               match env_header HeaderDef.ChatWebrtcAccepted with
               | Some accepted => set_mp_param (λ ps, Params_set ps Param.WebrtcAccepted accepted) p
               | None => p
               end
           end in
  match env_header HeaderDef.ChatWebrtcHasVideoInitially with
  | Some v => set_mp_param (λ ps, Params_set ps Param.WebrtcHasVideoInitially v) p
  | None => p
  end.

Definition parse_videochat_headers (b : Body) : Body :=
  match b_parts b with p :: l => set_b_parts (videochat p :: l) b | [] => b end.

(** [squash_attachment_parts]. *)
Definition has_file (t : Viewtype) : bool :=
  match t with Viewtype.Unknown | Viewtype.Text | Viewtype.Call => false | _ => true end.

Definition squash_attachment_parts (b : Body) : Body :=
  match b_parts b with
  | [textpart; filepart] =>
      if bool_decide (mp_typ textpart = Viewtype.Text) && has_file (mp_typ filepart) then
        let p := set_mp_msg (mp_msg textpart) filepart in
        let p := match Params_get (mp_param textpart) Param.Quote with
                 | Some quote => set_mp_param (λ ps, Params_set ps Param.Quote quote) p
                 | None => p
                 end in
        set_b_parts [p] b
      else b
  | _ => b
  end.

(** [parse_attachments]. *)
Definition attachment (p : MPart) : MPart :=
  let p := if bool_decide (mp_typ p = Viewtype.Audio) && bool_decide (is_Some (env_header HeaderDef.ChatVoiceMessage))
           then set_mp_typ Viewtype.Voice p else p in
  let p := if is_image p && bool_decide (env_header HeaderDef.ChatContent = Some (lit "sticker"))
           then set_mp_typ Viewtype.Sticker p else p in
  if bool_decide (mp_typ p ∈ [Viewtype.Audio; Viewtype.Voice; Viewtype.Video]) then
    match env_header HeaderDef.ChatDuration with
    | Some field =>
        let ms := default 0%Z (parse_i32 field) in
        if (0 <? ms)%Z && (ms <? 24 * 60 * 60 * 1000)%Z then set_mp_param (λ ps, set_int ps Param.Duration ms) p else p
    | None => p
    end
  else p.

Definition parse_attachments (b : Body) : Body :=
  match b_parts b with [p] => set_b_parts [attachment p] b | _ => b end.

(** The subject in front of the text. *)
Definition colon_at (s : str) : option N :=
  match span (λ c, negb (c =? 58)%N) s with
  | (before, _ :: _) => Some (byte_len before)
  | _ => None
  end.

Definition prepends_subject (subject : str) : bool :=
  let m := envelope_mime env in
  let plain := bool_decide (e_decryption_error env = None)
               && (bool_decide (colon_at subject ∈ [Some 2%N; Some 3%N]) || chat_version
                   || contains (lit "Chat:") subject) in
  negb plain || (is_mailinglist_message m && negb chat_version).

Definition with_subject (subject : str) (l : list MPart) : list MPart :=
  match list_find (λ p, mp_msg p ≠ [] ∧ mp_is_reaction p = false) l with
  | Some (i, p) => <[i := set_mp_msg (subject ++ [SP; 8211%N; SP] ++ mp_msg p) p]> l
  | None => l
  end.

Definition mark (key : Param) (l : list MPart) : list MPart := set_mp_param (λ ps, set_int ps key 1) <$> l.

Definition mark_last (key : Param) (l : list MPart) : list MPart :=
  match reverse l with p :: r => reverse r ++ mark key [p] | [] => [] end.

(** Whether the sender wants a read receipt. *)
Definition wants_mdn : P bool :=
  parts <- body b_parts ;;
  let asked := bool_decide (e_decryption_error env = None)
               && (negb (bool_decide (parts = []))
                   || match e_pre_message env with Pre _ _ => true | _ => false end) in
  match asked, e_notification_to env with
  | true, Some to =>
      is_self <- on_account (in_db (is_self_addr str_to_lowercase (info_addr (e_from env)))) ;;
      ret (negb is_self && bool_decide (str_to_lowercase (info_addr (e_from env)) = str_to_lowercase (info_addr to)))
  | _, _ => ret false
  end.

(** The part of a message without parts: its subject. *)
Definition subject_part (wants : bool) (b : Body) : MPart :=
  let p := set_mp_typ Viewtype.Text default_part in
  let p := if wants then set_mp_param (λ ps, set_int ps Param.WantsMdn 1) p else p in
  match get_subject (envelope_mime env) with
  | Some s => if negb chat_version && bool_decide (b_status_update b = None) then set_mp_msg s p else p
  | None => p
  end.

(** [parse_headers]. *)
Definition parse_headers : P unit :=
  edit parse_system_message_headers ;;;
  parse_avatar_headers ;;;
  edit parse_videochat_headers ;;;
  edit (λ b, match b_delivery_report b with None => squash_attachment_parts b | Some _ => b end) ;;;
  bot <- on_account (in_account (get_config_bool Config.Bot)) ;;
  let subject := get_subject (envelope_mime env) in
  (match subject with
   | Some subject =>
       when (negb bot && prepends_subject subject) (edit (λ b, set_b_parts (with_subject subject (b_parts b)) b))
   | None => ret tt
   end) ;;;
  edit (λ b, if b_forwarded b then set_b_parts (mark Param.Forwarded (b_parts b)) b else b) ;;;
  edit parse_attachments ;;;
  wants <- wants_mdn ;;
  when wants (edit (λ b, set_b_parts (mark_last Param.WantsMdn (b_parts b)) b)) ;;;
  b <- body (λ b, b) ;;
  (if bool_decide (b_parts b = []) && bool_decide (b_mdn_reports b = []) then
     do_add_single_part (subject_part wants b)
   else ret tt) ;;;
  edit (λ b, if bool_decide (b_is_bot b = Some true) then set_b_parts (mark Param.Bot (b_parts b)) b else b).

(** The parts of [from_bytes]: of the payload, or the text that it cannot be decrypted. *)
Definition cannot_decrypt_text : str :=
  lit "[This message cannot be decrypted." ++ [LF; LF; 8226%N]
  ++ lit " It might already help to simply reply to this message and ask the sender to send the message again."
  ++ [LF; LF; 8226%N]
  ++ lit " If you just re-installed Delta Chat then it is best if you re-setup Delta Chat now and choose "
  ++ [34%N] ++ lit "Add as second device" ++ [34%N] ++ lit " or import a backup.]".

Definition undecryptable_part (e : core_error) : MPart :=
  {| mp_typ := Viewtype.Text; mp_mimetype := None; mp_msg := cannot_decrypt_text;
     mp_msg_raw := Some cannot_decrypt_text; mp_bytes := 0; mp_param := Params_new; mp_org_filename := None;
     mp_error := Some (lit "Decrypting failed: " ++ error_text e); mp_dehtml_failed := false; mp_is_related := false;
     mp_is_reaction := false |}.

Definition note_bot (b : Body) : Body :=
  let is_location_only := bool_decide (is_Some (b_location_kml b)) && bool_decide (b_parts b = []) in
  if bool_decide (b_mdn_reports b = []) && negb is_location_only
     && match b_sync_items b with None => true | Some _ => false end && bool_decide (b_status_update b = None)
  then set_b_is_bot (Some (bool_decide (e_headers env !! lit "auto-submitted" = Some (lit "auto-generated")))) b
  else b.

Definition parse_body (content : result ParsedMail core_error) : P unit :=
  (match content with
   | Ok mail => parse_mime_recursive false mail ;;; ret tt
   | Err e => do_add_single_part (undecryptable_part e)
   end) ;;;
  edit note_bot ;;;
  edit maybe_remove_bad_parts ;;;
  edit maybe_remove_inline_mailinglist_footer ;;;
  heuristically_parse_ndn ;;;
  parse_headers.
End Parts.

(** ** The whole *)

Section FromBytes.
Context `{!Platform, !Outside, !Json QrInvite, !OpenPgp, !Mailparse, !Contents, !Json SyncItem, !Json EnteredLoginParam,
          !Json ConfiguredLoginParamJson, !Intake}.

(** [MimeMessage::from_bytes]. *)
Definition from_bytes (now : Z) (bytes : list N) : C Parsed :=
  mail <- ok_or (parse_mail bytes) BrokenMail ;;
  r <- parse_envelope now mail ;;
  let '(env, content, decoded) := r in
  λ s, match parse_body env content {| p_core := s; p_body := empty_body |} with
       | (Ok _, s') => (Ok {| pd_envelope := env; pd_body := p_body s'; pd_decoded_data := decoded |}, p_core s')
       | (Err e, s') => (Err e, p_core s')
       end.

(** What reception reads of the parsed message. *)
Definition part_of (p : MPart) : Part :=
  {| p_typ := mp_typ p; p_msg := mp_msg p; p_param := mp_param p; p_is_reaction := mp_is_reaction p;
     p_error := mp_error p |}.

Definition received (p : Parsed) : InMime :=
  let e := pd_envelope p in
  let b := pd_body p in
  {| mime := {| headers := known_headers (e_headers e); timestamp_sent := e_timestamp_sent e;
                gossiped_keys := (λ k, hex (key_fingerprint k.1)) <$> e_gossiped_keys e;
                group_avatar := b_group_avatar b; signature := hex <$> (fst <$> e_signature e);
                first_part_error := head (b_parts b) ≫= mp_error |};
     incoming := e_incoming e; from := e_from e; recipients := e_recipients e; past_members := e_past_members e;
     recipient_fps := match e_signature e with Some (_, fps) => fps | None => [] end;
     autocrypt_fp := e_autocrypt_fingerprint e;
     gossip_verified := dom (base.filter (λ kv, kv.2.2 = true) (e_gossiped_keys e));
     parts := part_of <$> b_parts b;
     mdn_reports := (λ r, option_list (original_message_id r) ++ additional_message_ids r) <$> b_mdn_reports b;
     delivery_report := bool_decide (is_Some (b_delivery_report b));
     has_sync_items := match b_sync_items b with Some _ => true | None => false end;
     is_system_message := b_system_message b; decryption_error := e_decryption_error e;
     pre_message := e_pre_message e; webxdc_status_update := b_status_update b; list_post := e_list_post e;
     location_kml := match b_location_kml b with Some _ => true | None => false end;
     is_mime_modified := b_mime_modified b; timestamp_rcvd := e_timestamp_rcvd e |}.
End FromBytes.
