(* ===== verification/MimeTrust.v ===== *)
(** MimeTrust: what a parsed mail can be trusted for: headers that count in a signed and encrypted
    message come from inside it, an unsigned one has none of the headers only signed ones may have,
    parts are marked as encrypted only in signed messages, and shared secrets are bound to their
    owners. *)
From stdpp Require Import sorting.
From S2P Require Import Prelude Monad Ids Params Membership ContactTools Headers MsgTable Simplify FormatFlowed.
From S2P Require Import Db Contacts Recipients GroupChanges LoginParam Config Sync ChatDb Verification SecureJoin ChatAssign Mime MimeParser.

(** ** Merging headers *)

Section Merging.
Context `{!Platform}.

(** The last value of a header. *)
Definition last_value (k : str) (l : list MailHeader) : option str :=
  list.last (h_value <$> base.filter (λ h, str_to_lowercase (h_key h) = k) l).

Definition or_else {X} (a b : option X) : option X := match a with Some x => Some x | None => b end.

Lemma last_value_cons k h l :
  last_value k (h :: l) = or_else (last_value k l) (if decide (str_to_lowercase (h_key h) = k) then Some (h_value h) else None).
Proof.
  unfold last_value. rewrite filter_cons. destruct (decide _) as [Hk|Hk].
  - rewrite fmap_cons, last_cons. by destruct (list.last _).
  - by destruct (list.last _).
Qed.

Lemma merge_fields_lookup l m to k :
  k ≠ notification_to → (foldl merge_field (m, to) l).1 !! k = or_else (last_value k l) (m !! k).
Proof.
  intros Hk. revert m to. induction l as [|h l IH]; intros m to; [done|]. simpl. rewrite last_value_cons.
  unfold merge_field at 2. simpl. case_bool_decide as Hn.
  - rewrite IH, Hn. rewrite decide_False by congruence. by destruct (last_value k l).
  - rewrite IH. destruct (decide (str_to_lowercase (h_key h) = k)) as [<-|Hne].
    + rewrite lookup_insert_eq. by destruct (last_value _ l).
    + rewrite lookup_insert_ne by done. by destruct (last_value k l).
Qed.

Lemma merge_fields_notification l m to : m !! notification_to = None → (foldl merge_field (m, to) l).1 !! notification_to = None.
Proof.
  revert m to. induction l as [|h l IH]; intros m to Hm; [done|]. simpl. unfold merge_field at 2. simpl.
  case_bool_decide; apply IH; [done|]. by rewrite lookup_insert_ne.
Qed.

(** The headers after a section: its own, and the earlier ones it does not discard. *)
Lemma merge_headers_lookup part f k :
  k ≠ notification_to →
  f_headers (merge_headers part f) !! k
  = or_else (last_value k (ml_headers part))
      (if has_header_protection part || is_protected k then None else f_headers f !! k).
Proof.
  intros Hk. unfold merge_headers.
  destruct (foldl merge_field _ _) as [m to] eqn:E. simpl. change m with (m, to).1. rewrite <-E, merge_fields_lookup by done.
  f_equal. destruct (_ || _) eqn:Hb.
  - apply map_lookup_filter_None. right. intros v _. simpl. by rewrite Hb.
  - destruct (f_headers f !! k) as [v|] eqn:Ev.
    + by apply map_lookup_filter_Some.
    + apply map_lookup_filter_None. by left.
Qed.

Lemma notification_protected : is_protected notification_to = true.
Proof. by vm_compute. Qed.

Lemma merge_headers_notification part f : f_headers (merge_headers part f) !! notification_to = None.
Proof.
  unfold merge_headers. destruct (foldl merge_field _ _) as [m to] eqn:E. simpl. change m with (m, to).1. rewrite <-E.
  apply merge_fields_notification, map_lookup_filter_None. right. intros v _. simpl.
  by rewrite notification_protected, orb_true_r.
Qed.

(** ** Secured headers *)

(** The headers that may only be in signed messages, and the two steps of a handshake that are not
    signed. *)
Record unsecured (encrypted : bool) (m : gmap str str) : Prop := {
  us_fingerprint : m !! lit "secure-join-fingerprint" = None;
  us_verified : m !! lit "chat-verified" = None;
  us_gossip : m !! lit "autocrypt-gossip" = None;
  us_auth : is_Some (m !! lit "secure-join-auth") →
              encrypted = true ∧ m !! lit "secure-join" = Some (lit "vc-request-pubkey");
  us_step v : m !! lit "secure-join" = Some v →
              v = lit "vc-request" ∨ v = lit "vg-request" ∨ (encrypted = true ∧ v = lit "vc-request-pubkey")
}.

Lemma remove_secured_unsecured encrypted m : unsecured encrypted (remove_secured_headers encrypted m).
Proof.
  unfold remove_secured_headers. set (m1 := base.delete _ (base.delete _ (base.delete _ m))).
  assert (m1 !! lit "secure-join-fingerprint" = None) as H1 by (unfold m1; by simplify_map_eq).
  assert (m1 !! lit "chat-verified" = None) as H2 by (unfold m1; by simplify_map_eq).
  assert (m1 !! lit "autocrypt-gossip" = None) as H3 by (unfold m1; by simplify_map_eq).
  clearbody m1. destruct (bool_decide _ && encrypted) eqn:E.
  - apply andb_true_iff in E as [E ->]. apply bool_decide_eq_true in E. split; try done. intros v Hv.
    rewrite E in Hv. injection Hv as <-. auto.
  - rewrite lookup_delete_ne by done. destruct (m1 !! lit "secure-join") as [v|] eqn:Es; [destruct (_ || _) eqn:Ev|].
    all: split; rewrite ?lookup_delete_ne by done; try done; rewrite ?lookup_delete_eq; try by intros [? ?].
    + rewrite Es. intros w [= <-]. apply orb_true_iff in Ev as [->%bool_decide_eq_true| ->%bool_decide_eq_true]; auto.
    + done.
    + intros w Hw. congruence.
Qed.
End Merging.

(** ** How an envelope is made *)

Section Trust.
Context {PF : Platform} {OS : Outside} {JQ : Json QrInvite} {OP : OpenPgp} {MP : Mailparse} {CN : Contents}
  {JS : Json SyncItem} {JE : Json EnteredLoginParam} {JC : Json ConfiguredLoginParamJson} {IN : Intake}.

Definition some_signature (l : list (Fingerprint * list Fingerprint)) : bool := negb (bool_decide (l = [])).

(** The steps of [parse_envelope] with their results: the outer fields and sender, what [decrypt]
    gave, the keys, the payload and its signatures, the merged fields. *)
Record made (mail : ParsedMail) (s : Core) (env : Envelope) (content : result ParsedMail core_error)
  (from : SingleInfo) (f f' : Fields) (o : Opened) (keys : list (list N))
  (sigs : list (Fingerprint * list Fingerprint)) : Prop := {
  md_outer mimetype : parse_mime (ml_mimetype mail) = Some mimetype → f = outer_fields mimetype mail;
  md_from : f_from f = Some from;
  md_opened : ∃ s', open_mail mail s = (Ok o, s');
  md_payload : payload o keys = (content, sigs);
  md_expected : ∃ s1 s2, check_expected (op_expected o) sigs s1 = (Ok tt, s2);
  md_merged : ∃ s1 s2, merge_payload content (op_encrypted o) (some_signature sigs) from f s1
                       = (Ok (f', e_from env, e_gossiped_keys env), s2);
  md_headers : e_headers env = if some_signature sigs then f_headers f'
                               else remove_secured_headers (op_encrypted o) (f_headers f');
  md_signature : e_signature env = last_signature (if op_encrypted o then sigs else []);
  md_error : e_decryption_error env = match content with Err e => Some (error_text e) | Ok _ => None end;
  md_rest : e_recipients env = f_recipients f' ∧ e_past_members env = f_past_members f'
            ∧ e_list_post env = f_list_post f' ∧ e_notification_to env = f_notification_to f'
}.

Lemma is_self_state a s r s' : in_db (is_self_addr str_to_lowercase a) s = (Ok r, s') → s' = s.
Proof. unfold in_db, is_self_addr, gets. intros [= _ <-]. by destruct s. Qed.

Lemma parse_envelope_made now mail s env content decoded s' :
  parse_envelope now mail s = (Ok (env, content, decoded), s') →
  ∃ mimetype from f f' o keys sigs, parse_mime (ml_mimetype mail) = Some mimetype
    ∧ made mail s env content from f f' o keys sigs.
Proof.
  unfold parse_envelope. intros (mimetype & s1 & H1 & H)%bind_ok.
  destruct (parse_mime (ml_mimetype mail)) as [mt|] eqn:Em; [|done]. injection H1 as -> <-.
  apply bind_ok in H as (from & s1 & H2 & H). unfold ok_or in H2.
  destruct (f_from (outer_fields mimetype mail)) as [fr|] eqn:Ef; [|done]. injection H2 as <- <-.
  apply bind_ok in H as (is_self & s1 & H3 & H). apply is_self_state in H3 as ->.
  apply bind_ok in H as (o & s2 & H4 & H). cbv zeta in H.
  apply bind_ok in H as ([] & s3 & H5 & H). apply bind_ok in H as (keyring & s4 & H6 & H).
  apply bind_ok in H as (issuers & s5 & H7 & H).
  destruct (payload o (keyring ++ issuers)) as [content' sigs] eqn:Ep.
  apply bind_ok in H as ([] & s6 & H8 & H). apply bind_ok in H as ([[f' from'] gossiped] & s7 & H9 & H).
  apply bind_ok in H as (pre & s8 & H10 & H). apply bind_ok in H as (inc & s9 & H11 & H).
  unfold ret in H. injection H as <- <- <- <-.
  exists mimetype, fr, (outer_fields mimetype mail), f', o, (keyring ++ issuers), sigs. split; [done|].
  split; simpl; try done.
  - intros mt Hmt. rewrite Em in Hmt. by injection Hmt as <-.
  - by exists s2.
  - by exists s5, s6.
  - by exists s6, s7.
  - unfold some_signature. by destruct (bool_decide (sigs = [])).
  - by destruct (negb (bool_decide (sigs = []))).
Qed.
(** ** Signatures *)

(** A key with the fingerprint verified the signature of the message, or the signature next to the
    signed part in it. *)
Definition signed_by (fp : Fingerprint) (msg : Decrypted) (inner : ParsedMail) : Prop :=
  ∃ k, key_fingerprint k = fp
    ∧ ((∃ rs, d_verify msg k = Some rs)
       ∨ ∃ first second sig, ml_subparts inner = [first; second] ∧ ml_body_raw second = Some sig
           ∧ detached_verify k (ml_raw first) sig = true).

Lemma last_signature_elem l x : last_signature l = Some x → x ∈ l.
Proof.
  unfold last_signature. destruct l as [|y l]; [done|]. intros [= <-].
  destruct ((y :: l) !! _) as [z|] eqn:E; simpl; [by eapply list_elem_of_lookup_2|by left].
Qed.

Lemma last_signature_None l : last_signature l = None → l = [].
Proof. by destruct l. Qed.

Lemma add_signature_elem fp rs l x : x ∈ add_signature fp rs l → x = (fp, rs) ∨ x ∈ l.
Proof.
  unfold add_signature. rewrite elem_of_app, list_elem_of_singleton. intros [H|H]; [|by left].
  apply list_elem_of_filter in H as [_ H]. by right.
Qed.

Lemma valid_signature_elem msg keys x :
  x ∈ valid_signature_fingerprints msg keys → ∃ k, key_fingerprint k = x.1 ∧ d_verify msg k = Some x.2.
Proof.
  unfold valid_signature_fingerprints. destruct (d_kind msg); try by intros ?%not_elem_of_nil.
  set (step := λ l k, _). enough (∀ l, x ∈ foldl step l keys → x ∈ l ∨ ∃ k, key_fingerprint k = x.1 ∧ d_verify msg k = Some x.2) as H.
  { intros [Hx|Hx]%H; [by apply not_elem_of_nil in Hx|done]. }
  induction keys as [|k keys IH]; intros l Hx; [by left|]. simpl in Hx. apply IH in Hx as [Hx|Hx]; [|by right].
  unfold step in Hx. destruct (d_verify msg k) as [rs|] eqn:Ek; [|by left].
  apply add_signature_elem in Hx as [->|Hx]; [right; by exists k|by left].
Qed.

Lemma detached_elem detached x : ∀ l,
  x ∈ foldl (λ l fp, add_signature fp [] l) l detached → x ∈ l ∨ x.1 ∈ detached.
Proof.
  induction detached as [|fp detached IH]; intros l Hx; [by left|]. simpl in Hx. apply IH in Hx as [Hx|Hx].
  - apply add_signature_elem in Hx as [->|Hx]; [right; by left|by left].
  - right. by right.
Qed.

Lemma validate_detached_inv mail keys content detached :
  validate_detached_signature mail keys = Some (content, detached) →
  (has_type "multipart/signed" mail = true ∧ head (ml_subparts mail) = Some content)
  ∧ ∀ fp, fp ∈ detached → ∃ k first second sig, key_fingerprint k = fp ∧ ml_subparts mail = [first; second]
      ∧ ml_body_raw second = Some sig ∧ detached_verify k (ml_raw first) sig = true.
Proof.
  unfold validate_detached_signature. destruct (has_type _ mail); [|done]. cbn [negb].
  destruct (ml_subparts mail) as [|first [|second [|]]] eqn:Es; try done. intros [= <- <-]. split; [done|].
  intros fp Hfp. destruct (ml_body_raw second) as [sig|] eqn:Eb; [|by apply not_elem_of_nil in Hfp].
  unfold pk_validate in Hfp. apply list_elem_of_fmap in Hfp as (k & -> & Hk).
  apply list_elem_of_filter in Hk as [Hk _]. by exists k, first, second, sig.
Qed.

(** What opening a mail gives. *)
Lemma open_mail_inv mail s o s' :
  open_mail mail s = (Ok o, s') →
  (op_encrypted o = true ∧ ∃ msg inner, (decrypt mail s).1 = Ok (Some (msg, op_expected o))
     ∧ parse_mail (default [] (d_data msg)) = Some inner ∧ op_mail o = Ok inner ∧ op_message o = Some msg)
  ∨ (op_encrypted o = false ∧ op_message o = None ∧ op_expected o = None
     ∧ ∀ msg e, (decrypt mail s).1 ≠ Ok (Some (msg, e))).
Proof.
  unfold open_mail. destruct (decrypt mail s) as [[[[msg expected]|]|e] s1]; simpl.
  - destruct (parse_mail _) as [inner|] eqn:E; [|done]. intros [= <- <-]. left. split; [done|]. by exists msg, inner.
  - intros [= <- <-]. by right.
  - intros [= <- <-]. by right.
Qed.

Lemma payload_inv o keys content sigs :
  payload o keys = (content, sigs) →
  (op_message o = None → op_encrypted o = false → sigs = [])
  ∧ ∀ msg inner, op_message o = Some msg → op_mail o = Ok inner →
      (∃ c, content = Ok c ∧ (c = inner ∨ has_type "multipart/signed" inner = true ∧ head (ml_subparts inner) = Some c))
      ∧ ∀ x, x ∈ sigs → signed_by x.1 msg inner.
Proof.
  unfold payload. intros H. split.
  - intros Hm He. rewrite Hm, He in H. destruct (op_mail o) as [mail|e]; [|by injection H as _ <-].
    destruct (default _ _) in H. by injection H as _ <-.
  - intros msg inner Hm Hi. rewrite Hm, Hi in H.
    destruct (validate_detached_signature inner keys) as [[c detached]|] eqn:Ev; simpl in H.
    + destruct (validate_detached_inv _ _ _ _ Ev) as [Hc Hd]. injection H as <- <-. split; [by exists c; auto|].
      intros x Hx. destruct (op_encrypted o).
      * apply detached_elem in Hx as [Hx|Hx].
        -- destruct (valid_signature_elem _ _ _ Hx) as (k & Hk & Hv). exists k. split; [done|]. left. by exists x.2.
        -- destruct (Hd _ Hx) as (k & first & second & sig & ? & ? & ? & ?). exists k. split; [done|]. right. eauto 6.
      * destruct (valid_signature_elem _ _ _ Hx) as (k & Hk & Hv). exists k. split; [done|]. left. by exists x.2.
    + injection H as <- <-. split; [by exists inner; auto|]. intros x Hx.
      assert (x ∈ valid_signature_fingerprints msg keys) as Hx' by (by destruct (op_encrypted o)).
      destruct (valid_signature_elem _ _ _ Hx') as (k & Hk & Hv). exists k. split; [done|]. left. by exists x.2.
Qed.
(** ** The headers of a signed message *)

Definition subject_key : str := lit "subject".
Definition list_id_key : str := lit "list-id".

Lemma inner_fields_lookup mail f k :
  has_header_protection mail = true ∨ is_protected k = true ∨ k = subject_key ∨ k = list_id_key →
  f_headers (inner_fields mail true f) !! k
  = if decide (k = notification_to) then None else last_value k (ml_headers mail).
Proof.
  intros Hk. unfold inner_fields. destruct (decide (k = notification_to)) as [->|Hne].
  { apply merge_headers_notification. }
  rewrite merge_headers_lookup by done. destruct (last_value k (ml_headers mail)); [done|]. simpl.
  destruct Hk as [->|[->|[->| ->]]]; rewrite ?orb_true_r; try done; destruct (_ || _); try done; simpl.
  - by rewrite lookup_delete_ne, lookup_delete_eq.
  - by rewrite lookup_delete_eq.
Qed.

Lemma addr_cmp_refl a : addr_cmp str_to_lowercase a a = true.
Proof. unfold addr_cmp. by apply bool_decide_eq_true. Qed.

Lemma merge_payload_inv mail signed from f s f' from' keys s' :
  merge_payload (Ok mail) true signed from f s = (Ok (f', from', keys), s') →
  f' = inner_fields mail signed f ∧ addr_cmp str_to_lowercase (info_addr from') (info_addr from) = true
  ∧ (∀ i, get_from (ml_headers mail) = Some i → from' = i) ∧ (signed = false → keys = ∅).
Proof.
  unfold merge_payload. intros (ks & s1 & H1 & H)%bind_ok.
  assert (f_from (inner_fields mail signed f) = get_from (ml_headers mail)) as Hfrom.
  { unfold inner_fields, merge_headers. destruct (foldl _ _ _). simpl. by destruct (get_from _), signed. }
  assert (signed = false → ks = ∅) as Hks by (intros ->; by injection H1 as <- _).
  rewrite Hfrom in H. destruct (get_from (ml_headers mail)) as [i|].
  - destruct (negb _) eqn:Ec; [done|]. apply negb_false_iff in Ec. injection H as <- <- <- <-.
    split_and!; try done. by intros j [= ->].
  - injection H as <- <- <- <-. split_and!; try done. apply addr_cmp_refl.
Qed.

Lemma outer_from mimetype mail : f_from (outer_fields mimetype mail) = get_from (ml_headers mail).
Proof. unfold outer_fields, merge_headers. destruct (foldl _ _ _). simpl. by destruct (get_from _). Qed.

Lemma from_bytes_envelope now bytes s p s' :
  from_bytes now bytes s = (Ok p, s') →
  ∃ mail content decoded s1, parse_mail bytes = Some mail
    ∧ parse_envelope now mail s = (Ok (pd_envelope p, content, decoded), s1)
    ∧ ∃ s2, parse_body (pd_envelope p) content {| p_core := s1; p_body := empty_body |} = (Ok tt, s2)
        ∧ pd_body p = p_body s2.
Proof.
  unfold from_bytes. intros (mail & s0 & H0 & H)%bind_ok. unfold ok_or in H0.
  destruct (parse_mail bytes) as [mail'|]; [|done]. injection H0 as <- <-.
  apply bind_ok in H as ([[env content] decoded] & s1 & H1 & H). cbv beta iota in H.
  destruct (parse_body env content _) as [[[]|e] s2] eqn:Eb; [|done]. injection H as <- <-.
  exists mail', content, decoded, s1. split_and!; [done..|]. by exists s2.
Qed.

(** The last address list that asks for a receipt. *)
Definition asks_receipt (l : list MailHeader) : option (list MailAddr) :=
  list.last (omap (λ h, if bool_decide (str_to_lowercase (h_key h) = notification_to)
                        then h_addrs h else None) l).

Lemma merge_fields_receipt l m to :
  (foldl merge_field (m, to) l).2
  = match asks_receipt l with Some a => extract_single_info a | None => to end.
Proof.
  unfold asks_receipt. induction l as [|h l IH] using rev_ind; [done|].
  rewrite foldl_snoc, omap_app. cbn [omap list_omap]. revert IH.
  generalize (foldl merge_field (m, to) l). intros [m' to'] IH. simpl in IH. unfold merge_field.
  case_bool_decide; cbn [fst snd]; [|by rewrite app_nil_r].
  destruct (h_addrs h) as [a|]; [by rewrite last_snoc|by rewrite app_nil_r].
Qed.

(** What the payload says of the recipients, past members, the list and the receipt counts. *)
Record payload_rest (content : ParsedMail) (env : Envelope) : Prop := {
  pr_recipients : get_recipients (ml_headers content) ≠ [] →
    e_recipients env = get_recipients (ml_headers content);
  pr_past : get_all_addresses_from_header (ml_headers content) "chat-group-past-members" ≠ [] →
    e_past_members env = get_all_addresses_from_header (ml_headers content) "chat-group-past-members";
  pr_list_post v : get_list_post (ml_headers content) = Some v → e_list_post env = Some v;
  pr_receipt a : asks_receipt (ml_headers content) = Some a →
    e_notification_to env = extract_single_info a
}.

Lemma inner_fields_rest content f env :
  e_recipients env = f_recipients (inner_fields content true f)
  ∧ e_past_members env = f_past_members (inner_fields content true f)
  ∧ e_list_post env = f_list_post (inner_fields content true f)
  ∧ e_notification_to env = f_notification_to (inner_fields content true f) →
  payload_rest content env.
Proof.
  unfold inner_fields, merge_headers. intros (H1 & H2 & H3 & H4).
  match type of H4 with context [foldl merge_field (?m, ?to) ?l] =>
    pose proof (merge_fields_receipt l m to) as H; destruct (foldl merge_field (m, to) l) as [m' to'] end.
  simpl in *. split.
  - intros Hn. rewrite H1. by destruct (get_recipients _).
  - intros Hn. rewrite H2. by destruct (get_all_addresses_from_header _ _).
  - intros v Hv. by rewrite H3, Hv.
  - intros a Ha. by rewrite H4, H, Ha.
Qed.

(** The sender and the headers of a signed message are those of its payload. *)
Lemma signed_content now bytes s p s' fp rs :
  from_bytes now bytes s = (Ok p, s') → e_signature (pd_envelope p) = Some (fp, rs) →
  ∃ mail msg expected inner content, parse_mail bytes = Some mail
    ∧ (decrypt mail s).1 = Ok (Some (msg, expected)) ∧ parse_mail (default [] (d_data msg)) = Some inner
    ∧ (content = inner ∨ has_type "multipart/signed" inner = true ∧ head (ml_subparts inner) = Some content) ∧ signed_by fp msg inner
    ∧ (∀ k, has_header_protection content = true ∨ is_protected k = true ∨ k = subject_key ∨ k = list_id_key →
        e_headers (pd_envelope p) !! k
        = if decide (k = notification_to) then None else last_value k (ml_headers content))
    ∧ (∀ i, get_from (ml_headers content) = Some i → e_from (pd_envelope p) = i)
    ∧ payload_rest content (pd_envelope p)
    ∧ ∃ outer, get_from (ml_headers mail) = Some outer
        ∧ addr_cmp str_to_lowercase (info_addr (e_from (pd_envelope p))) (info_addr outer) = true.
Proof.
  intros (mail & content & decoded & s1 & Hm & He & _)%from_bytes_envelope Hsig.
  destruct (parse_envelope_made _ _ _ _ _ _ _ He) as (mimetype & from & f & f' & o & keys & sigs & Hmt & Hmd).
  destruct Hmd as [M1 M2 [so M3] M4 _ (sa & sb & M6) M7 M8 _ M10]. rewrite M8 in Hsig.
  destruct (payload_inv _ _ _ _ M4) as [P1 P2].
  destruct (open_mail_inv _ _ _ _ M3) as [(Henc & msg & inner & D1 & D2 & D3 & D4)|(Henc & _)].
  2:{ by rewrite Henc in Hsig. }
  rewrite Henc in Hsig, M6. apply last_signature_elem in Hsig.
  destruct (P2 msg inner D4 D3) as [(c & -> & Hc) Hs].
  assert (some_signature sigs = true) as Hsome.
  { unfold some_signature. rewrite bool_decide_eq_false_2; [done|]. intros ->. by apply not_elem_of_nil in Hsig. }
  rewrite Hsome in M6, M7. destruct (merge_payload_inv _ _ _ _ _ _ _ _ _ M6) as (-> & A & B & _).
  exists mail, msg, (op_expected o), inner, c. split_and!; try done.
  - by apply (Hs _ Hsig).
  - intros k Hk. rewrite M7. by apply inner_fields_lookup.
  - by eapply inner_fields_rest.
  - exists from. split; [|done]. rewrite <-(outer_from mimetype). by rewrite <-(M1 _ Hmt).
Qed.

(** C7. If a parsed message counts as signed, the mail contains an encrypted message that was
    decrypted, whose signature was verified with a key of the fingerprint in question.  Of the table of
    headers, those whose names are protected, all of them if the payload asks for header protection,
    and the subject and the identifier of a mailing list are those of the payload: what a server adds
    to or changes in these headers outside does not count.  The address of the sender is the one the
    payload names, which is the outer one.  Four things are not in this table: the recipients, the past
    members, the address of a mailing list for posts, and the address that asks for a receipt; each of
    them is the one of the payload if the payload has it, while the outer one counts if it has not
    (the table itself never has Chat-Disposition-Notification-To). *)
Theorem signed_headers_from_payload now bytes s p s' fp rs :
  from_bytes now bytes s = (Ok p, s') → e_signature (pd_envelope p) = Some (fp, rs) →
  ∃ mail msg expected inner content, parse_mail bytes = Some mail
    ∧ (decrypt mail s).1 = Ok (Some (msg, expected)) ∧ parse_mail (default [] (d_data msg)) = Some inner
    ∧ (content = inner ∨ head (ml_subparts inner) = Some content) ∧ signed_by fp msg inner
    ∧ (∀ k, has_header_protection content = true ∨ is_protected k = true ∨ k = subject_key ∨ k = list_id_key →
        e_headers (pd_envelope p) !! k
        = if decide (k = notification_to) then None else last_value k (ml_headers content))
    ∧ (∀ i, get_from (ml_headers content) = Some i → e_from (pd_envelope p) = i)
    ∧ payload_rest content (pd_envelope p)
    ∧ ∃ outer, get_from (ml_headers mail) = Some outer
        ∧ addr_cmp str_to_lowercase (info_addr (e_from (pd_envelope p))) (info_addr outer) = true.
Proof.
  intros H Hsig. destruct (signed_content _ _ _ _ _ _ _ H Hsig) as (mail & msg & expected & inner & content & H1 & H2 & H3 & H4 & H5).
  exists mail, msg, expected, inner, content. split_and!; try done; [|apply H5..]. by destruct H4 as [?|[_ ?]]; auto.
Qed.

(** C11. A message that does not count as signed has none of the headers that only signed messages may
    have: no fingerprint of a handshake, no mark as verified, no gossiped keys, and of the steps of a
    handshake only the first request; the authentication code is only accepted in the one request
    that is encrypted with it and cannot be signed. *)
Theorem unsigned_headers_dropped now bytes s p s' :
  from_bytes now bytes s = (Ok p, s') → e_signature (pd_envelope p) = None →
  ∃ encrypted mail, parse_mail bytes = Some mail
    ∧ (encrypted = true → ∃ msg expected, (decrypt mail s).1 = Ok (Some (msg, expected)))
    ∧ unsecured encrypted (e_headers (pd_envelope p)) ∧ e_gossiped_keys (pd_envelope p) = ∅.
Proof.
  intros (mail & content & decoded & s1 & Hm & He & _)%from_bytes_envelope Hsig.
  destruct (parse_envelope_made _ _ _ _ _ _ _ He) as (mimetype & from & f & f' & o & keys & sigs & Hmt & Hmd).
  destruct Hmd as [M1 M2 [so M3] M4 _ (sa & sb & M6) M7 M8 _ _]. rewrite M8 in Hsig. apply last_signature_None in Hsig.
  destruct (payload_inv _ _ _ _ M4) as [P1 P2].
  assert (sigs = []) as ->.
  { destruct (open_mail_inv _ _ _ _ M3) as [(Henc & _)|(Henc & Hmsg & _)]; [by rewrite Henc in Hsig|by apply P1]. }
  cbn in M6, M7. exists (op_encrypted o), mail. split; [done|]. split.
  { intros Henc. destruct (open_mail_inv _ _ _ _ M3) as [(_ & msg & inner & D1 & _)|(Henc' & _)]; [|congruence].
    by exists msg, (op_expected o). }
  rewrite M7. split; [apply remove_secured_unsecured|].
  destruct content as [c|e], (op_encrypted o).
  - by destruct (merge_payload_inv c false _ _ _ _ _ _ _ M6) as (_ & _ & _ & ->).
  - unfold merge_payload, ret in M6. by injection M6.
  - unfold merge_payload, ret in M6. by injection M6.
  - unfold merge_payload, ret in M6. by injection M6.
Qed.
(** ** Shared secrets *)

(** The fingerprint of the only key that may sign a message encrypted with a secret that opens the
    session key: the inviter of a scanned invitation, or the owner of a channel. *)
Definition allowed_sender (esk : list N) (s : Core) : option str :=
  match try_bobstate esk (bobstate s) with
  | Some (Some (_, fp)) => Some fp
  | _ =>
      '(_, id) ← try_secret esk (broadcast_secrets (db s));
      match ch_type <$> chats (db s) !! id with
      | Some Chattype.InBroadcast => channel_owner id s
      | _ => None
      end
  end.

Lemma self_fingerprint_run s :
  ∃ fp s', in_db (self_fingerprint generated_fingerprint) s = (Ok fp, s')
    ∧ bobstate s' = bobstate s ∧ broadcast_secrets (db s') = broadcast_secrets (db s) ∧ chats (db s') = chats (db s)
    ∧ ∀ id, channel_owner id s' = channel_owner id s.
Proof.
  unfold in_db, self_fingerprint. destruct (self_fingerprint_opt (db s)); eexists _, _; by split.
Qed.

Lemma session_key_sender esk s fp r s' :
  allowed_sender esk s = Some fp → decrypt_session_key_symmetrically esk s = (Ok r, s') → r.2 = Some fp.
Proof.
  unfold allowed_sender, decrypt_session_key_symmetrically. intros Ha (sfp & s1 & H1 & H)%bind_ok.
  destruct (self_fingerprint_run s) as (sfp' & s1' & E & B1 & B2 & B3 & B4). rewrite E in H1. injection H1 as -> <-.
  unfold bind at 1, try_decrypt_with_bobstate, gets, ok_or in H. unfold bind at 1 in H. rewrite B1 in H.
  destruct (try_bobstate esk (bobstate s)) as [[[psk fp']|]|]; [| |done].
  { injection Ha as ->. by injection H as <- _. }
  simpl in H. unfold bind at 1, try_decrypt_with_broadcast_secret, gets in H. unfold bind at 1 in H. rewrite B2 in H.
  destruct (try_secret esk _) as [[psk id]|]; [|done]. cbn in Ha. unfold bind at 1 in H. rewrite B3 in H.
  destruct (ch_type <$> chats (db s) !! id) as [[]|]; try done. unfold bind at 1 in H. rewrite B4, Ha in H. cbn in H.
  by injection H as <- _.
Qed.

Lemma decrypt_sender mail s part data msg salted esk fp :
  get_encrypted_mime mail = Some part → ml_body_raw part = Some data → from_armor data = Some msg →
  em_esk msg = [SymEsk salted esk] → allowed_sender esk s = Some fp →
  (decrypt mail s).1 ≠ Ok None ∧ ∀ d e, (decrypt mail s).1 = Ok (Some (d, e)) → e = Some fp.
Proof.
  intros H1 H2 H3 H4 Ha. enough (∀ r s', decrypt mail s = (Ok r, s') → ∃ d, r = Some (d, Some fp)) as H.
  { destruct (decrypt mail s) as [[r|e] s2]; [|done]. destruct (H r s2 eq_refl) as [d ->]. cbn. split; [done|].
    by intros d' e [= _ <-]. }
  intros r s' (m & s1 & G1 & G)%bind_ok. unfold get_encrypted_pgp_message in G1. rewrite H1, H2 in G1.
  unfold bind, ok_or, ret in G1. rewrite H3 in G1. injection G1 as <- <-. rewrite H4 in G.
  apply bind_ok in G as ([] & s2 & G2 & G). unfold check_symmetric_encryption, ensure_or in G2.
  destruct salted; [|done]. injection G2 as <-. apply bind_ok in G as (key & s3 & G3 & G).
  apply bind_ok in G as (plain & s4 & _ & G). injection G as <- _. exists plain.
  by rewrite (session_key_sender _ _ _ _ _ Ha G3).
Qed.

Lemma single_signature_last (x : Fingerprint * list Fingerprint) : last_signature [x] = Some x.
Proof. unfold last_signature. cbn [length]. rewrite Nat.mod_1_r. done. Qed.

(** C10. A message that is encrypted with a secret the user shares with the inviter of a scanned
    invitation or with the owner of a channel either cannot be decrypted, or it is signed by that
    inviter or owner: nobody else who knows the secret can use it to send the user anything. *)
Theorem shared_secret_needs_owner now bytes s p s' mail part data msg salted esk fp :
  from_bytes now bytes s = (Ok p, s') → parse_mail bytes = Some mail → get_encrypted_mime mail = Some part →
  ml_body_raw part = Some data → from_armor data = Some msg → em_esk msg = [SymEsk salted esk] →
  allowed_sender esk s = Some fp →
  is_Some (e_decryption_error (pd_envelope p))
  ∨ ∃ fpr rs, Fingerprint_from_str str_to_uppercase fp = Some fpr ∧ e_signature (pd_envelope p) = Some (fpr, rs).
Proof.
  intros (mail' & content & decoded & s1 & Hm' & He & _)%from_bytes_envelope Hm H1 H2 H3 H4 Ha.
  rewrite Hm in Hm'. injection Hm' as <-.
  destruct (parse_envelope_made _ _ _ _ _ _ _ He) as (mimetype & from & f & f' & o & keys & sigs & Hmt & Hmd).
  destruct Hmd as [_ _ [so M3] M4 (sa & sb & M5) _ _ M8 M9 _].
  destruct (decrypt_sender mail s part data msg salted esk fp H1 H2 H3 H4 Ha) as [D1 D2].
  unfold open_mail in M3. destruct (decrypt mail s) as [[[[d e]|]|e] s2]; cbn in D1, D2; [|done|].
  - right. rewrite (D2 d e eq_refl) in M3. destruct (parse_mail (default [] (d_data d))); [|done]. injection M3 as <- <-.
    cbn in M5, M8. apply bind_ok in M5 as ([] & sc & _ & M5). apply bind_ok in M5 as ([] & sd & L & M5).
    apply bind_ok in M5 as (fpr & se & F & M5). unfold ensure_or, ok_or, ret, fail in L, F, M5.
    destruct (Fingerprint_from_str _ fp) as [fpr'|]; [|done]. injection F as <- <-.
    destruct (length sigs =? 1)%nat eqn:Hl; [|done]. destruct (bool_decide _) eqn:Hin; [|done].
    apply Nat.eqb_eq in Hl. destruct sigs as [|[fp1 rs] [|]]; try done. apply bool_decide_eq_true, list_elem_of_singleton in Hin as ->.
    exists fp1, rs. split; [done|]. by rewrite M8, single_signature_last.
  - left. injection M3 as <- <-. unfold payload in M4. cbn in M4. injection M4 as <- _. rewrite M9. by eexists.
Qed.
End Trust.
