(* ===== verification/MimeParts.v ===== *)
(** MimeParts: what is shown of a mail: a part is marked as encrypted only in a signed message and
    then always, something is always shown, long texts are cut. *)
From stdpp Require Import sorting.
From S2P Require Import Prelude Monad Ids Params Membership ContactTools Headers MsgTable Simplify FormatFlowed.
From S2P Require Import Db Contacts Recipients GroupChanges LoginParam Config Sync ChatDb Verification SecureJoin ChatAssign Mime MimeParser MimeTrust.

(** ** The tree of parts *)

Lemma mail_induction (Q : ParsedMail -> Prop) :
  (∀ hs t ps d dps raw br b bm subs, (∀ m, bm = Some m → Q m) → Forall Q subs → Q (Mail hs t ps d dps raw br b bm subs)) →
  ∀ m, Q m.
Proof.
  intros H. fix IH 1. intros [hs t ps d dps raw br b bm subs]. apply H.
  - destruct bm as [m'|]; [|intros m [=]]. pose proof (IH m') as Hm. intros m Heq. injection Heq as <-. exact Hm.
  - induction subs as [|m subs IHs]; constructor; [apply IH|exact IHs].
Qed.

(** ** The padlock *)

(** The mark of a part. *)
Definition seal (p : MPart) : option str := Params_get (mp_param p) Param.GuaranteeE2ee.

(** The parts of receipts and calls are not marked in any case. *)
Definition markable (p : MPart) : bool := negb (bool_decide (mp_typ p ∈ [Viewtype.Unknown; Viewtype.Call])).

Definition sealed (env : Envelope) (p : MPart) : Prop :=
  match e_signature env with
  | Some _ => markable p = true → seal p = Some (lit "1")
  | None => seal p = None
  end.

Lemma seal_set p k v : k ≠ Param.GuaranteeE2ee → seal (set_mp_param (λ ps, Params_set ps k v) p) = seal p.
Proof. intros Hk. unfold seal, Params_get. simpl. by rewrite lookup_insert_ne. Qed.

(** A change that keeps the mark, and makes no part markable. *)
Definition keeps_seal (f : MPart -> MPart) : Prop :=
  ∀ p, seal (f p) = seal p ∧ (markable (f p) = true → markable p = true).

Lemma keeps_sealed f env p : keeps_seal f → sealed env p → sealed env (f p).
Proof. intros Hf. destruct (Hf p) as [H1 H2]. unfold sealed. rewrite H1. destruct (e_signature env); auto. Qed.

Lemma keeps_set_param k v : k ≠ Param.GuaranteeE2ee → keeps_seal (set_mp_param (λ ps, Params_set ps k v)).
Proof. intros Hk p. by rewrite seal_set. Qed.

Lemma keeps_compose f g : keeps_seal f → keeps_seal g → keeps_seal (λ p, f (g p)).
Proof. intros Hf Hg p. destruct (Hg p) as [G1 G2], (Hf (g p)) as [F1 F2]. rewrite F1. auto. Qed.

Lemma keeps_msg t : keeps_seal (set_mp_msg t).
Proof. done. Qed.

Lemma keeps_call : keeps_seal (set_mp_typ Viewtype.Call).
Proof. done. Qed.

Section Padlock.
Context {PF : Platform} {OS : Outside} {JQ : Json QrInvite} {OP : OpenPgp} {MP : Mailparse} {CN : Contents}
  {JS : Json SyncItem} {JE : Json EnteredLoginParam} {JC : Json ConfiguredLoginParamJson} {IN : Intake}.
Context (env : Envelope).

Definition all_sealed (s : PState) : Prop := Forall (sealed env) (b_parts (p_body s)).

Lemma sealed_edit f :
  (∀ b, Forall (sealed env) (b_parts b) → Forall (sealed env) (b_parts (f b))) → preserves all_sealed (edit f).
Proof. intros Hf s Hs. by apply Hf. Qed.

Lemma sealed_other f : (∀ b, b_parts (f b) = b_parts b) → preserves all_sealed (edit f).
Proof. intros Hf. apply sealed_edit. intros b. by rewrite Hf. Qed.

Lemma sealed_account {X} (x : C X) : preserves all_sealed (on_account x).
Proof. intros s Hs. unfold on_account. by destruct (x (p_core s)). Qed.

Lemma sealed_body {X} (f : Body -> X) : preserves all_sealed (body f).
Proof. apply preserves_gets. Qed.

Hint Resolve sealed_account sealed_body : preserves.
Hint Extern 5 (preserves all_sealed (edit _)) => solve [apply sealed_other; done] : preserves.

Lemma sealed_add p : seal p = None → preserves all_sealed (do_add_single_part env p).
Proof.
  intros Hp. apply sealed_edit. intros b Hb. simpl. apply list.Forall_app. split; [done|]. constructor; [|done].
  unfold sealed. destruct (e_signature env); simpl; [|done]. intros _. unfold seal, Params_get. simpl.
  by rewrite lookup_insert_eq.
Qed.

Lemma sealed_file typ ps m raw data name rel :
  Params_get ps Param.GuaranteeE2ee = None → preserves all_sealed (add_file env typ ps m raw data name rel).
Proof.
  intros Hp. unfold add_file. destruct (create_blob data name); [|apply preserves_ret]. apply sealed_add.
  unfold seal, Params_get in *. simpl. by rewrite !lookup_insert_ne.
Qed.

Lemma sealed_file_part typ m raw data name rel : preserves all_sealed (do_add_single_file_part env typ m raw data name rel).
Proof.
  assert (∀ typ ps, Params_get ps Param.GuaranteeE2ee = None → preserves all_sealed (add_file env typ ps m raw data name rel))
    as Hadd by (intros; by apply sealed_file).
  unfold do_add_single_file_part, try_set_peer_key_from_file_part. preserves_tac; apply Hadd; done.
Qed.
Hint Resolve sealed_file_part : preserves.

Lemma sealed_text m mail data : preserves all_sealed (add_text_part env m mail data).
Proof.
  unfold add_text_part, truncate_msg_text. destruct (simplified env m data) as [t failed], (unflowed m mail t) as [txt quote].
  preserves_tac.
  - apply sealed_add. unfold seal, Params_get. simpl. by destruct quote.
  - apply sealed_edit. intros b. destruct (b_footer b); [done|]. by destruct (is_mime _ _ _).
Qed.
Hint Resolve sealed_text : preserves.

Lemma sealed_filename mail : preserves all_sealed (get_attachment_filename mail).
Proof. unfold get_attachment_filename. preserves_tac. Qed.
Hint Resolve sealed_filename : preserves.

Lemma sealed_single mail rel : preserves all_sealed (add_single_part_if_known env mail rel).
Proof. unfold add_single_part_if_known, get_mime_type. preserves_tac. by apply sealed_add. Qed.
Hint Resolve sealed_single : preserves.

Lemma sealed_rev_first {X Y} (f : X -> SE PState core_error (option Y)) l :
  Forall (λ x, preserves all_sealed (f x)) l → preserves all_sealed (rev_first f l).
Proof. induction 1; simpl; preserves_tac; done. Qed.

Lemma sealed_rev_each {X} (f : X -> SE PState core_error unit) l :
  Forall (λ x, preserves all_sealed (f x)) l → preserves all_sealed (rev_each f l).
Proof. induction 1; simpl; preserves_tac; done. Qed.

Lemma sealed_all_parts {X} (f : X -> SE PState core_error bool) l :
  Forall (λ x, preserves all_sealed (f x)) l → preserves all_sealed (all_parts f l).
Proof. induction 1; simpl; preserves_tac; done. Qed.

Lemma sealed_calendar mail rel part : preserves all_sealed (add_calendar env mail rel part).
Proof. unfold add_calendar. preserves_tac. Qed.

Lemma sealed_alternative rec mail subs rel :
  Forall (λ m, preserves all_sealed (rec m)) subs → preserves all_sealed (handle_alternative env rec mail subs rel).
Proof.
  intros Hrec. unfold handle_alternative, get_mime_type. preserves_tac.
  - apply sealed_rev_first. eapply list.Forall_impl; [exact Hrec|]. intros m Hm. preserves_tac; done.
  - apply sealed_rev_each, list.Forall_true. intros m. apply sealed_calendar.
  - apply sealed_rev_first. eapply list.Forall_impl; [exact Hrec|]. intros m Hm. preserves_tac; done.
  - apply sealed_rev_first. eapply list.Forall_impl; [exact Hrec|]. intros m Hm. preserves_tac; done.
Qed.

Lemma sealed_default b : Forall (sealed env) (b_parts b) → Forall (sealed env) (b_parts b ++ [default_part]).
Proof.
  intros Hb. apply list.Forall_app. split; [done|]. constructor; [|done]. unfold sealed. by destruct (e_signature env).
Qed.

Lemma sealed_report rec mail subs rel :
  Forall (λ m, preserves all_sealed (rec m)) subs → preserves all_sealed (handle_report env rec mail subs rel).
Proof.
  intros Hrec. unfold handle_report, process_report, process_delivery_status, delivery_failed.
  destruct subs as [|first [|second subs]]; [apply preserves_ret..|]. preserves_tac;
    first [by apply sealed_all_parts|apply sealed_edit; intros b; apply sealed_default].
Qed.

Lemma sealed_multiple rec mail subs rel :
  Forall (λ m, preserves all_sealed (rec m)) subs → preserves all_sealed (handle_multiple env rec mail subs rel).
Proof.
  intros Hrec. unfold handle_multiple, get_mime_type. preserves_tac.
  - by apply sealed_alternative.
  - by inversion Hrec.
  - by apply sealed_report.
  - by apply sealed_all_parts.
Qed.

Lemma sealed_recursive mail : ∀ rel, preserves all_sealed (parse_mime_recursive env rel mail).
Proof.
  induction mail as [hs t ps d dps raw br b bm subs IHb IHs] using mail_induction. intros rel.
  cbn [parse_mime_recursive]. preserves_tac.
  apply sealed_multiple. eapply list.Forall_impl; [exact IHs|]. intros m Hm. apply Hm.
Qed.

(** ** After the parts *)

Lemma sealed_images first l : Forall (sealed env) l → Forall (sealed env) (first_images first l).
Proof.
  intros H. revert first. induction H as [|p l Hp Hl IH]; intros first; simpl; [constructor|].
  destruct (first || _); [|apply IH]. by constructor.
Qed.

Lemma sealed_bad_parts b : Forall (sealed env) (b_parts b) → Forall (sealed env) (b_parts (maybe_remove_bad_parts env b)).
Proof.
  intros Hb. unfold maybe_remove_bad_parts. simpl.
  assert (Forall (sealed env) (good_parts (b_parts b))) as Hg.
  { unfold good_parts. destruct (base.filter _ _) as [|p l] eqn:E; [by apply list.Forall_take|]. rewrite <-E.
    apply list.Forall_forall. intros q [_ Hq]%list_elem_of_filter. by eapply list.Forall_forall in Hb. }
  destruct (_ && _); [by apply sealed_images|done].
Qed.

Lemma sealed_footer b :
  Forall (sealed env) (b_parts b) → Forall (sealed env) (b_parts (maybe_remove_inline_mailinglist_footer env b)).
Proof. intros Hb. unfold maybe_remove_inline_mailinglist_footer. destruct (_ && _); [|done]. simpl. by apply list.Forall_take. Qed.

Lemma keeps_videochat : keeps_seal (videochat env).
Proof.
  intros p. unfold videochat. destruct (env_header env HeaderDef.ChatWebrtcHasVideoInitially) as [v|].
  - destruct (env_header env HeaderDef.ChatWebrtcRoom) as [room|]; [destruct (bool_decide _)|destruct (env_header env _)];
      rewrite ?seal_set by done; done.
  - destruct (env_header env HeaderDef.ChatWebrtcRoom) as [room|]; [destruct (bool_decide _)|destruct (env_header env _)];
      rewrite ?seal_set by done; done.
Qed.

Lemma keeps_attachment : keeps_seal (attachment env).
Proof.
  intros p. unfold attachment. set (p1 := if _ && _ then set_mp_typ Viewtype.Voice p else p).
  assert (seal p1 = seal p ∧ (markable p1 = true → markable p = true)) as [A1 A2].
  { subst p1. destruct (bool_decide (mp_typ p = Viewtype.Audio)) eqn:E; [|done]. apply bool_decide_eq_true in E.
    unfold markable. rewrite E. by destruct (bool_decide _). }
  clearbody p1. set (p2 := if _ && _ then set_mp_typ Viewtype.Sticker p1 else p1).
  assert (seal p2 = seal p1 ∧ (markable p2 = true → markable p1 = true)) as [B1 B2].
  { subst p2. destruct (is_image p1) eqn:E; [|done]. apply bool_decide_eq_true in E. simpl. destruct (bool_decide _); [|done].
    split; [done|]. intros _. unfold markable. rewrite !elem_of_cons, elem_of_nil in E. by destruct E as [->|[->|[]]]. }
  clearbody p2. rewrite <-A1, <-B1. destruct (bool_decide _); [|by auto]. destruct (env_header env _) as [f|]; [|by auto].
  destruct (_ && _); [|by auto]. unfold set_int. rewrite seal_set by done. auto.
Qed.

Lemma sealed_squash b : Forall (sealed env) (b_parts b) → Forall (sealed env) (b_parts (squash_attachment_parts b)).
Proof.
  intros Hb. unfold squash_attachment_parts. destruct (b_parts b) as [|t [|f [|]]] eqn:E; try by rewrite E.
  destruct (_ && _); [|by rewrite E]. apply list.Forall_cons in Hb as [_ [Hf _]%list.Forall_cons].
  simpl. constructor; [|done]. destruct (Params_get (mp_param t) Param.Quote) as [s|].
  - by apply (keeps_sealed (λ p, set_mp_param (λ ps, Params_set ps Param.Quote s) (set_mp_msg (mp_msg t) p)));
        [apply keeps_compose; [by apply keeps_set_param|apply keeps_msg]|].
  - by apply (keeps_sealed (set_mp_msg (mp_msg t))).
Qed.

Lemma sealed_map f l : keeps_seal f → Forall (sealed env) l → Forall (sealed env) (f <$> l).
Proof. intros Hf Hl. apply list.Forall_fmap. eapply list.Forall_impl; [exact Hl|]. intros p. by apply keeps_sealed. Qed.

Lemma sealed_mark key l : key ≠ Param.GuaranteeE2ee → Forall (sealed env) l → Forall (sealed env) (mark key l).
Proof. intros Hk. by apply sealed_map, keeps_set_param. Qed.

Lemma sealed_mark_last key l : key ≠ Param.GuaranteeE2ee → Forall (sealed env) l → Forall (sealed env) (mark_last key l).
Proof.
  intros Hk Hl. unfold mark_last. destruct (reverse l) as [|p r] eqn:E; [constructor|].
  assert (Forall (sealed env) (p :: r)) as [Hp Hr]%list.Forall_cons by (rewrite <-E; by apply list.Forall_reverse).
  apply list.Forall_app. split; [by apply list.Forall_reverse|]. apply sealed_mark; [done|]. by constructor.
Qed.

Lemma sealed_subject t l : Forall (sealed env) l → Forall (sealed env) (with_subject t l).
Proof.
  intros Hl. unfold with_subject. destruct (list_find _ l) as [[i p]|] eqn:E; [|done].
  apply list.Forall_insert; [done|]. apply (keeps_sealed (set_mp_msg _)); [apply keeps_msg|].
  apply list_find_Some in E as (E & _). by eapply list.Forall_lookup_1.
Qed.

Lemma sealed_avatar v : preserves all_sealed (avatar_action_from_header v).
Proof.
  unfold avatar_action_from_header. destruct (bool_decide _); [apply preserves_ret|].
  destruct (strip_prefix _ _); [preserves_tac|]. intros s Hs. unfold bind at 1, body, gets.
  destruct (list_find (λ p, mp_org_filename p = Some v) (b_parts (p_body s))) as [[i p]|]; [|done]. destruct (Params_get _ _); [|done]. simpl. unfold all_sealed. simpl.
  apply list.Forall_app. split; [by apply list.Forall_take|by apply list.Forall_drop].
Qed.
Hint Resolve sealed_avatar : preserves.

Lemma seal_plain : seal (set_mp_typ Viewtype.Text default_part) = None.
Proof. done. Qed.

Lemma sealed_videochat b : Forall (sealed env) (b_parts b) → Forall (sealed env) (b_parts (parse_videochat_headers env b)).
Proof.
  intros Hb. unfold parse_videochat_headers. destruct (b_parts b) as [|p l] eqn:E; [by rewrite E|].
  apply list.Forall_cons in Hb as [Hp Hl]. constructor; [|done]. by apply keeps_sealed; [apply keeps_videochat|].
Qed.

Lemma sealed_attachments b : Forall (sealed env) (b_parts b) → Forall (sealed env) (b_parts (parse_attachments env b)).
Proof.
  intros Hb. unfold parse_attachments. destruct (b_parts b) as [|p [|]] eqn:E; [by rewrite E| |by rewrite E].
  apply list.Forall_cons in Hb as [Hp Hl]. constructor; [|done]. by apply keeps_sealed; [apply keeps_attachment|].
Qed.

Lemma sealed_system b : b_parts (parse_system_message_headers env b) = b_parts b.
Proof. unfold parse_system_message_headers. by destruct (env_header env HeaderDef.ChatContent); case_ifs. Qed.

Lemma seal_subject_part wants b : seal (subject_part env wants b) = None.
Proof. unfold subject_part. destruct (get_subject _), wants; case_ifs; done. Qed.

Lemma sealed_headers : preserves all_sealed (parse_headers env).
Proof.
  unfold parse_headers, parse_avatar_headers, wants_mdn.
  repeat (apply preserves_bind; [|intros ?]); try (apply sealed_edit; intros b Hb).
  - by rewrite sealed_system.
  - preserves_tac.
  - preserves_tac.
  - by apply sealed_videochat.
  - destruct (b_delivery_report b); [done|by apply sealed_squash].
  - preserves_tac.
  - preserves_tac. apply sealed_edit. intros b Hb. by apply sealed_subject.
  - destruct (b_forwarded b); [|done]. by apply sealed_mark.
  - by apply sealed_attachments.
  - preserves_tac.
  - preserves_tac.
  - preserves_tac. apply sealed_edit. intros b Hb. by apply sealed_mark_last.
  - preserves_tac.
  - destruct (_ && _); [|apply preserves_ret]. apply sealed_add, seal_subject_part.
  - destruct (bool_decide _); [|done]. by apply sealed_mark.
Qed.

Lemma sealed_parse_body content : preserves all_sealed (parse_body env content).
Proof.
  unfold parse_body, heuristically_parse_ndn. preserves_tac.
  - apply sealed_recursive.
  - by apply sealed_add.
  - apply sealed_other. intros b. unfold note_bot. by case_ifs.
  - apply sealed_edit, sealed_bad_parts.
  - apply sealed_edit, sealed_footer.
  - apply preserves_for_each. intros mid _. preserves_tac.
  - apply sealed_headers.
Qed.
End Padlock.

Section Shown.
Context {PF : Platform} {OS : Outside} {JQ : Json QrInvite} {OP : OpenPgp} {MP : Mailparse} {CN : Contents}
  {JS : Json SyncItem} {JE : Json EnteredLoginParam} {JC : Json ConfiguredLoginParamJson} {IN : Intake}.

(** C9. The padlock: no part of a message that does not count as signed and encrypted is marked as
    encrypted, whatever the mail contains; and in a message that does, every part with a text or a
    file is marked. *)
Theorem only_signed_messages_get_padlock now bytes s p s' part :
  from_bytes now bytes s = (Ok p, s') → part ∈ b_parts (pd_body p) →
  match e_signature (pd_envelope p) with
  | None => Params_get (mp_param part) Param.GuaranteeE2ee = None
  | Some _ => mp_typ part ∉ [Viewtype.Unknown; Viewtype.Call] →
              Params_get (mp_param part) Param.GuaranteeE2ee = Some (lit "1")
  end.
Proof.
  intros (mail & content & decoded & s1 & _ & _ & s2 & Hb & ->)%from_bytes_envelope Hp.
  pose proof (preserves_run _ _ _ _ _ (sealed_parse_body (pd_envelope p) content) Hb (list.Forall_nil_2 _)) as Hall.
  pose proof (proj1 (list.Forall_forall _ _) Hall part Hp) as Hs. unfold sealed, seal in Hs.
  destruct (e_signature (pd_envelope p)); [|done]. intros Hm. apply Hs. unfold markable.
  by rewrite bool_decide_eq_false_2.
Qed.
End Shown.
