(* ===== verification/MimeSamples.v ===== *)
(** MimeSamples: concrete mails: witnesses for the theorems on parsed mails, and mails for which the
    parser departs from what it is meant to do. *)
From stdpp Require Import sorting.
From S2P Require Import Prelude Monad Ids Params Membership ContactTools Headers MsgTable Simplify FormatFlowed.
From S2P Require Import Db Contacts Recipients GroupChanges LoginParam Config Sync ChatDb Verification SecureJoin JoinTrust ChatAssign ReceptionSafety Mime MimeParser MimeTrust MimeParts.

(** ** Mails *)

Definition hdr (name value : string) : MailHeader := {| h_key := lit name; h_value := lit value; h_addrs := None |}.

Definition addr_hdr (name addr : string) : MailHeader :=
  {| h_key := lit name; h_value := lit addr; h_addrs := Some [SingleAddr {| display_name := None; info_addr := lit addr |}] |}.

Definition part (hs : list MailHeader) (mimetype : string) (params : list (str * str)) (body : str) (subs : list ParsedMail)
  : ParsedMail :=
  Mail hs (lit mimetype) params Inline [] body (Some body) (Some body) None subs.

(** A mail of Bob, encrypted and signed; the server added headers outside. *)
Definition bobs_text : ParsedMail :=
  part [addr_hdr "From" "bob@x.org"; addr_hdr "To" "alice@x.org"; hdr "Subject" "Dinner"; hdr "Chat-Version" "1.0";
        hdr "Autocrypt" "addr=bob@x.org; keydata=B"] "text/plain" [] (lit "At seven?") [].

Definition encrypted_mail (extra : list MailHeader) : ParsedMail :=
  part (extra ++ [addr_hdr "From" "bob@x.org"; addr_hdr "To" "alice@x.org"; hdr "Subject" "[...]"]) "multipart/encrypted"
    [(lit "boundary", lit "x")] []
    [part [] "application/pgp-encrypted" [] (lit "Version: 1") []; part [] "application/octet-stream" [] (lit "armor") []].

Definition outer_mail : ParsedMail :=
  encrypted_mail [hdr "Chat-Group-Name" "Scam"; hdr "Secure-Join" "vg-member-added"; hdr "Ephemeral-Timer" "60";
                  addr_hdr "Chat-Disposition-Notification-To" "bob@x.org"].

(** A mail that only claims to be part of a handshake. *)
Definition forged_mail : ParsedMail :=
  part [addr_hdr "From" "bob@x.org"; hdr "Secure-Join" "vc-request-with-auth"; hdr "Secure-Join-Auth" "guess";
        hdr "Secure-Join-Fingerprint" "AA"; hdr "Chat-Version" "1.0"] "text/plain" [] (lit "Hello") [].

(** Dave answers a message of the group in which Alice is, without encryption. *)
Definition daves_mail : ParsedMail :=
  part [addr_hdr "From" "dave@x.org"; addr_hdr "To" "alice@x.org"; hdr "Message-ID" "<reply@x>"; hdr "In-Reply-To" "<first@x>"]
    "text/plain" [] (lit "me too") [].

(** Type and subtype; a suffix does not occur. *)
Definition sample_mime (s : str) : option Mime :=
  '(t, sub) ← split_once 47 s; Some {| mime_type := t; mime_subtype := sub; mime_suffix := None |}.

Definition sample_mailparse : Mailparse :=
  {| parse_mail := λ b, match b with
                        | [1%N] => Some outer_mail
                        | [2%N] => Some bobs_text
                        | [3%N] => Some forged_mail
                        | [4%N] => Some daves_mail
                        | _ => None
                        end;
     parse_fields := λ _, None; dateparse := λ _, None; parse_mime := sample_mime; utf8 := Some; utf8_lossy := λ b, b |}.

(** Keys of one byte; "B" is the key of Bob. *)
Definition bobs_key : list N := [187%N].

Definition signed_message (k : list N) (data : list N) : Decrypted :=
  {| d_kind := Signed [bob_fp]; d_data := Some data;
     d_verify := λ k', if bool_decide (k' = k) then Some [] else None |}.

Definition sample_pgp (esk : list Esk) (signer : list N) : OpenPgp :=
  {| key_fingerprint := λ k, match k with [c] => replicate 20 c | _ => [] end; verify_bindings := λ _, true;
     key_from_slice := Some; key_from_base64 := λ s, if bool_decide (s = lit "B") then Some bobs_key else None;
     key_to_base64 := λ _, lit "B"; key_from_asc := λ _, None; merge_certificates := λ k _, Some k;
     self_public_key := [170%N]; from_armor := λ _, Some {| em_esk := esk; em_data := [] |};
     session_key := λ _ secret, if bool_decide (secret = lit "open sesame") then Some [] else None;
     decrypt_with_session_key := λ _ _, Some (signed_message signer [2%N]);
     decrypt_with_secret_keys := λ _, Some (signed_message signer [2%N]); detached_verify := λ _ _ _, false;
     sig_order := λ _, 0%nat |}.

Definition sample_contents : Contents :=
  {| kml := unit; kml_parse := λ _, None; dehtml := λ _, None; get_vcard_summary := λ _, None;
     get_filemeta := λ _, Some (65536%Z, 65536%Z); is_webxdc_file := λ _ _, false; create_blob := λ _ name, Some name;
     parse_sync_items := λ _, None; parse_metadata := λ _, None; error_text := λ _, [] |}.

Section Witnesses.
#[local] Instance PF : Platform := sample_platform.
#[local] Instance OS : Outside := sample_outside.
#[local] Instance JQ : Json QrInvite := opaque_json _.
#[local] Instance MP : Mailparse := sample_mailparse.
#[local] Instance CN : Contents := sample_contents.
#[local] Instance JS : Json SyncItem := opaque_json _.
#[local] Instance JE : Json EnteredLoginParam := opaque_json _.
#[local] Instance JC : Json ConfiguredLoginParamJson := opaque_json _.
#[local] Instance IN : Intake := idle_intake.

Section WithKeys.
#[local] Instance OP : OpenPgp := sample_pgp [PubEsk []] bobs_key.

Definition signature_of {S : Type} (r : result Parsed core_error * S) : option (option (Fingerprint * list Fingerprint)) :=
  match r.1 with Ok p => Some (e_signature (pd_envelope p)) | Err _ => None end.

Lemma with_signature {S} (r : result Parsed core_error * S) x :
  signature_of r = Some x → ∃ p s', r = (Ok p, s') ∧ e_signature (pd_envelope p) = x.
Proof. destruct r as [[p|e] s']; [|discriminate]. intros H. injection H as <-. by exists p, s'. Defined.

Lemma signed_headers_from_payload_witness :
  ∃ p s' content, from_bytes 100 [1%N] alice_inbox = (Ok p, s')
    ∧ e_headers (pd_envelope p) !! lit "chat-group-name" = last_value (lit "chat-group-name") (ml_headers content)
    ∧ e_headers (pd_envelope p) !! subject_key = last_value subject_key (ml_headers content).
Proof.
  assert (H : signature_of (from_bytes 100 [1%N] alice_inbox) = Some (Some (bob_fp, []))) by (vm_compute; reflexivity).
  destruct (with_signature _ _ H) as (p & s' & E & Hsig).
  destruct (signed_headers_from_payload 100 [1%N] alice_inbox p s' bob_fp [] E Hsig)
    as (mail & msg & expected & inner & content & _ & _ & _ & _ & _ & Hh & _).
  exists p, s', content. split; [exact E|]. split.
  - rewrite Hh; [reflexivity|]. right. left. vm_compute. reflexivity.
  - rewrite Hh; [reflexivity|]. right. right. left. reflexivity.
Defined.

Lemma unsigned_headers_dropped_witness :
  ∃ p s', from_bytes 100 [3%N] alice_inbox = (Ok p, s')
    ∧ e_headers (pd_envelope p) !! lit "secure-join-fingerprint" = None.
Proof.
  assert (H : signature_of (from_bytes 100 [3%N] alice_inbox) = Some None) by (vm_compute; reflexivity).
  destruct (with_signature _ _ H) as (p & s' & E & Hsig). exists p, s'. split; [exact E|].
  destruct (unsigned_headers_dropped 100 [3%N] alice_inbox p s' E Hsig) as (enc & mail & _ & _ & Hu & _).
  exact (us_fingerprint _ _ Hu).
Defined.

Definition shown_parts {S : Type} (r : result Parsed core_error * S) : list (str * option str) :=
  match r.1 with Ok p => (λ q, (mp_msg q, seal q)) <$> b_parts (pd_body p) | Err _ => [] end.

Lemma only_signed_messages_get_padlock_witness :
  ∃ p s' q, from_bytes 100 [1%N] alice_inbox = (Ok p, s') ∧ q ∈ b_parts (pd_body p)
    ∧ Params_get (mp_param q) Param.GuaranteeE2ee = Some (lit "1").
Proof.
  assert (H : signature_of (from_bytes 100 [1%N] alice_inbox) = Some (Some (bob_fp, []))) by (vm_compute; reflexivity).
  assert (T : match (from_bytes 100 [1%N] alice_inbox).1 with
              | Ok p => mp_typ <$> head (b_parts (pd_body p)) | Err _ => None end = Some Viewtype.Text) by (vm_compute; reflexivity).
  destruct (with_signature _ _ H) as (p & s' & E & Hsig). rewrite E in T. cbn [fst] in T.
  destruct (b_parts (pd_body p)) as [|q l] eqn:Eq; [discriminate T|]. injection T as T.
  assert (Hq : q ∈ b_parts (pd_body p)) by (rewrite Eq; apply list_elem_of_here).
  exists p, s', q. split; [exact E|]. split; [exact Hq|].
  pose proof (only_signed_messages_get_padlock 100 [1%N] alice_inbox p s' q E Hq) as Hp. rewrite Hsig in Hp.
  apply Hp. rewrite T. rewrite !elem_of_cons, elem_of_nil. intros [Hf|[Hf|[]]]; discriminate Hf.
Defined.

(** A request for a read receipt that the server adds outside counts, although the name of the header
    is protected: its address is kept apart from the other headers. *)
Example server_requests_receipt :
  match (from_bytes 100 [1%N] alice_inbox).1 with
  | Ok p => bool_decide (is_Some (e_signature (pd_envelope p)))
            && bool_decide ((λ q, Params_get (mp_param q) Param.WantsMdn) <$> b_parts (pd_body p) = [Some (lit "1")])
  | Err _ => false
  end = true.
Proof. vm_compute. reflexivity. Qed.

(** Without header protection, a timer that the server adds outside counts. *)
Example server_sets_timer :
  match (from_bytes 100 [1%N] alice_inbox).1 with
  | Ok p => e_headers (pd_envelope p) !! lit "ephemeral-timer"
  | Err _ => None
  end = Some (lit "60").
Proof. vm_compute. reflexivity. Qed.
End WithKeys.

(** ** A channel *)

Section WithSecret.

(** Alice is subscribed to the channel 21 of Bob, her contact 10. *)
Definition subscribed_alice : Core :=
  upd_db (λ d, set_secrets (<[21%N := lit "open sesame"]>)
                 (set_members (<[(21%N, 10%N) := {| add_timestamp := 1; remove_timestamp := 0 |}]>)
                    (set_chats (<[21%N := {| ch_type := Chattype.InBroadcast; ch_name := lit "News"; ch_grpid := lit "news";
                                             ch_param := []; ch_created_timestamp := 1 |}]>) d))) alice_inbox.

Definition armored_part : ParsedMail := part [] "application/octet-stream" [] (lit "armor") [].

Section ByOwner.
#[local] Instance OP_owner : OpenPgp := sample_pgp [SymEsk true []] bobs_key.

Definition error_of {S : Type} (r : result Parsed core_error * S) : option (option str) :=
  match r.1 with Ok p => Some (e_decryption_error (pd_envelope p)) | Err _ => None end.

Lemma shared_secret_needs_owner_witness :
  ∃ p s' rs, from_bytes 100 [1%N] subscribed_alice = (Ok p, s') ∧ e_signature (pd_envelope p) = Some (bob_fp, rs).
Proof.
  assert (H : error_of (from_bytes 100 [1%N] subscribed_alice) = Some None) by (vm_compute; reflexivity).
  destruct (from_bytes 100 [1%N] subscribed_alice) as [[p|e] s'] eqn:E; [|discriminate H]. injection H as H.
  destruct (shared_secret_needs_owner 100 [1%N] subscribed_alice p s' outer_mail armored_part (lit "armor")
    {| em_esk := [SymEsk true []]; em_data := [] |} true [] (hex bob_fp) E eq_refl) as [He|(fpr & rs & Hf & Hs)].
  - vm_compute. reflexivity.
  - reflexivity.
  - reflexivity.
  - reflexivity.
  - vm_compute. reflexivity.
  - rewrite H in He. destruct He as [x Hx]. discriminate Hx.
  - exists p, s', rs. split; [reflexivity|]. rewrite Hs.
    assert (F : Fingerprint_from_str str_to_uppercase (hex bob_fp) = Some bob_fp) by (vm_compute; reflexivity).
    rewrite F in Hf. by injection Hf as <-.
Defined.
End ByOwner.

(** A message to the channel that somebody else signed is refused. *)
Section ByOther.
#[local] Instance OP_other : OpenPgp := sample_pgp [SymEsk true []] [200%N].

Example secret_of_other_refused : (from_bytes 100 [1%N] subscribed_alice).1 = Err Unsigned.
Proof. vm_compute. reflexivity. Qed.
End ByOther.
End WithSecret.

(** ** Parts *)

Section WithParts.
#[local] Instance OP_parts : OpenPgp := sample_pgp [PubEsk []] bobs_key.

Definition sample_envelope : Envelope :=
  {| e_headers := ∅; e_recipients := []; e_past_members := []; e_from := {| display_name := None; info_addr := lit "bob@x.org" |};
     e_list_post := None; e_notification_to := None; e_incoming := true; e_decryption_error := None; e_signature := None;
     e_gossiped_keys := ∅; e_autocrypt_fingerprint := None; e_timestamp_rcvd := 100; e_timestamp_sent := 100;
     e_pre_message := NoPre |}.

Definition parts_of (m : ParsedMail) : list MPart :=
  b_parts (p_body (parse_mime_recursive sample_envelope false m {| p_core := alice_inbox; p_body := empty_body |}).2).

(** The product of width and height wraps around: a picture of 65536 times 65536 pixels is not too
    big to be shown as an image. *)
Example huge_image_shown :
  mp_typ <$> parts_of (Mail [] (lit "image/png") [] Attachment [(lit "filename", lit "a.png")] [] (Some []) None None [])
  = [Viewtype.Image].
Proof. vm_compute. reflexivity. Qed.

(** The calendar of a multipart/alternative is saved with the body of the container, which is what
    precedes the first part. *)
Example calendar_without_content :
  (λ p, (mp_org_filename p, mp_bytes p))
    <$> parts_of (part [] "multipart/alternative" [(lit "boundary", lit "x")] []
                    [part [] "text/plain" [] (lit "Lunch") []; part [] "text/calendar" [] (lit "BEGIN:VCALENDAR") []])
  = [(None, 0%N); (Some (lit "calendar.ics"), 0%N)].
Proof. vm_compute. reflexivity. Qed.

(** Of a text with legacy display elements only what follows the last empty line is shown. *)
Example legacy_display_drops_text :
  mp_msg <$> parts_of (part [] "text/plain" [(lit "hp-legacy-display", lit "1")]
    (join [LF] [lit "Subject: Dinner"; []; lit "At seven?"; []; lit "Bob"]) [])
  = [lit "Bob"].
Proof. vm_compute. reflexivity. Qed.
End WithParts.
End Witnesses.
