(* ===== verification/MimeReception.v ===== *)
(** MimeReception: from the bytes of a mail to the chat it is shown in. *)
From stdpp Require Import sorting.
From S2P Require Import Prelude Monad Ids Params Membership ContactTools Headers MsgTable Simplify FormatFlowed.
From S2P Require Import Db Contacts Recipients GroupChanges LoginParam Config Sync ChatDb Verification SecureJoin JoinTrust ChatAssign Reception ChatKinds.
From S2P Require Import ReceptionSafety Mime MimeParser MimeTrust MimeParts MimeSamples.

Section FromBytes.
Context {PF : Platform} {OS : Outside} {JS : Json SyncItem} {JE : Json EnteredLoginParam} {JC : Json ConfiguredLoginParamJson}
  {IN : Intake} {IO : IntakeOk} {SD : Sending} {SO : SendingOk} {NB : Neighbours} {NO : NeighboursOk}
  {RD : Rendering} {JQ : Json QrInvite} {OP : OpenPgp} {MP : Mailparse} {CN : Contents}.

(** No key verifies a signature of what the mail contains in encrypted form. *)
Definition nobody_signed (bytes : list N) (s : Core) : Prop :=
  ∀ mail msg expected inner fp, parse_mail bytes = Some mail → (decrypt mail s).1 = Ok (Some (msg, expected)) →
    parse_mail (default [] (d_data msg)) = Some inner → signed_by fp msg inner → False.

Lemma nobody_signed_unsigned now bytes s p s' :
  from_bytes now bytes s = (Ok p, s') → nobody_signed bytes s → e_signature (pd_envelope p) = None.
Proof.
  intros (mail & content & decoded & s1 & Hm & He & _)%from_bytes_envelope Hn.
  destruct (parse_envelope_made _ _ _ _ _ _ _ He) as (mimetype & from & f & f' & o & keys & sigs & Hmt & Hmd).
  destruct Hmd as [_ _ [so M3] M4 _ _ _ M8 _ _]. rewrite M8. destruct (payload_inv _ _ _ _ M4) as [P1 P2].
  destruct (open_mail_inv _ _ _ _ M3) as [(Henc & msg & inner & D1 & D2 & D3 & D4)|(Henc & _)]; rewrite Henc; [|done].
  destruct (P2 msg inner D4 D3) as [_ Hs]. destruct sigs as [|x sigs]; [done|]. exfalso.
  eapply Hn; [done..|]. apply (Hs x). by left.
Qed.

(** C4. A mail that contains no encrypted message with a signature that a key verifies never gets
    into an encrypted group or 1:1 chat, whatever its headers and its encrypted part claim: if it is no
    handshake, comes from a sender of whom only the address is known, and is received without error, it
    ends up in the trash, in an ad-hoc group, a mailing list or a 1:1 chat whose contact has no key, in
    the channel its List-Id names, or, if it has a List-Id that names nothing, in one of the reserved
    chats that are not shown.  (The tables are as the program keeps them: the reserved chats were
    created with the database, these and the 1:1 chats have no group identifier, channels have one,
    identifiers of contacts are unique, and the own contact has no key of a contact.) *)
Theorem unsigned_mail_stays_out now bytes s0 p s1 mid mid_orig seen from o s r b s' :
  from_bytes now bytes s0 = (Ok p, s1) → nobody_signed bytes s0 →
  tables_ok (db s) → e_incoming (pd_envelope p) = true →
  get_secure_join_step (mime (received p)) = None →
  from ≠ SELF → key_of (db s) from = Some [] →
  receive_from now (received p) mid mid_orig seen from o s = (Ok (r, b), s') →
  kept_out (received p) (rm_chat_id r) (db s').
Proof.
  intros Hp Hn Ht Hin Hsj Hf Hk Hr. pose proof (nobody_signed_unsigned _ _ _ _ _ Hp Hn) as Hsig.
  eapply (unencrypted_stays_out now (received p)); try done. unfold received. simpl. by rewrite Hsig.
Qed.
End FromBytes.

Section Witnesses.
#[local] Instance PF : Platform := sample_platform.
#[local] Instance OS : Outside := sample_outside.
#[local] Instance SD : Sending := sample_sending.
#[local] Instance RD : Rendering := sample_rendering.
#[local] Instance JS : Json SyncItem := opaque_json _.
#[local] Instance JE : Json EnteredLoginParam := opaque_json _.
#[local] Instance JC : Json ConfiguredLoginParamJson := opaque_json _.
#[local] Instance JQ : Json QrInvite := opaque_json _.
#[local] Instance IN : Intake := idle_intake.
#[local] Instance IO : IntakeOk := idle_intake_ok.
#[local] Instance NB : Neighbours := idle_neighbours.
#[local] Instance NO : NeighboursOk := idle_neighbours_ok.
#[local] Instance OP : OpenPgp := sample_pgp [PubEsk []] bobs_key.
#[local] Instance MP : Mailparse := sample_mailparse.
#[local] Instance CN : Contents := sample_contents.

(** What is received if the mail can be parsed. *)
Definition then_received (r : result Parsed core_error * Core) : option (result (ReceivedMsg * bool) core_error * Core) :=
  match r with
  | (Ok p, _) => Some (receive_from 200 (received p) (lit "reply@x") (lit "reply@x") false 12 Origin.IncomingTo alice_inbox)
  | (Err _, _) => None
  end.

Definition checked (r : result Parsed core_error * Core) : bool :=
  match r with
  | (Ok p, s) =>
      e_incoming (pd_envelope p) && bool_decide (get_secure_join_step (mime (received p)) = None)
  | (Err _, _) => false
  end.

Lemma daves_checked : checked (from_bytes 200 [4%N] alice_inbox) = true.
Proof. vm_compute. reflexivity. Qed.

Lemma daves_chat :
  match then_received (from_bytes 200 [4%N] alice_inbox) with Some (Ok (r, _), _) => rm_chat_id r | _ => 0%N end = 31%N.
Proof. vm_compute. reflexivity. Qed.

Lemma received_inv x n :
  checked x = true →
  match then_received x with Some (Ok (r, _), _) => rm_chat_id r | _ => 0%N end = n → n ≠ 0%N →
  ∃ p s r b s', x = (Ok p, s) ∧ e_incoming (pd_envelope p) = true ∧ get_secure_join_step (mime (received p)) = None
    ∧ receive_from 200 (received p) (lit "reply@x") (lit "reply@x") false 12 Origin.IncomingTo alice_inbox = (Ok (r, b), s')
    ∧ rm_chat_id r = n.
Proof.
  destruct x as [[p|e] s]; unfold then_received, checked; [|done]. rewrite !andb_true_iff.
  intros [H1 H2%bool_decide_eq_true].
  destruct (receive_from _ _ _ _ _ _ _ _) as [[[r b]|e] s'] eqn:R; [|by intros <- []]. intros <- _.
  exists p, s, r, b, s'. by split_and!.
Qed.

Lemma daves_unsigned : nobody_signed [4%N] alice_inbox.
Proof.
  intros mail msg expected inner fp Hm Hd. injection Hm as <-.
  assert (E : (decrypt daves_mail alice_inbox).1 = Ok None) by (vm_compute; reflexivity). by rewrite E in Hd.
Qed.

(** Dave's mail is shown in a new 1:1 chat. *)
Lemma unsigned_mail_stays_out_witness :
  ∃ p s r, from_bytes 200 [4%N] alice_inbox = (Ok p, s) ∧ rm_chat_id r = 31%N ∧ ∃ s', kept_out (received p) (rm_chat_id r) (db s').
Proof.
  destruct (received_inv _ 31 daves_checked daves_chat) as (p & s & r & b & s' & Ep & H1 & H2 & R & E31);
    [discriminate|].
  exists p, s, r. split; [exact Ep|]. split; [exact E31|]. exists s'.
  refine (unsigned_mail_stays_out 200 [4%N] alice_inbox p s (lit "reply@x") (lit "reply@x") false 12 Origin.IncomingTo
            alice_inbox r b s' Ep daves_unsigned alice_tables H1 H2 _ _ R).
  - discriminate.
  - vm_compute. reflexivity.
Defined.
End Witnesses.
