(* ===== verification/MimeFactory.v ===== *)
(** MimeFactory: from a message to the mail that is sent (src/src/mimefactory.rs): its headers, which
    of them are encrypted, its parts, the keys it is encrypted to and the keys it gossips; read
    receipts and the handshake messages that are encrypted with a shared secret. *)
From stdpp Require Import sorting.
From S2P Require Import Prelude Monad Ids Params Membership ContactTools Headers MsgTable.
From S2P Require Import Db Contacts Recipients MemberList GroupChanges Simplify LoginParam Config Sync ChatDb ChatAssign Reception Mime MimeParser.

(** ** Headers and parts *)

(** What the code hands to the crate mail-builder: addresses, header values and parts, as the tree of
    the calls that build them.  [HContentType] has the attributes of the value. *)
Inductive Address :=
| NewAddress (name : option str) (email : str)
| NewGroup (name : option str) (l : list Address)
| NewList (l : list Address).

Inductive HeaderType :=
| HAddress (a : Address)
| HRaw (v : str)
| HText (v : str)
| HMessageId (ids : list str)
| HContentType (c_type : str) (attributes : list (str * str)).

Abbreviation header := (str * HeaderType)%type.

Inductive PartBody (P : Type) :=
| TextBody (text : str)
| BinaryBody (data : list N)
| Multipart (parts : list P).
Arguments TextBody {P} text.
Arguments BinaryBody {P} data.
Arguments Multipart {P} parts.

Inductive MimePart := MkPart {
  pt_headers : list header;
  pt_body : PartBody MimePart
}.

Definition MimePart_new (c_type : str) (body : PartBody MimePart) : MimePart :=
  {| pt_headers := [(lit "Content-Type", HContentType c_type [])]; pt_body := body |}.

Definition add_header (h : header) (p : MimePart) : MimePart :=
  {| pt_headers := pt_headers p ++ [h]; pt_body := pt_body p |}.

Definition add_headers (l : list header) (p : MimePart) : MimePart := foldl (λ p h, add_header h p) p l.

Definition add_attachment (filename : str) (p : MimePart) : MimePart :=
  add_header (lit "Content-Disposition", HContentType (lit "attachment") [(lit "filename", filename)]) p.

(** A raw or a text header with a literal name. *)
Definition raw (name : string) (v : str) : header := (lit name, HRaw v).
Definition text (name : string) (v : str) : header := (lit name, HText v).
Definition mid (name : string) (v : str) : header := (lit name, HMessageId [v]).

(** The header if there is a value. *)
Definition opt_header (name : string) (v : option str) : list header :=
  match v with Some v => [raw name v] | None => [] end.

(** The header if the value is not empty. *)
Definition nonempty_header (name : string) (v : str) : list header :=
  if bool_decide (v = []) then [] else [raw name v].

(** ** Messages *)

(** [struct Message], as it is rendered: with its identifiers, and [om_html], whether there is an HTML
    version. *)
Record OutMsg := {
  om_id : N;
  om_chat_id : ChatId;
  om_msg : Message;
  om_subject : str;
  om_rfc724_mid : str;
  om_pre_rfc724_mid : str;
  om_timestamp_sort : Z;
  om_html : bool
}.

Definition om_param (m : OutMsg) : Params := msg_param (om_msg m).
Definition om_cmd (m : OutMsg) : SystemMessage.SystemMessage := get_cmd (om_param m).
Definition om_arg (m : OutMsg) (key : Param) : str := default [] (Params_get (om_param m) key).
Definition om_flag (m : OutMsg) (key : Param) : bool := default false (get_bool (om_param m) key).

(** [enum Loaded]. *)
Inductive Loaded :=
| LoadedMessage (chat : Chat) (msg : OutMsg)
| LoadedMdn (rfc724_mid : str) (additional_msg_ids : list str).

(** [enum PreMessageMode]. *)
Inductive OutMode := OutPost | OutPre (post_msg_rfc724_mid : str) | OutNone.

#[export] Instance OutMode_eq_dec : EqDecision OutMode.
Proof. solve_decision. Defined.

(** [struct MimeFactory]. *)
Record MimeFactory := {
  mf_from_addr : str;
  mf_from_displayname : str;
  mf_sender_displayname : option str;
  mf_selfstatus : str;
  mf_recipients : list str;
  mf_encryption_pubkeys : option (list (str * PublicKey));
  mf_to : list (str * str);
  mf_past_members : list (str * str);
  mf_member_fingerprints : list str;
  mf_member_timestamps : list Z;
  mf_timestamp : Z;
  mf_loaded : Loaded;
  mf_in_reply_to : str;
  mf_references : list str;
  mf_req_mdn : bool;
  mf_attach_selfavatar : bool;
  mf_webxdc_topic : option str;
  mf_mode : OutMode
}.

(** [struct RenderedEmail]; [re_payload], which the source does not keep, is the part that was
    encrypted. *)
Record RenderedEmail := {
  re_message : str;
  re_payload : option MimePart;
  re_is_encrypted : bool;
  re_last_added_location_id : option N;
  re_sync_ids_to_delete : option str;
  re_rfc724_mid : str;
  re_subject : str
}.

(** ** What rendering takes from elsewhere *)

(** The crates mail-builder, pgp, base64 and chrono: writing a part, encrypting bytes to keys or with a
    shared secret, signed by the own key or not, whether a key takes the newer format, the notations in
    keys; dates, of which some are out of range. *)
Class MailBuilder := {
  write_part : MimePart -> list N;
  pk_encrypt : list N -> list PublicKey -> bool -> bool -> option str;
  symm_encrypt : list N -> bool -> str -> bool -> option str;
  pubkey_supports_seipdv2 : PublicKey -> bool;
  KeySig : Type;
  direct_signatures : PublicKey -> list KeySig;
  signature_is_valid : PublicKey -> KeySig -> bool;
  notations : KeySig -> list (str * list N);
  base64_encode : list N -> str;
  str_bytes : str -> list N;
  to_rfc2822 : Z -> option str
}.

(** Parts of the program that are modelled on states of their own, or not at all, and columns only this
    code reads: [mime_in_reply_to] and [mime_references] of messages, [protected] of chats; the subject
    of the quoted message, the subject of a first message, stored HTML, files, metadata of attachments,
    positions, mini apps. *)
Class Materials := {
  reply_columns : N -> Core -> result (str * str) core_error;
  was_protected : ChatId -> Core -> bool;
  quoted_subject : OutMsg -> Core -> result (option str) core_error;
  subject_for_new_contact : str -> str;
  saved_html : Z -> Core -> result (option str) core_error;
  get_filename : OutMsg -> option str;
  file_content : Params -> Core -> result (list N) core_error;
  avatar_content : str -> Core -> result (list N) core_error;
  post_msg_metadata : OutMsg -> Core -> result (option str) core_error;
  message_kml : Z -> str -> str -> option str;
  is_sending_to_chat : ChatId -> Core -> result bool core_error;
  get_kml : ChatId -> Core -> result (option (str * N)) core_error;
  iroh_topic_for_msg : N -> Core -> result (option str) core_error;
  create_iroh_header : N -> Core -> result str core_error;
  peer_node_addr : Core -> result str core_error;
  webxdc_status_updates : N -> Core -> result (option str) core_error
}.

Definition reading {X} (f : Core -> result X core_error) : C X := λ s, (f s, s).

(** ** Which headers are seen *)

(** [hidden_recipients]. *)
Definition hidden_recipients : Address := NewGroup (Some (lit "hidden-recipients")) [].

(** [new_address_with_name]. *)
Definition new_address_with_name (name address : str) : Address :=
  NewAddress (if bool_decide (name = address) || bool_decide (name = []) then None else Some name) address.

(** The address of a recipient or past member. *)
Definition listed_address (na : str * str) : Address :=
  NewAddress (if bool_decide (na.1 = []) then None else Some na.1) na.2.

(** [struct HeadersByConfidentiality]. *)
Record HeadersByConfidentiality := {
  hc_unprotected : list header;
  hc_hidden : list header;
  hc_protected : list header
}.

Definition push (u h p : list header) (g : HeadersByConfidentiality) : HeadersByConfidentiality :=
  {| hc_unprotected := hc_unprotected g ++ u; hc_hidden := hc_hidden g ++ h; hc_protected := hc_protected g ++ p |}.

Section Grouping.
Context `{!MailBuilder}.

(** The date that is seen from outside. *)
Definition unprotected_date (timestamp offset : Z) : option str := to_rfc2822 (sat_sub timestamp offset).

(** One round of [group_headers_by_confidentiality]; the conversion of the date panics out of range. *)
Definition group_header (from_addr : str) (date : option str) (is_encrypted is_securejoin_message : bool)
  (g : HeadersByConfidentiality) (h : header) : option HeadersByConfidentiality :=
  let name := to_ascii_lowercase h.1 in
  let named (s : string) := bool_decide (name = lit s) in
  if named "message-id" then Some (push [h] [h] [] g)
  else if is_hidden name then Some (push [] [h] [] g)
  else if named "from" then
    Some (push [(h.1, HAddress (NewAddress None from_addr))] []
            (if is_encrypted || negb is_securejoin_message then [h] else []) g)
  else if named "to" then
    Some (push [if is_encrypted then (lit "To", HAddress hidden_recipients) else h] [] [h] g)
  else if named "chat-broadcast-secret" then Some (push [] [] (if is_encrypted then [h] else []) g)
  else if is_encrypted && named "date" then
    d ← date; Some (push [raw "Date" d] [] [h] g)
  else if is_encrypted then
    Some (push (if named "subject" then [raw "Subject" (lit "[...]")]
                else if named "chat-version" || named "autocrypt-setup-message" || named "chat-is-post-message" then [h]
                else []) [] [h] g)
  else Some (push [h] [] [] g).

Fixpoint group_all (from_addr : str) (date : option str) (is_encrypted is_securejoin_message : bool)
  (g : HeadersByConfidentiality) (l : list header) : option HeadersByConfidentiality :=
  match l with
  | [] => Some g
  | h :: l' =>
      g ← group_header from_addr date is_encrypted is_securejoin_message g h;
      group_all from_addr date is_encrypted is_securejoin_message g l'
  end.

(** [group_headers_by_confidentiality]; [offset] is the number of seconds drawn at random. *)
Definition group_headers_by_confidentiality (headers : list header) (from_addr : str) (timestamp offset : Z)
  (is_encrypted is_securejoin_message : bool) : option HeadersByConfidentiality :=
  group_all from_addr (unprotected_date timestamp offset) is_encrypted is_securejoin_message
    {| hc_unprotected := [raw "MIME-Version" (lit "1.0")]; hc_hidden := []; hc_protected := [] |} headers.
End Grouping.

(** The structural headers, which are not copied. *)
Definition is_structural (name : str) : bool :=
  eq_nocase name (lit "mime-version") || eq_nocase name (lit "content-type")
  || eq_nocase name (lit "content-transfer-encoding") || eq_nocase name (lit "content-disposition").

(** The first header that is a content type gets the attributes of header protection. *)
Fixpoint protect_type (l : list header) : list header :=
  match l with
  | [] => []
  | (n, HContentType c attrs) :: l' =>
      if bool_decide (n = lit "Content-Type")
      then (n, HContentType c (attrs ++ [(lit "protected-headers", lit "v1"); (lit "hp", lit "cipher")])) :: l'
      else (n, HContentType c attrs) :: protect_type l'
  | h :: l' => h :: protect_type l'
  end.

(** [add_headers_to_encrypted_part]. *)
Definition add_headers_to_encrypted_part (message : MimePart) (g : HeadersByConfidentiality) : MimePart :=
  let message := add_headers (hc_hidden g) (add_headers (hc_protected g) message) in
  let message := add_headers ((λ h, (lit "HP-Outer: " ++ h.1, h.2))
                                <$> base.filter (λ h, is_structural h.1 = false) (hc_unprotected g)) message in
  {| pt_headers := protect_type (pt_headers message); pt_body := pt_body message |}.

(** [wrap_encrypted_part]. *)
Definition wrap_encrypted_part (encrypted : str) : MimePart :=
  MimePart_new (lit "multipart/encrypted; protocol=" ++ quoted (lit "application/pgp-encrypted"))
    (Multipart [MimePart_new (lit "application/pgp-encrypted") (TextBody (lit "Version: 1" ++ CRLF));
                MimePart_new (lit "application/octet-stream") (TextBody encrypted)]).

(** [render_outer_message]. *)
Definition render_outer_message `{!MailBuilder, !Mailparse} (unprotected_headers : list header)
  (outer_message : MimePart) : str :=
  utf8_lossy (write_part (add_headers unprotected_headers outer_message)).

(** ** Kinds of messages *)

(** [must_have_only_one_recipient]: the recipient, or the error that it is not known. *)
Definition must_have_only_one_recipient (msg : OutMsg) (chat : Chat) : option (option str) :=
  if negb (bool_decide (chat_typ chat = Chattype.OutBroadcast)) then None
  else
    match Params_get (om_param msg) Param.Arg4 with
    | Some fp => Some (Some fp)
    | None =>
        if bool_decide (om_cmd msg ∈ [SystemMessage.MemberRemovedFromGroup; SystemMessage.MemberAddedToGroup])
        then Some None else None
    end.

(** [should_encrypt_with_broadcast_secret], [should_hide_recipients] and
    [should_encrypt_symmetrically]. *)
Definition should_encrypt_with_broadcast_secret (msg : OutMsg) (chat : Chat) : bool :=
  bool_decide (chat_typ chat = Chattype.OutBroadcast)
  && bool_decide (must_have_only_one_recipient msg chat = None).

Definition should_hide_recipients : OutMsg -> Chat -> bool := should_encrypt_with_broadcast_secret.
Definition should_encrypt_symmetrically : OutMsg -> Chat -> bool := should_encrypt_with_broadcast_secret.

(** [should_attach_profile_data]. *)
Definition should_attach_profile_data (msg : OutMsg) : bool :=
  negb (bool_decide (om_cmd msg = SystemMessage.SecurejoinMessage))
  || bool_decide (om_arg msg Param.Arg ∈ lit <$> ["vg-request-with-auth"; "vc-request-with-auth";
                                                 "vg-member-added"; "vc-contact-confirm"]).

(** [should_skip_autocrypt]. *)
Definition should_skip_autocrypt (f : MimeFactory) : bool :=
  match mf_loaded f with LoadedMessage _ _ => false | LoadedMdn _ _ => true end.

(** [will_be_encrypted], [set_as_post_message] and [set_as_pre_message_for]. *)
Definition will_be_encrypted (f : MimeFactory) : bool := bool_decide (is_Some (mf_encryption_pubkeys f)).

Definition set_mode (mode : OutMode) (f : MimeFactory) : MimeFactory :=
  {| mf_from_addr := mf_from_addr f; mf_from_displayname := mf_from_displayname f;
     mf_sender_displayname := mf_sender_displayname f; mf_selfstatus := mf_selfstatus f;
     mf_recipients := mf_recipients f; mf_encryption_pubkeys := mf_encryption_pubkeys f; mf_to := mf_to f;
     mf_past_members := mf_past_members f; mf_member_fingerprints := mf_member_fingerprints f;
     mf_member_timestamps := mf_member_timestamps f; mf_timestamp := mf_timestamp f; mf_loaded := mf_loaded f;
     mf_in_reply_to := mf_in_reply_to f; mf_references := mf_references f; mf_req_mdn := mf_req_mdn f;
     mf_attach_selfavatar := mf_attach_selfavatar f; mf_webxdc_topic := mf_webxdc_topic f; mf_mode := mode |}.

Definition set_as_post_message : MimeFactory -> MimeFactory := set_mode OutPost.
Definition set_as_pre_message_for (post : RenderedEmail) : MimeFactory -> MimeFactory :=
  set_mode (OutPre (re_rfc724_mid post)).

(** [grpimage]. *)
Definition grpimage (f : MimeFactory) : option str :=
  match mf_loaded f with
  | LoadedMessage chat msg =>
      match om_cmd msg with
      | SystemMessage.MemberAddedToGroup => Params_get (chat_param chat) Param.ProfileImage
      | SystemMessage.GroupImageChanged => Params_get (om_param msg) Param.Arg
      | _ => if om_flag msg Param.AttachChatAvatarAndDescription
             then Params_get (chat_param chat) Param.ProfileImage else None
      end
  | LoadedMdn _ _ => None
  end.

(** [render_rfc724_mid]. *)
Definition render_rfc724_mid (rfc724_mid : str) : str :=
  let m := trim rfc724_mid in
  if bool_decide (head m = Some 60%N) then m else lit "<" ++ m ++ lit ">".

Section Factory.
Context `{!Platform, !Outside, !Json SyncItem, !OpenPgp, !Mailparse, !MailBuilder, !Materials}.

(** [b_encode]. *)
Definition b_encode (value : str) : str := lit "=?utf-8?B?" ++ base64_encode (str_bytes value) ++ lit "?=".

(** [build_avatar_file]: a blank before every 78th character. *)
Fixpoint folded (i : nat) (s : str) : str :=
  match s with
  | [] => []
  | c :: s' => (if (i mod 78 =? 77)%nat then [SP; c] else [c]) ++ folded (S i) s'
  end.

Definition build_avatar_file (path : str) : C str :=
  body <- reading (avatar_content path) ;; ret (folded 0 (base64_encode body)).

(** [build_body_file]. *)
Definition build_body_file (msg : OutMsg) : C MimePart :=
  file_name <- ok_or (get_filename msg) NoFile ;;
  body <- reading (file_content (om_param msg)) ;;
  ret (add_attachment (sanitize_bidi_characters file_name)
         (MimePart_new (default (lit "application/octet-stream") (Params_get (om_param msg) Param.MimeType))
            (BinaryBody body))).

(** [shall_attach_selfavatar] (chat.rs), and [should_attach_selfavatar]: an error counts as no.  A member
    without a contact has no column to read. *)
Definition DC_RESEND_USER_AVATAR_DAYS : Z := 14.

Definition shall_attach_selfavatar (now : Z) (chat_id : ChatId) (s : Core) : option bool :=
  rows ← mapM (λ id, if bool_decide (is_Some (row_of id s))
                     then Some (default 0%Z (selfavatar_sent (account s) !! id)) else None)
           (omap (λ km : N * N * member_row,
              if (km.1.1 =? chat_id)%N && negb (km.1.2 =? SELF)%N
                 && (remove_timestamp km.2 <=? add_timestamp km.2)%Z
              then Some km.1.2 else None) (map_to_list (members (db s))));
  Some (existsb (λ sent, (sent <? now - DC_RESEND_USER_AVATAR_DAYS * 24 * 60 * 60)%Z) rows).

Definition should_attach_selfavatar (now : Z) (msg : OutMsg) : C bool :=
  gets (λ s, should_attach_profile_data msg && default false (shall_attach_selfavatar now (om_chat_id msg) s)).

(** ** Loading a message *)

(** Who gets the message, and how: the lists of members, the addresses, the keys. *)
Abbreviation addressed := (MemberLists * list str * option (list (str * PublicKey)))%type.

Definition no_lists (to : list (str * str)) : MemberLists :=
  {| ml_to := to; ml_past := []; ml_timestamps := []; ml_fingerprints := [] |}.

Definition relay_addresses (key : PublicKey) (addr : str) : list str :=
  default [addr] (addresses_from_public_key direct_signatures signature_is_valid notations utf8 key).

(** The only recipient of a message about a subscriber. *)
Definition address_only (fp : str) : C addressed :=
  row <- gets (λ s, find_contact (λ r, bool_decide (c_fingerprint r = fp)) (db s)) ;;
  row <- ok_or row MissingMember ;;
  bytes <- gets (λ s, public_keys s !! fp) ;;
  bytes <- ok_or bytes NoKeyOfMember ;;
  key <- ok_or (key_from_slice bytes) BrokenKey ;;
  ret (no_lists [(c_authname row, c_addr row)], relay_addresses key (c_addr row), Some [(c_addr row, key)]).

(** The members of the chat. *)
Definition address_members (now : Z) (from_addr self_fp : str) (chat : Chat) (msg : OutMsg) : C addressed :=
  encrypted <- (if om_flag msg Param.ForcePlaintext then ret false
                else if om_flag msg Param.GuaranteeE2ee then ret true
                else ChatDb.is_encrypted chat) ;;
  rows <- gets (λ s, member_rows (om_chat_id msg) (chat_typ chat) (public_keys s) (db s)) ;;
  rows <- ok_or rows CannotRender ;;
  let env := {| attach_profile_data := should_attach_profile_data msg; MemberList.is_encrypted := encrypted;
                hide_recipients := should_hide_recipients msg chat;
                email_to_remove := if bool_decide (om_cmd msg = SystemMessage.MemberRemovedFromGroup)
                                   then Params_get (om_param msg) Param.Arg else None;
                from_addr := from_addr; own_fingerprint := self_fp; render_time := now |} in
  match render_recipients key_from_slice direct_signatures signature_is_valid notations utf8 str_to_lowercase
          env rows with
  | Err _ => fail CannotRender
  | Ok (lists, rcpts, keys, ids) =>
      in_db (scale_up_recipients (om_cmd msg) (chat_typ chat) ids) ;;;
      ret (lists, rcpts, keys)
  end.

Definition address (now : Z) (from_addr from_displayname self_fp : str) (chat : Chat) (msg : OutMsg)
  : C addressed :=
  if is_self_talk chat then ret (no_lists [(from_displayname, from_addr)], [], Some [])
  else if bool_decide (chat_typ chat = Chattype.Mailinglist) then
    list_post <- ok_or (Params_get (chat_param chat) Param.ListPost) NoListPost ;;
    ret (no_lists [([], list_post)], [list_post], None)
  else
    match must_have_only_one_recipient msg chat with
    | Some fp => fp <- ok_or fp MissingMember ;; address_only fp
    | None => address_members now from_addr self_fp chat msg
    end.

(** [trim_start_matches('<')] and [trim_end_matches('>')]. *)
Fixpoint trim_start_char (c : char) (s : str) : str :=
  match s with
  | x :: s' => if bool_decide (x = c) then trim_start_char c s' else s
  | [] => []
  end.

Definition trim_brackets (s : str) : str := reverse (trim_start_char 62%N (reverse (trim_start_char 60%N s))).

(** [MimeFactory::from_msg]. *)
Definition from_msg (now : Z) (msg : OutMsg) : C MimeFactory :=
  chat <- in_db (load_from_db (om_chat_id msg)) ;;
  from_addr <- in_db get_primary_self_addr ;;
  config_displayname <- in_account (get_config Config.Displayname) ;;
  let config_displayname := default [] config_displayname in
  let '(from_displayname, sender_displayname) :=
    match Params_get (om_param msg) Param.OverrideSenderDisplayname with
    | Some name => (name, Some config_displayname)
    | None => (if should_attach_profile_data msg then config_displayname else [], None)
    end in
  req_mdn <- (if negb (is_self_talk chat) && bool_decide (om_cmd msg = SystemMessage.Unknown)
                 && (default 0%Z (get_int (om_param msg) Param.Reaction) =? 0)%Z
              then in_account should_request_mdns else ret false) ;;
  self_fp <- in_db (self_fingerprint generated_fingerprint) ;;
  a <- address now from_addr from_displayname self_fp chat msg ;;
  let '(lists, rcpts, keys) := a in
  replies <- reading (reply_columns (om_id msg)) ;;
  selfstatus <- (if should_attach_profile_data msg
                 then v <- in_account (get_config Config.Selfstatus) ;; ret (default [] v)
                 else ret []) ;;
  attach <- should_attach_selfavatar now msg ;;
  ensure_or (bool_decide (ml_timestamps lists = [])
             || (length (ml_to lists) + length (ml_past lists) =? length (ml_timestamps lists))%nat) CannotRender ;;;
  topic <- reading (iroh_topic_for_msg (om_id msg)) ;;
  ret {| mf_from_addr := from_addr; mf_from_displayname := from_displayname;
         mf_sender_displayname := sender_displayname; mf_selfstatus := selfstatus; mf_recipients := rcpts;
         mf_encryption_pubkeys := keys; mf_to := ml_to lists; mf_past_members := ml_past lists;
         mf_member_fingerprints := ml_fingerprints lists; mf_member_timestamps := ml_timestamps lists;
         mf_timestamp := om_timestamp_sort msg; mf_loaded := LoadedMessage chat msg;
         mf_in_reply_to := replies.1;
         mf_references := trim_brackets <$> split_ascii_whitespace (trim replies.2);
         mf_req_mdn := req_mdn; mf_attach_selfavatar := attach && bool_decide (is_Some keys);
         mf_webxdc_topic := topic; mf_mode := OutNone |}.

(** [MimeFactory::from_mdn], with [Contact::public_key]. *)
Definition contact_public_key (ct : Contact) : C (option PublicKey) :=
  if (ct_id ct =? SELF)%N then load_self_public_key ;;; ret (Some self_public_key)
  else
    match ct_fingerprint ct with
    | None => ret None
    | Some fp =>
        bytes <- gets (λ s, public_keys s !! fp) ;;
        match bytes with
        | None => ret None
        | Some bytes => key <- ok_or (key_from_slice bytes) BrokenKey ;; ret (Some key)
        end
    end.

Definition from_mdn (now : Z) (from_id : ContactId) (rfc724_mid : str) (additional_msg_ids : list str)
  : C MimeFactory :=
  contact <- get_by_id from_id ;;
  from_addr <- in_db get_primary_self_addr ;;
  keys <- (if (from_id =? SELF)%N then ret (Some [])
           else if contact_is_key contact then
             key <- contact_public_key contact ;;
             ret (Some (match key with Some key => [(ct_addr contact, key)] | None => [] end))
           else ret None) ;;
  ret {| mf_from_addr := from_addr; mf_from_displayname := []; mf_sender_displayname := None;
         mf_selfstatus := []; mf_recipients := [ct_addr contact]; mf_encryption_pubkeys := keys;
         mf_to := [([], ct_addr contact)]; mf_past_members := []; mf_member_fingerprints := [];
         mf_member_timestamps := []; mf_timestamp := now;
         mf_loaded := LoadedMdn rfc724_mid additional_msg_ids; mf_in_reply_to := []; mf_references := [];
         mf_req_mdn := false; mf_attach_selfavatar := false; mf_webxdc_topic := None; mf_mode := OutNone |}.

(** ** The subject *)

(** [subject_str]. *)
Definition subject_str (f : MimeFactory) : C str :=
  match mf_loaded f with
  | LoadedMdn _ _ => ret (lit "Receipt Notification")
  | LoadedMessage chat msg =>
      quoted <- reading (quoted_subject msg) ;;
      let quoted := if bool_decide (quoted = Some []) then None else quoted in
      if negb (bool_decide (om_subject msg = [])) then ret (om_subject msg)
      else if bool_decide (chat_typ chat ∈ [Chattype.Group; Chattype.OutBroadcast]) && bool_decide (quoted = None)
      then ret ((if bool_decide (mf_in_reply_to f = []) then [] else lit "Re: ") ++ chat_name chat)
      else
        match (match quoted with None => Params_get (chat_param chat) Param.LastSubject | _ => quoted end) with
        | Some last_subject => ret (lit "Re: " ++ remove_subject_prefix last_subject)
        | None =>
            name <- (if should_attach_profile_data msg then in_account (get_config Config.Displayname)
                     else ret None) ;;
            name <- (match name with
                     | Some name => ret name
                     | None => a <- in_account (get_config Config.Addr) ;; ret (default [] a)
                     end) ;;
            ret (subject_for_new_contact name)
        end
  end.

(** ** Headers and parts of a message ([render_message]) *)

(** The header of chats that were verified, while all their members are. *)
Definition verified_header (chat : Chat) : C (list header) :=
  gets (λ s,
    if bool_decide (chat_typ chat ∈ [Chattype.Single; Chattype.Group]) && was_protected (chat_id chat) s
       && negb (existsb (λ id, (9 <? id)%N && bool_decide (is_Some (row_of id s))
                               && (default 0%N (verifier s !! id) =? 0)%N) (chat_rows (chat_id chat) s))
    then [raw "Chat-Verified" (lit "1")] else []).

(** Identifier and name of a group or channel. *)
Definition group_headers (chat : Chat) : list header :=
  (if bool_decide (chat_typ chat = Chattype.Group) then nonempty_header "Chat-Group-ID" (chat_grpid chat) else [])
  ++ (if bool_decide (chat_typ chat ∈ [Chattype.Group; Chattype.OutBroadcast]) then
        text "Chat-Group-Name" (chat_name chat)
        :: match get_i64 (chat_param chat) Param.GroupNameTimestamp with
           | Some ts => [text "Chat-Group-Name-Timestamp" (print_Z ts)]
           | None => []
           end
      else []).

Definition in_group (chat : Chat) : bool :=
  bool_decide (chat_typ chat ∈ [Chattype.Group; Chattype.OutBroadcast; Chattype.InBroadcast]).

(** What the command of a message says about the group, and the text other clients show. *)
Definition group_command (chat : Chat) (msg : OutMsg) (image : option str) (encrypted : bool)
  : C (option str * list header) :=
  let arg := om_arg msg in
  if negb (in_group chat) then ret (None, [])
  else
    match om_cmd msg with
    | SystemMessage.MemberRemovedFromGroup =>
        own <- in_account (get_config Config.ConfiguredAddr) ;;
        ret (Some (if bool_decide (arg Param.Arg = default [] own)
                   then arg Param.Arg ++ lit " left the group."
                   else lit "Member " ++ arg Param.Arg ++ lit " was removed."),
             nonempty_header "Chat-Group-Member-Removed" (arg Param.Arg)
             ++ nonempty_header "Chat-Group-Member-Removed-Fpr" (arg Param.Arg4))
    | SystemMessage.MemberAddedToGroup =>
        ret (Some (lit "Member " ++ arg Param.Arg ++ lit " was added."),
             nonempty_header "Chat-Group-Member-Added" (arg Param.Arg)
             ++ nonempty_header "Chat-Group-Member-Added-Fpr" (arg Param.Arg4)
             ++ (if Z.odd (default 0%Z (get_int (om_param msg) Param.Arg2))
                 then [raw "Secure-Join" (lit "vg-member-added")] else []))
    | SystemMessage.GroupNameChanged =>
        ret (Some (lit "Chat name changed."), [text "Chat-Group-Name-Changed" (arg Param.Arg)])
    | SystemMessage.GroupDescriptionChanged =>
        ret (Some (lit "[Chat description changed. To see this and other new features, please update the app]"),
             [text "Chat-Group-Description-Changed" []])
    | SystemMessage.GroupImageChanged =>
        ret (Some (lit "Chat image changed."),
             text "Chat-Content" (lit "group-avatar-changed")
             :: if bool_decide (image = None) && encrypted then [raw "Chat-Group-Avatar" (lit "0")] else [])
    | _ => ret (None, [])
    end.

Definition description_headers (chat : Chat) (msg : OutMsg) : C (list header) :=
  if in_group chat
     && (bool_decide (om_cmd msg ∈ [SystemMessage.GroupDescriptionChanged; SystemMessage.MemberAddedToGroup])
         || om_flag msg Param.AttachChatAvatarAndDescription)
  then
    description <- in_db (get_chat_description (chat_id chat)) ;;
    ret (raw "Chat-Group-Description" (b_encode description)
         :: match get_i64 (chat_param chat) Param.GroupDescriptionTimestamp with
            | Some ts => [text "Chat-Group-Description-Timestamp" (print_Z ts)]
            | None => []
            end)
  else ret [].

(** The steps of a handshake. *)
Definition securejoin_headers (msg : OutMsg) : list header :=
  let step := om_arg msg Param.Arg in
  if bool_decide (step = []) then []
  else
    raw "Secure-Join" step
    :: (if bool_decide (om_arg msg Param.Arg2 = []) then []
        else [text (if bool_decide (step ∈ lit <$> ["vg-request-with-auth"; "vc-request-with-auth"])
                    then "Secure-Join-Auth" else "Secure-Join-Invitenumber") (om_arg msg Param.Arg2)])
    ++ nonempty_header "Secure-Join-Fingerprint" (om_arg msg Param.Arg3)
    ++ opt_header "Secure-Join-Group" (Params_get (om_param msg) Param.Arg4).

Definition command_headers (msg : OutMsg) : C (list header) :=
  let content (s : string) := [raw "Chat-Content" (lit s)] in
  match om_cmd msg with
  | SystemMessage.LocationStreamingEnabled => ret (content "location-streaming-enabled")
  | SystemMessage.EphemeralTimerChanged => ret (content "ephemeral-timer-changed")
  | SystemMessage.LocationOnly | SystemMessage.MultiDeviceSync | SystemMessage.WebxdcStatusUpdate =>
      ret [raw "Auto-Submitted" (lit "auto-generated")]
  | SystemMessage.SecurejoinMessage => ret (securejoin_headers msg)
  | SystemMessage.ChatProtectionEnabled => ret (content "protection-enabled")
  | SystemMessage.ChatProtectionDisabled => ret (content "protection-disabled")
  | SystemMessage.IrohNodeAddr =>
      node_addr <- reading peer_node_addr ;;
      ret [text (HeaderDef.get_headername HeaderDef.IrohNodeAddr) node_addr]
  | SystemMessage.CallAccepted => ret (content "call-accepted")
  | SystemMessage.CallEnded => ret (content "call-ended")
  | _ => ret []
  end.

Definition image_header (image : option str) (encrypted : bool) : C (list header) :=
  match image with
  | Some path => if encrypted then avatar <- build_avatar_file path ;; ret [raw "Chat-Group-Avatar" (lit "base64:" ++ avatar)]
                 else ret []
  | None => ret []
  end.

(** What the type of the message and its calls say. *)
Definition call_placeholder : str :=
  lit "[This is a 'Call'. The sender uses an experiment not supported on your version yet]".

Definition viewtype_headers (msg : OutMsg) : list header :=
  let t := msg_viewtype (om_msg msg) in
  (if bool_decide (t = Viewtype.Sticker) then [raw "Chat-Content" (lit "sticker")]
   else if bool_decide (t = Viewtype.Call) then [raw "Chat-Content" (lit "call")] else [])
  ++ match Params_get (om_param msg) Param.WebrtcRoom with
     | Some offer => [raw "Chat-Webrtc-Room" (b_encode offer)]
     | None => opt_header "Chat-Webrtc-Accepted" (b_encode <$> Params_get (om_param msg) Param.WebrtcAccepted)
     end
  ++ opt_header "Chat-Webrtc-Has-Video-Initially" (b_encode <$> Params_get (om_param msg) Param.WebrtcHasVideoInitially)
  ++ (if bool_decide (t = Viewtype.Voice) then [raw "Chat-Voice-Message" (lit "1")] else [])
  ++ (let duration := default 0%Z (get_int (om_param msg) Param.Duration) in
      if bool_decide (t ∈ [Viewtype.Voice; Viewtype.Audio; Viewtype.Video]) && (0 <? duration)%Z
      then [raw "Chat-Duration" (print_Z duration)] else []).

(** The text of the message, with an HTML version if there is one. *)
Definition text_part (f : MimeFactory) (msg : OutMsg) (encrypted : bool) (placeholder : option str) : C MimePart :=
  let is_reaction := negb (default 0%Z (get_int (om_param msg) Param.Reaction) =? 0)%Z in
  let message_text := Simplify.message_text (bool_decide (mf_mode f = OutPost))
    (Params_exists (om_param msg) Param.Forwarded) encrypted (om_flag msg Param.ProtectQuote) is_reaction
    (Params_get (om_param msg) Param.Quote) (default (msg_text (om_msg msg)) placeholder) (mf_selfstatus f) in
  let part := MimePart_new (lit "text/plain") (TextBody message_text) in
  let part := if is_reaction then add_header (raw "Content-Disposition" (lit "reaction")) part else part in
  html <- (if om_html msg then
             match Params_get (om_param msg) Param.SendHtml with
             | Some html => ret (Some html)
             | None =>
                 match get_int (om_param msg) Param.Forwarded with
                 | Some orig => if (orig =? 0)%Z then ret None
                                else if (orig <? 0)%Z then fail RowIdOutOfRange
                                else reading (saved_html orig)
                 | None => ret None
                 end
             end
           else ret None) ;;
  ret (match html with
       | Some html => MimePart_new (lit "multipart/alternative")
                        (Multipart [part; MimePart_new (lit "text/html") (TextBody html)])
       | None => part
       end).

Definition is_pre (mode : OutMode) : bool := match mode with OutPre _ => true | _ => false end.

(** The attachment, or its description in a message that announces it. *)
Definition file_part (f : MimeFactory) (msg : OutMsg) : C (list header * list MimePart) :=
  if negb (Reception.has_file (msg_viewtype (om_msg msg))) then ret ([], [])
  else if is_pre (mf_mode f) then
    metadata <- reading (post_msg_metadata msg) ;;
    metadata <- ok_or metadata NoMetadata ;;
    ret ([raw (HeaderDef.get_headername HeaderDef.ChatPostMessageMetadata) metadata], [])
  else part <- build_body_file msg ;; ret ([], [part]).

(** [get_message_kml_part] and [get_location_kml_part]; the latter with the identifier of the last
    position it has. *)
Definition get_message_kml_part (msg : OutMsg) : list MimePart :=
  match Params_get (om_param msg) Param.SetLatitude, Params_get (om_param msg) Param.SetLongitude with
  | Some lat, Some lon =>
      match message_kml (om_timestamp_sort msg) lat lon with
      | Some kml => [add_attachment (lit "message.kml")
                       (MimePart_new (lit "application/vnd.google-earth.kml+xml") (TextBody kml))]
      | None => []
      end
  | _, _ => []
  end.

Definition get_location_kml_part (msg : OutMsg) : C (list MimePart * option N) :=
  sending <- reading (is_sending_to_chat (om_chat_id msg)) ;;
  kml <- (if (sending : bool) then reading (get_kml (om_chat_id msg)) else ret None) ;;
  ret (match kml with
       | Some (kml, last) =>
           ([add_attachment (lit "location.kml")
               (MimePart_new (lit "application/vnd.google-earth.kml+xml") (TextBody kml))],
            if Params_exists (om_param msg) Param.SetLatitude then None else Some last)
       | None => ([], None)
       end).

(** [build_sync_part] (sync.rs) and [build_status_update_part] (webxdc.rs). *)
Definition build_sync_part (json : str) : MimePart :=
  add_attachment (lit "multi-device-sync.json") (MimePart_new (lit "application/json") (TextBody json)).

Definition build_status_update_part (json : str) : MimePart :=
  add_attachment (lit "status-update.json") (MimePart_new (lit "application/json") (BinaryBody (str_bytes json))).

(** Items for other devices, status updates, and the channel of a mini app. *)
Definition app_parts (f : MimeFactory) (msg : OutMsg) : C (list header * list MimePart * option str) :=
  if bool_decide (om_cmd msg = SystemMessage.MultiDeviceSync) then
    ret ([], [build_sync_part (om_arg msg Param.Arg)], Some (om_arg msg Param.Arg2))
  else if bool_decide (om_cmd msg = SystemMessage.WebxdcStatusUpdate) then
    ret ([], [build_status_update_part (om_arg msg Param.Arg)], None)
  else if bool_decide (msg_viewtype (om_msg msg) = Viewtype.Webxdc) then
    created <- reading (create_iroh_header (om_id msg)) ;;
    let topic := [raw (HeaderDef.get_headername HeaderDef.IrohGossipTopic) (default created (mf_webxdc_topic f))] in
    if is_pre (mf_mode f) then ret (topic, [], None)
    else
      json <- reading (webxdc_status_updates (om_id msg)) ;;
      ret (topic, match json with Some json => [build_status_update_part json] | None => [] end, None)
  else ret ([], [], None).

Definition avatar_header (f : MimeFactory) : C (list header) :=
  if mf_attach_selfavatar f && negb (bool_decide (mf_mode f = OutPost)) then
    path <- in_account (get_config Config.Selfavatar) ;;
    match path with
    | Some path => gets (λ s, match build_avatar_file path s with
                              | (Ok avatar, _) => [raw "Chat-User-Avatar" (lit "base64:" ++ avatar)]
                              | (Err _, _) => []
                              end)
    | None => ret [raw "Chat-User-Avatar" (lit "0")]
    end
  else ret [].

(** What [render_message] gives: the headers it adds, the parts, and what is to be recorded when the
    mail is queued. *)
Record Rendered := {
  rd_headers : list header;
  rd_main : MimePart;
  rd_parts : list MimePart;
  rd_location : option N;
  rd_sync_ids : option str
}.

Definition render_message (f : MimeFactory) (chat : Chat) (msg : OutMsg) (image : option str) (encrypted : bool)
  : C Rendered :=
  verified <- verified_header chat ;;
  command <- group_command chat msg image encrypted ;;
  description <- description_headers chat msg ;;
  more <- command_headers msg ;;
  picture <- image_header image encrypted ;;
  main <- text_part f msg encrypted
            (if bool_decide (msg_viewtype (om_msg msg) = Viewtype.Call) then Some call_placeholder else command.1) ;;
  file <- file_part f msg ;;
  positions <- get_location_kml_part msg ;;
  app <- app_parts f msg ;;
  avatar <- avatar_header f ;;
  ret {| rd_headers := verified ++ group_headers chat ++ command.2 ++ description ++ more ++ picture
                       ++ viewtype_headers msg ++ file.1 ++ app.1.1 ++ avatar;
         rd_main := main;
         rd_parts := file.2 ++ get_message_kml_part msg ++ positions.1 ++ app.1.2;
         rd_location := positions.2; rd_sync_ids := app.2 |}.

(** [render_mdn]. *)
Definition render_mdn (from_addr rfc724_mid : str) (additional_msg_ids : list str) : MimePart :=
  let extension_fields :=
    if bool_decide (additional_msg_ids = []) then []
    else lit "Additional-Message-IDs: " ++ join [SP] (render_rfc724_mid <$> additional_msg_ids) ++ CRLF in
  MimePart_new (lit "multipart/report; report-type=disposition-notification")
    (Multipart
       [MimePart_new (lit "text/plain") (TextBody (lit "This is a receipt notification."));
        MimePart_new (lit "message/disposition-notification")
          (TextBody (lit "Original-Recipient: rfc822;" ++ from_addr ++ CRLF
                     ++ lit "Final-Recipient: rfc822;" ++ from_addr ++ CRLF
                     ++ lit "Original-Message-ID: <" ++ rfc724_mid ++ lit ">" ++ CRLF
                     ++ lit "Disposition: manual-action/MDN-sent-automatically; displayed" ++ CRLF
                     ++ extension_fields))]).

(** ** Rendering *)

(** [EncryptHelper] (e2ee.rs): the own address and key, the Autocrypt header, encryption. *)
Definition get_aheader (addr : str) : Aheader :=
  {| ah_addr := addr; ah_public_key := self_public_key; ah_prefer_encrypt := Mutual; ah_verified := false |}.

Definition encrypt_helper : C str :=
  addr <- in_db get_primary_self_addr ;; load_self_public_key ;;; ret addr.

Definition encrypt (keyring : list PublicKey) (mail : MimePart) (compress seipdv2 : bool) : C str :=
  ok_or (pk_encrypt (write_part mail) keyring compress seipdv2) CannotEncrypt.

Definition encrypt_symmetrically (shared_secret : str) (mail : MimePart) (compress sign : bool) : C str :=
  ok_or (symm_encrypt (write_part mail) sign shared_secret compress) CannotEncrypt.

(** The headers of [render] before those of the message itself: of the standard, of channels, of edits
    and deletions, of this program. *)
Definition address_headers (f : MimeFactory) : list header :=
  let to := listed_address <$> mf_to f in
  let past := listed_address <$> mf_past_members f in
  (lit "From", HAddress (new_address_with_name (mf_from_displayname f) (mf_from_addr f)))
  :: (match mf_sender_displayname f with
      | Some name => [(lit "Sender", HAddress (new_address_with_name name (mf_from_addr f)))]
      | None => []
      end)
  ++ [(lit "To", HAddress (NewList (if bool_decide (to = []) then [hidden_recipients] else to)))]
  ++ (if bool_decide (past = []) then [] else [(lit "Chat-Group-Past-Members", HAddress (NewList past))]).

Definition member_header (h : HeaderDef * str) : header :=
  (match h.1 with
   | HeaderDef.ChatGroupMemberTimestamps => lit "Chat-Group-Member-Timestamps"
   | _ => lit "Chat-Group-Member-Fpr"
   end, HRaw h.2).

Definition member_list_headers (now : Z) (f : MimeFactory) : C (list header) :=
  match mf_loaded f with
  | LoadedMessage chat _ =>
      l <- in_db (member_headers now chat
                    {| ml_to := mf_to f; ml_past := mf_past_members f; ml_timestamps := mf_member_timestamps f;
                       ml_fingerprints := mf_member_fingerprints f |}) ;;
      ret (member_header <$> l)
  | LoadedMdn _ _ => ret []
  end.

(** The Message-ID; a message that announces another gets one of its own. *)
Definition choose_rfc724_mid (f : MimeFactory) : C str :=
  match mf_loaded f with
  | LoadedMdn _ _ => create_outgoing_rfc724_mid
  | LoadedMessage _ msg =>
      if is_pre (mf_mode f) then
        if bool_decide (om_pre_rfc724_mid msg = []) then create_outgoing_rfc724_mid
        else ret (om_pre_rfc724_mid msg)
      else ret (om_rfc724_mid msg)
  end.

Definition reply_headers (f : MimeFactory) : list header :=
  (if bool_decide (mf_in_reply_to f = []) then [] else [mid "In-Reply-To" (mf_in_reply_to f)])
  ++ (if bool_decide (mf_references f = []) then [] else [(lit "References", HMessageId (mf_references f))]).

Definition automatic_header (f : MimeFactory) : C (list header) :=
  match mf_loaded f with
  | LoadedMdn _ _ => ret [raw "Auto-Submitted" (lit "auto-replied")]
  | LoadedMessage _ _ =>
      bot <- in_account (get_config_bool Config.Bot) ;;
      ret (if (bot : bool) then [raw "Auto-Submitted" (lit "auto-generated")] else [])
  end.

Definition PARAM_BROADCAST_SECRET : Param := Param.Arg3.

Definition channel_headers (f : MimeFactory) : list header :=
  match mf_loaded f with
  | LoadedMessage chat msg =>
      (if bool_decide (chat_typ chat ∈ [Chattype.OutBroadcast; Chattype.InBroadcast]) then
         text "Chat-List-ID" (chat_name chat ++ lit " <" ++ chat_grpid chat ++ lit ">")
         :: (if bool_decide (om_cmd msg = SystemMessage.MemberAddedToGroup) then
               match Params_get (om_param msg) PARAM_BROADCAST_SECRET with
               | Some secret => [text "Chat-Broadcast-Secret" secret]
               | None => []
               end
             else [])
       else [])
      ++ match Params_get (om_param msg) Param.TextEditFor with
         | Some original => [mid "Chat-Edit" original]
         | None =>
             match Params_get (om_param msg) Param.DeleteRequestFor with
             | Some mids => [mid "Chat-Delete" mids]
             | None => []
             end
         end
  | LoadedMdn _ _ => []
  end.

Definition mode_header (mode : OutMode) : list header :=
  match mode with
  | OutPost => [raw "Chat-Is-Post-Message" (lit "1")]
  | OutPre post => [mid "Chat-Post-Message-ID" post]
  | OutNone => []
  end.

Definition timer_header (f : MimeFactory) : C (list header) :=
  match mf_loaded f with
  | LoadedMessage _ msg =>
      timer <- get_ephemeral_timer (om_chat_id msg) ;;
      ret (if (timer =? 0)%Z then [] else [raw "Ephemeral-Timer" (print_Z timer)])
  | LoadedMdn _ _ => ret []
  end.

(** The parts of the message, as one part. *)
Definition joined_parts (msg : OutMsg) (r : Rendered) : MimePart :=
  match rd_parts r with
  | [] => rd_main r
  | parts =>
      MimePart_new (match om_cmd msg with
                    | SystemMessage.MultiDeviceSync => lit "multipart/report; report-type=multi-device-sync"
                    | SystemMessage.WebxdcStatusUpdate => lit "multipart/report; report-type=status-update"
                    | _ => lit "multipart/mixed"
                    end) (Multipart (rd_main r :: parts))
  end.

(** ** Gossip *)

(** Whether the key of a member is sent along; [ts + gossip_period] does not overflow for times the
    program writes. *)
Definition should_do_gossip (now gossip_period : Z) (multiple_recipients : bool) (cmd : SystemMessage.SystemMessage)
  (gossiped : option Z) : bool :=
  bool_decide (cmd ∈ [SystemMessage.MemberAddedToGroup; SystemMessage.SecurejoinMessage])
  || (multiple_recipients
      && ((gossip_period =? 0)%Z
          || match gossiped with None => true | Some ts => (ts + gossip_period <=? now)%Z || (now <? ts)%Z end)).

Definition gossip_header (addr : str) (key : PublicKey) (verified : bool) : header :=
  raw "Autocrypt-Gossip" (Aheader_to_string {| ah_addr := addr; ah_public_key := key;
                                               ah_prefer_encrypt := NoPreference; ah_verified := verified |}).

(** The verifier of the first contact with the fingerprint. *)
Definition is_verified_key (fingerprint : str) (s : Core) : bool :=
  match find_contact (λ r, bool_decide (c_fingerprint r = fingerprint)) (db s) with
  | Some r => negb (default 0%N (verifier s !! c_id r) =? 0)%N
  | None => false
  end.

Fixpoint gossip (now gossip_period : Z) (multiple_recipients : bool) (cmd : SystemMessage.SystemMessage)
  (chat_id : ChatId) (keys : list (str * PublicKey)) : C (list header) :=
  match keys with
  | [] => ret []
  | (addr, key) :: keys' =>
      let fingerprint := hex (key_fingerprint key) in
      gossiped <- gets (λ s, gossip_timestamp s !! (chat_id, fingerprint)) ;;
      verified <- gets (is_verified_key fingerprint) ;;
      here <- (if should_do_gossip now gossip_period multiple_recipients cmd gossiped then
                 modify (upd_gossip_timestamp (<[(chat_id, fingerprint) := now]>)) ;;;
                 ret [gossip_header addr key verified]
               else ret []) ;;
      rest <- gossip now gossip_period multiple_recipients cmd chat_id keys' ;;
      ret (here ++ rest)
  end.

(** [get_config_i64]. *)
Definition get_config_i64 (key : Config) : A Z := v <- get_config_parsed parse_i64 key ;; ret (default 0%Z v).

Definition gossip_headers (now : Z) (f : MimeFactory) (keys : list (str * PublicKey)) : C (list header) :=
  bcc_self <- (if (1 <? length keys)%nat then ret true else in_account (get_config_bool Config.BccSelf)) ;;
  gossip_period <- in_account (get_config_i64 Config.GossipPeriod) ;;
  match mf_loaded f with
  | LoadedMessage chat msg =>
      if should_hide_recipients msg chat || bool_decide (mf_mode f = OutPost) then ret []
      else gossip now gossip_period bcc_self (om_cmd msg) (chat_id chat) keys
  | LoadedMdn _ _ => ret []
  end.

(** The secret of the channel, for messages to all its subscribers. *)
Definition shared_secret (now : Z) (f : MimeFactory) : C (option str) :=
  match mf_loaded f with
  | LoadedMessage chat msg =>
      if should_encrypt_with_broadcast_secret msg chat then
        secret <- load_broadcast_secret (chat_id chat) ;;
        match secret with
        | Some _ => ret secret
        | None => add_info_msg now (chat_id chat) (stock_str BROADCAST_INCOMPATIBILITY_MSG) ;;; fail MissingSecret
        end
      else ret None
  | LoadedMdn _ _ => ret None
  end.

Definition is_securejoin_message (f : MimeFactory) : bool :=
  match mf_loaded f with
  | LoadedMessage _ msg => bool_decide (om_cmd msg = SystemMessage.SecurejoinMessage)
  | LoadedMdn _ _ => false
  end.

(** The encryption of the payload. *)
Definition seal_payload (now : Z) (f : MimeFactory) (keys : list (str * PublicKey)) (payload : MimePart) : C str :=
  let compress := negb (is_securejoin_message f) in
  secret <- shared_secret now f ;;
  match secret with
  | Some secret => encrypt_symmetrically secret payload compress true
  | None => encrypt (self_public_key :: keys.*2) payload compress (forallb (λ k, pubkey_supports_seipdv2 k.2) keys)
  end.

(** The mail from its headers and its content, with the payload if it is encrypted. *)
Definition finish (now offset : Z) (f : MimeFactory) (headers : list header) (message : MimePart)
  : C (str * option MimePart) :=
  g <- ok_or (group_headers_by_confidentiality headers (mf_from_addr f) (mf_timestamp f) offset
                (will_be_encrypted f) (is_securejoin_message f)) BadDate ;;
  match mf_encryption_pubkeys f with
  | Some keys =>
      gossiped <- gossip_headers now f keys ;;
      let payload := add_headers gossiped (add_headers_to_encrypted_part message g) in
      encrypted <- seal_payload now f keys payload ;;
      ret (render_outer_message (hc_unprotected g) (wrap_encrypted_part encrypted), Some payload)
  | None =>
      match mf_loaded f with
      | LoadedMdn _ _ => ret (render_outer_message (hc_unprotected g) message, None)
      | LoadedMessage _ _ =>
          let message := MimePart_new (lit "multipart/mixed") (Multipart [add_headers (hc_hidden g) message]) in
          ret (render_outer_message
                 (base.filter (λ h, h.1 ∉ (hc_protected g).*1) (hc_unprotected g))
                 (add_headers (hc_protected g) message), None)
      end
  end.

(** [MimeFactory::render]; the length of the member list is checked once more. *)
Definition render (now offset : Z) (f : MimeFactory) : C RenderedEmail :=
  ensure_or (bool_decide (mf_member_timestamps f = [])
             || (length (mf_to f) + length (mf_past_members f) =? length (mf_member_timestamps f))%nat) CannotRender ;;;
  members <- member_list_headers now f ;;
  subject <- subject_str f ;;
  date <- ok_or (to_rfc2822 (mf_timestamp f)) BadDate ;;
  rfc724_mid <- choose_rfc724_mid f ;;
  automatic <- automatic_header f ;;
  own_addr <- encrypt_helper ;;
  timer <- timer_header f ;;
  let headers :=
    address_headers f ++ members ++ [text "Subject" subject; raw "Date" date; mid "Message-ID" rfc724_mid]
    ++ reply_headers f ++ automatic ++ channel_headers f ++ [raw "Chat-Version" (lit "1.0")]
    ++ (if mf_req_mdn f then [raw "Chat-Disposition-Notification-To" (mf_from_addr f)] else [])
    ++ (if should_skip_autocrypt f then [] else [raw "Autocrypt" (Aheader_to_string (get_aheader own_addr))])
    ++ mode_header (mf_mode f) ++ timer in
  match mf_loaded f with
  | LoadedMessage chat msg =>
      r <- render_message f chat msg (grpimage f) (will_be_encrypted f) ;;
      message <- finish now offset f (headers ++ rd_headers r) (joined_parts msg r) ;;
      ret {| re_message := message.1; re_payload := message.2; re_is_encrypted := will_be_encrypted f;
             re_last_added_location_id := rd_location r; re_sync_ids_to_delete := rd_sync_ids r;
             re_rfc724_mid := rfc724_mid; re_subject := subject |}
  | LoadedMdn mdn_mid additional =>
      message <- finish now offset f headers (render_mdn (mf_from_addr f) mdn_mid additional) ;;
      ret {| re_message := message.1; re_payload := message.2; re_is_encrypted := will_be_encrypted f; re_last_added_location_id := None;
             re_sync_ids_to_delete := None; re_rfc724_mid := rfc724_mid; re_subject := subject |}
  end.

(** [render_symm_encrypted_securejoin_message]. *)
Definition render_symm_encrypted_securejoin_message (now offset : Z) (step rfc724_mid : str)
  (attach_self_pubkey : bool) (auth shared_secret : str) : C str :=
  from_addr <- in_db get_primary_self_addr ;;
  date <- ok_or (to_rfc2822 now) BadDate ;;
  bot <- in_account (get_config_bool Config.Bot) ;;
  own_addr <- encrypt_helper ;;
  let headers :=
    [(lit "From", HAddress (new_address_with_name [] from_addr));
     (lit "To", HAddress (NewList [hidden_recipients]));
     text "Subject" (lit "Secure-Join"); raw "Date" date; mid "Message-ID" rfc724_mid]
    ++ (if (bot : bool) then [raw "Auto-Submitted" (lit "auto-generated")] else [])
    ++ (if attach_self_pubkey then [raw "Autocrypt" (Aheader_to_string (get_aheader own_addr))] else [])
    ++ [raw "Secure-Join" step; text "Secure-Join-Auth" auth] in
  g <- ok_or (group_headers_by_confidentiality headers from_addr now offset true true) BadDate ;;
  encrypted <- encrypt_symmetrically shared_secret
                 (add_headers_to_encrypted_part (MimePart_new (lit "text/plain") (TextBody (lit "Secure-Join"))) g)
                 false attach_self_pubkey ;;
  ret (render_outer_message (hc_unprotected g) (wrap_encrypted_part encrypted)).
End Factory.
