(* ===== verification/MimePrivacy.v ===== *)
(** MimePrivacy: what a rendered mail shows to those who carry it: the headers outside of an encrypted
    message, and to whom the rest is encrypted. *)
From S2P Require Import Prelude Monad Ids Params Membership ContactTools Headers MsgTable.
From S2P Require Import Db Contacts Recipients MemberList GroupChanges Simplify LoginParam Config Sync ChatDb ChatAssign Reception Mime MimeParser MimeFactory.

(** ** Results of operations *)

(** Whatever an operation returns has the property. *)
Definition yields {X} (Q : X -> Prop) (x : C X) : Prop := ∀ s v s', x s = (Ok v, s') → Q v.

Lemma yields_ret {X} (Q : X -> Prop) v : Q v → yields Q (ret v).
Proof. intros H s v' s' E. by injection E as <- <-. Qed.

Lemma yields_gets {X} (Q : X -> Prop) f : (∀ s, Q (f s)) → yields Q (gets f).
Proof. intros H s v s' E. by injection E as <- <-. Qed.

Lemma yields_bind {X Y} (P : X -> Prop) (Q : Y -> Prop) x (g : X -> C Y) :
  yields P x → (∀ v, P v → yields Q (g v)) → yields Q (bind x g).
Proof. intros Hx Hg s v s' (w & s1 & E1 & E2)%bind_ok. by eapply Hg; [eapply Hx|]. Qed.

Lemma yields_any {X} (x : C X) : yields (λ _, True) x.
Proof. done. Qed.

Lemma yields_fail {X} (Q : X -> Prop) e : yields Q (fail e).
Proof. done. Qed.

(** A step whose result does not matter. *)
Ltac ignore_step := eapply yields_bind; [apply yields_any|intros ? _].

(** ** Names of headers *)

(** The name of a header is one of these, in ASCII without a colon. *)
Definition plain_name (n : str) : bool := forallb (λ c, (c <? 128)%N && negb (c =? 58)%N) n.

Definition within (L : list string) (h : header) : Prop :=
  existsb (λ n, bool_decide (to_ascii_lowercase h.1 = lit n)) L && plain_name h.1 = true.

Lemma within_weaken L L' l :
  forallb (λ n, existsb (String.eqb n) L') L = true → Forall (within L) l → Forall (within L') l.
Proof.
  intros HL. apply List.Forall_impl. intros h [Hn Ha]%andb_true_iff. apply andb_true_iff. split; [|done].
  apply existsb_exists in Hn as (n & Hin & Hn). rewrite forallb_forall in HL. apply HL, existsb_exists in Hin as (n' & ? & ->%String.eqb_eq).
  apply existsb_exists. by exists n'.
Qed.

Ltac names_tac :=
  repeat first
    [ progress case_match
    | apply Forall_app; split
    | constructor; [vm_compute; reflexivity|]
    | solve [constructor] ].

(** The names of the headers an encrypted mail shows outside. *)
Definition seen_names : list string :=
  ["message-id"; "from"; "to"; "date"; "subject"; "chat-version"; "autocrypt-setup-message"; "chat-is-post-message"].

Definition apart_from (L L' : list string) : bool :=
  forallb (λ n, forallb (λ m, bool_decide (lit n ≠ lit m)) L') L.

Definition covert (h : header) : Prop := ∀ n, n ∈ seen_names → to_ascii_lowercase h.1 ≠ lit n.

Lemma within_apart L L' h n : apart_from L L' = true → within L h → n ∈ L' → to_ascii_lowercase h.1 ≠ lit n.
Proof.
  intros HL [(m & Hm & ->%bool_decide_eq_true)%existsb_exists _]%andb_true_iff Hn.
  unfold apart_from in HL. rewrite forallb_forall in HL. specialize (HL _ Hm). rewrite forallb_forall in HL.
  apply list_elem_of_In in Hn. by specialize (HL _ Hn) as ?%bool_decide_eq_true.
Qed.

Lemma covert_within L l : apart_from L seen_names = true → Forall (within L) l → Forall covert l.
Proof. intros HL. apply List.Forall_impl. intros h Hh n. by eapply within_apart. Qed.

Section Seen.
Context {PF : Platform} {OS : Outside} {JS : Json SyncItem} {OP : OpenPgp} {MP : Mailparse} {MB : MailBuilder}
  {MT : Materials}.

(** What an encrypted mail shows of a header. *)
Definition seen (from_addr : str) (date : option str) (h : header) : list header :=
  let name := to_ascii_lowercase h.1 in
  let named (s : string) := bool_decide (name = lit s) in
  if named "message-id" then [h]
  else if is_hidden name then []
  else if named "from" then [(h.1, HAddress (NewAddress None from_addr))]
  else if named "to" then [(lit "To", HAddress hidden_recipients)]
  else if named "chat-broadcast-secret" then []
  else if named "date" then match date with Some d => [raw "Date" d] | None => [] end
  else if named "subject" then [raw "Subject" (lit "[...]")]
  else if named "chat-version" || named "autocrypt-setup-message" || named "chat-is-post-message" then [h]
  else [].

Lemma covert_seen from_addr date h : covert h → seen from_addr date h = [].
Proof.
  intros H. unfold seen.
  assert (∀ n, n ∈ seen_names → bool_decide (to_ascii_lowercase h.1 = lit n) = false) as Hn
    by (intros n Hn; by apply bool_decide_eq_false_2, H).
  rewrite (Hn "message-id"), (Hn "from"), (Hn "to"), (Hn "date"), (Hn "subject"), (Hn "chat-version"),
    (Hn "autocrypt-setup-message"), (Hn "chat-is-post-message") by (unfold seen_names; set_solver).
  destruct (is_hidden _); [done|]. by destruct (bool_decide _).
Qed.

Lemma covert_all_seen from_addr date l : Forall covert l → l ≫= seen from_addr date = [].
Proof. induction 1 as [|h l H _ IH]; [done|]. csimpl. by rewrite covert_seen, IH. Qed.

Lemma group_header_seen from_addr date sj g h g' :
  group_header from_addr date true sj g h = Some g' →
  hc_unprotected g' = hc_unprotected g ++ seen from_addr date h.
Proof.
  unfold group_header, seen. cbn [andb orb]. intros G.
  repeat match type of G with context [if ?b then _ else _] => destruct b eqn:? end;
    try (destruct date; [|discriminate G]); injection G as <-; cbn; by rewrite ?app_nil_r.
Qed.

Lemma group_header_date from_addr date sj g h :
  to_ascii_lowercase h.1 = lit "date" → is_Some (group_header from_addr date true sj g h) → is_Some date.
Proof. intros E. unfold group_header. rewrite E. destruct date; [done|]. intros [? G]. discriminate G. Qed.

Lemma group_all_seen from_addr date sj l : ∀ g g',
  group_all from_addr date true sj g l = Some g' →
  hc_unprotected g' = hc_unprotected g ++ (l ≫= seen from_addr date)
  ∧ Forall (λ h, to_ascii_lowercase h.1 = lit "date" → is_Some date) l.
Proof.
  induction l as [|h l IH]; intros g g' G; [injection G as <-; by rewrite app_nil_r|].
  cbn in G. destruct (group_header _ _ _ _ _ _) as [g1|] eqn:E; [|discriminate G].
  destruct (IH _ _ G) as [-> F]. rewrite (group_header_seen _ _ _ _ _ _ E), <-app_assoc. split; [done|].
  constructor; [|done]. intros D. eapply group_header_date; [done|]. by eexists.
Qed.

(** ** The headers of a message are not seen *)

Lemma verified_names chat : yields (Forall (within ["chat-verified"])) (verified_header chat).
Proof. apply yields_gets. intros s. names_tac. Qed.

Lemma group_names chat :
  Forall (within ["chat-group-id"; "chat-group-name"; "chat-group-name-timestamp"]) (group_headers chat).
Proof. unfold group_headers, nonempty_header. names_tac. Qed.

Definition group_command_names : list string :=
  ["chat-group-member-removed"; "chat-group-member-removed-fpr"; "chat-group-member-added";
   "chat-group-member-added-fpr"; "secure-join"; "chat-group-name-changed"; "chat-group-description-changed";
   "chat-content"; "chat-group-avatar"].

Lemma group_command_within chat msg image enc :
  yields (λ r, Forall (within group_command_names) r.2) (group_command chat msg image enc).
Proof.
  unfold group_command. case_match; [by apply yields_ret; constructor|].
  destruct (om_cmd msg); try (ignore_step); apply yields_ret; unfold nonempty_header; cbn [snd]; names_tac.
Qed.

Lemma description_names chat msg :
  yields (Forall (within ["chat-group-description"; "chat-group-description-timestamp"])) (description_headers chat msg).
Proof. unfold description_headers. case_match; [ignore_step|]; apply yields_ret; names_tac. Qed.

Definition command_names : list string :=
  ["chat-content"; "auto-submitted"; "secure-join"; "secure-join-auth"; "secure-join-invitenumber";
   "secure-join-fingerprint"; "secure-join-group"; "iroh-node-addr"].

Lemma command_within msg : yields (Forall (within command_names)) (command_headers msg).
Proof.
  unfold command_headers. destruct (om_cmd msg); try (ignore_step); apply yields_ret;
    unfold securejoin_headers, nonempty_header, opt_header; names_tac.
Qed.

Lemma image_names image enc : yields (Forall (within ["chat-group-avatar"])) (image_header image enc).
Proof. unfold image_header. repeat case_match; try ignore_step; apply yields_ret; names_tac. Qed.

Definition viewtype_names : list string :=
  ["chat-content"; "chat-webrtc-room"; "chat-webrtc-accepted"; "chat-webrtc-has-video-initially";
   "chat-voice-message"; "chat-duration"].

Lemma viewtype_within msg : Forall (within viewtype_names) (viewtype_headers msg).
Proof. unfold viewtype_headers, opt_header. names_tac. Qed.

Lemma file_names f msg : yields (λ r, Forall (within ["chat-post-message-metadata"]) r.1) (file_part f msg).
Proof.
  unfold file_part. repeat case_match; [by apply yields_ret; constructor|do 2 ignore_step|ignore_step];
    apply yields_ret; cbn [fst]; names_tac.
Qed.

Lemma app_names f msg : yields (λ r, Forall (within ["iroh-gossip-topic"]) r.1.1) (app_parts f msg).
Proof.
  unfold app_parts. repeat case_match; try (by apply yields_ret; constructor).
  all: ignore_step; try (apply yields_ret; cbn [fst]; names_tac).
  ignore_step. apply yields_ret; cbn [fst]; names_tac.
Qed.

Lemma avatar_names f : yields (Forall (within ["chat-user-avatar"])) (avatar_header f).
Proof.
  unfold avatar_header. case_match; [|by apply yields_ret; constructor]. ignore_step.
  case_match; [apply yields_gets; intros s|apply yields_ret]; names_tac.
Qed.

(** The headers [render_message] adds: those of the group, and others. *)
Definition other_names : list string :=
  group_command_names ++ ["chat-group-description"; "chat-group-description-timestamp"] ++ command_names
  ++ ["chat-group-avatar"] ++ viewtype_names ++ ["chat-post-message-metadata"; "iroh-gossip-topic"; "chat-user-avatar"].

Lemma render_message_names f chat msg image enc :
  yields (λ r, ∃ verified others, rd_headers r = verified ++ group_headers chat ++ others
                 ∧ Forall (within ["chat-verified"]) verified ∧ Forall (within other_names) others)
    (render_message f chat msg image enc).
Proof.
  unfold render_message.
  eapply yields_bind; [apply verified_names|intros verified ?].
  eapply yields_bind; [apply group_command_within|intros command ?].
  eapply yields_bind; [apply description_names|intros description ?].
  eapply yields_bind; [apply command_within|intros more ?].
  eapply yields_bind; [apply image_names|intros picture ?]. ignore_step.
  eapply yields_bind; [apply file_names|intros file ?]. ignore_step.
  eapply yields_bind; [apply app_names|intros app ?].
  eapply yields_bind; [apply avatar_names|intros avatar ?].
  apply yields_ret. eexists verified, _. split_and!; [done..|]. rewrite !Forall_app.
  cbv beta in *. split_and!; (eapply within_weaken; [|first [eassumption|apply viewtype_within]]); vm_compute; reflexivity.
Qed.

(** ** The type of the content *)

Definition ordinary_types : list string :=
  ["text/plain"; "multipart/alternative"; "multipart/mixed"; "multipart/report; report-type=multi-device-sync";
   "multipart/report; report-type=status-update"; "multipart/report; report-type=disposition-notification"].

(** A part of one of these types, without further headers but the disposition. *)
Definition ordinary (p : MimePart) : Prop :=
  ∃ c rest, pt_headers p = (lit "Content-Type", HContentType (lit c) []) :: rest ∧ c ∈ ordinary_types
            ∧ Forall (within ["content-disposition"]) rest.

Lemma ordinary_new c body : c ∈ ordinary_types → ordinary (MimePart_new (lit c) body).
Proof. intros H. exists c, []. split_and!; [done..|constructor]. Qed.

Ltac ordinary_tac := apply ordinary_new; unfold ordinary_types; set_solver.

Lemma text_part_ordinary f msg enc placeholder : yields ordinary (text_part f msg enc placeholder).
Proof.
  unfold text_part. ignore_step. apply yields_ret. case_match; [ordinary_tac|]. case_match; [|ordinary_tac].
  eexists _, _. split; [reflexivity|]. split; [|names_tac]. unfold ordinary_types. set_solver.
Qed.

Lemma render_message_ordinary f chat msg image enc : yields (λ r, ordinary (rd_main r)) (render_message f chat msg image enc).
Proof.
  unfold render_message. do 5 ignore_step. eapply yields_bind; [apply text_part_ordinary|intros main Hm].
  do 4 ignore_step. by apply yields_ret.
Qed.

Lemma joined_parts_ordinary msg r : ordinary (rd_main r) → ordinary (joined_parts msg r).
Proof. intros H. unfold joined_parts. destruct (rd_parts r); [done|]. destruct (om_cmd msg); ordinary_tac. Qed.

Lemma render_mdn_ordinary from_addr rfc724_mid ids : ordinary (render_mdn from_addr rfc724_mid ids).
Proof. unfold render_mdn. ordinary_tac. Qed.

(** ** The headers of every mail *)

Lemma address_seen f date :
  address_headers f ≫= seen (mf_from_addr f) date
  = [(lit "From", HAddress (NewAddress None (mf_from_addr f))); (lit "To", HAddress hidden_recipients)].
Proof. unfold address_headers. destruct (mf_sender_displayname f); repeat case_bool_decide; reflexivity. Qed.

Lemma member_list_names now f :
  yields (Forall (within ["chat-group-member-timestamps"; "chat-group-member-fpr"])) (member_list_headers now f).
Proof.
  unfold member_list_headers. case_match; [|by apply yields_ret; constructor]. ignore_step. apply yields_ret.
  apply List.Forall_map, Forall_true. intros [[] ?]; vm_compute; reflexivity.
Qed.

Lemma reply_names f : Forall (within ["in-reply-to"; "references"]) (reply_headers f).
Proof. unfold reply_headers. names_tac. Qed.

Lemma automatic_names f : yields (Forall (within ["auto-submitted"])) (automatic_header f).
Proof. unfold automatic_header. case_match; try ignore_step; apply yields_ret; names_tac. Qed.

Lemma channel_names f :
  Forall (within ["chat-list-id"; "chat-broadcast-secret"; "chat-edit"; "chat-delete"]) (channel_headers f).
Proof. unfold channel_headers. names_tac. Qed.

Lemma timer_names f : yields (Forall (within ["ephemeral-timer"])) (timer_header f).
Proof. unfold timer_header. case_match; try ignore_step; apply yields_ret; names_tac. Qed.

(** The headers outside of an encrypted message, in their order. *)
Definition outer_headers (from_addr date rfc724_mid : str) (post : bool) : list header :=
  [raw "MIME-Version" (lit "1.0"); (lit "From", HAddress (NewAddress None from_addr));
   (lit "To", HAddress hidden_recipients); raw "Subject" (lit "[...]"); raw "Date" date;
   mid "Message-ID" rfc724_mid; raw "Chat-Version" (lit "1.0")]
  ++ (if post then [raw "Chat-Is-Post-Message" (lit "1")] else []).

(** The headers a mail starts with, whatever it is. *)
Definition common_headers (f : MimeFactory) (members automatic timer : list header)
  (subject date rfc724_mid own_addr : str) : list header :=
  address_headers f ++ members ++ [text "Subject" subject; raw "Date" date; mid "Message-ID" rfc724_mid]
  ++ reply_headers f ++ automatic ++ channel_headers f ++ [raw "Chat-Version" (lit "1.0")]
  ++ (if mf_req_mdn f then [raw "Chat-Disposition-Notification-To" (mf_from_addr f)] else [])
  ++ (if should_skip_autocrypt f then [] else [raw "Autocrypt" (Aheader_to_string (get_aheader own_addr))])
  ++ mode_header (mf_mode f) ++ timer.

(** The headers of a mail: the common ones, and those of the message. *)
Inductive mail_headers (f : MimeFactory) (subject rfc724_mid : str) : list header -> Prop :=
| message_headers chat msg members automatic timer date own_addr verified others :
    mf_loaded f = LoadedMessage chat msg →
    Forall (within ["chat-group-member-timestamps"; "chat-group-member-fpr"]) members →
    Forall (within ["auto-submitted"]) automatic → Forall (within ["ephemeral-timer"]) timer →
    Forall (within ["chat-verified"]) verified → Forall (within other_names) others →
    mail_headers f subject rfc724_mid
      (common_headers f members automatic timer subject date rfc724_mid own_addr
       ++ verified ++ group_headers chat ++ others)
| mdn_headers rfc724_mid' additional members automatic timer date own_addr :
    mf_loaded f = LoadedMdn rfc724_mid' additional →
    Forall (within ["chat-group-member-timestamps"; "chat-group-member-fpr"]) members →
    Forall (within ["auto-submitted"]) automatic → Forall (within ["ephemeral-timer"]) timer →
    mail_headers f subject rfc724_mid
      (common_headers f members automatic timer subject date rfc724_mid own_addr).

Lemma common_seen f members automatic timer subject date rfc724_mid own_addr d :
  Forall covert members → Forall covert automatic → Forall covert timer →
  [raw "MIME-Version" (lit "1.0")]
    ++ (common_headers f members automatic timer subject date rfc724_mid own_addr ≫= seen (mf_from_addr f) (Some d))
  = outer_headers (mf_from_addr f) d rfc724_mid (bool_decide (mf_mode f = OutPost)).
Proof.
  intros H1 H2 H3. unfold common_headers. rewrite !bind_app, address_seen.
  rewrite !(covert_all_seen _ _ _ H1), !(covert_all_seen _ _ _ H2), !(covert_all_seen _ _ _ H3).
  rewrite (covert_all_seen _ _ (reply_headers f)), (covert_all_seen _ _ (channel_headers f))
    by (eapply covert_within; [|apply reply_names || apply channel_names]; vm_compute; reflexivity).
  unfold outer_headers. destruct (mf_req_mdn f), (should_skip_autocrypt f), (mf_mode f); reflexivity.
Qed.

Ltac covert_tac := eapply covert_within; [|eassumption || apply group_names]; vm_compute; reflexivity.

Lemma mail_headers_seen f subject rfc724_mid l d :
  mail_headers f subject rfc724_mid l →
  [raw "MIME-Version" (lit "1.0")] ++ (l ≫= seen (mf_from_addr f) (Some d))
  = outer_headers (mf_from_addr f) d rfc724_mid (bool_decide (mf_mode f = OutPost)).
Proof.
  intros [chat msg members automatic timer date own verified others _ H1 H2 H3 H4 H5|?? members automatic timer date own _ H1 H2 H3].
  - rewrite !(bind_app _ _ (verified ++ _)), !bind_app.
    rewrite (covert_all_seen _ _ verified), (covert_all_seen _ _ (group_headers chat)), (covert_all_seen _ _ others) by covert_tac.
    rewrite !app_nil_r. apply common_seen; covert_tac.
  - apply common_seen; covert_tac.
Qed.

Lemma mail_headers_date f subject rfc724_mid l : mail_headers f subject rfc724_mid l → ∃ date, List.In (raw "Date" date) l.
Proof.
  intros [?? members automatic timer date ?????????|?? members automatic timer date ?????]; exists date;
    unfold common_headers; rewrite !in_app_iff; cbn; tauto.
Qed.

(** ** The mail *)

Lemma ok_or_inv {X} (o : option X) (e : core_error) (s : Core) v s' :
  ok_or o e s = (Ok v, s') → o = Some v ∧ s' = s.
Proof. destruct o; intros E; [|discriminate E]. by injection E as <- <-. Qed.

Lemma render_inv now offset f s r s' :
  render now offset f s = (Ok r, s') →
  ∃ headers message s1,
    mail_headers f (re_subject r) (re_rfc724_mid r) headers ∧ ordinary message
    ∧ finish now offset f headers message s1 = (Ok (re_message r, re_payload r), s').
Proof.
  unfold render. intros E. apply bind_ok in E as ([] & t0 & _ & E).
  apply bind_ok in E as (members & t1 & E1%member_list_names & E).
  apply bind_ok in E as (subject & t2 & _ & E). apply bind_ok in E as (date & t3 & _ & E).
  apply bind_ok in E as (rfc724_mid & t4 & _ & E). apply bind_ok in E as (automatic & t5 & E5%automatic_names & E).
  apply bind_ok in E as (own_addr & t6 & _ & E). apply bind_ok in E as (timer & t7 & E7%timer_names & E).
  fold (common_headers f members automatic timer subject date rfc724_mid own_addr) in E.
  destruct (mf_loaded f) as [chat msg|mdn_mid additional] eqn:El.
  - apply bind_ok in E as (rd & t8 & E8 & E). pose proof (render_message_ordinary _ _ _ _ _ _ _ _ E8) as Hm.
    apply render_message_names in E8 as (verified & others & Hr & Hv & Ho).
    apply bind_ok in E as ([m p] & t9 & E9 & E). injection E as <- <-. cbn. rewrite Hr in E9.
    eexists _, _, t8. split; [by eapply message_headers|]. split; [|exact E9]. by apply joined_parts_ordinary.
  - apply bind_ok in E as ([m p] & t9 & E9 & E). injection E as <- <-. cbn.
    eexists _, _, t7. split; [by eapply mdn_headers|]. split; [|exact E9]. apply render_mdn_ordinary.
Qed.

(** How the payload was encrypted: with the secret of the channel, or to the own key and the given
    keys; always signed. *)
Inductive sealed (f : MimeFactory) (keys : list (str * PublicKey)) (payload : MimePart) (ctext : str) (s : Core) : Prop :=
| with_secret chat msg secret :
    mf_loaded f = LoadedMessage chat msg → should_encrypt_with_broadcast_secret msg chat = true →
    broadcast_secrets (db s) !! chat_id chat = Some secret →
    symm_encrypt (write_part payload) true secret (negb (is_securejoin_message f)) = Some ctext →
    sealed f keys payload ctext s
| to_keys v2 :
    (∀ chat msg, mf_loaded f = LoadedMessage chat msg → should_encrypt_with_broadcast_secret msg chat = false) →
    pk_encrypt (write_part payload) (self_public_key :: keys.*2) (negb (is_securejoin_message f)) v2 = Some ctext →
    sealed f keys payload ctext s.

Lemma seal_payload_inv now f keys payload s ctext s' :
  seal_payload now f keys payload s = (Ok ctext, s') → sealed f keys payload ctext s'.
Proof.
  unfold seal_payload. intros E. apply bind_ok in E as (secret & t & E1 & E). unfold shared_secret in E1.
  assert (Hto : secret = None → t = s → (∀ chat msg, mf_loaded f = LoadedMessage chat msg →
    should_encrypt_with_broadcast_secret msg chat = false) → sealed f keys payload ctext s').
  { intros -> -> Hn. unfold encrypt in E. apply ok_or_inv in E as [E ->]. by eapply to_keys. }
  destruct (mf_loaded f) as [chat msg|] eqn:El; [|injection E1 as <- <-; by apply Hto].
  destruct (should_encrypt_with_broadcast_secret msg chat) eqn:Es.
  - unfold load_broadcast_secret in E1. apply bind_ok in E1 as (sec & t' & G & E1). injection G as <- <-.
    destruct (broadcast_secrets (db s) !! chat_id chat) as [sec|] eqn:Eb.
    + injection E1 as <- <-. unfold encrypt_symmetrically in E. apply ok_or_inv in E as [E ->].
      by eapply with_secret.
    + apply bind_ok in E1 as (? & ? & _ & E1). discriminate E1.
  - injection E1 as <- <-. apply Hto; [done..|]. by intros c m [= <- <-].
Qed.

Lemma gossip_names now period multiple cmd chat_id keys :
  yields (Forall (within ["autocrypt-gossip"])) (gossip now period multiple cmd chat_id keys).
Proof.
  induction keys as [|[addr key] keys IH]; [by apply yields_ret; constructor|]. cbn [gossip]. do 2 ignore_step.
  eapply (yields_bind (Forall (within ["autocrypt-gossip"]))).
  - case_match; [ignore_step|]; apply yields_ret; names_tac.
  - intros here Hh. eapply yields_bind; [apply IH|intros rest Hr]. apply yields_ret, Forall_app. by split.
Qed.

Lemma gossip_headers_names now f keys : yields (Forall (within ["autocrypt-gossip"])) (gossip_headers now f keys).
Proof.
  unfold gossip_headers. do 2 ignore_step. repeat case_match; try (by apply yields_ret; constructor). apply gossip_names.
Qed.

(** What [finish] does with an encrypted mail. *)
Lemma finish_sealed now offset f headers message s m p s' keys subject rfc724_mid :
  mail_headers f subject rfc724_mid headers → mf_encryption_pubkeys f = Some keys →
  finish now offset f headers message s = (Ok (m, p), s') →
  ∃ g gossiped date ctext,
    group_headers_by_confidentiality headers (mf_from_addr f) (mf_timestamp f) offset true (is_securejoin_message f) = Some g
    ∧ p = Some (add_headers gossiped (add_headers_to_encrypted_part message g))
    ∧ Forall (within ["autocrypt-gossip"]) gossiped
    ∧ to_rfc2822 (sat_sub (mf_timestamp f) offset) = Some date
    ∧ sealed f keys (add_headers gossiped (add_headers_to_encrypted_part message g)) ctext s'
    ∧ m = render_outer_message (outer_headers (mf_from_addr f) date rfc724_mid (bool_decide (mf_mode f = OutPost)))
            (wrap_encrypted_part ctext).
Proof.
  intros Hl Hk F. unfold finish, will_be_encrypted in F. apply bind_ok in F as (g & t1 & [G ->]%ok_or_inv & F).
  rewrite Hk in F, G. apply bind_ok in F as (gossiped & t2 & Hg%gossip_headers_names & F).
  apply bind_ok in F as (ctext & t3 & S%seal_payload_inv & F). injection F as <- <- <-.
  destruct (group_all_seen _ _ _ _ _ _ G) as [Hu Hd]. destruct (mail_headers_date _ _ _ _ Hl) as [date0 Hin].
  assert (is_Some (unprotected_date (mf_timestamp f) offset)) as [d Ed].
  { rewrite List.Forall_forall in Hd. exact (Hd _ Hin eq_refl). }
  rewrite Ed in Hu. cbn [hc_unprotected] in Hu. rewrite (mail_headers_seen _ _ _ _ _ Hl) in Hu.
  exists g, gossiped, d, ctext. by rewrite Hu.
Qed.

(** An encrypted mail has the headers above and a payload that is encrypted as it should be. *)
Lemma sealed_mail now offset f s r s' keys :
  render now offset f s = (Ok r, s') → mf_encryption_pubkeys f = Some keys →
  ∃ date payload ctext,
    re_payload r = Some payload
    ∧ to_rfc2822 (sat_sub (mf_timestamp f) offset) = Some date
    ∧ sealed f keys payload ctext s'
    ∧ re_message r = render_outer_message
        (outer_headers (mf_from_addr f) date (re_rfc724_mid r) (bool_decide (mf_mode f = OutPost)))
        (wrap_encrypted_part ctext).
Proof.
  intros (headers & message & s1 & Hl & _ & F)%render_inv Hk.
  destruct (finish_sealed _ _ _ _ _ _ _ _ _ _ _ _ Hl Hk F) as (g & gossiped & date & ctext & _ & -> & _ & Hd & Hs & Hm).
  by eexists date, _, ctext.
Qed.

(** C5. Whoever carries an encrypted mail learns nothing from it but the address of the sender, the
    identifier, a date that is up to six days off, and whether it belongs to an announced message: the
    headers outside are the same for all messages, with no recipient, subject or group; everything else
    is in a payload that is encrypted with the secret of the channel, or to the own key and the keys of
    the recipients and nobody else. *)
Theorem outer_mail_reveals_nothing now offset f s r s' keys :
  render now offset f s = (Ok r, s') → mf_encryption_pubkeys f = Some keys →
  in_i64 (mf_timestamp f) = true → (0 <= offset < 518400)%Z →
  ∃ t date payload ctext,
    (mf_timestamp f - 518400 < t <= mf_timestamp f)%Z ∧ to_rfc2822 t = Some date
    ∧ re_payload r = Some payload ∧ sealed f keys payload ctext s'
    ∧ re_message r = render_outer_message
        (outer_headers (mf_from_addr f) date (re_rfc724_mid r) (bool_decide (mf_mode f = OutPost)))
        (wrap_encrypted_part ctext).
Proof.
  intros E Hk Ht Ho. destruct (sealed_mail _ _ _ _ _ _ _ E Hk) as (date & payload & ctext & Hp & Hd & Hs & Hm).
  exists (sat_sub (mf_timestamp f) offset), date, payload, ctext. split_and!; try done.
  all: unfold in_i64, sat_sub, sat_i64, i64_min, i64_max in *; lia.
Qed.

(** A handshake message that is encrypted with a shared secret shows neither its step nor the code. *)
Theorem handshake_reveals_nothing now offset step rfc724_mid attach auth secret s m s' :
  render_symm_encrypted_securejoin_message now offset step rfc724_mid attach auth secret s = (Ok m, s') →
  ∃ from_addr date payload ctext,
    to_rfc2822 (sat_sub now offset) = Some date ∧ symm_encrypt (write_part payload) attach secret false = Some ctext
    ∧ m = render_outer_message
            [raw "MIME-Version" (lit "1.0"); (lit "From", HAddress (NewAddress None from_addr));
             (lit "To", HAddress hidden_recipients); raw "Subject" (lit "[...]"); raw "Date" date; mid "Message-ID" rfc724_mid]
            (wrap_encrypted_part ctext).
Proof.
  unfold render_symm_encrypted_securejoin_message. intros E. apply bind_ok in E as (from & t1 & _ & E).
  apply bind_ok in E as (date & t2 & _ & E). apply bind_ok in E as (bot & t3 & _ & E).
  apply bind_ok in E as (own & t4 & _ & E). apply bind_ok in E as (g & t5 & [G ->]%ok_or_inv & E).
  apply bind_ok in E as (ctext & t6 & S & E). unfold encrypt_symmetrically in S. apply ok_or_inv in S as [S ->].
  injection E as <- <-. destruct (group_all_seen _ _ _ _ _ _ G) as [Hu Hd].
  assert (is_Some (unprotected_date now offset)) as [d Ed].
  { rewrite List.Forall_forall in Hd. apply (Hd (raw "Date" date)); [cbn; tauto|reflexivity]. }
  eexists from, d, _, ctext. split_and!; [done..|]. f_equal. rewrite Hu, Ed. by destruct bot, attach.
Qed.

(** The secret of a channel is in no header of a mail that is not encrypted. *)
Theorem secret_needs_encryption from_addr timestamp offset sj headers g :
  group_headers_by_confidentiality headers from_addr timestamp offset false sj = Some g →
  Forall (λ h, to_ascii_lowercase h.1 ≠ lit "chat-broadcast-secret") (hc_unprotected g ++ hc_hidden g ++ hc_protected g).
Proof.
  unfold group_headers_by_confidentiality.
  set (Q := λ h : header, to_ascii_lowercase h.1 ≠ lit "chat-broadcast-secret").
  assert (Hall : ∀ l d g g', group_all from_addr d false sj g l = Some g' →
    Forall Q (hc_unprotected g ++ hc_hidden g ++ hc_protected g) →
    Forall Q (hc_unprotected g' ++ hc_hidden g' ++ hc_protected g')).
  { induction l as [|h l IH]; intros d g0 g' G H; [by injection G as <-|]. cbn [group_all] in G.
    destruct (group_header _ _ _ _ _ _) as [g1|] eqn:E; [|discriminate G]. apply (IH _ _ _ G). clear G IH.
    unfold group_header in E. cbn [andb] in E. rewrite !Forall_app in *. destruct H as (? & ? & ?).
    repeat match type of E with context [if ?b then _ else _] => destruct b eqn:? end; injection E as <-; cbn;
      rewrite !Forall_app; split_and!; try done; repeat constructor; unfold Q; cbn [fst];
      repeat match goal with H : bool_decide _ = true |- _ => apply bool_decide_eq_true in H; rewrite H end;
      try (apply bool_decide_eq_false; assumption); try (by intros ?).
    all: intros Hs; rewrite Hs in *; discriminate. }
  intros G. apply (Hall _ _ _ _ G). cbn. repeat constructor. by vm_compute.
Qed.
End Seen.
