(* ===== verification/MimeReaders.v ===== *)
(** MimeReaders: who can read a message that is sent: the keys a message is encrypted to, and the
    addresses it is delivered to. *)
From stdpp Require Import sorting.
From S2P Require Import Prelude Monad Ids Params Membership ContactTools Headers MsgTable.
From S2P Require Import Db Contacts Recipients MemberList GroupChanges Simplify LoginParam Config Sync ChatDb ChatAssign Reception Mime MimeParser MimeFactory MimePrivacy.

Section Readers.
Context {PF : Platform} {OS : Outside} {JS : Json SyncItem} {OP : OpenPgp} {MP : Mailparse} {MB : MailBuilder}
  {MT : Materials}.

Abbreviation recipients_state := (@Recipients PublicKey).
Abbreviation step := (recipient_step key_from_slice direct_signatures signature_is_valid notations utf8 str_to_lowercase).
Abbreviation loop := (recipient_loop key_from_slice direct_signatures signature_is_valid notations utf8 str_to_lowercase).

(** ** The loop over the members *)

(** An address that is delivered to belongs to a key, or is known to have none. *)
Definition served (st : recipients_state) : Prop :=
  ∀ r, r ∈ MemberList.recipients st → r ∈ missing_key_addresses st
       ∨ ∃ addr key, (addr, key) ∈ keys st ∧ r ∈ relay_addresses key addr.

Definition row_addr (env : RenderEnv) (row : recipient_row) : str :=
  if (rr_id row =? SELF)%N then from_addr env else rr_addr row.

(** A key is that of a member, or of the member that is removed. *)
Definition key_of_row (env : RenderEnv) (row : recipient_row) (addr : str) (key : PublicKey) : Prop :=
  (∃ bytes, rr_key row = Some bytes ∧ key_from_slice bytes = Some key)
  ∧ addr = row_addr env row
  ∧ ((rr_remove row <= rr_add row)%Z ∨ email_to_remove env = Some addr).

Definition keys_from (env : RenderEnv) (rows : list recipient_row) (st : recipients_state) : Prop :=
  ∀ addr key, (addr, key) ∈ keys st → ∃ row, row ∈ rows ∧ key_of_row env row addr key.

(** The state after the relays of a row were looked up and added. *)
Lemma relays_served env id addr key st relays st' :
  hide_recipients env = false → (id =? SELF)%N = false → served st →
  relays_of direct_signatures signature_is_valid notations utf8 env id addr key st = (relays, st') →
  served (add_recipients relays st').
Proof.
  intros Hh Hid H E. unfold relays_of in E. destruct key as [key|]; injection E as <- <-; intros r Hr; cbn in *.
  - apply elem_of_app in Hr as [Hr|Hr].
    + destruct (H r Hr) as [?|(a & k & ? & ?)]; [by left|right]. exists a, k. by rewrite elem_of_app; auto.
    + right. exists addr, key. split; [|done]. rewrite elem_of_app. right. by left.
  - rewrite Hid, Hh in Hr |- *. cbn in *. apply elem_of_app in Hr as [Hr|Hr].
    + destruct (H r Hr) as [?|?]; [left; set_solver|by right].
    + left. apply list_elem_of_singleton in Hr as ->. set_solver.
Qed.

Lemma relays_keep env id addr key st relays st' :
  served st → relays_of direct_signatures signature_is_valid notations utf8 env id addr key st = (relays, st') → served st'.
Proof.
  intros H E. unfold relays_of in E. destruct key as [key|]; injection E as <- <-; intros r Hr; cbn in *.
  - destruct (H r Hr) as [?|(a & k & ? & ?)]; [by left|right]. exists a, k. by rewrite elem_of_app; auto.
  - destruct (negb _ && negb _); [|by apply H]. cbn in *. destruct (H r Hr); [left; set_solver|by right].
Qed.

Lemma served_ids id st : served st → served (add_recipient_id id st).
Proof. done. Qed.

Lemma served_member e fps t st : served st → served (push_member e fps t st).
Proof. done. Qed.

Lemma served_past e fps t st : served st → served (push_past_member e fps t st).
Proof. done. Qed.

Lemma step_served env st row st' :
  hide_recipients env = false → served st → step env st row = Ok st' → served st'.
Proof.
  intros Hh H E. unfold recipient_step in E.
  destruct (match rr_key row with None => Some None | Some b => Some <$> key_from_slice b end) as [key|]; [|discriminate E].
  rewrite Hh in E. destruct (rr_remove row <=? rr_add row)%Z.
  - destruct (relays_of _ _ _ _ _ _ _ _ _) as [relays st1] eqn:Er.
    pose proof (relays_keep _ _ _ _ _ _ _ H Er) as H1.
    destruct (recipients_contain_addr _ _ _); [injection E as <-; by apply served_ids|].
    destruct (listed_fingerprint _ _ _); [|discriminate E]. injection E as <-.
    apply served_ids, served_member. destruct (rr_id row =? SELF)%N eqn:Ei; [done|].
    exact (relays_served _ _ _ _ _ _ _ Hh Ei H Er).
  - destruct (render_time env <? _)%Z; [|by injection E as <-].
    destruct (recipients_contain_addr _ _ _); [by injection E as <-|].
    destruct (listed_fingerprint _ _ _); [|discriminate E]. injection E as <-. apply served_past.
    case_bool_decide; [|done]. destruct (relays_of _ _ _ _ _ _ _ _ _) as [relays st1] eqn:Er.
    destruct (rr_id row =? SELF)%N eqn:Ei; [exact (relays_keep _ _ _ _ _ _ _ H Er)|exact (relays_served _ _ _ _ _ _ _ Hh Ei H Er)].
Qed.

(** The keys after the relays of a row were looked up. *)
Lemma relays_keys env id addr key st relays st' :
  relays_of direct_signatures signature_is_valid notations utf8 env id addr key st = (relays, st') →
  keys st' = keys st ++ match key with Some key => [(addr, key)] | None => [] end.
Proof.
  intros E. unfold relays_of in E. destruct key as [key|]; injection E as <- <-; [done|].
  rewrite app_nil_r. by destruct (negb _ && negb _).
Qed.

Lemma row_key row (key : PublicKey) :
  match rr_key row with None => Some None | Some b => Some <$> key_from_slice b end = Some (Some key) →
  ∃ bytes, rr_key row = Some bytes ∧ key_from_slice bytes = Some key.
Proof.
  destruct (rr_key row) as [b|]; [|done]. destruct (key_from_slice b) as [k|] eqn:E; [|done].
  intros [= ->]. by exists b.
Qed.

Lemma step_keys env st row st' addr key :
  step env st row = Ok st' → (addr, key) ∈ keys st' → (addr, key) ∈ keys st ∨ key_of_row env row addr key.
Proof.
  intros E Hin. unfold recipient_step in E.
  destruct (match rr_key row with None => Some None | Some b => Some <$> key_from_slice b end) as [k|] eqn:Hk; [|discriminate E].
  fold (row_addr env row) in E.
  assert (Hrow : ∀ relays st1,
    relays_of direct_signatures signature_is_valid notations utf8 env (rr_id row) (row_addr env row) k st = (relays, st1) →
    (rr_remove row <= rr_add row)%Z ∨ email_to_remove env = Some (row_addr env row) →
    (addr, key) ∈ keys st1 → (addr, key) ∈ keys st ∨ key_of_row env row addr key).
  { intros relays st1 Er Hw Hi. rewrite (relays_keys _ _ _ _ _ _ _ Er), elem_of_app in Hi.
    destruct Hi as [?|Hi]; [by left|right]. destruct k as [k|]; [|by apply not_elem_of_nil in Hi].
    apply list_elem_of_singleton in Hi as [= -> ->]. split; [by apply row_key|done]. }
  destruct (rr_remove row <=? rr_add row)%Z eqn:Et.
  - apply Z.leb_le in Et. destruct (relays_of _ _ _ _ _ _ _ _ _) as [relays st1] eqn:Er.
    eapply Hrow; [done|by left|]. clear Hrow Er.
    repeat case_match; simplify_eq; exact Hin.
  - destruct (render_time env <? _)%Z; [|injection E as <-; by left].
    destruct (recipients_contain_addr _ _ _); [injection E as <-; by left|].
    case_bool_decide as Hr; [destruct (relays_of _ _ _ _ _ _ _ _ _) as [relays st1] eqn:Er|].
    + eapply Hrow; [done|by right|]. clear Hrow Er. repeat case_match; simplify_eq; exact Hin.
    + left. repeat case_match; simplify_eq; exact Hin.
Qed.

Lemma loop_readers env rows : ∀ st st',
  hide_recipients env = false → loop env st rows = Ok st' →
  (served st → served st')
  ∧ ∀ addr key, (addr, key) ∈ keys st' → (addr, key) ∈ keys st ∨ ∃ row, row ∈ rows ∧ key_of_row env row addr key.
Proof.
  induction rows as [|row rows IH]; intros st st' Hh E; cbn in E; [injection E as <-; by split; auto|].
  destruct (step env st row) as [st1|] eqn:E1; [|discriminate E]. destruct (IH _ _ Hh E) as [IH1 IH2].
  split; [intros H; by eapply IH1, step_served|]. intros addr key Hin.
  destruct (IH2 _ _ Hin) as [H|(r & ? & ?)]; [|right; exists r; by split; [right|]].
  destruct (step_keys _ _ _ _ _ _ E1 H) as [?|?]; [by left|right]. exists row. by split; [left|].
Qed.

(** What the members branch gives: every key is a member's, every address has a key. *)
Lemma render_recipients_readers env rows lists rcpts ks ids :
  hide_recipients env = false →
  render_recipients key_from_slice direct_signatures signature_is_valid notations utf8 str_to_lowercase env rows
    = Ok (lists, rcpts, Some ks, ids) →
  (∀ addr key, (addr, key) ∈ ks → ∃ row, row ∈ rows ∧ key_of_row env row addr key)
  ∧ ∀ r, r ∈ rcpts → ∃ addr key, (addr, key) ∈ ks ∧ r ∈ relay_addresses key addr.
Proof.
  intros Hh E. unfold render_recipients in E. destruct (loop env Recipients_new rows) as [st|] eqn:El; [|discriminate E].
  destruct (loop_readers _ _ _ _ Hh El) as [H1 H2].
  destruct (finish_lists env st) as [lists'|]; [|discriminate E]. unfold encryption_pubkeys in E. rewrite Hh in E.
  destruct (negb (MemberList.is_encrypted env)); [discriminate E|].
  destruct (bool_decide _ && _); [discriminate E|]. injection E as <- <- <- <-. split.
  - intros addr key Hin. destruct (H2 _ _ Hin) as [Hn|?]; [by apply not_elem_of_nil in Hn|done].
  - intros r [Hm Hr]%list_elem_of_filter. destruct (H1 ltac:(by intros ? ?%not_elem_of_nil) r Hr); [by exfalso; apply Hm|done].
Qed.

(** ** From the tables to the loop *)

Lemma member_rows_elem id typ pks c rows row :
  member_rows id typ pks c = Some rows → row ∈ rows →
  ∃ m r, members c !! (id, rr_id row) = Some m ∧ r ∈ contacts c ∧ c_id r = rr_id row ∧ c_addr r = rr_addr row
         ∧ rr_key row = pks !! c_fingerprint r ∧ rr_add row = add_timestamp m ∧ rr_remove row = remove_timestamp m.
Proof.
  unfold member_rows. intros E Hin. apply mapM_Some in E.
  apply list_elem_of_lookup in Hin as [i Hi]. destruct (Forall2_lookup_r _ _ _ _ _ E Hi) as ([cid m] & Hl & Hr).
  cbn in Hr. destruct (find_contact _ c) as [r|] eqn:Ef; [|discriminate Hr]. injection Hr as <-. cbn.
  unfold find_contact in Ef. apply head_Some_elem_of in Ef. apply list_elem_of_filter in Ef as [Hid Hr]. apply N.eqb_eq in Hid.
  apply list_elem_of_lookup_2 in Hl. rewrite merge_sort_Permutation in Hl.
  apply list_elem_of_omap in Hl as ([[k1 k2] m'] & Hm & Hs). apply elem_of_map_to_list in Hm.
  cbn in Hs. destruct (k1 =? id)%N eqn:E1; [|discriminate Hs]. apply N.eqb_eq in E1 as ->.
  cbn in Hs. destruct (_ || _); [|discriminate Hs]. injection Hs as <- <-. by exists m', r; rewrite Hid.
Qed.

(** What the reader of a message depends on: the tables of members, contacts and keys. *)
Definition people (s : Core) : chats_contacts * list contact_row * gmap str (list N) :=
  (members (db s), contacts (db s), public_keys s).

Definition same_people {X} (x : C X) : Prop := ∀ p, preserves (λ s, people s = p) x.

Lemma people_run {X} (x : C X) s v s' : same_people x → x s = (v, s') → people s' = people s.
Proof. intros H E. exact (preserves_run _ _ _ _ _ (H (people s)) E eq_refl). Qed.

Lemma people_account {X} (x : A X) : same_people (in_account x).
Proof. intros p s <-. unfold in_account. by destruct (x (account s)) as [[v|e] a]. Qed.

Lemma people_load id : same_people (in_db (load_from_db id)).
Proof. intros p s <-. unfold in_db, load_from_db. by destruct (chats (db s) !! id). Qed.

Lemma people_primary : same_people (in_db get_primary_self_addr).
Proof. intros p s <-. unfold in_db, get_primary_self_addr. by destruct (configured_addr (db s)). Qed.

Lemma people_fingerprint gen : same_people (in_db (self_fingerprint gen)).
Proof. intros p s <-. unfold in_db, self_fingerprint. by destruct (self_fingerprint_opt (db s)). Qed.

Lemma people_encrypted chat : same_people (ChatDb.is_encrypted chat).
Proof. intros p. unfold ChatDb.is_encrypted. preserves_tac. Qed.

(** Loading a message addresses it, with the tables as they were. *)
Lemma from_msg_inv now msg s f s' :
  from_msg now msg s = (Ok f, s') →
  ∃ chat name fp lists t t',
    people t = people s ∧ mf_loaded f = LoadedMessage chat msg
    ∧ address now (mf_from_addr f) name fp chat msg t = (Ok (lists, mf_recipients f, mf_encryption_pubkeys f), t').
Proof.
  unfold from_msg. intros E.
  apply bind_ok in E as (chat & t1 & P1%people_run & E); [|apply people_load].
  apply bind_ok in E as (from & t2 & P2%people_run & E); [|apply people_primary].
  apply bind_ok in E as (name & t3 & P3%people_run & E); [|apply people_account].
  match type of E with (let (_, _) := ?x in _) _ = _ => destruct x as [shown sender] end.
  apply bind_ok in E as (req & t4 & P4%people_run & E); [|intros p; case_match; [apply people_account|apply preserves_ret]].
  apply bind_ok in E as (fp & t5 & P5%people_run & E); [|apply people_fingerprint].
  apply bind_ok in E as ([[lists rcpts] ks] & t6 & E6 & E). cbv beta iota in E.
  repeat (apply bind_ok in E as (? & ? & _ & E)). injection E as <- _.
  exists chat, shown, fp, lists, t5, t6. split_and!; [congruence|done..].
Qed.

(** ** Who may read a message *)

(** The key of a contact that is a member, or that the message removes or is about. *)
Definition may_read (from_addr : str) (chat : Chat) (msg : OutMsg) (s : Core) (key : PublicKey) : Prop :=
  ∃ r bytes, r ∈ contacts (db s) ∧ public_keys s !! c_fingerprint r = Some bytes ∧ key_from_slice bytes = Some key
    ∧ (must_have_only_one_recipient msg chat = Some (Some (c_fingerprint r))
       ∨ ∃ m, members (db s) !! (om_chat_id msg, c_id r) = Some m
              ∧ ((remove_timestamp m <= add_timestamp m)%Z
                 ∨ om_cmd msg = SystemMessage.MemberRemovedFromGroup
                   ∧ Params_get (om_param msg) Param.Arg
                     = Some (if (c_id r =? SELF)%N then from_addr else c_addr r))).

Lemma may_read_people from_addr chat msg s t key :
  people t = people s → may_read from_addr chat msg t key → may_read from_addr chat msg s key.
Proof. unfold people, may_read. intros [= -> -> ->]. done. Qed.

Lemma address_only_readers fp from_addr chat msg t lists rcpts keys t' :
  must_have_only_one_recipient msg chat = Some (Some fp) → address_only fp t = (Ok (lists, rcpts, Some keys), t') →
  (∀ addr key, (addr, key) ∈ keys → may_read from_addr chat msg t key)
  ∧ ∀ r, r ∈ rcpts → ∃ addr key, (addr, key) ∈ keys ∧ r ∈ relay_addresses key addr.
Proof.
  intros Hm E. unfold address_only in E. apply bind_ok in E as (row & t1 & E1 & E). injection E1 as <- <-.
  apply bind_ok in E as (r & t2 & [Ef ->]%ok_or_inv & E). apply bind_ok in E as (b & t3 & E3 & E). injection E3 as <- <-.
  apply bind_ok in E as (bytes & t4 & [Eb ->]%ok_or_inv & E). apply bind_ok in E as (key & t5 & [Ek ->]%ok_or_inv & E).
  injection E as <- <- <- <-. apply head_Some_elem_of, list_elem_of_filter in Ef as [Hf Hin]. apply bool_decide_eq_true in Hf. subst fp.
  split; [|intros x Hx; exists (c_addr r), key; by split; [left|]].
  intros addr k Hk%list_elem_of_singleton. injection Hk as -> ->. exists r, bytes. split_and!; [done..|by left].
Qed.

Lemma address_members_readers now from_addr fp chat msg t lists rcpts keys t' :
  should_hide_recipients msg chat = false →
  address_members now from_addr fp chat msg t = (Ok (lists, rcpts, Some keys), t') →
  (∀ addr key, (addr, key) ∈ keys → may_read from_addr chat msg t key)
  ∧ ∀ r, r ∈ rcpts → ∃ addr key, (addr, key) ∈ keys ∧ r ∈ relay_addresses key addr.
Proof.
  intros Hh E. unfold address_members in E.
  apply bind_ok in E as (enc & t1 & P1%people_run & E); [|intros p; repeat case_match; [apply preserves_ret..|apply people_encrypted]].
  apply bind_ok in E as (rows & t2 & E2 & E). injection E2 as <- <-.
  apply bind_ok in E as (rows & t3 & [Er ->]%ok_or_inv & E).
  destruct (render_recipients _ _ _ _ _ _ _ _) as [[[[lists' rcpts'] keys'] ids]|] eqn:En; [|discriminate E].
  apply bind_ok in E as (? & ? & _ & E). injection E as <- <- -> <-.
  apply render_recipients_readers in En as [H1 H2]; [|exact Hh]. split; [|done].
  intros addr key Hin. destruct (H1 _ _ Hin) as (row & Hrow & (bytes & Hb & Hk) & -> & Hw).
  destruct (member_rows_elem _ _ _ _ _ _ Er Hrow) as (m & r & Hm & Hr & Hid & Ha & Hkey & Hadd & Hrem).
  apply (may_read_people _ _ _ _ t1); [done|]. exists r, bytes. rewrite <-Hkey. split_and!; [done..|right]. exists m.
  rewrite Hid. split; [done|]. destruct Hw as [Hw|Hw]; [left; congruence|right].
  cbn in Hw. case_bool_decide; [|discriminate Hw]. split; [done|]. unfold row_addr in Hw. by rewrite Ha.
Qed.

(** Without hidden recipients, every key is that of a reader and every address has a key. *)
Lemma from_msg_readers now msg s f s1 keys :
  from_msg now msg s = (Ok f, s1) → mf_encryption_pubkeys f = Some keys →
  ∃ chat, mf_loaded f = LoadedMessage chat msg
    ∧ (should_hide_recipients msg chat = false →
       (∀ addr key, (addr, key) ∈ keys → may_read (mf_from_addr f) chat msg s key)
       ∧ ∀ r, r ∈ mf_recipients f → ∃ addr key, (addr, key) ∈ keys ∧ r ∈ relay_addresses key addr).
Proof.
  intros E Hk. destruct (from_msg_inv _ _ _ _ _ E) as (chat & name & fp & lists & t & t' & Hp & Hl & Ha).
  exists chat. split; [done|]. intros Hh. rewrite Hk in Ha. unfold address in Ha.
  assert (Hp' : ∀ key, may_read (mf_from_addr f) chat msg t key → may_read (mf_from_addr f) chat msg s key)
    by (intros; by eapply may_read_people).
  destruct (is_self_talk chat).
  { injection Ha as <- Hr <- <-. rewrite <-Hr. split; [intros ? ? []%not_elem_of_nil|intros ? []%not_elem_of_nil]. }
  destruct (bool_decide (chat_typ chat = Chattype.Mailinglist)).
  { apply bind_ok in Ha as (? & ? & _ & Ha). discriminate Ha. }
  destruct (must_have_only_one_recipient msg chat) as [fp'|] eqn:Ho.
  - apply bind_ok in Ha as (fp1 & t1 & [-> ->]%ok_or_inv & Ha).
    destruct (address_only_readers _ (mf_from_addr f) _ _ _ _ _ _ _ Ho Ha) as [? ?]. split; [|done]. eauto.
  - destruct (address_members_readers _ _ _ _ _ _ _ _ _ _ Hh Ha) as [? ?]. split; [|done]. eauto.
Qed.

Lemma sealed_mode mode f keys payload ctext s : sealed (set_mode mode f) keys payload ctext s → sealed f keys payload ctext s.
Proof. intros [chat msg secret ????|v2 ??]; [by eapply with_secret|by eapply to_keys]. Qed.

(** C6. Only members can read a message, and whoever it is delivered to can read it: a message that is
    loaded and rendered encrypted is, unless it goes to all subscribers of a channel with the secret of
    the channel, encrypted to the own key and to keys of contacts that are members of the chat, or that
    the message removes or is about; and every address it is delivered to is an address of such a key. *)
Theorem only_members_can_read now msg mode s f s1 now' offset t r t' keys :
  from_msg now msg s = (Ok f, s1) → render now' offset (set_mode mode f) t = (Ok r, t') →
  mf_encryption_pubkeys f = Some keys →
  ∃ chat hdrs payload ctext,
    mf_loaded f = LoadedMessage chat msg ∧ re_payload r = Some payload
    ∧ re_message r = render_outer_message hdrs (wrap_encrypted_part ctext)
    ∧ ((should_hide_recipients msg chat = true
        ∧ ∃ secret, broadcast_secrets (db t') !! chat_id chat = Some secret
                    ∧ symm_encrypt (write_part payload) true secret (negb (is_securejoin_message f)) = Some ctext)
       ∨ ((∃ v2, pk_encrypt (write_part payload) (self_public_key :: keys.*2) (negb (is_securejoin_message f)) v2
                 = Some ctext)
          ∧ (∀ addr key, (addr, key) ∈ keys → may_read (mf_from_addr f) chat msg s key)
          ∧ ∀ a, a ∈ mf_recipients f → ∃ addr key, (addr, key) ∈ keys ∧ a ∈ relay_addresses key addr)).
Proof.
  intros E1 E2 Hk. destruct (from_msg_readers _ _ _ _ _ _ E1 Hk) as (chat & Hl & Hr).
  destruct (sealed_mail _ _ _ _ _ _ keys E2 Hk) as (date & payload & ctext & Hp & _ & Hs%sealed_mode & Hm).
  eexists chat, _, payload, ctext. split_and!; [done..|].
  destruct Hs as [chat' msg' secret Hl' Hsec Hb Hx|v2 Hn Hx].
  - left. rewrite Hl in Hl'. injection Hl' as <- <-. by split; [|exists secret].
  - right. specialize (Hn _ _ Hl). destruct (Hr Hn). split_and!; [by exists v2|done..].
Qed.

(** ** Gossip *)

Lemma gossip_keeps_now now period multiple cmd id keys k :
  preserves (λ s, gossip_timestamp s !! k = Some now) (gossip now period multiple cmd id keys).
Proof.
  induction keys as [|[addr key] keys IH]; [apply preserves_ret|]. cbn [gossip].
  apply preserves_bind; [apply preserves_gets|intros gossiped]. apply preserves_bind; [apply preserves_gets|intros verified].
  apply preserves_bind; [|intros here; apply preserves_bind; [done|intros; apply preserves_ret]].
  case_match; [|apply preserves_ret]. apply preserves_bind; [|intros; apply preserves_ret].
  apply preserves_modify. intros s Hs. cbn. destruct (decide (k = (id, hex (key_fingerprint key)))) as [->|Hne];
    [by rewrite lookup_insert_eq|by rewrite lookup_insert_ne].
Qed.

(** A message that adds a member, or is part of a handshake, carries the keys of all it is encrypted to,
    and the time is recorded for each: the new member can verify what the others write. *)
Theorem additions_gossip_all_keys now period multiple cmd id keys s hs s' addr key :
  gossip now period multiple cmd id keys s = (Ok hs, s') →
  cmd ∈ [SystemMessage.MemberAddedToGroup; SystemMessage.SecurejoinMessage] → (addr, key) ∈ keys →
  (∃ verified, gossip_header addr key verified ∈ hs)
  ∧ gossip_timestamp s' !! (id, hex (key_fingerprint key)) = Some now.
Proof.
  intros E Hc. revert s hs E. induction keys as [|[a k] keys IH]; intros s hs E Hin; [by apply not_elem_of_nil in Hin|].
  cbn [gossip] in E. apply bind_ok in E as (gossiped & t1 & E1 & E). injection E1 as <- <-.
  apply bind_ok in E as (verified & t2 & E2 & E). injection E2 as <- <-.
  unfold should_do_gossip in E. rewrite bool_decide_eq_true_2 in E by done. cbn [orb] in E.
  apply bind_ok in E as (here & t3 & E3 & E). apply bind_ok in E3 as ([] & t4 & E4 & E3). injection E4 as <-.
  injection E3 as <- <-. apply bind_ok in E as (rest & t5 & E5 & E). injection E as <- <-.
  apply elem_of_cons in Hin as [[= -> ->]|Hin].
  - split; [eexists; by left|]. eapply (preserves_run _ _ _ _ _ (gossip_keeps_now _ _ _ _ _ _ _) E5). cbn. by rewrite lookup_insert_eq.
  - destruct (IH _ _ E5 Hin) as [[v Hv] Ht]. split; [exists v; by right|done].
Qed.
End Readers.
