(* ===== verification/MimePayload.v ===== *)
(** MimePayload: the headers a message is rendered with are those of the payload that is sealed. *)
From S2P Require Import Prelude Monad Ids Params Membership ContactTools Headers MsgTable Simplify FormatFlowed.
From S2P Require Import Db Contacts Recipients MemberList GroupChanges LoginParam Config Sync ChatDb Verification SecureJoin ChatAssign Reception Mime MimeParser MimeTrust MimeFactory MimePrivacy.

Section Payload.
Context {PF : Platform} {OS : Outside} {JQ : Json QrInvite} {OP : OpenPgp} {MP : Mailparse} {CN : Contents}
  {JS : Json SyncItem} {JE : Json EnteredLoginParam} {JC : Json ConfiguredLoginParamJson} {IN : Intake}
  {MB : MailBuilder} {MT : Materials}.

(** ** Headers of a name *)

Definition named (k : str) (l : list header) : list header := base.filter (λ h, to_ascii_lowercase h.1 = k) l.

Lemma named_app k l l' : named k (l ++ l') = named k l ++ named k l'.
Proof. apply list.filter_app. Qed.

Lemma named_within L k l : forallb (λ n, bool_decide (lit n ≠ k)) L = true → Forall (within L) l → named k l = [].
Proof.
  intros HL. induction 1 as [|h l Hh _ IH]; [done|]. unfold named in *. rewrite filter_cons_False; [done|].
  apply andb_true_iff in Hh as [(m & Hm & ->%bool_decide_eq_true)%existsb_exists _].
  rewrite forallb_forall in HL. by specialize (HL _ Hm) as ?%bool_decide_eq_true.
Qed.

Lemma named_push k l h : named k (l ++ [h]) = named k l ++ named k [h].
Proof. apply named_app. Qed.

(** Whether headers of the name are hidden from servers that would change them. *)
Definition goes_hidden (k : str) : bool := bool_decide (k = lit "message-id") || is_hidden k.

Lemma named_self k h : to_ascii_lowercase h.1 = k → named k [h] = [h].
Proof. intros H. unfold named. by rewrite filter_cons_True. Qed.

Lemma named_other k h : to_ascii_lowercase h.1 ≠ k → named k [h] = [].
Proof. intros H. unfold named. by rewrite filter_cons_False. Qed.

Lemma group_header_parts from_addr date sj g h g' :
  group_header from_addr date true sj g h = Some g' →
  hc_protected g' = hc_protected g ++ (if goes_hidden (to_ascii_lowercase h.1) then [] else [h])
  ∧ hc_hidden g' = hc_hidden g ++ (if goes_hidden (to_ascii_lowercase h.1) then [h] else []).
Proof.
  unfold group_header, goes_hidden. cbn [andb orb]. intros G.
  repeat match type of G with context [if ?b then _ else _] => destruct b eqn:? end;
    try (destruct date; [|discriminate G]); injection G as <-; cbn; by rewrite ?app_nil_r.
Qed.

Lemma group_header_named k from_addr date sj g h g' :
  group_header from_addr date true sj g h = Some g' →
  named k (hc_protected g') = named k (hc_protected g) ++ (if goes_hidden k then [] else named k [h])
  ∧ named k (hc_hidden g') = named k (hc_hidden g) ++ (if goes_hidden k then named k [h] else []).
Proof.
  intros [-> ->]%group_header_parts. rewrite !named_app.
  destruct (decide (to_ascii_lowercase h.1 = k)) as [<-|Hne]; [by destruct (goes_hidden _)|].
  destruct (goes_hidden (to_ascii_lowercase h.1)), (goes_hidden k); by rewrite ?named_other.
Qed.

Lemma group_all_named k from_addr date sj l : ∀ g g',
  group_all from_addr date true sj g l = Some g' →
  named k (hc_protected g') = named k (hc_protected g) ++ (if goes_hidden k then [] else named k l)
  ∧ named k (hc_hidden g') = named k (hc_hidden g) ++ (if goes_hidden k then named k l else []).
Proof.
  induction l as [|h l IH]; intros g g' G; [injection G as <-; destruct (goes_hidden k); by rewrite !app_nil_r|].
  cbn [group_all] in G. destruct (group_header _ _ _ _ _ _) as [g1|] eqn:E; [|discriminate G].
  destruct (IH _ _ G) as [-> ->]. destruct (group_header_named k _ _ _ _ _ _ E) as [-> ->].
  change (h :: l) with ([h] ++ l). rewrite !named_app. destruct (goes_hidden k); by rewrite <-?app_assoc, ?app_nil_r.
Qed.

(** ** The headers of the payload *)

Lemma add_headers_app l p : pt_headers (add_headers l p) = pt_headers p ++ l.
Proof.
  revert p. induction l as [|h l IH]; intros p; [by rewrite app_nil_r|]. cbn. fold (add_headers l (add_header h p)).
  rewrite IH. cbn. by rewrite <-app_assoc.
Qed.

Lemma named_protect_type k l : k ≠ lit "content-type" → named k (protect_type l) = named k l.
Proof.
  intros Hk. induction l as [|[n v] l IH]; [done|].
  assert (Hc : ∀ h l', named k (h :: l') = named k [h] ++ named k l') by (intros; by rewrite <-named_app).
  destruct v; cbn [protect_type]; try (rewrite (Hc _ l), (Hc _ (protect_type l)), IH; done). case_bool_decide as Hn.
  - subst n. rewrite !(Hc _ l). f_equal. by rewrite !named_other by (intros <-; by apply Hk).
  - by rewrite (Hc _ l), (Hc _ (protect_type l)), IH.
Qed.

(** The headers of the payload: the type, protected and hidden headers, copies of the outer ones, keys. *)
Lemma payload_headers message g gossiped :
  ordinary message →
  ∃ c rest attrs, pt_headers (add_headers gossiped (add_headers_to_encrypted_part message g))
    = (lit "Content-Type", HContentType (lit c) attrs)
      :: rest ++ hc_protected g ++ hc_hidden g
         ++ ((λ h, (lit "HP-Outer: " ++ h.1, h.2)) <$> base.filter (λ h, is_structural h.1 = false) (hc_unprotected g))
         ++ gossiped
    ∧ c ∈ ordinary_types ∧ Forall (within ["content-disposition"]) rest ∧ (lit "hp", lit "cipher") ∈ attrs.
Proof.
  intros (c & rest & Hm & Hc & Hr). eexists c, rest, _. split_and!; [|done..|].
  - rewrite add_headers_app. unfold add_headers_to_encrypted_part. cbn [pt_headers]. rewrite !add_headers_app, Hm.
    cbn [app protect_type]. rewrite bool_decide_eq_true_2 by done.
    cbn [app]. rewrite <-!app_assoc. reflexivity.
  - cbn. set_solver.
Qed.

Lemma address_within f : Forall (within ["from"; "sender"; "to"; "chat-group-past-members"]) (address_headers f).
Proof. unfold address_headers. names_tac. Qed.

(** No copy of an outer header has a name that is looked for. *)
Lemma named_outer k l : 58%N ∉ k → named k ((λ h, (lit "HP-Outer: " ++ h.1, h.2)) <$> l) = [].
Proof.
  intros Hk. induction l as [|h l IH]; [done|]. rewrite fmap_cons. unfold named in *. rewrite filter_cons_False; [done|].
  cbn [fst]. intros <-. apply Hk. unfold to_ascii_lowercase. rewrite fmap_app. apply elem_of_app. left. by vm_compute; set_solver.
Qed.

(** The payload has the headers of the mail, each as often as it was given. *)
Lemma payload_named k headers from_addr timestamp offset sj g message gossiped :
  ordinary message →
  group_headers_by_confidentiality headers from_addr timestamp offset true sj = Some g →
  Forall (within ["autocrypt-gossip"]) gossiped → 58%N ∉ k →
  forallb (λ n, bool_decide (lit n ≠ k)) ["content-type"; "content-disposition"; "autocrypt-gossip"] = true →
  named k (pt_headers (add_headers gossiped (add_headers_to_encrypted_part message g))) = named k headers.
Proof.
  intros Hm G Hgo Hc Hk. cbn [forallb] in Hk. rewrite !andb_true_iff in Hk. destruct Hk as (K1 & K2 & K3 & _).
  destruct (payload_headers message g gossiped Hm) as (c & rest & attrs & -> & _ & Hr & _).
  change (?x :: ?y) with ([x] ++ y). rewrite !named_app, named_outer by done.
  rewrite (named_within ["content-type"]) by first [cbn [forallb]; by rewrite K1|names_tac].
  rewrite (named_within ["content-disposition"] _ rest) by first [cbn [forallb]; by rewrite K2|done].
  rewrite (named_within ["autocrypt-gossip"] _ gossiped) by first [cbn [forallb]; by rewrite K3|done].
  destruct (group_all_named k _ _ _ _ _ _ G) as [-> ->]. cbn. destruct (goes_hidden k); by rewrite ?app_nil_r.
Qed.

(** ** The headers that are sealed *)

Definition key_names : list string := ["subject"; "message-id"; "chat-group-id"; "chat-group-name"; "chat-group-name-timestamp"].

Lemma key_not_within L k l :
  k ∈ lit <$> key_names → Forall (within L) l →
  forallb (λ n, forallb (λ k, bool_decide (lit n ≠ lit k)) key_names) L = true → named k l = [].
Proof.
  intros Hk Hl HL. revert Hl. apply named_within. rewrite forallb_forall in HL |- *. intros n Hin%HL.
  rewrite forallb_forall in Hin. apply list_elem_of_fmap in Hk as (k' & -> & Hk'). by apply Hin, list_elem_of_In.
Qed.

Lemma common_named k f members automatic timer subject date rfc724_mid own_addr :
  k ∈ lit <$> key_names →
  Forall (within ["chat-group-member-timestamps"; "chat-group-member-fpr"]) members →
  Forall (within ["auto-submitted"]) automatic → Forall (within ["ephemeral-timer"]) timer →
  named k (common_headers f members automatic timer subject date rfc724_mid own_addr)
  = named k [text "Subject" subject; mid "Message-ID" rfc724_mid].
Proof.
  intros Hk H1 H2 H3. unfold common_headers. rewrite !named_app.
  rewrite (key_not_within _ _ _ Hk (address_within f)), (key_not_within _ _ _ Hk H1),
    (key_not_within _ _ _ Hk (reply_names f)), (key_not_within _ _ _ Hk H2),
    (key_not_within _ _ _ Hk (channel_names f)), (key_not_within _ _ _ Hk H3) by (vm_compute; reflexivity).
  unfold key_names in Hk. cbn [fmap list_fmap] in Hk. rewrite !elem_of_cons, elem_of_nil in Hk.
  destruct Hk as [->|[->|[->|[->|[->|[]]]]]]; destruct (mf_req_mdn f), (should_skip_autocrypt f), (mf_mode f); reflexivity.
Qed.

(** The headers of a group, or none for a receipt. *)
Definition chat_headers (l : Loaded) : list header :=
  match l with LoadedMessage chat _ => group_headers chat | LoadedMdn _ _ => [] end.

Lemma mail_headers_named k f subject rfc724_mid l :
  k ∈ lit <$> key_names → mail_headers f subject rfc724_mid l →
  named k l = named k [text "Subject" subject; mid "Message-ID" rfc724_mid] ++ named k (chat_headers (mf_loaded f)).
Proof.
  intros Hk [chat msg members automatic timer date own verified others El H1 H2 H3 H4 H5|?? members automatic timer date own El H1 H2 H3].
  - rewrite El, !named_app, common_named by done.
    rewrite (key_not_within _ _ _ Hk H4), (key_not_within _ _ _ Hk H5) by (vm_compute; reflexivity). by rewrite app_nil_r.
  - rewrite El, common_named by done. by rewrite app_nil_r.
Qed.

(** The payload of a rendered mail. *)
Lemma payload_rendered now offset f s r s' payload :
  render now offset f s = (Ok r, s') → re_payload r = Some payload →
  (∃ c attrs rest, pt_headers payload = (lit "Content-Type", HContentType (lit c) attrs) :: rest
     ∧ c ∈ ordinary_types ∧ (lit "hp", lit "cipher") ∈ attrs)
  ∧ ∀ k, k ∈ lit <$> key_names →
      named k (pt_headers payload)
      = named k [text "Subject" (re_subject r); mid "Message-ID" (re_rfc724_mid r)] ++ named k (chat_headers (mf_loaded f)).
Proof.
  intros (headers & message & s1 & Hl & Hm & F)%render_inv Hp. rewrite Hp in F.
  destruct (mf_encryption_pubkeys f) as [keys|] eqn:Hk.
  2:{ unfold finish in F. rewrite Hk in F. apply bind_ok in F as (? & ? & _ & F). by destruct (mf_loaded f). }
  destruct (finish_sealed _ _ _ _ _ _ _ _ _ _ _ _ Hl Hk F) as (g & gossiped & date & ctext & G & [= ->] & Hg & _). split.
  - destruct (payload_headers message g gossiped Hm) as (c & rest & attrs & -> & Hc & _ & Hhp). by eexists c, attrs, _.
  - intros k Hin. rewrite <-(mail_headers_named _ _ _ _ _ Hin Hl).
    unfold key_names in Hin. cbn [fmap list_fmap] in Hin. rewrite !elem_of_cons, elem_of_nil in Hin.
    eapply payload_named; [done..| |]; destruct Hin as [->|[->|[->|[->|[->|[]]]]]]; by vm_compute; set_solver.
Qed.

(** C8. What a message says of itself is sealed with it: the payload that a device encrypts carries the
    subject and the identifier of the mail, for a message of a group the identifier of the group (if it has
    one), and for a message of a group or of an own channel the name and the date of the name (if it has
    one), each exactly once and exactly as the device has them; messages of other chats, and read receipts,
    carry none of these. The payload asks the receiver, with hp="cipher" in its type, to take the headers
    from it. *)
Theorem sealed_headers_complete now offset f s r s' payload :
  render now offset f s = (Ok r, s') → re_payload r = Some payload →
  let sealed_as k := named (lit k) (pt_headers payload) in
  sealed_as "subject" = [(lit "Subject", HText (re_subject r))]
  ∧ sealed_as "message-id" = [(lit "Message-ID", HMessageId [re_rfc724_mid r])]
  ∧ (∃ c attrs rest, pt_headers payload = (lit "Content-Type", HContentType c attrs) :: rest ∧ (lit "hp", lit "cipher") ∈ attrs)
  ∧ match mf_loaded f with
    | LoadedMessage chat _ =>
        sealed_as "chat-group-id"
        = (if bool_decide (chat_typ chat = Chattype.Group ∧ chat_grpid chat ≠ [])
           then [(lit "Chat-Group-ID", HRaw (chat_grpid chat))] else [])
        ∧ sealed_as "chat-group-name"
          = (if bool_decide (chat_typ chat ∈ [Chattype.Group; Chattype.OutBroadcast])
             then [(lit "Chat-Group-Name", HText (chat_name chat))] else [])
        ∧ sealed_as "chat-group-name-timestamp"
          = (if bool_decide (chat_typ chat ∈ [Chattype.Group; Chattype.OutBroadcast]) then
               match get_i64 (chat_param chat) Param.GroupNameTimestamp with
               | Some ts => [(lit "Chat-Group-Name-Timestamp", HText (print_Z ts))]
               | None => []
               end
             else [])
    | LoadedMdn _ _ =>
        sealed_as "chat-group-id" = [] ∧ sealed_as "chat-group-name" = [] ∧ sealed_as "chat-group-name-timestamp" = []
    end.
Proof.
  intros E Hp. destruct (payload_rendered _ _ _ _ _ _ _ E Hp) as [(c & attrs & rest & Ht & _ & Hhp) Hn]. cbv beta zeta.
  rewrite !Hn by (apply list_elem_of_fmap_2; unfold key_names; set_solver).
  destruct (mf_loaded f) as [chat msg|m a]; cbn [chat_headers]; [|split_and!; [done|done|by eexists _, _, _|done..]].
  unfold group_headers, nonempty_header. destruct chat as [id typ name grpid param]. cbn [chat_typ chat_grpid chat_name chat_param].
  destruct typ, grpid, (get_i64 param Param.GroupNameTimestamp); split_and!; try reflexivity; by eexists _, _, _.
Qed.
End Payload.
