(* ===== verification/MimeSentSamples.v ===== *)
(** MimeSentSamples: Bob writes to a group with Alice: what his mail shows, who can read it, and what
    it carries. *)
From stdpp Require Import sorting.
From S2P Require Import Prelude Monad Ids Params Membership ContactTools Headers MsgTable Simplify FormatFlowed.
From S2P Require Import Db Contacts Recipients MemberList GroupChanges LoginParam Config Sync ChatDb Verification SecureJoin JoinTrust ChatAssign Reception ReceptionSafety.
From S2P Require Import Mime MimeParser MimeTrust MimeParts MimeSamples MimeFactory MimePrivacy MimeReaders MimePayload.

(** ** Bob's account and message *)

Definition bobs_db : Context :=
  {| members := list_to_map [((30%N, SELF), member); ((30%N, 11%N), member)];
     contacts := [address_row 1 ""; key_contact_row 11 "alice@x.org" alice_fp];
     contact_seq := 11; chats := list_to_map [(30%N, chat_of Chattype.Group (lit "Cinema") (lit "cinema"))];
     chats_descriptions := ∅; broadcast_secrets := ∅; configured_addr := Some (lit "bob@x.org");
     transport_addrs := [lit "bob@x.org"]; self_fingerprint_opt := Some (hex bob_fp); events := [] |}.

Definition bobs_account : Core :=
  upd_public_keys (λ _, {[ hex alice_fp := [170%N] ]}) (sample_core bobs_db [] ∅ []).

Definition film : OutMsg :=
  {| om_id := 40; om_chat_id := 30;
     om_msg := {| msg_viewtype := Viewtype.Text; msg_text := lit "At eight?"; msg_hidden := false; msg_param := Params_new |};
     om_subject := []; om_rfc724_mid := lit "film@localhost"; om_pre_rfc724_mid := []; om_timestamp_sort := 1000000;
     om_html := false |}.

Definition sample_builder : MailBuilder :=
  {| write_part := λ _, [2%N]; pk_encrypt := λ _ _ _ _, Some (lit "armor"); symm_encrypt := λ _ _ _ _, Some (lit "armor");
     pubkey_supports_seipdv2 := λ _, true; KeySig := unit; direct_signatures := λ _, []; signature_is_valid := λ _ _, true;
     notations := λ _, []; base64_encode := λ b, b; str_bytes := λ t, t; to_rfc2822 := λ t, Some (print_Z t) |}.

Definition sample_materials : Materials :=
  {| reply_columns := λ _ _, Ok ([], []); was_protected := λ _ _, false; quoted_subject := λ _ _, Ok None;
     subject_for_new_contact := λ n, lit "Message from " ++ n; saved_html := λ _ _, Ok None; get_filename := λ _, None;
     file_content := λ _ _, Ok []; avatar_content := λ _ _, Ok []; post_msg_metadata := λ _ _, Ok None;
     message_kml := λ _ _ _, None; is_sending_to_chat := λ _ _, Ok false; get_kml := λ _ _, Ok None;
     iroh_topic_for_msg := λ _ _, Ok None; create_iroh_header := λ _ _, Ok []; peer_node_addr := λ _, Ok [];
     webxdc_status_updates := λ _ _, Ok None |}.

Definition no_mail : Mailparse :=
  {| parse_mail := λ _, None;
     parse_fields := λ _, None; dateparse := λ _, None; parse_mime := sample_mime; utf8 := Some; utf8_lossy := λ b, b |}.

Section Sent.
#[local] Instance PF : Platform := sample_platform.
#[local] Instance OS : Outside := sample_outside.
#[local] Instance JQ : Json QrInvite := opaque_json _.
#[local] Instance CN : Contents := sample_contents.
#[local] Instance JS : Json SyncItem := opaque_json _.
#[local] Instance JE : Json EnteredLoginParam := opaque_json _.
#[local] Instance JC : Json ConfiguredLoginParamJson := opaque_json _.
#[local] Instance IN : Intake := idle_intake.
#[local] Instance OP : OpenPgp := sample_pgp [PubEsk []] bobs_key.
#[local] Instance MB : MailBuilder := sample_builder.
#[local] Instance MT : Materials := sample_materials.

(** Bob's message, loaded and rendered. *)
Section Rendering.
Context (MP : Mailparse).

Definition loaded_film : result MimeFactory core_error * Core := from_msg 1000 film bobs_account.

Definition rendered_film : result RenderedEmail core_error * Core :=
  match loaded_film with
  | (Ok f, s) => render 1000 60 f s
  | (Err e, s) => (Err e, s)
  end.
End Rendering.

Definition film_payload : option MimePart :=
  Eval vm_compute in match (rendered_film (no_mail)).1 with Ok r => re_payload r | Err _ => None end.

#[local] Instance MP : Mailparse := no_mail.

Definition sealed_payload (r : result RenderedEmail core_error * Core) : option MimePart :=
  match r.1 with Ok r => re_payload r | Err _ => None end.

Definition keys_of (r : result MimeFactory core_error * Core) : option (list (str * list N)) :=
  match r.1 with Ok f => mf_encryption_pubkeys f | Err _ => None end.

Lemma film_rendered :
  ∃ f s1 r s2, from_msg 1000 film bobs_account = (Ok f, s1) ∧ mf_encryption_pubkeys f = Some [(lit "alice@x.org", [170%N])]
    ∧ render 1000 60 f s1 = (Ok r, s2) ∧ re_payload r = film_payload.
Proof.
  assert (H1 : keys_of (loaded_film MP) = Some [(lit "alice@x.org", [170%N])]) by (vm_compute; reflexivity).
  assert (H2 : sealed_payload (rendered_film MP) = film_payload) by (vm_compute; reflexivity).
  assert (H3 : is_Some film_payload) by (by eexists).
  unfold rendered_film, loaded_film in *. destruct (from_msg 1000 film bobs_account) as [[f|e] s1]; [|discriminate H1].
  cbn in H1. destruct (render 1000 60 f s1) as [[r|e] s2] eqn:E.
  - exists f, s1, r, s2. by split_and!.
  - cbn in H2. rewrite <-H2 in H3. by destruct H3.
Defined.

Lemma outer_mail_reveals_nothing_witness :
  ∃ f s1 r s2, render 1000 60 f s1 = (Ok r, s2)
    ∧ ∃ t date payload ctext, re_payload r = Some payload
        ∧ sealed f [(lit "alice@x.org", [170%N])] payload ctext s2
        ∧ (mf_timestamp f - 518400 < t <= mf_timestamp f)%Z
        ∧ re_message r = render_outer_message
            (outer_headers (mf_from_addr f) date (re_rfc724_mid r) (bool_decide (mf_mode f = OutPost)))
            (wrap_encrypted_part ctext).
Proof.
  assert (H : match (loaded_film MP).1 with Ok f => mf_timestamp f = 1000000%Z | Err _ => False end) by (vm_compute; reflexivity).
  destruct film_rendered as (f & s1 & r & s2 & E1 & Hk & E2 & Hp). unfold loaded_film in H. rewrite E1 in H. cbn in H.
  exists f, s1, r, s2. split; [exact E2|].
  destruct (outer_mail_reveals_nothing 1000 60 f s1 r s2 _ E2 Hk) as (t & date & payload & ctext & Ht & _ & Hpay & Hs & Hm).
  - rewrite H. reflexivity.
  - lia.
  - exists t, date, payload, ctext. split_and!; try done; apply Ht.
Defined.

Lemma only_members_can_read_witness :
  ∃ f chat, (from_msg 1000 film bobs_account).1 = Ok f ∧ mf_loaded f = LoadedMessage chat film
    ∧ (should_hide_recipients film chat = true ∨ may_read (mf_from_addr f) chat film bobs_account [170%N]).
Proof.
  destruct film_rendered as (f & s1 & r & s2 & E1 & Hk & E2 & Hp).
  assert (E3 : render 1000 60 (set_mode (mf_mode f) f) s1 = (Ok r, s2)) by (by destruct f).
  destruct (only_members_can_read 1000 film (mf_mode f) bobs_account f s1 1000 60 s1 r s2 _ E1 E3 Hk)
    as (chat & hdrs & payload & ctext & Hl & _ & _ & H).
  exists f, chat. split_and!; [by rewrite E1|done|]. destruct H as [[Hh _]|(_ & Hr & _)]; [by left|right].
  apply (Hr (lit "alice@x.org")). by left.
Defined.

Lemma sealed_headers_complete_witness :
  ∃ payload, film_payload = Some payload
    ∧ named (lit "chat-group-id") (pt_headers payload) = [(lit "Chat-Group-ID", HRaw (lit "cinema"))]
    ∧ named (lit "chat-group-name") (pt_headers payload) = [(lit "Chat-Group-Name", HText (lit "Cinema"))].
Proof.
  assert (Hl : match (loaded_film MP).1 with
               | Ok f => mf_loaded f = LoadedMessage {| chat_id := 30; chat_typ := Chattype.Group; chat_name := lit "Cinema";
                                                        chat_grpid := lit "cinema"; chat_param := load_params [] |} film
               | Err _ => False
               end) by (vm_compute; reflexivity).
  destruct film_rendered as (f & s1 & r & s2 & E1 & Hk & E2 & Hp). unfold loaded_film in Hl. rewrite E1 in Hl. cbn in Hl.
  destruct film_payload as [payload|] eqn:Ep; [|discriminate Ep]. exists payload.
  destruct (sealed_headers_complete 1000 60 f s1 r s2 payload E2 Hp) as (_ & _ & _ & H). rewrite Hl in H.
  destruct H as (H1 & H2 & _). split_and!; [done|etrans; [exact H1|reflexivity]|etrans; [exact H2|reflexivity]].
Defined.
End Sent.
